(* ===== verification/_CoqProject ===== *)
-Q . S2P
Prelude.v
Vector32.v
Vector64.v
Vector.v
Sort.v
SortFacts.v
Utf16.v
Utf8.v
UString.v
UTrie2.v
UTrie2Facts.v
UTrie2Blocks.v
UTrie2Update.v
UTrie2Open.v
UTrie2Freeze.v
UTrie2Pack.v
UTrie2Data.v
UTrie2Index.v
UTrie2Frozen.v
UTrie2Spec.v
UTrie2Overflow.v
StringSearch.v
StringSearchFacts.v
StringStore.v
StringEdit.v
StringStoreFacts.v
StringCloneFacts.v
StringEditFacts.v
StringCopyFacts.v
StringInPlaceFacts.v
StringRefinement.v
StringReverse.v
StringFind.v
StringFindFacts.v
UHash.v
UHashFacts.v
UHashKeys.v
UHashMap.v
UHashSpec.v
UHashEquals.v
StringConv.v
StringConvFacts.v
InversionList.v
BMPSet.v
BMPSetUtf8.v
StringTokens.v
UnicodeSet.v
UnicodeSetFacts.v
UnicodeSetAlgebra.v
UnicodeSetFreeze.v
UnicodeSetConstruct.v
UnicodeSetSerial.v
SerializedSet.v
UnicodeSetIndex.v
SetIterator.v
UnicodeSetSpan.v
StringSpanLoop.v
UnicodeSetStringSpan.v
StringSpanFacts.v
StringSpanText.v
StringSpanUtf16.v
StringSpanBuild.v
StringSpanSet.v
StringSpanUtf8.v
Punycode.v
PunycodeFacts.v
