(* ===== verification/Prelude.v ===== *)
(** * ICU4C core: a verification library

    This library models the part of ICU4C (src/source/common) on which its sets of characters
    rest, and proves it correct: the growable vectors, the hash table, UTF-16 and UTF-8 text, the
    conversions between them, string comparison, sorting, inversion lists, the bit-table lookup of
    frozen sets, the class UnicodeSet with its string spans, iterator and serialized form,
    Punycode, the class UnicodeString with its shared, copy-on-write storage, and the trie of
    Unicode values, from its builder to its frozen form.

    ** The program

    ICU's [UnicodeSet] is a mutable set of code points and of strings.  It keeps the code points
    as an inversion list, merges lists with three loops ([exclusiveOr], [add], [retain]), keeps
    the strings sorted in a [UVector] of [UnicodeString] that it owns, and can be frozen: it then
    answers [contains] and the spans over UTF-16 and UTF-8 text from a [BMPSet], bit tables built
    from the list, and, when it has strings, from a [UnicodeSetStringSpan], which searches for
    concatenations of the elements.  Text may hold unpaired surrogates and ill-formed bytes; it is
    stepped over with the macros of utf16.h and utf8.h, compared in code unit or code point order
    by ustring.cpp and converted by ustrtrns.cpp.  [UHashtable] (uhash.c) is the map that most of
    the library uses: double hashing in one array whose length is taken from a list of primes.
    [UnicodeString] (unistr.cpp) keeps its text in the object, in a reference-counted array that
    copies share until one of them is changed, or in memory of the caller.  [UTrie2] (utrie2.h,
    utrie2_builder.cpp) maps code points to integers: the builder shares and counts blocks of 32
    values, [utrie2_freeze] packs them, overlapping where it can, into one array that the getter
    macros read.
    Punycode (punycode.cpp) is the encoding of internationalized domain labels.  Every class
    reports lack of memory in its own way: the vectors, the hash table and the conversions by an
    error code, [UnicodeSet] and [UnicodeString] by their bogus states.

    ** The files

    - Prelude.v: arrays as lists with checked access, 32-bit integers, error codes, the allocator
      (class [Heap]), shift loops and binary search, tactics and hints shared by all files.
    - Vector32.v, Vector64.v: [UVector32] and [UVector64] (uvectr32.cpp, uvectr64.cpp), one model
      at two cell widths; invariant [wf], abstraction [contents].
    - Vector.v: [UVector] and [UStack] (uvector.cpp, ustack.cpp) over objects of any type, with a
      log of what the deleter was called on, so that ownership can be stated.
    - Sort.v: uarrsort.c, the insertion sort and the quicksort behind [uprv_sortArray], and the
      sorts of [UVector] on it; SortFacts.v: that they sort.
    - Utf16.v: the macros of unicode/utf.h and utf16.h; [code_points] decodes any 16-bit text.
      Utf8.v: the macros of utf8.h and the functions behind them in utf_impl.c; [pieces] parts any
      bytes into code points and ill-formed sequences.
    - UString.v: the counting and comparing functions of ustring.cpp, and the read-only methods of
      [UnicodeString] (unistr.cpp, unistr.h) that the set uses.
    - StringSearch.v: the searching functions of ustring.cpp: substrings, units and code points,
      forwards and backwards, sets of code points, tokens.  StringSearchFacts.v: what an
      occurrence is ([occurs]) and that the first or the last one is found.  StringTokens.v: the
      functions for sets, and the tokens of a text.
    - StringStore.v: the storage of [UnicodeString]: a store of objects, with their flags and their
      union, and of memory blocks with reference counts; allocation, release and
      [cloneArrayIfNeeded].  StringEdit.v: construction, assignment, moving and every method that
      changes the text, as functions on the store.  StringStoreFacts.v: the invariant [wf] (counts
      are numbers of owners, what an object writes to is used by no other) and [frame], what an
      operation on one object leaves alone.  StringCloneFacts.v: allocation, release and cloning;
      StringEditFacts.v: appending and replacing; StringCopyFacts.v: copying, moving, swapping,
      destroying; StringInPlaceFacts.v: writing, cutting, padding and the buffer.
      StringRefinement.v: programs on many strings against a map of values ([step_value]).
      StringReverse.v: reversal by code points.  StringFind.v: [indexOf], [lastIndexOf] and
      [findAndReplace]; StringFindFacts.v: what is found and replaced.
    - UTrie2.v: the build-time trie of utrie2_builder.cpp and the functions that change its values.
      UTrie2Facts.v: the invariant [inv] (every slot, a run of 32 code points or lead surrogate
      code units, has one entry in the index-2 table, blocks are counted by the slots that point to
      them, free blocks are chained, blocks with several slots hold one value);
      UTrie2Blocks.v: allocation, counting and release of blocks; UTrie2Update.v: setting one value
      and ranges; UTrie2Open.v: the new trie.  UTrie2Freeze.v: the getters, compaction and
      freezing.  UTrie2Pack.v: one step of packing; UTrie2Data.v and UTrie2Index.v: [compactData],
      [compactIndex2] and [findHighStart]; UTrie2Frozen.v: the frozen arrays and what is read from
      them; UTrie2Spec.v: programs on a trie against two functions ([spec_calls]);
      UTrie2Overflow.v: freezing a trie whose array of values is full.
    - UHash.v: uhash.c, with the table as the record of its members and a log for each deleter.
      UHashFacts.v: the lengths are prime, the probe sequence visits every slot, the invariant
      [wf] and the effect of a rehash.  UHashKeys.v: the hash functions and comparators for
      strings and integers.  UHashMap.v: each operation on the pairs of a table.  UHashSpec.v:
      sequences of operations against an association list.  UHashEquals.v: searching, iterating
      and comparing tables.
    - StringConv.v: [u_strFromUTF8WithSub] and [u_strToUTF8WithSub] of ustrtrns.cpp;
      StringConvFacts.v: what they write, and the round trips.
    - InversionList.v: [pinCodePoint], [findCodePoint] and the three merging loops of uniset.cpp on
      arrays; [inv_mem] is the meaning of a list, [wf_list] its invariant.
    - BMPSet.v: bmpset.cpp, the tables and the lookups over UTF-16; [represents] relates tables and
      list.  BMPSetUtf8.v: the UTF-8 spans.
    - UnicodeSet.v: every method of uniset.cpp that reads or changes the object, as a function on
      the record of its members.  UnicodeSetFacts.v: the invariant [wf] of the object ([live]: not
      frozen and not bogus; [failed]: empty and bogus) and that the mutating methods keep it.
    - UnicodeSetAlgebra.v: operations on sets, ranges and strings as operations on sets;
      UnicodeSetFreeze.v: freezing and immutability; UnicodeSetConstruct.v: constructors and
      assignment; UnicodeSetSerial.v: serialization; UnicodeSetIndex.v: elements by index;
      UnicodeSetSpan.v: spans over text of sets without relevant strings.
    - SerializedSet.v: [USerializedSet] of uset.cpp, lookup in a serialized set in place.
      SetIterator.v: [UnicodeSetIterator] (usetiter.cpp) against an abstract cursor.
    - StringSpanLoop.v: [OffsetList] and the loops of unisetspan.cpp, once for the four directions
      and encodings; UnicodeSetStringSpan.v: the class with its constructors and its eight spans.
      StringSpanFacts.v: the loops on abstract matches; StringSpanText.v: texts as lists of
      positions; StringSpanUtf16.v and StringSpanUtf8.v: the spans over either encoding;
      StringSpanBuild.v: the constructor; StringSpanSet.v: spans of sets with strings.
    - Punycode.v: punycode.cpp and [u_terminateUChars].  PunycodeFacts.v: round trip and safety.

    ** Conventions of the models

    An array is the list of its cells; [zget] and [zset] give [None] outside it, and every function
    of the models propagates [None].  So a theorem that a function returns [Some] says that it
    neither reads nor writes outside its arrays nor through a null pointer.  Integers are [Z];
    where the code's arithmetic could leave 32 bits, it goes through [int32], [uint32], [uint16]
    or through [checked], which gives [None] on signed overflow.  An allocation is granted or
    refused by the class [Heap], and fresh memory holds [junk]; [refused] says that a request of at
    most [INT32_MAX] bytes was refused, so theorems that allow a failure only with [refused] say
    that the operation succeeds whenever the allocator serves such requests.  The sizes of C++
    objects are the class [ObjectSizes].  Pointers that may be null are options, and error codes
    are passed along.  Loops are structural over their trip count, or take fuel, with [None] when
    it runs out: since the theorems state results [Some _], they include that the fuel is enough.
    The fuel is the number of units or values left (a loop over a text or a list), the number of
    slots (a search or a loop over a hash table), the length of an array (the sorts; a quicksort
    splits off at least one item), 33 for [adaptBias] and 32 for the digits of one
    Punycode integer, both more than the divisions that an int32 allows.  The water ratios of a
    hash table are floats, kept as fractions with the rounding of single precision written out.

    ** What the theorems show

    - Sets: [addAll_union], [retainAll_intersection], [removeAll_difference],
      [complementAll_symmetric_difference], [range_operations] and [string_operations]: on code
      points and on strings, for every well-formed set, keeping the invariant; the queries
      ([containsAll_inclusion], [containsNone_disjoint], [operator_eq_same_set]), the elements in
      order ([elements_by_index]; [iterator_refines_cursor] and [iteration_complete] for the
      iterator), serialization ([serialize_roundtrip]) and lookup in the serialized form
      ([serialized_lookup_agrees], [setSerializedToOne_contains]).
    - Lookup and spans: the bit tables agree with the inversion list on every integer and over
      every text ([BMPSet_contains], [BMPSet_span]), freezing changes no element and a frozen set
      does not change ([freeze_preserves], [frozen_immutable]), so spans are the same frozen and
      not frozen ([span_longest_run], for sets without strings that matter for spans); with strings
      they find the furthest concatenation of elements ([span_with_strings],
      [spanUTF8_with_strings]).
    - Text: iteration in both directions and appending are inverse ([utf16_iteration_roundtrip],
      [utf8_iteration], [utf8_append_roundtrip]), conversion ([u_strFromUTF8_correct],
      [u_strToUTF8_correct], [utf8_utf16_roundtrip]), comparison in code point order
      ([strCompare_code_point_order]), searching ([u_strFind_correct],
      [strspn_strcspn_strpbrk]), tokens ([strtok_tokens]), Punycode ([punycode_roundtrip],
      [punycode_decoder_safe]).  Bounds: texts whose UTF-16 form has at most [INT32_MAX] units are
      converted from UTF-8, texts of at most a quarter of that to UTF-8; Punycode up to 200 code
      points.  Occurrences are those of the text alone ([occurs]); the search is right where it
      does not have to know the unit behind a counted text ([settled]).
    - Hash tables: every sequence of operations is that of an association list
      ([uhash_refines_map]); searches end ([uhash_find_terminates]), tables stay half empty and do
      not churn ([uhash_load_bounded], [rehash_does_not_churn]), objects are deleted once
      ([uhash_objects_deleted_once]), iteration is complete, equality is equality of maps, and the
      library's key functions keep the contract ([uhash_iteration_complete], [uhash_equals_maps],
      [library_functions_agree]).  The specification has the documented meaning of storing a null
      or a 0, which is to remove; calls in which the code does otherwise are left out of the
      theorems on runs ([op_ok], [null_key_ok]).  Bounds: up to [2 ^ 24] elements, the lengths whose array has at
      most [INT32_MAX] bytes.
    - Sorting: [sortArray_sorts] for any array and total preorder, [stableBinarySearch_last],
      [vector_sorted].
    - Vectors: ownership in bulk removal ([bulk_removal_ownership]), sorted insertion
      ([sortedInsert_sorted]), insertion as refinement of list insertion
      ([insertElementAt_refines]).
    - Strings: every command has the effect that it has on values, whatever arrays are shared, and
      keeps the invariant ([string_command_refines], [string_program_values]); the destructors
      free every array once ([strings_freed]); [getBuffer] and [releaseBuffer]
      ([buffer_roundtrip]); reversal ([doReverse_code_points]); [findAndReplace]
      ([findAndReplace_replaces]).  Bounds: texts of at most
      [2 ^ 29] units, so that the growth by a quarter stays within what [allocate] can count.
      The source of an append or a replacement is another object or the caller's memory;
      [self_append_reads_freed] says what happens when it is the string itself.
    - Tries: programs of changes are changes of functions ([trie_calls_refine]) and freezing keeps
      all values ([freeze_keeps_values]); the builder never needs more blocks than its array can
      have ([blocks_bound]).  Compaction stores one more value without asking for room, so the
      theorem on freezing asks that the array of values is not full;
      [freeze_writes_past_full_array] has a program of calls that fills it.
    - Where the code does not do what it or its documentation means, a theorem says what it does
      ([serialized_supplementary_lookup_diverges], [self_append_reads_freed],
      [freeze_writes_past_full_array], [strtok_splits_pair], [counted_lead_missed],
      [fromUTF8_overflows], [puti_zero_stored], [put_null_key_lost],
      [assign_to_bogus_stays_bogus], [serialized_header_trusted] and the examples beside them).

    ** Interfaces

    [Class Heap] is what the classes expect of the allocator.  [Class Callbacks] is what a hash
    table calls through its function pointers, with the contract [hash_ok], against which the
    theorems on tables are proved; [library_callbacks] is the instance with the library's own
    functions.  [Class StringSpan] is what UnicodeSet uses of UnicodeSetStringSpan, and
    [Class StringSpanLaws] in UnicodeSetFreeze.v what it expects of it; the instance [string_span]
    in UnicodeSetStringSpan.v is the model of unisetspan.cpp, and StringSpanSet.v has its laws.

    ** Not modelled

    Destructors but that of UnicodeString (they only free memory), a null [pErrorCode], aliasing of
    the two operands of a set's method ([s.addAll(s)]), changes of a set while it is iterated over,
    the pattern syntax of UnicodeSet, [UVector::toArray], the class Hashtable (hash.h, a wrapper),
    the UTF-32, lenient and modified UTF-8 conversions, threads that change a reference count at
    the same time (the counts are atomic; the model runs one operation after the other), trimming
    of UnicodeString, enumerating, serializing and swapping tries, and everything that rests on
    Unicode data: properties,
    normalization, case mapping, collation, break iteration, converters, resource bundles and
    formatting.  The set keeps its strings as values (UString.v); that this is sound is what
    StringRefinement.v shows of the objects. *)

From Stdlib Require Export ZArith Lia Bool.
From stdpp Require Export base numbers list option sorting sets gmap.
#[global] Open Scope Z_scope.

(** ** Notations and scopes *)

Declare Scope icu_scope.
Delimit Scope icu_scope with icu.

(** The length of an array, as the [int32_t] the sources count with. *)
Definition zlen {A} (l : list A) : Z := Z.of_nat (length l).

(** [l[i]]: [None] is a read outside the array. *)
Definition zget {A} (l : list A) (i : Z) : option A :=
  if 0 <=? i then l !! Z.to_nat i else None.

(** [l[i]=x]: [None] is a write outside the array. *)
Definition zset {A} (l : list A) (i : Z) (x : A) : option (list A) :=
  if (0 <=? i) && (i <? zlen l) then Some (<[Z.to_nat i := x]> l) else None.

Notation "l .[ i ]" := (zget l i) (at level 1, left associativity, format "l .[ i ]") : icu_scope.
Notation "l .[ i <- x ]" := (zset l i x) (at level 1, left associativity, format "l .[ i <- x ]") : icu_scope.
#[global] Open Scope icu_scope.

(** The first [n] cells of an array. *)
Definition ztake {A} (n : Z) (l : list A) : list A := take (Z.to_nat n) l.

(** ** Machine integers *)

Definition INT32_MAX : Z := 2147483647.
Definition INT32_MIN : Z := -2147483648.

(** Conversion of a mathematical integer to [int32_t], [uint32_t], [uint16_t], [uint8_t]. *)
Definition int32 (z : Z) : Z := (z + 2147483648) mod 4294967296 - 2147483648.
Definition uint32 (z : Z) : Z := z mod 4294967296.
Definition uint16 (z : Z) : Z := z mod 65536.
Definition uint8 (z : Z) : Z := z mod 256.

Definition is_int32 (z : Z) : Prop := INT32_MIN <= z <= INT32_MAX.

Lemma int32_small z : is_int32 z -> int32 z = z.
Proof. unfold is_int32, INT32_MIN, INT32_MAX, int32. intros. rewrite Z.mod_small by lia. lia. Qed.

(** Signed 32-bit arithmetic: an overflow has no result. *)
Definition checked (z : Z) : option Z :=
  if (INT32_MIN <=? z) && (z <=? INT32_MAX) then Some z else None.

Lemma checked_in z : INT32_MIN <= z <= INT32_MAX -> checked z = Some z.
Proof. intros. unfold checked. destruct (_ && _) eqn:E; [done|lia]. Qed.

Lemma checked_out z : INT32_MAX < z -> checked z = None.
Proof. intros. unfold checked. destruct (_ && _) eqn:E; [lia|done]. Qed.

(** ** Error codes (unicode/utypes.h) *)

Inductive UErrorCode :=
  | U_ZERO_ERROR
  | U_STRING_NOT_TERMINATED_WARNING
  | U_ILLEGAL_ARGUMENT_ERROR
  | U_INTERNAL_PROGRAM_ERROR
  | U_MEMORY_ALLOCATION_ERROR
  | U_INDEX_OUTOFBOUNDS_ERROR
  | U_INVALID_CHAR_FOUND
  | U_TRUNCATED_CHAR_FOUND
  | U_ILLEGAL_CHAR_FOUND
  | U_BUFFER_OVERFLOW_ERROR
  | U_INVALID_FORMAT_ERROR
  | U_NO_WRITE_PERMISSION.

#[export] Instance UErrorCode_eq_dec : EqDecision UErrorCode.
Proof. solve_decision. Defined.

Definition U_FAILURE (e : UErrorCode) : bool :=
  match e with
  | U_ZERO_ERROR | U_STRING_NOT_TERMINATED_WARNING => false
  | _ => true
  end.

Definition U_SUCCESS (e : UErrorCode) : bool := negb (U_FAILURE e).

(** ** The heap (cmemory.c)

    The C library's allocator is outside the repository: whether a request of so many
    bytes succeeds, and what fresh memory holds, are the parameters of the class. *)

Class Heap := {
  alloc_ok : Z -> bool;   (* a request of that many bytes is granted *)
  junk : Z                (* the contents of fresh memory, as an integer cell *)
}.

Section Heap.
Context `{Heap} {A : Type} (fresh : A).

(** [(T * )uprv_malloc(size*n)] for [size = sizeof(T)]: [None] is the null pointer. *)
Definition uprv_malloc (size n : Z) : option (list A) :=
  if 0 <? size * n
  then if alloc_ok (size * n) then Some (replicate (Z.to_nat n) fresh) else None
  else Some [].

(** [(T * )uprv_realloc(cells, size*n)]: on [None] the caller still owns [cells]. *)
Definition uprv_realloc (cells : list A) (size n : Z) : option (list A) :=
  if size * n =? 0 then Some []
  else if alloc_ok (size * n)
  then Some (take (Z.to_nat n) cells ++ replicate (Z.to_nat n - length cells) fresh)
  else None.
End Heap.

(** A request of at most [INT32_MAX] bytes was refused: an allocator that grants all of these
    makes it false. *)
Definition refused `{Heap} : Prop := exists n, 0 <= n <= INT32_MAX /\ alloc_ok n = false.

(** An allocator that grants every request; the witnesses run on it. *)
Definition big_heap : Heap := {| alloc_ok := fun _ => true; junk := 3735928559 |}.

Lemma big_heap_grants : ~ refused (H := big_heap).
Proof. by intros (n & _ & E). Qed.

(** ** Tactics *)

(** Case analysis on the integer comparisons of the goal, outermost first. *)
Ltac zcase :=
  match goal with
  | |- context [?a <? ?b] => destruct (Z.ltb_spec a b)
  | |- context [?a <=? ?b] => destruct (Z.leb_spec a b)
  | |- context [?a =? ?b] => destruct (Z.eqb_spec a b)
  end.
Ltac zcase_in H :=
  match type of H with
  | context [?a <? ?b] => destruct (Z.ltb_spec a b)
  | context [?a <=? ?b] => destruct (Z.leb_spec a b)
  | context [?a =? ?b] => destruct (Z.eqb_spec a b)
  end.
(** Linear arithmetic with divisions by constants. *)
Ltac dlia := Z.to_euclidean_division_equations; lia.

Ltac zcases := repeat (zcase; simpl; try lia).

Create HintDb icu.

(** ** Arrays *)

Section Arrays.
Context {A : Type}.
Implicit Types (l : list A) (i : Z) (x : A).

Lemma zlen_nonneg l : 0 <= zlen l.
Proof. unfold zlen; lia. Qed.

Lemma zlen_nil : zlen (@nil A) = 0.
Proof. done. Qed.

Lemma zlen_cons x l : zlen (x :: l) = zlen l + 1.
Proof. unfold zlen; simpl; lia. Qed.

Lemma zlen_app l1 l2 : zlen (l1 ++ l2) = zlen l1 + zlen l2.
Proof. unfold zlen; rewrite length_app; lia. Qed.

Lemma zlen_snoc l x : zlen (l ++ [x]) = zlen l + 1.
Proof. by rewrite zlen_app. Qed.

Lemma snoc_app l1 x l2 : l1 ++ x :: l2 = (l1 ++ [x]) ++ l2.
Proof. by rewrite <- app_assoc. Qed.

Lemma zlen_0_inv l : zlen l = 0 -> l = [].
Proof. destruct l; [done|]. unfold zlen; simpl; lia. Qed.

Lemma zlen_1_inv l : zlen l = 1 -> exists x, l = [x].
Proof. destruct l as [|x [|]]; unfold zlen; simpl; try lia. eauto. Qed.

Lemma zlen_2_inv l : zlen l = 2 -> exists x y, l = [x; y].
Proof. destruct l as [|x [|y [|]]]; unfold zlen; simpl; try lia. eauto. Qed.

Lemma zget_Some_lookup l i x : zget l i = Some x <-> 0 <= i /\ l !! Z.to_nat i = Some x.
Proof. unfold zget. zcase; naive_solver lia. Qed.

Lemma zget_Some_range l i x : zget l i = Some x -> 0 <= i < zlen l.
Proof.
  rewrite zget_Some_lookup. intros [Hi Hx%lookup_lt_Some]. unfold zlen. lia.
Qed.

Lemma zget_is_Some l i : 0 <= i < zlen l -> exists x, zget l i = Some x.
Proof.
  unfold zlen. intros [H1 H2]. destruct (lookup_lt_is_Some_2 l (Z.to_nat i)) as [x Hx]; [lia|].
  exists x. apply zget_Some_lookup. auto.
Qed.

Lemma zget_None l i : i < 0 \/ zlen l <= i -> zget l i = None.
Proof.
  unfold zget, zlen. intros Hi. zcase; [|done].
  apply lookup_ge_None. lia.
Qed.

Lemma zget_nat l (n : nat) : zget l (Z.of_nat n) = l !! n.
Proof. unfold zget. zcase; [by rewrite Nat2Z.id | lia]. Qed.

Lemma zget_cons_0 x l : zget (x :: l) 0 = Some x.
Proof. done. Qed.

Lemma zget_app_l l1 l2 i : i < zlen l1 -> zget (l1 ++ l2) i = zget l1 i.
Proof.
  unfold zget, zlen. intros. zcase; [|done]. by rewrite lookup_app_l by lia.
Qed.

Lemma zget_app_r l1 l2 i : zlen l1 <= i -> zget (l1 ++ l2) i = zget l2 (i - zlen l1).
Proof.
  unfold zget, zlen. intros. do 2 zcase; try lia.
  rewrite lookup_app_r by lia. f_equal. lia.
Qed.

Lemma zget_middle l1 x l2 : zget (l1 ++ x :: l2) (zlen l1) = Some x.
Proof. rewrite zget_app_r by lia. by rewrite Z.sub_diag. Qed.

Lemma zset_Some l i x l' :
  zset l i x = Some l' <-> 0 <= i < zlen l /\ l' = <[Z.to_nat i := x]> l.
Proof.
  unfold zset. zcase; zcase; simpl; split; intros; try naive_solver lia.
Qed.

Lemma zset_in l i x : 0 <= i < zlen l -> zset l i x = Some (<[Z.to_nat i := x]> l).
Proof. intros. by apply zset_Some. Qed.

Lemma zset_out l i x : i < 0 \/ zlen l <= i -> zset l i x = None.
Proof. unfold zset. intros. zcase; zcase; simpl; done || lia. Qed.

Lemma zset_zlen l i x l' : zset l i x = Some l' -> zlen l' = zlen l.
Proof. intros [_ ->]%zset_Some. unfold zlen. by rewrite length_insert. Qed.

Lemma zget_insert_eq l i x : 0 <= i < zlen l -> zget (<[Z.to_nat i := x]> l) i = Some x.
Proof.
  intros. apply zget_Some_lookup. split; [lia|].
  apply list_lookup_insert_eq. unfold zlen in *; lia.
Qed.

Lemma zget_insert_ne l i j x :
  0 <= i -> i <> j -> zget (<[Z.to_nat i := x]> l) j = zget l j.
Proof.
  intros. unfold zget. zcase; [|done]. apply list_lookup_insert_ne. lia.
Qed.

Lemma zget_ext l1 l2 :
  zlen l1 = zlen l2 -> (forall i, 0 <= i < zlen l1 -> zget l1 i = zget l2 i) -> l1 = l2.
Proof.
  intros Hl Hi. apply list_eq. intros n.
  destruct (decide (n < length l1)%nat).
  - rewrite <- !zget_nat. apply Hi. unfold zlen. lia.
  - rewrite !lookup_ge_None_2; [done| |]; unfold zlen in *; lia.
Qed.

Lemma ztake_all l : ztake (zlen l) l = l.
Proof. unfold ztake, zlen. rewrite Nat2Z.id. by apply firstn_all. Qed.

Lemma zlen_ztake n l : 0 <= n <= zlen l -> zlen (ztake n l) = n.
Proof. unfold ztake, zlen. intros. rewrite length_take. lia. Qed.

Lemma zget_ztake n l i : i < n -> zget (ztake n l) i = zget l i.
Proof.
  intros. unfold zget, ztake. zcase; [|done]. apply lookup_take_lt. lia.
Qed.

Lemma ztake_snoc n l x :
  0 <= n < zlen l -> ztake (n + 1) (<[Z.to_nat n := x]> l) = ztake n l ++ [x].
Proof.
  unfold ztake, zlen. intros.
  replace (Z.to_nat (n + 1)) with (S (Z.to_nat n)) by lia.
  rewrite (take_S_r _ _ x).
  - by rewrite take_insert_ge by lia.
  - apply list_lookup_insert_eq. lia.
Qed.

Lemma ztake_succ n l x : 0 <= n -> zget l n = Some x -> ztake (n + 1) l = ztake n l ++ [x].
Proof.
  intros Hn [_ Hx]%zget_Some_lookup. unfold ztake.
  replace (Z.to_nat (n + 1)) with (S (Z.to_nat n)) by lia.
  by apply take_S_r.
Qed.

Lemma insert_zlen l1 x l2 y : <[Z.to_nat (zlen l1) := y]> (l1 ++ x :: l2) = l1 ++ y :: l2.
Proof.
  unfold zlen. rewrite Nat2Z.id. replace (length l1) with (length l1 + 0)%nat by lia.
  by rewrite insert_app_r.
Qed.

Lemma zset_middle l1 x l2 y : zset (l1 ++ x :: l2) (zlen l1) y = Some (l1 ++ y :: l2).
Proof.
  rewrite zset_in, insert_zlen; [done|]. rewrite zlen_app, zlen_cons.
  pose proof (zlen_nonneg l1). pose proof (zlen_nonneg l2). lia.
Qed.

Lemma ztake_app_exact l1 l2 : ztake (zlen l1) (l1 ++ l2) = l1.
Proof. unfold ztake, zlen. rewrite Nat2Z.id. apply take_app_length. Qed.

Lemma zget_split l i x :
  zget l i = Some x -> exists l1 l2, l = l1 ++ x :: l2 /\ zlen l1 = i.
Proof.
  intros E. pose proof (zget_Some_range _ _ _ E). apply zget_Some_lookup in E as [_ E].
  exists (take (Z.to_nat i) l), (drop (S (Z.to_nat i)) l). split; [by rewrite take_drop_middle|].
  unfold zlen in *. rewrite length_take. lia.
Qed.

Lemma ztake_app_le n l1 l2 : n <= zlen l1 -> ztake n (l1 ++ l2) = ztake n l1.
Proof. unfold ztake, zlen. intros. apply take_app_le. lia. Qed.
End Arrays.

Lemma uprv_realloc_spec `{Heap} {A} (fresh : A) cells size n cells' :
  0 < size -> zlen cells <= n -> uprv_realloc fresh cells size n = Some cells' ->
  zlen cells' = n /\ forall k, k <= zlen cells -> ztake k cells' = ztake k cells.
Proof.
  unfold uprv_realloc. intros Hs Hn E. pose proof (zlen_nonneg cells).
  destruct (Z.eqb_spec (size * n) 0).
  - assert (n = 0) by nia. subst n. assert (cells = []) as ->.
    { destruct cells; [done|]. rewrite zlen_cons in *. pose proof (zlen_nonneg cells). lia. }
    naive_solver.
  - destruct (alloc_ok _); [|done]. injection E as <-.
    rewrite take_ge by (unfold zlen in *; lia). split.
    + rewrite zlen_app. unfold zlen in *. rewrite length_replicate. lia.
    + intros k Hk. by apply ztake_app_le.
Qed.

Lemma realloc_refused `{Heap} {A} (fresh : A) cells size n :
  0 <= size * n <= INT32_MAX -> uprv_realloc fresh cells size n = None -> refused.
Proof.
  unfold uprv_realloc, refused. destruct (size * n =? 0); [done|]. destruct (alloc_ok _) eqn:E; [done|]. eauto.
Qed.

Lemma malloc_refused `{Heap} {A} (fresh : A) size n :
  0 <= size * n <= INT32_MAX -> uprv_malloc fresh size n = None -> refused.
Proof.
  unfold uprv_malloc, refused. destruct (0 <? _); [|done]. destruct (alloc_ok _) eqn:E; [done|]. eauto.
Qed.

(** ** Loops that shift array cells

    [for (i=hi; i>lo; --i) a[i]=a[i-1];] and [for (i=lo; i<hi; ++i) a[i]=a[i+1];],
    the loops by which every vector class of the sources makes or closes a gap. *)

Fixpoint shift_up_loop {A} (n : nat) (i : Z) (a : list A) : option (list A) :=
  match n with
  | O => Some a
  | S n => x ← zget a (i - 1); a ← zset a i x; shift_up_loop n (i - 1) a
  end.

Definition shift_up {A} (lo hi : Z) (a : list A) : option (list A) :=
  shift_up_loop (Z.to_nat (hi - lo)) hi a.

Fixpoint shift_down_loop {A} (n : nat) (i : Z) (a : list A) : option (list A) :=
  match n with
  | O => Some a
  | S n => x ← zget a (i + 1); a ← zset a i x; shift_down_loop n (i + 1) a
  end.

Definition shift_down {A} (lo hi : Z) (a : list A) : option (list A) :=
  shift_down_loop (Z.to_nat (hi - lo)) lo a.

(** [uprv_memmove(a+to, a+from, n*sizeof( *a))] *)
Definition memmove {A} (a : list A) (to from n : Z) : option (list A) :=
  if (0 <=? to) && (0 <=? from) && (0 <=? n) && (to + n <=? zlen a) && (from + n <=? zlen a)
  then Some (ztake to a ++ ztake n (drop (Z.to_nat from) a) ++ drop (Z.to_nat (to + n)) a)
  else None.

Section Shifts.
Context {A : Type}.
Implicit Types (a r : list A).

Lemma shift_up_loop_spec n i a :
  Z.of_nat n <= i < zlen a ->
  exists r, shift_up_loop n i a = Some r /\ zlen r = zlen a /\
    forall j, zget r j = if (i - Z.of_nat n <? j) && (j <=? i) then zget a (j - 1) else zget a j.
Proof.
  revert i a. induction n as [|n IH]; intros i a Hi; simpl shift_up_loop.
  - exists a. split_and!; [done..|]. intros j. do 2 zcase; simpl; done || lia.
  - destruct (zget_is_Some a (i - 1)) as [x Hx]; [lia|]. rewrite Hx; simpl.
    rewrite zset_in by lia; simpl.
    destruct (IH (i - 1) (<[Z.to_nat i := x]> a)) as (r & -> & Hlen & Hr).
    { unfold zlen in *. rewrite length_insert. lia. }
    exists r. split_and!; [done| |].
    + rewrite Hlen. unfold zlen. by rewrite length_insert.
    + intros j. rewrite Hr. destruct (decide (j = i)) as [->|Hne].
      * rewrite zget_insert_eq by lia. do 4 zcase; simpl; done || lia.
      * rewrite (zget_insert_ne a i j) by lia.
        destruct (decide (j - 1 = i)); [do 4 zcase; simpl; done || lia|].
        rewrite zget_insert_ne by lia. do 4 zcase; simpl; done || lia.
Qed.

Lemma shift_down_loop_spec n i a :
  0 <= i -> i + Z.of_nat n < zlen a ->
  exists r, shift_down_loop n i a = Some r /\ zlen r = zlen a /\
    forall j, zget r j = if (i <=? j) && (j <? i + Z.of_nat n) then zget a (j + 1) else zget a j.
Proof.
  revert i a. induction n as [|n IH]; intros i a Hi Hn; simpl shift_down_loop.
  - exists a. split_and!; [done..|]. intros j. do 2 zcase; simpl; done || lia.
  - destruct (zget_is_Some a (i + 1)) as [x Hx]; [lia|]. rewrite Hx; simpl.
    rewrite zset_in by lia; simpl.
    destruct (IH (i + 1) (<[Z.to_nat i := x]> a)) as (r & -> & Hlen & Hr).
    { lia. } { unfold zlen in *. rewrite length_insert. lia. }
    exists r. split_and!; [done| |].
    + rewrite Hlen. unfold zlen. by rewrite length_insert.
    + intros j. rewrite Hr. destruct (decide (j = i)) as [->|Hne].
      * rewrite zget_insert_eq by lia. do 4 zcase; simpl; done || lia.
      * rewrite (zget_insert_ne a i j) by lia.
        destruct (decide (j + 1 = i)); [do 4 zcase; simpl; done || lia|].
        rewrite zget_insert_ne by lia. do 4 zcase; simpl; done || lia.
Qed.

(** Making a gap at [lo] and filling it inserts [x] in the first [hi] cells. *)
Lemma shift_up_insert lo hi a x :
  0 <= lo <= hi -> hi < zlen a ->
  exists r r', shift_up lo hi a = Some r /\ zset r lo x = Some r' /\ zlen r' = zlen a /\
    ztake (hi + 1) r' = take (Z.to_nat lo) (ztake hi a) ++ x :: drop (Z.to_nat lo) (ztake hi a).
Proof.
  intros Hlo Hhi. unfold shift_up.
  destruct (shift_up_loop_spec (Z.to_nat (hi - lo)) hi a) as (r & Hr & Hlen & Hget); [lia|].
  exists r, (<[Z.to_nat lo := x]> r). rewrite zset_in by lia.
  split_and!; [done|done| |].
  { unfold zlen in *. by rewrite length_insert. }
  assert (Hlt : zlen (ztake hi a) = hi) by (apply zlen_ztake; lia).
  assert (Hll : zlen (take (Z.to_nat lo) (ztake hi a)) = lo) by (apply (zlen_ztake lo); lia).
  assert (Hld : zlen (drop (Z.to_nat lo) (ztake hi a)) = hi - lo).
  { unfold zlen in *. rewrite length_drop. lia. }
  apply zget_ext.
  - rewrite zlen_ztake, zlen_app, zlen_cons, Hll, Hld; [lia|].
    unfold zlen in *. rewrite length_insert. lia.
  - rewrite zlen_ztake by (unfold zlen in *; rewrite length_insert; lia). intros j Hj.
    rewrite zget_ztake by lia.
    destruct (decide (j < lo)); [|destruct (decide (j = lo)) as [->|]].
    + rewrite zget_insert_ne by lia. rewrite zget_app_l by lia.
      rewrite (zget_ztake lo (ztake hi a)), zget_ztake, Hget by lia.
      do 2 zcase; simpl; done || lia.
    + rewrite zget_insert_eq by lia. rewrite zget_app_r by lia. by rewrite Hll, Z.sub_diag.
    + rewrite zget_insert_ne by lia. rewrite zget_app_r by lia. rewrite Hll, Hget.
      replace (zget (x :: _) (j - lo)) with (zget (drop (Z.to_nat lo) (ztake hi a)) (j - 1 - lo)).
      2:{ unfold zget. do 2 zcase; try lia. rewrite lookup_cons_ne_0 by lia. f_equal. lia. }
      replace (zget (drop _ _) (j - 1 - lo)) with (zget (ztake hi a) (j - 1)).
      2:{ unfold zget. do 2 zcase; try lia. rewrite lookup_drop. f_equal. lia. }
      rewrite zget_ztake by lia. do 2 zcase; simpl; done || lia.
Qed.

(** Closing the gap at [lo] deletes that cell from the first [hi + 1] cells. *)
Lemma shift_down_delete lo hi a :
  0 <= lo <= hi -> hi < zlen a ->
  exists r, shift_down lo hi a = Some r /\ zlen r = zlen a /\
    ztake hi r = take (Z.to_nat lo) (ztake (hi + 1) a) ++ drop (S (Z.to_nat lo)) (ztake (hi + 1) a).
Proof.
  intros Hlo Hhi. unfold shift_down.
  destruct (shift_down_loop_spec (Z.to_nat (hi - lo)) lo a) as (r & Hr & Hlen & Hget); [lia..|].
  exists r. split_and!; [done|done|].
  assert (Hlt : zlen (ztake (hi + 1) a) = hi + 1) by (apply zlen_ztake; lia).
  assert (Hll : zlen (take (Z.to_nat lo) (ztake (hi + 1) a)) = lo) by (apply (zlen_ztake lo); lia).
  assert (Hld : zlen (drop (S (Z.to_nat lo)) (ztake (hi + 1) a)) = hi - lo).
  { unfold zlen in *. rewrite length_drop. lia. }
  apply zget_ext.
  - rewrite zlen_ztake, zlen_app, Hll, Hld; lia.
  - rewrite zlen_ztake by lia. intros j Hj. rewrite zget_ztake, Hget by lia.
    destruct (decide (j < lo)).
    + rewrite zget_app_l by lia.
      rewrite (zget_ztake lo (ztake (hi + 1) a)), zget_ztake by lia.
      do 2 zcase; simpl; done || lia.
    + rewrite zget_app_r, Hll by lia.
      replace (zget (drop _ _) (j - lo)) with (zget (ztake (hi + 1) a) (j + 1)).
      2:{ unfold zget. do 2 zcase; try lia. rewrite lookup_drop. f_equal. lia. }
      rewrite zget_ztake by lia. do 2 zcase; simpl; done || lia.
Qed.
End Shifts.

(** [memmove] makes room for [l] items at the end of [x]. *)
Lemma make_room {A} (x y spare : list A) l :
  0 <= l <= zlen spare ->
  exists w, (if zlen x <? zlen (x ++ y) then memmove (x ++ y ++ spare) (zlen x + l) (zlen x) (zlen (x ++ y) - zlen x)
             else Some (x ++ y ++ spare)) = Some (x ++ w ++ y ++ drop (Z.to_nat l) spare) /\ zlen w = l.
Proof.
  intros Hl. pose proof (zlen_nonneg x). pose proof (zlen_nonneg y). rewrite zlen_app.
  destruct (Z.ltb_spec (zlen x) (zlen x + zlen y)).
  - replace (zlen x + zlen y - zlen x) with (zlen y) by lia. unfold memmove.
    destruct (_ && _) eqn:E; [|rewrite !zlen_app in E; lia]. clear E.
    exists (ztake l (y ++ spare)). split; [|apply zlen_ztake; rewrite zlen_app; lia]. f_equal. unfold ztake, zlen in *.
    replace (Z.to_nat (Z.of_nat (length x) + l)) with (length x + Z.to_nat l)%nat by lia.
    rewrite !Nat2Z.id, take_app_add, drop_app_length, <- app_assoc, take_app_length. do 3 f_equal.
    replace (Z.to_nat (Z.of_nat (length x) + l + Z.of_nat (length y))) with (length x + (length y + Z.to_nat l))%nat by lia.
    by rewrite !drop_app_add.
  - assert (y = []) as -> by (apply zlen_0_inv; lia). cbn [app]. exists (ztake l spare). unfold ztake.
    rewrite take_drop. split; [done|]. by apply zlen_ztake.
Qed.

(** ** The binary search of [sortedInsert]

    [while (min!=max) { probe=(min+max)/2; if (a[probe]>tok) max=probe; else min=probe+1; }],
    with the comparison as [above].  [fuel] bounds the number of halvings. *)

Fixpoint insertion_search {A} (fuel : nat) (above : A -> bool) (a : list A) (min max : Z)
  : option Z :=
  match fuel with
  | O => None
  | S fuel =>
      if min =? max then Some min
      else let probe := (min + max) / 2 in
           x ← zget a probe;
           if above x then insertion_search fuel above a min probe
           else insertion_search fuel above a (probe + 1) max
  end.

(** [above] is false on a prefix of the first [n] cells and true after it. *)
Definition monotone_upto {A} (above : A -> bool) (a : list A) (n : Z) : Prop :=
  forall i j x y, 0 <= i < j -> j < n -> zget a i = Some x -> zget a j = Some y ->
    above x = true -> above y = true.

Lemma insertion_search_spec {A} fuel (above : A -> bool) a n lo hi :
  monotone_upto above a n -> n <= zlen a -> 0 <= lo <= hi -> hi <= n -> hi - lo < Z.of_nat fuel ->
  (forall i x, 0 <= i < lo -> zget a i = Some x -> above x = false) ->
  (forall i x, hi <= i < n -> zget a i = Some x -> above x = true) ->
  exists m, insertion_search fuel above a lo hi = Some m /\ 0 <= m <= n /\
    (forall i x, 0 <= i < m -> zget a i = Some x -> above x = false) /\
    (forall i x, m <= i < n -> zget a i = Some x -> above x = true).
Proof.
  intros Hmono Hn. revert lo hi. induction fuel as [|fuel IH]; intros lo hi Hlo Hhi Hf Hb Ha; [lia|].
  simpl. destruct (Z.eqb_spec lo hi) as [->|Hne].
  { exists hi. split_and!; auto; lia. }
  assert (Hp : lo <= (lo + hi) / 2 < hi).
  { split; [apply Z.div_le_lower_bound | apply Z.div_lt_upper_bound]; lia. }
  destruct (zget_is_Some a ((lo + hi) / 2)) as [x Hx]; [lia|]. rewrite Hx. simpl.
  destruct (above x) eqn:Hax.
  - apply IH; try lia; auto. intros i y Hi Hy.
    destruct (decide (i = (lo + hi) / 2)) as [->|]; [congruence|].
    apply (Hmono ((lo + hi) / 2) i x y); auto; lia.
  - apply IH; try lia; auto. intros i y Hi Hy.
    destruct (decide (i = (lo + hi) / 2)) as [->|]; [congruence|].
    destruct (above y) eqn:Hay; [|done].
    rewrite (Hmono i ((lo + hi) / 2) y x) in Hax; auto; lia.
Qed.

(** The search over the first [n] cells splits them at the insertion point. *)
Lemma insertion_search_split {A} (above : A -> bool) cells n :
  0 <= n <= zlen cells -> monotone_upto above (ztake n cells) n ->
  exists m, insertion_search (S (Z.to_nat n)) above cells 0 n = Some m /\ 0 <= m <= n /\
    Forall (fun x => above x = false) (take (Z.to_nat m) (ztake n cells)) /\
    Forall (fun x => above x = true) (drop (Z.to_nat m) (ztake n cells)).
Proof.
  intros Hn Hmono. pose proof (zlen_ztake n cells Hn) as Hlen.
  destruct (insertion_search_spec (S (Z.to_nat n)) above cells n 0 n)
    as (m & Hm & Hb & Hlo & Hhi); try lia.
  { intros i j x y ? ? Hx Hy. apply (Hmono i j x y); auto; rewrite zget_ztake by lia; done. }
  exists m. split_and!; [done|lia..| |]; apply Forall_lookup; intros i x Hx.
  - apply lookup_take_Some in Hx as [Hx Hi]. apply (Hlo (Z.of_nat i)); [lia|].
    rewrite <- (zget_ztake n) by lia. by rewrite zget_nat.
  - rewrite lookup_drop in Hx. pose proof (lookup_lt_Some _ _ _ Hx). unfold zlen in *.
    apply (Hhi (m + Z.of_nat i)); [lia|]. rewrite <- (zget_ztake n) by lia.
    rewrite <- zget_nat in Hx. rewrite <- Hx. f_equal. lia.
Qed.

(** ** Sorted sequences *)

Section Sorted.
Context {A : Type} (R : A -> A -> Prop).

Lemma StronglySorted_lookup l (i j : nat) x y :
  StronglySorted R l -> (i < j)%nat -> l !! i = Some x -> l !! j = Some y -> R x y.
Proof.
  intros Hs. revert i j. induction Hs as [|z l Hs IH Hz]; intros i j Hij Hx Hy; [done|].
  destruct j as [|j]; [lia|]. destruct i as [|i]; simpl in *; simplify_eq.
  - rewrite Forall_lookup in Hz. eauto.
  - apply (IH i j); auto; lia.
Qed.

Lemma StronglySorted_insert x l1 l2 :
  StronglySorted R (l1 ++ l2) -> Forall (fun y => R y x) l1 -> Forall (R x) l2 ->
  StronglySorted R (l1 ++ x :: l2).
Proof.
  rewrite !StronglySorted_app, StronglySorted_cons. intros (H12 & H1 & H2) Hlo Hhi.
  split_and!; auto. intros y z Hy Hz. apply elem_of_cons in Hz as [->|Hz]; [|by apply H12].
  by apply (proj1 (Forall_forall _ _) Hlo).
Qed.

Lemma StronglySorted_delete l1 x l2 :
  StronglySorted R (l1 ++ x :: l2) -> StronglySorted R (l1 ++ l2).
Proof.
  rewrite !StronglySorted_app, StronglySorted_cons. intros (H12 & H1 & _ & H2).
  split_and!; auto. intros y z Hy Hz. apply H12; set_solver.
Qed.
End Sorted.

Lemma filter_all_iff {A} (P : A -> Prop) `{forall x, Decision (P x)} l :
  Forall P l <-> filter P l = l.
Proof.
  split.
  - induction 1; [done|]. rewrite filter_cons_True by done. by f_equal.
  - intros <-. apply Forall_forall. intros x Hx%list_elem_of_filter. tauto.
Qed.

Lemma list_filter_ext {A} (P Q : A -> Prop) `{forall x, Decision (P x)}
    `{forall x, Decision (Q x)} (l : list A) :
  (forall x, x ∈ l -> (P x <-> Q x)) -> filter P l = filter Q l.
Proof.
  induction l as [|x l IH]; intros HPQ; [done|].
  assert (P x <-> Q x) by (apply HPQ; left).
  rewrite !filter_cons, IH by (intros; apply HPQ; by right).
  do 2 case_decide; tauto.
Qed.

Lemma list_filter_comp {A} (P Q : A -> Prop) `{forall x, Decision (P x)}
    `{forall x, Decision (Q x)} (l : list A) :
  filter P (filter Q l) = filter (fun x => P x /\ Q x) l.
Proof. rewrite list_filter_filter. apply list_filter_iff. tauto. Qed.

(** Cutting one occurrence out of a duplicate-free list is a filter. *)
Lemma NoDup_cut_filter {A} `{EqDecision A} (l : list A) (i : nat) x :
  NoDup l -> l !! i = Some x -> take i l ++ drop (S i) l = filter (fun y => y <> x) l.
Proof.
  intros Hnd Hx. rewrite <- (take_drop_middle l i x Hx) at 3.
  rewrite <- (take_drop_middle l i x Hx) in Hnd. apply NoDup_app in Hnd as (H1 & H12 & H2).
  apply NoDup_cons in H2 as [H2 _].
  rewrite filter_app, filter_cons_False by (intros Hn; by apply Hn).
  f_equal; symmetry; apply filter_all_iff, Forall_forall; intros y Hy ->.
  - apply (H12 x Hy). left.
  - done.
Qed.

Create HintDb zlen.
#[export] Hint Resolve zlen_nonneg : icu.
#[export] Hint Rewrite @zlen_nil @zlen_cons @zlen_app : zlen.

(** ** Bit fields

    Masks, shifts and disjunctions of disjoint fields, as arithmetic. *)

Lemma testbit_high c p k : 0 <= p <= k -> 0 <= c < 2 ^ p -> Z.testbit c k = false.
Proof.
  intros Hk Hc. rewrite <- (Z.mod_small c (2 ^ p)) by done. by apply Z.mod_pow2_bits_high.
Qed.

Lemma land_high c n m :
  0 <= n -> 0 <= m -> 0 <= c < 2 ^ (n + m) -> Z.land c (Z.shiftl (Z.ones m) n) = c / 2 ^ n * 2 ^ n.
Proof.
  intros Hn Hm Hc. rewrite <- Z.shiftr_div_pow2, <- Z.shiftl_mul_pow2 by lia.
  apply Z.bits_inj'. intros k Hk. rewrite Z.land_spec, !Z.shiftl_spec by lia.
  destruct (Z.ltb_spec k n).
  - rewrite (Z.testbit_neg_r _ (k - n)), (Z.testbit_neg_r (Z.shiftr _ _)) by lia. apply andb_false_r.
  - rewrite Z.shiftr_spec by lia. replace (k - n + n) with k by lia.
    destruct (Z.ltb_spec (k - n) m).
    + rewrite Z.ones_spec_low by lia. apply andb_true_r.
    + by rewrite (testbit_high c (n + m) k) by lia.
Qed.

Lemma land_low c n : 0 <= n -> Z.land c (Z.ones n) = c mod 2 ^ n.
Proof. intros. by apply Z.land_ones. Qed.

Lemma lor_disjoint a b n : 0 <= n -> 0 <= b < 2 ^ n -> Z.lor (a * 2 ^ n) b = a * 2 ^ n + b.
Proof.
  intros Hn Hb. rewrite <- Z.shiftl_mul_pow2 by lia.
  assert (Z.land (Z.shiftl a n) b = 0) as Hd.
  { apply Z.bits_inj'. intros k Hk. rewrite Z.land_spec, Z.shiftl_spec, Z.bits_0 by lia.
    destruct (Z.ltb_spec k n); [by rewrite (Z.testbit_neg_r a) by lia|].
    rewrite (testbit_high b n k) by lia. apply andb_false_r. }
  rewrite <- Z.lxor_lor by done. symmetry. by apply Z.add_nocarry_lxor.
Qed.
