(* ===== verification/Vector32.v ===== *)
(** * UVector32 (common/uvectr32.cpp, uvectr32.h)

    The growable arrays of integers.  UVector32 and UVector64 are the same text at two cell
    widths, so the operations are written once over [sizeof_elem] and instantiated: at
    4 bytes in [Module UVector32], at 8 bytes in Vector64.v.  An array is the list of its
    [capacity] cells; [None] as the result of an operation is an access outside it (or
    through a null pointer). *)

From S2P Require Import Prelude.

Definition DEFAULT_CAPACITY : Z := 8.

Module UVectorInt.

Record t := mk {
  count : Z;
  capacity : Z;
  maxCapacity : Z;
  elements : option (list Z)
}.

Section Ops.
Context `{Heap} (sizeof_elem : Z).

Definition set_count (v : t) (c : Z) : t := mk c (capacity v) (maxCapacity v) (elements v).
Definition set_cells (v : t) (cells : list Z) : t :=
  mk (count v) (capacity v) (maxCapacity v) (Some cells).

Definition _init (v : t) (initialCapacity : Z) (status : UErrorCode) : t * UErrorCode :=
  let initialCapacity := if initialCapacity <? 1 then DEFAULT_CAPACITY else initialCapacity in
  let initialCapacity :=
    if (0 <? maxCapacity v) && (maxCapacity v <? initialCapacity)
    then maxCapacity v else initialCapacity in
  let initialCapacity :=
    if INT32_MAX / sizeof_elem <? initialCapacity
    then Z.min DEFAULT_CAPACITY (maxCapacity v) else initialCapacity in
  match uprv_malloc junk sizeof_elem initialCapacity with
  | None => (mk (count v) (capacity v) (maxCapacity v) None, U_MEMORY_ALLOCATION_ERROR)
  | Some cells => (mk (count v) initialCapacity (maxCapacity v) (Some cells), status)
  end.

Definition new (initialCapacity : Z) (status : UErrorCode) : t * UErrorCode :=
  _init (mk 0 0 0 None) initialCapacity status.

Definition expandCapacity (v : t) (minimumCapacity : Z) (status : UErrorCode)
  : t * UErrorCode * bool :=
  if U_FAILURE status then (v, status, false)
  else if minimumCapacity <? 0 then (v, U_ILLEGAL_ARGUMENT_ERROR, false)
  else if minimumCapacity <=? capacity v then (v, status, true)
  else if (0 <? maxCapacity v) && (maxCapacity v <? minimumCapacity)
  then (v, U_BUFFER_OVERFLOW_ERROR, false)
  else if (INT32_MAX - 1) / 2 <? capacity v then (v, U_ILLEGAL_ARGUMENT_ERROR, false)
  else
    let newCap := capacity v * 2 in
    let newCap := if newCap <? minimumCapacity then minimumCapacity else newCap in
    let newCap := if (0 <? maxCapacity v) && (maxCapacity v <? newCap)
                  then maxCapacity v else newCap in
    if INT32_MAX / sizeof_elem <? newCap then (v, U_ILLEGAL_ARGUMENT_ERROR, false)
    else match uprv_realloc junk (default [] (elements v)) sizeof_elem newCap with
         | None => (v, U_MEMORY_ALLOCATION_ERROR, false)
         | Some newElems => (mk (count v) newCap (maxCapacity v) (Some newElems), status, true)
         end.

Definition ensureCapacity (v : t) (minimumCapacity : Z) (status : UErrorCode)
  : t * UErrorCode * bool :=
  if (0 <=? minimumCapacity) && (minimumCapacity <=? capacity v)
  then (v, status, true)
  else expandCapacity v minimumCapacity status.

(** [for (i=from; i<to; ++i) a[i]=0;] *)
Fixpoint zero_fill (n : nat) (i : Z) (a : list Z) : option (list Z) :=
  match n with
  | O => Some a
  | S n => a ← zset a i 0; zero_fill n (i + 1) a
  end.

Definition setSize (v : t) (newSize : Z) : option t :=
  if newSize <? 0 then Some v
  else if count v <? newSize then
    let '(v, _, ok) := ensureCapacity v newSize U_ZERO_ERROR in
    if negb ok then Some v
    else cells ← elements v;
         cells ← zero_fill (Z.to_nat (newSize - count v)) (count v) cells;
         Some (set_count (set_cells v cells) newSize)
  else Some (set_count v newSize).

(** [for (i=0; i<n; ++i) a[i]=b[i];] *)
Fixpoint copy_loop (n : nat) (i : Z) (a b : list Z) : option (list Z) :=
  match n with
  | O => Some a
  | S n => x ← zget b i; a ← zset a i x; copy_loop n (i + 1) a b
  end.

Definition assign (v other : t) (ec : UErrorCode) : option (t * UErrorCode) :=
  let '(v, ec, ok) := ensureCapacity v (count other) ec in
  if ok then
    v ← setSize v (count other);
    if 0 <? count other then
      cells ← elements v; src ← elements other;
      cells ← copy_loop (Z.to_nat (count other)) 0 cells src;
      Some (set_cells v cells, ec)
    else Some (v, ec)
  else Some (v, ec).

(** [for (i=0; i<n; ++i) if (a[i]!=b[i]) return FALSE; return TRUE;] *)
Fixpoint equal_loop (n : nat) (i : Z) (a b : list Z) : option bool :=
  match n with
  | O => Some true
  | S n => x ← zget a i; y ← zget b i;
           if negb (x =? y) then Some false else equal_loop n (i + 1) a b
  end.

Definition equals (v other : t) : option bool :=
  if negb (count v =? count other) then Some false
  else if 0 <? count v then
    a ← elements v; b ← elements other; equal_loop (Z.to_nat (count v)) 0 a b
  else Some true.

Definition setElementAt (v : t) (elem index : Z) : option t :=
  if (0 <=? index) && (index <? count v)
  then cells ← elements v; cells ← zset cells index elem; Some (set_cells v cells)
  else Some v.

Definition insertElementAt (v : t) (elem index : Z) (status : UErrorCode)
  : option (t * UErrorCode) :=
  if (0 <=? index) && (index <=? count v) then
    let '(v, status, ok) := ensureCapacity v (count v + 1) status in
    if ok then
      cells ← elements v;
      cells ← shift_up index (count v) cells;
      cells ← zset cells index elem;
      Some (set_count (set_cells v cells) (count v + 1), status)
    else Some (v, status)
  else Some (v, status).

(** [for (i=startIndex; i<count; ++i) if (key==elements[i]) return i; return -1;] *)
Fixpoint indexOf_loop (n : nat) (i key : Z) (cells : list Z) : option Z :=
  match n with
  | O => Some (-1)
  | S n => x ← zget cells i; if key =? x then Some i else indexOf_loop n (i + 1) key cells
  end.

Definition indexOf (v : t) (key startIndex : Z) : option Z :=
  if startIndex <? count v then
    cells ← elements v; indexOf_loop (Z.to_nat (count v - startIndex)) startIndex key cells
  else Some (-1).

Definition contains (v : t) (obj : Z) : option bool :=
  i ← indexOf v obj 0; Some (0 <=? i).

(** The loops of [containsAll] and [containsNone] over the elements of [other]. *)
Fixpoint containsAll_loop (v : t) (n : nat) (i : Z) (other : list Z) : option bool :=
  match n with
  | O => Some true
  | S n => x ← zget other i; j ← indexOf v x 0;
           if j <? 0 then Some false else containsAll_loop v n (i + 1) other
  end.

Definition containsAll (v other : t) : option bool :=
  if 0 <? count other then
    os ← elements other; containsAll_loop v (Z.to_nat (count other)) 0 os
  else Some true.

Fixpoint containsNone_loop (v : t) (n : nat) (i : Z) (other : list Z) : option bool :=
  match n with
  | O => Some true
  | S n => x ← zget other i; j ← indexOf v x 0;
           if 0 <=? j then Some false else containsNone_loop v n (i + 1) other
  end.

Definition containsNone (v other : t) : option bool :=
  if 0 <? count other then
    os ← elements other; containsNone_loop v (Z.to_nat (count other)) 0 os
  else Some true.

(** As the source has it: no test that [index] is below [count]. *)
Definition removeElementAt (v : t) (index : Z) : option t :=
  if 0 <=? index then
    if index <? count v - 1 then
      cells ← elements v;
      cells ← shift_down index (count v - 1) cells;
      Some (set_count (set_cells v cells) (count v - 1))
    else Some (set_count v (count v - 1))
  else Some v.

Fixpoint removeAll_loop (n : nat) (i : Z) (other : list Z) (v : t) (changed : bool)
  : option (t * bool) :=
  match n with
  | O => Some (v, changed)
  | S n => x ← zget other i; j ← indexOf v x 0;
           if 0 <=? j
           then v ← removeElementAt v j; removeAll_loop n (i + 1) other v true
           else removeAll_loop n (i + 1) other v changed
  end.

Definition removeAll (v other : t) : option (t * bool) :=
  if 0 <? count other then
    os ← elements other; removeAll_loop (Z.to_nat (count other)) 0 os v false
  else Some (v, false).

(** [for (j=size()-1; j>=0; --j)] *)
Fixpoint retainAll_loop (n : nat) (j : Z) (other v : t) (changed : bool) : option (t * bool) :=
  match n with
  | O => Some (v, changed)
  | S n => cells ← elements v; x ← zget cells j; i ← indexOf other x 0;
           if i <? 0
           then v ← removeElementAt v j; retainAll_loop n (j - 1) other v true
           else retainAll_loop n (j - 1) other v changed
  end.

Definition retainAll (v other : t) : option (t * bool) :=
  retainAll_loop (Z.to_nat (count v)) (count v - 1) other v false.

Definition removeAllElements (v : t) : t := set_count v 0.

Definition setMaxCapacity (v : t) (limit : Z) : t :=
  let limit := if limit <? 0 then 0 else limit in
  if INT32_MAX / sizeof_elem <? limit then v
  else
    let v := mk (count v) (capacity v) limit (elements v) in
    if (capacity v <=? limit) || (limit =? 0) then v
    else match uprv_realloc junk (default [] (elements v)) sizeof_elem limit with
         | None => v
         | Some newElems =>
             mk (if limit <? count v then limit else count v) limit limit (Some newElems)
         end.

Definition sortedInsert (v : t) (tok : Z) (ec : UErrorCode) : option (t * UErrorCode) :=
  min ← insertion_search (S (Z.to_nat (count v))) (fun x => tok <? x)
           (default [] (elements v)) 0 (count v);
  let '(v, ec, ok) := ensureCapacity v (count v + 1) ec in
  if ok then
    cells ← elements v;
    cells ← shift_up min (count v) cells;
    cells ← zset cells min tok;
    Some (set_count (set_cells v cells) (count v + 1), ec)
  else Some (v, ec).

Definition addElement (v : t) (elem : Z) (status : UErrorCode) : option (t * UErrorCode) :=
  let '(v, status, ok) := ensureCapacity v (count v + 1) status in
  if ok then
    cells ← elements v; cells ← zset cells (count v) elem;
    Some (set_count (set_cells v cells) (count v + 1), status)
  else Some (v, status).

Definition push (v : t) (i : Z) (status : UErrorCode) : option (t * UErrorCode * Z) :=
  '(v, status) ← addElement v i status; Some (v, status, i).

Definition popi (v : t) : option (t * Z) :=
  if 0 <? count v then
    let c := count v - 1 in
    cells ← elements v; x ← zget cells c; Some (set_count v c, x)
  else Some (v, 0).

(** The result is the index of the block, [None] inside being the null pointer. *)
Definition reserveBlock (v : t) (size : Z) (status : UErrorCode) : t * UErrorCode * option Z :=
  let '(v, status, ok) := ensureCapacity v (count v + size) status in
  if negb ok then (v, status, None)
  else (set_count v (count v + size), status, Some (count v)).

(** The result is the index the returned pointer has in [elements]. *)
Definition popFrame (v : t) (size : Z) : t * Z :=
  let c := count v - size in
  let c := if c <? 0 then 0 else c in
  (set_count v c, c - size).
End Ops.

(** ** Representation invariant and abstraction *)

Section Facts.
Context `{Heap} (sizeof_elem : Z).

(** The array is there, has [capacity] cells, a legal size, and [count] of them are in use. *)
Definition wf (v : t) : Prop :=
  exists cells, elements v = Some cells /\ zlen cells = capacity v /\
    0 <= count v <= capacity v /\ capacity v <= INT32_MAX / sizeof_elem.

(** The sequence a vector stands for. *)
Definition contents (v : t) : list Z := ztake (count v) (default [] (elements v)).

Lemma int_contents_zlen v : wf v -> zlen (contents v) = count v.
Proof. intros (cells & E & L & C & _). unfold contents. rewrite E. simpl. apply zlen_ztake. lia. Qed.

Lemma int_zget_contents v i : i < count v -> zget (default [] (elements v)) i = zget (contents v) i.
Proof. intros. unfold contents. by rewrite zget_ztake. Qed.

(** A vector is a sequence [l] in an array of [cap] cells. *)
Lemma int_wf_intro c cap m cells :
  zlen cells = cap -> 0 <= c <= cap -> cap <= INT32_MAX / sizeof_elem ->
  wf (mk c cap m (Some cells)).
Proof. intros. exists cells. simpl. auto. Qed.

Lemma int_ensureCapacity_spec v m status v' status' ok :
  0 < sizeof_elem -> wf v -> ensureCapacity sizeof_elem v m status = (v', status', ok) ->
  wf v' /\ count v' = count v /\ contents v' = contents v /\ maxCapacity v' = maxCapacity v /\
  (if ok then 0 <= m <= capacity v' /\ status' = status
   else v' = v /\ U_FAILURE status' = true /\ (m < 0 \/ capacity v < m)).
Proof.
  intros Hs Hwf. pose proof Hwf as (cells & E & L & C & M).
  unfold ensureCapacity, expandCapacity. rewrite E. simpl default.
  destruct ((0 <=? m) && (m <=? capacity v)) eqn:Hfit.
  { intros [= <- <- <-]. split_and!; try done; lia. }
  assert (m < 0 \/ capacity v < m) by lia.
  destruct (U_FAILURE status) eqn:Hst; [intros [= <- <- <-]; naive_solver|].
  destruct (m <? 0) eqn:?; [intros [= <- <- <-]; naive_solver|].
  destruct (m <=? capacity v) eqn:?; [lia|].
  destruct ((0 <? maxCapacity v) && _) eqn:Hmax; [intros [= <- <- <-]; naive_solver|].
  destruct (_ <? capacity v) eqn:?; [intros [= <- <- <-]; naive_solver|].
  set (nc := if _ && _ then _ else _).
  assert (m <= nc) by (unfold nc; repeat zcase; simpl; lia).
  destruct (_ <? nc) eqn:?; [intros [= <- <- <-]; naive_solver|].
  destruct (uprv_realloc _ _ _ _) as [cells'|] eqn:Hre; [|intros [= <- <- <-]; naive_solver].
  intros [= <- <- <-]. apply (uprv_realloc_spec junk) in Hre as [Hl Hk]; [|lia..].
  split_and!; simpl; try done; try lia.
  - apply int_wf_intro; lia.
  - unfold contents. simpl. rewrite E. apply Hk. lia.
Qed.

(** Why a full vector does not grow by one element: an earlier error, the limit set by
    [setMaxCapacity], the size limit of an allocation, or a refused request. *)
Definition cannot_grow (v : t) (status : UErrorCode) : Prop :=
  count v = capacity v /\
  (U_FAILURE status = true \/ 0 < maxCapacity v <= count v \/
   INT32_MAX / sizeof_elem <= 2 * capacity v \/ refused).

Lemma ensureCapacity_cannot v status v' status' :
  0 < sizeof_elem -> wf v -> ensureCapacity sizeof_elem v (count v + 1) status = (v', status', false) ->
  cannot_grow v status.
Proof.
  intros Hs Hwf. pose proof Hwf as (cells & E & L & C & M). unfold ensureCapacity, expandCapacity, cannot_grow.
  destruct (_ && _) eqn:Hfit; [done|]. assert (count v = capacity v) as Ec by lia.
  destruct (U_FAILURE status) eqn:Hst; [auto|]. destruct (count v + 1 <? 0) eqn:?; [lia|].
  destruct (_ <=? capacity v) eqn:?; [lia|].
  destruct ((0 <? maxCapacity v) && _) eqn:Hmax; [split; [done|]; right; left; lia|].
  assert (INT32_MAX / sizeof_elem <= INT32_MAX) by (unfold INT32_MAX; apply Z.div_le_upper_bound; nia).
  destruct (Z.ltb_spec ((INT32_MAX - 1) / 2) (capacity v)) as [Hbig|_].
  { intros _. split; [done|]. do 2 right. left. change ((INT32_MAX - 1) / 2) with 1073741823 in Hbig.
    unfold INT32_MAX in *. lia. }
  set (nc := if _ && _ then _ else _).
  assert (0 <= nc /\ (nc <= 2 * capacity v \/ nc <= 1)) as [Hnc0 Hnc]
    by (unfold nc; repeat zcase; simpl in *; lia).
  destruct (Z.ltb_spec (INT32_MAX / sizeof_elem) nc).
  { intros _. split; [done|]. do 2 right. left. lia. }
  destruct (uprv_realloc _ _ _ _) eqn:Hre; [done|]. intros _. split; [done|]. do 3 right.
  eapply realloc_refused; [|exact Hre]. split; [nia|]. pose proof (Z.mul_div_le INT32_MAX sizeof_elem). nia.
Qed.

(** With enough room an insertion is a list insertion; without, nothing changes. *)
Lemma insert_cells v cells elem index :
  elements v = Some cells -> 0 <= index <= count v -> count v < zlen cells ->
  exists r r', shift_up index (count v) cells = Some r /\ zset r index elem = Some r' /\
    zlen r' = zlen cells /\
    ztake (count v + 1) r' =
      take (Z.to_nat index) (contents v) ++ elem :: drop (Z.to_nat index) (contents v).
Proof.
  intros E Hi Hc. unfold contents. rewrite E. simpl default. by apply shift_up_insert.
Qed.

Lemma int_ensured_insert v elem index status :
  0 < sizeof_elem -> wf v -> 0 <= index <= count v ->
  exists v' status',
    (let '(v, status, ok) := ensureCapacity sizeof_elem v (count v + 1) status in
     if ok then
       cells ← elements v;
       cells ← shift_up index (count v) cells;
       cells ← zset cells index elem;
       Some (set_count (set_cells v cells) (count v + 1), status)
     else Some (v, status)) = Some (v', status') /\ wf v' /\
    ((status' = status /\ contents v' =
        take (Z.to_nat index) (contents v) ++ elem :: drop (Z.to_nat index) (contents v)) \/
     (v' = v /\ U_FAILURE status' = true /\ cannot_grow v status)).
Proof.
  intros Hs Hwf Hi.
  destruct (ensureCapacity _ _ _ _) as [[v1 st1] ok] eqn:He.
  destruct (int_ensureCapacity_spec _ _ _ _ _ _ Hs Hwf He) as (Hwf1 & Hc1 & Hk1 & _ & Hok).
  destruct ok; [|exists v1, st1; split_and!; [done|done|right]].
  2:{ destruct Hok as (-> & ? & ?). split_and!; auto; eapply ensureCapacity_cannot; eauto. }
  simpl in Hok. pose proof Hwf1 as (cells & E & L & C & M). rewrite E. simpl.
  destruct (insert_cells v1 cells elem index E) as (r & r' & -> & Hr' & Hlen & Htake); [lia..|].
  simpl. rewrite Hr'. simpl. eexists _, _. split; [done|]. split.
  - apply int_wf_intro; simpl; lia.
  - left. split; [tauto|]. unfold contents at 1. simpl. by rewrite Htake, Hk1.
Qed.

Lemma int_sorted_monotone tok (l : list Z) n :
  n <= zlen l -> StronglySorted Z.le l -> monotone_upto (fun x => tok <? x) l n.
Proof.
  intros Hn Hs i j x y Hi Hj Hx%zget_Some_lookup Hy%zget_Some_lookup.
  assert (x <= y); [|lia]. destruct Hx, Hy.
  eapply (StronglySorted_lookup Z.le l (Z.to_nat i) (Z.to_nat j)); eauto. lia.
Qed.

Lemma int_indexOf_loop_spec key (l : list Z) n i cells :
  0 <= i -> i + Z.of_nat n = zlen l -> (forall j, j < zlen l -> zget cells j = zget l j) ->
  exists r, indexOf_loop n i key cells = Some r /\
    ((r = -1 /\ key ∉ drop (Z.to_nat i) l) \/
     (i <= r < zlen l /\ zget l r = Some key /\ key ∈ drop (Z.to_nat i) l)).
Proof.
  revert i. induction n as [|n IH]; intros i Hi Hn Hc; simpl.
  - exists (-1). split; [done|left; split; [done|]]. rewrite drop_ge by (unfold zlen in *; lia).
    apply not_elem_of_nil.
  - rewrite Hc by lia. destruct (zget_is_Some l i) as [x Hx]; [lia|]. rewrite Hx. simpl.
    assert (Hd : drop (Z.to_nat i) l = x :: drop (Z.to_nat (i + 1)) l).
    { replace (Z.to_nat (i + 1)) with (S (Z.to_nat i)) by lia.
      apply zget_Some_lookup in Hx as [_ Hx]. by apply drop_S. }
    rewrite Hd. destruct (Z.eqb_spec key x) as [->|Hne].
    + exists i. split; [done|right]. split_and!; [lia..|done|left].
    + destruct (IH (i + 1)) as (r & -> & Hr); [lia..|done|]. exists r. split; [done|].
      rewrite elem_of_cons. destruct Hr as [[-> ?]|(? & ? & ?)]; [left|right].
      * split; [done|]. tauto.
      * split_and!; auto; lia.
Qed.

Lemma int_indexOf_spec v key :
  wf v ->
  exists r, indexOf v key 0 = Some r /\
    ((r = -1 /\ key ∉ contents v) \/ (0 <= r < count v /\ zget (contents v) r = Some key)).
Proof.
  intros Hwf. pose proof (int_contents_zlen v Hwf) as Hl. pose proof Hwf as (cells & E & L & C & _).
  unfold indexOf. destruct (Z.ltb_spec 0 (count v)).
  - rewrite E. simpl.
    destruct (int_indexOf_loop_spec key (contents v) (Z.to_nat (count v - 0)) 0 cells)
      as (r & -> & Hr); [lia..| |].
    { intros j Hj. rewrite <- int_zget_contents by lia. by rewrite E. }
    exists r. split; [done|]. rewrite drop_0 in Hr. destruct Hr as [?|(? & ? & ?)]; [by left|right].
    split; [lia|done].
  - exists (-1). split; [done|left]. split; [done|]. unfold zlen in Hl.
    destruct (contents v); [apply not_elem_of_nil|simpl in *; lia].
Qed.

Lemma int_removeElementAt_spec v index :
  wf v -> 0 <= index < count v ->
  exists v', removeElementAt v index = Some v' /\ wf v' /\ count v' = count v - 1 /\
    contents v' = take (Z.to_nat index) (contents v) ++ drop (S (Z.to_nat index)) (contents v).
Proof.
  intros Hwf Hi. pose proof (int_contents_zlen v Hwf) as Hl.
  pose proof Hwf as (cells & E & L & C & M). unfold removeElementAt.
  destruct (Z.leb_spec 0 index); [|lia]. destruct (Z.ltb_spec index (count v - 1)).
  - rewrite E. simpl. destruct (shift_down_delete index (count v - 1) cells) as (r & Hr & Hlr & Ht);
      [lia..|]. rewrite Hr. simpl.
    replace (count v - 1 + 1) with (count v) in Ht by lia.
    eexists. split; [done|]. split_and!; [apply int_wf_intro; simpl; lia|done|].
    unfold contents in *. simpl. rewrite E. simpl. exact Ht.
  - eexists. split; [done|]. split_and!; [exists cells; simpl; split_and!; auto; lia|done|].
    assert (index = count v - 1) as -> by lia. rewrite (drop_ge (contents v)), app_nil_r
      by (unfold zlen in *; lia).
    unfold contents. simpl. rewrite E. simpl. unfold ztake. rewrite take_take. f_equal. lia.
Qed.

Lemma int_retainAll_loop_spec other n v l1 l2 changed :
  wf v -> wf other -> contents v = l1 ++ l2 -> length l1 = n ->
  exists v' changed',
    retainAll_loop n (Z.of_nat n - 1) other v changed = Some (v', changed') /\ wf v' /\
    contents v' = filter (.∈ contents other) l1 ++ l2 /\
    changed' = (changed || negb (bool_decide (Forall (.∈ contents other) l1))).
Proof.
  revert v l1 l2 changed. induction n as [|n IH]; intros v l1 l2 changed Hwf Ho Hl Hn.
  { destruct l1; [|done]. exists v, changed. split_and!; auto.
    by destruct changed. }
  destruct l1 as [|x l1 _] using rev_ind; [done|]. rewrite length_app in Hn. simpl in Hn.
  pose proof (int_contents_zlen v Hwf) as Hz. rewrite Hl, !zlen_app in Hz.
  change (zlen [x]) with 1 in Hz. pose proof (zlen_nonneg l2). pose proof Hwf as (cells & E & L & C & M).
  assert (Hj : Z.of_nat (S n) - 1 = zlen l1) by (unfold zlen; lia). rewrite Hj.
  simpl. rewrite E. simpl.
  assert (Hx : zget cells (zlen l1) = Some x).
  { replace cells with (default [] (elements v)) by (by rewrite E). rewrite int_zget_contents by lia.
    rewrite Hl, <- app_assoc. apply zget_middle. }
  rewrite Hx. simpl. destruct (int_indexOf_spec other x Ho) as (r & -> & Hr). simpl.
  rewrite filter_app.
  replace (zlen l1 - 1) with (Z.of_nat n - 1) by (unfold zlen; lia).
  destruct (Z.ltb_spec r 0).
  - destruct Hr as [[_ Hr]|]; [|lia].
    destruct (int_removeElementAt_spec v (zlen l1)) as (v1 & -> & Hwf1 & _ & Hc1); [done|lia|]. simpl.
    destruct (IH v1 l1 l2 true) as (v' & ch & -> & Hwf' & Hc' & Hch); auto; [|lia|].
    { rewrite Hc1, Hl, <- app_assoc. unfold zlen. rewrite Nat2Z.id.
      rewrite take_app_length. f_equal.
      change (l1 ++ [x] ++ l2) with (l1 ++ ([x] ++ l2)). rewrite app_assoc.
      apply drop_app_length'. rewrite length_app. simpl. lia. }
    exists v', ch. split_and!; auto.
    + rewrite Hc', filter_cons_False, filter_nil, app_nil_r; done.
    + rewrite Hch. rewrite (bool_decide_false (Forall _ (l1 ++ _))); [by destruct changed|].
      rewrite Forall_app, Forall_singleton. tauto.
  - destruct Hr as [|[_ Hr]]; [lia|].
    assert (x ∈ contents other).
    { apply list_elem_of_lookup. apply zget_Some_lookup in Hr as [_ ?]. eauto. }
    destruct (IH v l1 (x :: l2) changed) as (v' & ch & -> & Hwf' & Hc' & Hch); auto; [|lia|].
    { by rewrite Hl, <- app_assoc. }
    exists v', ch. split_and!; auto.
    + rewrite Hc', filter_cons_True, filter_nil, <- app_assoc; done.
    + rewrite Hch. do 2 f_equal. apply bool_decide_ext. rewrite Forall_app, Forall_singleton. tauto.
Qed.

(** [insertElementAt] puts the element at the index and keeps the rest in order,
    keeps the representation invariant and never leaves the array; it fails, leaving the
    vector as it was, only when the array is full and cannot grow, for one of the reasons of
    [cannot_grow], and does nothing for an index outside [0..count]. *)
Theorem insertElementAt_refines v elem index status :
  0 < sizeof_elem -> wf v ->
  exists v' status',
    insertElementAt sizeof_elem v elem index status = Some (v', status') /\ wf v' /\
    (if (0 <=? index) && (index <=? count v) then
       (status' = status /\ contents v' =
          take (Z.to_nat index) (contents v) ++ elem :: drop (Z.to_nat index) (contents v)) \/
       (v' = v /\ U_FAILURE status' = true /\ cannot_grow v status)
     else v' = v /\ status' = status).
Proof.
  intros Hs Hwf. unfold insertElementAt. destruct (_ && _) eqn:Hi; [|eauto 10].
  apply int_ensured_insert; auto; lia.
Qed.

(** [sortedInsert] of UVector32 keeps the vector sorted and adds exactly the token; the
    binary search returns within its bound. *)
Theorem sortedInsert_sorted v tok ec :
  0 < sizeof_elem -> wf v -> StronglySorted Z.le (contents v) ->
  exists v' ec',
    sortedInsert sizeof_elem v tok ec = Some (v', ec') /\ wf v' /\
    ((ec' = ec /\ StronglySorted Z.le (contents v') /\ contents v' ≡ₚ tok :: contents v) \/
     (v' = v /\ U_FAILURE ec' = true /\ cannot_grow v ec)).
Proof.
  intros Hs Hwf Hsort. unfold sortedInsert.
  pose proof Hwf as (cells & E & L & C & _).
  destruct (insertion_search_split (fun x => tok <? x) (default [] (elements v)) (count v))
    as (m & -> & Hm & Hlo & Hhi).
  { rewrite E. simpl. lia. }
  { apply int_sorted_monotone; [|done]. fold (contents v). rewrite (int_contents_zlen v Hwf). lia. }
  simpl. destruct (int_ensured_insert v tok m ec Hs Hwf Hm) as (v' & ec' & -> & Hwf' & Hr).
  exists v', ec'. split_and!; [done..|]. destruct Hr as [[-> Hc]|]; [left|by right].
  rewrite Hc. split_and!; [done| |].
  - apply StronglySorted_insert; [by rewrite take_drop|..].
    + eapply Forall_impl; [done|]. simpl. lia.
    + eapply Forall_impl; [done|]. simpl. lia.
  - rewrite <- (take_drop (Z.to_nat m) (contents v)) at 3. by rewrite Permutation_middle.
Qed.

(** [retainAll] keeps exactly the elements that the other vector has, in order, and
    reports whether it removed any. *)
Theorem retainAll_filters v other :
  wf v -> wf other ->
  exists v' changed, retainAll v other = Some (v', changed) /\ wf v' /\
    contents v' = filter (.∈ contents other) (contents v) /\
    (changed = false <-> contents v' = contents v).
Proof.
  intros Hwf Ho. unfold retainAll. pose proof (int_contents_zlen v Hwf) as Hl.
  pose proof Hwf as (_ & _ & _ & C & _).
  destruct (int_retainAll_loop_spec other (Z.to_nat (count v)) v (contents v) [] false)
    as (v' & ch & E & Hwf' & Hc & Hch); auto.
  { by rewrite app_nil_r. } { unfold zlen in Hl. lia. }
  rewrite Z2Nat.id in E by lia. exists v', ch. rewrite app_nil_r in Hc.
  split_and!; [done..|]. rewrite Hc, Hch. simpl. rewrite negb_false_iff, bool_decide_eq_true.
  apply filter_all_iff.
Qed.

(** pushing returns the value, and popping then returns it again and restores the
    contents; the push fails, leaving the vector as it was, only when the array cannot grow. *)
Theorem push_popi v i status :
  0 < sizeof_elem -> wf v ->
  exists v' status', push sizeof_elem v i status = Some (v', status', i) /\
    ((status' = status /\ contents v' = contents v ++ [i] /\
      exists v'', popi v' = Some (v'', i) /\ wf v'' /\ contents v'' = contents v) \/
     (v' = v /\ U_FAILURE status' = true /\ cannot_grow v status)).
Proof.
  intros Hs Hwf. unfold push, addElement.
  destruct (ensureCapacity _ _ _ _) as [[v1 st1] ok] eqn:He.
  destruct (int_ensureCapacity_spec _ _ _ _ _ _ Hs Hwf He) as (Hwf1 & Hc1 & Hk1 & _ & Hok).
  destruct ok; simpl.
  2:{ eexists _, _. split; [done|]. right. destruct Hok as (-> & ? & ?). split_and!; auto; eapply ensureCapacity_cannot; eauto. }
  simpl in Hok. pose proof Hwf1 as (cells & E & L & C & M). rewrite E. simpl.
  rewrite zset_in by lia. simpl. eexists _, _. split; [done|]. left. split; [tauto|]. split.
  { rewrite <- Hk1. unfold contents. simpl. rewrite E. simpl. rewrite ztake_snoc by lia. done. }
  unfold popi. simpl. destruct (Z.ltb_spec 0 (count v1 + 1)); [|lia].
  replace (count v1 + 1 - 1) with (count v1) by lia. rewrite zget_insert_eq by lia. simpl.
  eexists. split; [done|]. split.
  - apply int_wf_intro; simpl; [unfold zlen in *; rewrite length_insert|..]; lia.
  - rewrite <- Hk1. unfold contents. simpl. rewrite E. simpl. unfold ztake.
    by rewrite take_insert_ge by lia.
Qed.

(** [removeElementAt] has no upper bound test: an index past the end removes the last
    element, and on an empty vector it leaves the count at -1. *)
Theorem removeElementAt_past_end v index :
  wf v -> count v <= index ->
  exists v', removeElementAt v index = Some v' /\ count v' = count v - 1 /\
    (0 < count v -> contents v' = take (Z.to_nat (count v - 1)) (contents v)) /\
    (count v = 0 -> count v' = -1 /\ ~ wf v').
Proof.
  intros (cells & E & L & C & M) Hi. unfold removeElementAt.
  destruct (Z.leb_spec 0 index); [|lia]. destruct (Z.ltb_spec index (count v - 1)); [lia|].
  eexists. split_and!; [done|done| |].
  - intros. unfold contents. simpl. rewrite E. simpl. unfold ztake. rewrite take_take. f_equal. lia.
  - simpl. intros. split; [lia|]. intros (? & ? & ? & ? & ?). simpl in *. lia.
Qed.
End Facts.

(** ** Witnesses *)

Section Witnesses.
#[local] Existing Instance big_heap.

(** 10, 20, 30 in an array of four cells. *)
Definition sample : t := mk 3 4 0 (Some [10; 20; 30; 7]).
Definition sample_other : t := mk 2 2 0 (Some [30; 10]).

Lemma int_sample_wf : wf 4 sample.
Proof. apply int_wf_intro; vm_compute; done. Qed.
Lemma int_sample_other_wf : wf 4 sample_other.
Proof. apply int_wf_intro; vm_compute; done. Qed.

Lemma insertElementAt_refines_witness :
  exists v' status',
    insertElementAt 4 sample 15 1 U_ZERO_ERROR = Some (v', status') /\ wf 4 v' /\
    ((status' = U_ZERO_ERROR /\ contents v' = [10; 15; 20; 30]) \/
     (v' = sample /\ U_FAILURE status' = true /\ cannot_grow 4 sample U_ZERO_ERROR)).
Proof. apply (insertElementAt_refines 4 sample 15 1 U_ZERO_ERROR); [lia|apply int_sample_wf]. Defined.

Lemma sortedInsert_sorted_witness :
  exists v' ec',
    sortedInsert 4 sample 20 U_ZERO_ERROR = Some (v', ec') /\ wf 4 v' /\
    ((ec' = U_ZERO_ERROR /\ StronglySorted Z.le (contents v') /\ contents v' ≡ₚ [20; 10; 20; 30]) \/
     (v' = sample /\ U_FAILURE ec' = true /\ cannot_grow 4 sample U_ZERO_ERROR)).
Proof.
  apply (sortedInsert_sorted 4 sample 20 U_ZERO_ERROR); [lia|apply int_sample_wf|].
  change (contents sample) with [10; 20; 30]. repeat constructor; lia.
Defined.

Lemma retainAll_filters_witness :
  exists v' changed, retainAll sample sample_other = Some (v', changed) /\ wf 4 v' /\
    contents v' = [10; 30] /\ (changed = false <-> contents v' = [10; 20; 30]).
Proof. apply (retainAll_filters 4 sample sample_other); [apply int_sample_wf|apply int_sample_other_wf]. Defined.

Lemma push_popi_witness :
  exists v' status', push 4 sample_other 99 U_ZERO_ERROR = Some (v', status', 99) /\
    ((status' = U_ZERO_ERROR /\ contents v' = [30; 10; 99] /\
      exists v'', popi v' = Some (v'', 99) /\ wf 4 v'' /\ contents v'' = [30; 10]) \/
     (v' = sample_other /\ U_FAILURE status' = true /\ cannot_grow 4 sample_other U_ZERO_ERROR)).
Proof. apply (push_popi 4 sample_other 99 U_ZERO_ERROR); [lia|apply int_sample_other_wf]. Defined.

Lemma removeElementAt_past_end_witness :
  exists v', removeElementAt sample 7 = Some v' /\ count v' = 2 /\
    (0 < 3 -> contents v' = [10; 20]) /\ (count sample = 0 -> count v' = -1 /\ ~ wf 4 v').
Proof. apply (removeElementAt_past_end 4 sample 7); [apply int_sample_wf|vm_compute; done]. Defined.
End Witnesses.
End UVectorInt.

(** ** The class itself *)

Module UVector32.
Import UVectorInt.
Section UVector32.
Context `{Heap}.

(** [(index >= 0 && count > 0 && count - index > 0) ? elements[index] : 0] *)
Definition elementAti (v : t) (index : Z) : option Z :=
  if (0 <=? index) && (0 <? count v) && (0 <? count v - index)
  then cells ← elements v; zget cells index
  else Some 0.

Definition lastElementi (v : t) : option Z := elementAti v (count v - 1).

Definition peeki (v : t) : option Z := lastElementi v.

Lemma elementAti_spec v index :
  wf 4 v -> elementAti v index = Some (default 0 (zget (contents v) index)).
Proof.
  intros Hwf. pose proof (int_contents_zlen 4 v Hwf). pose proof Hwf as (cells & E & L & C & _).
  unfold elementAti. destruct (_ && _ && _) eqn:Hi.
  - rewrite E. simpl. rewrite <- int_zget_contents, E by lia. simpl.
    destruct (zget_is_Some cells index) as [x ->]; [lia|done].
  - rewrite zget_None by lia. done.
Qed.
End UVector32.
End UVector32.
