(* ===== verification/Vector64.v ===== *)
(** * UVector64 (common/uvectr64.cpp, uvectr64.h)

    The growable array of 64-bit integers: the operations of Vector32.v at a cell width of
    8 bytes, for the methods the class has. *)

From S2P Require Import Prelude Vector32.

Module UVector64.
Import UVectorInt.
Section UVector64.
Context `{Heap}.

Definition _init := UVectorInt._init 8.
Definition assign := UVectorInt.assign 8.
Definition operator_eq := UVectorInt.equals.
Definition setElementAt := UVectorInt.setElementAt.
Definition insertElementAt := UVectorInt.insertElementAt 8.
Definition removeAllElements := UVectorInt.removeAllElements.
Definition expandCapacity := UVectorInt.expandCapacity 8.
Definition setMaxCapacity := UVectorInt.setMaxCapacity 8.
Definition setSize := UVectorInt.setSize 8.
Definition ensureCapacity := UVectorInt.ensureCapacity 8.
Definition addElement := UVectorInt.addElement 8.
Definition reserveBlock := UVectorInt.reserveBlock 8.
Definition popFrame := UVectorInt.popFrame.
Definition push := UVectorInt.push 8.
Definition popi := UVectorInt.popi.

(** [(0 <= index && index < count) ? elements[index] : 0] *)
Definition elementAti (v : t) (index : Z) : option Z :=
  if (0 <=? index) && (index <? count v)
  then cells ← elements v; zget cells index
  else Some 0.

Definition lastElementi (v : t) : option Z := elementAti v (count v - 1).

(** The two spellings of [elementAti] agree. *)
Lemma elementAti_32 v index : 0 <= count v -> elementAti v index = UVector32.elementAti v index.
Proof.
  intros. unfold elementAti, UVector32.elementAti.
  replace ((0 <=? index) && (0 <? count v) && (0 <? count v - index))
    with ((0 <=? index) && (index <? count v)) by lia. done.
Qed.
End UVector64.
End UVector64.
