(* ===== verification/Vector.v ===== *)
(** * UVector and UStack (common/uvector.cpp, uvector.h, ustack.cpp)

    The growable array of pointers or integers, with an optional deleter (ownership) and
    an optional comparer.  The type [A] is the type of the objects pointed to; where the
    class compares pointers, objects are compared.  Objects handed to the deleter are
    logged in [deleted], so that ownership can be stated. *)

From S2P Require Import Prelude.

Module UVector.

(** The union [UElement] (common/uelement.h): a pointer, null as [None], or an integer. *)
Inductive UElement (A : Type) :=
  | Ptr (p : option A)
  | Int (i : Z).
Arguments Ptr {A}. Arguments Int {A}.

Record t (A : Type) := mk {
  count : Z;
  capacity : Z;
  elements : option (list (UElement A));
  deleter : bool;
  comparer : option (UElement A -> UElement A -> bool);
  deleted : list A
}.
Arguments mk {A}. Arguments count {A}. Arguments capacity {A}. Arguments elements {A}.
Arguments deleter {A}. Arguments comparer {A}. Arguments deleted {A}.

Definition DEFAULT_CAPACITY : Z := 8.
Definition sizeof_UElement : Z := 8.

Section Ops.
Context `{Heap} {A : Type} `{EqDecision A}.
Implicit Types v other : t A.

#[global] Instance UElement_eq_dec : EqDecision (UElement A).
Proof. solve_decision. Defined.

Definition set_count v (c : Z) : t A :=
  mk c (capacity v) (elements v) (deleter v) (comparer v) (deleted v).
Definition set_cells v (cells : list (UElement A)) : t A :=
  mk (count v) (capacity v) (Some cells) (deleter v) (comparer v) (deleted v).
Definition log_deleted v (x : A) : t A :=
  mk (count v) (capacity v) (elements v) (deleter v) (comparer v) (deleted v ++ [x]).

(** [e.pointer != 0] and [e.integer] read from the union; reading the integer half of a
    pointer has no meaning here. *)
Definition is_null (e : UElement A) : bool :=
  match e with Ptr None => true | Int 0 => true | _ => false end.
Definition integer (e : UElement A) : option Z :=
  match e with Int i => Some i | Ptr None => Some 0 | Ptr (Some _) => None end.

(** [if (e.pointer != 0 && deleter != 0) ( *deleter)(e.pointer);]
    Deleting an integer is undefined. *)
Definition delete_element v (e : UElement A) : option (t A) :=
  if negb (is_null e) && deleter v
  then match e with
       | Ptr (Some x) => Some (log_deleted v x)
       | _ => None
       end
  else Some v.

Definition _init v (initialCapacity : Z) (status : UErrorCode) : t A * UErrorCode :=
  if U_FAILURE status then (v, status)
  else
    let initialCapacity :=
      if (initialCapacity <? 1) || (INT32_MAX / sizeof_UElement <? initialCapacity)
      then DEFAULT_CAPACITY else initialCapacity in
    match uprv_malloc (Int junk) sizeof_UElement initialCapacity with
    | None => (mk (count v) (capacity v) None (deleter v) (comparer v) (deleted v),
               U_MEMORY_ALLOCATION_ERROR)
    | Some cells =>
        (mk (count v) initialCapacity (Some cells) (deleter v) (comparer v) (deleted v), status)
    end.

Definition new (d : bool) (c : option (UElement A -> UElement A -> bool))
    (initialCapacity : Z) (status : UErrorCode) : t A * UErrorCode :=
  _init (mk 0 0 None d c []) initialCapacity status.

Definition ensureCapacity v (minimumCapacity : Z) (status : UErrorCode)
  : t A * UErrorCode * bool :=
  if minimumCapacity <? 0 then (v, U_ILLEGAL_ARGUMENT_ERROR, false)
  else if capacity v <? minimumCapacity then
    if (INT32_MAX - 1) / 2 <? capacity v then (v, U_ILLEGAL_ARGUMENT_ERROR, false)
    else
      let newCap := capacity v * 2 in
      let newCap := if newCap <? minimumCapacity then minimumCapacity else newCap in
      if INT32_MAX / sizeof_UElement <? newCap then (v, U_ILLEGAL_ARGUMENT_ERROR, false)
      else match uprv_realloc (Int junk) (default [] (elements v)) sizeof_UElement newCap with
           | None => (v, U_MEMORY_ALLOCATION_ERROR, false)
           | Some newElems =>
               (mk (count v) newCap (Some newElems) (deleter v) (comparer v) (deleted v),
                status, true)
           end
  else (v, status, true).

(** The body of [addElement] for an element already built. *)
Definition addElement v (e : UElement A) (status : UErrorCode) : option (t A * UErrorCode) :=
  let '(v, status, ok) := ensureCapacity v (count v + 1) status in
  if ok then
    cells ← elements v; cells ← zset cells (count v) e;
    Some (set_count (set_cells v cells) (count v + 1), status)
  else Some (v, status).

Definition addElement_ptr v (obj : option A) := addElement v (Ptr obj).
Definition addElement_int v (elem : Z) := addElement v (Int elem).

Definition setElementAt v (e : UElement A) (index : Z) : option (t A) :=
  if (0 <=? index) && (index <? count v) then
    cells ← elements v; old ← zget cells index;
    v ← delete_element v old;
    cells ← zset cells index e;
    Some (set_cells v cells)
  else Some v.

Definition insertElementAt v (e : UElement A) (index : Z) (status : UErrorCode)
  : option (t A * UErrorCode) :=
  if (0 <=? index) && (index <=? count v) then
    let '(v, status, ok) := ensureCapacity v (count v + 1) status in
    if ok then
      cells ← elements v;
      cells ← shift_up index (count v) cells;
      cells ← zset cells index e;
      Some (set_count (set_cells v cells) (count v + 1), status)
    else Some (v, status)
  else Some (v, status).

Definition elementAt v (index : Z) : option (UElement A) :=
  if (0 <=? index) && (index <? count v)
  then cells ← elements v; zget cells index
  else Some (Ptr None).

Definition elementAti v (index : Z) : option Z :=
  if (0 <=? index) && (index <? count v)
  then cells ← elements v; e ← zget cells index; integer e
  else Some 0.

Inductive hint := HINT_KEY_POINTER | HINT_KEY_INTEGER.

(** One comparison of [indexOf]: the comparer if there is one, else by the hint. *)
Definition key_matches v (h : hint) (key e : UElement A) : option bool :=
  match comparer v with
  | Some cmp => Some (cmp key e)
  | None => match h with
            | HINT_KEY_POINTER => Some (bool_decide (key = e))
            | HINT_KEY_INTEGER => a ← integer key; b ← integer e; Some (a =? b)
            end
  end.

Fixpoint indexOf_loop v (h : hint) (key : UElement A) (n : nat) (i : Z) (cells : list (UElement A))
  : option Z :=
  match n with
  | O => Some (-1)
  | S n => e ← zget cells i; m ← key_matches v h key e;
           if (m : bool) then Some i else indexOf_loop v h key n (i + 1) cells
  end.

Definition indexOf v (key : UElement A) (startIndex : Z) (h : hint) : option Z :=
  if startIndex <? count v then
    cells ← elements v;
    indexOf_loop v h key (Z.to_nat (count v - startIndex)) startIndex cells
  else Some (-1).

Definition indexOf_ptr v (obj : option A) (startIndex : Z) : option Z :=
  indexOf v (Ptr obj) startIndex HINT_KEY_POINTER.
Definition indexOf_int v (obj : Z) (startIndex : Z) : option Z :=
  indexOf v (Int obj) startIndex HINT_KEY_INTEGER.

Definition contains v (obj : option A) : option bool :=
  i ← indexOf_ptr v obj 0; Some (0 <=? i).

(** The hint defaults to 0, that is to the integer comparison. *)
Fixpoint containsAll_loop v (n : nat) (i : Z) (os : list (UElement A)) : option bool :=
  match n with
  | O => Some true
  | S n => e ← zget os i; j ← indexOf v e 0 HINT_KEY_INTEGER;
           if j <? 0 then Some false else containsAll_loop v n (i + 1) os
  end.

Definition containsAll v other : option bool :=
  if 0 <? count other then
    os ← elements other; containsAll_loop v (Z.to_nat (count other)) 0 os
  else Some true.

Fixpoint containsNone_loop v (n : nat) (i : Z) (os : list (UElement A)) : option bool :=
  match n with
  | O => Some true
  | S n => e ← zget os i; j ← indexOf v e 0 HINT_KEY_INTEGER;
           if 0 <=? j then Some false else containsNone_loop v n (i + 1) os
  end.

Definition containsNone v other : option bool :=
  if 0 <? count other then
    os ← elements other; containsNone_loop v (Z.to_nat (count other)) 0 os
  else Some true.

Definition orphanElementAt v (index : Z) : option (t A * UElement A) :=
  if (0 <=? index) && (index <? count v) then
    cells ← elements v; e ← zget cells index;
    cells ← shift_down index (count v - 1) cells;
    Some (set_count (set_cells v cells) (count v - 1), e)
  else Some (v, Ptr None).

Definition removeElementAt v (index : Z) : option (t A) :=
  '(v, e) ← orphanElementAt v index; delete_element v e.

Definition removeElement v (obj : option A) : option (t A * bool) :=
  i ← indexOf_ptr v obj 0;
  if 0 <=? i then v ← removeElementAt v i; Some (v, true) else Some (v, false).

Fixpoint removeAll_loop (n : nat) (i : Z) (os : list (UElement A)) v (changed : bool)
  : option (t A * bool) :=
  match n with
  | O => Some (v, changed)
  | S n => e ← zget os i; j ← indexOf v e 0 HINT_KEY_INTEGER;
           if 0 <=? j
           then v ← removeElementAt v j; removeAll_loop n (i + 1) os v true
           else removeAll_loop n (i + 1) os v changed
  end.

Definition removeAll v other : option (t A * bool) :=
  if 0 <? count other then
    os ← elements other; removeAll_loop (Z.to_nat (count other)) 0 os v false
  else Some (v, false).

Fixpoint retainAll_loop (n : nat) (j : Z) other v (changed : bool) : option (t A * bool) :=
  match n with
  | O => Some (v, changed)
  | S n => cells ← elements v; e ← zget cells j; i ← indexOf other e 0 HINT_KEY_INTEGER;
           if i <? 0
           then v ← removeElementAt v j; retainAll_loop n (j - 1) other v true
           else retainAll_loop n (j - 1) other v changed
  end.

Definition retainAll v other : option (t A * bool) :=
  retainAll_loop (Z.to_nat (count v)) (count v - 1) other v false.

Fixpoint removeAllElements_loop (n : nat) (i : Z) (cells : list (UElement A)) v : option (t A) :=
  match n with
  | O => Some v
  | S n => e ← zget cells i; v ← delete_element v e; removeAllElements_loop n (i + 1) cells v
  end.

Definition removeAllElements v : option (t A) :=
  if deleter v && (0 <? count v) then
    cells ← elements v;
    v ← removeAllElements_loop (Z.to_nat (count v)) 0 cells v;
    Some (set_count v 0)
  else Some (set_count v 0).

(** [operator==]; without a comparer only the sizes are compared. *)
Fixpoint operator_eq_loop (cmp : UElement A -> UElement A -> bool) (n : nat) (i : Z)
    (a b : list (UElement A)) : option bool :=
  match n with
  | O => Some true
  | S n => x ← zget a i; y ← zget b i;
           if negb (cmp x y) then Some false else operator_eq_loop cmp n (i + 1) a b
  end.

Definition operator_eq v other : option bool :=
  if negb (count v =? count other) then Some false
  else match comparer v with
       | Some cmp =>
           if 0 <? count v then
             a ← elements v; b ← elements other;
             operator_eq_loop cmp (Z.to_nat (count v)) 0 a b
           else Some true
       | None => Some true
       end.

(** [equals]; with a comparer the key it passes is the address of the other vector's cell,
    not the element, so the comparison has no defined result. *)
Fixpoint equals_loop (n : nat) (i : Z) (a b : list (UElement A)) : option bool :=
  match n with
  | O => Some true
  | S n => x ← zget a i; y ← zget b i;
           if negb (bool_decide (x = y)) then Some false else equals_loop n (i + 1) a b
  end.

Definition equals v other : option bool :=
  if negb (count v =? count other) then Some false
  else if 0 <? count v then
    match comparer v with
    | None => a ← elements v; b ← elements other; equals_loop (Z.to_nat (count v)) 0 a b
    | Some _ => None
    end
  else Some true.

Fixpoint fill_empty (n : nat) (i : Z) (a : list (UElement A)) : option (list (UElement A)) :=
  match n with
  | O => Some a
  | S n => a ← zset a i (Ptr None); fill_empty n (i + 1) a
  end.

(** [for (i=count-1; i>=newSize; --i) removeElementAt(i);] *)
Fixpoint shrink_loop (n : nat) (i : Z) v : option (t A) :=
  match n with
  | O => Some v
  | S n => v ← removeElementAt v i; shrink_loop n (i - 1) v
  end.

Definition setSize v (newSize : Z) (status : UErrorCode) : option (t A * UErrorCode) :=
  if newSize <? 0 then Some (v, status)
  else if count v <? newSize then
    let '(v, status, ok) := ensureCapacity v newSize status in
    if negb ok then Some (v, status)
    else cells ← elements v;
         cells ← fill_empty (Z.to_nat (newSize - count v)) (count v) cells;
         Some (set_count (set_cells v cells) newSize, status)
  else
    v ← shrink_loop (Z.to_nat (count v - newSize)) (count v - 1) v;
    Some (set_count v newSize, status).

(** The copying loop of [assign]; [assign1] is the caller's element assigner. *)
Fixpoint assign_loop (assign1 : UElement A -> UElement A) (n : nat) (i : Z)
    (src : list (UElement A)) v : option (t A) :=
  match n with
  | O => Some v
  | S n =>
      cells ← elements v; old ← zget cells i;
      v ← delete_element v old;
      e ← zget src i; cells ← zset cells i (assign1 e);
      assign_loop assign1 n (i + 1) src (set_cells v cells)
  end.

Definition assign v other (assign1 : UElement A -> UElement A) (ec : UErrorCode)
  : option (t A * UErrorCode) :=
  let '(v, ec, ok) := ensureCapacity v (count other) ec in
  if ok then
    '(v, ec) ← setSize v (count other) ec;
    if U_SUCCESS ec && (0 <? count other) then
      src ← elements other;
      v ← assign_loop assign1 (Z.to_nat (count other)) 0 src v;
      Some (v, ec)
    else Some (v, ec)
  else Some (v, ec).

Definition setDeleter v (d : bool) : t A * bool :=
  (mk (count v) (capacity v) (elements v) d (comparer v) (deleted v), deleter v).

Definition setComparer v (c : option (UElement A -> UElement A -> bool))
  : t A * option (UElement A -> UElement A -> bool) :=
  (mk (count v) (capacity v) (elements v) (deleter v) c (deleted v), comparer v).

(** [compare] returns an [int8_t]. *)
Definition sortedInsert v (e : UElement A) (compare : UElement A -> UElement A -> Z)
    (ec : UErrorCode) : option (t A * UErrorCode) :=
  min ← insertion_search (S (Z.to_nat (count v))) (fun x => 0 <? compare x e)
           (default [] (elements v)) 0 (count v);
  let '(v, ec, ok) := ensureCapacity v (count v + 1) ec in
  if ok then
    cells ← elements v;
    cells ← shift_up min (count v) cells;
    cells ← zset cells min e;
    Some (set_count (set_cells v cells) (count v + 1), ec)
  else Some (v, ec).

(** The comparison [sorti] passes to the array sort. *)
Definition sortiComparator (e1 e2 : Z) : Z :=
  if e1 <? e2 then -1 else if e1 =? e2 then 0 else 1.
End Ops.

(** ** UStack *)

Section UStack.
Context `{Heap} {A : Type} `{EqDecision A}.
Implicit Types v : t A.

Definition pop v : option (t A * UElement A) :=
  let n := count v - 1 in
  if 0 <=? n then
    result ← elementAt v n; v ← removeElementAt v n; Some (v, result)
  else Some (v, Ptr None).

Definition popi v : option (t A * Z) :=
  let n := count v - 1 in
  if 0 <=? n then
    result ← elementAti v n; v ← removeElementAt v n; Some (v, result)
  else Some (v, 0).

Definition search v (obj : option A) : option Z :=
  i ← indexOf_ptr v obj 0;
  Some (if 0 <=? i then count v - i else i).
End UStack.

(** ** Representation invariant, contents and ownership *)

Section Facts.
Context `{Heap} {A : Type} `{EqDecision A}.
Implicit Types v other : t A.

Definition wf v : Prop :=
  exists cells, elements v = Some cells /\ zlen cells = capacity v /\
    0 <= count v <= capacity v /\ capacity v <= INT32_MAX / sizeof_UElement.

Definition contents v : list (UElement A) := ztake (count v) (default [] (elements v)).

(** Every element is an object, the usual state of a vector with a deleter. *)
Definition object (e : UElement A) : option A :=
  match e with Ptr p => p | Int _ => None end.
Definition all_objects (l : list (UElement A)) : Prop := Forall (fun e => is_Some (object e)) l.

(** The objects a vector is responsible for, with those it has already deleted. *)
Definition owned v : list A := omap object (contents v) ++ deleted v.

Lemma contents_zlen v : wf v -> zlen (contents v) = count v.
Proof. intros (cells & E & L & C & _). unfold contents. rewrite E. simpl. apply zlen_ztake. lia. Qed.

Lemma zget_contents v i : i < count v -> zget (default [] (elements v)) i = zget (contents v) i.
Proof. intros. unfold contents. by rewrite zget_ztake. Qed.

Lemma wf_cells v cells :
  elements v = Some cells -> wf v -> forall i, i < count v -> zget cells i = zget (contents v) i.
Proof. intros E _ i Hi. by rewrite <- zget_contents, E by lia. Qed.

Lemma wf_intro c cap cells d cmp log :
  zlen cells = cap -> 0 <= c <= cap -> cap <= INT32_MAX / sizeof_UElement ->
  wf (mk c cap (Some cells) d cmp log).
Proof. intros. exists cells. simpl. auto. Qed.

(** What operations other than [setDeleter] and [setComparer] leave alone. *)
Definition same_policy v v' : Prop := deleter v' = deleter v /\ comparer v' = comparer v.

Lemma ensureCapacity_spec v m status v' status' ok :
  wf v -> ensureCapacity v m status = (v', status', ok) ->
  wf v' /\ count v' = count v /\ contents v' = contents v /\ same_policy v v' /\
  deleted v' = deleted v /\
  (if ok then 0 <= m <= capacity v' /\ status' = status
   else v' = v /\ U_FAILURE status' = true /\ (m < 0 \/ capacity v < m)).
Proof.
  intros Hwf. pose proof Hwf as (cells & E & L & C & M).
  unfold ensureCapacity, same_policy. rewrite E. simpl default.
  destruct (m <? 0) eqn:?; [intros [= <- <- <-]; split_and!; auto; lia|].
  destruct (capacity v <? m) eqn:?; [|intros [= <- <- <-]; split_and!; auto; lia].
  destruct (_ <? capacity v) eqn:?; [intros [= <- <- <-]; split_and!; auto; lia|].
  set (nc := if _ <? m then _ else _).
  assert (m <= nc) by (unfold nc; zcase; lia).
  destruct (_ <? nc) eqn:?; [intros [= <- <- <-]; split_and!; auto; lia|].
  destruct (uprv_realloc _ _ _ _) as [cells'|] eqn:Hre;
    [|intros [= <- <- <-]; split_and!; auto; lia].
  intros [= <- <- <-].
  apply uprv_realloc_spec in Hre as [Hl Hk]; [|unfold sizeof_UElement; lia|lia].
  split_and!; simpl; try done; try lia.
  - apply wf_intro; lia.
  - unfold contents. simpl. rewrite E. apply Hk. lia.
Qed.

(** Why a vector does not grow by one element: no memory, or the size limit. *)
Lemma ensureCapacity_refusal v status v' status' :
  wf v -> ensureCapacity v (count v + 1) status = (v', status', false) ->
  refused \/ 2 ^ 27 <= count v.
Proof.
  intros Hwf. pose proof Hwf as (cells & E & L & C & M). unfold ensureCapacity.
  change (INT32_MAX / sizeof_UElement) with 268435455 in *. change ((INT32_MAX - 1) / 2) with 1073741823.
  destruct (Z.ltb_spec (count v + 1) 0); [lia|]. destruct (Z.ltb_spec (capacity v) (count v + 1)); [|done].
  destruct (Z.ltb_spec 1073741823 (capacity v)); [lia|].
  set (nc := if _ <? count v + 1 then _ else _).
  destruct (Z.ltb_spec 268435455 nc) as [Hnc|].
  - intros _. right. revert Hnc. unfold nc. zcase; lia.
  - destruct (uprv_realloc _ _ _ _) eqn:Er; [done|]. intros _. left. eapply realloc_refused; [|exact Er].
    unfold sizeof_UElement, INT32_MAX. unfold nc in *. zcase; lia.
Qed.

Lemma ensured_insert v e index status :
  wf v -> 0 <= index <= count v ->
  exists v' status',
    (let '(v, status, ok) := ensureCapacity v (count v + 1) status in
     if ok then
       cells ← elements v;
       cells ← shift_up index (count v) cells;
       cells ← zset cells index e;
       Some (set_count (set_cells v cells) (count v + 1), status)
     else Some (v, status)) = Some (v', status') /\ wf v' /\ same_policy v v' /\
    deleted v' = deleted v /\
    ((status' = status /\ contents v' =
        take (Z.to_nat index) (contents v) ++ e :: drop (Z.to_nat index) (contents v)) \/
     (v' = v /\ U_FAILURE status' = true /\ (refused \/ 2 ^ 27 <= count v))).
Proof.
  intros Hwf Hi.
  destruct (ensureCapacity _ _ _) as [[v1 st1] ok] eqn:He.
  destruct (ensureCapacity_spec _ _ _ _ _ _ Hwf He) as (Hwf1 & Hc1 & Hk1 & Hp & Hd & Hok).
  destruct ok; [|exists v1, st1; split_and!; auto; try apply Hp; right].
  2:{ destruct Hok as (-> & ? & ?). split_and!; auto. by eapply ensureCapacity_refusal. }
  simpl in Hok. pose proof Hwf1 as (cells & E & L & C & M). rewrite E. simpl.
  destruct (shift_up_insert index (count v1) cells e) as (r & r' & -> & Hr' & Hlen & Htake); [lia..|].
  simpl. rewrite Hr'. simpl. eexists _, _. split; [done|].
  split_and!; [apply wf_intro; simpl; lia|apply Hp..|done|].
  left. split; [tauto|]. rewrite <- Hk1. unfold contents at 1. simpl. rewrite Htake.
  unfold contents. by rewrite E.
Qed.

Lemma delete_element_spec v e :
  is_Some (object e) ->
  exists v', delete_element v e = Some v' /\ elements v' = elements v /\ count v' = count v /\
    capacity v' = capacity v /\ same_policy v v' /\
    deleted v' = deleted v ++ (if deleter v then omap object [e] else []).
Proof.
  intros [x Hx]. destruct e as [[y|]|]; simpl in *; simplify_eq.
  unfold delete_element, same_policy. simpl. destruct (deleter v) eqn:?; eexists; (split; [done|]); simpl; rewrite ?app_nil_r; split_and!; auto.
Qed.

Lemma removeElementAt_spec v index e :
  wf v -> zget (contents v) index = Some e -> is_Some (object e) ->
  exists v', removeElementAt v index = Some v' /\ wf v' /\ count v' = count v - 1 /\
    same_policy v v' /\
    contents v' = take (Z.to_nat index) (contents v) ++ drop (S (Z.to_nat index)) (contents v) /\
    deleted v' = deleted v ++ (if deleter v then omap object [e] else []).
Proof.
  intros Hwf He Ho. pose proof (zget_Some_range _ _ _ He) as Hi.
  rewrite (contents_zlen v Hwf) in Hi. pose proof Hwf as (cells & E & L & C & M).
  unfold removeElementAt, orphanElementAt.
  destruct (_ && _) eqn:Hb; [|lia]. rewrite E. simpl.
  rewrite (wf_cells v cells E Hwf) by lia. rewrite He. simpl.
  destruct (shift_down_delete index (count v - 1) cells) as (r & -> & Hlr & Ht); [lia..|]. simpl.
  replace (count v - 1 + 1) with (count v) in Ht by lia.
  destruct (delete_element_spec (set_count (set_cells v r) (count v - 1)) e Ho)
    as (v' & -> & Hel & Hc & Hcap & Hp & Hd).
  exists v'. simpl in *. split_and!; auto; try apply Hp.
  - exists r. rewrite Hel, Hc, Hcap. split_and!; auto; lia.
  - unfold contents. rewrite Hel, Hc, E. simpl. exact Ht.
Qed.

Lemma removeElementAt_owned v index e v' :
  wf v -> deleter v = true -> zget (contents v) index = Some e ->
  contents v' = take (Z.to_nat index) (contents v) ++ drop (S (Z.to_nat index)) (contents v) ->
  deleted v' = deleted v ++ omap object [e] -> owned v' ≡ₚ owned v.
Proof.
  intros Hwf Hd [_ He]%zget_Some_lookup Hc Hdel. unfold owned. rewrite Hc, Hdel.
  rewrite <- (take_drop_middle _ _ _ He) at 3.
  change (e :: drop ?n ?l) with ([e] ++ drop n l). rewrite !omap_app, <- !app_assoc.
  f_equiv. rewrite (app_assoc (omap object (drop _ _))). apply Permutation_app_comm.
Qed.

Lemma removeAllElements_loop_spec n i cells v :
  deleter v = true -> 0 <= i -> i + Z.of_nat n <= zlen cells ->
  all_objects (take n (drop (Z.to_nat i) cells)) ->
  exists v', removeAllElements_loop n i cells v = Some v' /\ elements v' = elements v /\
    capacity v' = capacity v /\ same_policy v v' /\
    deleted v' = deleted v ++ omap object (take n (drop (Z.to_nat i) cells)).
Proof.
  revert i v. induction n as [|n IH]; intros i v Hdel Hi Hn Hall; simpl.
  { exists v. rewrite app_nil_r. split_and!; auto; done. }
  destruct (zget_is_Some cells i) as [e He]; [lia|]. rewrite He. simpl.
  apply zget_Some_lookup in He as [_ He]. rewrite (drop_S _ _ _ He) in *. cbn [take] in *.
  apply Forall_cons in Hall as [Ho Hall].
  destruct (delete_element_spec v e Ho) as (v1 & -> & He1 & Hc1 & Hcap1 & Hp1 & Hd1). simpl.
  replace (S (Z.to_nat i)) with (Z.to_nat (i + 1)) in * by lia.
  destruct (IH (i + 1) v1) as (v' & -> & He' & Hcap' & Hp' & Hd'); auto; try lia.
  { by destruct Hp1 as [-> _]. }
  exists v'. rewrite Hdel in Hd1. destruct Hp1, Hp'. split_and!; try congruence; [split; congruence|].
  rewrite Hd', Hd1, <- app_assoc. f_equal. cbn. destruct (object e); [done|]. by destruct Ho.
Qed.

(** [removeAllElements] empties the vector and, with a deleter, deletes each object once. *)
Lemma removeAllElements_spec v :
  wf v -> all_objects (contents v) ->
  exists v', removeAllElements v = Some v' /\ wf v' /\ same_policy v v' /\ contents v' = [] /\
    (deleter v = true -> owned v' ≡ₚ owned v).
Proof.
  intros Hwf Hall. pose proof Hwf as (cells & E & L & C & M). unfold removeAllElements.
  destruct (deleter v) eqn:Hdel; simpl.
  - destruct (Z.ltb_spec 0 (count v)).
    + rewrite E. simpl. unfold contents in Hall. rewrite E in Hall. simpl in Hall.
      destruct (removeAllElements_loop_spec (Z.to_nat (count v)) 0 cells v) as (v' & -> & He & Hcap & Hp & Hd);
        auto; try lia.
      eexists. split; [done|]. split_and!; try apply Hp.
      * exists cells. unfold set_count. simpl. rewrite He, Hcap. split_and!; auto; lia.
      * done.
      * intros _. unfold owned, contents. simpl. rewrite Hd, E. simpl. apply Permutation_app_comm.
    + eexists. split; [done|]. split_and!; auto; [|done|].
      * exists cells. simpl. split_and!; auto; lia.
      * intros _. unfold owned, contents. simpl. replace (count v) with 0 by lia. done.
  - eexists. split; [done|]. split_and!; auto; [|done|done].
    exists cells. simpl. split_and!; auto; lia.
Qed.

(** A comparer that decides equality, as [uhash_compareUnicodeString] does. *)
Definition decides v : Prop :=
  exists cmp, comparer v = Some cmp /\ forall a b, cmp a b = bool_decide (a = b).

Lemma decides_policy v v' : same_policy v v' -> decides v -> decides v'.
Proof. intros [_ Hc] (cmp & E & Hd). exists cmp. by rewrite Hc. Qed.

Lemma indexOf_loop_spec v h key n i cells :
  decides v -> 0 <= i -> i + Z.of_nat n = count v ->
  (forall j, j < count v -> zget cells j = zget (contents v) j) -> zlen (contents v) = count v ->
  exists r, indexOf_loop v h key n i cells = Some r /\
    ((r = -1 /\ key ∉ drop (Z.to_nat i) (contents v)) \/
     (i <= r < count v /\ zget (contents v) r = Some key)).
Proof.
  intros Hdec. destruct Hdec as (cmp & Ecmp & Hcmp).
  revert i. induction n as [|n IH]; intros i Hi Hn Hc Hl; simpl.
  - exists (-1). split; [done|left; split; [done|]]. rewrite drop_ge by (unfold zlen in *; lia).
    apply not_elem_of_nil.
  - rewrite Hc by lia. destruct (zget_is_Some (contents v) i) as [x Hx]; [lia|]. rewrite Hx. simpl.
    assert (Hd : drop (Z.to_nat i) (contents v) = x :: drop (Z.to_nat (i + 1)) (contents v)).
    { replace (Z.to_nat (i + 1)) with (S (Z.to_nat i)) by lia.
      apply zget_Some_lookup in Hx as [_ Hx]. by apply drop_S. }
    unfold key_matches. rewrite Ecmp, Hcmp. simpl. rewrite Hd. case_bool_decide as Hk.
    + subst x. exists i. split; [done|right]. split; [lia|done].
    + destruct (IH (i + 1)) as (r & -> & Hr); [lia..|done|done|]. exists r. split; [done|].
      rewrite elem_of_cons. destruct Hr as [[-> ?]|(? & ?)]; [left|right].
      * split; [done|]. tauto.
      * split; [lia|done].
Qed.

Lemma indexOf_spec v h key :
  wf v -> decides v ->
  exists r, indexOf v key 0 h = Some r /\
    ((r = -1 /\ key ∉ contents v) \/ (0 <= r < count v /\ zget (contents v) r = Some key)).
Proof.
  intros Hwf Hdec. pose proof (contents_zlen v Hwf) as Hl. pose proof Hwf as (cells & E & L & C & _).
  unfold indexOf. destruct (Z.ltb_spec 0 (count v)).
  - rewrite E. simpl.
    destruct (indexOf_loop_spec v h key (Z.to_nat (count v - 0)) 0 cells) as (r & -> & Hr);
      [done|lia..| |done|].
    { by apply wf_cells. }
    exists r. split; [done|]. rewrite drop_0 in Hr. naive_solver.
  - exists (-1). split; [done|left]. split; [done|]. unfold zlen in Hl.
    destruct (contents v); [apply not_elem_of_nil|simpl in *; lia].
Qed.

Lemma zget_elem_of {B} (l : list B) i x : zget l i = Some x -> x ∈ l.
Proof. intros [_ Hx]%zget_Some_lookup. apply list_elem_of_lookup. eauto. Qed.

Lemma contains_spec v obj :
  wf v -> decides v -> contains v obj = Some (bool_decide (Ptr obj ∈ contents v)).
Proof.
  intros Hwf Hdec. unfold contains, indexOf_ptr.
  destruct (indexOf_spec v HINT_KEY_POINTER (Ptr obj) Hwf Hdec) as (r & -> & Hr). simpl. f_equal.
  destruct Hr as [[-> Hr]|[Hr Hg]].
  - by rewrite bool_decide_false.
  - rewrite bool_decide_true by (by eapply zget_elem_of). lia.
Qed.

(** Removal of one element, as a filter of a duplicate-free vector. *)
Lemma removeElementAt_filter v index e :
  wf v -> NoDup (contents v) -> all_objects (contents v) -> zget (contents v) index = Some e ->
  exists v', removeElementAt v index = Some v' /\ wf v' /\ same_policy v v' /\
    contents v' = filter (fun y => y <> e) (contents v) /\
    (deleter v = true -> owned v' ≡ₚ owned v).
Proof.
  intros Hwf Hnd Hall He. pose proof He as [_ Hl]%zget_Some_lookup.
  destruct (removeElementAt_spec v index e) as (v' & -> & Hwf' & Hc & Hp & Hk & Hd); auto.
  { by eapply (Forall_lookup_1 _ _ _ _ Hall). }
  exists v'. split_and!; auto; try apply Hp.
  - rewrite Hk. by apply NoDup_cut_filter.
  - intros Hdel. rewrite Hdel in Hd. by eapply removeElementAt_owned.
Qed.

Lemma removeElement_spec v obj :
  wf v -> decides v -> NoDup (contents v) -> all_objects (contents v) ->
  exists v', removeElement v obj = Some (v', bool_decide (Ptr obj ∈ contents v)) /\
    wf v' /\ same_policy v v' /\ contents v' = filter (fun y => y <> Ptr obj) (contents v) /\
    (deleter v = true -> owned v' ≡ₚ owned v).
Proof.
  intros Hwf Hdec Hnd Hall. unfold removeElement, indexOf_ptr.
  destruct (indexOf_spec v HINT_KEY_POINTER (Ptr obj) Hwf Hdec) as (r & -> & Hr). simpl.
  destruct Hr as [[-> Hr]|[Hr Hg]]; simpl.
  - exists v. rewrite bool_decide_false by done. split_and!; auto; [done..|].
    symmetry. apply filter_all_iff, Forall_forall. naive_solver.
  - destruct (Z.leb_spec 0 r); [|lia].
    destruct (removeElementAt_filter v r (Ptr obj)) as (v' & -> & ? & ? & ? & ?); auto. simpl.
    exists v'. rewrite bool_decide_true by (by eapply zget_elem_of). auto.
Qed.

Lemma all_objects_filter (P : UElement A -> Prop) `{forall x, Decision (P x)} l :
  all_objects l -> all_objects (filter P l).
Proof.
  unfold all_objects. rewrite !Forall_forall. intros Hl x Hx%list_elem_of_filter. naive_solver.
Qed.

Lemma removeAll_loop_spec n i (os : list (UElement A)) v changed :
  wf v -> decides v -> NoDup (contents v) -> all_objects (contents v) ->
  0 <= i -> i + Z.of_nat n <= zlen os ->
  exists v' changed', removeAll_loop n i os v changed = Some (v', changed') /\ wf v' /\
    same_policy v v' /\
    contents v' = filter (.∉ take n (drop (Z.to_nat i) os)) (contents v) /\
    (deleter v = true -> owned v' ≡ₚ owned v).
Proof.
  revert i v changed. induction n as [|n IH]; intros i v changed Hwf Hdec Hnd Hall Hi Hn; simpl.
  { exists v, changed. split_and!; auto; [done..|]. symmetry. apply filter_all_iff, Forall_forall.
    intros. apply not_elem_of_nil. }
  destruct (zget_is_Some os i) as [e He]; [lia|]. rewrite He. simpl.
  assert (Hd : drop (Z.to_nat i) os = e :: drop (Z.to_nat (i + 1)) os).
  { replace (Z.to_nat (i + 1)) with (S (Z.to_nat i)) by lia.
    apply zget_Some_lookup in He as [_ He]. by apply drop_S. }
  rewrite Hd. simpl.
  destruct (indexOf_spec v HINT_KEY_INTEGER e Hwf Hdec) as (r & -> & Hr). simpl.
  destruct Hr as [[-> Hr]|[Hr Hg]]; simpl.
  - destruct (IH (i + 1) v changed) as (v' & ch & -> & ? & ? & Hc & ?); auto; [lia..|].
    exists v', ch. split_and!; auto. rewrite Hc.
    apply list_filter_ext. intros x Hx. rewrite not_elem_of_cons. naive_solver.
  - destruct (Z.leb_spec 0 r); [|lia].
    destruct (removeElementAt_filter v r e) as (v1 & -> & Hwf1 & Hp1 & Hc1 & Ho1); auto. simpl.
    destruct (IH (i + 1) v1 true) as (v' & ch & -> & ? & Hp' & Hc & Ho'); auto; try lia.
    { by eapply decides_policy. }
    { rewrite Hc1. by apply NoDup_filter. }
    { rewrite Hc1. by apply all_objects_filter. }
    exists v', ch. split_and!; auto.
    + destruct Hp1, Hp'. split; congruence.
    + rewrite Hc, Hc1, list_filter_comp. apply list_filter_iff.
      intros x. rewrite not_elem_of_cons. tauto.
    + intros Hdel. rewrite Ho', Ho1; auto. destruct Hp1. congruence.
Qed.

Lemma removeAll_spec v other :
  wf v -> decides v -> NoDup (contents v) -> all_objects (contents v) -> wf other ->
  exists v' changed, removeAll v other = Some (v', changed) /\ wf v' /\ same_policy v v' /\
    contents v' = filter (.∉ contents other) (contents v) /\
    (deleter v = true -> owned v' ≡ₚ owned v).
Proof.
  intros Hwf Hdec Hnd Hall Ho. pose proof Ho as (os & E & L & C & M). unfold removeAll.
  destruct (Z.ltb_spec 0 (count other)).
  - rewrite E. simpl. destruct (removeAll_loop_spec (Z.to_nat (count other)) 0 os v false)
      as (v' & ch & -> & Hwf' & Hp & Hc & Hown); auto; [lia..|].
    exists v', ch. split_and!; auto.
    assert (contents other = take (Z.to_nat (count other)) (drop (Z.to_nat 0) os)) as -> by
      (unfold contents; by rewrite E). done.
  - exists v, false. split_and!; auto; [done..|]. symmetry. apply filter_all_iff, Forall_forall.
    intros x _. unfold contents, ztake. replace (Z.to_nat (count other)) with 0%nat by lia.
    apply not_elem_of_nil.
Qed.

Lemma retainAll_loop_spec other n v l1 l2 changed :
  wf v -> wf other -> decides other -> all_objects (contents v) ->
  contents v = l1 ++ l2 -> length l1 = n ->
  exists v' changed',
    retainAll_loop n (Z.of_nat n - 1) other v changed = Some (v', changed') /\ wf v' /\
    same_policy v v' /\ contents v' = filter (.∈ contents other) l1 ++ l2 /\
    (deleter v = true -> owned v' ≡ₚ owned v).
Proof.
  revert v l1 l2 changed. induction n as [|n IH]; intros v l1 l2 changed Hwf Ho Hdec Hall Hl Hn.
  { destruct l1; [|done]. exists v, changed. split_and!; auto; done. }
  destruct l1 as [|x l1 _] using rev_ind; [done|]. rewrite length_app in Hn. simpl in Hn.
  pose proof (contents_zlen v Hwf) as Hz. rewrite Hl, !zlen_app in Hz.
  change (zlen [x]) with 1 in Hz. pose proof (zlen_nonneg l2). pose proof Hwf as (cells & E & L & C & M).
  assert (Hj : Z.of_nat (S n) - 1 = zlen l1) by (unfold zlen; lia). rewrite Hj.
  assert (Hx : zget (contents v) (zlen l1) = Some x) by (rewrite Hl, <- app_assoc; apply zget_middle).
  assert (Hox : is_Some (object x)).
  { apply (proj1 (Forall_forall _ _) Hall). by eapply zget_elem_of. }
  simpl. rewrite E. simpl. rewrite (wf_cells v cells E Hwf) by lia. rewrite Hx. simpl.
  destruct (indexOf_spec other HINT_KEY_INTEGER x Ho Hdec) as (r & -> & Hr). simpl.
  replace (zlen l1 - 1) with (Z.of_nat n - 1) by (unfold zlen; lia). rewrite filter_app.
  destruct (Z.ltb_spec r 0).
  - destruct Hr as [[_ Hr]|[? _]]; [|lia].
    destruct (removeElementAt_spec v (zlen l1) x) as (v1 & -> & Hwf1 & _ & Hp1 & Hc1 & Hd1); auto. simpl.
    assert (Hcut : contents v1 = l1 ++ l2).
    { rewrite Hc1, Hl, <- app_assoc. unfold zlen. rewrite Nat2Z.id, take_app_length. f_equal.
      rewrite app_assoc. apply drop_app_length'. rewrite length_app. simpl. lia. }
    destruct (IH v1 l1 l2 true) as (v' & ch & -> & Hwf' & Hp' & Hc' & Ho'); auto; [|lia|].
    { rewrite Hcut. unfold all_objects in *. rewrite Hl, <- app_assoc in Hall.
      rewrite !Forall_app in *. tauto. }
    exists v', ch. split_and!; auto.
    + destruct Hp1, Hp'. split; congruence.
    + rewrite Hc', filter_cons_False, filter_nil, app_nil_r; done.
    + intros Hdel. rewrite Hdel in Hd1. rewrite Ho' by (destruct Hp1; congruence).
      by eapply removeElementAt_owned.
  - destruct Hr as [[? _]|[_ Hr]]; [lia|]. apply zget_elem_of in Hr.
    destruct (IH v l1 (x :: l2) changed) as (v' & ch & -> & Hwf' & Hp' & Hc' & Ho'); auto; [|lia|].
    { by rewrite Hl, <- app_assoc. }
    exists v', ch. split_and!; auto. rewrite Hc', filter_cons_True, filter_nil, <- app_assoc; done.
Qed.

Lemma retainAll_spec v other :
  wf v -> wf other -> decides other -> all_objects (contents v) ->
  exists v' changed, retainAll v other = Some (v', changed) /\ wf v' /\ same_policy v v' /\
    contents v' = filter (.∈ contents other) (contents v) /\
    (deleter v = true -> owned v' ≡ₚ owned v).
Proof.
  intros Hwf Ho Hdec Hall. unfold retainAll. pose proof (contents_zlen v Hwf) as Hl.
  pose proof Hwf as (_ & _ & _ & C & _).
  destruct (retainAll_loop_spec other (Z.to_nat (count v)) v (contents v) [] false)
    as (v' & ch & E & Hwf' & Hp & Hc & Hown); auto.
  { by rewrite app_nil_r. } { unfold zlen in Hl. lia. }
  rewrite Z2Nat.id in E by lia. exists v', ch. rewrite app_nil_r in Hc. auto 10.
Qed.

Lemma containsAll_loop_spec v n i os :
  wf v -> decides v -> 0 <= i -> i + Z.of_nat n <= zlen os ->
  containsAll_loop v n i os =
    Some (bool_decide (Forall (.∈ contents v) (take n (drop (Z.to_nat i) os)))).
Proof.
  intros Hwf Hdec. revert i. induction n as [|n IH]; intros i Hi Hn; simpl; [done|].
  destruct (zget_is_Some os i) as [e He]; [lia|]. rewrite He. simpl.
  apply zget_Some_lookup in He as [_ He]. rewrite (drop_S _ _ _ He). cbn [take].
  replace (S (Z.to_nat i)) with (Z.to_nat (i + 1)) by lia.
  destruct (indexOf_spec v HINT_KEY_INTEGER e Hwf Hdec) as (r & -> & Hr). simpl.
  destruct Hr as [[-> Hr]|[Hr Hg%zget_elem_of]]; simpl.
  - rewrite bool_decide_false; [done|]. rewrite Forall_cons. tauto.
  - destruct (Z.ltb_spec r 0); [lia|]. rewrite IH by lia. f_equal. apply bool_decide_ext.
    rewrite Forall_cons. tauto.
Qed.

Lemma containsNone_loop_spec v n i os :
  wf v -> decides v -> 0 <= i -> i + Z.of_nat n <= zlen os ->
  containsNone_loop v n i os =
    Some (bool_decide (Forall (.∉ contents v) (take n (drop (Z.to_nat i) os)))).
Proof.
  intros Hwf Hdec. revert i. induction n as [|n IH]; intros i Hi Hn; simpl; [done|].
  destruct (zget_is_Some os i) as [e He]; [lia|]. rewrite He. simpl.
  apply zget_Some_lookup in He as [_ He]. rewrite (drop_S _ _ _ He). cbn [take].
  replace (S (Z.to_nat i)) with (Z.to_nat (i + 1)) by lia.
  destruct (indexOf_spec v HINT_KEY_INTEGER e Hwf Hdec) as (r & -> & Hr). simpl.
  destruct Hr as [[-> Hr]|[Hr Hg%zget_elem_of]]; simpl.
  - rewrite IH by lia. f_equal. apply bool_decide_ext. rewrite Forall_cons. tauto.
  - destruct (Z.leb_spec 0 r); [|lia]. rewrite bool_decide_false; [done|].
    rewrite Forall_cons. tauto.
Qed.

Lemma containsAll_spec v other :
  wf v -> decides v -> wf other ->
  containsAll v other = Some (bool_decide (Forall (.∈ contents v) (contents other))).
Proof.
  intros Hwf Hdec (os & E & L & C & M).
  assert (contents other = ztake (count other) os) as -> by (unfold contents; by rewrite E).
  unfold containsAll. rewrite E. simpl.
  destruct (Z.ltb_spec 0 (count other)).
  - rewrite containsAll_loop_spec by (auto; lia). done.
  - unfold ztake. replace (Z.to_nat (count other)) with 0%nat by lia. done.
Qed.

Lemma containsNone_spec v other :
  wf v -> decides v -> wf other ->
  containsNone v other = Some (bool_decide (Forall (.∉ contents v) (contents other))).
Proof.
  intros Hwf Hdec (os & E & L & C & M).
  assert (contents other = ztake (count other) os) as -> by (unfold contents; by rewrite E).
  unfold containsNone. rewrite E. simpl.
  destruct (Z.ltb_spec 0 (count other)).
  - rewrite containsNone_loop_spec by (auto; lia). done.
  - unfold ztake. replace (Z.to_nat (count other)) with 0%nat by lia. done.
Qed.

Lemma operator_eq_loop_spec cmp n i (a b : list (UElement A)) :
  (forall x y, cmp x y = bool_decide (x = y)) -> 0 <= i -> i + Z.of_nat n <= zlen a -> i + Z.of_nat n <= zlen b ->
  operator_eq_loop cmp n i a b =
    Some (bool_decide (take n (drop (Z.to_nat i) a) = take n (drop (Z.to_nat i) b))).
Proof.
  intros Hcmp. revert i. induction n as [|n IH]; intros i Hi Ha Hb; simpl; [done|].
  destruct (zget_is_Some a i) as [x Hx]; [lia|]. destruct (zget_is_Some b i) as [y Hy]; [lia|].
  rewrite Hx, Hy. simpl. apply zget_Some_lookup in Hx as [_ Hx], Hy as [_ Hy].
  rewrite (drop_S _ _ _ Hx), (drop_S _ _ _ Hy). cbn [take]. rewrite Hcmp.
  replace (S (Z.to_nat i)) with (Z.to_nat (i + 1)) by lia.
  case_bool_decide as Hxy; simpl.
  - subst y. rewrite IH by lia. f_equal. apply bool_decide_ext. split; [by intros ->|by intros [= ?]].
  - rewrite bool_decide_false; [done|]. by intros [= ? ?].
Qed.

Lemma operator_eq_spec v other :
  wf v -> wf other -> decides v -> operator_eq v other = Some (bool_decide (contents v = contents other)).
Proof.
  intros Hv Ho (cmp & Ec & Hcmp). pose proof (contents_zlen v Hv) as Zv. pose proof (contents_zlen other Ho) as Zo.
  unfold operator_eq. rewrite Ec. destruct (Z.eqb_spec (count v) (count other)) as [E|E]; simpl.
  - destruct Hv as (a & Ea & La & Ca & _), Ho as (b & Eb & Lb & Cb & _). rewrite Ea, Eb. simpl.
    destruct (Z.ltb_spec 0 (count v)).
    + rewrite operator_eq_loop_spec by (auto; lia). unfold contents. rewrite Ea, Eb, <- E. done.
    + rewrite bool_decide_true; [done|]. replace (count v) with 0 in * by lia.
      rewrite (zlen_0_inv (contents v)), (zlen_0_inv (contents other)); auto; lia.
  - rewrite bool_decide_false; [done|]. intros Eq. rewrite Eq in Zv. lia.
Qed.
End Facts.

(** ** Sorted vectors *)

Section Sorted.
Context `{Heap} {A : Type} `{EqDecision A}.
Context (compare : UElement A -> UElement A -> Z).

Definition cle (a b : UElement A) : Prop := compare a b <= 0.

(** The order is transitive and total on the elements that the vector may hold. *)
Context (good : UElement A -> Prop).
Hypothesis cle_trans : forall a b c, good a -> good b -> good c -> cle a b -> cle b c -> cle a c.
Hypothesis cle_total : forall a b, good a -> good b -> 0 < compare a b -> cle b a.

Lemma sorted_monotone e (l : list (UElement A)) n :
  n <= zlen l -> good e -> Forall good l -> StronglySorted cle l ->
  monotone_upto (fun x => 0 <? compare x e) l n.
Proof using cle_trans.
  intros Hn He Hg Hs i j x y Hi Hj Hx%zget_Some_lookup Hy%zget_Some_lookup Hgt. destruct Hx, Hy.
  assert (Hxy : cle x y).
  { eapply (StronglySorted_lookup cle l (Z.to_nat i) (Z.to_nat j)); eauto. lia. }
  apply Z.ltb_lt. apply Z.lt_nge. intros Hye.
  assert (Hxe : cle x e).
  { apply (cle_trans x y e); auto; by eapply Forall_lookup_1. }
  unfold cle in Hxe. lia.
Qed.

(** [sortedInsert] keeps a sorted vector sorted and adds exactly the element, after the
    elements equal to it; a failure (no memory, or the size limit) leaves the vector as it was. *)
Lemma sortedInsert_spec v e ec :
  wf v -> good e -> Forall good (contents v) -> StronglySorted cle (contents v) ->
  exists v' ec', sortedInsert v e compare ec = Some (v', ec') /\ wf v' /\ same_policy v v' /\
    deleted v' = deleted v /\
    ((ec' = ec /\ StronglySorted cle (contents v') /\
      exists l1 l2, contents v = l1 ++ l2 /\ contents v' = l1 ++ e :: l2 /\
        Forall (fun x => cle x e) l1 /\ Forall (fun x => 0 < compare x e) l2) \/
     (v' = v /\ U_FAILURE ec' = true /\ (refused \/ 2 ^ 27 <= count v))).
Proof using cle_trans cle_total.
  intros Hwf Hge Hgv Hsort. unfold sortedInsert. pose proof Hwf as (cells & E & L & C & _).
  destruct (insertion_search_split (fun x => 0 <? compare x e) (default [] (elements v)) (count v))
    as (m & -> & Hm & Hlo & Hhi).
  { rewrite E. simpl. lia. }
  { apply sorted_monotone; auto. fold (contents v). rewrite (contents_zlen v Hwf). lia. }
  simpl. fold (contents v) in Hlo, Hhi.
  destruct (ensured_insert v e m ec Hwf Hm) as (v' & ec' & -> & Hwf' & Hp & Hd & Hr).
  exists v', ec'. split_and!; [done|done|apply Hp..|done|].
  destruct Hr as [[-> Hc]|]; [left|by right]. split; [done|].
  assert (Hlo' : Forall (fun x => cle x e) (take (Z.to_nat m) (contents v))).
  { eapply Forall_impl; [done|]. simpl. unfold cle. lia. }
  assert (Hhi' : Forall (fun x => 0 < compare x e) (drop (Z.to_nat m) (contents v))).
  { eapply Forall_impl; [done|]. simpl. lia. }
  split.
  - rewrite Hc. apply StronglySorted_insert; [by rewrite take_drop|done|].
    apply Forall_forall. intros x Hx. apply cle_total; auto.
    + rewrite Forall_forall in Hgv. apply Hgv. apply list_elem_of_lookup in Hx as [k Hk].
      rewrite lookup_drop in Hk. apply list_elem_of_lookup. eauto.
    + by apply (proj1 (Forall_forall _ _) Hhi').
  - exists (take (Z.to_nat m) (contents v)), (drop (Z.to_nat m) (contents v)).
    by rewrite take_drop.
Qed.
End Sorted.

(** ** Copying into an empty vector *)

Section Assign.
Context `{Heap} {A : Type} `{EqDecision A}.
Implicit Types v other : t A.

Lemma fill_empty_spec (mid : list (UElement A)) front st :
  fill_empty (length mid) (zlen front) (front ++ mid ++ st) = Some (front ++ replicate (length mid) (Ptr None) ++ st).
Proof.
  revert front. induction mid as [|e mid IH]; intros front; cbn [fill_empty length]; [done|].
  cbn [app]. rewrite zset_middle. cbn [mbind option_bind]. rewrite snoc_app, <- (zlen_snoc front (Ptr None)), IH.
  cbn [replicate app]. by rewrite <- app_assoc.
Qed.

(** The loop replaces empty elements, so it deletes none. *)
Lemma assign_loop_spec (f : UElement A -> UElement A) src2 src1 st front tail v :
  elements v = Some (front ++ replicate (length src2) (Ptr None) ++ tail) -> length front = length src1 ->
  assign_loop f (length src2) (zlen front) (src1 ++ src2 ++ st) v = Some (set_cells v (front ++ map f src2 ++ tail)).
Proof.
  revert front src1 v. induction src2 as [|e src2 IH]; intros front src1 v Ev Hl; cbn [assign_loop length].
  { cbn in Ev |- *. destruct v; cbn in *. by subst. }
  cbn [length replicate] in Ev. cbn [app] in Ev |- *. rewrite Ev. cbn [mbind option_bind]. rewrite zget_middle. cbn [mbind option_bind].
  unfold delete_element. cbn [is_null negb andb mbind option_bind].
  assert (Hg : zget (src1 ++ e :: src2 ++ st) (zlen front) = Some e).
  { replace (zlen front) with (zlen src1) by (unfold zlen; lia). apply zget_middle. }
  rewrite Hg. cbn [mbind option_bind]. rewrite zset_middle. cbn [mbind option_bind].
  rewrite <- (zlen_snoc front (f e)), (snoc_app src1 e).
  rewrite (IH (front ++ [f e]) (src1 ++ [e])); [|cbn; by rewrite <- app_assoc|rewrite !length_app; cbn; lia].
  cbn [map]. unfold set_cells. cbn. by rewrite <- app_assoc.
Qed.

(** [assign] to a small empty vector copies all elements, unless memory is refused. *)
Lemma assign_fresh (f : UElement A -> UElement A) v other :
  wf v -> count v = 0 -> capacity v <= 8 -> wf other ->
  exists v' ec, assign v other f U_ZERO_ERROR = Some (v', ec) /\ wf v' /\ same_policy v v' /\
    (contents v' = map f (contents other) \/ contents v' = [] /\ refused).
Proof.
  intros Hwf Hc Hcap Hwo. pose proof Hwo as (src & Es & Ls & Cs & Ms). change (INT32_MAX / sizeof_UElement) with 268435455 in Ms.
  unfold assign. destruct (ensureCapacity v (count other) U_ZERO_ERROR) as [[v1 ec] ok] eqn:He.
  destruct (ensureCapacity_spec _ _ _ _ _ _ Hwf He) as (Hwf1 & Hc1 & Hk1 & Hp & _ & Hok).
  assert (Hempty : contents v = []) by (apply zlen_0_inv; by rewrite contents_zlen).
  destruct ok.
  2:{ eexists _, _. split; [done|]. split_and!; [done|apply Hp..|]. right. rewrite Hk1. split; [done|]. destruct Hok as (_ & _ & Hor).
      unfold ensureCapacity in He. destruct (Z.ltb_spec (count other) 0); [lia|]. destruct (Z.ltb_spec (capacity v) (count other)); [|done].
      change ((INT32_MAX - 1) / 2) with 1073741823 in He. change (INT32_MAX / sizeof_UElement) with 268435455 in He.
      destruct (Z.ltb_spec 1073741823 (capacity v)); [lia|]. set (nc := if _ <? count other then _ else _) in He.
      assert (0 <= nc <= 268435455) by (pose proof Hwf as (cells & _ & L & C & _); unfold nc; zcase; lia).
      destruct (Z.ltb_spec 268435455 nc); [lia|]. destruct (uprv_realloc _ _ _ _) eqn:Er; [done|]. eapply realloc_refused; [|exact Er].
      unfold sizeof_UElement, INT32_MAX. lia. }
  destruct Hok as [Hcap1 ->]. unfold setSize. destruct (Z.ltb_spec (count other) 0); [lia|]. rewrite Hc1, Hc.
  pose proof Hwf1 as (cells & E1 & L1 & C1 & M1).
  destruct (Z.ltb_spec 0 (count other)) as [Hpos|Hz].
  - unfold ensureCapacity. destruct (Z.ltb_spec (count other) 0); [lia|]. destruct (Z.ltb_spec (capacity v1) (count other)); [lia|].
    cbn [negb]. rewrite E1, Hc1, Hc, Z.sub_0_r. cbn [mbind option_bind].
    rewrite <- (take_drop (Z.to_nat (count other)) cells).
    set (mid := take (Z.to_nat (count other)) cells). set (st := drop (Z.to_nat (count other)) cells).
    assert (Hmid : length mid = Z.to_nat (count other)) by (unfold mid; rewrite length_take; unfold zlen in *; lia).
    rewrite <- Hmid. pose proof (fill_empty_spec mid [] st) as Hf. cbn [app] in Hf. change (zlen (@nil (UElement A))) with 0 in Hf.
    rewrite Hf. cbn [mbind option_bind U_SUCCESS U_FAILURE negb andb]. rewrite Es. cbn [mbind option_bind].
    pose proof (contents_zlen other Hwo) as Hzo.
    assert (Esrc : src = contents other ++ drop (Z.to_nat (count other)) src)
      by (unfold contents, ztake; rewrite Es; cbn; by rewrite take_drop).
    assert (Hlen : length mid = length (contents other)) by (unfold zlen in Hzo; lia).
    rewrite Hlen.
    pose proof (assign_loop_spec f (contents other) [] (drop (Z.to_nat (count other)) src) [] st
      (set_count (set_cells v1 (replicate (length (contents other)) (Ptr None) ++ st)) (count other)) eq_refl eq_refl) as Ha.
    cbn [app] in Ha. change (zlen (@nil (UElement A))) with 0 in Ha. rewrite <- Esrc in Ha. rewrite Ha. cbn [mbind option_bind].
    eexists _, _. split; [done|].
    assert (Hzn : zlen (map f (contents other) ++ st) = capacity v1)
      by (rewrite zlen_app; unfold zlen in *; rewrite length_map; unfold st; rewrite length_drop; lia).
    split; [apply wf_intro; cbn; lia|]. split; [apply Hp|]. left.
    unfold contents at 1. cbn. unfold ztake. rewrite take_app_length'; [done|rewrite length_map; unfold zlen in *; lia].
  - assert (count other = 0) as Ez by lia. rewrite Ez. cbn [shrink_loop Z.to_nat]. change (Z.to_nat (0 - 0)) with 0%nat. cbn [shrink_loop mbind option_bind].
    rewrite andb_false_r. eexists _, _. split; [done|]. split; [exists cells; cbn; split_and!; auto; lia|]. split; [apply Hp|]. left.
    assert (contents other = []) as -> by (apply zlen_0_inv; by rewrite contents_zlen). done.
Qed.
End Assign.

Section Ownership.
Context `{Heap} {A : Type} `{EqDecision A}.
Implicit Types v other : t A.

(** bulk removal loses and duplicates no object: with a deleter set, each object that
    [removeAll] or [retainAll] takes out of the vector is deleted exactly once, and what
    stays is the elements outside (resp. inside) the other vector, in order. *)
Theorem bulk_removal_ownership v other :
  wf v -> wf other -> decides v -> decides other -> NoDup (contents v) ->
  all_objects (contents v) -> deleter v = true ->
  (exists v' b, removeAll v other = Some (v', b) /\ owned v' ≡ₚ owned v /\
     contents v' = filter (.∉ contents other) (contents v)) /\
  (exists v' b, retainAll v other = Some (v', b) /\ owned v' ≡ₚ owned v /\
     contents v' = filter (.∈ contents other) (contents v)).
Proof.
  intros Hwf Ho Hd1 Hd2 Hnd Hall Hdel. split.
  - destruct (removeAll_spec v other) as (v' & b & ? & ? & ? & ? & ?); auto. exists v', b. auto.
  - destruct (retainAll_spec v other) as (v' & b & ? & ? & ? & ? & ?); auto. exists v', b. auto.
Qed.

(** on a vector with a deleter [UStack::pop] returns an object that it has just passed
    to the deleter. *)
Theorem pop_returns_deleted v x :
  wf v -> deleter v = true -> 0 < count v -> zget (contents v) (count v - 1) = Some (Ptr (Some x)) ->
  exists v', pop v = Some (v', Ptr (Some x)) /\ deleted v' = deleted v ++ [x].
Proof.
  intros Hwf Hdel Hc Hx. pose proof Hwf as (cells & E & L & C & _). unfold pop.
  destruct (Z.leb_spec 0 (count v - 1)); [|lia].
  unfold elementAt. destruct (_ && _) eqn:?; [|lia]. rewrite E. simpl.
  rewrite (wf_cells v cells E Hwf), Hx by lia. simpl.
  destruct (removeElementAt_spec v (count v - 1) (Ptr (Some x))) as (v' & -> & _ & _ & _ & _ & Hd);
    auto. simpl. exists v'. split; [done|]. by rewrite Hd, Hdel.
Qed.
End Ownership.

(** ** Witnesses *)

Section Witnesses.
#[local] Existing Instance big_heap.

Definition sample_comparer (a b : UElement Z) : bool := bool_decide (a = b).
(** A vector that owns the objects [l], and has room for one more. *)
Definition sample_vector (l : list Z) : t Z :=
  mk (zlen l) (zlen l + 1) (Some (map (Ptr ∘ Some) l ++ [Int junk])) true (Some sample_comparer) [].

Lemma sample_decides l : decides (sample_vector l).
Proof. by exists sample_comparer. Qed.

Lemma bulk_removal_ownership_witness :
  (exists v' b, removeAll (sample_vector [1; 2; 3]) (sample_vector [3; 4; 1]) = Some (v', b) /\
     owned v' ≡ₚ [1; 2; 3] /\ contents v' = [Ptr (Some 2)]) /\
  (exists v' b, retainAll (sample_vector [1; 2; 3]) (sample_vector [3; 4; 1]) = Some (v', b) /\
     owned v' ≡ₚ [1; 2; 3] /\ contents v' = [Ptr (Some 1); Ptr (Some 3)]).
Proof.
  assert (Hout : filter (.∉ contents (sample_vector [3; 4; 1])) (contents (sample_vector [1; 2; 3])) =
    [Ptr (Some 2)]) by (vm_compute; reflexivity).
  assert (Hin : filter (.∈ contents (sample_vector [3; 4; 1])) (contents (sample_vector [1; 2; 3])) =
    [Ptr (Some 1); Ptr (Some 3)]) by (vm_compute; reflexivity).
  change [1; 2; 3] with (owned (sample_vector [1; 2; 3])) at 2 4. rewrite <- Hout, <- Hin.
  apply (bulk_removal_ownership (sample_vector [1; 2; 3]) (sample_vector [3; 4; 1]));
    try apply sample_decides; try reflexivity.
  - apply wf_intro; vm_compute; done.
  - apply wf_intro; vm_compute; done.
  - apply (bool_decide_unpack _). vm_compute. exact I.
  - repeat constructor; eexists; reflexivity.
Defined.

Lemma pop_returns_deleted_witness :
  exists v', pop (sample_vector [1; 2; 3]) = Some (v', Ptr (Some 3)) /\ deleted v' = [3].
Proof.
  apply (pop_returns_deleted (sample_vector [1; 2; 3]) 3); try reflexivity.
  apply wf_intro; vm_compute; done.
Defined.
End Witnesses.
End UVector.
