(* ===== verification/Sort.v ===== *)
(** * Sorting of arrays (common/uarrsort.c) and of vectors (uvector.cpp)

    Insertion sort with a binary search, and quicksort for larger arrays that need no stable
    sort.  An array is the list of its items; a pointer into it is an index.  The computation of
    an address, [array+i*itemSize], is checked for overflow of [int32_t]. *)

From S2P Require Import Prelude Vector.

Module Sort.

Definition MIN_QSORT : Z := 9.
Definition STACK_ITEM_SIZE : Z := 200.

(** ** Comparators *)

Definition uprv_uint16Comparator (left right : Z) : Z := left - right.
Definition uprv_int32Comparator (left right : Z) : option Z := checked (left - right).
Definition uprv_uint32Comparator (l r : Z) : Z := if l <? r then -1 else if l =? r then 0 else 1.

Section Sort.
Context {A : Type} (cmp : A -> A -> Z) (itemSize : Z).
Implicit Types (array : list A).

(** The item at [array+i*itemSize], where [array] itself points to item [base]. *)
Definition item_at array (base i : Z) : option A := _ ← checked (i * itemSize); zget array (base + i).
Definition set_item array (base i : Z) (x : A) : option (list A) := _ ← checked (i * itemSize); zset array (base + i) x.

(** ** Binary search *)

Fixpoint binary_loop (fuel : nat) array (base : Z) (item : A) (start limit : Z) (found : bool) : option (Z * Z * bool) :=
  match fuel with
  | O => None
  | S fuel =>
      if MIN_QSORT <=? limit - start then
        sum ← checked (start + limit);
        let i := sum / 2 in
        x ← item_at array base i;
        let diff := cmp item x in
        if diff =? 0 then binary_loop fuel array base item (i + 1) limit true
        else if diff <? 0 then binary_loop fuel array base item start i found
        else binary_loop fuel array base item i limit found
      else Some (start, limit, found)
  end.

Fixpoint linear_loop (fuel : nat) array (base : Z) (item : A) (start limit : Z) (found : bool) : option (Z * bool) :=
  match fuel with
  | O => None
  | S fuel =>
      if start <? limit then
        x ← item_at array base start;
        let diff := cmp item x in
        if diff =? 0 then linear_loop fuel array base item (start + 1) limit true
        else if diff <? 0 then Some (start, found)
        else linear_loop fuel array base item (start + 1) limit found
      else Some (start, found)
  end.

Definition uprv_stableBinarySearch array (base limit : Z) (item : A) : option Z :=
  '(start, limit, found) ← binary_loop (S (Z.to_nat limit)) array base item 0 limit false;
  '(start, found) ← linear_loop (S (Z.to_nat limit)) array base item start limit found;
  Some (if (found : bool) then start - 1 else Z.lnot start).

(** ** Insertion sort *)

(** From [j] on: [n] more items to insert. *)
Fixpoint insertion_loop (n : nat) array (base j : Z) : option (list A) :=
  match n with
  | O => Some array
  | S n =>
      item ← item_at array base j;
      r ← uprv_stableBinarySearch array base j item;
      let insertionPoint := if r <? 0 then Z.lnot r else r + 1 in
      array ← (if insertionPoint <? j then
                 let dest := base + insertionPoint in
                 _ ← checked ((j - insertionPoint) * itemSize);
                 array ← memmove array (dest + 1) dest (j - insertionPoint);
                 set_item array base insertionPoint item
               else Some array);
      insertion_loop n array base (j + 1)
  end.

Definition doInsertionSort array (base length : Z) : option (list A) := insertion_loop (Z.to_nat (length - 1)) array base 1.

(** ** Quicksort *)

(** [while(cmp(array[left], x)<0) ++left;] *)
Fixpoint scan_up (fuel : nat) array (x : A) (left_ : Z) : option Z :=
  match fuel with
  | O => None
  | S fuel => a ← item_at array 0 left_; if cmp a x <? 0 then scan_up fuel array x (left_ + 1) else Some left_
  end.

(** [while(cmp(x, array[right-1])<0) --right;] *)
Fixpoint scan_down (fuel : nat) array (x : A) (right_ : Z) : option Z :=
  match fuel with
  | O => None
  | S fuel => a ← item_at array 0 (right_ - 1); if cmp x a <? 0 then scan_down fuel array x (right_ - 1) else Some right_
  end.

Definition swap array (i j : Z) : option (list A) :=
  w ← item_at array 0 i; y ← item_at array 0 j; array ← set_item array 0 i y; set_item array 0 j w.

Fixpoint partition_loop (fuel : nat) array (x : A) (left_ right_ : Z) : option (list A * Z * Z) :=
  match fuel with
  | O => None
  | S fuel =>
      left_ ← scan_up (S (Z.to_nat (zlen array))) array x left_;
      right_ ← scan_down (S (Z.to_nat (zlen array))) array x right_;
      '(array, left_, right_) ← (if left_ <? right_ then
                                 let right_ := right_ - 1 in
                                 array ← (if left_ <? right_ then swap array left_ right_ else Some array);
                                 Some (array, left_ + 1, right_)
                               else Some (array, left_, right_));
      if left_ <? right_ then partition_loop fuel array x left_ right_ else Some (array, left_, right_)
  end.

Fixpoint subQuickSort (fuel : nat) array (start limit : Z) : option (list A) :=
  match fuel with
  | O => None
  | S fuel =>
      s ← checked (start + MIN_QSORT);
      if limit <=? s then doInsertionSort array start (limit - start)
      else
        sum ← checked (start + limit);
        x ← item_at array 0 (sum / 2);
        '(array, left_, right_) ← partition_loop (Z.to_nat (limit - start)) array x start limit;
        if right_ - start <? limit - left_ then
          array ← (if start <? right_ - 1 then subQuickSort fuel array start right_ else Some array);
          if left_ <? limit - 1 then subQuickSort fuel array left_ limit else Some array
        else
          array ← (if left_ <? limit - 1 then subQuickSort fuel array left_ limit else Some array);
          if start <? right_ - 1 then subQuickSort fuel array start right_ else Some array
  end.

Section Alloc.
Context `{HP : Heap}.

(** The intermediate variables: on the stack, or [n] items on the heap. *)
Definition temporaries (n : Z) : bool := if itemSize <=? STACK_ITEM_SIZE then true else alloc_ok (n * itemSize).

Definition insertionSort array (length : Z) (errorCode : UErrorCode) : option (list A * UErrorCode) :=
  if temporaries 1 then array ← doInsertionSort array 0 length; Some (array, errorCode) else Some (array, U_MEMORY_ALLOCATION_ERROR).

Definition quickSort array (length : Z) (errorCode : UErrorCode) : option (list A * UErrorCode) :=
  if temporaries 2 then array ← subQuickSort (S (Z.to_nat length)) array 0 length; Some (array, errorCode) else Some (array, U_MEMORY_ALLOCATION_ERROR).

(** With a comparator; a null array is [None]. *)
Definition uprv_sortArray (array : option (list A)) (length : Z) (sortStable : bool) (errorCode : UErrorCode)
  : option (option (list A) * UErrorCode) :=
  if U_FAILURE errorCode then Some (array, errorCode)
  else if (0 <? length) && (if array then false else true) || (length <? 0) || (itemSize <=? 0) then Some (array, U_ILLEGAL_ARGUMENT_ERROR)
  else if length <=? 1 then Some (array, errorCode)
  else
    a ← array;
    '(a, errorCode) ← (if (length <? MIN_QSORT) || sortStable then insertionSort a length errorCode else quickSort a length errorCode);
    Some (Some a, errorCode).
End Alloc.
End Sort.

(** ** Sorting of vectors *)

Section Vectors.
Context `{HP : Heap} {A : Type}.
Import UVector.
Implicit Types v : UVector.t A.

Definition sort_vector v (cmp : UElement A -> UElement A -> Z) (stable : bool) (ec : UErrorCode) : option (UVector.t A * UErrorCode) :=
  if U_SUCCESS ec then
    '(cells, ec) ← uprv_sortArray cmp sizeof_UElement (elements v) (count v) stable ec;
    Some (mk (count v) (capacity v) cells (deleter v) (comparer v) (deleted v), ec)
  else Some (v, ec).

(** [sorti] for a vector of integers; [sort]; [sortWithUComparator]. *)
Definition compare_integers (e1 e2 : UElement A) : Z := sortiComparator (default 0 (integer e1)) (default 0 (integer e2)).
Definition sorti v (ec : UErrorCode) := sort_vector v compare_integers false ec.
Definition sort v (compare : UElement A -> UElement A -> Z) (ec : UErrorCode) := sort_vector v compare false ec.
Definition sortWithUComparator v (compare : UElement A -> UElement A -> Z) (ec : UErrorCode) := sort_vector v compare true ec.
End Vectors.
End Sort.
