(* ===== verification/SortFacts.v ===== *)
(** * The array sort is correct

    The search finds the last equal item; both sorts end, stay inside the array, and leave it
    sorted with the same items; the insertion sort keeps the order of equal items. *)

From S2P Require Import Prelude Vector Sort.
Import Sort.

Module SortFacts.

(** What a comparator has to be: a total preorder. *)
Record order {A} (cmp : A -> A -> Z) : Prop := {
  ord_anti : forall a b, cmp a b < 0 <-> 0 < cmp b a;
  ord_trans : forall a b c, cmp a b <= 0 -> cmp b c <= 0 -> cmp a c <= 0
}.

Section Facts.
Context {A : Type} (cmp : A -> A -> Z) (itemSize : Z) (Hord : order cmp) (Hsize : 0 < itemSize).
Implicit Types (array s p q : list A).

Notation le := (fun a b => cmp a b <= 0).
Definition sorted s : Prop := StronglySorted le s.

Lemma cmp_refl a : cmp a a = 0.
Proof using Hord. pose proof (ord_anti _ Hord a a). lia. Qed.

Lemma cmp_flip a b : 0 <= cmp a b <-> cmp b a <= 0.
Proof using Hord. pose proof (ord_anti _ Hord a b). pose proof (ord_anti _ Hord b a). lia. Qed.

Lemma cmp_lt_le a b c : cmp a b < 0 -> cmp b c <= 0 -> cmp a c < 0.
Proof using Hord.
  intros Hab Hbc. destruct (Z.lt_ge_cases (cmp a c) 0) as [|Hca%cmp_flip]; [done|]. pose proof (ord_trans _ Hord b c a Hbc Hca).
  apply (ord_anti _ Hord) in Hab. lia.
Qed.

Lemma cmp_le_lt a b c : cmp a b <= 0 -> cmp b c < 0 -> cmp a c < 0.
Proof using Hord.
  intros Hab Hbc. destruct (Z.lt_ge_cases (cmp a c) 0) as [|Hca%cmp_flip]; [done|]. pose proof (ord_trans _ Hord c a b Hca Hab).
  apply (ord_anti _ Hord) in Hbc. lia.
Qed.

(** The offsets of the items are in range. *)
Definition small array : Prop := zlen array <= 2 ^ 30 /\ zlen array * itemSize <= INT32_MAX.

Lemma item_at_in array base i : small array -> 0 <= i <= zlen array -> item_at itemSize array base i = zget array (base + i).
Proof using Hsize. intros [_ Hs] Hi. unfold item_at. rewrite checked_in by (unfold INT32_MIN, INT32_MAX in *; nia). done. Qed.

Lemma set_item_in array base i x : small array -> 0 <= i <= zlen array -> set_item itemSize array base i x = zset array (base + i) x.
Proof using Hsize. intros [_ Hs] Hi. unfold set_item. rewrite checked_in by (unfold INT32_MIN, INT32_MAX in *; nia). done. Qed.

(** ** Binary search *)

Lemma sorted_index s i j x y : sorted s -> i <= j -> zget s i = Some x -> zget s j = Some y -> cmp x y <= 0.
Proof using Hord.
  intros Hs Hij [Hi Ei]%zget_Some_lookup [Hj Ej]%zget_Some_lookup. destruct (decide (i = j)) as [->|Hne].
  { rewrite Ei in Ej. injection Ej as ->. by rewrite cmp_refl. }
  assert (Hn : (Z.to_nat i < Z.to_nat j)%nat) by lia. revert Hn Ei Ej. generalize (Z.to_nat i) (Z.to_nat j). clear i j Hij Hi Hj Hne.
  induction Hs as [|z s Hs IH Hz]; intros i j Hn Ei Ej; [done|]. destruct j as [|j]; [lia|]. destruct i as [|i]; cbn in *.
  - injection Ei as ->. rewrite Forall_forall in Hz. apply Hz. by eapply list_elem_of_lookup_2.
  - apply (IH i j); auto. lia.
Qed.

Section Search.
Context array p s q (item : A) (Earr : array = p ++ s ++ q) (Hsorted : sorted s) (Hsmall : small array).

Notation base := (zlen p).

Lemma search_at i : 0 <= i < zlen s -> exists y, item_at itemSize array base i = Some y /\ zget s i = Some y.
Proof using Earr Hsize Hsmall.
  intros Hi. pose proof (zlen_nonneg p). pose proof (zlen_nonneg q). destruct (zget_is_Some s i Hi) as (y & Hy). exists y. split; [|done].
  rewrite item_at_in; auto; [|rewrite Earr, !zlen_app; lia]. rewrite Earr, zget_app_r by lia. replace (base + i - base) with i by lia.
  rewrite zget_app_l by lia. done.
Qed.

(** What the search knows: items below [start] are not above the item, those from [limit] on
    are above it, and [found] says whether an equal one is below [start]. *)
Record searched (start limit : Z) (found : bool) : Prop := {
  se_range : 0 <= start <= limit /\ limit <= zlen s;
  se_below : forall i y, i < start -> zget s i = Some y -> 0 <= cmp item y;
  se_above : forall i y, limit <= i -> zget s i = Some y -> cmp item y < 0;
  se_found : if found then exists i y, i < start /\ zget s i = Some y /\ cmp item y = 0
             else forall i y, i < start -> zget s i = Some y -> 0 < cmp item y
}.

Lemma searched_start : searched 0 (zlen s) false.
Proof using. split; intros; try (pose proof (zlen_nonneg s); lia); pose proof (zget_Some_range _ _ _ H0); lia. Qed.

Lemma searched_equal start limit found i y :
  searched start limit found -> start <= i < limit -> zget s i = Some y -> cmp item y = 0 -> searched (i + 1) limit true.
Proof using Hord Hsorted.
  intros [Hr Hb Ha Hf] Hi Hy E. split; auto; [lia| |exists i, y; split_and!; auto; lia].
  intros j z Hj Hz. apply cmp_flip. apply (ord_trans _ Hord _ y); [apply (sorted_index s j i); auto; lia|apply cmp_flip; lia].
Qed.

Lemma searched_below start limit found i y :
  searched start limit found -> start <= i < limit -> zget s i = Some y -> 0 < cmp item y ->
  searched i limit found /\ searched (i + 1) limit found.
Proof using Hord Hsorted.
  intros [Hr Hb Ha Hf] Hi Hy E.
  assert (Hlt : forall j z, j < i + 1 -> zget s j = Some z -> 0 < cmp item z).
  { intros j z Hj Hz. apply (ord_anti _ Hord). apply (cmp_le_lt _ y); [apply (sorted_index s j i); auto; lia|by apply (ord_anti _ Hord)]. }
  assert (Hb' : forall n, n <= i + 1 -> forall j z, j < n -> zget s j = Some z -> 0 <= cmp item z) by (intros n Hn j z Hj Hz; pose proof (Hlt j z ltac:(lia) Hz); lia).
  split; split; auto; try lia; try (apply Hb'; lia); destruct found.
  - destruct Hf as (j & z & Hj & Hz & Ez). exists j, z. split_and!; auto. lia.
  - intros j z Hj. apply Hlt. lia.
  - destruct Hf as (j & z & Hj & Hz & Ez). exists j, z. split_and!; auto. lia.
  - intros j z Hj. apply Hlt. lia.
Qed.

Lemma searched_above start limit found i y :
  searched start limit found -> start <= i < limit -> zget s i = Some y -> cmp item y < 0 -> searched start i found.
Proof using Hord Hsorted.
  intros [Hr Hb Ha Hf] Hi Hy E. split; auto; [lia|]. intros j z Hj Hz. apply (cmp_lt_le _ y); [done|]. by apply (sorted_index s i j).
Qed.

Lemma binary_loop_spec fuel start limit found :
  searched start limit found -> limit - start < Z.of_nat fuel ->
  exists start' limit' found', binary_loop cmp itemSize fuel array base item start limit found = Some (start', limit', found') /\ searched start' limit' found'.
Proof using All.
  revert start limit found. induction fuel as [|fuel IH]; intros start limit found Hse Hf; [pose proof (se_range _ _ _ Hse); lia|]. cbn [binary_loop].
  unfold MIN_QSORT. destruct (Z.leb_spec 9 (limit - start)); [|eauto]. pose proof (se_range _ _ _ Hse). pose proof Hsmall as [Hsm _].
  assert (zlen s <= zlen array) by (rewrite Earr, !zlen_app; pose proof (zlen_nonneg p); pose proof (zlen_nonneg q); lia).
  rewrite checked_in by (unfold INT32_MIN, INT32_MAX; lia). cbn [mbind option_bind]. set (i := (start + limit) / 2).
  assert (start < i < limit) by (unfold i; pose proof (Z.div_mod (start + limit) 2); pose proof (Z.mod_pos_bound (start + limit) 2); lia).
  destruct (search_at i) as (y & -> & Hy); [lia|]. cbn [mbind option_bind]. destruct (Z.eqb_spec (cmp item y) 0); [|destruct (Z.ltb_spec (cmp item y) 0)].
  - apply IH; [eapply searched_equal; eauto; lia|lia].
  - apply IH; [eapply searched_above; eauto; lia|lia].
  - apply IH; [apply (searched_below _ _ _ i y Hse); auto; lia|lia].
Qed.

Lemma linear_loop_spec fuel start limit found :
  searched start limit found -> limit - start < Z.of_nat fuel ->
  exists k found', linear_loop cmp itemSize fuel array base item start limit found = Some (k, found') /\ searched k k found'.
Proof using All.
  revert start found. induction fuel as [|fuel IH]; intros start found Hse Hf; [pose proof (se_range _ _ _ Hse); lia|]. cbn [linear_loop].
  pose proof (se_range _ _ _ Hse). destruct (Z.ltb_spec start limit).
  - destruct (search_at start) as (y & -> & Hy); [lia|]. cbn [mbind option_bind]. destruct (Z.eqb_spec (cmp item y) 0); [|destruct (Z.ltb_spec (cmp item y) 0)].
    + apply IH; [eapply searched_equal; eauto; lia|lia].
    + exists start, found. split; [done|]. eapply searched_above; eauto; lia.
    + apply IH; [apply (searched_below _ _ _ start y Hse); auto; lia|lia].
  - exists start, found. split; [done|]. by replace limit with start in Hse by lia.
Qed.

(** The search: the number of items that are not above, and whether the last of them is equal. *)
Lemma search_spec :
  exists k (found : bool), uprv_stableBinarySearch cmp itemSize array base (zlen s) item = Some (if found then k - 1 else Z.lnot k) /\ searched k k found.
Proof using All.
  unfold uprv_stableBinarySearch. pose proof (zlen_nonneg s).
  destruct (binary_loop_spec (S (Z.to_nat (zlen s))) 0 (zlen s) false searched_start) as (start & limit & found & -> & Hse); [lia|]. cbn [mbind option_bind].
  pose proof (se_range _ _ _ Hse). destruct (linear_loop_spec (S (Z.to_nat limit)) start limit found Hse) as (k & found' & -> & Hk); [lia|].
  exists k, found'. done.
Qed.

Lemma insertion_point k found : searched k k found -> (if (if found then k - 1 else Z.lnot k) <? 0 then Z.lnot (if found then k - 1 else Z.lnot k) else (if found then k - 1 else Z.lnot k) + 1) = k.
Proof using.
  intros [Hr _ _ Hf]. destruct found.
  - destruct Hf as (i & y & Hi & Hy & _). apply zget_Some_range in Hy. destruct (Z.ltb_spec (k - 1) 0); lia.
  - rewrite Z.lnot_involutive. unfold Z.lnot. destruct (Z.ltb_spec (Z.pred (- k)) 0); lia.
Qed.

(** The items fall into those not above and those above. *)
Lemma searched_split k found :
  searched k k found -> exists s1 s2, s = s1 ++ s2 /\ zlen s1 = k /\ Forall (fun y => cmp y item <= 0) s1 /\ Forall (fun y => cmp item y < 0) s2.
Proof using Hord.
  intros [Hr Hb Ha _]. exists (take (Z.to_nat k) s), (drop (Z.to_nat k) s). split; [by rewrite take_drop|]. split; [unfold zlen in *; rewrite length_take; lia|].
  split; apply Forall_forall; intros y (i & Hi)%list_elem_of_lookup.
  - apply lookup_take_Some in Hi as [Hi Hlt]. apply cmp_flip, (Hb (Z.of_nat i)); [lia|]. by rewrite zget_nat.
  - rewrite lookup_drop in Hi. apply (Ha (Z.of_nat (Z.to_nat k + i))); [lia|]. by rewrite zget_nat.
Qed.
End Search.

(** ** Insertion sort *)

(** The same items, with the order of equal ones kept. *)
Definition stable_perm s s' : Prop := s' ≡ₚ s /\ forall x, filter (fun y => cmp x y = 0) s' = filter (fun y => cmp x y = 0) s.

Lemma filter_none (P : A -> Prop) `{forall y, Decision (P y)} s : (forall y, y ∈ s -> ~ P y) -> filter P s = [].
Proof using. induction s as [|y s IH]; intros Hn; [done|]. rewrite filter_cons_False by (apply Hn; by left). apply IH. intros z Hz. apply Hn. by right. Qed.

Lemma insert_stable s1 s2 v q : Forall (fun y => cmp v y < 0) s2 -> stable_perm (s1 ++ s2 ++ v :: q) (s1 ++ v :: s2 ++ q).
Proof using Hord.
  intros Hs2. split; [apply Permutation_app_head; by rewrite Permutation_middle|]. intros x. rewrite !filter_app, !filter_cons, !filter_app. f_equal.
  destruct (decide (cmp x v = 0)) as [E|]; [|done].
  assert (Hnone : filter (fun y => cmp x y = 0) s2 = []).
  { apply filter_none. intros y Hy Ey. rewrite Forall_forall in Hs2. specialize (Hs2 y Hy).
    assert (Hvy : cmp v y < 0 -> cmp x y < 0) by (intros; apply (cmp_le_lt _ v); lia). specialize (Hvy Hs2). lia. }
  by rewrite Hnone.
Qed.

Lemma stable_perm_trans s1 s2 s3 : stable_perm s1 s2 -> stable_perm s2 s3 -> stable_perm s1 s3.
Proof using. intros [Hp1 Hf1] [Hp2 Hf2]. split; [by rewrite Hp2|]. intros x. by rewrite Hf2. Qed.

Lemma stable_perm_refl s : stable_perm s s.
Proof using. by split. Qed.

Lemma sorted_insert s1 s2 v :
  sorted (s1 ++ s2) -> Forall (fun y => cmp y v <= 0) s1 -> Forall (fun y => cmp v y < 0) s2 -> sorted (s1 ++ v :: s2).
Proof using Hord.
  intros Hs H1 H2. unfold sorted in *. induction s1 as [|x s1 IH]; cbn in *.
  - constructor; [done|]. eapply Forall_impl; [exact H2|]. cbn. lia.
  - inversion Hs as [|? ? Hs' Hx]; subst. inversion H1; subst. constructor; [auto|]. apply Forall_app in Hx as [Hx1 Hx2]. apply Forall_app. split; [done|].
    constructor; done.
Qed.

Lemma zlen_split s (k : Z) : 0 <= k <= zlen s -> exists s1 s2, s = s1 ++ s2 /\ zlen s1 = k.
Proof using. intros Hk. exists (take (Z.to_nat k) s), (drop (Z.to_nat k) s). split; [by rewrite take_drop|]. unfold zlen in *. rewrite length_take. lia. Qed.

(** Moving an item down. *)
Lemma move_down p s1 s2 v q :
  s2 <> [] ->
  (a ← memmove (p ++ s1 ++ s2 ++ v :: q) (zlen p + zlen s1 + 1) (zlen p + zlen s1) (zlen s2); zset a (zlen p + zlen s1) v) = Some (p ++ s1 ++ v :: s2 ++ q).
Proof using.
  intros Hne. destruct (make_room (p ++ s1) s2 (v :: q) 1) as (w & E & Hw); [rewrite zlen_cons; pose proof (zlen_nonneg q); lia|].
  rewrite !zlen_app in E. assert (0 < zlen s2) by (destruct s2; [done|rewrite zlen_cons; pose proof (zlen_nonneg s2); lia]).
  destruct (Z.ltb_spec (zlen p + zlen s1) (zlen p + zlen s1 + zlen s2)); [|lia].
  replace (zlen p + zlen s1 + zlen s2 - (zlen p + zlen s1)) with (zlen s2) in E by lia. rewrite <- !app_assoc in E. rewrite E. cbn [mbind option_bind].
  apply zlen_1_inv in Hw as [z ->]. cbn [app drop]. rewrite app_assoc, <- zlen_app, zset_middle. by rewrite <- app_assoc.
Qed.

Lemma insertion_loop_spec r p s q :
  sorted s -> small (p ++ s ++ r ++ q) ->
  exists s', insertion_loop cmp itemSize (length r) (p ++ s ++ r ++ q) (zlen p) (zlen s) = Some (p ++ s' ++ q) /\ sorted s' /\ stable_perm (s ++ r) s'.
Proof using Hord Hsize.
  revert s. induction r as [|v r IH]; intros s Hs Hsm; cbn [length insertion_loop].
  - exists s. rewrite app_nil_r. split_and!; auto. apply stable_perm_refl.
  - pose proof (zlen_nonneg p). pose proof (zlen_nonneg s). pose proof (zlen_nonneg q). pose proof (zlen_nonneg r).
    assert (Hlen : zlen (p ++ s ++ (v :: r) ++ q) = zlen p + zlen s + 1 + zlen r + zlen q) by (rewrite !zlen_app, zlen_cons; lia).
    assert (Hb : zlen p + zlen s + 1 + zlen r + zlen q <= 2 ^ 30 /\ (zlen p + zlen s + 1 + zlen r + zlen q) * itemSize <= INT32_MAX) by (rewrite <- Hlen; exact Hsm).
    rewrite item_at_in by (auto; lia). clear Hlen. rewrite zget_app_r by lia. replace (zlen p + zlen s - zlen p) with (zlen s) by lia. cbn [app]. rewrite zget_middle.
    cbn [mbind option_bind]. destruct (search_spec (p ++ s ++ v :: r ++ q) p s (v :: r ++ q) v eq_refl Hs Hsm) as (k & found & -> & Hse). cbn [mbind option_bind].
    rewrite (insertion_point s v k found Hse). destruct (searched_split s v k found Hse) as (s1 & s2 & -> & <- & Hle & Hgt). rewrite zlen_app in Hb |- *. pose proof (zlen_nonneg s1). pose proof (zlen_nonneg s2).
    assert (Harr : (if zlen s1 <? zlen s1 + zlen s2 then
        _ ← checked ((zlen s1 + zlen s2 - zlen s1) * itemSize);
        array ← memmove (p ++ (s1 ++ s2) ++ v :: r ++ q) (zlen p + zlen s1 + 1) (zlen p + zlen s1) (zlen s1 + zlen s2 - zlen s1);
        set_item itemSize array (zlen p) (zlen s1) v
      else Some (p ++ (s1 ++ s2) ++ v :: r ++ q)) = Some (p ++ (s1 ++ v :: s2) ++ r ++ q)).
    { destruct (Z.ltb_spec (zlen s1) (zlen s1 + zlen s2)).
      - replace (zlen s1 + zlen s2 - zlen s1) with (zlen s2) by lia. rewrite checked_in by (unfold INT32_MIN, INT32_MAX in *; nia). cbn [mbind option_bind].
        pose proof (move_down p s1 s2 v (r ++ q) ltac:(intros ->; unfold zlen in *; cbn in *; lia)) as Hm. rewrite <- !app_assoc in *. cbn [app] in *.
        destruct (memmove _ _ _ _) as [a|] eqn:Em; [|done]. cbn [mbind option_bind] in *. rewrite set_item_in; [by rewrite Hm| |].
        + unfold small. rewrite <- (zset_zlen _ _ _ _ Hm), !zlen_app, zlen_cons, !zlen_app. split; [lia|]. etransitivity; [|apply Hb]. nia.
        + rewrite <- (zset_zlen _ _ _ _ Hm), !zlen_app, zlen_cons, !zlen_app. lia.
      - assert (s2 = []) as -> by (apply zlen_0_inv; lia). by rewrite !app_nil_r, <- app_assoc. }
    rewrite Harr. cbn [mbind option_bind]. replace (zlen s1 + zlen s2 + 1) with (zlen (s1 ++ v :: s2)) by (rewrite zlen_app, zlen_cons; lia).
    destruct (IH (s1 ++ v :: s2)) as (s' & Hl & Hs' & Hst).
    + by apply sorted_insert.
    + unfold small. rewrite !zlen_app, zlen_cons. split; [lia|]. etransitivity; [|apply Hb]. nia.
    + exists s'. split; [exact Hl|]. split; [done|]. eapply stable_perm_trans; [|exact Hst]. rewrite <- !app_assoc. cbn [app]. by apply insert_stable.
Qed.

Lemma doInsertionSort_spec p s q :
  small (p ++ s ++ q) -> exists s', doInsertionSort cmp itemSize (p ++ s ++ q) (zlen p) (zlen s) = Some (p ++ s' ++ q) /\ sorted s' /\ stable_perm s s'.
Proof using Hord Hsize.
  intros Hsm. unfold doInsertionSort. destruct s as [|x s].
  - exists []. split; [done|]. split; [constructor|apply stable_perm_refl].
  - rewrite zlen_cons. replace (Z.to_nat (zlen s + 1 - 1)) with (length s) by (unfold zlen; lia).
    destruct (insertion_loop_spec s p [x] q) as (s' & Hl & Hs & Hst); [constructor; constructor|exact Hsm|]. exists s'. by split_and!.
Qed.

(** ** Partitioning *)

Lemma small_perm array array' : array' ≡ₚ array -> small array -> small array'.
Proof using. intros Hp. unfold small, zlen. by rewrite Hp. Qed.

Lemma item_at_middle p z q i : small (p ++ z :: q) -> i = zlen p -> item_at itemSize (p ++ z :: q) 0 i = Some z.
Proof using Hsize.
  intros Hsm ->. pose proof (zlen_nonneg p). pose proof (zlen_nonneg q). rewrite item_at_in; auto; [apply zget_middle|]. rewrite zlen_app, zlen_cons. lia.
Qed.

Lemma set_item_middle p z q i y : small (p ++ z :: q) -> i = zlen p -> set_item itemSize (p ++ z :: q) 0 i y = Some (p ++ y :: q).
Proof using Hsize.
  intros Hsm ->. pose proof (zlen_nonneg p). pose proof (zlen_nonneg q). rewrite set_item_in; auto; [apply zset_middle|]. rewrite zlen_app, zlen_cons. lia.
Qed.

Lemma scan_up_spec fuel x p c z q i :
  small (p ++ c ++ z :: q) -> Forall (fun a => cmp a x < 0) c -> 0 <= cmp z x -> i = zlen p -> zlen c < Z.of_nat fuel ->
  scan_up cmp itemSize fuel (p ++ c ++ z :: q) x i = Some (zlen p + zlen c).
Proof using Hsize.
  intros Hsm Hc Hz. revert p i fuel Hsm. induction Hc as [|a c Ha _ IH]; intros p i fuel Hsm -> Hf; (destruct fuel as [|fuel]; [unfold zlen in *; cbn in *; lia|]); cbn [app] in *; cbn [scan_up].
  - rewrite item_at_middle by done. cbn [mbind option_bind]. destruct (Z.ltb_spec (cmp z x) 0); [lia|]. f_equal. unfold zlen. cbn. lia.
  - rewrite item_at_middle by done. cbn [mbind option_bind]. destruct (Z.ltb_spec (cmp a x) 0); [|lia].
    replace (p ++ a :: c ++ z :: q) with ((p ++ [a]) ++ c ++ z :: q) in * by (by rewrite <- app_assoc). rewrite zlen_cons in *. rewrite IH; auto; rewrite ?zlen_app; change (zlen [a]) with 1; [f_equal; lia|lia..].
Qed.

Lemma scan_down_spec fuel x p z c q i :
  small (p ++ z :: c ++ q) -> Forall (fun a => cmp x a < 0) c -> 0 <= cmp x z -> i = zlen p + 1 + zlen c -> zlen c < Z.of_nat fuel ->
  scan_down cmp itemSize fuel (p ++ z :: c ++ q) x i = Some (zlen p + 1).
Proof using Hsize.
  intros Hsm Hc Hz. revert q i fuel Hsm. induction c as [|a c IH] using rev_ind; intros q i fuel Hsm -> Hf; (destruct fuel as [|fuel]; [unfold zlen in *; cbn in *; lia|]); cbn [scan_down app].
  - cbn [app] in *. rewrite item_at_middle by (auto; unfold zlen; cbn; lia). cbn [mbind option_bind]. destruct (Z.ltb_spec (cmp x z) 0); [lia|]. f_equal. unfold zlen. cbn. lia.
  - apply Forall_app in Hc as [Hc Ha]. inversion Ha; subst. rewrite zlen_app in *. change (zlen [a]) with 1 in *. rewrite <- app_assoc in *. cbn [app] in *.
    rewrite (app_assoc p (z :: c) (a :: q) : p ++ z :: c ++ a :: q = _) in Hsm |- *.
    rewrite item_at_middle by (auto; rewrite zlen_app, zlen_cons; lia). cbn [mbind option_bind]. destruct (Z.ltb_spec (cmp x a) 0); [|lia].
    rewrite <- (app_assoc p (z :: c) (a :: q)) in Hsm |- *. cbn [app] in *. apply IH; auto; lia.
Qed.

Lemma swap_spec p y c z q i j :
  small (p ++ y :: c ++ z :: q) -> i = zlen p -> j = zlen p + 1 + zlen c -> swap itemSize (p ++ y :: c ++ z :: q) i j = Some (p ++ z :: c ++ y :: q).
Proof using Hsize.
  intros Hsm -> ->. unfold swap. rewrite (item_at_middle p y (c ++ z :: q) (zlen p)) by done. cbn [mbind option_bind].
  assert (E : forall w u, p ++ w :: c ++ u :: q = (p ++ w :: c) ++ u :: q) by (intros; by rewrite <- app_assoc).
  assert (Hsm2 : forall w u, small (p ++ w :: c ++ u :: q)) by (intros w u; destruct Hsm as [H1 H2]; unfold small in *; unfold zlen in *; rewrite !length_app in *; cbn [length] in *; rewrite !length_app in *; cbn [length] in *; done).
  rewrite (E y z), item_at_middle, <- E by (rewrite <- ?E; auto; rewrite zlen_app, zlen_cons; lia). cbn [mbind option_bind]. rewrite set_item_middle by done. cbn [mbind option_bind].
  rewrite (E z z), set_item_middle by (rewrite <- ?E; auto; rewrite zlen_app, zlen_cons; lia). by rewrite <- E.
Qed.

(** The longest prefix, and the longest suffix, of items with a property. *)
Lemma prefix_split (P : A -> Prop) `{forall a, Decision (P a)} c :
  exists c1 c2, c = c1 ++ c2 /\ Forall P c1 /\ (c2 = [] \/ exists z c3, c2 = z :: c3 /\ ~ P z).
Proof using.
  induction c as [|a c (c1 & c2 & -> & H1 & H2)]; [by exists [], []; auto|]. destruct (decide (P a)).
  - exists (a :: c1), c2. split_and!; auto.
  - exists [], (a :: c1 ++ c2). split_and!; eauto.
Qed.

Lemma suffix_split (P : A -> Prop) `{forall a, Decision (P a)} c :
  exists c1 c2, c = c1 ++ c2 /\ Forall P c2 /\ (c1 = [] \/ exists c3 z, c1 = c3 ++ [z] /\ ~ P z).
Proof using.
  induction c as [|a c (c1 & c2 & -> & H1 & H2)] using rev_ind; [by exists [], []; auto|]. destruct (decide (P a)).
  - exists c1, (c2 ++ [a]). rewrite app_assoc. split_and!; auto. apply Forall_app. auto.
  - exists ((c1 ++ c2) ++ [a]), []. rewrite app_nil_r. split_and!; eauto.
Qed.

Notation below x := (fun a => cmp a x <= 0).
Notation above x := (fun a => cmp x a <= 0).

(** The result of a partition of [m] around [x]: the items [a] not above, [e] equal, [b] not
    below; neither side is the whole. *)
Record parted (x : A) (m a e b : list A) : Prop := {
  pt_perm : a ++ e ++ b ≡ₚ m;
  pt_below : Forall (below x) a;
  pt_equal : Forall (below x) e /\ Forall (above x) e;
  pt_above : Forall (above x) b;
  pt_progress : a ++ e <> [] /\ e ++ b <> []
}.

(** One turn: where the scans stop. *)
Lemma scans fuel p a c b q x :
  small (p ++ a ++ c ++ b ++ q) -> Forall (below x) a -> Forall (above x) b -> (a <> [] /\ b <> []) \/ x ∈ c -> zlen (p ++ a ++ c ++ b ++ q) < Z.of_nat fuel ->
  exists c1 c3 c4, c = c1 ++ c3 ++ c4 /\ Forall (fun y => cmp y x < 0) c1 /\ Forall (fun y => cmp x y < 0) c4 /\
    (c3 = [] /\ a <> [] /\ b <> [] \/ (exists y, c3 = [y] /\ 0 <= cmp y x /\ 0 <= cmp x y) \/ exists y z c5, c3 = y :: c5 ++ [z] /\ 0 <= cmp y x /\ 0 <= cmp x z) /\
    scan_up cmp itemSize fuel (p ++ a ++ c ++ b ++ q) x (zlen p + zlen a) = Some (zlen p + zlen a + zlen c1) /\
    scan_down cmp itemSize fuel (p ++ a ++ c ++ b ++ q) x (zlen p + zlen a + zlen c) = Some (zlen p + zlen a + zlen c1 + zlen c3).
Proof using Hord Hsize.
  intros Hsm Ha Hb Hsent Hf. pose proof (cmp_refl x) as Hxx.
  destruct (prefix_split (fun y => cmp y x < 0) c) as (c1 & c2 & -> & Hc1 & Hc2).
  destruct (suffix_split (fun y => cmp x y < 0) c2) as (c3 & c4 & -> & Hc4 & Hc3).
  assert (Hx3 : x ∈ c1 ++ c3 ++ c4 -> x ∈ c3).
  { rewrite !elem_of_app. rewrite Forall_forall in Hc1, Hc4. intros [Hx|[Hx|Hx]]; [specialize (Hc1 x Hx)|done|specialize (Hc4 x Hx)]; lia. }
  exists c1, c3, c4. split; [done|]. split; [done|]. split; [done|].
  assert (Hab : c3 = [] -> a <> [] /\ b <> []) by (intros ->; destruct Hsent as [?|Hx%Hx3%not_elem_of_nil]; done).
  pose proof (zlen_nonneg p). pose proof (zlen_nonneg a). pose proof (zlen_nonneg b). pose proof (zlen_nonneg q). pose proof (zlen_nonneg c1). pose proof (zlen_nonneg c3). pose proof (zlen_nonneg c4).
  assert (Hlen : zlen p + zlen a + (zlen c1 + zlen c3 + zlen c4) + zlen b + zlen q < Z.of_nat fuel) by (rewrite !zlen_app in Hf; lia).
  assert (Hshape : c3 = [] \/ (exists y, c3 = [y]) \/ exists y z c5, c3 = y :: c5 ++ [z]).
  { destruct c3 as [|y c3]; [by left|right]. destruct c3 as [|z c5 _] using rev_ind; [left; eauto|right; eauto]. }
  split; [|split].
  - destruct Hshape as [->|[[y ->]|(y & z & c5 & ->)]]; [left; split; [done|auto]|right..].
    + left. exists y. destruct Hc2 as [?|(z0 & c0 & [= <- _] & Hz)]; [done|]. destruct Hc3 as [?|(c' & z & Ez & Hz')]; [done|].
      apply (app_inj_tail [] c' y z) in Ez as [_ <-]. split_and!; auto; lia.
    + right. exists y, z, c5. destruct Hc2 as [?|(y0 & c0 & [= <- _] & Hy)]; [done|]. destruct Hc3 as [?|(c' & z' & Ez & Hz)]; [done|].
      apply (app_inj_tail (y :: c5) c' z z') in Ez as [_ <-]. split_and!; auto; lia.
  - (* upwards: stops in [c3], [c4] or [b] *)
    assert (Hstop : exists z r, c3 ++ c4 ++ b ++ q = z :: r /\ 0 <= cmp z x).
    { destruct Hc2 as [Hn|(z & r & Ez & Hz)].
      - apply app_eq_nil in Hn as [-> ->]. destruct (Hab eq_refl) as [_ Hbn]. destruct b as [|z b]; [done|]. exists z, (b ++ q). split; [done|]. inversion Hb; subst. by apply cmp_flip.
      - exists z, (r ++ b ++ q). rewrite app_assoc, Ez. split; [done|lia]. }
    destruct Hstop as (z & r & Er & Hz). replace (p ++ a ++ (c1 ++ c3 ++ c4) ++ b ++ q) with ((p ++ a) ++ c1 ++ z :: r) in Hsm |- * by (rewrite <- Er, <- !app_assoc; done).
    rewrite (scan_up_spec fuel x (p ++ a) c1 z r); auto; rewrite ?zlen_app; lia || done.
  - (* downwards: stops in [c3], [c1] or [a] *)
    assert (Hstop : exists r z, p ++ a ++ c1 ++ c3 = r ++ [z] /\ 0 <= cmp x z).
    { destruct Hc3 as [->|(r & z & -> & Hz)].
      - destruct (Hab eq_refl) as [Han _]. assert (Hle : Forall (below x) (a ++ c1)) by (apply Forall_app; split; [done|]; eapply Forall_impl; [exact Hc1|cbn; lia]).
        rewrite app_nil_r. destruct (exists_last (l := a ++ c1)) as (r & z & Er); [by destruct a|]. rewrite Er in *. exists (p ++ r), z. rewrite <- app_assoc. split; [done|].
        apply Forall_app in Hle as [_ Hle]. inversion Hle; subst. by apply cmp_flip.
      - exists (p ++ a ++ c1 ++ r), z. rewrite <- !app_assoc. split; [done|lia]. }
    destruct Hstop as (r & z & Er & Hz). assert (Elen : zlen p + zlen a + zlen c1 + zlen c3 = zlen r + 1).
    { apply (f_equal zlen) in Er. rewrite !zlen_app in Er. change (zlen [z]) with 1 in Er. lia. }
    replace (p ++ a ++ (c1 ++ c3 ++ c4) ++ b ++ q) with (r ++ z :: c4 ++ b ++ q) in Hsm |- *.
    2:{ change (z :: c4 ++ b ++ q) with ([z] ++ c4 ++ b ++ q). rewrite app_assoc, <- Er, <- !app_assoc. done. }
    rewrite (scan_down_spec fuel x r z c4 (b ++ q)); auto; rewrite ?zlen_app; [f_equal; lia|lia..].
Qed.

Lemma strict_below x c : Forall (fun y => cmp y x < 0) c -> Forall (below x) c.
Proof using. intros Hc. eapply Forall_impl; [exact Hc|]. cbn. lia. Qed.

Lemma strict_above x c : Forall (fun y => cmp x y < 0) c -> Forall (above x) c.
Proof using. intros Hc. eapply Forall_impl; [exact Hc|]. cbn. lia. Qed.

Lemma some_triple array array' (l l' r r' : Z) : array = array' -> l = l' -> r = r' -> Some (array, l, r) = Some (array', l', r').
Proof using. by intros -> -> ->. Qed.

Lemma partition_loop_spec fuel p a c b q x :
  small (p ++ a ++ c ++ b ++ q) -> Forall (below x) a -> Forall (above x) b -> (a <> [] /\ b <> []) \/ x ∈ c -> c <> [] -> (length c <= fuel)%nat ->
  exists a' e b', partition_loop cmp itemSize fuel (p ++ a ++ c ++ b ++ q) x (zlen p + zlen a) (zlen p + zlen a + zlen c) =
      Some (p ++ a' ++ e ++ b' ++ q, zlen p + zlen a' + zlen e, zlen p + zlen a') /\ parted x (a ++ c ++ b) a' e b'.
Proof using Hord Hsize.
  revert a c b. induction fuel as [|fuel IH]; intros a c b Hsm Ha Hb Hsent Hne Hf; [destruct c; [done|cbn in Hf; lia]|]. cbn [partition_loop].
  destruct (scans (S (Z.to_nat (zlen (p ++ a ++ c ++ b ++ q)))) p a c b q x Hsm Ha Hb Hsent) as (c1 & c3 & c4 & -> & Hc1 & Hc4 & Hc3 & -> & ->); [lia|].
  apply strict_below in Hc1. apply strict_above in Hc4. cbn [mbind option_bind]. pose proof (zlen_nonneg c3). pose proof (zlen_nonneg c1). pose proof (zlen_nonneg c4).
  destruct Hc3 as [(-> & Han & Hbn)|[(y & -> & Hy1 & Hy2)|(y & z & c5 & -> & Hy & Hz)]].
  - (* the scans meet between two items *)
    change (zlen (@nil A)) with 0. rewrite Z.add_0_r. destruct (Z.ltb_spec (zlen p + zlen a + zlen c1) (zlen p + zlen a + zlen c1)); [lia|]. cbn [mbind option_bind].
    destruct (Z.ltb_spec (zlen p + zlen a + zlen c1) (zlen p + zlen a + zlen c1)); [lia|]. exists (a ++ c1), [], (c4 ++ b).
    split; [rewrite zlen_app, <- !app_assoc; change (zlen (@nil A)) with 0; cbn [app]; apply some_triple; [done|lia..]|].
    split; rewrite ?Forall_app; cbn [app]; auto; [by rewrite <- !app_assoc|]. split; [by destruct a|by destruct c4, b].
  - (* they meet at an item that is equal *)
    change (zlen [y]) with 1. destruct (Z.ltb_spec (zlen p + zlen a + zlen c1) (zlen p + zlen a + zlen c1 + 1)); [|lia].
    destruct (Z.ltb_spec (zlen p + zlen a + zlen c1) (zlen p + zlen a + zlen c1 + 1 - 1)); [lia|]. cbn [mbind option_bind].
    destruct (Z.ltb_spec (zlen p + zlen a + zlen c1 + 1) (zlen p + zlen a + zlen c1 + 1 - 1)); [lia|]. exists (a ++ c1), [y], (c4 ++ b).
    split; [rewrite zlen_app, <- !app_assoc; change (zlen [y]) with 1; cbn [app]; apply some_triple; [done|lia..]|].
    split; rewrite ?Forall_app; auto.
    + by rewrite <- !app_assoc.
    + split; constructor; auto; by apply cmp_flip.
    + split; [by destruct (a ++ c1)|done].
  - (* two items are swapped *)
    rewrite zlen_cons, zlen_app in *. change (zlen [z]) with 1 in *. pose proof (zlen_nonneg c5).
    destruct (Z.ltb_spec (zlen p + zlen a + zlen c1) (zlen p + zlen a + zlen c1 + (zlen c5 + 1 + 1))); [|lia].
    replace (zlen p + zlen a + zlen c1 + (zlen c5 + 1 + 1) - 1) with (zlen (p ++ a ++ c1) + 1 + zlen c5) by (rewrite !zlen_app; lia).
    replace (zlen p + zlen a + zlen c1) with (zlen (p ++ a ++ c1)) by (rewrite !zlen_app; lia).
    destruct (Z.ltb_spec (zlen (p ++ a ++ c1)) (zlen (p ++ a ++ c1) + 1 + zlen c5)); [|lia].
    assert (Earr : forall u v, p ++ a ++ (c1 ++ (u :: c5 ++ [v]) ++ c4) ++ b ++ q = (p ++ a ++ c1) ++ u :: c5 ++ v :: c4 ++ b ++ q).
    { intros u v. rewrite <- !app_assoc. cbn [app]. by rewrite <- !app_assoc. }
    rewrite Earr in Hsm |- *. rewrite (swap_spec (p ++ a ++ c1) y c5 z (c4 ++ b ++ q)) by done. cbn [mbind option_bind].
    assert (Hperm : (p ++ a ++ c1) ++ z :: c5 ++ y :: c4 ++ b ++ q ≡ₚ (p ++ a ++ c1) ++ y :: c5 ++ z :: c4 ++ b ++ q).
    { f_equiv. rewrite <- !Permutation_middle. apply perm_swap. }
    pose proof (small_perm _ _ Hperm Hsm) as Hsm'.
    assert (Enew : (p ++ a ++ c1) ++ z :: c5 ++ y :: c4 ++ b ++ q = p ++ (a ++ c1 ++ [z]) ++ c5 ++ (y :: c4 ++ b) ++ q) by (rewrite <- !app_assoc; cbn [app]; by rewrite <- !app_assoc).
    assert (Ha' : Forall (below x) (a ++ c1 ++ [z])) by (rewrite !Forall_app; split_and!; auto; constructor; auto; by apply cmp_flip).
    assert (Hb' : Forall (above x) (y :: c4 ++ b)) by (constructor; [by apply cmp_flip|rewrite Forall_app; auto]).
    assert (Hm : (a ++ c1 ++ [z]) ++ c5 ++ y :: c4 ++ b ≡ₚ a ++ (c1 ++ (y :: c5 ++ [z]) ++ c4) ++ b).
    { rewrite <- !app_assoc. cbn [app]. do 2 f_equiv. rewrite <- !app_assoc. cbn [app]. rewrite <- !Permutation_middle. apply perm_swap. }
    replace (zlen (p ++ a ++ c1) + 1) with (zlen p + zlen (a ++ c1 ++ [z])) by (rewrite !zlen_app; change (zlen [z]) with 1; lia).
    rewrite Enew in *. destruct (Z.ltb_spec (zlen p + zlen (a ++ c1 ++ [z])) (zlen p + zlen (a ++ c1 ++ [z]) + zlen c5)).
    + destruct (IH (a ++ c1 ++ [z]) c5 (y :: c4 ++ b)) as (a' & e & b' & Hl & [Hpp Hpb Hpe Hpa Hpr]); auto.
      * left. split; [by destruct a, c1|done].
      * intros ->. change (zlen (@nil A)) with 0 in *. lia.
      * rewrite !length_app in Hf. cbn [length] in Hf. rewrite length_app in Hf. cbn [length] in Hf. lia.
      * exists a', e, b'. split; [exact Hl|]. split; auto. by rewrite Hpp.
    + assert (c5 = []) as -> by (apply zlen_0_inv; lia). exists (a ++ c1 ++ [z]), [], (y :: c4 ++ b).
      split; [cbn [app]; change (zlen (@nil A)) with 0; apply some_triple; [done|lia..]|]. split; auto. split; [by destruct a, c1|done].
Qed.

(** ** Quicksort *)

Lemma sorted_app a b : sorted a -> sorted b -> (forall y z, y ∈ a -> z ∈ b -> cmp y z <= 0) -> sorted (a ++ b).
Proof using.
  unfold sorted. intros Ha Hb Hab. induction Ha as [|y a Ha IH Hy]; [done|]. cbn. constructor.
  - apply IH. intros u v Hu. apply Hab. by right.
  - apply Forall_app. split; [done|]. apply Forall_forall. intros v Hv. apply Hab; [by left|done].
Qed.

Lemma parted_sorted x m a e b a' b' :
  parted x m a e b -> sorted a' -> a' ≡ₚ a -> sorted b' -> b' ≡ₚ b -> sorted (a' ++ e ++ b') /\ a' ++ e ++ b' ≡ₚ m.
Proof using Hord.
  intros [Hp Ha [He1 He2] Hb _] Hsa Hpa Hsb Hpb. split; [|by rewrite Hpa, Hpb]. rewrite <- Hpa in Ha. rewrite <- Hpb in Hb.
  rewrite Forall_forall in Ha, He1, He2, Hb.
  assert (Hthrough : forall y z, cmp y x <= 0 -> cmp x z <= 0 -> cmp y z <= 0) by (intros y z; apply (ord_trans _ Hord)).
  assert (Hse : sorted e).
  { unfold sorted. clear Hp Hpa. induction e as [|y e IH]; constructor; [apply IH; intros; [apply He1|apply He2]; by right|].
    apply Forall_forall. intros z Hz. apply Hthrough; [apply He1; by left|apply He2; by right]. }
  apply sorted_app; [done|apply sorted_app; auto|]. intros y z Hy Hz. apply Hthrough; [auto|]. apply elem_of_app in Hz as [?|?]; auto.
Qed.

Lemma sorted_short s : zlen s <= 1 -> sorted s.
Proof using. destruct s as [|x [|y s]]; intros Hs; [constructor|constructor; constructor|]. rewrite !zlen_cons in Hs. pose proof (zlen_nonneg s). lia. Qed.

(** Sorting the two sides of a partition, in either order, with a function that sorts any
    smaller part. *)
Section Sides.
Context (rec : list A -> Z -> Z -> option (list A)) p m q x a e b (Hsm : small (p ++ m ++ q)) (Hpt : parted x m a e b).
Context (Hrec : forall p' s q', small (p' ++ s ++ q') -> zlen s < zlen m ->
  exists s', rec (p' ++ s ++ q') (zlen p') (zlen p' + zlen s) = Some (p' ++ s' ++ q') /\ sorted s' /\ s' ≡ₚ s).

Definition sort_side array (start limit : Z) : option (list A) := if start <? limit - 1 then rec array start limit else Some array.

Lemma parted_lengths : zlen m = zlen a + zlen e + zlen b /\ 0 < zlen a + zlen e /\ 0 < zlen e + zlen b.
Proof using Hpt.
  destruct Hpt as [Hperm _ _ _ [Hae Heb]]. assert (Hpos : forall l : list A, l <> [] -> 0 < zlen l).
  { intros [|y l] Hl; [done|]. rewrite zlen_cons. pose proof (zlen_nonneg l). lia. }
  apply Hpos in Hae, Heb. rewrite zlen_app in Hae, Heb. split_and!; auto. unfold zlen. rewrite <- Hperm, !length_app. lia.
Qed.

Lemma sort_side_spec p' s q' :
  small (p' ++ s ++ q') -> zlen s < zlen m -> exists s', sort_side (p' ++ s ++ q') (zlen p') (zlen p' + zlen s) = Some (p' ++ s' ++ q') /\ sorted s' /\ s' ≡ₚ s.
Proof using Hrec.
  intros Hsm' Hlt. unfold sort_side. destruct (Z.ltb_spec (zlen p') (zlen p' + zlen s - 1)); [by apply Hrec|]. exists s. split_and!; auto. apply sorted_short. lia.
Qed.

Lemma parts_small a' b' : a' ≡ₚ a -> b' ≡ₚ b -> small (p ++ a' ++ e ++ b' ++ q).
Proof using Hpt Hsm. intros Ea Eb. eapply small_perm; [|exact Hsm]. rewrite Ea, Eb, <- (pt_perm _ _ _ _ _ Hpt), <- !app_assoc. done. Qed.

Lemma sort_left b' : b' ≡ₚ b -> exists a', sort_side (p ++ a ++ e ++ b' ++ q) (zlen p) (zlen p + zlen a) = Some (p ++ a' ++ e ++ b' ++ q) /\ sorted a' /\ a' ≡ₚ a.
Proof using Hpt Hrec Hsm. intros Eb. apply (sort_side_spec p a (e ++ b' ++ q)); [by apply parts_small|]. pose proof parted_lengths. lia. Qed.

Lemma sort_right a' :
  a' ≡ₚ a -> exists b', sort_side (p ++ a' ++ e ++ b ++ q) (zlen p + zlen a + zlen e) (zlen p + zlen m) = Some (p ++ a' ++ e ++ b' ++ q) /\ sorted b' /\ b' ≡ₚ b.
Proof using Hpt Hrec Hsm.
  intros Ea. pose proof parted_lengths as (Hm & Hl & Hr). destruct (sort_side_spec (p ++ a' ++ e) b q) as (b' & Hb & Hsb & Hpb).
  - rewrite <- !app_assoc. by apply parts_small.
  - lia.
  - exists b'. split; [|done]. rewrite <- !app_assoc in Hb. rewrite !zlen_app in Hb. replace (zlen a') with (zlen a) in Hb by (unfold zlen; by rewrite Ea).
    replace (zlen p + zlen m) with (zlen p + (zlen a + zlen e) + zlen b) by lia. replace (zlen p + zlen a + zlen e) with (zlen p + (zlen a + zlen e)) by lia. exact Hb.
Qed.

Lemma sort_sides (leftFirst : bool) :
  exists m', (if leftFirst
    then array ← sort_side (p ++ a ++ e ++ b ++ q) (zlen p) (zlen p + zlen a); sort_side array (zlen p + zlen a + zlen e) (zlen p + zlen m)
    else array ← sort_side (p ++ a ++ e ++ b ++ q) (zlen p + zlen a + zlen e) (zlen p + zlen m); sort_side array (zlen p) (zlen p + zlen a)) = Some (p ++ m' ++ q) /\
    sorted m' /\ m' ≡ₚ m.
Proof using Hord Hpt Hrec Hsm.
  destruct leftFirst.
  - destruct (sort_left b) as (a' & -> & Hsa & Hpa); [done|]. cbn [mbind option_bind]. destruct (sort_right a' Hpa) as (b' & -> & Hsb & Hpb).
    exists (a' ++ e ++ b'). rewrite <- !app_assoc. split; [done|]. by eapply parted_sorted.
  - destruct (sort_right a) as (b' & -> & Hsb & Hpb); [done|]. cbn [mbind option_bind]. destruct (sort_left b' Hpb) as (a' & -> & Hsa & Hpa).
    exists (a' ++ e ++ b'). rewrite <- !app_assoc. split; [done|]. by eapply parted_sorted.
Qed.
End Sides.

Lemma subQuickSort_spec fuel p m q :
  small (p ++ m ++ q) -> zlen m < Z.of_nat fuel ->
  exists m', subQuickSort cmp itemSize fuel (p ++ m ++ q) (zlen p) (zlen p + zlen m) = Some (p ++ m' ++ q) /\ sorted m' /\ m' ≡ₚ m.
Proof using Hord Hsize.
  revert p m q. induction fuel as [|fuel IH]; intros p m q Hsm Hf; [pose proof (zlen_nonneg m); lia|]. cbn [subQuickSort].
  pose proof (zlen_nonneg p). pose proof (zlen_nonneg m). pose proof (zlen_nonneg q). pose proof Hsm as [Hsm1 _]. rewrite !zlen_app in Hsm1.
  unfold MIN_QSORT. rewrite (checked_in (zlen p + 9)) by (unfold INT32_MIN, INT32_MAX; lia). cbn [mbind option_bind]. destruct (Z.leb_spec (zlen p + zlen m) (zlen p + 9)).
  { replace (zlen p + zlen m - zlen p) with (zlen m) by lia. destruct (doInsertionSort_spec p m q Hsm) as (m' & -> & Hs & [Hp _]). eauto. }
  rewrite checked_in by (unfold INT32_MIN, INT32_MAX; lia). cbn [mbind option_bind]. set (i := (zlen p + (zlen p + zlen m)) / 2).
  assert (Hi : zlen p <= i < zlen p + zlen m) by (unfold i; pose proof (Z.div_mod (zlen p + (zlen p + zlen m)) 2); pose proof (Z.mod_pos_bound (zlen p + (zlen p + zlen m)) 2); lia).
  destruct (zget_is_Some m (i - zlen p)) as (x & Hx); [lia|].
  assert (Hitem : item_at itemSize (p ++ m ++ q) 0 i = Some x).
  { rewrite item_at_in; auto; [|rewrite !zlen_app; lia]. rewrite Z.add_0_l, zget_app_r by lia. by rewrite zget_app_l by lia. }
  rewrite Hitem. cbn [mbind option_bind].
  destruct (partition_loop_spec (Z.to_nat (zlen p + zlen m - zlen p)) p [] m [] q x) as (a & e & b & Hl & Hpt); auto.
  { right. apply zget_Some_lookup in Hx as [_ Hx]. by eapply list_elem_of_lookup_2. } { intros ->. change (zlen (@nil A)) with 0 in *. lia. } { unfold zlen. lia. }
  cbn [app] in Hl. change (zlen (@nil A)) with 0 in Hl. rewrite Z.add_0_r in Hl. rewrite Hl. cbn [mbind option_bind]. rewrite app_nil_r in Hpt.
  apply (sort_sides (subQuickSort cmp itemSize fuel) p m q x a e b Hsm Hpt). intros p' s q' Hsm' Hlt. apply IH; auto. lia.
Qed.

(** ** The sort *)

Section Top.
Context `{HP : Heap}.

Lemma temporaries_refused n : 0 <= n * itemSize <= INT32_MAX -> temporaries itemSize n = false -> STACK_ITEM_SIZE < itemSize /\ refused.
Proof using. unfold temporaries. destruct (Z.leb_spec itemSize STACK_ITEM_SIZE); [done|]. intros Hn E. split; [done|]. by exists (n * itemSize). Qed.

Lemma sortArray_spec m q stable :
  small (m ++ q) ->
  exists m' st, uprv_sortArray cmp itemSize (Some (m ++ q)) (zlen m) stable U_ZERO_ERROR = Some (Some (m' ++ q), st) /\
    (st = U_ZERO_ERROR /\ sorted m' /\ m' ≡ₚ m /\ (stable = true \/ zlen m < MIN_QSORT -> stable_perm m m') \/
     st = U_MEMORY_ALLOCATION_ERROR /\ m' = m /\ STACK_ITEM_SIZE < itemSize /\ refused).
Proof using Hord Hsize.
  intros Hsm. unfold uprv_sortArray. change (U_FAILURE U_ZERO_ERROR) with false. cbv iota. pose proof (zlen_nonneg m). pose proof (zlen_nonneg q).
  destruct (Z.ltb_spec (zlen m) 0); [lia|]. destruct (Z.leb_spec itemSize 0); [lia|]. rewrite andb_false_r. cbn [orb].
  destruct (Z.leb_spec (zlen m) 1).
  { exists m, U_ZERO_ERROR. split; [done|]. left. split_and!; auto using sorted_short, stable_perm_refl. }
  cbn [mbind option_bind]. assert (Hbytes : 2 * itemSize <= INT32_MAX) by (destruct Hsm as [_ Hb]; rewrite zlen_app in Hb; nia).
  destruct ((zlen m <? MIN_QSORT) || stable) eqn:Ealg.
  - unfold insertionSort. destruct (temporaries itemSize 1) eqn:Et.
    + destruct (doInsertionSort_spec [] m q Hsm) as (m' & Hd & Hs & Hst). cbn [app] in Hd. change (zlen (@nil A)) with 0 in Hd. rewrite Hd. cbn [mbind option_bind].
      exists m', U_ZERO_ERROR. split; [done|]. left. split_and!; auto. apply Hst.
    + exists m, U_MEMORY_ALLOCATION_ERROR. split; [done|]. right. split; [done|]. split; [done|]. eapply temporaries_refused, Et. lia.
  - unfold quickSort. destruct (temporaries itemSize 2) eqn:Et.
    + destruct (subQuickSort_spec (S (Z.to_nat (zlen m))) [] m q Hsm) as (m' & Hd & Hs & Hp); [lia|]. cbn [app] in Hd. change (zlen (@nil A)) with 0 in Hd. rewrite Z.add_0_l in Hd. rewrite Hd. cbn [mbind option_bind].
      exists m', U_ZERO_ERROR. split; [done|]. left. split_and!; auto. intros [->|Hlt]; [by rewrite orb_true_r in Ealg|].
      apply orb_false_iff in Ealg as [Ealg _]. unfold MIN_QSORT in *. lia.
    + exists m, U_MEMORY_ALLOCATION_ERROR. split; [done|]. right. split; [done|]. split; [done|]. eapply temporaries_refused, Et. lia.
Qed.

(** C7: [uprv_sortArray] sorts: for a comparator that is a total preorder, on the first [length]
    items of an array whose item offsets fit [int32_t], it returns (both algorithms end, inside
    the array) with these items sorted, a permutation of what they were, and the rest of the
    array as it was; a stable sort, and any sort of fewer than nine items, keeps the order of
    equal items.  It fails only when an allocation for large items is refused, and then leaves
    the array alone; an argument error does so too. *)
Theorem sortArray_sorts m q stable :
  small (m ++ q) ->
  (exists m' st, uprv_sortArray cmp itemSize (Some (m ++ q)) (zlen m) stable U_ZERO_ERROR = Some (Some (m' ++ q), st) /\
    (st = U_ZERO_ERROR /\ sorted m' /\ m' ≡ₚ m /\
       (stable = true \/ zlen m < MIN_QSORT -> forall x, filter (fun y => cmp x y = 0) m' = filter (fun y => cmp x y = 0) m) \/
     st = U_MEMORY_ALLOCATION_ERROR /\ m' = m /\ STACK_ITEM_SIZE < itemSize /\ refused)) /\
  (forall (array : option (list A)) n, n < 0 \/ 0 < n /\ array = None -> uprv_sortArray cmp itemSize array n stable U_ZERO_ERROR = Some (array, U_ILLEGAL_ARGUMENT_ERROR)).
Proof using Hord Hsize.
  intros Hsm. split.
  - destruct (sortArray_spec m q stable Hsm) as (m' & st & Hr & [(? & ? & ? & Hst)|?]); exists m', st; (split; [done|]); [left|by right].
    split_and!; auto. intros Hx. by apply Hst.
  - intros array n Hn. unfold uprv_sortArray. change (U_FAILURE U_ZERO_ERROR) with false. cbv iota.
    destruct (Z.ltb_spec 0 n), (Z.ltb_spec n 0); cbn [andb orb]; try lia; [|by rewrite orb_true_r || done].
    destruct Hn as [?|[_ ->]]; [lia|done].
Qed.
End Top.

(** [uprv_stableBinarySearch] in a sorted array (the part [s], wherever it lies) finds the
    last item that is equal to the one searched for; if there is none, the result is the
    complement of the number of smaller items, where the item would be inserted. *)
Theorem stableBinarySearch_last p s q item :
  sorted s -> small (p ++ s ++ q) ->
  exists r, uprv_stableBinarySearch cmp itemSize (p ++ s ++ q) (zlen p) (zlen s) item = Some r /\
    (0 <= r -> (exists y, zget s r = Some y /\ cmp item y = 0) /\ forall i y, r < i -> zget s i = Some y -> cmp item y < 0) /\
    (r < 0 -> (forall y, y ∈ s -> cmp item y <> 0) /\ (forall i y, i < Z.lnot r -> zget s i = Some y -> cmp y item < 0) /\
              forall i y, Z.lnot r <= i -> zget s i = Some y -> cmp item y < 0).
Proof using Hord Hsize.
  intros Hs Hsm. destruct (search_spec (p ++ s ++ q) p s q item eq_refl Hs Hsm) as (k & found & Hr & [Hk Hb Ha Hf]). rewrite Hr. eexists. split; [done|].
  destruct found.
  - destruct Hf as (i & y & Hi & Hy & E). pose proof (zget_Some_range _ _ _ Hy). split; [intros _|lia]. split; [|intros j z Hj; apply Ha; lia].
    destruct (zget_is_Some s (k - 1)) as (z & Hz); [lia|]. exists z. split; [done|]. pose proof (Hb (k - 1) z ltac:(lia) Hz).
    assert (cmp item z <= 0); [|lia]. apply (ord_trans _ Hord _ y); [lia|]. apply (sorted_index s i (k - 1)); auto. lia.
  - rewrite Z.lnot_involutive. split; [unfold Z.lnot; lia|]. intros _. split_and!.
    + intros y (i & Hi)%list_elem_of_lookup E. rewrite <- zget_nat in Hi. destruct (Z.lt_ge_cases (Z.of_nat i) k) as [Hlt|Hge]; [pose proof (Hf _ _ Hlt Hi)|pose proof (Ha _ _ Hge Hi)]; lia.
    + intros i y Hi Hy. apply (ord_anti _ Hord). by apply (Hf i).
    + exact Ha.
Qed.
End Facts.

(** ** Vectors *)

Section Vectors.
Context `{HP : Heap} {A : Type}.
Import UVector.

Lemma vector_small (cells : list (UElement A)) : zlen cells <= INT32_MAX / sizeof_UElement -> small sizeof_UElement cells.
Proof. intros Hc. change (INT32_MAX / sizeof_UElement) with 268435455 in Hc. unfold small, sizeof_UElement, INT32_MAX. split; lia. Qed.

(** The sorts of a vector, [sort], [sorti] and [sortWithUComparator], always succeed on a
    well-formed vector: they leave the vector with the same elements in ascending order, in the
    same storage, and call no deleter; [sortWithUComparator] keeps the order of equal elements.
    With an error code that is already a failure they do nothing. *)
Theorem vector_sorted (v : UVector.t A) (cmp : UElement A -> UElement A -> Z) stable :
  order cmp -> UVector.wf v ->
  (exists v', sort_vector v cmp stable U_ZERO_ERROR = Some (v', U_ZERO_ERROR) /\ UVector.wf v' /\ sorted cmp (contents v') /\ contents v' ≡ₚ contents v /\
    capacity v' = capacity v /\ deleted v' = deleted v /\
    (stable = true -> forall x, filter (fun y => cmp x y = 0) (contents v') = filter (fun y => cmp x y = 0) (contents v))) /\
  forall ec, U_FAILURE ec = true -> sort_vector v cmp stable ec = Some (v, ec).
Proof.
  intros Hord (cells & Ec & Hlen & Hcnt & Hcap). split; [|intros ec Hf; unfold sort_vector, U_SUCCESS; by rewrite Hf].
  unfold sort_vector. change (U_SUCCESS U_ZERO_ERROR) with true. cbv iota. rewrite Ec.
  assert (Econt : contents v = ztake (count v) cells) by (unfold contents; by rewrite Ec). rewrite Econt.
  assert (Hm : zlen (ztake (count v) cells) = count v) by (apply zlen_ztake; lia).
  destruct (sortArray_spec cmp sizeof_UElement Hord ltac:(unfold sizeof_UElement; lia) (ztake (count v) cells) (drop (Z.to_nat (count v)) cells) stable) as (m' & st & Hr & Hor).
  { unfold ztake. rewrite take_drop. apply vector_small. lia. }
  unfold ztake in Hr at 1. rewrite take_drop, Hm in Hr. rewrite Hr. cbn [mbind option_bind].
  destruct Hor as [(-> & Hs & Hp & Hst)|(_ & _ & Hbig & _)]; [|unfold STACK_ITEM_SIZE, sizeof_UElement in Hbig; lia].
  assert (Hm' : zlen m' = count v) by (rewrite <- Hm; unfold zlen; by rewrite Hp). eexists. split; [done|].
  assert (Econt' : forall cap del cm dl, contents (mk (count v) cap (Some (m' ++ drop (Z.to_nat (count v)) cells)) del cm dl) = m').
  { intros. unfold contents, ztake. cbn. replace (Z.to_nat (count v)) with (length m') by (unfold zlen in *; lia). by rewrite take_app_length. }
  rewrite Econt'. split_and!; auto; [|intros ->; by apply Hst; left].
  eexists. split; [done|]. cbn [capacity count]. split; [|done]. unfold zlen in *. rewrite length_app, length_drop. lia.
Qed.
End Vectors.

(** ** The library's comparators *)

Lemma uint32_order : order uprv_uint32Comparator.
Proof.
  split; intros; unfold uprv_uint32Comparator in *; repeat (match goal with |- context [?x <? ?y] => destruct (Z.ltb_spec x y) | |- context [?x =? ?y] => destruct (Z.eqb_spec x y)
    | H : context [?x <? ?y] |- _ => destruct (Z.ltb_spec x y) | H : context [?x =? ?y] |- _ => destruct (Z.eqb_spec x y) end); lia.
Qed.

Lemma uint16_order : order uprv_uint16Comparator.
Proof. split; unfold uprv_uint16Comparator; intros; lia. Qed.

Lemma integers_order {A} : order (compare_integers (A := A)).
Proof.
  destruct uint32_order as [Ha Ht]. split; intros; unfold compare_integers, UVector.sortiComparator in *; unfold uprv_uint32Comparator in *; [apply Ha|eapply Ht; eauto].
Qed.

(** The difference of two 32-bit integers can overflow. *)
Example int32Comparator_overflows : uprv_int32Comparator INT32_MIN 1 = None.
Proof. reflexivity. Qed.

(** ** Examples *)

Section Examples.
#[local] Existing Instance big_heap.

Definition shuffled : list Z := [7; 3; 9; 1; 12; 5; 3; 8; 2; 11; 6; 10].

Lemma sortArray_sorts_witness :
  (exists m' st, uprv_sortArray uprv_uint32Comparator 4 (Some (shuffled ++ [0])) 12 false U_ZERO_ERROR = Some (Some (m' ++ [0]), st) /\
    (st = U_ZERO_ERROR /\ sorted uprv_uint32Comparator m' /\ m' ≡ₚ shuffled /\
       (false = true \/ 12 < MIN_QSORT -> forall x, filter (fun y => uprv_uint32Comparator x y = 0) m' = filter (fun y => uprv_uint32Comparator x y = 0) shuffled) \/
     st = U_MEMORY_ALLOCATION_ERROR /\ m' = shuffled /\ STACK_ITEM_SIZE < 4 /\ refused)) /\
  (forall (array : option (list Z)) n, n < 0 \/ 0 < n /\ array = None -> uprv_sortArray uprv_uint32Comparator 4 array n false U_ZERO_ERROR = Some (array, U_ILLEGAL_ARGUMENT_ERROR)).
Proof. apply (sortArray_sorts uprv_uint32Comparator 4 uint32_order ltac:(lia) shuffled [0] false). split; vm_compute; discriminate. Defined.

Example shuffled_sorted : uprv_sortArray uprv_uint32Comparator 4 (Some (shuffled ++ [0])) 12 false U_ZERO_ERROR = Some (Some [1; 2; 3; 3; 5; 6; 7; 8; 9; 10; 11; 12; 0], U_ZERO_ERROR).
Proof. vm_compute. reflexivity. Qed.

Lemma stableBinarySearch_last_witness :
  exists r, uprv_stableBinarySearch uprv_uint16Comparator 2 ([5] ++ [1; 1; 2; 3; 3; 3; 4; 5; 6; 7; 8; 9] ++ []) 1 12 3 = Some r /\
    (0 <= r -> (exists y, zget [1; 1; 2; 3; 3; 3; 4; 5; 6; 7; 8; 9] r = Some y /\ uprv_uint16Comparator 3 y = 0) /\
               forall i y, r < i -> zget [1; 1; 2; 3; 3; 3; 4; 5; 6; 7; 8; 9] i = Some y -> uprv_uint16Comparator 3 y < 0) /\
    (r < 0 -> (forall y, y ∈ [1; 1; 2; 3; 3; 3; 4; 5; 6; 7; 8; 9] -> uprv_uint16Comparator 3 y <> 0) /\
              (forall i y, i < Z.lnot r -> zget [1; 1; 2; 3; 3; 3; 4; 5; 6; 7; 8; 9] i = Some y -> uprv_uint16Comparator y 3 < 0) /\
              forall i y, Z.lnot r <= i -> zget [1; 1; 2; 3; 3; 3; 4; 5; 6; 7; 8; 9] i = Some y -> uprv_uint16Comparator 3 y < 0).
Proof.
  apply (stableBinarySearch_last uprv_uint16Comparator 2 uint16_order ltac:(lia) [5] [1; 1; 2; 3; 3; 3; 4; 5; 6; 7; 8; 9] [] 3).
  - repeat (constructor; [|repeat constructor; vm_compute; discriminate]). constructor.
  - split; vm_compute; discriminate.
Defined.

Definition numbers_vector : UVector.t unit := UVector.mk 10 16 (Some (map UVector.Int (shuffled ++ [0; 0; 0; 0]))) false None [].

Lemma vector_sorted_witness :
  (exists v', sort_vector numbers_vector compare_integers true U_ZERO_ERROR = Some (v', U_ZERO_ERROR) /\ UVector.wf v' /\ sorted compare_integers (UVector.contents v') /\
    UVector.contents v' ≡ₚ UVector.contents numbers_vector /\ UVector.capacity v' = 16 /\ UVector.deleted v' = [] /\
    (true = true -> forall x, filter (fun y => compare_integers x y = 0) (UVector.contents v') = filter (fun y => compare_integers x y = 0) (UVector.contents numbers_vector))) /\
  forall ec, U_FAILURE ec = true -> sort_vector numbers_vector compare_integers true ec = Some (numbers_vector, ec).
Proof.
  apply (vector_sorted numbers_vector compare_integers true integers_order). eexists. split; [reflexivity|]. split; [reflexivity|]. repeat split; vm_compute; discriminate.
Defined.
End Examples.
End SortFacts.
