(* ===== verification/Utf16.v ===== *)
(** * UTF-16 (common/unicode/utf.h, utf16.h)

    The macros that read, write and step over code points of 16-bit strings, safe against
    unpaired surrogates, and the theory of UTF-16 text the other components use.
    A string is the list of its code units; [None] is an access outside it. *)

From S2P Require Import Prelude.

Module Utf16.

(** ** Single units and code points *)

Definition U_IS_SURROGATE (c : Z) : bool := Z.land c 0xfffff800 =? 0xd800.
Definition U16_IS_SINGLE (c : Z) : bool := negb (U_IS_SURROGATE c).
Definition U16_IS_LEAD (c : Z) : bool := Z.land c 0xfffffc00 =? 0xd800.
Definition U16_IS_TRAIL (c : Z) : bool := Z.land c 0xfffffc00 =? 0xdc00.
Definition U16_IS_SURROGATE_LEAD (c : Z) : bool := Z.land c 0x400 =? 0.

Definition U16_SURROGATE_OFFSET : Z := Z.shiftl 0xd800 10 + 0xdc00 - 0x10000.
Definition U16_GET_SUPPLEMENTARY (lead trail : Z) : Z :=
  Z.shiftl lead 10 + trail - U16_SURROGATE_OFFSET.
Definition U16_LEAD (supplementary : Z) : Z := uint16 (Z.shiftr supplementary 10 + 0xd7c0).
Definition U16_TRAIL (supplementary : Z) : Z := uint16 (Z.lor (Z.land supplementary 0x3ff) 0xdc00).
Definition U16_LENGTH (c : Z) : Z := if uint32 c <=? 0xffff then 1 else 2.

(** ** Random access *)

Definition U16_GET (s : list Z) (start i length : Z) : option Z :=
  c ← zget s i;
  if U_IS_SURROGATE c then
    if U16_IS_SURROGATE_LEAD c then
      if negb (i + 1 =? length) then
        c2 ← zget s (i + 1);
        Some (if U16_IS_TRAIL c2 then U16_GET_SUPPLEMENTARY c c2 else c)
      else Some c
    else if start <? i then
      c2 ← zget s (i - 1);
      Some (if U16_IS_LEAD c2 then U16_GET_SUPPLEMENTARY c2 c else c)
    else Some c
  else Some c.

Definition U16_SET_CP_START (s : list Z) (start i : Z) : option Z :=
  c ← zget s i;
  if U16_IS_TRAIL c && (start <? i) then
    c2 ← zget s (i - 1); Some (if U16_IS_LEAD c2 then i - 1 else i)
  else Some i.

Definition U16_SET_CP_LIMIT (s : list Z) (start i length : Z) : option Z :=
  if (start <? i) && ((i <? length) || (length <? 0)) then
    c2 ← zget s (i - 1);
    if U16_IS_LEAD c2 then c ← zget s i; Some (if U16_IS_TRAIL c then i + 1 else i)
    else Some i
  else Some i.

(** ** Forward iteration: the code point and the next offset *)

Definition U16_NEXT (s : list Z) (i length : Z) : option (Z * Z) :=
  c ← zget s i;
  let i := i + 1 in
  if U16_IS_LEAD c && negb (i =? length) then
    c2 ← zget s i;
    if U16_IS_TRAIL c2 then Some (U16_GET_SUPPLEMENTARY c c2, i + 1) else Some (c, i)
  else Some (c, i).

Definition U16_FWD_1 (s : list Z) (i length : Z) : option Z :=
  c ← zget s i;
  let i := i + 1 in
  if U16_IS_LEAD c && negb (i =? length) then
    c2 ← zget s i; Some (if U16_IS_TRAIL c2 then i + 1 else i)
  else Some i.

Fixpoint U16_FWD_N_loop (n : nat) (s : list Z) (i length : Z) : option Z :=
  match n with
  | O => Some i
  | S n =>
      more ← (if i <? length then Some true
              else if length <? 0 then c ← zget s i; Some (negb (c =? 0)) else Some false);
      if (more : bool) then i ← U16_FWD_1 s i length; U16_FWD_N_loop n s i length else Some i
  end.

Definition U16_FWD_N (s : list Z) (i length n : Z) : option Z :=
  U16_FWD_N_loop (Z.to_nat n) s i length.

(** ** Backward iteration: the code point and its offset *)

Definition U16_PREV (s : list Z) (start i : Z) : option (Z * Z) :=
  let i := i - 1 in
  c ← zget s i;
  if U16_IS_TRAIL c && (start <? i) then
    c2 ← zget s (i - 1);
    if U16_IS_LEAD c2 then Some (U16_GET_SUPPLEMENTARY c2 c, i - 1) else Some (c, i)
  else Some (c, i).

Definition U16_BACK_1 (s : list Z) (start i : Z) : option Z :=
  let i := i - 1 in
  c ← zget s i;
  if U16_IS_TRAIL c && (start <? i) then
    c2 ← zget s (i - 1); Some (if U16_IS_LEAD c2 then i - 1 else i)
  else Some i.

Fixpoint U16_BACK_N_loop (n : nat) (s : list Z) (start i : Z) : option Z :=
  match n with
  | O => Some i
  | S n => if start <? i then i ← U16_BACK_1 s start i; U16_BACK_N_loop n s start i else Some i
  end.

Definition U16_BACK_N (s : list Z) (start i n : Z) : option Z :=
  U16_BACK_N_loop (Z.to_nat n) s start i.

(** ** Writing: the buffer, the next offset and whether there was an error *)

Definition U16_APPEND (s : list Z) (i capacity c : Z) : option (list Z * Z * bool) :=
  if uint32 c <=? 0xffff then
    s ← zset s i (uint16 c); Some (s, i + 1, false)
  else if (uint32 c <=? 0x10ffff) && (i + 1 <? capacity) then
    s ← zset s i (uint16 (Z.shiftr c 10 + 0xd7c0));
    s ← zset s (i + 1) (uint16 (Z.lor (Z.land c 0x3ff) 0xdc00));
    Some (s, i + 2, false)
  else Some (s, i, true).

(** ** The theory of UTF-16 text *)

Definition unit16 (x : Z) : Prop := 0 <= x <= 0xffff.
Definition code_point (c : Z) : Prop := 0 <= c <= 0x10ffff.

(** Whether [l t] is a surrogate pair. *)
Definition is_pair (l t : Z) : bool := U16_IS_LEAD l && U16_IS_TRAIL t.

(** The code points of a 16-bit string, unpaired surrogates standing for themselves. *)
Fixpoint code_points (u : list Z) : list Z :=
  match u with
  | [] => []
  | x :: u' =>
      match u' with
      | [] => [x]
      | y :: u'' =>
          if is_pair x y then U16_GET_SUPPLEMENTARY x y :: code_points u''
          else x :: code_points u'
      end
  end.

(** The units of a code point. *)
Definition encode (c : Z) : list Z := if c <=? 0xffff then [c] else [U16_LEAD c; U16_TRAIL c].

Lemma lead_range c : 0 <= c < 2 ^ 32 -> U16_IS_LEAD c = true <-> 0xd800 <= c <= 0xdbff.
Proof.
  intros Hc. unfold U16_IS_LEAD. change 0xfffffc00 with (Z.shiftl (Z.ones 22) 10).
  rewrite land_high by lia. change (2 ^ 10) with 1024. rewrite Z.eqb_eq. dlia.
Qed.

Lemma trail_range c : 0 <= c < 2 ^ 32 -> U16_IS_TRAIL c = true <-> 0xdc00 <= c <= 0xdfff.
Proof.
  intros Hc. unfold U16_IS_TRAIL. change 0xfffffc00 with (Z.shiftl (Z.ones 22) 10).
  rewrite land_high by lia. change (2 ^ 10) with 1024. rewrite Z.eqb_eq. dlia.
Qed.

Lemma surrogate_range c : 0 <= c < 2 ^ 32 -> U_IS_SURROGATE c = true <-> 0xd800 <= c <= 0xdfff.
Proof.
  intros Hc. unfold U_IS_SURROGATE. change 0xfffff800 with (Z.shiftl (Z.ones 21) 11).
  rewrite land_high by lia. change (2 ^ 11) with 2048. rewrite Z.eqb_eq. dlia.
Qed.

Lemma surrogate_lead c : 0xd800 <= c <= 0xdfff -> U16_IS_SURROGATE_LEAD c = U16_IS_LEAD c.
Proof.
  intros Hc. apply eq_true_iff_eq. rewrite lead_range by lia. unfold U16_IS_SURROGATE_LEAD.
  change 0x400 with (2 ^ 10). rewrite Z.eqb_eq.
  assert (Hb : Z.land c (2 ^ 10) = Z.b2z (Z.testbit c 10) * 2 ^ 10).
  { apply Z.bits_inj'. intros k Hk. rewrite Z.land_spec, Z.pow2_bits_eqb, Z.mul_pow2_bits by lia.
    destruct (Z.eqb_spec 10 k) as [<-|].
    - destruct (Z.testbit c 10); done.
    - rewrite andb_false_r. destruct (Z.ltb_spec k 10); [by rewrite Z.testbit_neg_r by lia|].
      destruct (Z.testbit c 10); [|by rewrite Z.bits_0].
      change (Z.b2z true) with (2 ^ 0). rewrite Z.pow2_bits_false by lia. done. }
  rewrite Hb. rewrite Z.testbit_spec' by lia. change (2 ^ 10) with 1024. dlia.
Qed.

Lemma supplementary_value l t : U16_GET_SUPPLEMENTARY l t = (l - 0xd800) * 1024 + (t - 0xdc00) + 0x10000.
Proof.
  unfold U16_GET_SUPPLEMENTARY, U16_SURROGATE_OFFSET. rewrite !Z.shiftl_mul_pow2 by lia.
  change (2 ^ 10) with 1024. lia.
Qed.

Lemma is_pair_range l t :
  unit16 l -> unit16 t -> is_pair l t = true <-> 0xd800 <= l <= 0xdbff /\ 0xdc00 <= t <= 0xdfff.
Proof.
  unfold unit16, is_pair. intros. rewrite andb_true_iff, lead_range, trail_range by lia. done.
Qed.

Lemma lead_value c : 0x10000 <= c <= 0x10ffff -> U16_LEAD c = 0xd800 + (c - 0x10000) / 1024.
Proof.
  intros. unfold U16_LEAD, uint16. rewrite Z.shiftr_div_pow2 by lia. change (2 ^ 10) with 1024.
  rewrite Z.mod_small; dlia.
Qed.

Lemma trail_value c : 0x10000 <= c <= 0x10ffff -> U16_TRAIL c = 0xdc00 + (c - 0x10000) mod 1024.
Proof.
  intros. unfold U16_TRAIL, uint16. rewrite Z.lor_comm.
  change 0x3ff with (Z.ones 10). rewrite land_low by lia.
  change 0xdc00 with (55 * 2 ^ 10) at 1. rewrite lor_disjoint by (lia || apply Z.mod_pos_bound; lia). change (2 ^ 10) with 1024.
  rewrite Z.mod_small; dlia.
Qed.

(** A pair of surrogates and the supplementary code point determine each other. *)
Lemma encode_supplementary l t :
  unit16 l -> unit16 t -> is_pair l t = true ->
  0x10000 <= U16_GET_SUPPLEMENTARY l t <= 0x10ffff /\ encode (U16_GET_SUPPLEMENTARY l t) = [l; t].
Proof.
  intros Hl Ht Hp. apply is_pair_range in Hp; [|done..]. rewrite supplementary_value.
  split; [lia|]. unfold encode. zcase; [lia|]. rewrite lead_value, trail_value by lia.
  f_equal; [|f_equal]; dlia.
Qed.

Lemma encode_unit x : unit16 x -> encode x = [x].
Proof. unfold unit16, encode. intros. zcase; [done|lia]. Qed.

Lemma encode_units c : code_point c -> Forall unit16 (encode c).
Proof.
  unfold code_point, encode. intros. zcase.
  - repeat constructor; unfold unit16; lia.
  - rewrite lead_value, trail_value by lia. repeat constructor; unfold unit16; dlia.
Qed.

Lemma encode_pair c :
  0x10000 <= c <= 0x10ffff ->
  is_pair (U16_LEAD c) (U16_TRAIL c) = true /\ U16_GET_SUPPLEMENTARY (U16_LEAD c) (U16_TRAIL c) = c.
Proof.
  intros. rewrite supplementary_value, lead_value, trail_value by lia. split; [|dlia].
  apply is_pair_range; unfold unit16; dlia.
Qed.

Lemma encode_zlen c : code_point c -> zlen (encode c) = U16_LENGTH c.
Proof.
  unfold code_point, encode, U16_LENGTH, uint32. intros. rewrite Z.mod_small by lia. by zcase.
Qed.

(** *** Splitting text at its first or last code point *)

Lemma code_points_cons x u :
  Forall unit16 (x :: u) ->
  exists c w u', x :: u = w ++ u' /\ w = encode c /\ code_points (x :: u) = c :: code_points u' /\
    code_point c /\
    match u with y :: _ => if is_pair x y then c = U16_GET_SUPPLEMENTARY x y else c = x
               | [] => c = x end.
Proof.
  intros Hu. apply Forall_cons in Hu as [Hx Hu].
  assert (Hs : encode x = [x]) by (apply encode_unit; done).
  destruct u as [|y u].
  - exists x, [x], []. split_and!; auto. unfold unit16 in Hx. unfold code_point. lia.
  - apply Forall_cons in Hu as [Hy Hu]. simpl. destruct (is_pair x y) eqn:Hp.
    + destruct (encode_supplementary x y) as [Hr He]; auto.
      eexists _, [x; y], u. split_and!; eauto. unfold code_point. lia.
    + exists x, [x], (y :: u). split_and!; auto. unfold unit16 in Hx. unfold code_point. lia.
Qed.

Lemma code_points_ind (P : list Z -> Prop) :
  P [] -> (forall x, P [x]) ->
  (forall x y u, is_pair x y = true -> P u -> P (x :: y :: u)) ->
  (forall x y u, is_pair x y = false -> P (y :: u) -> P (x :: y :: u)) ->
  forall u, P u.
Proof.
  intros H0 H1 Hp Hn u. remember (length u) as n eqn:Hl. assert (length u <= n)%nat as Hle by lia.
  clear Hl. revert u Hle. induction n as [|n IH]; intros u Hle.
  - destruct u; [done|simpl in *; lia].
  - destruct u as [|x [|y u]]; [done|apply H1|]. simpl in Hle.
    destruct (is_pair x y) eqn:E; [apply Hp|apply Hn]; auto; apply IH; simpl; lia.
Qed.

Lemma lead_not_trail x : unit16 x -> U16_IS_LEAD x = true -> U16_IS_TRAIL x = false.
Proof.
  intros Hx Hl. apply not_true_iff_false. rewrite trail_range by (unfold unit16 in Hx; lia).
  apply lead_range in Hl; unfold unit16 in Hx; lia.
Qed.

Lemma code_points_snoc_pair u l t :
  Forall unit16 u -> unit16 l -> is_pair l t = true ->
  code_points (u ++ [l; t]) = code_points u ++ [U16_GET_SUPPLEMENTARY l t].
Proof.
  intros Hu Hlu Hp. revert Hu. induction u as [|x|x y u E IH|x y u E IH] using code_points_ind; intros Hu.
  - simpl. by rewrite Hp.
  - simpl. assert (is_pair x l = false) as ->.
    { apply andb_true_iff in Hp as [Hl _]. unfold is_pair. rewrite lead_not_trail by done.
      apply andb_false_r. }
    by rewrite Hp.
  - simpl. rewrite E. rewrite IH; [done|]. by apply Forall_cons in Hu as [_ [_ ?]%Forall_cons].
  - apply Forall_cons in Hu as [_ Hu]. specialize (IH Hu). simpl in *. rewrite E. by rewrite IH.
Qed.

Lemma code_points_snoc_single u x :
  (forall l, last u = Some l -> is_pair l x = false) ->
  code_points (u ++ [x]) = code_points u ++ [x].
Proof.
  induction u as [|y|y z u E IH|y z u E IH] using code_points_ind; intros Hlast.
  - done.
  - simpl. by rewrite (Hlast y).
  - simpl. rewrite E, IH; [done|]. intros l Hl. apply Hlast. destruct u; done.
  - specialize (IH Hlast). simpl in *. rewrite E. by rewrite IH.
Qed.

Lemma code_points_valid u : Forall unit16 u -> Forall code_point (code_points u).
Proof.
  induction u as [|x|x y u E IH|x y u E IH] using code_points_ind; intros Hu; simpl.
  - done.
  - inversion_clear Hu. constructor; [|done]. unfold unit16, code_point in *. lia.
  - rewrite E. apply Forall_cons in Hu as [? [? ?]%Forall_cons]. constructor; [|auto].
    destruct (encode_supplementary x y); auto. unfold code_point. lia.
  - rewrite E. apply Forall_cons in Hu as [? ?]. constructor; [|auto].
    unfold unit16, code_point in *. lia.
Qed.

(** Encoding the code points gives the text back, unpaired surrogates included. *)
Lemma encode_code_points u : Forall unit16 u -> concat (map encode (code_points u)) = u.
Proof.
  induction u as [|x|x y u E IH|x y u E IH] using code_points_ind; intros Hu; simpl.
  - done.
  - inversion_clear Hu. unfold unit16, encode in *. zcase; [done|lia].
  - rewrite E. apply Forall_cons in Hu as [? [? ?]%Forall_cons]. simpl.
    destruct (encode_supplementary x y) as [_ ->]; auto. simpl. by rewrite IH.
  - rewrite E. apply Forall_cons in Hu as [Hx Hu]. specialize (IH Hu). simpl in *. rewrite IH.
    unfold unit16, encode in *. zcase; [done|lia].
Qed.

(** The code point that starts with the unit [x], before [a]. *)
Definition first_cp (x : Z) (a : list Z) : Z :=
  match a with y :: _ => if is_pair x y then U16_GET_SUPPLEMENTARY x y else x | [] => x end.

Definition pairs_with (x : Z) (a : list Z) : bool :=
  match a with y :: _ => is_pair x y | [] => false end.

Lemma code_points_first x a : exists r, code_points (x :: a) = first_cp x a :: r.
Proof. destruct a as [|y a]; simpl; [eauto|]. destruct (is_pair x y); eauto. Qed.

Lemma first_cp_range x a :
  unit16 x -> Forall unit16 a ->
  if pairs_with x a
  then 0xd800 <= x <= 0xdbff /\
       0x10000 + (x - 0xd800) * 1024 <= first_cp x a < 0x10000 + (x - 0xd800) * 1024 + 1024
  else first_cp x a = x.
Proof.
  intros Hx Ha. destruct a as [|y a]; [done|]. simpl. destruct (is_pair x y) eqn:E; [|done].
  apply Forall_cons in Ha as [Hy _]. apply is_pair_range in E; [|done..].
  rewrite supplementary_value. lia.
Qed.

Lemma pairs_with_inv x u :
  pairs_with x u = true -> exists y u', u = y :: u' /\ code_points (x :: u) =
    U16_GET_SUPPLEMENTARY x y :: code_points u'.
Proof. destruct u as [|y u]; [done|]. simpl. intros ->. eauto. Qed.

Lemma pairs_with_false x u : pairs_with x u = false -> code_points (x :: u) = x :: code_points u.
Proof. destruct u as [|y u]; [done|]. simpl. by intros ->. Qed.

(** *** The macros on text *)

Lemma U16_NEXT_first p x u :
  U16_NEXT (p ++ x :: u) (zlen p) (zlen (p ++ x :: u)) =
    match u with
    | y :: _ => if is_pair x y then Some (U16_GET_SUPPLEMENTARY x y, zlen p + 2)
                else Some (x, zlen p + 1)
    | [] => Some (x, zlen p + 1)
    end.
Proof.
  unfold U16_NEXT. rewrite zget_middle. simpl. rewrite zlen_app, zlen_cons.
  destruct u as [|y u].
  - rewrite zlen_nil. simpl. rewrite Z.eqb_refl. by rewrite andb_false_r.
  - rewrite zlen_cons. pose proof (zlen_nonneg u). zcase; [lia|]. rewrite andb_true_r.
    rewrite zget_app_r by lia. replace (zlen p + 1 - zlen p) with 1 by lia.
    unfold is_pair. destruct (U16_IS_LEAD x); [|done]. simpl.
    destruct (U16_IS_TRAIL y); [|done]. do 2 f_equal. lia.
Qed.

(** [U16_NEXT] returns the first code point of the rest and steps over its units. *)
Lemma U16_NEXT_step p x u :
  Forall unit16 (x :: u) ->
  exists c u', x :: u = encode c ++ u' /\ code_points (x :: u) = c :: code_points u' /\
    code_point c /\ U16_NEXT (p ++ x :: u) (zlen p) (zlen (p ++ x :: u)) = Some (c, zlen p + zlen (encode c)).
Proof.
  intros Hu. rewrite U16_NEXT_first. pose proof (code_points_cons x u Hu) as (c & w & u' & E & -> & Hc & Hcp & Hm).
  exists c, u'. split_and!; auto. apply Forall_cons in Hu as [Hx Hu]. destruct u as [|y u].
  - subst c. by rewrite encode_unit.
  - apply Forall_cons in Hu as [Hy _]. destruct (is_pair x y) eqn:Hp; subst c.
    + by rewrite (proj2 (encode_supplementary x y Hx Hy Hp)).
    + by rewrite encode_unit.
Qed.

(** [U16_PREV] returns the last code point before the offset and steps back over its units. *)
Lemma U16_PREV_step u st :
  Forall unit16 u -> u <> [] ->
  exists c u', u = u' ++ encode c /\ code_points u = code_points u' ++ [c] /\ code_point c /\
    U16_PREV (u ++ st) 0 (zlen u) = Some (c, zlen u').
Proof.
  intros Hu Hne. destruct u as [|t u0 _] using rev_ind; [done|]. clear Hne.
  apply Forall_app in Hu as [Hu Ht]. apply Forall_cons in Ht as [Ht _].
  unfold U16_PREV. rewrite zlen_app. change (zlen [t]) with 1.
  replace (zlen u0 + 1 - 1) with (zlen u0) by lia. rewrite <- app_assoc. simpl. rewrite zget_middle.
  simpl. assert (Hcp : code_point t) by (unfold unit16, code_point in *; lia).
  destruct u0 as [|l u0 _] using rev_ind.
  - simpl. rewrite andb_false_r. exists t, []. by rewrite encode_unit.
  - apply Forall_app in Hu as [Hu Hl]. apply Forall_cons in Hl as [Hl _].
    rewrite zlen_app. change (zlen [l]) with 1. pose proof (zlen_nonneg u0).
    destruct (Z.ltb_spec 0 (zlen u0 + 1)); [|lia]. rewrite andb_true_r.
    replace (zlen u0 + 1 - 1) with (zlen u0) by lia.
    replace (zget ((u0 ++ [l]) ++ t :: st) (zlen u0)) with (Some l)
      by (rewrite <- app_assoc; symmetry; apply zget_middle).
    destruct (is_pair l t) eqn:Hp.
    + pose proof Hp as [El Et]%andb_true_iff. rewrite Et. simpl. rewrite El.
      destruct (encode_supplementary l t) as [Hr He]; auto.
      exists (U16_GET_SUPPLEMENTARY l t), u0. rewrite He, <- app_assoc. simpl. rewrite code_points_snoc_pair by done.
      split_and!; auto. unfold code_point. lia.
    + assert (U16_IS_TRAIL t && U16_IS_LEAD l = false) as Hf by (by rewrite andb_comm).
      assert (Hlast : code_points ((u0 ++ [l]) ++ [t]) = code_points (u0 ++ [l]) ++ [t]).
      { apply code_points_snoc_single. intros ? E. rewrite last_snoc in E. by simplify_eq. }
      exists t, (u0 ++ [l]). rewrite encode_unit by done. split_and!; auto.
      rewrite zlen_app. change (zlen [l]) with 1.
      destruct (U16_IS_TRAIL t); [|done]. simpl in *. by rewrite Hf.
Qed.

(** Offset [zlen p] of [p ++ u] does not fall inside a surrogate pair. *)
Definition boundary (p u : list Z) : Prop :=
  forall l t, last p = Some l -> head u = Some t -> is_pair l t = false.

Lemma boundary_next p x u c u' :
  Forall unit16 (x :: u) -> x :: u = encode c ++ u' ->
  code_points (x :: u) = c :: code_points u' -> boundary (p ++ encode c) u'.
Proof.
  intros Hu E Hc l t Hl Ht. destruct u' as [|t' u']; simplify_eq/=.
  apply Forall_cons in Hu as [Hx Hu]. unfold encode in E. destruct (Z.leb_spec c 0xffff) as [Hle|Hgt].
  - simpl in E. simplify_eq. assert (last (p ++ encode c) = Some c) as Hlc.
    { rewrite encode_unit by done. apply last_snoc. }
    rewrite Hlc in Hl. simplify_eq. simpl in Hc. destruct (is_pair l t) eqn:Hp; [|done].
    apply Forall_cons in Hu as [Ht _]. destruct (encode_supplementary l t) as [Hr _]; auto.
    injection Hc as Hc _. lia.
  - simpl in E. simplify_eq. assert (last (p ++ encode c) = Some (U16_TRAIL c)) as Hlc.
    { unfold encode. zcase; [lia|]. change [U16_LEAD c; U16_TRAIL c] with ([U16_LEAD c] ++ [U16_TRAIL c]).
      rewrite app_assoc. apply last_snoc. }
    rewrite Hlc in Hl. simplify_eq. apply Forall_cons in Hu as [Htr _].
    unfold is_pair. apply andb_false_iff. left. apply not_true_iff_false. intros Hlead.
    assert (Hcc : code_points (U16_LEAD c :: U16_TRAIL c :: t :: u') = c :: code_points (t :: u')) by done.
    simpl in Hcc. destruct (is_pair (U16_LEAD c) (U16_TRAIL c)) eqn:Hp.
    + apply andb_true_iff in Hp as [_ Hp]. by rewrite lead_not_trail in Hp.
    + injection Hcc as Hcc _. unfold unit16 in *. lia.
Qed.

(** [U16_GET] at a boundary agrees with [U16_NEXT]. *)
Lemma U16_GET_boundary p x u :
  Forall unit16 (x :: u) -> Forall unit16 p -> boundary p (x :: u) ->
  U16_GET (p ++ x :: u) 0 (zlen p) (zlen (p ++ x :: u)) =
    option_map fst (U16_NEXT (p ++ x :: u) (zlen p) (zlen (p ++ x :: u))).
Proof.
  intros Hu Hp Hb. rewrite U16_NEXT_first. unfold U16_GET. rewrite zget_middle. simpl.
  apply Forall_cons in Hu as [Hx Hu]. unfold unit16 in Hx.
  destruct (U_IS_SURROGATE x) eqn:Hs.
  - apply surrogate_range in Hs; [|lia]. rewrite surrogate_lead by done.
    destruct (U16_IS_LEAD x) eqn:Hl.
    + destruct u as [|y u]; rewrite zlen_app, !zlen_cons; [rewrite zlen_nil|pose proof (zlen_nonneg u)];
        zcase; try lia; simpl; [done|]. rewrite zget_app_r by lia.
      replace (zlen p + 1 - zlen p) with 1 by lia. simpl. unfold is_pair. rewrite Hl. simpl.
      by destruct (U16_IS_TRAIL y).
    + assert (Hnp : forall y, is_pair x y = false) by (intros; unfold is_pair; by rewrite Hl).
      transitivity (Some x); [|destruct u as [|y u]; [|rewrite Hnp]; done].
      destruct p as [|l p _] using rev_ind; [done|]. rewrite zlen_app. change (zlen [l]) with 1.
      pose proof (zlen_nonneg p). zcase; [|lia]. replace (zlen p + 1 - 1) with (zlen p) by lia.
      rewrite <- app_assoc. simpl. rewrite zget_middle. simpl.
      assert (is_pair l x = false) as Hf by (apply Hb; [apply last_snoc|done]).
      unfold is_pair in Hf. destruct (U16_IS_LEAD l); [|done]. simpl in Hf.
      apply not_true_iff_false in Hl, Hf. rewrite lead_range in Hl by lia. rewrite trail_range in Hf by lia.
      lia.
  - assert (Hl : U16_IS_LEAD x = false).
    { apply not_true_iff_false in Hs. apply not_true_iff_false. rewrite lead_range by lia.
      rewrite surrogate_range in Hs by lia. lia. }
    destruct u; [done|]. unfold is_pair. by rewrite Hl.
Qed.

(** ** Iterating over text *)

(** [while(i<length) { U16_NEXT(s, i, length, c); ... }] *)
Fixpoint collect_next (fuel : nat) (s : list Z) (i length : Z) : option (list Z) :=
  match fuel with
  | O => None
  | S fuel =>
      if i <? length
      then '(c, i) ← U16_NEXT s i length; cs ← collect_next fuel s i length; Some (c :: cs)
      else Some []
  end.

(** [while(i>0) { U16_PREV(s, 0, i, c); ... }] *)
Fixpoint collect_prev (fuel : nat) (s : list Z) (i : Z) : option (list Z) :=
  match fuel with
  | O => None
  | S fuel =>
      if 0 <? i
      then '(c, i) ← U16_PREV s 0 i; cs ← collect_prev fuel s i; Some (c :: cs)
      else Some []
  end.

(** [U16_APPEND] for each code point; [None] on an error. *)
Fixpoint append_all (s : list Z) (i capacity : Z) (cs : list Z) : option (list Z * Z) :=
  match cs with
  | [] => Some (s, i)
  | c :: cs =>
      '(s, i, isError) ← U16_APPEND s i capacity c;
      if (isError : bool) then None else append_all s i capacity cs
  end.

Lemma encode_nonempty c : 0 < zlen (encode c).
Proof. unfold encode. by zcase. Qed.

Lemma collect_next_spec p u fuel :
  Forall unit16 u -> zlen u < Z.of_nat fuel ->
  collect_next fuel (p ++ u) (zlen p) (zlen (p ++ u)) = Some (code_points u).
Proof.
  revert p u. induction fuel as [|fuel IH]; intros p u Hu Hf; [pose proof (zlen_nonneg u); lia|].
  destruct u as [|x u].
  - simpl. rewrite app_nil_r, Z.ltb_irrefl. done.
  - cbn [collect_next]. destruct (Z.ltb_spec (zlen p) (zlen (p ++ x :: u))).
    2:{ rewrite zlen_app, zlen_cons in *. pose proof (zlen_nonneg u). lia. }
    destruct (U16_NEXT_step p x u Hu) as (c & u' & E & Hc & Hcp & ->). rewrite Hc. cbn.
    pose proof (encode_nonempty c).
    rewrite E in *. rewrite app_assoc, <- zlen_app. rewrite IH; [done| |].
    + by apply Forall_app in Hu as [_ ?].
    + rewrite zlen_app in Hf. lia.
Qed.

Lemma collect_prev_spec u st fuel :
  Forall unit16 u -> zlen u < Z.of_nat fuel ->
  collect_prev fuel (u ++ st) (zlen u) = Some (rev (code_points u)).
Proof.
  revert u st. induction fuel as [|fuel IH]; intros u st Hu Hf; [pose proof (zlen_nonneg u); lia|].
  cbn [collect_prev]. destruct (Z.ltb_spec 0 (zlen u)) as [Hpos|Hz].
  - destruct (U16_PREV_step u st Hu) as (c & u' & E & Hc & Hcp & ->).
    { intros ->. done. }
    rewrite Hc, rev_app_distr. cbn. pose proof (encode_nonempty c). subst u.
    rewrite <- app_assoc, IH; [done| |].
    + by apply Forall_app in Hu as [? _].
    + rewrite zlen_app in Hf. lia.
  - destruct u; [done|]. rewrite zlen_cons in Hz. pose proof (zlen_nonneg u). lia.
Qed.

Lemma U16_APPEND_step done_ old rest c :
  code_point c -> zlen old = zlen (encode c) ->
  U16_APPEND (done_ ++ old ++ rest) (zlen done_) (zlen (done_ ++ old ++ rest)) c =
    Some (done_ ++ encode c ++ rest, zlen (done_ ++ encode c), false).
Proof.
  unfold code_point, U16_APPEND, uint32. intros Hc Hl. rewrite Z.mod_small by lia.
  unfold encode in *. pose proof (zlen_nonneg rest). pose proof (zlen_nonneg done_).
  destruct (Z.leb_spec c 0xffff).
  - apply zlen_1_inv in Hl as [o ->].
    rewrite zset_in by (unfold zlen; rewrite !length_app; simpl; lia).
    cbn [mbind option_bind app]. rewrite insert_zlen, zlen_app.
    unfold uint16. by rewrite Z.mod_small by lia.
  - apply zlen_2_inv in Hl as (o & o' & ->). cbn [app].
    rewrite !zlen_app, !zlen_cons. zcase; [|lia]. zcase; [|lia]. cbn [andb].
    rewrite zset_in by (unfold zlen; rewrite !length_app; simpl; lia).
    cbn [mbind option_bind]. rewrite insert_zlen.
    rewrite zset_in by (unfold zlen; rewrite !length_app; simpl; lia).
    cbn [mbind option_bind]. replace (zlen done_ + 1) with (zlen (done_ ++ [uint16 (Z.shiftr c 10 + 0xd7c0)]))
      by (rewrite zlen_app; done).
    rewrite (cons_middle _ done_ (o' :: rest)), app_assoc, insert_zlen, <- app_assoc. done.
Qed.

Lemma append_all_spec done_ old cs :
  Forall code_point cs -> zlen old = zlen (concat (map encode cs)) ->
  append_all (done_ ++ old) (zlen done_) (zlen (done_ ++ old)) cs =
    Some (done_ ++ concat (map encode cs), zlen (done_ ++ concat (map encode cs))).
Proof.
  revert done_ old. induction cs as [|c cs IH]; intros done_ old Hcs Hl; cbn [append_all map concat] in *.
  - destruct old; [by rewrite !app_nil_r|]. rewrite zlen_cons in Hl. pose proof (zlen_nonneg old).
    change (zlen []) with 0 in Hl. lia.
  - apply Forall_cons in Hcs as [Hc Hcs]. rewrite zlen_app in Hl.
    set (n := length (encode c)). rewrite <- (take_drop n old) in *.
    assert (zlen (take n old) = zlen (encode c)) as Hn.
    { rewrite take_drop in Hl. unfold zlen in *. rewrite length_take. lia. }
    rewrite U16_APPEND_step by done. cbn.
    rewrite app_assoc. replace (zlen (done_ ++ take n old ++ drop n old))
      with (zlen ((done_ ++ encode c) ++ drop n old)) by (rewrite !zlen_app; lia).
    rewrite IH; auto.
    + by rewrite <- app_assoc.
    + rewrite zlen_app in Hl. lia.
Qed.

(** C36: on every 16-bit string, well-formed or not, [U16_NEXT] from the start and
    [U16_PREV] from the end visit the same code points (in opposite order), all of them in
    0..10FFFF, within bounds and in at most one step per unit; and [U16_APPEND] of these code
    points to a buffer of the string's length restores the string exactly. *)
Theorem utf16_iteration_roundtrip u buffer :
  Forall unit16 u -> zlen buffer = zlen u ->
  exists cs, Forall code_point cs /\
    collect_next (S (length u)) u 0 (zlen u) = Some cs /\
    collect_prev (S (length u)) u (zlen u) = Some (rev cs) /\
    append_all buffer 0 (zlen buffer) cs = Some (u, zlen u).
Proof.
  intros Hu Hb. exists (code_points u). split_and!.
  - by apply code_points_valid.
  - apply (collect_next_spec [] u); auto. unfold zlen. lia.
  - rewrite <- (app_nil_r u) at 2. apply collect_prev_spec; auto. unfold zlen. lia.
  - pose proof (append_all_spec [] buffer (code_points u)) as E. simpl in E.
    rewrite encode_code_points in E by done. apply E; auto. by apply code_points_valid.
Qed.

Lemma utf16_iteration_roundtrip_witness :
  exists cs, Forall code_point cs /\
    collect_next 5 [0x61; 0xd83d; 0xde00; 0xd800] 0 4 = Some cs /\
    collect_prev 5 [0x61; 0xd83d; 0xde00; 0xd800] 4 = Some (rev cs) /\
    append_all [0; 0; 0; 0] 0 4 cs = Some ([0x61; 0xd83d; 0xde00; 0xd800], 4).
Proof.
  apply (utf16_iteration_roundtrip [0x61; 0xd83d; 0xde00; 0xd800] [0; 0; 0; 0]).
  - repeat constructor; unfold unit16; lia.
  - reflexivity.
Defined.

End Utf16.
