(* ===== verification/Utf8.v ===== *)
(** * UTF-8 (common/unicode/utf8.h, common/utf_impl.c)

    The macros and functions that read, write and step over code points of 8-bit strings, safe
    against every ill-formed sequence of bytes, and the theory of UTF-8 text behind them: any
    sequence of bytes falls into pieces in one way, and both directions of iteration follow it.
    A string is the list of its bytes; [None] is an access outside it. *)

From S2P Require Import Prelude Utf16.

Module Utf8.
Import Utf16.

(** ** Bytes *)

(** [utf8_countTrailBytes] *)
Definition utf8_countTrailBytes : list Z :=
  replicate 0xc0 0 ++ replicate 0x20 1 ++ replicate 0x10 2 ++ replicate 8 3 ++ replicate 4 4 ++
  replicate 2 5 ++ replicate 2 0.

Definition U8_COUNT_TRAIL_BYTES (leadByte : Z) : Z :=
  let b := uint8 leadByte in
  if b <? 0xf0 then Z.b2z (0xc0 <=? b) + Z.b2z (0xe0 <=? b)
  else if b <? 0xfe then 3 + Z.b2z (0xf8 <=? b) + Z.b2z (0xfc <=? b) else 0.

Definition U8_MASK_LEAD_BYTE (leadByte countTrailBytes : Z) : Z :=
  Z.land leadByte (Z.shiftl 1 (6 - countTrailBytes) - 1).

Definition U8_IS_SINGLE (c : Z) : bool := Z.land c 0x80 =? 0.
Definition U8_IS_LEAD (c : Z) : bool := uint8 (c - 0xc0) <? 0x3e.
Definition U8_IS_TRAIL (c : Z) : bool := Z.land c 0xc0 =? 0x80.

Definition U8_LENGTH (c : Z) : Z :=
  let c := uint32 c in
  if c <=? 0x7f then 1 else if c <=? 0x7ff then 2 else if c <=? 0xd7ff then 3
  else if (c <=? 0xdfff) || (0x10ffff <? c) then 0 else if c <=? 0xffff then 3 else 4.

(** [U_IS_UNICODE_NONCHAR] (utf.h) *)
Definition U_IS_UNICODE_NONCHAR (c : Z) : bool :=
  (0xfdd0 <=? c) && ((uint32 c <=? 0xfdef) || (Z.land c 0xfffe =? 0xfffe)) && (uint32 c <=? 0x10ffff).

Definition U_SENTINEL : Z := -1.
Definition utf8_minLegal : list Z := [0; 0x80; 0x800; 0x10000].
Definition utf8_errorValue : list Z := [0x15; 0x9f; 0xffff; 0x10ffff; 0x3ffffff; 0x7fffffff].

Definition errorValue (count strict : Z) : option Z :=
  if 0 <=? strict then zget utf8_errorValue count
  else if strict =? -3 then Some 0xfffd else Some U_SENTINEL.

(** ** The bodies of the reading macros (utf_impl.c)

    The [switch] of [utf8_nextCharSafeBody] falls through from three trail bytes to one; the
    inner [None] is its [break], the way to the error handling. *)

Definition next_trail_1 (s : list Z) (i c count strict : Z) : option (option (Z * Z)) :=
  x ← zget s i;
  let trail := uint8 (x - 0x80) in
  let c := Z.lor (Z.shiftl c 6) trail in
  if 0x3f <? trail then Some None
  else minimum ← zget utf8_minLegal count;
       Some (if (minimum <=? c) && ((strict <=? 0) || negb (U_IS_UNICODE_NONCHAR c))
             then Some (c, i + 1) else None).

Definition next_trail_2 (s : list Z) (i c count strict : Z) : option (option (Z * Z)) :=
  x ← zget s i;
  let trail := uint8 (x - 0x80) in
  let c := Z.lor (Z.shiftl c 6) trail in
  if (Z.land c 0xffe0 =? 0x360) && negb (strict =? -2) || (0x3f <? trail) then Some None
  else next_trail_1 s (i + 1) c count strict.

Definition next_trail_3 (s : list Z) (i c count strict : Z) : option (option (Z * Z)) :=
  x ← zget s i;
  let trail := uint8 (x - 0x80) in
  let c := Z.lor (Z.shiftl c 6) trail in
  if (0x110 <=? c) || (0x3f <? trail) then Some None
  else next_trail_2 s (i + 1) c count strict.

(** [while(count>0 && U8_IS_TRAIL(s[i])) { ++i; --count; }] *)
Fixpoint skip_trails (count : nat) (s : list Z) (i : Z) : option Z :=
  match count with
  | O => Some i
  | S count => x ← zget s i; if U8_IS_TRAIL x then skip_trails count s (i + 1) else Some i
  end.

(** The code point, and the new value of [*pi]. *)
Definition utf8_nextCharSafeBody (s : list Z) (pi length c strict : Z) : option (Z * Z) :=
  let count := U8_COUNT_TRAIL_BYTES c in
  '(r, count) ←
    (if (pi + count <=? length) || (length <? 0) then
       let c := U8_MASK_LEAD_BYTE c count in
       r ← (if count =? 3 then next_trail_3 s pi c count strict
            else if count =? 2 then next_trail_2 s pi c count strict
            else if count =? 1 then next_trail_1 s pi c count strict
            else Some None);
       Some (r, count)
     else Some (None, uint8 (length - pi)));
  match r with
  | Some (c, i) => Some (c, i)
  | None =>
      i ← skip_trails (Z.to_nat count) s pi;
      c ← errorValue (i - pi) strict; Some (c, i)
  end.

(** The loop of [utf8_prevCharSafeBody]: [i], [count] and [shift] change together. *)
Fixpoint prev_loop (fuel : nat) (s : list Z) (start pi i c count shift strict : Z) : option (Z * Z) :=
  match fuel with
  | O => None
  | S fuel =>
      let illegal count pi := c ← errorValue count strict; Some (c, pi) in
      if i <=? start then illegal 0 pi
      else
        let i := i - 1 in
        b ← zget s i;
        if uint8 (b - 0x80) <? 0x7e then
          if negb (Z.land b 0x40 =? 0) then
            let shouldCount := U8_COUNT_TRAIL_BYTES b in
            if count =? shouldCount then
              let b := U8_MASK_LEAD_BYTE b count in
              let c := Z.lor c (Z.shiftl b shift) in
              bad ← (if (4 <=? count) || (0x10ffff <? c) then Some true
                     else minimum ← zget utf8_minLegal count;
                          Some ((c <? minimum) || U_IS_SURROGATE c && negb (strict =? -2) ||
                                (0 <? strict) && U_IS_UNICODE_NONCHAR c));
              if (bad : bool) then illegal (if 4 <=? count then 3 else count) i else Some (c, i)
            else if count <? shouldCount then illegal count i else illegal 0 pi
          else if count <? 5 then
            prev_loop fuel s start pi i (Z.lor c (Z.shiftl (Z.land b 0x3f) shift)) (count + 1) (shift + 6) strict
          else illegal 0 pi
        else illegal 0 pi
  end.

Definition utf8_prevCharSafeBody (s : list Z) (start pi c strict : Z) : option (Z * Z) :=
  if negb (U8_IS_TRAIL c) then c ← errorValue 0 strict; Some (c, pi)
  else prev_loop 5 s start pi pi (Z.land c 0x3f) 1 6 strict.

(** [do { ... } while(Z<=--I);] *)
Fixpoint back1_loop (fuel : nat) (s : list Z) (z I i : Z) : option Z :=
  match fuel with
  | O => None
  | S fuel =>
      b ← zget s I;
      if 0x7e <=? uint8 (b - 0x80) then Some i
      else if 0xc0 <=? b then Some (if i - I <=? U8_COUNT_TRAIL_BYTES b then I else i)
      else if z <=? I - 1 then back1_loop fuel s z (I - 1) i else Some i
  end.

Definition utf8_back1SafeBody (s : list Z) (start i : Z) : option Z :=
  back1_loop 6 s (if start <? i - 5 then i - 5 else start) i i.

(** ** Forward iteration: the code point and the next offset

    [U8_NEXT] and [U8_NEXT_OR_FFFD] differ in the [strict] they hand to the function. *)

Definition next_char (strict : Z) (s : list Z) (i length : Z) : option (Z * Z) :=
  c ← zget s i;
  let i := i + 1 in
  if 0x80 <=? c then
    three ←
      (if (0xe0 <? c) && (c <=? 0xec) && ((i + 1 <? length) || (length <? 0)) then
         x1 ← zget s i;
         if uint8 (x1 - 0x80) <=? 0x3f then
           x2 ← zget s (i + 1);
           Some (if uint8 (x2 - 0x80) <=? 0x3f then Some (uint8 (x1 - 0x80), uint8 (x2 - 0x80)) else None)
         else Some None
       else Some None);
    match three with
    | Some (t1, t2) => Some (uint16 (Z.lor (Z.lor (Z.shiftl c 12) (Z.shiftl t1 6)) t2), i + 2)
    | None =>
        two ←
          (if (c <? 0xe0) && (0xc2 <=? c) && negb (i =? length) then
             x1 ← zget s i;
             Some (if uint8 (x1 - 0x80) <=? 0x3f then Some (uint8 (x1 - 0x80)) else None)
           else Some None);
        match two with
        | Some t1 => Some (Z.lor (Z.shiftl (Z.land c 0x1f) 6) t1, i + 1)
        | None => utf8_nextCharSafeBody s i length c strict
        end
    end
  else Some (c, i).

Definition U8_NEXT : list Z -> Z -> Z -> option (Z * Z) := next_char (-1).
Definition U8_NEXT_OR_FFFD : list Z -> Z -> Z -> option (Z * Z) := next_char (-3).

Definition U8_FWD_1 (s : list Z) (i length : Z) : option Z :=
  b ← zget s i;
  let i := i + 1 in
  if U8_IS_LEAD b then
    let count := U8_COUNT_TRAIL_BYTES b in
    let count := if (length <? i + count) && (0 <=? length) then uint8 (length - i) else count in
    skip_trails (Z.to_nat count) s i
  else Some i.

Fixpoint U8_FWD_N_loop (n : nat) (s : list Z) (i length : Z) : option Z :=
  match n with
  | O => Some i
  | S n =>
      more ← (if i <? length then Some true
              else if length <? 0 then c ← zget s i; Some (negb (c =? 0)) else Some false);
      if (more : bool) then i ← U8_FWD_1 s i length; U8_FWD_N_loop n s i length else Some i
  end.

Definition U8_FWD_N (s : list Z) (i length n : Z) : option Z := U8_FWD_N_loop (Z.to_nat n) s i length.

(** ** Backward iteration: the code point and its offset *)

Definition prev_char (strict : Z) (s : list Z) (start i : Z) : option (Z * Z) :=
  let i := i - 1 in
  c ← zget s i;
  if 0x80 <=? c then utf8_prevCharSafeBody s start i c strict else Some (c, i).

Definition U8_PREV : list Z -> Z -> Z -> option (Z * Z) := prev_char (-1).
Definition U8_PREV_OR_FFFD : list Z -> Z -> Z -> option (Z * Z) := prev_char (-3).

Definition U8_BACK_1 (s : list Z) (start i : Z) : option Z :=
  let i := i - 1 in
  c ← zget s i;
  if U8_IS_TRAIL c then utf8_back1SafeBody s start i else Some i.

Fixpoint U8_BACK_N_loop (n : nat) (s : list Z) (start i : Z) : option Z :=
  match n with
  | O => Some i
  | S n => if start <? i then i ← U8_BACK_1 s start i; U8_BACK_N_loop n s start i else Some i
  end.

Definition U8_BACK_N (s : list Z) (start i n : Z) : option Z := U8_BACK_N_loop (Z.to_nat n) s start i.

(** ** Random access *)

Definition U8_SET_CP_START (s : list Z) (start i : Z) : option Z :=
  c ← zget s i; if U8_IS_TRAIL c then utf8_back1SafeBody s start i else Some i.

Definition U8_SET_CP_LIMIT (s : list Z) (start i length : Z) : option Z :=
  if (start <? i) && ((i <? length) || (length <? 0)) then
    i ← U8_BACK_1 s start i; U8_FWD_1 s i length
  else Some i.

Definition U8_GET (s : list Z) (start i length : Z) : option Z :=
  i ← U8_SET_CP_START s start i; '(c, _) ← U8_NEXT s i length; Some c.
Definition U8_GET_OR_FFFD (s : list Z) (start i length : Z) : option Z :=
  i ← U8_SET_CP_START s start i; '(c, _) ← U8_NEXT_OR_FFFD s i length; Some c.

(** ** Writing: the buffer, the next offset and whether there was an error *)

(** [(s)[(i)++]=b; ...], one byte after the other. *)
Fixpoint put_bytes (s : list Z) (i : Z) (bs : list Z) : option (list Z * Z) :=
  match bs with
  | [] => Some (s, i)
  | b :: bs => s ← zset s i (uint8 b); put_bytes s (i + 1) bs
  end.

Definition lead_2 (c : Z) : Z := Z.lor (Z.shiftr c 6) 0xc0.
Definition lead_3 (c : Z) : Z := Z.lor (Z.shiftr c 12) 0xe0.
Definition lead_4 (c : Z) : Z := Z.lor (Z.shiftr c 18) 0xf0.
Definition trail_6 (c : Z) : Z := Z.lor (Z.land c 0x3f) 0x80.

(** [U8_APPEND_UNSAFE], and [UTF8_APPEND_CHAR_UNSAFE] of utf_old.h. *)
Definition U8_APPEND_UNSAFE (s : list Z) (i c : Z) : option (list Z * Z) :=
  if uint32 c <=? 0x7f then put_bytes s i [c]
  else
    '(s, i) ←
      (if uint32 c <=? 0x7ff then put_bytes s i [lead_2 c]
       else
         '(s, i) ←
           (if uint32 c <=? 0xffff then put_bytes s i [lead_3 c]
            else put_bytes s i [lead_4 c; trail_6 (Z.shiftr c 12)]);
         put_bytes s i [trail_6 (Z.shiftr c 6)]);
    put_bytes s i [trail_6 c].

(** [isError] says whether the caller passed a place for the error flag. *)
Definition utf8_appendCharSafeBody (s : list Z) (i length c : Z) (pIsError : bool)
  : option (list Z * Z * bool) :=
  let ok r := '(s, i) ← r; Some (s, i, false) in
  let fail :=
    if pIsError then Some (s, i, true)
    else
      let length := length - i in
      if 0 <? length then
        e ← zget utf8_errorValue ((if 3 <? length then 3 else length) - 1);
        '(s, i) ← U8_APPEND_UNSAFE s i e; Some (s, i, false)
      else Some (s, i, false) in
  if uint32 c <=? 0x7ff then
    if i + 1 <? length then ok (put_bytes s i [lead_2 c; trail_6 c]) else fail
  else if uint32 c <=? 0xffff then
    if (i + 2 <? length) && negb (U_IS_SURROGATE c)
    then ok (put_bytes s i [lead_3 c; trail_6 (Z.shiftr c 6); trail_6 c]) else fail
  else if uint32 c <=? 0x10ffff then
    if i + 3 <? length
    then ok (put_bytes s i [lead_4 c; trail_6 (Z.shiftr c 12); trail_6 (Z.shiftr c 6); trail_6 c]) else fail
  else fail.

Definition U8_APPEND (s : list Z) (i capacity c : Z) : option (list Z * Z * bool) :=
  let ok r := '(s, i) ← r; Some (s, i, false) in
  if uint32 c <=? 0x7f then ok (put_bytes s i [c])
  else if (uint32 c <=? 0x7ff) && (i + 1 <? capacity) then ok (put_bytes s i [lead_2 c; trail_6 c])
  else if (uint32 c <=? 0xd7ff) && (i + 2 <? capacity)
  then ok (put_bytes s i [lead_3 c; trail_6 (Z.shiftr c 6); trail_6 c])
  else utf8_appendCharSafeBody s i capacity c true.

(** ** Bytes by their ranges *)

Definition byte8 (x : Z) : Prop := 0 <= x <= 0xff.

(** A decidable fact about a byte is checked on all 256 of them. *)
Lemma bytes_check (P : Z -> bool) : forallb P (seqZ 0 256) = true -> forall b, byte8 b -> P b = true.
Proof.
  intros HP b Hb. rewrite forallb_forall in HP. apply HP, list_elem_of_In, elem_of_seqZ.
  unfold byte8 in Hb. lia.
Qed.

Lemma bytes_agree {A} `{EqDecision A} (f g : Z -> A) :
  forallb (fun b => bool_decide (f b = g b)) (seqZ 0 256) = true -> forall b, byte8 b -> f b = g b.
Proof. intros HP b Hb. eapply bool_decide_eq_true_1, (bytes_check _ HP b Hb). Qed.

Ltac check_bytes b :=
  let Hb := fresh in intros Hb;
  match goal with |- ?l = ?r =>
    let f := eval pattern b in l in let g := eval pattern b in r in
    match f with ?F _ => match g with ?G _ => apply (bytes_agree F G); [by vm_compute|exact Hb] end end
  end.

Lemma trail_byte b : byte8 b -> U8_IS_TRAIL b = (0x80 <=? b) && (b <=? 0xbf).
Proof. check_bytes b. Qed.
Lemma trail_offset b : byte8 b -> (uint8 (b - 0x80) <=? 0x3f) = U8_IS_TRAIL b.
Proof. check_bytes b. Qed.
Lemma trail_offset_gt b : byte8 b -> (0x3f <? uint8 (b - 0x80)) = negb (U8_IS_TRAIL b).
Proof. check_bytes b. Qed.
Lemma lead_or_trail_offset b : byte8 b -> (uint8 (b - 0x80) <? 0x7e) = U8_IS_TRAIL b || U8_IS_LEAD b.
Proof. check_bytes b. Qed.
Lemma lead_byte b : byte8 b -> U8_IS_LEAD b = (0xc0 <=? b) && (b <=? 0xfd).
Proof. check_bytes b. Qed.
Lemma lead_bit b : byte8 b -> U8_IS_TRAIL b || U8_IS_LEAD b = true -> negb (Z.land b 0x40 =? 0) = U8_IS_LEAD b.
Proof.
  intros Hb Ht. eapply (bytes_check (fun b => negb (U8_IS_TRAIL b || U8_IS_LEAD b) ||
    bool_decide (negb (Z.land b 0x40 =? 0) = U8_IS_LEAD b))) in Hb; [|by vm_compute].
  rewrite Ht in Hb. by apply bool_decide_eq_true_1 in Hb.
Qed.
Lemma lead_not_trail8 b : byte8 b -> U8_IS_TRAIL b = true -> U8_IS_LEAD b = false.
Proof. intros Hb. rewrite trail_byte, lead_byte by done. lia. Qed.

(** The table and the macro count the same trail bytes. *)
Lemma count_table b : byte8 b -> zget utf8_countTrailBytes b = Some (U8_COUNT_TRAIL_BYTES b).
Proof. check_bytes b. Qed.

Lemma count_range b : byte8 b -> 0 <= U8_COUNT_TRAIL_BYTES b <= 5.
Proof.
  intros Hb. eapply (bytes_check (fun b => (0 <=? U8_COUNT_TRAIL_BYTES b) && (U8_COUNT_TRAIL_BYTES b <=? 5))) in Hb;
    [lia|by vm_compute].
Qed.

Lemma count_lead b : byte8 b -> (0 <? U8_COUNT_TRAIL_BYTES b) = U8_IS_LEAD b.
Proof. check_bytes b. Qed.

(** The bits a byte of a multi-byte sequence contributes. *)
Definition lead_bits (b : Z) : Z := U8_MASK_LEAD_BYTE b (U8_COUNT_TRAIL_BYTES b).

Lemma lead_bits_range b : byte8 b ->
  0 <= lead_bits b < match U8_COUNT_TRAIL_BYTES b with 0 => 64 | 1 => 32 | 2 => 16 | 3 => 8 | 4 => 4 | _ => 2 end.
Proof.
  intros Hb. eapply (bytes_check (fun b => (0 <=? lead_bits b) &&
    (lead_bits b <? match U8_COUNT_TRAIL_BYTES b with 0 => 64 | 1 => 32 | 2 => 16 | 3 => 8 | 4 => 4 | _ => 2 end)))
    in Hb; [lia|by vm_compute].
Qed.

Lemma count_of b : byte8 b ->
  (b < 0xc0 -> U8_COUNT_TRAIL_BYTES b = 0) /\ (0xc2 <= b < 0xe0 -> U8_COUNT_TRAIL_BYTES b = 1) /\
  (0xe0 < b <= 0xec -> U8_COUNT_TRAIL_BYTES b = 2) /\ (b < 0xf0 -> U8_COUNT_TRAIL_BYTES b <= 2).
Proof.
  intros Hb. eapply (bytes_check (fun b => ((0xc0 <=? b) || (U8_COUNT_TRAIL_BYTES b =? 0)) &&
    (negb ((0xc2 <=? b) && (b <? 0xe0)) || (U8_COUNT_TRAIL_BYTES b =? 1)) &&
    (negb ((0xe0 <? b) && (b <=? 0xec)) || (U8_COUNT_TRAIL_BYTES b =? 2)) && ((0xf0 <=? b) || (U8_COUNT_TRAIL_BYTES b <=? 2))))
    in Hb; [lia|by vm_compute].
Qed.

Lemma lead_bits_value b : byte8 b ->
  (U8_COUNT_TRAIL_BYTES b = 1 -> lead_bits b = b - 0xc0) /\ (U8_COUNT_TRAIL_BYTES b = 2 -> lead_bits b = b - 0xe0) /\
  (U8_COUNT_TRAIL_BYTES b = 3 -> lead_bits b = b - 0xf0).
Proof.
  intros Hb. eapply (bytes_check (fun b => (negb (U8_COUNT_TRAIL_BYTES b =? 1) || (lead_bits b =? b - 0xc0)) &&
    (negb (U8_COUNT_TRAIL_BYTES b =? 2) || (lead_bits b =? b - 0xe0)) &&
    (negb (U8_COUNT_TRAIL_BYTES b =? 3) || (lead_bits b =? b - 0xf0)))) in Hb; [lia|by vm_compute].
Qed.

(** Appending the six bits of a trail byte. *)
Definition more (c t : Z) : Z := c * 64 + (t - 0x80).

Lemma trail_range8 t : byte8 t -> U8_IS_TRAIL t = true -> 0x80 <= t <= 0xbf.
Proof. intros Ht. rewrite trail_byte by done. lia. Qed.

Lemma uint8_trail t : byte8 t -> U8_IS_TRAIL t = true -> uint8 (t - 0x80) = t - 0x80.
Proof. intros Ht Hr%trail_range8; [|done]. unfold uint8. apply Z.mod_small. lia. Qed.

Lemma lor_more c t : byte8 t -> U8_IS_TRAIL t = true -> Z.lor (Z.shiftl c 6) (uint8 (t - 0x80)) = more c t.
Proof.
  intros Ht Hr. rewrite uint8_trail by done. apply trail_range8 in Hr; [|done].
  rewrite Z.shiftl_mul_pow2 by lia. rewrite lor_disjoint by lia. unfold more. change (2 ^ 6) with 64. lia.
Qed.

(** ** The pieces of a byte sequence *)

(** The trail bytes, at most [n], at the start of [u]. *)
Fixpoint take_trails (n : nat) (u : list Z) : list Z :=
  match n, u with
  | S n, x :: u => if U8_IS_TRAIL x then x :: take_trails n u else []
  | _, _ => []
  end.

(** The value of a lead byte followed by trail bytes. *)
Definition seq_value (b : Z) (ts : list Z) : Z := fold_left more ts (lead_bits b).

(** Whether a value is allowed for sequences with that many trail bytes. *)
Definition legal (strict : Z) (count c : Z) : bool :=
  (default 0 (zget utf8_minLegal count) <=? c) && (c <=? 0x10ffff) &&
  ((strict =? -2) || negb ((0xd800 <=? c) && (c <=? 0xdfff))).

Definition error8 (strict : Z) : Z := if strict =? -3 then 0xfffd else U_SENTINEL.

(** What a piece stands for: a code point, or an error. *)
Definition piece_value (strict : Z) (w : list Z) : Z :=
  match w with
  | [] => error8 strict
  | b :: ts =>
      if b <? 0x80 then b
      else
        let count := U8_COUNT_TRAIL_BYTES b in
        if (zlen ts =? count) && (1 <=? count) && (count <=? 3) && legal strict count (seq_value b ts)
        then seq_value b ts else error8 strict
  end.

(** The trail bytes that belong to the lead byte [b] before [u]. *)
Definition own_trails (b : Z) (u : list Z) : list Z := take_trails (Z.to_nat (U8_COUNT_TRAIL_BYTES b)) u.

(** [n] bytes can be read from [u], or the reading meets a byte that is no trail byte. *)
Definition enough (n : nat) (u : list Z) : Prop :=
  (n <= length u)%nat \/ Exists (fun x => U8_IS_TRAIL x = false) u.

Lemma enough_nil n : enough (S n) [] -> False.
Proof. intros [?|?%Exists_nil]; [simpl in *; lia|done]. Qed.
Lemma enough_cons n x u : U8_IS_TRAIL x = true -> enough (S n) (x :: u) -> enough n u.
Proof. intros Hx [Hl|He]; [left; simpl in *; lia|]. right. apply Exists_cons in He as [?|?]; [congruence|done]. Qed.

Lemma errorValue_neg count strict : strict < 0 -> errorValue count strict = Some (error8 strict).
Proof. intros Hs. unfold errorValue, error8. destruct (Z.leb_spec 0 strict); [lia|]. by destruct (strict =? -3). Qed.

Lemma skip_trails_spec n p u :
  enough n u -> skip_trails n (p ++ u) (zlen p) = Some (zlen p + zlen (take_trails n u)).
Proof.
  revert p u. induction n as [|n IH]; intros p u He; cbn [skip_trails take_trails].
  { change (zlen (@nil Z)) with 0. f_equal. lia. }
  destruct u as [|x u]; [by apply enough_nil in He|]. rewrite zget_middle. cbn [mbind option_bind].
  destruct (U8_IS_TRAIL x) eqn:Hx; [|change (zlen (@nil Z)) with 0; f_equal; lia].
  rewrite snoc_app, <- (zlen_snoc p x), IH by (by eapply enough_cons). rewrite zlen_snoc, zlen_cons. f_equal. lia.
Qed.

Lemma take_trails_all n u : Forall (fun x => U8_IS_TRAIL x = true) (take_trails n u).
Proof. revert u. induction n as [|n IH]; intros [|x u]; cbn; try done. destruct (U8_IS_TRAIL x) eqn:E; auto. Qed.

Lemma take_trails_length n u : (length (take_trails n u) <= n)%nat.
Proof.
  revert u. induction n as [|n IH]; intros [|x u]; cbn [take_trails length]; try lia.
  destruct (U8_IS_TRAIL x); cbn [length]; [specialize (IH u)|]; lia.
Qed.

Lemma take_trails_prefix n u : u = take_trails n u ++ drop (length (take_trails n u)) u.
Proof. revert u. induction n as [|n IH]; intros [|x u]; cbn; try done. destruct (U8_IS_TRAIL x); cbn; [|done]. by f_equal. Qed.

Lemma take_trails_range n u : Forall byte8 u -> Forall (fun t => 0x80 <= t <= 0xbf) (take_trails n u).
Proof.
  intros Hu. rewrite (take_trails_prefix n u), Forall_app in Hu. destruct Hu as [Hb _].
  pose proof (take_trails_all n u) as Ha. rewrite Forall_forall in *. eauto using trail_range8.
Qed.

(** *** One piece forward *)

Lemma next_trail_1_spec p u c count strict m :
  Forall byte8 u -> enough 1 u -> strict < 0 -> zget utf8_minLegal count = Some m ->
  next_trail_1 (p ++ u) (zlen p) c count strict =
    Some (match take_trails 1 u with
          | [t] => if m <=? more c t then Some (more c t, zlen p + 1) else None
          | _ => None
          end).
Proof.
  intros Hu He Hs Hm. destruct u as [|x u]; [by apply enough_nil in He|]. apply Forall_cons in Hu as [Hx _].
  unfold next_trail_1. rewrite zget_middle. cbn [mbind option_bind take_trails]. rewrite trail_offset_gt by done.
  destruct (U8_IS_TRAIL x) eqn:Et; cbn [negb]; [|done]. rewrite Hm, lor_more by done. cbn [mbind option_bind].
  destruct (Z.leb_spec strict 0); [|lia]. cbn [orb]. by rewrite andb_true_r.
Qed.

(** A surrogate is seen one trail byte early. *)
Lemma surrogate_early x t :
  0 <= x < 2 ^ 16 -> 0x80 <= t <= 0xbf ->
  (Z.land x 0xffe0 =? 0x360) = (0xd800 <=? more x t) && (more x t <=? 0xdfff).
Proof.
  intros Hx Ht. change 0xffe0 with (Z.shiftl (Z.ones 11) 5). rewrite land_high by lia. unfold more.
  change (2 ^ 5) with 32. apply eq_true_iff_eq. rewrite andb_true_iff, Z.eqb_eq, !Z.leb_le. dlia.
Qed.

Definition surrogate_ok (strict c : Z) : bool := (strict =? -2) || negb ((0xd800 <=? c) && (c <=? 0xdfff)).

Lemma next_trail_2_spec p u c count strict m :
  Forall byte8 u -> enough 2 u -> strict < 0 -> zget utf8_minLegal count = Some m -> 0 <= c < 0x110 ->
  next_trail_2 (p ++ u) (zlen p) c count strict =
    Some (match take_trails 2 u with
          | [t; t'] => let v := more (more c t) t' in
                       if (m <=? v) && surrogate_ok strict v then Some (v, zlen p + 2) else None
          | _ => None
          end).
Proof.
  intros Hu He Hs Hm Hc. destruct u as [|x u]; [by apply enough_nil in He|]. apply Forall_cons in Hu as [Hx Hu].
  unfold next_trail_2. rewrite zget_middle. cbn [mbind option_bind]. rewrite trail_offset_gt by done.
  change (take_trails 2 (x :: u)) with (if U8_IS_TRAIL x then x :: take_trails 1 u else []).
  destruct (U8_IS_TRAIL x) eqn:Et; cbn [negb]; [|by rewrite orb_true_r]. rewrite lor_more, orb_false_r by done.
  rewrite snoc_app, <- (zlen_snoc p x), (next_trail_1_spec (p ++ [x]) u _ _ _ m)
    by (done || by eapply enough_cons).
  pose proof (trail_range8 x Hx Et). destruct (take_trails 1 u) as [|t [|]] eqn:Ett.
  - by destruct (_ && _).
  - pose proof (take_trails_range 1 u Hu) as Ha. rewrite Ett, Forall_singleton in Ha.
    rewrite (surrogate_early (more c x) t) by (unfold more; lia).
    unfold surrogate_ok. rewrite zlen_snoc. replace (zlen p + 1 + 1) with (zlen p + 2) by lia.
    cbv zeta. destruct (strict =? -2), (0xd800 <=? _), (_ <=? 0xdfff), (m <=? _); done.
  - by destruct (_ && _).
Qed.

Lemma next_trail_3_spec p u c strict :
  Forall byte8 u -> enough 3 u -> strict < 0 -> 0 <= c < 8 ->
  next_trail_3 (p ++ u) (zlen p) c 3 strict =
    Some (match take_trails 3 u with
          | [t; t'; t''] => let v := more (more (more c t) t') t'' in
                            if legal strict 3 v then Some (v, zlen p + 3) else None
          | _ => None
          end).
Proof.
  intros Hu He Hs Hc. destruct u as [|x u]; [by apply enough_nil in He|]. apply Forall_cons in Hu as [Hx Hu].
  unfold next_trail_3. rewrite zget_middle. cbn [mbind option_bind]. rewrite trail_offset_gt by done.
  change (take_trails 3 (x :: u)) with (if U8_IS_TRAIL x then x :: take_trails 2 u else []).
  destruct (U8_IS_TRAIL x) eqn:Et; cbn [negb]; [|by rewrite orb_true_r]. rewrite lor_more, orb_false_r by done.
  pose proof (trail_range8 x Hx Et) as Hxr. pose proof (take_trails_range 2 u Hu) as Ha.
  assert (Hv : forall t t', take_trails 2 u = [t; t'] ->
    (0x110 <= more c x <-> 0x110000 <= more (more (more c x) t) t')).
  { intros t t' E. rewrite E, Forall_cons, Forall_singleton in Ha. unfold more. lia. }
  destruct (Z.leb_spec 0x110 (more c x)).
  - destruct (take_trails 2 u) as [|t [|t' [|]]]; try done. cbv zeta. unfold legal.
    destruct (Z.leb_spec (more (more (more c x) t) t') 0x10ffff); [|by rewrite andb_false_r].
    specialize (Hv t t' eq_refl). lia.
  - rewrite snoc_app, <- (zlen_snoc p x), (next_trail_2_spec (p ++ [x]) u _ _ _ 0x10000)
      by (done || (by eapply enough_cons) || (unfold more in *; lia)).
    destruct (take_trails 2 u) as [|t [|t' [|]]]; try done. cbv zeta. unfold legal, surrogate_ok.
    change (default 0 (zget utf8_minLegal 3)) with 0x10000. rewrite zlen_snoc.
    destruct (Z.leb_spec (more (more (more c x) t) t') 0x10ffff); [|specialize (Hv t t' eq_refl); lia].
    rewrite andb_true_r. replace (zlen p + 1 + 2) with (zlen p + 3) by lia. done.
Qed.

(** The text of the loops: [length] is the end of the text, or negative for a text that some
    later byte, which is no trail byte, ends. *)
Definition ends_at (s : list Z) (u : list Z) (length : Z) : Prop :=
  length = zlen s \/ length < 0 /\ Exists (fun x => U8_IS_TRAIL x = false) u.

Lemma take_trails_short n u : (length u <= n)%nat -> take_trails n u = take_trails (length u) u.
Proof.
  revert u. induction n as [|n IH]; intros [|x u] Hl; cbn [take_trails length] in *; try done; [lia|].
  destruct (U8_IS_TRAIL x); [|done]. by rewrite IH by lia.
Qed.

(** A complete piece that is no single byte, by its length. *)
Lemma piece_value_multi strict b ts :
  0x80 <= b -> piece_value strict (b :: ts) =
    if (zlen ts =? U8_COUNT_TRAIL_BYTES b) && (1 <=? U8_COUNT_TRAIL_BYTES b) && (U8_COUNT_TRAIL_BYTES b <=? 3) &&
       legal strict (U8_COUNT_TRAIL_BYTES b) (seq_value b ts)
    then seq_value b ts else error8 strict.
Proof. intros Hb. unfold piece_value. by destruct (Z.ltb_spec b 0x80); [lia|]. Qed.

Lemma legal_12 strict count c :
  c <= 0x10ffff -> legal strict count c = (default 0 (zget utf8_minLegal count) <=? c) && surrogate_ok strict c.
Proof. intros Hc. unfold legal, surrogate_ok. destruct (Z.leb_spec c 0x10ffff); [|lia]. by rewrite andb_true_r. Qed.

Lemma surrogate_ok_low strict c : c < 0xd800 -> surrogate_ok strict c = true.
Proof. intros. unfold surrogate_ok. destruct (Z.leb_spec 0xd800 c); [lia|]. apply orb_true_r. Qed.

(** The switch: the code point of the piece if it is complete and legal. *)
Lemma next_switch_spec p b u strict :
  byte8 b -> 0x80 <= b -> Forall byte8 u -> strict < 0 -> enough (Z.to_nat (U8_COUNT_TRAIL_BYTES b)) u ->
  let count := U8_COUNT_TRAIL_BYTES b in
  let c := U8_MASK_LEAD_BYTE b count in
  let ts := own_trails b u in
  exists r, (if count =? 3 then next_trail_3 (p ++ u) (zlen p) c count strict
             else if count =? 2 then next_trail_2 (p ++ u) (zlen p) c count strict
             else if count =? 1 then next_trail_1 (p ++ u) (zlen p) c count strict
             else Some None) = Some r /\
    (r = Some (piece_value strict (b :: ts), zlen p + zlen ts) \/
     r = None /\ piece_value strict (b :: ts) = error8 strict).
Proof.
  intros Hb Hge Hu Hs He count c ts. pose proof (count_range b Hb) as Hcr. pose proof (lead_bits_range b Hb) as Hbits.
  pose proof (take_trails_range (Z.to_nat count) u Hu) as Ha. pose proof (take_trails_length (Z.to_nat count) u) as Hl.
  subst ts. rewrite (piece_value_multi strict b) by done. unfold own_trails, seq_value in *. fold count in Ha, Hl, Hcr, Hbits |- *.
  change c with (lead_bits b). fold count in He.
  assert (count = 0 \/ count = 1 \/ count = 2 \/ count = 3 \/ count = 4 \/ count = 5) as Hcase by lia.
  clearbody count. clear c.
  destruct Hcase as [->|[->|[->|[->|Hcase]]]]; cbn [Z.eqb Pos.eqb Z.to_nat Pos.to_nat] in *.
  - eexists. split; [done|]. right. split; [done|]. by rewrite !andb_false_r.
  - rewrite (next_trail_1_spec p u _ 1 strict 0x80) by done. eexists. split; [done|].
    change (Z.to_nat 1) with 1%nat in *.
    destruct (take_trails 1 u) as [|t [|]]; [right; done| |simpl in Hl; lia].
    rewrite Forall_singleton in Ha. cbn [fold_left]. change (zlen [t]) with 1. cbn [Z.eqb Pos.eqb Z.leb Z.compare andb].
    rewrite legal_12 by (unfold more; lia). rewrite surrogate_ok_low by (unfold more; lia).
    change (default 0 (zget utf8_minLegal 1)) with 0x80. rewrite andb_true_r. destruct (0x80 <=? _); auto.
  - change (Z.to_nat 2) with 2%nat in *.
    rewrite (next_trail_2_spec p u _ 2 strict 0x800) by (done || lia). eexists. split; [done|].
    destruct (take_trails 2 u) as [|t [|t' [|]]]; [right; done|right; done| |simpl in Hl; lia].
    rewrite Forall_cons, Forall_singleton in Ha. cbn [fold_left]. change (zlen [t; t']) with 2.
    cbn [Z.eqb Pos.eqb Z.leb Z.compare Pos.compare Pos.compare_cont andb]. rewrite legal_12 by (unfold more; lia).
    change (default 0 (zget utf8_minLegal 2)) with 0x800. cbv zeta. destruct (_ && _); auto.
  - change (Z.to_nat 3) with 3%nat in *.
    rewrite (next_trail_3_spec p u _ strict) by (done || lia). eexists. split; [done|].
    destruct (take_trails 3 u) as [|t [|t' [|t'' [|]]]]; [right; done|right; done|right; done| |simpl in Hl; lia].
    cbn [fold_left]. change (zlen [t; t'; t'']) with 3.
    cbn [Z.eqb Pos.eqb Z.leb Z.compare Pos.compare Pos.compare_cont andb]. cbv zeta. destruct (legal _ _ _); auto.
  - destruct (Z.eqb_spec count 3), (Z.eqb_spec count 2), (Z.eqb_spec count 1); try lia.
    eexists. split; [done|]. right. split; [done|]. destruct (Z.leb_spec count 3); [lia|]. by rewrite andb_false_r.
Qed.

Lemma nextCharSafeBody_spec p b u length strict :
  byte8 b -> 0x80 <= b -> Forall byte8 u -> strict < 0 -> ends_at (p ++ u) u length ->
  utf8_nextCharSafeBody (p ++ u) (zlen p) length b strict =
    Some (piece_value strict (b :: own_trails b u), zlen p + zlen (own_trails b u)).
Proof.
  intros Hb Hge Hu Hs Hend. unfold utf8_nextCharSafeBody. pose proof (count_range b Hb) as Hcr.
  destruct (_ || _) eqn:Hroom.
  - assert (He : enough (Z.to_nat (U8_COUNT_TRAIL_BYTES b)) u).
    { destruct Hend as [->|[Hlt He]]; [left|by right]. apply orb_true_iff in Hroom as [Hr|Hr].
      - rewrite zlen_app in Hr. unfold zlen in *. lia.
      - pose proof (zlen_nonneg (p ++ u)). lia. }
    destruct (next_switch_spec p b u strict) as (r & -> & Hr); auto. cbn [mbind option_bind].
    destruct Hr as [->|[-> Hv]]; [done|].
    rewrite skip_trails_spec by done. cbn [mbind option_bind].
    rewrite errorValue_neg by done. cbn [mbind option_bind]. by rewrite Hv.
  - cbn [mbind option_bind]. apply orb_false_iff in Hroom as [Hr Hneg]. destruct Hend as [->|[? _]]; [|lia].
    rewrite zlen_app in *. pose proof (zlen_nonneg u).
    replace (uint8 _) with (zlen u) by (unfold uint8; rewrite Z.mod_small; lia).
    assert (Ho : own_trails b u = take_trails (length u) u) by (apply take_trails_short; unfold zlen in *; lia).
    rewrite skip_trails_spec by (left; unfold zlen; lia). cbn [mbind option_bind].
    rewrite errorValue_neg by done. cbn [mbind option_bind].
    replace (Z.to_nat (zlen u)) with (length u) by (unfold zlen; lia).
    rewrite piece_value_multi by done. pose proof (take_trails_length (length u) u). rewrite Ho.
    destruct (Z.eqb_spec (zlen (take_trails (length u) u)) (U8_COUNT_TRAIL_BYTES b)); [unfold zlen in *; lia|]. done.
Qed.

(** The two kinds of sequences that the macro decodes inline, and the values it computes. *)
Lemma piece_three b x1 x2 strict :
  0xe0 < b <= 0xec -> 0x80 <= x1 <= 0xbf -> 0x80 <= x2 <= 0xbf ->
  piece_value strict [b; x1; x2] = more (more (b - 0xe0) x1) x2.
Proof.
  intros Hb H1 H2. rewrite piece_value_multi by lia.
  assert (U8_COUNT_TRAIL_BYTES b = 2 /\ lead_bits b = b - 0xe0) as [Hc Hl].
  { assert (byte8 b) as Hb' by (unfold byte8; lia).
    eapply (bytes_check (fun b => negb ((0xe0 <? b) && (b <=? 0xec)) || (U8_COUNT_TRAIL_BYTES b =? 2) && (lead_bits b =? b - 0xe0))) in Hb';
      [lia|by vm_compute]. }
  rewrite Hc. change (zlen [x1; x2]) with 2. unfold seq_value. cbn [fold_left]. rewrite Hl.
  set (v := more (more (b - 0xe0) x1) x2). assert (Hv : 0x1000 <= v < 0xd000) by (unfold v, more; lia).
  rewrite legal_12, surrogate_ok_low by lia. change (default 0 (zget utf8_minLegal 2)) with 0x800.
  by destruct (Z.leb_spec 0x800 v); [|lia].
Qed.

Lemma inline_three_value b x1 x2 strict :
  0xe0 < b <= 0xec -> 0x80 <= x1 <= 0xbf -> 0x80 <= x2 <= 0xbf ->
  uint16 (Z.lor (Z.lor (Z.shiftl b 12) (Z.shiftl (x1 - 0x80) 6)) (x2 - 0x80)) = piece_value strict [b; x1; x2].
Proof.
  intros Hb H1 H2. rewrite piece_three by done.
  rewrite !Z.shiftl_mul_pow2 by lia. replace (b * 2 ^ 12) with (b * 2 ^ 6 * 2 ^ 6) by lia.
  rewrite <- (Z.shiftl_mul_pow2 _ 6), <- (Z.shiftl_mul_pow2 (x1 - 0x80) 6), <- Z.shiftl_lor, !Z.shiftl_mul_pow2 by lia.
  rewrite !lor_disjoint by lia. unfold uint16, more. change (2 ^ 6) with 64. dlia.
Qed.

Lemma piece_two b x1 strict :
  0xc2 <= b < 0xe0 -> 0x80 <= x1 <= 0xbf -> piece_value strict [b; x1] = more (b - 0xc0) x1 /\ Z.land b 0x1f = b - 0xc0.
Proof.
  intros Hb H1. rewrite piece_value_multi by lia.
  assert (U8_COUNT_TRAIL_BYTES b = 1 /\ lead_bits b = b - 0xc0 /\ Z.land b 0x1f = b - 0xc0) as (Hc & Hl & Hm).
  { assert (byte8 b) as Hb' by (unfold byte8; lia).
    eapply (bytes_check (fun b => negb ((0xc2 <=? b) && (b <? 0xe0)) || (U8_COUNT_TRAIL_BYTES b =? 1) && (lead_bits b =? b - 0xc0) && (Z.land b 0x1f =? b - 0xc0))) in Hb';
      [lia|by vm_compute]. }
  split; [|done]. rewrite Hc. change (zlen [x1]) with 1. unfold seq_value. cbn [fold_left]. rewrite Hl.
  set (v := more (b - 0xc0) x1). assert (Hv : 0x80 <= v < 0x800) by (unfold v, more; lia).
  rewrite legal_12, surrogate_ok_low by lia. change (default 0 (zget utf8_minLegal 1)) with 0x80.
  by destruct (Z.leb_spec 0x80 v); [|lia].
Qed.

Lemma inline_two_value b x1 strict :
  0xc2 <= b < 0xe0 -> 0x80 <= x1 <= 0xbf ->
  Z.lor (Z.shiftl (Z.land b 0x1f) 6) (x1 - 0x80) = piece_value strict [b; x1].
Proof.
  intros Hb H1. destruct (piece_two b x1 strict Hb H1) as [-> ->].
  rewrite Z.shiftl_mul_pow2 by lia. rewrite lor_disjoint by lia. unfold more. change (2 ^ 6) with 64. lia.
Qed.

Lemma zget_snoc_next (p : list Z) x u i : i = zlen p -> zget (p ++ x :: u) (i + 1) = zget u 0.
Proof. intros ->. rewrite snoc_app, <- (zlen_snoc p x), zget_app_r by lia. by rewrite Z.sub_diag. Qed.

Lemma zget_snoc_next2 (p : list Z) x u i : i = zlen p -> zget (p ++ x :: u) (i + 1 + 1) = zget u 1.
Proof. intros ->. rewrite snoc_app, <- (zlen_snoc p x), zget_app_r by lia. f_equal. lia. Qed.

(** One step of [U8_NEXT] and its variants over any bytes. *)
Lemma next_char_spec p b u length strict :
  Forall byte8 (b :: u) -> strict < 0 -> ends_at (p ++ b :: u) u length ->
  next_char strict (p ++ b :: u) (zlen p) length =
    Some (piece_value strict (b :: own_trails b u), zlen p + 1 + zlen (own_trails b u)).
Proof.
  intros [Hb Hu]%Forall_cons Hs Hend. unfold next_char. rewrite zget_middle. cbn [mbind option_bind].
  destruct (Z.leb_spec 0x80 b) as [Hge|Hlt].
  2:{ assert (U8_COUNT_TRAIL_BYTES b = 0) as Hc.
      { pose proof (count_range b Hb). pose proof (count_lead b Hb). rewrite lead_byte in * by done. lia. }
      unfold own_trails. rewrite Hc. change (take_trails (Z.to_nat 0) u) with (@nil Z). rewrite zlen_nil. cbn [piece_value].
      destruct (Z.ltb_spec b 0x80); [|lia]. by rewrite Z.add_0_r. }
  assert (Hbody : utf8_nextCharSafeBody (p ++ b :: u) (zlen p + 1) length b strict =
    Some (piece_value strict (b :: own_trails b u), zlen p + 1 + zlen (own_trails b u))).
  { rewrite snoc_app, <- (zlen_snoc p b). apply nextCharSafeBody_spec; auto. by rewrite <- snoc_app. }
  assert (Hread : length < 0 -> exists x1 u1, u = x1 :: u1 /\ (U8_IS_TRAIL x1 = true -> exists x2 u2, u1 = x2 :: u2)).
  { intros Hneg. destruct Hend as [->|[_ He]]; [pose proof (zlen_nonneg (p ++ b :: u)); lia|].
    destruct u as [|x1 u1]; [by apply Exists_nil in He|]. exists x1, u1. split; [done|]. intros Ht.
    apply Exists_cons in He as [?|He]; [congruence|]. destruct u1 as [|x2 u2]; [by apply Exists_nil in He|]. eauto. }
  assert (Hlen : 0 <= length -> length = zlen p + 1 + zlen u).
  { intros. destruct Hend as [->|[? _]]; [|lia]. rewrite zlen_app, zlen_cons. lia. }
  destruct ((0xe0 <? b) && (b <=? 0xec) && ((zlen p + 1 + 1 <? length) || (length <? 0))) eqn:H3.
  - assert (exists x1 u1, u = x1 :: u1 /\ (U8_IS_TRAIL x1 = true -> exists x2 u2, u1 = x2 :: u2)) as (x1 & u1 & -> & Hx2).
    { destruct (Z.ltb_spec length 0); [auto|]. rewrite orb_false_r in H3. specialize (Hlen ltac:(lia)).
      destruct u as [|x1 [|x2 u]]; rewrite ?zlen_cons, ?zlen_nil in Hlen; [lia|lia|]. exists x1, (x2 :: u). eauto. }
    rewrite zget_snoc_next, zget_cons_0 by done. cbn [mbind option_bind]. apply Forall_cons in Hu as [Hx1 Hu].
    rewrite trail_offset by done. destruct (U8_IS_TRAIL x1) eqn:Ht1.
    + destruct (Hx2 eq_refl) as (x2 & u2 & ->). rewrite zget_snoc_next2 by done.
      change (zget (x1 :: x2 :: u2) 1) with (Some x2). cbn [mbind option_bind]. apply Forall_cons in Hu as [Hx2' Hu].
      rewrite trail_offset by done. destruct (U8_IS_TRAIL x2) eqn:Ht2; cbn [mbind option_bind].
      * rewrite !uint8_trail by done. apply trail_range8 in Ht1 as Hr1, Ht2 as Hr2; auto.
        assert (own_trails b (x1 :: x2 :: u2) = [x1; x2]) as ->.
        { unfold own_trails. replace (U8_COUNT_TRAIL_BYTES b) with 2; [change (Z.to_nat 2) with 2%nat; cbn [take_trails]; by rewrite Ht1, Ht2|].
          eapply (bytes_check (fun b => negb ((0xe0 <? b) && (b <=? 0xec)) || (U8_COUNT_TRAIL_BYTES b =? 2))) in Hb; [lia|by vm_compute]. }
        rewrite (inline_three_value b x1 x2 strict) by lia. change (zlen [x1; x2]) with 2. f_equal.
      * destruct ((b <? 0xe0) && (0xc2 <=? b)) eqn:H2; [lia|]. cbn [andb mbind option_bind]. exact Hbody.
    + cbn [mbind option_bind]. destruct ((b <? 0xe0) && (0xc2 <=? b)) eqn:H2; [lia|]. cbn [andb mbind option_bind]. exact Hbody.
  - cbn [mbind option_bind]. destruct ((b <? 0xe0) && (0xc2 <=? b) && negb (zlen p + 1 =? length)) eqn:H2.
    2:{ cbn [mbind option_bind]. exact Hbody. }
    assert (exists x1 u1, u = x1 :: u1) as (x1 & u1 & ->).
    { destruct (Z.ltb_spec length 0); [destruct Hread as (? & ? & -> & _); eauto|]. specialize (Hlen ltac:(lia)).
      destruct u as [|x1 u]; rewrite ?zlen_cons, ?zlen_nil in Hlen; [lia|eauto]. }
    rewrite zget_snoc_next, zget_cons_0 by done. cbn [mbind option_bind]. apply Forall_cons in Hu as [Hx1 Hu].
    rewrite trail_offset by done. destruct (U8_IS_TRAIL x1) eqn:Ht1; cbn [mbind option_bind]; [|exact Hbody].
    rewrite uint8_trail by done. apply trail_range8 in Ht1 as Hr1; auto.
    assert (own_trails b (x1 :: u1) = [x1]) as ->.
    { unfold own_trails. replace (U8_COUNT_TRAIL_BYTES b) with 1; [change (Z.to_nat 1) with 1%nat; cbn [take_trails]; by rewrite Ht1|].
      eapply (bytes_check (fun b => negb ((0xc2 <=? b) && (b <? 0xe0)) || (U8_COUNT_TRAIL_BYTES b =? 1))) in Hb; [lia|by vm_compute]. }
    rewrite (inline_two_value b x1 strict) by lia. change (zlen [x1]) with 1. f_equal.
Qed.

(** *** The pieces of a text, from either end *)

Notation trails_of b := (Z.to_nat (U8_COUNT_TRAIL_BYTES b)).

(** The pieces after [cur], which may still take [r] trail bytes. *)
Fixpoint pieces_from (r : nat) (cur u : list Z) : list (list Z) :=
  match u with
  | [] => [cur]
  | b :: u =>
      match r with
      | S r => if U8_IS_TRAIL b then pieces_from r (cur ++ [b]) u else cur :: pieces_from (trails_of b) [b] u
      | O => cur :: pieces_from (trails_of b) [b] u
      end
  end.

Definition pieces (u : list Z) : list (list Z) :=
  match u with [] => [] | b :: u => pieces_from (trails_of b) [b] u end.

(** The code points of a byte string, ill-formed pieces standing for one error each. *)
Definition decode8 (strict : Z) (u : list Z) : list Z := map (piece_value strict) (pieces u).

Lemma pieces_from_first r cur u :
  pieces_from r cur u = (cur ++ take_trails r u) :: pieces (drop (length (take_trails r u)) u).
Proof.
  revert r cur. induction u as [|b u IH]; intros r cur; [destruct r; cbn; by rewrite app_nil_r|].
  destruct r as [|r]; cbn [pieces_from take_trails]; [cbn; by rewrite app_nil_r|].
  destruct (U8_IS_TRAIL b); cbn [length drop pieces]; [by rewrite IH, <- app_assoc|by rewrite app_nil_r].
Qed.

Lemma pieces_cons b u :
  pieces (b :: u) = (b :: own_trails b u) :: pieces (drop (length (own_trails b u)) u).
Proof. cbn [pieces]. by rewrite pieces_from_first. Qed.

Lemma pieces_from_concat r cur u : concat (pieces_from r cur u) = cur ++ u.
Proof.
  revert r cur. induction u as [|b u IH]; intros r cur; cbn [pieces_from concat]; [by rewrite app_nil_r|].
  destruct r as [|r]; [|destruct (U8_IS_TRAIL b)]; cbn [concat]; rewrite IH; by rewrite <- ?app_assoc.
Qed.

Lemma pieces_concat u : concat (pieces u) = u.
Proof. destruct u as [|b u]; [done|]. cbn [pieces]. by rewrite pieces_from_concat. Qed.

(** How many trail bytes the last piece of a text may still take. *)
Definition pending_step (r : nat) (b : Z) : nat :=
  match r with S r => if U8_IS_TRAIL b then r else trails_of b | O => trails_of b end.
Definition pending (u : list Z) : nat := fold_left pending_step u O.

Lemma pieces_from_snoc r cur u b :
  exists front w, pieces_from r cur u = front ++ [w] /\
    pieces_from r cur (u ++ [b]) =
      if U8_IS_TRAIL b && (0 <? Z.of_nat (fold_left pending_step u r)) then front ++ [w ++ [b]] else front ++ [w; [b]].
Proof.
  revert r cur. induction u as [|x u IH]; intros r cur.
  - exists [], cur. split; [done|]. destruct r as [|r]; cbn [app pieces_from fold_left].
    + by rewrite andb_false_r.
    + destruct (U8_IS_TRAIL b); done.
  - cbn [app pieces_from fold_left].
    assert (Hnew : exists front w, cur :: pieces_from (trails_of x) [x] u = front ++ [w] /\
      cur :: pieces_from (trails_of x) [x] (u ++ [b]) =
        if U8_IS_TRAIL b && (0 <? Z.of_nat (fold_left pending_step u (trails_of x)))
        then front ++ [w ++ [b]] else front ++ [w; [b]]).
    { destruct (IH (trails_of x) [x]) as (front & w & -> & ->). exists (cur :: front), w.
      split; [done|]. by destruct (_ && _). }
    destruct r as [|r]; [exact Hnew|]. cbn [pending_step]. destruct (U8_IS_TRAIL x); [apply IH|exact Hnew].
Qed.

Lemma pieces_snoc u b :
  u <> [] -> exists front w, pieces u = front ++ [w] /\
    pieces (u ++ [b]) =
      if U8_IS_TRAIL b && (0 <? Z.of_nat (pending u)) then front ++ [w ++ [b]] else front ++ [w; [b]].
Proof. destruct u as [|x u]; [done|]. intros _. cbn [app pieces]. apply pieces_from_snoc. Qed.

Notation is_trail := (fun x => U8_IS_TRAIL x = true).

(** The bytes behind the last piece [w] of a text: a byte that is no trail byte with the trail
    bytes it owns, or a trail byte that no lead byte owns. *)
Definition owned (u w : list Z) (r : nat) : Prop :=
  exists u0 b ts, u = u0 ++ b :: ts /\ w = b :: ts /\ U8_IS_TRAIL b = false /\ Forall is_trail ts /\
    (length ts + r)%nat = trails_of b.
Definition orphan (u w : list Z) (r : nat) : Prop :=
  exists v ts t, u = v ++ ts ++ [t] /\ w = [t] /\ Forall is_trail ts /\ U8_IS_TRAIL t = true /\ r = O /\
    (v = [] \/ exists v' x, v = v' ++ [x] /\ U8_IS_TRAIL x = false /\ (trails_of x <= length ts)%nat).

Lemma trails_of_trail b : byte8 b -> U8_IS_TRAIL b = true -> trails_of b = O.
Proof.
  intros Hb Ht. pose proof (count_lead b Hb) as Hc. rewrite lead_not_trail8 in Hc by done.
  pose proof (count_range b Hb). lia.
Qed.

Lemma last_piece u :
  Forall byte8 u -> u <> [] ->
  exists front w, pieces u = front ++ [w] /\ (owned u w (pending u) \/ orphan u w (pending u)).
Proof.
  induction u as [|b u IH] using rev_ind; [done|]. intros [Hu Hb]%Forall_app _. rewrite Forall_singleton in Hb.
  unfold pending. rewrite fold_left_app. cbn [fold_left]. fold (pending u).
  destruct (decide (u = [])) as [->|Hne].
  { exists [], [b]. split; [done|]. change (pending []) with O. cbn [pending_step]. destruct (U8_IS_TRAIL b) eqn:Ht.
    - right. exists [], [], b. split_and!; auto using trails_of_trail.
    - left. exists [], b, []. split_and!; auto. }
  destruct (IH Hu Hne) as (front & w & E & Hshape).
  destruct (pieces_snoc u b Hne) as (front' & w' & E' & ->). rewrite E in E'. apply app_inj_tail in E' as [<- <-].
  destruct (U8_IS_TRAIL b) eqn:Ht; cbn [andb]; [destruct (pending u) as [|r] eqn:Ep|]; cbn [pending_step]; rewrite ?Ht.
  - change (0 <? Z.of_nat 0) with false. cbv iota. exists (front ++ [w]), [b]. split; [by rewrite <- app_assoc|]. right.
    destruct Hshape as [(u0 & x & ts & -> & -> & Hx & Hts & Hl)|(v & ts & t & -> & -> & Hts & Ht' & _ & Hv)].
    + exists (u0 ++ [x]), ts, b. split_and!; auto using trails_of_trail; [by rewrite <- !app_assoc|].
      right. exists u0, x. split_and!; auto. lia.
    + exists v, (ts ++ [t]), b. split_and!; auto using trails_of_trail; [by rewrite <- !app_assoc| |].
      * apply Forall_app. split; [done|]. by constructor.
      * destruct Hv as [->|(v' & x & -> & Hx & Hl)]; [by left|right]. exists v', x. split_and!; auto.
        rewrite length_app. lia.
  - change (0 <? Z.of_nat (S r)) with true. cbv iota. exists front, (w ++ [b]). split; [done|]. left.
    destruct Hshape as [(u0 & x & ts & -> & -> & Hx & Hts & Hl)|(v & ts & t & _ & _ & _ & _ & ? & _)]; [|done].
    exists u0, x, (ts ++ [b]). split_and!; auto; [by rewrite <- app_assoc| |].
    + apply Forall_app. split; [done|]. by constructor.
    + rewrite length_app. cbn [length]. lia.
  - exists (front ++ [w]), [b]. split; [by rewrite <- app_assoc|]. left. exists u, b, []. split_and!; auto.
    destruct (pending u); cbn [length pending_step]; by rewrite ?Ht.
Qed.

(** *** One piece backward *)

Lemma fold_more ts a : fold_left more ts a = a * 64 ^ zlen ts + fold_left more ts 0.
Proof.
  revert a. induction ts as [|t ts IH]; intros a; cbn [fold_left]; [change (zlen (@nil Z)) with 0; lia|].
  rewrite IH, (IH (more 0 t)), zlen_cons, Z.pow_add_r by (pose proof (zlen_nonneg ts); lia).
  replace (more a t) with (a * 64 + (t - 0x80)) by done. replace (more 0 t) with (t - 0x80) by (unfold more; lia). lia.
Qed.

Lemma fold_more_range ts : Forall (fun t => 0x80 <= t <= 0xbf) ts -> 0 <= fold_left more ts 0 < 64 ^ zlen ts.
Proof.
  induction ts as [|t ts IH]; intros Ha; [done|]. apply Forall_cons in Ha as [Ht Ha]. specialize (IH Ha).
  cbn [fold_left]. rewrite fold_more, zlen_cons, Z.pow_add_r by (pose proof (zlen_nonneg ts); lia).
  replace (more 0 t) with (t - 0x80) by (unfold more; lia). nia.
Qed.

(** Putting a byte's bits in front of those already read. *)
Lemma lor_front x ts k :
  0 <= x -> Forall (fun t => 0x80 <= t <= 0xbf) ts -> k = zlen ts ->
  Z.lor (fold_left more ts 0) (Z.shiftl x (6 * k)) = fold_left more ts x.
Proof.
  intros Hx Ha ->. pose proof (fold_more_range ts Ha) as Hr. pose proof (zlen_nonneg ts).
  rewrite Z.lor_comm, Z.shiftl_mul_pow2 by lia. replace (2 ^ (6 * zlen ts)) with (64 ^ zlen ts) in *
    by (rewrite Z.pow_mul_r by lia; done).
  rewrite (fold_more ts x). replace (64 ^ zlen ts) with (2 ^ (6 * zlen ts)) in * by (rewrite Z.pow_mul_r by lia; done).
  rewrite lor_disjoint; lia.
Qed.

Lemma trail_bits t : byte8 t -> U8_IS_TRAIL t = true -> Z.land t 0x3f = t - 0x80.
Proof.
  intros Hb Ht. eapply (bytes_check (fun b => negb (U8_IS_TRAIL b) || (Z.land b 0x3f =? b - 0x80))) in Hb; [|by vm_compute].
  rewrite Ht in Hb. cbn [negb orb] in Hb. lia.
Qed.

(** The verdict on a lead byte reached over [count] trail bytes. *)
Lemma prev_verdict strict count x ts :
  byte8 x -> U8_IS_LEAD x = true -> strict < 0 -> count = zlen ts -> count = U8_COUNT_TRAIL_BYTES x ->
  Forall (fun t => 0x80 <= t <= 0xbf) ts ->
  let c := fold_left more ts (lead_bits x) in
  exists bad, (if (4 <=? count) || (0x10ffff <? c) then Some true
     else minimum ← zget utf8_minLegal count;
          Some ((c <? minimum) || U_IS_SURROGATE c && negb (strict =? -2) ||
                (0 <? strict) && U_IS_UNICODE_NONCHAR c)) = Some bad /\
    piece_value strict (x :: ts) = if bad then error8 strict else c.
Proof.
  intros Hx Hlead Hs Hlen Hcount Ha c. rewrite lead_byte in Hlead by done. pose proof (count_range x Hx).
  pose proof (count_lead x Hx) as Hcl. rewrite lead_byte in Hcl by done.
  rewrite piece_value_multi by lia. rewrite <- Hcount, <- Hlen, Z.eqb_refl. fold (seq_value x ts) in c. fold c.
  destruct (Z.leb_spec 1 count); [|lia]. cbn [andb].
  destruct (Z.leb_spec 4 count); cbn [orb].
  { eexists. split; [done|]. destruct (Z.leb_spec count 3); [lia|done]. }
  destruct (Z.leb_spec count 3); [|lia]. cbn [andb]. unfold legal.
  destruct (zget_is_Some utf8_minLegal count) as [m Hm]; [change (zlen utf8_minLegal) with 4; lia|]. rewrite Hm. cbn [from_option id mbind option_bind].
  destruct (Z.ltb_spec 0x10ffff c).
  { eexists. split; [done|]. destruct (Z.leb_spec c 0x10ffff); [lia|]. by rewrite andb_false_r. }
  eexists. split; [done|]. destruct (Z.leb_spec c 0x10ffff); [|lia]. rewrite andb_true_r.
  destruct (Z.ltb_spec 0 strict); [lia|]. cbn [andb]. rewrite orb_false_r.
  assert (0 <= c).
  { unfold c, seq_value. rewrite fold_more. pose proof (fold_more_range ts Ha). pose proof (lead_bits_range x Hx) as [Hl _].
    pose proof (Z.pow_nonneg 64 (zlen ts)). nia. }
  assert (U_IS_SURROGATE c = (0xd800 <=? c) && (c <=? 0xdfff)) as ->.
  { apply eq_true_iff_eq. rewrite surrogate_range, andb_true_iff, !Z.leb_le by lia. done. }
  rewrite (Z.ltb_antisym m c). destruct (m <=? c), (strict =? -2), ((0xd800 <=? c) && _); done.
Qed.

Lemma prev_loop_spec fuel v ts1 ts2 st strict pi :
  Forall byte8 (v ++ ts1 ++ ts2) -> Forall is_trail (ts1 ++ ts2) -> strict < 0 ->
  (fuel + length ts2 = 6)%nat -> (0 < length ts2)%nat -> (0 < fuel)%nat ->
  (v = [] \/ exists v' x, v = v' ++ [x] /\ U8_IS_TRAIL x = false) ->
  prev_loop fuel ((v ++ ts1) ++ ts2 ++ st) 0 pi (zlen (v ++ ts1)) (fold_left more ts2 0) (zlen ts2) (6 * zlen ts2) strict =
    Some (match last v with
          | Some x => if zlen (ts1 ++ ts2) <=? U8_COUNT_TRAIL_BYTES x
                      then (piece_value strict (x :: ts1 ++ ts2), zlen v - 1) else (error8 strict, pi)
          | None => (error8 strict, pi)
          end).
Proof.
  revert fuel ts2 st. induction ts1 as [|t ts1 IH] using rev_ind; intros fuel ts2 st Hby Htr Hs Hf Hp Hf0 Hv.
  - rewrite !app_nil_r. cbn [app] in *. destruct fuel as [|fuel]; [lia|]. cbn [prev_loop].
    destruct Hv as [->|(v' & x & -> & Hx)].
    { cbn [last]. destruct (Z.leb_spec (zlen (@nil Z)) 0); [|unfold zlen in *; simpl in *; lia].
      by rewrite errorValue_neg by done. }
    rewrite last_snoc, zlen_snoc. pose proof (zlen_nonneg v'). destruct (Z.leb_spec (zlen v' + 1) 0); [lia|].
    replace (zlen v' + 1 - 1) with (zlen v') by lia. rewrite <- app_assoc. cbn [app]. rewrite zget_middle. cbn [mbind option_bind].
    apply Forall_app in Hby as [[_ Hbx%Forall_cons]%Forall_app Hb2]. destruct Hbx as [Hbx _].
    rewrite lead_or_trail_offset, Hx by done. cbn [orb]. pose proof (count_lead x Hbx) as Hcl. pose proof (count_range x Hbx).
    destruct (U8_IS_LEAD x) eqn:Hlead.
    2:{ rewrite errorValue_neg by done. cbn [mbind option_bind]. destruct (Z.leb_spec (zlen ts2) (U8_COUNT_TRAIL_BYTES x)); [|done].
        unfold zlen in *. lia. }
    rewrite lead_bit by (done || by rewrite Hlead, orb_true_r). rewrite Hlead.
    assert (Ha : Forall (fun t => 0x80 <= t <= 0xbf) ts2).
    { rewrite Forall_forall in *. eauto using trail_range8. }
    destruct (Z.eqb_spec (zlen ts2) (U8_COUNT_TRAIL_BYTES x)) as [Heq|Hne].
    + replace (U8_MASK_LEAD_BYTE x (zlen ts2)) with (lead_bits x) by (unfold lead_bits; by rewrite Heq).
      pose proof (lead_bits_range x Hbx) as [Hl0 _]. rewrite lor_front by done.
      destruct (prev_verdict strict (zlen ts2) x ts2) as (bad & -> & ->); auto. cbn [mbind option_bind].
      destruct (Z.leb_spec (zlen ts2) (U8_COUNT_TRAIL_BYTES x)); [|lia].
      destruct bad; [|done]. by rewrite errorValue_neg by done.
    + destruct (Z.ltb_spec (zlen ts2) (U8_COUNT_TRAIL_BYTES x)), (Z.leb_spec (zlen ts2) (U8_COUNT_TRAIL_BYTES x)); try lia;
        rewrite errorValue_neg by done; cbn [mbind option_bind]; [|done].
      rewrite piece_value_multi by (rewrite lead_byte in Hlead by done; lia).
      by destruct (Z.eqb_spec (zlen ts2) (U8_COUNT_TRAIL_BYTES x)).
  - rewrite <- !app_assoc in *. cbn [app] in *. destruct fuel as [|fuel]; [lia|]. cbn [prev_loop].
    rewrite (app_assoc v), zlen_snoc. pose proof (zlen_nonneg (v ++ ts1)). destruct (Z.leb_spec (zlen (v ++ ts1) + 1) 0); [lia|].
    replace (zlen (v ++ ts1) + 1 - 1) with (zlen (v ++ ts1)) by lia. rewrite (app_assoc v ts1), zget_middle. cbn [mbind option_bind].
    assert (byte8 t /\ U8_IS_TRAIL t = true) as [Hbt Ht].
    { rewrite !Forall_app, Forall_cons in Hby. rewrite Forall_app, Forall_cons in Htr. naive_solver. }
    rewrite lead_or_trail_offset, Ht by done. cbn [orb]. rewrite lead_bit by (done || by rewrite Ht). rewrite lead_not_trail8 by done.
    destruct (Z.ltb_spec (zlen ts2) 5).
    + assert (Ha : Forall (fun t => 0x80 <= t <= 0xbf) ts2).
      { rewrite !Forall_app, Forall_cons in Hby. rewrite Forall_app, Forall_cons in Htr.
        destruct Hby as (_ & _ & _ & Hb2). destruct Htr as (_ & _ & Ht2). rewrite Forall_forall in *.
        eauto using trail_range8. }
      apply trail_range8 in Ht as Htr'; [|done].
      rewrite trail_bits, lor_front by (done || lia).
      replace (fold_left more ts2 (t - 0x80)) with (fold_left more (t :: ts2) 0) by (cbn [fold_left]; unfold more; f_equal; lia).
      replace (zlen ts2 + 1) with (zlen (t :: ts2)) by (by rewrite zlen_cons).
      replace (6 * zlen ts2 + 6) with (6 * zlen (t :: ts2)) by (rewrite zlen_cons; lia).
      specialize (IH fuel (t :: ts2) st). cbn [app] in IH. apply IH; auto; cbn [length]; unfold zlen in *; lia.
    + rewrite errorValue_neg by done. cbn [mbind option_bind].
      destruct Hv as [->|(v' & x & -> & Hx)]; [done|]. rewrite last_snoc.
      assert (byte8 x) as Hbx by (rewrite !Forall_app, Forall_cons in Hby; naive_solver).
      pose proof (count_range x Hbx). destruct (Z.leb_spec (zlen (ts1 ++ t :: ts2)) (U8_COUNT_TRAIL_BYTES x)); [|done].
      rewrite zlen_app, zlen_cons in *. pose proof (zlen_nonneg ts1). lia.
Qed.

Lemma lookup_last_byte (u : list Z) x st : zget (u ++ x :: st) (zlen (u ++ [x]) - 1) = Some x.
Proof. rewrite zlen_snoc. replace (zlen u + 1 - 1) with (zlen u) by lia. apply zget_middle. Qed.

Lemma piece_value_lone b strict :
  byte8 b -> piece_value strict [b] = if b <? 0x80 then b else error8 strict.
Proof.
  intros Hb. cbn [piece_value]. destruct (b <? 0x80); [done|]. change (zlen (@nil Z)) with 0.
  destruct (Z.eqb_spec 0 (U8_COUNT_TRAIL_BYTES b)) as [<-|]; done.
Qed.

(** The shape of a text that ends with a trail byte, as the backward functions meet it. *)
Definition before_trails (v : list Z) : Prop := v = [] \/ exists v' x, v = v' ++ [x] /\ U8_IS_TRAIL x = false.

Lemma prev_char_trails strict v ts t st :
  Forall byte8 (v ++ ts ++ [t]) -> Forall is_trail (ts ++ [t]) -> strict < 0 -> before_trails v ->
  prev_char strict ((v ++ ts ++ [t]) ++ st) 0 (zlen (v ++ ts ++ [t])) =
    Some (match last v with
          | Some x => if zlen (ts ++ [t]) <=? U8_COUNT_TRAIL_BYTES x
                      then (piece_value strict (x :: ts ++ [t]), zlen v - 1)
                      else (error8 strict, zlen (v ++ ts ++ [t]) - 1)
          | None => (error8 strict, zlen (v ++ ts ++ [t]) - 1)
          end).
Proof.
  intros Hb Ht Hs Hv. unfold prev_char. rewrite (app_assoc v ts), <- (app_assoc (v ++ ts)). cbn [app].
  rewrite lookup_last_byte. cbn [mbind option_bind].
  assert (byte8 t /\ U8_IS_TRAIL t = true) as [Hbt Htt] by (rewrite !Forall_app, !Forall_singleton in *; naive_solver).
  apply trail_range8 in Htt as Hr; [|done]. destruct (Z.leb_spec 0x80 t); [|lia].
  unfold utf8_prevCharSafeBody. rewrite Htt. cbn [negb]. rewrite trail_bits by done.
  replace (t - 0x80) with (fold_left more [t] 0) by (cbn; unfold more; lia).
  replace (zlen ((v ++ ts) ++ [t]) - 1) with (zlen (v ++ ts)) by (rewrite zlen_snoc; lia).
  change 6 with (6 * zlen [t]) at 1. change 1 with (zlen [t]) at 2.
  apply (prev_loop_spec 5 v ts [t] st strict); auto; cbn; lia.
Qed.

Lemma prev_char_spec strict u front w st :
  Forall byte8 u -> strict < 0 -> pieces u = front ++ [w] ->
  prev_char strict (u ++ st) 0 (zlen u) = Some (piece_value strict w, zlen u - zlen w).
Proof.
  intros Hb Hs E. assert (u <> []) as Hne by (intros ->; by destruct front).
  destruct (last_piece u Hb Hne) as (front' & w' & E' & Hshape). rewrite E in E'. apply app_inj_tail in E' as [_ <-].
  destruct Hshape as [(u0 & b & ts & -> & -> & Hx & Hts & Hl)|(v & ts & t & -> & -> & Hts & Ht & _ & Hv)].
  - destruct ts as [|t ts _] using rev_ind.
    + unfold prev_char. rewrite <- app_assoc. cbn [app]. rewrite lookup_last_byte. cbn [mbind option_bind].
      rewrite Forall_app, Forall_singleton in Hb. destruct Hb as [_ Hb]. rewrite piece_value_lone by done.
      change (zlen [b]) with 1. destruct (Z.leb_spec 0x80 b), (Z.ltb_spec b 0x80); try lia; [|done].
      unfold utf8_prevCharSafeBody. rewrite Hx. cbn [negb]. by rewrite errorValue_neg by done.
    + replace (u0 ++ b :: ts ++ [t]) with ((u0 ++ [b]) ++ ts ++ [t]) in * by (by rewrite <- app_assoc).
      rewrite prev_char_trails; auto; [|right; eauto]. rewrite last_snoc.
      assert (byte8 b) as Hbb by (rewrite !Forall_app, !Forall_singleton in *; naive_solver).
      pose proof (count_range b Hbb). destruct (Z.leb_spec (zlen (ts ++ [t])) (U8_COUNT_TRAIL_BYTES b)).
      * f_equal. f_equal. autorewrite with zlen. lia.
      * unfold zlen in *. lia.
  - assert (Hall : Forall is_trail (ts ++ [t])) by (apply Forall_app; split; [done|]; by constructor).
    rewrite prev_char_trails; auto.
    2:{ destruct Hv as [->|(v' & x & -> & ? & _)]; [by left|right; eauto]. }
    assert (byte8 t) as Hbt by (rewrite !Forall_app, !Forall_singleton in *; naive_solver).
    rewrite piece_value_lone by done. apply trail_range8 in Ht as Hr; [|done]. destruct (Z.ltb_spec t 0x80); [lia|].
    change (zlen [t]) with 1. destruct Hv as [->|(v' & x & -> & Hx & Hl)]; [done|]. rewrite last_snoc.
    assert (byte8 x) as Hbx by (rewrite !Forall_app, !Forall_singleton in *; naive_solver).
    pose proof (count_range x Hbx). destruct (Z.leb_spec (zlen (ts ++ [t])) (U8_COUNT_TRAIL_BYTES x)); [|done].
    rewrite zlen_snoc in *. unfold zlen in *. lia.
Qed.

(** *** Stepping without decoding *)

Lemma fwd_1_spec p b u limit :
  Forall byte8 (b :: u) -> ends_at (p ++ b :: u) u limit ->
  U8_FWD_1 (p ++ b :: u) (zlen p) limit = Some (zlen p + 1 + zlen (own_trails b u)).
Proof.
  intros [Hb Hu]%Forall_cons Hend. unfold U8_FWD_1. rewrite zget_middle. cbn [mbind option_bind].
  pose proof (count_lead b Hb) as Hc. pose proof (count_range b Hb). destruct (U8_IS_LEAD b).
  2:{ unfold own_trails. replace (U8_COUNT_TRAIL_BYTES b) with 0 by lia. change (zlen _) with 0 at 3. by rewrite Z.add_0_r. }
  rewrite snoc_app, <- (zlen_snoc p b) in *. pose proof (zlen_nonneg (p ++ [b])). pose proof (zlen_nonneg u).
  destruct (Z.leb_spec 0 limit); destruct (Z.ltb_spec limit (zlen (p ++ [b]) + U8_COUNT_TRAIL_BYTES b)); cbn [andb].
  - destruct Hend as [->|[? _]]; [|lia]. rewrite (zlen_app (p ++ [b])) in *.
    replace (uint8 _) with (zlen u) by (unfold uint8; rewrite Z.mod_small; lia).
    rewrite skip_trails_spec by (left; unfold zlen; lia). unfold own_trails.
    rewrite (take_trails_short (trails_of b)) by (unfold zlen in *; lia).
    by replace (Z.to_nat (zlen u)) with (length u) by (unfold zlen; lia).
  - destruct Hend as [->|[? _]]; [|lia]. rewrite (zlen_app (p ++ [b])) in *. apply skip_trails_spec. left. unfold zlen in *. lia.
  - destruct Hend as [->|[_ He]]; [rewrite (zlen_app (p ++ [b])) in *; lia|]. apply skip_trails_spec. by right.
  - destruct Hend as [->|[_ He]]; [rewrite (zlen_app (p ++ [b])) in *; lia|]. apply skip_trails_spec. by right.
Qed.

Lemma back1_loop_spec fuel v ts1 ts2 st z i :
  Forall byte8 (v ++ ts1) -> Forall is_trail ts1 -> before_trails v ->
  z = Z.max 0 (i - 5) -> z <= zlen (v ++ ts1) - 1 -> i = zlen (v ++ ts1) - 1 + zlen ts2 ->
  zlen (v ++ ts1) - z <= Z.of_nat fuel ->
  back1_loop fuel ((v ++ ts1) ++ ts2 ++ st) z (zlen (v ++ ts1) - 1) i =
    Some (match last v with
          | Some x => if zlen (ts1 ++ ts2) <=? U8_COUNT_TRAIL_BYTES x then zlen v - 1 else i
          | None => i
          end).
Proof.
  intros Hb Htr Hv Hz. revert ts2 st fuel. induction ts1 as [|t ts1 IH] using rev_ind; intros ts2 st fuel Hi Hlen Hf.
  - rewrite !app_nil_r in *. cbn [app]. destruct fuel as [|fuel]; [lia|]. cbn [back1_loop].
    destruct Hv as [->|(v' & x & -> & Hx)]; [unfold zlen in *; simpl in *; lia|].
    rewrite <- app_assoc. cbn [app]. rewrite lookup_last_byte, last_snoc. cbn [mbind option_bind].
    rewrite Forall_app, Forall_singleton in Hb. destruct Hb as [_ Hbx].
    pose proof (lead_or_trail_offset x Hbx) as Ho. rewrite Hx in Ho. cbn [orb] in Ho.
    pose proof (count_lead x Hbx) as Hcl. pose proof (count_range x Hbx). rewrite Z.leb_antisym, Ho.
    destruct (U8_IS_LEAD x) eqn:Hlead; cbn [negb].
    + rewrite lead_byte in Hlead by done. destruct (Z.leb_spec 0xc0 x); [|lia].
      replace (i - (zlen (v' ++ [x]) - 1)) with (zlen ts2) by lia. by destruct (_ <=? _).
    + destruct (Z.leb_spec (zlen ts2) (U8_COUNT_TRAIL_BYTES x)); [|done].
      assert (zlen ts2 = 0) as Hz0 by (pose proof (zlen_nonneg ts2); lia).
      rewrite Hz0 in *. f_equal. lia.
  - rewrite (app_assoc v ts1 [t]) in *. apply Forall_app in Hb as [Hb Hbt]. apply Forall_app in Htr as [Htr Ht].
    rewrite Forall_singleton in Hbt, Ht. destruct fuel as [|fuel]; [lia|]. cbn [back1_loop].
    rewrite <- (app_assoc (v ++ ts1) [t]). cbn [app]. rewrite lookup_last_byte. cbn [mbind option_bind].
    pose proof (lead_or_trail_offset t Hbt) as Ho. rewrite Ht in Ho. cbn [orb] in Ho. rewrite Z.leb_antisym, Ho. cbn [negb].
    apply trail_range8 in Ht as Hr; [|done]. destruct (Z.leb_spec 0xc0 t); [lia|].
    rewrite zlen_snoc in *. replace (zlen (v ++ ts1) + 1 - 1 - 1) with (zlen (v ++ ts1) - 1) by lia.
    destruct (Z.leb_spec z (zlen (v ++ ts1) - 1)).
    + specialize (IH Hb Htr (t :: ts2) st fuel). cbn [app] in IH. rewrite IH; rewrite ?zlen_cons; [|lia..].
      by rewrite <- app_assoc.
    + destruct Hv as [->|(v' & x & -> & Hx)]; [done|]. rewrite last_snoc.
      rewrite !Forall_app, Forall_singleton in Hb. destruct Hb as [[_ Hbx] _]. pose proof (count_range x Hbx).
      destruct (Z.leb_spec (zlen ((ts1 ++ [t]) ++ ts2)) (U8_COUNT_TRAIL_BYTES x)); [|done].
      rewrite !zlen_app in *. change (zlen [t]) with 1 in *. change (zlen [x]) with 1 in *.
      pose proof (zlen_nonneg v'). pose proof (zlen_nonneg ts1). lia.
Qed.

Lemma back_1_trails v ts t st :
  Forall byte8 (v ++ ts ++ [t]) -> Forall is_trail (ts ++ [t]) -> before_trails v ->
  U8_BACK_1 ((v ++ ts ++ [t]) ++ st) 0 (zlen (v ++ ts ++ [t])) =
    Some (match last v with
          | Some x => if zlen (ts ++ [t]) <=? U8_COUNT_TRAIL_BYTES x then zlen v - 1 else zlen (v ++ ts ++ [t]) - 1
          | None => zlen (v ++ ts ++ [t]) - 1
          end).
Proof.
  intros Hb Ht Hv. unfold U8_BACK_1.
  assert (byte8 t /\ U8_IS_TRAIL t = true) as [Hbt Htt] by (rewrite !Forall_app, !Forall_singleton in *; naive_solver).
  replace (zget _ _) with (Some t).
  2:{ rewrite (app_assoc v ts), <- (app_assoc (v ++ ts)). cbn [app]. by rewrite lookup_last_byte. }
  cbn [mbind option_bind]. rewrite Htt. unfold utf8_back1SafeBody.
  replace ((v ++ ts ++ [t]) ++ st) with ((v ++ ts ++ [t]) ++ [] ++ st) by done.
  pose proof (zlen_nonneg (v ++ ts)) as Hn. assert (Hl : zlen (v ++ ts ++ [t]) = zlen (v ++ ts) + 1) by (rewrite app_assoc; apply zlen_snoc).
  rewrite (back1_loop_spec 6 v (ts ++ [t]) [] st); auto.
  - by rewrite app_nil_r.
  - destruct (Z.ltb_spec 0 (zlen (v ++ ts ++ [t]) - 1 - 5)); lia.
  - destruct (Z.ltb_spec 0 (zlen (v ++ ts ++ [t]) - 1 - 5)); lia.
  - change (zlen (@nil Z)) with 0. lia.
  - destruct (Z.ltb_spec 0 (zlen (v ++ ts ++ [t]) - 1 - 5)); lia.
Qed.

(** [U8_BACK_1] stops where [U8_PREV] does. *)
Lemma back_1_prev u st c i strict :
  Forall byte8 u -> u <> [] -> strict < 0 -> prev_char strict (u ++ st) 0 (zlen u) = Some (c, i) ->
  U8_BACK_1 (u ++ st) 0 (zlen u) = Some i.
Proof.
  intros Hb Hne Hs Hp.
  assert (Hshape : (exists u0 b, u = u0 ++ [b] /\ U8_IS_TRAIL b = false) \/
    exists v ts t, u = v ++ ts ++ [t] /\ Forall is_trail (ts ++ [t]) /\ before_trails v).
  { destruct (last_piece u Hb Hne) as (_ & w & _ & [(u0 & b & ts & -> & _ & Hx & Hts & _)|(v & ts & t & -> & _ & Hts & Ht & _ & Hv)]).
    - destruct ts as [|t ts _] using rev_ind; [by left; eauto|right]. exists (u0 ++ [b]), ts, t.
      split_and!; [by rewrite <- app_assoc|done|right; eauto].
    - right. exists v, ts, t. split_and!; [done|apply Forall_app; split; [done|by constructor]|].
      destruct Hv as [->|(v' & x & -> & ? & _)]; [by left|right; eauto]. }
  destruct Hshape as [(u0 & b & -> & Hx)|(v & ts & t & -> & Hts & Hv)].
  - unfold prev_char in Hp. unfold U8_BACK_1. rewrite <- app_assoc in *. cbn [app] in *. rewrite lookup_last_byte in *.
    cbn [mbind option_bind] in *. rewrite Hx. destruct (0x80 <=? b); [|congruence].
    unfold utf8_prevCharSafeBody in Hp. rewrite Hx, errorValue_neg in Hp by done. cbn in Hp. congruence.
  - rewrite prev_char_trails in Hp by done. rewrite back_1_trails by done.
    destruct (last v) as [x|]; [destruct (_ <=? _)|]; congruence.
Qed.

(** ** Iteration over a whole text *)

(** Taking steps from [i] until [stop]: what each step returns and where it ends. *)
Fixpoint walk {A} (step : Z -> option (A * Z)) (stop : Z) (fuel : nat) (i : Z) : option (list (A * Z)) :=
  if i =? stop then Some []
  else match fuel with
       | O => None
       | S fuel => '(a, i) ← step i; r ← walk step stop fuel i; Some ((a, i) :: r)
       end.

(** A step that only moves. *)
Definition moves (step : Z -> option Z) (i : Z) : option (unit * Z) := i ← step i; Some (tt, i).

(** The pieces with their ends, and with their starts. *)
Fixpoint with_ends (strict i : Z) (ws : list (list Z)) : list (Z * Z) :=
  match ws with [] => [] | w :: ws => (piece_value strict w, i + zlen w) :: with_ends strict (i + zlen w) ws end.
Fixpoint with_starts (strict i : Z) (ws : list (list Z)) : list (Z * Z) :=
  match ws with [] => [] | w :: ws => (piece_value strict w, i) :: with_starts strict (i + zlen w) ws end.

Lemma with_starts_app strict i ws w :
  with_starts strict i (ws ++ [w]) = with_starts strict i ws ++ [(piece_value strict w, i + zlen (concat ws))].
Proof.
  revert i. induction ws as [|x ws IH]; intros i; cbn [app with_starts concat].
  - change (zlen (@nil Z)) with 0. by rewrite Z.add_0_r.
  - rewrite IH, zlen_app, Z.add_assoc. done.
Qed.

Lemma forward_walk strict p u fuel :
  Forall byte8 u -> strict < 0 -> (length u <= fuel)%nat ->
  let s := p ++ u in let r := with_ends strict (zlen p) (pieces u) in
  walk (fun i => next_char strict s i (zlen s)) (zlen s) fuel (zlen p) = Some r /\
  walk (moves (fun i => U8_FWD_1 s i (zlen s))) (zlen s) fuel (zlen p) = Some (map (fun x => (tt, x.2)) r).
Proof.
  intros Hu Hs. revert p u Hu. induction fuel as [|fuel IH]; intros p u Hu Hf s r; subst s r.
  { destruct u; [|simpl in *; lia]. rewrite app_nil_r. cbn. by rewrite Z.eqb_refl. }
  destruct u as [|b u]; [rewrite app_nil_r; cbn; by rewrite Z.eqb_refl|].
  assert (Hend : ends_at (p ++ b :: u) u (zlen (p ++ b :: u))) by by left.
  cbn [walk]. pose proof (zlen_nonneg u).
  destruct (Z.eqb_spec (zlen p) (zlen (p ++ b :: u))); [rewrite zlen_app, zlen_cons in *; lia|].
  assert (Hm : moves (fun i => U8_FWD_1 (p ++ b :: u) i (zlen (p ++ b :: u))) (zlen p) =
    Some (tt, zlen p + 1 + zlen (own_trails b u))) by (unfold moves; by rewrite fwd_1_spec).
  rewrite next_char_spec, Hm by done. cbn [mbind option_bind].
  pose proof (take_trails_prefix (trails_of b) u) as Hsp. fold (own_trails b u) in Hsp.
  set (w := own_trails b u) in *. set (u' := drop (length w) u) in *.
  assert (Hlen : (length u' <= fuel)%nat) by (unfold u'; rewrite length_drop; simpl in Hf; lia).
  apply Forall_cons in Hu as [Hb Hu]. rewrite Hsp, Forall_app in Hu. destruct Hu as [_ Hu'].
  destruct (IH (p ++ b :: w) u' Hu' Hlen) as [IH1 IH2].
  replace ((p ++ b :: w) ++ u') with (p ++ b :: u) in IH1, IH2 by (rewrite Hsp at 1; by rewrite <- app_assoc).
  replace (zlen (p ++ b :: w)) with (zlen p + 1 + zlen w) in IH1, IH2 by (autorewrite with zlen; lia).
  rewrite IH1, IH2. cbn [mbind option_bind]. rewrite pieces_cons. fold w u'. cbn [with_ends map snd].
  replace (zlen p + zlen (b :: w)) with (zlen p + 1 + zlen w) by (rewrite zlen_cons; lia). done.
Qed.

(** Cutting a text between two pieces leaves the pieces before the cut. *)
Lemma take_trails_cut n u x y :
  drop (length (take_trails n u)) u = x ++ y -> take_trails n (take_trails n u ++ x) = take_trails n u.
Proof.
  revert u. induction n as [|n IH]; intros u E; [done|]. destruct u as [|b u]; cbn [take_trails] in *.
  - destruct x; [done|]. by cbn in E.
  - destruct (U8_IS_TRAIL b) eqn:Hb; cbn [length drop app] in *.
    + cbn [take_trails]. by rewrite Hb, IH.
    + destruct x as [|b' x]; [done|]. cbn [app] in E. injection E as <- _. cbn [take_trails]. by rewrite Hb.
Qed.

Lemma pieces_front front ws u : pieces u = front ++ ws -> pieces (concat front) = front.
Proof.
  revert u. induction front as [|x front IH]; intros u E; [done|].
  destruct u as [|b u]; [done|]. rewrite pieces_cons in E. cbn [app] in E. injection E as <- E.
  pose proof (pieces_concat (drop (length (own_trails b u)) u)) as Hc. rewrite E, concat_app in Hc. symmetry in Hc.
  cbn [concat app]. rewrite pieces_cons. unfold own_trails in *. rewrite (take_trails_cut _ _ _ _ Hc).
  rewrite drop_app_length. by rewrite (IH _ E).
Qed.

Lemma backward_walk strict u st fuel :
  Forall byte8 u -> strict < 0 -> (length u <= fuel)%nat ->
  let r := rev (with_starts strict 0 (pieces u)) in
  walk (fun i => prev_char strict (u ++ st) 0 i) 0 fuel (zlen u) = Some r /\
  walk (moves (fun i => U8_BACK_1 (u ++ st) 0 i)) 0 fuel (zlen u) = Some (map (fun x => (tt, x.2)) r).
Proof.
  intros Hu Hs. revert u st Hu. induction fuel as [|fuel IH]; intros u st Hu Hf r; subst r.
  { destruct u; [done|simpl in *; lia]. }
  destruct (decide (u = [])) as [->|Hne]; [done|].
  destruct (last_piece u Hu Hne) as (front & w & E & _).
  pose proof (prev_char_spec strict u front w st Hu Hs E) as Hp.
  pose proof (back_1_prev u st _ _ strict Hu Hne Hs Hp) as Hback.
  pose proof (pieces_concat u) as Hc. rewrite E, concat_app in Hc. cbn [concat] in Hc. rewrite app_nil_r in Hc.
  pose proof (pieces_front front [w] u E) as Hfr.
  assert (Hw : w <> []).
  { intros ->. rewrite app_nil_r in Hc. rewrite Hc, E in Hfr. apply (f_equal length) in Hfr. rewrite length_app in Hfr. simpl in Hfr. lia. }
  assert (0 < zlen u) by (destruct u; [done|rewrite zlen_cons; pose proof (zlen_nonneg u); lia]).
  cbn [walk]. destruct (Z.eqb_spec (zlen u) 0); [lia|]. 
  assert (Hm : moves (fun i => U8_BACK_1 (u ++ st) 0 i) (zlen u) = Some (tt, zlen u - zlen w)) by (unfold moves; by rewrite Hback).
  rewrite Hp, Hm. cbn [mbind option_bind].
  replace (zlen u - zlen w) with (zlen (concat front)) by (rewrite <- Hc, zlen_app; lia).
  assert (Hcf : Forall byte8 (concat front)) by (rewrite <- Hc, Forall_app in Hu; apply Hu).
  destruct (IH (concat front) (w ++ st) Hcf) as [IH1 IH2].
  { rewrite <- Hc, length_app in Hf. destruct w; [done|]. simpl in Hf. lia. }
  rewrite Hfr, app_assoc, Hc in *. rewrite IH1, IH2. cbn [mbind option_bind].
  rewrite E, with_starts_app, rev_app_distr. cbn [rev app map snd]. by rewrite Z.add_0_l.
Qed.

(** C33: over any sequence of bytes, well-formed or not, [U8_NEXT], [U8_NEXT_OR_FFFD] and
    [U8_FWD_1] from the start and [U8_PREV], [U8_PREV_OR_FFFD] and [U8_BACK_1] from the end cut
    the text into the same pieces and see the same code points and errors in them; no step reads
    outside the text, and every step makes progress. *)
Theorem utf8_iteration u strict :
  Forall byte8 u -> strict = -1 \/ strict = -3 ->
  let n := zlen u in let fuel := length u in let ps := pieces u in
  concat ps = u /\
  walk (fun i => next_char strict u i n) n fuel 0 = Some (with_ends strict 0 ps) /\
  walk (moves (fun i => U8_FWD_1 u i n)) n fuel 0 = Some (map (fun x => (tt, x.2)) (with_ends strict 0 ps)) /\
  walk (fun i => prev_char strict u 0 i) 0 fuel n = Some (rev (with_starts strict 0 ps)) /\
  walk (moves (fun i => U8_BACK_1 u 0 i)) 0 fuel n = Some (map (fun x => (tt, x.2)) (rev (with_starts strict 0 ps))).
Proof.
  intros Hu Hs n fuel ps. assert (strict < 0) as Hneg by lia.
  pose proof (forward_walk strict [] u (length u) Hu Hneg ltac:(lia)) as [H1 H2].
  pose proof (backward_walk strict u [] (length u) Hu Hneg ltac:(lia)) as [H3 H4].
  rewrite app_nil_r in H3, H4. split; [apply pieces_concat|]. by split_and!.
Qed.

Definition ill_formed : list Z := [0x41; 0xe2; 0x82; 0xac; 0x80; 0xf0; 0x9f; 0x41; 0xed; 0xa0; 0x80].

Lemma ill_formed_bytes : Forall byte8 ill_formed.
Proof. repeat constructor; done. Qed.

(** [A], the euro sign, a stray trail byte, a truncated sequence, [A], an encoded surrogate. *)
Lemma utf8_iteration_witness :
  let u := ill_formed in
  walk (fun i => U8_NEXT_OR_FFFD u i 11) 11 11 0 =
    Some [(0x41, 1); (0x20ac, 4); (0xfffd, 5); (0xfffd, 7); (0x41, 8); (0xfffd, 11)] /\
  walk (fun i => U8_PREV_OR_FFFD u 0 i) 0 11 11 =
    Some [(0xfffd, 8); (0x41, 7); (0xfffd, 5); (0xfffd, 4); (0x20ac, 1); (0x41, 0)].
Proof.
  destruct (utf8_iteration ill_formed (-3) ill_formed_bytes (or_intror eq_refl)) as (_ & H1 & _ & H2 & _).
  split; [exact H1|exact H2].
Defined.

(** ** Encoding *)

(** A Unicode scalar value: a code point that is no surrogate. *)
Definition scalar (c : Z) : Prop := code_point c /\ ~ (0xd800 <= c <= 0xdfff).

Definition encode8 (c : Z) : list Z :=
  if c <=? 0x7f then [c]
  else if c <=? 0x7ff then [0xc0 + c / 64; 0x80 + c mod 64]
  else if c <=? 0xffff then [0xe0 + c / 4096; 0x80 + c / 64 mod 64; 0x80 + c mod 64]
  else [0xf0 + c / 262144; 0x80 + c / 4096 mod 64; 0x80 + c / 64 mod 64; 0x80 + c mod 64].

Lemma trail_6_value c : 0 <= c -> trail_6 c = 0x80 + c mod 64.
Proof.
  intros Hc. unfold trail_6. change 0x3f with (Z.ones 6). rewrite land_low by lia. rewrite Z.lor_comm.
  change 0x80 with (2 * 2 ^ 6) at 1. rewrite lor_disjoint by (lia || apply Z.mod_pos_bound; lia). done.
Qed.

Lemma lead_2_value c : 0 <= c <= 0x7ff -> lead_2 c = 0xc0 + c / 64.
Proof.
  intros Hc. unfold lead_2. rewrite Z.shiftr_div_pow2, Z.lor_comm by lia. change 0xc0 with (3 * 2 ^ 6) at 1.
  rewrite lor_disjoint; [done|lia|]. change (2 ^ 6) with 64. dlia.
Qed.

Lemma lead_3_value c : 0 <= c <= 0xffff -> lead_3 c = 0xe0 + c / 4096.
Proof.
  intros Hc. unfold lead_3. rewrite Z.shiftr_div_pow2, Z.lor_comm by lia. change 0xe0 with (14 * 2 ^ 4) at 1.
  rewrite lor_disjoint; [done|lia|]. change (2 ^ 12) with 4096. change (2 ^ 4) with 16. dlia.
Qed.

Lemma lead_4_value c : 0 <= c <= 0x10ffff -> lead_4 c = 0xf0 + c / 262144.
Proof.
  intros Hc. unfold lead_4. rewrite Z.shiftr_div_pow2, Z.lor_comm by lia. change 0xf0 with (15 * 2 ^ 4) at 1.
  rewrite lor_disjoint; [done|lia|]. change (2 ^ 18) with 262144. change (2 ^ 4) with 16. dlia.
Qed.

(** The bytes the writing macros store for [c], as the code computes them. *)
Definition stored (c : Z) : list Z :=
  if c <=? 0x7f then [c]
  else if c <=? 0x7ff then [lead_2 c; trail_6 c]
  else if c <=? 0xffff then [lead_3 c; trail_6 (Z.shiftr c 6); trail_6 c]
  else [lead_4 c; trail_6 (Z.shiftr c 12); trail_6 (Z.shiftr c 6); trail_6 c].

Lemma stored_encode c : code_point c -> stored c = encode8 c.
Proof.
  unfold code_point. intros Hc. unfold stored, encode8.
  assert (Hs : forall k, 0 <= k -> 0 <= Z.shiftr c k) by (intros; apply Z.shiftr_nonneg; lia).
  repeat zcase; rewrite ?trail_6_value by (auto with lia); rewrite ?lead_2_value, ?lead_3_value, ?lead_4_value by lia;
    rewrite ?Z.shiftr_div_pow2 by lia; done.
Qed.

Lemma encode8_bytes c : code_point c -> Forall byte8 (encode8 c).
Proof.
  unfold code_point, encode8. intros Hc. repeat zcase; repeat constructor; unfold byte8; dlia.
Qed.

Lemma encode8_length c : scalar c -> zlen (encode8 c) = U8_LENGTH c.
Proof.
  intros [Hc Hs]. unfold code_point, encode8, U8_LENGTH in *.
  replace (uint32 c) with c by (unfold uint32; rewrite Z.mod_small; lia).
  repeat (zcase; cbn [orb]; try lia; try done).
Qed.

Lemma encode8_size c :
  zlen (encode8 c) = if c <=? 0x7f then 1 else if c <=? 0x7ff then 2 else if c <=? 0xffff then 3 else 4.
Proof. unfold encode8. by repeat zcase. Qed.

Lemma encode8_nonempty c : 0 < zlen (encode8 c).
Proof. unfold encode8. by repeat zcase. Qed.

(** Writing the bytes [bs] over as many old ones. *)
Lemma put_bytes_spec p old rest bs :
  zlen old = zlen bs -> put_bytes (p ++ old ++ rest) (zlen p) bs = Some (p ++ map uint8 bs ++ rest, zlen p + zlen bs).
Proof.
  revert p old. induction bs as [|b bs IH]; intros p old Hl; cbn [put_bytes map app].
  - apply zlen_0_inv in Hl as ->. change (zlen (@nil Z)) with 0. by rewrite Z.add_0_r.
  - destruct old as [|x old]; rewrite ?zlen_cons, ?zlen_nil in *; [pose proof (zlen_nonneg bs); lia|].
    cbn [app]. rewrite zset_middle. cbn [mbind option_bind]. rewrite snoc_app, <- (zlen_snoc p (uint8 b)).
    rewrite (IH (p ++ [uint8 b]) old) by lia. rewrite <- app_assoc, zlen_snoc. cbn [app]. f_equal. f_equal. lia.
Qed.

Lemma uint8_bytes bs : Forall byte8 bs -> map uint8 bs = bs.
Proof.
  induction 1 as [|b bs Hb Hbs IH]; [done|]. cbn [map]. rewrite IH. f_equal. unfold byte8, uint8 in *.
  apply Z.mod_small. lia.
Qed.

Lemma put_stored p old rest c :
  code_point c -> zlen old = zlen (encode8 c) ->
  put_bytes (p ++ old ++ rest) (zlen p) (stored c) = Some (p ++ encode8 c ++ rest, zlen p + zlen (encode8 c)).
Proof.
  intros Hc Hl. rewrite stored_encode, put_bytes_spec by done. by rewrite uint8_bytes by by apply encode8_bytes.
Qed.

(** [U8_APPEND] writes the encoding of a scalar value when it fits ... *)
Lemma append8_spec p old rest c :
  scalar c -> zlen old = zlen (encode8 c) ->
  let s := p ++ old ++ rest in
  U8_APPEND s (zlen p) (zlen s) c = Some (p ++ encode8 c ++ rest, zlen p + zlen (encode8 c), false).
Proof.
  intros [Hc Hsur] Hl s. pose proof (put_stored p old rest c Hc Hl) as Hput. fold s in Hput.
  assert (Hlen : zlen s = zlen p + zlen (encode8 c) + zlen rest) by (unfold s; rewrite !zlen_app, Hl; lia).
  pose proof (zlen_nonneg rest). unfold code_point in Hc.
  assert (Hsu : U_IS_SURROGATE c = false).
  { apply not_true_iff_false. rewrite surrogate_range by lia. lia. }
  unfold U8_APPEND, utf8_appendCharSafeBody. replace (uint32 c) with c by (unfold uint32; rewrite Z.mod_small; lia).
  revert Hput. rewrite Hlen, encode8_size, Hsu. unfold stored. intros Hput.
  destruct (Z.leb_spec c 0x7f); [by rewrite Hput|]. destruct (Z.leb_spec c 0x7ff).
  { cbn [andb]. destruct (Z.ltb_spec (zlen p + 1) (zlen p + 2 + zlen rest)); [|lia]. by rewrite Hput. }
  cbn [andb]. destruct (Z.leb_spec c 0xffff).
  - destruct (Z.ltb_spec (zlen p + 2) (zlen p + 3 + zlen rest)); [|lia]. rewrite !Hput. by destruct (_ && _).
  - destruct (Z.leb_spec c 0xd7ff); [lia|]. cbn [andb]. destruct (Z.leb_spec c 0x10ffff); [|lia].
    destruct (Z.ltb_spec (zlen p + 3) (zlen p + 4 + zlen rest)); [|lia]. by rewrite Hput.
Qed.

(** ... and reports everything else as an error, leaving the text alone. *)
Lemma append8_error s i c :
  0x80 <= c <= 0xffffffff -> ~ scalar c \/ zlen s < i + zlen (encode8 c) ->
  U8_APPEND s i (zlen s) c = Some (s, i, true).
Proof.
  intros Hc Hor. unfold U8_APPEND, utf8_appendCharSafeBody, scalar, code_point in *.
  replace (uint32 c) with c by (unfold uint32; rewrite Z.mod_small; lia).
  pose proof (surrogate_range c ltac:(lia)) as Hsu. rewrite encode8_size in Hor.
  destruct (Z.leb_spec c 0x7f); [lia|]. destruct (Z.leb_spec c 0x7ff); [|destruct (Z.leb_spec c 0xffff)].
  - cbn [andb]. destruct (Z.ltb_spec (i + 1) (zlen s)); [exfalso; lia|].
    destruct (Z.ltb_spec (i + 2) (zlen s)); [lia|by rewrite andb_false_r].
  - cbn [andb]. destruct (Z.ltb_spec (i + 2) (zlen s)); [|by rewrite andb_false_r].
    destruct (U_IS_SURROGATE c); cbn [andb negb]; [|exfalso; lia].
    destruct (Z.leb_spec c 0xd7ff); [lia|done].
  - destruct (Z.leb_spec c 0xd7ff); [lia|]. cbn [andb]. destruct (Z.leb_spec c 0x10ffff); [|done].
    destruct (Z.ltb_spec (i + 3) (zlen s)); [|done]. exfalso. lia.
Qed.

(** *** Reading what was written *)

Lemma encode8_piece c strict : scalar c -> strict < 0 -> piece_value strict (encode8 c) = c.
Proof.
  intros [Hc Hs] Hneg. unfold code_point in Hc. unfold encode8.
  assert (Hlead : forall k b, 0x80 <= b -> 0 < k <= 3 -> U8_COUNT_TRAIL_BYTES b = k -> forall ts, zlen ts = k ->
    seq_value b ts = c -> default 0 (zget utf8_minLegal k) <= c -> piece_value strict (b :: ts) = c).
  { intros k b Hb Hk Hcount ts Hts Hv Hmin. rewrite piece_value_multi by lia. rewrite Hcount, Hts, Hv, Z.eqb_refl.
    destruct (Z.leb_spec 1 k), (Z.leb_spec k 3); try lia. cbn [andb]. rewrite legal_12 by lia. unfold surrogate_ok.
    destruct (Z.leb_spec (default 0 (zget utf8_minLegal k)) c); [|lia]. 
    destruct (Z.leb_spec 0xd800 c), (Z.leb_spec c 0xdfff); try lia; cbn [andb negb]; by rewrite orb_true_r. }
  assert (Hbits : forall b lo hi k, 0 <= b <= 0xff ->
    forallb (fun b => negb ((lo <=? b) && (b <=? hi)) || (U8_COUNT_TRAIL_BYTES b =? k) && (lead_bits b =? b - lo)) (seqZ 0 256) = true ->
    lo <= b <= hi -> U8_COUNT_TRAIL_BYTES b = k /\ lead_bits b = b - lo).
  { intros b lo hi k Hb HP Hr. pose proof (bytes_check _ HP b Hb) as Hx. cbv beta in Hx. lia. }
  repeat zcase.
  - cbn [piece_value]. by destruct (Z.ltb_spec c 0x80); [|lia].
  - destruct (Hbits (0xc0 + c / 64) 0xc0 0xdf 1) as [Hk Hl]; [dlia|by vm_compute|dlia|].
    apply (Hlead 1); try done; [dlia| |change (default 0 (zget utf8_minLegal 1)) with 0x80; lia]. unfold seq_value, more. cbn [fold_left]. rewrite Hl. dlia.
  - destruct (Hbits (0xe0 + c / 4096) 0xe0 0xef 2) as [Hk Hl]; [dlia|by vm_compute|dlia|].
    apply (Hlead 2); try done; [dlia| |change (default 0 (zget utf8_minLegal 2)) with 0x800; lia]. unfold seq_value, more. cbn [fold_left]. rewrite Hl. dlia.
  - destruct (Hbits (0xf0 + c / 262144) 0xf0 0xf7 3) as [Hk Hl]; [dlia|by vm_compute|dlia|].
    apply (Hlead 3); try done; [dlia| |change (default 0 (zget utf8_minLegal 3)) with 0x10000; lia]. unfold seq_value, more. cbn [fold_left]. rewrite Hl. dlia.
Qed.

(** A complete sequence is a piece, whatever follows. *)
Lemma encode8_first c : scalar c ->
  exists b ts, encode8 c = b :: ts /\ zlen ts = U8_COUNT_TRAIL_BYTES b /\ Forall is_trail ts.
Proof.
  intros [Hc Hs]. unfold code_point in Hc. unfold encode8.
  assert (Hbits : forall b lo hi k, 0 <= b <= 0xff ->
    forallb (fun b => negb ((lo <=? b) && (b <=? hi)) || (U8_COUNT_TRAIL_BYTES b =? k)) (seqZ 0 256) = true ->
    lo <= b <= hi -> k = U8_COUNT_TRAIL_BYTES b).
  { intros b lo hi k Hb HP Hr. pose proof (bytes_check _ HP b Hb) as Hx. cbv beta in Hx. lia. }
  assert (Ht : forall x, U8_IS_TRAIL (0x80 + x mod 64) = true).
  { intros x. rewrite trail_byte by (unfold byte8; dlia). apply andb_true_iff. rewrite !Z.leb_le. dlia. }
  repeat zcase; eexists _, _; (split; [done|]); split; auto.
  - apply (Hbits c 0 0x7f); [lia|by vm_compute|lia].
  - apply (Hbits _ 0xc0 0xdf); [dlia|by vm_compute|dlia].
  - apply (Hbits _ 0xe0 0xef); [dlia|by vm_compute|dlia].
  - apply (Hbits _ 0xf0 0xf7); [dlia|by vm_compute|dlia].
Qed.

Lemma take_trails_full ts u : Forall is_trail ts -> take_trails (length ts) (ts ++ u) = ts.
Proof. induction 1 as [|t ts Ht _ IH]; [done|]. cbn [length app take_trails]. by rewrite Ht, IH. Qed.

Lemma pieces_encode8 c u : scalar c -> pieces (encode8 c ++ u) = encode8 c :: pieces u.
Proof.
  intros Hc. destruct (encode8_first c Hc) as (b & ts & -> & Hl & Hts). cbn [app]. rewrite pieces_cons.
  unfold own_trails. rewrite <- Hl. unfold zlen. rewrite Nat2Z.id, take_trails_full by done. by rewrite drop_app_length.
Qed.

Lemma pieces_encoded cs : Forall scalar cs -> pieces (concat (map encode8 cs)) = map encode8 cs.
Proof. induction 1 as [|c cs Hc Hcs IH]; [done|]. cbn [map concat]. by rewrite pieces_encode8, IH. Qed.

Lemma decode8_encoded cs strict : Forall scalar cs -> strict < 0 -> decode8 strict (concat (map encode8 cs)) = cs.
Proof.
  intros Hcs Hs. unfold decode8. rewrite pieces_encoded, map_map by done. induction Hcs as [|c cs Hc Hcs IH]; [done|].
  cbn [map]. by rewrite encode8_piece, IH.
Qed.

Lemma encoded_bytes cs : Forall scalar cs -> Forall byte8 (concat (map encode8 cs)).
Proof.
  induction 1 as [|c cs [Hc _] Hcs IH]; [done|]. cbn [map concat]. apply Forall_app. split; [by apply encode8_bytes|done].
Qed.

(** [U8_APPEND] for each code point in turn. *)
Fixpoint append_all8 (s : list Z) (i capacity : Z) (cs : list Z) : option (list Z * Z) :=
  match cs with
  | [] => Some (s, i)
  | c :: cs => '(s, i, isError) ← U8_APPEND s i capacity c;
               if (isError : bool) then None else append_all8 s i capacity cs
  end.

Lemma append_all8_spec p old rest cs :
  Forall scalar cs -> zlen old = zlen (concat (map encode8 cs)) ->
  let s := p ++ old ++ rest in let t := concat (map encode8 cs) in
  append_all8 s (zlen p) (zlen s) cs = Some (p ++ t ++ rest, zlen p + zlen t).
Proof.
  intros Hcs. revert p old. induction Hcs as [|c cs Hc Hcs IH]; intros p old Hl; cbn [map concat append_all8] in *.
  { apply zlen_0_inv in Hl as ->. change (zlen (@nil Z)) with 0. by rewrite Z.add_0_r. }
  rewrite zlen_app in Hl. pose proof (zlen_nonneg (concat (map encode8 cs))) as Hn.
  pose proof (encode8_nonempty c) as Hc0.
  set (k := length (encode8 c)). rewrite <- (take_drop k old), <- !app_assoc.
  assert (Hk : zlen (take k old) = zlen (encode8 c)).
  { unfold k, zlen in *. rewrite length_take. lia. }
  rewrite append8_spec by done. cbn [mbind option_bind].
  replace (zlen (p ++ take k old ++ drop k old ++ rest)) with (zlen ((p ++ encode8 c) ++ drop k old ++ rest))
    by (rewrite !zlen_app, Hk; lia).
  rewrite (app_assoc p), <- zlen_app. cbn zeta in IH. rewrite IH.
  - rewrite <- !app_assoc, !zlen_app. f_equal. f_equal. lia.
  - unfold k, zlen in *. rewrite length_drop. lia.
Qed.

Lemma with_ends_values strict i ws : map fst (with_ends strict i ws) = map (piece_value strict) ws.
Proof. revert i. induction ws as [|w ws IH]; intros i; [done|]. cbn. by rewrite IH. Qed.
Lemma with_starts_values strict i ws : map fst (with_starts strict i ws) = map (piece_value strict) ws.
Proof. revert i. induction ws as [|w ws IH]; intros i; [done|]. cbn. by rewrite IH. Qed.

(** writing Unicode scalar values into a buffer with room for them with [U8_APPEND] stores
    as many bytes as [U8_LENGTH] counts, and [U8_NEXT] from the start and [U8_PREV] from the end
    read the same code points back. *)
Theorem utf8_append_roundtrip cs buffer :
  Forall scalar cs -> zlen (concat (map encode8 cs)) <= zlen buffer ->
  exists text rest l r, append_all8 buffer 0 (zlen buffer) cs = Some (text ++ rest, zlen text) /\
    zlen (text ++ rest) = zlen buffer /\
    zlen text = foldr (fun c n => U8_LENGTH c + n) 0 cs /\ Forall byte8 text /\
    walk (fun i => U8_NEXT text i (zlen text)) (zlen text) (length text) 0 = Some l /\ map fst l = cs /\
    walk (fun i => U8_PREV text 0 i) 0 (length text) (zlen text) = Some r /\ map fst r = rev cs.
Proof.
  intros Hcs Hroom. set (t := concat (map encode8 cs)) in *.
  assert (Hb : Forall byte8 t) by by apply encoded_bytes.
  pose proof (take_drop (length t) buffer) as Hsplit.
  pose proof (append_all8_spec [] (take (length t) buffer) (drop (length t) buffer) cs Hcs) as Ha. cbn [app] in Ha.
  rewrite Hsplit in Ha. fold t in Ha. change (zlen (@nil Z)) with 0 in Ha. rewrite Z.add_0_l in Ha.
  pose proof (forward_walk (-1) [] t (length t) Hb ltac:(lia) ltac:(lia)) as [H1 _]. cbn zeta in H1.
  pose proof (backward_walk (-1) t [] (length t) Hb ltac:(lia) ltac:(lia)) as [H2 _]. cbn zeta in H2. rewrite app_nil_r in H2.
  eexists t, _, _, _. split_and!; [apply Ha|..|exact H1| |exact H2|]; auto.
  - unfold zlen in *. rewrite length_take. lia.
  - rewrite zlen_app. unfold zlen in *. rewrite length_drop. lia.
  - unfold t. clear -Hcs. induction Hcs as [|c cs Hc Hcs IH]; [done|]. cbn [map concat foldr].
    by rewrite zlen_app, IH, encode8_length.
  - rewrite with_ends_values. by apply decode8_encoded.
  - rewrite map_rev, with_starts_values. f_equal. by apply decode8_encoded.
Qed.

Lemma utf8_append_roundtrip_witness :
  exists text rest l r,
    append_all8 (replicate 12 0) 0 12 [0x24; 0xa3; 0x20ac; 0x10348] = Some (text ++ rest, zlen text) /\
    zlen (text ++ rest) = 12 /\ zlen text = 10 /\ Forall byte8 text /\
    walk (fun i => U8_NEXT text i (zlen text)) (zlen text) (length text) 0 = Some l /\
    map fst l = [0x24; 0xa3; 0x20ac; 0x10348] /\
    walk (fun i => U8_PREV text 0 i) 0 (length text) (zlen text) = Some r /\
    map fst r = [0x10348; 0x20ac; 0xa3; 0x24].
Proof.
  apply (utf8_append_roundtrip [0x24; 0xa3; 0x20ac; 0x10348] (replicate 12 0)).
  - repeat constructor; unfold code_point; lia.
  - vm_compute. discriminate.
Defined.
End Utf8.
