(* ===== verification/UString.v ===== *)
(** * Strings of 16-bit units (common/ustring.cpp, unistr.cpp, unistr.h)

    The C string functions that count and compare (module [ustring]), and the parts of the
    class [UnicodeString] that the other components call (module [UnicodeString]).
    A [const UChar *] is the list of the units from that address on; a read past the list
    is a read outside the string. *)

From S2P Require Import Prelude Utf16.
Import Utf16.

Module ustring.

Fixpoint strlen_loop (s : list Z) (t : Z) : option Z :=
  match s with
  | [] => None
  | x :: s => if negb (x =? 0) then strlen_loop s (t + 1) else Some t
  end.

Definition u_strlen (s : list Z) : option Z := strlen_loop s 0.

(** [u_countChar32] for [length>=0]: [s] points to at least [length] units. *)
Fixpoint countChar32_loop (fuel : nat) (s : list Z) (i length count : Z) : option Z :=
  match fuel with
  | O => None
  | S fuel =>
      if 0 <? length then
        c ← zget s i;
        pair ← (if U16_IS_LEAD c && (2 <=? length)
                then t ← zget s (i + 1); Some (U16_IS_TRAIL t) else Some false);
        if (pair : bool) then countChar32_loop fuel s (i + 2) (length - 2) (count + 1)
        else countChar32_loop fuel s (i + 1) (length - 1) (count + 1)
      else Some count
  end.

(** [u_countChar32] for [length==-1]. *)
Fixpoint countChar32_nul (fuel : nat) (s : list Z) (i count : Z) : option Z :=
  match fuel with
  | O => None
  | S fuel =>
      c ← zget s i;
      let i := i + 1 in
      if c =? 0 then Some count
      else
        pair ← (if U16_IS_LEAD c then t ← zget s i; Some (U16_IS_TRAIL t) else Some false);
        countChar32_nul fuel s (if (pair : bool) then i + 1 else i) (count + 1)
  end.

Definition u_countChar32 (s : option (list Z)) (length : Z) : option Z :=
  match s with
  | None => Some 0
  | Some s =>
      if length <? -1 then Some 0
      else if 0 <=? length then countChar32_loop (S (Z.to_nat length)) s 0 length 0
      else countChar32_nul (S (List.length s)) s 0 0
  end.

Fixpoint hasMore_nul (fuel : nat) (s : list Z) (i number : Z) : option bool :=
  match fuel with
  | O => None
  | S fuel =>
      c ← zget s i;
      let i := i + 1 in
      if c =? 0 then Some false
      else if number =? 0 then Some true
      else
        pair ← (if U16_IS_LEAD c then t ← zget s i; Some (U16_IS_TRAIL t) else Some false);
        hasMore_nul fuel s (if (pair : bool) then i + 1 else i) (number - 1)
  end.

Fixpoint hasMore_loop (fuel : nat) (s : list Z) (i limit number maxSupplementary : Z)
  : option bool :=
  match fuel with
  | O => None
  | S fuel =>
      if i =? limit then Some false
      else if number =? 0 then Some true
      else
        c ← zget s i;
        let i := i + 1 in
        pair ← (if U16_IS_LEAD c && negb (i =? limit)
                then t ← zget s i; Some (U16_IS_TRAIL t) else Some false);
        if (pair : bool) then
          let maxSupplementary := maxSupplementary - 1 in
          if maxSupplementary <=? 0 then Some false
          else hasMore_loop fuel s (i + 1) limit (number - 1) maxSupplementary
        else hasMore_loop fuel s i limit (number - 1) maxSupplementary
  end.

Definition u_strHasMoreChar32Than (s : option (list Z)) (length number : Z) : option bool :=
  if number <? 0 then Some true
  else match s with
  | None => Some false
  | Some s =>
      if length <? -1 then Some false
      else if length =? -1 then hasMore_nul (S (List.length s)) s 0 number
      else if number <? (length + 1) / 2 then Some true
      else
        let maxSupplementary := length - number in
        if maxSupplementary <=? 0 then Some false
        else hasMore_loop (S (Z.to_nat length)) s 0 length number maxSupplementary
  end.

(** ** Comparison in code unit or code point order *)

(** The outcome of skipping an identical prefix: a final result, or the offset and units
    of the first difference. *)
Inductive skipped := Same (result : Z) | Differ (k c1 c2 : Z).

Fixpoint skip_nul (fuel : nat) (s1 s2 : list Z) (k : Z) : option skipped :=
  match fuel with
  | O => None
  | S fuel =>
      c1 ← zget s1 k; c2 ← zget s2 k;
      if negb (c1 =? c2) then Some (Differ k c1 c2)
      else if c1 =? 0 then Some (Same 0)
      else skip_nul fuel s1 s2 (k + 1)
  end.

Fixpoint skip_strncmp (n : nat) (s1 s2 : list Z) (k : Z) : option skipped :=
  match n with
  | O => Some (Same 0)
  | S n =>
      c1 ← zget s1 k; c2 ← zget s2 k;
      if negb (c1 =? c2) then Some (Differ k c1 c2)
      else if c1 =? 0 then Some (Same 0)
      else skip_strncmp n s1 s2 (k + 1)
  end.

Fixpoint skip_memcmp (n : nat) (s1 s2 : list Z) (k lengthResult : Z) : option skipped :=
  match n with
  | O => Some (Same lengthResult)
  | S n =>
      c1 ← zget s1 k; c2 ← zget s2 k;
      if negb (c1 =? c2) then Some (Differ k c1 c2)
      else skip_memcmp n s1 s2 (k + 1) lengthResult
  end.

(** Whether the unit [c] at [k] is half of a surrogate pair; the null limit is [None]. *)
Definition in_pair (s : list Z) (limit : option Z) (k c : Z) : option bool :=
  ahead ← (if (c <=? 0xdbff) && negb (bool_decide (Some (k + 1) = limit))
           then t ← zget s (k + 1); Some (U16_IS_TRAIL t) else Some false);
  if (ahead : bool) then Some true
  else if U16_IS_TRAIL c && negb (k =? 0)
  then l ← zget s (k - 1); Some (U16_IS_LEAD l) else Some false.

Definition fix_up (s : list Z) (limit : option Z) (k c : Z) : option Z :=
  pair ← in_pair s limit k c; Some (if (pair : bool) then c else c - 0x2800).

(** [same] tells whether [s1] and [s2] are the same pointer. *)
Definition uprv_strCompare (same : bool) (s1 : list Z) (length1 : Z) (s2 : list Z) (length2 : Z)
    (strncmpStyle codePointOrder : bool) : option Z :=
  '(sk, limit1, limit2) ←
    (if (length1 <? 0) && (length2 <? 0) then
       if same then Some (Same 0, None, None)
       else sk ← skip_nul (S (length s1)) s1 s2 0; Some (sk, None, None)
     else if strncmpStyle then
       if same then Some (Same 0, None, None)
       else sk ← skip_strncmp (Z.to_nat length1) s1 s2 0; Some (sk, Some length1, Some length1)
     else
       length1 ← (if length1 <? 0 then u_strlen s1 else Some length1);
       length2 ← (if length2 <? 0 then u_strlen s2 else Some length2);
       let lengthResult := if length1 <? length2 then -1 else if length1 =? length2 then 0 else 1 in
       if same then Some (Same lengthResult, None, None)
       else sk ← skip_memcmp (Z.to_nat (Z.min length1 length2)) s1 s2 0 lengthResult;
            Some (sk, Some length1, Some length2));
  match sk with
  | Same r => Some r
  | Differ k c1 c2 =>
      if (0xd800 <=? c1) && (0xd800 <=? c2) && codePointOrder
      then c1 ← fix_up s1 limit1 k c1; c2 ← fix_up s2 limit2 k c2; Some (c1 - c2)
      else Some (c1 - c2)
  end.

Definition u_strCompare (same : bool) (s1 : option (list Z)) (length1 : Z) (s2 : option (list Z))
    (length2 : Z) (codePointOrder : bool) : option Z :=
  match s1, s2 with
  | Some s1, Some s2 =>
      if (length1 <? -1) || (length2 <? -1) then Some 0
      else uprv_strCompare same s1 length1 s2 length2 false codePointOrder
  | _, _ => Some 0
  end.

Definition u_strcmpCodePointOrder (same : bool) (s1 s2 : list Z) : option Z :=
  uprv_strCompare same s1 (-1) s2 (-1) false true.

Fixpoint strncmp_loop (n : nat) (s1 s2 : list Z) : option Z :=
  match n, s1, s2 with
  | S n, c1 :: s1, c2 :: s2 =>
      let rc := c1 - c2 in
      if negb (rc =? 0) || (c1 =? 0) || (Z.of_nat n =? 0) then Some rc else strncmp_loop n s1 s2
  | _, _, _ => None
  end.

Definition u_strncmp (s1 s2 : list Z) (n : Z) : option Z :=
  if 0 <? n then strncmp_loop (Z.to_nat n) s1 s2 else Some 0.

Definition u_strncmpCodePointOrder (same : bool) (s1 s2 : list Z) (n : Z) : option Z :=
  uprv_strCompare same s1 n s2 n true true.
(** ** Termination

    [__TERMINATE_STRING], the body of [u_terminateUChars], [u_terminateChars] and
    [u_terminateUChar32s]: the length is returned as it is. *)
Definition u_terminateUChars (dest : option (list Z)) (destCapacity length : Z) (pErrorCode : UErrorCode)
  : option (option (list Z) * Z * UErrorCode) :=
  if U_SUCCESS pErrorCode then
    if length <? 0 then Some (dest, length, pErrorCode)
    else if length <? destCapacity then
      d ← dest; d ← zset d length 0;
      Some (Some d, length,
            match pErrorCode with U_STRING_NOT_TERMINATED_WARNING => U_ZERO_ERROR | e => e end)
    else if length =? destCapacity then Some (dest, length, U_STRING_NOT_TERMINATED_WARNING)
    else Some (dest, length, U_BUFFER_OVERFLOW_ERROR)
  else Some (dest, length, pErrorCode).

End ustring.

(** ** UnicodeString *)

Module UnicodeString.
Import ustring.

(** The value of a string object; a bogus one has no buffer and the length 0. *)
Inductive t := Bogus | Str (u : list Z).

Definition isBogus (s : t) : bool := match s with Bogus => true | Str _ => false end.
Definition units (s : t) : list Z := match s with Bogus => [] | Str u => u end.

#[global] Instance t_eq_dec : EqDecision t.
Proof. solve_decision. Defined.

Definition ok (s : t) : Prop := Forall unit16 (units s).

Definition kInvalidUChar : Z := 0xffff.

Definition length (s : t) : Z := zlen (units s).

Definition pinIndices (s : t) (start len0 : Z) : Z * Z :=
  let len := length s in
  let start := if start <? 0 then 0 else if len <? start then len else start in
  let len0 := if len0 <? 0 then 0 else if len - start <? len0 then len - start else len0 in
  (start, len0).

Definition charAt (s : t) (offset : Z) : option Z :=
  if uint32 offset <? uint32 (length s) then zget (units s) offset else Some kInvalidUChar.

Definition char32At (s : t) (offset : Z) : option Z :=
  let len := length s in
  if uint32 offset <? uint32 len then U16_GET (units s) 0 offset len else Some kInvalidUChar.

Definition getChar32Start (s : t) (offset : Z) : option Z :=
  if uint32 offset <? uint32 (length s) then U16_SET_CP_START (units s) 0 offset else Some 0.

Definition getChar32Limit (s : t) (offset : Z) : option Z :=
  let len := length s in
  if uint32 offset <? uint32 len then U16_SET_CP_LIMIT (units s) 0 offset len else Some len.

(** [getArrayStart()+start] *)
Definition array_from (s : t) (start : Z) : option (list Z) :=
  if isBogus s then None else Some (drop (Z.to_nat start) (units s)).

Definition countChar32 (s : t) (start len : Z) : option Z :=
  let '(start, len) := pinIndices s start len in u_countChar32 (array_from s start) len.

Definition hasMoreChar32Than (s : t) (start len number : Z) : option bool :=
  let '(start, len) := pinIndices s start len in
  u_strHasMoreChar32Than (array_from s start) len number.

Definition moveIndex32 (s : t) (index delta : Z) : option Z :=
  let len := length s in
  let index := if index <? 0 then 0 else if len <? index then len else index in
  if 0 <? delta then U16_FWD_N (units s) index len delta
  else U16_BACK_N (units s) 0 index (- delta).

(** The loop over code units of [doCompare]; [result >> 15 | 1] is the sign. *)
Fixpoint doCompare_loop (n : nat) (chars srcChars : list Z) (i j lengthResult : Z) : option Z :=
  match n with
  | O => Some lengthResult
  | S n =>
      a ← zget chars i; b ← zget srcChars j;
      let result := a - b in
      if negb (result =? 0) then Some (Z.lor (Z.shiftr result 15) 1)
      else doCompare_loop n chars srcChars (i + 1) (j + 1) lengthResult
  end.

(** [doCompare] against an array of units; a null [srcChars] is [None].  The length of a
    NUL-terminated source is taken after [srcStart] has been added to the pointer twice. *)
Definition doCompare (s : t) (start len : Z) (srcChars : option (list Z)) (srcStart srcLength : Z)
  : option Z :=
  if isBogus s then Some (-1)
  else
    let '(start, len) := pinIndices s start len in
    match srcChars with
    | None => Some (if len =? 0 then 0 else 1)
    | Some src =>
        let src := drop (Z.to_nat srcStart) src in
        srcLength ← (if srcLength <? 0 then u_strlen (drop (Z.to_nat srcStart) src)
                     else Some srcLength);
        let '(minLength, lengthResult) :=
          if negb (len =? srcLength)
          then if len <? srcLength then (len, -1) else (srcLength, 1)
          else (len, 0) in
        doCompare_loop (Z.to_nat minLength) (units s) src start 0 lengthResult
    end.

(** [doCompare] against another string object. *)
Definition doCompare_str (s : t) (start thisLength : Z) (srcText : t) (srcStart srcLength : Z)
  : option Z :=
  if isBogus srcText then Some (if isBogus s then 0 else 1)
  else
    let '(srcStart, srcLength) := pinIndices srcText srcStart srcLength in
    doCompare s start thisLength (Some (units srcText)) srcStart srcLength.

Definition compare (s text : t) : option Z :=
  doCompare_str s 0 (length s) text 0 (length text).

Definition doCompareCodePointOrder (s : t) (start len : Z) (srcChars : option (list Z))
    (srcStart srcLength : Z) : option Z :=
  if isBogus s then Some (-1)
  else
    let '(start, len) := pinIndices s start len in
    let '(srcStart, srcLength) := match srcChars with None => (0, 0) | _ => (srcStart, srcLength) end in
    diff ← uprv_strCompare false (drop (Z.to_nat start) (units s)) len
             (drop (Z.to_nat srcStart) (default [] srcChars)) srcLength false true;
    Some (if negb (diff =? 0) then Z.lor (Z.shiftr diff 15) 1 else 0).

Definition doEquals (s text : t) (len : Z) : bool :=
  bool_decide (ztake len (units s) = ztake len (units text)).

Definition operator_eq (s text : t) : bool :=
  if isBogus s then isBogus text
  else negb (isBogus text) && (length s =? length text) && doEquals s text (length s).
End UnicodeString.

(** ** Lexicographic order *)

(** The sign of the lexicographic comparison: -1, 0 or 1. *)
Fixpoint lex (a b : list Z) : Z :=
  match a, b with
  | [], [] => 0
  | [], _ :: _ => -1
  | _ :: _, [] => 1
  | x :: a, y :: b => if x <? y then -1 else if y <? x then 1 else lex a b
  end.

Lemma lex_refl a : lex a a = 0.
Proof. induction a; simpl; [done|]. by rewrite Z.ltb_irrefl. Qed.

Lemma lex_eq_0 a b : lex a b = 0 -> a = b.
Proof.
  revert b. induction a as [|x a IH]; intros [|y b]; simpl; try done.
  zcases; try done. intros. f_equal; [lia|auto].
Qed.

Lemma lex_antisym a b : lex b a = - lex a b.
Proof. revert b. induction a as [|x a IH]; intros [|y b]; simpl; try done. zcases; done || auto. Qed.

Lemma lex_trans a b c : lex a b <= 0 -> lex b c <= 0 -> lex a c <= 0.
Proof.
  revert b c. induction a as [|x a IH]; intros [|y b] [|z c]; simpl; try done; try lia.
  repeat (zcase; simpl; try lia). intros. by eapply IH.
Qed.

Lemma lex_app c a b : lex (c ++ a) (c ++ b) = lex a b.
Proof. induction c; simpl; [done|]. by rewrite Z.ltb_irrefl. Qed.

Lemma lex_sign a b : lex a b = -1 \/ lex a b = 0 \/ lex a b = 1.
Proof. revert b. induction a as [|x a IH]; intros [|y b]; simpl; auto. zcases; auto. Qed.

Module ustring_facts.
Import ustring.

(** A text split at a boundary. *)
Lemma code_points_app p u : boundary p u -> code_points (p ++ u) = code_points p ++ code_points u.
Proof.
  induction p as [|x|x y p E IH|x y p E IH] using code_points_ind; intros Hb.
  - done.
  - destruct u as [|t u]; [done|]. simpl. by rewrite (Hb x t).
  - simpl. rewrite E, IH; [done|]. intros l t Hl. apply Hb. by destruct p.
  - specialize (IH Hb). simpl in *. by rewrite E, IH.
Qed.

Lemma boundary_snoc p l u : U16_IS_LEAD l = false -> boundary (p ++ [l]) u.
Proof. intros Hl ? t E _. rewrite last_snoc in E. simplify_eq. unfold is_pair. by rewrite Hl. Qed.

Lemma boundary_lead p l u : unit16 l -> U16_IS_LEAD l = true -> boundary p (l :: u).
Proof.
  intros Hl Hlead ? t _ E. simplify_eq/=. unfold is_pair. rewrite lead_not_trail by done.
  apply andb_false_r.
Qed.

Lemma in_pair_first p x a :
  unit16 x -> Forall unit16 p -> boundary p (x :: a) -> 0xd800 <= x ->
  in_pair (p ++ x :: a) (Some (zlen (p ++ x :: a))) (zlen p) x = Some (pairs_with x a).
Proof.
  unfold in_pair, unit16. intros Hx Hp Hb Hge.
  assert (Hback : forall b, (if (b : bool) then Some true else
            if U16_IS_TRAIL x && negb (zlen p =? 0)
            then l ← zget (p ++ x :: a) (zlen p - 1); Some (U16_IS_LEAD l) else Some false) = Some b).
  { intros [|]; [done|]. destruct (U16_IS_TRAIL x) eqn:Ht; [|done].
    destruct p as [|l p _] using rev_ind; [done|]. rewrite zlen_app. change (zlen [l]) with 1.
    pose proof (zlen_nonneg p). zcase; [lia|]. simpl.
    replace (zlen p + 1 - 1) with (zlen p) by lia. rewrite <- app_assoc. simpl. rewrite zget_middle.
    simpl. f_equal. specialize (Hb l x). rewrite last_snoc in Hb. specialize (Hb eq_refl eq_refl).
    unfold is_pair in Hb. rewrite Ht, andb_true_r in Hb. done. }
  destruct (Z.leb_spec x 0xdbff) as [Hle|Hgt]; cbn [andb].
  - assert (Hlead : U16_IS_LEAD x = true) by (apply lead_range; lia).
    rewrite zlen_app, zlen_cons. destruct a as [|y a].
    + rewrite bool_decide_true by (f_equal; change (zlen (@nil Z)) with 0; lia). apply (Hback false).
    + rewrite zlen_cons, bool_decide_false by (pose proof (zlen_nonneg a); intros [=]; lia).
      cbn [negb]. rewrite (zget_app_r p _ (zlen p + 1)) by lia. replace (zlen p + 1 - zlen p) with 1 by lia.
      simpl. unfold is_pair. rewrite Hlead. apply Hback.
  - assert (pairs_with x a = false) as ->; [|apply (Hback false)].
    destruct a as [|y a]; [done|]. simpl. unfold is_pair.
    assert (U16_IS_LEAD x = false) as ->; [|done].
    apply not_true_iff_false. rewrite lead_range by lia. lia.
Qed.

Lemma in_pair_second p l x a limit :
  unit16 x -> U16_IS_LEAD l = true -> U16_IS_TRAIL x = true ->
  in_pair (p ++ l :: x :: a) limit (zlen p + 1) x = Some true.
Proof.
  intros Hx Hl Ht. unfold in_pair. rewrite Ht. unfold unit16 in Hx.
  apply trail_range in Ht; [|lia]. pose proof (zlen_nonneg p).
  zcase; [lia|]. simpl. zcase; [lia|]. simpl. replace (zlen p + 1 - 1) with (zlen p) by lia.
  rewrite zget_middle. simpl. by rewrite Hl.
Qed.

(** [uprv_strCompare] after the common prefix [p]. *)
Definition diff_result (p : list Z) (x : Z) (a : list Z) (y : Z) (b : list Z) : option Z :=
  if (0xd800 <=? x) && (0xd800 <=? y)
  then c1 ← fix_up (p ++ x :: a) (Some (zlen (p ++ x :: a))) (zlen p) x;
       c2 ← fix_up (p ++ y :: b) (Some (zlen (p ++ y :: b))) (zlen p) y; Some (c1 - c2)
  else Some (x - y).

Definition agrees (r : option Z) (sign : Z) : Prop := exists d, r = Some d /\ Z.sgn d = sign.

Lemma diff_at_boundary p x a y b :
  unit16 x -> unit16 y -> Forall unit16 p -> Forall unit16 a -> Forall unit16 b -> x <> y ->
  boundary p (x :: a) -> boundary p (y :: b) ->
  agrees (diff_result p x a y b) (lex (code_points (p ++ x :: a)) (code_points (p ++ y :: b))).
Proof.
  intros Hx Hy Hp Ha Hb Hne Ba Bb. rewrite !code_points_app, lex_app by done.
  destruct (code_points_first x a) as [ra ->], (code_points_first y b) as [rb ->]. simpl.
  pose proof (first_cp_range x a Hx Ha) as Ra. pose proof (first_cp_range y b Hy Hb) as Rb.
  unfold diff_result, fix_up.
  destruct (Z.leb_spec 0xd800 x), (Z.leb_spec 0xd800 y); cbn [andb].
  - rewrite !in_pair_first by done. cbn [mbind option_bind]. eexists. split; [done|].
    unfold unit16 in *. destruct (pairs_with x a), (pairs_with y b); zcases; lia.
  - eexists. split; [done|]. destruct (pairs_with x a), (pairs_with y b); zcases; lia.
  - eexists. split; [done|]. destruct (pairs_with x a), (pairs_with y b); zcases; lia.
  - eexists. split; [done|]. destruct (pairs_with x a), (pairs_with y b); zcases; lia.
Qed.

Lemma diff_sym p x a y b sign :
  agrees (diff_result p x a y b) sign -> agrees (diff_result p y b x a) (- sign).
Proof.
  intros (d & E & <-). exists (- d). split; [|by rewrite Z.sgn_opp].
  unfold diff_result in *. rewrite andb_comm. destruct (_ && _); [|simplify_eq; f_equal; lia].
  destruct (fix_up (p ++ x :: a) _ _ _); [|done]. simpl in *.
  destruct (fix_up (p ++ y :: b) _ _ _); [|done]. simpl in *. simplify_eq. f_equal. lia.
Qed.

(** The difference falls behind a lead surrogate that is paired in the first text. *)
Lemma diff_behind_lead p l x a y b :
  unit16 l -> unit16 x -> unit16 y -> Forall unit16 p -> Forall unit16 a -> Forall unit16 b -> x <> y ->
  is_pair l x = true ->
  agrees (diff_result (p ++ [l]) x a y b)
    (lex (code_points ((p ++ [l]) ++ x :: a)) (code_points ((p ++ [l]) ++ y :: b))).
Proof.
  intros Hl Hx Hy Hp Ha Hb Hne Hpx. pose proof Hpx as [Ll Tx]%andb_true_iff.
  pose proof Hpx as Rx. apply is_pair_range in Rx; [|done..].
  unfold diff_result, fix_up. rewrite !zlen_app. change (zlen [l]) with 1.
  rewrite <- !(app_assoc p [l]). cbn [app].
  assert (Bl : forall u, boundary p (l :: u)) by (intros; by apply boundary_lead).
  rewrite !code_points_app, lex_app by done. cbn [code_points]. rewrite Hpx.
  rewrite (in_pair_second p l x a) by done. cbn [mbind option_bind].
  rewrite supplementary_value.
  destruct (is_pair l y) eqn:Hpy; cbn [lex].
  - pose proof Hpy as [_ Ty]%andb_true_iff. pose proof Hpy as Ry. apply is_pair_range in Ry; [|done..].
    rewrite supplementary_value, (in_pair_second p l y b) by done. cbn [mbind option_bind].
    assert (0xd800 <=? x = true) as -> by lia. assert (0xd800 <=? y = true) as -> by lia.
    eexists. split; [done|]. unfold unit16 in *. zcases; lia.
  - assert (~ (0xdc00 <= y <= 0xdfff)).
    { unfold is_pair in Hpy. rewrite Ll in Hpy. simpl in Hpy. apply not_true_iff_false in Hpy.
      rewrite trail_range in Hpy; unfold unit16 in *; lia. }
    destruct (Z.leb_spec 0xd800 y) as [Hy8|]; [|rewrite andb_false_r; eexists; split; [done|];
      unfold unit16 in *; zcases; lia].
    assert (0xd800 <=? x = true) as -> by lia. cbn [andb].
    pose proof (in_pair_first (p ++ [l]) y b) as Hin.
    rewrite !zlen_app in Hin. change (zlen [l]) with 1 in Hin. rewrite <- !(app_assoc p [l]) in Hin.
    cbn [app] in Hin. rewrite (zlen_cons y b) in Hin. rewrite (zlen_cons y b).
    rewrite Hin; auto.
    + cbn [mbind option_bind]. eexists. split; [done|].
      pose proof (first_cp_range y b Hy Hb) as Ry.
      unfold unit16 in *. destruct (pairs_with y b); zcases; lia.
    + apply Forall_app; auto using Forall_cons, Forall_nil.
    + intros l' t' E1 E2. rewrite last_snoc in E1. by simplify_eq/=.
Qed.

Lemma diff_correct p x a y b :
  unit16 x -> unit16 y -> Forall unit16 p -> Forall unit16 a -> Forall unit16 b -> x <> y ->
  agrees (diff_result p x a y b) (lex (code_points (p ++ x :: a)) (code_points (p ++ y :: b))).
Proof.
  intros Hx Hy Hp Ha Hb Hne. destruct p as [|l p _] using rev_ind.
  { apply diff_at_boundary; auto; intros ???; done. }
  pose proof Hp as [Hp' [Hl _]%Forall_cons]%Forall_app.
  destruct (is_pair l x) eqn:Ex; [by apply diff_behind_lead|].
  destruct (is_pair l y) eqn:Ey.
  - rewrite lex_antisym. apply diff_sym. by apply diff_behind_lead; auto.
  - apply diff_at_boundary; auto; intros ? ? E1 E2; rewrite last_snoc in E1; by simplify_eq/=.
Qed.

Definition length_sign (a b : list Z) : Z :=
  if zlen a <? zlen b then -1 else if zlen a =? zlen b then 0 else 1.

Lemma skip_memcmp_spec p a b lr :
  skip_memcmp (Z.to_nat (Z.min (zlen a) (zlen b))) (p ++ a) (p ++ b) (zlen p) lr = Some (Same lr) /\
    (a `prefix_of` b \/ b `prefix_of` a) \/
  exists q x a' y b', a = q ++ x :: a' /\ b = q ++ y :: b' /\ x <> y /\
    skip_memcmp (Z.to_nat (Z.min (zlen a) (zlen b))) (p ++ a) (p ++ b) (zlen p) lr =
      Some (Differ (zlen (p ++ q)) x y).
Proof.
  revert p b. induction a as [|x a IH]; intros p [|y b].
  - left. split; [done|]. left. done.
  - left. split; [done|]. left. apply prefix_nil.
  - left. split; [done|]. right. apply prefix_nil.
  - rewrite !zlen_cons. pose proof (zlen_nonneg a). pose proof (zlen_nonneg b).
    replace (Z.to_nat (Z.min (zlen a + 1) (zlen b + 1))) with (S (Z.to_nat (Z.min (zlen a) (zlen b)))) by lia.
    cbn [skip_memcmp]. rewrite !zget_middle. cbn [mbind option_bind].
    destruct (Z.eqb_spec x y) as [<-|Hne]; cbn [negb].
    + specialize (IH (p ++ [x]) b). rewrite <- !(app_assoc p [x]), zlen_app in IH.
      change (zlen [x]) with 1 in IH. cbn [app] in IH.
      destruct IH as [[-> Hpre]|(q & x' & a' & y' & b' & -> & -> & Hn & ->)].
      * left. split; [done|]. destruct Hpre; [left|right]; by apply prefix_cons.
      * right. exists (x :: q), x', a', y', b'. split_and!; auto. do 2 f_equal.
        unfold zlen. rewrite !length_app. simpl. lia.
    + right. exists [], x, a, y, b. by rewrite app_nil_r.
Qed.

Lemma code_points_prefix_sign a b :
  Forall unit16 a -> Forall unit16 b -> a `prefix_of` b ->
  lex (code_points a) (code_points b) = length_sign a b.
Proof.
  intros Ha Hb [c ->]. destruct c as [|x c].
  { rewrite app_nil_r, lex_refl. unfold length_sign. by rewrite Z.ltb_irrefl, Z.eqb_refl. }
  assert (length_sign a (a ++ x :: c) = -1) as ->.
  { unfold length_sign. rewrite zlen_app, zlen_cons. pose proof (zlen_nonneg c). zcase; [done|lia]. }
  apply Forall_app in Hb as [_ [Hx Hc]%Forall_cons].
  destruct a as [|l p _] using rev_ind.
  { simpl app. destruct (code_points_first x c) as [r ->]. done. }
  apply Forall_app in Ha as [Hp [Hl _]%Forall_cons].
  destruct (is_pair l x) eqn:E.
  - pose proof E as [Ll Tx]%andb_true_iff.
    rewrite <- app_assoc. cbn [app]. rewrite !code_points_app, lex_app by (by apply boundary_lead).
    cbn [code_points lex]. rewrite E. cbn [lex]. apply is_pair_range in E; [|done..].
    rewrite supplementary_value. zcase; [done|lia].
  - assert (boundary (p ++ [l]) (x :: c)) as Hbd.
    { intros ? ? E1 E2. rewrite last_snoc in E1. by simplify_eq/=. }
    rewrite (code_points_app _ _ Hbd). rewrite <- (app_nil_r (code_points (p ++ [l]))) at 1.
    rewrite lex_app. destruct (code_points_first x c) as [r ->]. done.
Qed.

(** C34: on every two 16-bit strings, well-formed or not, the comparison in code point
    order that [u_strCompare] computes by subtracting 0x2800 from BMP units behind the first
    difference has the sign of the lexicographic comparison of the code point sequences. *)
Theorem strCompare_code_point_order s1 s2 :
  Forall unit16 s1 -> Forall unit16 s2 ->
  exists d, u_strCompare false (Some s1) (zlen s1) (Some s2) (zlen s2) true = Some d /\
    Z.sgn d = lex (code_points s1) (code_points s2).
Proof.
  intros H1 H2. pose proof (zlen_nonneg s1). pose proof (zlen_nonneg s2).
  unfold u_strCompare, uprv_strCompare.
  destruct (Z.ltb_spec (zlen s1) (-1)); [lia|]. destruct (Z.ltb_spec (zlen s2) (-1)); [lia|].
  destruct (Z.ltb_spec (zlen s1) 0); [lia|]. destruct (Z.ltb_spec (zlen s2) 0); [lia|].
  cbn [orb andb mbind option_bind]. fold (length_sign s1 s2).
  destruct (skip_memcmp_spec [] s1 s2 (length_sign s1 s2)) as [[E Hpre]|(q & x & a & y & b & -> & -> & Hne & E)];
    change (zlen []) with 0 in E; simpl app in E; rewrite E; cbn [mbind option_bind].
  - exists (length_sign s1 s2). split; [done|]. destruct Hpre as [Hpre|Hpre].
    + rewrite code_points_prefix_sign by done. unfold length_sign. by zcases.
    + rewrite lex_antisym, code_points_prefix_sign by done. unfold length_sign. by zcases.
  - rewrite andb_true_r. apply Forall_app in H1 as [Hq [Hx Ha]%Forall_cons].
    apply Forall_app in H2 as [_ [Hy Hb]%Forall_cons].
    exact (diff_correct q x a y b Hx Hy Hq Ha Hb Hne).
Qed.

Lemma strCompare_code_point_order_witness :
  exists d, u_strCompare false (Some [0xe000]) 1 (Some [0xd83d; 0xde00]) 2 true = Some d /\ Z.sgn d = -1.
Proof.
  apply (strCompare_code_point_order [0xe000] [0xd83d; 0xde00]); repeat constructor; unfold unit16; lia.
Defined.

(** ** Counting code points *)

Lemma code_points_bounds u :
  zlen (code_points u) <= zlen u <= 2 * zlen (code_points u).
Proof.
  induction u as [|x|x y u E IH|x y u E IH] using code_points_ind.
  - done.
  - done.
  - simpl. rewrite E, !zlen_cons. lia.
  - cbn [code_points] in *. rewrite E, (zlen_cons x), (zlen_cons x). lia.
Qed.

(** Whether the first two units are a pair, as the counting loops test it. *)
Lemma lookahead p x u st (more : bool) :
  more = negb (zlen u =? 0) ->
  (if U16_IS_LEAD x && more
   then t ← zget (p ++ (x :: u) ++ st) (zlen p + 1); Some (U16_IS_TRAIL t) else Some false)
  = Some (pairs_with x u).
Proof.
  intros ->. destruct u as [|y u]; [by rewrite andb_false_r|].
  rewrite zlen_cons. pose proof (zlen_nonneg u). zcase; [lia|]. rewrite andb_true_r.
  rewrite (zget_app_r p _ (zlen p + 1)) by lia. replace (zlen p + 1 - zlen p) with 1 by lia.
  simpl. unfold is_pair. by destruct (U16_IS_LEAD x).
Qed.

Lemma countChar32_loop_spec fuel p u st n :
  zlen u < Z.of_nat fuel ->
  countChar32_loop fuel (p ++ u ++ st) (zlen p) (zlen u) n = Some (n + zlen (code_points u)).
Proof.
  revert p u n. induction fuel as [|fuel IH]; intros p u n Hf; [pose proof (zlen_nonneg u); lia|].
  cbn [countChar32_loop]. destruct u as [|x u].
  { simpl. f_equal. unfold zlen. simpl. lia. }
  rewrite zlen_cons in *. pose proof (zlen_nonneg u). zcase; [|lia].
  rewrite (zget_middle p x (u ++ st)) at 1. cbn [mbind option_bind].
  rewrite (lookahead p x u st (2 <=? zlen u + 1)) by zcases. cbn [mbind option_bind].
  destruct (pairs_with x u) eqn:E.
  - apply pairs_with_inv in E as (y & u' & -> & ->). rewrite !zlen_cons in *.
    specialize (IH (p ++ [x; y]) u' (n + 1)). rewrite <- app_assoc, zlen_app in IH.
    change (zlen [x; y]) with 2 in IH. replace (zlen u' + 1 + 1 - 2) with (zlen u') by lia.
    simpl app in *. rewrite IH by lia. f_equal. lia.
  - rewrite (pairs_with_false x u E), zlen_cons.
    specialize (IH (p ++ [x]) u (n + 1)). rewrite <- app_assoc, zlen_app in IH.
    change (zlen [x]) with 1 in IH. replace (zlen u + 1 - 1) with (zlen u) by lia.
    simpl app in *. rewrite IH by lia. f_equal. lia.
Qed.

Lemma hasMore_loop_spec fuel p u st number :
  zlen u < Z.of_nat fuel -> 0 <= number < zlen u ->
  hasMore_loop fuel (p ++ u ++ st) (zlen p) (zlen p + zlen u) number (zlen u - number) =
    Some (number <? zlen (code_points u)).
Proof.
  revert p u number. induction fuel as [|fuel IH]; intros p u number Hf Hn; [pose proof (zlen_nonneg u); lia|].
  cbn [hasMore_loop]. destruct u as [|x u].
  { change (zlen (@nil Z)) with 0 in Hn. lia. }
  rewrite zlen_cons in *. pose proof (zlen_nonneg u).
  destruct (Z.eqb_spec (zlen p) (zlen p + (zlen u + 1))); [lia|].
  destruct (code_points_first x u) as [r Hr]. pose proof (zlen_nonneg r).
  destruct (Z.eqb_spec number 0) as [->|Hn0]. { rewrite Hr, zlen_cons. zcase; [done|lia]. }
  rewrite (zget_middle p x (u ++ st)) at 1. cbn [mbind option_bind].
  rewrite (lookahead p x u st) by zcases. cbn [mbind option_bind].
  destruct (pairs_with x u) eqn:E.
  - apply pairs_with_inv in E as (y & u' & -> & ->). rewrite !zlen_cons in *.
    pose proof (code_points_bounds u').
    destruct (Z.leb_spec (zlen u' + 1 + 1 - number - 1) 0).
    + f_equal. lia.
    + specialize (IH (p ++ [x; y]) u' (number - 1)). rewrite <- app_assoc, zlen_app in IH.
      change (zlen [x; y]) with 2 in IH. simpl app in *.
      replace (zlen p + 1 + 1) with (zlen p + 2) by lia.
      replace (zlen p + (zlen u' + 1 + 1)) with (zlen p + 2 + zlen u') by lia.
      replace (zlen u' + 1 + 1 - number - 1) with (zlen u' - (number - 1)) by lia.
      rewrite IH by lia. f_equal. lia.
  - rewrite (pairs_with_false x u E), zlen_cons. pose proof (code_points_bounds u).
    specialize (IH (p ++ [x]) u (number - 1)). rewrite <- app_assoc, zlen_app in IH.
    change (zlen [x]) with 1 in IH. simpl app in *.
    replace (zlen p + (zlen u + 1)) with (zlen p + 1 + zlen u) by lia.
    replace (zlen u + 1 - number) with (zlen u - (number - 1)) by lia.
    rewrite IH by lia. f_equal. lia.
Qed.

(** [u_countChar32] counts the code points of every 16-bit string, unpaired surrogates
    counting one each, and [u_strHasMoreChar32Than], which stops as early as the numbers of
    units and pairs allow, answers the comparison with that count for every [number]. *)
Theorem count_code_points u st number :
  u_countChar32 (Some (u ++ st)) (zlen u) = Some (zlen (code_points u)) /\
  u_strHasMoreChar32Than (Some (u ++ st)) (zlen u) number = Some (number <? zlen (code_points u)).
Proof.
  pose proof (zlen_nonneg u). pose proof (zlen_nonneg (code_points u)). pose proof (code_points_bounds u).
  split.
  - unfold u_countChar32. destruct (Z.ltb_spec (zlen u) (-1)); [lia|].
    destruct (Z.leb_spec 0 (zlen u)); [|lia]. apply (countChar32_loop_spec _ []). lia.
  - unfold u_strHasMoreChar32Than. destruct (Z.ltb_spec number 0); [f_equal; lia|].
    destruct (Z.ltb_spec (zlen u) (-1)); [lia|]. destruct (Z.eqb_spec (zlen u) (-1)); [lia|].
    destruct (Z.ltb_spec number ((zlen u + 1) / 2)); [f_equal; dlia|].
    destruct (Z.leb_spec (zlen u - number) 0); [f_equal; lia|].
    etransitivity; [apply (hasMore_loop_spec _ [] u st number); lia|]. done.
Qed.
End ustring_facts.

(** ** Comparison of string objects *)

Module UnicodeString_facts.
Import ustring UnicodeString ustring_facts.

Lemma doCompare_loop_spec p a q b :
  Forall unit16 a -> Forall unit16 b ->
  doCompare_loop (Z.to_nat (Z.min (zlen a) (zlen b))) (p ++ a) (q ++ b) (zlen p) (zlen q)
    (length_sign a b) = Some (lex a b).
Proof.
  revert p q b. induction a as [|x a IH]; intros p q [|y b] Ha Hb; try done.
  apply Forall_cons in Ha as [Hx Ha], Hb as [Hy Hb]. unfold length_sign. rewrite !zlen_cons.
    pose proof (zlen_nonneg a). pose proof (zlen_nonneg b).
    replace (Z.to_nat (Z.min (zlen a + 1) (zlen b + 1))) with (S (Z.to_nat (Z.min (zlen a) (zlen b)))) by lia.
    cbn [doCompare_loop lex]. rewrite !zget_middle. cbn [mbind option_bind].
    unfold unit16 in *. destruct (Z.eqb_spec (x - y) 0); cbn [negb].
    + assert (x = y) as -> by lia. rewrite Z.ltb_irrefl.
      specialize (IH (p ++ [y]) (q ++ [y]) b Ha Hb). rewrite <- !app_assoc, !zlen_app in IH.
      change (zlen [y]) with 1 in IH. simpl app in IH. rewrite <- IH. unfold length_sign.
      replace (zlen a + 1 <? zlen b + 1) with (zlen a <? zlen b) by zcases.
      replace (zlen a + 1 =? zlen b + 1) with (zlen a =? zlen b) by zcases. done.
    + rewrite Z.shiftr_div_pow2 by lia. change (2 ^ 15) with 32768. f_equal. destruct (Z.ltb_spec x y).
      * assert ((x - y) / 32768 = -1 \/ (x - y) / 32768 = -2) as [->| ->] by dlia; done.
      * destruct (Z.ltb_spec y x); [|lia].
        assert ((x - y) / 32768 = 0 \/ (x - y) / 32768 = 1) as [->| ->] by dlia; done.
Qed.

Lemma pinIndices_whole s : pinIndices s 0 (length s) = (0, length s).
Proof.
  unfold pinIndices, length. pose proof (zlen_nonneg (units s)). rewrite Z.ltb_irrefl.
  destruct (Z.ltb_spec (zlen (units s)) 0); [lia|]. by rewrite Z.sub_0_r, Z.ltb_irrefl.
Qed.

(** [compare] of two valid strings is the lexicographic comparison of their units. *)
Lemma compare_lex s text :
  Forall unit16 (units s) -> Forall unit16 (units text) -> isBogus s = false -> isBogus text = false ->
  compare s text = Some (lex (units s) (units text)).
Proof.
  intros Hs Ht Bs Bt. unfold compare, doCompare_str, doCompare. rewrite Bs, Bt, !pinIndices_whole.
  unfold length. pose proof (zlen_nonneg (units s)). pose proof (zlen_nonneg (units text)).
  destruct (Z.ltb_spec (zlen (units text)) 0); [lia|]. cbn [mbind option_bind].
  change (drop (Z.to_nat 0) (units text)) with (units text).
  pose proof (doCompare_loop_spec [] (units s) [] (units text) Hs Ht) as E.
  simpl app in E. change (zlen (@nil Z)) with 0 in E. rewrite <- E. unfold length_sign.
  destruct (Z.eqb_spec (zlen (units s)) (zlen (units text))) as [He|]; cbn [negb].
  - rewrite He, Z.ltb_irrefl, Z.min_id. done.
  - destruct (Z.ltb_spec (zlen (units s)) (zlen (units text))); do 2 f_equal; lia.
Qed.

Lemma operator_eq_decides s text : operator_eq s text = bool_decide (s = text).
Proof.
  unfold operator_eq, doEquals, length. destruct s as [|us], text as [|ut]; cbn [isBogus units negb andb].
  - done.
  - by rewrite bool_decide_false by done.
  - by rewrite bool_decide_false by done.
  - destruct (Z.eqb_spec (zlen us) (zlen ut)) as [E|E]; cbn [andb].
    + rewrite ztake_all, E, ztake_all. apply bool_decide_ext. naive_solver.
    + symmetry. apply bool_decide_false. intros [=]. congruence.
Qed.

(** [doCompare] against a NUL-terminated array adds the offset [srcStart] twice when it
    measures the array, so a source with an offset is compared by a wrong length: the string
    "b" compares greater than the source "ab" from offset 1 on. *)
Theorem doCompare_offset_twice :
  doCompare (Str [0x62]) 0 1 (Some [0x61; 0x62; 0]) 1 (-1) = Some 1 /\
  doCompare (Str [0x62]) 0 1 (Some [0x61; 0x62; 0]) 1 1 = Some 0.
Proof. split; vm_compute; reflexivity. Qed.
End UnicodeString_facts.
