(* ===== verification/UTrie2.v ===== *)
(** * The trie of Unicode values (common/utrie2_builder.cpp, utrie2_impl.h, utrie2.h)

    [UTrie2] maps code points, and the code units of lead surrogates, to 32-bit values.  While it
    is built it has a two-stage index over blocks of 32 values that are counted, shared and freed;
    then it is compacted and written into one array.

    This file has the constants, the build-time trie and everything that changes its values. *)

From S2P Require Import Prelude Utf16.

Module UTrie2.
Import Utf16.

(** ** Constants *)

Definition UTRIE2_SHIFT_1 : Z := Eval cbv in 6 + 5.
Definition UTRIE2_SHIFT_2 : Z := 5.
Definition UTRIE2_SHIFT_1_2 : Z := Eval cbv in UTRIE2_SHIFT_1 - UTRIE2_SHIFT_2.
Definition UTRIE2_OMITTED_BMP_INDEX_1_LENGTH : Z := Eval cbv in Z.shiftr 0x10000 UTRIE2_SHIFT_1.
Definition UTRIE2_CP_PER_INDEX_1_ENTRY : Z := Eval cbv in Z.shiftl 1 UTRIE2_SHIFT_1.
Definition UTRIE2_INDEX_2_BLOCK_LENGTH : Z := Eval cbv in Z.shiftl 1 UTRIE2_SHIFT_1_2.
Definition UTRIE2_INDEX_2_MASK : Z := Eval cbv in UTRIE2_INDEX_2_BLOCK_LENGTH - 1.
Definition UTRIE2_DATA_BLOCK_LENGTH : Z := Eval cbv in Z.shiftl 1 UTRIE2_SHIFT_2.
Definition UTRIE2_DATA_MASK : Z := Eval cbv in UTRIE2_DATA_BLOCK_LENGTH - 1.
Definition UTRIE2_INDEX_SHIFT : Z := 2.
Definition UTRIE2_DATA_GRANULARITY : Z := Eval cbv in Z.shiftl 1 UTRIE2_INDEX_SHIFT.
Definition UTRIE2_INDEX_2_OFFSET : Z := 0.
Definition UTRIE2_LSCP_INDEX_2_OFFSET : Z := Eval cbv in Z.shiftr 0x10000 UTRIE2_SHIFT_2.
Definition UTRIE2_LSCP_INDEX_2_LENGTH : Z := Eval cbv in Z.shiftr 0x400 UTRIE2_SHIFT_2.
Definition UTRIE2_INDEX_2_BMP_LENGTH : Z := Eval cbv in UTRIE2_LSCP_INDEX_2_OFFSET + UTRIE2_LSCP_INDEX_2_LENGTH.
Definition UTRIE2_UTF8_2B_INDEX_2_OFFSET : Z := Eval cbv in UTRIE2_INDEX_2_BMP_LENGTH.
Definition UTRIE2_UTF8_2B_INDEX_2_LENGTH : Z := Eval cbv in Z.shiftr 0x800 6.
Definition UTRIE2_INDEX_1_OFFSET : Z := Eval cbv in UTRIE2_UTF8_2B_INDEX_2_OFFSET + UTRIE2_UTF8_2B_INDEX_2_LENGTH.
Definition UTRIE2_MAX_INDEX_1_LENGTH : Z := Eval cbv in Z.shiftr 0x100000 UTRIE2_SHIFT_1.
Definition UTRIE2_BAD_UTF8_DATA_OFFSET : Z := 0x80.
Definition UTRIE2_DATA_START_OFFSET : Z := 0xc0.

Definition UNEWTRIE2_INDEX_GAP_OFFSET : Z := Eval cbv in UTRIE2_INDEX_2_BMP_LENGTH.
Definition UNEWTRIE2_INDEX_GAP_LENGTH : Z := Eval cbv in Z.land (UTRIE2_UTF8_2B_INDEX_2_LENGTH + UTRIE2_MAX_INDEX_1_LENGTH + UTRIE2_INDEX_2_MASK) (Z.lnot UTRIE2_INDEX_2_MASK).
Definition UNEWTRIE2_MAX_INDEX_2_LENGTH : Z :=
  Eval cbv in Z.shiftr 0x110000 UTRIE2_SHIFT_2 + UTRIE2_LSCP_INDEX_2_LENGTH + UNEWTRIE2_INDEX_GAP_LENGTH + UTRIE2_INDEX_2_BLOCK_LENGTH.
Definition UNEWTRIE2_INDEX_1_LENGTH : Z := Eval cbv in Z.shiftr 0x110000 UTRIE2_SHIFT_1.
Definition UNEWTRIE2_MAX_DATA_LENGTH : Z := Eval cbv in 0x110000 + 0x40 + 0x40 + 0x400.
(** The length of [map]. *)
Definition MAP_LENGTH : Z := Eval cbv in Z.shiftr UNEWTRIE2_MAX_DATA_LENGTH UTRIE2_SHIFT_2.

Definition UNEWTRIE2_INDEX_2_NULL_OFFSET : Z := Eval cbv in UNEWTRIE2_INDEX_GAP_OFFSET + UNEWTRIE2_INDEX_GAP_LENGTH.
Definition UNEWTRIE2_INDEX_2_START_OFFSET : Z := Eval cbv in UNEWTRIE2_INDEX_2_NULL_OFFSET + UTRIE2_INDEX_2_BLOCK_LENGTH.
Definition UNEWTRIE2_DATA_NULL_OFFSET : Z := Eval cbv in UTRIE2_DATA_START_OFFSET.
Definition UNEWTRIE2_DATA_START_OFFSET : Z := Eval cbv in UNEWTRIE2_DATA_NULL_OFFSET + 0x40.
Definition UNEWTRIE2_DATA_0800_OFFSET : Z := Eval cbv in UNEWTRIE2_DATA_START_OFFSET + 0x780.
Definition UNEWTRIE2_INITIAL_DATA_LENGTH : Z := Eval cbv in Z.shiftl 1 14.
Definition UNEWTRIE2_MEDIUM_DATA_LENGTH : Z := Eval cbv in Z.shiftl 1 17.

(** ** Arrays *)

(** [for(i; ...; ++i)], [n] times. *)
Fixpoint for_from {S} (n : nat) (i : Z) (body : Z -> S -> option S) (s : S) : option S :=
  match n with O => Some s | S n => s ← body i s; for_from n (i + 1) body s end.

(** The [n] cells of an array from [i] on, and [uprv_memcpy] of [x] to there. *)
Definition cells_at {A} (l : list A) (i n : Z) : option (list A) :=
  if (0 <=? i) && (0 <=? n) && (i + n <=? zlen l) then Some (ztake n (drop (Z.to_nat i) l)) else None.
Definition copy_to {A} (l : list A) (i : Z) (x : list A) : option (list A) :=
  if (0 <=? i) && (i + zlen x <=? zlen l) then Some (ztake i l ++ x ++ drop (Z.to_nat (i + zlen x)) l) else None.

(** ** The build-time trie *)

Record UNewTrie2 := mk_trie {
  index1 : list Z; index2 : list Z; data : list Z;
  initialValue : Z; errorValue : Z;
  index2Length : Z; dataCapacity : Z; dataLength : Z;
  firstFreeBlock : Z;
  index2NullOffset : Z; dataNullOffset : Z;
  highStart : Z;
  isCompacted : bool;
  map_ : list Z
}.

Definition set_index1 (t : UNewTrie2) x := mk_trie x (index2 t) (data t) (initialValue t) (errorValue t) (index2Length t) (dataCapacity t) (dataLength t) (firstFreeBlock t) (index2NullOffset t) (dataNullOffset t) (highStart t) (isCompacted t) (map_ t).
Definition set_index2 (t : UNewTrie2) x := mk_trie (index1 t) x (data t) (initialValue t) (errorValue t) (index2Length t) (dataCapacity t) (dataLength t) (firstFreeBlock t) (index2NullOffset t) (dataNullOffset t) (highStart t) (isCompacted t) (map_ t).
Definition set_data (t : UNewTrie2) x := mk_trie (index1 t) (index2 t) x (initialValue t) (errorValue t) (index2Length t) (dataCapacity t) (dataLength t) (firstFreeBlock t) (index2NullOffset t) (dataNullOffset t) (highStart t) (isCompacted t) (map_ t).
Definition set_index2Length (t : UNewTrie2) x := mk_trie (index1 t) (index2 t) (data t) (initialValue t) (errorValue t) x (dataCapacity t) (dataLength t) (firstFreeBlock t) (index2NullOffset t) (dataNullOffset t) (highStart t) (isCompacted t) (map_ t).
Definition set_dataCapacity (t : UNewTrie2) x := mk_trie (index1 t) (index2 t) (data t) (initialValue t) (errorValue t) (index2Length t) x (dataLength t) (firstFreeBlock t) (index2NullOffset t) (dataNullOffset t) (highStart t) (isCompacted t) (map_ t).
Definition set_dataLength (t : UNewTrie2) x := mk_trie (index1 t) (index2 t) (data t) (initialValue t) (errorValue t) (index2Length t) (dataCapacity t) x (firstFreeBlock t) (index2NullOffset t) (dataNullOffset t) (highStart t) (isCompacted t) (map_ t).
Definition set_firstFreeBlock (t : UNewTrie2) x := mk_trie (index1 t) (index2 t) (data t) (initialValue t) (errorValue t) (index2Length t) (dataCapacity t) (dataLength t) x (index2NullOffset t) (dataNullOffset t) (highStart t) (isCompacted t) (map_ t).
Definition set_nulls (t : UNewTrie2) x y := mk_trie (index1 t) (index2 t) (data t) (initialValue t) (errorValue t) (index2Length t) (dataCapacity t) (dataLength t) (firstFreeBlock t) x y (highStart t) (isCompacted t) (map_ t).
Definition set_highStart (t : UNewTrie2) x := mk_trie (index1 t) (index2 t) (data t) (initialValue t) (errorValue t) (index2Length t) (dataCapacity t) (dataLength t) (firstFreeBlock t) (index2NullOffset t) (dataNullOffset t) x (isCompacted t) (map_ t).
Definition set_isCompacted (t : UNewTrie2) x := mk_trie (index1 t) (index2 t) (data t) (initialValue t) (errorValue t) (index2Length t) (dataCapacity t) (dataLength t) (firstFreeBlock t) (index2NullOffset t) (dataNullOffset t) (highStart t) x (map_ t).
Definition set_map (t : UNewTrie2) x := mk_trie (index1 t) (index2 t) (data t) (initialValue t) (errorValue t) (index2Length t) (dataCapacity t) (dataLength t) (firstFreeBlock t) (index2NullOffset t) (dataNullOffset t) (highStart t) (isCompacted t) x.

(** ** Reading *)

(** The place of a code point, or of a lead surrogate as a code unit, in the index-2 table. *)
Definition i2_of (t : UNewTrie2) (c : Z) (forLSCP : bool) : option Z :=
  if U16_IS_LEAD c && forLSCP then Some (UTRIE2_LSCP_INDEX_2_OFFSET - Z.shiftr 0xd800 UTRIE2_SHIFT_2 + Z.shiftr c UTRIE2_SHIFT_2)
  else b ← zget (index1 t) (Z.shiftr c UTRIE2_SHIFT_1); Some (b + Z.land (Z.shiftr c UTRIE2_SHIFT_2) UTRIE2_INDEX_2_MASK).

Definition get32 (t : UNewTrie2) (c : Z) (fromLSCP : bool) : option Z :=
  if (highStart t <=? c) && (negb (U16_IS_LEAD c) || fromLSCP) then zget (data t) (dataLength t - UTRIE2_DATA_GRANULARITY)
  else
    i2 ← i2_of t c fromLSCP;
    block ← zget (index2 t) i2;
    zget (data t) (block + Z.land c UTRIE2_DATA_MASK).

(** ** Blocks *)

Section Builder.
Context `{HP : Heap}.

Definition isInNullBlock (t : UNewTrie2) (c : Z) (forLSCP : bool) : option bool :=
  i2 ← i2_of t c forLSCP; block ← zget (index2 t) i2; Some (block =? dataNullOffset t).

Definition allocIndex2Block (t : UNewTrie2) : option (UNewTrie2 * Z) :=
  let newBlock := index2Length t in
  let newTop := newBlock + UTRIE2_INDEX_2_BLOCK_LENGTH in
  if UNEWTRIE2_MAX_INDEX_2_LENGTH <? newTop then Some (t, -1)
  else
    x ← cells_at (index2 t) (index2NullOffset t) UTRIE2_INDEX_2_BLOCK_LENGTH;
    i2 ← copy_to (index2 t) newBlock x;
    Some (set_index2 (set_index2Length t newTop) i2, newBlock).

Definition getIndex2Block (t : UNewTrie2) (c : Z) (forLSCP : bool) : option (UNewTrie2 * Z) :=
  if U16_IS_LEAD c && forLSCP then Some (t, UTRIE2_LSCP_INDEX_2_OFFSET)
  else
    let i1 := Z.shiftr c UTRIE2_SHIFT_1 in
    i2 ← zget (index1 t) i1;
    if i2 =? index2NullOffset t then
      '(t, i2) ← allocIndex2Block t;
      if i2 <? 0 then Some (t, -1) else i1s ← zset (index1 t) i1 i2; Some (set_index1 t i1s, i2)
    else Some (t, i2).

(** Growing the data array; [None] inside is the failure. *)
Definition grow_data (t : UNewTrie2) : option (option UNewTrie2) :=
  let capacity := if dataCapacity t <? UNEWTRIE2_MEDIUM_DATA_LENGTH then UNEWTRIE2_MEDIUM_DATA_LENGTH
                  else if dataCapacity t <? UNEWTRIE2_MAX_DATA_LENGTH then UNEWTRIE2_MAX_DATA_LENGTH else -1 in
  if capacity <? 0 then Some None
  else match uprv_malloc junk 4 capacity with
       | None => Some None
       | Some fresh => x ← cells_at (data t) 0 (dataLength t); d ← copy_to fresh 0 x; Some (Some (set_dataCapacity (set_data t d) capacity))
       end.

Definition allocDataBlock (t : UNewTrie2) (copyBlock : Z) : option (UNewTrie2 * Z) :=
  r ← (if negb (firstFreeBlock t =? 0) then
         let newBlock := firstFreeBlock t in
         m ← zget (map_ t) (Z.shiftr newBlock UTRIE2_SHIFT_2); Some (Some (set_firstFreeBlock t (- m), newBlock))
       else
         let newBlock := dataLength t in
         let newTop := newBlock + UTRIE2_DATA_BLOCK_LENGTH in
         r ← (if dataCapacity t <? newTop then grow_data t else Some (Some t));
         Some (option_map (fun t => (set_dataLength t newTop, newBlock)) r));
  match r with
  | None => Some (t, -1)
  | Some (t, newBlock) =>
      x ← cells_at (data t) copyBlock UTRIE2_DATA_BLOCK_LENGTH;
      d ← copy_to (data t) newBlock x;
      m ← zset (map_ t) (Z.shiftr newBlock UTRIE2_SHIFT_2) 0;
      Some (set_map (set_data t d) m, newBlock)
  end.

Definition releaseDataBlock (t : UNewTrie2) (block : Z) : option UNewTrie2 :=
  m ← zset (map_ t) (Z.shiftr block UTRIE2_SHIFT_2) (- firstFreeBlock t); Some (set_firstFreeBlock (set_map t m) block).

Definition isWritableBlock (t : UNewTrie2) (block : Z) : option bool :=
  if negb (block =? dataNullOffset t) then n ← zget (map_ t) (Z.shiftr block UTRIE2_SHIFT_2); Some (1 =? n) else Some false.

Definition setIndex2Entry (t : UNewTrie2) (i2 block : Z) : option UNewTrie2 :=
  n ← zget (map_ t) (Z.shiftr block UTRIE2_SHIFT_2);
  m ← zset (map_ t) (Z.shiftr block UTRIE2_SHIFT_2) (n + 1);
  let t := set_map t m in
  oldBlock ← zget (index2 t) i2;
  n ← zget (map_ t) (Z.shiftr oldBlock UTRIE2_SHIFT_2);
  m ← zset (map_ t) (Z.shiftr oldBlock UTRIE2_SHIFT_2) (n - 1);
  let t := set_map t m in
  t ← (if 0 =? n - 1 then releaseDataBlock t oldBlock else Some t);
  x ← zset (index2 t) i2 block;
  Some (set_index2 t x).

Definition getDataBlock (t : UNewTrie2) (c : Z) (forLSCP : bool) : option (UNewTrie2 * Z) :=
  '(t, i2) ← getIndex2Block t c forLSCP;
  if i2 <? 0 then Some (t, -1)
  else
    let i2 := i2 + Z.land (Z.shiftr c UTRIE2_SHIFT_2) UTRIE2_INDEX_2_MASK in
    oldBlock ← zget (index2 t) i2;
    w ← isWritableBlock t oldBlock;
    if (w : bool) then Some (t, oldBlock)
    else
      '(t, newBlock) ← allocDataBlock t oldBlock;
      if newBlock <? 0 then Some (t, -1) else t ← setIndex2Entry t i2 newBlock; Some (t, newBlock).

(** ** Setting values *)

Definition set32 (t : UNewTrie2) (c : Z) (forLSCP : bool) (value : Z) : option (UNewTrie2 * UErrorCode) :=
  if isCompacted t then Some (t, U_NO_WRITE_PERMISSION)
  else
    '(t, block) ← getDataBlock t c forLSCP;
    if block <? 0 then Some (t, U_MEMORY_ALLOCATION_ERROR)
    else d ← zset (data t) (block + Z.land c UTRIE2_DATA_MASK) value; Some (set_data t d, U_ZERO_ERROR).

Definition fill_cell (value initial : Z) (overwrite : bool) (p : Z) (d : list Z) : option (list Z) :=
  if overwrite then zset d p value else x ← zget d p; if x =? initial then zset d p value else Some d.

(** [fillBlock(newTrie->data+block, start, limit, ...)] *)
Definition fillBlock (t : UNewTrie2) (block start limit value : Z) (overwrite : bool) : option UNewTrie2 :=
  d ← for_from (Z.to_nat (limit - start)) (block + start) (fill_cell value (initialValue t) overwrite) (data t); Some (set_data t d).

Definition writeBlock (t : UNewTrie2) (block value : Z) : option UNewTrie2 :=
  d ← for_from (Z.to_nat UTRIE2_DATA_BLOCK_LENGTH) block (fun p d => zset d p value) (data t); Some (set_data t d).

(** One block of [while(start<limit)]: the trie, the repeat block, and the error that ends the
    function. *)
Definition range_block (t : UNewTrie2) (start value : Z) (overwrite : bool) (repeatBlock : Z) : option (UNewTrie2 * Z * UErrorCode) :=
  skip ← (if value =? initialValue t then isInNullBlock t start true else Some false);
  if (skip : bool) then Some (t, repeatBlock, U_ZERO_ERROR)
  else
    '(t, i2) ← getIndex2Block t start true;
    if i2 <? 0 then Some (t, repeatBlock, U_INTERNAL_PROGRAM_ERROR)
    else
      let i2 := i2 + Z.land (Z.shiftr start UTRIE2_SHIFT_2) UTRIE2_INDEX_2_MASK in
      block ← zget (index2 t) i2;
      w ← isWritableBlock t block;
      '(t, setRepeatBlock) ←
        (if (w : bool) then
           if overwrite && (UNEWTRIE2_DATA_0800_OFFSET <=? block) then Some (t, true)
           else t ← fillBlock t block 0 UTRIE2_DATA_BLOCK_LENGTH value overwrite; Some (t, false)
         else
           x ← zget (data t) block;
           Some (t, negb (x =? value) && (overwrite || (block =? dataNullOffset t))));
      if (setRepeatBlock : bool) then
        if 0 <=? repeatBlock then t ← setIndex2Entry t i2 repeatBlock; Some (t, repeatBlock, U_ZERO_ERROR)
        else
          '(t, repeatBlock) ← getDataBlock t start true;
          if repeatBlock <? 0 then Some (t, repeatBlock, U_MEMORY_ALLOCATION_ERROR)
          else t ← writeBlock t repeatBlock value; Some (t, repeatBlock, U_ZERO_ERROR)
      else Some (t, repeatBlock, U_ZERO_ERROR).

Fixpoint range_loop (n : nat) (t : UNewTrie2) (start value : Z) (overwrite : bool) (repeatBlock : Z) : option (UNewTrie2 * UErrorCode) :=
  match n with
  | O => Some (t, U_ZERO_ERROR)
  | S n =>
      '(t, repeatBlock, e) ← range_block t start value overwrite repeatBlock;
      if U_FAILURE e then Some (t, e) else range_loop n t (start + UTRIE2_DATA_BLOCK_LENGTH) value overwrite repeatBlock
  end.

(** From the block boundary [start] to [limit]. *)
Definition set_blocks (t : UNewTrie2) (start limit value : Z) (overwrite : bool) : option (UNewTrie2 * UErrorCode) :=
  let rest := Z.land limit UTRIE2_DATA_MASK in
  let limit := Z.land limit (Z.lnot UTRIE2_DATA_MASK) in
  let repeatBlock := if value =? initialValue t then dataNullOffset t else -1 in
  let n := Z.to_nat (Z.shiftr (limit - start) UTRIE2_SHIFT_2) in
  '(t, e) ← range_loop n t start value overwrite repeatBlock;
  if U_FAILURE e then Some (t, e)
  else if 0 <? rest then
    '(t, block) ← getDataBlock t (Z.max start limit) true;
    if block <? 0 then Some (t, U_MEMORY_ALLOCATION_ERROR) else t ← fillBlock t block 0 rest value overwrite; Some (t, U_ZERO_ERROR)
  else Some (t, U_ZERO_ERROR).

Definition setRange32 (t : UNewTrie2) (start end_ value : Z) (overwrite : bool) : option (UNewTrie2 * UErrorCode) :=
  if isCompacted t then Some (t, U_NO_WRITE_PERMISSION)
  else if negb overwrite && (value =? initialValue t) then Some (t, U_ZERO_ERROR)
  else
    let limit := end_ + 1 in
    if negb (Z.land start UTRIE2_DATA_MASK =? 0) then
      '(t, block) ← getDataBlock t start true;
      if block <? 0 then Some (t, U_MEMORY_ALLOCATION_ERROR)
      else
        let nextStart := Z.land (start + UTRIE2_DATA_BLOCK_LENGTH) (Z.lnot UTRIE2_DATA_MASK) in
        if nextStart <=? limit then
          t ← fillBlock t block (Z.land start UTRIE2_DATA_MASK) UTRIE2_DATA_BLOCK_LENGTH value overwrite;
          set_blocks t nextStart limit value overwrite
        else t ← fillBlock t block (Z.land start UTRIE2_DATA_MASK) (Z.land limit UTRIE2_DATA_MASK) value overwrite; Some (t, U_ZERO_ERROR)
    else set_blocks t start limit value overwrite.

(** ** Opening *)

Definition write_cells (n i value : Z) (l : list Z) : option (list Z) := for_from (Z.to_nat n) i (fun k l => zset l k value) l.

(** The index and the counters of an empty trie, in fresh memory, with the data array [d]. *)
Definition empty_trie (initial error : Z) (d : list Z) : option UNewTrie2 :=
  d ← write_cells 0x80 0 initial d;
  d ← write_cells 0x40 0x80 error d;
  d ← write_cells 0x40 UNEWTRIE2_DATA_NULL_OFFSET initial d;
  let ascii := Z.shiftr 0x80 UTRIE2_SHIFT_2 in
  i2 ← for_from (Z.to_nat ascii) 0 (fun i l => zset l i (i * UTRIE2_DATA_BLOCK_LENGTH)) (replicate (Z.to_nat UNEWTRIE2_MAX_INDEX_2_LENGTH) junk);
  m ← write_cells ascii 0 1 (replicate (Z.to_nat MAP_LENGTH) junk);
  m ← write_cells 2 ascii 0 m;
  m ← zset m (ascii + 2) (Z.shiftr 0x110000 UTRIE2_SHIFT_2 - ascii + 1 + UTRIE2_LSCP_INDEX_2_LENGTH);
  m ← zset m (ascii + 3) 0;
  i2 ← write_cells (UTRIE2_INDEX_2_BMP_LENGTH - ascii) ascii UNEWTRIE2_DATA_NULL_OFFSET i2;
  i2 ← write_cells UNEWTRIE2_INDEX_GAP_LENGTH UNEWTRIE2_INDEX_GAP_OFFSET (-1) i2;
  i2 ← write_cells UTRIE2_INDEX_2_BLOCK_LENGTH UNEWTRIE2_INDEX_2_NULL_OFFSET UNEWTRIE2_DATA_NULL_OFFSET i2;
  i1 ← for_from (Z.to_nat UTRIE2_OMITTED_BMP_INDEX_1_LENGTH) 0 (fun i l => zset l i (i * UTRIE2_INDEX_2_BLOCK_LENGTH)) (replicate (Z.to_nat UNEWTRIE2_INDEX_1_LENGTH) junk);
  i1 ← write_cells (UNEWTRIE2_INDEX_1_LENGTH - UTRIE2_OMITTED_BMP_INDEX_1_LENGTH) UTRIE2_OMITTED_BMP_INDEX_1_LENGTH UNEWTRIE2_INDEX_2_NULL_OFFSET i1;
  Some (mk_trie i1 i2 d initial error UNEWTRIE2_INDEX_2_START_OFFSET UNEWTRIE2_INITIAL_DATA_LENGTH UNEWTRIE2_DATA_START_OFFSET 0
          UNEWTRIE2_INDEX_2_NULL_OFFSET UNEWTRIE2_DATA_NULL_OFFSET 0x110000 false m).

(** Preallocating U+0080..U+07FF. *)
Definition preallocate (initial : Z) (t : UNewTrie2) : option (UNewTrie2 * UErrorCode) :=
  for_from (Z.to_nat (Z.shiftr (0x800 - 0x80) UTRIE2_SHIFT_2)) (Z.shiftr 0x80 UTRIE2_SHIFT_2)
    (fun i '(t, e) => if U_FAILURE e then Some (t, e) else set32 t (i * UTRIE2_DATA_BLOCK_LENGTH) true initial) (t, U_ZERO_ERROR).

(** *** The trie object *)

(** The header of the serialized form. *)
Record UTrie2Header := mk_header { signature : Z; options : Z; h_indexLength : Z; shiftedDataLength : Z; h_index2NullOffset : Z; h_dataNullOffset : Z; shiftedHighStart : Z }.

(** Where the values are: in the build-time trie, in the array of the index, in an array of their
    own. *)
Inductive values := Building (newTrie : UNewTrie2) | In16 | In32 (data32 : list Z).

Record utrie2 := mk_utrie2 {
  t_index : list Z;
  t_indexLength : Z; t_dataLength : Z;
  t_index2NullOffset : Z; t_dataNullOffset : Z;
  t_initialValue : Z; t_errorValue : Z;
  t_highStart : Z; t_highValueIndex : Z;
  t_length : Z;
  t_header : option UTrie2Header;
  t_values : values
}.

Definition set_values (t : utrie2) x := mk_utrie2 (t_index t) (t_indexLength t) (t_dataLength t) (t_index2NullOffset t) (t_dataNullOffset t) (t_initialValue t) (t_errorValue t) (t_highStart t) (t_highValueIndex t) (t_length t) (t_header t) x.
Definition set_t_highStart (t : utrie2) x := mk_utrie2 (t_index t) (t_indexLength t) (t_dataLength t) (t_index2NullOffset t) (t_dataNullOffset t) (t_initialValue t) (t_errorValue t) x (t_highValueIndex t) (t_length t) (t_header t) (t_values t).

Context (sizeof_UTrie2 sizeof_UNewTrie2 : Z).

(** The null pointer is [None] inside. *)
Definition utrie2_open (initial error : Z) (e : UErrorCode) : option (option utrie2 * UErrorCode) :=
  if U_FAILURE e then Some (None, e)
  else match uprv_malloc junk 4 UNEWTRIE2_INITIAL_DATA_LENGTH with
       | Some d =>
           if alloc_ok sizeof_UTrie2 && alloc_ok sizeof_UNewTrie2 then
             t ← empty_trie initial error d;
             '(t, e) ← preallocate initial t;
             Some (Some (mk_utrie2 [] 0 0 0 0 initial error 0x110000 0 0 None (Building t)), e)
           else Some (None, U_MEMORY_ALLOCATION_ERROR)
       | None => Some (None, U_MEMORY_ALLOCATION_ERROR)
       end.

(** [trie->newTrie] *)
Definition newTrie (t : utrie2) : option UNewTrie2 := match t_values t with Building b => Some b | _ => None end.

Definition utrie2_set32 (t : utrie2) (c value : Z) (e : UErrorCode) : option (utrie2 * UErrorCode) :=
  if U_FAILURE e then Some (t, e)
  else if 0x10ffff <? uint32 c then Some (t, U_ILLEGAL_ARGUMENT_ERROR)
  else match newTrie t with
       | None => Some (t, U_NO_WRITE_PERMISSION)
       | Some b => '(b, e) ← set32 b c true value; Some (set_values t (Building b), e)
       end.

Definition utrie2_set32ForLeadSurrogateCodeUnit (t : utrie2) (c value : Z) (e : UErrorCode) : option (utrie2 * UErrorCode) :=
  if U_FAILURE e then Some (t, e)
  else if negb (U16_IS_LEAD c) then Some (t, U_ILLEGAL_ARGUMENT_ERROR)
  else match newTrie t with
       | None => Some (t, U_NO_WRITE_PERMISSION)
       | Some b => '(b, e) ← set32 b c false value; Some (set_values t (Building b), e)
       end.

Definition utrie2_setRange32 (t : utrie2) (start end_ value : Z) (overwrite : bool) (e : UErrorCode) : option (utrie2 * UErrorCode) :=
  if U_FAILURE e then Some (t, e)
  else if (0x10ffff <? uint32 start) || (0x10ffff <? uint32 end_) || (end_ <? start) then Some (t, U_ILLEGAL_ARGUMENT_ERROR)
  else match newTrie t with
       | None => Some (t, U_NO_WRITE_PERMISSION)
       | Some b => '(b, e) ← setRange32 b start end_ value overwrite; Some (set_values t (Building b), e)
       end.

(** *** Cloning *)

Definition cloneBuilder (other : UNewTrie2) : option (option UNewTrie2) :=
  if negb (alloc_ok sizeof_UNewTrie2) then Some None
  else match uprv_malloc junk 4 (dataCapacity other) with
       | None => Some None
       | Some d =>
           x ← cells_at (index2 other) 0 (index2Length other); i2 ← copy_to (replicate (Z.to_nat UNEWTRIE2_MAX_INDEX_2_LENGTH) junk) 0 x;
           x ← cells_at (data other) 0 (dataLength other); d ← copy_to d 0 x;
           let fresh := replicate (Z.to_nat MAP_LENGTH) junk in
           m ← (if isCompacted other then Some fresh else x ← cells_at (map_ other) 0 (Z.shiftr (dataLength other) UTRIE2_SHIFT_2); copy_to fresh 0 x);
           Some (Some (mk_trie (index1 other) i2 d (initialValue other) (errorValue other) (index2Length other) (dataCapacity other) (dataLength other)
             (if isCompacted other then 0 else firstFreeBlock other) (index2NullOffset other) (dataNullOffset other) (highStart other) (isCompacted other) m))
       end.
End Builder.
End UTrie2.
