(* ===== verification/UTrie2Facts.v ===== *)
(** * The invariant of the build-time trie

    Every code point, and every lead surrogate code unit, has a slot in the index-2 table; blocks
    of values are counted by the slots that point to them.  The functions on blocks keep the
    invariant and the values. *)

From S2P Require Import Prelude Utf16 UTrie2.

Module UTrie2Facts.
Import Utf16 UTrie2.

(** ** Arrays as total functions *)

Definition rd (l : list Z) (i : Z) : Z := default 0 (zget l i).

Lemma zget_rd l i : 0 <= i < zlen l -> zget l i = Some (rd l i).
Proof. intros Hi. unfold rd. by destruct (zget_is_Some l i Hi) as [x ->]. Qed.

Lemma rd_zget l i x : zget l i = Some x -> rd l i = x.
Proof. unfold rd. by intros ->. Qed.

Lemma zset_rd l i x : 0 <= i < zlen l -> exists l', zset l i x = Some l' /\ zlen l' = zlen l /\ forall j, rd l' j = if i =? j then x else rd l j.
Proof.
  intros Hi. exists (<[Z.to_nat i := x]> l). rewrite zset_in by done. split; [done|]. split; [unfold zlen; by rewrite length_insert|]. intros j. unfold rd. destruct (Z.eqb_spec i j) as [<-|Hne]; [by rewrite zget_insert_eq|].
  destruct (Z.lt_ge_cases j 0); [by rewrite !zget_None by lia|]. by rewrite zget_insert_ne by lia.
Qed.

Lemma cells_at_rd l i n : 0 <= i -> 0 <= n -> i + n <= zlen l -> exists x, cells_at l i n = Some x /\ zlen x = n /\ forall j, 0 <= j < n -> rd x j = rd l (i + j).
Proof.
  intros Hi Hn Hl. unfold cells_at. destruct (Z.leb_spec 0 i), (Z.leb_spec 0 n), (Z.leb_spec (i + n) (zlen l)); try lia. cbn [andb]. eexists. split; [done|]. split; [apply zlen_ztake; unfold zlen in *; rewrite length_drop; lia|].
  intros j Hj. unfold rd. rewrite zget_ztake by lia. rewrite <- (Z2Nat.id j), <- (Z2Nat.id i) by lia. rewrite <- Nat2Z.inj_add, !zget_nat, Nat2Z.id. by rewrite lookup_drop.
Qed.

Lemma rd_app l1 l2 j : 0 <= j -> rd (l1 ++ l2) j = if j <? zlen l1 then rd l1 j else rd l2 (j - zlen l1).
Proof. intros Hj. unfold rd. destruct (Z.ltb_spec j (zlen l1)); [by rewrite zget_app_l|by rewrite zget_app_r]. Qed.

Lemma copy_to_rd l i x : 0 <= i -> i + zlen x <= zlen l -> exists l', copy_to l i x = Some l' /\ zlen l' = zlen l /\ forall j, 0 <= j -> rd l' j = if (i <=? j) && (j <? i + zlen x) then rd x (j - i) else rd l j.
Proof.
  intros Hi Hl. pose proof (zlen_nonneg x). unfold copy_to. destruct (Z.leb_spec 0 i), (Z.leb_spec (i + zlen x) (zlen l)); try lia. cbn [andb]. eexists. split; [done|]. assert (Ht : zlen (ztake i l) = i) by (apply zlen_ztake; lia).
  split; [rewrite !zlen_app, Ht; unfold zlen in *; rewrite length_drop; lia|]. intros j Hj. rewrite rd_app, Ht by lia. destruct (Z.ltb_spec j i).
  - destruct (Z.leb_spec i j); [lia|]. cbn [andb]. unfold rd. by rewrite zget_ztake.
  - destruct (Z.leb_spec i j); [|lia]. cbn [andb]. rewrite rd_app by lia. destruct (Z.ltb_spec (j - i) (zlen x)), (Z.ltb_spec j (i + zlen x)); try lia.
    unfold rd. f_equal. rewrite <- (Z2Nat.id (j - i - zlen x)), <- (Z2Nat.id j) by lia. rewrite !zget_nat, lookup_drop. f_equal. lia.
Qed.

Lemma rd_replicate n x j : 0 <= j < Z.of_nat n -> rd (replicate n x) j = x.
Proof. intros Hj. unfold rd. rewrite <- (Z2Nat.id j) by lia. rewrite zget_nat, lookup_replicate_2 by lia. done. Qed.

(** ** Loops *)

Lemma for_from_inv {A} (P : Z -> A -> Prop) (body : Z -> A -> option A) n i s :
  P i s -> (forall k s, i <= k < i + Z.of_nat n -> P k s -> exists s', body k s = Some s' /\ P (k + 1) s') -> exists s', for_from n i body s = Some s' /\ P (i + Z.of_nat n) s'.
Proof.
  revert i s. induction n as [|n IH]; intros i s Hs Hstep; cbn [for_from]; [exists s; by rewrite Z.add_0_r|].
  destruct (Hstep i s) as (s1 & -> & Hs1); [lia|done|]. cbn [mbind option_bind]. destruct (IH (i + 1) s1 Hs1) as (s2 & -> & Hs2); [intros k s' Hk; apply Hstep; lia|]. exists s2. split; [done|]. by replace (i + Z.of_nat (S n)) with (i + 1 + Z.of_nat n) by lia.
Qed.

(** Writing [f k] to each cell [k] of a range. *)
Lemma for_write (f : Z -> Z) n i l :
  0 <= i -> i + Z.of_nat n <= zlen l ->
  exists l', for_from n i (fun k l => zset l k (f k)) l = Some l' /\ zlen l' = zlen l /\ forall j, rd l' j = if (i <=? j) && (j <? i + Z.of_nat n) then f j else rd l j.
Proof.
  intros Hi Hl. destruct (for_from_inv (fun k l' => zlen l' = zlen l /\ forall j, rd l' j = if (i <=? j) && (j <? k) then f j else rd l j) (fun k l => zset l k (f k)) n i l) as (l' & E & Hl'); [| |by exists l'].
  - split; [done|]. intros j. destruct (Z.leb_spec i j), (Z.ltb_spec j i); try lia; done.
  - intros k l' Hk [Hz Hj]. destruct (zset_rd l' k (f k)) as (l2 & -> & Hz2 & Hj2); [lia|]. exists l2. split; [done|]. split; [lia|]. intros j. rewrite Hj2, Hj. destruct (Z.eqb_spec k j) as [->|].
    + destruct (Z.leb_spec i j), (Z.ltb_spec j (j + 1)); try lia; done.
    + destruct (Z.leb_spec i j), (Z.ltb_spec j k), (Z.ltb_spec j (k + 1)); try lia; done.
Qed.

Lemma write_cells_rd n i v l :
  0 <= i -> 0 <= n -> i + n <= zlen l -> exists l', write_cells n i v l = Some l' /\ zlen l' = zlen l /\ forall j, rd l' j = if (i <=? j) && (j <? i + n) then v else rd l j.
Proof. intros Hi Hn Hl. destruct (for_write (fun _ => v) (Z.to_nat n) i l Hi) as (l' & E & Hz & Hj); [lia|]. exists l'. rewrite Z2Nat.id in Hj by lia. done. Qed.

(** ** Counting *)

Fixpoint cnt (n : nat) (P : Z -> bool) : Z := match n with O => 0 | S n => cnt n P + Z.b2z (P (Z.of_nat n)) end.

Lemma cnt_range n P : 0 <= cnt n P <= Z.of_nat n.
Proof. induction n as [|n IH]; cbn [cnt]; [lia|]. destruct (P (Z.of_nat n)); cbn [Z.b2z]; lia. Qed.

Lemma cnt_ext n P Q : (forall i, 0 <= i < Z.of_nat n -> P i = Q i) -> cnt n P = cnt n Q.
Proof. induction n as [|n IH]; intros H; cbn [cnt]; [done|]. rewrite IH, H by (intros; try apply H; lia). done. Qed.

Lemma cnt_update n P Q s : 0 <= s < Z.of_nat n -> (forall i, 0 <= i < Z.of_nat n -> i <> s -> P i = Q i) -> cnt n Q = cnt n P - Z.b2z (P s) + Z.b2z (Q s).
Proof.
  induction n as [|n IH]; intros Hs H; [lia|]. cbn [cnt]. destruct (Z.eq_dec s (Z.of_nat n)) as [->|Hne].
  - rewrite (cnt_ext n P Q) by (intros i Hi; apply H; lia). lia.
  - rewrite IH by (lia || (intros i Hi; apply H; lia)). rewrite (H (Z.of_nat n)) by lia. lia.
Qed.

Lemma cnt_pos n P s : 0 <= s < Z.of_nat n -> P s = true -> 0 < cnt n P.
Proof.
  intros Hs HP. rewrite (cnt_update n (fun i => if i =? s then false else P i) P s) by (done || (intros i _ Hi; destruct (Z.eqb_spec i s); done)). rewrite Z.eqb_refl, HP. pose proof (cnt_range n (fun i => if i =? s then false else P i)). cbn [Z.b2z]. lia.
Qed.

Lemma cnt_two n P s s' : 0 <= s < Z.of_nat n -> 0 <= s' < Z.of_nat n -> s <> s' -> P s = true -> P s' = true -> 2 <= cnt n P.
Proof.
  intros Hs Hs' Hne HP HP'. rewrite (cnt_update n (fun i => if i =? s then false else P i) P s) by (done || (intros i _ Hi; destruct (Z.eqb_spec i s); done)). rewrite Z.eqb_refl, HP.
  pose proof (cnt_pos n (fun i => if i =? s then false else P i) s' Hs') as H. cbv beta in H. destruct (Z.eqb_spec s' s); [lia|]. specialize (H HP'). cbn [Z.b2z]. lia.
Qed.

Lemma cnt_witness n P : 0 < cnt n P -> exists s, 0 <= s < Z.of_nat n /\ P s = true.
Proof.
  induction n as [|n IH]; cbn [cnt]; [lia|]. intros H. destruct (P (Z.of_nat n)) eqn:E; [exists (Z.of_nat n); split; [lia|done]|]. destruct IH as (s & Hs & HP); [cbn [Z.b2z] in H; lia|]. exists s. split; [lia|done].
Qed.

Lemma cnt_all n P : cnt n P = Z.of_nat n -> forall s, 0 <= s < Z.of_nat n -> P s = true.
Proof.
  intros H s Hs. destruct (P s) eqn:E; [done|]. exfalso. set (Q := fun i => if i =? s then true else P i).
  assert (Hu : cnt n Q = cnt n P - Z.b2z (P s) + Z.b2z (Q s)) by (apply cnt_update; [done|intros i _ Hi; unfold Q; destruct (Z.eqb_spec i s); done]). assert (HQ : Q s = true) by (unfold Q; by rewrite Z.eqb_refl).
  rewrite E, HQ in Hu. pose proof (cnt_range n Q). cbn [Z.b2z] in Hu. lia.
Qed.

(** The elements are counted by their classes. *)
Fixpoint total (n : nat) (f : Z -> Z) : Z := match n with O => 0 | S n => total n f + f (Z.of_nat n) end.

Lemma total_le n f g : (forall i, 0 <= i < Z.of_nat n -> f i <= g i) -> total n f <= total n g.
Proof. induction n as [|n IH]; intros H; cbn [total]; [lia|]. pose proof (H (Z.of_nat n) ltac:(lia)). assert (total n f <= total n g) by (apply IH; intros; apply H; lia). lia. Qed.

Lemma total_add n f g : total n (fun i => f i + g i) = total n f + total n g.
Proof. induction n as [|n IH]; cbn [total]; lia. Qed.

Lemma total_zero n : total n (fun _ => 0) = 0.
Proof. induction n as [|n IH]; cbn [total]; lia. Qed.

Lemma total_cnt n P : total n (fun i => Z.b2z (P i)) = cnt n P.
Proof. induction n as [|n IH]; cbn [total cnt]; lia. Qed.

Lemma cnt_classes m n (c : Z -> Z) : (forall i, 0 <= i < Z.of_nat n -> 0 <= c i < Z.of_nat m) -> total m (fun k => cnt n (fun i => c i =? k)) = Z.of_nat n.
Proof.
  induction n as [|n IH]; intros H; cbn [cnt]; [apply total_zero|]. rewrite total_add, IH by (intros i Hi; apply H; lia). rewrite (total_cnt m (fun k => c (Z.of_nat n) =? k)).
  rewrite (cnt_update m (fun _ => false) (fun k => c (Z.of_nat n) =? k) (c (Z.of_nat n))); [|apply H; lia|intros i _ Hi; symmetry; apply Z.eqb_neq; lia].
  assert (cnt m (fun _ => false) = 0) as -> by (clear; induction m; cbn [cnt Z.b2z]; lia). rewrite Z.eqb_refl. cbn [Z.b2z]. lia.
Qed.

(** ** Slots *)

(** The slots of the code points (of the code units, for lead surrogates) and of the lead surrogate
    code points. *)
Definition CP_SLOTS : Z := 34816.
Definition nslots_aux : seal (Z.to_nat 34848). Proof. by eexists. Qed.
Definition nslots : nat := unseal nslots_aux.
Lemma nslots_eq : Z.of_nat nslots = 34848.
Proof. unfold nslots. rewrite (seal_eq nslots_aux). lia. Qed.
Definition nsupp_aux : seal (Z.to_nat 512). Proof. by eexists. Qed.
Definition nsupp : nat := unseal nsupp_aux.
Lemma nsupp_eq : Z.of_nat nsupp = 512.
Proof. unfold nsupp. rewrite (seal_eq nsupp_aux). lia. Qed.

Definition slot (s : Z) : Prop := 0 <= s < 34848.
Definition slot_of (c : Z) (lscp : bool) : Z := if U16_IS_LEAD c && lscp then CP_SLOTS + (c / 32 - 1728) else c / 32.

(** Where the entry of a slot is in the index-2 table, the block that it points to, the values of
    the slot. *)
Definition pos (t : UNewTrie2) (s : Z) : Z := if s <? CP_SLOTS then rd (index1 t) (s / 64) + s mod 64 else 2048 + (s - CP_SLOTS).
Definition blk (t : UNewTrie2) (s : Z) : Z := rd (index2 t) (pos t s).
Definition val (t : UNewTrie2) (s j : Z) : Z := rd (data t) (blk t s + j).
Definition uses (t : UNewTrie2) (b : Z) : Z := cnt nslots (fun s => blk t s =? b).

(** The blocks that slots may point to: not the values for ill-formed UTF-8, nor the second half
    of the null block. *)
Definition good (t : UNewTrie2) (b : Z) : Prop := 0 <= b /\ b + 32 <= dataLength t /\ b mod 32 = 0 /\ b <> 128 /\ b <> 160 /\ b <> 224.

Definition is_null (b : Z) : Z := Z.b2z (b =? 192).

(** The blocks in front of U+0800 lie in the order of the code points. *)
Definition lin (s : Z) : Z := if s <? 4 then 32 * s else 128 + 32 * s.

Fixpoint chain (m : list Z) (first : Z) (fl : list Z) : Prop := match fl with [] => first = 0 | b :: fl => first = b /\ chain m (- rd m (b / 32)) fl end.

(** The free list is [fl]; the block [held] is neither used nor free (-1: there is none); the first
    [n] slots have their own blocks, in order. *)
Record inv (n held : Z) (fl : list Z) (t : UNewTrie2) : Prop := {
  i_len1 : zlen (index1 t) = 544;
  i_len2 : zlen (index2 t) = 35488;
  i_lenm : zlen (map_ t) = 34852;
  i_lend : zlen (data t) = dataCapacity t;
  i_cap : dataCapacity t = 16384 \/ dataCapacity t = 131072 \/ dataCapacity t = 1115264;
  i_null2 : index2NullOffset t = 2656;
  i_null : dataNullOffset t = 192;
  i_open : isCompacted t = false;
  i_bmp1 : forall i, 0 <= i < 32 -> rd (index1 t) i = 64 * i;
  i_supp1 : forall i, 32 <= i < 544 -> rd (index1 t) i = 2656 \/ 2720 <= rd (index1 t) i /\ rd (index1 t) i + 64 <= index2Length t /\ (rd (index1 t) i - 2720) mod 64 = 0;
  i_inj1 : forall i j, 32 <= i < 544 -> 32 <= j < 544 -> rd (index1 t) i = rd (index1 t) j -> rd (index1 t) i = 2656 \/ i = j;
  i_top2 : index2Length t = 2720 + 64 * cnt nsupp (fun i => negb (rd (index1 t) (32 + i) =? 2656));
  i_null_cells : forall p, 2656 <= p < 2720 -> rd (index2 t) p = 192;
  i_gap : forall p, 2080 <= p < 2656 -> rd (index2 t) p = -1;
  i_top : 256 <= dataLength t <= dataCapacity t /\ dataLength t mod 32 = 0;
  i_blk : forall s, slot s -> good t (blk t s);
  i_map : forall b, good t b -> b ∉ fl -> rd (map_ t) (b / 32) = uses t b + is_null b;
  i_nodup : NoDup fl;
  i_free : forall b, b ∈ fl <-> good t b /\ uses t b = 0 /\ b <> 192 /\ b <> held;
  i_chain : chain (map_ t) (firstFreeBlock t) fl;
  i_held : held = -1 \/ good t held /\ held <> 192 /\ uses t held = 0;
  i_lin : forall s, 0 <= s < n -> blk t s = lin s /\ uses t (lin s) = 1;
  i_n : 4 <= n <= 64;
  i_shared : forall s s', slot s -> slot s' -> s <> s' -> blk t s = blk t s' -> blk t s <> 192 -> exists v, v <> initialValue t /\ forall j, 0 <= j < 32 -> val t s j = v;
  i_null_data : forall j, 0 <= j < 64 -> rd (data t) (192 + j) = initialValue t;
  i_bad : forall j, 128 <= j < 192 -> rd (data t) j = errorValue t
}.

Lemma shift5 c : Z.shiftr c 5 = c / 32.
Proof. by rewrite Z.shiftr_div_pow2. Qed.
Lemma shift11 c : Z.shiftr c 11 = c / 2048.
Proof. by rewrite Z.shiftr_div_pow2. Qed.
Lemma mask31 c : Z.land c 31 = c mod 32.
Proof. change 31 with (Z.ones 5). by rewrite Z.land_ones. Qed.
Lemma mask63 c : Z.land c 63 = c mod 64.
Proof. change 63 with (Z.ones 6). by rewrite Z.land_ones. Qed.

Lemma uses_pos t s : slot s -> 0 < uses t (blk t s).
Proof. intros Hs. apply (cnt_pos nslots _ s); [rewrite nslots_eq; exact Hs|apply Z.eqb_refl]. Qed.

Lemma uses_two t s s' : slot s -> slot s' -> s <> s' -> blk t s = blk t s' -> 2 <= uses t (blk t s).
Proof. intros Hs Hs' Hne E. apply (cnt_two nslots _ s s'); rewrite ?nslots_eq; auto; [apply Z.eqb_refl|rewrite E; apply Z.eqb_refl]. Qed.

Lemma uses_nonneg t b : 0 <= uses t b.
Proof. apply cnt_range. Qed.

Lemma uses_slot t b : 0 < uses t b -> exists s, slot s /\ blk t s = b.
Proof. intros H. apply cnt_witness in H as (s & Hs & E). rewrite nslots_eq in Hs. exists s. split; [exact Hs|by apply Z.eqb_eq]. Qed.

Lemma slot_cp c lscp : 0 <= c <= 0x10ffff -> slot (slot_of c lscp).
Proof.
  intros Hc. unfold slot, slot_of, CP_SLOTS. destruct (U16_IS_LEAD c) eqn:E; cbn [andb]; [|dlia]. apply lead_range in E; [|lia]. destruct lscp; dlia.
Qed.

(** *** Positions *)

Section Inv.
Context {n held : Z} {fl : list Z} {t : UNewTrie2} (Hinv : inv n held fl t).

Lemma len2_range : 2720 <= index2Length t <= 35488.
Proof. rewrite (i_top2 _ _ _ _ Hinv). pose proof (cnt_range nsupp (fun i => negb (rd (index1 t) (32 + i) =? 2656))) as Hc. rewrite nsupp_eq in Hc. lia. Qed.

Lemma pos_cases s : slot s ->
  (s < 2048 /\ pos t s = s) \/ (CP_SLOTS <= s /\ pos t s = 2048 + (s - CP_SLOTS)) \/
  (2048 <= s < CP_SLOTS /\ 32 <= s / 64 < 544 /\ pos t s = rd (index1 t) (s / 64) + s mod 64).
Proof.
  intros Hs. unfold slot, CP_SLOTS, pos in *. destruct (Z.ltb_spec s CP_SLOTS) as [H|H]; unfold CP_SLOTS in H; [|right; left; done]. destruct (Z.lt_ge_cases s 2048) as [H1|H1]; [left|right; right; split; [lia|split; [dlia|done]]].
  split; [done|]. rewrite (i_bmp1 _ _ _ _ Hinv) by dlia. dlia.
Qed.

Lemma pos_range s : slot s -> 0 <= pos t s < 2080 \/ 2656 <= pos t s < index2Length t.
Proof.
  intros Hs. pose proof len2_range. destruct (pos_cases s Hs) as [[H1 ->]|[[H1 ->]|(H1 & H2 & ->)]]; unfold slot, CP_SLOTS in *; [lia|lia|]. pose proof (Z.mod_pos_bound s 64 ltac:(lia)).
  destruct (i_supp1 _ _ _ _ Hinv (s / 64) H2) as [->|(H3 & H4 & _)]; lia.
Qed.

Lemma pos_inj s s' : slot s -> slot s' -> pos t s = pos t s' -> s = s' \/ 2656 <= pos t s < 2720.
Proof.
  intros Hs Hs' E. pose proof (Z.mod_pos_bound s 64 ltac:(lia)). pose proof (Z.mod_pos_bound s' 64 ltac:(lia)). pose proof (Z.div_mod s 64 ltac:(lia)) as D. pose proof (Z.div_mod s' 64 ltac:(lia)) as D'.
  destruct (pos_cases s Hs) as [[H1 E1]|[[H1 E1]|(H1 & H2 & E1)]], (pos_cases s' Hs') as [[H1' E1']|[[H1' E1']|(H1' & H2' & E1')]]; rewrite E1 in *; rewrite E1' in *; unfold slot, CP_SLOTS in *; try lia.
  - destruct (i_supp1 _ _ _ _ Hinv (s' / 64) H2') as [E2|(H3 & H4 & _)]; lia.
  - destruct (i_supp1 _ _ _ _ Hinv (s' / 64) H2') as [E2|(H3 & H4 & _)]; lia.
  - destruct (i_supp1 _ _ _ _ Hinv (s / 64) H2) as [E2|(H3 & H4 & _)]; lia.
  - destruct (i_supp1 _ _ _ _ Hinv (s / 64) H2) as [E2|(H3 & H4 & _)]; lia.
  - pose proof (i_inj1 _ _ _ _ Hinv (s / 64) (s' / 64) H2 H2') as Hinj. destruct (i_supp1 _ _ _ _ Hinv (s / 64) H2) as [E2|(H3 & H4 & M)], (i_supp1 _ _ _ _ Hinv (s' / 64) H2') as [E2'|(H3' & H4' & M')]; [lia|lia|lia|].
    assert (rd (index1 t) (s / 64) = rd (index1 t) (s' / 64)) as Heq by dlia. destruct (Hinj Heq); lia.
Qed.

Lemma i2_of_pos c lscp : 0 <= c <= 0x10ffff -> i2_of t c lscp = Some (pos t (slot_of c lscp)).
Proof.
  intros Hc. unfold i2_of, pos, slot_of, UTRIE2_SHIFT_1, UTRIE2_SHIFT_2, UTRIE2_LSCP_INDEX_2_OFFSET, UTRIE2_INDEX_2_MASK, CP_SLOTS. rewrite !shift5, shift11, mask63. destruct (U16_IS_LEAD c) eqn:El; cbn [andb].
  - apply lead_range in El; [|lia]. destruct lscp.
    + destruct (Z.ltb_spec (34816 + (c / 32 - 1728)) 34816); [dlia|]. f_equal. change (55296 / 32) with 1728. lia.
    + destruct (Z.ltb_spec (c / 32) 34816); [|dlia]. rewrite Z.div_div by lia. change (32 * 64) with 2048. rewrite zget_rd; [done|]. rewrite (i_len1 _ _ _ _ Hinv). dlia.
  - destruct (Z.ltb_spec (c / 32) 34816); [|dlia]. rewrite Z.div_div by lia. change (32 * 64) with 2048. rewrite zget_rd; [done|]. rewrite (i_len1 _ _ _ _ Hinv). dlia.
Qed.

Lemma index2_get s : slot s -> zget (index2 t) (pos t s) = Some (blk t s).
Proof. intros Hs. apply zget_rd. rewrite (i_len2 _ _ _ _ Hinv). pose proof len2_range. destruct (pos_range s Hs); lia. Qed.

Lemma data_get s j : slot s -> 0 <= j < 32 -> zget (data t) (blk t s + j) = Some (val t s j).
Proof. intros Hs Hj. apply zget_rd. rewrite (i_lend _ _ _ _ Hinv). destruct (i_blk _ _ _ _ Hinv s Hs) as (H0 & H1 & _). pose proof (i_top _ _ _ _ Hinv). lia. Qed.

(** Reading gives the value of the slot. *)
Lemma get32_val c lscp : highStart t = 0x110000 -> 0 <= c <= 0x10ffff -> get32 t c lscp = Some (val t (slot_of c lscp) (c mod 32)).
Proof.
  intros Hhigh Hc. unfold get32. rewrite Hhigh. destruct (Z.leb_spec 0x110000 c); [lia|]. cbn [andb]. rewrite i2_of_pos by done. cbn [mbind option_bind]. pose proof (slot_cp c lscp Hc). rewrite index2_get by done. cbn [mbind option_bind]. unfold UTRIE2_DATA_MASK. rewrite mask31. apply data_get; [done|dlia].
Qed.

Lemma map_get b : good t b -> zget (map_ t) (b / 32) = Some (rd (map_ t) (b / 32)).
Proof. intros (H0 & H1 & H2 & _). apply zget_rd. rewrite (i_lenm _ _ _ _ Hinv). pose proof (i_top _ _ _ _ Hinv). destruct (i_cap _ _ _ _ Hinv) as [?|[?|?]]; dlia. Qed.

Lemma used_not_free s : slot s -> blk t s ∉ fl.
Proof. intros Hs Hin. apply (i_free _ _ _ _ Hinv) in Hin as (_ & H & _). pose proof (uses_pos t s Hs). lia. Qed.

Lemma map_blk s : slot s -> zget (map_ t) (blk t s / 32) = Some (uses t (blk t s) + is_null (blk t s)).
Proof. intros Hs. rewrite map_get by (by apply (i_blk _ _ _ _ Hinv)). f_equal. apply (i_map _ _ _ _ Hinv); [by apply (i_blk _ _ _ _ Hinv)|by apply used_not_free]. Qed.

Lemma isWritableBlock_blk s : slot s -> isWritableBlock t (blk t s) = Some (negb (blk t s =? 192) && (uses t (blk t s) =? 1)).
Proof.
  intros Hs. unfold isWritableBlock, UTRIE2_SHIFT_2. rewrite (i_null _ _ _ _ Hinv), shift5. destruct (Z.eqb_spec (blk t s) 192) as [E|E]; cbn [negb andb]; [done|]. rewrite map_blk by done. cbn [mbind option_bind]. unfold is_null. destruct (Z.eqb_spec (blk t s) 192); [done|]. cbn [Z.b2z]. f_equal. rewrite Z.add_0_r. apply Z.eqb_sym.
Qed.
End Inv.

(** ** Index-2 blocks *)

(** Only the index has changed, and no slot points to another block. *)
Record same_blocks (t t' : UNewTrie2) : Prop := {
  sb_blk : forall s, slot s -> blk t' s = blk t s;
  sb_data : data t' = data t;
  sb_map : map_ t' = map_ t;
  sb_len : dataLength t' = dataLength t;
  sb_cap : dataCapacity t' = dataCapacity t;
  sb_free : firstFreeBlock t' = firstFreeBlock t;
  sb_init : initialValue t' = initialValue t;
  sb_error : errorValue t' = errorValue t;
  sb_high : highStart t' = highStart t
}.

Lemma same_blocks_refl t : same_blocks t t.
Proof. by constructor. Qed.

Lemma same_uses t t' b : same_blocks t t' -> uses t' b = uses t b.
Proof. intros H. apply cnt_ext. intros s Hs. rewrite nslots_eq in Hs. by rewrite (sb_blk _ _ H). Qed.

Lemma same_good t t' b : same_blocks t t' -> good t' b <-> good t b.
Proof. intros H. unfold good. by rewrite (sb_len _ _ H). Qed.

Lemma same_val t t' s j : same_blocks t t' -> slot s -> val t' s j = val t s j.
Proof. intros H Hs. unfold val. by rewrite (sb_blk _ _ H), (sb_data _ _ H). Qed.

(** The parts of the invariant that are about blocks. *)
Lemma inv_same n held fl t t' :
  inv n held fl t -> same_blocks t t' ->
  zlen (index1 t') = 544 -> zlen (index2 t') = 35488 -> index2NullOffset t' = 2656 -> dataNullOffset t' = 192 -> isCompacted t' = false ->
  (forall i, 0 <= i < 32 -> rd (index1 t') i = 64 * i) ->
  (forall i, 32 <= i < 544 -> rd (index1 t') i = 2656 \/ 2720 <= rd (index1 t') i /\ rd (index1 t') i + 64 <= index2Length t' /\ (rd (index1 t') i - 2720) mod 64 = 0) ->
  (forall i j, 32 <= i < 544 -> 32 <= j < 544 -> rd (index1 t') i = rd (index1 t') j -> rd (index1 t') i = 2656 \/ i = j) ->
  index2Length t' = 2720 + 64 * cnt nsupp (fun i => negb (rd (index1 t') (32 + i) =? 2656)) ->
  (forall p, 2656 <= p < 2720 -> rd (index2 t') p = 192) -> (forall p, 2080 <= p < 2656 -> rd (index2 t') p = -1) -> inv n held fl t'.
Proof.
  intros Hinv Hs H1 H2 H3 H4 H6 H7 H8 H9 H10 H11 H12. pose proof Hs as [Eb Ed Em El Ec Ef Ei Ee _]. constructor; try done.
  - by rewrite Em, (i_lenm _ _ _ _ Hinv).
  - by rewrite Ed, Ec, (i_lend _ _ _ _ Hinv).
  - rewrite Ec. apply Hinv.
  - rewrite El, Ec. apply Hinv.
  - intros s Hsl. rewrite (same_good t t') by done. rewrite Eb by done. by apply Hinv.
  - intros b Hb Hfl. rewrite (same_good t t') in Hb by done. rewrite Em, (same_uses t t') by done. by apply Hinv.
  - apply Hinv.
  - intros b. rewrite (same_good t t'), (same_uses t t') by done. apply Hinv.
  - rewrite Em, Ef. apply Hinv.
  - destruct (i_held _ _ _ _ Hinv) as [?|?]; [by left|right]. by rewrite (same_good t t'), (same_uses t t').
  - intros s Hsn. rewrite (same_uses t t') by done. assert (slot s) by (pose proof (i_n _ _ _ _ Hinv); unfold slot; lia). rewrite Eb by done. by apply Hinv.
  - apply Hinv.
  - intros s s' Hsl Hsl' Hne E Hnn. rewrite !Eb in * by done. destruct (i_shared _ _ _ _ Hinv s s' Hsl Hsl' Hne E Hnn) as (v & Hv & Hall). exists v. rewrite Ei. split; [done|]. intros j Hj. rewrite (same_val t t') by done. by apply Hall.
  - intros j Hj. rewrite Ed, Ei. by apply Hinv.
  - intros j Hj. rewrite Ed, Ee. by apply Hinv.
Qed.

Section Heap.
Context `{HP : Heap}.

Lemma allocIndex2Block_spec n held fl t i1 :
  inv n held fl t -> 32 <= i1 < 544 -> rd (index1 t) i1 = 2656 ->
  exists t1 x, allocIndex2Block t = Some (t1, index2Length t) /\ zset (index1 t1) i1 (index2Length t) = Some x /\
    inv n held fl (set_index1 t1 x) /\ same_blocks t (set_index1 t1 x) /\ rd x i1 = index2Length t.
Proof.
  intros Hinv Hi E. pose proof (len2_range Hinv) as HL. pose proof (i_top2 _ _ _ _ Hinv) as Htop. set (L := index2Length t) in *.
  assert (Hroom : L + 64 <= 35488).
  { pose proof (cnt_range nsupp (fun i => negb (rd (index1 t) (32 + i) =? 2656))) as Hc. rewrite nsupp_eq in Hc. destruct (Z.eq_dec (cnt nsupp (fun i => negb (rd (index1 t) (32 + i) =? 2656))) 512) as [Hall|]; [|lia].
    exfalso. rewrite <- nsupp_eq in Hall. pose proof (cnt_all nsupp _ Hall (i1 - 32)) as H. rewrite nsupp_eq in H. specialize (H ltac:(lia)). replace (32 + (i1 - 32)) with i1 in H by lia. by rewrite E in H. }
  destruct (cells_at_rd (index2 t) 2656 64) as (x & Ex & Hzx & Hx); [lia|lia|rewrite (i_len2 _ _ _ _ Hinv); lia|]. destruct (copy_to_rd (index2 t) L x) as (y & Ey & Hzy & Hy); [lia|rewrite Hzx, (i_len2 _ _ _ _ Hinv); lia|].
  destruct (zset_rd (index1 t) i1 L) as (z & Ez & Hzz & Hz); [rewrite (i_len1 _ _ _ _ Hinv); lia|]. exists (set_index2 (set_index2Length t (L + 64)) y), z. split.
  { unfold allocIndex2Block, UTRIE2_INDEX_2_BLOCK_LENGTH, UNEWTRIE2_MAX_INDEX_2_LENGTH. fold L. destruct (Z.ltb_spec 35488 (L + 64)); [lia|]. rewrite (i_null2 _ _ _ _ Hinv), Ex. cbn [mbind option_bind]. by rewrite Ey. }
  split; [exact Ez|]. set (t' := set_index1 _ z). rewrite Hzx in Hy. assert (Hcell : forall p, 0 <= p -> rd (index2 t') p = if (L <=? p) && (p <? L + 64) then 192 else rd (index2 t) p).
  { intros p Hp. cbn [t' set_index1 set_index2 index2]. rewrite Hy by done. destruct (Z.leb_spec L p), (Z.ltb_spec p (L + 64)); cbn [andb]; try done. rewrite Hx by lia. apply (i_null_cells _ _ _ _ Hinv). lia. }
  assert (Hsame : same_blocks t t').
  { constructor; try done. intros s Hs. pose proof (Z.mod_pos_bound s 64 ltac:(lia)). unfold blk. assert (Hp : pos t' s = pos t s \/ s / 64 = i1 /\ pos t s = 2656 + s mod 64 /\ pos t' s = L + s mod 64).
    { unfold pos. cbn [t' set_index1 index1]. rewrite Hz. destruct (s <? CP_SLOTS); [|by left]. destruct (Z.eqb_spec i1 (s / 64)) as [Ei|]; [right|by left]. rewrite <- Ei, E. done. }
    pose proof (pos_range Hinv s Hs). destruct Hp as [->|(_ & Ep & ->)].
    - rewrite Hcell by lia. fold L in H0. destruct (Z.leb_spec L (pos t s)); [lia|done].
    - rewrite Hcell by lia. destruct (Z.leb_spec L (L + s mod 64)), (Z.ltb_spec (L + s mod 64) (L + 64)); try lia. cbn [andb]. rewrite Ep. symmetry. apply (i_null_cells _ _ _ _ Hinv). lia. }
  split; [|split; [exact Hsame|by rewrite Hz, Z.eqb_refl]]. apply (inv_same n held fl t t' Hinv Hsame); try apply Hinv.
  - cbn [t' set_index1 index1]. by rewrite Hzz, (i_len1 _ _ _ _ Hinv).
  - cbn [t' set_index1 set_index2 index2]. by rewrite Hzy, (i_len2 _ _ _ _ Hinv).
  - intros i Hi'. cbn [t' set_index1 index1]. rewrite Hz. destruct (Z.eqb_spec i1 i); [lia|by apply Hinv].
  - intros i Hi'. cbn [t' set_index1 set_index2 set_index2Length index1 index2Length]. rewrite Hz. destruct (Z.eqb_spec i1 i); [right; dlia|]. destruct (i_supp1 _ _ _ _ Hinv i Hi') as [?|H]; [by left|right]. fold L in H. lia.
  - intros i j Hi' Hj'. cbn [t' set_index1 index1]. rewrite !Hz. destruct (Z.eqb_spec i1 i), (Z.eqb_spec i1 j); [intros; right; lia| | |by apply Hinv].
    + intros E'. destruct (i_supp1 _ _ _ _ Hinv j Hj') as [H|H]; fold L in H; lia.
    + intros E'. destruct (i_supp1 _ _ _ _ Hinv i Hi') as [H|H]; fold L in H; lia.
  - cbn [t' set_index1 set_index2 set_index2Length index1 index2Length]. rewrite Htop. rewrite (cnt_update nsupp (fun i => negb (rd (index1 t) (32 + i) =? 2656)) (fun i => negb (rd z (32 + i) =? 2656)) (i1 - 32)).
    + replace (32 + (i1 - 32)) with i1 by lia. rewrite Hz, Z.eqb_refl, E. destruct (Z.eqb_spec L 2656); [lia|]. rewrite (Z.eqb_refl 2656). cbn [negb Z.b2z]. lia.
    + rewrite nsupp_eq. lia.
    + intros i _ Hne. rewrite Hz. destruct (Z.eqb_spec i1 (32 + i)); [lia|done].
  - intros p Hp. rewrite Hcell by lia. destruct (Z.leb_spec L p); [lia|]. cbn [andb]. by apply (i_null_cells _ _ _ _ Hinv).
  - intros p Hp. rewrite Hcell by lia. destruct (Z.leb_spec L p); [lia|]. cbn [andb]. by apply (i_gap _ _ _ _ Hinv).
Qed.

Definition own_entry (t : UNewTrie2) (s : Z) : Prop := 0 <= pos t s < 2080 \/ 2720 <= pos t s < index2Length t.

Lemma getIndex2Block_spec n held fl t c lscp :
  inv n held fl t -> 0 <= c <= 0x10ffff ->
  exists t' i2, getIndex2Block t c lscp = Some (t', i2) /\ 0 <= i2 /\ i2 + (c / 32) mod 64 = pos t' (slot_of c lscp) /\ own_entry t' (slot_of c lscp) /\ inv n held fl t' /\ same_blocks t t'.
Proof.
  intros Hinv Hc. pose proof (slot_cp c lscp Hc) as Hs. set (s := slot_of c lscp) in *. unfold getIndex2Block, UTRIE2_LSCP_INDEX_2_OFFSET, UTRIE2_SHIFT_1. rewrite shift11.
  destruct (U16_IS_LEAD c && lscp) eqn:El.
  - exists t, 2048. split; [done|]. assert (s = CP_SLOTS + (c / 32 - 1728)) as Es by (unfold s, slot_of; by rewrite El). apply andb_true_iff in El as [El _]. apply lead_range in El; [|lia]. unfold CP_SLOTS in Es.
    assert (pos t s = 2048 + (s - 34816)) as Ep by (unfold pos, CP_SLOTS; destruct (Z.ltb_spec s 34816); [dlia|done]). split; [lia|]. split; [rewrite Ep; dlia|]. split; [left; rewrite Ep; dlia|]. split; [done|apply same_blocks_refl].
  - assert (s = c / 32) as Es by (unfold s, slot_of; by rewrite El). assert (Hp : forall u, pos u s = rd (index1 u) (c / 2048) + (c / 32) mod 64).
    { intros u. unfold pos, CP_SLOTS. destruct (Z.ltb_spec s 34816); [|dlia]. rewrite Es, Z.div_div by lia. done. }
    pose proof (Z.mod_pos_bound (c / 32) 64 ltac:(lia)) as Hm. assert (Hi : 0 <= c / 2048 < 544) by dlia. rewrite zget_rd by (rewrite (i_len1 _ _ _ _ Hinv); lia). cbn [mbind option_bind]. rewrite (i_null2 _ _ _ _ Hinv). destruct (Z.eqb_spec (rd (index1 t) (c / 2048)) 2656) as [E|E].
    + assert (H32 : 32 <= c / 2048). { destruct (Z.lt_ge_cases (c / 2048) 32) as [H|H]; [|done]. rewrite (i_bmp1 _ _ _ _ Hinv) in E by lia. lia. }
      destruct (allocIndex2Block_spec n held fl t (c / 2048) Hinv ltac:(lia) E) as (t1 & x & -> & Ex & Hinv' & Hsame & Hx). cbn [mbind option_bind]. pose proof (len2_range Hinv). destruct (Z.ltb_spec (index2Length t) 0); [lia|]. rewrite Ex. cbn [mbind option_bind].
      exists (set_index1 t1 x), (index2Length t). split; [done|]. split; [lia|]. assert (pos (set_index1 t1 x) s = index2Length t + (c / 32) mod 64) as Ep by (rewrite Hp; cbn [set_index1 index1]; by rewrite Hx). split; [done|]. split; [|done].
      right. destruct (pos_range Hinv' s Hs); lia.
    + exists t, (rd (index1 t) (c / 2048)). split; [done|]. split; [|split; [by rewrite Hp|split; [|split; [done|apply same_blocks_refl]]]].
      * destruct (Z.lt_ge_cases (c / 2048) 32) as [H|H]; [rewrite (i_bmp1 _ _ _ _ Hinv) by lia; lia|]. destruct (i_supp1 _ _ _ _ Hinv (c / 2048) ltac:(lia)); lia.
      * unfold own_entry. rewrite Hp. destruct (Z.lt_ge_cases (c / 2048) 32) as [H|H]; [rewrite (i_bmp1 _ _ _ _ Hinv) by lia; lia|]. destruct (i_supp1 _ _ _ _ Hinv (c / 2048) ltac:(lia)); lia.
Qed.
End Heap.
End UTrie2Facts.
