(* ===== verification/UTrie2Blocks.v ===== *)
(** * Data blocks: allocation, counting and release

    [allocDataBlock], [setIndex2Entry] and [getDataBlock] keep the invariant; a trie never needs
    more blocks than the array can have. *)

From S2P Require Import Prelude Utf16 UTrie2 UTrie2Facts.

Module UTrie2Blocks.
Import Utf16 UTrie2 UTrie2Facts.

(** ** The number of blocks *)

Lemma total_one n a : 0 <= a < Z.of_nat n -> total n (fun k => Z.b2z (k =? a)) = 1.
Proof.
  intros Ha. rewrite total_cnt. rewrite (cnt_update n (fun _ => false) (fun k => k =? a) a) by (done || (intros i _ Hi; symmetry; apply Z.eqb_neq; lia)). assert (cnt n (fun _ => false) = 0) as -> by (clear; induction n; cbn [cnt Z.b2z]; lia). by rewrite Z.eqb_refl.
Qed.

Lemma total_const n : total n (fun _ => 1) = Z.of_nat n.
Proof. induction n as [|n IH]; cbn [total]; lia. Qed.

Lemma total_opp n f : total n (fun i => - f i) = - total n f.
Proof. induction n as [|n IH]; cbn [total]; lia. Qed.

Lemma good_div t b k : good t b -> (b =? 32 * k) = (b / 32 =? k).
Proof. intros (_ & _ & Hm & _). apply eq_true_iff_eq. rewrite !Z.eqb_eq. dlia. Qed.

(** With no free block, there is room for one more as long as a slot has no block of its own. *)
Lemma blocks_bound n t s : inv n (-1) [] t -> slot s -> blk t s = 192 \/ 2 <= uses t (blk t s) -> dataLength t + 32 <= 1115264.
Proof.
  intros Hinv Hs Hshare. pose proof (i_top _ _ _ _ Hinv) as [Htop Hmod]. set (K := dataLength t / 32). assert (HK : dataLength t = 32 * K) by (unfold K; dlia). assert (8 <= K) by (unfold K; dlia).
  assert (Hsum : total (Z.to_nat K) (fun k => uses t (32 * k)) = 34848).
  { rewrite <- nslots_eq. rewrite <- (cnt_classes (Z.to_nat K) nslots (fun s => blk t s / 32)).
    - unfold uses. assert (Hext : forall m, total m (fun k => cnt nslots (fun s => blk t s =? 32 * k)) = total m (fun k => cnt nslots (fun i => blk t i / 32 =? k))); [|apply Hext].
      induction m as [|m IH]; cbn [total]; [done|]. rewrite IH. f_equal. apply cnt_ext. intros i Hi. rewrite nslots_eq in Hi. apply (good_div t). by apply (i_blk _ _ _ _ Hinv).
    - intros i Hi. rewrite nslots_eq in Hi. destruct (i_blk _ _ _ _ Hinv i Hi) as (H1 & H2 & H3 & _). split; dlia. }
  pose proof (i_blk _ _ _ _ Hinv s Hs) as Hg. pose proof Hg as (G1 & G2 & G3 & G4 & G5 & G6). set (k0 := blk t s / 32). assert (Hk0 : blk t s = 32 * k0) by (unfold k0; dlia).
  assert (Hle : total (Z.to_nat K) (fun k => (1 + Z.b2z (k =? k0)) + - (Z.b2z (k =? 4) + Z.b2z (k =? 5) + Z.b2z (k =? 6) + Z.b2z (k =? 7))) <= total (Z.to_nat K) (fun k => uses t (32 * k))).
  { apply total_le. intros k Hk. pose proof (uses_nonneg t (32 * k)). pose proof (uses_pos t s Hs).
    destruct (Z.eqb_spec k k0) as [->|Hne]; [rewrite <- Hk0|]; destruct (Z.eqb_spec k0 4), (Z.eqb_spec k0 5), (Z.eqb_spec k0 6), (Z.eqb_spec k0 7); cbn [Z.b2z]; try lia;
      (destruct (Z.eqb_spec k 4), (Z.eqb_spec k 5), (Z.eqb_spec k 6), (Z.eqb_spec k 7); cbn [Z.b2z]; try lia).
    all: assert (uses t (32 * k) <> 0); [|lia]; intros E0; assert (Hin : 32 * k ∈ @nil Z); [|by apply elem_of_nil in Hin]; apply (i_free _ _ _ _ Hinv); unfold good; split_and!; try lia; dlia. }
  rewrite Hsum, total_add, total_add, total_opp, !total_add, total_const, !total_one in Hle by (unfold k0; dlia). lia.
Qed.

(** ** Changing values *)

Lemma good_div_inj t b b' : good t b -> good t b' -> b / 32 = b' / 32 -> b = b'.
Proof. intros (_ & _ & H & _) (_ & _ & H' & _) E. dlia. Qed.

(** Writing in a block that at most one slot points to. *)
Lemma inv_write n held fl t d b :
  inv n held fl t -> good t b -> b <> 192 -> uses t b <= 1 -> zlen d = zlen (data t) -> (forall p, 0 <= p -> p < b \/ b + 32 <= p -> rd d p = rd (data t) p) ->
  inv n held fl (set_data t d).
Proof.
  intros Hinv Hg Hn Hu Hz Hd. pose proof Hg as (G1 & G2 & G3 & G4 & G5 & G6). destruct Hinv. constructor; try done.
  - cbn [set_data data dataCapacity]. by rewrite Hz.
  - intros s s' Hs Hs' Hne E Hnn. destruct (i_shared0 s s' Hs Hs' Hne E Hnn) as (v & Hv & Hall). exists v. split; [done|]. intros j Hj. specialize (Hall j Hj). unfold val in *. cbn [set_data data]. change (blk (set_data t d) s) with (blk t s).
    assert (blk t s <> b). { intros <-. pose proof (uses_two t s s' Hs Hs' Hne E). lia. } destruct (i_blk0 s Hs) as (B1 & B2 & B3 & _). rewrite Hd; [done|lia|]. dlia.
  - intros j Hj. cbn [set_data data]. rewrite Hd; [by apply i_null_data0|lia|]. dlia.
  - intros j Hj. cbn [set_data data]. rewrite Hd; [by apply i_bad0|lia|]. dlia.
Qed.

(** The values of a slot with another block stay. *)
Lemma val_write n held fl t d b s j :
  inv n held fl t -> slot s -> 0 <= j < 32 -> good t b -> blk t s <> b -> (forall p, 0 <= p -> p < b \/ b + 32 <= p -> rd d p = rd (data t) p) -> val (set_data t d) s j = val t s j.
Proof.
  intros Hinv Hs Hj (G1 & _ & G3 & _) Hne Hd. unfold val. change (blk (set_data t d) s) with (blk t s). cbn [set_data data]. destruct (i_blk _ _ _ _ Hinv s Hs) as (B1 & B2 & B3 & _). rewrite Hd; [done|lia|dlia].
Qed.

(** ** Allocation *)

Lemma inv_grow n held fl t d cap :
  inv n held fl t -> (cap = 131072 \/ cap = 1115264) -> dataCapacity t <= cap -> zlen d = cap -> (forall p, 0 <= p < dataLength t -> rd d p = rd (data t) p) -> inv n held fl (set_dataCapacity (set_data t d) cap).
Proof.
  intros Hinv Hcap Hle Hz Hd. destruct Hinv. constructor; try done.
  - cbn. by right.
  - cbn. lia.
  - intros s s' Hs Hs' Hne E Hnn. destruct (i_shared0 s s' Hs Hs' Hne E Hnn) as (v & Hv & Hall). exists v. split; [done|]. intros j Hj. specialize (Hall j Hj). unfold val in *. destruct (i_blk0 s Hs) as (B1 & B2 & B3 & _).
    change (rd d (blk t s + j) = v). rewrite Hd; [done|lia].
  - intros j Hj. change (rd d (192 + j) = initialValue t). rewrite Hd; [by apply i_null_data0|lia].
  - intros j Hj. change (rd d j = errorValue t). rewrite Hd; [by apply i_bad0|lia].
Qed.

Lemma chain_update m m' k x first fl : (forall j, rd m' j = if k =? j then x else rd m j) -> (forall b, b ∈ fl -> b / 32 <> k) -> chain m first fl -> chain m' first fl.
Proof.
  intros Hm. revert first. induction fl as [|b fl IH]; intros first Hne; [done|]. cbn [chain]. intros [-> Hc]. split; [done|]. rewrite Hm. destruct (Z.eqb_spec k (b / 32)) as [->|]; [by destruct (Hne b); [left|]|]. apply IH; [|done]. intros b' Hb'. apply Hne. by right.
Qed.

Lemma free_nonzero n held fl t b : inv n held fl t -> b ∈ fl -> b <> 0.
Proof.
  intros Hinv Hb ->. apply (i_free _ _ _ _ Hinv) in Hb as (_ & H0 & _). pose proof (i_n _ _ _ _ Hinv). destruct (i_lin _ _ _ _ Hinv 0 ltac:(lia)) as [_ H1]. change (lin 0) with 0 in H1. lia.
Qed.

(** What an allocated block is: a copy that no slot points to yet. *)
Record allocated (n : Z) (t t' : UNewTrie2) (old b : Z) (fl' : list Z) : Prop := {
  a_inv : inv n b fl' t';
  a_good : good t' b /\ b <> 192 /\ uses t' b = 0;
  a_copy : forall j, 0 <= j < 32 -> rd (data t') (b + j) = rd (data t) (old + j);
  a_rest : forall s j, slot s -> 0 <= j < 32 -> rd (data t') (blk t s + j) = rd (data t) (blk t s + j);
  a_len : dataLength t <= dataLength t' <= dataLength t + 32;
  a_index : index1 t' = index1 t /\ index2 t' = index2 t /\ index2Length t' = index2Length t;
  a_values : initialValue t' = initialValue t /\ errorValue t' = errorValue t /\ highStart t' = highStart t
}.

Section Heap.
Context `{HP : Heap}.

Lemma grow_data_spec n held fl t :
  inv n held fl t -> dataCapacity t < dataLength t + 32 <= 1115264 ->
  (refused /\ grow_data t = Some None) \/
  exists d cap, grow_data t = Some (Some (set_dataCapacity (set_data t d) cap)) /\ inv n held fl (set_dataCapacity (set_data t d) cap) /\ dataLength t + 32 <= cap /\ (forall p, 0 <= p < dataLength t -> rd d p = rd (data t) p).
Proof.
  intros Hinv Hfull. pose proof (i_top _ _ _ _ Hinv) as [Htop _]. set (cap := if dataCapacity t <? 131072 then 131072 else 1115264).
  assert (Hcap : dataCapacity t + 32 <= cap /\ (cap = 131072 \/ cap = 1115264)) by (unfold cap; destruct (i_cap _ _ _ _ Hinv) as [-> |[-> |E]]; cbn; [lia|lia|rewrite E in *; lia]).
  assert (E : grow_data t = match uprv_malloc junk 4 cap with None => Some None | Some fresh => x ← cells_at (data t) 0 (dataLength t); d ← copy_to fresh 0 x; Some (Some (set_dataCapacity (set_data t d) cap)) end).
  { unfold grow_data, UNEWTRIE2_MEDIUM_DATA_LENGTH, UNEWTRIE2_MAX_DATA_LENGTH, cap. destruct (Z.ltb_spec (dataCapacity t) 131072); [done|]. destruct (Z.ltb_spec (dataCapacity t) 1115264); [done|]. destruct (i_cap _ _ _ _ Hinv) as [?|[?|?]]; lia. }
  rewrite E. unfold uprv_malloc. destruct (Z.ltb_spec 0 (4 * cap)); [|lia]. destruct (alloc_ok (4 * cap)) eqn:Ea; [right|left; split; [exists (4 * cap); split; [unfold INT32_MAX; lia|done]|done]].
  destruct (cells_at_rd (data t) 0 (dataLength t)) as (x & -> & Hzx & Hx); [lia|lia|rewrite (i_lend _ _ _ _ Hinv); lia|]. cbn [mbind option_bind]. assert (Hzr : zlen (replicate (Z.to_nat cap) junk) = cap) by (unfold zlen; rewrite length_replicate; lia).
  destruct (copy_to_rd (replicate (Z.to_nat cap) junk) 0 x) as (d & -> & Hzd & Hd); [lia|lia|]. cbn [mbind option_bind]. exists d, cap. split; [done|]. assert (Hsame : forall p, 0 <= p < dataLength t -> rd d p = rd (data t) p).
  { intros p Hp. rewrite Hd by lia. destruct (Z.leb_spec 0 p), (Z.ltb_spec p (0 + zlen x)); try lia. cbn [andb]. rewrite Z.sub_0_r, Hx by lia. done. }
  split; [|split; [|done]]; [|lia]. apply inv_grow; [done|lia|lia|by rewrite Hzd, Hzr|done].
Qed.

(** A block from the free list. *)
Lemma take_free n t b fl m :
  inv n (-1) (b :: fl) t -> zset (map_ t) (b / 32) 0 = Some m -> zlen m = zlen (map_ t) -> (forall j, rd m j = if b / 32 =? j then 0 else rd (map_ t) j) ->
  inv n b fl (set_map (set_firstFreeBlock t (- rd (map_ t) (b / 32))) m).
Proof.
  intros Hinv _ Hz Hm. pose proof (proj1 (i_free _ _ _ _ Hinv b) ltac:(by left)) as (Hg & Hu & Hn & _). pose proof (i_nodup _ _ _ _ Hinv) as Hnd. apply NoDup_cons in Hnd as [Hni Hnd]. pose proof (i_chain _ _ _ _ Hinv) as [_ Hch].
  destruct Hinv. constructor; try done.
  - cbn. by rewrite Hz.
  - intros b' Hb' Hfl. cbn [set_map set_firstFreeBlock map_]. rewrite Hm. destruct (Z.eqb_spec (b / 32) (b' / 32)) as [E|E].
    + apply (good_div_inj t b b' Hg Hb') in E as <-. change (0 = uses t b + is_null b). rewrite Hu. unfold is_null. destruct (Z.eqb_spec b 192); done.
    + apply i_map0; [done|]. intros [->|Hin]%elem_of_cons; done.
  - intros b'. change (b' ∈ fl <-> good t b' /\ uses t b' = 0 /\ b' <> 192 /\ b' <> b). specialize (i_free0 b'). rewrite elem_of_cons in i_free0. split.
    + intros Hin. destruct i_free0 as [H _]. destruct H as (G & U & N & _); [by right|]. split_and!; auto. by intros ->.
    + intros (G & U & N & Ne). destruct i_free0 as [_ H]. destruct H as [-> | ?]; try done. split_and!; auto. destruct G. lia.
  - cbn [set_map set_firstFreeBlock map_ firstFreeBlock]. apply (chain_update (map_ t) m (b / 32) 0); [done| |done]. intros b' Hin E. destruct (i_free0 b') as [H _]. destruct H as (G & _); [by right|]. apply (good_div_inj t b' b G Hg) in E. by subst b'.
  - right. split; [done|]. split; [done|exact Hu].
Qed.

(** A block at the end of the data. *)
Lemma take_new n t m :
  inv n (-1) [] t -> dataLength t + 32 <= dataCapacity t -> zlen m = zlen (map_ t) -> (forall j, rd m j = if dataLength t / 32 =? j then 0 else rd (map_ t) j) ->
  inv n (dataLength t) [] (set_map (set_dataLength t (dataLength t + 32)) m).
Proof.
  intros Hinv Hroom Hz Hm. set (b := dataLength t) in *. pose proof (i_top _ _ _ _ Hinv) as [Htop Hmod]. fold b in Htop, Hmod. set (t' := set_map _ m). assert (Hg : forall x, good t' x <-> good t x \/ x = b) by (intros x; unfold good; cbn; fold b; dlia).
  assert (Hu : uses t b = 0).
  { destruct (Z.eq_dec (uses t b) 0) as [|Hne]; [done|]. pose proof (uses_nonneg t b). destruct (uses_slot t b ltac:(lia)) as (s & Hs & E). destruct (i_blk _ _ _ _ Hinv s Hs) as (_ & H1 & _). unfold b in E. lia. }
  destruct Hinv. constructor; try done.
  - cbn. by rewrite Hz.
  - cbn. fold b. split; [lia|dlia].
  - intros s Hs. apply Hg. left. by apply i_blk0.
  - intros b' Hb' _. cbn [t' set_map map_]. rewrite Hm. change (uses t' b') with (uses t b'). apply Hg in Hb' as [Hb'| ->].
    + destruct (Z.eqb_spec (b / 32) (b' / 32)) as [E|E]; [destruct Hb' as (B1 & B2 & B3 & _); fold b in B2; dlia|]. apply i_map0; [done|by apply not_elem_of_nil].
    + rewrite Z.eqb_refl, Hu. unfold is_null. destruct (Z.eqb_spec b 192); [lia|done].
  - intros b'. split; [by intros ?%elem_of_nil|]. intros (G & U & N & Ne). apply Hg in G as [G|G]; [|done]. apply i_free0. split_and!; auto. destruct G. lia.
  - right. split; [apply Hg; by right|]. split; [lia|exact Hu].
Qed.

(** There is no room, and memory is refused. *)
Definition exhausted (t : UNewTrie2) : Prop := refused /\ dataCapacity t < dataLength t + 32.

Lemma allocDataBlock_spec n fl t s :
  inv n (-1) fl t -> slot s -> blk t s = 192 \/ 2 <= uses t (blk t s) ->
  (exhausted t /\ allocDataBlock t (blk t s) = Some (t, -1)) \/ exists t' b fl', allocDataBlock t (blk t s) = Some (t', b) /\ allocated n t t' (blk t s) b fl'.
Proof.
  intros Hinv Hs Hshare. pose proof (i_blk _ _ _ _ Hinv s Hs) as Hgs. pose proof (i_top _ _ _ _ Hinv) as [Htop Hmod].
  (* the copy *)
  assert (Hcopy : forall t1 b fl' m, inv n b fl' (set_map t1 m) -> good (set_map t1 m) b -> b <> 192 -> uses (set_map t1 m) b = 0 -> zset (map_ t1) (b / 32) 0 = Some m ->
      dataLength t <= dataLength t1 <= dataLength t + 32 -> index1 t1 = index1 t /\ index2 t1 = index2 t /\ index2Length t1 = index2Length t -> initialValue t1 = initialValue t /\ errorValue t1 = errorValue t /\ highStart t1 = highStart t -> (forall p, 0 <= p < dataLength t -> rd (data t1) p = rd (data t) p) ->
      exists t', (x ← cells_at (data t1) (blk t s) UTRIE2_DATA_BLOCK_LENGTH; d ← copy_to (data t1) b x; m ← zset (map_ t1) (Z.shiftr b UTRIE2_SHIFT_2) 0; Some (set_map (set_data t1 d) m, b)) = Some (t', b) /\ allocated n t t' (blk t s) b fl').
  { intros t1 b fl' m Hi Hg Hn Hu Em Hlen Hidx Hval Hd. unfold UTRIE2_DATA_BLOCK_LENGTH, UTRIE2_SHIFT_2. rewrite shift5, Em. destruct Hgs as (S1 & S2 & S3 & _). pose proof (i_lend _ _ _ _ Hi) as Hz. pose proof (i_top _ _ _ _ Hi) as [Ht _]. cbn [set_map data dataCapacity dataLength] in Hz, Ht.
    destruct (cells_at_rd (data t1) (blk t s) 32) as (x & -> & Hzx & Hx); [lia|lia|lia|]. cbn [mbind option_bind]. pose proof Hg as (B1 & B2 & B3 & _). cbn [set_map dataLength] in B2. destruct (copy_to_rd (data t1) b x) as (d & -> & Hzd & Hdd); [lia|lia|]. cbn [mbind option_bind]. eexists. split; [done|].
    assert (Hout : forall p, 0 <= p -> p < b \/ b + 32 <= p -> rd d p = rd (data t1) p) by (intros p H0 Hp; rewrite Hdd, Hzx by done; destruct (Z.leb_spec b p), (Z.ltb_spec p (b + 32)); try lia; done).
    constructor; try done.
    - apply (inv_write n b fl' (set_map t1 m) d b Hi Hg Hn); [lia|exact Hzd|exact Hout].
    - intros j Hj. cbn [set_map set_data data]. rewrite Hdd by lia. destruct (Z.leb_spec b (b + j)), (Z.ltb_spec (b + j) (b + zlen x)); try lia. cbn [andb]. replace (b + j - b) with j by lia. rewrite Hx by done. apply Hd. lia.
    - intros s' j Hs' Hj. cbn [set_map set_data data]. destruct (i_blk _ _ _ _ Hinv s' Hs') as (S1' & S2' & S3' & _). assert (blk t s' <> b).
      { intros <-. assert (uses (set_map t1 m) (blk t s') = uses t (blk t s')) as E. { apply cnt_ext. intros i _. unfold blk, pos. cbn [set_map index1 index2]. by destruct Hidx as (-> & -> & _). } pose proof (uses_pos t s' Hs'). lia. }
      rewrite Hout; [apply Hd; lia|lia|dlia]. }
  unfold allocDataBlock. destruct fl as [|b fl].
  - pose proof (i_chain _ _ _ _ Hinv) as Hf. cbn [chain] in Hf. rewrite Hf. cbn [Z.eqb negb]. pose proof (blocks_bound n t s Hinv Hs Hshare) as Hbound. unfold UTRIE2_DATA_BLOCK_LENGTH.
    assert (Hlast : forall d cap, inv n (-1) [] (set_dataCapacity (set_data t d) cap) -> dataLength t + 32 <= cap -> (forall p, 0 <= p < dataLength t -> rd d p = rd (data t) p) ->
      exists t', (x ← cells_at d (blk t s) UTRIE2_DATA_BLOCK_LENGTH; d' ← copy_to d (dataLength t) x; m ← zset (map_ t) (Z.shiftr (dataLength t) UTRIE2_SHIFT_2) 0; Some (set_map (set_data (set_dataLength (set_dataCapacity (set_data t d) cap) (dataLength t + 32)) d') m, dataLength t)) = Some (t', dataLength t) /\ allocated n t t' (blk t s) (dataLength t) []).
    { intros d cap Hi Hroom Hd. destruct (zset_rd (map_ t) (dataLength t / 32) 0) as (m & Em & Hzm & Hm); [rewrite (i_lenm _ _ _ _ Hinv); dlia|].
      pose proof (take_new n (set_dataCapacity (set_data t d) cap) m Hi Hroom Hzm Hm) as Hi'. cbn [set_dataCapacity set_data dataLength] in Hi'. destruct (i_held _ _ _ _ Hi') as [?|(G & N & U)]; [lia|].
      apply (Hcopy (set_dataLength (set_dataCapacity (set_data t d) cap) (dataLength t + 32)) (dataLength t) [] m Hi' G N U Em); [cbn; lia|done|done|exact Hd]. }
    destruct (Z.ltb_spec (dataCapacity t) (dataLength t + 32)) as [Hfull|Hroom].
    + destruct (grow_data_spec n (-1) [] t Hinv ltac:(lia)) as [[Href ->]|(d & cap & -> & Hi & Hc & Hd)]; cbn [mbind option_bind option_map]; [by left; split|]. right. destruct (Hlast d cap Hi Hc Hd) as (t' & E & Ha). exists t', (dataLength t), []. split; [exact E|exact Ha].
    + cbn [mbind option_bind option_map]. right. assert (Ht : set_dataCapacity (set_data t (data t)) (dataCapacity t) = t) by (by destruct t). destruct (Hlast (data t) (dataCapacity t)) as (t' & E & Ha); [by rewrite Ht|done|done|]. rewrite Ht in E. exists t', (dataLength t), []. split; [exact E|exact Ha].
  - right. pose proof (i_chain _ _ _ _ Hinv) as [Hf _]. rewrite Hf. pose proof (free_nonzero n (-1) (b :: fl) t b Hinv ltac:(by left)) as Hb0. destruct (Z.eqb_spec b 0); [done|]. cbn [negb]. pose proof (proj1 (i_free _ _ _ _ Hinv b) ltac:(by left)) as (Hg & Hu & Hn & _).
    unfold UTRIE2_SHIFT_2. rewrite !shift5, (map_get Hinv b Hg). cbn [mbind option_bind]. destruct (zset_rd (map_ t) (b / 32) 0) as (m & Em & Hzm & Hm). { rewrite (i_lenm _ _ _ _ Hinv). destruct Hg as (B1 & B2 & B3 & _). destruct (i_cap _ _ _ _ Hinv) as [?|[?|?]]; dlia. }
    destruct (Hcopy (set_firstFreeBlock t (- rd (map_ t) (b / 32))) b fl m (take_free n t b fl m Hinv Em Hzm Hm) Hg Hn Hu Em) as (t' & E & Ha); [cbn; lia|done|done|done|]. exists t', b, fl. split; [exact E|exact Ha].
Qed.
End Heap.

(** ** Counting *)

(** The entry of slot [s] now points to the block [b]. *)
Record entry_set (t t' : UNewTrie2) (s b : Z) : Prop := {
  e_blk : forall s', slot s' -> blk t' s' = if s' =? s then b else blk t s';
  e_data : data t' = data t;
  e_index1 : index1 t' = index1 t;
  e_len2 : index2Length t' = index2Length t;
  e_len : dataLength t' = dataLength t;
  e_cap : dataCapacity t' = dataCapacity t;
  e_values : initialValue t' = initialValue t /\ errorValue t' = errorValue t /\ highStart t' = highStart t
}.

Lemma entry_uses t t' s b x : slot s -> entry_set t t' s b -> uses t' x = uses t x - Z.b2z (blk t s =? x) + Z.b2z (b =? x).
Proof.
  intros Hs He. unfold uses. rewrite (cnt_update nslots (fun s => blk t s =? x) (fun s => blk t' s =? x) s).
  - rewrite (e_blk _ _ _ _ He) by done. by rewrite Z.eqb_refl.
  - rewrite nslots_eq. exact Hs.
  - intros i Hi Hne. rewrite nslots_eq in Hi. rewrite (e_blk _ _ _ _ He) by done. by destruct (Z.eqb_spec i s).
Qed.

(** What it does to the counters and the free list. *)
Lemma inv_entry n held fl t t' s b m' :
  inv n held fl t -> slot s -> n <= s -> good t b -> b ∉ fl -> blk t s <> b -> (held = b \/ held = -1) ->
  (b = 192 \/ uses t b = 0 \/ exists v, v <> initialValue t /\ forall j, 0 <= j < 32 -> rd (data t) (b + j) = v) -> (forall i, 0 <= i < n -> b <> lin i) ->
  entry_set t t' s b -> zlen (index2 t') = 35488 -> index2NullOffset t' = 2656 -> dataNullOffset t' = 192 -> isCompacted t' = false ->
  (forall p, 2656 <= p < 2720 -> rd (index2 t') p = 192) -> (forall p, 2080 <= p < 2656 -> rd (index2 t') p = -1) ->
  let old := blk t s in
  let last := uses t old + is_null old =? 1 in
  zlen (map_ t') = 34852 -> map_ t' = m' -> (forall k, rd m' k = if k =? old / 32 then (if last then - firstFreeBlock t else uses t old + is_null old - 1) else if k =? b / 32 then uses t b + is_null b + 1 else rd (map_ t) k) ->
  firstFreeBlock t' = (if last then old else firstFreeBlock t) -> inv n (-1) (if last then old :: fl else fl) t'.
Proof.
  intros Hinv Hs Hns Hb Hbf Hne Hheld Hshare Hlin He Z2 N2 N1 Ho Hnc Hgap old last Zm Em Hm Hff. pose proof (i_blk _ _ _ _ Hinv s Hs) as Hold. fold old in Hold, Hne. pose proof (uses_pos t s Hs) as Hup. fold old in Hup. pose proof (used_not_free Hinv s Hs) as Hof. fold old in Hof.
  assert (Hu : forall x, uses t' x = uses t x - Z.b2z (old =? x) + Z.b2z (b =? x)) by (intros x; by apply entry_uses). assert (Hg : forall x, good t' x <-> good t x) by (intros x; unfold good; by rewrite (e_len _ _ _ _ He)).
  assert (Hlast : last = true <-> uses t old = 1 /\ old <> 192) by (unfold last, is_null; rewrite Z.eqb_eq; destruct (Z.eqb_spec old 192); cbn [Z.b2z]; lia).
  assert (Hdiv : forall x, good t x -> x / 32 = old / 32 -> x = old) by (intros x Hx Ex; by apply (good_div_inj t)). assert (Hdivb : forall x, good t x -> x / 32 = b / 32 -> x = b) by (intros x Hx Ex; by apply (good_div_inj t)).
  assert (Hgood : forall x, x ∈ fl -> good t x) by (intros x Hx; by apply (i_free _ _ _ _ Hinv) in Hx as [? _]). pose proof He as [Eb Ed E1 El2 El Ec (Ei & Ee & _)].
  assert (Hch : chain m' (firstFreeBlock t) fl).
  { pose proof (i_chain _ _ _ _ Hinv) as Hc. revert Hc Hbf Hof Hgood. generalize (firstFreeBlock t). clear - Hm Hdiv Hdivb. induction fl as [|x l IH]; intros f Hc Hbf Hof Hgood; [done|]. cbn [chain] in *. destruct Hc as [-> Hc]. split; [done|]. rewrite Hm.
    destruct (Z.eqb_spec (x / 32) (old / 32)) as [Ex|]; [apply Hdiv in Ex; [set_solver|apply Hgood; by left]|]. destruct (Z.eqb_spec (x / 32) (b / 32)) as [Ex|]; [apply Hdivb in Ex; [set_solver|apply Hgood; by left]|]. apply IH; [done|set_solver|set_solver|]. intros y Hy. apply Hgood. by right. }
  constructor; try done; try (rewrite ?E1, ?El2; by apply Hinv).
  - rewrite Ed, Ec. apply Hinv.
  - rewrite Ec. apply Hinv.
  - rewrite El, Ec. apply Hinv.
  - intros s' Hs'. rewrite Hg, Eb by done. destruct (Z.eqb_spec s' s); [done|by apply Hinv].
  - intros x Hx Hxf. apply Hg in Hx. rewrite Em, Hm, Hu. destruct (Z.eqb_spec (x / 32) (old / 32)) as [Ex|Ex].
    + apply Hdiv in Ex as ->; [|done]. destruct last eqn:El'; [set_solver|]. rewrite Z.eqb_refl. destruct (Z.eqb_spec b old); [congruence|]. cbn [Z.b2z]. lia.
    + destruct (Z.eqb_spec (x / 32) (b / 32)) as [Ex'|Ex'].
      * apply Hdivb in Ex' as ->; [|done]. rewrite Z.eqb_refl. destruct (Z.eqb_spec old b); [congruence|]. cbn [Z.b2z]. lia.
      * destruct (Z.eqb_spec old x) as [<-|]; [done|]. destruct (Z.eqb_spec b x) as [<-|]; [done|]. cbn [Z.b2z]. rewrite (i_map _ _ _ _ Hinv); [lia|done|]. destruct last; set_solver.
  - destruct last; [apply NoDup_cons; split; [done|]|]; apply Hinv.
  - intros x. rewrite Hg, Hu. pose proof (uses_nonneg t b) as Hub. assert (Hx : x ∈ (if last then old :: fl else fl) <-> (last = true /\ x = old) \/ x ∈ fl) by (destruct last; [rewrite elem_of_cons; tauto|by intuition]). rewrite Hx, Hlast. clear Hx. split.
    + intros [[[U N] ->]|Hxf].
      * rewrite Z.eqb_refl. destruct (Z.eqb_spec b old); [congruence|]. cbn [Z.b2z]. split_and!; [done|lia|done|destruct Hold; lia].
      * pose proof (proj1 (i_free _ _ _ _ Hinv x) Hxf) as (G & U & N & _). destruct (Z.eqb_spec old x) as [E|]; [by subst x|]. destruct (Z.eqb_spec b x) as [E|]; [by subst x|]. cbn [Z.b2z]. split_and!; auto; [lia|destruct G; lia].
    + intros (G & U & N & _). destruct (Z.eqb_spec old x) as [E|]; [left|right].
      * subst x. destruct (Z.eqb_spec b old); [congruence|]. cbn [Z.b2z] in U. split; [split; [lia|done]|done].
      * destruct (Z.eqb_spec b x) as [E|]; cbn [Z.b2z] in U; [subst x; lia|]. apply (i_free _ _ _ _ Hinv). split_and!; auto; [lia|]. destruct Hheld as [Eh|Eh]; rewrite Eh; [done|destruct G; lia].
  - rewrite Em, Hff. destruct last; [|exact Hch]. cbn [chain]. split; [done|]. rewrite Hm, Z.eqb_refl. by rewrite Z.opp_involutive.
  - by left.
  - intros i Hi. pose proof (i_n _ _ _ _ Hinv). destruct (i_lin _ _ _ _ Hinv i Hi) as [L1 L2]. assert (Hsi : slot i) by (unfold slot; lia). rewrite Eb by done. destruct (Z.eqb_spec i s); [lia|]. split; [done|]. rewrite Hu. specialize (Hlin i Hi). destruct (Z.eqb_spec b (lin i)); [done|].
    destruct (Z.eqb_spec old (lin i)) as [E|]; [|cbn [Z.b2z]; lia]. pose proof (uses_two t i s Hsi Hs ltac:(lia) (eq_trans L1 (eq_sym E))) as H2. rewrite L1 in H2. lia.
  - intros s1 s2 Hs1 Hs2 Hne12 E Hnn. rewrite !Eb in * by done. unfold val. rewrite Ed, Ei, Eb by done.
    assert (Hb2 : forall s', slot s' -> s' <> s -> blk t s' = b -> b <> 192 -> exists v, v <> initialValue t /\ forall j, 0 <= j < 32 -> rd (data t) (b + j) = v).
    { intros s' Hs' _ Eb' Hb192. destruct Hshare as [?|[H0|Hc]]; [done| |exact Hc]. pose proof (uses_pos t s' Hs'). rewrite Eb' in *. lia. }
    destruct (Z.eqb_spec s1 s) as [->|Hn1].
    + destruct (Z.eqb_spec s2 s); [congruence|]. by apply (Hb2 s2).
    + destruct (Z.eqb_spec s2 s) as [->|Hn2]; [rewrite E in *; by apply (Hb2 s1)|]. by apply (i_shared _ _ _ _ Hinv s1 s2).
  - intros j Hj. rewrite Ed, Ei. by apply Hinv.
  - intros j Hj. rewrite Ed, Ee. by apply Hinv.
Qed.

Lemma entry_set_pos n held fl t t' s b x :
  inv n held fl t -> slot s -> own_entry t s -> zlen x = zlen (index2 t) -> (forall p, rd x p = if pos t s =? p then b else rd (index2 t) p) -> index2 t' = x -> index1 t' = index1 t ->
  data t' = data t -> index2Length t' = index2Length t -> dataLength t' = dataLength t -> dataCapacity t' = dataCapacity t -> initialValue t' = initialValue t -> errorValue t' = errorValue t -> highStart t' = highStart t -> entry_set t t' s b.
Proof.
  intros Hinv Hs Hown Hz Hx E2 E1 Ed El2 El Ec Ei Ee Eh. constructor; try done. intros s' Hs'. unfold blk. assert (forall u, pos t' u = pos t u) as Hp by (intros u; unfold pos; by rewrite E1). rewrite Hp, E2, Hx. destruct (Z.eqb_spec (pos t s) (pos t s')) as [E|Hne].
  - destruct (pos_inj Hinv s s' Hs Hs' E) as [->|Hnull]; [by rewrite Z.eqb_refl|]. pose proof (len2_range Hinv). destruct Hown; lia.
  - destruct (Z.eqb_spec s' s) as [->|]; [lia|done].
Qed.

(** A block may be entered when it is the null block, or has no slot yet, or has one value all over. *)
Definition shareable (t : UNewTrie2) (b : Z) : Prop :=
  b = 192 \/ uses t b = 0 \/ exists v, v <> initialValue t /\ forall j, 0 <= j < 32 -> rd (data t) (b + j) = v.

Lemma setIndex2Entry_spec n held fl t s b :
  inv n held fl t -> slot s -> n <= s -> own_entry t s -> good t b -> b ∉ fl -> blk t s <> b -> held = b \/ held = -1 -> shareable t b -> (forall i, 0 <= i < n -> b <> lin i) ->
  exists t' fl', setIndex2Entry t (pos t s) b = Some t' /\ entry_set t t' s b /\ inv n (-1) fl' t'.
Proof.
  intros Hinv Hs Hns Hown Hb Hbf Hne Hheld Hshare Hlin. set (old := blk t s) in *. pose proof (i_blk _ _ _ _ Hinv s Hs) as Hold. fold old in Hold. unfold setIndex2Entry, UTRIE2_SHIFT_2. rewrite !shift5, (map_get Hinv b Hb), (i_map _ _ _ _ Hinv b Hb Hbf). cbn [mbind option_bind].
  assert (Hin : forall x, good t x -> 0 <= x / 32 < 34852). { intros x (X1 & X2 & X3 & _). pose proof (i_top _ _ _ _ Hinv). destruct (i_cap _ _ _ _ Hinv) as [?|[?|?]]; dlia. }
  destruct (zset_rd (map_ t) (b / 32) (uses t b + is_null b + 1)) as (m1 & -> & Z1 & M1); [rewrite (i_lenm _ _ _ _ Hinv); by apply Hin|]. cbn [mbind option_bind set_map index2 map_]. rewrite (index2_get Hinv s Hs). fold old. cbn [mbind option_bind]. rewrite shift5.
  assert (Hob : b / 32 <> old / 32) by (intros E; by destruct Hne; apply (good_div_inj t)). rewrite (zget_rd m1) by (rewrite Z1, (i_lenm _ _ _ _ Hinv); by apply Hin). rewrite M1. destruct (Z.eqb_spec (b / 32) (old / 32)); [done|]. cbn [mbind option_bind].
  rewrite (i_map _ _ _ _ Hinv old Hold (used_not_free Hinv s Hs)). destruct (zset_rd m1 (old / 32) (uses t old + is_null old - 1)) as (m2 & -> & Z2 & M2); [rewrite Z1, (i_lenm _ _ _ _ Hinv); by apply Hin|]. cbn [mbind option_bind].
  destruct (zset_rd (index2 t) (pos t s) b) as (x & Ex & Zx & Mx); [rewrite (i_len2 _ _ _ _ Hinv); pose proof (len2_range Hinv); destruct (pos_range Hinv s Hs); lia|].
  assert (Hnull : forall p, 2080 <= p < 2720 -> rd x p = rd (index2 t) p) by (intros p Hp; rewrite Mx; destruct (Z.eqb_spec (pos t s) p); [destruct Hown; lia|done]).
  assert (Hfin : forall m ff, zlen m = 34852 -> (forall k, rd m k = if k =? old / 32 then (if uses t old + is_null old =? 1 then - firstFreeBlock t else uses t old + is_null old - 1) else if k =? b / 32 then uses t b + is_null b + 1 else rd (map_ t) k) -> ff = (if uses t old + is_null old =? 1 then old else firstFreeBlock t) ->
    let t' := set_index2 (set_firstFreeBlock (set_map t m) ff) x in entry_set t t' s b /\ inv n (-1) (if uses t old + is_null old =? 1 then old :: fl else fl) t').
  { intros m ff Zm Mm Eff t'. assert (He : entry_set t t' s b) by (by apply (entry_set_pos n held fl t t' s b x Hinv Hs Hown Zx Mx)). split; [exact He|].
    apply (inv_entry n held fl t t' s b m Hinv Hs Hns Hb Hbf Hne Hheld Hshare Hlin He); try done; try apply Hinv; [cbn; by rewrite Zx, (i_len2 _ _ _ _ Hinv)| |]; intros p Hp; cbn [t' set_index2 index2]; rewrite Hnull by lia; by apply Hinv. }
  assert (Zm2 : zlen m2 = 34852) by (by rewrite Z2, Z1, (i_lenm _ _ _ _ Hinv)).
  destruct (Z.eqb_spec 0 (uses t old + is_null old - 1)) as [E0|E0].
  - assert (El : (uses t old + is_null old =? 1) = true) by (apply Z.eqb_eq; lia). rewrite El in Hfin. unfold releaseDataBlock, UTRIE2_SHIFT_2. rewrite shift5. cbn [set_map map_ firstFreeBlock]. destruct (zset_rd m2 (old / 32) (- firstFreeBlock t)) as (m3 & -> & Z3 & M3); [rewrite Zm2; by apply Hin|]. cbn [mbind option_bind set_firstFreeBlock set_map index2]. rewrite Ex. cbn [mbind option_bind].
    destruct (Hfin m3 old) as [He Hi]; [by rewrite Z3| |done|]; [|eexists _, _; split; [done|split; [exact He|exact Hi]]].
    intros k. rewrite M3, M2, M1, !(Z.eqb_sym k). destruct (Z.eqb_spec (old / 32) k), (Z.eqb_spec (b / 32) k); done.
  - assert (El : (uses t old + is_null old =? 1) = false) by (apply Z.eqb_neq; lia). rewrite El in Hfin. cbn [mbind option_bind set_map index2]. rewrite Ex. cbn [mbind option_bind].
    destruct (Hfin m2 (firstFreeBlock t)) as [He Hi]; [done| |done|]; [|eexists _, _; split; [done|split; [exact He|exact Hi]]].
    intros k. rewrite M2, M1, !(Z.eqb_sym k). destruct (Z.eqb_spec (old / 32) k), (Z.eqb_spec (b / 32) k); done.
Qed.

End UTrie2Blocks.
