(* ===== verification/UTrie2Update.v ===== *)
(** * Setting values

    [set32] and [setRange32] change what [get32] reads, and nothing else; they fail only when
    memory is refused. *)

From S2P Require Import Prelude Utf16 UTrie2 UTrie2Facts UTrie2Blocks.

Module UTrie2Update.
Import Utf16 UTrie2 UTrie2Facts UTrie2Blocks.

(** The trie has the values [f], with the same initial and error values as [t]. *)
Record holds (n : Z) (t t' : UNewTrie2) (f : Z -> Z -> Z) : Prop := {
  h_inv : exists fl, inv n (-1) fl t';
  h_val : forall s j, slot s -> 0 <= j < 32 -> val t' s j = f s j;
  h_init : initialValue t' = initialValue t;
  h_error : errorValue t' = errorValue t;
  h_high : highStart t' = highStart t
}.

Lemma holds_refl n fl t : inv n (-1) fl t -> holds n t t (val t).
Proof. intros H. constructor; try done. by exists fl. Qed.

Lemma holds_same n fl t t' : inv n (-1) fl t' -> same_blocks t t' -> holds n t t' (val t).
Proof. intros Hinv Hs. constructor; [by exists fl| |apply Hs|apply Hs|apply Hs]. intros s j Hsl _. by apply same_val. Qed.

(** ** The length and the capacity of the value array *)

(** Follows a computation that has given a result. *)
Ltac step_option := repeat match goal with
  | H : mbind _ ?x = Some _ |- _ => destruct x eqn:?; cbn [mbind option_bind] in H; [|discriminate H]
  | H : match ?x with (_, _) => _ end = Some _ |- _ => destruct x
  | H : (if ?b then _ else _) = Some _ |- _ => destruct b eqn:?
  | H : Some _ = Some _ |- _ => injection H as; subst
  end.

Section Heap.
Context `{HP : Heap}.

Definition same_size (t t' : UNewTrie2) : Prop := dataLength t' = dataLength t /\ dataCapacity t' = dataCapacity t.

Lemma getIndex2Block_size t c lscp t' i2 : getIndex2Block t c lscp = Some (t', i2) -> same_size t t'.
Proof. unfold getIndex2Block, allocIndex2Block. intros H. step_option; done. Qed.

Lemma fillBlock_size t b start limit v ov t' : fillBlock t b start limit v ov = Some t' -> same_size t t'.
Proof. unfold fillBlock. intros H. step_option; done. Qed.

Lemma setIndex2Entry_size t i2 b t' : setIndex2Entry t i2 b = Some t' -> same_size t t'.
Proof. unfold setIndex2Entry, releaseDataBlock. intros H. step_option; done. Qed.

Lemma allocDataBlock_size t cb t' b : allocDataBlock t cb = Some (t', b) -> dataLength t + 32 <= dataCapacity t -> dataCapacity t' = dataCapacity t /\ dataLength t' <= dataLength t + 32.
Proof.
  unfold allocDataBlock, UTRIE2_DATA_BLOCK_LENGTH. intros H Hroom. destruct (Z.ltb_spec (dataCapacity t) (dataLength t + 32)); [lia|]. destruct (negb (firstFreeBlock t =? 0)).
  - step_option; cbn in *; lia.
  - cbn [mbind option_bind option_map] in H. step_option; cbn in *; lia.
Qed.

Lemma set32_size t c lscp v t' e : set32 t c lscp v = Some (t', e) -> dataLength t + 32 <= dataCapacity t -> dataCapacity t' = dataCapacity t /\ dataLength t' <= dataLength t + 32.
Proof.
  unfold set32, getDataBlock. intros H Hroom. step_option; repeat match goal with
    | H : getIndex2Block _ _ _ = Some _ |- _ => apply getIndex2Block_size in H as [? ?]
    | H : setIndex2Entry _ _ _ = Some _ |- _ => apply setIndex2Entry_size in H as [? ?]
    | H : allocDataBlock _ _ = Some _ |- _ => apply allocDataBlock_size in H as [? ?]; [|lia]
    end; cbn [set_data dataCapacity dataLength] in *; lia.
Qed.

(** ** One value *)

(** What [getDataBlock] gives: the slot's own block, with the old values. *)
Record own_block (n : Z) (t t' : UNewTrie2) (s b : Z) : Prop := {
  o_holds : holds n t t' (val t);
  o_blk : blk t' s = b /\ b <> 192 /\ uses t' b = 1;
  o_rest : forall s', slot s' -> s' <> s -> blk t' s' = blk t s';
  o_len : dataLength t' <= dataLength t + 32;
  o_old : b = blk t s \/ uses t b = 0
}.

Lemma lin_not_null i : 0 <= i <= 64 -> lin i <> 192.
Proof. unfold lin. destruct (Z.ltb_spec i 4); lia. Qed.

(** A slot without a block of its own is not one of the first. *)
Lemma shared_late n held fl t s : inv n held fl t -> slot s -> blk t s = 192 \/ 2 <= uses t (blk t s) -> n <= s.
Proof.
  intros Hinv Hs Hsh. destruct (Z.lt_ge_cases s n) as [Hlt|]; [|done]. unfold slot in Hs. destruct (i_lin _ _ _ _ Hinv s ltac:(lia)) as [E U]. pose proof (i_n _ _ _ _ Hinv). pose proof (lin_not_null s ltac:(lia)). rewrite E, U in Hsh. lia.
Qed.

Lemma writable_or_shared n held fl t s :
  inv n held fl t -> slot s -> (isWritableBlock t (blk t s) = Some true /\ blk t s <> 192 /\ uses t (blk t s) = 1) \/ (isWritableBlock t (blk t s) = Some false /\ (blk t s = 192 \/ 2 <= uses t (blk t s))).
Proof.
  intros Hinv Hs. rewrite (isWritableBlock_blk Hinv s Hs). pose proof (uses_pos t s Hs). destruct (Z.eqb_spec (blk t s) 192), (Z.eqb_spec (uses t (blk t s)) 1); cbn [negb andb]; [right; auto|right; auto|left; auto|right; split; [done|right; lia]].
Qed.

Lemma getDataBlock_spec n fl t c lscp :
  inv n (-1) fl t -> 0 <= c <= 0x10ffff -> exists t' b, getDataBlock t c lscp = Some (t', b) /\
  ((b = -1 /\ exhausted t /\ holds n t t' (val t)) \/ (0 <= b /\ own_block n t t' (slot_of c lscp) b)).
Proof.
  intros Hinv Hc. pose proof (slot_cp c lscp Hc) as Hs. set (s := slot_of c lscp) in *. destruct (getIndex2Block_spec n (-1) fl t c lscp Hinv Hc) as (t1 & i2 & E1 & H0 & Ep & Hown & Hinv1 & Hsame). fold s in Ep, Hown.
  unfold getDataBlock. rewrite E1. cbn [mbind option_bind]. destruct (Z.ltb_spec i2 0); [lia|]. unfold UTRIE2_SHIFT_2, UTRIE2_INDEX_2_MASK. rewrite shift5, mask63, Ep, (index2_get Hinv1 s Hs). cbn [mbind option_bind].
  pose proof (i_blk _ _ _ _ Hinv1 s Hs) as Hg. destruct (writable_or_shared n (-1) fl t1 s Hinv1 Hs) as [(-> & Hn & Hu)|[-> Hsh]]; cbn [mbind option_bind].
  - exists t1, (blk t1 s). split; [done|]. right. split; [apply Hg|]. constructor; [by apply (holds_same n fl)|done|intros s' Hs' _; by apply Hsame|rewrite (sb_len _ _ Hsame); lia|left; by apply Hsame].
  - destruct (allocDataBlock_spec n fl t1 s Hinv1 Hs Hsh) as [[Href ->]|(t2 & b & fl2 & -> & Ha)]; cbn [mbind option_bind].
    { exists t1, (-1). split; [done|]. left. split; [done|]. split; [|by apply (holds_same n fl)]. destruct Href as [? Hroom]. split; [done|]. by rewrite <- (sb_cap _ _ Hsame), <- (sb_len _ _ Hsame). }
    pose proof Ha as [Hinv2 (Hgb & Hnb & Hub) Hcopy Hrest Hlen (I1 & I2 & I3) (V1 & V2 & V3)]. assert (Hblk : forall s', slot s' -> blk t2 s' = blk t1 s') by (intros s' _; unfold blk, pos; by rewrite I1, I2). assert (Hpos : pos t2 s = pos t1 s) by (unfold pos; by rewrite I1).
    destruct (Z.ltb_spec b 0); [destruct Hgb; lia|]. rewrite <- Hpos. assert (Hnew : forall s', slot s' -> blk t1 s' <> b) by (intros s' Hs' E; pose proof (uses_pos t2 s' Hs') as Hp; rewrite (Hblk s' Hs'), E in Hp; lia).
    destruct (setIndex2Entry_spec n b fl2 t2 s b Hinv2 Hs (shared_late n (-1) fl t1 s Hinv1 Hs Hsh)) as (t3 & fl3 & -> & He & Hinv3); try done.
    + unfold own_entry in *. by rewrite Hpos, I3.
    + intros Hin. apply (i_free _ _ _ _ Hinv2) in Hin as (_ & _ & _ & ?). done.
    + rewrite (Hblk s Hs). by apply Hnew.
    + by left.
    + right. by left.
    + intros i Hi E. destruct (i_lin _ _ _ _ Hinv2 i Hi) as [_ U]. rewrite <- E in U. lia.
    + cbn [mbind option_bind]. exists t3, b. split; [done|]. right. split; [done|]. pose proof (e_values _ _ _ _ He) as (W1 & W2 & W3). constructor.
      * constructor; [by exists fl3| |rewrite W1, V1; apply Hsame|rewrite W2, V2; apply Hsame|rewrite W3, V3; apply Hsame]. intros s' j Hs' Hj. rewrite <- (same_val t t1 s' j Hsame Hs'). unfold val. rewrite (e_data _ _ _ _ He), (e_blk _ _ _ _ He s' Hs'). destruct (Z.eqb_spec s' s) as [->|]; [by apply Hcopy|]. rewrite (Hblk s' Hs'). by apply Hrest.
      * rewrite (e_blk _ _ _ _ He s Hs), Z.eqb_refl. split; [done|]. split; [done|]. rewrite (entry_uses t2 t3 s b b Hs He), Hub, Z.eqb_refl, (Hblk s Hs). destruct (Z.eqb_spec (blk t1 s) b) as [E|]; [by destruct (Hnew s Hs)|done].
      * intros s' Hs' Hne. rewrite (e_blk _ _ _ _ He s' Hs'). destruct (Z.eqb_spec s' s); [done|]. rewrite (Hblk s' Hs'). by apply Hsame.
      * rewrite (e_len _ _ _ _ He), <- (sb_len _ _ Hsame). lia.
      * right. rewrite <- (same_uses t t1 b Hsame), <- Hub. apply cnt_ext. intros i Hi. rewrite nslots_eq in Hi. by rewrite (Hblk i Hi).
Qed.

(** ** One value *)

(** Writing in the own block of a slot. *)
Lemma write_own n fl t s b d :
  inv n (-1) fl t -> slot s -> blk t s = b -> b <> 192 -> uses t b = 1 -> zlen d = zlen (data t) -> (forall p, 0 <= p -> p < b \/ b + 32 <= p -> rd d p = rd (data t) p) ->
  holds n t (set_data t d) (fun s' j => if s' =? s then rd d (b + j) else val t s' j).
Proof.
  intros Hinv Hs Eb Hn Hu Hz Hd. pose proof (i_blk _ _ _ _ Hinv s Hs) as Hg. rewrite Eb in Hg. constructor; try done.
  - exists fl. apply (inv_write n (-1) fl t d b); try done. lia.
  - intros s' j Hs' Hj. destruct (Z.eqb_spec s' s) as [->|Hne]; [unfold val; cbn [set_data data]; change (blk (set_data t d) s) with (blk t s); by rewrite Eb|].
    apply (val_write n (-1) fl t d b); try done. intros E. pose proof (uses_two t s' s Hs' Hs Hne ltac:(congruence)). rewrite E in *. lia.
Qed.

Lemma holds_trans n t t1 t2 f g : holds n t t1 f -> holds n t1 t2 g -> holds n t t2 g.
Proof. intros [_ _ I1 E1 K1] [? ? I2 E2 K2]. constructor; [done|done|congruence|congruence|congruence]. Qed.

Lemma holds_ext n t t' f g : holds n t t' f -> (forall s j, slot s -> 0 <= j < 32 -> f s j = g s j) -> holds n t t' g.
Proof. intros [H1 H2 H3 H4 H5] Hfg. constructor; try done. intros s j Hs Hj. rewrite H2 by done. by apply Hfg. Qed.

(** The values [f], and a block of its own for slot [s]. *)
Record set_at (n : Z) (t t' : UNewTrie2) (s : Z) (f : Z -> Z -> Z) : Prop := {
  w_holds : holds n t t' f;
  w_own : blk t' s <> 192 /\ uses t' (blk t' s) = 1;
  w_rest : forall s', slot s' -> s' <> s -> blk t' s' = blk t s';
  w_len : dataLength t' <= dataLength t + 32
}.

Definition upd (f : Z -> Z -> Z) (s j v : Z) : Z -> Z -> Z := fun s' j' => if (s' =? s) && (j' =? j) then v else f s' j'.

Lemma set32_spec n fl t c lscp v :
  inv n (-1) fl t -> 0 <= c <= 0x10ffff -> exists t' e, set32 t c lscp v = Some (t', e) /\
  ((e = U_MEMORY_ALLOCATION_ERROR /\ exhausted t /\ holds n t t' (val t)) \/ (e = U_ZERO_ERROR /\ set_at n t t' (slot_of c lscp) (upd (val t) (slot_of c lscp) (c mod 32) v))).
Proof.
  intros Hinv Hc. pose proof (slot_cp c lscp Hc) as Hs. set (s := slot_of c lscp) in *. unfold set32. rewrite (i_open _ _ _ _ Hinv). destruct (getDataBlock_spec n fl t c lscp Hinv Hc) as (t1 & b & -> & H). cbn [mbind option_bind].
  destruct H as [(-> & Href & Hh)|(H0 & Ho)]; [exists t1, U_MEMORY_ALLOCATION_ERROR; split; [done|by left]|]. destruct (Z.ltb_spec b 0); [lia|]. fold s in Ho. pose proof Ho as [Hh (Eb & Hn & Hu) Hr Hl _]. destruct (h_inv _ _ _ _ Hh) as [fl1 Hinv1].
  unfold UTRIE2_DATA_MASK. rewrite mask31. pose proof (Z.mod_pos_bound c 32 ltac:(lia)). pose proof (i_blk _ _ _ _ Hinv1 s Hs) as (G1 & G2 & _). rewrite Eb in G1, G2. pose proof (i_top _ _ _ _ Hinv1).
  destruct (zset_rd (data t1) (b + c mod 32) v) as (d & -> & Hz & Hd); [rewrite (i_lend _ _ _ _ Hinv1); lia|]. cbn [mbind option_bind]. exists (set_data t1 d), U_ZERO_ERROR. split; [done|]. right. split; [done|].
  pose proof (write_own n fl1 t1 s b d Hinv1 Hs Eb Hn Hu Hz) as Hw. constructor.
  - apply (holds_trans n t t1 _ (val t)); [done|]. apply (holds_ext n t1 _ _ _ (Hw ltac:(intros p Hp1 Hp2; rewrite Hd; destruct (Z.eqb_spec (b + c mod 32) p); [lia|done]))). intros s' j Hs' Hj. unfold upd. rewrite <- (h_val _ _ _ _ Hh s' j Hs' Hj).
    destruct (Z.eqb_spec s' s) as [->|]; cbn [andb]; [|done]. rewrite Hd. destruct (Z.eqb_spec (b + c mod 32) (b + j)), (Z.eqb_spec j (c mod 32)); try lia. unfold val. by rewrite Eb.
  - change (blk t1 s <> 192 /\ uses t1 (blk t1 s) = 1). by rewrite Eb.
  - exact Hr.
  - exact Hl.
Qed.

(** ** Part of a block *)

Definition filled (x value initial : Z) (overwrite : bool) : Z := if overwrite || (x =? initial) then value else x.

Lemma fillBlock_rd t b start limit v ov :
  0 <= b -> 0 <= start -> start <= limit <= 32 -> b + 32 <= zlen (data t) ->
  exists d, fillBlock t b start limit v ov = Some (set_data t d) /\ zlen d = zlen (data t) /\ forall p, rd d p = if (b + start <=? p) && (p <? b + limit) then filled (rd (data t) p) v (initialValue t) ov else rd (data t) p.
Proof.
  intros Hb H0 Hl Hz. unfold fillBlock.
  destruct (for_from_inv (fun k d => zlen d = zlen (data t) /\ forall p, rd d p = if (b + start <=? p) && (p <? k) then filled (rd (data t) p) v (initialValue t) ov else rd (data t) p) (fill_cell v (initialValue t) ov) (Z.to_nat (limit - start)) (b + start) (data t)) as (d & -> & Hzd & Hd).
  - split; [done|]. intros p. destruct (Z.leb_spec (b + start) p), (Z.ltb_spec p (b + start)); try lia; done.
  - intros k d Hk [Hzd Hd]. assert (Hstep : forall d', zlen d' = zlen d -> (forall p, rd d' p = if k =? p then filled (rd (data t) p) v (initialValue t) ov else rd d p) -> zlen d' = zlen (data t) /\ forall p, rd d' p = if (b + start <=? p) && (p <? k + 1) then filled (rd (data t) p) v (initialValue t) ov else rd (data t) p).
    { intros d' E Hd'. split; [lia|]. intros p. rewrite Hd', Hd. destruct (Z.eqb_spec k p) as [->|].
      - destruct (Z.leb_spec (b + start) p), (Z.ltb_spec p (p + 1)); try lia; done.
      - destruct (Z.leb_spec (b + start) p), (Z.ltb_spec p k), (Z.ltb_spec p (k + 1)); try lia; done. }
    assert (Ek : rd d k = rd (data t) k) by (rewrite Hd; destruct (Z.leb_spec (b + start) k), (Z.ltb_spec k k); try lia; done).
    assert (Hset : exists d', zset d k v = Some d' /\ zlen d' = zlen d /\ forall j, rd d' j = if k =? j then v else rd d j) by (apply zset_rd; lia). destruct Hset as (d' & Ed' & Hz' & Hd'). unfold fill_cell. destruct ov.
    + exists d'. split; [done|]. apply Hstep; [done|]. intros p. unfold filled. cbn [orb]. by apply Hd'.
    + rewrite zget_rd by lia. cbn [mbind option_bind]. rewrite Ek. destruct (Z.eqb_spec (rd (data t) k) (initialValue t)) as [E|E].
      * exists d'. split; [done|]. apply Hstep; [done|]. intros p. rewrite Hd'. unfold filled. cbn [orb]. destruct (Z.eqb_spec k p) as [<-|]; [|done]. by destruct (Z.eqb_spec (rd (data t) k) (initialValue t)).
      * exists d. split; [done|]. apply Hstep; [done|]. intros p. unfold filled. cbn [orb]. destruct (Z.eqb_spec k p) as [<-|]; [|done]. by destruct (Z.eqb_spec (rd (data t) k) (initialValue t)).
  - cbn [mbind option_bind]. exists d. split; [done|]. split; [done|]. intros p. rewrite Hd. by replace (b + start + Z.of_nat (Z.to_nat (limit - start))) with (b + limit) by lia.
Qed.

Lemma writeBlock_rd t b v :
  0 <= b -> b + 32 <= zlen (data t) -> exists d, writeBlock t b v = Some (set_data t d) /\ zlen d = zlen (data t) /\ forall p, rd d p = if (b <=? p) && (p <? b + 32) then v else rd (data t) p.
Proof.
  intros Hb Hz. unfold writeBlock, UTRIE2_DATA_BLOCK_LENGTH. destruct (for_write (fun _ => v) (Z.to_nat 32) b (data t) Hb ltac:(lia)) as (d & -> & Hzd & Hd). exists d. done.
Qed.

(** ** A range of code points *)

(** The code point of the first value of a slot; it is negative for the slots of lead surrogate
    code units. *)
Definition base (s : Z) : Z := if s <? CP_SLOTS then if (1728 <=? s) && (s <? 1760) then -32 else 32 * s else 32 * (s - CP_SLOTS + 1728).

Lemma base_slot c : 0 <= c <= 0x10ffff -> base (slot_of c true) = c - c mod 32.
Proof.
  intros Hc. unfold base, slot_of, CP_SLOTS. destruct (U16_IS_LEAD c) eqn:E; cbn [andb].
  - apply lead_range in E; [|lia]. destruct (Z.ltb_spec (34816 + (c / 32 - 1728)) 34816); dlia.
  - assert (c < 0xd800 \/ 0xdbff < c) by (destruct (Z.lt_ge_cases c 0xd800); [by left|]; destruct (Z.lt_ge_cases 0xdbff c); [by right|]; exfalso; pose proof (proj2 (lead_range c ltac:(lia)) ltac:(lia)); congruence).
    destruct (Z.ltb_spec (c / 32) 34816); [|dlia]. destruct (Z.leb_spec 1728 (c / 32)), (Z.ltb_spec (c / 32) 1760); cbn [andb]; dlia.
Qed.

Lemma base_inj s s' : slot s -> slot s' -> 0 <= base s -> base s = base s' -> s = s'.
Proof.
  unfold slot, base, CP_SLOTS. intros Hs Hs'. destruct (Z.ltb_spec s 34816), (Z.ltb_spec s' 34816); repeat (case_match; try lia); rewrite ?andb_true_iff, ?andb_false_iff, ?Z.leb_le, ?Z.ltb_lt, ?Z.leb_gt, ?Z.ltb_ge in *; lia.
Qed.

Lemma base_aligned s : base s mod 32 = 0.
Proof. unfold base. repeat case_match; try done; dlia. Qed.

Definition in_range (lo hi s j : Z) : bool := (lo <=? base s + j) && (base s + j <? hi).
Definition upd_range (f : Z -> Z -> Z) (lo hi v init : Z) (ov : bool) : Z -> Z -> Z := fun s j => if in_range lo hi s j then filled (f s j) v init ov else f s j.

Lemma upd_range_empty f lo v init ov s j : upd_range f lo lo v init ov s j = f s j.
Proof. unfold upd_range, in_range. destruct (Z.leb_spec lo (base s + j)), (Z.ltb_spec (base s + j) lo); try lia; done. Qed.

Lemma upd_range_app f lo mid hi v init ov s j : lo <= mid <= hi -> upd_range (upd_range f lo mid v init ov) mid hi v init ov s j = upd_range f lo hi v init ov s j.
Proof.
  intros H. unfold upd_range, in_range. destruct (Z.leb_spec lo (base s + j)), (Z.leb_spec mid (base s + j)), (Z.ltb_spec (base s + j) mid), (Z.ltb_spec (base s + j) hi); try lia; done.
Qed.

(** Within the block of slot [s]. *)
Lemma upd_range_block f lo hi v init ov s s' j :
  slot s -> slot s' -> 0 <= j < 32 -> 0 <= base s <= lo -> hi <= base s + 32 ->
  upd_range f lo hi v init ov s' j = if (s' =? s) && (lo <=? base s + j) && (base s + j <? hi) then filled (f s j) v init ov else f s' j.
Proof.
  intros Hs Hs' Hj Hlo Hhi. unfold upd_range, in_range. destruct (Z.eqb_spec s' s) as [->|Hne]; cbn [andb]; [done|]. pose proof (base_aligned s). pose proof (base_aligned s').
  destruct (Z.leb_spec lo (base s' + j)), (Z.ltb_spec (base s' + j) hi); cbn [andb]; try done. assert (base s = base s') by dlia. destruct Hne. symmetry. apply base_inj; auto. lia.
Qed.

(** *** The values of a block that is not writable *)

Lemma second_slot t s : slot s -> 2 <= uses t (blk t s) -> exists s', slot s' /\ s' <> s /\ blk t s' = blk t s.
Proof.
  intros Hs Hu. set (Q := fun i => if i =? s then false else blk t i =? blk t s). assert (Hq : cnt nslots Q = uses t (blk t s) - 1).
  { unfold uses. rewrite (cnt_update nslots (fun i => blk t i =? blk t s) Q s); [|rewrite nslots_eq; exact Hs|intros i _ Hi; unfold Q; by destruct (Z.eqb_spec i s)]. unfold Q. rewrite !Z.eqb_refl. cbn [Z.b2z]. lia. }
  destruct (cnt_witness nslots Q) as (s' & Hs' & E); [lia|]. rewrite nslots_eq in Hs'. unfold Q in E. destruct (Z.eqb_spec s' s); [done|]. exists s'. split; [exact Hs'|]. split; [done|by apply Z.eqb_eq].
Qed.

Lemma shared_const n held fl t s :
  inv n held fl t -> slot s -> blk t s = 192 \/ 2 <= uses t (blk t s) -> exists w, (forall j, 0 <= j < 32 -> val t s j = w) /\ (w = initialValue t <-> blk t s = 192).
Proof.
  intros Hinv Hs Hsh. destruct (Z.eq_dec (blk t s) 192) as [E|Hn].
  - exists (initialValue t). split; [|done]. intros j Hj. unfold val. rewrite E. apply (i_null_data _ _ _ _ Hinv). lia.
  - destruct Hsh as [|Hu]; [done|]. destruct (second_slot t s Hs Hu) as (s' & Hs' & Hne & E). destruct (i_shared _ _ _ _ Hinv s s' Hs Hs' ltac:(done) ltac:(done) Hn) as (w & Hw & Hall). exists w. split; [done|]. split; [done|]. by intros ?.
Qed.

(** *** The block that is repeated *)

Record rep_ok (n : Z) (t : UNewTrie2) (rep start v : Z) : Prop := {
  r_init : v = initialValue t -> rep = 192;
  r_block : rep = -1 \/ good t rep /\ 0 <= rep /\ (forall j, 0 <= j < 32 -> rd (data t) (rep + j) = v) /\
    (rep = 192 /\ v = initialValue t \/
     v <> initialValue t /\ rep <> 192 /\ 0 < uses t rep /\ (forall i, 0 <= i < n -> rep <> lin i) /\ forall s, slot s -> blk t s = rep -> 0 <= base s < start)
}.

Lemma rep_same n t t' rep start v : same_blocks t t' -> rep_ok n t rep start v -> rep_ok n t' rep start v.
Proof.
  intros Hs [H1 H2]. pose proof Hs as [Eb Ed Em El Ec Ef Ei Ee]. constructor; [by rewrite Ei|]. destruct H2 as [?|(G & H0 & Hd & H2)]; [by left|right]. rewrite (same_good t t') by done. rewrite Ed, Ei, (same_uses t t') by done. split; [done|]. split; [done|]. split; [done|].
  destruct H2 as [?|(V & N & U & L & S)]; [by left|right]. split_and!; try done; intros s Hsl; rewrite Eb by done; intros E; by apply S.
Qed.

Lemma rep_later n t rep start start' v : start <= start' -> rep_ok n t rep start v -> rep_ok n t rep start' v.
Proof.
  intros Hle [H1 H2]. constructor; [done|]. destruct H2 as [?|(G & H0 & Hd & H2)]; [by left|right]. split_and!; try done. destruct H2 as [?|(V & N & U & L & S)]; [by left|right]. split_and!; try done; intros s Hs E; specialize (S s Hs E); lia.
Qed.

(** The repeat block is not the block of the slot that comes next, unless it is the null block. *)
Lemma rep_next n t rep start v s : rep_ok n t rep start v -> slot s -> start <= base s -> 0 <= rep -> blk t s = rep -> blk t s = 192.
Proof. intros [_ H] Hs Hb H0 E. destruct H as [?|(_ & _ & _ & [[-> _]|(_ & _ & _ & _ & S)])]; [lia|done|]. specialize (S s Hs E). lia. Qed.

Lemma rep_write n t rep start v d b :
  rep_ok n t rep start v -> good t b -> b <> rep -> (forall p, 0 <= p -> p < b \/ b + 32 <= p -> rd d p = rd (data t) p) -> rep_ok n (set_data t d) rep start v.
Proof.
  intros [H1 H2] (_ & _ & Hb & _) Hne Hd. constructor; [done|]. destruct H2 as [?|(G & H0 & Hc & H2)]; [by left|right]. split; [done|]. split; [done|]. split; [|done]. intros j Hj. cbn [set_data data]. pose proof G as (_ & _ & Hr & _). rewrite Hd; [by apply Hc|lia|dlia].
Qed.

Definition all_of (f : Z -> Z -> Z) (s v : Z) : Z -> Z -> Z := fun s' j => if s' =? s then v else f s' j.

Lemma enter_rep n fl t s rep v :
  inv n (-1) fl t -> slot s -> n <= s -> own_entry t s -> rep_ok n t rep (base s) v -> 0 <= rep -> 0 <= base s -> blk t s <> rep ->
  exists t', setIndex2Entry t (pos t s) rep = Some t' /\ holds n t t' (all_of (val t) s v) /\ rep_ok n t' rep (base s + 32) v.
Proof.
  intros Hinv Hs Hns Hown Hrep H0 Hbase Hne. pose proof Hrep as [R1 [?|(G & _ & Hd & R2)]]; [lia|]. assert (Hnf : rep ∉ fl) by (intros Hin; apply (i_free _ _ _ _ Hinv) in Hin as (_ & U & N & _); destruct R2 as [[? _]|(_ & _ & ? & _)]; [done|lia]).
  assert (Hsh : shareable t rep) by (destruct R2 as [[? _]|(V & _)]; [by left|right; right; by exists v]). assert (Hlin : forall i, 0 <= i < n -> rep <> lin i).
  { destruct R2 as [[-> _]|(_ & _ & _ & L & _)]; [|done]. intros i Hi. pose proof (i_n _ _ _ _ Hinv). pose proof (lin_not_null i ltac:(lia)). congruence. }
  destruct (setIndex2Entry_spec n (-1) fl t s rep Hinv Hs Hns Hown G Hnf Hne ltac:(by right) Hsh Hlin) as (t' & fl' & E & He & Hinv'). exists t'. split; [exact E|]. pose proof (e_values _ _ _ _ He) as (W1 & W2 & W3). split.
  - constructor; [by exists fl'| |done|done|done]. intros s' j Hs' Hj. unfold val, all_of. rewrite (e_data _ _ _ _ He), (e_blk _ _ _ _ He s' Hs'). destruct (s' =? s); [by apply Hd|done].
  - constructor; [by rewrite W1|]. right. unfold good in *. rewrite (e_len _ _ _ _ He), (e_data _ _ _ _ He), W1. split; [done|]. split; [done|]. split; [done|]. destruct R2 as [?|(V & N & U & L & S)]; [by left|right]. split_and!; try done.
    + rewrite (entry_uses t t' s rep rep Hs He), Z.eqb_refl. destruct (Z.eqb_spec (blk t s) rep); [done|]. cbn [Z.b2z]. lia.
    + intros s' Hs'. rewrite (e_blk _ _ _ _ He s' Hs'). destruct (Z.eqb_spec s' s) as [->|]; [lia|]. intros E'. specialize (S s' Hs' E'). lia.
Qed.

Lemma new_rep n fl t c v :
  let s := slot_of c true in inv n (-1) fl t -> 0 <= c <= 0x10ffff -> n <= s -> v <> initialValue t ->
  exists t' b, getDataBlock t c true = Some (t', b) /\
  ((b = -1 /\ refused /\ holds n t t' (val t)) \/
   (0 <= b /\ exists t2, writeBlock t' b v = Some t2 /\ holds n t t2 (all_of (val t) s v) /\ rep_ok n t2 b (base s + 32) v)).
Proof.
  intros s Hinv Hc Hns Hv. pose proof (slot_cp c true Hc) as Hs. fold s in Hs. destruct (getDataBlock_spec n fl t c true Hinv Hc) as (t1 & b & -> & [(-> & [Href _] & H)|[H0 Ho]]); eexists t1, _; (split; [done|]); [by left|right]. fold s in Ho. split; [done|].
  pose proof Ho as [Hh (Eb & Hn & Hu) Hr Hl Hold]. destruct (h_inv _ _ _ _ Hh) as [fl1 Hinv1]. pose proof (i_blk _ _ _ _ Hinv1 s Hs) as G. rewrite Eb in G. pose proof G as (G1 & G2 & _). pose proof (i_top _ _ _ _ Hinv1). pose proof (h_init _ _ _ _ Hh) as Hi.
  destruct (writeBlock_rd t1 b v) as (d & -> & Hz & Hd); [done|rewrite (i_lend _ _ _ _ Hinv1); lia|]. exists (set_data t1 d). split; [done|].
  assert (Hin : forall j, 0 <= j < 32 -> rd d (b + j) = v) by (intros j Hj; rewrite Hd; destruct (Z.leb_spec b (b + j)), (Z.ltb_spec (b + j) (b + 32)); try lia; done).
  assert (Hout : forall p, 0 <= p -> p < b \/ b + 32 <= p -> rd d p = rd (data t1) p) by (intros p _ Hp; rewrite Hd; destruct (Z.leb_spec b p), (Z.ltb_spec p (b + 32)); try lia; done).
  split.
  - apply (holds_trans n t t1 _ (val t) _ Hh). apply (holds_ext n t1 _ _ _ (write_own n fl1 t1 s b d Hinv1 Hs Eb Hn Hu Hz Hout)). intros s' j Hs' Hj. unfold all_of. destruct (Z.eqb_spec s' s); [by apply Hin|by apply Hh].
  - assert (Hone : forall s', slot s' -> blk t1 s' = b -> s' = s). { intros s' Hs' E. destruct (Z.eq_dec s' s) as [|Hne]; [done|]. pose proof (uses_two t1 s s' Hs Hs' ltac:(done) ltac:(congruence)) as H2. rewrite Eb in H2. lia. }
    assert (Hbs : 0 <= base s) by (unfold s; rewrite base_slot by done; dlia).
    constructor; [intros E; cbn [set_data initialValue] in E; congruence|]. right. split; [exact G|]. split; [done|]. split; [exact Hin|]. right. cbn [set_data initialValue]. split; [congruence|]. split; [done|]. split; [change (0 < uses t1 b); lia|]. split.
    + intros i Hi'. pose proof (i_n _ _ _ _ Hinv1). destruct (i_lin _ _ _ _ Hinv1 i Hi') as [L _]. intros E. assert (i = s); [|lia]. apply Hone; [unfold slot; lia|congruence].
    + intros s' Hs' E. change (blk t1 s' = b) in E. rewrite (Hone s' Hs' E). lia.
Qed.

(** Filling a part of the own block of a slot. *)
Lemma fill_own n fl t s lo hi v ov rep start :
  inv n (-1) fl t -> slot s -> 0 <= base s -> blk t s <> 192 -> uses t (blk t s) = 1 -> 0 <= lo -> lo <= hi <= 32 ->
  exists t', fillBlock t (blk t s) lo hi v ov = Some t' /\ holds n t t' (upd_range (val t) (base s + lo) (base s + hi) v (initialValue t) ov) /\ (rep_ok n t rep start v -> blk t s <> rep -> rep_ok n t' rep start v).
Proof.
  intros Hinv Hs Hbase Hn Hu Hlo Hhi. pose proof (i_blk _ _ _ _ Hinv s Hs) as G. pose proof G as (G1 & G2 & _). pose proof (i_top _ _ _ _ Hinv).
  destruct (fillBlock_rd t (blk t s) lo hi v ov) as (d & -> & Hz & Hd); [done|done|done|rewrite (i_lend _ _ _ _ Hinv); lia|]. exists (set_data t d). split; [done|].
  assert (Hout : forall p, 0 <= p -> p < blk t s \/ blk t s + 32 <= p -> rd d p = rd (data t) p) by (intros p _ Hp; rewrite Hd; destruct (Z.leb_spec (blk t s + lo) p), (Z.ltb_spec p (blk t s + hi)); try lia; done).
  split; [|intros Hrep Hne; by apply (rep_write n t rep start v d (blk t s))]. apply (holds_ext n t _ _ _ (write_own n fl t s (blk t s) d Hinv Hs eq_refl Hn Hu Hz Hout)). intros s' j Hs' Hj. rewrite (upd_range_block _ _ _ _ _ _ s) by (done || lia). destruct (Z.eqb_spec s' s) as [->|]; cbn [andb]; [|done].
  rewrite Hd. unfold val. destruct (Z.leb_spec (blk t s + lo) (blk t s + j)), (Z.leb_spec (base s + lo) (base s + j)), (Z.ltb_spec (blk t s + j) (blk t s + hi)), (Z.ltb_spec (base s + j) (base s + hi)); try lia; done.
Qed.

Lemma big_late n held fl t s : inv n held fl t -> slot s -> UNEWTRIE2_DATA_0800_OFFSET <= blk t s -> n <= s.
Proof.
  intros Hinv Hs Hb. destruct (Z.lt_ge_cases s n) as [Hlt|]; [|done]. unfold slot, UNEWTRIE2_DATA_0800_OFFSET in *. pose proof (i_n _ _ _ _ Hinv). destruct (i_lin _ _ _ _ Hinv s ltac:(lia)) as [E _]. unfold lin in E. destruct (Z.ltb_spec s 4); lia.
Qed.

(** The outcome of a step that changes the values of [t] to [f]. *)
Definition step_done (n : Z) (t t' : UNewTrie2) (f : Z -> Z -> Z) (rep start v : Z) (e : UErrorCode) : Prop :=
  (e = U_MEMORY_ALLOCATION_ERROR /\ refused /\ holds n t t' (val t)) \/ (e = U_ZERO_ERROR /\ holds n t t' f /\ rep_ok n t' rep start v).

Lemma step_done_ext n t t' f g rep start v e : step_done n t t' f rep start v e -> (forall s j, slot s -> 0 <= j < 32 -> f s j = g s j) -> step_done n t t' g rep start v e.
Proof. intros [H|(E & H & R)] Hfg; [by left|right]. split; [done|]. split; [|done]. by apply (holds_ext n t t' f). Qed.

(** The repeat block takes the place of the slot's block. *)
Lemma set_repeat n fl t c rep v :
  let s := slot_of c true in inv n (-1) fl t -> 0 <= c <= 0x10ffff -> c mod 32 = 0 -> n <= s -> own_entry t s -> rep_ok n t rep c v -> blk t s <> rep ->
  exists t' rep' e,
    (if 0 <=? rep then t ← setIndex2Entry t (pos t s) rep; Some (t, rep, U_ZERO_ERROR)
     else '(t, rep) ← getDataBlock t c true; if rep <? 0 then Some (t, rep, U_MEMORY_ALLOCATION_ERROR) else t ← writeBlock t rep v; Some (t, rep, U_ZERO_ERROR)) = Some (t', rep', e) /\
    step_done n t t' (all_of (val t) s v) rep' (c + 32) v e.
Proof.
  intros s Hinv Hc Hmod Hns Hown Hrep Hne. pose proof (slot_cp c true Hc) as Hs. fold s in Hs. assert (Hb : base s = c) by (unfold s; rewrite base_slot by done; lia). destruct (Z.leb_spec 0 rep) as [H0|H0].
  - rewrite <- Hb in Hrep. destruct (enter_rep n fl t s rep v Hinv Hs Hns Hown Hrep H0 ltac:(lia) Hne) as (t' & -> & Hh & Hr). cbn [mbind option_bind]. exists t', rep, U_ZERO_ERROR. split; [done|]. right. rewrite <- Hb. done.
  - assert (Hv : v <> initialValue t) by (intros E; apply (r_init _ _ _ _ _ Hrep) in E; lia). destruct (new_rep n fl t c v Hinv Hc Hns Hv) as (t1 & b & -> & [(-> & Href & Hh)|(Hb0 & t2 & E & Hh & Hr)]); cbn [mbind option_bind].
    + exists t1, (-1), U_MEMORY_ALLOCATION_ERROR. split; [done|]. by left.
    + destruct (Z.ltb_spec b 0); [lia|]. rewrite E. cbn [mbind option_bind]. exists t2, b, U_ZERO_ERROR. split; [done|]. right. fold s in Hh, Hr. rewrite <- Hb. done.
Qed.

Lemma isInNullBlock_blk n held fl t c : inv n held fl t -> 0 <= c <= 0x10ffff -> isInNullBlock t c true = Some (blk t (slot_of c true) =? 192).
Proof.
  intros Hinv Hc. unfold isInNullBlock. rewrite (i2_of_pos Hinv c true Hc). cbn [mbind option_bind]. rewrite (index2_get Hinv) by (by apply slot_cp). cbn [mbind option_bind]. by rewrite (i_null _ _ _ _ Hinv).
Qed.

(** One block of a range, after the test for the null block. *)
Definition block_step (t : UNewTrie2) (start value : Z) (overwrite : bool) (repeatBlock s : Z) : option (UNewTrie2 * Z * UErrorCode) :=
  let i2 := pos t s in
  w ← isWritableBlock t (blk t s);
  '(t, setRepeatBlock) ←
    (if (w : bool) then
       if overwrite && (UNEWTRIE2_DATA_0800_OFFSET <=? blk t s) then Some (t, true)
       else t' ← fillBlock t (blk t s) 0 UTRIE2_DATA_BLOCK_LENGTH value overwrite; Some (t', false)
     else x ← zget (data t) (blk t s); Some (t, negb (x =? value) && (overwrite || (blk t s =? dataNullOffset t))));
  if (setRepeatBlock : bool) then
    if 0 <=? repeatBlock then t ← setIndex2Entry t i2 repeatBlock; Some (t, repeatBlock, U_ZERO_ERROR)
    else
      '(t, repeatBlock) ← getDataBlock t start true;
      if repeatBlock <? 0 then Some (t, repeatBlock, U_MEMORY_ALLOCATION_ERROR) else t ← writeBlock t repeatBlock value; Some (t, repeatBlock, U_ZERO_ERROR)
  else Some (t, repeatBlock, U_ZERO_ERROR).

Lemma block_step_spec n fl t c v ov rep :
  let s := slot_of c true in inv n (-1) fl t -> 0 <= c <= 0x10ffff -> c mod 32 = 0 -> own_entry t s -> rep_ok n t rep c v -> (v = initialValue t -> blk t s <> 192) ->
  exists t' rep' e, block_step t c v ov rep s = Some (t', rep', e) /\ step_done n t t' (upd_range (val t) c (c + 32) v (initialValue t) ov) rep' (c + 32) v e.
Proof.
  intros s Hinv Hc Hmod Hown Hrep Hskip. pose proof (slot_cp c true Hc) as Hs. fold s in Hs. assert (Hb : base s = c) by (unfold s; rewrite base_slot by done; lia). pose proof (i_null _ _ _ _ Hinv) as Hnull.
  assert (Hr0 : rep = -1 \/ 0 <= rep) by (destruct (r_block _ _ _ _ _ Hrep) as [?|(_ & ? & _)]; auto). pose proof (i_blk _ _ _ _ Hinv s Hs) as G. assert (Hnr : blk t s <> 192 -> blk t s <> rep).
  { intros Hn E. destruct Hr0 as [Hr|Hr]; [destruct G; lia|]. apply Hn. apply (rep_next n t rep c v s Hrep Hs); [lia|done|done]. }
  assert (Hall : forall s' j, slot s' -> 0 <= j < 32 -> upd_range (val t) c (c + 32) v (initialValue t) ov s' j = if s' =? s then filled (val t s j) v (initialValue t) ov else val t s' j).
  { intros s' j Hs' Hj. rewrite (upd_range_block _ _ _ _ _ _ s) by (done || lia). rewrite Hb. destruct (Z.leb_spec c (c + j)), (Z.ltb_spec (c + j) (c + 32)); try lia. by rewrite !andb_true_r. }
  assert (Hset : n <= s -> blk t s <> rep -> (forall j, 0 <= j < 32 -> ov = true \/ val t s j = initialValue t) -> exists t' rep' e,
    (if 0 <=? rep then t ← setIndex2Entry t (pos t s) rep; Some (t, rep, U_ZERO_ERROR)
     else '(t, rep) ← getDataBlock t c true; if rep <? 0 then Some (t, rep, U_MEMORY_ALLOCATION_ERROR) else t ← writeBlock t rep v; Some (t, rep, U_ZERO_ERROR)) = Some (t', rep', e) /\
    step_done n t t' (upd_range (val t) c (c + 32) v (initialValue t) ov) rep' (c + 32) v e).
  { intros Hns Hne Hv. destruct (set_repeat n fl t c rep v Hinv Hc Hmod Hns Hown Hrep Hne) as (t' & rep' & e & E & Hd). exists t', rep', e. split; [exact E|]. apply (step_done_ext _ _ _ _ _ _ _ _ _ Hd). intros s' j Hs' Hj. rewrite Hall by done. unfold all_of. fold s. destruct (Z.eqb_spec s' s); [|done].
    unfold filled. destruct (Hv j Hj) as [-> | ->]; [done|]. by rewrite Z.eqb_refl, orb_true_r. }
  unfold block_step. cbv zeta. destruct (writable_or_shared n (-1) fl t s Hinv Hs) as [(-> & Hn & Hu)|[-> Hsh]]; cbn [mbind option_bind].
  - destruct (ov && (UNEWTRIE2_DATA_0800_OFFSET <=? blk t s)) eqn:E; cbn [mbind option_bind].
    + apply andb_true_iff in E as [Eo E]. apply Z.leb_le in E. apply Hset; [by apply (big_late n (-1) fl t)|by apply Hnr|by left].
    + destruct (fill_own n fl t s 0 32 v ov rep c Hinv Hs ltac:(lia) Hn Hu ltac:(lia) ltac:(lia)) as (t' & E' & Hh & Hr). unfold UTRIE2_DATA_BLOCK_LENGTH. rewrite E'. cbn [mbind option_bind]. exists t', rep, U_ZERO_ERROR. split; [done|]. right. split; [done|]. rewrite Hb, Z.add_0_r in Hh. split; [done|]. apply (rep_later n t' rep c); [lia|]. apply Hr; [done|by apply Hnr].
  - pose proof (data_get Hinv s 0 Hs ltac:(lia)) as E. rewrite Z.add_0_r in E. rewrite E. cbn [mbind option_bind]. destruct (shared_const n (-1) fl t s Hinv Hs Hsh) as (w & Hw & Hwi). rewrite Hw, Hnull by lia.
    destruct (negb (w =? v) && (ov || (blk t s =? 192))) eqn:E2.
    + apply andb_true_iff in E2 as [E2 E3]. apply negb_true_iff, Z.eqb_neq in E2. apply orb_true_iff in E3. apply Hset; [by apply (shared_late n (-1) fl t)| |].
      * destruct (Z.eq_dec (blk t s) 192) as [E4|]; [|by apply Hnr]. intros E5. destruct (r_block _ _ _ _ _ Hrep) as [?|(_ & _ & _ & [[_ Hv]|(_ & ? & _)])]; [lia|by apply Hskip in Hv|congruence].
      * intros j Hj. destruct E3 as [->|E3]; [by left|right]. rewrite Hw by done. apply Hwi. by apply Z.eqb_eq.
    + exists t, rep, U_ZERO_ERROR. split; [done|]. right. split; [done|]. split; [|apply (rep_later n t rep c); [lia|done]]. apply (holds_ext n t t _ _ (holds_refl n fl t Hinv)). intros s' j Hs' Hj. rewrite Hall by done. destruct (Z.eqb_spec s' s) as [->|]; [|done].
      rewrite Hw by done. unfold filled. apply andb_false_iff in E2 as [E2|E2]; [apply negb_false_iff, Z.eqb_eq in E2; subst w; by destruct (ov || (v =? initialValue t))|]. apply orb_false_iff in E2 as [-> E2]. apply Z.eqb_neq in E2. destruct (Z.eqb_spec w (initialValue t)) as [E3|]; [apply Hwi in E3; lia|done].
Qed.

Lemma range_block_spec n fl t c v ov rep :
  inv n (-1) fl t -> 0 <= c <= 0x10ffff -> c mod 32 = 0 -> rep_ok n t rep c v ->
  exists t' rep' e, range_block t c v ov rep = Some (t', rep', e) /\ step_done n t t' (upd_range (val t) c (c + 32) v (initialValue t) ov) rep' (c + 32) v e.
Proof.
  intros Hinv Hc Hmod Hrep. pose proof (slot_cp c true Hc) as Hs. set (s := slot_of c true) in *. assert (Hb : base s = c) by (unfold s; rewrite base_slot by done; lia). unfold range_block. rewrite (isInNullBlock_blk n (-1) fl t c Hinv Hc). fold s.
  assert (Hcond : (if v =? initialValue t then Some (blk t s =? 192) else Some false) = Some ((v =? initialValue t) && (blk t s =? 192))) by (by destruct (v =? initialValue t)). rewrite Hcond. clear Hcond. cbn [mbind option_bind]. destruct ((v =? initialValue t) && (blk t s =? 192)) eqn:E.
  - apply andb_true_iff in E as [E1 E2]. apply Z.eqb_eq in E1, E2. exists t, rep, U_ZERO_ERROR. split; [done|]. right. split; [done|]. split; [|apply (rep_later n t rep c); [lia|done]]. apply (holds_ext n t t _ _ (holds_refl n fl t Hinv)). intros s' j Hs' Hj. rewrite (upd_range_block _ _ _ _ _ _ s) by (done || lia).
    destruct (Z.eqb_spec s' s) as [->|]; cbn [andb]; [|done]. assert (Ev : val t s j = v) by (unfold val; rewrite E2, (i_null_data _ _ _ _ Hinv) by lia; done). rewrite Ev. unfold filled. by repeat case_match.
  - destruct (getIndex2Block_spec n (-1) fl t c true Hinv Hc) as (t1 & i2 & -> & H0 & Ep & Hown & Hinv1 & Hsame). fold s in Ep, Hown. cbn [mbind option_bind]. destruct (Z.ltb_spec i2 0); [lia|]. unfold UTRIE2_SHIFT_2, UTRIE2_INDEX_2_MASK. rewrite shift5, mask63, Ep, (index2_get Hinv1 s Hs). cbn [mbind option_bind].
    pose proof (sb_init _ _ Hsame) as Ei. destruct (block_step_spec n fl t1 c v ov rep Hinv1 Hc Hmod Hown) as (t2 & rep' & e & E2 & Hd).
    + by apply (rep_same n t).
    + intros Ev En. fold s in En. rewrite (sb_blk _ _ Hsame s Hs) in En. rewrite Ev, Ei, En, !Z.eqb_refl in E. done.
    + fold s in E2. exists t2, rep', e. split; [exact E2|]. rewrite Ei in Hd. pose proof (holds_same n fl t t1 Hinv1 Hsame) as Ht1. assert (Hv : forall s' j, slot s' -> 0 <= j < 32 -> val t1 s' j = val t s' j) by (intros; by apply Ht1).
      destruct Hd as [(-> & Href & Hh)|(-> & Hh & Hr)]; [left|right]; (split; [done|]).
      * split; [done|]. by apply (holds_trans n t t1 _ (val t)), (holds_ext n t1 t2 (val t1)).
      * split; [|done]. apply (holds_trans n t t1 _ (val t) _ Ht1), (holds_ext n t1 t2 _ _ Hh). intros s' j Hs' Hj. unfold upd_range. by rewrite Hv.
Qed.

(** *** The whole range *)

(** When memory is refused, the code points up to some [mid] have got the value. *)
Definition range_done (n : Z) (t t' : UNewTrie2) (lo hi v : Z) (ov : bool) (e : UErrorCode) : Prop :=
  (e = U_MEMORY_ALLOCATION_ERROR /\ refused /\ exists mid, lo <= mid <= hi /\ holds n t t' (upd_range (val t) lo mid v (initialValue t) ov)) \/
  (e = U_ZERO_ERROR /\ holds n t t' (upd_range (val t) lo hi v (initialValue t) ov)).

Lemma upd_range_after n t t1 lo mid hi v ov s j :
  holds n t t1 (upd_range (val t) lo mid v (initialValue t) ov) -> lo <= mid <= hi -> slot s -> 0 <= j < 32 ->
  upd_range (val t1) mid hi v (initialValue t1) ov s j = upd_range (val t) lo hi v (initialValue t) ov s j.
Proof.
  intros [_ Hv Hi _ _] Hle Hs Hj. rewrite <- (upd_range_app (val t) lo mid hi) by done. unfold upd_range at 1 2. by rewrite Hi, Hv.
Qed.

Lemma range_done_app n t t1 t2 lo mid hi v ov e :
  lo <= mid <= hi -> holds n t t1 (upd_range (val t) lo mid v (initialValue t) ov) -> range_done n t1 t2 mid hi v ov e -> range_done n t t2 lo hi v ov e.
Proof.
  intros Hle H1 [(E & Href & m & Hm & H2)|(E & H2)]; [left|right]; (split; [done|]).
  - split; [done|]. exists m. split; [lia|]. apply (holds_trans n t t1 t2 _ _ H1), (holds_ext n t1 t2 _ _ H2). intros s j Hs Hj. apply (upd_range_after n t t1 lo mid m); [done|lia|done|done].
  - apply (holds_trans n t t1 t2 _ _ H1), (holds_ext n t1 t2 _ _ H2). intros s j Hs Hj. by apply (upd_range_after n t t1 lo mid hi).
Qed.

Lemma range_refused n t t' lo hi v ov : lo <= hi -> refused -> holds n t t' (val t) -> range_done n t t' lo hi v ov U_MEMORY_ALLOCATION_ERROR.
Proof.
  intros Hle Href Hh. left. split; [done|]. split; [done|]. exists lo. split; [lia|]. apply (holds_ext n t t' _ _ Hh). intros s j _ _. by rewrite upd_range_empty.
Qed.

Lemma range_done_inv n t t' lo hi v ov e : range_done n t t' lo hi v ov e -> exists fl, inv n (-1) fl t'.
Proof. intros [(_ & _ & mid & _ & H)|(_ & H)]; apply H. Qed.

Lemma range_loop_spec n k fl t c v ov rep :
  inv n (-1) fl t -> 0 <= c -> c + 32 * Z.of_nat k <= 0x110000 -> c mod 32 = 0 -> rep_ok n t rep c v ->
  exists t' e, range_loop k t c v ov rep = Some (t', e) /\ range_done n t t' c (c + 32 * Z.of_nat k) v ov e.
Proof.
  revert fl t c rep. induction k as [|k IH]; intros fl t c rep Hinv Hc Hk Hmod Hrep; cbn [range_loop].
  - exists t, U_ZERO_ERROR. split; [done|]. right. split; [done|]. apply (holds_ext n t t _ _ (holds_refl n fl t Hinv)). intros s j _ _. change (32 * Z.of_nat 0) with 0. by rewrite Z.add_0_r, upd_range_empty.
  - destruct (range_block_spec n fl t c v ov rep Hinv ltac:(lia) Hmod Hrep) as (t1 & rep1 & e & -> & [(-> & Href & Hh)|(-> & Hh & Hr)]); cbn [mbind option_bind U_FAILURE].
    + exists t1, U_MEMORY_ALLOCATION_ERROR. split; [done|]. apply range_refused; [lia|done|done].
    + destruct (h_inv _ _ _ _ Hh) as [fl1 Hinv1]. unfold UTRIE2_DATA_BLOCK_LENGTH. destruct (IH fl1 t1 (c + 32) rep1 Hinv1 ltac:(lia) ltac:(lia)) as (t2 & e & E & Hd); [dlia|done|]. exists t2, e. split; [exact E|].
      apply (range_done_app n t t1 t2 c (c + 32)); [lia|done|]. by replace (c + 32 * Z.of_nat (S k)) with (c + 32 + 32 * Z.of_nat k) by lia.
Qed.

(** A part of one block. *)
Lemma part_spec n fl t c lo hi v ov :
  inv n (-1) fl t -> 0 <= c <= 0x10ffff -> 0 <= lo -> lo <= hi <= 32 -> let b := c - c mod 32 in
  exists t1 blk1, getDataBlock t c true = Some (t1, blk1) /\
  ((blk1 = -1 /\ refused /\ holds n t t1 (val t)) \/ (0 <= blk1 /\ exists t2, fillBlock t1 blk1 lo hi v ov = Some t2 /\ holds n t t2 (upd_range (val t) (b + lo) (b + hi) v (initialValue t) ov))).
Proof.
  intros Hinv Hc Hlo Hhi b. pose proof (slot_cp c true Hc) as Hs. set (s := slot_of c true) in *. assert (Hb : base s = b) by (unfold s; by rewrite base_slot). assert (0 <= b) by (unfold b; dlia).
  destruct (getDataBlock_spec n fl t c true Hinv Hc) as (t1 & b1 & -> & [(-> & [Href _] & H')|[H0 Ho]]); eexists t1, _; (split; [done|]); [by left|right]. fold s in Ho. split; [done|]. pose proof Ho as [Hh (Eb & Hn & Hu) _ _ _]. destruct (h_inv _ _ _ _ Hh) as [fl1 Hinv1]. rewrite <- Eb in *.
  destruct (fill_own n fl1 t1 s lo hi v ov 0 0 Hinv1 Hs ltac:(lia) Hn Hu Hlo Hhi) as (t2 & -> & Hf & _). exists t2. split; [done|]. apply (holds_trans n t t1 t2 _ _ Hh), (holds_ext n t1 t2 _ _ Hf). intros s' j Hs' Hj. rewrite Hb. unfold upd_range. by rewrite (h_init _ _ _ _ Hh), (h_val _ _ _ _ Hh s' j Hs' Hj).
Qed.

Lemma round_down c : Z.land c (Z.lnot 31) = c - c mod 32.
Proof. change (Z.lnot 31) with (Z.lnot (Z.ones 5)). rewrite <- Z.ldiff_land, Z.ldiff_ones_r by lia. rewrite Z.shiftl_mul_pow2, Z.shiftr_div_pow2 by lia. change (2 ^ 5) with 32. pose proof (Z.div_mod c 32 ltac:(lia)). lia. Qed.

Lemma rep_start n fl t c v : inv n (-1) fl t -> rep_ok n t (if v =? initialValue t then dataNullOffset t else -1) c v.
Proof.
  intros Hinv. pose proof (i_top _ _ _ _ Hinv). rewrite (i_null _ _ _ _ Hinv). destruct (Z.eqb_spec v (initialValue t)) as [E|E]; constructor; [done| |done|by left]. right. split; [unfold good; split_and!; (lia || done)|]. split; [done|]. split; [|by left]. intros j Hj. rewrite (i_null_data _ _ _ _ Hinv) by lia. done.
Qed.

Lemma set_blocks_spec n fl t c hi v ov :
  inv n (-1) fl t -> 0 <= c -> c <= hi <= 0x110000 -> c mod 32 = 0 -> exists t' e, set_blocks t c hi v ov = Some (t', e) /\ range_done n t t' c hi v ov e.
Proof.
  intros Hinv Hc Hhi Hmod. unfold set_blocks, UTRIE2_DATA_MASK, UTRIE2_SHIFT_2. rewrite mask31, round_down, shift5. pose proof (Z.mod_pos_bound hi 32 ltac:(lia)). set (k := Z.to_nat _). assert (Hk : c + 32 * Z.of_nat k = hi - hi mod 32) by (unfold k; dlia).
  destruct (range_loop_spec n k fl t c v ov _ Hinv Hc ltac:(lia) Hmod (rep_start n fl t c v Hinv)) as (t1 & e & -> & Hd). cbn [mbind option_bind]. rewrite Hk in Hd. destruct Hd as [(-> & Href & mid & Hm & Hh)|(-> & Hh)]; cbn [U_FAILURE].
  - exists t1, U_MEMORY_ALLOCATION_ERROR. split; [done|]. left. split; [done|]. split; [done|]. exists mid. split; [lia|done].
  - destruct (h_inv _ _ _ _ Hh) as [fl1 Hinv1]. destruct (Z.ltb_spec 0 (hi mod 32)).
    + rewrite Z.max_r by dlia. set (m := hi - hi mod 32) in *. assert (Hm : m mod 32 = 0) by (unfold m; dlia). destruct (part_spec n fl1 t1 m 0 (hi mod 32) v ov Hinv1 ltac:(lia) ltac:(lia) ltac:(lia)) as (t2 & b & -> & [(-> & Href & Hh2)|(Hb0 & t3 & E & Hh2)]); cbn [mbind option_bind].
      * exists t2, U_MEMORY_ALLOCATION_ERROR. split; [done|]. apply (range_done_app n t t1 t2 c m); [lia|done|]. apply range_refused; [lia|done|done].
      * destruct (Z.ltb_spec b 0); [lia|]. rewrite E. cbn [mbind option_bind]. exists t3, U_ZERO_ERROR. split; [done|]. apply (range_done_app n t t1 t3 c m); [lia|done|]. right. split; [done|]. rewrite Hm, Z.sub_0_r, Z.add_0_r in Hh2. by replace (m + hi mod 32) with hi in Hh2 by (unfold m; lia).
    + exists t1, U_ZERO_ERROR. split; [done|]. right. split; [done|]. by replace hi with (hi - hi mod 32) by lia.
Qed.

Lemma setRange32_spec n fl t lo hi v ov :
  inv n (-1) fl t -> 0 <= lo -> lo <= hi <= 0x10ffff -> exists t' e, setRange32 t lo hi v ov = Some (t', e) /\ range_done n t t' lo (hi + 1) v ov e.
Proof.
  intros Hinv Hlo Hhi. unfold setRange32. rewrite (i_open _ _ _ _ Hinv). destruct (negb ov && (v =? initialValue t)) eqn:Enop.
  { apply andb_true_iff in Enop as [E1 E2]. apply negb_true_iff in E1 as ->. apply Z.eqb_eq in E2. exists t, U_ZERO_ERROR. split; [done|]. right. split; [done|]. apply (holds_ext n t t _ _ (holds_refl n fl t Hinv)). intros s j _ _. unfold upd_range, filled. rewrite <- E2. cbn [orb]. destruct (in_range lo (hi + 1) s j); [|done]. destruct (Z.eqb_spec (val t s j) v); done. }
  clear Enop. unfold UTRIE2_DATA_MASK, UTRIE2_DATA_BLOCK_LENGTH. rewrite !mask31, round_down. pose proof (Z.mod_pos_bound lo 32 ltac:(lia)). destruct (Z.eqb_spec (lo mod 32) 0) as [E|E]; cbn [negb]; [apply (set_blocks_spec n fl); (done || lia)|].
  assert (Hn : lo + 32 - (lo + 32) mod 32 = lo - lo mod 32 + 32) by dlia. rewrite Hn. set (b := lo - lo mod 32) in *. destruct (Z.leb_spec (b + 32) (hi + 1)) as [Hle|Hgt].
  - destruct (part_spec n fl t lo (lo mod 32) 32 v ov Hinv ltac:(lia) ltac:(lia) ltac:(lia)) as (t1 & b1 & -> & [(-> & Href & Hh)|(Hb0 & t2 & E1 & Hh)]); cbn [mbind option_bind].
    + exists t1, U_MEMORY_ALLOCATION_ERROR. split; [done|]. apply range_refused; [lia|done|done].
    + destruct (Z.ltb_spec b1 0); [lia|]. rewrite E1. cbn [mbind option_bind]. fold b in Hh. replace (b + lo mod 32) with lo in Hh by (unfold b; lia). destruct (h_inv _ _ _ _ Hh) as [fl2 Hinv2].
      destruct (set_blocks_spec n fl2 t2 (b + 32) (hi + 1) v ov Hinv2) as (t3 & e & E3 & Hd); [unfold b; dlia|lia|unfold b; dlia|]. exists t3, e. split; [exact E3|]. apply (range_done_app n t t2 t3 lo (b + 32)); [unfold b; lia|done|done].
  - assert (Hm : (hi + 1) mod 32 = hi + 1 - b) by (unfold b; dlia). rewrite Hm. destruct (part_spec n fl t lo (lo mod 32) (hi + 1 - b) v ov Hinv ltac:(lia) ltac:(lia) ltac:(unfold b; lia)) as (t1 & b1 & -> & [(-> & Href & Hh)|(Hb0 & t2 & E1 & Hh)]); cbn [mbind option_bind].
    + exists t1, U_MEMORY_ALLOCATION_ERROR. split; [done|]. apply range_refused; [lia|done|done].
    + destruct (Z.ltb_spec b1 0); [lia|]. rewrite E1. cbn [mbind option_bind]. exists t2, U_ZERO_ERROR. split; [done|]. right. split; [done|]. fold b in Hh. replace (b + lo mod 32) with lo in Hh by (unfold b; lia). by replace (b + (hi + 1 - b)) with (hi + 1) in Hh by lia.
Qed.
End Heap.
End UTrie2Update.
