(* ===== verification/UTrie2Open.v ===== *)
(** * Opening a trie

    The new trie keeps the invariant, has the initial value everywhere, and has blocks of their own
    for all code points below U+0800; the 16384 values that it starts with are room enough for
    them. *)

From S2P Require Import Prelude Utf16 UTrie2 UTrie2Facts UTrie2Blocks UTrie2Update.

Module UTrie2Open.
Import Utf16 UTrie2 UTrie2Facts UTrie2Blocks UTrie2Update.

(** ** The empty trie *)

Lemma cnt_none n P : (forall i, 0 <= i < Z.of_nat n -> P i = false) -> cnt n P = 0.
Proof. induction n as [|n IH]; intros H; cbn [cnt]; [done|]. rewrite IH, H by (intros; try apply H; lia). done. Qed.

Lemma cnt_only n P s : 0 <= s < Z.of_nat n -> (forall i, 0 <= i < Z.of_nat n -> P i = (i =? s)) -> cnt n P = 1.
Proof. intros Hs HP. rewrite (cnt_update n (fun _ => false) P s Hs); [rewrite cnt_none by done; rewrite HP by done; by rewrite Z.eqb_refl|]. intros i Hi Hne. rewrite HP by done. symmetry. by apply Z.eqb_neq. Qed.

Lemma cnt_from n m P : 0 <= m <= Z.of_nat n -> (forall i, 0 <= i < Z.of_nat n -> P i = (m <=? i)) -> cnt n P = Z.of_nat n - m.
Proof.
  induction n as [|n IH]; intros Hm H; cbn [cnt]; [lia|]. rewrite (H (Z.of_nat n)) by lia. destruct (Z.leb_spec m (Z.of_nat n)).
  - rewrite IH by (lia || (intros; apply H; lia)). cbn [Z.b2z]. lia.
  - rewrite cnt_none; [cbn [Z.b2z]; lia|]. intros i Hi. rewrite H by lia. apply Z.leb_gt. lia.
Qed.

Definition empty_block (s : Z) : Z := if s <? 4 then 32 * s else 192.

(** What is written in the arrays. *)
Record emptied (initial error : Z) (t : UNewTrie2) : Prop := {
  p_len1 : zlen (index1 t) = 544;
  p_len2 : zlen (index2 t) = 35488;
  p_lenm : zlen (map_ t) = 34852;
  p_lend : zlen (data t) = 16384 /\ dataCapacity t = 16384 /\ dataLength t = 256;
  p_index1 : forall i, 0 <= i < 544 -> rd (index1 t) i = if i <? 32 then 64 * i else 2656;
  p_index2 : forall p, 0 <= p < 2720 -> rd (index2 t) p = if p <? 4 then 32 * p else if (2080 <=? p) && (p <? 2656) then -1 else 192;
  p_data : forall p, 0 <= p < 256 -> rd (data t) p = if (128 <=? p) && (p <? 192) then error else initial;
  p_map : forall k, 0 <= k < 8 -> rd (map_ t) k = if k <? 4 then 1 else if k =? 6 then 34845 else 0;
  p_rest : initialValue t = initial /\ errorValue t = error /\ index2Length t = 2720 /\ firstFreeBlock t = 0 /\ index2NullOffset t = 2656 /\ dataNullOffset t = 192 /\ highStart t = 0x110000 /\ isCompacted t = false
}.

Lemma empty_trie_cells `{HP : Heap} initial error d : zlen d = 16384 -> exists t, empty_trie initial error d = Some t /\ emptied initial error t.
Proof.
  intros Hz. unfold empty_trie. destruct (write_cells_rd 0x80 0 initial d) as (d1 & -> & Z1 & D1); [lia|lia|lia|]. cbn [mbind option_bind]. destruct (write_cells_rd 0x40 0x80 error d1) as (d2 & -> & Z2 & D2); [lia|lia|lia|]. cbn [mbind option_bind].
  destruct (write_cells_rd 0x40 UNEWTRIE2_DATA_NULL_OFFSET initial d2) as (d3 & -> & Z3 & D3); [unfold UNEWTRIE2_DATA_NULL_OFFSET; lia|lia|unfold UNEWTRIE2_DATA_NULL_OFFSET; lia|]. cbn [mbind option_bind].
  change (Z.shiftr 0x80 UTRIE2_SHIFT_2) with 4. change (Z.shiftr 0x110000 UTRIE2_SHIFT_2) with 34816. change UNEWTRIE2_MAX_INDEX_2_LENGTH with 35488. change MAP_LENGTH with 34852. change UNEWTRIE2_INDEX_1_LENGTH with 544. cbv zeta.
  set (r2 := replicate (Z.to_nat 35488) junk). set (rm := replicate (Z.to_nat 34852) junk). set (r1 := replicate (Z.to_nat 544) junk).
  assert (zlen r2 = 35488) by (unfold zlen, r2; rewrite length_replicate; lia). assert (zlen rm = 34852) by (unfold zlen, rm; rewrite length_replicate; lia). assert (zlen r1 = 544) by (unfold zlen, r1; rewrite length_replicate; lia). clearbody r2 rm r1.
  destruct (for_write (fun i => i * UTRIE2_DATA_BLOCK_LENGTH) (Z.to_nat 4) 0 r2) as (x1 & -> & ZX1 & X1); [lia|lia|]. cbn [mbind option_bind]. destruct (write_cells_rd 4 0 1 rm) as (m1 & -> & ZM1 & M1); [lia|lia|lia|]. cbn [mbind option_bind].
  destruct (write_cells_rd 2 4 0 m1) as (m2 & -> & ZM2 & M2); [lia|lia|lia|]. cbn [mbind option_bind]. destruct (zset_rd m2 (4 + 2) (34816 - 4 + 1 + UTRIE2_LSCP_INDEX_2_LENGTH)) as (m3 & -> & ZM3 & M3); [lia|]. cbn [mbind option_bind].
  destruct (zset_rd m3 (4 + 3) 0) as (m4 & -> & ZM4 & M4); [lia|]. cbn [mbind option_bind]. destruct (write_cells_rd (UTRIE2_INDEX_2_BMP_LENGTH - 4) 4 UNEWTRIE2_DATA_NULL_OFFSET x1) as (x2 & -> & ZX2 & X2); [lia|unfold UTRIE2_INDEX_2_BMP_LENGTH; lia|unfold UTRIE2_INDEX_2_BMP_LENGTH; lia|]. cbn [mbind option_bind].
  destruct (write_cells_rd UNEWTRIE2_INDEX_GAP_LENGTH UNEWTRIE2_INDEX_GAP_OFFSET (-1) x2) as (x3 & -> & ZX3 & X3); [unfold UNEWTRIE2_INDEX_GAP_OFFSET; lia|unfold UNEWTRIE2_INDEX_GAP_LENGTH; lia|unfold UNEWTRIE2_INDEX_GAP_OFFSET, UNEWTRIE2_INDEX_GAP_LENGTH; lia|]. cbn [mbind option_bind].
  destruct (write_cells_rd UTRIE2_INDEX_2_BLOCK_LENGTH UNEWTRIE2_INDEX_2_NULL_OFFSET UNEWTRIE2_DATA_NULL_OFFSET x3) as (x4 & -> & ZX4 & X4); [unfold UNEWTRIE2_INDEX_2_NULL_OFFSET; lia|unfold UTRIE2_INDEX_2_BLOCK_LENGTH; lia|unfold UNEWTRIE2_INDEX_2_NULL_OFFSET, UTRIE2_INDEX_2_BLOCK_LENGTH; lia|]. cbn [mbind option_bind].
  destruct (for_write (fun i => i * UTRIE2_INDEX_2_BLOCK_LENGTH) (Z.to_nat UTRIE2_OMITTED_BMP_INDEX_1_LENGTH) 0 r1) as (y1 & -> & ZY1 & Y1); [lia|unfold UTRIE2_OMITTED_BMP_INDEX_1_LENGTH; lia|]. cbn [mbind option_bind].
  destruct (write_cells_rd (544 - UTRIE2_OMITTED_BMP_INDEX_1_LENGTH) UTRIE2_OMITTED_BMP_INDEX_1_LENGTH UNEWTRIE2_INDEX_2_NULL_OFFSET y1) as (y2 & -> & ZY2 & Y2); [unfold UTRIE2_OMITTED_BMP_INDEX_1_LENGTH; lia|unfold UTRIE2_OMITTED_BMP_INDEX_1_LENGTH; lia|unfold UTRIE2_OMITTED_BMP_INDEX_1_LENGTH; lia|]. cbn [mbind option_bind].
  unfold UTRIE2_DATA_BLOCK_LENGTH, UTRIE2_INDEX_2_BMP_LENGTH, UNEWTRIE2_DATA_NULL_OFFSET, UNEWTRIE2_INDEX_GAP_LENGTH, UNEWTRIE2_INDEX_GAP_OFFSET, UTRIE2_INDEX_2_BLOCK_LENGTH, UNEWTRIE2_INDEX_2_NULL_OFFSET, UTRIE2_OMITTED_BMP_INDEX_1_LENGTH in *. eexists. split; [done|]. constructor; cbn [index1 index2 data map_ dataCapacity dataLength]; try lia.
  - split; [lia|done].
  - intros i Hi. rewrite Y2, Y1. destruct (Z.ltb_spec i 32), (Z.leb_spec 32 i), (Z.ltb_spec i (32 + (544 - 32))), (Z.leb_spec 0 i), (Z.ltb_spec i (0 + Z.of_nat (Z.to_nat 32))); cbn [andb]; lia.
  - intros p Hp. rewrite X4, X3, X2, X1. destruct (Z.ltb_spec p 4), (Z.leb_spec 2080 p), (Z.ltb_spec p 2656), (Z.leb_spec 2656 p), (Z.ltb_spec p (2656 + 64)), (Z.ltb_spec p (2080 + 576)), (Z.leb_spec 4 p), (Z.ltb_spec p (4 + (2080 - 4))), (Z.leb_spec 0 p), (Z.ltb_spec p (0 + Z.of_nat (Z.to_nat 4))); cbn [andb]; lia.
  - intros p Hp. rewrite D3, D2, D1. destruct (Z.leb_spec 128 p), (Z.ltb_spec p 192), (Z.leb_spec 192 p), (Z.ltb_spec p (192 + 64)), (Z.ltb_spec p (128 + 64)), (Z.leb_spec 0 p), (Z.ltb_spec p (0 + 128)); cbn [andb]; lia.
  - intros k Hk. rewrite M4, M3, M2, M1. unfold UTRIE2_LSCP_INDEX_2_LENGTH. destruct (Z.ltb_spec k 4), (Z.eqb_spec (4 + 3) k), (Z.eqb_spec (4 + 2) k), (Z.eqb_spec k 6), (Z.leb_spec 4 k), (Z.ltb_spec k (4 + 2)), (Z.leb_spec 0 k), (Z.ltb_spec k (0 + 4)); cbn [andb]; lia.
  - done.
Qed.

Section Empty.
Context {initial error : Z} {t : UNewTrie2} (Ht : emptied initial error t).

Lemma empty_blk s : slot s -> blk t s = empty_block s.
Proof.
  intros Hs. unfold blk, empty_block, slot in *. unfold pos, CP_SLOTS. destruct (Z.ltb_spec s 34816).
  - rewrite (p_index1 _ _ _ Ht) by dlia. destruct (Z.ltb_spec (s / 64) 32).
    + rewrite (p_index2 _ _ _ Ht) by dlia. replace (64 * (s / 64) + s mod 64) with s by dlia. destruct (Z.ltb_spec s 4); [done|]. destruct (Z.leb_spec 2080 s); [dlia|done].
    + rewrite (p_index2 _ _ _ Ht) by dlia. destruct (Z.ltb_spec (2656 + s mod 64) 4), (Z.leb_spec 2080 (2656 + s mod 64)), (Z.ltb_spec (2656 + s mod 64) 2656), (Z.ltb_spec s 4); try dlia; done.
  - rewrite (p_index2 _ _ _ Ht) by lia. destruct (Z.ltb_spec (2048 + (s - 34816)) 4), (Z.leb_spec 2080 (2048 + (s - 34816))), (Z.ltb_spec s 4); try lia; done.
Qed.

Lemma empty_uses b : uses t b = if (0 <=? b) && (b <? 128) && (b mod 32 =? 0) then 1 else if b =? 192 then 34844 else 0.
Proof.
  unfold uses. rewrite (cnt_ext nslots _ (fun s => empty_block s =? b)) by (intros i Hi; rewrite nslots_eq in Hi; by rewrite empty_blk). unfold empty_block. destruct ((0 <=? b) && (b <? 128) && (b mod 32 =? 0)) eqn:E.
  - rewrite !andb_true_iff, Z.leb_le, Z.ltb_lt, Z.eqb_eq in E. destruct E as [[E1 E2] E3]. apply (cnt_only nslots _ (b / 32)); [rewrite nslots_eq; dlia|]. intros i Hi. apply eq_true_iff_eq. destruct (Z.ltb_spec i 4); rewrite !Z.eqb_eq; dlia.
  - rewrite !andb_false_iff, Z.leb_gt, Z.ltb_ge, Z.eqb_neq in E. destruct (Z.eqb_spec b 192) as [->|Hn].
    + rewrite (cnt_from nslots 4); [rewrite nslots_eq; lia|rewrite nslots_eq; lia|]. intros i Hi. destruct (Z.ltb_spec i 4), (Z.leb_spec 4 i); try lia; apply Z.eqb_neq; lia.
    + apply cnt_none. intros i Hi. apply Z.eqb_neq. destruct (Z.ltb_spec i 4); dlia.
Qed.

Lemma empty_good b : good t b <-> (0 <= b < 128 /\ b mod 32 = 0) \/ b = 192.
Proof. unfold good. destruct (p_lend _ _ _ Ht) as (_ & _ & ->). dlia. Qed.

Lemma empty_val s j : slot s -> 0 <= j < 32 -> val t s j = initial.
Proof.
  intros Hs Hj. unfold val. rewrite empty_blk by done. unfold empty_block, slot in *. destruct (Z.ltb_spec s 4); rewrite (p_data _ _ _ Ht) by lia.
  - destruct (Z.leb_spec 128 (32 * s + j)); [lia|done].
  - destruct (Z.ltb_spec (192 + j) 192); [lia|]. by rewrite andb_false_r.
Qed.

Lemma inv_empty : inv 4 (-1) [] t.
Proof.
  pose proof (p_lend _ _ _ Ht) as (L1 & L2 & L3). pose proof (p_rest _ _ _ Ht) as (R1 & R2 & R3 & R4 & R5 & R6 & R7 & R8). pose proof empty_blk as Hblk. pose proof empty_uses as Hu. pose proof empty_good as Hg. pose proof (p_map _ _ _ Ht) as Hm. constructor; try (by apply Ht); try done; try lia.
  - intros i Hi. rewrite (p_index1 _ _ _ Ht) by lia. by destruct (Z.ltb_spec i 32); [|lia].
  - intros i Hi. left. rewrite (p_index1 _ _ _ Ht) by lia. by destruct (Z.ltb_spec i 32); [lia|].
  - intros i j Hi Hj _. left. rewrite (p_index1 _ _ _ Ht) by lia. by destruct (Z.ltb_spec i 32); [lia|].
  - rewrite R3, cnt_none; [lia|]. rewrite nsupp_eq. intros i Hi. rewrite (p_index1 _ _ _ Ht) by lia. destruct (Z.ltb_spec (32 + i) 32); [lia|done].
  - intros p Hp. rewrite (p_index2 _ _ _ Ht) by lia. destruct (Z.ltb_spec p 4), (Z.leb_spec 2080 p), (Z.ltb_spec p 2656); try lia; done.
  - intros p Hp. rewrite (p_index2 _ _ _ Ht) by lia. destruct (Z.ltb_spec p 4), (Z.leb_spec 2080 p), (Z.ltb_spec p 2656); try lia; done.
  - split; [lia|by rewrite L3].
  - intros s Hs. rewrite Hg, Hblk by done. unfold empty_block, slot in *. destruct (Z.ltb_spec s 4); [left; split; [lia|dlia]|by right].
  - intros b Hb _. rewrite Hu. apply Hg in Hb. unfold is_null. destruct Hb as [[B1 B2]| ->]; [|change (192 / 32) with 6; rewrite Hm by lia; done]. rewrite Hm by dlia. destruct (Z.leb_spec 0 b), (Z.ltb_spec b 128), (Z.eqb_spec (b mod 32) 0), (Z.eqb_spec b 192), (Z.ltb_spec (b / 32) 4); try dlia; done.
  - apply NoDup_nil_2.
  - intros b. split; [by intros ?%elem_of_nil|]. rewrite Hg, Hu. intros (G & U & N & _). exfalso. destruct G as [[G1 G2]|]; [|done]. destruct (Z.leb_spec 0 b), (Z.ltb_spec b 128), (Z.eqb_spec (b mod 32) 0); try lia; done.
  - intros s Hs. unfold lin. rewrite Hblk by (unfold slot; lia). unfold empty_block. destruct (Z.ltb_spec s 4); [|lia]. split; [done|]. rewrite Hu. destruct (Z.leb_spec 0 (32 * s)), (Z.ltb_spec (32 * s) 128), (Z.eqb_spec ((32 * s) mod 32) 0); try dlia; done.
  - intros s s' Hs Hs' Hne E Hnn. exfalso. rewrite !Hblk in * by done. unfold empty_block in *. destruct (Z.ltb_spec s 4), (Z.ltb_spec s' 4); lia.
  - intros j Hj. rewrite (p_data _ _ _ Ht), R1 by lia. destruct (Z.ltb_spec (192 + j) 192); [lia|]. by rewrite andb_false_r.
  - intros j Hj. rewrite (p_data _ _ _ Ht), R2 by lia. destruct (Z.leb_spec 128 j), (Z.ltb_spec j 192); try lia; done.
Qed.
End Empty.

(** ** The blocks below U+0800 *)

Lemma inv_succ n held fl t : inv n held fl t -> n < 64 -> blk t n = lin n -> uses t (lin n) = 1 -> inv (n + 1) held fl t.
Proof.
  intros Hinv Hn E U. destruct Hinv. constructor; try done; [|lia]. intros s Hs. destruct (Z.eq_dec s n) as [->|]; [done|]. apply i_lin0. lia.
Qed.

(** The first [n] slots have their blocks, in order; all others have the null block. *)
Record fresh (n initial error : Z) (t : UNewTrie2) : Prop := {
  f_inv : exists fl, inv n (-1) fl t;
  f_len : dataLength t = 128 + 32 * n;
  f_val : forall s j, slot s -> 0 <= j < 32 -> val t s j = initial;
  f_rest : forall s, slot s -> n <= s -> blk t s = 192;
  f_init : initialValue t = initial;
  f_error : errorValue t = error;
  f_high : highStart t = 0x110000;
  f_cap : dataCapacity t = 16384
}.

Lemma fresh_empty initial error t : emptied initial error t -> fresh 4 initial error t.
Proof.
  intros Ht. pose proof (p_lend _ _ _ Ht) as (_ & Hcap & L). pose proof (p_rest _ _ _ Ht) as (R1 & R2 & _ & _ & _ & _ & R7 & _). constructor; try done; [by exists []; apply (inv_empty Ht)|intros s j; apply (empty_val Ht)|].
  intros s Hs Hn. rewrite (empty_blk Ht) by done. unfold empty_block. by destruct (Z.ltb_spec s 4); [lia|].
Qed.

(** The next block is at the end. *)
Lemma next_block n fl t : inv n (-1) fl t -> n < 64 -> dataLength t <= 160 + 32 * n -> blk t n <> 192 -> uses t (blk t n) = 1 -> blk t n = lin n.
Proof.
  intros Hinv Hn Hl Hnn Hu. pose proof (i_n _ _ _ _ Hinv). assert (Hs : slot n) by (unfold slot; lia). destruct (i_blk _ _ _ _ Hinv n Hs) as (G1 & G2 & G3 & G4 & G5 & G6).
  assert (Hne : forall i, 0 <= i < n -> blk t n <> lin i). { intros i Hi E. destruct (i_lin _ _ _ _ Hinv i Hi) as [Ei _]. pose proof (uses_two t n i Hs ltac:(unfold slot; lia) ltac:(lia) ltac:(congruence)). lia. }
  unfold lin in *. destruct (Z.ltb_spec n 4); [lia|]. destruct (Z.lt_ge_cases (blk t n) 128) as [Hlt|Hge].
  - specialize (Hne (blk t n / 32) ltac:(dlia)). destruct (Z.ltb_spec (blk t n / 32) 4); dlia.
  - destruct (Z.lt_ge_cases (blk t n) (128 + 32 * n)) as [Hlt|Hge']; [|dlia]. specialize (Hne ((blk t n - 128) / 32) ltac:(dlia)). destruct (Z.ltb_spec ((blk t n - 128) / 32) 4); dlia.
Qed.

Lemma low_slot n : 0 <= n < 64 -> slot_of (n * 32) true = n /\ (n * 32) mod 32 = 0 /\ 0 <= n * 32 <= 0x10ffff.
Proof.
  intros Hn. split; [|split; [dlia|lia]]. unfold slot_of. destruct (U16_IS_LEAD (n * 32)) eqn:E; [|cbn [andb]; dlia]. apply lead_range in E; lia.
Qed.

Section Heap.
Context `{HP : Heap}.

Lemma fresh_step n initial error t : fresh n initial error t -> 4 <= n < 64 -> exists t', set32 t (n * UTRIE2_DATA_BLOCK_LENGTH) true initial = Some (t', U_ZERO_ERROR) /\ fresh (n + 1) initial error t'.
Proof.
  intros [[fl Hinv] Hl Hv Hr Hi He Hh Hcap] Hn. unfold UTRIE2_DATA_BLOCK_LENGTH. destruct (low_slot n ltac:(lia)) as (Es & Em & Hc). assert (Hs : slot n) by (unfold slot; lia).
  destruct (set32_spec n fl t (n * 32) true initial Hinv Hc) as (t' & e & E & [(_ & [_ Hx] & _)|(-> & [Hw [Hn2 Hu] Hrest Hlen])]); [destruct (i_cap _ _ _ _ Hinv) as [?|[?|?]]; lia|]. rewrite Es in *. exists t'. split; [exact E|]. destruct (h_inv _ _ _ _ Hw) as [fl' Hinv'].
  pose proof (next_block n fl' t' Hinv' ltac:(lia) ltac:(lia) Hn2 Hu) as Eb. rewrite Eb in Hu. pose proof (i_blk _ _ _ _ Hinv' n Hs) as (_ & Hend & _). rewrite Eb in Hend. assert (El : lin n = 128 + 32 * n) by (unfold lin; destruct (Z.ltb_spec n 4); lia). constructor.
  - exists fl'. by apply inv_succ; [|lia|..].
  - lia.
  - intros s j Hs' Hj. rewrite (h_val _ _ _ _ Hw s j Hs' Hj). unfold upd. rewrite Hv by done. by destruct (_ && _).
  - intros s Hs' Hns. rewrite Hrest by (done || lia). apply Hr; [done|lia].
  - rewrite (h_init _ _ _ _ Hw). exact Hi.
  - rewrite (h_error _ _ _ _ Hw). exact He.
  - rewrite (h_high _ _ _ _ Hw). exact Hh.
  - destruct (set32_size _ _ _ _ _ _ E) as [-> _]; [lia|exact Hcap].
Qed.

Lemma preallocate_fresh initial error t : fresh 4 initial error t -> exists t', preallocate initial t = Some (t', U_ZERO_ERROR) /\ fresh 64 initial error t'.
Proof.
  intros Ht. unfold preallocate. change (Z.to_nat (Z.shiftr (0x800 - 0x80) UTRIE2_SHIFT_2)) with 60%nat. change (Z.shiftr 0x80 UTRIE2_SHIFT_2) with 4.
  destruct (for_from_inv (fun k p => fresh k initial error p.1 /\ p.2 = U_ZERO_ERROR) (fun i '(t, e) => if U_FAILURE e then Some (t, e) else set32 t (i * UTRIE2_DATA_BLOCK_LENGTH) true initial) 60 4 (t, U_ZERO_ERROR)) as ([t' e] & -> & [Hf He]); [done| |].
  - intros k [u e] Hk [Hf He]. cbn [fst snd] in Hf, He. subst e. cbn [U_FAILURE]. destruct (fresh_step k initial error u Hf ltac:(lia)) as (u' & -> & Hf'). by exists (u', U_ZERO_ERROR).
  - cbn [fst snd] in Hf, He. subst e. by exists t'.
Qed.

(** [utrie2_open] *)
Lemma utrie2_open_spec s1 s2 initial error :
  0 <= s1 <= INT32_MAX -> 0 <= s2 <= INT32_MAX ->
  (refused /\ utrie2_open s1 s2 initial error U_ZERO_ERROR = Some (None, U_MEMORY_ALLOCATION_ERROR)) \/
  exists b, utrie2_open s1 s2 initial error U_ZERO_ERROR = Some (Some (mk_utrie2 [] 0 0 0 0 initial error 0x110000 0 0 None (Building b)), U_ZERO_ERROR) /\ fresh 64 initial error b.
Proof.
  intros H1 H2. unfold utrie2_open. cbn [U_FAILURE]. unfold uprv_malloc. destruct (Z.ltb_spec 0 (4 * UNEWTRIE2_INITIAL_DATA_LENGTH)); [|unfold UNEWTRIE2_INITIAL_DATA_LENGTH in *; lia]. destruct (alloc_ok _) eqn:E1.
  - destruct (alloc_ok s1 && alloc_ok s2) eqn:E2.
    + destruct (empty_trie_cells initial error (replicate (Z.to_nat UNEWTRIE2_INITIAL_DATA_LENGTH) junk)) as (t & -> & Ht); [unfold zlen, UNEWTRIE2_INITIAL_DATA_LENGTH; rewrite length_replicate; lia|]. cbn [mbind option_bind].
      destruct (preallocate_fresh initial error t (fresh_empty initial error t Ht)) as (t' & -> & Hf). cbn [mbind option_bind]. right. by exists t'.
    + left. split; [|done]. apply andb_false_iff in E2 as [E2|E2]; [by exists s1|by exists s2].
  - left. split; [|done]. eexists. split; [|exact E1]. unfold INT32_MAX, UNEWTRIE2_INITIAL_DATA_LENGTH. lia.
Qed.
End Heap.
End UTrie2Open.
