(* ===== verification/UTrie2Freeze.v ===== *)
(** * Compacting, freezing and reading (common/utrie2_builder.cpp, utrie2.cpp, utrie2.h)

    [utrie2_freeze] finds the last range, moves equal and overlapping blocks together and writes
    the index and the values in their final form, which the getter macros read. *)

From S2P Require Import Prelude Utf16 UTrie2.

Module UTrie2Freeze.
Import Utf16 UTrie2.

(** ** Reading a trie *)

(** The cell [data[i]], where the data of a 16-bit trie starts at its index. *)
Definition frozen_data (t : utrie2) (i : Z) : option Z :=
  match t_values t with Building _ => None | In16 => zget (t_index t) i | In32 d => zget d i end.

Definition ascii_offset (t : utrie2) : Z := match t_values t with In16 => t_indexLength t | _ => 0 end.

Definition UTRIE2_INDEX_RAW (t : utrie2) (offset c : Z) : option Z :=
  x ← zget (t_index t) (offset + Z.shiftr c UTRIE2_SHIFT_2); Some (Z.shiftl x UTRIE2_INDEX_SHIFT + Z.land c UTRIE2_DATA_MASK).

Definition LSCP_OFFSET : Z := Eval cbv in UTRIE2_LSCP_INDEX_2_OFFSET - Z.shiftr 0xd800 UTRIE2_SHIFT_2.

Definition UTRIE2_INDEX_FROM_SUPP (t : utrie2) (c : Z) : option Z :=
  i2 ← zget (t_index t) (UTRIE2_INDEX_1_OFFSET - UTRIE2_OMITTED_BMP_INDEX_1_LENGTH + Z.shiftr c UTRIE2_SHIFT_1);
  x ← zget (t_index t) (i2 + Z.land (Z.shiftr c UTRIE2_SHIFT_2) UTRIE2_INDEX_2_MASK);
  Some (Z.shiftl x UTRIE2_INDEX_SHIFT + Z.land c UTRIE2_DATA_MASK).

Definition UTRIE2_INDEX_FROM_CP (t : utrie2) (asciiOffset c : Z) : option Z :=
  if uint32 c <? 0xd800 then UTRIE2_INDEX_RAW t 0 c
  else if uint32 c <=? 0xffff then UTRIE2_INDEX_RAW t (if c <=? 0xdbff then LSCP_OFFSET else 0) c
  else if 0x10ffff <? uint32 c then Some (asciiOffset + UTRIE2_BAD_UTF8_DATA_OFFSET)
  else if t_highStart t <=? c then Some (t_highValueIndex t)
  else UTRIE2_INDEX_FROM_SUPP t c.

Definition UTRIE2_GET (t : utrie2) (c : Z) : option Z := i ← UTRIE2_INDEX_FROM_CP t (ascii_offset t) c; frozen_data t i.
Definition UTRIE2_GET_FROM_U16_SINGLE_LEAD (t : utrie2) (c : Z) : option Z := i ← UTRIE2_INDEX_RAW t 0 c; frozen_data t i.

Definition utrie2_get32 (t : utrie2) (c : Z) : option Z :=
  match t_values t with
  | Building b => if 0x10ffff <? uint32 c then Some (t_errorValue t) else get32 b c true
  | _ => UTRIE2_GET t c
  end.

Definition utrie2_get32FromLeadSurrogateCodeUnit (t : utrie2) (c : Z) : option Z :=
  if negb (U16_IS_LEAD c) then Some (t_errorValue t)
  else match t_values t with Building b => get32 b c false | _ => UTRIE2_GET_FROM_U16_SINGLE_LEAD t c end.

(** ** Equal and overlapping blocks *)

(** [equal_int32(l+s, l+t, n)], [equal_uint32] *)
Fixpoint equal_cells (n : nat) (l : list Z) (s t : Z) : option bool :=
  match n with
  | O => Some true
  | S n => x ← zget l s; y ← zget l t; if x =? y then equal_cells n l (s + 1) (t + 1) else Some false
  end.

(** The first of the places [block], [block+g], ... up to [last] that has the [n] cells of
    [other]; -1 when there is none. *)
Fixpoint find_same (fuel : nat) (l : list Z) (block last other n g : Z) : option Z :=
  if block <=? last then
    match fuel with
    | O => None
    | S fuel => e ← equal_cells (Z.to_nat n) l block other; if (e : bool) then Some block else find_same fuel l (block + g) last other n g
    end
  else Some (-1).

Definition findSameIndex2Block (idx : list Z) (index2Length otherBlock : Z) : option Z :=
  find_same (Z.to_nat index2Length) idx 0 (index2Length - UTRIE2_INDEX_2_BLOCK_LENGTH) otherBlock UTRIE2_INDEX_2_BLOCK_LENGTH 1.
Definition findSameDataBlock (d : list Z) (dataLength otherBlock blockLength : Z) : option Z :=
  find_same (Z.to_nat dataLength) d 0 (dataLength - blockLength) otherBlock blockLength UTRIE2_DATA_GRANULARITY.

(** The longest of the overlaps [g*n], ..., [g] of the end of what is before [newStart] with the
    beginning of the block at [start]. *)
Fixpoint find_overlap (n : nat) (g : Z) (l : list Z) (newStart start : Z) : option Z :=
  match n with
  | O => Some 0
  | S n' =>
      let overlap := g * Z.of_nat n in
      e ← equal_cells (Z.to_nat overlap) l (newStart - overlap) start; if (e : bool) then Some overlap else find_overlap n' g l newStart start
  end.

(** [l[newStart++]=l[start++]], [n] times. *)
Fixpoint move_cells (n : nat) (l : list Z) (newStart start : Z) : option (list Z) :=
  match n with O => Some l | S n => x ← zget l start; l ← zset l newStart x; move_cells n l (newStart + 1) (start + 1) end.

(** Compacting goes on with an array, the map of the blocks, and the end of what is compacted. *)
Definition packing : Type := list Z * list Z * Z.

(** One block of [compactData] or of [compactIndex2]: the map gets the new place of the [count]
    blocks that start at [k]. *)
Definition place_block (find : list Z -> Z -> Z -> option Z) (blockLength g k count : Z) (start : Z) (p : packing) : option packing :=
  let '(l, m, newStart) := p in
  let enter (place : Z) := for_from (Z.to_nat count) 0 (fun i m => zset m (k + i) (place + i * UTRIE2_DATA_BLOCK_LENGTH)) m in
  movedStart ← find l newStart start;
  if 0 <=? movedStart then m ← enter movedStart; Some (l, m, newStart)
  else
    overlap ← find_overlap (Z.to_nat (blockLength / g - 1)) g l newStart start;
    if (0 <? overlap) || (newStart <? start) then
      m ← enter (newStart - overlap);
      l ← move_cells (Z.to_nat (blockLength - overlap)) l newStart (start + overlap);
      Some (l, m, newStart + (blockLength - overlap))
    else m ← enter start; Some (l, m, start + blockLength).

(** [while((newStart&3)!=0) l[newStart++]=value;] *)
Fixpoint pad (fuel : nat) (value : Z) (l : list Z) (newStart : Z) : option (list Z * Z) :=
  if Z.land newStart (UTRIE2_DATA_GRANULARITY - 1) =? 0 then Some (l, newStart)
  else match fuel with O => None | S fuel => l ← zset l newStart value; pad fuel value l (newStart + 1) end.

(** ** The last range *)

(** The code point reached, and whether it is returned. *)
Fixpoint hs_cells (n : nat) (d : list Z) (highValue block c : Z) : option (Z * bool) :=
  match n with
  | O => Some (c, false)
  | S j => value ← zget d (block + Z.of_nat j); if value =? highValue then hs_cells j d highValue block (c - 1) else Some (c, true)
  end.

Fixpoint hs_blocks (n : nat) (t : UNewTrie2) (highValue i2Block c prevBlock : Z) : option (Z * Z * bool) :=
  match n with
  | O => Some (c, prevBlock, false)
  | S i2 =>
      block ← zget (index2 t) (i2Block + Z.of_nat i2);
      if block =? prevBlock then hs_blocks i2 t highValue i2Block (c - UTRIE2_DATA_BLOCK_LENGTH) prevBlock
      else if block =? dataNullOffset t then
        if highValue =? initialValue t then hs_blocks i2 t highValue i2Block (c - UTRIE2_DATA_BLOCK_LENGTH) block else Some (c, block, true)
      else
        '(c, stop) ← hs_cells (Z.to_nat UTRIE2_DATA_BLOCK_LENGTH) (data t) highValue block c;
        if (stop : bool) then Some (c, block, true) else hs_blocks i2 t highValue i2Block c block
  end.

Fixpoint hs_index (n : nat) (t : UNewTrie2) (highValue c prevI2Block prevBlock : Z) : option Z :=
  if 0 <? c then
    match n with
    | O => None
    | S i1 =>
        i2Block ← zget (index1 t) (Z.of_nat i1);
        if i2Block =? prevI2Block then hs_index i1 t highValue (c - UTRIE2_CP_PER_INDEX_1_ENTRY) prevI2Block prevBlock
        else if i2Block =? index2NullOffset t then
          if highValue =? initialValue t then hs_index i1 t highValue (c - UTRIE2_CP_PER_INDEX_1_ENTRY) i2Block prevBlock else Some c
        else
          '(c, prevBlock, stop) ← hs_blocks (Z.to_nat UTRIE2_INDEX_2_BLOCK_LENGTH) t highValue i2Block c prevBlock;
          if (stop : bool) then Some c else hs_index i1 t highValue c i2Block prevBlock
    end
  else Some 0.

Definition findHighStart (t : UNewTrie2) (highValue : Z) : option Z :=
  let '(prevI2Block, prevBlock) := if highValue =? initialValue t then (index2NullOffset t, dataNullOffset t) else (-1, -1) in
  hs_index (Z.to_nat UNEWTRIE2_INDEX_1_LENGTH) t highValue 0x110000 prevI2Block prevBlock.

(** ** Compacting *)

Fixpoint data_loop (fuel : nat) (dataLength start blockLength : Z) (p : packing) : option packing :=
  if start <? dataLength then
    match fuel with
    | O => None
    | S fuel =>
        let blockLength := if start =? UNEWTRIE2_DATA_0800_OFFSET then UTRIE2_DATA_BLOCK_LENGTH else blockLength in
        let '(l, m, newStart) := p in
        uses ← zget m (Z.shiftr start UTRIE2_SHIFT_2);
        if uses <=? 0 then data_loop fuel dataLength (start + blockLength) blockLength p
        else
          p ← place_block (fun l newStart start => findSameDataBlock l newStart start blockLength) blockLength UTRIE2_DATA_GRANULARITY
                (Z.shiftr start UTRIE2_SHIFT_2) (Z.shiftr blockLength UTRIE2_SHIFT_2) start p;
          data_loop fuel dataLength (start + blockLength) blockLength p
    end
  else Some p.

(** [for(i=0; i<trie->index2Length; ++i)], with the skip over the gap. *)
Fixpoint adjust_loop (fuel : nat) (m : list Z) (len i : Z) (x : list Z) : option (list Z) :=
  if i <? len then
    match fuel with
    | O => None
    | S fuel =>
        let i := if i =? UNEWTRIE2_INDEX_GAP_OFFSET then i + UNEWTRIE2_INDEX_GAP_LENGTH else i in
        b ← zget x i; b ← zget m (Z.shiftr b UTRIE2_SHIFT_2); x ← zset x i b; adjust_loop fuel m len (i + 1) x
    end
  else Some x.

Definition compactData (t : UNewTrie2) : option UNewTrie2 :=
  let newStart := UTRIE2_DATA_START_OFFSET in
  m ← for_from (Z.to_nat (Z.shiftr newStart UTRIE2_SHIFT_2)) 0 (fun i m => zset m i (i * UTRIE2_DATA_BLOCK_LENGTH)) (map_ t);
  '(d, m, newStart) ← data_loop (Z.to_nat (dataLength t)) (dataLength t) newStart 64 (data t, m, newStart);
  x ← adjust_loop (Z.to_nat (index2Length t)) m (index2Length t) 0 (index2 t);
  null ← zget m (Z.shiftr (dataNullOffset t) UTRIE2_SHIFT_2);
  '(d, newStart) ← pad (Z.to_nat UTRIE2_DATA_GRANULARITY) (initialValue t) d newStart;
  Some (set_dataLength (set_data (set_nulls (set_index2 (set_map t m) x) (index2NullOffset t) null) d) newStart).

Fixpoint index2_loop (fuel : nat) (len start : Z) (p : packing) : option packing :=
  if start <? len then
    match fuel with
    | O => None
    | S fuel => p ← place_block findSameIndex2Block UTRIE2_INDEX_2_BLOCK_LENGTH 1 (Z.shiftr start UTRIE2_SHIFT_1_2) 1 start p; index2_loop fuel len (start + UTRIE2_INDEX_2_BLOCK_LENGTH) p
    end
  else Some p.

Definition compactIndex2 (t : UNewTrie2) : option UNewTrie2 :=
  m ← for_from (Z.to_nat ((UTRIE2_INDEX_2_BMP_LENGTH + UTRIE2_INDEX_2_MASK) / UTRIE2_INDEX_2_BLOCK_LENGTH)) 0 (fun i m => zset m i (i * UTRIE2_INDEX_2_BLOCK_LENGTH)) (map_ t);
  let newStart := UTRIE2_INDEX_2_BMP_LENGTH + (UTRIE2_UTF8_2B_INDEX_2_LENGTH + Z.shiftr (highStart t - 0x10000) UTRIE2_SHIFT_1) in
  '(x, m, newStart) ← index2_loop (Z.to_nat (index2Length t)) (index2Length t) UNEWTRIE2_INDEX_2_NULL_OFFSET (index2 t, m, newStart);
  i1 ← for_from (Z.to_nat UNEWTRIE2_INDEX_1_LENGTH) 0 (fun i l => b ← zget l i; b ← zget m (Z.shiftr b UTRIE2_SHIFT_1_2); zset l i b) (index1 t);
  null ← zget m (Z.shiftr (index2NullOffset t) UTRIE2_SHIFT_1_2);
  '(x, newStart) ← pad (Z.to_nat UTRIE2_DATA_GRANULARITY) (Z.shiftl 0xffff UTRIE2_INDEX_SHIFT) x newStart;
  Some (set_index2Length (set_index2 (set_nulls (set_index1 (set_map t m) i1) null (dataNullOffset t)) x) newStart).

Section Freeze.
Context `{HP : Heap}.

(** Storing the high value and rounding up the length: nothing compares the length with the
    capacity. *)
Definition store_high (t : UNewTrie2) (highValue initial : Z) : option UNewTrie2 :=
  d ← zset (data t) (dataLength t) highValue;
  '(d, n) ← pad (Z.to_nat UTRIE2_DATA_GRANULARITY) initial d (dataLength t + 1);
  Some (set_dataLength (set_data t d) n).

Definition compactTrie (t : utrie2) (b : UNewTrie2) : option (utrie2 * UNewTrie2 * UErrorCode) :=
  highValue ← utrie2_get32 t 0x10ffff;
  h ← findHighStart b highValue;
  let h := Z.land (h + (UTRIE2_CP_PER_INDEX_1_ENTRY - 1)) (Z.lnot (UTRIE2_CP_PER_INDEX_1_ENTRY - 1)) in
  let highValue := if h =? 0x110000 then t_errorValue t else highValue in
  let t := set_t_highStart t h in
  let b := set_highStart b h in
  '(b, e) ← (if h <? 0x110000 then setRange32 b (if h <=? 0x10000 then 0x10000 else h) 0x10ffff (t_initialValue t) true else Some (b, U_ZERO_ERROR));
  if U_FAILURE e then Some (t, b, e)
  else
    b ← compactData b;
    b ← (if 0x10000 <? h then compactIndex2 b else Some b);
    b ← store_high b highValue (t_initialValue t);
    Some (t, set_isCompacted b true, U_ZERO_ERROR).

(** ** Freezing *)

Inductive UTrie2ValueBits := UTRIE2_16_VALUE_BITS | UTRIE2_32_VALUE_BITS.
#[export] Instance UTrie2ValueBits_eq_dec : EqDecision UTrie2ValueBits.
Proof. solve_decision. Defined.

Definition UTRIE2_SIG : Z := 0x54726932.
Definition UTRIE2_MAX_INDEX_LENGTH : Z := 0xffff.
Definition UTRIE2_MAX_DATA_LENGTH : Z := Eval cbv in Z.shiftl 0xffff UTRIE2_INDEX_SHIFT.
Definition sizeof_UTrie2Header : Z := 16.

Definition shifted (dataMove x : Z) : Z := uint16 (Z.shiftr (dataMove + x) UTRIE2_INDEX_SHIFT).

(** The index array. *)
Definition frozen_index (b : UNewTrie2) (highStart dataMove : Z) : option (list Z) :=
  bmp ← cells_at (index2 b) 0 UTRIE2_INDEX_2_BMP_LENGTH;
  two ← mapM (fun i => x ← zget (index2 b) (Z.shiftl i (6 - UTRIE2_SHIFT_2)); Some (uint16 (dataMove + x))) (seqZ 2 (0xe0 - 0xc0 - 2));
  supp ← (if 0x10000 <? highStart then
            let index1Length := Z.shiftr (highStart - 0x10000) UTRIE2_SHIFT_1 in
            let index2Offset := UTRIE2_INDEX_2_BMP_LENGTH + UTRIE2_UTF8_2B_INDEX_2_LENGTH + index1Length in
            i1 ← cells_at (index1 b) UTRIE2_OMITTED_BMP_INDEX_1_LENGTH index1Length;
            i2 ← cells_at (index2 b) index2Offset (index2Length b - index2Offset);
            Some (map (fun x => uint16 (UTRIE2_INDEX_2_OFFSET + x)) i1 ++ map (shifted dataMove) i2)
          else Some []);
  Some (map (shifted dataMove) bmp ++ replicate (Z.to_nat (0xc2 - 0xc0)) (uint16 (dataMove + UTRIE2_BAD_UTF8_DATA_OFFSET)) ++ two ++ supp).

(** From the compacted trie [b]. *)
Definition write_frozen (t : utrie2) (b : UNewTrie2) (valueBits : UTrie2ValueBits) : option (utrie2 * UErrorCode) :=
  let h := t_highStart t in
  let allIndexesLength := if h <=? 0x10000 then UTRIE2_INDEX_1_OFFSET else index2Length b in
  let dataMove := match valueBits with UTRIE2_16_VALUE_BITS => allIndexesLength | UTRIE2_32_VALUE_BITS => 0 end in
  if (UTRIE2_MAX_INDEX_LENGTH <? allIndexesLength) || (0xffff <? dataMove + dataNullOffset b) || (0xffff <? dataMove + UNEWTRIE2_DATA_0800_OFFSET)
     || (UTRIE2_MAX_DATA_LENGTH <? dataMove + dataLength b) then Some (set_values t (Building b), U_INDEX_OUTOFBOUNDS_ERROR)
  else
    let length := sizeof_UTrie2Header + allIndexesLength * 2 + dataLength b * match valueBits with UTRIE2_16_VALUE_BITS => 2 | UTRIE2_32_VALUE_BITS => 4 end in
    if negb (alloc_ok length) then Some (set_values t (Building b), U_MEMORY_ALLOCATION_ERROR)
    else
      let i2n := if h <=? 0x10000 then 0xffff else uint16 (UTRIE2_INDEX_2_OFFSET + index2NullOffset b) in
      let dn := uint16 (dataMove + dataNullOffset b) in
      let header := mk_header UTRIE2_SIG (match valueBits with UTRIE2_16_VALUE_BITS => 0 | UTRIE2_32_VALUE_BITS => 1 end) (uint16 allIndexesLength)
                      (uint16 (Z.shiftr (dataLength b) UTRIE2_INDEX_SHIFT)) i2n dn (uint16 (Z.shiftr h UTRIE2_SHIFT_1)) in
      index ← frozen_index b h dataMove;
      d ← cells_at (data b) 0 (dataLength b);
      let frozen index values := mk_utrie2 index allIndexesLength (dataLength b) i2n dn (t_initialValue t) (t_errorValue t) h (dataMove + dataLength b - UTRIE2_DATA_GRANULARITY) length (Some header) values in
      Some (match valueBits with UTRIE2_16_VALUE_BITS => frozen (index ++ map uint16 d) In16 | UTRIE2_32_VALUE_BITS => frozen index (In32 d) end, U_ZERO_ERROR).

Definition utrie2_freeze (t : utrie2) (valueBits : UTrie2ValueBits) (e : UErrorCode) : option (utrie2 * UErrorCode) :=
  if U_FAILURE e then Some (t, e)
  else match t_values t with
       | In16 => Some (t, if decide (valueBits = UTRIE2_16_VALUE_BITS) then U_ZERO_ERROR else U_ILLEGAL_ARGUMENT_ERROR)
       | In32 _ => Some (t, if decide (valueBits = UTRIE2_32_VALUE_BITS) then U_ZERO_ERROR else U_ILLEGAL_ARGUMENT_ERROR)
       | Building b =>
           '(t, b, e) ← (if isCompacted b then Some (t, b, U_ZERO_ERROR) else compactTrie t b);
           if U_FAILURE e then Some (set_values t (Building b), e) else write_frozen t b valueBits
       end.
End Freeze.
End UTrie2Freeze.
