(* ===== verification/UTrie2Pack.v ===== *)
(** * Packing blocks

    What one step of compaction does to an array: the cells that are compacted already and those
    that come later stay, and the block can be read at its new place. *)

From S2P Require Import Prelude UTrie2 UTrie2Facts UTrie2Freeze.

Module UTrie2Pack.
Import UTrie2 UTrie2Facts UTrie2Freeze.

(** [n] cells from [s] on are those from [t] on. *)
Definition same_cells (l : list Z) (n s t : Z) : Prop := forall j, 0 <= j < n -> rd l (s + j) = rd l (t + j).

Lemma equal_cells_spec n l s t :
  0 <= s -> 0 <= t -> s + Z.of_nat n <= zlen l -> t + Z.of_nat n <= zlen l -> exists e, equal_cells n l s t = Some e /\ (e = true <-> same_cells l (Z.of_nat n) s t).
Proof.
  revert s t. induction n as [|n IH]; intros s t Hs Ht Hsl Htl; cbn [equal_cells].
  - exists true. split; [done|]. split; [|done]. intros _ j Hj. lia.
  - rewrite !zget_rd by lia. cbn [mbind option_bind]. destruct (Z.eqb_spec (rd l s) (rd l t)) as [E|E].
    + destruct (IH (s + 1) (t + 1)) as (e & -> & He); [lia|lia|lia|lia|]. exists e. split; [done|]. rewrite He. split; intros H j Hj.
      * destruct (Z.eq_dec j 0) as [->|]; [by rewrite !Z.add_0_r|]. specialize (H (j - 1) ltac:(lia)). by replace (s + 1 + (j - 1)) with (s + j) in H by lia; replace (t + 1 + (j - 1)) with (t + j) in H by lia.
      * specialize (H (j + 1) ltac:(lia)). by replace (s + 1 + j) with (s + (j + 1)) by lia; replace (t + 1 + j) with (t + (j + 1)) by lia.
    + exists false. split; [done|]. split; [done|]. intros H. specialize (H 0 ltac:(lia)). by rewrite !Z.add_0_r in H.
Qed.

Lemma find_same_spec fuel l block last other n g :
  0 <= block -> 0 < n -> 0 < g -> block mod g = 0 -> last + n <= zlen l -> 0 <= other -> other + n <= zlen l -> last - block < Z.of_nat fuel ->
  exists r, find_same fuel l block last other n g = Some r /\ (r = -1 \/ block <= r <= last /\ r mod g = 0 /\ same_cells l n r other).
Proof.
  revert block. induction fuel as [|fuel IH]; intros block Hb Hn Hg Hm Hl Ho Hol Hf; cbn [find_same]; (destruct (Z.leb_spec block last); [|exists (-1); split; [done|by left]]); [lia|].
  destruct (equal_cells_spec (Z.to_nat n) l block other) as (e & -> & He); [done|done|lia|lia|]. rewrite Z2Nat.id in He by lia. cbn [mbind option_bind]. destruct e.
  - exists block. split; [done|]. right. split; [lia|]. split; [done|by apply He].
  - destruct (IH (block + g)) as (r & -> & Hr); try done; [lia| |lia|].
    + rewrite <- Z.add_mod_idemp_l, Hm, Z.add_0_l, Z.mod_same by lia. done.
    + exists r. split; [done|]. destruct Hr as [?|(H1 & H2)]; [by left|right]. split; [lia|done].
Qed.

Lemma find_overlap_spec n g l ns st :
  0 < g -> 0 <= ns - g * Z.of_nat n -> ns <= zlen l -> 0 <= st -> st + g * Z.of_nat n <= zlen l ->
  exists r, find_overlap n g l ns st = Some r /\ 0 <= r <= g * Z.of_nat n /\ r mod g = 0 /\ same_cells l r (ns - r) st.
Proof.
  intros Hg. induction n as [|n IH]; intros Hn Hz Hs Hl; cbn [find_overlap].
  - exists 0. split; [done|]. split; [lia|]. split; [apply Z.mod_0_l; lia|]. intros j Hj. lia.
  - set (o := g * Z.of_nat (S n)) in *. assert (0 <= o) by (unfold o; lia). destruct (equal_cells_spec (Z.to_nat o) l (ns - o) st) as (e & -> & He); [lia|lia|lia|lia|]. rewrite Z2Nat.id in He by lia. cbn [mbind option_bind]. destruct e.
    + exists o. split; [done|]. split; [lia|]. split; [unfold o; rewrite Z.mul_comm; apply Z.mod_mul; lia|by apply He].
    + destruct IH as (r & -> & Hr & Hmr); [lia|lia|lia|lia|]. exists r. split; [done|]. split; [unfold o; lia|done].
Qed.

Lemma move_cells_spec n l ns st :
  0 <= ns <= st -> st + Z.of_nat n <= zlen l -> exists l', move_cells n l ns st = Some l' /\ zlen l' = zlen l /\ forall p, rd l' p = if (ns <=? p) && (p <? ns + Z.of_nat n) then rd l (p - ns + st) else rd l p.
Proof.
  revert l ns st. induction n as [|n IH]; intros l ns st Hns Hl; cbn [move_cells].
  - exists l. split; [done|]. split; [done|]. intros p. destruct (Z.leb_spec ns p), (Z.ltb_spec p (ns + Z.of_nat 0)); try lia; done.
  - rewrite zget_rd by lia. cbn [mbind option_bind]. destruct (zset_rd l ns (rd l st)) as (l1 & -> & Hz1 & H1); [lia|]. cbn [mbind option_bind]. destruct (IH l1 (ns + 1) (st + 1)) as (l' & -> & Hz & H); [lia|lia|]. exists l'. split; [done|]. split; [lia|]. intros p. rewrite H, !H1.
    destruct (Z.leb_spec (ns + 1) p), (Z.ltb_spec p (ns + 1 + Z.of_nat n)), (Z.leb_spec ns p), (Z.ltb_spec p (ns + Z.of_nat (S n))); try lia; cbn [andb].
    + destruct (Z.eqb_spec ns (p - (ns + 1) + (st + 1))); [lia|]. f_equal. lia.
    + destruct (Z.eqb_spec ns p); [lia|done].
    + destruct (Z.eqb_spec ns p) as [->|]; [|lia]. f_equal. lia.
    + destruct (Z.eqb_spec ns p); [lia|done].
Qed.

(** [pad] writes up to the next multiple of four. *)
Lemma pad_spec v l ns : 0 <= ns -> 4 * ((ns + 3) / 4) <= zlen l -> exists l', pad (Z.to_nat UTRIE2_DATA_GRANULARITY) v l ns = Some (l', 4 * ((ns + 3) / 4)) /\ zlen l' = zlen l /\ forall p, p < ns -> rd l' p = rd l p.
Proof.
  assert (Hgen : forall fuel l ns, 0 <= ns -> 4 * ((ns + 3) / 4) - ns <= Z.of_nat fuel -> 4 * ((ns + 3) / 4) <= zlen l -> exists l', pad fuel v l ns = Some (l', 4 * ((ns + 3) / 4)) /\ zlen l' = zlen l /\ forall p, p < ns -> rd l' p = rd l p).
  { clear. induction fuel as [|fuel IH]; intros l ns Hns Hf Hz; cbn [pad]; unfold UTRIE2_DATA_GRANULARITY; change (4 - 1) with (Z.ones 2); rewrite Z.land_ones by lia; change (2 ^ 2) with 4; (destruct (Z.eqb_spec (ns mod 4) 0) as [E|E]; [exists l; split; [do 2 f_equal; dlia|done]|]); [dlia|].
    destruct (zset_rd l ns v) as (l1 & -> & Hz1 & H1); [dlia|]. cbn [mbind option_bind]. assert (E4 : 4 * ((ns + 1 + 3) / 4) = 4 * ((ns + 3) / 4)) by dlia. destruct (IH l1 (ns + 1)) as (l' & -> & Hz' & H'); [lia|lia|lia|]. rewrite E4. exists l'. split; [done|]. split; [lia|].
    intros p Hp. rewrite H', H1 by lia. destruct (Z.eqb_spec ns p); [lia|done]. }
  intros Hns Hz. apply Hgen; [done| |done]. unfold UTRIE2_DATA_GRANULARITY. dlia.
Qed.

(** What [find] in [place_block] has to do. *)
Definition finds (find : list Z -> Z -> Z -> option Z) (n g : Z) : Prop :=
  forall l ns start, n <= ns <= start -> start + n <= zlen l -> exists r, find l ns start = Some r /\ (r = -1 \/ 0 <= r /\ r + n <= ns /\ r mod g = 0 /\ same_cells l n r start).

Lemma finds_data n : 0 < n -> finds (fun l ns start => findSameDataBlock l ns start n) n 4.
Proof.
  intros Hn l ns start Hns Hl. destruct (find_same_spec (Z.to_nat ns) l 0 (ns - n) start n 4) as (r & E & Hr); [lia|lia|lia|done|lia|lia|lia|lia|]. exists r. split; [exact E|]. destruct Hr as [?|(H1 & H2 & H3)]; [by left|right]. split; [lia|]. split; [lia|done].
Qed.

Lemma finds_index2 : finds findSameIndex2Block 64 1.
Proof.
  intros l ns start Hns Hl. destruct (find_same_spec (Z.to_nat ns) l 0 (ns - 64) start 64 1) as (r & E & Hr); [lia|lia|lia|done|lia|lia|lia|lia|]. exists r. split; [exact E|]. destruct Hr as [?|(H1 & H2 & H3)]; [by left|right]. split; [lia|]. split; [lia|done].
Qed.

(** The block at [start] has been packed to [place]. *)
Record packed (n g k count start place : Z) (p p' : packing) : Prop := {
  k_zlen : zlen p'.1.1 = zlen p.1.1;
  k_zmap : zlen p'.1.2 = zlen p.1.2;
  k_top : p.2 <= p'.2 <= start + n;
  k_mod : p'.2 mod g = 0;
  k_before : forall q, q < p.2 -> rd p'.1.1 q = rd p.1.1 q;
  k_after : forall q, start + n <= q -> rd p'.1.1 q = rd p.1.1 q;
  k_place : 0 <= place /\ place + n <= p'.2 /\ place mod g = 0;
  k_cells : forall j, 0 <= j < n -> rd p'.1.1 (place + j) = rd p.1.1 (start + j);
  k_map : forall i, rd p'.1.2 i = if (k <=? i) && (i <? k + count) then place + (i - k) * 32 else rd p.1.2 i
}.

Lemma place_block_spec find n g k count start l m ns :
  finds find n g -> 0 < g -> n mod g = 0 -> 0 < n -> n <= ns <= start -> ns mod g = 0 -> start mod g = 0 -> start + n <= zlen l -> 0 <= k -> 0 <= count -> k + count <= zlen m ->
  exists p' place, place_block find n g k count start (l, m, ns) = Some p' /\ packed n g k count start place (l, m, ns) p'.
Proof.
  intros Hfind Hg Hng Hn Hns Hnsg Hstg Hl Hk Hc Hm. unfold place_block.
  assert (Henter : forall place, exists m', for_from (Z.to_nat count) 0 (fun i m => zset m (k + i) (place + i * UTRIE2_DATA_BLOCK_LENGTH)) m = Some m' /\ zlen m' = zlen m /\ forall i, rd m' i = if (k <=? i) && (i <? k + count) then place + (i - k) * 32 else rd m i).
  { intros place. destruct (for_from_inv (fun q m' => zlen m' = zlen m /\ forall i, rd m' i = if (k <=? i) && (i <? k + q) then place + (i - k) * 32 else rd m i) (fun i m => zset m (k + i) (place + i * UTRIE2_DATA_BLOCK_LENGTH)) (Z.to_nat count) 0 m) as (m' & E & Hz' & Hm').
    - split; [done|]. intros i. destruct (Z.leb_spec k i), (Z.ltb_spec i (k + 0)); try lia; done.
    - intros q m1 Hq [Hz1 H1]. destruct (zset_rd m1 (k + q) (place + q * UTRIE2_DATA_BLOCK_LENGTH)) as (m2 & E2 & Hz2 & H2); [lia|]. exists m2. split; [done|]. split; [lia|]. intros i. rewrite H2, H1. unfold UTRIE2_DATA_BLOCK_LENGTH.
      destruct (Z.eqb_spec (k + q) i), (Z.leb_spec k i), (Z.ltb_spec i (k + (q + 1))), (Z.ltb_spec i (k + q)); cbn [andb]; try lia; done.
    - exists m'. split; [exact E|]. split; [done|]. rewrite Z.add_0_l, Z2Nat.id in Hm' by done. exact Hm'. }
  destruct (Hfind l ns start Hns Hl) as (r & -> & Hr). cbn [mbind option_bind]. destruct (Z.leb_spec 0 r) as [H0|H0].
  - destruct Hr as [?|(_ & R1 & R2 & R3)]; [lia|]. destruct (Henter r) as (m' & -> & Hz' & Hm'). cbn [mbind option_bind]. exists (l, m', ns), r. split; [done|]. constructor; cbn [fst snd]; try done; lia.
  - pose proof (Z.div_mod n g ltac:(lia)) as Hdiv. assert (Hq : 1 <= n / g) by (destruct (Z.lt_ge_cases 0 (n / g)); nia). assert (Hq' : g * Z.of_nat (Z.to_nat (n / g - 1)) = n - g) by (rewrite Z2Nat.id by lia; lia).
    destruct (find_overlap_spec (Z.to_nat (n / g - 1)) g l ns start Hg) as (o & -> & Ho & Hog & Hsame); [lia|lia|lia|lia|]. cbn [mbind option_bind]. rewrite Hq' in Ho. destruct (Z.ltb_spec 0 o) as [Hpos|Hzero], (Z.ltb_spec ns start) as [Hlt|Heq]; cbn [orb].
    4: { destruct (Henter start) as (m' & -> & Hz' & Hm'). cbn [mbind option_bind]. exists (l, m', start + n), start. split; [done|]. constructor; cbn [fst snd]; try done; try lia. rewrite <- Z.add_mod_idemp_l, Hstg, Z.add_0_l by lia. done. }
    all: destruct (Henter (ns - o)) as (m' & -> & Hz' & Hm'); cbn [mbind option_bind]; destruct (move_cells_spec (Z.to_nat (n - o)) l ns (start + o)) as (l' & -> & Hzl & Hl'); [lia|lia|]; cbn [mbind option_bind]; rewrite Z2Nat.id in Hl' by lia; exists (l', m', ns + (n - o)), (ns - o); (split; [done|]); constructor; cbn [fst snd]; try done; try lia.
    all: try (rewrite Z.add_sub_assoc, <- Zminus_mod_idemp_r, Hog, Z.sub_0_r, <- Z.add_mod_idemp_l, Hnsg by lia; done).
    all: try (split_and!; [lia|lia|rewrite <- Zminus_mod_idemp_r, Hog, Z.sub_0_r; done]).
    all: try (intros q Hq2; rewrite Hl'; destruct (Z.leb_spec ns q), (Z.ltb_spec q (ns + (n - o))); try lia; done).
    all: intros j Hj; rewrite Hl'; destruct (Z.leb_spec ns (ns - o + j)), (Z.ltb_spec (ns - o + j) (ns + (n - o))); try lia; cbn [andb]; first [apply Hsame; lia|f_equal; lia].
Qed.
End UTrie2Pack.
