(* ===== verification/UTrie2Data.v ===== *)
(** * Compacting the data of a trie

    [compactData] moves the blocks that are in use; every index-2 entry then points to the same
    32 values as before, at a multiple of four, and the two blocks of a two-byte UTF-8 lead byte
    stay together. *)

From S2P Require Import Prelude Utf16 UTrie2 UTrie2Facts UTrie2Blocks UTrie2Freeze UTrie2Pack.

Module UTrie2Data.
Import Utf16 UTrie2 UTrie2Facts UTrie2Blocks UTrie2Freeze UTrie2Pack.

(** ** The entries of the index-2 table *)

Lemma cnt_le_one n P : (forall i j, 0 <= i < Z.of_nat n -> 0 <= j < Z.of_nat n -> P i = true -> P j = true -> i = j) -> cnt n P <= 1.
Proof.
  intros H. destruct (Z.le_gt_cases (cnt n P) 1) as [|Hgt]; [done|]. destruct (cnt_witness n P ltac:(lia)) as (s & Hs & E). set (Q := fun i => if i =? s then false else P i).
  assert (Hq : cnt n Q = cnt n P - 1) by (rewrite (cnt_update n P Q s Hs); [unfold Q; rewrite Z.eqb_refl, E; cbn [Z.b2z]; lia|intros i _ Hi; unfold Q; by destruct (Z.eqb_spec i s)]).
  destruct (cnt_witness n Q ltac:(lia)) as (s' & Hs' & E'). unfold Q in E'. destruct (Z.eqb_spec s' s) as [|Hne]; [done|]. by destruct Hne; apply H.
Qed.

(** A value of each class is taken when there are as many elements as that needs. *)
Lemma pigeon n m (c : Z -> Z) k :
  0 <= k < Z.of_nat m -> (forall i, 0 <= i < Z.of_nat n -> 0 <= c i <= Z.of_nat m) -> (forall i j, 0 <= i < Z.of_nat n -> 0 <= j < Z.of_nat n -> c i = c j -> c i = Z.of_nat m \/ i = j) ->
  cnt n (fun i => negb (c i =? Z.of_nat m)) = Z.of_nat m -> exists i, 0 <= i < Z.of_nat n /\ c i = k.
Proof.
  intros Hk Hc Hinj Hm. destruct (Z.eq_dec (cnt n (fun i => c i =? k)) 0) as [E0|Hne]; [exfalso|].
  - pose proof (cnt_classes (S m) n c) as Hsum. cbn [total] in Hsum. assert (Hlast : cnt n (fun i => c i =? Z.of_nat m) = Z.of_nat n - Z.of_nat m).
    { assert (Hcompl : cnt n (fun i => c i =? Z.of_nat m) + cnt n (fun i => negb (c i =? Z.of_nat m)) = Z.of_nat n); [|lia]. clear. induction n as [|n IH]; cbn [cnt]; [done|]. destruct (c (Z.of_nat n) =? Z.of_nat m); cbn [negb Z.b2z]; lia. }
    assert (Hle : total m (fun q => cnt n (fun i => c i =? q)) <= total m (fun q => 1 + - Z.b2z (q =? k))).
    { apply total_le. intros q Hq. destruct (Z.eqb_spec q k) as [->|]; cbn [Z.b2z]; [lia|]. apply cnt_le_one. intros i j Hi Hj Ei Ej. apply Z.eqb_eq in Ei, Ej. destruct (Hinj i j Hi Hj ltac:(congruence)); [lia|done]. }
    rewrite total_add, total_const, total_opp, total_one in Hle by done. rewrite Hlast in Hsum. specialize (Hsum ltac:(intros i Hi; specialize (Hc i Hi); lia)). lia.
  - pose proof (cnt_range n (fun i => c i =? k)). destruct (cnt_witness n (fun i => c i =? k) ltac:(lia)) as (i & Hi & E). exists i. split; [done|by apply Z.eqb_eq].
Qed.

(** The entries that are in use. *)
Definition entry (t : UNewTrie2) (p : Z) : Prop := 0 <= p < 2080 \/ 2656 <= p < index2Length t.
(** The blocks that must be kept. *)
Definition live (t : UNewTrie2) (b : Z) : Prop := good t b /\ (0 < uses t b \/ b = 192).

Section Compact.
Context {fl : list Z} {t : UNewTrie2} (Hinv : inv 64 (-1) fl t).

Lemma live_map b : live t b -> 0 <= b / 32 < 34852 /\ 0 < rd (map_ t) (b / 32).
Proof.
  intros [G H]. pose proof G as (G1 & G2 & G3 & _). pose proof (i_top _ _ _ _ Hinv). split; [destruct (i_cap _ _ _ _ Hinv) as [?|[?|?]]; dlia|]. rewrite (i_map _ _ _ _ Hinv b G).
  - unfold is_null. pose proof (uses_nonneg t b). destruct H as [H| ->]; [destruct (b =? 192); cbn [Z.b2z]; lia|cbn; lia].
  - intros Hin. apply (i_free _ _ _ _ Hinv) in Hin as (_ & U & N & _). destruct H; [lia|done].
Qed.

Lemma live_slot s : slot s -> live t (blk t s).
Proof. intros Hs. split; [by apply (i_blk _ _ _ _ Hinv)|left; by apply uses_pos]. Qed.

Lemma live_null : live t 192.
Proof. pose proof (i_top _ _ _ _ Hinv). split; [|by right]. unfold good. split_and!; (lia || done). Qed.

(** Every entry behind the null block belongs to a slot. *)
Lemma supp_entry p : 2720 <= p < index2Length t -> exists s, slot s /\ pos t s = p.
Proof.
  intros Hp. pose proof (i_top2 _ _ _ _ Hinv) as Htop. set (K := cnt nsupp _) in Htop. pose proof (cnt_range nsupp (fun i => negb (rd (index1 t) (32 + i) =? 2656))) as HK. fold K in HK. rewrite nsupp_eq in HK.
  set (c := fun i => if rd (index1 t) (32 + i) =? 2656 then K else (rd (index1 t) (32 + i) - 2720) / 64). assert (Hc : forall i, 0 <= i < 512 -> rd (index1 t) (32 + i) = 2656 /\ c i = K \/ rd (index1 t) (32 + i) <> 2656 /\ rd (index1 t) (32 + i) = 2720 + 64 * c i /\ 0 <= c i < K).
  { intros i Hi. unfold c. destruct (Z.eqb_spec (rd (index1 t) (32 + i)) 2656) as [E|E]; [by left|right]. destruct (i_supp1 _ _ _ _ Hinv (32 + i) ltac:(lia)) as [?|(H1 & H2 & H3)]; [done|]. split; [done|]. split; dlia. }
  destruct (pigeon nsupp (Z.to_nat K) c ((p - 2720) / 64)) as (i & Hi & E); rewrite ?nsupp_eq, ?Z2Nat.id by lia; [dlia| | | |].
  - intros i Hi. destruct (Hc i Hi) as [[_ ->]|(_ & _ & ?)]; lia.
  - intros i j Hi Hj E. destruct (Hc i Hi) as [[E1 E2]|(E1 & E2 & E3)], (Hc j Hj) as [[F1 F2]|(F1 & F2 & F3)]; try (left; lia). destruct (i_inj1 _ _ _ _ Hinv (32 + i) (32 + j)) as [?|?]; [lia|lia|lia|done|right; lia].
  - unfold K. apply cnt_ext. intros i Hi. rewrite nsupp_eq in Hi. f_equal. apply eq_true_iff_eq. rewrite !Z.eqb_eq. destruct (Hc i Hi) as [[E1 E2]|(E1 & E2 & E3)]; lia.
  - rewrite nsupp_eq in Hi. exists (64 * (32 + i) + (p - 2720) mod 64). assert (Hs : slot (64 * (32 + i) + (p - 2720) mod 64)) by (unfold slot; dlia). split; [done|]. unfold pos, CP_SLOTS. destruct (Z.ltb_spec (64 * (32 + i) + (p - 2720) mod 64) 34816); [|dlia].
    replace ((64 * (32 + i) + (p - 2720) mod 64) / 64) with (32 + i) by dlia. destruct (Hc i Hi) as [[E1 E2]|(E1 & E2 & E3)]; dlia.
Qed.

Lemma trie_entry_live p : entry t p -> live t (rd (index2 t) p).
Proof.
  intros Hp. assert (Hcase : (exists s, slot s /\ pos t s = p) \/ 2656 <= p < 2720).
  { destruct Hp as [Hp|Hp]; [left|destruct (Z.lt_ge_cases p 2720); [right; lia|left; apply supp_entry; lia]]. destruct (Z.lt_ge_cases p 2048).
    - exists p. split; [unfold slot; lia|]. destruct (pos_cases Hinv p ltac:(unfold slot; lia)) as [[_ ->]|[[H' _]|[H' _]]]; unfold CP_SLOTS in *; lia.
    - exists (CP_SLOTS + (p - 2048)). assert (Hs : slot (CP_SLOTS + (p - 2048))) by (unfold slot, CP_SLOTS; lia). split; [done|]. destruct (pos_cases Hinv _ Hs) as [[H' _]|[[_ ->]|[H' _]]]; unfold CP_SLOTS in *; lia. }
  destruct Hcase as [(s & Hs & <-)|Hn]; [by apply live_slot|]. rewrite (i_null_cells _ _ _ _ Hinv) by done. apply live_null.
Qed.

Lemma pos_entry s : slot s -> entry t (pos t s).
Proof. intros Hs. apply (pos_range Hinv s Hs). Qed.

(** ** The loop over the blocks *)

(** The block [b] can be read through the map. *)
Definition placed (l m : list Z) (ns b : Z) : Prop :=
  0 <= rd m (b / 32) /\ rd m (b / 32) + 32 <= ns /\ rd m (b / 32) mod 4 = 0 /\ forall j, 0 <= j < 32 -> rd l (rd m (b / 32) + j) = rd (data t) (b + j).

Record dstate (start : Z) (p : packing) : Prop := {
  d_zl : zlen p.1.1 = zlen (data t);
  d_zm : zlen p.1.2 = 34852;
  d_ns : 192 <= p.2 <= start /\ p.2 mod 4 = 0;
  d_later : forall q, start <= q -> rd p.1.1 q = rd (data t) q;
  d_linear : forall q, q < 192 -> rd p.1.1 q = rd (data t) q;
  d_map : forall k, start / 32 <= k -> rd p.1.2 k = rd (map_ t) k;
  d_placed : forall b, live t b -> b < start -> placed p.1.1 p.1.2 p.2 b;
  d_pair : forall s, 4 <= s < 64 -> s mod 2 = 0 -> lin s < start -> rd p.1.2 (lin (s + 1) / 32) = rd p.1.2 (lin s / 32) + 32;
  d_first : 192 < start -> 0 <= rd p.1.2 6 <= 192 /\ rd p.1.2 6 + 64 <= p.2 /\ forall j, 0 <= j < 64 -> rd p.1.1 (rd p.1.2 6 + j) = initialValue t
}.

(** Blocks of 64 values up to U+07FF, of 32 values then. *)
Definition phase (start blockLength : Z) : Prop := (start mod 64 = 0 /\ 192 <= start < 2176 /\ blockLength = 64) \/ (2176 <= start /\ start mod 32 = 0 /\ blockLength = 32).

Lemma lin_64 s : 4 <= s < 64 -> s mod 2 = 0 -> lin s mod 64 = 0 /\ 256 <= lin s <= 2112 /\ lin (s + 1) = lin s + 32.
Proof. intros Hs Hm. unfold lin. destruct (Z.ltb_spec s 4), (Z.ltb_spec (s + 1) 4); try lia. dlia. Qed.

Lemma dstate_place start L p p' place :
  dstate start p -> phase start L -> packed L 4 (start / 32) (L / 32) start place p p' -> dstate (start + L) p'.
Proof.
  intros [Zl Zm [N1 N2] La Li Ma Pl Pa Fi] Hph [K1 K2 K3 K4 K5 K6 (K7 & K8 & K9) K10 K11]. assert (HL : L = 64 \/ L = 32) by (destruct Hph as [(_ & _ & ?)|(_ & _ & ?)]; auto). assert (Hs32 : start mod 32 = 0) by (destruct Hph as [(? & _)|(_ & ? & _)]; dlia).
  assert (Hdiv : L / 32 * 32 = L) by (destruct HL as [-> | ->]; done). constructor; try lia.
  - intros q Hq. rewrite K6 by lia. apply La. lia.
  - intros q Hq. rewrite K5 by lia. by apply Li.
  - intros k Hk. rewrite K11. assert (start / 32 + L / 32 <= k) by dlia. destruct (Z.ltb_spec k (start / 32 + L / 32)); [lia|]. rewrite andb_false_r. apply Ma. lia.
  - intros b Hb Hlt. pose proof Hb as [(B1 & _ & B3 & _) _]. unfold placed. rewrite !K11. destruct (Z.lt_ge_cases b start) as [Hold|Hnew].
    + destruct (Z.leb_spec (start / 32) (b / 32)); [dlia|]. cbn [andb]. destruct (Pl b Hb Hold) as (P1 & P2 & P3 & P4). split_and!; [done|lia|done|]. intros j Hj. rewrite K5 by lia. by apply P4.
    + destruct (Z.leb_spec (start / 32) (b / 32)), (Z.ltb_spec (b / 32) (start / 32 + L / 32)); [|dlia|dlia|dlia]. cbn [andb]. assert (Eb : (b / 32 - start / 32) * 32 = b - start) by dlia. rewrite Eb. split_and!; [lia|dlia|dlia|].
      intros j Hj. replace (place + (b - start) + j) with (place + (b - start + j)) by lia. rewrite K10 by dlia. rewrite La by lia. f_equal. lia.
  - intros s Hs Hm Hlt. destruct (lin_64 s Hs Hm) as (L1 & L2 & L3). rewrite !K11, L3. destruct (Z.lt_ge_cases (lin s) start) as [Hold|Hnew].
    + assert (lin s + 64 <= start) by (destruct Hph as [(? & _ & _)|(? & _)]; [dlia|lia]). destruct (Z.leb_spec (start / 32) ((lin s + 32) / 32)), (Z.leb_spec (start / 32) (lin s / 32)); [dlia|dlia|dlia|]. cbn [andb]. rewrite <- L3. by apply Pa.
    + destruct Hph as [(E & _ & ->)|(? & _)]; [|lia]. assert (lin s = start) as -> by dlia. change (64 / 32) with 2. destruct (Z.leb_spec (start / 32) ((start + 32) / 32)), (Z.ltb_spec ((start + 32) / 32) (start / 32 + 2)), (Z.leb_spec (start / 32) (start / 32)), (Z.ltb_spec (start / 32) (start / 32 + 2)); cbn [andb]; dlia.
  - intros _. rewrite K11. destruct (Z.eq_dec start 192) as [->|Hne].
    + destruct Hph as [(_ & _ & ->)|(? & _)]; [|lia]. change (192 / 32) with 6. change (64 / 32) with 2. destruct (Z.leb_spec 6 6), (Z.ltb_spec 6 (6 + 2)); try lia. cbn [andb]. rewrite Z.sub_diag, Z.mul_0_l, Z.add_0_r. split; [lia|]. split; [lia|]. intros j Hj. rewrite K10, La by lia. by apply (i_null_data _ _ _ _ Hinv).
    + destruct (Z.leb_spec (start / 32) 6); [dlia|]. cbn [andb]. destruct (Fi ltac:(lia)) as (F1 & F2 & F3). split; [done|]. split; [lia|]. intros j Hj. rewrite K5 by lia. by apply F3.
Qed.

Lemma dstate_skip start L p : dstate start p -> phase start L -> rd p.1.2 (start / 32) <= 0 -> L = 32 /\ dstate (start + L) p.
Proof.
  intros Hd Hph Hu. pose proof Hd as [Zl Zm [N1 N2] La Li Ma Pl Pa Fi]. rewrite Ma in Hu by lia. assert (Hnl : ~ live t start) by (intros H; apply live_map in H; lia).
  assert (Hps : 2176 <= start /\ start mod 32 = 0 /\ L = 32).
  { destruct Hph as [(E1 & E2 & E3)|?]; [|done]. exfalso. apply Hnl. destruct (Z.eq_dec start 192) as [->|Hne]; [apply live_null|]. destruct (i_lin _ _ _ _ Hinv ((start - 128) / 32)) as [L1 L2]; [dlia|].
    assert (El : lin ((start - 128) / 32) = start) by (unfold lin; destruct (Z.ltb_spec ((start - 128) / 32) 4); dlia). rewrite El in L1. rewrite <- L1. apply live_slot. unfold slot. dlia. }
  destruct Hps as (P1 & P2 & ->). split; [done|]. constructor; try done.
  - lia.
  - intros q Hq. apply La. lia.
  - intros k Hk. apply Ma. dlia.
  - intros b Hb Hlt. apply Pl; [done|]. pose proof Hb as [(_ & _ & B3 & _) _]. destruct (Z.lt_ge_cases b start); [done|]. assert (b = start) as -> by dlia. done.
  - intros s Hs Hm Hlt. apply Pa; try done. destruct (lin_64 s Hs Hm). lia.
  - intros _. apply Fi. lia.
Qed.

Lemma low_data : 2176 <= dataLength t.
Proof. destruct (i_lin _ _ _ _ Hinv 63 ltac:(lia)) as [E _]. destruct (i_blk _ _ _ _ Hinv 63 ltac:(unfold slot; lia)) as (_ & H & _). rewrite E in H. change (lin 63) with 2144 in H. lia. Qed.

Lemma data_loop_spec fuel start L p :
  dstate start p -> start mod 32 = 0 -> 192 <= start <= dataLength t -> ((start <= 2176 /\ start mod 64 = 0 /\ L = 64) \/ (2176 < start /\ L = 32)) -> dataLength t - start <= Z.of_nat fuel ->
  exists p', data_loop fuel (dataLength t) start L p = Some p' /\ dstate (dataLength t) p'.
Proof.
  pose proof low_data as Hlow. pose proof (i_top _ _ _ _ Hinv) as [Htop Hmod]. pose proof (i_lend _ _ _ _ Hinv) as Hz. revert start L p. induction fuel as [|fuel IH]; intros start L p Hd Hs32 Hs HL Hf; cbn [data_loop]; (destruct (Z.ltb_spec start (dataLength t)); [|exists p; split; [done|by replace (dataLength t) with start by lia]]); [lia|].
  cbv zeta. unfold UNEWTRIE2_DATA_0800_OFFSET. set (L' := if start =? 2176 then UTRIE2_DATA_BLOCK_LENGTH else L). assert (Hph : phase start L').
  { unfold L', UTRIE2_DATA_BLOCK_LENGTH, phase. destruct (Z.eqb_spec start 2176) as [E|E]; [right; split_and!; (lia || done)|]. destruct HL as [(H1 & H2 & ->)|(H1 & ->)]; [left; split_and!; (lia || done)|right; split_and!; (lia || done)]. }
  assert (Hnext : (start + L') mod 32 = 0 /\ ((start + L' <= 2176 /\ (start + L') mod 64 = 0 /\ L' = 64) \/ (2176 < start + L' /\ L' = 32)) /\ 32 <= L' /\ start + L' <= dataLength t) by (destruct Hph as [(H1 & H2 & ->)|(H1 & H2 & ->)]; split_and!; [dlia|left; split_and!; [dlia|dlia|done]|lia|dlia|dlia|right; split; [lia|done]|lia|dlia]).
  destruct Hnext as (Hn1 & Hn2 & Hn3 & Hn4). clearbody L'. destruct p as [[l m] ns]. pose proof Hd as [Zl Zm [N1 N2] _ _ _ _ _ _]. cbn [fst snd] in *. unfold UTRIE2_SHIFT_2. rewrite shift5. assert (Hcap : dataLength t <= 1115264) by (destruct (i_cap _ _ _ _ Hinv) as [?|[?|?]]; lia).
  rewrite (zget_rd m) by dlia. cbn [mbind option_bind]. destruct (Z.leb_spec (rd m (start / 32)) 0) as [Hu|Hu].
  - destruct (dstate_skip start L' (l, m, ns) Hd Hph Hu) as [_ Hd']. apply IH; [done|done|lia|done|lia].
  - rewrite shift5. assert (HL32 : L' = 64 \/ L' = 32) by (destruct Hph as [(_ & _ & ?)|(_ & _ & ?)]; auto). unfold UTRIE2_DATA_GRANULARITY.
    destruct (place_block_spec (fun l ns start => findSameDataBlock l ns start L') L' 4 (start / 32) (L' / 32) start l m ns) as (p' & place & -> & Hp); [apply finds_data; lia|lia|destruct HL32 as [-> | ->]; done|lia|destruct Hph as [(_ & _ & ->)|(_ & _ & ->)]; lia|done|dlia|lia|dlia|dlia|dlia|].
    cbn [mbind option_bind]. apply IH; [by apply (dstate_place start L' (l, m, ns) p' place)|done|lia|done|lia].
Qed.

Lemma dstate_start m : (forall k, rd m k = if (0 <=? k) && (k <? 6) then k * 32 else rd (map_ t) k) -> zlen m = 34852 -> dstate 192 (data t, m, 192).
Proof.
  intros Hm Hz. constructor; cbn [fst snd]; try done.
  - intros k Hk. rewrite Hm. change (192 / 32) with 6 in Hk. destruct (Z.ltb_spec k 6); [lia|]. by rewrite andb_false_r.
  - intros b [G _] Hlt. destruct G as (G1 & _ & G3 & _). unfold placed. rewrite Hm. destruct (Z.leb_spec 0 (b / 32)), (Z.ltb_spec (b / 32) 6); try dlia. cbn [andb]. replace (b / 32 * 32) with b by dlia. split_and!; [lia|dlia|dlia|done].
  - intros s Hs Hm2 Hlt. destruct (lin_64 s Hs Hm2). lia.
Qed.

(** ** The index-2 table *)

Lemma adjust_loop_spec m len fuel i x :
  2720 <= len <= zlen x -> (0 <= i <= 2080 \/ 2657 <= i) -> len - i <= Z.of_nat fuel -> (forall p, (i <= p < 2080 \/ 2656 <= p < len /\ i <= p) -> 0 <= rd x p / 32 < zlen m) ->
  exists x', adjust_loop fuel m len i x = Some x' /\ zlen x' = zlen x /\ forall p, rd x' p = if (i <=? p) && ((p <? 2080) || (2656 <=? p)) && (p <? len) then rd m (rd x p / 32) else rd x p.
Proof.
  revert i x. induction fuel as [|fuel IH]; intros i x Hlen Hi Hf Hr; cbn [adjust_loop]; (destruct (Z.ltb_spec i len); [|exists x; split; [done|]; split; [done|]; intros p; destruct (Z.leb_spec i p), (Z.ltb_spec p len); try lia; by rewrite ?andb_false_r]); [lia|].
  cbv zeta. unfold UNEWTRIE2_INDEX_GAP_OFFSET, UNEWTRIE2_INDEX_GAP_LENGTH. set (q := if i =? 2080 then i + 576 else i). assert (Hq : (i = 2080 /\ q = 2656) \/ (i <> 2080 /\ q = i)) by (unfold q; destruct (Z.eqb_spec i 2080); [left|right]; lia). clearbody q.
  assert (Hrq : 0 <= rd x q / 32 < zlen m) by (apply Hr; lia). rewrite zget_rd by lia. cbn [mbind option_bind]. unfold UTRIE2_SHIFT_2. rewrite shift5, (zget_rd m) by lia. cbn [mbind option_bind]. destruct (zset_rd x q (rd m (rd x q / 32))) as (x1 & -> & Z1 & H1); [lia|]. cbn [mbind option_bind].
  destruct (IH (q + 1) x1) as (x' & -> & Zx & Hx); [lia|lia|lia| |].
  - intros p Hp. rewrite H1. destruct (Z.eqb_spec q p); [lia|]. apply Hr. lia.
  - exists x'. split; [done|]. split; [lia|]. intros p. rewrite Hx, H1. destruct (Z.eqb_spec q p) as [<-|Hne].
    + destruct (Z.leb_spec (q + 1) q), (Z.leb_spec i q), (Z.ltb_spec q 2080), (Z.leb_spec 2656 q), (Z.ltb_spec q len); try lia; done.
    + destruct (Z.leb_spec (q + 1) p), (Z.leb_spec i p), (Z.ltb_spec p 2080), (Z.leb_spec 2656 p), (Z.ltb_spec p len); try lia; done.
Qed.

(** ** The compacted data *)

Record compacted (t' : UNewTrie2) : Prop := {
  c_index1 : index1 t' = index1 t;
  c_index2 : zlen (index2 t') = 35488 /\ index2Length t' = index2Length t;
  c_map : zlen (map_ t') = 34852;
  c_len : 192 <= dataLength t' <= dataLength t /\ dataLength t' mod 4 = 0;
  c_data : zlen (data t') = dataCapacity t /\ dataCapacity t' = dataCapacity t;
  c_entry : forall p, entry t p -> let b := rd (index2 t') p in
    0 <= b /\ b + 32 <= dataLength t' /\ b mod 4 = 0 /\ forall j, 0 <= j < 32 -> rd (data t') (b + j) = rd (data t) (rd (index2 t) p + j);
  c_gap : forall p, 2080 <= p < 2656 -> rd (index2 t') p = -1;
  c_pair : forall s, 4 <= s < 64 -> s mod 2 = 0 -> rd (index2 t') (s + 1) = rd (index2 t') s + 32;
  c_linear : forall p, 0 <= p < 192 -> rd (data t') p = rd (data t) p;
  c_null : 0 <= dataNullOffset t' <= 192 /\ index2NullOffset t' = 2656;
  c_null_data : dataNullOffset t' + 64 <= dataLength t' /\ forall j, 0 <= j < 64 -> rd (data t') (dataNullOffset t' + j) = initialValue t;
  c_rest : initialValue t' = initialValue t /\ errorValue t' = errorValue t /\ highStart t' = highStart t /\ isCompacted t' = false
}.

Lemma compactData_spec : exists t', compactData t = Some t' /\ compacted t'.
Proof.
  pose proof low_data as Hlow. pose proof (i_top _ _ _ _ Hinv) as [Htop Hmod]. pose proof (i_lend _ _ _ _ Hinv) as Hz. pose proof (i_lenm _ _ _ _ Hinv) as Hzm. pose proof (len2_range Hinv) as Hl2. pose proof (i_len2 _ _ _ _ Hinv) as Hz2.
  unfold compactData. change (Z.to_nat (Z.shiftr UTRIE2_DATA_START_OFFSET UTRIE2_SHIFT_2)) with 6%nat. destruct (for_write (fun i => i * UTRIE2_DATA_BLOCK_LENGTH) 6 0 (map_ t)) as (m & -> & Zm & Hm); [lia|lia|]. cbn [mbind option_bind]. change (0 + Z.of_nat 6) with 6 in Hm. unfold UTRIE2_DATA_BLOCK_LENGTH, UTRIE2_DATA_START_OFFSET in *.
  destruct (data_loop_spec (Z.to_nat (dataLength t)) 192 64 (data t, m, 192)) as ([[d m2] ns] & -> & Hd); [by apply dstate_start; [|lia]|done|lia|left; split_and!; (lia || done)|lia|]. cbn [mbind option_bind]. pose proof Hd as [Zd Zm2 [N1 N2] La Li Ma Pl Pa Fi]. cbn [fst snd] in *.
  assert (Hlive : forall b, live t b -> placed d m2 ns b) by (intros b Hb; apply Pl; [done|]; destruct Hb as [(_ & ? & _) _]; lia).
  destruct (adjust_loop_spec m2 (index2Length t) (Z.to_nat (index2Length t)) 0 (index2 t)) as (x & -> & Zx & Hx); [lia|lia|lia| |]. { intros p Hp. rewrite Zm2. destruct (live_map (rd (index2 t) p)) as [? _]; [apply trie_entry_live; unfold entry; lia|done]. }
  cbn [mbind option_bind]. rewrite (i_null _ _ _ _ Hinv). unfold UTRIE2_SHIFT_2. rewrite shift5. change (192 / 32) with 6. rewrite (zget_rd m2) by lia. cbn [mbind option_bind]. assert (E4 : 4 * ((ns + 3) / 4) = ns) by dlia.
  destruct (pad_spec (initialValue t) d ns) as (d' & -> & Zd' & Hd'); [lia|lia|]. cbn [mbind option_bind]. rewrite E4. eexists. split; [done|].
  assert (Hent : forall p, entry t p -> rd x p = rd m2 (rd (index2 t) p / 32)). { intros p Hp. rewrite Hx. unfold entry in Hp. destruct (Z.leb_spec 0 p), (Z.ltb_spec p 2080), (Z.leb_spec 2656 p), (Z.ltb_spec p (index2Length t)); try lia; done. }
  assert (Hlow_entry : forall s, 0 <= s < 64 -> rd (index2 t) s = lin s). { intros s Hs. destruct (i_lin _ _ _ _ Hinv s Hs) as [E _]. unfold blk in E. destruct (pos_cases Hinv s ltac:(unfold slot; lia)) as [[_ E']|[[H' _]|[H' _]]]; [by rewrite E' in E|unfold CP_SLOTS in *; lia|lia]. }
  constructor; cbn -[rd]; try done; try apply Hinv.
  - split; [lia|done].
  - split; [lia|done].
  - intros p Hp. rewrite Hent by done. destruct (Hlive _ (trie_entry_live p Hp)) as (P1 & P2 & P3 & P4). split_and!; try done. intros j Hj. rewrite Hd' by lia. by apply P4.
  - intros p Hp. rewrite Hx. destruct (Z.ltb_spec p 2080), (Z.leb_spec 2656 p); try lia. cbn [orb]. rewrite andb_false_r. by apply Hinv.
  - intros s Hs Hm2. rewrite !Hent, !Hlow_entry by (unfold entry; dlia). apply Pa; [done|done|]. destruct (lin_64 s Hs Hm2). lia.
  - intros p Hp. rewrite Hd' by lia. apply Li. lia.
  - split; [|apply Hinv]. by destruct (Fi ltac:(lia)).
  - destruct (Fi ltac:(lia)) as (F1 & F2 & F3). split; [done|]. intros j Hj. rewrite Hd' by lia. by apply F3.
  - split_and!; try done. apply Hinv.
Qed.
End Compact.
End UTrie2Data.
