(* ===== verification/UTrie2Index.v ===== *)
(** * Compacting the index, and the last range

    [compactIndex2] moves the index-2 blocks of the supplementary code points so that none lies
    in the gap that the index-1 table will fill; [findHighStart] finds code points that end with
    one value. *)

From S2P Require Import Prelude Utf16 UTrie2 UTrie2Facts UTrie2Blocks UTrie2Freeze UTrie2Pack UTrie2Data.

Module UTrie2Index.
Import Utf16 UTrie2 UTrie2Facts UTrie2Blocks UTrie2Freeze UTrie2Pack UTrie2Data.

Section Index.
Context {fl : list Z} {t : UNewTrie2} (Hinv : inv 64 (-1) fl t) {t' : UNewTrie2} (Hc : compacted (t := t) t').

(** ** The index-2 blocks *)

(** Where the blocks of the supplementary code points below [h] begin in the final index. *)
Definition gap_end (h : Z) : Z := 2112 + (h - 0x10000) / 2048.

Record istate (h start : Z) (p : packing) : Prop := {
  x_zl : zlen p.1.1 = 35488;
  x_zm : zlen p.1.2 = 34852;
  x_ns : gap_end h <= p.2 <= start;
  x_later : forall q, start <= q -> rd p.1.1 q = rd (index2 t') q;
  x_before : forall q, q < gap_end h -> rd p.1.1 q = rd (index2 t') q;
  x_map : forall i, 0 <= i < 33 -> rd p.1.2 i = 64 * i;
  x_done : forall b, 2656 <= b < start -> (b - 2656) mod 64 = 0 ->
    0 <= rd p.1.2 (b / 64) /\ rd p.1.2 (b / 64) + 64 <= p.2 /\ forall j, 0 <= j < 64 -> rd p.1.1 (rd p.1.2 (b / 64) + j) = rd (index2 t') (b + j)
}.

Lemma istate_place h start p p' place : istate h start p -> 2656 <= start -> (start - 2656) mod 64 = 0 -> packed 64 1 (start / 64) 1 start place p p' -> istate h (start + 64) p'.
Proof.
  intros [Zl Zm N La Be Ma Do] Hs Hm [K1 K2 K3 K4 K5 K6 (K7 & K8 & K9) K10 K11]. constructor; try lia.
  - intros q Hq. rewrite K6 by lia. apply La. lia.
  - intros q Hq. rewrite K5 by lia. by apply Be.
  - intros i Hi. rewrite K11. destruct (Z.leb_spec (start / 64) i); [dlia|]. cbn [andb]. by apply Ma.
  - intros b Hb Hbm. rewrite !K11. destruct (Z.lt_ge_cases b start) as [Hold|Hnew].
    + destruct (Z.leb_spec (start / 64) (b / 64)); [dlia|]. cbn [andb]. destruct (Do b ltac:(lia) Hbm) as (D1 & D2 & D3). split_and!; [done|lia|]. intros j Hj. rewrite K5 by lia. by apply D3.
    + assert (b = start) as -> by dlia. destruct (Z.leb_spec (start / 64) (start / 64)), (Z.ltb_spec (start / 64) (start / 64 + 1)); try lia. cbn [andb]. rewrite Z.sub_diag, Z.mul_0_l, Z.add_0_r. split_and!; [done|lia|]. intros j Hj. rewrite K10 by done. apply La. lia.
Qed.

Lemma index2_loop_spec h len fuel start p :
  0x10000 < h <= 0x110000 -> istate h start p -> 2656 <= start <= len -> len <= 35488 -> (start - 2656) mod 64 = 0 -> (len - 2656) mod 64 = 0 -> len - start <= Z.of_nat fuel -> exists p', index2_loop fuel len start p = Some p' /\ istate h len p'.
Proof.
  intros Hh. revert start p. induction fuel as [|fuel IH]; intros start p Hi Hs Hl Hm Hlm Hf; cbn [index2_loop]; (destruct (Z.ltb_spec start len); [|exists p; split; [done|by replace len with start by lia]]); [lia|].
  destruct p as [[x m] ns]. pose proof Hi as [Zl Zm N _ _ _ _]. cbn [fst snd] in *. unfold gap_end in N. unfold UTRIE2_SHIFT_1_2, UTRIE2_INDEX_2_BLOCK_LENGTH. rewrite Z.shiftr_div_pow2 by lia. change (2 ^ 6) with 64.
  destruct (place_block_spec findSameIndex2Block 64 1 (start / 64) 1 start x m ns finds_index2) as (p' & place & -> & Hp); [lia|done|lia|dlia|by rewrite Z.mod_1_r|by rewrite Z.mod_1_r|dlia|dlia|lia|dlia|]. cbn [mbind option_bind]. apply IH; [apply (istate_place h start (x, m, ns) p' place); [done|lia|done|done]|dlia|done|dlia|done|lia].
Qed.

Record reindexed (h : Z) (t2 : UNewTrie2) : Prop := {
  y_len1 : zlen (index1 t2) = 544;
  y_len2 : zlen (index2 t2) = 35488;
  y_top : gap_end h <= index2Length t2 <= 35488 /\ index2Length t2 mod 4 = 0;
  y_bmp1 : forall i, 0 <= i < 32 -> rd (index1 t2) i = 64 * i;
  y_bmp2 : forall p, p < 2080 -> rd (index2 t2) p = rd (index2 t') p;
  y_supp : forall i, 32 <= i < 544 -> let q := rd (index1 t2) i in
    0 <= q /\ q + 64 <= index2Length t2 /\ (q + 64 <= 2080 \/ gap_end h <= q) /\ forall j, 0 <= j < 64 -> rd (index2 t2) (q + j) = rd (index2 t') (rd (index1 t') i + j);
  y_data : data t2 = data t' /\ dataLength t2 = dataLength t' /\ dataCapacity t2 = dataCapacity t' /\ dataNullOffset t2 = dataNullOffset t';
  y_rest : initialValue t2 = initialValue t' /\ errorValue t2 = errorValue t' /\ highStart t2 = highStart t' /\ isCompacted t2 = isCompacted t'
}.

(** A block of valid entries does not lie in the gap. *)
Lemma outside_gap h x q b :
  0x10000 < h <= 0x110000 -> (forall p, p < gap_end h -> rd x p = rd (index2 t') p) -> 0 <= q -> 2656 <= b -> b + 64 <= index2Length t -> (forall j, 0 <= j < 64 -> rd x (q + j) = rd (index2 t') (b + j)) -> q + 64 <= 2080 \/ gap_end h <= q.
Proof.
  intros Hh Hx Hq Hb Hbl Hsame. destruct (Z.le_gt_cases (q + 64) 2080); [by left|]. destruct (Z.le_gt_cases (gap_end h) q); [by right|]. exfalso. set (p := Z.max q 2080). assert (gap_end h <= 2624 /\ 2112 <= gap_end h) by (unfold gap_end; dlia).
  assert (E : rd x p = -1) by (rewrite Hx by lia; apply (c_gap _ Hc); lia). replace p with (q + (p - q)) in E by lia. rewrite Hsame in E by lia. destruct (c_entry _ Hc (b + (p - q))) as (P1 & _); [unfold entry; lia|]. lia.
Qed.

Lemma compactIndex2_spec h : highStart t' = h -> 0x10000 < h <= 0x110000 -> h mod 2048 = 0 -> exists t2, compactIndex2 t' = Some t2 /\ reindexed h t2.
Proof.
  intros Hh Hr Hm. pose proof (c_index2 _ Hc) as [Z2 L2]. pose proof (len2_range Hinv) as Hl2. assert (Hlm : (index2Length t - 2656) mod 64 = 0) by (rewrite (i_top2 _ _ _ _ Hinv); dlia). pose proof (c_map _ Hc) as Zm. unfold compactIndex2.
  change (Z.to_nat ((UTRIE2_INDEX_2_BMP_LENGTH + UTRIE2_INDEX_2_MASK) / UTRIE2_INDEX_2_BLOCK_LENGTH)) with 33%nat. destruct (for_write (fun i => i * UTRIE2_INDEX_2_BLOCK_LENGTH) 33 0 (map_ t')) as (m & -> & Hzm & Hmm); [lia|lia|]. cbn [mbind option_bind]. change (0 + Z.of_nat 33) with 33 in Hmm.
  unfold UTRIE2_INDEX_2_BMP_LENGTH, UTRIE2_UTF8_2B_INDEX_2_LENGTH, UTRIE2_SHIFT_1, UTRIE2_INDEX_2_BLOCK_LENGTH, UNEWTRIE2_INDEX_2_NULL_OFFSET in *. rewrite shift11, Hh, L2. cbv zeta. assert (Hg : 2080 + (32 + (h - 0x10000) / 2048) = gap_end h) by (unfold gap_end; lia). rewrite Hg. assert (Hg2 : 2112 <= gap_end h <= 2624) by (unfold gap_end; dlia).
  destruct (index2_loop_spec h (index2Length t) (Z.to_nat (index2Length t)) 2656 (index2 t', m, gap_end h) Hr) as ([[x m2] ns] & -> & Hi); [|lia|lia|done|done|lia|].
  { constructor; cbn [fst snd]; try done; try lia. intros i Hi. rewrite Hmm. destruct (Z.leb_spec 0 i), (Z.ltb_spec i 33); try lia. cbn [andb]. lia. }
  cbn [mbind option_bind]. pose proof Hi as [Zx Zm2 N La Be Ma Do]. cbn [fst snd] in *. pose proof (i_len1 _ _ _ _ Hinv) as Z1. pose proof (c_index1 _ Hc) as E1.
  assert (Hidx : forall i, 0 <= i < 544 -> 0 <= rd (index1 t') i / 64 < 34852). { intros i Hi'. rewrite E1. destruct (Z.lt_ge_cases i 32); [rewrite (i_bmp1 _ _ _ _ Hinv) by lia; dlia|]. destruct (i_supp1 _ _ _ _ Hinv i ltac:(lia)) as [->|(? & ? & _)]; dlia. }
  destruct (for_from_inv (fun k l => zlen l = 544 /\ forall i, rd l i = if (0 <=? i) && (i <? k) then rd m2 (rd (index1 t') i / 64) else rd (index1 t') i) (fun i l => b ← zget l i; b ← zget m2 (Z.shiftr b UTRIE2_SHIFT_1_2); zset l i b) (Z.to_nat UNEWTRIE2_INDEX_1_LENGTH) 0 (index1 t')) as (i1 & -> & Zi1 & Hi1).
  { split; [by rewrite E1|]. intros i. destruct (Z.leb_spec 0 i), (Z.ltb_spec i 0); try lia; done. }
  { intros k l Hk [Hzl Hl]. unfold UNEWTRIE2_INDEX_1_LENGTH in Hk. rewrite zget_rd by lia. cbn [mbind option_bind]. unfold UTRIE2_SHIFT_1_2. rewrite Z.shiftr_div_pow2 by lia. change (2 ^ 6) with 64. assert (El : rd l k = rd (index1 t') k) by (rewrite Hl; destruct (Z.leb_spec 0 k), (Z.ltb_spec k k); try lia; done). rewrite El.
    rewrite (zget_rd m2) by (rewrite Zm2; apply Hidx; lia). cbn [mbind option_bind]. destruct (zset_rd l k (rd m2 (rd (index1 t') k / 64))) as (l2 & -> & Hz2 & H2); [lia|]. exists l2. split; [done|]. split; [lia|]. intros i. rewrite H2, Hl. destruct (Z.eqb_spec k i) as [<-|].
    - destruct (Z.leb_spec 0 k), (Z.ltb_spec k (k + 1)); try lia; done.
    - destruct (Z.leb_spec 0 i), (Z.ltb_spec i k), (Z.ltb_spec i (k + 1)); try lia; done. }
  change (0 + Z.of_nat (Z.to_nat UNEWTRIE2_INDEX_1_LENGTH)) with 544 in Hi1. cbn [mbind option_bind]. pose proof (c_null _ Hc) as [_ Enull]. rewrite Enull. unfold UTRIE2_SHIFT_1_2. rewrite Z.shiftr_div_pow2 by lia. change (2656 / 2 ^ 6) with 41. rewrite (zget_rd m2) by lia. cbn [mbind option_bind].
  destruct (pad_spec (Z.shiftl 0xffff UTRIE2_INDEX_SHIFT) x ns) as (x' & -> & Zx' & Hx'); [lia|dlia|]. cbn [mbind option_bind]. eexists. split; [done|]. constructor; cbn -[rd gap_end]; try done; try lia.
  - split; [dlia|dlia].
  - intros i Hi'. rewrite Hi1. destruct (Z.leb_spec 0 i), (Z.ltb_spec i 544); try lia. cbn [andb]. rewrite E1, (i_bmp1 _ _ _ _ Hinv) by lia. replace (64 * i / 64) with i by dlia. apply Ma. lia.
  - intros p Hp. rewrite Hx' by lia. apply Be. lia.
  - intros i Hi'. rewrite Hi1. destruct (Z.leb_spec 0 i), (Z.ltb_spec i 544); try lia. cbn [andb]. assert (Hb : 2656 <= rd (index1 t') i /\ rd (index1 t') i + 64 <= index2Length t /\ (rd (index1 t') i - 2656) mod 64 = 0).
    { rewrite E1. destruct (i_supp1 _ _ _ _ Hinv i Hi') as [->|(? & ? & ?)]; dlia. }
    destruct Hb as (B1 & B2 & B3). destruct (Do (rd (index1 t') i) ltac:(lia) B3) as (D1 & D2 & D3). split_and!; [done|dlia| |].
    + by apply (outside_gap h x _ (rd (index1 t') i)).
    + intros j Hj. rewrite Hx' by lia. by apply D3.
Qed.
End Index.

(** ** The last range *)

Section HighStart.
Context {fl : list Z} {t : UNewTrie2} (Hinv : inv 64 (-1) fl t) (v : Z).

(** All code points from [c] on have the value [v] (as code units, for lead surrogates). *)
Definition same_from (c : Z) : Prop := forall x, c <= x < 0x110000 -> val t (x / 32) (x mod 32) = v.
Definition const_block (b : Z) : Prop := forall j, 0 <= j < 32 -> rd (data t) (b + j) = v.
Definition const_index (b : Z) : Prop := forall j, 0 <= j < 64 -> const_block (rd (index2 t) (b + j)).

Lemma slot_linear s : 0 <= s < 34816 -> slot s.
Proof. unfold slot. lia. Qed.

Lemma hs_cells_spec n s c :
  0 <= s < 34816 -> (n <= 32)%nat -> c = 32 * s + Z.of_nat n -> same_from c -> exists c' stop, hs_cells n (data t) v (blk t s) c = Some (c', stop) /\ same_from c' /\ 0 <= c' <= c /\ (stop = false -> c' = 32 * s).
Proof.
  intros Hs. revert c. induction n as [|n IH]; intros c Hn Ec Hc; cbn [hs_cells]; [exists c, false; split; [done|]; split; [done|]; split; [lia|intros; lia]|]. pose proof (slot_linear s Hs) as Hsl. rewrite (data_get Hinv s (Z.of_nat n) Hsl) by lia. cbn [mbind option_bind]. destruct (Z.eqb_spec (val t s (Z.of_nat n)) v) as [E|E].
  - destruct (IH (c - 1)) as (c' & stop & -> & H1 & H2 & H3); [lia|lia| |exists c', stop; split; [done|]; split; [done|]; split; [lia|done]]. intros x Hx. destruct (Z.eq_dec x (c - 1)) as [->|]; [|apply Hc; lia]. replace ((c - 1) / 32) with s by dlia. by replace ((c - 1) mod 32) with (Z.of_nat n) by dlia.
  - exists c, true. split; [done|]. split; [done|]. split; [lia|done].
Qed.

Lemma same_down s c : 0 <= s < 34816 -> c = 32 * s + 32 -> same_from c -> const_block (blk t s) -> same_from (c - 32).
Proof.
  intros Hs Ec Hc Hb x Hx. destruct (Z.lt_ge_cases x c) as [Hlt|]; [|apply Hc; lia]. replace (x / 32) with s by dlia. apply Hb. dlia.
Qed.

Lemma null_const : v = initialValue t -> const_block 192.
Proof. intros E j Hj. rewrite E. apply (i_null_data _ _ _ _ Hinv). lia. Qed.

Lemma blk_index i1 j : 0 <= i1 < 544 -> 0 <= j < 64 -> 0 <= 64 * i1 + j < 34816 /\ blk t (64 * i1 + j) = rd (index2 t) (rd (index1 t) i1 + j) /\ zget (index2 t) (rd (index1 t) i1 + j) = Some (blk t (64 * i1 + j)).
Proof.
  intros Hi Hj. assert (Hs : 0 <= 64 * i1 + j < 34816) by lia. split; [done|]. assert (E : pos t (64 * i1 + j) = rd (index1 t) i1 + j). { unfold pos, CP_SLOTS. destruct (Z.ltb_spec (64 * i1 + j) 34816); [|lia]. replace ((64 * i1 + j) / 64) with i1 by dlia. by replace ((64 * i1 + j) mod 64) with j by dlia. }
  split; [unfold blk; by rewrite E|]. rewrite <- E. apply (index2_get Hinv), slot_linear. done.
Qed.

Lemma hs_blocks_spec n i1 c pb :
  0 <= i1 < 544 -> (n <= 64)%nat -> c = 2048 * i1 + 32 * Z.of_nat n -> same_from c -> pb = -1 \/ const_block pb ->
  exists c' pb' stop, hs_blocks n t v (rd (index1 t) i1) c pb = Some (c', pb', stop) /\ same_from c' /\ 0 <= c' <= c /\ (stop = false -> c' = 2048 * i1 /\ (pb' = -1 \/ const_block pb')).
Proof.
  intros Hi. revert c pb. induction n as [|n IH]; intros c pb Hn Ec Hc Hpb; cbn [hs_blocks]; [exists c, pb, false; split; [done|]; split; [done|]; split; [lia|intros; split; [lia|done]]|]. destruct (blk_index i1 (Z.of_nat n) Hi ltac:(lia)) as (Hs & Eb & ->). cbn [mbind option_bind]. set (s := 64 * i1 + Z.of_nat n) in *.
  rewrite (i_null _ _ _ _ Hinv). unfold UTRIE2_DATA_BLOCK_LENGTH. assert (Hgo : const_block (blk t s) -> same_from (c - 32)) by (apply same_down; [done|lia|done]). destruct (i_blk _ _ _ _ Hinv s (slot_linear s Hs)) as (G & _).
  assert (Hrec : forall c' q, c' = 32 * s -> same_from c' -> q = -1 \/ const_block q -> exists c2 pb' stop, hs_blocks n t v (rd (index1 t) i1) c' q = Some (c2, pb', stop) /\ same_from c2 /\ 0 <= c2 <= c /\ (stop = false -> c2 = 2048 * i1 /\ (pb' = -1 \/ const_block pb'))).
  { intros c' q Ec' H1 H2. destruct (IH c' q ltac:(lia) ltac:(lia) H1 H2) as (c2 & pb' & stop & E & R1 & R2 & R3). exists c2, pb', stop. split; [done|]. split; [done|]. split; [lia|done]. }
  destruct (Z.eqb_spec (blk t s) pb) as [E1|E1]; [|destruct (Z.eqb_spec (blk t s) 192) as [E2|E2]].
  - apply Hrec; [lia| |done]. apply Hgo. destruct Hpb as [->|Hpb]; [lia|by rewrite E1].
  - destruct (Z.eqb_spec v (initialValue t)) as [E3|E3].
    + assert (Hn2 : const_block (blk t s)) by (rewrite E2; by apply null_const). apply Hrec; [lia|by apply Hgo|by right].
    + exists c, (blk t s), true. split; [done|]. split; [done|]. split; [lia|done].
  - destruct (hs_cells_spec (Z.to_nat 32) s c Hs) as (c' & stop & -> & H1 & H2 & H3); [lia|lia|done|]. cbn [mbind option_bind]. destruct stop.
    + exists c', (blk t s), true. split; [done|]. split; [done|]. split; [lia|done].
    + specialize (H3 eq_refl). apply Hrec; [lia|done|]. right. intros j Hj. specialize (H1 (32 * s + j) ltac:(lia)). replace ((32 * s + j) / 32) with s in H1 by dlia. by replace ((32 * s + j) mod 32) with j in H1 by dlia.
Qed.

Lemma hs_index_spec n c pi pb :
  (n <= 544)%nat -> c = 2048 * Z.of_nat n -> same_from c -> pi = -1 \/ const_index pi -> pb = -1 \/ const_block pb -> exists r, hs_index n t v c pi pb = Some r /\ same_from r /\ 0 <= r <= c.
Proof.
  revert c pi pb. induction n as [|n IH]; intros c pi pb Hn Ec Hc Hpi Hpb; cbn [hs_index]; (destruct (Z.ltb_spec 0 c); [|exists 0; split; [done|]; split; [by replace 0 with c by lia|lia]]); [lia|].
  assert (Hi : 0 <= Z.of_nat n < 544) by lia. rewrite zget_rd by (rewrite (i_len1 _ _ _ _ Hinv); lia). cbn [mbind option_bind]. set (i1 := Z.of_nat n) in *. unfold UTRIE2_CP_PER_INDEX_1_ENTRY.
  assert (Hgo : const_index (rd (index1 t) i1) -> same_from (c - 2048)). { intros Hk x Hx. destruct (Z.lt_ge_cases x c); [|apply Hc; lia]. destruct (blk_index i1 ((x / 32) mod 64) Hi ltac:(dlia)) as (_ & Eb & _). replace (64 * i1 + (x / 32) mod 64) with (x / 32) in Eb by dlia. unfold val. rewrite Eb. apply Hk; dlia. }
  assert (Hnn : 0 <= rd (index1 t) i1). { destruct (Z.lt_ge_cases i1 32); [rewrite (i_bmp1 _ _ _ _ Hinv) by lia; lia|]. destruct (i_supp1 _ _ _ _ Hinv i1 ltac:(lia)) as [->|?]; lia. }
  assert (Hrec : forall c' p q, c' = 2048 * i1 -> same_from c' -> p = -1 \/ const_index p -> q = -1 \/ const_block q -> exists r, hs_index n t v c' p q = Some r /\ same_from r /\ 0 <= r <= c).
  { intros c' p q Ec' H1 H2 H3. destruct (IH c' p q ltac:(lia) ltac:(lia) H1 H2 H3) as (r & E & R1 & R2). exists r. split; [done|]. split; [done|lia]. }
  destruct (Z.eqb_spec (rd (index1 t) i1) pi) as [E1|E1]; [|destruct (Z.eqb_spec (rd (index1 t) i1) (index2NullOffset t)) as [E2|E2]].
  - apply Hrec; [lia| |done|done]. apply Hgo. destruct Hpi as [?|?]; [lia|by rewrite E1].
  - destruct (Z.eqb_spec v (initialValue t)) as [E3|E3].
    + assert (Hk : const_index (rd (index1 t) i1)). { rewrite E2, (i_null2 _ _ _ _ Hinv). intros j Hj. rewrite (i_null_cells _ _ _ _ Hinv) by lia. by apply null_const. } apply Hrec; [lia|by apply Hgo|by right|done].
    + exists c. split; [done|]. split; [done|lia].
  - destruct (hs_blocks_spec (Z.to_nat UTRIE2_INDEX_2_BLOCK_LENGTH) i1 c pb Hi) as (c' & pb' & stop & -> & H1 & H2 & H3); [unfold UTRIE2_INDEX_2_BLOCK_LENGTH; lia|unfold UTRIE2_INDEX_2_BLOCK_LENGTH; lia|done|done|]. cbn [mbind option_bind]. destruct stop; [exists c'; split; [done|]; split; [done|lia]|].
    destruct (H3 eq_refl) as [H4 H5]. apply Hrec; [lia|done| |done]. right. intros j Hj k Hk. destruct (blk_index i1 j Hi Hj) as (_ & <- & _). specialize (H1 (32 * (64 * i1 + j) + k) ltac:(lia)). replace ((32 * (64 * i1 + j) + k) / 32) with (64 * i1 + j) in H1 by dlia. by replace ((32 * (64 * i1 + j) + k) mod 32) with k in H1 by dlia.
Qed.

Lemma findHighStart_spec : exists r, findHighStart t v = Some r /\ same_from r /\ 0 <= r <= 0x110000.
Proof.
  unfold findHighStart. destruct (Z.eqb_spec v (initialValue t)) as [E|E]; apply hs_index_spec; try done; try (by left); try (unfold UNEWTRIE2_INDEX_1_LENGTH; lia); try (intros x Hx; lia).
  - right. rewrite (i_null2 _ _ _ _ Hinv). intros j Hj. rewrite (i_null_cells _ _ _ _ Hinv) by lia. by apply null_const.
  - right. rewrite (i_null _ _ _ _ Hinv). by apply null_const.
Qed.
End HighStart.
End UTrie2Index.
