(* ===== verification/UTrie2Frozen.v ===== *)
(** * Freezing

    A frozen trie has, for every code point and for every lead surrogate code unit, the value that
    the trie had while it was built. *)

From S2P Require Import Prelude Utf16 UTrie2 UTrie2Facts UTrie2Blocks UTrie2Update UTrie2Open UTrie2Freeze UTrie2Pack UTrie2Data UTrie2Index.

Module UTrie2Frozen.
Import Utf16 UTrie2 UTrie2Facts UTrie2Blocks UTrie2Update UTrie2Open UTrie2Freeze UTrie2Pack UTrie2Data UTrie2Index.

(** ** The compacted trie *)

(** The slot of an entry of the linear part of the index-2 table. *)
Definition slot_at (p : Z) : Z := if p <? 2048 then p else CP_SLOTS + (p - 2048).

(** An entry points to the values of a slot. *)
Definition points (b : UNewTrie2) (x : Z) (f : Z -> Z) : Prop := 0 <= x /\ x + 32 <= dataLength b /\ x mod 4 = 0 /\ forall j, 0 <= j < 32 -> rd (data b) (x + j) = f j.

(** What freezing needs: [f] are the values of the slots, [hv] is the value from [h] on. *)
Record ready (h hv err : Z) (f : Z -> Z -> Z) (b : UNewTrie2) : Prop := {
  g_len : zlen (index1 b) = 544 /\ zlen (index2 b) = 35488;
  g_bmp : forall p, 0 <= p < 2080 -> points b (rd (index2 b) p) (f (slot_at p));
  g_top : 0x10000 < h -> gap_end h <= index2Length b <= 35488 /\ index2Length b mod 4 = 0;
  g_supp : 0x10000 < h -> forall i, 32 <= i < h / 2048 -> let q := rd (index1 b) i in
    0 <= q /\ q + 64 <= index2Length b /\ (q + 64 <= 2080 \/ gap_end h <= q) /\ forall k, 0 <= k < 64 -> points b (rd (index2 b) (q + k)) (f (64 * i + k));
  g_data : 196 <= dataLength b <= zlen (data b) /\ dataLength b mod 4 = 0 /\ rd (data b) (dataLength b - 4) = hv;
  g_bad : forall p, 128 <= p < 192 -> rd (data b) p = err;
  g_linear : forall s j, 0 <= s < 4 -> 0 <= j < 32 -> rd (data b) (32 * s + j) = f s j;
  g_pair : forall s, 4 <= s < 64 -> s mod 2 = 0 -> rd (index2 b) (s + 1) = rd (index2 b) s + 32;
  g_null : 0 <= dataNullOffset b <= 192;
  g_compacted : isCompacted b = true
}.

(** Storing the high value fails only when the array is full. *)
Lemma store_high_spec b hv init :
  0 <= dataLength b -> dataLength b mod 4 = 0 -> zlen (data b) mod 4 = 0 ->
  (dataLength b < zlen (data b) /\ exists d, store_high b hv init = Some (set_dataLength (set_data b d) (dataLength b + 4)) /\ zlen d = zlen (data b) /\ rd d (dataLength b) = hv /\ forall p, 0 <= p < dataLength b -> rd d p = rd (data b) p) \/
  (zlen (data b) <= dataLength b /\ store_high b hv init = None).
Proof.
  intros H0 Hm Hz. unfold store_high. destruct (Z.lt_ge_cases (dataLength b) (zlen (data b))) as [Hlt|Hge]; [left|right].
  - split; [done|]. destruct (zset_rd (data b) (dataLength b) hv) as (d1 & -> & Z1 & H1); [lia|]. cbn [mbind option_bind]. assert (E4 : 4 * ((dataLength b + 1 + 3) / 4) = dataLength b + 4) by dlia. destruct (pad_spec init d1 (dataLength b + 1)) as (d & -> & Zd & Hd); [lia|rewrite E4; dlia|]. rewrite E4. cbn [mbind option_bind].
    exists d. split; [done|]. split; [lia|]. split; [rewrite Hd, H1 by lia; by rewrite Z.eqb_refl|]. intros p Hp. rewrite Hd, H1 by lia. destruct (Z.eqb_spec (dataLength b) p); [lia|done].
  - split; [done|]. rewrite zset_out by lia. done.
Qed.

Section Ready.
Context {fl : list Z} {t : UNewTrie2} (Hinv : inv 64 (-1) fl t).

Lemma entry_pos_bmp p : 0 <= p < 2080 -> slot (slot_at p) /\ pos t (slot_at p) = p.
Proof.
  intros Hp. assert (Hs : slot (slot_at p)) by (unfold slot, slot_at, CP_SLOTS; destruct (Z.ltb_spec p 2048); lia). split; [done|]. destruct (pos_cases Hinv _ Hs) as [[H ->]|[[H ->]|(H & _)]]; unfold slot_at, CP_SLOTS in *; destruct (Z.ltb_spec p 2048); lia.
Qed.

(** What [compactData] and [compactIndex2] leave. *)
Lemma compact_ready h hv t3 t4 :
  highStart t = h -> 0 <= h <= 0x110000 -> h mod 2048 = 0 -> compacted (t := t) t3 -> (0x10000 < h /\ reindexed (t' := t3) h t4 \/ h <= 0x10000 /\ t4 = t3) -> 
  (dataLength t < dataCapacity t -> dataLength t4 < zlen (data t4)) /\
  forall d, zlen d = zlen (data t4) -> rd d (dataLength t4) = hv -> (forall p, 0 <= p < dataLength t4 -> rd d p = rd (data t4) p) -> dataLength t4 < zlen (data t4) ->
    ready h hv (errorValue t) (val t) (set_isCompacted (set_dataLength (set_data t4 d) (dataLength t4 + 4)) true).
Proof.
  intros Hh Hr Hm Hc Hcase. pose proof (c_len _ Hc) as [L1 L2]. pose proof (c_data _ Hc) as [D1 D2].
  assert (Hdata : data t4 = data t3 /\ dataLength t4 = dataLength t3 /\ dataNullOffset t4 = dataNullOffset t3) by (destruct Hcase as [[_ Hy]|[_ ->]]; [destruct (y_data _ _ Hy) as (? & ? & _ & ?)|]; done). destruct Hdata as (E1 & E2 & E3).
  assert (Hidx2 : zlen (index1 t4) = 544 /\ zlen (index2 t4) = 35488 /\ forall p, p < 2080 -> rd (index2 t4) p = rd (index2 t3) p). { destruct Hcase as [[_ [Y1 Y2 _ _ Y3 _ _ _]]|[_ ->]]; [done|]. split; [rewrite (c_index1 _ Hc); apply Hinv|]. split; [apply Hc|done]. }
  destruct Hidx2 as (Z1 & Z2 & Hlow). split; [rewrite E1, E2; lia|]. intros d Hzd Hhv Hd Hroom. rewrite E1, E2 in *.
  assert (Hpt : forall p, entry t p -> points (set_isCompacted (set_dataLength (set_data t4 d) (dataLength t3 + 4)) true) (rd (index2 t3) p) (fun j => rd (data t) (rd (index2 t) p + j))).
  { intros p Hp. destruct (c_entry _ Hc p Hp) as (P1 & P2 & P3 & P4). unfold points. cbn -[rd]. split_and!; [done|lia|done|]. intros j Hj. rewrite Hd by lia. by apply P4. }
  constructor; cbn -[rd gap_end]; try done.
  - intros p Hp. rewrite Hlow by lia. destruct (entry_pos_bmp p Hp) as [Hs Ep]. destruct (Hpt p ltac:(left; lia)) as (P1 & P2 & P3 & P4). unfold points. split_and!; try done. intros j Hj. rewrite P4 by done. unfold val, blk. by rewrite Ep.
  - intros Hgt. destruct Hcase as [[_ Hy]|[? _]]; [|lia]. apply Hy.
  - intros Hgt i Hi. destruct Hcase as [[_ Hy]|[? _]]; [|lia]. destruct (y_supp _ _ Hy i ltac:(dlia)) as (Q1 & Q2 & Q3 & Q4). split_and!; try done. intros k Hk. rewrite Q4 by done. rewrite (c_index1 _ Hc).
    assert (Hs : slot (64 * i + k)) by (unfold slot; dlia). assert (Ep : pos t (64 * i + k) = rd (index1 t) i + k) by (unfold pos, CP_SLOTS; destruct (Z.ltb_spec (64 * i + k) 34816); [|dlia]; replace ((64 * i + k) / 64) with i by dlia; replace ((64 * i + k) mod 64) with k by dlia; done).
    rewrite <- Ep. destruct (Hpt _ (pos_entry Hinv _ Hs)) as (P1 & P2 & P3 & P4). unfold points. split_and!; try done.
  - split; [destruct (i_cap _ _ _ _ Hinv) as [?|[?|?]]; dlia|]. split; [dlia|]. by replace (dataLength t3 + 4 - 4) with (dataLength t3) by lia.
  - intros p Hp. rewrite Hd by lia. rewrite (c_linear _ Hc) by lia. by apply Hinv.
  - intros s j Hs Hj. rewrite Hd by lia. rewrite (c_linear _ Hc) by lia. unfold val. destruct (i_lin _ _ _ _ Hinv s ltac:(lia)) as [-> _]. unfold lin. by destruct (Z.ltb_spec s 4); [|lia].
  - intros s Hs Hs2. rewrite !Hlow by dlia. by apply (c_pair _ Hc).
  - rewrite E3. apply Hc.
Qed.
End Ready.

(** ** Blanking the last range *)

Section Heap.
Context `{HP : Heap}.

(** With a block to repeat, nothing is allocated. *)
Lemma range_block_reuse t c v ov rep t' rep' e : 0 <= rep -> range_block t c v ov rep = Some (t', rep', e) -> rep' = rep /\ e <> U_MEMORY_ALLOCATION_ERROR /\ same_size t t'.
Proof.
  intros H0. assert (Hle : (0 <=? rep) = true) by (by apply Z.leb_le). unfold range_block. rewrite Hle. intros H. step_option; try done.
  all: split; [done|]; split; [done|]; repeat match goal with
    | H : getIndex2Block _ _ _ = Some _ |- _ => apply getIndex2Block_size in H
    | H : fillBlock _ _ _ _ _ _ = Some _ |- _ => apply fillBlock_size in H
    | H : setIndex2Entry _ _ _ = Some _ |- _ => apply setIndex2Entry_size in H
    end; unfold same_size in *; intuition congruence.
Qed.

Lemma range_loop_reuse k t c v ov rep t' e : 0 <= rep -> range_loop k t c v ov rep = Some (t', e) -> e <> U_MEMORY_ALLOCATION_ERROR /\ same_size t t'.
Proof.
  intros H0. revert t c. induction k as [|k IH]; intros t c; cbn [range_loop]; [intros [= <- <-]; done|]. intros H. destruct (range_block t c v ov rep) as [[[t1 rep1] e1]|] eqn:E; cbn [mbind option_bind] in H; [|done]. apply range_block_reuse in E as (-> & Hne & Hs1); [|done].
  destruct (U_FAILURE e1); [by injection H as <- <-|]. apply IH in H as [? Hs2]. split; [done|]. destruct Hs1, Hs2. split; congruence.
Qed.

Lemma blank_spec fl t lo :
  inv 64 (-1) fl t -> 0 <= lo < 0x110000 -> lo mod 32 = 0 ->
  exists t', setRange32 t lo 0x10ffff (initialValue t) true = Some (t', U_ZERO_ERROR) /\ same_size t t' /\ holds 64 t t' (upd_range (val t) lo 0x110000 (initialValue t) (initialValue t) true).
Proof.
  intros Hinv Hlo Hm. destruct (setRange32_spec 64 fl t lo 0x10ffff (initialValue t) true Hinv ltac:(lia) ltac:(lia)) as (t' & e & E & Hd). pose proof E as E1.
  unfold setRange32 in E1. rewrite (i_open _ _ _ _ Hinv) in E1. cbn [negb andb] in E1. unfold UTRIE2_DATA_MASK in E1. rewrite mask31, Hm in E1. cbn [Z.eqb negb] in E1. unfold set_blocks in E1. rewrite Z.eqb_refl, (i_null _ _ _ _ Hinv) in E1. change (0 <? Z.land (0x10ffff + 1) UTRIE2_DATA_MASK) with false in E1. cbv iota in E1.
  destruct (range_loop _ t lo _ _ _) as [[t1 e1]|] eqn:El; cbn [mbind option_bind] in E1; [|done]. apply range_loop_reuse in El as [Hne Hsize]; [|lia]. destruct Hd as [(-> & _ & _)|(-> & Hh)]; [destruct (U_FAILURE e1); congruence|]. exists t'. split; [exact E|]. split; [|exact Hh]. destruct (U_FAILURE e1); by injection E1 as <-.
Qed.

(** ** [compactTrie] *)

Lemma inv_set_highStart n held fl t h : inv n held fl t -> inv n held fl (set_highStart t h).
Proof. intros Hinv. destruct Hinv. by constructor. Qed.

(** A trie that is being built. *)
Record building (t : utrie2) (b : UNewTrie2) : Prop := {
  b_values : t_values t = Building b;
  b_inv : exists fl, inv 64 (-1) fl b;
  b_high : highStart b = 0x110000;
  b_init : t_initialValue t = initialValue b;
  b_error : t_errorValue t = errorValue b
}.

Lemma round_high r : 0 <= r <= 0x110000 -> let h := Z.land (r + (UTRIE2_CP_PER_INDEX_1_ENTRY - 1)) (Z.lnot (UTRIE2_CP_PER_INDEX_1_ENTRY - 1)) in r <= h <= 0x110000 /\ h mod 2048 = 0.
Proof.
  intros Hr. cbv zeta. unfold UTRIE2_CP_PER_INDEX_1_ENTRY. change (2048 - 1) with (Z.ones 11). rewrite <- Z.ldiff_land, Z.ldiff_ones_r by lia. rewrite Z.shiftl_mul_pow2, Z.shiftr_div_pow2 by lia. change (2 ^ 11) with 2048. change (Z.ones 11) with 2047. dlia.
Qed.

(** The trie after [compactTrie]: [h] is where the last range begins. *)
Record compact_done (t : utrie2) (b : UNewTrie2) (h hv : Z) (t' : utrie2) (b' : UNewTrie2) : Prop := {
  m_trie : t' = set_t_highStart t h;
  m_high : 0 <= h <= 0x110000 /\ h mod 2048 = 0;
  m_ready : exists f, ready h hv (errorValue b) f b' /\ forall s j, slot s -> 0 <= j < 32 -> base s < Z.max h 0x10000 -> f s j = val b s j;
  m_len : dataLength b' <= dataLength b + 4;
  m_last : forall c, h <= c <= 0x10ffff -> 0x10000 <= c -> val b (c / 32) (c mod 32) = hv
}.

Lemma same_from_last b r h c : same_from (t := b) (val b 34815 31) r -> r <= h -> h <= c <= 0x10ffff -> val b (c / 32) (c mod 32) = val b 34815 31.
Proof. intros Hs Hr Hc. apply Hs. lia. Qed.

(** The stages of [compactTrie]: the last range blanked ([b2]), the data compacted ([t3]), the index
    compacted ([t4]). *)
Record compact_steps (b : UNewTrie2) (h hv : Z) (b2 t3 t4 : UNewTrie2) : Prop := {
  q_high : 0 <= h <= 0x110000 /\ h mod 2048 = 0;
  q_last : forall c, h <= c <= 0x10ffff -> 0x10000 <= c -> val b (c / 32) (c mod 32) = hv;
  q_inv : exists fl, inv 64 (-1) fl b2;
  q_same : highStart b2 = h /\ errorValue b2 = errorValue b /\ initialValue b2 = initialValue b /\ dataLength b2 = dataLength b /\ dataCapacity b2 = dataCapacity b;
  q_val : forall s j, slot s -> 0 <= j < 32 -> base s < Z.max h 0x10000 -> val b2 s j = val b s j;
  q_data : compacted (t := b2) t3;
  q_index : 0x10000 < h /\ reindexed (t' := t3) h t4 \/ h <= 0x10000 /\ t4 = t3
}.

Lemma compactTrie_steps t b : building t b -> exists h hv b2 t3 t4,
  compactTrie t b = (b' ← store_high t4 hv (initialValue b); Some (set_t_highStart t h, set_isCompacted b' true, U_ZERO_ERROR)) /\ compact_steps b h hv b2 t3 t4.
Proof.
  intros [Hv [fl Hinv] Hhigh Hi He]. unfold compactTrie, utrie2_get32. rewrite Hv. change (0x10ffff <? uint32 0x10ffff) with false. cbv iota. rewrite (get32_val Hinv) by (done || lia). cbn [mbind option_bind]. change (slot_of 0x10ffff true) with 34815. change (0x10ffff mod 32) with 31.
  set (v := val b 34815 31). destruct (findHighStart_spec Hinv v) as (r & -> & Hr & Hr0). cbn [mbind option_bind]. destruct (round_high r Hr0) as [Hh Hm]. cbv zeta. set (h := Z.land _ _) in *. clearbody h. set (b1 := set_highStart b h). pose proof (inv_set_highStart 64 (-1) fl b h Hinv) as Hinv1. fold b1 in Hinv1.
  cbn [set_t_highStart t_initialValue]. rewrite Hi. set (hv := if h =? 0x110000 then _ else _). 
  (* blanking *)
  assert (Hblank : exists b2, (if h <? 0x110000 then setRange32 b1 (if h <=? 0x10000 then 0x10000 else h) 0x10ffff (initialValue b) true else Some (b1, U_ZERO_ERROR)) = Some (b2, U_ZERO_ERROR) /\ holds 64 b1 b2 (val b2) /\ same_size b1 b2 /\
     forall s j, slot s -> 0 <= j < 32 -> base s < Z.max h 0x10000 -> val b2 s j = val b s j).
  { destruct (Z.ltb_spec h 0x110000); [|exists b1; split; [done|]; split; [by apply (holds_refl 64 fl)|done]].
    set (lo := if h <=? 0x10000 then 0x10000 else h). assert (Hlo : lo = Z.max h 0x10000) by (unfold lo; destruct (Z.leb_spec h 0x10000); lia). assert (Hlm : lo mod 32 = 0) by (rewrite Hlo; destruct (Z.max_spec h 0x10000) as [[_ ->]|[_ ->]]; dlia).
    change (initialValue b) with (initialValue b1). destruct (blank_spec fl b1 lo Hinv1 ltac:(lia) Hlm) as (b2 & -> & Hsz & Hb). exists b2. split; [done|]. split; [|split; [done|]].
    - apply (holds_ext _ _ _ _ _ Hb). intros s j Hs Hj. symmetry. by apply Hb.
    - intros s j Hs Hj Hbs. rewrite (h_val _ _ _ _ Hb s j Hs Hj). unfold upd_range, in_range. pose proof (base_aligned s). destruct (Z.leb_spec lo (base s + j)); [|done]. exfalso. dlia. }
  destruct Hblank as (b2 & -> & Hb & [Hsz1 Hsz2] & Hval2). cbn [mbind option_bind U_FAILURE]. destruct (h_inv _ _ _ _ Hb) as [fl2 Hinv2]. pose proof (h_high _ _ _ _ Hb) as Hh2. change (highStart b1) with h in Hh2.
  destruct (compactData_spec Hinv2) as (t3 & -> & Hc). cbn [mbind option_bind]. assert (Ht4 : exists t4, (if 0x10000 <? h then compactIndex2 t3 else Some t3) = Some t4 /\ (0x10000 < h /\ reindexed (t' := t3) h t4 \/ h <= 0x10000 /\ t4 = t3)).
  { destruct (Z.ltb_spec 0x10000 h); [|exists t3; split; [done|by right]]. destruct (compactIndex2_spec Hinv2 Hc h) as (t4 & -> & Hy); [destruct (c_rest _ Hc) as (_ & _ & -> & _); done|lia|done|]. exists t4. split; [done|by left]. }
  destruct Ht4 as (t4 & Et4 & Hcase). exists h, hv, b2, t3, t4. split; [by rewrite Et4|]. constructor; try done.
  - split; [lia|done].
  - intros c Hc1 Hc2. unfold hv. destruct (Z.eqb_spec h 0x110000); [lia|]. apply (same_from_last b r h); [done|lia|done].
  - by exists fl2.
  - split_and!; try done; apply Hb.
Qed.

(** The data of the last two stages. *)
Lemma index_data h t3 t4 : 0x10000 < h /\ reindexed (t' := t3) h t4 \/ h <= 0x10000 /\ t4 = t3 -> data t4 = data t3 /\ dataLength t4 = dataLength t3.
Proof. intros [[_ Hy]|[_ ->]]; [destruct (y_data _ _ Hy) as (? & ? & _ & ?)|]; done. Qed.

(** Compacting fails only when the values fill their array. *)
Lemma compactTrie_spec t b :
  building t b ->
  (compactTrie t b = None /\ dataCapacity b <= dataLength b) \/ exists t' b' h hv, compactTrie t b = Some (t', b', U_ZERO_ERROR) /\ compact_done t b h hv t' b'.
Proof.
  intros Hb. destruct (compactTrie_steps t b Hb) as (h & hv & b2 & t3 & t4 & Hrun & [[Hh Hm] Hlast [fl Hinv] (S1 & S2 & S3 & S4 & S5) Hval Hc Hcase]). destruct (compact_ready Hinv h hv t3 t4 S1 Hh Hm Hc Hcase) as [Hroom Hready].
  pose proof (c_len _ Hc) as [L1 L2]. pose proof (c_data _ Hc) as [D1 D2]. destruct (index_data h t3 t4 Hcase) as [E1 E2]. rewrite Hrun.
  destruct (store_high_spec t4 hv (initialValue b)) as [(Hlt & d & -> & Zd & Hd1 & Hd2)|(Hge & ->)]; [lia|by rewrite E2|rewrite E1, D1; destruct (i_cap _ _ _ _ Hinv) as [-> |[-> | ->]]; done| |]; cbn [mbind option_bind].
  - right. eexists _, _, h, hv. split; [done|]. constructor; [done|split; [lia|done]| | |done].
    + exists (val b2). split; [|done]. pose proof (Hready d Zd Hd1 Hd2 Hlt) as Hg. by rewrite S2 in Hg.
    + cbn. rewrite E2. lia.
  - left. split; [done|]. rewrite <- S4, <- S5. destruct (Z.lt_ge_cases (dataLength b2) (dataCapacity b2)) as [Hl|]; [|done]. specialize (Hroom Hl). lia.
Qed.

(** ** The frozen arrays *)

Lemma rd_map f l i : 0 <= i < zlen l -> rd (map f l) i = f (rd l i).
Proof. intros Hi. unfold rd. rewrite <- (Z2Nat.id i) by lia. rewrite !zget_nat. change (map f l) with (f <$> l). rewrite list_lookup_fmap. destruct (lookup_lt_is_Some_2 l (Z.to_nat i)) as [x ->]; [unfold zlen in *; lia|done]. Qed.

Lemma zlen_map {A B} (f : A -> B) l : zlen (map f l) = zlen l.
Proof. unfold zlen. by rewrite length_map. Qed.

Lemma mapM_total {A B} (f : A -> option B) (g : A -> B) l : (forall x, x ∈ l -> f x = Some (g x)) -> mapM f l = Some (map g l).
Proof.
  induction l as [|x l IH]; intros H; [done|]. cbn [mapM map]. rewrite (H x) by (by left). cbn [mbind option_bind]. rewrite IH by (intros y Hy; apply H; by right). done.
Qed.

Lemma rd_seqZ m n i : 0 <= i < n -> rd (seqZ m n) i = m + i.
Proof. intros Hi. unfold rd. rewrite <- (Z2Nat.id i) at 1 by lia. rewrite zget_nat, (proj2 (lookup_seqZ m n (Z.to_nat i) (m + i))) by lia. done. Qed.

Lemma shifted_back M x : 0 <= M -> 0 <= x -> M mod 4 = 0 -> x mod 4 = 0 -> M + x < 0x40000 -> Z.shiftl (shifted M x) UTRIE2_INDEX_SHIFT = M + x.
Proof.
  intros HM Hx H1 H2 Hlt. unfold shifted, uint16, UTRIE2_INDEX_SHIFT. rewrite Z.shiftr_div_pow2, Z.shiftl_mul_pow2 by lia. change (2 ^ 2) with 4. rewrite Z.mod_small; dlia.
Qed.

(** The index array, by its parts. *)
Record indexed (b : UNewTrie2) (h M A : Z) (idx : list Z) : Prop := {
  n_len : zlen idx = A;
  n_bmp : forall p, 0 <= p < 2080 -> rd idx p = shifted M (rd (index2 b) p);
  n_bad : forall p, 2080 <= p < 2082 -> rd idx p = uint16 (M + 128);
  n_two : forall i, 2 <= i < 32 -> rd idx (2080 + i) = uint16 (M + rd (index2 b) (2 * i));
  n_supp1 : 0x10000 < h -> forall i, 32 <= i < h / 2048 -> rd idx (2080 + i) = uint16 (rd (index1 b) i);
  n_supp2 : 0x10000 < h -> forall p, gap_end h <= p < A -> rd idx p = shifted M (rd (index2 b) p)
}.

Definition index_length (b : UNewTrie2) (h : Z) : Z := if h <=? 0x10000 then 2112 else index2Length b.

Lemma frozen_index_spec b h M :
  zlen (index1 b) = 544 -> zlen (index2 b) = 35488 -> (0x10000 < h -> gap_end h <= index2Length b <= 35488) -> 0 <= h <= 0x110000 -> h mod 2048 = 0 ->
  exists idx, frozen_index b h M = Some idx /\ indexed b h M (index_length b h) idx.
Proof.
  intros Z1 Z2 Htop Hh Hm. unfold frozen_index, UTRIE2_INDEX_2_BMP_LENGTH, UTRIE2_UTF8_2B_INDEX_2_LENGTH, UTRIE2_OMITTED_BMP_INDEX_1_LENGTH, UTRIE2_SHIFT_1, UTRIE2_SHIFT_2, UTRIE2_INDEX_2_OFFSET, UTRIE2_BAD_UTF8_DATA_OFFSET. rewrite shift11.
  destruct (cells_at_rd (index2 b) 0 2080) as (bmp & -> & Zb & Hb); [lia|lia|lia|]. cbn [mbind option_bind]. change (0xe0 - 0xc0 - 2) with 30. change (Z.to_nat (0xc2 - 0xc0)) with 2%nat. change (6 - 5) with 1.
  rewrite (mapM_total _ (fun i => uint16 (M + rd (index2 b) (2 * i))) (seqZ 2 30)) by (intros i Hi%elem_of_seqZ; rewrite Z.shiftl_mul_pow2 by lia; change (2 ^ 1) with 2; rewrite zget_rd by lia; cbn [mbind option_bind]; by rewrite (Z.mul_comm i)). cbn [mbind option_bind].
  set (two := map (fun i => uint16 (M + rd (index2 b) (2 * i))) (seqZ 2 30)). assert (Zt : zlen two = 30) by (unfold two; rewrite zlen_map; unfold zlen; rewrite length_seqZ; lia). assert (Ht : forall i, 2 <= i < 32 -> rd two (i - 2) = uint16 (M + rd (index2 b) (2 * i))) by (intros i Hi; unfold two; rewrite rd_map, rd_seqZ by (unfold zlen; rewrite ?length_seqZ; lia); by replace (2 + (i - 2)) with i by lia).
  clearbody two. change (replicate 2 (uint16 (M + 128))) with [uint16 (M + 128); uint16 (M + 128)]. set (bad := [uint16 (M + 128); uint16 (M + 128)]).
  assert (Hpre : forall supp p, 0 <= p -> rd (map (shifted M) bmp ++ bad ++ two ++ supp) p = if p <? 2080 then shifted M (rd (index2 b) p) else if p <? 2082 then uint16 (M + 128) else if p <? 2112 then rd two (p - 2082) else rd supp (p - 2112)).
  { intros supp p Hp. rewrite rd_app, zlen_map, Zb by lia. destruct (Z.ltb_spec p 2080); [rewrite rd_map, Hb by lia; done|]. rewrite rd_app by lia. change (zlen bad) with 2. destruct (Z.ltb_spec (p - 2080) 2), (Z.ltb_spec p 2082); try lia.
    - unfold bad. assert (p - 2080 = 0 \/ p - 2080 = 1) as [-> | ->] by lia; done.
    - rewrite rd_app, Zt by lia. destruct (Z.ltb_spec (p - 2080 - 2) 30), (Z.ltb_spec p 2112); try lia; f_equal; lia. }
  assert (Hlen : forall supp, zlen (map (shifted M) bmp ++ bad ++ two ++ supp) = 2112 + zlen supp) by (intros supp; rewrite !zlen_app, zlen_map, Zb, Zt; change (zlen bad) with 2; lia).
  assert (Hgen : forall supp, zlen (map (shifted M) bmp ++ bad ++ two ++ supp) = index_length b h ->
      (0x10000 < h -> (forall i, 32 <= i < h / 2048 -> rd supp (i - 32) = uint16 (rd (index1 b) i)) /\ forall p, gap_end h <= p < index_length b h -> rd supp (p - 2112) = shifted M (rd (index2 b) p)) ->
      indexed b h M (index_length b h) (map (shifted M) bmp ++ bad ++ two ++ supp)).
  { intros supp Hz Hs. constructor; [done| | | | |].
    - intros p Hp. rewrite Hpre by lia. destruct (Z.ltb_spec p 2080); [done|lia].
    - intros p Hp. rewrite Hpre by lia. destruct (Z.ltb_spec p 2080), (Z.ltb_spec p 2082); try lia; done.
    - intros i Hi. rewrite Hpre by lia. destruct (Z.ltb_spec (2080 + i) 2080), (Z.ltb_spec (2080 + i) 2082), (Z.ltb_spec (2080 + i) 2112); try lia. rewrite <- Ht by done. f_equal. lia.
    - intros Hgt i Hi. rewrite Hpre by lia. destruct (Z.ltb_spec (2080 + i) 2080), (Z.ltb_spec (2080 + i) 2082), (Z.ltb_spec (2080 + i) 2112); try lia. replace (2080 + i - 2112) with (i - 32) by lia. by apply Hs.
    - intros Hgt p Hp. assert (2112 <= gap_end h) by (unfold gap_end; dlia). rewrite Hpre by lia. destruct (Z.ltb_spec p 2080), (Z.ltb_spec p 2082), (Z.ltb_spec p 2112); try lia. by apply Hs. }
  unfold index_length in *. destruct (Z.ltb_spec 0x10000 h) as [Hgt|Hle], (Z.leb_spec h 0x10000); try lia; cbn [mbind option_bind].
  - specialize (Htop Hgt). set (n := (h - 0x10000) / 2048) in *. assert (Hn : 0 <= n <= 512 /\ h / 2048 = 32 + n /\ 2080 + 32 + n = gap_end h) by (unfold n, gap_end; dlia). destruct Hn as (Hn1 & Hn2 & Hn3). rewrite Hn3.
    destruct (cells_at_rd (index1 b) 32 n) as (i1 & -> & Zi1 & Hi1); [lia|lia|lia|]. cbn [mbind option_bind]. destruct (cells_at_rd (index2 b) (gap_end h) (index2Length b - gap_end h)) as (i2 & -> & Zi2 & Hi2); [lia|lia|lia|]. cbn [mbind option_bind]. eexists. split; [done|]. apply Hgen.
    + rewrite Hlen, zlen_app, !zlen_map. lia.
    + intros _. split.
      * intros i Hi. rewrite rd_app, zlen_map, Zi1 by lia. destruct (Z.ltb_spec (i - 32) n); [|lia]. rewrite rd_map, Hi1 by lia. rewrite Z.add_0_l. do 2 f_equal. lia.
      * intros p Hp. rewrite rd_app, zlen_map, Zi1 by lia. destruct (Z.ltb_spec (p - 2112) n); [lia|]. rewrite rd_map, Hi2 by lia. do 2 f_equal. lia.
  - eexists. split; [done|]. apply Hgen; [|lia]. rewrite Hlen. done.
Qed.

(** ** Reading the frozen trie *)

Definition conv (bits : UTrie2ValueBits) (x : Z) : Z := match bits with UTRIE2_16_VALUE_BITS => uint16 x | UTRIE2_32_VALUE_BITS => x end.

Record layout (t : utrie2) (bits : UTrie2ValueBits) (b : UNewTrie2) (h M A : Z) (idx : list Z) : Prop := {
  l_values : t_values t <> Building b /\ forall b', t_values t <> Building b';
  l_index : forall p, 0 <= p < A -> zget (t_index t) p = Some (rd idx p);
  l_data : forall i, 0 <= i < dataLength b -> frozen_data t (M + i) = Some (conv bits (rd (data b) i));
  l_high : t_highStart t = h /\ t_highValueIndex t = M + (dataLength b - 4) /\ ascii_offset t = M;
  l_move : 0 <= M /\ M mod 4 = 0 /\ M + dataLength b <= 0x3fffc /\ 2112 <= A <= 0xffff /\ A = index_length b h /\ indexed b h M A idx
}.

Section Reading.
Context {t : utrie2} {bits : UTrie2ValueBits} {b : UNewTrie2} {h hv err M A : Z} {idx : list Z} {f : Z -> Z -> Z} (Hl : layout t bits b h M A idx) (Hg : ready h hv err f b) (Hh : 0 <= h <= 0x110000 /\ h mod 2048 = 0).

(** Through an entry of the index array. *)
Lemma read_entry x g j : points b x g -> 0 <= j < 32 -> frozen_data t (Z.shiftl (shifted M x) UTRIE2_INDEX_SHIFT + j) = Some (conv bits (g j)).
Proof.
  intros (P1 & P2 & P3 & P4) Hj. destruct (l_move _ _ _ _ _ _ _ Hl) as (M1 & M2 & M3 & _). rewrite shifted_back by (lia || done). replace (M + x + j) with (M + (x + j)) by lia. rewrite (l_data _ _ _ _ _ _ _ Hl) by lia. by rewrite P4.
Qed.

Lemma read_raw off c p : off + c / 32 = p -> 0 <= p < 2080 -> exists i, UTRIE2_INDEX_RAW t off c = Some i /\ frozen_data t i = Some (conv bits (f (slot_at p) (c mod 32))).
Proof.
  intros Ep Hp. destruct (l_move _ _ _ _ _ _ _ Hl) as (M1 & M2 & M3 & HA & EA & Hi). unfold UTRIE2_INDEX_RAW, UTRIE2_SHIFT_2, UTRIE2_DATA_MASK. rewrite shift5, Ep, mask31. rewrite (l_index _ _ _ _ _ _ _ Hl) by lia. cbn [mbind option_bind]. eexists. split; [done|].
  rewrite (n_bmp _ _ _ _ _ Hi) by done. apply read_entry; [by apply (g_bmp _ _ _ _ _ Hg)|dlia].
Qed.

Lemma read_supp c : 0x10000 <= c < h -> exists i, UTRIE2_INDEX_FROM_SUPP t c = Some i /\ frozen_data t i = Some (conv bits (f (c / 32) (c mod 32))).
Proof.
  intros Hc. destruct (l_move _ _ _ _ _ _ _ Hl) as (M1 & M2 & M3 & HA & EA & Hi). assert (Hgt : 0x10000 < h) by lia. pose proof (g_top _ _ _ _ _ Hg Hgt) as [Ht1 Ht2]. destruct (g_len _ _ _ _ _ Hg) as [Z1 Z2].
  unfold UTRIE2_INDEX_FROM_SUPP, UTRIE2_INDEX_1_OFFSET, UTRIE2_OMITTED_BMP_INDEX_1_LENGTH, UTRIE2_SHIFT_1, UTRIE2_SHIFT_2, UTRIE2_INDEX_2_MASK, UTRIE2_DATA_MASK. rewrite shift11, shift5, mask63, mask31. set (i := c / 2048). change (2112 - 32) with 2080. assert (Hir : 32 <= i < 544 /\ i <= h / 2048 /\ i * 2048 <= c < i * 2048 + 2048) by (unfold i; dlia). destruct Hir as (Hi1 & Hi2 & Hi3).
  assert (Hi4 : i < h / 2048) by (unfold i; dlia). assert (Hlen : A = index2Length b) by (rewrite EA; unfold index_length; destruct (Z.leb_spec h 0x10000); [lia|done]). destruct (g_supp _ _ _ _ _ Hg Hgt i ltac:(lia)) as (Q1 & Q2 & Q3 & Q4). set (q := rd (index1 b) i) in *.
  assert (Hk : 0 <= (c / 32) mod 64 < 64) by (apply Z.mod_pos_bound; lia). set (k := (c / 32) mod 64) in *. assert (Es : c / 32 = 64 * i + k) by (unfold i, k; dlia). rewrite (l_index _ _ _ _ _ _ _ Hl) by (unfold gap_end in *; dlia). cbn [mbind option_bind]. rewrite (n_supp1 _ _ _ _ _ Hi) by (done || lia). fold q.
  assert (Eq : uint16 q = q) by (unfold uint16; apply Z.mod_small; lia). rewrite Eq, (l_index _ _ _ _ _ _ _ Hl) by lia. cbn [mbind option_bind]. eexists. split; [done|]. rewrite Es. destruct Q3 as [Q3|Q3].
  - rewrite (n_bmp _ _ _ _ _ Hi) by lia. apply (read_entry _ (f (64 * i + k))); [by apply Q4|dlia].
  - rewrite (n_supp2 _ _ _ _ _ Hi) by lia. apply (read_entry _ (f (64 * i + k))); [by apply Q4|dlia].
Qed.

Lemma slot_at_low p : p < 2048 -> slot_at p = p.
Proof. unfold slot_at. by destruct (Z.ltb_spec p 2048); [|lia]. Qed.

Lemma get_frozen c : 0 <= c <= 0x10ffff -> utrie2_get32 t c = Some (conv bits (if (0x10000 <=? c) && (h <=? c) then hv else f (slot_of c true) (c mod 32))).
Proof.
  intros Hc. destruct (l_values _ _ _ _ _ _ _ Hl) as [_ Hnb]. destruct (l_high _ _ _ _ _ _ _ Hl) as (H1 & H2 & H3). assert (E : utrie2_get32 t c = UTRIE2_GET t c) by (unfold utrie2_get32; destruct (t_values t) as [b0| |]; try done; by destruct (Hnb b0)). rewrite E. clear E.
  unfold UTRIE2_GET, UTRIE2_INDEX_FROM_CP. assert (Eu : uint32 c = c) by (unfold uint32; apply Z.mod_small; lia). rewrite Eu, H1, H2, H3. unfold slot_of. destruct (Z.ltb_spec c 0xd800) as [C1|C1].
  - destruct (Z.leb_spec 0x10000 c); [lia|]. cbn [andb]. assert (U16_IS_LEAD c = false) as -> by (destruct (U16_IS_LEAD c) eqn:El; [apply lead_range in El; lia|done]). cbn [andb]. destruct (read_raw 0 c (c / 32)) as (i & -> & R); [lia|dlia|]. cbn [mbind option_bind]. rewrite slot_at_low in R by dlia. exact R.
  - destruct (Z.leb_spec c 0xffff) as [C2|C2].
    + destruct (Z.leb_spec 0x10000 c); [lia|]. cbn [andb]. destruct (Z.leb_spec c 0xdbff) as [C3|C3].
      * assert (U16_IS_LEAD c = true) as -> by (apply lead_range; lia). cbn [andb]. destruct (read_raw LSCP_OFFSET c (2048 + (c / 32 - 1728))) as (i & -> & R); [unfold LSCP_OFFSET; lia|dlia|]. cbn [mbind option_bind]. unfold slot_at in R. destruct (Z.ltb_spec (2048 + (c / 32 - 1728)) 2048); [dlia|]. by replace (CP_SLOTS + (2048 + (c / 32 - 1728) - 2048)) with (CP_SLOTS + (c / 32 - 1728)) in R by lia.
      * assert (U16_IS_LEAD c = false) as -> by (destruct (U16_IS_LEAD c) eqn:El; [apply lead_range in El; lia|done]). cbn [andb]. destruct (read_raw 0 c (c / 32)) as (i & -> & R); [lia|dlia|]. cbn [mbind option_bind]. rewrite slot_at_low in R by dlia. exact R.
    + destruct (Z.ltb_spec 0x10ffff c); [lia|]. destruct (Z.leb_spec 0x10000 c); [|lia]. cbn [andb]. destruct (Z.leb_spec h c).
      * cbn [mbind option_bind]. destruct (g_data _ _ _ _ _ Hg) as (D1 & D2 & D3). rewrite (l_data _ _ _ _ _ _ _ Hl) by lia. by rewrite D3.
      * assert (U16_IS_LEAD c = false) as -> by (destruct (U16_IS_LEAD c) eqn:El; [apply lead_range in El; lia|done]). cbn [andb]. destruct (read_supp c ltac:(lia)) as (i & -> & R). exact R.
Qed.

Lemma get_frozen_out c : 0x10ffff < uint32 c -> utrie2_get32 t c = Some (conv bits err).
Proof.
  intros Hc. destruct (l_values _ _ _ _ _ _ _ Hl) as [_ Hnb]. destruct (l_high _ _ _ _ _ _ _ Hl) as (H1 & H2 & H3). assert (E : utrie2_get32 t c = UTRIE2_GET t c) by (unfold utrie2_get32; destruct (t_values t) as [b0| |]; try done; by destruct (Hnb b0)). rewrite E. clear E.
  unfold UTRIE2_GET, UTRIE2_INDEX_FROM_CP. destruct (Z.ltb_spec (uint32 c) 0xd800), (Z.leb_spec (uint32 c) 0xffff), (Z.ltb_spec 0x10ffff (uint32 c)); try lia. cbn [mbind option_bind]. rewrite H3. unfold UTRIE2_BAD_UTF8_DATA_OFFSET. destruct (g_data _ _ _ _ _ Hg) as (D1 & _). rewrite (l_data _ _ _ _ _ _ _ Hl) by lia. by rewrite (g_bad _ _ _ _ _ Hg) by lia.
Qed.

Lemma get_frozen_lead c : 0xd800 <= c <= 0xdbff -> utrie2_get32FromLeadSurrogateCodeUnit t c = Some (conv bits (f (slot_of c false) (c mod 32))).
Proof.
  intros Hc. destruct (l_values _ _ _ _ _ _ _ Hl) as [_ Hnb]. unfold utrie2_get32FromLeadSurrogateCodeUnit. assert (U16_IS_LEAD c = true) as -> by (apply lead_range; lia). cbn [negb].
  assert (E : match t_values t with Building b => get32 b c false | _ => UTRIE2_GET_FROM_U16_SINGLE_LEAD t c end = UTRIE2_GET_FROM_U16_SINGLE_LEAD t c) by (destruct (t_values t) as [b0| |]; try done; by destruct (Hnb b0)). rewrite E. unfold UTRIE2_GET_FROM_U16_SINGLE_LEAD. destruct (read_raw 0 c (c / 32)) as (i & -> & R); [lia|dlia|]. cbn [mbind option_bind]. rewrite slot_at_low in R by dlia. unfold slot_of. rewrite andb_false_r. exact R.
Qed.
End Reading.

Lemma write_frozen_spec t b bits h hv err f :
  ready h hv err f b -> t_highStart t = h -> 0 <= h <= 0x110000 -> h mod 2048 = 0 ->
  let A := index_length b h in let M := match bits with UTRIE2_16_VALUE_BITS => A | UTRIE2_32_VALUE_BITS => 0 end in
  (write_frozen t b bits = Some (set_values t (Building b), U_INDEX_OUTOFBOUNDS_ERROR) /\ 0x3fffc < M + dataLength b) \/
  (write_frozen t b bits = Some (set_values t (Building b), U_MEMORY_ALLOCATION_ERROR) /\ refused) \/
  exists t' idx, write_frozen t b bits = Some (t', U_ZERO_ERROR) /\ layout t' bits b h M A idx /\ t_errorValue t' = t_errorValue t.
Proof.
  intros Hg Eh Hh Hm A M. destruct (g_len _ _ _ _ _ Hg) as [Z1 Z2]. destruct (g_data _ _ _ _ _ Hg) as (D1 & D2 & _). pose proof (g_null _ _ _ _ _ Hg) as Hn.
  assert (HA : 2112 <= A <= 35488 /\ A mod 4 = 0). { unfold A, index_length. destruct (Z.leb_spec h 0x10000); [done|]. destruct (g_top _ _ _ _ _ Hg ltac:(lia)) as [T1 T2]. unfold gap_end in T1. split; [dlia|done]. }
  assert (HM : M = 0 \/ M = A) by (destruct bits; auto). unfold write_frozen. rewrite Eh. change UTRIE2_INDEX_1_OFFSET with 2112. fold (index_length b h). fold A. fold M. unfold UTRIE2_MAX_INDEX_LENGTH, UNEWTRIE2_DATA_0800_OFFSET, UTRIE2_MAX_DATA_LENGTH.
  destruct (Z.ltb_spec 0xffff A); [lia|]. destruct (Z.ltb_spec 0xffff (M + dataNullOffset b)) as [N1|N1]; [lia|]. destruct (Z.ltb_spec 0xffff (M + 2176)); [lia|]. destruct (Z.ltb_spec 262140 (M + dataLength b)) as [N2|N2]; [left; split; [done|lia]|]. cbn [orb]. right.
  set (len := sizeof_UTrie2Header + A * 2 + _). assert (Hlen : 0 <= len <= INT32_MAX) by (unfold len, sizeof_UTrie2Header, INT32_MAX; destruct bits; lia). destruct (alloc_ok len) eqn:Ea; cbn [negb]; [right|left; split; [done|by exists len]].
  destruct (frozen_index_spec b h M Z1 Z2) as (idx & -> & Hi); [intros Hgt; by apply Hg|done|done|]. cbn [mbind option_bind]. destruct (cells_at_rd (data b) 0 (dataLength b)) as (d & -> & Zd & Hd); [lia|lia|lia|]. cbn [mbind option_bind]. eexists _, idx. split; [done|].
  pose proof (n_len _ _ _ _ _ Hi) as Zi. fold A in Hi, Zi. split; [|by destruct bits]. constructor.
  - by destruct bits.
  - intros p Hp. destruct bits; cbn [t_index]; [rewrite zget_app_l by lia|]; apply zget_rd; lia.
  - intros i Hi'. unfold frozen_data, M. destruct bits; cbn [t_values t_index conv].
    + rewrite zget_app_r by lia. rewrite Zi. replace (A + i - A) with i by lia. rewrite zget_rd by (rewrite zlen_map; lia). rewrite rd_map, Hd by lia. done.
    + rewrite Z.add_0_l, zget_rd, Hd by lia. done.
  - destruct bits; cbn; (split; [done|]; split; [unfold M, UTRIE2_DATA_GRANULARITY; lia|done]).
  - split_and!; try lia; try done. destruct HM as [-> | ->]; [done|apply HA].
Qed.

(** ** [utrie2_freeze] *)

Lemma slot_of_supp c lscp : 0x10000 <= c <= 0x10ffff -> slot_of c lscp = c / 32.
Proof. intros Hc. unfold slot_of. destruct (U16_IS_LEAD c) eqn:E; [apply lead_range in E; lia|done]. Qed.

Lemma base_lead c : 0xd800 <= c <= 0xdbff -> base (slot_of c false) < 0.
Proof. intros Hc. unfold slot_of, base, CP_SLOTS. rewrite andb_false_r. destruct (Z.ltb_spec (c / 32) 34816); [|dlia]. destruct (Z.leb_spec 1728 (c / 32)), (Z.ltb_spec (c / 32) 1760); cbn [andb]; dlia. Qed.

Lemma building_get t b c : building t b -> 0 <= c <= 0x10ffff -> utrie2_get32 t c = Some (val b (slot_of c true) (c mod 32)).
Proof.
  intros [Hv [fl Hinv] Hh _ _] Hc. unfold utrie2_get32. rewrite Hv. assert (uint32 c = c) as -> by (unfold uint32; apply Z.mod_small; lia). destruct (Z.ltb_spec 0x10ffff c); [lia|]. by apply (get32_val Hinv).
Qed.

Lemma building_lead t b c : building t b -> 0xd800 <= c <= 0xdbff -> utrie2_get32FromLeadSurrogateCodeUnit t c = Some (val b (slot_of c false) (c mod 32)).
Proof.
  intros [Hv [fl Hinv] Hh _ _] Hc. unfold utrie2_get32FromLeadSurrogateCodeUnit. rewrite Hv. assert (U16_IS_LEAD c = true) as -> by (apply lead_range; lia). cbn [negb]. apply (get32_val Hinv); [done|lia].
Qed.

Lemma building_out t b c : building t b -> 0x10ffff < uint32 c -> utrie2_get32 t c = Some (t_errorValue t).
Proof. intros [Hv _ _ _ _] Hc. unfold utrie2_get32. rewrite Hv. by destruct (Z.ltb_spec 0x10ffff (uint32 c)); [|lia]. Qed.

(** The frozen trie [t'] reads as [t] did. *)
Record same_values (bits : UTrie2ValueBits) (t t' : utrie2) : Prop := {
  sv_get : forall c, 0 <= c <= 0x10ffff \/ 0x10ffff < uint32 c -> utrie2_get32 t' c = conv bits <$> utrie2_get32 t c;
  sv_lead : forall c, 0xd800 <= c <= 0xdbff -> utrie2_get32FromLeadSurrogateCodeUnit t' c = conv bits <$> utrie2_get32FromLeadSurrogateCodeUnit t c;
  sv_frozen : newTrie t' = None
}.

Lemma utrie2_freeze_spec t b bits :
  building t b -> dataLength b < dataCapacity b ->
  exists t' e, utrie2_freeze t bits U_ZERO_ERROR = Some (t', e) /\
  ((e = U_INDEX_OUTOFBOUNDS_ERROR /\ 226648 <= dataLength b) \/ (e = U_MEMORY_ALLOCATION_ERROR /\ refused) \/ (e = U_ZERO_ERROR /\ same_values bits t t')).
Proof.
  intros Hb Hroom. pose proof Hb as [Hv [fl Hinv] Hh Hi He]. unfold utrie2_freeze. cbn [U_FAILURE]. rewrite Hv, (i_open _ _ _ _ Hinv). destruct (compactTrie_spec t b Hb) as [[_ Hfull]|(t1 & b1 & h & hv & -> & [Et [Hh1 Hh2] (f & Hg & Hf) Hlen Hlast])]; [lia|]. cbn [mbind option_bind U_FAILURE].
  destruct (write_frozen_spec t1 b1 bits h hv (errorValue b) f Hg) as [[-> Hbig]|[[-> Href]|(t' & idx & -> & Hl & _)]]; [by rewrite Et|done|done| | |].
  - eexists _, _. split; [done|]. left. split; [done|]. assert (index_length b1 h <= 35488) by (unfold index_length; destruct (Z.leb_spec h 0x10000); [lia|]; apply (g_top _ _ _ _ _ Hg); lia). destruct bits; lia.
  - eexists _, _. split; [done|]. right. by left.
  - exists t', U_ZERO_ERROR. split; [done|]. right. right. split; [done|]. constructor.
    + intros c [Hc|Hc].
      * rewrite (get_frozen Hl Hg ltac:(done) c Hc), (building_get t b c Hb Hc). cbn [fmap option_fmap option_map]. do 2 f_equal. destruct (Z.leb_spec 0x10000 c), (Z.leb_spec h c); cbn [andb].
        -- rewrite slot_of_supp by lia. symmetry. by apply Hlast; lia.
        -- apply Hf; [by apply slot_cp|dlia|]. rewrite base_slot by done. dlia.
        -- apply Hf; [by apply slot_cp|dlia|]. rewrite base_slot by done. dlia.
        -- apply Hf; [by apply slot_cp|dlia|]. rewrite base_slot by done. dlia.
      * rewrite (get_frozen_out Hl Hg c Hc), (building_out t b c Hb Hc). cbn. by rewrite He.
    + intros c Hc. rewrite (get_frozen_lead Hl Hg c Hc), (building_lead t b c Hb Hc). cbn [fmap option_fmap option_map]. do 2 f_equal. apply Hf; [apply slot_cp; lia|dlia|]. pose proof (base_lead c Hc). lia.
    + destruct (l_values _ _ _ _ _ _ _ Hl) as [_ Hnb]. unfold newTrie. destruct (t_values t') as [b0| |]; try done. by destruct (Hnb b0).
Qed.
End Heap.
End UTrie2Frozen.
