(* ===== verification/UTrie2Spec.v ===== *)
(** * The trie as a map

    A program of calls on a new trie has the effect of the same changes to two functions, on code
    points and on lead surrogate code units, unless memory is refused; freezing keeps them. *)

From S2P Require Import Prelude Utf16 UTrie2 UTrie2Facts UTrie2Blocks UTrie2Update UTrie2Open UTrie2Freeze UTrie2Frozen.

Module UTrie2Spec.
Import Utf16 UTrie2 UTrie2Facts UTrie2Blocks UTrie2Update UTrie2Open UTrie2Freeze UTrie2Frozen.

(** ** The specification *)

(** The values of the code points and of the lead surrogate code units. *)
Record trie_map := mk_map { of_cp : Z -> Z; of_lead : Z -> Z }.

Definition put (f : Z -> Z) (c v : Z) : Z -> Z := fun x => if x =? c then v else f x.
Definition put_range (f : Z -> Z) (lo hi v init : Z) (ov : bool) : Z -> Z := fun x => if (lo <=? x) && (x <=? hi) && (ov || (f x =? init)) then v else f x.

Inductive call := SetValue (c v : Z) | SetLead (c v : Z) | SetRange (start end_ v : Z) (overwrite : bool).

(** What a call does to the map, given the initial value, and its error. *)
Definition spec_call (init : Z) (k : call) (m : trie_map) : trie_map * UErrorCode :=
  match k with
  | SetValue c v => if (0 <=? c) && (c <=? 0x10ffff) then (mk_map (put (of_cp m) c v) (of_lead m), U_ZERO_ERROR) else (m, U_ILLEGAL_ARGUMENT_ERROR)
  | SetLead c v => if (0xd800 <=? c) && (c <=? 0xdbff) then (mk_map (of_cp m) (put (of_lead m) c v), U_ZERO_ERROR) else (m, U_ILLEGAL_ARGUMENT_ERROR)
  | SetRange lo hi v ov => if (0 <=? lo) && (lo <=? hi) && (hi <=? 0x10ffff) then (mk_map (put_range (of_cp m) lo hi v init ov) (of_lead m), U_ZERO_ERROR) else (m, U_ILLEGAL_ARGUMENT_ERROR)
  end.

Fixpoint spec_calls (init : Z) (ks : list call) (m : trie_map) : trie_map * UErrorCode :=
  match ks with
  | [] => (m, U_ZERO_ERROR)
  | k :: ks => let '(m, e) := spec_call init k m in if U_FAILURE e then (m, e) else spec_calls init ks m
  end.

(** ** The calls *)

Definition int32_range (c : Z) : Prop := - 2 ^ 31 <= c < 2 ^ 31.
Definition call_ok (k : call) : Prop := match k with SetValue c _ | SetLead c _ => int32_range c | SetRange lo hi _ _ => int32_range lo /\ int32_range hi end.

Section Calls.
Context `{HP : Heap}.

Definition run_call (k : call) (t : utrie2) (e : UErrorCode) : option (utrie2 * UErrorCode) :=
  match k with SetValue c v => utrie2_set32 t c v e | SetLead c v => utrie2_set32ForLeadSurrogateCodeUnit t c v e | SetRange lo hi v ov => utrie2_setRange32 t lo hi v ov e end.

Fixpoint run_calls (ks : list call) (t : utrie2) (e : UErrorCode) : option (utrie2 * UErrorCode) :=
  match ks with [] => Some (t, e) | k :: ks => '(t, e) ← run_call k t e; run_calls ks t e end.

(** ** The trie that stands for a map *)

Record stands_for (init error : Z) (t : utrie2) (m : trie_map) : Prop := {
  s_building : exists b, building t b;
  s_init : t_initialValue t = init;
  s_error : t_errorValue t = error;
  s_cp : forall c, 0 <= c <= 0x10ffff -> utrie2_get32 t c = Some (of_cp m c);
  s_lead : forall c, 0xd800 <= c <= 0xdbff -> utrie2_get32FromLeadSurrogateCodeUnit t c = Some (of_lead m c)
}.

Lemma uint32_neg c : - 2 ^ 31 <= c < 0 -> uint32 c = c + 2 ^ 32.
Proof. intros Hc. unfold uint32. symmetry. apply (Z.mod_unique_pos _ _ (-1)); lia. Qed.

Lemma uint32_in c : int32_range c -> (0x10ffff <? uint32 c) = negb ((0 <=? c) && (c <=? 0x10ffff)).
Proof.
  unfold int32_range. intros Hc. destruct (Z.leb_spec 0 c).
  - unfold uint32. rewrite Z.mod_small by lia. destruct (Z.ltb_spec 0x10ffff c), (Z.leb_spec c 0x10ffff); try lia; done.
  - cbn [andb negb]. rewrite uint32_neg by lia. apply Z.ltb_lt. lia.
Qed.

Lemma lead_int32 c : int32_range c -> U16_IS_LEAD c = (0xd800 <=? c) && (c <=? 0xdbff).
Proof.
  unfold int32_range. intros Hc. assert (E : U16_IS_LEAD c = U16_IS_LEAD (uint32 c)).
  { unfold U16_IS_LEAD, uint32. change 4294967296 with (2 ^ 32). rewrite <- Z.land_ones, <- Z.land_assoc by lia. done. }
  destruct (Z.leb_spec 0 c).
  - apply eq_true_iff_eq. rewrite lead_range, andb_true_iff, !Z.leb_le by lia. done.
  - rewrite E, uint32_neg by lia. destruct (Z.leb_spec 0xd800 c); [lia|]. cbn [andb]. apply not_true_is_false. intros El. apply lead_range in El; lia.
Qed.

Lemma slot_cp_inj c c' : 0 <= c <= 0x10ffff -> 0 <= c' <= 0x10ffff -> slot_of c true = slot_of c' true -> c mod 32 = c' mod 32 -> c = c'.
Proof. intros Hc Hc' E Em. pose proof (base_slot c Hc) as B. pose proof (base_slot c' Hc') as B'. rewrite E in B. lia. Qed.

Lemma slot_lead_cp c c' : 0xd800 <= c <= 0xdbff -> 0 <= c' <= 0x10ffff -> slot_of c false <> slot_of c' true.
Proof. intros Hc Hc' E. pose proof (base_lead c Hc) as B. rewrite E, base_slot in B by done. dlia. Qed.

Lemma slot_lead_inj c c' : 0xd800 <= c <= 0xdbff -> 0xd800 <= c' <= 0xdbff -> slot_of c false = slot_of c' false -> c mod 32 = c' mod 32 -> c = c'.
Proof. unfold slot_of. rewrite !andb_false_r. intros Hc Hc' E Em. dlia. Qed.

(** The trie after a change of its values. *)
Lemma stands_holds init error t b b' f m :
  building t b -> t_initialValue t = init -> t_errorValue t = error -> holds 64 b b' f ->
  (forall c, 0 <= c <= 0x10ffff -> f (slot_of c true) (c mod 32) = of_cp m c) -> (forall c, 0xd800 <= c <= 0xdbff -> f (slot_of c false) (c mod 32) = of_lead m c) ->
  stands_for init error (set_values t (Building b')) m.
Proof.
  intros [Hv _ Hh Hi He] Ei Ee [[fl Hinv] Hval Vi Ve Vh] Hcp Hlead. assert (Hb : building (set_values t (Building b')) b'). { constructor; [done|by exists fl|congruence|cbn; congruence|cbn; congruence]. } constructor; [by exists b'|done|done| |].
  - intros c Hc. rewrite (building_get _ _ _ Hb Hc), Hval, Hcp by (first [done|by apply slot_cp; lia|dlia]). done.
  - intros c Hc. rewrite (building_lead _ _ _ Hb Hc), Hval, Hlead by (first [done|by apply slot_cp; lia|dlia]). done.
Qed.

Lemma stands_val init error t b m : stands_for init error t m -> building t b -> (forall c, 0 <= c <= 0x10ffff -> val b (slot_of c true) (c mod 32) = of_cp m c) /\ forall c, 0xd800 <= c <= 0xdbff -> val b (slot_of c false) (c mod 32) = of_lead m c.
Proof.
  intros Hs Hb. split; intros c Hc; [pose proof (s_cp _ _ _ _ Hs c Hc) as E; rewrite (building_get _ _ _ Hb Hc) in E|pose proof (s_lead _ _ _ _ Hs c Hc) as E; rewrite (building_lead _ _ _ Hb Hc) in E]; congruence.
Qed.

(** A call either does what the specification says or is refused memory. *)
Definition call_done (init error : Z) (r : option (utrie2 * UErrorCode)) (s : trie_map * UErrorCode) : Prop :=
  exists t e, r = Some (t, e) /\ ((e = U_MEMORY_ALLOCATION_ERROR /\ refused) \/ (e = s.2 /\ stands_for init error t s.1)).

Lemma set_value_done init error t m c v : stands_for init error t m -> int32_range c -> call_done init error (utrie2_set32 t c v U_ZERO_ERROR) (spec_call init (SetValue c v) m).
Proof.
  intros Hs Hc. destruct (s_building _ _ _ _ Hs) as [b Hb]. pose proof Hb as [Hv [fl Hinv] _ _ _]. destruct (stands_val _ _ _ _ _ Hs Hb) as [Hcp Hlead]. unfold utrie2_set32, newTrie. cbn [U_FAILURE spec_call]. rewrite uint32_in, Hv by done. destruct (Z.leb_spec 0 c), (Z.leb_spec c 0x10ffff); cbn [andb negb]; try (exists t, U_ILLEGAL_ARGUMENT_ERROR; split; [done|right; done]).
  destruct (set32_spec 64 fl b c true v Hinv ltac:(lia)) as (b' & e & -> & [(-> & [Href _] & _)|(-> & Hw)]); cbn [mbind option_bind]; eexists _, _; (split; [done|]); [by left|right]. split; [done|]. apply (stands_holds init error t b b' _ _ Hb (s_init _ _ _ _ Hs) (s_error _ _ _ _ Hs) (w_holds _ _ _ _ _ Hw)).
  - intros c' Hc'. unfold upd. cbn [of_cp fst]. unfold put. destruct (Z.eqb_spec c' c) as [->|Hne]; [by rewrite !Z.eqb_refl|]. destruct (Z.eqb_spec (slot_of c' true) (slot_of c true)) as [E|E], (Z.eqb_spec (c' mod 32) (c mod 32)) as [E2|E2]; cbn [andb]; try (by apply Hcp). destruct Hne. by apply slot_cp_inj.
  - intros c' Hc'. unfold upd. destruct (Z.eqb_spec (slot_of c' false) (slot_of c true)) as [E|E]; [by apply slot_lead_cp in E|]. by apply Hlead.
Qed.

Lemma set_lead_done init error t m c v : stands_for init error t m -> int32_range c -> call_done init error (utrie2_set32ForLeadSurrogateCodeUnit t c v U_ZERO_ERROR) (spec_call init (SetLead c v) m).
Proof.
  intros Hs Hc. destruct (s_building _ _ _ _ Hs) as [b Hb]. pose proof Hb as [Hv [fl Hinv] _ _ _]. destruct (stands_val _ _ _ _ _ Hs Hb) as [Hcp Hlead]. unfold utrie2_set32ForLeadSurrogateCodeUnit, newTrie. cbn [U_FAILURE spec_call]. rewrite lead_int32, Hv by done.
  destruct (Z.leb_spec 0xd800 c), (Z.leb_spec c 0xdbff); cbn [andb negb]; try (exists t, U_ILLEGAL_ARGUMENT_ERROR; split; [done|right; done]).
  destruct (set32_spec 64 fl b c false v Hinv ltac:(lia)) as (b' & e & -> & [(-> & [Href _] & _)|(-> & Hw)]); cbn [mbind option_bind]; eexists _, _; (split; [done|]); [by left|right]. split; [done|]. apply (stands_holds init error t b b' _ _ Hb (s_init _ _ _ _ Hs) (s_error _ _ _ _ Hs) (w_holds _ _ _ _ _ Hw)).
  - intros c' Hc'. unfold upd. destruct (Z.eqb_spec (slot_of c' true) (slot_of c false)) as [E|E]; [symmetry in E; by apply slot_lead_cp in E|]. by apply Hcp.
  - intros c' Hc'. unfold upd. cbn [of_lead fst]. unfold put. destruct (Z.eqb_spec c' c) as [->|Hne]; [by rewrite !Z.eqb_refl|]. destruct (Z.eqb_spec (slot_of c' false) (slot_of c false)) as [E|E], (Z.eqb_spec (c' mod 32) (c mod 32)) as [E2|E2]; cbn [andb]; try (by apply Hlead). destruct Hne. by apply slot_lead_inj.
Qed.

Lemma set_range_done init error t m lo hi v ov : stands_for init error t m -> int32_range lo -> int32_range hi -> call_done init error (utrie2_setRange32 t lo hi v ov U_ZERO_ERROR) (spec_call init (SetRange lo hi v ov) m).
Proof.
  intros Hs Hlo Hhi. destruct (s_building _ _ _ _ Hs) as [b Hb]. pose proof Hb as [Hv [fl Hinv] _ Hbi _]. destruct (stands_val _ _ _ _ _ Hs Hb) as [Hcp Hlead]. pose proof (s_init _ _ _ _ Hs) as Ei. unfold utrie2_setRange32, newTrie. cbn [U_FAILURE spec_call]. rewrite !uint32_in, Hv by done.
  destruct (Z.leb_spec 0 lo), (Z.leb_spec lo hi), (Z.leb_spec hi 0x10ffff), (Z.leb_spec lo 0x10ffff), (Z.leb_spec 0 hi), (Z.ltb_spec hi lo); try lia; cbn [andb orb negb]; try (exists t, U_ILLEGAL_ARGUMENT_ERROR; split; [done|right; done]).
  destruct (setRange32_spec 64 fl b lo hi v ov Hinv ltac:(lia) ltac:(lia)) as (b' & e & -> & [(-> & Href & _)|(-> & Hh)]); cbn [mbind option_bind]; eexists _, _; (split; [done|]); [by left|right]. split; [done|]. apply (stands_holds init error t b b' _ _ Hb Ei (s_error _ _ _ _ Hs) Hh).
  - intros c Hc. unfold upd_range, in_range. rewrite base_slot by done. replace (c - c mod 32 + c mod 32) with c by lia. cbn [of_cp fst]. unfold put_range, filled. rewrite Hcp, <- Hbi, Ei by done. destruct (Z.leb_spec lo c), (Z.ltb_spec c (hi + 1)), (Z.leb_spec c hi); try lia; done.
  - intros c Hc. unfold upd_range, in_range. pose proof (base_lead c Hc). pose proof (base_aligned (slot_of c false)). destruct (Z.leb_spec lo (base (slot_of c false) + c mod 32)); [dlia|]. by apply Hlead.
Qed.

Lemma run_call_done init error t m k : stands_for init error t m -> call_ok k -> call_done init error (run_call k t U_ZERO_ERROR) (spec_call init k m).
Proof. destruct k as [c v|c v|lo hi v ov]; cbn [call_ok]; [apply set_value_done|apply set_lead_done|intros Hs [? ?]; by apply set_range_done]. Qed.

(** After a failure the calls do nothing. *)
Lemma run_calls_failed ks t e : U_FAILURE e = true -> run_calls ks t e = Some (t, e).
Proof.
  intros He. induction ks as [|k ks IH]; cbn [run_calls]; [done|]. assert (run_call k t e = Some (t, e)) as -> by (destruct k; cbn; unfold utrie2_set32, utrie2_set32ForLeadSurrogateCodeUnit, utrie2_setRange32; by rewrite He). exact IH.
Qed.

Lemma spec_call_error init k m : (spec_call init k m).2 = U_ZERO_ERROR \/ (spec_call init k m).2 = U_ILLEGAL_ARGUMENT_ERROR.
Proof. destruct k; cbn [spec_call]; case_match; auto. Qed.

Lemma run_calls_done init error ks t m : stands_for init error t m -> Forall call_ok ks -> call_done init error (run_calls ks t U_ZERO_ERROR) (spec_calls init ks m).
Proof.
  intros Hs Hks. revert t m Hs. induction Hks as [|k ks Hk Hks IH]; intros t m Hs; cbn [run_calls spec_calls]; [exists t, U_ZERO_ERROR; split; [done|by right]|].
  destruct (run_call_done init error t m k Hs Hk) as (t1 & e & -> & Hd). cbn [mbind option_bind]. pose proof (spec_call_error init k m) as Herr. destruct (spec_call init k m) as [m1 e1]. cbn [fst snd] in Hd, Herr. destruct Hd as [[-> Href]|[-> Hs1]].
  - rewrite run_calls_failed by done. exists t1, U_MEMORY_ALLOCATION_ERROR. split; [done|by left].
  - destruct (U_FAILURE e1) eqn:E; [rewrite run_calls_failed by done; exists t1, e1; split; [done|by right]|]. destruct Herr as [-> | ->]; [by apply IH|done].
Qed.

(** A new trie has the initial value everywhere. *)
Lemma stands_open init error b :
  fresh 64 init error b -> stands_for init error (mk_utrie2 [] 0 0 0 0 init error 0x110000 0 0 None (Building b)) (mk_map (fun _ => init) (fun _ => init)).
Proof.
  intros [Hinv Hl Hval Hr Hi He Hh _]. assert (Hb : building (mk_utrie2 [] 0 0 0 0 init error 0x110000 0 0 None (Building b)) b) by (by constructor). constructor; try done; [by exists b|..]; intros c Hc.
  - rewrite (building_get _ _ _ Hb Hc), Hval by (first [done|by apply slot_cp; lia|dlia]). done.
  - rewrite (building_lead _ _ _ Hb Hc), Hval by (first [done|by apply slot_cp; lia|dlia]). done.
Qed.

(** C8: A new trie on which any calls of [utrie2_set32], [utrie2_set32ForLeadSurrogateCodeUnit] and
    [utrie2_setRange32] are made stands for the functions that the same changes make of the
    constant initial value: reading any code point or any lead surrogate code unit gives the value
    of the function.  Illegal arguments give U_ILLEGAL_ARGUMENT_ERROR and end the changes; no
    other failure is possible but a refused allocation. *)
Theorem trie_calls_refine s1 s2 init error ks :
  0 <= s1 <= INT32_MAX -> 0 <= s2 <= INT32_MAX -> Forall call_ok ks ->
  (refused /\ utrie2_open s1 s2 init error U_ZERO_ERROR = Some (None, U_MEMORY_ALLOCATION_ERROR)) \/
  exists t, utrie2_open s1 s2 init error U_ZERO_ERROR = Some (Some t, U_ZERO_ERROR) /\
    call_done init error (run_calls ks t U_ZERO_ERROR) (spec_calls init ks (mk_map (fun _ => init) (fun _ => init))).
Proof.
  intros H1 H2 Hks. destruct (utrie2_open_spec s1 s2 init error H1 H2) as [H|(b & E & Hf)]; [by left|right]. eexists. split; [exact E|]. apply run_calls_done; [by apply stands_open|done].
Qed.

(** C9: [utrie2_freeze] on a trie whose value array is not full gives a frozen trie that reads, for
    every argument, what the trie stood for: the value of each code point (its low 16 bits in a
    16-bit trie), the error value outside the code points, and the value of each lead surrogate
    code unit.  Otherwise the error says that memory was refused or that the values are too many
    for the format, which cannot be below 226648 values. *)
Theorem freeze_keeps_values init error t m b bits :
  stands_for init error t m -> building t b -> dataLength b < dataCapacity b ->
  exists t' e, utrie2_freeze t bits U_ZERO_ERROR = Some (t', e) /\
  ((e = U_INDEX_OUTOFBOUNDS_ERROR /\ 226648 <= dataLength b) \/ (e = U_MEMORY_ALLOCATION_ERROR /\ refused) \/
   (e = U_ZERO_ERROR /\ newTrie t' = None /\
    (forall c, int32_range c -> utrie2_get32 t' c = Some (conv bits (if (0 <=? c) && (c <=? 0x10ffff) then of_cp m c else error))) /\
    forall c, 0xd800 <= c <= 0xdbff -> utrie2_get32FromLeadSurrogateCodeUnit t' c = Some (conv bits (of_lead m c)))).
Proof.
  intros Hs Hb Hroom. destruct (utrie2_freeze_spec t b bits Hb Hroom) as (t' & e & E & [H|[H|(-> & [Hg Hl Hf])]]); eexists _, _; (split; [exact E|]); [by left|right; by left|right; right]. split; [done|]. split; [done|]. split.
  - intros c Hc. pose proof (uint32_in c Hc) as Hu. destruct ((0 <=? c) && (c <=? 0x10ffff)) eqn:Er; cbn [negb] in Hu.
    + apply andb_true_iff in Er as [Er1 Er2]. apply Z.leb_le in Er1, Er2. rewrite Hg, (s_cp _ _ _ _ Hs) by lia. done.
    + apply Z.ltb_lt in Hu. rewrite Hg by (by right). rewrite (building_out t b c Hb Hu), (s_error _ _ _ _ Hs). done.
  - intros c Hc. by rewrite Hl, (s_lead _ _ _ _ Hs).
Qed.
End Calls.

Lemma trie_calls_refine_witness :
  let ks := [SetRange 0x100 0x2ff 7 true; SetValue 0x200 9; SetRange 0x1f0 0x210 5 false; SetLead 0xd801 3; SetRange 0xd000 0x10fff 4 false] in
  exists t t', utrie2_open (HP := big_heap) 1 1 0 0xffff U_ZERO_ERROR = Some (Some t, U_ZERO_ERROR) /\ run_calls (HP := big_heap) ks t U_ZERO_ERROR = Some (t', U_ZERO_ERROR) /\
    utrie2_get32 t' 0x200 = Some 9 /\ utrie2_get32 t' 0x210 = Some 7 /\ utrie2_get32 t' 0x300 = Some 0 /\ utrie2_get32 t' 0xd801 = Some 4 /\ utrie2_get32FromLeadSurrogateCodeUnit t' 0xd801 = Some 3.
Proof.
  intros ks. destruct (trie_calls_refine (HP := big_heap) 1 1 0 0xffff ks) as [[Href _]|(t & E & t' & e & E2 & [[_ Href]|[-> Hs]])]; [unfold INT32_MAX; lia|unfold INT32_MAX; lia| |by destruct (big_heap_grants Href)|by destruct (big_heap_grants Href)|].
  - repeat constructor; unfold int32_range; lia.
  - exists t, t'. split; [exact E|]. split; [exact E2|]. split_and!; [rewrite (s_cp _ _ _ _ Hs) by lia; vm_compute; reflexivity..|rewrite (s_lead _ _ _ _ Hs) by lia; vm_compute; reflexivity].
Defined.

Lemma freeze_keeps_values_witness :
  exists t t', utrie2_open (HP := big_heap) 1 1 0x12345 0xffff U_ZERO_ERROR = Some (Some t, U_ZERO_ERROR) /\ utrie2_freeze (HP := big_heap) t UTRIE2_16_VALUE_BITS U_ZERO_ERROR = Some (t', U_ZERO_ERROR) /\
    utrie2_get32 t' 0x41 = Some 0x2345 /\ utrie2_get32 t' (-1) = Some 0xffff.
Proof.
  destruct (utrie2_open_spec (HP := big_heap) 1 1 0x12345 0xffff) as [[Href _]|(b & E & Hf)]; [unfold INT32_MAX; lia|unfold INT32_MAX; lia|by destruct (big_heap_grants Href)|]. pose proof (stands_open 0x12345 0xffff b Hf) as Hs. destruct Hf as [[fl Hinv] Hl Hval Hr Hi He Hh _].
  destruct (freeze_keeps_values (HP := big_heap) 0x12345 0xffff _ _ b UTRIE2_16_VALUE_BITS Hs) as (t' & e & E2 & [[_ Hbig]|[[_ Href]|(-> & _ & Hg & _)]]).
  - constructor; [done|by exists fl|done..].
  - pose proof (UTrie2Facts.i_cap _ _ _ _ Hinv). lia.
  - lia.
  - by destruct (big_heap_grants Href).
  - eexists _, t'. split; [exact E|]. split; [exact E2|]. split; (rewrite Hg; [vm_compute; reflexivity|unfold int32_range; lia]).
Defined.
End UTrie2Spec.
