(* ===== verification/UTrie2Overflow.v ===== *)
(** * A full array of values

    [compactTrie] stores the high value behind the compacted values without comparing their number
    with the capacity of the array.  A trie whose 16384 first values cannot be packed any closer
    makes it write past the end. *)

From S2P Require Import Prelude Utf16 UTrie2 UTrie2Facts UTrie2Blocks UTrie2Update UTrie2Open UTrie2Freeze UTrie2Pack UTrie2Data UTrie2Index UTrie2Frozen UTrie2Spec.

Module UTrie2Overflow.
Import Utf16 UTrie2 UTrie2Facts UTrie2Blocks UTrie2Update UTrie2Open UTrie2Freeze UTrie2Pack UTrie2Data UTrie2Index UTrie2Frozen UTrie2Spec.

(** The calls: code point [c] gets the value [c+1], for the first 16256 code points. *)
Definition distinct_calls (c n : Z) : list call := map (fun c => SetValue c (c + 1)) (seqZ c n).
Definition filled_to (c : Z) (s j : Z) : Z := if (s <? 34816) && (32 * s + j <? c) then 32 * s + j + 1 else 0.

(** An injective function into fewer numbers. *)
Lemma injection_bound (f : Z -> Z) n m : 0 < n -> (forall k, 0 <= k < n -> 0 <= f k < m) -> (forall k k', 0 <= k < n -> 0 <= k' < n -> f k = f k' -> k = k') -> n <= m.
Proof.
  intros Hn Hr Hinj. assert (Hd : NoDup (f <$> seqZ 0 n)) by (apply NoDup_fmap_2_strong; [intros x y Hx%elem_of_seqZ Hy%elem_of_seqZ; apply Hinj; lia|apply NoDup_seqZ]).
  assert (Hsub : f <$> seqZ 0 n ⊆ seqZ 0 m) by (intros y (x & -> & Hx%elem_of_seqZ)%list_elem_of_fmap; apply elem_of_seqZ; specialize (Hr x); lia).
  pose proof (submseteq_length _ _ (NoDup_submseteq _ _ Hd Hsub)) as Hle. rewrite length_fmap, !length_seqZ in Hle. lia.
Qed.

(** ** How many values are allocated *)

Section Heap.
Context `{HP : Heap}.

(** A slot that has its own block needs no other. *)
Lemma set32_own_size n fl t c lscp v t' e :
  inv n (-1) fl t -> 0 <= c <= 0x10ffff -> blk t (slot_of c lscp) <> 192 -> uses t (blk t (slot_of c lscp)) = 1 -> set32 t c lscp v = Some (t', e) -> same_size t t'.
Proof.
  intros Hinv Hc Hn Hu. pose proof (slot_cp c lscp Hc) as Hs. unfold set32, getDataBlock. rewrite (i_open _ _ _ _ Hinv). destruct (getIndex2Block_spec n (-1) fl t c lscp Hinv Hc) as (t1 & i2 & E1 & H0 & Ep & _ & Hinv1 & Hsame). pose proof (getIndex2Block_size _ _ _ _ _ E1) as [Z1 Z2]. rewrite E1. cbn [mbind option_bind].
  destruct (Z.ltb_spec i2 0); [lia|]. unfold UTRIE2_SHIFT_2, UTRIE2_INDEX_2_MASK. rewrite shift5, mask63, Ep, (index2_get Hinv1 _ Hs). cbn [mbind option_bind]. rewrite (isWritableBlock_blk Hinv1 _ Hs), (sb_blk _ _ Hsame _ Hs), (same_uses t t1 _ Hsame), Hu.
  destruct (Z.eqb_spec (blk t (slot_of c lscp)) 192); [done|]. cbn [negb andb Z.eqb mbind option_bind]. change (1 =? 1) with true. cbv iota. intros H'. step_option; split; cbn [set_data dataLength dataCapacity]; done.
Qed.
End Heap.

(** A slot with two values has its own block. *)
Lemma two_values_own n held fl t s : inv n held fl t -> slot s -> val t s 0 <> val t s 1 -> blk t s <> 192 /\ uses t (blk t s) = 1.
Proof.
  intros Hinv Hs Hne. destruct (Z.eq_dec (blk t s) 192) as [E|Hn].
  - destruct Hne. unfold val. rewrite E, !(i_null_data _ _ _ _ Hinv) by lia. done.
  - split; [done|]. pose proof (uses_pos t s Hs). destruct (Z.eq_dec (uses t (blk t s)) 1); [done|]. destruct (shared_const n held fl t s Hinv Hs) as (w & Hw & _); [right; lia|]. destruct Hne. by rewrite !Hw by lia.
Qed.

(** ** Filling the trie *)

Record filling (c : Z) (b : UNewTrie2) : Prop := {
  z_inv : exists fl, inv 64 (-1) fl b;
  z_cap : dataCapacity b = 16384;
  z_len : dataLength b <= 128 + 32 * Z.max 64 ((c + 31) / 32);
  z_val : forall s j, slot s -> 0 <= j < 32 -> val b s j = filled_to c s j;
  z_init : initialValue b = 0;
  z_error : errorValue b = 65536;
  z_high : highStart b = 0x110000
}.

Lemma slot_low c : 0 <= c < 16256 -> slot_of c true = c / 32.
Proof. intros Hc. unfold slot_of. destruct (U16_IS_LEAD c) eqn:E; [apply lead_range in E; lia|done]. Qed.

Section Heap2.
Context `{HP : Heap}.

Lemma filling_step c b : ~ refused -> 0 <= c < 16256 -> filling c b -> exists b', set32 b c true (c + 1) = Some (b', U_ZERO_ERROR) /\ filling (c + 1) b'.
Proof.
  intros Hgrant Hc [[fl Hinv] Hcap Hlen Hval Hi He Hh]. assert (Hcr : 0 <= c <= 0x10ffff) by lia. destruct (set32_spec 64 fl b c true (c + 1) Hinv Hcr) as (b' & e & E & [(_ & [Href _] & _)|(-> & Hw)]); [by destruct Hgrant|]. exists b'. split; [exact E|]. pose proof (w_holds _ _ _ _ _ Hw) as Hh'. rewrite slot_low in Hh' by done.
  pose proof (slot_cp c true Hcr) as Hs. rewrite slot_low in Hs by done. assert (Hsize : dataCapacity b' = 16384 /\ dataLength b' <= 128 + 32 * Z.max 64 ((c + 1 + 31) / 32)).
  { destruct (Z.lt_ge_cases (c / 32) (Z.max 64 ((c + 31) / 32))) as [Hold|Hnew].
    - assert (Hown : blk b (c / 32) <> 192 /\ uses b (blk b (c / 32)) = 1).
      { destruct (Z.lt_ge_cases (c / 32) 64) as [Hlow|Hhigh]; [destruct (i_lin _ _ _ _ Hinv (c / 32) ltac:(dlia)) as [-> ->]; split; [apply lin_not_null; dlia|done]|]. apply (two_values_own 64 (-1) fl b _ Hinv Hs). rewrite !Hval by (done || lia). unfold filled_to. destruct (Z.ltb_spec (c / 32) 34816); [|dlia]. cbn [andb]. destruct (Z.ltb_spec (32 * (c / 32) + 0) c), (Z.ltb_spec (32 * (c / 32) + 1) c); dlia. }
      destruct Hown as [Hn Hu]. destruct (set32_own_size 64 fl b c true (c + 1) b' U_ZERO_ERROR Hinv Hcr) as [S1 S2]; [by rewrite slot_low|by rewrite slot_low|exact E|]. rewrite S1, S2. split; [done|]. dlia.
    - destruct (set32_size _ _ _ _ _ _ E) as [S1 S2]; [rewrite Hcap; dlia|]. rewrite S1. split; [done|]. dlia. }
  destruct Hsize as [S1 S2]. constructor; [apply Hh'|done|done| |rewrite (h_init _ _ _ _ Hh'); done|rewrite (h_error _ _ _ _ Hh'); done|rewrite (h_high _ _ _ _ Hh'); done].
  intros s j Hs' Hj. rewrite (h_val _ _ _ _ Hh' s j Hs' Hj). unfold upd. rewrite Hval by done. unfold filled_to. destruct (Z.eqb_spec s (c / 32)) as [->|], (Z.eqb_spec j (c mod 32)) as [->|]; cbn [andb].
  - destruct (Z.ltb_spec (c / 32) 34816); [|dlia]. cbn [andb]. destruct (Z.ltb_spec (32 * (c / 32) + c mod 32) (c + 1)); dlia.
  - destruct (Z.ltb_spec (c / 32) 34816); [|dlia]. cbn [andb]. destruct (Z.ltb_spec (32 * (c / 32) + j) c), (Z.ltb_spec (32 * (c / 32) + j) (c + 1)); try done; dlia.
  - destruct (Z.ltb_spec s 34816); [|done]. cbn [andb]. destruct (Z.ltb_spec (32 * s + c mod 32) c), (Z.ltb_spec (32 * s + c mod 32) (c + 1)); try done; dlia.
  - destruct (Z.ltb_spec s 34816); [|done]. cbn [andb]. destruct (Z.ltb_spec (32 * s + j) c), (Z.ltb_spec (32 * s + j) (c + 1)); try done; dlia.
Qed.

(** The trie object around it. *)
Record filling_trie (c : Z) (t : utrie2) (b : UNewTrie2) : Prop := { y_filling : filling c b; y_building : building t b }.

Lemma filling_calls n c t b :
  ~ refused -> 0 <= c -> c + Z.of_nat n <= 16256 -> filling_trie c t b -> exists t' b', run_calls (distinct_calls c (Z.of_nat n)) t U_ZERO_ERROR = Some (t', U_ZERO_ERROR) /\ filling_trie (c + Z.of_nat n) t' b'.
Proof.
  intros Hgrant. revert c t b. induction n as [|n IH]; intros c t b H0 Hc [Hf Hb].
  - exists t, b. split; [done|]. by rewrite Z.add_0_r.
  - unfold distinct_calls. rewrite Nat2Z.inj_succ, seqZ_cons by lia. cbn [map run_calls run_call]. replace (Z.pred (Z.succ (Z.of_nat n))) with (Z.of_nat n) by lia. destruct (filling_step c b Hgrant ltac:(lia) Hf) as (b1 & E1 & Hf1). unfold utrie2_set32, newTrie. cbn [U_FAILURE]. rewrite uint32_in by (unfold int32_range; lia).
    destruct (Z.leb_spec 0 c), (Z.leb_spec c 0x10ffff); try lia. cbn [andb negb]. rewrite (b_values _ _ Hb), E1. cbn [mbind option_bind]. destruct (IH (c + 1) (set_values t (Building b1)) b1) as (t' & b' & E & Hd); [lia|lia| |].
    + split; [done|]. destruct Hf1 as [Hinv1 _ _ _ I1 R1 G1], Hf as [_ _ _ _ I0 R0 _], Hb as [_ _ _ Bi Be]. constructor; [done|done|done|cbn; congruence|cbn; congruence].
    + exists t', b'. replace (Z.succ c) with (c + 1) by lia. split; [exact E|]. by replace (c + Z.succ (Z.of_nat n)) with (c + 1 + Z.of_nat n) by lia.
Qed.

(** ** Counting the compacted values *)

(** A new trie is filled up to U+0000. *)
Lemma filling_start b : fresh 64 0 65536 b -> filling 0 b.
Proof.
  intros [Hinv Hl Hval _ Hi He Hh Hcap]. constructor; [done|done|rewrite Hl; cbn; lia| |done|done|done].
  intros s j Hs Hj. rewrite Hval by done. unfold filled_to. destruct (Z.ltb_spec s 34816); [|done]. cbn [andb]. destruct (Z.ltb_spec (32 * s + j) 0); [unfold slot in Hs; lia|done].
Qed.

(** Where the compacted data has the [k]-th of 16384 required values: each of the 16256 values
    once, the error value 64 times and the initial value 64 times. *)
Definition required (k : Z) : Z := if k <? 16256 then k + 1 else if k <? 16320 then 65536 else 0.
Definition place_of (b t3 : UNewTrie2) (k : Z) : Z :=
  if k <? 16256 then rd (index2 t3) (pos b (k / 32)) + k mod 32 else if k <? 16320 then 128 + (k - 16256) else dataNullOffset t3 + (k - 16320).

Lemma filled_compacted b h hv b2 t3 t4 : filling 16256 b -> compact_steps b h hv b2 t3 t4 -> 16384 <= dataLength t3.
Proof.
  intros [_ _ _ Hval Hi He _] [_ _ [fl Hinv] (S1 & S2 & S3 & _ & _) Hval2 Hc _]. pose proof (c_len _ Hc) as [L1 L2]. destruct (c_null_data _ Hc) as [N1 N2]. destruct (c_null _ Hc) as [[N3 _] _].
  assert (Hput : forall k, 0 <= k < 16384 -> 0 <= place_of b2 t3 k < dataLength t3 /\ rd (data t3) (place_of b2 t3 k) = required k).
  { intros k Hk. unfold place_of, required. destruct (Z.ltb_spec k 16256) as [H|H]; [|destruct (Z.ltb_spec k 16320)].
    - assert (Hs : slot (k / 32)) by (unfold slot; dlia). destruct (c_entry _ Hc _ (pos_entry Hinv _ Hs)) as (P1 & P2 & _ & P4). split; [dlia|]. rewrite P4 by dlia. change (rd (data b2) _) with (val b2 (k / 32) (k mod 32)).
      pose proof (base_slot k ltac:(lia)) as Hbase. rewrite slot_low in Hbase by lia. rewrite Hval2 by (first [done|dlia]). rewrite Hval by (done || dlia). unfold filled_to. destruct (Z.ltb_spec (k / 32) 34816); [|dlia]. cbn [andb]. destruct (Z.ltb_spec (32 * (k / 32) + k mod 32) 16256); dlia.
    - split; [lia|]. rewrite (c_linear _ Hc), (i_bad _ _ _ _ Hinv) by lia. by rewrite S2.
    - split; [lia|]. rewrite N2 by lia. by rewrite S3. }
  assert (Hinj : forall k k', 0 <= k < 16384 -> 0 <= k' < 16384 -> place_of b2 t3 k = place_of b2 t3 k' -> k = k').
  { intros k k' Hk Hk' E. destruct (Hput k Hk) as [_ V], (Hput k' Hk') as [_ V']. rewrite E, V' in V. unfold required in V. unfold place_of in E.
    destruct (Z.ltb_spec k 16256), (Z.ltb_spec k' 16256), (Z.ltb_spec k 16320), (Z.ltb_spec k' 16320); lia. }
  by apply (injection_bound (place_of b2 t3)); [lia|intros k Hk; by apply Hput|].
Qed.

(** Nothing is left for the high value. *)
Lemma filled_fails t b bits : building t b -> filling 16256 b -> utrie2_freeze t bits U_ZERO_ERROR = None.
Proof.
  intros Hb Hf. pose proof Hb as [Hv [fl0 Hinv0] _ _ _]. destruct (compactTrie_steps t b Hb) as (h & hv & b2 & t3 & t4 & Hrun & Hst). pose proof (filled_compacted _ _ _ _ _ _ Hf Hst) as Hfull. destruct Hst as [_ _ [fl Hinv] (_ & _ & _ & S4 & S5) _ Hc Hcase].
  pose proof (c_len _ Hc) as [L1 L2]. pose proof (c_data _ Hc) as [D1 _]. destruct (index_data h t3 t4 Hcase) as [E1 E2]. pose proof (z_len _ _ Hf) as Hlen. pose proof (z_cap _ _ Hf) as Hcap. change (128 + 32 * Z.max 64 ((16256 + 31) / 32)) with 16384 in Hlen.
  unfold utrie2_freeze. cbn [U_FAILURE]. rewrite Hv, (i_open _ _ _ _ Hinv0), Hrun. destruct (store_high_spec t4 hv (initialValue b)) as [(Hlt & _)|(_ & ->)]; [lia|by rewrite E2|rewrite E1, D1, S5, Hcap; done|rewrite E1, E2, D1 in Hlt; lia|done].
Qed.

(** C40: When 16256 different values that are neither the initial value nor the error value are set at
    U+0000 to U+3F7F of a new trie, every call succeeds, but [utrie2_freeze] then writes outside the
    value array, for both widths of the values: the compacted values fill the array exactly and
    [compactTrie] stores the high value behind them without a comparison with [dataCapacity]. *)
Theorem freeze_writes_past_full_array s1 s2 bits :
  0 <= s1 <= INT32_MAX -> 0 <= s2 <= INT32_MAX -> ~ refused ->
  exists t t', utrie2_open s1 s2 0 65536 U_ZERO_ERROR = Some (Some t, U_ZERO_ERROR) /\
    run_calls (distinct_calls 0 16256) t U_ZERO_ERROR = Some (t', U_ZERO_ERROR) /\ utrie2_freeze t' bits U_ZERO_ERROR = None.
Proof.
  intros H1 H2 Hgrant. destruct (utrie2_open_spec s1 s2 0 65536 H1 H2) as [[Href _]|(b & E & Hf)]; [done|]. eexists.
  destruct (filling_calls 16256 0 (mk_utrie2 [] 0 0 0 0 0 65536 0x110000 0 0 None (Building b)) b Hgrant) as (t' & b' & E2 & [Hf' Hb']); [done|done| |].
  - split; [by apply filling_start|]. destruct Hf. by constructor.
  - exists t'. split; [exact E|]. split; [exact E2|]. by apply (filled_fails t' b').
Qed.
End Heap2.

Lemma freeze_writes_past_full_array_witness :
  exists t t', utrie2_open (HP := big_heap) 1 1 0 65536 U_ZERO_ERROR = Some (Some t, U_ZERO_ERROR) /\ run_calls (HP := big_heap) (distinct_calls 0 16256) t U_ZERO_ERROR = Some (t', U_ZERO_ERROR) /\ utrie2_freeze (HP := big_heap) t' UTRIE2_32_VALUE_BITS U_ZERO_ERROR = None.
Proof. apply (freeze_writes_past_full_array (HP := big_heap) 1 1 UTRIE2_32_VALUE_BITS); [unfold INT32_MAX; lia|unfold INT32_MAX; lia|exact big_heap_grants]. Defined.
End UTrie2Overflow.
