(* ===== verification/StringSearch.v ===== *)
(** * Searching in strings (common/ustring.cpp)

    The searches for substrings, units and code points, forwards and backwards, in counted and in
    NUL-terminated strings; the searches for the members of a set of code points; tokens and
    concatenation.  A [const UChar *] is the list of the units from that address on; the result
    of a search is an offset, or [None] for the null pointer. *)

From S2P Require Import Prelude Utf16 UString.

Module StringSearch.
Import Utf16.

(** ** Matches at code point boundaries *)

(** [limit] may be null; all offsets are from [start]. *)
Definition isMatchAtCPBoundary (a : list Z) (match_ matchLimit : Z) (limit : option Z) : option bool :=
  m ← zget a match_;
  split ← (if U16_IS_TRAIL m && negb (match_ =? 0) then b ← zget a (match_ - 1); Some (U16_IS_LEAD b) else Some false);
  if (split : bool) then Some false
  else
    e ← zget a (matchLimit - 1);
    split ← (if U16_IS_LEAD e && negb (bool_decide (limit = Some match_)) then f ← zget a matchLimit; Some (U16_IS_TRAIL f) else Some false);
    Some (negb split).

(** ** Forward search *)

(** The end of the rest of the substring: an offset, or a NUL. *)
Definition at_sub_end (sub : list Z) (subLimit : option Z) (q : Z) : option bool :=
  match subLimit with Some e => Some (q =? e) | None => c ← zget sub q; Some (c =? 0) end.

(** Comparing the rest: a match that ends at an offset, the end of the NUL-terminated text, a
    difference. *)
Inductive compared := Full (p : Z) | Ended | Differs.

Fixpoint compare_rest (fuel : nat) (a sub : list Z) (subLimit : option Z) (nul : bool) (p q : Z) : option compared :=
  match fuel with
  | O => None
  | S fuel =>
      e ← at_sub_end sub subLimit q;
      if (e : bool) then Some (Full p)
      else
        c ← zget a p;
        if nul && (c =? 0) then Some Ended
        else cq ← zget sub q; if c =? cq then compare_rest fuel a sub subLimit nul (p + 1) (q + 1) else Some Differs
  end.

(** [preLimit] is null for a NUL-terminated text. *)
Fixpoint search_loop (fuel : nat) (a sub : list Z) (cs : Z) (subLimit preLimit limit : option Z) (s : Z) : option (option Z) :=
  match fuel with
  | O => None
  | S fuel =>
      if bool_decide (preLimit = Some s) then Some None
      else
        c ← zget a s;
        if bool_decide (preLimit = None) && (c =? 0) then Some None
        else if c =? cs then
          r ← compare_rest (S (List.length sub)) a sub subLimit (bool_decide (preLimit = None)) (s + 1) 1;
          match r with
          | Full p => ok ← isMatchAtCPBoundary a s p limit; if (ok : bool) then Some (Some s) else search_loop fuel a sub cs subLimit preLimit limit (s + 1)
          | Ended => Some None
          | Differs => search_loop fuel a sub cs subLimit preLimit limit (s + 1)
          end
        else search_loop fuel a sub cs subLimit preLimit limit (s + 1)
  end.

(** The trivial search for one unit that is no surrogate, with a NUL or a limit at the end. *)
Fixpoint strchr_loop (a : list Z) (c s : Z) : option (option Z) :=
  match a with
  | [] => None
  | cs :: a => if cs =? c then Some (Some s) else if cs =? 0 then Some None else strchr_loop a c (s + 1)
  end.

Fixpoint memchr_loop (n : nat) (a : list Z) (c s : Z) : option (option Z) :=
  match n with
  | O => Some None
  | S n => x ← zget a s; if x =? c then Some (Some s) else memchr_loop n a c (s + 1)
  end.

Definition fuel_for (a : list Z) : nat := S (S (List.length a)).

Definition u_strFindFirst (s : option (list Z)) (length : Z) (sub : option (list Z)) (subLength : Z) : option (option Z) :=
  match sub with
  | None => Some (match s with Some _ => Some 0 | None => None end)
  | Some sub =>
      if subLength <? -1 then Some (match s with Some _ => Some 0 | None => None end)
      else match s with
      | None => Some None
      | Some a =>
          if length <? -1 then Some None
          else if (length <? 0) && (subLength <? 0) then
            cs ← zget sub 0;
            if cs =? 0 then Some (Some 0)
            else
              next ← zget sub 1;
              if (next =? 0) && negb (U_IS_SURROGATE cs) then strchr_loop a cs 0 else search_loop (fuel_for a) a sub cs None None None 0
          else
            subLength ← (if subLength <? 0 then ustring.u_strlen sub else Some subLength);
            if subLength =? 0 then Some (Some 0)
            else
              cs ← zget sub 0;
              if (subLength - 1 =? 0) && negb (U_IS_SURROGATE cs) then
                if length <? 0 then strchr_loop a cs 0 else memchr_loop (Z.to_nat length) a cs 0
              else if length <? 0 then search_loop (fuel_for a) a sub cs (Some subLength) None None 0
              else if length <=? subLength - 1 then Some None
              else search_loop (fuel_for a) a sub cs (Some subLength) (Some (length - (subLength - 1))) (Some length) 0
      end
  end.

Definition u_strstr (s substring : list Z) : option (option Z) := u_strFindFirst (Some s) (-1) (Some substring) (-1).

Definition u_strchr (s : list Z) (c : Z) : option (option Z) := if U_IS_SURROGATE c then u_strFindFirst (Some s) (-1) (Some [c]) 1 else strchr_loop s c 0.

(** The search for a surrogate pair. *)
Fixpoint strchr32_loop (a : list Z) (lead trail s : Z) : option (option Z) :=
  match a with
  | [] => None
  | cs :: a =>
      if cs =? 0 then Some None
      else found ← (if cs =? lead then t ← zget a 0; Some (t =? trail) else Some false); if (found : bool) then Some (Some s) else strchr32_loop a lead trail (s + 1)
  end.

Definition u_strchr32 (s : list Z) (c : Z) : option (option Z) :=
  if uint32 c <=? 0xffff then u_strchr s (uint16 c)
  else if uint32 c <=? 0x10ffff then strchr32_loop s (U16_LEAD c) (U16_TRAIL c) 0
  else Some None.

Definition u_memchr (s : list Z) (c count : Z) : option (option Z) :=
  if count <=? 0 then Some None
  else if U_IS_SURROGATE c then u_strFindFirst (Some s) count (Some [c]) 1
  else memchr_loop (Z.to_nat count) s c 0.

Fixpoint memchr32_loop (n : nat) (a : list Z) (lead trail s : Z) : option (option Z) :=
  match n with
  | O => Some None
  | S n =>
      x ← zget a s;
      found ← (if x =? lead then t ← zget a (s + 1); Some (t =? trail) else Some false);
      if (found : bool) then Some (Some s) else memchr32_loop n a lead trail (s + 1)
  end.

Definition u_memchr32 (s : list Z) (c count : Z) : option (option Z) :=
  if uint32 c <=? 0xffff then u_memchr s (uint16 c) count
  else if count <? 2 then Some None
  else if uint32 c <=? 0x10ffff then memchr32_loop (Z.to_nat (count - 1)) s (U16_LEAD c) (U16_TRAIL c) 0
  else Some None.

(** ** Backward search *)

(** From the last units of both; [q] counts the units of the substring left to compare. *)
Fixpoint compare_back (n : nat) (a sub : list Z) (p q : Z) : option compared :=
  match n with
  | O => Some (Full p)
  | S n => x ← zget a (p - 1); y ← zget sub (q - 1); if x =? y then compare_back n a sub (p - 1) (q - 1) else Some Differs
  end.

(** [while(s!=limit)]: [n] offsets are left, [limit] is the next end. *)
Fixpoint search_back (n : nat) (a sub : list Z) (cs rest length limit : Z) : option (option Z) :=
  match n with
  | O => Some None
  | S n =>
      let limit := limit - 1 in
      c ← zget a limit;
      if c =? cs then
        r ← compare_back (Z.to_nat rest) a sub limit rest;
        match r with
        | Full p => ok ← isMatchAtCPBoundary a p (limit + 1) (Some length); if (ok : bool) then Some (Some p) else search_back n a sub cs rest length limit
        | _ => search_back n a sub cs rest length limit
        end
      else search_back n a sub cs rest length limit
  end.

Fixpoint strrchr_loop (a : list Z) (c s : Z) (result : option Z) : option (option Z) :=
  match a with
  | [] => None
  | cs :: a => let result := if cs =? c then Some s else result in if cs =? 0 then Some result else strrchr_loop a c (s + 1) result
  end.

Fixpoint memrchr_loop (n : nat) (a : list Z) (c limit : Z) : option (option Z) :=
  match n with
  | O => Some None
  | S n => x ← zget a (limit - 1); if x =? c then Some (Some (limit - 1)) else memrchr_loop n a c (limit - 1)
  end.

Definition u_strFindLast (s : option (list Z)) (length : Z) (sub : option (list Z)) (subLength : Z) : option (option Z) :=
  match sub with
  | None => Some (match s with Some _ => Some 0 | None => None end)
  | Some sub =>
      if subLength <? -1 then Some (match s with Some _ => Some 0 | None => None end)
      else match s with
      | None => Some None
      | Some a =>
          if length <? -1 then Some None
          else
            subLength ← (if subLength <? 0 then ustring.u_strlen sub else Some subLength);
            if subLength =? 0 then Some (Some 0)
            else
              cs ← zget sub (subLength - 1);
              if (subLength - 1 =? 0) && negb (U_IS_SURROGATE cs) then
                if length <? 0 then strrchr_loop a cs 0 None else if length <=? 0 then Some None else memrchr_loop (Z.to_nat length) a cs length
              else
                length ← (if length <? 0 then ustring.u_strlen a else Some length);
                if length <=? subLength - 1 then Some None
                else search_back (Z.to_nat (length - (subLength - 1))) a sub cs (subLength - 1) length length
      end
  end.

Definition u_strrstr (s substring : list Z) : option (option Z) := u_strFindLast (Some s) (-1) (Some substring) (-1).

Definition u_strrchr (s : list Z) (c : Z) : option (option Z) := if U_IS_SURROGATE c then u_strFindLast (Some s) (-1) (Some [c]) 1 else strrchr_loop s c 0 None.

Fixpoint strrchr32_loop (a : list Z) (lead trail s : Z) (result : option Z) : option (option Z) :=
  match a with
  | [] => None
  | cs :: a =>
      if cs =? 0 then Some result
      else found ← (if cs =? lead then t ← zget a 0; Some (t =? trail) else Some false); strrchr32_loop a lead trail (s + 1) (if (found : bool) then Some s else result)
  end.

Definition u_strrchr32 (s : list Z) (c : Z) : option (option Z) :=
  if uint32 c <=? 0xffff then u_strrchr s (uint16 c)
  else if uint32 c <=? 0x10ffff then strrchr32_loop s (U16_LEAD c) (U16_TRAIL c) 0 None
  else Some None.

Definition u_memrchr (s : list Z) (c count : Z) : option (option Z) :=
  if count <=? 0 then Some None
  else if U_IS_SURROGATE c then u_strFindLast (Some s) count (Some [c]) 1
  else memrchr_loop (Z.to_nat count) s c count.

(** [limit] runs down from the last unit. *)
Fixpoint memrchr32_loop (n : nat) (a : list Z) (lead trail limit : Z) : option (option Z) :=
  match n with
  | O => Some None
  | S n =>
      x ← zget a limit;
      found ← (if x =? trail then y ← zget a (limit - 1); Some (y =? lead) else Some false);
      if (found : bool) then Some (Some (limit - 1)) else memrchr32_loop n a lead trail (limit - 1)
  end.

Definition u_memrchr32 (s : list Z) (c count : Z) : option (option Z) :=
  if uint32 c <=? 0xffff then u_memrchr s (uint16 c) count
  else if count <? 2 then Some None
  else if uint32 c <=? 0x10ffff then memrchr32_loop (Z.to_nat (count - 1)) s (U16_LEAD c) (U16_TRAIL c) (count - 1)
  else Some None.

(** ** Sets of code points *)

(** The units in front of the first surrogate, and of the NUL. *)
Fixpoint matchBMPLen_loop (fuel : nat) (matchSet : list Z) (i : Z) : option Z :=
  match fuel with
  | O => None
  | S fuel => c ← zget matchSet i; if negb (c =? 0) && U16_IS_SINGLE c then matchBMPLen_loop fuel matchSet (i + 1) else Some i
  end.
Fixpoint matchLen_loop (fuel : nat) (matchSet : list Z) (i : Z) : option Z :=
  match fuel with
  | O => None
  | S fuel => c ← zget matchSet i; if negb (c =? 0) then matchLen_loop fuel matchSet (i + 1) else Some i
  end.

(** Whether a unit, or a code point, is in the set. *)
Fixpoint match_unit (fuel : nat) (matchSet : list Z) (c matchItr matchLen : Z) : option bool :=
  match fuel with
  | O => None
  | S fuel => if matchItr <? matchLen then m ← zget matchSet matchItr; if c =? m then Some true else match_unit fuel matchSet c (matchItr + 1) matchLen else Some false
  end.
Fixpoint match_cp (fuel : nat) (matchSet : list Z) (stringCh matchItr matchLen : Z) : option bool :=
  match fuel with
  | O => None
  | S fuel =>
      if matchItr <? matchLen then
        '(matchCh, matchItr) ← U16_NEXT matchSet matchItr matchLen; if stringCh =? matchCh then Some true else match_cp fuel matchSet stringCh matchItr matchLen
      else Some false
  end.

Fixpoint matchFromSet_loop (fuel : nat) (string matchSet : list Z) (matchBMPLen matchLen : Z) (polarity : bool) (strItr : Z) : option Z :=
  match fuel with
  | O => None
  | S fuel =>
      c ← zget string strItr;
      if c =? 0 then Some (- strItr - 1)
      else
        let strItr := strItr + 1 in
        if U16_IS_SINGLE c then
          found ← match_unit (fuel_for matchSet) matchSet c 0 matchLen;
          if bool_decide (found = polarity) then Some (strItr - 1) else matchFromSet_loop fuel string matchSet matchBMPLen matchLen polarity strItr
        else
          c2 ← (if U16_IS_SURROGATE_LEAD c then c2 ← zget string strItr; Some (if U16_IS_TRAIL c2 then Some c2 else None) else Some None);
          let '(strItr, stringCh) := match c2 with Some c2 => (strItr + 1, U16_GET_SUPPLEMENTARY c c2) | None => (strItr, c) end in
          found ← match_cp (fuel_for matchSet) matchSet stringCh matchBMPLen matchLen;
          if bool_decide (found = polarity) then Some (strItr - U16_LENGTH stringCh) else matchFromSet_loop fuel string matchSet matchBMPLen matchLen polarity strItr
  end.

Definition _matchFromSet (string matchSet : list Z) (polarity : bool) : option Z :=
  matchBMPLen ← matchBMPLen_loop (fuel_for matchSet) matchSet 0;
  matchLen ← matchLen_loop (fuel_for matchSet) matchSet matchBMPLen;
  matchFromSet_loop (fuel_for string) string matchSet matchBMPLen matchLen polarity 0.

Definition u_strpbrk (string matchSet : list Z) : option (option Z) := idx ← _matchFromSet string matchSet true; Some (if 0 <=? idx then Some idx else None).
Definition u_strcspn (string matchSet : list Z) : option Z := idx ← _matchFromSet string matchSet true; Some (if 0 <=? idx then idx else - idx - 1).
Definition u_strspn (string matchSet : list Z) : option Z := idx ← _matchFromSet string matchSet false; Some (if 0 <=? idx then idx else - idx - 1).

(** ** Tokens *)

(** The buffer, with offsets for the pointers [src] and [*saveState]: the token, the buffer with its
    delimiter overwritten, and the new state. *)
Definition u_strtok_r (buffer : list Z) (src : option Z) (delim : list Z) (saveState : option Z) : option (option Z * list Z * option Z) :=
  match (match src with Some p => Some (p, Some p) | None => match saveState with Some p => Some (p, Some p) | None => None end end) with
  | None => Some (None, buffer, saveState)
  | Some (tokSource, saveState) =>
      nonDelimIdx ← u_strspn (drop (Z.to_nat tokSource) buffer) delim;
      let tokSource := tokSource + nonDelimIdx in
      c ← zget buffer tokSource;
      if negb (c =? 0) then
        nextToken ← u_strpbrk (drop (Z.to_nat tokSource) buffer) delim;
        match nextToken with
        | Some k => buffer ← zset buffer (tokSource + k) 0; Some (Some tokSource, buffer, Some (tokSource + k + 1))
        | None => match saveState with Some _ => Some (Some tokSource, buffer, None) | None => Some (None, buffer, saveState) end
        end
      else Some (None, buffer, None)
  end.

(** ** Concatenation and comparison *)

(** Copying up to and with the NUL, from [src] at [i] to [dst] at [j]. *)
Fixpoint copy_nul (fuel : nat) (dst src : list Z) (j i : Z) : option (list Z) :=
  match fuel with
  | O => None
  | S fuel => c ← zget src i; dst ← zset dst j c; if c =? 0 then Some dst else copy_nul fuel dst src (j + 1) (i + 1)
  end.
Definition u_strcat (dst src : list Z) : option (list Z) := j ← ustring.u_strlen dst; copy_nul (S (List.length src)) dst src j 0.

Fixpoint copy_n (n : nat) (dst src : list Z) (j i : Z) : option (list Z) :=
  c ← zget src i; dst ← zset dst j c;
  if c =? 0 then Some dst
  else match n with
       | O | S O => zset dst (j + 1) 0
       | S n => copy_n n dst src (j + 1) (i + 1)
       end.
Definition u_strncat (dst src : list Z) (n : Z) : option (list Z) := if 0 <? n then j ← ustring.u_strlen dst; copy_n (Z.to_nat n) dst src j 0 else Some dst.

Fixpoint strcmp_loop (s1 s2 : list Z) : option Z :=
  match s1, s2 with
  | c1 :: s1, c2 :: s2 => if negb (c1 =? c2) || (c1 =? 0) then Some (c1 - c2) else strcmp_loop s1 s2
  | _, _ => None
  end.
Definition u_strcmp (s1 s2 : list Z) : option Z := strcmp_loop s1 s2.
End StringSearch.
