(* ===== verification/StringSearchFacts.v ===== *)
(** * What the searches find

    A substring seen where its units are and where it splits no surrogate pair at either readable;
    the searches find the first or the last such place. *)

From S2P Require Import Prelude Utf16 UString StringSearch.

Module StringSearchFacts.
Import Utf16 StringSearch.

Lemma zget_defined (l : list Z) i : is_Some (zget l i) <-> 0 <= i < zlen l.
Proof.
  split; [|intros Hi; destruct (zget_is_Some l i Hi) as [x Hx]; by exists x]. intros [x Hx]. apply zget_Some_lookup in Hx as [Hi Hx]. apply lookup_lt_Some in Hx. unfold zlen. lia.
Qed.

(** ** Occurrences *)

Definition lead_at (a : list Z) (k : Z) : bool := match zget a k with Some x => U16_IS_LEAD x | None => false end.
Definition trail_at (a : list Z) (k : Z) : bool := match zget a k with Some x => U16_IS_TRAIL x | None => false end.

(** No pair is split at either edge of the [m] units from [i] on. *)
Definition whole (a : list Z) (i m : Z) : bool := negb (lead_at a (i - 1) && trail_at a i) && negb (lead_at a (i + m - 1) && trail_at a (i + m)).

Definition units_at (a : list Z) (i : Z) (sub : list Z) : Prop := forall k, 0 <= k < zlen sub -> zget a (i + k) = zget sub k.

(** [sub] occurs at [i] in the text [u], at code point boundaries of [u]. *)
Definition occurs (u sub : list Z) (i : Z) : Prop := 0 <= i /\ i + zlen sub <= zlen u /\ units_at u i sub /\ whole u i (zlen sub) = true.

Definition is_first (u sub : list Z) (r : option Z) : Prop :=
  match r with Some i => occurs u sub i /\ forall j, j < i -> ~ occurs u sub j | None => forall j, ~ occurs u sub j end.
Definition is_last (u sub : list Z) (r : option Z) : Prop :=
  match r with Some i => occurs u sub i /\ forall j, i < j -> ~ occurs u sub j | None => forall j, ~ occurs u sub j end.

(** What the searches test instead: a match at the end of the first [n] units of [a] is looked at
    together with the unit behind them. *)
Definition seen (a : list Z) (n : Z) (sub : list Z) (i : Z) : Prop := 0 <= i /\ i + zlen sub <= n /\ units_at a i sub /\ whole a i (zlen sub) = true.

Definition first_seen (a : list Z) (n : Z) (sub : list Z) (r : option Z) : Prop :=
  match r with Some i => seen a n sub i /\ forall j, j < i -> ~ seen a n sub j | None => forall j, ~ seen a n sub j end.
Definition last_seen (a : list Z) (n : Z) (sub : list Z) (r : option Z) : Prop :=
  match r with Some i => seen a n sub i /\ forall j, i < j -> ~ seen a n sub j | None => forall j, ~ seen a n sub j end.

(** ** The arguments *)

(** A text of [n] units in the buffer [a], counted or NUL-terminated. *)
Definition text_arg (a : list Z) (length n : Z) : Prop :=
  length = n /\ 0 <= n <= zlen a \/ length = -1 /\ 0 <= n /\ zget a n = Some 0 /\ forall k, 0 <= k < n -> zget a k <> Some 0.

(** A match at the end of the text that ends with a lead surrogate is looked at together with the unit
    behind the text, which must then be there. *)
Definition readable (a : list Z) (n : Z) (sub : list Z) : Prop := n < zlen a \/ lead_at a (n - 1) && lead_at sub (zlen sub - 1) = false.

Definition sub_arg (b : list Z) (subLength : Z) (sub : list Z) : Prop :=
  subLength = zlen sub /\ (exists r, b = sub ++ r) \/ subLength = -1 /\ (exists r, b = sub ++ 0 :: r) /\ 0 ∉ sub.

Lemma text_arg_length a length n : text_arg a length n -> 0 <= n <= zlen a /\ (length = -1 \/ length = n).
Proof.
  intros [(-> & Hn)|(-> & Hn & H0 & _)]; [split; [lia|by right]|]. assert (0 <= n < zlen a) by (apply zget_defined; by eexists). split; [lia|by left].
Qed.

Lemma units_at_lead a i sub : units_at a i sub -> 0 < zlen sub -> lead_at a (i + zlen sub - 1) = lead_at sub (zlen sub - 1).
Proof. intros Hu Hpos. unfold lead_at. rewrite <- (Hu (zlen sub - 1)) by lia. by replace (i + (zlen sub - 1)) with (i + zlen sub - 1) by lia. Qed.

Lemma edge_ok a n sub i :
  readable a n sub -> n <= zlen a -> 0 < zlen sub -> units_at a i sub -> 0 <= i -> i + zlen sub <= n -> lead_at a (i + zlen sub - 1) = true -> is_Some (zget a (i + zlen sub)).
Proof.
  intros He Hn Hpos Hu Hi Hl Hlead. apply zget_defined. destruct (decide (i + zlen sub = n)) as [E|]; [|lia]. destruct He as [He|He]; [lia|]. rewrite <- (units_at_lead a i sub Hu Hpos), <- E, Hlead in He. done.
Qed.

Lemma sub_arg_get b subLength sub k : sub_arg b subLength sub -> 0 <= k < zlen sub -> zget b k = zget sub k.
Proof. intros [[_ [r ->]]|[_ [[r ->] _]]] Hk; apply zget_app_l; lia. Qed.

(** ** Boundaries *)

Lemma boundary_spec a i m limit :
  0 <= i -> 0 < m -> is_Some (zget a i) -> is_Some (zget a (i + m - 1)) -> (lead_at a (i + m - 1) = true -> is_Some (zget a (i + m))) -> limit <> Some i ->
  isMatchAtCPBoundary a i (i + m) limit = Some (whole a i m).
Proof.
  intros Hi Hm [x Hx] [e He] Hf Hlim. unfold isMatchAtCPBoundary, whole. assert (Hli : forall k y, zget a k = Some y -> lead_at a k = U16_IS_LEAD y) by (intros k y E; unfold lead_at; by rewrite E).
  assert (Hti : trail_at a i = U16_IS_TRAIL x) by (unfold trail_at; by rewrite Hx). rewrite Hx, Hti. cbn [mbind option_bind]. rewrite He, (Hli _ _ He) in *. cbn [mbind option_bind]. rewrite (bool_decide_false (limit = Some i)) by done. cbn [negb]. rewrite andb_true_r.
  assert (Hsecond : (if U16_IS_LEAD e then f ← zget a (i + m); Some (U16_IS_TRAIL f) else Some false) = Some (U16_IS_LEAD e && trail_at a (i + m))).
  { destruct (U16_IS_LEAD e); [|done]. destruct (Hf eq_refl) as [f Ef]. unfold trail_at. by rewrite Ef. }
  assert (Hfirst : (if U16_IS_TRAIL x && negb (i =? 0) then b ← zget a (i - 1); Some (U16_IS_LEAD b) else Some false) = Some (lead_at a (i - 1) && U16_IS_TRAIL x)).
  { destruct (U16_IS_TRAIL x); [|by rewrite andb_false_r]. rewrite andb_true_r. destruct (Z.eqb_spec i 0) as [->|Hne]; [done|]. cbn [negb]. destruct (zget a (i - 1)) as [y|] eqn:Ey; [by rewrite (Hli _ _ Ey)|].
    exfalso. assert (0 <= i < zlen a) by (apply zget_defined; by eexists). assert (is_Some (zget a (i - 1))) as [? ?] by (apply zget_defined; lia). congruence. }
  rewrite Hfirst. cbn [mbind option_bind]. destruct (lead_at a (i - 1) && U16_IS_TRAIL x); [done|]. rewrite Hsecond. done.
Qed.

(** ** The forward loops *)

Definition limit_ok (b sub : list Z) (subLimit : option Z) : Prop :=
  subLimit = Some (zlen sub) /\ (exists r, b = sub ++ r) \/ subLimit = None /\ 0 ∉ sub /\ exists r, b = sub ++ 0 :: r.

Definition mode_ok (a : list Z) (n : Z) (nul : bool) : Prop :=
  if nul then zget a n = Some 0 /\ forall k, 0 <= k < n -> zget a k <> Some 0 else n <= zlen a.

Lemma limit_ok_get b sub subLimit k : limit_ok b sub subLimit -> 0 <= k < zlen sub -> zget b k = zget sub k.
Proof. intros [[_ [r ->]]|[_ [_ [r ->]]]] Hk; apply zget_app_l; lia. Qed.

Lemma at_sub_end_spec b sub subLimit q : limit_ok b sub subLimit -> 0 <= q <= zlen sub -> at_sub_end b subLimit q = Some (q =? zlen sub).
Proof.
  intros Hok Hq. pose proof Hok as [[-> _]|(-> & H0 & r & Eb)]; cbn [at_sub_end]; [done|]. destruct (Z.eqb_spec q (zlen sub)) as [->|Hne].
  - by rewrite Eb, zget_middle.
  - rewrite (limit_ok_get b sub None) by (done || lia). destruct (zget_is_Some sub q ltac:(lia)) as [c Hc]. rewrite Hc. cbn [mbind option_bind]. f_equal. apply Z.eqb_neq. intros ->. apply H0. apply zget_Some_lookup in Hc as [_ Hc]. by eapply list_elem_of_lookup_2.
Qed.

Lemma mode_get a n nul p : mode_ok a n nul -> 0 <= p -> (if nul then p <= n else p < n) -> exists c, zget a p = Some c /\ (nul && (c =? 0) = true -> p = n) /\ (nul && (c =? 0) = false -> p < n).
Proof.
  intros Hm Hp Hle. destruct nul; cbn [mode_ok andb] in *.
  - destruct Hm as [H0 Hk]. assert (0 <= n < zlen a) by (apply zget_defined; by eexists). destruct (zget_is_Some a p ltac:(lia)) as [c Hc]. exists c. split; [done|]. destruct (decide (p = n)) as [->|Hne].
    + rewrite H0 in Hc. injection Hc as <-. done.
    + split; [|lia]. intros ->%Z.eqb_eq. exfalso. by apply (Hk p ltac:(lia)).
  - destruct (zget_is_Some a p ltac:(lia)) as [c Hc]. exists c. split; [done|]. split; [done|lia].
Qed.

Lemma compare_rest_spec a n b sub subLimit nul fuel p q :
  limit_ok b sub subLimit -> mode_ok a n nul -> 0 <= q <= zlen sub -> zlen sub - q < Z.of_nat fuel -> 0 <= p <= n -> (nul = false -> p + (zlen sub - q) <= n) ->
  exists r, compare_rest fuel a b subLimit nul p q = Some r /\
    match r with
    | Full e => e = p + (zlen sub - q) /\ e <= n /\ forall k, q <= k < zlen sub -> zget a (p + (k - q)) = zget sub k
    | Ended => n < p + (zlen sub - q)
    | Differs => exists k, q <= k < zlen sub /\ zget a (p + (k - q)) <> zget sub k
    end.
Proof.
  intros Hlim Hmode. revert p q. induction fuel as [|fuel IH]; intros p q Hq Hf Hp Hfit; [lia|]. cbn [compare_rest]. rewrite (at_sub_end_spec b sub subLimit q Hlim Hq). cbn [mbind option_bind].
  destruct (Z.eqb_spec q (zlen sub)) as [->|Hne]; [exists (Full p); split; [done|]; split_and!; lia|].
  destruct (mode_get a n nul p Hmode) as (c & Hc & Hend & Hin); [lia|destruct nul; [lia|specialize (Hfit eq_refl); lia]|]. rewrite Hc. cbn [mbind option_bind]. destruct (nul && (c =? 0)) eqn:E0.
  - exists Ended. split; [done|]. rewrite (Hend eq_refl). lia.
  - specialize (Hin eq_refl). rewrite (limit_ok_get b sub subLimit) by (done || lia). destruct (zget_is_Some sub q ltac:(lia)) as [cq Hcq]. rewrite Hcq. cbn [mbind option_bind]. destruct (Z.eqb_spec c cq) as [->|Hcne].
    + destruct (IH (p + 1) (q + 1)) as (r & -> & Hr); [lia|lia|lia|intros Hn; specialize (Hfit Hn); lia|]. exists r. split; [done|]. destruct r as [e| |].
      * destruct Hr as (-> & He & Hk). split; [lia|]. split; [lia|]. intros k Hkq. destruct (decide (k = q)) as [->|]; [by rewrite Z.sub_diag, Z.add_0_r, Hc, Hcq|]. rewrite <- Hk by lia. f_equal. lia.
      * lia.
      * destruct Hr as (k & Hk & Hdiff). exists k. split; [lia|]. intros E. apply Hdiff. rewrite <- E. f_equal. lia.
    + exists Differs. split; [done|]. exists q. split; [lia|]. rewrite Z.sub_diag, Z.add_0_r, Hc, Hcq. congruence.
Qed.

Lemma search_loop_spec a n b sub cs subLimit nul limit fuel s :
  limit_ok b sub subLimit -> mode_ok a n nul -> zget sub 0 = Some cs -> readable a n sub ->
  (limit = None \/ limit = Some n) -> zlen sub <= n \/ nul = true -> 0 <= s <= n -> (nul = false -> s <= n - (zlen sub - 1)) -> n - s < Z.of_nat fuel ->
  (forall j, j < s -> ~ seen a n sub j) ->
  exists r, search_loop fuel a b cs subLimit (if nul then None else Some (n - (zlen sub - 1))) limit s = Some r /\ first_seen a n sub r.
Proof.
  intros Hlim Hmode Hcs Hedge Hlimit Hfit. assert (Hsub : 0 < zlen sub) by (apply zget_Some_range in Hcs; lia). assert (Hna : n <= zlen a) by (destruct nul; [destruct Hmode as [H0 _]; apply zget_Some_range in H0; lia|done]). revert s. induction fuel as [|fuel IH]; intros s Hs Hpre Hf Hbefore; [lia|]. cbn [search_loop].
  assert (Hstop : n < s + zlen sub -> first_seen a n sub None).
  { intros Hlt j Hj. destruct (Z.lt_ge_cases j s) as [Hjs|Hjs]; [by apply (Hbefore j)|]. destruct Hj as (_ & Hjl & _). lia. }
  assert (Hmiss : forall k, 0 <= k < zlen sub -> zget a (s + k) <> zget sub k -> ~ seen a n sub s) by (intros k Hk Hne (_ & _ & Hu & _); by apply Hne, Hu).
  assert (Hnext : ~ seen a n sub s -> s < n -> (nul = false -> s < n - (zlen sub - 1)) -> exists r, search_loop fuel a b cs subLimit (if nul then None else Some (n - (zlen sub - 1))) limit (s + 1) = Some r /\ first_seen a n sub r).
  { intros Hno Hsn Hpre'. apply IH; [lia|intros Hn; specialize (Hpre' Hn); lia|lia|]. intros j Hj. destruct (decide (j = s)) as [->|]; [done|]. apply Hbefore. lia. }
  destruct (decide (nul = false /\ s = n - (zlen sub - 1))) as [[-> ->]|Hgo].
  { rewrite bool_decide_true by done. exists None. split; [done|]. apply Hstop. lia. }
  assert (Hgo' : nul = false -> s < n - (zlen sub - 1)) by (intros Hn; specialize (Hpre Hn); destruct (decide (s = n - (zlen sub - 1))); [by destruct Hgo|lia]).
  rewrite (bool_decide_false ((if nul then None else Some _) = Some s)) by (destruct nul; [done|intros [= E]; specialize (Hgo' eq_refl); lia]).
  destruct (mode_get a n nul s Hmode) as (c & Hc & Hend & Hin); [lia|destruct nul; [lia|specialize (Hgo' eq_refl); lia]|]. rewrite Hc. cbn [mbind option_bind].
  assert (bool_decide ((if nul then None else Some (n - (zlen sub - 1))) = None) = nul) as -> by (by destruct nul). destruct (nul && (c =? 0)) eqn:E0.
  { exists None. split; [done|]. apply Hstop. rewrite (Hend eq_refl). lia. }
  specialize (Hin eq_refl). destruct (Z.eqb_spec c cs) as [->|Hcne]; [|apply Hnext; [apply (Hmiss 0); [lia|rewrite Z.add_0_r; congruence]|done|done]].
  destruct (compare_rest_spec a n b sub subLimit nul (S (List.length b)) (s + 1) 1 Hlim Hmode) as (r & -> & Hr); [lia| |lia|intros Hn; specialize (Hgo' Hn); lia|].
  { assert (zlen sub <= zlen b) by (destruct Hlim as [[_ [r ->]]|(_ & _ & r & ->)]; rewrite zlen_app; [pose proof (zlen_nonneg r)|pose proof (zlen_nonneg (0 :: r))]; lia). unfold zlen in *. lia. }
  cbn [mbind option_bind]. destruct r as [e| |].
  - destruct Hr as (-> & He & Hk). replace (s + 1 + (zlen sub - 1)) with (s + zlen sub) in * by lia.
    assert (Hunits : units_at a s sub). { intros k Hk'. destruct (decide (k = 0)) as [->|]; [rewrite Z.add_0_r; congruence|]. rewrite <- Hk by lia. f_equal. lia. }
    rewrite boundary_spec; [|lia|lia|by eexists| |apply (edge_ok a n sub); (done || lia)|destruct Hlimit as [-> | ->]; [done|intros [= E]; lia]].
    + cbn [mbind option_bind]. destruct (whole a s (zlen sub)) eqn:Ew.
      * exists (Some s). split; [done|]. split; [|done]. split_and!; auto; lia.
      * apply Hnext; [|lia|done]. intros (_ & _ & _ & Hw). congruence.
    + specialize (Hunits (zlen sub - 1) ltac:(lia)). replace (s + (zlen sub - 1)) with (s + zlen sub - 1) in Hunits by lia. rewrite Hunits. apply zget_defined. lia.
  - exists None. split; [done|]. apply Hstop. lia.
  - destruct Hr as (k & Hk & Hdiff). apply Hnext; [|lia|done]. apply (Hmiss k); [lia|]. intros E. apply Hdiff. rewrite <- E. f_equal. lia.
Qed.

(** ** One unit *)

Lemma unit_masks c : 0 <= c <= 0xffff -> U_IS_SURROGATE c = U16_IS_LEAD c || U16_IS_TRAIL c.
Proof.
  intros Hc. apply eq_true_iff_eq. rewrite orb_true_iff. rewrite surrogate_range, lead_range, trail_range by lia. lia.
Qed.

Lemma whole_unit a i c : U16_IS_LEAD c || U16_IS_TRAIL c = false -> zget a i = Some c -> whole a i 1 = true.
Proof.
  intros [Hl Ht]%orb_false_iff Hc. unfold whole. replace (i + 1 - 1) with i by lia. unfold trail_at at 1, lead_at at 2. by rewrite Hc, Hl, Ht, andb_false_r.
Qed.

Lemma seen_unit a n c i : U16_IS_LEAD c || U16_IS_TRAIL c = false -> seen a n [c] i <-> 0 <= i < n /\ zget a i = Some c.
Proof.
  intros Hns. unfold seen, units_at. change (zlen [c]) with 1. split.
  - intros (H0 & H1 & Hu & _). split; [lia|]. specialize (Hu 0 ltac:(lia)). by rewrite Z.add_0_r in Hu.
  - intros [Hi Hc]. split_and!; [lia|lia| |by eapply whole_unit]. intros k Hk. assert (k = 0) as -> by lia. by rewrite Z.add_0_r.
Qed.

Lemma memchr_loop_spec a n c m s :
  U16_IS_LEAD c || U16_IS_TRAIL c = false -> n <= zlen a -> 0 <= s -> s + Z.of_nat m = n -> (forall j, j < s -> ~ seen a n [c] j) -> exists r, memchr_loop m a c s = Some r /\ first_seen a n [c] r.
Proof.
  intros Hns Hn. revert s. induction m as [|m IH]; intros s Hs Hm Hbefore; cbn [memchr_loop].
  - exists None. split; [done|]. intros j Hj. apply (Hbefore j); [|done]. apply (seen_unit _ _ _ _ Hns) in Hj. lia.
  - destruct (zget_is_Some a s ltac:(lia)) as [x Hx]. rewrite Hx. cbn [mbind option_bind]. destruct (Z.eqb_spec x c) as [->|Hne].
    + exists (Some s). split; [done|]. split; [|done]. apply seen_unit; [done|]. split; [lia|done].
    + apply IH; [lia|lia|]. intros j Hj. destruct (decide (j = s)) as [->|]; [|apply Hbefore; lia]. rewrite (seen_unit _ _ _ _ Hns). intros [_ E]. congruence.
Qed.

Lemma drop_cons_zget (a : list Z) s x l : 0 <= s -> drop (Z.to_nat s) a = x :: l -> zget a s = Some x /\ drop (Z.to_nat (s + 1)) a = l.
Proof.
  intros Hs E. split.
  - apply zget_Some_lookup. split; [done|]. rewrite <- (Nat.add_0_r (Z.to_nat s)), <- lookup_drop, E. done.
  - replace (Z.to_nat (s + 1)) with (Z.to_nat s + 1)%nat by lia. rewrite <- drop_drop, E. done.
Qed.

Lemma strchr_loop_spec a n c l s :
  U16_IS_LEAD c || U16_IS_TRAIL c = false -> c <> 0 -> mode_ok a n true -> 0 <= s <= n -> drop (Z.to_nat s) a = l -> (forall j, j < s -> ~ seen a n [c] j) ->
  exists r, strchr_loop l c s = Some r /\ first_seen a n [c] r.
Proof.
  intros Hns Hc0 Hmode. revert s. induction l as [|x l IH]; intros s Hs Hl Hbefore; cbn [strchr_loop]; destruct (mode_get a n true s Hmode) as (y & Hy & Hend & Hin); [lia|cbn; lia| |lia|cbn; lia|].
  - exfalso. apply zget_Some_range in Hy. assert (Hlen := length_drop a (Z.to_nat s)). rewrite Hl in Hlen. unfold zlen in Hy. cbn in Hlen. lia.
  - apply drop_cons_zget in Hl as [Hx Hl]; [|lia]. assert (x = y) as -> by congruence. cbn [andb] in *. destruct (Z.eqb_spec y c) as [->|Hne].
    + exists (Some s). split; [done|]. split; [|done]. apply seen_unit; [done|]. split; [|done]. assert (Hn0 : (c =? 0) = false) by lia. specialize (Hin Hn0). lia.
    + destruct (y =? 0) eqn:E0.
      * exists None. split; [done|]. intros j Hj. apply (Hbefore j); [|done]. apply (seen_unit _ _ _ _ Hns) in Hj. rewrite (Hend eq_refl). lia.
      * specialize (Hin eq_refl). apply IH; [lia|done|]. intros j Hj. destruct (decide (j = s)) as [->|]; [|apply Hbefore; lia]. rewrite (seen_unit _ _ _ _ Hns). intros [_ E]. congruence.
Qed.

Lemma strlen_sub (sub r : list Z) t : 0 ∉ sub -> ustring.strlen_loop (sub ++ 0 :: r) t = Some (t + zlen sub).
Proof.
  revert t. induction sub as [|x sub IH]; intros t H0; cbn [app ustring.strlen_loop].
  - change (zlen []) with 0. by rewrite Z.add_0_r.
  - assert (x <> 0) by set_solver. destruct (Z.eqb_spec x 0); [done|]. cbn [negb]. rewrite IH by set_solver. rewrite zlen_cons. f_equal. lia.
Qed.

(** ** The whole search *)

Lemma text_arg_nul a n : text_arg a (-1) n -> mode_ok a n true /\ 0 <= n < zlen a.
Proof.
  intros [(? & Hn)|(_ & Hn & H0 & Hk)]; [lia|]. split; [split; done|]. apply zget_defined. by eexists.
Qed.

(** What a search for one unit does. *)
Lemma one_unit a length n c : text_arg a length n -> U_IS_SURROGATE c = false -> 0 <= c <= 0xffff -> (length = -1 -> c <> 0) ->
  exists r, (if length <? 0 then strchr_loop a c 0 else memchr_loop (Z.to_nat length) a c 0) = Some r /\ first_seen a n [c] r.
Proof.
  intros Ht Hns Hc Hc0. rewrite unit_masks in Hns by done. assert (Hbefore : forall j, j < 0 -> ~ seen a n [c] j) by (intros j Hj [? _]; lia). pose proof (text_arg_length _ _ _ Ht) as [Hn [-> | ->]].
  - apply (strchr_loop_spec a n c a 0); try done; [by apply Hc0|by apply text_arg_nul|lia].
  - destruct (Z.ltb_spec n 0); [lia|]. apply memchr_loop_spec; auto; lia.
Qed.

(** What a search for a longer string or a surrogate does. *)
Lemma longer a length n b sub cs subLimit :
  text_arg a length n -> readable a n sub -> limit_ok b sub subLimit -> zget sub 0 = Some cs -> zlen sub <= n \/ length = -1 ->
  exists r, search_loop (fuel_for a) a b cs subLimit (if length <? 0 then None else Some (length - (zlen sub - 1))) (if length <? 0 then None else Some length) 0 = Some r /\ first_seen a n sub r.
Proof.
  intros Ht He Hlim Hcs Hfit. assert (Hsub : 0 < zlen sub) by (apply zget_Some_range in Hcs; lia). pose proof (text_arg_length _ _ _ Ht) as [Hn Hcase].
  assert (Hbefore : forall j, j < 0 -> ~ seen a n sub j) by (intros j Hj [? _]; lia). assert (Hfuel : n - 0 < Z.of_nat (fuel_for a)) by (unfold fuel_for, zlen in *; lia). destruct Hcase as [-> | ->].
  - apply (search_loop_spec a n b sub cs subLimit true None); auto; [by apply text_arg_nul|lia|done].
  - destruct (Z.ltb_spec n 0); [lia|]. apply (search_loop_spec a n b sub cs subLimit false (Some n)); auto; [apply Hn|destruct Hfit; [by left|lia]|lia|lia].
Qed.

Lemma strFindFirst_spec a length n b subLength sub :
  text_arg a length n -> sub_arg b subLength sub -> readable a n sub -> Forall unit16 sub -> 0 < zlen sub -> (length = -1 -> sub <> [0]) ->
  exists r, u_strFindFirst (Some a) length (Some b) subLength = Some r /\ first_seen a n sub r.
Proof.
  intros Ht Hs He Hu Hpos Hnz. unfold u_strFindFirst. pose proof (text_arg_length _ _ _ Ht) as [Hn Hlen]. destruct sub as [|cs sub']; [done|]. set (sub := cs :: sub') in *.
  assert (Hcs : zget sub 0 = Some cs) by done. assert (Hcu : 0 <= cs <= 0xffff) by (by inversion Hu). assert (Hb0 : zget b 0 = Some cs) by (rewrite (sub_arg_get b subLength sub) by (done || lia); done).
  assert (Hone : zlen sub = 1 -> sub = [cs]) by (unfold sub; rewrite zlen_cons; destruct sub' as [|y l]; [done|rewrite zlen_cons; pose proof (zlen_nonneg l); intros; exfalso; lia]).
  assert (Hsl : (subLength <? -1) = false) by (destruct Hs as [[-> _]|[-> _]]; lia). rewrite Hsl. assert (Hll : (length <? -1) = false) by lia. rewrite Hll, Hb0. cbn [mbind option_bind].
  destruct ((length <? 0) && (subLength <? 0)) eqn:Eboth.
  - assert (length = -1) as -> by lia. destruct Hs as [[-> _]|(-> & [r Eb] & H0)]; [lia|]. assert (Hlim : limit_ok b sub None) by (right; split_and!; [done|done|by exists r]). assert (cs <> 0) by (unfold sub in H0; set_solver). destruct (Z.eqb_spec cs 0); [done|].
    destruct (decide (zlen sub = 1)) as [E1|E1].
    + assert (zget b 1 = Some 0) as -> by (rewrite Eb, <- E1; apply zget_middle). cbn [mbind option_bind]. rewrite Z.eqb_refl. cbn [andb]. destruct (U_IS_SURROGATE cs) eqn:Esur; cbn [negb].
      * by apply (longer a (-1) n b sub cs None Ht He Hlim); [|right].
      * rewrite (Hone E1). by apply (one_unit a (-1) n cs).
    + assert (exists y, zget sub 1 = Some y /\ y <> 0) as (y & Hy & Hy0).
      { destruct (zget_is_Some sub 1 ltac:(lia)) as [y Hy]. exists y. split; [done|]. intros ->. apply H0. apply zget_Some_lookup in Hy as [_ Hy]. by eapply list_elem_of_lookup_2. }
      rewrite (limit_ok_get b sub None), Hy by (done || lia). cbn [mbind option_bind]. destruct (Z.eqb_spec y 0); [done|]. cbn [andb]. by apply (longer a (-1) n b sub cs None Ht He Hlim); [|right].
  - assert ((if subLength <? 0 then ustring.u_strlen b else Some subLength) = Some (zlen sub)) as ->.
    { destruct Hs as [[-> _]|(-> & [r ->] & H0)]; [by destruct (Z.ltb_spec (zlen sub) 0); [lia|]|]. apply (strlen_sub sub r 0 H0). }
    cbn [mbind option_bind]. destruct (Z.eqb_spec (zlen sub) 0); [lia|]. assert (Hlim : limit_ok b sub (Some (zlen sub))) by (left; split; [done|]; destruct Hs as [[_ Hr]|(_ & [r ->] & _)]; [done|by eexists]).
    destruct ((zlen sub - 1 =? 0) && negb (U_IS_SURROGATE cs)) eqn:E1.
    + apply andb_true_iff in E1 as [E1 Ens]. rewrite Hone by lia. apply one_unit; [done|by apply negb_true_iff|done|]. intros E. specialize (Hnz E). rewrite Hone in Hnz by lia. congruence.
    + destruct Hlen as [-> | ->]; [by apply (longer a (-1) n b sub cs _ Ht He Hlim); [|right]|]. pose proof (longer a n n b sub cs _ Ht He Hlim Hcs) as Hloop. destruct (Z.ltb_spec n 0); [lia|]. destruct (Z.leb_spec n (zlen sub - 1)).
      * exists None. split; [done|]. intros j (? & ? & _). lia.
      * apply Hloop. left. lia.
Qed.

(** ** Backwards *)

Lemma compare_back_spec a b m p :
  Z.of_nat m <= p <= zlen a -> Z.of_nat m <= zlen b ->
  exists r, compare_back m a b p (Z.of_nat m) = Some r /\
    match r with
    | Full e => e = p - Z.of_nat m /\ forall k, 0 <= k < Z.of_nat m -> zget a (p - Z.of_nat m + k) = zget b k
    | Ended => False
    | Differs => exists k, 0 <= k < Z.of_nat m /\ zget a (p - Z.of_nat m + k) <> zget b k
    end.
Proof.
  revert p. induction m as [|m IH]; intros p Hp Hb; cbn [compare_back]; [exists (Full p); split; [done|]; split; intros; lia|].
  destruct (zget_is_Some a (p - 1) ltac:(lia)) as [x Hx]. destruct (zget_is_Some b (Z.of_nat m) ltac:(lia)) as [y Hy]. replace (Z.of_nat (S m) - 1) with (Z.of_nat m) by lia. rewrite Hx, Hy. cbn [mbind option_bind].
  replace (p - Z.of_nat (S m)) with (p - 1 - Z.of_nat m) by lia. assert (Hlast : p - 1 - Z.of_nat m + Z.of_nat m = p - 1) by lia. destruct (Z.eqb_spec x y) as [->|Hne].
  - destruct (IH (p - 1)) as (r & -> & Hr); [lia|lia|]. exists r. split; [done|]. destruct r as [e| |]; [|done|].
    + destruct Hr as [-> Hk]. split; [done|]. intros k Hk'. destruct (decide (k = Z.of_nat m)) as [->|]; [by rewrite Hlast, Hx, Hy|apply Hk; lia].
    + destruct Hr as (k & Hk & Hdiff). exists k. split; [lia|done].
  - exists Differs. split; [done|]. exists (Z.of_nat m). split; [lia|]. rewrite Hlast, Hx, Hy. congruence.
Qed.

Lemma search_back_spec a n b sub cs m limit :
  (forall k, 0 <= k < zlen sub -> zget b k = zget sub k) -> 0 < zlen sub -> zget sub (zlen sub - 1) = Some cs -> n <= zlen a -> readable a n sub ->
  limit = zlen sub - 1 + Z.of_nat m -> limit <= n -> (forall j, limit < j + zlen sub -> ~ seen a n sub j) ->
  exists r, search_back m a b cs (zlen sub - 1) n limit = Some r /\ last_seen a n sub r.
Proof.
  intros Hb Hpos Hcs Hn Hedge. assert (Hlb : zlen sub <= zlen b). { specialize (Hb (zlen sub - 1) ltac:(lia)). rewrite Hcs in Hb. apply zget_Some_range in Hb. lia. }
  revert limit. induction m as [|m IH]; intros limit Hm Hln Hafter; cbn [search_back].
  { exists None. split; [done|]. intros j Hj. apply (Hafter j); [|done]. destruct Hj as [? _]. lia. }
  destruct (zget_is_Some a (limit - 1) ltac:(lia)) as [c Hc]. rewrite Hc. cbn [mbind option_bind]. set (i := limit - zlen sub). assert (Hlast : i + (zlen sub - 1) = limit - 1) by (unfold i; lia).
  assert (Hnext : ~ seen a n sub i -> exists r, search_back m a b cs (zlen sub - 1) n (limit - 1) = Some r /\ last_seen a n sub r).
  { intros Hno. apply IH; [lia|lia|]. intros j Hj. destruct (decide (j = i)) as [->|Hji]; [done|]. apply Hafter. unfold i in Hji. lia. }
  assert (Hmiss : forall k, 0 <= k < zlen sub -> zget a (i + k) <> zget sub k -> ~ seen a n sub i) by (intros k Hk Hne (_ & _ & Hu & _); by apply Hne, Hu).
  destruct (Z.eqb_spec c cs) as [->|Hne]; [|apply Hnext, (Hmiss (zlen sub - 1)); [lia|rewrite Hlast; congruence]].
  pose proof (compare_back_spec a b (Z.to_nat (zlen sub - 1)) (limit - 1) ltac:(lia) ltac:(lia)) as (r & Hr & Hspec). rewrite Z2Nat.id in Hr by lia. rewrite Hr. cbn [mbind option_bind]. rewrite Z2Nat.id in Hspec by lia.
  replace (limit - 1 - (zlen sub - 1)) with i in Hspec by (unfold i; lia). destruct r as [e| |]; [|done|].
  - destruct Hspec as [-> Hk]. assert (Hunits : units_at a i sub).
    { intros k Hk'. destruct (decide (k = zlen sub - 1)) as [->|]; [by rewrite Hlast, Hc, Hcs|]. rewrite Hk by lia. apply Hb. lia. }
    assert (Hdef : forall k, 0 <= k < zlen sub -> is_Some (zget a (i + k))) by (intros k Hk'; rewrite Hunits by done; by apply zget_defined).
    replace (limit - 1 + 1) with (i + zlen sub) by (unfold i; lia). rewrite boundary_spec; [|unfold i; lia|lia| | |apply (edge_ok a n sub); (done || (unfold i; lia))|intros [= E]; unfold i in E; lia].
    + cbn [mbind option_bind]. destruct (whole a i (zlen sub)) eqn:Ew; [|apply Hnext; intros (_ & _ & _ & Hw); congruence]. exists (Some i). split; [done|]. split; [split_and!; auto; unfold i; lia|]. intros j Hj. apply Hafter. unfold i in Hj. lia.
    + rewrite <- (Z.add_0_r i). apply Hdef. lia.
    + replace (i + zlen sub - 1) with (i + (zlen sub - 1)) by lia. apply Hdef. lia.
  - destruct Hspec as (k & Hk & Hdiff). apply Hnext, (Hmiss k); [lia|]. by rewrite <- Hb by lia.
Qed.

Lemma memrchr_loop_spec a n c m :
  U16_IS_LEAD c || U16_IS_TRAIL c = false -> n <= zlen a -> Z.of_nat m <= n -> (forall j, Z.of_nat m <= j -> ~ seen a n [c] j) -> exists r, memrchr_loop m a c (Z.of_nat m) = Some r /\ last_seen a n [c] r.
Proof.
  intros Hns Hn. induction m as [|m IH]; intros Hm Hafter; cbn [memrchr_loop].
  - exists None. split; [done|]. intros j Hj. apply (Hafter j); [|done]. apply (seen_unit _ _ _ _ Hns) in Hj. lia.
  - replace (Z.of_nat (S m) - 1) with (Z.of_nat m) by lia. destruct (zget_is_Some a (Z.of_nat m) ltac:(lia)) as [x Hx]. rewrite Hx. cbn [mbind option_bind]. destruct (Z.eqb_spec x c) as [->|Hne].
    + exists (Some (Z.of_nat m)). split; [done|]. split; [|intros j Hj; apply Hafter; lia]. apply seen_unit; [done|]. split; [lia|done].
    + apply IH; [lia|]. intros j Hj. destruct (decide (j = Z.of_nat m)) as [->|]; [|apply Hafter; lia]. rewrite (seen_unit _ _ _ _ Hns). intros [_ E]. congruence.
Qed.

(** The last unit found so far. *)
Definition last_below (a : list Z) (n c s : Z) (r : option Z) : Prop :=
  match r with Some i => i < s /\ seen a n [c] i /\ forall j, i < j < s -> ~ seen a n [c] j | None => forall j, j < s -> ~ seen a n [c] j end.

Lemma strrchr_loop_spec a n c l s result :
  U16_IS_LEAD c || U16_IS_TRAIL c = false -> c <> 0 -> mode_ok a n true -> 0 <= s <= n -> drop (Z.to_nat s) a = l -> last_below a n c s result ->
  exists r, strrchr_loop l c s result = Some r /\ last_seen a n [c] r.
Proof.
  intros Hns Hc0 Hmode. revert s result. induction l as [|x l IH]; intros s result Hs Hl Hbefore; cbn [strrchr_loop]; destruct (mode_get a n true s Hmode) as (y & Hy & Hend & Hin); [lia|cbn; lia| |lia|cbn; lia|].
  - exfalso. apply zget_Some_range in Hy. assert (Hlen := length_drop a (Z.to_nat s)). rewrite Hl in Hlen. unfold zlen in Hy. cbn in Hlen. lia.
  - apply drop_cons_zget in Hl as [Hx Hl]; [|lia]. assert (x = y) as -> by congruence. cbn [andb] in *. destruct (y =? 0) eqn:E0.
    + assert ((y =? c) = false) as -> by lia. exists result. split; [done|]. specialize (Hend eq_refl). subst s. destruct result as [i|]; cbn [last_below last_seen] in *.
      * destruct Hbefore as (Hi & Ho & Hj). split; [done|]. intros j Hlt Hoj. apply (Hj j); [|done]. apply (seen_unit _ _ _ _ Hns) in Hoj. lia.
      * intros j Hoj. apply (Hbefore j); [|done]. apply (seen_unit _ _ _ _ Hns) in Hoj. lia.
    + specialize (Hin eq_refl). apply IH; [lia|done|]. destruct (Z.eqb_spec y c) as [->|Hne].
      * split; [lia|]. split; [apply seen_unit; [done|split; [lia|done]]|]. intros j Hj. lia.
      * assert (Hno : ~ seen a n [c] s) by (rewrite (seen_unit _ _ _ _ Hns); intros [_ E]; congruence). destruct result as [i|]; cbn [last_below] in *.
        -- destruct Hbefore as (Hi & Ho & Hj). split; [lia|]. split; [done|]. intros j Hj'. destruct (decide (j = s)) as [->|]; [done|apply Hj; lia].
        -- intros j Hj. destruct (decide (j = s)) as [->|]; [done|apply Hbefore; lia].
Qed.

Lemma strlen_text a n : mode_ok a n true -> 0 <= n -> ustring.u_strlen a = Some n.
Proof.
  intros [H0 Hk] Hn. assert (Hr := H0). apply zget_Some_range in Hr. apply zget_split in H0 as (l1 & l2 & -> & <-). unfold ustring.u_strlen. rewrite strlen_sub; [done|]. intros [k Hk']%list_elem_of_lookup_1.
  assert (Hlt := lookup_lt_Some _ _ _ Hk'). apply (Hk (Z.of_nat k)); [unfold zlen in *; lia|]. rewrite zget_app_l by (unfold zlen; lia). by rewrite zget_nat.
Qed.

Lemma one_unit_back a length n c : text_arg a length n -> U_IS_SURROGATE c = false -> 0 <= c <= 0xffff -> (length = -1 -> c <> 0) ->
  exists r, (if length <? 0 then strrchr_loop a c 0 None else if length <=? 0 then Some None else memrchr_loop (Z.to_nat length) a c length) = Some r /\ last_seen a n [c] r.
Proof.
  intros Ht Hns Hc Hc0. rewrite unit_masks in Hns by done. pose proof (text_arg_length _ _ _ Ht) as [Hn [-> | ->]].
  - apply (strrchr_loop_spec a n c a 0); try done; [by apply Hc0|by apply text_arg_nul|lia|]. intros j Hj [? _]. lia.
  - destruct (Z.ltb_spec n 0); [lia|]. assert (Hafter : forall j, n <= j -> ~ seen a n [c] j) by (intros j Hj Ho; apply (seen_unit _ _ _ _ Hns) in Ho; lia). destruct (Z.leb_spec n 0).
    + exists None. split; [done|]. intros j Ho. apply (Hafter j); [|done]. destruct Ho as [? _]. lia.
    + pose proof (memrchr_loop_spec a n c (Z.to_nat n)) as Hback. rewrite Z2Nat.id in Hback by lia. apply Hback; [done|lia|lia|]. intros j Hj. apply Hafter. lia.
Qed.

Lemma strFindLast_spec a length n b subLength sub :
  text_arg a length n -> sub_arg b subLength sub -> readable a n sub -> Forall unit16 sub -> 0 < zlen sub -> (length = -1 -> sub <> [0]) ->
  exists r, u_strFindLast (Some a) length (Some b) subLength = Some r /\ last_seen a n sub r.
Proof.
  intros Ht Hs He Hu Hpos Hnz. unfold u_strFindLast. pose proof (text_arg_length _ _ _ Ht) as [Hn Hlen]. assert (Hb : forall k, 0 <= k < zlen sub -> zget b k = zget sub k) by (intros k; by apply (sub_arg_get b subLength)).
  destruct (zget_is_Some sub (zlen sub - 1) ltac:(lia)) as [cs Hcs]. assert (Hcu : 0 <= cs <= 0xffff) by (rewrite Forall_lookup in Hu; apply zget_Some_lookup in Hcs as [_ Hcs]; by eapply Hu).
  assert (Hone : zlen sub = 1 -> sub = [cs]). { intros E. destruct sub as [|x [|y l]]; [done|cbn in Hcs; by injection Hcs as ->|rewrite !zlen_cons in E; pose proof (zlen_nonneg l); lia]. }
  assert ((subLength <? -1) = false) as -> by (destruct Hs as [[-> _]|[-> _]]; lia). assert ((length <? -1) = false) as -> by lia.
  assert ((if subLength <? 0 then ustring.u_strlen b else Some subLength) = Some (zlen sub)) as ->.
  { destruct Hs as [[-> _]|(-> & [r ->] & H0)]; [by destruct (Z.ltb_spec (zlen sub) 0); [lia|]|]. apply (strlen_sub sub r 0 H0). }
  cbn [mbind option_bind]. destruct (Z.eqb_spec (zlen sub) 0); [lia|]. rewrite Hb, Hcs by lia. cbn [mbind option_bind]. destruct ((zlen sub - 1 =? 0) && negb (U_IS_SURROGATE cs)) eqn:E1.
  - apply andb_true_iff in E1 as [E1 Ens]. rewrite Hone by lia. apply one_unit_back; [done|by apply negb_true_iff|done|]. intros E. specialize (Hnz E). rewrite Hone in Hnz by lia. congruence.
  - assert ((if length <? 0 then ustring.u_strlen a else Some length) = Some n) as ->. { destruct Hlen as [-> | ->]; [apply strlen_text; [by apply text_arg_nul|lia]|by destruct (Z.ltb_spec n 0); [lia|]]. }
    cbn [mbind option_bind]. destruct (Z.leb_spec n (zlen sub - 1)).
    + exists None. split; [done|]. intros j (? & ? & _). lia.
    + apply search_back_spec; auto; [lia|lia|lia|]. intros j Hj (_ & ? & _). lia.
Qed.

(** ** Occurrences in the text alone *)

Definition lead_end (l : list Z) : bool := lead_at l (zlen l - 1).

(** The unit behind the text [u], in front of [r], decides nothing: the text or the substring does
    not end with a lead surrogate, or a unit that is no trail surrogate follows. *)
Definition settled (u r sub : list Z) : Prop := lead_end u && lead_end sub = false \/ exists x r', r = x :: r' /\ U16_IS_TRAIL x = false.

Lemma settled_nul u r sub : settled u (0 :: r) sub.
Proof. right. by exists 0, r. Qed.

Lemma settled_readable u r sub : settled u r sub -> readable (u ++ r) (zlen u) sub.
Proof.
  intros [H|(x & r' & -> & _)]; unfold readable; [right|left; rewrite zlen_app, zlen_cons; pose proof (zlen_nonneg r'); lia].
  rewrite <- H. f_equal. unfold lead_end, lead_at. by rewrite zget_app_l by lia.
Qed.

Lemma seen_occurs u r sub i : settled u r sub -> 0 < zlen sub -> seen (u ++ r) (zlen u) sub i <-> occurs u sub i.
Proof.
  intros Hset Hpos. unfold seen, occurs. assert (Hunits : i + zlen sub <= zlen u -> units_at (u ++ r) i sub <-> units_at u i sub) by (intros Hl; split; intros H k Hk; specialize (H k Hk); rewrite zget_app_l in * by lia; done).
  assert (Hwhole : i + zlen sub <= zlen u -> units_at u i sub -> whole (u ++ r) i (zlen sub) = whole u i (zlen sub)).
  { intros Hl Hu. unfold whole, lead_at, trail_at. rewrite !(zget_app_l u r) by lia. destruct (Z.lt_ge_cases (i + zlen sub) (zlen u)) as [Hlt|Hge]; [by rewrite zget_app_l by lia|].
    assert (Ei : i + zlen sub = zlen u) by lia. rewrite Ei, (zget_None u (zlen u)) by lia. rewrite andb_false_r. f_equal. f_equal. change (lead_end u && trail_at (u ++ r) (zlen u) = false). destruct Hset as [H|(x & r' & -> & Hx)].
    - pose proof (units_at_lead u i sub Hu Hpos) as Hle. rewrite Ei in Hle. unfold lead_end in *. rewrite Hle, andb_diag in H. by rewrite Hle, H.
    - unfold trail_at. by rewrite zget_middle, Hx, andb_false_r. }
  split; intros (H0 & Hl & Hu & Hw).
  - apply Hunits in Hu; [|done]. rewrite Hwhole in Hw by done. done.
  - rewrite <- Hwhole in Hw by done. apply Hunits in Hu; done.
Qed.

Lemma sub_arg_text a length u : sub_arg a length u -> exists r, a = u ++ r /\ text_arg a length (zlen u) /\ (length = -1 -> exists r', r = 0 :: r').
Proof.
  pose proof (zlen_nonneg u). intros [[-> [r ->]]|(-> & [r ->] & H0)].
  - exists r. split; [done|]. split; [left; rewrite zlen_app; pose proof (zlen_nonneg r); split; [done|lia]|lia].
  - exists (0 :: r). split; [done|]. split; [|intros _; by exists r]. right. split_and!; [done|done|apply zget_middle|]. intros k Hk. rewrite zget_app_l by lia. intros [_ E]%zget_Some_lookup. apply H0. by eapply list_elem_of_lookup_2.
Qed.

Lemma strFindFirst_finds u r length b subLength sub :
  sub_arg (u ++ r) length u -> sub_arg b subLength sub -> settled u r sub -> Forall unit16 sub -> 0 < zlen sub -> (length = -1 -> sub <> [0]) ->
  exists x, u_strFindFirst (Some (u ++ r)) length (Some b) subLength = Some x /\ is_first u sub x.
Proof.
  intros Ht Hs Hset Hu Hpos Hnz. apply sub_arg_text in Ht as (r' & _ & Ht & _). destruct (strFindFirst_spec (u ++ r) length (zlen u) b subLength sub Ht Hs (settled_readable _ _ _ Hset) Hu Hpos Hnz) as (x & E & Hx). exists x. split; [exact E|].
  destruct x as [i|]; cbn [first_seen is_first] in *; setoid_rewrite (seen_occurs u r sub) in Hx; done.
Qed.

Lemma strFindLast_finds u r length b subLength sub :
  sub_arg (u ++ r) length u -> sub_arg b subLength sub -> settled u r sub -> Forall unit16 sub -> 0 < zlen sub -> (length = -1 -> sub <> [0]) ->
  exists x, u_strFindLast (Some (u ++ r)) length (Some b) subLength = Some x /\ is_last u sub x.
Proof.
  intros Ht Hs Hset Hu Hpos Hnz. apply sub_arg_text in Ht as (r' & _ & Ht & _). destruct (strFindLast_spec (u ++ r) length (zlen u) b subLength sub Ht Hs (settled_readable _ _ _ Hset) Hu Hpos Hnz) as (x & E & Hx). exists x. split; [exact E|].
  destruct x as [i|]; cbn [last_seen is_last] in *; setoid_rewrite (seen_occurs u r sub) in Hx; done.
Qed.

(** C16: [u_strFindFirst] and [u_strFindLast] return the first and the last place where a non-empty
    substring occurs in the text at code point boundaries of the text, and null if there is none.
    Text and substring are counted or NUL-terminated, in any combination.  Not covered are a
    counted substring that is a single U+0000 in a NUL-terminated text, and a counted text and a
    substring that both end with a lead surrogate when the text is followed by nothing or by a
    trail surrogate ([settled]): there the code reads the unit behind the text and misses the match
    at its end ([counted_lead_missed]). *)
Theorem u_strFind_correct u r length b subLength sub :
  sub_arg (u ++ r) length u -> sub_arg b subLength sub -> length = -1 \/ settled u r sub -> Forall unit16 sub -> 0 < zlen sub -> (length = -1 -> sub <> [0]) ->
  (exists x, u_strFindFirst (Some (u ++ r)) length (Some b) subLength = Some x /\ is_first u sub x) /\
  (exists x, u_strFindLast (Some (u ++ r)) length (Some b) subLength = Some x /\ is_last u sub x).
Proof.
  intros Ht Hs Hor Hu Hpos Hnz. assert (Hset : settled u r sub).
  { destruct Hor as [->|]; [|done]. apply sub_arg_text in Ht as (r' & E%app_inv_head & _ & Hr). subst r'. destruct (Hr eq_refl) as [r' ->]. apply settled_nul. }
  split; [by apply (strFindFirst_finds u r)|by apply (strFindLast_finds u r)].
Qed.

(** The lead surrogate is half of a pair at offset 0 and unpaired at offset 3. *)
Lemma u_strFind_correct_witness :
  exists x, u_strFindFirst (Some ([0xd800; 0xdc00; 0x61; 0xd800; 0x62] ++ [0])) (-1) (Some [0xd800]) 1 = Some x /\ is_first [0xd800; 0xdc00; 0x61; 0xd800; 0x62] [0xd800] x /\ x = Some 3.
Proof.
  destruct (u_strFind_correct [0xd800; 0xdc00; 0x61; 0xd800; 0x62] [0] (-1) [0xd800] 1 [0xd800]) as [(x & Hx & Hf) _]; [| |by left| |done|done|].
  - right. split; [done|]. split; [by exists []|]. set_solver by lia.
  - left. split; [done|]. by exists [].
  - repeat constructor; lia.
  - exists x. split; [done|]. split; [done|]. assert (u_strFindFirst (Some ([0xd800; 0xdc00; 0x61; 0xd800; 0x62] ++ [0])) (-1) (Some [0xd800]) 1 = Some (Some 3)) by (vm_compute; reflexivity). congruence.
Defined.

(** The test [match!=limit] in [isMatchAtCPBoundary] compares the start of the match, which is never at the limit:
    a lead surrogate at the end of a counted text is compared with the unit behind the text,
    which is read although it may not exist, and hides the match if it is a trail surrogate. *)
Lemma counted_lead_missed l t :
  unit16 l -> unit16 t -> is_pair l t = true ->
  u_strFindFirst (Some [l]) 1 (Some [l]) 1 = None /\
  u_strFindFirst (Some [l; t]) 1 (Some [l]) 1 = Some None /\ occurs [l] [l] 0.
Proof.
  intros Hl Ht Hp. unfold is_pair in Hp. apply andb_true_iff in Hp as [Hlead Htrail]. assert (Hsur : U_IS_SURROGATE l = true) by (rewrite unit_masks by done; by rewrite Hlead). pose proof (lead_not_trail l Hl Hlead) as Hnt.
  assert (Hsearch : forall a, zget a 0 = Some l -> u_strFindFirst (Some a) 1 (Some [l]) 1 = (ok ← isMatchAtCPBoundary a 0 1 (Some 1); if (ok : bool) then Some (Some 0) else Some None)).
  { intros a Ha. unfold u_strFindFirst. change (zget [l] 0) with (Some l). cbn -[zget search_loop U_IS_SURROGATE fuel_for]. rewrite Hsur. unfold fuel_for. cbn -[zget isMatchAtCPBoundary length]. rewrite Ha. cbn -[zget isMatchAtCPBoundary length]. rewrite Z.eqb_refl. change (1 - (1 - 1)) with 1. change (0 + 1) with 1. rewrite (bool_decide_true (Some 1 = Some 1)), (bool_decide_false (Some 1 = Some 0)) by done. rewrite andb_false_r. change (1 <=? 1 - 1) with false. rewrite Z.eqb_refl. by destruct (isMatchAtCPBoundary a 0 1 (Some 1)) as [[]|]. }
  assert (Hbound : forall a, zget a 0 = Some l -> isMatchAtCPBoundary a 0 1 (Some 1) = (f ← zget a 1; Some (negb (U16_IS_TRAIL f)))).
  { intros a Ha. unfold isMatchAtCPBoundary. rewrite Ha. cbn [mbind option_bind]. rewrite Hnt. cbn [andb mbind option_bind]. change (1 - 1) with 0. rewrite Ha. cbn [mbind option_bind]. rewrite Hlead. cbn [andb]. rewrite (bool_decide_false (Some 1 = Some 0)) by done. cbn [negb]. by destruct (zget a 1). }
  rewrite !Hsearch, !Hbound by done. change (zget [l] 1) with (@None Z). change (zget [l; t] 1) with (Some t). cbn [mbind option_bind]. rewrite Htrail. split; [done|]. split; [done|].
  split_and!; [lia|done| |].
  - intros k Hk. change (zlen [l]) with 1 in Hk. by assert (k = 0) as -> by lia.
  - unfold whole, lead_at, trail_at. cbn -[U16_IS_LEAD U16_IS_TRAIL]. by rewrite andb_false_r.
Qed.
End StringSearchFacts.
