(* ===== verification/StringStore.v ===== *)
(** * The storage of strings (common/unistr.cpp, unicode/unistr.h)

    A [UnicodeString] keeps its text in a buffer inside the object, in a reference-counted array
    that copies share, or in memory of the caller, which it may only read or also write.  Here the
    objects lie in a store, with the memory that their array pointers point into, so that sharing,
    copying on write, dangling pointers and leaks are visible.

    A [store] maps objects to their members and memory blocks to their contents.  Reading or
    writing outside a block, or one that has been freed, gives [None]. *)

From S2P Require Import Prelude Utf16 UString.

Module StringStore.
Import Utf16.

(** ** Members and flags *)

Definition US_STACKBUF_SIZE : Z := 27.
Definition kGrowSize : Z := 128.
Definition kIsBogus : Z := 1.
Definition kUsingStackBuffer : Z := 2.
Definition kRefCounted : Z := 4.
Definition kBufferIsReadonly : Z := 8.
Definition kOpenGetBuffer : Z := 16.
Definition kAllStorageFlags : Z := 0x1f.
Definition kLengthShift : Z := 5.
Definition kMaxShortLength : Z := 0x3ff.
Definition kLengthIsLarge : Z := 0xffe0.
Definition kShortString : Z := kUsingStackBuffer.
Definition kLongString : Z := kRefCounted.
Definition kReadonlyAlias : Z := kBufferIsReadonly.
Definition kWritableAlias : Z := 0.

Definition int16 (z : Z) : Z := (z + 32768) mod 65536 - 32768.

(** A pointer to text: into a block of memory, to the buffer of an object, or to an array of
    local units that nothing else points to. *)
Inductive ptr := InBlock (b : nat) (off : Z) | InObject (o : nat) | Local (units : list Z).

#[global] Instance ptr_eq_dec : EqDecision ptr.
Proof. solve_decision. Defined.

(** The union of an object, without the flags that both of its structures begin with. *)
Inductive fUnion :=
  | fStackFields (fBuffer : list Z)
  | fFields (fArray : option ptr) (fCapacity fLength : Z).

Record obj := mk_obj { fLengthAndFlags : Z; union : fUnion }.

(** A block of the heap has a reference count in front of its units, memory of the caller none. *)
Record block := mk_block { refs : option Z; cells : list Z }.

Record store := mk_store { objs : gmap nat obj; blocks : gmap nat block; next_block : nat }.

Definition put (st : store) (o : nat) (ob : obj) : store := mk_store (<[o := ob]> (objs st)) (blocks st) (next_block st).
Definition put_block (st : store) (b : nat) (bl : block) : store := mk_store (objs st) (<[b := bl]> (blocks st)) (next_block st).

Section Store.
Context `{HP : Heap}.

(** *** The two members of the union; the one that is not in use holds garbage *)

Definition as_buffer (u : fUnion) : list Z :=
  match u with fStackFields b => b | fFields _ _ _ => replicate (Z.to_nat US_STACKBUF_SIZE) junk end.
Definition fArray_of (ob : obj) : option ptr := match union ob with fFields a _ _ => a | fStackFields _ => None end.
Definition fCapacity_of (ob : obj) : Z := match union ob with fFields _ c _ => c | fStackFields _ => junk end.
Definition fLength_of (ob : obj) : Z := match union ob with fFields _ _ l => l | fStackFields _ => junk end.

Definition set_flags (ob : obj) (f : Z) : obj := mk_obj f (union ob).
Definition set_array (ob : obj) (a : option ptr) (c : Z) : obj := mk_obj (fLengthAndFlags ob) (fFields a c (fLength_of ob)).
Definition set_fLength (ob : obj) (l : Z) : obj := mk_obj (fLengthAndFlags ob) (fFields (fArray_of ob) (fCapacity_of ob) l).

Definition has_flag (ob : obj) (mask : Z) : bool := negb (Z.land (fLengthAndFlags ob) mask =? 0).

Definition hasShortLength (ob : obj) : bool := 0 <=? fLengthAndFlags ob.
Definition getShortLength (ob : obj) : Z := Z.shiftr (fLengthAndFlags ob) kLengthShift.
Definition length (ob : obj) : Z := if hasShortLength ob then getShortLength ob else fLength_of ob.
Definition isEmpty (ob : obj) : bool := Z.shiftr (fLengthAndFlags ob) kLengthShift =? 0.
Definition getCapacity (ob : obj) : Z := if has_flag ob kUsingStackBuffer then US_STACKBUF_SIZE else fCapacity_of ob.
Definition isBogus (ob : obj) : bool := has_flag ob kIsBogus.
Definition isWritable (ob : obj) : bool := negb (has_flag ob (Z.lor kOpenGetBuffer kIsBogus)).
Definition getArrayStart (o : nat) (ob : obj) : option ptr := if has_flag ob kUsingStackBuffer then Some (InObject o) else fArray_of ob.

Definition setZeroLength (ob : obj) : obj := set_flags ob (Z.land (fLengthAndFlags ob) kAllStorageFlags).
Definition setShortLength (ob : obj) (len : Z) : obj :=
  set_flags ob (int16 (Z.lor (Z.land (fLengthAndFlags ob) kAllStorageFlags) (Z.shiftl len kLengthShift))).
Definition setLength (ob : obj) (len : Z) : obj :=
  if len <=? kMaxShortLength then setShortLength ob len
  else set_fLength (set_flags ob (int16 (Z.lor (fLengthAndFlags ob) kLengthIsLarge))) len.
Definition setToEmpty (ob : obj) : obj := set_flags ob kShortString.
Definition setArray (ob : obj) (array : option ptr) (len capacity : Z) : obj := set_array (setLength ob len) array capacity.

Definition pinIndex (ob : obj) (start : Z) : Z := if start <? 0 then 0 else if length ob <? start then length ob else start.
Definition pinIndices (ob : obj) (start len0 : Z) : Z * Z :=
  let len := length ob in
  let start := if start <? 0 then 0 else if len <? start then len else start in
  let len0 := if len0 <? 0 then 0 else if len - start <? len0 then len - start else len0 in
  (start, len0).

(** *** Memory *)

(** The units from a pointer on. *)
Definition memory (st : store) (p : ptr) : option (list Z) :=
  match p with
  | InBlock b off => bl ← blocks st !! b; if (0 <=? off) && (off <=? zlen (cells bl)) then Some (drop (Z.to_nat off) (cells bl)) else None
  | InObject o => ob ← objs st !! o; Some (as_buffer (union ob))
  | Local units => Some units
  end.

Definition load (st : store) (p : ptr) (i n : Z) : option (list Z) :=
  a ← memory st p; if (0 <=? i) && (i + n <=? zlen a) then Some (ztake n (drop (Z.to_nat i) a)) else None.

(** [l] with the units [x] from [i] on. *)
Definition splice (l : list Z) (i : Z) (x : list Z) : list Z := ztake i l ++ x ++ drop (Z.to_nat (i + zlen x)) l.

Definition store_units (st : store) (p : ptr) (i : Z) (x : list Z) : option store :=
  a ← memory st p;
  if (0 <=? i) && (i + zlen x <=? zlen a) then
    match p with
    | InBlock b off => bl ← blocks st !! b; Some (put_block st b (mk_block (refs bl) (splice (cells bl) (off + i) x)))
    | InObject o => ob ← objs st !! o; Some (put st o (mk_obj (fLengthAndFlags ob) (fStackFields (splice (as_buffer (union ob)) i x))))
    | Local _ => None
    end
  else None.

(** [us_arrayCopy]: [uprv_memmove] of a positive number of units. *)
Definition us_arrayCopy (st : store) (src : option ptr) (srcStart : Z) (dst : option ptr) (dstStart count : Z) : option store :=
  if 0 <? count then src ← src; dst ← dst; x ← load st src srcStart count; store_units st dst dstStart x else Some st.

(** [u_strlen(p+i)] *)
Definition strlen_at (st : store) (p : ptr) (i : Z) : option Z :=
  a ← memory st p; if (0 <=? i) && (i <=? zlen a) then ustring.u_strlen (drop (Z.to_nat i) a) else None.

(** *** Reference counts; [None] for memory that has none, or none any more *)

Definition the_block (p : option ptr) : option nat := match p with Some (InBlock b 0) => Some b | _ => None end.

Definition change_refs (st : store) (b : nat) (d : Z) : option (store * Z) :=
  bl ← blocks st !! b; n ← refs bl; Some (put_block st b (mk_block (Some (n + d)) (cells bl)), n + d).

Definition addRef (st : store) (ob : obj) : option store := b ← the_block (fArray_of ob); '(st, _) ← change_refs st b 1; Some st.
Definition removeRef (st : store) (ob : obj) : option (store * Z) := b ← the_block (fArray_of ob); change_refs st b (-1).
Definition refCount (st : store) (ob : obj) : option Z := b ← the_block (fArray_of ob); bl ← blocks st !! b; refs bl.

(** [uprv_free((int32_t * )array - 1)] *)
Definition free_block (st : store) (b : nat) : option store :=
  bl ← blocks st !! b; _ ← refs bl; Some (mk_store (objs st) (delete b (blocks st)) (next_block st)).

Definition releaseArray (st : store) (ob : obj) : option store :=
  if has_flag ob kRefCounted then
    '(st, n) ← removeRef st ob;
    if n =? 0 then b ← the_block (fArray_of ob); free_block st b else Some st
  else Some st.

Definition isBufferWritable (st : store) (ob : obj) : option bool :=
  if has_flag ob (Z.lor (Z.lor kOpenGetBuffer kIsBogus) kBufferIsReadonly) then Some false
  else if has_flag ob kRefCounted then n ← refCount st ob; Some (n =? 1) else Some true.

(** *** Allocation *)

Definition allocate (st : store) (o : nat) (capacity : Z) : option (store * bool) :=
  ob ← objs st !! o;
  if capacity <=? US_STACKBUF_SIZE then Some (put st o (set_flags ob kShortString), true)
  else
    _ ← checked (capacity + 1); units ← checked ((capacity + 1) * 2);
    let words := int32 (Z.shiftr (Z.land (4 + units + 15) (Z.lnot 15)) 2) in
    if alloc_ok (4 * words) then
      let b := next_block st in
      let cap := (words - 1) * 2 in
      let st := mk_store (objs st) (<[b := mk_block (Some 1) (replicate (Z.to_nat cap) junk)]> (blocks st)) (S b) in
      Some (put st o (set_flags (set_array ob (Some (InBlock b 0)) cap) kLongString), true)
    else Some (put st o (set_flags (set_array ob None 0) kIsBogus), false).

Definition setToBogus (st : store) (o : nat) : option store :=
  ob ← objs st !! o; st ← releaseArray st ob; Some (put st o (set_flags (set_array ob None 0) kIsBogus)).

Definition unBogus (st : store) (o : nat) : option store :=
  ob ← objs st !! o; Some (if has_flag ob kIsBogus then put st o (setToEmpty ob) else st).

(** The result, and the array that the caller shall free, if it asked for it with [later]. *)
Definition cloneArrayIfNeeded (st : store) (o : nat) (newCapacity growCapacity : Z) (doCopyArray later forceClone : bool)
  : option (store * bool * option nat) :=
  ob ← objs st !! o;
  let newCapacity := if newCapacity =? -1 then getCapacity ob else newCapacity in
  if negb (isWritable ob) then Some (st, false, None)
  else
    shared ← (if has_flag ob kRefCounted then n ← refCount st ob; Some (1 <? n) else Some false);
    if forceClone || has_flag ob kBufferIsReadonly || shared || (getCapacity ob <? newCapacity) then
      let growCapacity :=
        if growCapacity <? 0 then newCapacity
        else if (newCapacity <=? US_STACKBUF_SIZE) && (US_STACKBUF_SIZE <? growCapacity) then US_STACKBUF_SIZE
        else growCapacity in
      let oldLength := length ob in
      let flags := fLengthAndFlags ob in
      let oldArray :=
        if has_flag ob kUsingStackBuffer
        then if doCopyArray && (US_STACKBUF_SIZE <? growCapacity) then Some (Local (ztake oldLength (as_buffer (union ob)))) else None
        else fArray_of ob in
      '(st, ok) ← allocate st o growCapacity;
      '(st, ok) ← (if (ok : bool) then Some (st, true) else if newCapacity <? growCapacity then allocate st o newCapacity else Some (st, false));
      if (ok : bool) then
        st ← (if doCopyArray then
                ob' ← objs st !! o;
                let minLength := Z.min oldLength (getCapacity ob') in
                st ← (match oldArray with Some _ => us_arrayCopy st oldArray 0 (getArrayStart o ob') 0 minLength | None => Some st end);
                ob' ← objs st !! o; Some (put st o (setLength ob' minLength))
              else ob' ← objs st !! o; Some (put st o (setZeroLength ob')));
        if has_flag ob kRefCounted then
          b ← the_block oldArray;
          '(st, n) ← change_refs st b (-1);
          if n =? 0 then if later then Some (st, true, Some b) else st ← free_block st b; Some (st, true, None)
          else Some (st, true, None)
        else Some (st, true, None)
      else
        ob' ← objs st !! o;
        let ob' := if has_flag ob kUsingStackBuffer then ob' else set_array ob' oldArray (fCapacity_of ob') in
        st ← setToBogus (put st o (set_flags ob' flags)) o;
        Some (st, false, None)
    else Some (st, true, None).

(** With the default arguments behind the capacities. *)
Definition cloneArray (st : store) (o : nat) (newCapacity growCapacity : Z) : option (store * bool) :=
  '(st, ok, _) ← cloneArrayIfNeeded st o newCapacity growCapacity true false false; Some (st, ok).
End Store.
End StringStore.
