(* ===== verification/StringEdit.v ===== *)
(** * Changing strings (common/unistr.cpp, unicode/unistr.h)

    Construction, assignment, moving and the methods that change the text of a [UnicodeString], on
    the store of StringStore.v.  Each takes the store and the object [o] that it is called on, and
    gives the store after it. *)

From S2P Require Import Prelude Utf16 UString StringStore.

Module StringEdit.
Import Utf16 StringStore.

Section Edit.
Context `{HP : Heap}.

(** ** Construction and destruction *)

(** The members of an object that is constructed hold garbage; the default constructor. *)
Definition fresh_obj (flags : Z) : obj := mk_obj flags (fStackFields (replicate (Z.to_nat US_STACKBUF_SIZE) junk)).
Definition new_empty (st : store) (o : nat) : store := put st o (fresh_obj kShortString).

Definition destroy (st : store) (o : nat) : option store :=
  ob ← objs st !! o; st ← releaseArray st ob; Some (mk_store (delete o (objs st)) (blocks st) (next_block st)).

(** [UnicodeString(UChar)], [UnicodeString(UChar32)] *)
Definition new_unit (st : store) (o : nat) (ch : Z) : option store :=
  store_units (put st o (fresh_obj (Z.lor (Z.shiftl 1 kLengthShift) kShortString))) (InObject o) 0 [ch].
Definition new_code_point (st : store) (o : nat) (ch : Z) : option store :=
  let st := put st o (fresh_obj kShortString) in
  ob ← objs st !! o;
  '(b, i, isError) ← U16_APPEND (as_buffer (union ob)) 0 US_STACKBUF_SIZE ch;
  let ob := mk_obj (fLengthAndFlags ob) (fStackFields b) in
  Some (put st o (if (isError : bool) then ob else setShortLength ob i)).

(** [n] times the units of a code point. *)
Fixpoint repeat_units (n : nat) (units : list Z) : list Z := match n with O => [] | S n => units ++ repeat_units n units end.

(** [UnicodeString(int32_t capacity, UChar32 c, int32_t count)] *)
Definition new_filled (st : store) (o : nat) (capacity c count : Z) : option store :=
  let st := put st o (fresh_obj 0) in
  if (count <=? 0) || (0x10ffff <? uint32 c) then '(st, _) ← allocate st o capacity; Some st
  else
    let unitCount := U16_LENGTH c in
    len ← checked (count * unitCount);
    let capacity := if capacity <? len then len else capacity in
    '(st, ok) ← allocate st o capacity;
    st ← (if (ok : bool) then
            ob ← objs st !! o; array ← getArrayStart o ob;
            let units := if unitCount =? 1 then [uint16 c] else [U16_LEAD c; U16_TRAIL c] in
            store_units st array 0 (repeat_units (Z.to_nat count) units)
          else Some st);
    ob ← objs st !! o; Some (put st o (setLength ob len)).

(** ** Assignment *)

Definition setBogusFields (st : store) (o : nat) : option store := ob ← objs st !! o; Some (put st o (set_flags (set_array ob None 0) kIsBogus)).

Definition copyFrom (st : store) (o src : nat) (fastCopy : bool) : option store :=
  if (o =? src)%nat then Some st
  else
    s ← objs st !! src;
    if isBogus s then setToBogus st o
    else
      ob ← objs st !! o; st ← releaseArray st ob;
      if isEmpty s then Some (put st o (setToEmpty ob))
      else
        let ob := set_flags ob (fLengthAndFlags s) in
        let share (ob : obj) := let ob := set_array ob (fArray_of s) (fCapacity_of s) in if hasShortLength ob then ob else set_fLength ob (fLength_of s) in
        let storage := Z.land (fLengthAndFlags s) kAllStorageFlags in
        if storage =? kShortString then
          Some (put st o (mk_obj (fLengthAndFlags ob) (fStackFields (splice (as_buffer (union ob)) 0 (ztake (getShortLength ob) (as_buffer (union s)))))))
        else if storage =? kLongString then st ← addRef st s; Some (put st o (share ob))
        else if (storage =? kReadonlyAlias) && fastCopy then Some (put st o (share ob))
        else if (storage =? kReadonlyAlias) || (storage =? kWritableAlias) then
          let srcLength := length s in
          '(st, ok) ← allocate (put st o ob) o srcLength;
          if (ok : bool) then
            ob' ← objs st !! o;
            st ← us_arrayCopy st (getArrayStart src s) 0 (getArrayStart o ob') 0 srcLength;
            ob' ← objs st !! o; Some (put st o (setLength ob' srcLength))
          else setBogusFields st o
        else setBogusFields (put st o ob) o.

(** The copy constructor and [operator=]. *)
Definition new_copy (st : store) (o src : nat) : option store := copyFrom (new_empty st o) o src false.
Definition operator_assign (st : store) (o src : nat) : option store := copyFrom st o src false.
Definition fastCopyFrom (st : store) (o src : nat) : option store := copyFrom st o src true.

(** [copyFieldsFrom] on the members of two objects: the target and the source after it. *)
Definition copyFieldsFrom (ob s : obj) (same setSrcToBogus : bool) : obj * obj :=
  let ob := set_flags ob (fLengthAndFlags s) in
  if has_flag ob kUsingStackBuffer then
    (if same then ob else mk_obj (fLengthAndFlags ob) (fStackFields (splice (as_buffer (union ob)) 0 (ztake (getShortLength ob) (as_buffer (union s))))), s)
  else
    let ob := set_array ob (fArray_of s) (fCapacity_of s) in
    let ob := if hasShortLength ob then ob else set_fLength ob (fLength_of s) in
    (ob, if setSrcToBogus then set_flags (set_array s None 0) kIsBogus else s).

(** [moveFrom] of another object. *)
Definition moveFrom (st : store) (o src : nat) : option store :=
  ob ← objs st !! o; s ← objs st !! src; st ← releaseArray st ob;
  let '(ob, s) := copyFieldsFrom ob s false true in Some (put (put st src s) o ob).

Definition swap (st : store) (o other : nat) : option store :=
  ob ← objs st !! o; oth ← objs st !! other;
  let '(temp, ob) := copyFieldsFrom (fresh_obj kShortString) ob false false in
  let '(ob, oth) := copyFieldsFrom ob oth (o =? other)%nat false in
  let oth := if (o =? other)%nat then ob else oth in
  let '(oth, _) := copyFieldsFrom oth temp false false in
  Some (put (put st o ob) other oth).

(** ** Aliases of the caller's memory; a null pointer is [None] *)

Definition bounded_strlen (st : store) (buffer : ptr) (capacity : Z) : option Z :=
  (fix scan (n : nat) (i : Z) : option Z :=
     match n with O => Some i | S n => u ← load st buffer i 1; if bool_decide (u = [0]) then Some i else scan n (i + 1) end) (Z.to_nat capacity) 0.

(** [setTo(isTerminated, text, textLength)]: read-only. *)
Definition setTo_readonly (st : store) (o : nat) (isTerminated : bool) (text : option ptr) (textLength : Z) : option store :=
  ob ← objs st !! o;
  if has_flag ob kOpenGetBuffer then Some st
  else match text with
  | None => st ← releaseArray st ob; Some (put st o (setToEmpty ob))
  | Some p =>
      unterminated ← (if (0 <=? textLength) && isTerminated then u ← load st p textLength 1; Some (negb (bool_decide (u = [0]))) else Some false);
      if (textLength <? -1) || ((textLength =? -1) && negb isTerminated) || unterminated then setToBogus st o
      else
        st ← releaseArray st ob;
        textLength ← (if textLength =? -1 then strlen_at st p 0 else Some textLength);
        Some (put st o (setArray (set_flags ob kReadonlyAlias) (Some p) textLength (if isTerminated then textLength + 1 else textLength)))
  end.

(** [setTo(buffer, buffLength, buffCapacity)]: writable. *)
Definition setTo_writable (st : store) (o : nat) (buffer : option ptr) (buffLength buffCapacity : Z) : option store :=
  ob ← objs st !! o;
  if has_flag ob kOpenGetBuffer then Some st
  else match buffer with
  | None => st ← releaseArray st ob; Some (put st o (setToEmpty ob))
  | Some p =>
      if (buffLength <? -1) || (buffCapacity <? 0) || (buffCapacity <? buffLength) then setToBogus st o
      else
        buffLength ← (if buffLength =? -1 then bounded_strlen st p buffCapacity else Some buffLength);
        st ← releaseArray st ob;
        Some (put st o (setArray (set_flags ob kWritableAlias) (Some p) buffLength buffCapacity))
  end.

(** ** Replacing and appending *)

(** [srcChars + srcStart != newArray + oldLength] *)
Definition same_place (src dst : ptr) (i j : Z) : bool :=
  match src, dst with
  | InBlock b off, InBlock b' off' => (b =? b')%nat && (off + i =? off' + j)
  | InObject o, InObject o' => (o =? o')%nat && (i =? j)
  | _, _ => false
  end.

Definition growth (newLength : Z) : option Z := checked (newLength + Z.shiftr newLength 2 + kGrowSize).

Definition doAppend (st : store) (o : nat) (srcChars : option ptr) (srcStart srcLength : Z) : option store :=
  ob ← objs st !! o;
  match srcChars with
  | Some p =>
      if negb (isWritable ob) || (srcLength =? 0) then Some st
      else
        srcLength ← (if srcLength <? 0 then strlen_at st p srcStart else Some srcLength);
        if srcLength =? 0 then Some st
        else
          let oldLength := length ob in
          newLength ← checked (oldLength + srcLength);
          owned ← (if newLength <=? getCapacity ob then isBufferWritable st ob else Some false);
          '(st, ok) ← (if (owned : bool) then Some (st, true) else growCapacity ← growth newLength; cloneArray st o newLength growCapacity);
          if (ok : bool) then
            ob ← objs st !! o; newArray ← getArrayStart o ob;
            st ← (if same_place p newArray srcStart oldLength then Some st else us_arrayCopy st srcChars srcStart (Some newArray) oldLength srcLength);
            ob ← objs st !! o; Some (put st o (setLength ob newLength))
          else Some st
  | None => Some st
  end.

(** From another string object. *)
Definition doAppend_str (st : store) (o src : nat) (srcStart srcLength : Z) : option store :=
  if srcLength =? 0 then Some st
  else s ← objs st !! src; let '(srcStart, srcLength) := pinIndices s srcStart srcLength in doAppend st o (getArrayStart src s) srcStart srcLength.

Definition append (st : store) (o src : nat) : option store := s ← objs st !! src; doAppend_str st o src 0 (length s).

(** [append(UChar32)]; [append(UChar)] is [doAppend] of one unit. *)
Definition append_code_point (st : store) (o : nat) (srcChar : Z) : option store :=
  '(buffer, len, isError) ← U16_APPEND [junk; junk] 0 2 srcChar;
  if (isError : bool) then Some st else doAppend st o (Some (Local buffer)) 0 len.

(** [remove] of a prefix or suffix of a read-only alias moves its bounds. *)
Definition shrink_alias (ob : obj) (oldLength start length0 : Z) : option obj :=
  if start =? 0 then
    let n := pinIndex ob length0 in
    let p := match fArray_of ob with Some (InBlock b off) => Some (InBlock b (off + n)) | Some (Local u) => Some (Local (drop (Z.to_nat n) u)) | p => p end in
    Some (setLength (set_array ob p (fCapacity_of ob - n)) (oldLength - n))
  else
    let start := pinIndex ob start in
    if oldLength - start <=? length0 then
      let ob := setLength ob start in Some (set_array ob (fArray_of ob) start)
    else None.

Definition doReplace (st : store) (o : nat) (start length0 : Z) (srcChars : option ptr) (srcStart srcLength : Z) : option store :=
  ob ← objs st !! o;
  if negb (isWritable ob) then Some st
  else
    let oldLength := length ob in
    let readonly := has_flag ob kBufferIsReadonly && (srcLength =? 0) in
    match (if readonly then shrink_alias ob oldLength start length0 else None) with
    | Some ob => Some (put st o ob)
    | None =>
        (* the start is pinned on the way *)
        let start := if readonly then pinIndex ob start else start in
        if start =? oldLength then doAppend st o srcChars srcStart srcLength
        else
          '(srcStart, srcLength) ← match srcChars with
                                   | None => Some (0, 0)
                                   | Some p => if srcLength <? 0 then n ← strlen_at st p srcStart; Some (srcStart, n) else Some (srcStart, srcLength)
                                   end;
          let '(start, length0) := pinIndices ob start length0 in
          newLength ← checked (oldLength - length0 + srcLength);
          let oldArray :=
            if has_flag ob kUsingStackBuffer && (US_STACKBUF_SIZE <? newLength)
            then Some (Local (ztake oldLength (as_buffer (union ob)))) else getArrayStart o ob in
          growCapacity ← growth newLength;
          '(st, ok, bufferToDelete) ← cloneArrayIfNeeded st o newLength growCapacity false true false;
          if (ok : bool) then
            ob ← objs st !! o;
            let newArray := getArrayStart o ob in
            st ← (if negb (bool_decide (newArray = oldArray)) then
                    st ← us_arrayCopy st oldArray 0 newArray 0 start;
                    us_arrayCopy st oldArray (start + length0) newArray (start + srcLength) (oldLength - (start + length0))
                  else if negb (length0 =? srcLength) then
                    us_arrayCopy st oldArray (start + length0) newArray (start + srcLength) (oldLength - (start + length0))
                  else Some st);
            st ← us_arrayCopy st srcChars srcStart newArray start srcLength;
            ob ← objs st !! o;
            let st := put st o (setLength ob newLength) in
            match bufferToDelete with Some b => free_block st b | None => Some st end
          else Some st
    end.

Definition doReplace_str (st : store) (o : nat) (start length0 : Z) (src : nat) (srcStart srcLength : Z) : option store :=
  s ← objs st !! src; let '(srcStart, srcLength) := pinIndices s srcStart srcLength in doReplace st o start length0 (getArrayStart src s) srcStart srcLength.

Definition replace_code_point (st : store) (o : nat) (start length0 srcChar : Z) : option store :=
  '(buffer, count, isError) ← U16_APPEND [junk; junk] 0 2 srcChar;
  doReplace st o start length0 (Some (Local buffer)) 0 (if (isError : bool) then 0 else count).

(** [remove()], [remove(start, length)], [truncate], [retainBetween] *)
Definition remove_all (st : store) (o : nat) : option store :=
  ob ← objs st !! o; Some (put st o (if isBogus ob then setToEmpty ob else setZeroLength ob)).
Definition remove (st : store) (o : nat) (start length0 : Z) : option store :=
  if (start <=? 0) && (length0 =? INT32_MAX) then remove_all st o else doReplace st o start length0 None 0 0.
Definition truncate (st : store) (o : nat) (targetLength : Z) : option (store * bool) :=
  ob ← objs st !! o;
  if isBogus ob && (targetLength =? 0) then st ← unBogus st o; Some (st, false)
  else if uint32 targetLength <? uint32 (length ob) then Some (put st o (setLength ob targetLength), true)
  else Some (st, false).
Definition retainBetween (st : store) (o : nat) (start limit : Z) : option store :=
  '(st, _) ← truncate st o limit; doReplace st o 0 start None 0 0.

(** [setTo(srcText, srcStart, srcLength)], [setTo(srcChars, srcLength)] *)
Definition setTo_str (st : store) (o src : nat) (srcStart srcLength : Z) : option store :=
  st ← unBogus st o; ob ← objs st !! o; doReplace_str st o 0 (length ob) src srcStart srcLength.
Definition setTo_chars (st : store) (o : nat) (srcChars : option ptr) (srcLength : Z) : option store :=
  st ← unBogus st o; ob ← objs st !! o; doReplace st o 0 (length ob) srcChars 0 srcLength.

(** ** Changes in place *)

Definition setCharAt (st : store) (o : nat) (offset c : Z) : option store :=
  ob ← objs st !! o; let len := length ob in
  '(st, ok) ← cloneArray st o (-1) (-1);
  if (ok : bool) && (0 <? len) then
    let offset := if offset <? 0 then 0 else if len <=? offset then len - 1 else offset in
    ob ← objs st !! o; array ← getArrayStart o ob; store_units st array offset [c]
  else Some st.

Definition padLeading (st : store) (o : nat) (targetLength padChar : Z) : option (store * bool) :=
  ob ← objs st !! o; let oldLength := length ob in
  if targetLength <=? oldLength then Some (st, false)
  else
    '(st, ok) ← cloneArray st o targetLength (-1);
    if (ok : bool) then
      ob ← objs st !! o; array ← getArrayStart o ob;
      let start := targetLength - oldLength in
      st ← us_arrayCopy st (Some array) 0 (Some array) start oldLength;
      st ← store_units st array 0 (replicate (Z.to_nat start) padChar);
      ob ← objs st !! o; Some (put st o (setLength ob targetLength), true)
    else Some (st, false).

Definition padTrailing (st : store) (o : nat) (targetLength padChar : Z) : option (store * bool) :=
  ob ← objs st !! o; let oldLength := length ob in
  if targetLength <=? oldLength then Some (st, false)
  else
    '(st, ok) ← cloneArray st o targetLength (-1);
    if (ok : bool) then
      ob ← objs st !! o; array ← getArrayStart o ob;
      st ← store_units st array oldLength (replicate (Z.to_nat (targetLength - oldLength)) padChar);
      ob ← objs st !! o; Some (put st o (setLength ob targetLength), true)
    else Some (st, false).

(** ** The buffer for the caller *)

(** The pointer, and the store with the string open. *)
Definition getBuffer (st : store) (o : nat) (minCapacity : Z) : option (store * option ptr) :=
  if -1 <=? minCapacity then
    '(st, ok) ← cloneArray st o minCapacity (-1);
    if (ok : bool) then
      ob ← objs st !! o;
      let ob := setZeroLength (set_flags ob (Z.lor (fLengthAndFlags ob) kOpenGetBuffer)) in
      Some (put st o ob, getArrayStart o ob)
    else Some (st, None)
  else Some (st, None).

Definition releaseBuffer (st : store) (o : nat) (newLength : Z) : option store :=
  ob ← objs st !! o;
  if has_flag ob kOpenGetBuffer && (-1 <=? newLength) then
    let capacity := getCapacity ob in
    newLength ← (if newLength =? -1 then p ← getArrayStart o ob; bounded_strlen st p capacity
                 else Some (if capacity <? newLength then capacity else newLength));
    let ob := setLength ob newLength in
    Some (put st o (set_flags ob (Z.land (fLengthAndFlags ob) (Z.lnot kOpenGetBuffer))))
  else Some st.

Definition getTerminatedBuffer (st : store) (o : nat) : option (store * option ptr) :=
  ob ← objs st !! o;
  if negb (isWritable ob) then Some (st, None)
  else
    let len := length ob in
    let clone :=
      '(st, ok) ← cloneArray st o (len + 1) (-1);
      if (ok : bool) then ob ← objs st !! o; array ← getArrayStart o ob; st ← store_units st array len [0]; Some (st, Some array)
      else Some (st, None) in
    if len <? getCapacity ob then
      array ← getArrayStart o ob;
      if has_flag ob kBufferIsReadonly then
        u ← load st array len 1; if bool_decide (u = [0]) then Some (st, Some array) else clone
      else
        n ← (if has_flag ob kRefCounted then refCount st ob else Some 1);
        if n =? 1 then st ← store_units st array len [0]; Some (st, Some array) else clone
    else clone.

(** ** More constructors *)

(** [UnicodeString(text)] with the length -1, [UnicodeString(text, textLength)] *)
Definition new_text (st : store) (o : nat) (text : option ptr) (textLength : Z) : option store := doAppend (put st o (fresh_obj kShortString)) o text 0 textLength.

(** The aliasing constructors. *)
Definition new_readonly (st : store) (o : nat) (isTerminated : bool) (text : option ptr) (textLength : Z) : option store :=
  let ob := fresh_obj kReadonlyAlias in
  match text with
  | None => Some (put st o (setToEmpty ob))
  | Some p =>
      unterminated ← (if (0 <=? textLength) && isTerminated then u ← load st p textLength 1; Some (negb (bool_decide (u = [0]))) else Some false);
      if (textLength <? -1) || ((textLength =? -1) && negb isTerminated) || unterminated then setToBogus (put st o ob) o
      else
        textLength ← (if textLength =? -1 then strlen_at st p 0 else Some textLength);
        Some (put st o (setArray ob (Some p) textLength (if isTerminated then textLength + 1 else textLength)))
  end.

Definition new_writable (st : store) (o : nat) (buff : option ptr) (buffLength buffCapacity : Z) : option store :=
  let ob := fresh_obj kWritableAlias in
  match buff with
  | None => Some (put st o (setToEmpty ob))
  | Some p =>
      if (buffLength <? -1) || (buffCapacity <? 0) || (buffCapacity <? buffLength) then setToBogus (put st o ob) o
      else
        buffLength ← (if buffLength =? -1 then bounded_strlen st p buffCapacity else Some buffLength);
        Some (put st o (setArray ob (Some p) buffLength buffCapacity))
  end.

Definition new_move (st : store) (o src : nat) : option store := moveFrom (new_empty st o) o src.

(** [setTo(srcText, srcStart)] and the constructors from a part of a string. *)
Definition setTo_from (st : store) (o src : nat) (srcStart : Z) : option store :=
  st ← unBogus st o; s ← objs st !! src; ob ← objs st !! o;
  let srcStart := pinIndex s srcStart in doReplace_str st o 0 (length ob) src srcStart (length s - srcStart).
Definition new_from (st : store) (o src : nat) (srcStart : Z) : option store := setTo_from (new_empty st o) o src srcStart.
Definition new_part (st : store) (o src : nat) (srcStart srcLength : Z) : option store := setTo_str (new_empty st o) o src srcStart srcLength.

(** [operator+]: the sum as a new object [o]. *)
Definition concatenate (st : store) (o s1 s2 : nat) : option store :=
  ob1 ← objs st !! s1; ob2 ← objs st !! s2;
  n ← checked (length ob1 + length ob2); n ← checked (n + 1);
  st ← new_filled st o n 0 0; st ← append st o s1; append st o s2.

(** ** In front of [doReplace] *)

Definition setTo_unit (st : store) (o : nat) (srcChar : Z) : option store := st ← unBogus st o; ob ← objs st !! o; doReplace st o 0 (length ob) (Some (Local [srcChar])) 0 1.
Definition setTo_code_point (st : store) (o : nat) (srcChar : Z) : option store := st ← unBogus st o; ob ← objs st !! o; replace_code_point st o 0 (length ob) srcChar.
Definition insert_str (st : store) (o : nat) (start : Z) (src : nat) : option store := s ← objs st !! src; doReplace_str st o start 0 src 0 (length s).
Definition insert_chars (st : store) (o : nat) (start : Z) (srcChars : option ptr) (srcStart srcLength : Z) : option store := doReplace st o start 0 srcChars srcStart srcLength.
Definition insert_code_point (st : store) (o : nat) (start srcChar : Z) : option store := replace_code_point st o start 0 srcChar.
Definition removeBetween (st : store) (o : nat) (start limit : Z) : option store := n ← checked (limit - start); doReplace st o start n None 0 0.
Definition replaceBetween (st : store) (o : nat) (start limit : Z) (src : nat) : option store := s ← objs st !! src; n ← checked (limit - start); doReplace_str st o start n src 0 (length s).

(** [extractBetween] into an array, and [copy]: what is not extracted stays uninitialised. *)
Definition doExtract (st : store) (o : nat) (start length0 : Z) (dst : list Z) (dstStart : Z) : option (list Z) :=
  ob ← objs st !! o;
  let '(start, length0) := pinIndices ob start length0 in
  if 0 <? length0 then p ← getArrayStart o ob; x ← load st p start length0; if (0 <=? dstStart) && (dstStart + length0 <=? zlen dst) then Some (splice dst dstStart x) else None
  else Some dst.
Definition extractBetween (st : store) (o : nat) (start limit : Z) (dst : list Z) (dstStart : Z) : option (list Z) :=
  ob ← objs st !! o; let start := pinIndex ob start in let limit := pinIndex ob limit in doExtract st o start (limit - start) dst dstStart.
Definition copy (st : store) (o : nat) (start limit dest : Z) : option store :=
  if limit <=? start then Some st
  else
    n ← checked (limit - start);
    if alloc_ok (2 * n) then text ← extractBetween st o start limit (replicate (Z.to_nat n) junk) 0; insert_chars st o dest (Some (Local text)) 0 n
    else Some st.

(** ** Reversing *)

(** The swapping loop, from both ends; the text, the place where it stopped and whether there was a
    lead surrogate. *)
Fixpoint reverse_loop (fuel : nat) (u : list Z) (left right : Z) (hasSupplementary : bool) : option (list Z * Z * bool) :=
  match fuel with
  | O => None
  | S fuel =>
      swap ← zget u left; r ← zget u right;
      let hasSupplementary := hasSupplementary || U16_IS_LEAD swap || U16_IS_LEAD r in
      u ← zset u left r; u ← zset u right swap;
      if left + 1 <? right - 1 then reverse_loop fuel u (left + 1) (right - 1) hasSupplementary else Some (u, left + 1, hasSupplementary)
  end.

Fixpoint reswap_loop (fuel : nat) (u : list Z) (left right : Z) : option (list Z) :=
  match fuel with
  | O => None
  | S fuel =>
      if left <? right then
        swap ← zget u left; swap2 ← zget u (left + 1);
        if U16_IS_TRAIL swap && U16_IS_LEAD swap2 then u ← zset u left swap2; u ← zset u (left + 1) swap; reswap_loop fuel u (left + 2) right
        else reswap_loop fuel u (left + 1) right
      else Some u
  end.

(** On the units of the range; the loops take at most a step per unit. *)
Definition reverse_units (u : list Z) : option (list Z) :=
  let n := zlen u in let fuel := S (List.length u) in
  '(u, stop, hasSupplementary) ← reverse_loop fuel u 0 (n - 1) false;
  middle ← zget u stop;
  if hasSupplementary || U16_IS_LEAD middle then reswap_loop fuel u 0 (n - 1) else Some u.

Definition doReverse (st : store) (o : nat) (start length0 : Z) : option store :=
  if length0 <=? 1 then Some st
  else
    '(st, ok) ← cloneArray st o (-1) (-1);
    if (ok : bool) then
      ob ← objs st !! o;
      let '(start, length0) := pinIndices ob start length0 in
      if length0 <=? 1 then Some st
      else array ← getArrayStart o ob; u ← load st array start length0; u ← reverse_units u; store_units st array start u
    else Some st.

(** ** [UnicodeStringAppendable] on the string [o] *)

Definition writable_after (st : store) (o : nat) : option (store * bool) := ob ← objs st !! o; Some (st, isWritable ob).
Definition appendCodeUnit (st : store) (o : nat) (c : Z) : option (store * bool) := st ← doAppend st o (Some (Local [c])) 0 1; writable_after st o.
Definition appendCodePoint (st : store) (o : nat) (c : Z) : option (store * bool) :=
  '(buffer, cLength, isError) ← U16_APPEND [junk; junk] 0 2 c;
  if (isError : bool) then Some (st, false) else st ← doAppend st o (Some (Local buffer)) 0 cLength; writable_after st o.
Definition appendString (st : store) (o : nat) (s : option ptr) (len : Z) : option (store * bool) := st ← doAppend st o s 0 len; writable_after st o.
Definition reserveAppendCapacity (st : store) (o : nat) (appendCapacity : Z) : option (store * bool) :=
  ob ← objs st !! o; n ← checked (length ob + appendCapacity); cloneArray st o n (-1).

(** The pointer into the string, or to the caller's [scratch], and its capacity. *)
Definition getAppendBuffer (st : store) (o : nat) (minCapacity desiredCapacityHint : Z) (scratch : ptr) (scratchCapacity : Z) : option (store * option (ptr * Z) * Z) :=
  if (minCapacity <? 1) || (scratchCapacity <? minCapacity) then Some (st, None, 0)
  else
    ob ← objs st !! o; let oldLength := length ob in
    n ← checked (oldLength + minCapacity); g ← checked (oldLength + desiredCapacityHint);
    '(st, ok) ← cloneArray st o n g;
    if (ok : bool) then ob ← objs st !! o; array ← getArrayStart o ob; Some (st, Some (array, oldLength), getCapacity ob - oldLength)
    else Some (st, Some (scratch, 0), scratchCapacity).
End Edit.
End StringEdit.
