(* ===== verification/StringStoreFacts.v ===== *)
(** * The invariant of the string store

    Lengths and flags share one member; a reference count is the number of objects that share the
    array; memory that an object writes to is used by no other.  Operations on one object keep
    what the others use ([frame]) and the invariant of the rest of the store ([rest]), so that
    the invariant [wf] follows from the object alone. *)

From S2P Require Import Prelude Utf16 UString StringStore.

Module StringStoreFacts.
Import StringStore.

(** ** Flags and length in one integer *)

(** [fLengthAndFlags] for flags [fl] and the length [len]. *)
Definition pack (fl len : Z) : Z := if len <=? kMaxShortLength then fl + 32 * len else fl - 32.

Definition storage (fl : Z) : Prop := fl = 0 \/ fl = 1 \/ fl = 2 \/ fl = 4 \/ fl = 8 \/ fl = 16 \/ fl = 18 \/ fl = 20.

Lemma storage_range fl : storage fl -> 0 <= fl < 32.
Proof. unfold storage. lia. Qed.

Lemma land_pack fl len : 0 <= fl < 32 -> 0 <= len -> Z.land (pack fl len) kAllStorageFlags = fl.
Proof.
  intros Hf Hl. unfold kAllStorageFlags. change 0x1f with (Z.ones 5). rewrite Z.land_ones by lia. change (2 ^ 5) with 32.
  unfold pack. destruct (len <=? kMaxShortLength); dlia.
Qed.

(** A flag of the five is that of [fl]. *)
Lemma mask_pack fl len m : 0 <= fl < 32 -> 0 <= len -> 0 <= m < 32 -> Z.land (pack fl len) m = Z.land fl m.
Proof.
  intros Hf Hl Hm. rewrite <- (land_pack fl len) at 2 by done. rewrite <- Z.land_assoc. f_equal. unfold kAllStorageFlags. change 0x1f with (Z.ones 5).
  rewrite Z.land_comm, Z.land_ones by lia. change (2 ^ 5) with 32. by rewrite Z.mod_small by lia.
Qed.

Lemma pack_sign fl len : 0 <= fl < 32 -> 0 <= len -> (0 <=? pack fl len) = (len <=? kMaxShortLength).
Proof. intros Hf Hl. unfold pack. destruct (Z.leb_spec len kMaxShortLength); [destruct (Z.leb_spec 0 (fl + 32 * len))|destruct (Z.leb_spec 0 (fl - 32))]; lia || done. Qed.

Lemma pack_shift fl len : 0 <= fl < 32 -> 0 <= len <= kMaxShortLength -> Z.shiftr (pack fl len) kLengthShift = len.
Proof.
  intros Hf Hl. unfold pack. destruct (Z.leb_spec len kMaxShortLength); [|lia]. unfold kLengthShift. rewrite Z.shiftr_div_pow2 by lia. change (2 ^ 5) with 32. dlia.
Qed.

Lemma pack_short fl len : 0 <= fl < 32 -> 0 <= len <= kMaxShortLength -> int16 (Z.lor fl (Z.shiftl len kLengthShift)) = pack fl len.
Proof.
  intros Hf Hl. unfold pack. destruct (Z.leb_spec len kMaxShortLength); [|lia]. unfold kLengthShift. rewrite Z.shiftl_mul_pow2, Z.lor_comm, lor_disjoint by (change (2 ^ 5) with 32; lia).
  change (2 ^ 5) with 32. unfold int16, kMaxShortLength in *. dlia.
Qed.

Lemma pack_large fl len len' : 0 <= fl < 32 -> 0 <= len -> kMaxShortLength < len' -> int16 (Z.lor (pack fl len) kLengthIsLarge) = pack fl len'.
Proof.
  intros Hf Hl Hl'. assert (E : Z.lor (pack fl len) kLengthIsLarge = fl + (if len <=? kMaxShortLength then 0xffe0 else -32)).
  { apply Z.bits_inj'. intros n Hn. rewrite Z.lor_spec. destruct (Z.lt_ge_cases n 5) as [Hlt|Hge].
    - assert (Hb : forall x, x mod 32 = fl -> Z.testbit x n = Z.testbit fl n).
      { intros x <-. change 32 with (2 ^ 5). by rewrite Z.mod_pow2_bits_low by lia. }
      assert (n = 0 \/ n = 1 \/ n = 2 \/ n = 3 \/ n = 4) as Hn5 by lia.
      assert (Z.testbit kLengthIsLarge n = false) as -> by (destruct Hn5 as [->|[->|[->|[->| ->]]]]; done). rewrite orb_false_r.
      rewrite (Hb (pack fl len)), (Hb (fl + _)); [done|destruct (_ <=? _); dlia|unfold pack; destruct (_ <=? _); dlia].
    - assert (Hb : forall x, Z.testbit x n = Z.testbit (x / 32) (n - 5)).
      { intros x. change 32 with (2 ^ 5). rewrite Z.div_pow2_bits by lia. f_equal. lia. }
      rewrite (Hb (pack fl len)), (Hb (fl + _)), (Hb kLengthIsLarge). unfold pack. destruct (Z.leb_spec len kMaxShortLength).
      + assert ((fl + 32 * len) / 32 = len) as -> by dlia. assert ((fl + 0xffe0) / 32 = 0x7ff) as -> by dlia. change (kLengthIsLarge / 32) with (Z.ones 11).
        change 0x7ff with (Z.ones 11). rewrite <- Z.lor_spec. rewrite Z.lor_ones_low; [done|lia|]. destruct (decide (len = 0)) as [->|]; [done|]. apply Z.log2_lt_pow2; unfold kMaxShortLength in *; lia.
      + assert ((fl - 32) / 32 = -1) as -> by dlia. assert ((fl + -32) / 32 = -1) as -> by dlia. by rewrite Z.bits_m1 by lia. }
  rewrite E. unfold pack. destruct (Z.leb_spec len' kMaxShortLength); [lia|]. unfold int16. destruct (len <=? kMaxShortLength); dlia.
Qed.

(** Evaluates the tests of known flags. *)
Ltac eval_flags :=
  repeat match goal with
  | |- context [negb (Z.land ?a ?b =? 0)] => let v := eval vm_compute in (negb (Z.land a b =? 0)) in match v with true => idtac | false => idtac end; change (negb (Z.land a b =? 0)) with v
  | H : context [negb (Z.land ?a ?b =? 0)] |- _ => let v := eval vm_compute in (negb (Z.land a b =? 0)) in match v with true => idtac | false => idtac end; change (negb (Z.land a b =? 0)) with v in H
  end; cbv iota in *.

Section Objects.
Context `{HP : Heap}.

(** An object with the flags [fl] and the length [len]. *)
Record packed (ob : obj) (fl len : Z) : Prop := {
  pk_storage : storage fl;
  pk_nonneg : 0 <= len;
  pk_flags : fLengthAndFlags ob = pack fl len;
  pk_large : kMaxShortLength < len -> fLength_of ob = len
}.

Lemma packed_mask ob fl len m : packed ob fl len -> 0 <= m < 32 -> has_flag ob m = negb (Z.land fl m =? 0).
Proof. intros [Hs Hn Hf _] Hm. unfold has_flag. rewrite Hf, mask_pack; auto. by apply storage_range. Qed.

Lemma packed_length ob fl len : packed ob fl len -> length ob = len.
Proof.
  intros [Hs Hn Hf Hl]. pose proof (storage_range fl Hs). unfold length, hasShortLength, getShortLength. rewrite Hf, pack_sign by done.
  destruct (Z.leb_spec len kMaxShortLength); [by apply pack_shift|auto].
Qed.

Lemma packed_isEmpty ob fl len : packed ob fl len -> isEmpty ob = (len =? 0).
Proof.
  intros [Hs Hn Hf Hl]. pose proof (storage_range fl Hs). unfold isEmpty. rewrite Hf. destruct (Z.le_gt_cases len kMaxShortLength).
  - by rewrite pack_shift.
  - unfold pack. destruct (Z.leb_spec len kMaxShortLength); [lia|]. unfold kLengthShift, kMaxShortLength in *. rewrite Z.shiftr_div_pow2 by lia. change (2 ^ 5) with 32.
    destruct (Z.eqb_spec ((fl - 32) / 32) 0), (Z.eqb_spec len 0); dlia || done.
Qed.

Lemma pack_0 fl : pack fl 0 = fl.
Proof. unfold pack, kMaxShortLength. cbn. lia. Qed.

Lemma packed_set_flags ob fl : storage fl -> packed (set_flags ob fl) fl 0.
Proof. intros Hs. split; [done|done|by rewrite pack_0|unfold kMaxShortLength; lia]. Qed.

Lemma packed_set_array ob fl len a c : packed ob fl len -> packed (set_array ob a c) fl len.
Proof. intros [Hs Hn Hf Hl]. by split. Qed.

Lemma packed_setZeroLength ob fl len : packed ob fl len -> packed (setZeroLength ob) fl 0.
Proof.
  intros [Hs Hn Hf _]. unfold setZeroLength. rewrite Hf, land_pack by (done || by apply storage_range). by apply packed_set_flags.
Qed.

Lemma packed_setLength ob fl len len' : packed ob fl len -> 0 <= len' -> packed (setLength ob len') fl len'.
Proof.
  intros [Hs Hn Hf _] Hl'. pose proof (storage_range fl Hs). unfold setLength. destruct (Z.leb_spec len' kMaxShortLength).
  - split; [done|done| |lia]. cbn. by rewrite Hf, land_pack, pack_short by done.
  - split; [done|done| |done]. cbn. by rewrite Hf, (pack_large fl len len') by done.
Qed.

Lemma setLength_fArray ob len : fArray_of (setLength ob len) = fArray_of ob.
Proof. unfold setLength. by destruct (len <=? kMaxShortLength). Qed.
Lemma setLength_fCapacity ob len : fCapacity_of (setLength ob len) = fCapacity_of ob.
Proof. unfold setLength. by destruct (len <=? kMaxShortLength). Qed.
Lemma setLength_buffer ob len : len <= kMaxShortLength -> union (setLength ob len) = union ob.
Proof. unfold setLength. destruct (Z.leb_spec len kMaxShortLength); [done|lia]. Qed.

(** *** Blocks *)

(** What an object can tell of a block: whether it is counted, and its units. *)
Definition peek (bs : gmap nat block) (b : nat) : option (bool * list Z) :=
  bl ← bs !! b; Some (match refs bl with Some _ => true | None => false end, cells bl).

Definition the_array_block (p : option ptr) : option nat := match p with Some (InBlock b _) => Some b | _ => None end.
(** The block that an object's text is in; that it has a counted reference to; that it writes to
    without owning it. *)
Definition used (ob : obj) : option nat := if has_flag ob (Z.lor kUsingStackBuffer kIsBogus) then None else the_array_block (fArray_of ob).
Definition owned (ob : obj) : option nat := if has_flag ob kRefCounted then the_array_block (fArray_of ob) else None.
Definition writes (ob : obj) : option nat :=
  if has_flag ob (Z.lor (Z.lor kUsingStackBuffer kIsBogus) (Z.lor kRefCounted kBufferIsReadonly)) then None else the_array_block (fArray_of ob).

Lemma used_packed ob fl len : packed ob fl len -> used ob = if negb (Z.land fl 3 =? 0) then None else the_array_block (fArray_of ob).
Proof. intros Hp. unfold used. by rewrite (packed_mask ob fl len) by (done || cbn; lia). Qed.
Lemma owned_packed ob fl len : packed ob fl len -> owned ob = if negb (Z.land fl 4 =? 0) then the_array_block (fArray_of ob) else None.
Proof. intros Hp. unfold owned. by rewrite (packed_mask ob fl len) by (done || cbn; lia). Qed.
Lemma writes_packed ob fl len : packed ob fl len -> writes ob = if negb (Z.land fl 15 =? 0) then None else the_array_block (fArray_of ob).
Proof. intros Hp. unfold writes. by rewrite (packed_mask ob fl len) by (done || cbn; lia). Qed.

(** A well-formed object, by its kind of storage. *)
Inductive ok (bs : gmap nat block) (ob : obj) : Z -> Z -> Prop :=
  | ok_bogus : packed ob kIsBogus 0 -> zlen (as_buffer (union ob)) = US_STACKBUF_SIZE -> ok bs ob kIsBogus 0
  | ok_short fl len : fl = 2 \/ fl = 18 -> packed ob fl len -> len <= US_STACKBUF_SIZE -> zlen (as_buffer (union ob)) = US_STACKBUF_SIZE -> ok bs ob fl len
  | ok_long fl len b a : fl = 4 \/ fl = 20 -> packed ob fl len -> fArray_of ob = Some (InBlock b 0) -> peek bs b = Some (true, a) ->
      fCapacity_of ob = zlen a -> len <= zlen a -> ok bs ob fl len
  | ok_alias fl len b off a : fl = 8 \/ fl = 0 \/ fl = 16 -> packed ob fl len -> fArray_of ob = Some (InBlock b off) -> peek bs b = Some (false, a) ->
      0 <= off -> off + fCapacity_of ob <= zlen a -> len <= fCapacity_of ob -> ok bs ob fl len.

Lemma ok_packed bs ob fl len : ok bs ob fl len -> packed ob fl len.
Proof. by intros []. Qed.

(** The tests of flags that the code makes, for an object whose flags are known. *)
Lemma used_ok bs ob fl len b : ok bs ob fl len -> used ob = Some b -> is_Some (peek bs b).
Proof.
  intros Hok. pose proof (ok_packed _ _ _ _ Hok) as Hp. unfold used. rewrite (packed_mask ob fl len) by (done || cbn; lia).
  destruct Hok as [|? ? [-> | ->]|? ? ? ? [-> | ->] _ E1 E2|? ? ? ? ? [-> |[-> | ->]] _ E1 E2]; try done; cbn; rewrite E1; intros [= <-]; by rewrite E2.
Qed.

Lemma ok_peek bs bs' ob fl len : (forall b, used ob = Some b -> peek bs' b = peek bs b) -> ok bs ob fl len -> ok bs' ob fl len.
Proof.
  intros Hsame Hok. pose proof (ok_packed _ _ _ _ Hok) as Hp.
  assert (Hu : used ob = if negb (Z.land fl 3 =? 0) then None else the_array_block (fArray_of ob)) by (unfold used; by rewrite (packed_mask ob fl len) by (done || cbn; lia)).
  destruct Hok as [|? ? [-> | ->]|? ? ? ? [-> | ->] _ E1 E2|? ? ? ? ? [-> |[-> | ->]] _ E1 E2]; try (econstructor; by eauto); cbn in Hu; rewrite E1 in Hu; cbn in Hu; apply Hsame in Hu; rewrite E2 in Hu;
    first [eapply ok_long; eauto; done|eapply ok_alias; eauto].
Qed.

(** Every object has room for the buffer. *)
Lemma fields_buffer a c l : zlen (as_buffer (fFields a c l)) = US_STACKBUF_SIZE.
Proof. done. Qed.

Lemma ok_buffer bs ob fl len : ok bs ob fl len -> zlen (as_buffer (union ob)) = US_STACKBUF_SIZE.
Proof. intros []; try done; unfold fArray_of in *; destruct (union ob); try done. Qed.

Lemma writes_used ob fl len b : packed ob fl len -> writes ob = Some b -> used ob = Some b.
Proof.
  intros Hp. pose proof (pk_storage _ _ _ Hp) as Hs. rewrite (writes_packed ob fl len), (used_packed ob fl len) by done. intros Hw. destruct (negb (Z.land fl 15 =? 0)) eqn:E; [done|].
  assert (fl = 0 \/ fl = 16) as [-> | ->] by (destruct Hs as [->|[->|[->|[->|[->|[->|[->| ->]]]]]]]; auto; done). all: done.
Qed.

Lemma owned_used ob fl len b : packed ob fl len -> owned ob = Some b -> used ob = Some b.
Proof.
  intros Hp. pose proof (pk_storage _ _ _ Hp) as Hs. rewrite (owned_packed ob fl len), (used_packed ob fl len) by done. intros Ho.
  destruct Hs as [->|[->|[->|[->|[->|[->|[->| ->]]]]]]]; done.
Qed.

Lemma peek_exists bs b : is_Some (peek bs b) -> is_Some (bs !! b).
Proof. unfold peek. destruct (bs !! b); [done|]. by intros [? ?]. Qed.
End Objects.

(** ** Counting references *)

Section Counting.
Context `{HP : Heap}.

Definition count (os : gmap nat obj) (b : nat) : Z := Z.of_nat (size (filter (fun kv : nat * obj => owned kv.2 = Some b) os)).
Definition occ (b : nat) (hs : list nat) : Z := Z.of_nat (count_occ Nat.eq_dec hs b).
Definition owns (ob : obj) (b : nat) : Z := if bool_decide (owned ob = Some b) then 1 else 0.

Lemma count_insert os o ob b : os !! o = None -> count (<[o := ob]> os) b = count os b + owns ob b.
Proof.
  intros Ho. unfold count, owns. case_bool_decide as Hb.
  - rewrite map_filter_insert_True by done. rewrite map_size_insert_None; [lia|]. apply map_lookup_filter_None. by left.
  - rewrite map_filter_insert_False by done. rewrite map_filter_delete, delete_id; [lia|]. apply map_lookup_filter_None. by left.
Qed.

Lemma count_split os o ob b : os !! o = Some ob -> count os b = count (delete o os) b + owns ob b.
Proof. intros Ho. rewrite <- (insert_delete_id os o ob Ho) at 1. apply count_insert, lookup_delete_eq. Qed.

Lemma count_nonneg os b : 0 <= count os b.
Proof. unfold count. lia. Qed.

Lemma count_0 os b o ob : count os b = 0 -> os !! o = Some ob -> owned ob <> Some b.
Proof.
  intros Hc Ho E. rewrite (count_split os o ob b Ho) in Hc. unfold owns in Hc. rewrite bool_decide_true in Hc by done. pose proof (count_nonneg (delete o os) b). lia.
Qed.

Lemma occ_cons b c hs : occ b (c :: hs) = occ b hs + (if bool_decide (c = b) then 1 else 0).
Proof. unfold occ. cbn. destruct (Nat.eq_dec c b) as [->|Hne]; [rewrite bool_decide_true by done|rewrite bool_decide_false by done]; lia. Qed.

Lemma occ_pos b hs : b ∈ hs -> 0 < occ b hs.
Proof. intros Hb. unfold occ. apply list_elem_of_In, (count_occ_In Nat.eq_dec) in Hb. lia. Qed.

Lemma occ_nonneg b hs : 0 <= occ b hs.
Proof. unfold occ. lia. Qed.

Lemma occ_app b hs hs' : occ b (hs ++ hs') = occ b hs + occ b hs'.
Proof. unfold occ. rewrite count_occ_app. lia. Qed.
End Counting.

(** ** The rest of a store around one object *)

Section Rest.
Context `{HP : Heap}.

(** Of the objects [os] other than the one that an operation works on, with the references [hs]
    that it holds, and the block [z] that it shall still free. *)
Record rest (os : gmap nat obj) (bs : gmap nat block) (next : nat) (hs : list nat) (z : option nat) : Prop := {
  re_ok : forall o ob, os !! o = Some ob -> exists fl len, ok bs ob fl len;
  re_refs : forall b n a, bs !! b = Some (mk_block (Some n) a) -> n = count os b + occ b hs /\ (0 < n \/ z = Some b);
  re_alias : forall o1 o2 ob1 ob2 b, o1 <> o2 -> os !! o1 = Some ob1 -> os !! o2 = Some ob2 -> writes ob1 = Some b -> used ob2 <> Some b;
  re_next : forall b, is_Some (bs !! b) -> (b < next)%nat;
  re_holds : forall b, b ∈ hs -> is_Some (bs !! b)
}.

Definition rest_of (st : store) (o : nat) (hs : list nat) (z : option nat) : Prop := rest (delete o (objs st)) (blocks st) (next_block st) hs z.

(** The references an object holds. *)
Definition holds (ob : obj) : list nat := match owned ob with Some b => [b] | None => [] end.

Lemma occ_holds ob b : occ b (holds ob) = owns ob b.
Proof.
  unfold holds, owns. destruct (owned ob) as [c|]; [|by rewrite bool_decide_false]. rewrite occ_cons. change (occ b []) with 0. rewrite Z.add_0_l.
  by destruct (decide (c = b)) as [->|Hne]; [rewrite !bool_decide_true|rewrite !bool_decide_false; [|congruence|]].
Qed.

(** No other object uses what this one writes to, nor the other way round. *)
Definition apart (os : gmap nat obj) (ob : obj) : Prop :=
  forall o ob' b, os !! o = Some ob' -> (writes ob = Some b -> used ob' <> Some b) /\ (writes ob' = Some b -> used ob <> Some b).

(** The invariant of the store. *)
Definition wf (st : store) : Prop := rest (objs st) (blocks st) (next_block st) [] None.

Lemma rest_focus os bs next hs o ob :
  rest os bs next hs None -> os !! o = Some ob ->
  rest (delete o os) bs next (holds ob ++ hs) None /\ apart (delete o os) ob /\ exists fl len, ok bs ob fl len.
Proof.
  intros [Hok Hrefs Hal Hnext Hholds] Ho. split_and!.
  - split; auto.
    + intros o' ob' [_ Ho']%lookup_delete_Some. by apply (Hok o').
    + intros b n a Hb. destruct (Hrefs b n a Hb) as [-> [Hpos|]]; [|done]. rewrite (count_split _ o ob) in * by done. rewrite occ_app, occ_holds. lia.
    + intros o1 o2 ob1 ob2 b Hne [_ H1]%lookup_delete_Some [_ H2]%lookup_delete_Some. by apply (Hal o1 o2).
    + intros b [Hb|Hb]%elem_of_app; [|auto]. destruct (Hok o ob Ho) as (fl & len & Hob). unfold holds in Hb. destruct (owned ob) as [c|] eqn:Ec; [|by apply elem_of_nil in Hb].
      apply list_elem_of_singleton in Hb as ->. eapply peek_exists, used_ok; [exact Hob|]. by eapply owned_used; [eapply ok_packed|].
  - intros o' ob' b [Hne Ho']%lookup_delete_Some. split; [by apply (Hal o o')|by apply (Hal o' o)].
  - by apply (Hok o).
Qed.

Lemma rest_unfocus os bs next hs o ob fl len :
  rest (delete o os) bs next (holds ob ++ hs) None -> apart (delete o os) ob -> ok bs ob fl len -> rest (<[o := ob]> os) bs next hs None.
Proof.
  intros [Hok Hrefs Hal Hnext Hholds] Hap Ho. split; auto.
  - intros o' ob' [[<- <-]|[Hne Hl]]%lookup_insert_Some; [by exists fl, len|]. apply (Hok o'). by rewrite lookup_delete_ne.
  - intros b n a Hb. destruct (Hrefs b n a Hb) as [-> Hpos]. rewrite <- insert_delete_eq, count_insert by apply lookup_delete_eq. rewrite occ_app, occ_holds in *. split; [lia|]. destruct Hpos; [left; lia|done].
  - intros o1 o2 ob1 ob2 b Hne [[<- <-]|[Hn1 H1]]%lookup_insert_Some [[<- <-]|[Hn2 H2]]%lookup_insert_Some Hw; try done.
    + apply (Hap o2 ob2 b); [by rewrite lookup_delete_ne|done].
    + apply (Hap o1 ob1 b); [by rewrite lookup_delete_ne|done].
    + apply (Hal o1 o2 ob1 ob2 b); auto; by rewrite lookup_delete_ne.
  - intros b Hb. apply Hholds, elem_of_app. by right.
Qed.

Lemma wf_focus st o ob :
  wf st -> objs st !! o = Some ob ->
  rest_of st o (holds ob) None /\ apart (delete o (objs st)) ob /\ exists fl len, ok (blocks st) ob fl len.
Proof. intros Hwf Ho. destruct (rest_focus _ _ _ _ _ _ Hwf Ho) as [Hr H]. by rewrite app_nil_r in Hr. Qed.

Lemma wf_put st o ob fl len :
  rest_of st o (holds ob) None -> apart (delete o (objs st)) ob -> ok (blocks st) ob fl len -> wf (put st o ob).
Proof. intros Hr Hap Hok. eapply rest_unfocus; [|done|done]. by rewrite app_nil_r. Qed.

Lemma rest_put st o ob hs z : rest_of (put st o ob) o hs z <-> rest_of st o hs z.
Proof. unfold rest_of. cbn. by rewrite delete_insert_eq. Qed.
End Rest.

(** ** What an operation on one object leaves alone *)

Section Frame.
Context `{HP : Heap}.

(** Memory that is not the object's own: what other objects use, and memory of the caller, but
    for the block [w] that the object writes to. *)
Definition foreign (os : gmap nat obj) (bs : gmap nat block) (w : option nat) (b : nat) : Prop :=
  (exists o ob, os !! o = Some ob /\ used ob = Some b) \/ (exists a, peek bs b = Some (false, a) /\ w <> Some b).

Record frame (o : nat) (w : option nat) (st st' : store) : Prop := {
  fr_others : delete o (objs st') = delete o (objs st);
  fr_blocks : forall b, foreign (delete o (objs st)) (blocks st) w b -> peek (blocks st') b = peek (blocks st) b
}.

Lemma frame_refl o w st : frame o w st st.
Proof. by split. Qed.

Lemma frame_trans o w st1 st2 st3 : frame o w st1 st2 -> frame o w st2 st3 -> frame o w st1 st3.
Proof.
  intros [O1 B1] [O2 B2]. split; [by rewrite O2|]. intros b Hb. rewrite B2; [by apply B1|]. rewrite O1. destruct Hb as [?|(a & Ha & Hw)]; [by left|].
  right. exists a. split; [|done]. rewrite B1; [done|]. right. by exists a.
Qed.

Lemma frame_put o w st ob : frame o w st (put st o ob).
Proof. split; [|done]. cbn. apply delete_insert_eq. Qed.

(** *** Blocks that the others do not use *)

Lemma used_counted bs ob fl len b a : ok bs ob fl len -> used ob = Some b -> peek bs b = Some (true, a) -> owned ob = Some b.
Proof.
  intros Hok. pose proof (ok_packed _ _ _ _ Hok) as Hp. unfold used, owned. rewrite !(packed_mask ob fl len) by (done || cbn; lia).
  destruct Hok as [|? ? [-> | ->]|? ? ? ? [-> | ->] _ E1 E2|? ? ? ? ? [-> |[-> | ->]] _ E1 E2]; try done; cbn; rewrite E1; intros [= <-]; by rewrite E2.
Qed.

Definition unused (os : gmap nat obj) (b : nat) : Prop := forall o ob, os !! o = Some ob -> used ob <> Some b.

Lemma rest_unused os bs next hs z b n a : rest os bs next hs z -> bs !! b = Some (mk_block (Some n) a) -> n = occ b hs -> unused os b.
Proof.
  intros [Hok Hrefs _ _ _] Hb Hn o ob Ho Hu. destruct (Hrefs b n a Hb) as [E _]. destruct (Hok o ob Ho) as (fl & len & Hob).
  apply (count_0 os b o ob); [lia|done|]. apply (used_counted bs ob fl len b a); auto. unfold peek. by rewrite Hb.
Qed.

Lemma not_foreign os bs w b n a : unused os b -> bs !! b = Some (mk_block (Some n) a) -> ~ foreign os bs w b.
Proof. intros Hu Hb [(o & ob & Ho & E)|(a' & Ha & _)]; [by eapply Hu|]. unfold peek in Ha. by rewrite Hb in Ha. Qed.

(** Blocks may change where the others see no difference. *)
Lemma rest_blocks os bs next hs z bs' next' hs' z' :
  rest os bs next hs z ->
  (forall b o ob, os !! o = Some ob -> used ob = Some b -> peek bs' b = peek bs b) ->
  (forall b n a, bs' !! b = Some (mk_block (Some n) a) -> n = count os b + occ b hs' /\ (0 < n \/ z' = Some b)) ->
  (forall b, is_Some (bs' !! b) -> (b < next')%nat) ->
  (forall b, b ∈ hs' -> is_Some (bs' !! b)) ->
  rest os bs' next' hs' z'.
Proof.
  intros [Hok Hrefs Hal Hnext _] Hsame Hrefs' Hnext'. split; auto. intros o ob Ho. destruct (Hok o ob Ho) as (fl & len & Hob). exists fl, len.
  eapply ok_peek; [|exact Hob]. intros b Hb. by apply (Hsame b o ob).
Qed.

(** *** Steps on blocks *)

Lemma peek_insert_ne bs b c bl : b <> c -> peek (<[c := bl]> bs) b = peek bs b.
Proof. intros Hne. unfold peek. by rewrite lookup_insert_ne. Qed.
Lemma peek_insert_eq bs b r a : peek (<[b := mk_block r a]> bs) b = Some (match r with Some _ => true | None => false end, a).
Proof. unfold peek. by rewrite lookup_insert_eq. Qed.
Lemma peek_delete_ne bs b c : b <> c -> peek (delete c bs) b = peek bs b.
Proof. intros Hne. unfold peek. by rewrite lookup_delete_ne. Qed.

Lemma peek_counted bs b a : peek bs b = Some (true, a) -> exists n, bs !! b = Some (mk_block (Some n) a).
Proof. unfold peek. destruct (bs !! b) as [[[n|] cs]|]; cbn; [|done|done]. intros [= <-]. by exists n. Qed.
Lemma peek_external bs b a : peek bs b = Some (false, a) -> bs !! b = Some (mk_block None a).
Proof. unfold peek. destruct (bs !! b) as [[[n|] cs]|]; cbn; [done| |done]. by intros [= <-]. Qed.

(** A change of the count shows nowhere. *)
Lemma peek_recount bs b n m a c : bs !! b = Some (mk_block (Some n) a) -> peek (<[b := mk_block (Some m) a]> bs) c = peek bs c.
Proof. intros Hb. destruct (decide (c = b)) as [->|Hne]; [|by apply peek_insert_ne]. rewrite peek_insert_eq. unfold peek. by rewrite Hb. Qed.

Lemma is_Some_insert_block (bs : gmap nat block) b bl c : is_Some (bs !! b) -> is_Some (<[b := bl]> bs !! c) -> is_Some (bs !! c).
Proof. intros Hb Hc. destruct (decide (c = b)) as [->|Hne]; [done|]. by rewrite lookup_insert_ne in Hc. Qed.

Lemma insert_block_is_Some (bs : gmap nat block) b bl c : is_Some (bs !! c) -> is_Some (<[b := bl]> bs !! c).
Proof. intros Hc. rewrite lookup_insert_is_Some. destruct (decide (b = c)); [by left|by right]. Qed.

Lemma decrement st o b hs a :
  rest_of st o (b :: hs) None -> peek (blocks st) b = Some (true, a) ->
  exists st' n, change_refs st b (-1) = Some (st', n) /\ objs st' = objs st /\ rest_of st' o hs (if n =? 0 then Some b else None) /\
    (forall c, peek (blocks st') c = peek (blocks st) c) /\ (n = 0 -> blocks st' !! b = Some (mk_block (Some 0) a) /\ occ b hs = 0) /\
    (forall c, c <> b -> blocks st' !! c = blocks st !! c).
Proof.
  intros Hr Hp. destruct (peek_counted _ _ _ Hp) as (n & Hb). unfold change_refs. rewrite Hb. cbn [mbind option_bind refs cells].
  pose proof (re_refs _ _ _ _ _ Hr b n a Hb) as [En Hpos]. rewrite occ_cons, bool_decide_true in En by done. pose proof (count_nonneg (delete o (objs st)) b). pose proof (occ_nonneg b hs).
  eexists _, _. split; [done|]. split; [done|]. split_and!.
  - unfold rest_of. cbn [objs blocks next_block put_block]. eapply rest_blocks; [exact Hr|..].
    + intros c o' ob' _ _. by apply (peek_recount (blocks st) b n _ a).
    + intros c m a' [[<- [= <- <-]]|[Hne Hc]]%lookup_insert_Some.
      * split; [lia|]. destruct (Z.eqb_spec (n + -1) 0); [by right|left; lia].
      * destruct (re_refs _ _ _ _ _ Hr c m a' Hc) as [E Hc']. rewrite occ_cons, bool_decide_false in E by done. split; [lia|]. left. destruct Hc' as [?|?]; [done|done].
    + intros c Hc. apply (re_next _ _ _ _ _ Hr). eapply is_Some_insert_block; [by eexists|exact Hc].
    + intros c Hc. apply insert_block_is_Some, (re_holds _ _ _ _ _ Hr). by right.
  - intros c. by apply (peek_recount (blocks st) b n _ a).
  - intros E0. cbn [blocks put_block]. rewrite lookup_insert_eq, E0. split; [done|lia].
  - intros c Hne. cbn. by rewrite lookup_insert_ne.
Qed.

Lemma free_zero st o b hs a w :
  rest_of st o hs (Some b) -> blocks st !! b = Some (mk_block (Some 0) a) ->
  exists st', free_block st b = Some st' /\ objs st' = objs st /\ rest_of st' o hs None /\ frame o w st st' /\ (forall c, c <> b -> blocks st' !! c = blocks st !! c).
Proof.
  intros Hr Hb. unfold free_block. rewrite Hb. cbn [mbind option_bind refs]. eexists. split; [done|]. split; [done|].
  pose proof (re_refs _ _ _ _ _ Hr b 0 a Hb) as [En _]. pose proof (count_nonneg (delete o (objs st)) b). pose proof (occ_nonneg b hs).
  assert (Hu : unused (delete o (objs st)) b) by (eapply rest_unused; [exact Hr|exact Hb|lia]). split_and!.
  - unfold rest_of. cbn [objs blocks next_block]. eapply rest_blocks; [exact Hr|..].
    + intros c o' ob' Ho Huse. apply peek_delete_ne. intros ->. by eapply Hu.
    + intros c m a' [Hne Hc]%lookup_delete_Some. destruct (re_refs _ _ _ _ _ Hr c m a' Hc) as [E Hc']. split; [done|]. left. destruct Hc' as [?|[= ->]]; done.
    + intros c [bl [_ Hc]%lookup_delete_Some]. apply (re_next _ _ _ _ _ Hr). by eexists.
    + intros c Hc. destruct (decide (b = c)) as [->|Hne]; [|rewrite lookup_delete_ne by done; by apply (re_holds _ _ _ _ _ Hr)].
      exfalso. assert (0 < occ c hs) by (by apply occ_pos). lia.
  - split; [done|]. cbn [blocks]. intros c Hc. apply peek_delete_ne. intros ->. by eapply not_foreign.
  - intros c Hne. by apply lookup_delete_ne.
Qed.
End Frame.

(** ** The value of an object *)

Section Value.
Context `{HP : Heap}.

(** A string whose buffer the caller has, or one with the value of UString.v. *)
Inductive value := Open | Closed (s : UnicodeString.t).

Definition value_of (st : store) (o : nat) (ob : obj) : option value :=
  if isBogus ob then Some (Closed UnicodeString.Bogus)
  else if has_flag ob kOpenGetBuffer then Some Open
  else p ← getArrayStart o ob; a ← memory st p; Some (Closed (UnicodeString.Str (ztake (length ob) a))).
Definition value_at (st : store) (o : nat) : option value := ob ← objs st !! o; value_of st o ob.

(** The array of an object that may be written: in the object, counted once, or the caller's. *)
Inductive exclusive (bs : gmap nat block) (ob : obj) (fl : Z) : list Z -> Prop :=
  | ex_short : fl = 2 \/ fl = 18 -> zlen (as_buffer (union ob)) = US_STACKBUF_SIZE -> exclusive bs ob fl (as_buffer (union ob))
  | ex_long b a : fl = 4 \/ fl = 20 -> fArray_of ob = Some (InBlock b 0) -> bs !! b = Some (mk_block (Some 1) a) -> fCapacity_of ob = zlen a -> exclusive bs ob fl a
  | ex_alias b off p a q : fl = 0 \/ fl = 16 -> fArray_of ob = Some (InBlock b off) -> bs !! b = Some (mk_block None (p ++ a ++ q)) -> off = zlen p ->
      fCapacity_of ob = zlen a -> exclusive bs ob fl a.

(** Object [o], with the members [ob], may write its array, which holds [a]; its length is [len].
    Besides the references of the object, [hs] are held and [z] is to be freed. *)
Record view (w : option nat) (hs : list nat) (z : option nat) (st : store) (o : nat) (ob : obj) (fl : Z) (a : list Z) (len : Z) : Prop := {
  v_obj : objs st !! o = Some ob;
  v_packed : packed ob fl len;
  v_len : len <= zlen a;
  v_exclusive : exclusive (blocks st) ob fl a;
  v_rest : rest_of st o (holds ob ++ hs) z;
  v_apart : apart (delete o (objs st)) ob;
  v_writes : forall b, writes ob = Some b -> w = Some b
}.

Lemma exclusive_ok bs ob fl a len : packed ob fl len -> exclusive bs ob fl a -> len <= zlen a -> ok bs ob fl len.
Proof.
  intros Hp Hex Hl. destruct Hex as [Hf Hz|b a Hf Ea Eb Ec|b off p a q Hf Ea Eb Eo Ec].
  - apply ok_short; [done|done|lia|done].
  - eapply ok_long; eauto. unfold peek. by rewrite Eb.
  - pose proof (zlen_nonneg p). pose proof (zlen_nonneg q). eapply (ok_alias _ _ _ _ b off (p ++ a ++ q)); [lia|done|done|unfold peek; by rewrite Eb|lia|rewrite !zlen_app; lia|lia].
Qed.

Lemma exclusive_capacity bs ob fl a len : packed ob fl len -> exclusive bs ob fl a -> getCapacity ob = zlen a.
Proof.
  intros Hp Hex. unfold getCapacity. rewrite (packed_mask ob fl len) by (done || cbn; lia).
  destruct Hex as [[-> | ->] Hz|? ? [-> | ->] _ _ Ec|? ? ? ? ? [-> | ->] _ _ _ Ec]; cbn; auto.
Qed.

Lemma view_wf w st o ob fl a len : view w [] None st o ob fl a len -> wf st.
Proof.
  intros [Ho Hp Hl Hex Hr Hap _]. rewrite app_nil_r in Hr. pose proof (exclusive_ok _ _ _ _ _ Hp Hex Hl) as Hok.
  assert (st = put st o ob) as -> by (unfold put; rewrite insert_id by done; by destruct st). apply (wf_put st o ob fl len); [exact Hr|exact Hap|exact Hok].
Qed.

(** Reading and writing through the array pointer. *)
Definition slice (l : list Z) (i n : Z) : list Z := ztake n (drop (Z.to_nat i) l).

Lemma slice_app_l (p a q : list Z) i n : 0 <= i -> 0 <= n -> i + n <= zlen a -> slice (p ++ a ++ q) (zlen p + i) n = slice a i n.
Proof.
  intros Hi Hn Hl. unfold slice, ztake, zlen in *. replace (Z.to_nat (Z.of_nat (List.length p) + i)) with (List.length p + Z.to_nat i)%nat by lia.
  rewrite drop_app_add. rewrite drop_app_le by lia. rewrite take_app_le; [done|]. rewrite length_drop. lia.
Qed.

Lemma splice_app_l (p a q x : list Z) i : 0 <= i -> i + zlen x <= zlen a -> splice (p ++ a ++ q) (zlen p + i) x = p ++ splice a i x ++ q.
Proof.
  intros Hi Hl. pose proof (zlen_nonneg x). unfold splice, ztake, zlen in *. replace (Z.to_nat (Z.of_nat (List.length p) + i)) with (List.length p + Z.to_nat i)%nat by lia.
  rewrite take_app_add. rewrite take_app_le by lia. replace (Z.to_nat (Z.of_nat (List.length p) + i + Z.of_nat (List.length x))) with (List.length p + Z.to_nat (i + Z.of_nat (List.length x)))%nat by lia.
  rewrite drop_app_add. rewrite drop_app_le by lia. by rewrite <- !app_assoc.
Qed.

Lemma splice_zlen l i x : 0 <= i -> i + zlen x <= zlen l -> zlen (splice l i x) = zlen l.
Proof. intros Hi Hl. pose proof (zlen_nonneg x). unfold splice, ztake, zlen in *. rewrite !length_app, length_take, length_drop. lia. Qed.

Lemma getArrayStart_packed o ob fl len : packed ob fl len -> getArrayStart o ob = if negb (Z.land fl 2 =? 0) then Some (InObject o) else fArray_of ob.
Proof. intros Hp. unfold getArrayStart. by rewrite (packed_mask ob fl len) by (done || cbn; lia). Qed.

Lemma view_load w hs z st o ob fl a len i n :
  view w hs z st o ob fl a len -> 0 <= i -> 0 <= n -> i + n <= zlen a ->
  exists p, getArrayStart o ob = Some p /\ load st p i n = Some (slice a i n).
Proof.
  intros [Ho Hp Hl Hex Hr Hap _] Hi Hn Hin. rewrite (getArrayStart_packed o ob fl len Hp).
  destruct Hex as [[-> | ->] Hz|b a [-> | ->] Ea Eb Ec|b off p a q [-> | ->] Ea Eb Eo Ec]; cbn; rewrite ?Ea; eexists; (split; [done|]); unfold load, memory; rewrite ?Ho, ?Eb; cbn [mbind option_bind cells].
  1,2: destruct (Z.leb_spec 0 i), (Z.leb_spec (i + n) (zlen (as_buffer (union ob)))); lia || done.
  1,2: destruct (Z.leb_spec 0 0), (Z.leb_spec 0 (zlen a)); [|lia..]; cbn [andb mbind option_bind]; rewrite drop_0; destruct (Z.leb_spec 0 i), (Z.leb_spec (i + n) (zlen a)); lia || done.
  all: pose proof (zlen_nonneg p); pose proof (zlen_nonneg q); rewrite !zlen_app; destruct (Z.leb_spec 0 off), (Z.leb_spec off (zlen p + (zlen a + zlen q))); [|lia..]; cbn [andb mbind option_bind];
    rewrite Eo; replace (Z.to_nat (zlen p)) with (List.length p) by (unfold zlen; lia); rewrite drop_app_length, zlen_app; destruct (Z.leb_spec 0 i), (Z.leb_spec (i + n) (zlen a + zlen q)); [|lia..]; cbn [andb]; f_equal;
    rewrite <- (slice_app_l [] a q i n) by done; done.
Qed.

Lemma packed_short_buffer ob fl len buffer : packed ob fl len -> len <= US_STACKBUF_SIZE -> packed (mk_obj (fLengthAndFlags ob) (fStackFields buffer)) fl len.
Proof. intros [Hs Hn Hf _] Hl. split; [done|done|done|]. unfold kMaxShortLength, US_STACKBUF_SIZE in *. lia. Qed.

Lemma view_store w hs z st o ob fl a len i x p :
  view w hs z st o ob fl a len -> getArrayStart o ob = Some p -> 0 <= i -> i + zlen x <= zlen a ->
  exists st' ob', store_units st p i x = Some st' /\ view w hs z st' o ob' fl (splice a i x) len /\ getArrayStart o ob' = Some p /\
    frame o w st st' /\ forall c, used ob <> Some c -> blocks st' !! c = blocks st !! c.
Proof.
  intros [Ho Hp Hl Hex Hr Hap Hw] Hptr Hi Hin. pose proof (zlen_nonneg x). pose proof (splice_zlen a i x Hi Hin) as Hz. rewrite (getArrayStart_packed o ob fl len Hp) in Hptr.
  pose proof (used_packed ob fl len Hp) as Hu. pose proof (owned_packed ob fl len Hp) as Ho'. pose proof (writes_packed ob fl len Hp) as Hw'.
  destruct Hex as [Hf Hzb|b a Hf Ea Eb Ec|b off pre a q Hf Ea Eb Eo Ec].
  - assert (p = InObject o) as -> by (destruct Hf as [-> | ->]; eval_flags; congruence). unfold store_units, memory. rewrite Ho. cbn [mbind option_bind].
    destruct (Z.leb_spec 0 i), (Z.leb_spec (i + zlen x) (zlen (as_buffer (union ob)))); [|lia..]. cbn [andb].
    set (ob' := mk_obj _ _). pose proof (packed_short_buffer ob fl len (splice (as_buffer (union ob)) i x) Hp ltac:(lia)) as Hp'. change (mk_obj _ _) with ob' in Hp'.
    pose proof (owned_packed ob' fl len Hp') as Hoo. pose proof (used_packed ob' fl len Hp') as Huu. pose proof (writes_packed ob' fl len Hp') as Hww.
    assert (owned ob' = owned ob) as Eoo by (rewrite Hoo, Ho'; by destruct Hf as [-> | ->]). assert (used ob' = used ob) as Euu by (rewrite Huu, Hu; by destruct Hf as [-> | ->]).
    assert (writes ob' = writes ob) as Eww by (rewrite Hww, Hw'; by destruct Hf as [-> | ->]).
    eexists _, ob'. split; [done|]. split; [|split; [|split; [apply frame_put|done]]].
    + split; auto; [cbn; by rewrite lookup_insert_eq|lia|apply (ex_short _ ob' fl); [done|cbn; lia]| | |].
      * unfold holds. rewrite Eoo. by apply rest_put.
      * cbn. rewrite delete_insert_eq. intros o2 ob2 b2 H2. rewrite Euu, Eww. by apply (Hap o2).
      * by rewrite Eww.
    + rewrite (getArrayStart_packed o ob' fl len Hp'). by destruct Hf as [-> | ->].
  - assert (fl_cases : getArrayStart o ob = Some (InBlock b 0) /\ used ob = Some b /\ owned ob = Some b /\ writes ob = None).
    { rewrite (getArrayStart_packed o ob fl len Hp), Hu, Ho', Hw', Ea. by destruct Hf as [-> | ->]. }
    destruct fl_cases as (Eptr & Eu & Eo & Ew). assert (p = InBlock b 0) as -> by (rewrite (getArrayStart_packed o ob fl len Hp) in Eptr; congruence).
    assert (Hcount : 1 = occ b (holds ob ++ hs)).
    { destruct (re_refs _ _ _ _ _ Hr b 1 a Eb) as [E1 _]. pose proof (count_nonneg (delete o (objs st)) b). unfold holds in *. rewrite Eo in *. cbn [app] in *.
      rewrite occ_cons, bool_decide_true in * by done. pose proof (occ_nonneg b hs). lia. }
    assert (Hun : unused (delete o (objs st)) b) by (eapply rest_unused; eauto).
    unfold store_units, memory. rewrite Eb. cbn [mbind option_bind cells refs]. destruct (Z.leb_spec 0 0), (Z.leb_spec 0 (zlen a)); [|lia..]. cbn [andb mbind option_bind]. rewrite drop_0, Z.add_0_l.
    destruct (Z.leb_spec 0 i), (Z.leb_spec (i + zlen x) (zlen a)); [|lia..]. cbn [andb]. eexists _, ob. split; [done|]. split_and!; auto.
    + split; auto; [lia|eapply (ex_long _ _ _ b); [done|done|cbn; by rewrite lookup_insert_eq|lia]|].
      unfold rest_of. cbn [objs blocks next_block put_block]. eapply rest_blocks; [exact Hr|..].
      * intros c o2 ob2 Ho2 Huse. apply peek_insert_ne. intros ->. by eapply Hun.
      * intros c m a' [[<- [= <- <-]]|[Hne Hc]]%lookup_insert_Some; [by apply (re_refs _ _ _ _ _ Hr b 1 a)|by apply (re_refs _ _ _ _ _ Hr c m a')].
      * intros c Hc. apply (re_next _ _ _ _ _ Hr). eapply is_Some_insert_block; [by eexists|exact Hc].
      * intros c Hc. by apply insert_block_is_Some, (re_holds _ _ _ _ _ Hr).
    + split; [done|]. cbn. intros c Hc. apply peek_insert_ne. intros ->. by eapply not_foreign.
    + intros c Hc. cbn. apply lookup_insert_ne. congruence.
  - assert (fl_cases : getArrayStart o ob = Some (InBlock b off) /\ used ob = Some b /\ owned ob = None /\ writes ob = Some b).
    { rewrite (getArrayStart_packed o ob fl len Hp), Hu, Ho', Hw', Ea. by destruct Hf as [-> | ->]. }
    destruct fl_cases as (Eptr & Eu & Eow & Ew). assert (p = InBlock b off) as -> by (rewrite (getArrayStart_packed o ob fl len Hp) in Eptr; congruence).
    assert (Hun : unused (delete o (objs st)) b) by (intros o2 ob2 H2; by apply (Hap o2 ob2 b H2)). pose proof (zlen_nonneg pre). pose proof (zlen_nonneg q).
    unfold store_units, memory. rewrite Eb. cbn [mbind option_bind cells refs]. rewrite !zlen_app. destruct (Z.leb_spec 0 off), (Z.leb_spec off (zlen pre + (zlen a + zlen q))); [|lia..]. cbn [andb mbind option_bind].
    rewrite Eo. replace (Z.to_nat (zlen pre)) with (List.length pre) by (unfold zlen; lia). rewrite drop_app_length, zlen_app.
    destruct (Z.leb_spec 0 i), (Z.leb_spec (i + zlen x) (zlen a + zlen q)); [|lia..]. cbn [andb]. rewrite splice_app_l by lia. eexists _, ob. split; [done|]. split_and!; auto; [|congruence|..].
    + split; auto; [lia|eapply (ex_alias _ _ _ b off pre _ q); [done|done|cbn; by rewrite lookup_insert_eq|done|lia]|].
      unfold rest_of. cbn [objs blocks next_block put_block]. eapply rest_blocks; [exact Hr|..].
      * intros c o2 ob2 Ho2 Huse. apply peek_insert_ne. intros ->. by eapply Hun.
      * intros c m a' [[<- [= <- <-]]|[Hne Hc]]%lookup_insert_Some. by apply (re_refs _ _ _ _ _ Hr c m a').
      * intros c Hc. apply (re_next _ _ _ _ _ Hr). eapply is_Some_insert_block; [by eexists|exact Hc].
      * intros c Hc. by apply insert_block_is_Some, (re_holds _ _ _ _ _ Hr).
    + split; [done|]. cbn. intros c Hc. apply peek_insert_ne. intros ->. destruct Hc as [(o2 & ob2 & Hob2 & E2)|(a2 & _ & Hne)]; [by eapply Hun|]. apply Hne. by apply Hw.
    + intros c Hc. cbn. apply lookup_insert_ne. congruence.
Qed.

Lemma view_setLength w hs z st o ob fl a len len' :
  view w hs z st o ob fl a len -> 0 <= len' <= zlen a ->
  view w hs z (put st o (setLength ob len')) o (setLength ob len') fl a len' /\ getArrayStart o (setLength ob len') = getArrayStart o ob.
Proof.
  intros [Ho Hp Hl Hex Hr Hap Hw] Hlen. pose proof (packed_setLength ob fl len len' Hp ltac:(lia)) as Hp'. set (ob' := setLength ob len') in *.
  pose proof (setLength_fArray ob len') as Hfa. fold ob' in Hfa. assert (Eu : used ob' = used ob) by (by rewrite (used_packed ob' fl len'), (used_packed ob fl len), Hfa).
  assert (Eo : owned ob' = owned ob) by (by rewrite (owned_packed ob' fl len'), (owned_packed ob fl len), Hfa).
  assert (Ew : writes ob' = writes ob) by (by rewrite (writes_packed ob' fl len'), (writes_packed ob fl len), Hfa).
  split; [|by rewrite (getArrayStart_packed o ob' fl len'), (getArrayStart_packed o ob fl len), Hfa].
  split; auto.
  - cbn. by rewrite lookup_insert_eq.
  - lia.
  - cbn [put blocks]. pose proof (setLength_fCapacity ob len') as Hfc. fold ob' in Hfc. destruct Hex as [Hf Hz|b a Hf Ea Eb Ec|b off p a q Hf Ea Eb Eof Ec].
    + rewrite <- (setLength_buffer ob len') by (unfold kMaxShortLength, US_STACKBUF_SIZE in *; lia). fold ob'. apply ex_short; [done|].
      unfold ob'. rewrite setLength_buffer by (unfold kMaxShortLength, US_STACKBUF_SIZE in *; lia). done.
    + eapply ex_long; [done|rewrite Hfa; exact Ea|exact Eb|congruence].
    + eapply ex_alias; [done|rewrite Hfa; exact Ea|exact Eb|done|congruence].
  - unfold holds. rewrite Eo. apply rest_put. exact Hr.
  - cbn. rewrite delete_insert_eq. intros o2 ob2 b2 H2. rewrite Eu, Ew. by apply (Hap o2).
  - by rewrite Ew.
Qed.

Lemma view_value w hs z st o ob fl a len :
  view w hs z st o ob fl a len -> Z.land fl kOpenGetBuffer = 0 -> value_at st o = Some (Closed (UnicodeString.Str (ztake len a))).
Proof.
  intros Hv Hopen. pose proof (zlen_nonneg a). pose proof Hv as [Ho Hp Hl Hex Hr Hap Hw]. pose proof (pk_nonneg _ _ _ Hp).
  unfold value_at, value_of. rewrite Ho. cbn [mbind option_bind]. unfold isBogus. rewrite !(packed_mask ob fl len) by (done || cbn; lia). rewrite Hopen, (packed_length ob fl len) by done.
  destruct (view_load w hs z st o ob fl a len 0 len Hv) as (p & Eptr & Hload); [lia..|].
  assert (negb (Z.land fl kIsBogus =? 0) = false) as -> by (destruct Hex as [[-> | ->]|? ? [-> | ->]|? ? ? ? ? [-> | ->]]; done). change (negb (0 =? 0)) with false. cbv iota.
  rewrite Eptr. cbn [mbind option_bind]. unfold load in Hload. destruct (memory st p) as [mem|]; [|done]. cbn [mbind option_bind] in *. destruct (_ && _); [|done].
  rewrite drop_0 in Hload. injection Hload as ->. done.
Qed.
End Value.
End StringStoreFacts.
