(* ===== verification/StringCloneFacts.v ===== *)
(** * Allocating, releasing and cloning the array of a string

    [cloneArrayIfNeeded] makes the array of a string writable and large enough: afterwards nobody
    else sees what is written to it.  The other objects keep their values, whether the array was
    shared, read-only or too small, and no reference is lost. *)

From S2P Require Import Prelude Utf16 UString StringStore StringStoreFacts.

Module StringCloneFacts.
Import StringStore StringStoreFacts.

Definition max_capacity : Z := 2 ^ 30 - 16.

Section Allocation.
Context `{HP : Heap}.

(** A bogus object, with what is left of its members. *)
Definition bogus_of (ob : obj) : obj := set_flags (set_array ob None 0) kIsBogus.

(** The size of the array for a capacity: a multiple of 16 bytes with the count in front. *)
Definition words_for (capacity : Z) : Z := int32 (Z.shiftr (Z.land (4 + (capacity + 1) * 2 + 15) (Z.lnot 15)) 2).

Lemma words_spec capacity :
  US_STACKBUF_SIZE < capacity <= max_capacity ->
  let cap := (words_for capacity - 1) * 2 in capacity < cap <= capacity + 8 /\ 0 <= 4 * words_for capacity <= INT32_MAX.
Proof.
  unfold US_STACKBUF_SIZE, max_capacity. intros Hc. unfold words_for. set (x := 4 + (capacity + 1) * 2 + 15).
  assert (Z.land x (Z.lnot 15) = x / 16 * 16) as ->.
  { change 15 with (Z.ones 4). rewrite <- Z.ldiff_land, Z.ldiff_ones_r, Z.shiftl_mul_pow2, Z.shiftr_div_pow2 by lia. done. }
  rewrite Z.shiftr_div_pow2 by lia. change (2 ^ 2) with 4. rewrite int32_small by (unfold is_int32, INT32_MIN, INT32_MAX, x; dlia). unfold INT32_MAX, x. cbn zeta. dlia.
Qed.

Lemma unused_fresh st o hs z ob b : rest_of st o hs z -> delete o (objs st) !! b = Some ob -> used ob <> Some (next_block st).
Proof.
  intros Hr Ho Hu. destruct (re_ok _ _ _ _ _ Hr b ob Ho) as (fl & len & Hok). pose proof (used_ok _ _ _ _ _ Hok Hu) as Hp.
  assert (Hb : is_Some (blocks st !! next_block st)) by (unfold peek in Hp; destruct (blocks st !! next_block st); [done|by destruct Hp]).
  apply (re_next _ _ _ _ _ Hr) in Hb. lia.
Qed.

Lemma foreign_exists st o hs z w b : rest_of st o hs z -> foreign (delete o (objs st)) (blocks st) w b -> is_Some (peek (blocks st) b).
Proof.
  intros Hr [(o' & ob & Ho & Hu)|(a & Ha & _)]; [|by eexists]. destruct (re_ok _ _ _ _ _ Hr o' ob Ho) as (fl & len & Hok). by eapply used_ok.
Qed.

Lemma peek_fresh st o hs z : rest_of st o hs z -> blocks st !! next_block st = None.
Proof. intros Hr. destruct (blocks st !! next_block st) eqn:E; [|done]. assert (Hb : is_Some (blocks st !! next_block st)) by (by eexists). apply (re_next _ _ _ _ _ Hr) in Hb. lia. Qed.

Lemma occ_none b hs : b ∉ hs -> occ b hs = 0.
Proof. intros Hb. unfold occ. rewrite (proj1 (count_occ_not_In Nat.eq_dec hs b)); [done|]. by intros ?%list_elem_of_In. Qed.

Lemma count_fresh st o hs z : rest_of st o hs z -> count (delete o (objs st)) (next_block st) = 0.
Proof.
  intros Hr. unfold count. apply (f_equal Z.of_nat (y := 0%nat)), map_size_empty_iff, map_empty. intros o2. apply map_lookup_filter_None. right. intros ob2 H2 Hown. cbn in Hown.
  destruct (re_ok _ _ _ _ _ Hr o2 ob2 H2) as (fl & len & Hok). eapply unused_fresh; [exact Hr|exact H2|]. by eapply owned_used; [eapply ok_packed|].
Qed.

Lemma allocate_spec w st o ob hs cap :
  objs st !! o = Some ob -> zlen (as_buffer (union ob)) = US_STACKBUF_SIZE -> rest_of st o hs None -> cap <= max_capacity ->
  (exists st' ob' fl a, allocate st o cap = Some (st', true) /\ view w hs None st' o ob' fl a 0 /\ (fl = 2 \/ fl = 4) /\
     cap <= zlen a <= Z.max US_STACKBUF_SIZE (cap + 8) /\ frame o w st st' /\ (forall c, is_Some (peek (blocks st) c) -> peek (blocks st') c = peek (blocks st) c) /\
     forall b off, getArrayStart o ob' = Some (InBlock b off) -> blocks st !! b = None) \/
  (allocate st o cap = Some (put st o (bogus_of ob), false) /\ refused).
Proof.
  intros Ho Hbuf Hr Hcap. unfold allocate. rewrite Ho. cbn [mbind option_bind]. destruct (Z.leb_spec cap US_STACKBUF_SIZE) as [Hs|Hs].
  - left. pose proof (packed_set_flags ob 2 ltac:(unfold storage; lia)) as Hp. eexists _, (set_flags ob kShortString), 2, (as_buffer (union ob)).
    split; [done|]. split_and!; auto; [|lia|lia|apply frame_put|change kShortString with 2; by rewrite (getArrayStart_packed o _ 2 0 Hp)].
    assert (Eo : holds (set_flags ob 2) = []) by (unfold holds; by rewrite (owned_packed _ 2 0 Hp)).
    split; [cbn; by rewrite lookup_insert_eq|done|unfold US_STACKBUF_SIZE in *; lia|by apply (ex_short _ (set_flags ob 2)); [left|]|..].
    + change kShortString with 2. rewrite Eo. by apply rest_put.
    + intros o2 ob2 b _. change kShortString with 2. rewrite (used_packed _ 2 0 Hp), (writes_packed _ 2 0 Hp). done.
    + intros b. change kShortString with 2. by rewrite (writes_packed _ 2 0 Hp).
  - destruct (words_spec cap) as [Hw Hbytes]; [lia|]. rewrite !checked_in by (unfold INT32_MIN, INT32_MAX, max_capacity, US_STACKBUF_SIZE in *; lia). cbn [mbind option_bind]. fold (words_for cap).
    destruct (alloc_ok (4 * words_for cap)) eqn:Ea; [left|right; split; [done|]; by exists (4 * words_for cap)].
    set (n := (words_for cap - 1) * 2) in *. set (b := next_block st). set (cs := replicate (Z.to_nat n) junk).
    assert (Hcs : zlen cs = n) by (unfold cs, zlen; rewrite length_replicate; unfold US_STACKBUF_SIZE in *; lia).
    assert (Hfree : blocks st !! b = None) by (by eapply peek_fresh).
    set (ob' := set_flags (set_array ob (Some (InBlock b 0)) n) kLongString). pose proof (packed_set_flags (set_array ob (Some (InBlock b 0)) n) 4 ltac:(unfold storage; lia)) as Hp. change (packed ob' 4 0) in Hp.
    eexists _, ob', 4, cs. split; [done|].
    assert (Hfresh : forall c, is_Some (peek (blocks st) c) -> peek (<[b := mk_block (Some 1) cs]> (blocks st)) c = peek (blocks st) c).
    { intros c Hc. apply peek_insert_ne. intros ->. unfold peek in Hc. rewrite Hfree in Hc. by destruct Hc. }
    split_and!; auto; [|lia|lia| |rewrite (getArrayStart_packed o _ 4 0 Hp); intros b2 off2 [= <- <-]; exact Hfree].
    + split; [cbn; by rewrite lookup_insert_eq|done|rewrite Hcs; unfold US_STACKBUF_SIZE in *; lia|by apply (ex_long _ _ _ b); [left|done|cbn; by rewrite lookup_insert_eq|]|..].
      * assert (holds ob' = [b]) as -> by (unfold holds; by rewrite (owned_packed _ 4 0 Hp)). apply rest_put. unfold rest_of. cbn [objs blocks next_block]. eapply rest_blocks; [exact Hr|..].
        -- intros c o2 ob2 H2 Hu. apply Hfresh. destruct (re_ok _ _ _ _ _ Hr o2 ob2 H2) as (fl & len & Hok). by eapply used_ok.
        -- intros c m a [[<- [= <- <-]]|[Hne Hc]]%lookup_insert_Some.
           ++ cbn [app]. rewrite occ_cons, bool_decide_true by done.
              assert (count (delete o (objs st)) b = 0) as -> by (apply (count_fresh st o hs None Hr)). assert (occ b hs = 0) as ->; [|lia]. pose proof (occ_nonneg b hs).
              destruct (decide (b ∈ hs)) as [Hin|Hni]; [apply (re_holds _ _ _ _ _ Hr) in Hin; rewrite Hfree in Hin; by destruct Hin|by apply occ_none].
           ++ cbn [app]. rewrite occ_cons, bool_decide_false, Z.add_0_r by done. by apply (re_refs _ _ _ _ _ Hr c m a).
        -- intros c Hc. destruct (decide (c = b)) as [->|Hne]; [fold b; lia|]. rewrite lookup_insert_ne in Hc by done. apply (re_next _ _ _ _ _ Hr) in Hc. lia.
        -- intros c [->|Hc]%elem_of_cons; [by rewrite lookup_insert_eq|]. by apply insert_block_is_Some, (re_holds _ _ _ _ _ Hr).
      * cbn [objs put]. rewrite delete_insert_eq. intros o2 ob2 c H2. rewrite (writes_packed _ 4 0 Hp), (used_packed _ 4 0 Hp). split; [done|]. cbn. intros Hw2 E. injection E as E. rewrite <- E in Hw2.
        destruct (re_ok _ _ _ _ _ Hr o2 ob2 H2) as (fl & len & Hok). eapply unused_fresh; [exact Hr|exact H2|]. eapply writes_used; [eapply ok_packed; exact Hok|exact Hw2].
      * intros c. by rewrite (writes_packed _ 4 0 Hp).
    + split; [cbn; apply delete_insert_eq|]. cbn. intros c Hc. apply Hfresh. by eapply foreign_exists.
Qed.

(** ** Releasing *)

Lemma holds_packed ob fl len : packed ob fl len -> holds ob = if negb (Z.land fl 4 =? 0) then match the_array_block (fArray_of ob) with Some b => [b] | None => [] end else [].
Proof. intros Hp. unfold holds. rewrite (owned_packed ob fl len Hp). by destruct (negb _). Qed.

Lemma the_block_0 b : the_block (Some (InBlock b 0)) = Some b.
Proof. done. Qed.

(** Giving up the reference that the object holds. *)
Lemma release_spec w st o ob fl len :
  rest_of st o (holds ob) None -> ok (blocks st) ob fl len ->
  exists st', releaseArray st ob = Some st' /\ objs st' = objs st /\ rest_of st' o [] None /\ frame o w st st'.
Proof.
  intros Hr Hok. pose proof (ok_packed _ _ _ _ Hok) as Hp. unfold releaseArray, removeRef. rewrite (packed_mask ob fl len) by (done || cbn; lia). rewrite (holds_packed ob fl len Hp) in Hr.
  destruct Hok as [|fl len [-> | ->]|fl len b a Hf _ Ea Epk|fl len b off a [->|[-> | ->]]]; eval_flags; try (exists st; split; [done|]; split; [done|]; split; [exact Hr|apply frame_refl]).
  assert (negb (Z.land fl kRefCounted =? 0) = true) as -> by (by destruct Hf as [-> | ->]). assert (Hr' : rest_of st o [b] None) by (destruct Hf as [-> | ->]; by rewrite Ea in Hr).
  rewrite Ea, the_block_0. cbn [mbind option_bind]. destruct (decrement st o b [] a Hr' Epk) as (st1 & n & -> & Eo & Hr1 & Hpk & Hz & _). cbn [mbind option_bind].
  assert (Hfr : frame o w st st1) by (split; [by rewrite Eo|auto]).
  destruct (Z.eqb_spec n 0) as [->|Hn].
  - destruct (Hz eq_refl) as [Hb _]. destruct (free_zero st1 o b [] a w Hr1 Hb) as (st2 & -> & Eo2 & Hr2 & Hfr2 & _). exists st2. split; [done|]. split; [congruence|]. split; [done|]. by eapply frame_trans.
  - exists st1. auto.
Qed.

Lemma bogus_packed ob : packed (bogus_of ob) kIsBogus 0.
Proof. apply packed_set_flags. unfold storage, kIsBogus. lia. Qed.

(** An object without an array, put into the rest of the store. *)
Lemma wf_plain st o ob fl len :
  rest_of st o [] None -> packed ob fl len -> Z.land fl 3 <> 0 -> ok (blocks st) ob fl len -> wf (put st o ob).
Proof.
  intros Hr Hp Hf Hok. assert (Hu : used ob = None) by (rewrite (used_packed ob fl len Hp); by destruct (Z.eqb_spec (Z.land fl 3) 0)).
  apply (wf_put st o ob fl len); [|intros o2 ob2 b _; split|done].
  - unfold holds. destruct (owned ob) as [b|] eqn:E; [|done]. apply (owned_used ob fl len b Hp) in E. congruence.
  - intros E. apply (writes_used ob fl len b Hp) in E. congruence.
  - intros _. by rewrite Hu.
Qed.

Lemma put_bogus st o ob : rest_of st o [] None -> wf (put st o (bogus_of ob)) /\ value_at (put st o (bogus_of ob)) o = Some (Closed UnicodeString.Bogus).
Proof.
  intros Hr. split.
  - apply (wf_plain st o _ kIsBogus 0); [done|apply bogus_packed|done|]. apply ok_bogus; [apply bogus_packed|done].
  - unfold value_at. cbn. by rewrite lookup_insert_eq.
Qed.

Lemma put_empty st o ob : rest_of st o [] None -> zlen (as_buffer (union ob)) = US_STACKBUF_SIZE ->
  wf (put st o (setToEmpty ob)) /\ value_at (put st o (setToEmpty ob)) o = Some (Closed (UnicodeString.Str [])).
Proof.
  intros Hr Hb. assert (Hp : packed (setToEmpty ob) 2 0) by (apply packed_set_flags; unfold storage; lia). split.
  - apply (wf_plain st o _ 2 0); [done|done|done|]. apply ok_short; [by left|done|unfold US_STACKBUF_SIZE; lia|done].
  - unfold value_at. cbn [put objs]. rewrite lookup_insert_eq. cbn [mbind option_bind]. unfold value_of. change (isBogus (setToEmpty ob)) with false.
    change (has_flag (setToEmpty ob) kOpenGetBuffer) with false. cbv iota.
    unfold getArrayStart. change (has_flag (setToEmpty ob) kUsingStackBuffer) with true. cbv iota. cbn [mbind option_bind]. unfold memory. cbn [objs put]. rewrite lookup_insert_eq. done.
Qed.

Lemma setToBogus_store w st o ob fl len :
  objs st !! o = Some ob -> rest_of st o (holds ob) None -> ok (blocks st) ob fl len ->
  exists st', setToBogus st o = Some st' /\ wf st' /\ frame o w st st' /\ value_at st' o = Some (Closed UnicodeString.Bogus).
Proof.
  intros Ho Hr Hok. unfold setToBogus. rewrite Ho. cbn [mbind option_bind]. destruct (release_spec w st o ob fl len Hr Hok) as (st1 & -> & Eo & Hr1 & Hfr). cbn [mbind option_bind].
  destruct (put_bogus st1 o ob Hr1) as [Hwf Hv]. eexists. split; [done|]. split; [done|]. split; [|done]. eapply frame_trans; [exact Hfr|apply frame_put].
Qed.

(** ** Making the array writable *)

(** Where the text of an object is. *)
Lemma ok_text st o ob fl len u :
  objs st !! o = Some ob -> ok (blocks st) ob fl len -> value_of st o ob = Some (Closed (UnicodeString.Str u)) ->
  zlen u = len /\ (fl = 0 \/ fl = 2 \/ fl = 4 \/ fl = 8) /\
  if fl =? 2 then u = ztake len (as_buffer (union ob))
  else exists b off m, fArray_of ob = Some (InBlock b off) /\ used ob = Some b /\ memory st (InBlock b off) = Some m /\ len <= zlen m /\ u = ztake len m.
Proof.
  intros Ho Hok Hv. pose proof (ok_packed _ _ _ _ Hok) as Hp. pose proof (pk_nonneg _ _ _ Hp). pose proof (used_packed ob fl len Hp) as Hu.
  unfold value_of, isBogus in Hv. rewrite !(packed_mask ob fl len) in Hv by (done || cbn; lia). rewrite (getArrayStart_packed o ob fl len Hp), (packed_length ob fl len Hp) in Hv.
  destruct Hok as [|fl len [-> | ->]|fl len b a Hf _ Ea Epk Ec Hl|fl len b off a Hf _ Ea Epk Ho0 Hoc Hl]; eval_flags; try done.
  - cbn [mbind option_bind] in Hv. unfold memory in Hv. rewrite Ho in Hv. cbn [mbind option_bind] in Hv. injection Hv as <-. split; [apply zlen_ztake; lia|]. split; [lia|done].
  - destruct Hf as [-> | ->]; eval_flags; [|done]. rewrite Ea in Hv, Hu. cbn [mbind option_bind] in Hv. destruct (peek_counted _ _ _ Epk) as (n & Hb). unfold memory in Hv. rewrite Hb in Hv.
    cbn [mbind option_bind cells] in Hv. pose proof (zlen_nonneg a). destruct (Z.leb_spec 0 0), (Z.leb_spec 0 (zlen a)); [|lia..]. cbn [andb mbind option_bind] in Hv. rewrite drop_0 in Hv. injection Hv as <-.
    split; [apply zlen_ztake; lia|]. split; [lia|]. change (4 =? 2) with false. cbv iota. exists b, 0, a. split_and!; auto. unfold memory. rewrite Hb. cbn [mbind option_bind cells]. destruct (Z.leb_spec 0 0), (Z.leb_spec 0 (zlen a)); [|lia..]. done.
  - assert (Hfl : fl = 8 \/ fl = 0) by (destruct Hf as [-> |[-> | ->]]; eval_flags; [by left|by right|done]).
    assert (E2 : (fl =? 2) = false) by (destruct Hfl as [-> | ->]; done). rewrite E2. pose proof (peek_external _ _ _ Epk) as Hb.
    assert (Hm : memory st (InBlock b off) = Some (drop (Z.to_nat off) a)).
    { unfold memory. rewrite Hb. cbn [mbind option_bind cells]. destruct (Z.leb_spec 0 off), (Z.leb_spec off (zlen a)); lia || done. }
    assert (Hd : zlen (drop (Z.to_nat off) a) = zlen a - off) by (unfold zlen in *; rewrite length_drop; lia).
    rewrite Ea in Hu. assert (Hv' : u = ztake len (drop (Z.to_nat off) a)) by (destruct Hfl as [-> | ->]; eval_flags; rewrite Ea in Hv; cbn [mbind option_bind] in Hv; rewrite Hm in Hv; cbn [mbind option_bind] in Hv; by injection Hv as <-).
    split; [rewrite Hv'; apply zlen_ztake; lia|]. split; [lia|]. exists b, off, (drop (Z.to_nat off) a). split_and!; auto; [|lia]. destruct Hfl as [-> | ->]; eval_flags; done.
Qed.

Lemma memory_peek st st' b off : peek (blocks st') b = peek (blocks st) b -> memory st' (InBlock b off) = memory st (InBlock b off).
Proof. unfold peek, memory. destruct (blocks st' !! b), (blocks st !! b); cbn; intros E; [|done..]. injection E as _ ->. done. Qed.

Lemma release_ext st ob ob' : fLengthAndFlags ob' = fLengthAndFlags ob -> (has_flag ob kRefCounted = true -> fArray_of ob' = fArray_of ob) -> releaseArray st ob' = releaseArray st ob.
Proof. unfold releaseArray, removeRef, has_flag. intros -> E. destruct (negb _); [|done]. by rewrite E. Qed.

Lemma put_put st o ob ob' : put (put st o ob) o ob' = put st o ob'.
Proof. unfold put. cbn. by rewrite insert_insert_eq. Qed.

(** One or two attempts. *)
Lemma allocate_twice w st o ob hs cap small :
  objs st !! o = Some ob -> zlen (as_buffer (union ob)) = US_STACKBUF_SIZE -> rest_of st o hs None -> cap <= max_capacity -> small <= cap ->
  (exists st' ob' fl a,
     ('(st, ok) ← allocate st o cap; if (ok : bool) then Some (st, true) else if small <? cap then allocate st o small else Some (st, false)) = Some (st', true) /\
     view w hs None st' o ob' fl a 0 /\ (fl = 2 \/ fl = 4) /\ small <= zlen a <= Z.max US_STACKBUF_SIZE (cap + 8) /\ frame o w st st' /\
     (forall c, is_Some (peek (blocks st) c) -> peek (blocks st') c = peek (blocks st) c) /\
     forall b off, getArrayStart o ob' = Some (InBlock b off) -> blocks st !! b = None) \/
  (exists ob', ('(st, ok) ← allocate st o cap; if (ok : bool) then Some (st, true) else if small <? cap then allocate st o small else Some (st, false)) = Some (put st o ob', false) /\ refused).
Proof.
  intros Ho Hbuf Hr Hcap Hsmall. destruct (allocate_spec w st o ob hs cap Ho Hbuf Hr Hcap) as [(st' & ob' & fl & a & E & Hv & Hf & Ha & Hfr & Hpk & Hnew)|[E Href]]; rewrite E; cbn [mbind option_bind].
  - left. exists st', ob', fl, a. split_and!; auto; lia.
  - destruct (Z.ltb_spec small cap); [|right; by exists (bogus_of ob)].
    destruct (allocate_spec w (put st o (bogus_of ob)) o (bogus_of ob) hs small) as [(st' & ob' & fl & a & E2 & Hv & Hf & Ha & Hfr & Hpk & Hnew)|[E2 _]]; [cbn; by rewrite lookup_insert_eq|done|by apply rest_put|lia|..]; rewrite E2.
    + left. exists st', ob', fl, a. split_and!; auto; [lia|lia|]. eapply frame_trans; [apply frame_put|exact Hfr].
    + right. exists (bogus_of (bogus_of ob)). split; [|done]. by rewrite put_put.
Qed.

Lemma rest_perm os bs next hs hs' z : hs ≡ₚ hs' -> rest os bs next hs z -> rest os bs next hs' z.
Proof.
  intros Hp [Hok Hrefs Hal Hnext Hh]. split; auto.
  - intros b n a Hb. destruct (Hrefs b n a Hb) as [-> Hpos]. split; [|done]. unfold occ. do 2 f_equal. by apply (Permutation_count_occ Nat.eq_dec).
  - intros b Hb. apply Hh. by rewrite Hp.
Qed.

Lemma setZeroLength_eq ob : setZeroLength ob = setLength ob 0.
Proof.
  unfold setZeroLength, setLength, setShortLength. cbn [Z.leb]. change (0 <=? kMaxShortLength) with true. cbv iota. f_equal. rewrite Z.shiftl_0_l, Z.lor_0_r.
  unfold kAllStorageFlags. change 0x1f with (Z.ones 5). rewrite Z.land_ones by lia. change (2 ^ 5) with 32. unfold int16. dlia.
Qed.

(** Blocks that the object does not use may change under a view. *)
Lemma view_blocks w hs z st o ob fl a len st' hs' z' :
  view w hs z st o ob fl a len -> objs st' = objs st -> rest_of st' o (holds ob ++ hs') z' -> (forall b, used ob = Some b -> blocks st' !! b = blocks st !! b) ->
  view w hs' z' st' o ob fl a len.
Proof.
  intros [Ho Hp Hl Hex Hr Hap Hw] Eo Hr' Hb. split; auto; [congruence| |by rewrite Eo].
  pose proof (used_packed ob fl len Hp) as Hu. destruct Hex as [Hf Hz|b a Hf Ea Eb Ec|b off p a q Hf Ea Eb Eof Ec].
  - by apply ex_short.
  - eapply ex_long; [done|exact Ea| |done]. rewrite Hb; [exact Eb|]. rewrite Hu, Ea. by destruct Hf as [-> | ->].
  - eapply ex_alias; [done|exact Ea| |done|done]. rewrite Hb; [exact Eb|]. rewrite Hu, Ea. by destruct Hf as [-> | ->].
Qed.

(** Copying units into an array that may be written, from where they can be read. *)
Lemma view_copy w hs z st o ob fl a len src i j n x :
  view w hs z st o ob fl a len -> 0 <= j -> zlen x = n -> j + n <= zlen a -> (0 < n -> exists p, src = Some p /\ load st p i n = Some x) ->
  exists st' ob', us_arrayCopy st src i (getArrayStart o ob) j n = Some st' /\ view w hs z st' o ob' fl (splice a j x) len /\ getArrayStart o ob' = getArrayStart o ob /\
    frame o w st st' /\ (forall c, used ob <> Some c -> blocks st' !! c = blocks st !! c).
Proof.
  intros Hv Hj Hn Hl Hsrc. pose proof (zlen_nonneg x). unfold us_arrayCopy. destruct (Z.ltb_spec 0 n) as [Hpos|Hz].
  - destruct (Hsrc Hpos) as (p & -> & Hload). destruct (view_load w hs z st o ob fl a len j 0 Hv) as (q & Eq & _); [lia..|]. rewrite Eq. cbn [mbind option_bind]. rewrite Hload. cbn [mbind option_bind].
    destruct (view_store w hs z st o ob fl a len j x q Hv Eq) as (st' & ob' & -> & Hv' & Eq' & Hfr & Hpk); [lia..|]. exists st', ob'. split_and!; auto.
  - assert (x = []) as -> by (apply zlen_0_inv; lia). assert (splice a j [] = a) as Es.
    { unfold splice, ztake. change (zlen (@nil Z)) with 0. rewrite Z.add_0_r. apply take_drop. }
    exists st, ob. rewrite Es. split_and!; auto. apply frame_refl.
Qed.

Lemma ztake_splice_0 (a x : list Z) n : n = zlen x -> ztake n (splice a 0 x) = x.
Proof. intros ->. unfold splice, ztake. change (take (Z.to_nat 0) a) with (@nil Z). cbn [app]. unfold zlen. rewrite Nat2Z.id. apply take_app_length. Qed.

(** The array is in the object or in a block that was not there before. *)
Definition fresh_array (st : store) (o : nat) (ob : obj) : Prop :=
  getArrayStart o ob = Some (InObject o) /\ used ob = None \/ exists b, getArrayStart o ob = Some (InBlock b 0) /\ used ob = Some b /\ blocks st !! b = None.

(** What [cloneArrayIfNeeded] does with the string [u] of object [o] for the capacity [nc]: it
    keeps the array, or replaces it, or fails for lack of memory. *)
Definition clone_result (w : option nat) (st : store) (o : nat) (ob : obj) (fl : Z) (u : list Z) (nc : Z) (doCopy later : bool)
    (r : option (store * bool * option nat)) : Prop :=
  (r = Some (st, true, None) /\ exists a, view w [] None st o ob fl a (zlen u) /\ (fl = 0 \/ fl = 2 \/ fl = 4) /\ nc <= zlen a /\ ztake (zlen u) a = u) \/
  (exists st' del ob' fl' a len', r = Some (st', true, del) /\ view w [] del st' o ob' fl' a len' /\ (fl' = 2 \/ fl' = 4) /\ nc <= zlen a /\ frame o w st st' /\
     (if doCopy then len' = Z.min (zlen u) (zlen a) /\ ztake len' a = ztake len' u else len' = 0) /\
     (later = false -> del = None) /\ (forall b, del = Some b -> exists a0, blocks st' !! b = Some (mk_block (Some 0) a0)) /\
     (later = true -> doCopy = false -> forall c, is_Some (peek (blocks st) c) -> peek (blocks st') c = peek (blocks st) c) /\
     fresh_array st o ob' /\ (fl = 2 -> US_STACKBUF_SIZE < nc) /\
     (later = false -> fl = 4 -> refCount st ob = Some 1 -> forall b, owned ob = Some b -> blocks st' !! b = None)) \/
  (exists st', r = Some (st', false, None) /\ refused /\ wf st' /\ frame o w st st' /\ value_at st' o = Some (Closed UnicodeString.Bogus)).

Lemma free_gone st b st' : free_block st b = Some st' -> blocks st' !! b = None.
Proof. unfold free_block. destruct (blocks st !! b) as [[[r|] cs]|]; [|done|done]. cbn. intros [= <-]. apply lookup_delete_eq. Qed.

(** Dropping the reference to the old array, after the new one is in place. *)
Lemma drop_old w st o ob fl a len b c (later : bool) :
  view w [b] None st o ob fl a len -> (fl = 2 \/ fl = 4) -> peek (blocks st) b = Some (true, c) ->
  exists st' del,
    ('(st, n) ← change_refs st b (-1); if n =? 0 then if later then Some (st, true, Some b) else st ← free_block st b; Some (st, true, None) else Some (st, true, None)) = Some (st', true, del) /\
    view w [] del st' o ob fl a len /\ frame o w st st' /\ (later = false -> del = None) /\ (forall b, del = Some b -> exists a0, blocks st' !! b = Some (mk_block (Some 0) a0)) /\
    (later = true -> forall c, peek (blocks st') c = peek (blocks st) c) /\ (later = false -> count (delete o (objs st)) b = 0 -> blocks st' !! b = None).
Proof.
  intros Hv Hf Hpk. pose proof Hv as [Ho Hp Hl Hex Hr Hap Hw]. assert (Hr' : rest_of st o (b :: holds ob) None) by (eapply rest_perm; [|exact Hr]; apply Permutation_app_comm).
  assert (Hne : forall d, used ob = Some d -> d <> b).
  { intros d Hd ->. pose proof (holds_packed ob fl len Hp) as Hh. rewrite (used_packed ob fl len Hp) in Hd. destruct Hf as [-> | ->]; eval_flags; [done|].
    destruct Hex as [[|]|b' a [|] Ea Eb Ec|? ? ? ? ? [|]]; try done. rewrite Ea in Hd. injection Hd as ->. rewrite Ea in Hh. cbn in Hh.
    destruct (re_refs _ _ _ _ _ Hr' b 1 a Eb) as [E _]. rewrite Hh in E. rewrite !occ_cons, bool_decide_true in E by done. pose proof (count_nonneg (delete o (objs st)) b). change (occ b []) with 0 in E. lia. }
  destruct (decrement st o b (holds ob) c Hr' Hpk) as (st1 & n & Edec & Eo & Hr1 & Hpk1 & Hz & Hbl).
  assert (Hlast : count (delete o (objs st)) b = 0 -> n = 0).
  { intros Hc0. destruct (peek_counted _ _ _ Hpk) as (n0 & Hb0). unfold change_refs in Edec. rewrite Hb0 in Edec. cbn [mbind option_bind refs] in Edec. injection Edec as _ <-.
    destruct (re_refs _ _ _ _ _ Hr' b n0 c Hb0) as [-> _]. rewrite occ_cons, bool_decide_true by done. rewrite occ_holds. unfold owns. rewrite bool_decide_false; [lia|]. intros Hown. by apply (Hne b); [eapply owned_used|]. }
  rewrite Edec. clear Edec. cbn [mbind option_bind].
  assert (Hfr : frame o w st st1) by (split; [by rewrite Eo|auto]). destruct (Z.eqb_spec n 0) as [->|Hn].
  - destruct (Hz eq_refl) as [Hb0 _]. destruct later.
    + exists st1, (Some b). split; [done|]. split; [|split; [exact Hfr|split; [done|split; [by intros ? [= <-]; eexists|split; [auto|done]]]]].
      eapply view_blocks; [exact Hv|done|by rewrite app_nil_r|]. intros d Hd. apply Hbl, Hne, Hd.
    + destruct (free_zero st1 o b (holds ob) c w Hr1 Hb0) as (st2 & Efree & Eo2 & Hr2 & Hfr2 & Hbl2). pose proof (free_gone st1 b st2 Efree) as Hgone. rewrite Efree. cbn [mbind option_bind]. exists st2, None. split; [done|].
      split; [|split; [by eapply frame_trans|split; [done|split; [done|split; [done|]]]]]. 2: { by intros _ _. } eapply view_blocks; [exact Hv|congruence|by rewrite app_nil_r|]. intros d Hd. rewrite Hbl2, Hbl by (by apply Hne). done.
  - exists st1, None. split; [done|]. split; [|split; [exact Hfr|split; [done|split; [done|split; [auto|intros _ Hc0; by apply Hlast in Hc0]]]]]. eapply view_blocks; [exact Hv|done|by rewrite app_nil_r|]. intros d Hd. apply Hbl, Hne, Hd.
Qed.

Lemma ok_4 bs ob len : ok bs ob 4 len -> exists b a, fArray_of ob = Some (InBlock b 0) /\ peek bs b = Some (true, a) /\ fCapacity_of ob = zlen a /\ len <= zlen a.
Proof. intros Hok. inversion Hok as [|? ? Hf|? ? b a|? ? ? ? ? Hf]; try done; [lia|by exists b, a|lia]. Qed.

Lemma ok_2 bs ob len : ok bs ob 2 len -> len <= US_STACKBUF_SIZE.
Proof. intros Hok. inversion Hok as [|? ? Hf|? ? ? ? Hf|? ? ? ? ? Hf]; try done; lia. Qed.

Lemma ok_0 bs ob len : ok bs ob 0 len -> exists b off a, fArray_of ob = Some (InBlock b off) /\ peek bs b = Some (false, a) /\ 0 <= off /\ off + fCapacity_of ob <= zlen a /\ len <= fCapacity_of ob.
Proof. intros Hok. inversion Hok as [|? ? Hf|? ? ? ? Hf|? ? b off a]; try done; [lia|lia|by exists b, off, a]. Qed.

(** An object whose array may be written as it is. *)
Lemma view_of_ok w st o ob fl len u :
  wf st -> objs st !! o = Some ob -> ok (blocks st) ob fl len -> value_of st o ob = Some (Closed (UnicodeString.Str u)) -> (forall b, writes ob = Some b -> w = Some b) ->
  fl <> 8 -> (fl = 4 -> refCount st ob = Some 1) -> exists a, view w [] None st o ob fl a len /\ zlen a = getCapacity ob /\ ztake len a = u /\ (fl = 0 \/ fl = 2 \/ fl = 4).
Proof.
  intros Hwf Ho Hok Hv Hw H8 Hc. destruct (wf_focus st o ob Hwf Ho) as (Hr & Hap & _). pose proof (ok_packed _ _ _ _ Hok) as Hp. pose proof (pk_nonneg _ _ _ Hp).
  destruct (ok_text st o ob fl len u Ho Hok Hv) as (Hlen & Hfl & Htext). pose proof (ok_buffer _ _ _ _ Hok) as Hbuf.
  assert (Hex : exists a, exclusive (blocks st) ob fl a /\ len <= zlen a).
  { destruct Hfl as [->|[->|[->| ->]]]; [| | |done].
    - destruct (ok_0 _ _ _ Hok) as (b & off & a & Ea & Epk & H0 & Hoc & Hl). pose proof (peek_external _ _ _ Epk) as Hb.
      exists (ztake (fCapacity_of ob) (drop (Z.to_nat off) a)). assert (Hz : zlen (ztake (fCapacity_of ob) (drop (Z.to_nat off) a)) = fCapacity_of ob) by (apply zlen_ztake; unfold zlen in *; rewrite length_drop; lia).
      split; [|lia]. eapply (ex_alias _ _ _ b off (ztake off a) _ (drop (Z.to_nat (fCapacity_of ob)) (drop (Z.to_nat off) a))); [by left|done| |by rewrite zlen_ztake by lia|done].
      rewrite Hb. do 2 f_equal. unfold ztake. by rewrite !take_drop.
    - exists (as_buffer (union ob)). split; [by apply ex_short; [left|]|]. pose proof (ok_2 _ _ _ Hok). lia.
    - destruct (ok_4 _ _ _ Hok) as (b & a & Ea & Epk & Ec & Hl). destruct (peek_counted _ _ _ Epk) as (n & Hb). exists a. split; [|done]. eapply ex_long; [by left|exact Ea| |done].
      specialize (Hc eq_refl). unfold refCount in Hc. rewrite Ea, the_block_0 in Hc. cbn [mbind option_bind] in Hc. rewrite Hb in Hc. cbn in Hc. by injection Hc as ->. }
  destruct Hex as (a & Hex & Hl). exists a. assert (Hview : view w [] None st o ob fl a len) by (split; auto; by rewrite app_nil_r).
  split; [done|]. split; [by rewrite (exclusive_capacity _ _ _ _ _ Hp Hex)|]. split; [|lia].
  assert (Z.land fl kOpenGetBuffer = 0) as Hno by (destruct Hfl as [->|[->|[->| ->]]]; done). pose proof (view_value w [] None st o ob fl a len Hview Hno) as E. unfold value_at in E. rewrite Ho in E. cbn [mbind option_bind] in E. congruence.
Qed.

Lemma load_prefix st p m len u n : memory st p = Some m -> len <= zlen m -> u = ztake len m -> zlen u = len -> 0 <= n <= len -> load st p 0 n = Some (ztake n u).
Proof.
  intros Hm Hl -> _ Hn. unfold load. rewrite Hm. cbn [mbind option_bind]. destruct (Z.leb_spec 0 0), (Z.leb_spec (0 + n) (zlen m)); [|lia..]. cbn [andb]. rewrite drop_0. f_equal.
  unfold ztake. rewrite take_take. f_equal. lia.
Qed.

(** Filling the new array from the old one. *)
Lemma clone_fill w hs st o ob fl a u oldArray (doCopy : bool) :
  view w hs None st o ob fl a 0 -> (doCopy = true -> exists p, oldArray = Some p /\ forall n, 0 <= n <= zlen u -> load st p 0 n = Some (ztake n u)) ->
  exists st' ob' a' len',
    (if doCopy then
       ob' ← objs st !! o;
       let minLength := Z.min (zlen u) (getCapacity ob') in
       st ← (match oldArray with Some _ => us_arrayCopy st oldArray 0 (getArrayStart o ob') 0 minLength | None => Some st end);
       ob' ← objs st !! o; Some (put st o (setLength ob' minLength))
     else ob' ← objs st !! o; Some (put st o (setZeroLength ob'))) = Some st' /\
    view w hs None st' o ob' fl a' len' /\ zlen a' = zlen a /\ getArrayStart o ob' = getArrayStart o ob /\ frame o w st st' /\
    (if doCopy then len' = Z.min (zlen u) (zlen a') /\ ztake len' a' = ztake len' u else len' = 0) /\
    (forall c, used ob <> Some c -> blocks st' !! c = blocks st !! c).
Proof.
  intros Hv Hsrc. pose proof (zlen_nonneg a). pose proof (zlen_nonneg u). rewrite (v_obj _ _ _ _ _ _ _ _ _ Hv). cbn [mbind option_bind]. destruct doCopy.
  - rewrite (exclusive_capacity _ _ _ _ _ (v_packed _ _ _ _ _ _ _ _ _ Hv) (v_exclusive _ _ _ _ _ _ _ _ _ Hv)). set (n := Z.min (zlen u) (zlen a)).
    destruct (Hsrc eq_refl) as (p & -> & Hload). assert (Hz : zlen (ztake n u) = n) by (apply zlen_ztake; lia).
    destruct (view_copy w hs None st o ob fl a 0 (Some p) 0 0 n (ztake n u) Hv) as (st1 & ob1 & -> & Hv1 & Eg1 & Hfr1 & Hpk1); [lia|done|lia|intros _; exists p; split; [done|apply Hload; lia]|].
    cbn [mbind option_bind]. rewrite (v_obj _ _ _ _ _ _ _ _ _ Hv1). cbn [mbind option_bind]. assert (Hz1 : zlen (splice a 0 (ztake n u)) = zlen a) by (apply splice_zlen; lia).
    destruct (view_setLength w hs None st1 o ob1 fl _ 0 n Hv1) as [Hv2 Eg2]; [lia|]. eexists _, _, _, n. split; [done|]. split; [exact Hv2|]. split; [done|]. split; [by rewrite Eg2|].
    split; [eapply frame_trans; [exact Hfr1|apply frame_put]|]. split; [|exact Hpk1]. rewrite Hz1. split; [done|]. by apply ztake_splice_0.
  - rewrite setZeroLength_eq. destruct (view_setLength w hs None st o ob fl a 0 0 Hv) as [Hv2 Eg2]; [lia|]. eexists _, _, _, 0. split; [done|]. split; [exact Hv2|]. split_and!; auto. apply frame_put.
Qed.

(** When there is no memory, the reference is given up all the same. *)
Lemma clone_fail w st o ob ob' fl len :
  objs st !! o = Some ob -> rest_of st o (holds ob) None -> ok (blocks st) ob fl len ->
  let ob2 := if has_flag ob kUsingStackBuffer then ob' else set_array ob' (fArray_of ob) (fCapacity_of ob') in
  exists st', setToBogus (put (put st o ob') o (set_flags ob2 (fLengthAndFlags ob))) o = Some st' /\ wf st' /\ frame o w st st' /\ value_at st' o = Some (Closed UnicodeString.Bogus).
Proof.
  intros Ho Hr Hok ob2. rewrite put_put. set (ob3 := set_flags ob2 (fLengthAndFlags ob)). unfold setToBogus. cbn [put objs]. rewrite lookup_insert_eq. cbn [mbind option_bind].
  assert (Er : releaseArray (put st o ob3) ob3 = releaseArray (put st o ob3) ob).
  { apply release_ext; [done|]. intros Hrc. unfold ob3, ob2. pose proof (ok_packed _ _ _ _ Hok) as Hp. unfold has_flag in *. destruct (negb (Z.land (fLengthAndFlags ob) kUsingStackBuffer =? 0)) eqn:Es; [|done]. exfalso.
    revert Hrc Es. rewrite (pk_flags _ _ _ Hp), !mask_pack by (done || apply storage_range, Hp || apply Hp). pose proof (pk_storage _ _ _ Hp) as Hs. destruct Hs as [->|[->|[->|[->|[->|[->|[->| ->]]]]]]]; done. }
  change (mk_store _ _ _) with (put st o ob3). rewrite Er. destruct (release_spec w (put st o ob3) o ob fl len) as (st1 & -> & Eo & Hr1 & Hfr); [by apply rest_put|done|]. cbn [mbind option_bind].
  destruct (put_bogus st1 o ob3 Hr1) as [Hwf Hv]. eexists. split; [done|]. split; [done|]. split; [|done].
  eapply frame_trans; [apply frame_put|]. eapply frame_trans; [exact Hfr|apply frame_put].
Qed.

Lemma clone_spec w st o ob fl len u newCapacity growCapacity doCopy later :
  wf st -> objs st !! o = Some ob -> ok (blocks st) ob fl len -> value_of st o ob = Some (Closed (UnicodeString.Str u)) ->
  (forall b, writes ob = Some b -> w = Some b) ->
  let nc := if newCapacity =? -1 then getCapacity ob else newCapacity in
  nc <= max_capacity -> growCapacity <= max_capacity -> growCapacity < 0 \/ nc <= growCapacity ->
  clone_result w st o ob fl u nc doCopy later (cloneArrayIfNeeded st o newCapacity growCapacity doCopy later false).
Proof.
  intros Hwf Ho Hok Hv Hw nc Hnc Hgc Hgrow. destruct (wf_focus st o ob Hwf Ho) as (Hr & Hap & _). pose proof (ok_packed _ _ _ _ Hok) as Hp.
  destruct (ok_text st o ob fl len u Ho Hok Hv) as (Hlen & Hfl & Htext). pose proof (ok_buffer _ _ _ _ Hok) as Hbuf.
  unfold cloneArrayIfNeeded. rewrite Ho. cbn [mbind option_bind]. fold nc.
  assert (isWritable ob = true) as -> by (unfold isWritable; rewrite (packed_mask ob fl len) by (done || cbn; lia); destruct Hfl as [->|[->|[->| ->]]]; done).
  cbn [negb]. rewrite (packed_length ob fl len Hp), <- Hlen.
  assert (Hrefs : exists sh, (if has_flag ob kRefCounted then n ← refCount st ob; Some (1 <? n) else Some false) = Some sh /\ (sh = false -> fl = 4 -> refCount st ob = Some 1) /\ (sh = true -> fl = 4)).
  { rewrite (packed_mask ob fl len) by done. destruct (decide (fl = 4)) as [->|Hne].
    - destruct (ok_4 _ _ _ Hok) as (b & a & Ea & Epk & _ & _). destruct (peek_counted _ _ _ Epk) as (n & Hb). change (negb (Z.land 4 kRefCounted =? 0)) with true. cbv iota.
      assert (Hrc : refCount st ob = Some n) by (unfold refCount; rewrite Ea, the_block_0; cbn [mbind option_bind]; by rewrite Hb). rewrite Hrc. cbn [mbind option_bind]. eexists. split; [done|]. split; [|done]. intros Hn _. f_equal.
      destruct (re_refs _ _ _ _ _ Hr b n a Hb) as [_ [Hpos|?]]; [|done]. destruct (Z.ltb_spec 1 n); [done|lia].
    - exists false. destruct Hfl as [->|[->|[->| ->]]]; done. }
  destruct Hrefs as (sh & -> & Hsh & Hsh4). cbn [mbind option_bind]. destruct (false || has_flag ob kBufferIsReadonly || sh || (getCapacity ob <? nc)) eqn:Ecase; cbn [orb] in Ecase.
  2: { left. split; [done|]. apply orb_false_iff in Ecase as [Ecase Hcap]. apply orb_false_iff in Ecase as [Hro ->]. rewrite (packed_mask ob fl len) in Hro by done.
    destruct (view_of_ok w st o ob fl len u Hwf Ho Hok Hv Hw) as (a & Hview & Ea & Eu & Hf); [intros ->; done|auto|]. exists a. rewrite Hlen. split_and!; auto. destruct (Z.ltb_spec (getCapacity ob) nc); [done|lia]. }
  set (g := if growCapacity <? 0 then nc else if (nc <=? US_STACKBUF_SIZE) && (US_STACKBUF_SIZE <? growCapacity) then US_STACKBUF_SIZE else growCapacity).
  assert (Hg : nc <= g <= max_capacity).
  { unfold g. destruct (Z.ltb_spec growCapacity 0); [lia|]. destruct (Z.leb_spec nc US_STACKBUF_SIZE), (Z.ltb_spec US_STACKBUF_SIZE growCapacity); cbn [andb]; unfold max_capacity, US_STACKBUF_SIZE in *; lia. }
  set (oldArray := if has_flag ob kUsingStackBuffer then _ else _).
  assert (Huse : forall b, used ob = Some b -> is_Some (peek (blocks st) b)) by (intros b Hb; by eapply used_ok).
  destruct (allocate_twice w st o ob (holds ob) g nc Ho Hbuf Hr) as [(st1 & ob1 & fl1 & a1 & E & Hv1 & Hfl1 & Ha1 & Hfr1 & Hpk1 & Hnew)|(ob1 & E & Href)]; [lia..| |];
    destruct (allocate st o g) as [[st0 ok0]|]; [|done| |done]; cbn [mbind option_bind] in E |- *; rewrite E; cbn [mbind option_bind].
  - right. left.
    assert (Hbig : fl = 2 -> US_STACKBUF_SIZE < nc).
    { intros ->. rewrite (packed_mask ob 2 len) in Ecase by done. change (negb (Z.land 2 kBufferIsReadonly =? 0)) with false in Ecase. unfold getCapacity in Ecase. rewrite (packed_mask ob 2 len) in Ecase by done.
      change (negb (Z.land 2 kUsingStackBuffer =? 0)) with true in Ecase. cbn [orb] in Ecase. apply orb_true_iff in Ecase as [->|Hlt]; [by specialize (Hsh4 eq_refl)|lia]. }
    assert (Hsrc : doCopy = true -> exists p, oldArray = Some p /\ forall n, 0 <= n <= zlen u -> load st1 p 0 n = Some (ztake n u)).
    { intros ->. unfold oldArray. rewrite (packed_mask ob fl len) by done. destruct (Z.eqb_spec fl 2) as [->|Hne].
      - change (negb (Z.land 2 kUsingStackBuffer =? 0)) with true. cbv iota. cbn [andb].
        specialize (Hbig eq_refl).
        destruct (Z.ltb_spec US_STACKBUF_SIZE g); [|lia]. eexists. split; [done|]. intros n Hn. apply (load_prefix _ _ (ztake (zlen u) (as_buffer (union ob))) (zlen u)); [done| | |done|lia].
        + rewrite Hlen, <- Htext. lia.
        + rewrite Hlen, <- Htext. unfold ztake. rewrite firstn_all2; [done|unfold zlen in *; lia].
      - assert (negb (Z.land fl kUsingStackBuffer =? 0) = false) as -> by (destruct Hfl as [->|[->|[->| ->]]]; done). cbv iota. destruct Htext as (b & off & m & Ea & Hu & Hm & Hl & Eu).
        exists (InBlock b off). split; [done|]. intros n Hn. apply (load_prefix _ _ m len); [|done|done|done|lia]. rewrite <- Hm. apply memory_peek, Hpk1, Huse, Hu. }
    destruct (clone_fill w (holds ob) st1 o ob1 fl1 a1 u oldArray doCopy Hv1 Hsrc) as (st2 & ob2 & a2 & len2 & E2 & Hv2 & Ha2 & Eg2 & Hfr2 & Hlen2 & Hpk2). cbn [mbind option_bind] in E2. rewrite E2. cbn [mbind option_bind]. clear E2.
    assert (Hptr : fresh_array st o ob1 /\ used ob2 = used ob1).
    { pose proof (v_packed _ _ _ _ _ _ _ _ _ Hv1) as Hp1. pose proof (v_packed _ _ _ _ _ _ _ _ _ Hv2) as Hp2. unfold fresh_array. rewrite (getArrayStart_packed o ob1 fl1 0 Hp1) in *. rewrite (getArrayStart_packed o ob2 fl1 len2 Hp2) in *.
      rewrite (used_packed ob1 fl1 0 Hp1), (used_packed ob2 fl1 len2 Hp2). destruct Hfl1 as [-> | ->]; eval_flags; [split; [by left|done]|rewrite Eg2; split; [right|done]].
      destruct (v_exclusive _ _ _ _ _ _ _ _ _ Hv1) as [[|]|b' a _ Ea Eb _|? ? ? ? ? [|]]; try done. rewrite Ea in *. exists b'. split_and!; auto. by eapply (Hnew b' 0). }
    destruct Hptr as [Hptr Eu2]. assert (Hdist : fresh_array st o ob2 /\ (fl = 2 -> US_STACKBUF_SIZE < nc)) by (split; [unfold fresh_array; by rewrite Eg2, Eu2|done]).
    assert (Hpk12 : forall c, is_Some (peek (blocks st) c) -> peek (blocks st2) c = peek (blocks st) c).
    { intros c Hc. rewrite <- (Hpk1 c Hc). unfold peek. rewrite Hpk2; [done|]. destruct Hptr as [[_ ->]|(b' & _ & -> & Hb')]; [done|]. intros [= ->]. destruct Hc as [x Hx]. unfold peek in Hx. by rewrite Hb' in Hx. }
    assert (Hfr : frame o w st st2) by (by eapply frame_trans). rewrite (packed_mask ob fl len) by done. destruct (decide (fl = 4)) as [->|Hne4].
    + destruct (ok_4 _ _ _ Hok) as (b & a & Ea & Epk & _ & _). change (negb (Z.land 4 kRefCounted =? 0)) with true. cbv iota.
      assert (Eold : oldArray = Some (InBlock b 0)) by (unfold oldArray; rewrite (packed_mask ob 4 len) by done; done). rewrite Eold, the_block_0. cbn [mbind option_bind].
      assert (Hhold : holds ob = [b]) by (by rewrite (holds_packed ob 4 len Hp), Ea). rewrite Hhold in Hv2.
      destruct (drop_old w st2 o ob2 fl1 a2 len2 b a later Hv2 Hfl1) as (st3 & del & -> & Hv3 & Hfr3 & Hd1 & Hd2 & Hd3 & Hd4); [rewrite Hpk12; [done|by eexists]|].
      exists st3, del, ob2, fl1, a2, len2. split; [done|]. split; [exact Hv3|]. split; [done|]. split; [lia|]. split; [by eapply frame_trans|]. split; [done|]. split; [done|]. split; [done|].
      split; [intros Hl Hc c Hcs; rewrite Hd3 by done; by apply Hpk12|]. split; [apply Hdist|]. split; [apply Hdist|]. intros Hl _ Hrc c Hc. assert (c = b) as -> by (rewrite (owned_packed ob 4 len Hp), Ea in Hc; eval_flags; cbn in Hc; congruence).
      apply Hd4; [done|]. rewrite (fr_others _ _ _ _ Hfr). unfold refCount in Hrc. rewrite Ea, the_block_0 in Hrc. cbn [mbind option_bind] in Hrc. destruct (peek_counted _ _ _ Epk) as (n & Hb). rewrite Hb in Hrc. cbn in Hrc. injection Hrc as ->.
      destruct (re_refs _ _ _ _ _ Hr b 1 a Hb) as [E1 _]. rewrite Hhold, occ_cons, bool_decide_true in E1 by done. change (occ b []) with 0 in E1. lia.
    + assert (negb (Z.land fl kRefCounted =? 0) = false) as -> by (destruct Hfl as [->|[->|[->| ->]]]; done). cbv iota.
      assert (Hhold : holds ob = []) by (rewrite (holds_packed ob fl len Hp); destruct Hfl as [->|[->|[->| ->]]]; done). rewrite Hhold in Hv2.
      exists st2, None, ob2, fl1, a2, len2. split; [done|]. split; [exact Hv2|]. split; [done|]. split; [lia|]. split; [done|]. split; [done|]. split; [done|]. split; [done|]. split; [auto|]. split; [apply Hdist|]. split; [apply Hdist|done].
  - right. right. cbn [put objs]. rewrite lookup_insert_eq. cbn [mbind option_bind].
    destruct (clone_fail w st o ob ob1 fl len Ho Hr Hok) as (st' & Eb & Hwf' & Hfr & Hval). exists st'. split; [|done].
    assert (Eob : (if has_flag ob kUsingStackBuffer then ob1 else set_array ob1 oldArray (fCapacity_of ob1)) = (if has_flag ob kUsingStackBuffer then ob1 else set_array ob1 (fArray_of ob) (fCapacity_of ob1))).
    { unfold oldArray. by destruct (has_flag ob kUsingStackBuffer). }
    rewrite Eob, Eb. done.
Qed.
End Allocation.
End StringCloneFacts.
