(* ===== verification/StringEditFacts.v ===== *)
(** * What the methods of strings do to values

    Each method changes the value of its own object only, and its array only where no other object
    sees it: afterwards the object has the text that the method promises, or it is bogus because
    no memory was to be had. *)

From S2P Require Import Prelude Utf16 UString StringStore StringEdit StringStoreFacts StringCloneFacts.

Module StringEditFacts.
Import StringStore StringEdit StringStoreFacts StringCloneFacts.

(** Texts up to this length can grow by a quarter and [kGrowSize]. *)
Definition max_text : Z := 2 ^ 29.

Section Edit.
Context `{HP : Heap}.

(** ** Values of the other objects *)

Lemma value_of_peek st st' o ob :
  (exists fl len, ok (blocks st) ob fl len) -> objs st !! o = Some ob -> objs st' !! o = Some ob -> (forall b, used ob = Some b -> peek (blocks st') b = peek (blocks st) b) ->
  value_of st' o ob = value_of st o ob.
Proof.
  intros (fl & len & Hok) Ho Ho' Hb. pose proof (ok_packed _ _ _ _ Hok) as Hp. pose proof (used_packed ob fl len Hp) as Hu.
  unfold value_of, isBogus. rewrite !(packed_mask ob fl len) by (done || cbn; lia). rewrite (getArrayStart_packed o ob fl len Hp).
  destruct Hok as [|? ? [-> | ->]|? ? ? ? [-> | ->] _ E1 E2|? ? ? ? ? [-> |[-> | ->]] _ E1 E2]; eval_flags; try done.
  - cbn [mbind option_bind]. unfold memory. by rewrite Ho, Ho'.
  - rewrite E1 in *. cbn [mbind option_bind]. by rewrite (memory_peek st st') by (by apply Hb).
  - rewrite E1 in *. cbn [mbind option_bind]. by rewrite (memory_peek st st') by (by apply Hb).
  - rewrite E1 in *. cbn [mbind option_bind]. by rewrite (memory_peek st st') by (by apply Hb).
Qed.

Lemma frame_lookup o w st st' o' : frame o w st st' -> o' <> o -> objs st' !! o' = objs st !! o'.
Proof. intros [E _] Hne. rewrite <- (lookup_delete_ne (objs st') o o'), E by done. by apply lookup_delete_ne. Qed.

Lemma frame_value o w st st' o' : wf st -> frame o w st st' -> o' <> o -> value_at st' o' = value_at st o'.
Proof.
  intros Hwf Hfr Hne. unfold value_at. rewrite (frame_lookup o w st st' o') by done. destruct (objs st !! o') as [ob|] eqn:Ho; [|done]. cbn [mbind option_bind].
  apply value_of_peek; [by eapply re_ok|done|by rewrite (frame_lookup o w st st' o')|].
  intros b Hb. apply (fr_blocks _ _ _ _ Hfr). left. exists o', ob. split; [by rewrite lookup_delete_ne|done].
Qed.

(** ** Text that an operation on [o] reads from elsewhere *)

Definition source (st : store) (o : nat) (w : option nat) (p : ptr) (i : Z) (x : list Z) : Prop :=
  load st p i (zlen x) = Some x /\ match p with Local _ => True | InBlock b _ => foreign (delete o (objs st)) (blocks st) w b | InObject o' => o' <> o end.

Lemma foreign_frame o w st st' b : frame o w st st' -> foreign (delete o (objs st)) (blocks st) w b -> foreign (delete o (objs st')) (blocks st') w b.
Proof.
  intros [Eo Hb] Hf. rewrite Eo. pose proof (Hb b Hf) as E. destruct Hf as [?|(a & Ha & Hw)]; [by left|]. right. exists a. by rewrite E.
Qed.

Lemma load_memory st st' p i n : memory st' p = memory st p -> load st' p i n = load st p i n.
Proof. unfold load. by intros ->. Qed.

Lemma source_frame o w st st' p i x : frame o w st st' -> source st o w p i x -> source st' o w p i x.
Proof.
  intros Hfr [Hl Hp]. split.
  - rewrite <- Hl. apply load_memory. destruct p as [b off|o'|u]; [apply memory_peek; by apply (fr_blocks _ _ _ _ Hfr)| |done].
    unfold memory. by rewrite (frame_lookup o w st st' o').
  - destruct p; [by eapply foreign_frame|done|done].
Qed.

(** The array of the object is no such text. *)
Lemma view_not_foreign w hs z st o ob fl a len b off :
  view w hs z st o ob fl a len -> getArrayStart o ob = Some (InBlock b off) -> ~ foreign (delete o (objs st)) (blocks st) w b.
Proof.
  intros [Ho Hp Hl Hex Hr Hap Hw] Hptr. pose proof (owned_packed ob fl len Hp) as Eo. pose proof (writes_packed ob fl len Hp) as Ew. rewrite (getArrayStart_packed o ob fl len Hp) in Hptr.
  destruct Hex as [Hf Hz|b' a Hf Ea Eb Ec|b' off' pre a q Hf Ea Eb Eof Ec].
  - destruct Hf as [-> | ->]; eval_flags; done.
  - rewrite Ea in *. assert (b' = b) as -> by (destruct Hf as [-> | ->]; eval_flags; congruence). assert (owned ob = Some b) as Hown by (rewrite Eo; by destruct Hf as [-> | ->]).
    assert (Hcount : 1 = occ b (holds ob ++ hs)).
    { destruct (re_refs _ _ _ _ _ Hr b 1 a Eb) as [E1 _]. pose proof (count_nonneg (delete o (objs st)) b). unfold holds in *. rewrite Hown in *. cbn [app] in *.
      rewrite occ_cons, bool_decide_true in * by done. pose proof (occ_nonneg b hs). lia. }
    eapply not_foreign; [by eapply rest_unused|done].
  - rewrite Ea in *. assert (b' = b) as -> by (destruct Hf as [-> | ->]; eval_flags; congruence). assert (writes ob = Some b) as Hwr by (rewrite Ew; by destruct Hf as [-> | ->]).
    intros [(o2 & ob2 & Hob2 & E2)|(a2 & _ & Hne)]; [by apply (proj1 (Hap o2 ob2 b Hob2) Hwr)|]. apply Hne. by apply Hw.
Qed.

Lemma view_other_place w hs z st o ob fl a len p q i j x :
  view w hs z st o ob fl a len -> getArrayStart o ob = Some q -> source st o w p i x -> same_place p q i j = false.
Proof.
  intros Hv Hq [_ Hp]. destruct p as [b off|o'|u], q as [b' off'|o''|u']; try done; cbn.
  - destruct (Nat.eqb_spec b b') as [->|]; [|done]. exfalso. by eapply view_not_foreign.
  - rewrite (getArrayStart_packed o ob fl len (v_packed _ _ _ _ _ _ _ _ _ Hv)) in Hq.
    destruct (v_exclusive _ _ _ _ _ _ _ _ _ Hv) as [Hf|? ? [-> | ->] Ea|? ? ? ? ? [-> | ->] Ea]; eval_flags; [|congruence..].
    assert (o'' = o) as -> by (destruct Hf as [-> | ->]; eval_flags; congruence). by destruct (Nat.eqb_spec o' o).
Qed.

(** ** What an operation promises *)

(** The object has the value [v], or it is bogus for lack of memory; nothing else has changed. *)
Definition outcome (w : option nat) (st : store) (o : nat) (v : UnicodeString.t) (r : option store) : Prop :=
  exists st', r = Some st' /\ wf st' /\ frame o w st st' /\ (value_at st' o = Some (Closed v) \/ refused /\ value_at st' o = Some (Closed UnicodeString.Bogus)).

Definition closed_flags (fl : Z) : Prop := fl = 0 \/ fl = 2 \/ fl = 4.

Lemma view_outcome w st o ob fl a len st1 v :
  view w [] None st1 o ob fl a len -> closed_flags fl -> frame o w st st1 -> v = ztake len a -> outcome w st o (UnicodeString.Str v) (Some st1).
Proof.
  intros Hv Hf Hfr ->. exists st1. split; [done|]. split; [by eapply view_wf|]. split; [done|]. left. eapply view_value; [exact Hv|]. by destruct Hf as [->|[->| ->]].
Qed.

(** Before an operation: a closed string. *)
Record closed (st : store) (o : nat) (ob : obj) (u : list Z) : Prop := {
  cl_wf : wf st;
  cl_obj : objs st !! o = Some ob;
  cl_value : value_of st o ob = Some (Closed (UnicodeString.Str u))
}.

Lemma closed_ok st o ob u : closed st o ob u -> exists fl, ok (blocks st) ob fl (zlen u) /\ (fl = 0 \/ fl = 2 \/ fl = 4 \/ fl = 8).
Proof.
  intros [Hwf Ho Hv]. destruct (wf_focus st o ob Hwf Ho) as (_ & _ & fl & len & Hok). destruct (ok_text st o ob fl len u Ho Hok Hv) as (<- & Hf & _). by exists fl.
Qed.

Lemma closed_at st o u : wf st -> value_at st o = Some (Closed (UnicodeString.Str u)) -> exists ob, closed st o ob u.
Proof. intros Hwf Hv. unfold value_at in Hv. destruct (objs st !! o) as [ob|] eqn:Ho; [|done]. by exists ob. Qed.

Lemma closed_isWritable st o ob u : closed st o ob u -> isWritable ob = true.
Proof.
  intros Hc. destruct (closed_ok st o ob u Hc) as (fl & Hok & Hf). unfold isWritable. rewrite (packed_mask ob fl (zlen u)) by (by eapply ok_packed || done).
  by destruct Hf as [->|[->|[->| ->]]].
Qed.

Lemma closed_length st o ob u : closed st o ob u -> length ob = zlen u.
Proof. intros Hc. destruct (closed_ok st o ob u Hc) as (fl & Hok & Hf). by eapply packed_length, ok_packed. Qed.

Lemma closed_refCount st o ob u fl : closed st o ob u -> ok (blocks st) ob fl (zlen u) -> fl = 4 -> exists n, refCount st ob = Some n.
Proof.
  intros Hc Hok ->. destruct (ok_4 _ _ _ Hok) as (b & a & Ea & Epk & _). destruct (peek_counted _ _ _ Epk) as (n & Hb). exists n.
  unfold refCount. rewrite Ea, the_block_0. cbn [mbind option_bind]. by rewrite Hb.
Qed.

Lemma closed_isBufferWritable st o ob u :
  closed st o ob u -> exists bw, isBufferWritable st ob = Some bw /\ forall fl, ok (blocks st) ob fl (zlen u) -> bw = true -> fl <> 8 /\ (fl = 4 -> refCount st ob = Some 1).
Proof.
  intros Hc. destruct (closed_ok st o ob u Hc) as (fl & Hok & Hf). pose proof (ok_packed _ _ _ _ Hok) as Hp. unfold isBufferWritable. rewrite !(packed_mask ob fl (zlen u)) by (done || cbn; lia).
  assert (Huniq : forall fl', ok (blocks st) ob fl' (zlen u) -> fl' = fl).
  { intros fl' Hok'. pose proof (ok_packed _ _ _ _ Hok') as Hp'. rewrite <- (land_pack fl' (zlen u)), <- (land_pack fl (zlen u)) by (apply Hp || apply storage_range; first [apply Hp|apply Hp']).
    by rewrite <- (pk_flags _ _ _ Hp), (pk_flags _ _ _ Hp'). }
  destruct (decide (fl = 4)) as [->|Hne].
  - destruct (closed_refCount st o ob u 4 Hc Hok eq_refl) as [n En]. eval_flags. rewrite En. cbn [mbind option_bind]. eexists. split; [done|]. intros fl' Hok' Hn. rewrite (Huniq fl' Hok'). split; [done|].
    intros _. f_equal. by apply Z.eqb_eq.
  - destruct Hf as [->|[->|[->| ->]]]; eval_flags; try done; (eexists; split; [reflexivity|]; intros fl' Hok' Hn; rewrite (Huniq fl' Hok'); done).
Qed.

(** ** Appending *)

(** Behind the text of an array that may be written. *)
Lemma append_tail w st o st1 ob fl a u p i x :
  view w [] None st1 o ob fl a (zlen u) -> closed_flags fl -> ztake (zlen u) a = u -> zlen u + zlen x <= zlen a -> frame o w st st1 -> source st1 o w p i x ->
  outcome w st o (UnicodeString.Str (u ++ x))
    (ob ← objs st1 !! o; newArray ← getArrayStart o ob;
     st ← (if same_place p newArray i (zlen u) then Some st1 else us_arrayCopy st1 (Some p) i (Some newArray) (zlen u) (zlen x));
     ob ← objs st !! o; Some (put st o (setLength ob (zlen u + zlen x)))).
Proof.
  intros Hv Hf Hu Hcap Hfr Hsrc. pose proof (zlen_nonneg u). pose proof (zlen_nonneg x). rewrite (v_obj _ _ _ _ _ _ _ _ _ Hv). cbn [mbind option_bind].
  destruct (view_load w [] None st1 o ob fl a (zlen u) 0 0 Hv) as (q & Eq & _); [lia..|]. rewrite Eq. cbn [mbind option_bind].
  rewrite (view_other_place w [] None st1 o ob fl a (zlen u) p q i (zlen u) x Hv Eq Hsrc). rewrite <- Eq.
  destruct (view_copy w [] None st1 o ob fl a (zlen u) (Some p) i (zlen u) (zlen x) x Hv) as (st2 & ob2 & -> & Hv2 & _ & Hfr2 & _); [lia|done|lia|intros _; exists p; split; [done|apply Hsrc]|].
  cbn [mbind option_bind]. rewrite (v_obj _ _ _ _ _ _ _ _ _ Hv2). cbn [mbind option_bind].
  assert (Hz : zlen (splice a (zlen u) x) = zlen a) by (apply splice_zlen; lia).
  destruct (view_setLength w [] None st2 o ob2 fl _ (zlen u) (zlen u + zlen x) Hv2) as [Hv3 _]; [lia|].
  eapply view_outcome; [exact Hv3|done|eapply frame_trans; [exact Hfr|eapply frame_trans; [exact Hfr2|apply frame_put]]|].
  unfold splice. by rewrite Hu, app_assoc, <- zlen_app, ztake_app_exact.
Qed.

Lemma doAppend_spec w st o ob u p i x :
  closed st o ob u -> (forall b, writes ob = Some b -> w = Some b) -> source st o w p i x -> zlen u + zlen x <= max_text ->
  outcome w st o (UnicodeString.Str (u ++ x)) (doAppend st o (Some p) i (zlen x)).
Proof.
  intros Hc Hw Hsrc Hmax. pose proof Hc as [Hwf Ho Hv]. pose proof (zlen_nonneg u). pose proof (zlen_nonneg x). unfold max_text in Hmax. unfold doAppend. rewrite Ho. cbn [mbind option_bind].
  rewrite (closed_isWritable st o ob u Hc). cbn [negb orb]. destruct (Z.eqb_spec (zlen x) 0) as [Hx|Hx].
  { apply zlen_0_inv in Hx as ->. rewrite app_nil_r. exists st. split; [done|]. split; [done|]. split; [apply frame_refl|]. left. unfold value_at. by rewrite Ho. }
  destruct (Z.ltb_spec (zlen x) 0); [lia|]. cbn [mbind option_bind]. destruct (Z.eqb_spec (zlen x) 0) as [E|_]; [done|]. rewrite (closed_length st o ob u Hc).
  rewrite checked_in by (unfold INT32_MIN, INT32_MAX; lia). cbn [mbind option_bind]. set (n := zlen u + zlen x) in *.
  destruct (closed_ok st o ob u Hc) as (fl & Hok & Hfl). destruct (closed_isBufferWritable st o ob u Hc) as (bw & Ebw & Hbw).
  assert (Hown : exists own, (if n <=? getCapacity ob then isBufferWritable st ob else Some false) = Some own /\ (own = true -> n <= getCapacity ob /\ bw = true)).
  { destruct (Z.leb_spec n (getCapacity ob)); [exists bw; auto|by exists false]. }
  destruct Hown as (own & -> & Hown). cbn [mbind option_bind]. destruct own.
  - destruct (Hown eq_refl) as [Hcap Hb]. destruct (Hbw fl Hok Hb) as [H8 H4]. cbn [mbind option_bind].
    destruct (view_of_ok w st o ob fl (zlen u) u Hwf Ho Hok Hv Hw H8 H4) as (a & Hview & Ea & Eu & Hf). eapply append_tail; [exact Hview|done|done|lia|apply frame_refl|done].
  - assert (Eg : Z.shiftr n 2 = n / 4) by (rewrite Z.shiftr_div_pow2 by lia; done). unfold growth. rewrite Eg, checked_in by (unfold INT32_MIN, INT32_MAX, kGrowSize; dlia). cbn [mbind option_bind]. unfold cloneArray.
    destruct (clone_spec w st o ob fl (zlen u) u n (n + n / 4 + kGrowSize) true false Hwf Ho Hok Hv Hw) as [(-> & a & Hview & Hf & Hnc & Eu)|[(st1 & del & ob1 & fl1 & a & len1 & -> & Hview & Hf & Hnc & Hfr & [Elen Et] & Hdel & _)|(st1 & -> & Href & Hwf1 & Hfr & Hval)]];
      [destruct (Z.eqb_spec n (-1)); unfold max_capacity; lia|unfold max_capacity, kGrowSize; dlia|right; destruct (Z.eqb_spec n (-1)); [lia|unfold kGrowSize; dlia]|..]; cbn [mbind option_bind].
    + eapply append_tail; [exact Hview|done| | |apply frame_refl|done]; [done|destruct (Z.eqb_spec n (-1)); lia].
    + rewrite (Hdel eq_refl) in Hview. destruct (Z.eqb_spec n (-1)); [lia|]. assert (len1 = zlen u) as -> by lia. rewrite ztake_all in Et.
      eapply append_tail; [exact Hview|destruct Hf; [by right; left|by right; right]|done|lia|done|by eapply source_frame].
    + exists st1. split; [done|]. split; [done|]. split; [done|]. by right.
Qed.

(** *** From another object *)

Lemma slice_ztake (m : list Z) len i n : 0 <= i -> 0 <= n -> i + n <= len -> slice (ztake len m) i n = slice m i n.
Proof.
  intros Hi Hn Hl. unfold slice, ztake. rewrite skipn_firstn_comm, take_take. f_equal. lia.
Qed.

Lemma slice_zlen (l : list Z) i n : 0 <= i -> 0 <= n -> i + n <= zlen l -> zlen (slice l i n) = n.
Proof. intros Hi Hn Hl. apply zlen_ztake. unfold zlen in *. rewrite length_drop. lia. Qed.

(** The text of a closed string can be read through its array pointer. *)
Lemma closed_array st o ob u :
  closed st o ob u -> exists p m, getArrayStart o ob = Some p /\ memory st p = Some m /\ zlen u <= zlen m /\ u = ztake (zlen u) m /\ (p = InObject o \/ exists b off, p = InBlock b off /\ used ob = Some b).
Proof.
  intros Hc. pose proof Hc as [Hwf Ho Hv]. destruct (closed_ok st o ob u Hc) as (fl & Hok & Hf). pose proof (ok_packed _ _ _ _ Hok) as Hp. rewrite (getArrayStart_packed o ob fl _ Hp).
  destruct (ok_text st o ob fl (zlen u) u Ho Hok Hv) as (_ & _ & Ht). pose proof (ok_buffer _ _ _ _ Hok) as Hbuf. destruct (Z.eqb_spec fl 2) as [->|Hne].
  - pose proof (ok_2 _ _ _ Hok). eval_flags. exists (InObject o), (as_buffer (union ob)). unfold memory. rewrite Ho. split_and!; auto. lia.
  - destruct Ht as (b & off & m & Ea & Hu & Hm & Hl & Eu). assert (negb (Z.land fl 2 =? 0) = false) as -> by (destruct Hf as [->|[->|[->| ->]]]; done).
    exists (InBlock b off), m. split_and!; auto. right. by exists b, off.
Qed.

Lemma closed_load st o ob u p i n : closed st o ob u -> getArrayStart o ob = Some p -> 0 <= i -> 0 <= n -> i + n <= zlen u -> load st p i n = Some (slice u i n).
Proof.
  intros Hc Hp Hi Hn Hl. destruct (closed_array st o ob u Hc) as (p' & m & Ep & Hm & Hlm & Eu & _). assert (p' = p) as -> by congruence. unfold load. rewrite Hm. cbn [mbind option_bind].
  destruct (Z.leb_spec 0 i), (Z.leb_spec (i + n) (zlen m)); [|lia..]. cbn [andb]. f_equal. rewrite Eu. fold (slice m i n). by rewrite slice_ztake.
Qed.

Lemma closed_source w st o src s v i n :
  closed st src s v -> src <> o -> 0 <= i -> 0 <= n -> i + n <= zlen v -> exists p, getArrayStart src s = Some p /\ source st o w p i (slice v i n).
Proof.
  intros Hc Hne Hi Hn Hl. destruct (closed_array st src s v Hc) as (p & m & Ep & _ & _ & _ & Hp). exists p. split; [done|]. split; [rewrite slice_zlen by done; by eapply closed_load|].
  destruct Hp as [->|(b & off & -> & Hu)]; [done|]. left. exists src, s. split; [|done]. rewrite lookup_delete_ne by done. apply Hc.
Qed.

(** ** Replacing *)

(** The value after [x] has replaced the units of a range, which is pinned to the string. *)
Definition replaced (v : UnicodeString.t) (start len : Z) (x : list Z) : UnicodeString.t :=
  match v with
  | UnicodeString.Bogus => UnicodeString.Bogus
  | UnicodeString.Str u => let '(i, n) := UnicodeString.pinIndices v start len in UnicodeString.Str (ztake i u ++ x ++ drop (Z.to_nat (i + n)) u)
  end.

Lemma closed_pinIndices st o ob u start len : closed st o ob u -> pinIndices ob start len = UnicodeString.pinIndices (UnicodeString.Str u) start len.
Proof. intros Hc. unfold pinIndices, UnicodeString.pinIndices, UnicodeString.length. by rewrite (closed_length st o ob u Hc). Qed.

Lemma pinIndices_range v start len i n : UnicodeString.pinIndices v start len = (i, n) -> 0 <= i /\ 0 <= n /\ i + n <= UnicodeString.length v.
Proof.
  unfold UnicodeString.pinIndices. assert (0 <= UnicodeString.length v) by apply zlen_nonneg. intros [= <- <-]. repeat zcase; lia.
Qed.

(** The tail of [u] is moved, then [x] written in front of it. *)
Lemma splice_replace (a u x : list Z) i n :
  0 <= i -> 0 <= n -> i + n <= zlen u -> zlen u - n + zlen x <= zlen a -> ztake i a = ztake i u ->
  ztake (zlen u - n + zlen x) (splice (splice a (i + zlen x) (slice u (i + n) (zlen u - (i + n)))) i x) = ztake i u ++ x ++ drop (Z.to_nat (i + n)) u.
Proof.
  intros Hi Hn Hl Ha Hia. pose proof (zlen_nonneg x).
  assert (Et : slice u (i + n) (zlen u - (i + n)) = drop (Z.to_nat (i + n)) u) by (unfold slice, ztake; apply take_ge; rewrite length_drop; unfold zlen in *; lia). rewrite Et. set (t := drop (Z.to_nat (i + n)) u).
  assert (Hzt : zlen t = zlen u - (i + n)) by (unfold t, zlen in *; rewrite length_drop; lia). set (r := drop (Z.to_nat (i + zlen x + zlen t)) a).
  assert (Hk : zlen (ztake (i + zlen x) a) = i + zlen x) by (apply zlen_ztake; lia). assert (Hiu : zlen (ztake i u) = i) by (apply zlen_ztake; lia).
  assert (E : splice (splice a (i + zlen x) t) i x = (ztake i u ++ x ++ t) ++ r).
  { unfold splice at 1. assert (Hd : drop (Z.to_nat (i + zlen x)) (splice a (i + zlen x) t) = t ++ r).
    { unfold splice. replace (Z.to_nat (i + zlen x)) with (List.length (ztake (i + zlen x) a)) at 1 by (unfold zlen in *; lia). apply drop_app_length. }
    rewrite Hd. unfold splice. rewrite ztake_app_le by lia. assert (ztake i (ztake (i + zlen x) a) = ztake i a) as -> by (unfold ztake; rewrite take_take; f_equal; lia).
    by rewrite Hia, <- !app_assoc. }
  rewrite E. replace (zlen u - n + zlen x) with (zlen (ztake i u ++ x ++ t)) by (rewrite !zlen_app; lia). apply ztake_app_exact.
Qed.

Definition src_ok (st : store) (o : nat) (w : option nat) (src : option ptr) (i : Z) (x : list Z) : Prop := x = [] \/ exists p, src = Some p /\ source st o w p i x.

Lemma src_frame o w st st' src i x : frame o w st st' -> src_ok st o w src i x -> src_ok st' o w src i x.
Proof. intros Hfr [?|(p & ? & ?)]; [by left|right; exists p; split; [done|by eapply source_frame]]. Qed.

(** A block that is waiting to be freed is not the array. *)
Lemma view_not_freed w hs z st o ob fl a len b a0 : view w hs z st o ob fl a len -> blocks st !! b = Some (mk_block (Some 0) a0) -> used ob <> Some b.
Proof.
  intros [Ho Hp Hl Hex Hr Hap Hw] Hb Hu. rewrite (used_packed ob fl len Hp) in Hu.
  destruct Hex as [[-> | ->]|? ? [-> | ->] Ea Eb|? ? ? ? ? [-> | ->] Ea Eb]; eval_flags; try done; rewrite Ea in Hu; injection Hu as ->; congruence.
Qed.

(** Writing the new text, with the array [a] moved already, and freeing the old array. *)
Lemma replace_tail w st o st1 del ob fl a len u src k i n x :
  view w [] del st1 o ob fl (splice a (i + zlen x) (slice u (i + n) (zlen u - (i + n)))) len -> closed_flags fl -> ztake i a = ztake i u ->
  0 <= i -> 0 <= n -> i + n <= zlen u -> zlen u - n + zlen x <= zlen a -> frame o w st st1 -> src_ok st1 o w src k x ->
  (forall b, del = Some b -> exists a0, blocks st1 !! b = Some (mk_block (Some 0) a0)) ->
  outcome w st o (UnicodeString.Str (ztake i u ++ x ++ drop (Z.to_nat (i + n)) u))
    (st ← us_arrayCopy st1 src k (getArrayStart o ob) i (zlen x);
     ob ← objs st !! o;
     let st := put st o (setLength ob (zlen u - n + zlen x)) in
     match del with Some b => free_block st b | None => Some st end).
Proof.
  intros Hv Hf Hia Hi Hn Hl Hcap Hfr Hsrc Hdel. pose proof (zlen_nonneg x). set (t := slice u (i + n) (zlen u - (i + n))) in *.
  assert (Hzt : zlen t = zlen u - (i + n)) by (apply slice_zlen; lia). assert (Hz1 : zlen (splice a (i + zlen x) t) = zlen a) by (apply splice_zlen; lia).
  destruct (view_copy w [] del st1 o ob fl _ len src k i (zlen x) x Hv) as (st2 & ob2 & -> & Hv2 & _ & Hfr2 & Hbl2); [lia|done|lia|intros Hx; destruct Hsrc as [->|(p & -> & Hp & _)]; [done|by exists p]|].
  cbn [mbind option_bind]. rewrite (v_obj _ _ _ _ _ _ _ _ _ Hv2). cbn [mbind option_bind]. assert (Hz2 : zlen (splice (splice a (i + zlen x) t) i x) = zlen a) by (rewrite splice_zlen; lia).
  destruct (view_setLength w [] del st2 o ob2 fl _ len (zlen u - n + zlen x) Hv2) as [Hv3 _]; [lia|]. set (ob3 := setLength ob2 _) in *. set (st3 := put st2 o ob3) in *.
  assert (Hfr3 : frame o w st st3) by (eapply frame_trans; [exact Hfr|eapply frame_trans; [exact Hfr2|apply frame_put]]).
  pose proof (splice_replace a u x i n Hi Hn Hl Hcap Hia) as Etext. fold t in Etext. destruct del as [b|].
  - destruct (Hdel b eq_refl) as [a0 Hb1]. assert (Hb3 : blocks st3 !! b = Some (mk_block (Some 0) a0)) by (cbn; rewrite Hbl2; [done|by eapply view_not_freed]).
    pose proof (v_rest _ _ _ _ _ _ _ _ _ Hv3) as Hr3. destruct (free_zero st3 o b _ a0 w Hr3 Hb3) as (st4 & -> & Eo4 & Hr4 & Hfr4 & Hbl4).
    eapply view_outcome; [|exact Hf|by eapply frame_trans|by rewrite Etext]. eapply view_blocks; [exact Hv3|done|exact Hr4|]. intros c Hc. apply Hbl4. intros ->. by eapply view_not_freed.
  - eapply view_outcome; [exact Hv3|exact Hf|done|by rewrite Etext].
Qed.

(** An object that only reads memory of the caller. *)
Lemma put_alias st o ob len b off a :
  rest_of st o [] None -> packed ob 8 len -> fArray_of ob = Some (InBlock b off) -> peek (blocks st) b = Some (false, a) -> 0 <= off -> off + fCapacity_of ob <= zlen a -> len <= fCapacity_of ob ->
  (forall o2 ob2, delete o (objs st) !! o2 = Some ob2 -> writes ob2 <> Some b) ->
  wf (put st o ob) /\ value_at (put st o ob) o = Some (Closed (UnicodeString.Str (slice a off len))).
Proof.
  intros Hr Hp Ea Epk Hoff Hcap Hlen Hw. assert (Hu : used ob = Some b) by (by rewrite (used_packed ob 8 len Hp), Ea). split.
  - apply (wf_put st o ob 8 len).
    + by rewrite (holds_packed ob 8 len Hp).
    + intros o2 ob2 c H2. rewrite (writes_packed ob 8 len Hp), Hu. split; [done|]. intros Hc [= ->]. by eapply Hw.
    + eapply ok_alias; eauto.
  - unfold value_at. cbn [put objs]. rewrite lookup_insert_eq. cbn [mbind option_bind]. unfold value_of, isBogus. rewrite !(packed_mask ob 8 len) by (done || cbn; lia). eval_flags.
    rewrite (getArrayStart_packed o ob 8 len Hp). eval_flags. rewrite Ea, (packed_length ob 8 len Hp). cbn [mbind option_bind]. unfold memory. cbn [blocks put].
    rewrite (peek_external _ _ _ Epk). cbn [mbind option_bind cells]. pose proof (pk_nonneg _ _ _ Hp). destruct (Z.leb_spec 0 off), (Z.leb_spec off (zlen a)); [|lia..]. done.
Qed.

Lemma ok_8 bs ob len : ok bs ob 8 len -> exists b off a, fArray_of ob = Some (InBlock b off) /\ peek bs b = Some (false, a) /\ 0 <= off /\ off + fCapacity_of ob <= zlen a /\ len <= fCapacity_of ob.
Proof. intros Hok. inversion Hok as [|? ? Hf|? ? ? ? Hf|? ? b off a]; try done; [lia|lia|by exists b, off, a]. Qed.

(** A range of such an object, read from the same memory. *)
Lemma alias_range w st o ob u i n ob' :
  closed st o ob u -> ok (blocks st) ob 8 (zlen u) -> 0 <= i -> 0 <= n -> i + n <= zlen u -> packed ob' 8 n -> n <= fCapacity_of ob' <= fCapacity_of ob - i ->
  (forall b off, fArray_of ob = Some (InBlock b off) -> fArray_of ob' = Some (InBlock b (off + i))) -> outcome w st o (UnicodeString.Str (slice u i n)) (Some (put st o ob')).
Proof.
  intros [Hwf Ho Hv] Hok Hi Hn Hl Hp' Hc Hptr. pose proof (ok_packed _ _ _ _ Hok) as Hp. destruct (ok_8 _ _ _ Hok) as (b & off & a & Ea & Epk & H0 & Hoc & Hcap). destruct (wf_focus st o ob Hwf Ho) as (Hr & Hap & _).
  rewrite (holds_packed ob 8 _ Hp) in Hr. eval_flags. destruct (ok_text st o ob 8 (zlen u) u Ho Hok Hv) as (_ & _ & Ht). change (8 =? 2) with false in Ht. cbv iota in Ht.
  destruct Ht as (b' & off' & m & Ea' & Hu & Hm & Hlm & Eu). assert (b' = b /\ off' = off) as [-> ->] by (split; congruence).
  destruct (put_alias st o ob' n b (off + i) a Hr Hp' (Hptr b off Ea) Epk) as [Hwf' Hv']; [lia..| |].
  { intros o2 ob2 H2 Hw2. by apply (proj2 (Hap o2 ob2 b H2) Hw2). }
  exists (put st o ob'). split; [done|]. split; [done|]. split; [apply frame_put|]. left. rewrite Hv'. do 3 f_equal.
  unfold memory in Hm. rewrite (peek_external _ _ _ Epk) in Hm. cbn [mbind option_bind cells] in Hm. destruct (_ && _); [|done]. injection Hm as <-. rewrite Eu.
  rewrite slice_ztake by lia. unfold slice, ztake. rewrite drop_drop. do 3 f_equal. lia.
Qed.

Lemma drop_slice (u : list Z) n : 0 <= n <= zlen u -> slice u n (zlen u - n) = drop (Z.to_nat n) u.
Proof. intros Hn. unfold slice, ztake. apply take_ge. rewrite length_drop. unfold zlen in *. lia. Qed.

Lemma shrink_spec w st o ob u start len0 ob' :
  closed st o ob u -> ok (blocks st) ob 8 (zlen u) -> shrink_alias ob (zlen u) start len0 = Some ob' -> outcome w st o (replaced (UnicodeString.Str u) start len0 []) (Some (put st o ob')).
Proof.
  intros Hc Hok. pose proof (ok_packed _ _ _ _ Hok) as Hp. pose proof (zlen_nonneg u). destruct (ok_8 _ _ _ Hok) as (b & off & a & Ea & Epk & H0 & Hoc & Hcap).
  unfold shrink_alias, replaced. destruct (UnicodeString.pinIndices (UnicodeString.Str u) start len0) as [i n] eqn:Epin. unfold UnicodeString.pinIndices, UnicodeString.length in Epin. cbn [UnicodeString.units] in Epin.
  destruct (Z.eqb_spec start 0) as [->|Hs].
  - intros [= <-]. injection Epin as Ei En. change (0 <? 0) with false in *. cbv iota in *. destruct (Z.ltb_spec (zlen u) 0); [lia|]. subst i. rewrite Z.sub_0_r in En.
    assert (pinIndex ob len0 = n) as -> by (unfold pinIndex; by rewrite (closed_length st o ob u Hc)). assert (Hn : 0 <= n <= zlen u) by (rewrite <- En; repeat zcase; lia).
    change (ztake 0 u) with (@nil Z). cbn [app]. rewrite Z.add_0_l, <- drop_slice by lia. eapply alias_range; try done; try lia.
    + apply packed_setLength with (len := zlen u); [by apply packed_set_array|lia].
    + rewrite setLength_fCapacity. cbn. lia.
    + intros b2 off2 E. rewrite setLength_fArray. cbn. by rewrite E.
  - assert (Hps : pinIndex ob start = i) by (unfold pinIndex; rewrite (closed_length st o ob u Hc); by injection Epin as <- _). rewrite Hps.
    assert (Hi : 0 <= i <= zlen u) by (injection Epin as <- _; repeat zcase; lia).
    destruct (Z.leb_spec (zlen u - i) len0) as [Hle|]; [|done]. intros [= <-]. assert (n = zlen u - i) as ->.
    { injection Epin as Ei <-. rewrite Ei. repeat zcase; lia. }
    assert (ztake i u ++ [] ++ drop (Z.to_nat (i + (zlen u - i))) u = slice u 0 i) as ->.
    { unfold slice. rewrite drop_0. cbn [app]. rewrite drop_ge by (unfold zlen; lia). apply app_nil_r. }
    eapply alias_range; try done; try lia.
    + apply packed_set_array. by apply packed_setLength with (len := zlen u); [|lia].
    + cbn. lia.
    + intros b2 off2 E. cbn. by rewrite setLength_fArray, E, Z.add_0_r.
Qed.

(** The text of the range moved to where it goes: within the array, or out of the old one. *)
Definition move_text (st : store) (oldArray newArray : option ptr) (start length0 srcLength oldLength : Z) : option store :=
  if negb (bool_decide (newArray = oldArray)) then
    st ← us_arrayCopy st oldArray 0 newArray 0 start;
    us_arrayCopy st oldArray (start + length0) newArray (start + srcLength) (oldLength - (start + length0))
  else if negb (length0 =? srcLength) then
    us_arrayCopy st oldArray (start + length0) newArray (start + srcLength) (oldLength - (start + length0))
  else Some st.

Lemma slice_prefix (a u : list Z) i n : ztake (zlen u) a = u -> 0 <= i -> 0 <= n -> i + n <= zlen u -> slice a i n = slice u i n.
Proof. intros E Hi Hn Hl. transitivity (slice (ztake (zlen u) a) i n); [symmetry; apply slice_ztake; lia|by rewrite E]. Qed.

Lemma splice_same (a : list Z) i n : 0 <= i -> 0 <= n -> i + n <= zlen a -> splice a i (slice a i n) = a.
Proof.
  intros Hi Hn Hl. unfold splice. rewrite slice_zlen by lia. unfold slice, ztake. replace (Z.to_nat (i + n)) with (Z.to_nat i + Z.to_nat n)%nat by lia. rewrite <- drop_drop. by rewrite !take_drop.
Qed.

(** Within the array. *)
Lemma move_within w st o ob fl a u i n zx :
  view w [] None st o ob fl a (zlen u) -> ztake (zlen u) a = u -> 0 <= i -> 0 <= n -> 0 <= zx -> i + n <= zlen u -> zlen u - n + zx <= zlen a ->
  exists st' ob', move_text st (getArrayStart o ob) (getArrayStart o ob) i n zx (zlen u) = Some st' /\
    view w [] None st' o ob' fl (splice a (i + zx) (slice u (i + n) (zlen u - (i + n)))) (zlen u) /\ getArrayStart o ob' = getArrayStart o ob /\ frame o w st st'.
Proof.
  intros Hv Hu Hi Hn Hx Hl Hcap. unfold move_text. rewrite bool_decide_true by done. cbn [negb]. assert (Hz : zlen (slice u (i + n) (zlen u - (i + n))) = zlen u - (i + n)) by (apply slice_zlen; lia).
  pose proof (v_len _ _ _ _ _ _ _ _ _ Hv). destruct (Z.eqb_spec n zx) as [<-|Hne]; cbn [negb].
  - exists st, ob. rewrite <- (slice_prefix a u) by (done || lia). rewrite splice_same by lia. split_and!; auto. apply frame_refl.
  - destruct (view_load w [] None st o ob fl a (zlen u) (i + n) (zlen u - (i + n)) Hv) as (p & Ep & Hload); [lia..|].
    destruct (view_copy w [] None st o ob fl a (zlen u) (getArrayStart o ob) (i + n) (i + zx) (zlen u - (i + n)) (slice u (i + n) (zlen u - (i + n))) Hv) as (st2 & ob2 & E & Hv2 & Eg & Hfr & _); [lia|done|lia| |].
    + intros _. exists p. split; [done|]. by rewrite Hload, (slice_prefix a u) by (done || lia).
    + exists st2, ob2. auto.
Qed.

(** Out of memory that is not the array. *)
Lemma move_out w del st o ob fl a len u p i n zx :
  view w [] del st o ob fl a len -> getArrayStart o ob <> Some p -> (forall i n, 0 <= i -> 0 <= n -> i + n <= zlen u -> load st p i n = Some (slice u i n)) ->
  (match p with InBlock b _ => used ob <> Some b | InObject _ => False | Local _ => True end) ->
  0 <= i -> 0 <= n -> 0 <= zx -> i + n <= zlen u -> zlen u - n + zx <= zlen a -> (forall b, del = Some b -> exists a0, blocks st !! b = Some (mk_block (Some 0) a0)) ->
  exists st' ob' a', move_text st (Some p) (getArrayStart o ob) i n zx (zlen u) = Some st' /\
    view w [] del st' o ob' fl (splice a' (i + zx) (slice u (i + n) (zlen u - (i + n)))) len /\ ztake i a' = ztake i u /\ zlen a' = zlen a /\ getArrayStart o ob' = getArrayStart o ob /\ frame o w st st' /\
    (forall b, del = Some b -> exists a0, blocks st' !! b = Some (mk_block (Some 0) a0)).
Proof.
  intros Hv Hne Hload Hp Hi Hn Hx Hl Hcap Hdel. unfold move_text. rewrite bool_decide_false by done. cbn [negb].
  assert (Hz : zlen (slice u (i + n) (zlen u - (i + n))) = zlen u - (i + n)) by (apply slice_zlen; lia). assert (Hz0 : zlen (slice u 0 i) = i) by (apply slice_zlen; lia).
  destruct (view_copy w [] del st o ob fl a len (Some p) 0 0 i (slice u 0 i) Hv) as (st2 & ob2 & -> & Hv2 & Eg2 & Hfr2 & Hbl2); [lia|done|lia|intros _; exists p; split; [done|apply Hload; lia]|].
  cbn [mbind option_bind]. assert (Hzs : zlen (splice a 0 (slice u 0 i)) = zlen a) by (apply splice_zlen; lia).
  assert (Hmem : memory st2 p = memory st p) by (destruct p as [b off|o'|us]; [apply memory_peek; unfold peek; by rewrite Hbl2|done|done]).
  assert (Hu2 : used ob2 = used ob) by (pose proof (v_packed _ _ _ _ _ _ _ _ _ Hv) as Hp1; pose proof (v_packed _ _ _ _ _ _ _ _ _ Hv2) as Hp2;
    rewrite (used_packed ob fl len Hp1), (used_packed ob2 fl len Hp2); rewrite (getArrayStart_packed o ob fl len Hp1), (getArrayStart_packed o ob2 fl len Hp2) in Eg2;
    destruct (v_exclusive _ _ _ _ _ _ _ _ _ Hv) as [[-> | ->]|? ? [-> | ->]|? ? ? ? ? [-> | ->]]; eval_flags; congruence).
  rewrite <- Eg2. destruct (view_copy w [] del st2 o ob2 fl _ len (Some p) (i + n) (i + zx) (zlen u - (i + n)) (slice u (i + n) (zlen u - (i + n))) Hv2) as (st3 & ob3 & E3 & Hv3 & Eg3 & Hfr3 & Hbl3); [lia|done|lia| |].
  { intros _. exists p. split; [done|]. rewrite (load_memory st st2) by done. apply Hload; lia. }
  exists st3, ob3, (splice a 0 (slice u 0 i)). split; [done|]. split; [done|]. split; [by rewrite ztake_splice_0; [unfold slice; by rewrite drop_0|lia]|]. split; [done|]. split; [done|]. split; [by eapply frame_trans|].
  intros b Hb. destruct (Hdel b Hb) as [a0 Ha0]. exists a0. assert (used ob <> Some b) by (by eapply view_not_freed). by rewrite Hbl3, Hbl2 by congruence.
Qed.

Lemma unchanged_outcome w st o ob u : closed st o ob u -> outcome w st o (UnicodeString.Str u) (Some st).
Proof. intros [Hwf Ho Hv]. exists st. split; [done|]. split; [done|]. split; [apply frame_refl|]. left. unfold value_at. by rewrite Ho. Qed.

Lemma doAppend_src w st o ob u src i x :
  closed st o ob u -> (forall b, writes ob = Some b -> w = Some b) -> src_ok st o w src i x -> zlen u + zlen x <= max_text ->
  outcome w st o (UnicodeString.Str (u ++ x)) (doAppend st o src i (zlen x)).
Proof.
  intros Hc Hw [->|(p & -> & Hsrc)] Hmax; [|by eapply doAppend_spec]. rewrite app_nil_r. unfold doAppend. rewrite (cl_obj _ _ _ _ Hc). cbn [mbind option_bind].
  change (zlen (@nil Z)) with 0. rewrite orb_true_r. destruct src; by eapply unchanged_outcome.
Qed.

Lemma replaced_pin u start len x : replaced (UnicodeString.Str u) (if start <? 0 then 0 else if zlen u <? start then zlen u else start) len x = replaced (UnicodeString.Str u) start len x.
Proof.
  unfold replaced, UnicodeString.pinIndices, UnicodeString.length. cbn [UnicodeString.units]. pose proof (zlen_nonneg u).
  destruct (Z.ltb_spec start 0); [by change (0 <? 0) with false; destruct (Z.ltb_spec (zlen u) 0); [lia|]|]. destruct (Z.ltb_spec (zlen u) start).
  - destruct (Z.ltb_spec (zlen u) 0); [lia|]. by rewrite Z.ltb_irrefl.
  - destruct (Z.ltb_spec start 0); [lia|]. destruct (Z.ltb_spec (zlen u) start); [lia|]. done.
Qed.

(** [doReplace] from where the array is made large enough. *)
Lemma replace_core w st o ob fl u src k i n x :
  closed st o ob u -> ok (blocks st) ob fl (zlen u) -> (forall b, writes ob = Some b -> w = Some b) -> src_ok st o w src k x -> 0 <= i -> 0 <= n -> i + n <= zlen u -> zlen u + zlen x <= max_text ->
  let newLength := zlen u - n + zlen x in
  let oldArray := if has_flag ob kUsingStackBuffer && (US_STACKBUF_SIZE <? newLength) then Some (Local (ztake (zlen u) (as_buffer (union ob)))) else getArrayStart o ob in
  outcome w st o (UnicodeString.Str (ztake i u ++ x ++ drop (Z.to_nat (i + n)) u))
    ('(st, ok, bufferToDelete) ← cloneArrayIfNeeded st o newLength (newLength + newLength / 4 + kGrowSize) false true false;
     if (ok : bool) then
       ob ← objs st !! o;
       let newArray := getArrayStart o ob in
       st ← move_text st oldArray newArray i n (zlen x) (zlen u);
       st ← us_arrayCopy st src k newArray i (zlen x);
       ob ← objs st !! o;
       let st := put st o (setLength ob newLength) in
       match bufferToDelete with Some b => free_block st b | None => Some st end
     else Some st).
Proof.
  intros Hc Hok Hw Hsrc Hi Hn Hl Hmax newLength oldArray. pose proof Hc as [Hwf Ho Hv]. pose proof (zlen_nonneg x). pose proof (zlen_nonneg u). unfold max_text in Hmax. pose proof (ok_packed _ _ _ _ Hok) as Hp.
  destruct (ok_text st o ob fl (zlen u) u Ho Hok Hv) as (_ & Hfl & Htext). assert (Hst : has_flag ob kUsingStackBuffer = (fl =? 2)) by (rewrite (packed_mask ob fl (zlen u)) by done; destruct Hfl as [->|[->|[->| ->]]]; done).
  assert (Hnl : 0 <= newLength <= 2 ^ 29) by (unfold newLength; lia). assert (Hm1 : (newLength =? -1) = false) by (apply Z.eqb_neq; lia).
  destruct (clone_spec w st o ob fl (zlen u) u newLength (newLength + newLength / 4 + kGrowSize) false true Hwf Ho Hok Hv Hw) as [(-> & a & Hview & Hf & Hnc & Eu)|[(st1 & del & ob1 & fl1 & a & len1 & -> & Hview & Hf & Hnc & Hfr & -> & _ & Hdel & Hpk & Hfresh & Hbig & _)|(st1 & -> & Href & Hwf1 & Hfr & Hval)]];
    rewrite ?Hm1 in *; [unfold max_capacity; lia|unfold max_capacity, kGrowSize; dlia|right; unfold kGrowSize; dlia|..]; cbn [mbind option_bind].
  - rewrite Ho. cbn [mbind option_bind]. cbn zeta.
    assert (oldArray = getArrayStart o ob) as ->.
    { unfold oldArray. rewrite Hst. destruct (Z.eqb_spec fl 2) as [->|]; [|done]. pose proof (exclusive_capacity _ _ _ _ _ Hp (v_exclusive _ _ _ _ _ _ _ _ _ Hview)) as Hcap.
      unfold getCapacity in Hcap. rewrite Hst in Hcap. change (2 =? 2) with true in Hcap. cbv iota in Hcap. destruct (Z.ltb_spec US_STACKBUF_SIZE newLength); [lia|done]. }
    destruct (move_within w st o ob fl a u i n (zlen x) Hview Eu) as (st2 & ob2 & -> & Hv2 & Eg2 & Hfr2); [lia..|]. cbn [mbind option_bind]. rewrite <- Eg2.
    eapply (replace_tail w st o st2 None); [exact Hv2|exact Hf| |lia..|done|by eapply src_frame|done].
    rewrite <- Eu. unfold ztake. rewrite take_take. f_equal. unfold zlen in *. lia.
  - rewrite (v_obj _ _ _ _ _ _ _ _ _ Hview). cbn [mbind option_bind]. cbn zeta.
    assert (Hold : exists p, oldArray = Some p /\ getArrayStart o ob1 <> Some p /\ (forall i n, 0 <= i -> 0 <= n -> i + n <= zlen u -> load st1 p i n = Some (slice u i n)) /\
      match p with InBlock b _ => used ob1 <> Some b | InObject _ => False | Local _ => True end).
    { unfold oldArray. rewrite Hst. destruct (Z.eqb_spec fl 2) as [->|Hne]; cbn [andb].
      - specialize (Hbig eq_refl). destruct (Z.ltb_spec US_STACKBUF_SIZE newLength); [|lia]. eexists. split; [done|]. split; [destruct Hfresh as [[-> _]|(b & -> & _)]; done|]. split; [|done].
        intros i' n' Hi' Hn' Hl'. change (2 =? 2) with true in Htext. cbv iota in Htext. rewrite <- Htext. unfold load, memory. cbn [mbind option_bind]. destruct (Z.leb_spec 0 i'), (Z.leb_spec (i' + n') (zlen u)); [done|lia..].
      - destruct Htext as (b & off & m & Ea & Hu & Hm & Hlm & Eu). assert (Hps : is_Some (peek (blocks st) b)) by (by eapply used_ok).
        assert (Hgs : getArrayStart o ob = Some (InBlock b off)) by (unfold getArrayStart; rewrite Hst; by destruct (Z.eqb_spec fl 2)). exists (InBlock b off). split; [done|].
        assert (Hnb : blocks st !! b <> None) by (intros Hnone; unfold peek in Hps; rewrite Hnone in Hps; by destruct Hps).
        split; [destruct Hfresh as [[-> _]|(b' & -> & _ & Hb')]; [done|intros [= -> _]; done]|]. split; [|destruct Hfresh as [[_ ->]|(b' & _ & -> & Hb')]; [done|intros [= ->]; done]].
        intros i' n' Hi' Hn' Hl'. rewrite (load_memory st st1) by (apply memory_peek, Hpk; auto). by eapply closed_load. }
    destruct Hold as (p & -> & Hpne & Hload & Hpu). destruct (move_out w del st1 o ob1 fl1 a 0 u p i n (zlen x) Hview Hpne Hload Hpu) as (st2 & ob2 & a2 & -> & Hv2 & Ei & Hz2 & Eg2 & Hfr2 & Hdel2); [lia..|done|].
    cbn [mbind option_bind]. rewrite <- Eg2. assert (Hfr12 : frame o w st st2) by (by eapply frame_trans).
    eapply (replace_tail w st o st2 del); [exact Hv2|destruct Hf; [by right; left|by right; right]|done|lia..|done|by eapply src_frame|done].
  - exists st1. split; [done|]. split; [done|]. split; [done|]. by right.
Qed.

Lemma doReplace_spec w st o ob u start len0 src k x :
  closed st o ob u -> (forall b, writes ob = Some b -> w = Some b) -> src_ok st o w src k x -> zlen u + zlen x <= max_text ->
  outcome w st o (replaced (UnicodeString.Str u) start len0 x) (doReplace st o start len0 src k (zlen x)).
Proof.
  intros Hc Hw Hsrc Hmax. pose proof Hc as [Hwf Ho Hv]. pose proof (zlen_nonneg x). pose proof (zlen_nonneg u). destruct (closed_ok st o ob u Hc) as (fl & Hok & Hfl). pose proof (ok_packed _ _ _ _ Hok) as Hp.
  unfold doReplace. rewrite Ho. cbn [mbind option_bind]. rewrite (closed_isWritable st o ob u Hc). cbn [negb]. rewrite (closed_length st o ob u Hc). set (readonly := has_flag ob kBufferIsReadonly && (zlen x =? 0)).
  destruct (if readonly then shrink_alias ob (zlen u) start len0 else None) as [ob'|] eqn:Eshrink.
  { destruct readonly eqn:Er; [|done]. apply andb_true_iff in Er as [Er Ex]. apply Z.eqb_eq, zlen_0_inv in Ex as ->. rewrite (packed_mask ob fl (zlen u)) in Er by done.
    assert (fl = 8) as -> by (destruct Hfl as [->|[->|[->| ->]]]; done). by eapply shrink_spec. }
  clear Eshrink. set (start' := if readonly then pinIndex ob start else start).
  assert (replaced (UnicodeString.Str u) start len0 x = replaced (UnicodeString.Str u) start' len0 x) as ->.
  { unfold start', pinIndex. destruct readonly; [|done]. by rewrite (closed_length st o ob u Hc), replaced_pin. }
  clearbody start' readonly. clear start. destruct (Z.eqb_spec start' (zlen u)) as [->|Hne].
  { assert (replaced (UnicodeString.Str u) (zlen u) len0 x = UnicodeString.Str (u ++ x)) as ->; [|by eapply doAppend_src].
    unfold replaced, UnicodeString.pinIndices, UnicodeString.length. cbn [UnicodeString.units]. destruct (Z.ltb_spec (zlen u) 0); [lia|]. rewrite Z.ltb_irrefl, Z.sub_diag.
    assert ((if len0 <? 0 then 0 else if 0 <? len0 then 0 else len0) = 0) as -> by (repeat zcase; lia). rewrite Z.add_0_r, ztake_all, drop_ge by (unfold zlen; lia). by rewrite app_nil_r. }
  assert (Hpick : exists k', match src with None => Some (0, 0) | Some p => if zlen x <? 0 then n ← strlen_at st p k; Some (k, n) else Some (k, zlen x) end = Some (k', zlen x) /\ src_ok st o w src k' x).
  { destruct src as [p|]; [exists k; destruct (Z.ltb_spec (zlen x) 0); [lia|done]|]. destruct Hsrc as [->|(p & ? & _)]; [|done]. exists 0. split; [done|by left]. }
  destruct Hpick as (k' & -> & Hsrc'). cbn [mbind option_bind]. rewrite (closed_pinIndices st o ob u start' len0 Hc). unfold replaced.
  destruct (UnicodeString.pinIndices (UnicodeString.Str u) start' len0) as [i n] eqn:Epin. apply pinIndices_range in Epin as (Hi & Hn & Hl). unfold UnicodeString.length in Hl. cbn [UnicodeString.units] in Hl.
  unfold max_text in *. rewrite checked_in by (unfold INT32_MIN, INT32_MAX; lia). cbn [mbind option_bind]. unfold growth. rewrite Z.shiftr_div_pow2 by lia. change (2 ^ 2) with 4.
  rewrite checked_in by (unfold INT32_MIN, INT32_MAX, kGrowSize; dlia). cbn [mbind option_bind]. cbn zeta. by apply (replace_core w st o ob fl u src k' i n x).
Qed.

(** ** With another object as the source *)

(** The units of a pinned range. *)
Definition part (v : UnicodeString.t) (start len : Z) : list Z := let '(i, n) := UnicodeString.pinIndices v start len in slice (UnicodeString.units v) i n.

Definition appended (v : UnicodeString.t) (x : list Z) : UnicodeString.t := match v with UnicodeString.Bogus => UnicodeString.Bogus | UnicodeString.Str u => UnicodeString.Str (u ++ x) end.

(** Memory of the caller that an object writes to. *)
Definition alias_of (st : store) (o : nat) : option nat := ob ← objs st !! o; writes ob.

Lemma alias_writes st o ob b : objs st !! o = Some ob -> writes ob = Some b -> alias_of st o = Some b.
Proof. unfold alias_of. by intros ->. Qed.

Lemma bogus_at st o : wf st -> value_at st o = Some (Closed UnicodeString.Bogus) -> exists ob, objs st !! o = Some ob /\ packed ob kIsBogus 0 /\ ok (blocks st) ob kIsBogus 0.
Proof.
  intros Hwf Hv. unfold value_at in Hv. destruct (objs st !! o) as [ob|] eqn:Ho; [|done]. exists ob. split; [done|]. cbn [mbind option_bind] in Hv.
  destruct (wf_focus st o ob Hwf Ho) as (_ & _ & fl & len & Hok). pose proof (ok_packed _ _ _ _ Hok) as Hp. unfold value_of, isBogus in Hv. rewrite !(packed_mask ob fl len) in Hv by (done || cbn; lia).
  destruct Hok as [|? ? [-> | ->]|? ? ? ? [-> | ->]|? ? ? ? ? [->|[-> | ->]]]; eval_flags; try done; try (by split; [|apply ok_bogus]).
  all: exfalso; destruct (getArrayStart o ob) as [p|]; [|done]; cbn [mbind option_bind] in Hv; destruct (memory st p); done.
Qed.

Lemma outcome_bogus w st o : wf st -> value_at st o = Some (Closed UnicodeString.Bogus) -> outcome w st o UnicodeString.Bogus (Some st).
Proof. intros Hwf Hv. exists st. split; [done|]. split; [done|]. split; [apply frame_refl|by left]. Qed.

Lemma bogus_isWritable ob : packed ob kIsBogus 0 -> isWritable ob = false.
Proof. intros Hp. unfold isWritable. by rewrite (packed_mask ob kIsBogus 0) by done. Qed.

Lemma doAppend_at st o v src k x :
  wf st -> value_at st o = Some (Closed v) -> src_ok st o (alias_of st o) src k x -> UnicodeString.length v + zlen x <= max_text ->
  outcome (alias_of st o) st o (appended v x) (doAppend st o src k (zlen x)).
Proof.
  intros Hwf Hv Hsrc Hmax. destruct v as [|u].
  - destruct (bogus_at st o Hwf Hv) as (ob & Ho & Hp & _). unfold doAppend. rewrite Ho. cbn [mbind option_bind]. rewrite (bogus_isWritable ob Hp). cbn [negb orb]. destruct src; by apply outcome_bogus.
  - destruct (closed_at st o u Hwf Hv) as (ob & Hc). eapply doAppend_src; [exact Hc|intros b; by apply alias_writes, Hc|done|done].
Qed.

Lemma doReplace_at st o v start len0 src k x :
  wf st -> value_at st o = Some (Closed v) -> src_ok st o (alias_of st o) src k x -> UnicodeString.length v + zlen x <= max_text ->
  outcome (alias_of st o) st o (replaced v start len0 x) (doReplace st o start len0 src k (zlen x)).
Proof.
  intros Hwf Hv Hsrc Hmax. destruct v as [|u].
  - destruct (bogus_at st o Hwf Hv) as (ob & Ho & Hp & _). unfold doReplace. rewrite Ho. cbn [mbind option_bind]. rewrite (bogus_isWritable ob Hp). by apply outcome_bogus.
  - destruct (closed_at st o u Hwf Hv) as (ob & Hc). eapply doReplace_spec; [exact Hc|intros b; by apply alias_writes, Hc|done|done].
Qed.

Lemma part_zlen v start len i n : UnicodeString.pinIndices v start len = (i, n) -> part v start len = slice (UnicodeString.units v) i n /\ zlen (part v start len) = n.
Proof. intros E. unfold part. rewrite E. apply pinIndices_range in E as (Hi & Hn & Hl). split; [done|]. by apply slice_zlen. Qed.

(** A range of the source, read through its array pointer. *)
Lemma source_of w st o src v start len :
  wf st -> src <> o -> value_at st src = Some (Closed v) ->
  exists s k, objs st !! src = Some s /\ length s = UnicodeString.length v /\ pinIndices s start len = (k, zlen (part v start len)) /\ src_ok st o w (getArrayStart src s) k (part v start len).
Proof.
  intros Hwf Hne Hv. destruct (UnicodeString.pinIndices v start len) as [i n] eqn:Epin. destruct (part_zlen v start len i n Epin) as [Ep Ez]. pose proof (pinIndices_range _ _ _ _ _ Epin) as (Hi & Hn & Hl). destruct v as [|u].
  - destruct (bogus_at st src Hwf Hv) as (s & Ho & Hp & _). exists s, i. rewrite Ez. pose proof (packed_length _ _ _ Hp) as Hlen. split_and!; auto; [unfold pinIndices; rewrite Hlen; exact Epin|]. left. apply zlen_0_inv. rewrite Ez. change (UnicodeString.length UnicodeString.Bogus) with 0 in Hl. lia.
  - destruct (closed_at st src u Hwf Hv) as (s & Hc). exists s, i. split; [apply Hc|]. split; [by apply (closed_length st src s u)|]. split; [by rewrite (closed_pinIndices st src s u), Ez|].
    right. destruct (closed_source w st o src s u i n Hc Hne Hi Hn Hl) as (p & Egs & Hp). exists p. rewrite Ep. auto.
Qed.

Lemma doAppend_str_spec st o src v s start len :
  wf st -> src <> o -> value_at st o = Some (Closed v) -> value_at st src = Some (Closed s) -> UnicodeString.length v + UnicodeString.length s <= max_text ->
  outcome (alias_of st o) st o (appended v (part s start len)) (doAppend_str st o src start len).
Proof.
  intros Hwf Hne Hv Hs Hmax. destruct (source_of (alias_of st o) st o src s start len Hwf Hne Hs) as (ob & k & Ho & Hlen & Epin & Hsrc). unfold doAppend_str.
  assert (Hpart : zlen (part s start len) <= UnicodeString.length s).
  { destruct (UnicodeString.pinIndices s start len) as [i n] eqn:E. destruct (part_zlen s start len i n E) as [_ ->]. apply pinIndices_range in E. lia. }
  destruct (Z.eqb_spec len 0) as [->|_]; [|rewrite Ho; cbn [mbind option_bind]; rewrite Epin; apply doAppend_at; auto; lia].
  assert (part s start 0 = []) as ->.
  { apply zlen_0_inv. destruct (UnicodeString.pinIndices s start 0) as [i n] eqn:E. destruct (part_zlen s start 0 i n E) as [_ ->]. pose proof (pinIndices_range _ _ _ _ _ E). unfold UnicodeString.pinIndices in E.
    injection E as Ei En. rewrite Ei in En. change (0 <? 0) with false in En. cbv iota in En. zcase_in En; lia. }
  destruct v as [|u]; [by apply outcome_bogus|]. destruct (closed_at st o u Hwf Hv) as (ob' & Hc). cbn [appended]. rewrite app_nil_r. by eapply unchanged_outcome.
Qed.

Lemma doReplace_str_spec st o src v s start len srcStart srcLength :
  wf st -> src <> o -> value_at st o = Some (Closed v) -> value_at st src = Some (Closed s) -> UnicodeString.length v + UnicodeString.length s <= max_text ->
  outcome (alias_of st o) st o (replaced v start len (part s srcStart srcLength)) (doReplace_str st o start len src srcStart srcLength).
Proof.
  intros Hwf Hne Hv Hs Hmax. destruct (source_of (alias_of st o) st o src s srcStart srcLength Hwf Hne Hs) as (ob & k & Ho & Hlen & Epin & Hsrc). unfold doReplace_str. rewrite Ho. cbn [mbind option_bind]. rewrite Epin.
  apply doReplace_at; auto. destruct (UnicodeString.pinIndices s srcStart srcLength) as [i n] eqn:E. destruct (part_zlen s srcStart srcLength i n E) as [_ ->]. apply pinIndices_range in E. lia.
Qed.
End Edit.
End StringEditFacts.
