(* ===== verification/StringCopyFacts.v ===== *)
(** * Copying, moving and destroying strings

    Assignment shares a counted array or copies the text; in each case the target has the value of
    the source and the source keeps its own.  A destroyed string gives up its reference, and the
    last one frees the array. *)

From S2P Require Import Prelude Utf16 UString StringStore StringEdit StringStoreFacts StringCloneFacts StringEditFacts.

Module StringCopyFacts.
Import StringStore StringEdit StringStoreFacts StringCloneFacts StringEditFacts.

Section Copy.
Context `{HP : Heap}.

(** ** One more reference *)

Lemma increment st o b hs a :
  rest_of st o hs None -> peek (blocks st) b = Some (true, a) ->
  exists st' n, change_refs st b 1 = Some (st', n) /\ objs st' = objs st /\ rest_of st' o (b :: hs) None /\ (forall c, peek (blocks st') c = peek (blocks st) c).
Proof.
  intros Hr Hp. destruct (peek_counted _ _ _ Hp) as (n & Hb). unfold change_refs. rewrite Hb. cbn [mbind option_bind refs cells].
  eexists _, _. split; [done|]. split; [done|]. assert (Hpk : forall c, peek (<[b := mk_block (Some (n + 1)) a]> (blocks st)) c = peek (blocks st) c) by (intros c; by apply (peek_recount (blocks st) b n _ a)).
  split; [|exact Hpk]. unfold rest_of. cbn [objs blocks next_block put_block]. eapply rest_blocks; [exact Hr|..].
  - intros c o' ob' _ _. apply Hpk.
  - intros c m a' [[<- [= <- <-]]|[Hne Hc]]%lookup_insert_Some.
    + destruct (re_refs _ _ _ _ _ Hr b n a Hb) as [E [Hpos|]]; [|done]. rewrite occ_cons, bool_decide_true by done. lia.
    + rewrite occ_cons, bool_decide_false, Z.add_0_r by done. by apply (re_refs _ _ _ _ _ Hr c m a').
  - intros c Hc. apply (re_next _ _ _ _ _ Hr). eapply is_Some_insert_block; [by eexists|exact Hc].
  - intros c [->|Hc]%elem_of_cons; [by rewrite lookup_insert_eq|]. by apply insert_block_is_Some, (re_holds _ _ _ _ _ Hr).
Qed.

(** ** Objects with the members of another *)

(** [share ob s]: the array members of [s]. *)
Definition shared (ob s : obj) : obj :=
  let ob := set_array (set_flags ob (fLengthAndFlags s)) (fArray_of s) (fCapacity_of s) in if hasShortLength ob then ob else set_fLength ob (fLength_of s).

Lemma packed_shared ob s fl len : packed s fl len -> packed (shared ob s) fl len.
Proof.
  intros [Hs Hn Hf Hl]. unfold shared, hasShortLength. cbn [set_array set_flags fLengthAndFlags]. rewrite Hf, pack_sign by (done || by apply storage_range).
  destruct (Z.leb_spec len kMaxShortLength); split; auto; lia.
Qed.

Lemma fArray_shared ob s : fArray_of (shared ob s) = fArray_of s.
Proof. unfold shared. by destruct (hasShortLength _). Qed.
Lemma fCapacity_shared ob s : fCapacity_of (shared ob s) = fCapacity_of s.
Proof. unfold shared. by destruct (hasShortLength _). Qed.

(** A copy of the units of a short string. *)
Definition short_copy (ob s : obj) : obj :=
  mk_obj (fLengthAndFlags s) (fStackFields (splice (as_buffer (union ob)) 0 (ztake (getShortLength (set_flags ob (fLengthAndFlags s))) (as_buffer (union s))))).

Lemma short_copy_spec ob s fl len :
  fl = 2 \/ fl = 18 -> packed s fl len -> len <= US_STACKBUF_SIZE -> zlen (as_buffer (union s)) = US_STACKBUF_SIZE -> zlen (as_buffer (union ob)) = US_STACKBUF_SIZE ->
  packed (short_copy ob s) fl len /\ zlen (as_buffer (union (short_copy ob s))) = US_STACKBUF_SIZE /\ ztake len (as_buffer (union (short_copy ob s))) = ztake len (as_buffer (union s)).
Proof.
  intros Hf Hp Hl Hs Ho. pose proof Hp as [Hst Hn Hfl _]. unfold US_STACKBUF_SIZE in *. assert (E : getShortLength (set_flags ob (fLengthAndFlags s)) = len).
  { unfold getShortLength. cbn [set_flags fLengthAndFlags]. rewrite Hfl. apply pack_shift; [by apply storage_range|unfold kMaxShortLength; lia]. }
  unfold short_copy. rewrite E. cbn [union as_buffer]. assert (Hz : zlen (ztake len (as_buffer (union s))) = len) by (apply zlen_ztake; lia). split_and!.
  - split; auto. unfold kMaxShortLength. lia.
  - rewrite splice_zlen; lia.
  - by apply ztake_splice_0.
Qed.

Lemma value_short st o ob len : packed ob 2 len -> value_at (put st o ob) o = Some (Closed (UnicodeString.Str (ztake len (as_buffer (union ob))))).
Proof.
  intros Hp. unfold value_at. cbn [put objs]. rewrite lookup_insert_eq. cbn [mbind option_bind]. unfold value_of, isBogus. rewrite !(packed_mask ob 2 len) by (done || cbn; lia). eval_flags.
  rewrite (getArrayStart_packed o ob 2 len Hp). eval_flags. cbn [mbind option_bind]. unfold memory. cbn [put objs]. rewrite lookup_insert_eq. cbn [mbind option_bind]. by rewrite (packed_length ob 2 len Hp).
Qed.

(** The same array at the same length has the same value. *)
Lemma value_shared st st' o o' ob s fl len :
  packed s fl len -> packed ob fl len -> Z.land fl 2 = 0 -> fArray_of ob = fArray_of s -> (forall p, fArray_of s = Some p -> memory st' p = memory st p) -> value_of st' o ob = value_of st o' s.
Proof.
  intros Hs Hp Hf Ea Hm. unfold value_of, isBogus. rewrite !(packed_mask ob fl len), !(packed_mask s fl len) by (done || cbn; lia). rewrite (getArrayStart_packed o ob fl len Hp), (getArrayStart_packed o' s fl len Hs).
  rewrite (packed_length ob fl len Hp), (packed_length s fl len Hs), Hf, Ea. change (negb (0 =? 0)) with false. cbv iota. destruct (fArray_of s) as [p|]; [|done]. cbn [mbind option_bind]. by rewrite Hm.
Qed.

(** ** Assignment *)

Lemma outcome_put w st st1 o ob v : frame o w st st1 -> wf (put st1 o ob) -> value_at (put st1 o ob) o = Some (Closed v) -> outcome w st o v (Some (put st1 o ob)).
Proof. intros Hfr Hwf Hv. exists (put st1 o ob). split; [done|]. split; [done|]. split; [eapply frame_trans; [exact Hfr|apply frame_put]|by left]. Qed.

(** Sharing a counted array. *)
Lemma share_long w st st1 o ob src s u :
  frame o w st st1 -> rest_of st1 o [] None -> delete o (objs st1) !! src = Some s -> ok (blocks st1) s 4 (zlen u) -> value_of st1 src s = Some (Closed (UnicodeString.Str u)) ->
  outcome w st o (UnicodeString.Str u) (st ← addRef st1 s; Some (put st o (shared ob s))).
Proof.
  intros Hfr Hr Hs Hok Hv. pose proof (ok_packed _ _ _ _ Hok) as Hp. destruct (ok_4 _ _ _ Hok) as (b & a & Ea & Epk & Ec & Hl). unfold addRef. rewrite Ea, the_block_0. cbn [mbind option_bind].
  destruct (increment st1 o b [] a Hr Epk) as (st2 & n & -> & Eo & Hr2 & Hpk). cbn [mbind option_bind]. pose proof (packed_shared ob s 4 _ Hp) as Hp2. pose proof (fArray_shared ob s) as Ea2. rewrite Ea in Ea2.
  apply outcome_put.
  - eapply frame_trans; [exact Hfr|]. split; [by rewrite Eo|auto].
  - apply (wf_put st2 o (shared ob s) 4 (zlen u)).
    + by rewrite (holds_packed _ 4 _ Hp2), Ea2.
    + rewrite Eo. intros o2 ob2 c H2. rewrite (writes_packed _ 4 _ Hp2), (used_packed _ 4 _ Hp2), Ea2. split; [done|]. intros Hw2 E. cbn in E. injection E as ->. destruct (decide (o2 = src)) as [->|Hne].
      * assert (ob2 = s) as -> by congruence. by rewrite (writes_packed _ 4 _ Hp) in Hw2.
      * apply (re_alias _ _ _ _ _ Hr o2 src ob2 s c Hne H2 Hs Hw2). by rewrite (used_packed _ 4 _ Hp), Ea.
    + eapply (ok_long _ _ 4 _ b a); auto; [by rewrite Hpk|by rewrite fCapacity_shared].
  - unfold value_at. cbn [put objs]. rewrite lookup_insert_eq. cbn [mbind option_bind]. rewrite <- Hv. apply (value_shared _ _ _ _ _ _ 4 (zlen u)); auto; [congruence|].
    rewrite Ea. intros p [= <-]. apply memory_peek. cbn [blocks put]. apply Hpk.
Qed.

(** Sharing memory of the caller that is only read. *)
Lemma share_alias w st st1 o ob src s u :
  frame o w st st1 -> rest_of st1 o [] None -> delete o (objs st1) !! src = Some s -> ok (blocks st1) s 8 (zlen u) -> value_of st1 src s = Some (Closed (UnicodeString.Str u)) ->
  outcome w st o (UnicodeString.Str u) (Some (put st1 o (shared ob s))).
Proof.
  intros Hfr Hr Hs Hok Hv. pose proof (ok_packed _ _ _ _ Hok) as Hp. destruct (ok_8 _ _ _ Hok) as (b & off & a & Ea & Epk & Hoff & Hoc & Hl).
  destruct (put_alias st1 o (shared ob s) (zlen u) b off a Hr) as [Hwf _]; [by apply packed_shared|by rewrite fArray_shared|done|done|by rewrite fCapacity_shared|by rewrite fCapacity_shared| |].
  { intros o2 ob2 H2 Hw2. destruct (decide (o2 = src)) as [->|Hne].
    - assert (ob2 = s) as -> by congruence. by rewrite (writes_packed _ 8 _ Hp) in Hw2.
    - apply (re_alias _ _ _ _ _ Hr o2 src ob2 s b Hne H2 Hs Hw2). by rewrite (used_packed _ 8 _ Hp), Ea. }
  apply outcome_put; [done|done|]. unfold value_at. cbn [put objs]. rewrite lookup_insert_eq. cbn [mbind option_bind]. rewrite <- Hv.
  apply (value_shared _ _ _ _ _ _ 8 (zlen u)); auto; [by apply packed_shared|by rewrite fArray_shared|]. rewrite Ea. by intros p [= <-].
Qed.

(** Copying memory of the caller into an array of its own. *)
Lemma copy_alias w st st1 o ob src s fl u :
  frame o w st st1 -> rest_of st1 o [] None -> objs st1 !! o = Some ob -> zlen (as_buffer (union ob)) = US_STACKBUF_SIZE -> o <> src -> objs st1 !! src = Some s -> fl = 8 \/ fl = 0 ->
  ok (blocks st1) s fl (zlen u) -> value_of st1 src s = Some (Closed (UnicodeString.Str u)) -> zlen u <= max_capacity ->
  outcome w st o (UnicodeString.Str u)
    ('(st, ok) ← allocate (put st1 o (set_flags ob (fLengthAndFlags s))) o (zlen u);
     if (ok : bool) then
       ob' ← objs st !! o;
       st ← us_arrayCopy st (getArrayStart src s) 0 (getArrayStart o ob') 0 (zlen u);
       ob' ← objs st !! o; Some (put st o (setLength ob' (zlen u)))
     else setBogusFields st o).
Proof.
  intros Hfr Hr Ho Hbuf Hne Hs Hfl Hok Hv Hmax. pose proof (zlen_nonneg u). destruct (ok_text st1 src s fl (zlen u) u Hs Hok Hv) as (_ & _ & Ht). assert (fl =? 2 = false) as E2 by (destruct Hfl as [-> | ->]; done).
  rewrite E2 in Ht. destruct Ht as (b & off & m & Ea & Hu & Hm & Hl & Eu). pose proof (ok_packed _ _ _ _ Hok) as Hp.
  assert (Egs : getArrayStart src s = Some (InBlock b off)) by (rewrite (getArrayStart_packed src s fl _ Hp), Ea; destruct Hfl as [-> | ->]; done). rewrite Egs.
  set (ob0 := set_flags ob (fLengthAndFlags s)). assert (Hfr0 : frame o w st (put st1 o ob0)) by (eapply frame_trans; [exact Hfr|apply frame_put]).
  destruct (allocate_spec w (put st1 o ob0) o ob0 [] (zlen u)) as [(st2 & ob2 & fl2 & a & -> & Hv2 & Hf2 & Ha & Hfr2 & Hpk & _)|[-> Href]]; [cbn; by rewrite lookup_insert_eq|done|by apply rest_put|done|..]; cbn [mbind option_bind].
  - rewrite (v_obj _ _ _ _ _ _ _ _ _ Hv2). cbn [mbind option_bind].
    destruct (view_copy w [] None st2 o ob2 fl2 a 0 (Some (InBlock b off)) 0 0 (zlen u) u Hv2) as (st3 & ob3 & -> & Hv3 & _ & Hfr3 & _); [lia|done|lia| |].
    { intros _. exists (InBlock b off). split; [done|]. rewrite <- (ztake_all u) at 2. eapply load_prefix; [|exact Hl|exact Eu|done|lia]. rewrite <- Hm. apply memory_peek. rewrite Hpk; [done|]. cbn [blocks put]. by eapply used_ok. }
    cbn [mbind option_bind]. rewrite (v_obj _ _ _ _ _ _ _ _ _ Hv3). cbn [mbind option_bind]. assert (Hz : zlen (splice a 0 u) = zlen a) by (apply splice_zlen; lia).
    destruct (view_setLength w [] None st3 o ob3 fl2 _ 0 (zlen u) Hv3) as [Hv4 _]; [lia|].
    eapply view_outcome; [exact Hv4|destruct Hf2; [by right; left|by right; right]|eapply frame_trans; [exact Hfr0|eapply frame_trans; [exact Hfr2|eapply frame_trans; [exact Hfr3|apply frame_put]]]|by rewrite ztake_splice_0].
  - unfold setBogusFields. cbn [put objs]. rewrite lookup_insert_eq. cbn [mbind option_bind]. change (set_flags (set_array ?x None 0) kIsBogus) with (bogus_of x). change (mk_store _ _ _) with (put (put (put st1 o ob0) o (bogus_of ob0)) o (bogus_of (bogus_of ob0))). rewrite !put_put.
    destruct (put_bogus st1 o (bogus_of ob0) Hr) as [Hwf Hval]. exists (put st1 o (bogus_of (bogus_of ob0))). split; [done|]. split; [done|]. split; [eapply frame_trans; [exact Hfr|apply frame_put]|by right].
Qed.

Lemma copyFrom_spec w st o src v fastCopy :
  wf st -> o <> src -> is_Some (objs st !! o) -> value_at st src = Some (Closed v) -> UnicodeString.length v <= max_capacity -> outcome w st o v (copyFrom st o src fastCopy).
Proof.
  intros Hwf Hne [ob Ho] Hv Hmax. unfold copyFrom. destruct (Nat.eqb_spec o src); [done|]. destruct (wf_focus st o ob Hwf Ho) as (Hr & Hap & flo & leno & Hoko). pose proof (ok_buffer _ _ _ _ Hoko) as Hbuf. destruct v as [|u].
  - destruct (bogus_at st src Hwf Hv) as (s & Hs & Hp & _). rewrite Hs. cbn [mbind option_bind]. unfold isBogus. rewrite (packed_mask s kIsBogus 0 _ Hp) by done. eval_flags.
    destruct (setToBogus_store w st o ob flo leno Ho Hr Hoko) as (st' & -> & Hwf' & Hfr & Hval). exists st'. auto.
  - destruct (closed_at st src u Hwf Hv) as (s & Hc). pose proof Hc as [_ Hs Hvs]. rewrite Hs. cbn [mbind option_bind]. destruct (closed_ok st src s u Hc) as (fl & Hok & Hfl). pose proof (ok_packed _ _ _ _ Hok) as Hp.
    assert (isBogus s = false) as -> by (unfold isBogus; rewrite (packed_mask s fl (zlen u)) by done; destruct Hfl as [->|[->|[->| ->]]]; done). rewrite Ho. cbn [mbind option_bind].
    destruct (release_spec w st o ob flo leno Hr Hoko) as (st1 & -> & Eo & Hr1 & Hfr1). cbn [mbind option_bind]. rewrite (packed_isEmpty s fl _ Hp). destruct (Z.eqb_spec (zlen u) 0) as [Hz|Hz].
    { apply zlen_0_inv in Hz as ->. destruct (put_empty st1 o ob Hr1 Hbuf). by apply outcome_put. }
    assert (Hs1 : delete o (objs st1) !! src = Some s) by (by rewrite Eo, lookup_delete_ne).
    assert (Hused : forall b, used s = Some b -> peek (blocks st1) b = peek (blocks st) b) by (intros b Hb; apply (fr_blocks _ _ _ _ Hfr1); left; exists src, s; by rewrite lookup_delete_ne).
    assert (Hok1 : ok (blocks st1) s fl (zlen u)) by (eapply ok_peek; [exact Hused|done]).
    assert (Hv1 : value_of st1 src s = Some (Closed (UnicodeString.Str u))) by (rewrite <- Hvs; apply value_of_peek; [by exists fl, (zlen u)|done|by rewrite Eo|done]).
    rewrite (pk_flags _ _ _ Hp), land_pack by (apply storage_range, Hp || apply Hp). rewrite <- (pk_flags _ _ _ Hp). destruct Hfl as [->|[->|[->| ->]]].
    + change (0 =? kShortString) with false. change (0 =? kLongString) with false. change (0 =? kReadonlyAlias) with false. change (0 =? kWritableAlias) with true. cbv iota. cbn [andb orb].
      rewrite (packed_length s 0 _ Hp). eapply (copy_alias w st st1 o ob src s 0); auto; by rewrite Eo.
    + change (2 =? kShortString) with true. cbv iota. pose proof (ok_2 _ _ _ Hok). destruct (short_copy_spec ob s 2 (zlen u)) as (Hp2 & Hb2 & Et); [by left|done|done|by eapply ok_buffer|done|].
      change (mk_obj _ _) with (short_copy ob s). destruct (ok_text st src s 2 (zlen u) u Hs Hok Hvs) as (_ & _ & Ht). change (2 =? 2) with true in Ht. cbv iota in Ht.
      apply outcome_put; [done|apply (wf_plain st1 o _ 2 (zlen u)); [done|done|done|apply ok_short; [by left|done|done|done]]|]. rewrite (value_short st1 o _ (zlen u) Hp2). by rewrite Et, <- Ht.
    + change (4 =? kShortString) with false. change (4 =? kLongString) with true. cbv iota. fold (shared ob s). by apply (share_long w st st1 o ob src s u).
    + change (8 =? kShortString) with false. change (8 =? kLongString) with false. change (8 =? kReadonlyAlias) with true. cbv iota. cbn [andb orb]. destruct fastCopy.
      * by apply (share_alias w st st1 o ob src s u).
      * rewrite (packed_length s 8 _ Hp). eapply (copy_alias w st st1 o ob src s 8); auto; by rewrite Eo.
Qed.

(** ** Construction and destruction *)

Lemma rest_new st o : wf st -> objs st !! o = None -> rest_of st o [] None.
Proof. intros Hwf Ho. unfold rest_of. by rewrite delete_id. Qed.

Lemma new_empty_spec w st o : wf st -> objs st !! o = None -> outcome w st o (UnicodeString.Str []) (Some (new_empty st o)).
Proof.
  intros Hwf Ho. pose proof (rest_new st o Hwf Ho) as Hr. unfold new_empty. change (fresh_obj kShortString) with (setToEmpty (fresh_obj kShortString)). destruct (put_empty st o (fresh_obj kShortString) Hr eq_refl) as [Hwf' Hv].
  apply outcome_put; [apply frame_refl|done|done].
Qed.

Lemma new_copy_spec w st o src v :
  wf st -> objs st !! o = None -> value_at st src = Some (Closed v) -> UnicodeString.length v <= max_capacity -> outcome w st o v (new_copy st o src).
Proof.
  intros Hwf Ho Hv Hmax. assert (Hne : src <> o) by (intros ->; unfold value_at in Hv; by rewrite Ho in Hv). destruct (new_empty_spec w st o Hwf Ho) as (st1 & [= <-] & Hwf1 & Hfr & _).
  destruct (copyFrom_spec w (new_empty st o) o src v false Hwf1) as (st2 & E & Hwf2 & Hfr2 & Hv2); [done|cbn; by rewrite lookup_insert_eq|by rewrite (frame_value o w st)|done|].
  exists st2. split; [done|]. split; [done|]. split; [by eapply frame_trans|done].
Qed.

Lemma destroy_spec w st o : wf st -> is_Some (objs st !! o) -> exists st', destroy st o = Some st' /\ wf st' /\ objs st' = delete o (objs st) /\ frame o w st st'.
Proof.
  intros Hwf [ob Ho]. destruct (wf_focus st o ob Hwf Ho) as (Hr & _ & fl & len & Hok). unfold destroy. rewrite Ho. cbn [mbind option_bind].
  destruct (release_spec w st o ob fl len Hr Hok) as (st1 & -> & Eo & Hr1 & Hfr). cbn [mbind option_bind]. eexists. split; [done|]. split; [exact Hr1|]. cbn [objs]. split; [by rewrite Eo|].
  destruct Hfr as [Hf1 Hf2]. split; [cbn [objs]; by rewrite delete_delete_eq|done].
Qed.

(** ** Moving and swapping *)

(** [ob] has the flags, the length and the text of [s]. *)
Record alike (ob s : obj) (fl len : Z) : Prop := {
  al_packed : packed ob fl len;
  al_buffer : zlen (as_buffer (union ob)) = US_STACKBUF_SIZE;
  al_text : if negb (Z.land fl 2 =? 0) then ztake len (as_buffer (union ob)) = ztake len (as_buffer (union s)) else fArray_of ob = fArray_of s /\ fCapacity_of ob = fCapacity_of s
}.

Lemma alike_trans ob1 ob2 ob3 fl len : alike ob1 ob2 fl len -> alike ob2 ob3 fl len -> alike ob1 ob3 fl len.
Proof. intros [P1 B1 T1] [P2 B2 T2]. split; auto. destruct (negb _); [congruence|]. destruct T1, T2. split; congruence. Qed.

Lemma alike_ok bs ob s fl len : ok bs s fl len -> alike ob s fl len -> ok bs ob fl len.
Proof.
  intros Hok [Hp Hb Ht]. destruct Hok as [|? ? Hf|? ? b a Hf _ Ea|? ? b off a Hf _ Ea].
  - by apply ok_bogus.
  - by apply ok_short.
  - assert (fArray_of ob = fArray_of s /\ fCapacity_of ob = fCapacity_of s) as [E1 E2] by (destruct Hf as [-> | ->]; exact Ht). eapply ok_long; eauto; congruence.
  - assert (fArray_of ob = fArray_of s /\ fCapacity_of ob = fCapacity_of s) as [E1 E2] by (destruct Hf as [->|[-> | ->]]; exact Ht). eapply ok_alias; eauto; [congruence|rewrite E2; done|rewrite E2; done].
Qed.

Lemma alike_blocks ob s fl len : packed s fl len -> alike ob s fl len -> used ob = used s /\ owned ob = owned s /\ writes ob = writes s.
Proof.
  intros Hs [Hp _ Ht]. rewrite (used_packed ob fl len Hp), (owned_packed ob fl len Hp), (writes_packed ob fl len Hp), (used_packed s fl len Hs), (owned_packed s fl len Hs), (writes_packed s fl len Hs).
  destruct (pk_storage _ _ _ Hp) as [->|[->|[->|[->|[->|[->|[->| ->]]]]]]]; eval_flags; try destruct Ht as [-> _]; done.
Qed.

Lemma alike_holds ob s fl len : packed s fl len -> alike ob s fl len -> holds ob = holds s.
Proof. intros Hs Ha. destruct (alike_blocks ob s fl len Hs Ha) as (_ & E & _). unfold holds. by rewrite E. Qed.

Lemma copyFields_alike bs ob s fl len b : ok bs s fl len -> zlen (as_buffer (union ob)) = US_STACKBUF_SIZE -> alike (copyFieldsFrom ob s false b).1 s fl len.
Proof.
  intros Hok Hb. pose proof (ok_packed _ _ _ _ Hok) as Hp. unfold copyFieldsFrom. change (has_flag (set_flags ob (fLengthAndFlags s)) kUsingStackBuffer) with (has_flag s kUsingStackBuffer).
  rewrite (packed_mask s fl len) by done. destruct (negb (Z.land fl kUsingStackBuffer =? 0)) eqn:E; cbn [fst].
  - change (mk_obj _ _) with (short_copy ob s). pose proof (ok_buffer _ _ _ _ Hok) as Hbs. assert (Hf : (fl = 2 \/ fl = 18) /\ len <= US_STACKBUF_SIZE) by (destruct Hok as [|? ? [-> | ->]|? ? ? ? [-> | ->]|? ? ? ? ? [->|[-> | ->]]]; eval_flags; auto; done).
    destruct (short_copy_spec ob s fl len) as (Hp2 & Hb2 & Et); [tauto..|]. split; auto. change 2 with kUsingStackBuffer. by rewrite E.
  - change (if hasShortLength _ then _ else _) with (shared ob s). split; [by apply packed_shared| |change 2 with kUsingStackBuffer; rewrite E; by rewrite fArray_shared, fCapacity_shared].
    unfold shared. by destruct (hasShortLength _).
Qed.

Lemma alike_value st st' o o' ob s fl len :
  ok (blocks st) s fl len -> alike ob s fl len -> objs st !! o = Some s -> objs st' !! o' = Some ob -> (forall b, used s = Some b -> peek (blocks st') b = peek (blocks st) b) -> value_of st' o' ob = value_of st o s.
Proof.
  intros Hok Ha Ho Ho' Hpk. pose proof (ok_packed _ _ _ _ Hok) as Hs. pose proof Ha as [Hp Hb Ht]. pose proof (used_packed s fl len Hs) as Hu. destruct (Z.eqb_spec (Z.land fl 2) 0) as [Hz|Hz]; cbn [negb] in Ht.
  - destruct Ht as [Ea _]. destruct (Z.eqb_spec (Z.land fl 3) 0) as [H3|H3].
    + apply (value_shared st st' o' o ob s fl len); auto. intros p Hfa. destruct Hok as [|? ? [-> | ->]|? ? b a Hf _ E|? ? b off a Hf _ E]; try done; rewrite E in *; injection Hfa as <-; apply memory_peek, Hpk, Hu.
    + destruct Hok as [|? ? [-> | ->]|? ? b a [-> | ->]|? ? b off a [->|[-> | ->]]]; try done. unfold value_of, isBogus. by rewrite (packed_mask ob kIsBogus 0), (packed_mask s kIsBogus 0) by done.
  - assert (fl = 2 \/ fl = 18) as [-> | ->] by (destruct Hok as [|? ? [-> | ->]|? ? ? ? [-> | ->]|? ? ? ? ? [->|[-> | ->]]]; auto; done).
    + unfold value_of, isBogus. rewrite !(packed_mask ob 2 len), !(packed_mask s 2 len) by (done || cbn; lia). eval_flags. rewrite (getArrayStart_packed o' ob 2 len Hp), (getArrayStart_packed o s 2 len Hs). eval_flags.
      cbn [mbind option_bind]. unfold memory. rewrite Ho, Ho'. cbn [mbind option_bind]. rewrite (packed_length ob 2 len Hp), (packed_length s 2 len Hs). do 3 f_equal. exact Ht.
    + unfold value_of, isBogus. by rewrite !(packed_mask ob 18 len), !(packed_mask s 18 len) by (done || cbn; lia).
Qed.

(** Two objects put back. *)
Lemma put_two st o p ob1 ob2 fl1 len1 fl2 len2 :
  o <> p -> rest (delete p (delete o (objs st))) (blocks st) (next_block st) (holds ob1 ++ holds ob2) None ->
  apart (delete p (delete o (objs st))) ob1 -> apart (delete p (delete o (objs st))) ob2 -> ok (blocks st) ob1 fl1 len1 -> ok (blocks st) ob2 fl2 len2 ->
  (forall b, writes ob1 = Some b -> used ob2 <> Some b) -> (forall b, writes ob2 = Some b -> used ob1 <> Some b) -> wf (put (put st p ob2) o ob1).
Proof.
  intros Hne Hr Ha1 Ha2 Hk1 Hk2 Hw1 Hw2. unfold wf. cbn [put objs blocks next_block]. eapply rest_unfocus; [|intros o2 ob' b|exact Hk1].
  - rewrite app_nil_r, delete_insert_ne by done. eapply rest_unfocus; [|exact Ha2|exact Hk2]. eapply rest_perm; [|exact Hr]. apply Permutation_app_comm.
  - rewrite delete_insert_ne by done. intros [[<- <-]|[Hn H2]]%lookup_insert_Some; [auto|]. apply (Ha1 o2). by rewrite lookup_delete_ne.
Qed.

(** Of two objects that are not the same. *)
Lemma wf_focus_two st o p ob1 ob2 :
  wf st -> o <> p -> objs st !! o = Some ob1 -> objs st !! p = Some ob2 ->
  rest (delete p (delete o (objs st))) (blocks st) (next_block st) (holds ob2 ++ holds ob1) None /\ apart (delete p (delete o (objs st))) ob1 /\ apart (delete p (delete o (objs st))) ob2 /\
  (forall b, writes ob1 = Some b -> used ob2 <> Some b) /\ (forall b, writes ob2 = Some b -> used ob1 <> Some b).
Proof.
  intros Hwf Hne H1 H2. destruct (rest_focus _ _ _ _ _ _ Hwf H1) as (Hr1 & Ha1 & _). assert (H2' : delete o (objs st) !! p = Some ob2) by (by rewrite lookup_delete_ne).
  destruct (rest_focus _ _ _ _ _ _ Hr1 H2') as (Hr2 & Ha2 & _). rewrite app_nil_r in Hr2. split; [done|]. split; [|split; [done|]].
  - intros o2 ob' b [_ Ho2]%lookup_delete_Some. by apply (Ha1 o2).
  - split; intros b; apply (Ha1 p ob2 b H2').
Qed.

Lemma apart_alike os ob s fl len : packed s fl len -> alike ob s fl len -> apart os s -> apart os ob.
Proof. intros Hs Ha Hap o2 ob2 b H2. destruct (alike_blocks ob s fl len Hs Ha) as (-> & _ & ->). by apply (Hap o2). Qed.

Lemma swap_values st o p :
  wf st -> o <> p -> is_Some (objs st !! o) -> is_Some (objs st !! p) ->
  exists st', swap st o p = Some st' /\ wf st' /\ value_at st' o = value_at st p /\ value_at st' p = value_at st o /\ (forall q, q <> o -> q <> p -> value_at st' q = value_at st q) /\ blocks st' = blocks st.
Proof.
  intros Hwf Hne [ob1 H1] [ob2 H2]. destruct (wf_focus_two st o p ob1 ob2 Hwf Hne H1 H2) as (Hr & Ha1 & Ha2 & Hw1 & Hw2).
  destruct (re_ok _ _ _ _ _ Hwf o ob1 H1) as (fl1 & len1 & Hk1). destruct (re_ok _ _ _ _ _ Hwf p ob2 H2) as (fl2 & len2 & Hk2). pose proof (ok_packed _ _ _ _ Hk1) as Hp1. pose proof (ok_packed _ _ _ _ Hk2) as Hp2.
  assert (Hsame : forall ob s, (copyFieldsFrom ob s false false).2 = s) by (intros ob s; unfold copyFieldsFrom; by destruct (has_flag _ _)).
  unfold swap. rewrite H1, H2. cbn [mbind option_bind]. destruct (Nat.eqb_spec o p); [done|].
  pose proof (copyFields_alike _ (fresh_obj kShortString) ob1 fl1 len1 false Hk1 eq_refl) as At. pose proof (Hsame (fresh_obj kShortString) ob1) as Es. destruct (copyFieldsFrom (fresh_obj kShortString) ob1 false false) as [temp ob1']. cbn [fst snd] in *. subst ob1'.
  pose proof (copyFields_alike _ ob1 ob2 fl2 len2 false Hk2 (ok_buffer _ _ _ _ Hk1)) as A1. pose proof (Hsame ob1 ob2) as Es. destruct (copyFieldsFrom ob1 ob2 false false) as [new1 ob2']. cbn [fst snd] in *. subst ob2'.
  pose proof (alike_ok _ _ _ _ _ Hk1 At) as Hkt. pose proof (copyFields_alike _ ob2 temp fl1 len1 false Hkt (ok_buffer _ _ _ _ Hk2)) as A2. destruct (copyFieldsFrom ob2 temp false false) as [new2 t']. cbn [fst] in A2.
  assert (A2' : alike new2 ob1 fl1 len1) by (by eapply alike_trans). destruct (alike_blocks _ _ _ _ Hp2 A1) as (U1 & O1 & W1). destruct (alike_blocks _ _ _ _ Hp1 A2') as (U2 & O2 & W2).
  assert (Eput : put (put st o new1) p new2 = put (put st p new2) o new1) by (unfold put; cbn; f_equal; by apply insert_insert_ne).
  eexists. split; [done|]. rewrite Eput. split_and!; [| | | |done].
  - apply (put_two st o p new1 new2 fl2 len2 fl1 len1); auto.
    + by rewrite (alike_holds _ _ _ _ Hp2 A1), (alike_holds _ _ _ _ Hp1 A2').
    + by eapply (apart_alike _ new1 ob2 fl2 len2).
    + by eapply (apart_alike _ new2 ob1 fl1 len1).
    + by eapply (alike_ok _ new1 ob2).
    + by eapply (alike_ok _ new2 ob1).
    + rewrite U2, W1. auto.
    + rewrite U1, W2. auto.
  - unfold value_at. cbn [put objs]. rewrite lookup_insert_eq, H2. cbn [mbind option_bind]. apply (alike_value _ _ _ _ _ _ fl2 len2); auto. cbn. by rewrite lookup_insert_eq.
  - unfold value_at. cbn [put objs]. rewrite lookup_insert_ne, lookup_insert_eq, H1 by done. cbn [mbind option_bind]. apply (alike_value _ _ _ _ _ _ fl1 len1); auto. cbn. by rewrite lookup_insert_ne, lookup_insert_eq.
  - intros q Hq1 Hq2. unfold value_at. cbn [put objs]. rewrite !lookup_insert_ne by done. destruct (objs st !! q) as [obq|] eqn:Hq; [|done]. cbn [mbind option_bind].
    apply value_of_peek; [exact (re_ok _ _ _ _ _ Hwf q obq Hq)|done|cbn; by rewrite !lookup_insert_ne|done].
Qed.

(** The source of a move keeps its text if it is short, and is bogus otherwise. *)
Lemma moveFrom_spec st o src :
  wf st -> o <> src -> is_Some (objs st !! o) -> is_Some (objs st !! src) ->
  exists st', moveFrom st o src = Some st' /\ wf st' /\ value_at st' o = value_at st src /\ (value_at st' src = value_at st src \/ value_at st' src = Some (Closed UnicodeString.Bogus)) /\
    (forall q, q <> o -> q <> src -> value_at st' q = value_at st q).
Proof.
  intros Hwf Hne [ob Ho] [s Hs]. destruct (wf_focus st o ob Hwf Ho) as (Hr & Hap & flo & leno & Hoko). destruct (re_ok _ _ _ _ _ Hwf src s Hs) as (fl & len & Hok). pose proof (ok_packed _ _ _ _ Hok) as Hp.
  unfold moveFrom. rewrite Ho, Hs. cbn [mbind option_bind]. destruct (release_spec None st o ob flo leno Hr Hoko) as (st1 & -> & Eo & Hr1 & Hfr1). cbn [mbind option_bind].
  assert (Hs1 : delete o (objs st1) !! src = Some s) by (by rewrite Eo, lookup_delete_ne).
  assert (Hpk : forall q obq b, q <> o -> objs st !! q = Some obq -> used obq = Some b -> peek (blocks st1) b = peek (blocks st) b).
  { intros q obq b Hq Hl Hu. apply (fr_blocks _ _ _ _ Hfr1). left. exists q, obq. by rewrite lookup_delete_ne. }
  assert (Hok1 : ok (blocks st1) s fl len) by (eapply ok_peek; [|exact Hok]; eauto).
  destruct (rest_focus _ _ _ _ _ _ Hr1 Hs1) as (Hr2 & Has & _). rewrite app_nil_r in Hr2. pose proof (copyFields_alike _ ob s fl len true Hok1 (ok_buffer _ _ _ _ Hoko)) as Al.
  assert (Esrc : (copyFieldsFrom ob s false true).2 = if negb (Z.land fl 2 =? 0) then s else bogus_of s).
  { unfold copyFieldsFrom. change (has_flag (set_flags ob (fLengthAndFlags s)) kUsingStackBuffer) with (has_flag s kUsingStackBuffer). rewrite (packed_mask s fl len) by done. by destruct (negb _). }
  destruct (copyFieldsFrom ob s false true) as [ob' s']. cbn [fst snd] in *. destruct (alike_blocks _ _ _ _ Hp Al) as (U1 & O1 & W1).
  assert (Hs' : exists fl' len', ok (blocks st1) s' fl' len' /\ used s' = None /\ holds s' = [] /\ writes s' = None).
  { subst s'. destruct (Z.eqb_spec (Z.land fl 2) 0) as [Hz|Hz]; cbn [negb].
    - exists kIsBogus, 0. pose proof (bogus_packed s) as Hb. split; [apply ok_bogus; [done|done]|]. by rewrite (used_packed _ _ _ Hb), (holds_packed _ _ _ Hb), (writes_packed _ _ _ Hb).
    - exists fl, len. split; [done|]. rewrite (used_packed _ _ _ Hp), (holds_packed _ _ _ Hp), (writes_packed _ _ _ Hp). destruct (pk_storage _ _ _ Hp) as [->|[->|[->|[->|[->|[->|[->| ->]]]]]]]; done. }
  destruct Hs' as (fl' & len' & Hok' & U2 & H2 & W2). eexists. split; [done|]. split_and!.
  - apply (put_two st1 o src ob' s' fl len fl' len'); auto.
    + by rewrite H2, app_nil_r, (alike_holds _ _ _ _ Hp Al).
    + by eapply (apart_alike _ ob' s fl len).
    + intros o2 ob2 b _. rewrite U2, W2. done.
    + by eapply (alike_ok _ ob' s).
    + by rewrite U2.
    + by rewrite W2.
  - unfold value_at. cbn [put objs]. rewrite lookup_insert_eq, Hs. cbn [mbind option_bind]. apply (alike_value _ _ _ _ _ _ fl len); auto; [cbn; by rewrite lookup_insert_eq|]. intros b Hb. cbn. by eapply (Hpk src s).
  - unfold value_at. cbn [put objs]. rewrite lookup_insert_ne, lookup_insert_eq, Hs by done. cbn [mbind option_bind]. subst s'. destruct (negb (Z.land fl 2 =? 0)).
    + left. apply value_of_peek; [by exists fl, len|done|cbn; by rewrite lookup_insert_ne, lookup_insert_eq|]. intros b Hb. cbn. by eapply (Hpk src s).
    + right. unfold value_of, isBogus. by rewrite (packed_mask (bogus_of s) kIsBogus 0) by (apply bogus_packed || done).
  - intros q Hq1 Hq2. unfold value_at. cbn [put objs]. rewrite !lookup_insert_ne, Eo by done. destruct (objs st !! q) as [obq|] eqn:Hq; [|done]. cbn [mbind option_bind].
    apply value_of_peek; [exact (re_ok _ _ _ _ _ Hwf q obq Hq)|done|cbn; by rewrite !lookup_insert_ne, Eo|]. intros b Hb. cbn. by eapply (Hpk q obq).
Qed.
End Copy.
End StringCopyFacts.
