(* ===== verification/StringInPlaceFacts.v ===== *)
(** * Writing into strings, cutting and padding them

    The methods that write to the array in place first make it the string's own
    ([cloneArrayIfNeeded]); those that cut the text change the length only, so that they leave a
    shared array alone. *)

From S2P Require Import Prelude Utf16 UString StringStore StringEdit StringStoreFacts StringCloneFacts StringEditFacts StringCopyFacts.

Module StringInPlaceFacts.
Import StringStore StringEdit StringStoreFacts StringCloneFacts StringEditFacts StringCopyFacts.

Section InPlace.
Context `{HP : Heap}.

(** ** An array of its own, with the text in it *)

Lemma cloneArray_spec w st o ob u newCapacity growCapacity :
  closed st o ob u -> (forall b, writes ob = Some b -> w = Some b) ->
  let nc := if newCapacity =? -1 then getCapacity ob else newCapacity in
  zlen u <= nc <= max_capacity -> growCapacity <= max_capacity -> growCapacity < 0 \/ nc <= growCapacity ->
  (exists st1 ob1 fl a, cloneArray st o newCapacity growCapacity = Some (st1, true) /\ view w [] None st1 o ob1 fl a (zlen u) /\ closed_flags fl /\ ztake (zlen u) a = u /\ nc <= zlen a /\ frame o w st st1) \/
  (exists st1, cloneArray st o newCapacity growCapacity = Some (st1, false) /\ outcome w st o UnicodeString.Bogus (Some st1) /\ refused).
Proof.
  intros Hc Hw nc Hnc Hgc Hgrow. pose proof Hc as [Hwf Ho Hv]. destruct (closed_ok st o ob u Hc) as (fl & Hok & _). unfold cloneArray.
  destruct (clone_spec w st o ob fl (zlen u) u newCapacity growCapacity true false Hwf Ho Hok Hv Hw) as [(-> & a & Hview & Hf & Hcap & Eu)|[(st1 & del & ob1 & fl1 & a & len1 & -> & Hview & Hf & Hcap & Hfr & [Elen Et] & Hdel & _)|(st1 & -> & Href & Hwf1 & Hfr & Hval)]];
    [fold nc; lia|done|done|..]; cbn [mbind option_bind].
  - left. fold nc in Hcap. exists st, ob, fl, a. split_and!; auto. apply frame_refl.
  - left. fold nc in Hcap. rewrite (Hdel eq_refl) in Hview. assert (len1 = zlen u) as -> by lia. rewrite ztake_all in Et. exists st1, ob1, fl1, a. split_and!; auto. destruct Hf; [by right; left|by right; right].
  - right. exists st1. split; [done|]. split; [|done]. exists st1. auto.
Qed.

(** A capacity is never less than the length. *)
Lemma closed_capacity st o ob u : closed st o ob u -> zlen u <= getCapacity ob.
Proof.
  intros Hc. destruct (closed_ok st o ob u Hc) as (fl & Hok & Hf). pose proof (ok_packed _ _ _ _ Hok) as Hp. unfold getCapacity. rewrite (packed_mask ob fl (zlen u)) by done.
  destruct Hf as [->|[->|[->| ->]]]; eval_flags; [destruct (ok_0 _ _ _ Hok) as (? & ? & ? & _ & _ & _ & _ & ?)|by eapply ok_2|destruct (ok_4 _ _ _ Hok) as (? & ? & _ & _ & -> & ?)|destruct (ok_8 _ _ _ Hok) as (? & ? & ? & _ & _ & _ & _ & ?)]; done.
Qed.

(** ** [setCharAt] *)

Definition with_unit (v : UnicodeString.t) (offset c : Z) : UnicodeString.t :=
  match v with
  | UnicodeString.Bogus => UnicodeString.Bogus
  | UnicodeString.Str u => UnicodeString.Str (<[Z.to_nat (if offset <? 0 then 0 else if zlen u <=? offset then zlen u - 1 else offset) := c]> u)
  end.

Lemma splice_1 (l : list Z) i c : 0 <= i < zlen l -> splice l i [c] = <[Z.to_nat i := c]> l.
Proof.
  intros Hi. unfold splice, ztake. change (zlen [c]) with 1. rewrite insert_take_drop by (unfold zlen in *; lia). replace (Z.to_nat (i + 1)) with (S (Z.to_nat i)) by lia. done.
Qed.

Lemma setCharAt_spec st o v offset c :
  wf st -> value_at st o = Some (Closed v) -> (forall ob, objs st !! o = Some ob -> getCapacity ob <= max_capacity) ->
  outcome (alias_of st o) st o (with_unit v offset c) (setCharAt st o offset c).
Proof.
  intros Hwf Hv Hcap. unfold setCharAt. destruct v as [|u].
  - destruct (bogus_at st o Hwf Hv) as (ob & Ho & Hp & _). rewrite Ho. cbn [mbind option_bind]. unfold cloneArray, cloneArrayIfNeeded. rewrite Ho. cbn [mbind option_bind]. rewrite (bogus_isWritable ob Hp). by apply outcome_bogus.
  - destruct (closed_at st o u Hwf Hv) as (ob & Hc). pose proof (cl_obj _ _ _ _ Hc) as Ho. rewrite Ho. cbn [mbind option_bind]. rewrite (closed_length st o ob u Hc). pose proof (closed_capacity st o ob u Hc). pose proof (zlen_nonneg u).
    destruct (cloneArray_spec (alias_of st o) st o ob u (-1) (-1) Hc) as [(st1 & ob1 & fl & a & -> & Hview & Hf & Eu & Hcap1 & Hfr)|(st1 & -> & Hout & Href)];
      [intros b; by apply alias_writes|cbn; split; [done|by apply Hcap]|unfold max_capacity; lia|lia|..]; cbn [mbind option_bind andb].
    2: { destruct Hout as (st' & [= <-] & Hwf' & Hfr' & [Hval|[_ Hval]]); exists st1; auto 10. }
    destruct (Z.ltb_spec 0 (zlen u)) as [Hpos|Hz].
    + cbn [with_unit]. set (i := if offset <? 0 then 0 else if zlen u <=? offset then zlen u - 1 else offset). assert (Hi : 0 <= i < zlen u) by (unfold i; repeat zcase; lia).
      pose proof (v_len _ _ _ _ _ _ _ _ _ Hview). rewrite (v_obj _ _ _ _ _ _ _ _ _ Hview). cbn [mbind option_bind]. destruct (view_load _ [] None st1 o ob1 fl a (zlen u) 0 0 Hview) as (q & Eq & _); [lia..|]. rewrite Eq. cbn [mbind option_bind].
      change (-1 =? -1) with true in *. cbv iota in *.
      destruct (view_store _ [] None st1 o ob1 fl a (zlen u) i [c] q Hview Eq) as (st2 & ob2 & -> & Hv2 & _ & Hfr2 & _); [lia|change (zlen [c]) with 1; lia|].
      eapply view_outcome; [exact Hv2|done|by eapply frame_trans|]. rewrite splice_1 by lia. unfold ztake. rewrite take_insert_lt by lia. fold (ztake (zlen u) a). by rewrite Eu.
    + assert (u = []) as -> by (apply zlen_0_inv; lia). cbn [with_unit]. rewrite list_insert_ge by (cbn; lia). by eapply view_outcome; [exact Hview|..].
Qed.

(** ** Cutting *)

(** A smaller length is all it takes, also where the array is shared or read-only. *)
Lemma shorten_spec w st o ob u n : closed st o ob u -> 0 <= n <= zlen u -> outcome w st o (UnicodeString.Str (ztake n u)) (Some (put st o (setLength ob n))).
Proof.
  intros Hc Hn. pose proof Hc as [Hwf Ho Hv]. destruct (closed_ok st o ob u Hc) as (fl & Hok & Hfl). pose proof (ok_packed _ _ _ _ Hok) as Hp. pose proof (packed_setLength ob fl _ n Hp ltac:(lia)) as Hp'.
  destruct (wf_focus st o ob Hwf Ho) as (Hr & Hap & _). pose proof (setLength_fArray ob n) as Ea. pose proof (setLength_fCapacity ob n) as Ec. set (ob' := setLength ob n) in *.
  assert (Eu : used ob' = used ob) by (by rewrite (used_packed ob' fl n), (used_packed ob fl (zlen u)), Ea). assert (Eo : owned ob' = owned ob) by (by rewrite (owned_packed ob' fl n), (owned_packed ob fl (zlen u)), Ea).
  assert (Ew : writes ob' = writes ob) by (by rewrite (writes_packed ob' fl n), (writes_packed ob fl (zlen u)), Ea).
  assert (Hshort : fl = 2 -> union ob' = union ob) by (intros ->; apply setLength_buffer; pose proof (ok_2 _ _ _ Hok); unfold kMaxShortLength, US_STACKBUF_SIZE in *; lia).
  assert (Hok' : ok (blocks st) ob' fl n).
  { destruct Hok as [|? ? Hf|? ? b a Hf _ E|? ? b off a Hf _ E].
    - by destruct Hfl as [?|[?|[?|?]]].
    - assert (fl = 2) as -> by lia. apply ok_short; [done|done|lia|by rewrite Hshort].
    - eapply ok_long; eauto; [congruence|congruence|lia].
    - eapply ok_alias; eauto; [congruence|rewrite Ec; done|rewrite Ec; lia]. }
  apply outcome_put; [apply frame_refl| |].
  - apply (wf_put st o ob' fl n); [unfold holds; by rewrite Eo|intros o2 ob2 b H2; rewrite Eu, Ew; by apply (Hap o2)|done].
  - unfold value_at. rewrite (lookup_insert_eq (objs st) o ob' : objs (put st o ob') !! o = Some ob'). cbn [mbind option_bind]. unfold value_of, isBogus. rewrite !(packed_mask ob' fl n) by (done || cbn; lia). rewrite (packed_length ob' fl n Hp').
    destruct (closed_array st o ob u Hc) as (p & m & Ep & Hm & Hl & Et & Hcase). assert (getArrayStart o ob' = Some p) as -> by (by rewrite (getArrayStart_packed o ob' fl n), Ea, <- (getArrayStart_packed o ob fl (zlen u))).
    assert (Hm' : exists m', memory (put st o ob') p = Some m' /\ ztake n m' = ztake n m).
    { exists m. split; [|done]. destruct Hcase as [->|(b & off & -> & _)]; [|done]. rewrite <- Hm. unfold memory. cbn [put objs]. rewrite lookup_insert_eq, Ho. cbn [mbind option_bind]. do 2 f_equal. apply Hshort.
      rewrite (getArrayStart_packed o ob fl (zlen u)) in Ep by done. destruct Hfl as [->|[->|[->| ->]]]; eval_flags; [destruct (ok_0 _ _ _ Hok) as (? & ? & ? & E & _)|done|destruct (ok_4 _ _ _ Hok) as (? & ? & E & _)|destruct (ok_8 _ _ _ Hok) as (? & ? & ? & E & _)]; congruence. }
    destruct Hm' as (m' & Em' & Em). cbn [mbind option_bind]. rewrite Em'. cbn [mbind option_bind]. assert (ztake n m' = ztake n u) as E by (rewrite Em, Et; unfold ztake; rewrite take_take; f_equal; lia). rewrite E.
    destruct Hfl as [->|[->|[->| ->]]]; eval_flags; done.
Qed.

Definition truncated (v : UnicodeString.t) (n : Z) : UnicodeString.t :=
  match v with
  | UnicodeString.Bogus => if n =? 0 then UnicodeString.Str [] else UnicodeString.Bogus
  | UnicodeString.Str u => if (0 <=? n) && (n <? zlen u) then UnicodeString.Str (ztake n u) else v
  end.

(** A bogus string made empty. *)
Lemma revive_spec w st o ob : wf st -> objs st !! o = Some ob -> ok (blocks st) ob kIsBogus 0 -> outcome w st o (UnicodeString.Str []) (Some (put st o (setToEmpty ob))).
Proof.
  intros Hwf Ho Hok. destruct (wf_focus st o ob Hwf Ho) as (Hr & _ & _). rewrite (holds_packed ob kIsBogus 0 (ok_packed _ _ _ _ Hok)) in Hr. eval_flags.
  destruct (put_empty st o ob Hr (ok_buffer _ _ _ _ Hok)). apply outcome_put; [apply frame_refl|done|done].
Qed.

Lemma truncate_spec w st o v n :
  wf st -> value_at st o = Some (Closed v) -> UnicodeString.length v <= max_text -> INT32_MIN <= n <= INT32_MAX ->
  outcome w st o (truncated v n) ('(st, _) ← truncate st o n; Some st).
Proof.
  intros Hwf Hv Hmax Hn. unfold truncate, max_text, INT32_MIN, INT32_MAX in *. destruct v as [|u].
  - destruct (bogus_at st o Hwf Hv) as (ob & Ho & Hp & Hok). rewrite Ho. cbn [mbind option_bind truncated]. unfold isBogus, unBogus. rewrite Ho, (packed_length _ _ _ Hp). cbn [mbind option_bind]. rewrite (packed_mask ob kIsBogus 0) by done. eval_flags. cbn [andb].
    destruct (Z.eqb_spec n 0) as [->|Hne]; cbn [mbind option_bind]; [by apply revive_spec|]. change (uint32 0) with 0. destruct (Z.ltb_spec (uint32 n) 0) as [Hl|]; [unfold uint32 in Hl; dlia|]. by apply outcome_bogus.
  - destruct (closed_at st o u Hwf Hv) as (ob & Hc). rewrite (cl_obj _ _ _ _ Hc). cbn [mbind option_bind truncated]. destruct (closed_ok st o ob u Hc) as (fl & Hok & Hfl).
    assert (isBogus ob = false) as -> by (unfold isBogus; rewrite (packed_mask ob fl (zlen u)) by (by eapply ok_packed || done); destruct Hfl as [->|[->|[->| ->]]]; done).
    cbn [andb]. rewrite (closed_length st o ob u Hc). unfold UnicodeString.length in Hmax. cbn [UnicodeString.units] in Hmax. pose proof (zlen_nonneg u).
    assert (E : (uint32 n <? uint32 (zlen u)) = (0 <=? n) && (n <? zlen u)).
    { unfold uint32. rewrite (Z.mod_small (zlen u)) by lia. destruct (Z.leb_spec 0 n); cbn [andb]; [by rewrite Z.mod_small by lia|]. apply Z.ltb_ge. dlia. }
    rewrite E. destruct (Z.leb_spec 0 n), (Z.ltb_spec n (zlen u)); cbn [andb mbind option_bind]; [by apply shorten_spec; [|lia]|by eapply unchanged_outcome..].
Qed.

Definition removed (v : UnicodeString.t) (start len : Z) : UnicodeString.t := if (start <=? 0) && (len =? INT32_MAX) then UnicodeString.Str [] else replaced v start len [].

Lemma remove_spec st o v start len :
  wf st -> value_at st o = Some (Closed v) -> UnicodeString.length v <= max_text -> outcome (alias_of st o) st o (removed v start len) (remove st o start len).
Proof.
  intros Hwf Hv Hmax. unfold remove, removed. destruct ((start <=? 0) && (len =? INT32_MAX)); [|apply (doReplace_at st o v start len None 0 []); [done|done|by left|by rewrite Z.add_0_r]]. unfold remove_all. destruct v as [|u].
  - destruct (bogus_at st o Hwf Hv) as (ob & Ho & Hp & Hok). rewrite Ho. cbn [mbind option_bind]. unfold isBogus. rewrite (packed_mask ob kIsBogus 0) by done. eval_flags. by apply revive_spec.
  - destruct (closed_at st o u Hwf Hv) as (ob & Hc). rewrite (cl_obj _ _ _ _ Hc). cbn [mbind option_bind]. destruct (closed_ok st o ob u Hc) as (fl & Hok & Hfl).
    assert (isBogus ob = false) as -> by (unfold isBogus; rewrite (packed_mask ob fl (zlen u)) by (by eapply ok_packed || done); destruct Hfl as [->|[->|[->| ->]]]; done).
    rewrite setZeroLength_eq. pose proof (zlen_nonneg u). by apply (shorten_spec _ st o ob u 0); [|lia].
Qed.

(** ** Padding *)

Definition padding (u : list Z) (n c : Z) : list Z := replicate (Z.to_nat (n - zlen u)) c.
Definition padded_trailing (v : UnicodeString.t) (n c : Z) : UnicodeString.t := appended v (padding (UnicodeString.units v) n c).
Definition padded_leading (v : UnicodeString.t) (n c : Z) : UnicodeString.t :=
  match v with UnicodeString.Bogus => UnicodeString.Bogus | UnicodeString.Str u => UnicodeString.Str (padding u n c ++ u) end.

Lemma padding_zlen u n c : zlen u <= n -> zlen (padding u n c) = n - zlen u.
Proof. intros Hn. unfold padding, zlen in *. rewrite length_replicate. lia. Qed.

Lemma padding_nil u n c : n <= zlen u -> padding u n c = [].
Proof. intros Hn. unfold padding. by replace (Z.to_nat (n - zlen u)) with 0%nat by lia. Qed.

(** A string that cannot be written to is not cloned. *)
Lemma clone_bogus st o n g : wf st -> value_at st o = Some (Closed UnicodeString.Bogus) -> cloneArray st o n g = Some (st, false).
Proof. intros Hwf Hv. destruct (bogus_at st o Hwf Hv) as (ob & Ho & Hp & _). unfold cloneArray, cloneArrayIfNeeded. rewrite Ho. cbn [mbind option_bind]. by rewrite (bogus_isWritable ob Hp). Qed.

Lemma outcome_refused w st o v st1 : outcome w st o UnicodeString.Bogus (Some st1) -> refused -> outcome w st o v (Some st1).
Proof. intros (st' & [= <-] & Hwf & Hfr & [Hv|[_ Hv]]) Href; exists st1; auto 10. Qed.

Lemma padTrailing_spec st o v n c :
  wf st -> value_at st o = Some (Closed v) -> n <= max_capacity -> outcome (alias_of st o) st o (padded_trailing v n c) ('(st, _) ← padTrailing st o n c; Some st).
Proof.
  intros Hwf Hv Hmax. unfold padTrailing, padded_trailing. destruct v as [|u].
  - destruct (bogus_at st o Hwf Hv) as (ob & Ho & Hp & _). rewrite Ho. cbn [mbind option_bind]. rewrite (clone_bogus st o n (-1) Hwf Hv). destruct (n <=? length ob); by apply outcome_bogus.
  - destruct (closed_at st o u Hwf Hv) as (ob & Hc). rewrite (cl_obj _ _ _ _ Hc). cbn [mbind option_bind]. rewrite (closed_length st o ob u Hc). pose proof (zlen_nonneg u). cbn [appended UnicodeString.units].
    destruct (Z.leb_spec n (zlen u)) as [Hle|Hgt]; cbn [mbind option_bind]; [rewrite padding_nil, app_nil_r by done; by eapply unchanged_outcome|]. assert (Hm1 : (n =? -1) = false) by (apply Z.eqb_neq; lia).
    destruct (cloneArray_spec (alias_of st o) st o ob u n (-1) Hc) as [(st1 & ob1 & fl & a & -> & Hview & Hf & Eu & Hcap1 & Hfr)|(st1 & -> & Hout & Href)];
      [intros b; by apply alias_writes, Hc|rewrite Hm1; lia|unfold max_capacity; lia|lia|..]; cbn [mbind option_bind]; [|by apply outcome_refused]. rewrite Hm1 in Hcap1.
    rewrite (v_obj _ _ _ _ _ _ _ _ _ Hview). cbn [mbind option_bind]. destruct (view_load _ [] None st1 o ob1 fl a (zlen u) 0 0 Hview) as (q & Eq & _); [lia..|]. rewrite Eq. cbn [mbind option_bind]. fold (padding u n c).
    pose proof (padding_zlen u n c ltac:(lia)) as Hz. destruct (view_store _ [] None st1 o ob1 fl a (zlen u) (zlen u) (padding u n c) q Hview Eq) as (st2 & ob2 & -> & Hv2 & _ & Hfr2 & _); [lia..|].
    cbn [mbind option_bind]. rewrite (v_obj _ _ _ _ _ _ _ _ _ Hv2). cbn [mbind option_bind]. assert (Hzs : zlen (splice a (zlen u) (padding u n c)) = zlen a) by (apply splice_zlen; lia).
    destruct (view_setLength _ [] None st2 o ob2 fl _ (zlen u) n Hv2) as [Hv3 _]; [lia|].
    eapply view_outcome; [exact Hv3|done|eapply frame_trans; [exact Hfr|eapply frame_trans; [exact Hfr2|apply frame_put]]|].
    unfold splice. rewrite Eu, app_assoc. replace n with (zlen (u ++ padding u n c)) at 2 by (rewrite zlen_app; lia). by rewrite ztake_app_exact.
Qed.

Lemma padLeading_spec st o v n c :
  wf st -> value_at st o = Some (Closed v) -> n <= max_capacity -> outcome (alias_of st o) st o (padded_leading v n c) ('(st, _) ← padLeading st o n c; Some st).
Proof.
  intros Hwf Hv Hmax. unfold padLeading, padded_leading. destruct v as [|u].
  - destruct (bogus_at st o Hwf Hv) as (ob & Ho & Hp & _). rewrite Ho. cbn [mbind option_bind]. rewrite (clone_bogus st o n (-1) Hwf Hv). destruct (n <=? length ob); by apply outcome_bogus.
  - destruct (closed_at st o u Hwf Hv) as (ob & Hc). rewrite (cl_obj _ _ _ _ Hc). cbn [mbind option_bind]. rewrite (closed_length st o ob u Hc). pose proof (zlen_nonneg u).
    destruct (Z.leb_spec n (zlen u)) as [Hle|Hgt]; cbn [mbind option_bind]; [rewrite padding_nil by done; by eapply unchanged_outcome|]. assert (Hm1 : (n =? -1) = false) by (apply Z.eqb_neq; lia).
    destruct (cloneArray_spec (alias_of st o) st o ob u n (-1) Hc) as [(st1 & ob1 & fl & a & -> & Hview & Hf & Eu & Hcap1 & Hfr)|(st1 & -> & Hout & Href)];
      [intros b; by apply alias_writes, Hc|rewrite Hm1; lia|unfold max_capacity; lia|lia|..]; cbn [mbind option_bind]; [|by apply outcome_refused]. rewrite Hm1 in Hcap1.
    rewrite (v_obj _ _ _ _ _ _ _ _ _ Hview). cbn [mbind option_bind]. destruct (view_load _ [] None st1 o ob1 fl a (zlen u) 0 (zlen u) Hview) as (q & Eq & Hload); [lia..|]. rewrite Eq. cbn [mbind option_bind]. fold (padding u n c). rewrite <- Eq.
    assert (Hread : slice a 0 (zlen u) = u) by (unfold slice; by rewrite drop_0).
    destruct (view_copy _ [] None st1 o ob1 fl a (zlen u) (getArrayStart o ob1) 0 (n - zlen u) (zlen u) u Hview) as (st2 & ob2 & -> & Hv2 & Eg2 & Hfr2 & _); [lia|done|lia|intros _; exists q; split; [done|by rewrite Hload, Hread]|].
    cbn [mbind option_bind]. assert (Hzs : zlen (splice a (n - zlen u) u) = zlen a) by (apply splice_zlen; lia). pose proof (padding_zlen u n c ltac:(lia)) as Hz. rewrite Eq in Eg2.
    destruct (view_store _ [] None st2 o ob2 fl _ (zlen u) 0 (padding u n c) q Hv2 Eg2) as (st3 & ob3 & -> & Hv3 & _ & Hfr3 & _); [lia..|].
    cbn [mbind option_bind]. rewrite (v_obj _ _ _ _ _ _ _ _ _ Hv3). cbn [mbind option_bind]. assert (Hzs3 : zlen (splice (splice a (n - zlen u) u) 0 (padding u n c)) = zlen a) by (rewrite splice_zlen; lia).
    destruct (view_setLength _ [] None st3 o ob3 fl _ (zlen u) n Hv3) as [Hv4 _]; [lia|].
    eapply view_outcome; [exact Hv4|done|eapply frame_trans; [exact Hfr|eapply frame_trans; [exact Hfr2|eapply frame_trans; [exact Hfr3|apply frame_put]]]|].
    pose proof (splice_replace a u (padding u n c) 0 0) as E. rewrite Hz in E. assert (Es : slice u (0 + 0) (zlen u - (0 + 0)) = u) by (unfold slice; rewrite Z.sub_0_r; apply ztake_all).
    rewrite Es in E. replace (zlen u - 0 + (n - zlen u)) with n in E by lia. rewrite Z.add_0_l in E. symmetry. apply E; done || lia.
Qed.

(** ** Code points *)

Lemma code_point_units c : Utf16.code_point c -> exists rest, Utf16.U16_APPEND [junk; junk] 0 2 c = Some (Utf16.encode c ++ rest, zlen (Utf16.encode c), false).
Proof.
  intros Hc. assert (Hl : zlen (Utf16.encode c) = 1 \/ zlen (Utf16.encode c) = 2) by (unfold Utf16.encode; destruct (c <=? 0xffff); [by left|by right]). destruct Hl as [Hl|Hl].
  - exists [junk]. exact (Utf16.U16_APPEND_step [] [junk] [junk] c Hc (eq_sym Hl)).
  - exists []. exact (Utf16.U16_APPEND_step [] [junk; junk] [] c Hc (eq_sym Hl)).
Qed.

Lemma local_source st o w x rest : src_ok st o w (Some (Local (x ++ rest))) 0 x.
Proof.
  right. eexists. split; [done|]. split; [|done]. unfold load, memory. cbn [mbind option_bind]. pose proof (zlen_nonneg rest). rewrite zlen_app, drop_0. destruct (Z.leb_spec 0 0), (Z.leb_spec (0 + zlen x) (zlen x + zlen rest)); [|lia..].
  cbn [andb]. by rewrite ztake_app_exact.
Qed.

Lemma append_code_point_spec st o v c :
  wf st -> value_at st o = Some (Closed v) -> Utf16.code_point c -> UnicodeString.length v + 2 <= max_text ->
  outcome (alias_of st o) st o (appended v (Utf16.encode c)) (append_code_point st o c).
Proof.
  intros Hwf Hv Hc Hmax. unfold append_code_point. destruct (code_point_units c Hc) as [rest ->]. cbn [mbind option_bind]. apply doAppend_at; [done|done|apply local_source|].
  assert (zlen (Utf16.encode c) <= 2) by (unfold Utf16.encode; destruct (c <=? 0xffff); done). lia.
Qed.

Lemma replace_code_point_spec st o v start len c :
  wf st -> value_at st o = Some (Closed v) -> Utf16.code_point c -> UnicodeString.length v + 2 <= max_text ->
  outcome (alias_of st o) st o (replaced v start len (Utf16.encode c)) (replace_code_point st o start len c).
Proof.
  intros Hwf Hv Hc Hmax. unfold replace_code_point. destruct (code_point_units c Hc) as [rest ->]. cbn [mbind option_bind]. apply doReplace_at; [done|done|apply local_source|].
  assert (zlen (Utf16.encode c) <= 2) by (unfold Utf16.encode; destruct (c <=? 0xffff); done). lia.
Qed.

(** ** The buffer in the hands of the caller *)

Lemma open_flags fl len : closed_flags fl -> 0 <= len -> Z.land (Z.lor (pack fl len) kOpenGetBuffer) kAllStorageFlags = fl + 16.
Proof. intros Hf Hl. rewrite Z.land_lor_distr_l, land_pack by (destruct Hf as [->|[->| ->]]; lia || done). by destruct Hf as [->|[->| ->]]. Qed.

Lemma close_flags fl len : closed_flags fl -> 0 <= len -> Z.land (pack (fl + 16) len) (Z.lnot kOpenGetBuffer) = pack fl len.
Proof.
  intros Hf Hl. rewrite <- Z.ldiff_land. unfold kOpenGetBuffer. rewrite <- Z.sub_nocarry_ldiff; [unfold pack; destruct (len <=? kMaxShortLength); lia|].
  apply Z.bits_inj'. intros n Hn. rewrite Z.ldiff_spec, Z.bits_0. destruct (decide (n = 4)) as [->|Hne].
  - change (Z.testbit 16 4) with true. cbn [andb]. apply negb_false_iff. assert (Hm : Z.land (pack (fl + 16) len) 16 = 16) by (rewrite mask_pack by (destruct Hf as [->|[->| ->]]; lia); by destruct Hf as [->|[->| ->]]).
    apply (f_equal (fun z => Z.testbit z 4)) in Hm. rewrite Z.land_spec in Hm. change (Z.testbit 16 4) with true in Hm. by rewrite andb_true_r in Hm.
  - change 16 with (2 ^ 4). by rewrite Z.pow2_bits_false by done.
Qed.

(** The members with other flags for the same array. *)
Lemma view_reflag w hs z st o ob fl a len ob' fl' len' :
  view w hs z st o ob fl a len -> packed ob' fl' len' -> union ob' = union ob -> (fl' = fl + 16 /\ closed_flags fl \/ fl = fl' + 16 /\ closed_flags fl') -> len' <= zlen a ->
  view w hs z (put st o ob') o ob' fl' a len' /\ getArrayStart o ob' = getArrayStart o ob.
Proof.
  intros [Ho Hp Hl Hex Hr Hap Hw] Hp' Eun Hfl Hlen. assert (Ea : fArray_of ob' = fArray_of ob) by (unfold fArray_of; by rewrite Eun). assert (Ec : fCapacity_of ob' = fCapacity_of ob) by (unfold fCapacity_of; by rewrite Eun).
  assert (Ebl : used ob' = used ob /\ owned ob' = owned ob /\ writes ob' = writes ob /\ getArrayStart o ob' = getArrayStart o ob).
  { rewrite (used_packed ob' fl' len'), (owned_packed ob' fl' len'), (writes_packed ob' fl' len'), (getArrayStart_packed o ob' fl' len') by done.
    rewrite (used_packed ob fl len), (owned_packed ob fl len), (writes_packed ob fl len), (getArrayStart_packed o ob fl len), Ea by done. by destruct Hfl as [[-> [->|[->| ->]]]|[-> [->|[->| ->]]]]. }
  destruct Ebl as (Eu & Eow & Ew & Eg). split; [|done]. split; auto.
  - cbn. by rewrite lookup_insert_eq.
  - cbn [put blocks]. destruct Hex as [Hf Hz|b a Hf E1 E2 E3|b off p a q Hf E1 E2 E3 E4].
    + rewrite <- Eun. apply ex_short; [|by rewrite Eun]. unfold closed_flags in *. lia.
    + eapply ex_long; [unfold closed_flags in *; lia|rewrite Ea; exact E1|exact E2|congruence].
    + eapply ex_alias; [unfold closed_flags in *; lia|rewrite Ea; exact E1|exact E2|done|congruence].
  - unfold holds. rewrite Eow. apply rest_put. exact Hr.
  - cbn. rewrite delete_insert_eq. intros o2 ob2 b2 H2. rewrite Eu, Ew. by apply (Hap o2).
  - by rewrite Ew.
Qed.

Lemma open_view w st o ob fl a len :
  view w [] None st o ob fl a len -> closed_flags fl ->
  let ob' := setZeroLength (set_flags ob (Z.lor (fLengthAndFlags ob) kOpenGetBuffer)) in view w [] None (put st o ob') o ob' (fl + 16) a 0 /\ getArrayStart o ob' = getArrayStart o ob.
Proof.
  intros Hv Hf ob'. pose proof (v_packed _ _ _ _ _ _ _ _ _ Hv) as Hp. pose proof (pk_nonneg _ _ _ Hp). apply (view_reflag w [] None st o ob fl a len ob' (fl + 16) 0 Hv); [|done|by left|apply zlen_nonneg].
  unfold ob', setZeroLength. cbn [set_flags fLengthAndFlags]. rewrite (pk_flags _ _ _ Hp), open_flags by done. apply packed_set_flags. unfold storage, closed_flags in *. lia.
Qed.

Lemma close_view w st o ob fl a len n :
  view w [] None st o ob (fl + 16) a len -> closed_flags fl -> 0 <= n <= zlen a ->
  exists st' ob', releaseBuffer st o n = Some st' /\ view w [] None st' o ob' fl a n /\ frame o w st st'.
Proof.
  intros Hv Hf Hn. pose proof (v_packed _ _ _ _ _ _ _ _ _ Hv) as Hp. unfold releaseBuffer. rewrite (v_obj _ _ _ _ _ _ _ _ _ Hv). cbn [mbind option_bind]. rewrite (packed_mask ob (fl + 16) len) by done.
  assert (negb (Z.land (fl + 16) kOpenGetBuffer =? 0) = true) as -> by (by destruct Hf as [->|[->| ->]]). destruct (Z.leb_spec (-1) n); [|lia]. destruct (Z.eqb_spec n (-1)); [lia|]. cbn [andb mbind option_bind].
  rewrite (exclusive_capacity _ _ _ _ _ Hp (v_exclusive _ _ _ _ _ _ _ _ _ Hv)). destruct (Z.ltb_spec (zlen a) n); [lia|]. destruct (view_setLength w [] None st o ob (fl + 16) a len n Hv Hn) as [Hv2 _]. set (ob2 := setLength ob n) in *.
  pose proof (v_packed _ _ _ _ _ _ _ _ _ Hv2) as Hp2. set (ob3 := set_flags ob2 _).
  assert (Hp3 : packed ob3 fl n).
  { destruct Hp2 as [_ _ Hfl Hlarge]. split; [unfold storage, closed_flags in *; lia|lia| |exact Hlarge]. unfold ob3. cbn [set_flags fLengthAndFlags]. rewrite Hfl. apply close_flags; [done|lia]. }
  destruct (view_reflag w [] None (put st o ob2) o ob2 (fl + 16) a n ob3 fl n Hv2 Hp3) as [Hv3 _]; [done|by right|lia|]. rewrite put_put in Hv3. eexists _, ob3. split; [done|]. split; [exact Hv3|apply frame_put].
Qed.

Lemma getBuffer_spec w st o ob u minCapacity :
  closed st o ob u -> (forall b, writes ob = Some b -> w = Some b) -> 0 <= minCapacity <= max_capacity ->
  (exists st1 p ob1 fl a, getBuffer st o minCapacity = Some (st1, Some p) /\ view w [] None st1 o ob1 (fl + 16) a 0 /\ closed_flags fl /\ getArrayStart o ob1 = Some p /\ minCapacity <= zlen a /\ frame o w st st1) \/
  (exists st1, getBuffer st o minCapacity = Some (st1, None) /\ outcome w st o UnicodeString.Bogus (Some st1) /\ refused).
Proof.
  intros Hc Hw Hmin. pose proof Hc as [Hwf Ho Hv]. destruct (closed_ok st o ob u Hc) as (fl & Hok & _). unfold getBuffer, cloneArray. destruct (Z.leb_spec (-1) minCapacity); [|lia]. assert (Hm1 : (minCapacity =? -1) = false) by (apply Z.eqb_neq; lia).
  assert (Hclone : (exists st1 ob1 fl1 a len, cloneArrayIfNeeded st o minCapacity (-1) true false false = Some (st1, true, None) /\ view w [] None st1 o ob1 fl1 a len /\ closed_flags fl1 /\ minCapacity <= zlen a /\ frame o w st st1) \/
    exists st1, cloneArrayIfNeeded st o minCapacity (-1) true false false = Some (st1, false, None) /\ outcome w st o UnicodeString.Bogus (Some st1) /\ refused).
  { destruct (clone_spec w st o ob fl (zlen u) u minCapacity (-1) true false Hwf Ho Hok Hv Hw) as [(-> & a & Hview & Hf & Hcap & Eu)|[(st1 & del & ob1 & fl1 & a & len1 & -> & Hview & Hf & Hcap & Hfr & _ & Hdel & _)|(st1 & -> & Href & Hwf1 & Hfr & Hval)]];
      rewrite ?Hm1 in *; [lia|unfold max_capacity; lia|lia|..].
    - left. exists st, ob, fl, a, (zlen u). split_and!; auto. apply frame_refl.
    - left. rewrite (Hdel eq_refl) in *. exists st1, ob1, fl1, a, len1. split_and!; auto. destruct Hf; [by right; left|by right; right].
    - right. exists st1. split; [done|]. split; [|done]. exists st1. auto. }
  destruct Hclone as [(st1 & ob1 & fl1 & a & len & -> & Hview & Hf & Hcap & Hfr)|(st1 & -> & Hout)]; cbn [mbind option_bind]; [left|right; by exists st1].
  rewrite (v_obj _ _ _ _ _ _ _ _ _ Hview). cbn [mbind option_bind]. cbn zeta. destruct (open_view w st1 o ob1 fl1 a len Hview Hf) as [Hv2 Eg]. cbn zeta in Hv2, Eg. destruct (view_load w [] None st1 o ob1 fl1 a len 0 0 Hview) as (p & Ep & _); [lia..|].
  rewrite Eg, Ep. eexists _, p, _, fl1, a. split; [done|]. split; [exact Hv2|]. split; [done|]. split; [congruence|]. split; [done|]. eapply frame_trans; [exact Hfr|apply frame_put].
Qed.

(** ** A terminating null *)

Definition terminated (st : store) (p : ptr) (u : list Z) : Prop := load st p 0 (zlen u + 1) = Some (u ++ [0]).

Lemma terminate_view w st o st1 ob fl a u :
  view w [] None st1 o ob fl a (zlen u) -> closed_flags fl -> ztake (zlen u) a = u -> zlen u < zlen a -> frame o w st st1 ->
  exists st2 p, (array ← getArrayStart o ob; st ← store_units st1 array (zlen u) [0]; Some (st, Some array)) = Some (st2, Some p) /\ outcome w st o (UnicodeString.Str u) (Some st2) /\ terminated st2 p u.
Proof.
  intros Hv Hf Eu Hl Hfr. pose proof (zlen_nonneg u). destruct (view_load w [] None st1 o ob fl a (zlen u) 0 0 Hv) as (p & Ep & _); [lia..|]. rewrite Ep. cbn [mbind option_bind].
  destruct (view_store w [] None st1 o ob fl a (zlen u) (zlen u) [0] p Hv Ep) as (st2 & ob2 & -> & Hv2 & Ep2 & Hfr2 & _); [lia|change (zlen [0]) with 1; lia|]. cbn [mbind option_bind]. exists st2, p. split; [done|].
  assert (Hs : forall n, n = zlen u \/ n = zlen u + 1 -> ztake n (splice a (zlen u) [0]) = ztake n (u ++ [0])).
  { intros n Hn. unfold splice. rewrite Eu, app_assoc. apply ztake_app_le. rewrite zlen_app. change (zlen [0]) with 1. lia. }
  split; [eapply view_outcome; [exact Hv2|done|by eapply frame_trans|rewrite Hs by (by left); symmetry; apply ztake_app_exact]|].
  assert (Hz : zlen (splice a (zlen u) [0]) = zlen a) by (apply splice_zlen; [lia|change (zlen [0]) with 1; lia]).
  destruct (view_load w [] None st2 o ob2 fl _ (zlen u) 0 (zlen u + 1) Hv2) as (q & Eq & Hload); [lia..|]. assert (q = p) as -> by congruence. unfold terminated. rewrite Hload. unfold slice. rewrite drop_0, Hs by (by right).
  f_equal. replace (zlen u + 1) with (zlen (u ++ [0])) by (by rewrite zlen_app). apply ztake_all.
Qed.

Lemma getTerminatedBuffer_spec st o u :
  wf st -> value_at st o = Some (Closed (UnicodeString.Str u)) -> zlen u < max_capacity ->
  exists st' q, getTerminatedBuffer st o = Some (st', q) /\
    match q with Some p => outcome (alias_of st o) st o (UnicodeString.Str u) (Some st') /\ terminated st' p u | None => refused /\ outcome (alias_of st o) st o UnicodeString.Bogus (Some st') end.
Proof.
  intros Hwf Hv Hmax. destruct (closed_at st o u Hwf Hv) as (ob & Hc). pose proof (cl_obj _ _ _ _ Hc) as Ho. pose proof (cl_value _ _ _ _ Hc) as Hval. pose proof (zlen_nonneg u). set (w := alias_of st o).
  assert (Hw : forall b, writes ob = Some b -> w = Some b) by (intros b; by apply alias_writes). destruct (closed_ok st o ob u Hc) as (fl & Hok & Hfl). pose proof (ok_packed _ _ _ _ Hok) as Hp.
  unfold getTerminatedBuffer. rewrite Ho. cbn [mbind option_bind]. rewrite (closed_isWritable st o ob u Hc), (closed_length st o ob u Hc). cbn [negb]. cbn zeta.
  set (clone := '(st, ok) ← cloneArray st o (zlen u + 1) (-1); _).
  assert (Hclone : exists st' q, clone = Some (st', q) /\ match q with Some p => outcome w st o (UnicodeString.Str u) (Some st') /\ terminated st' p u | None => refused /\ outcome w st o UnicodeString.Bogus (Some st') end).
  { unfold clone. destruct (cloneArray_spec w st o ob u (zlen u + 1) (-1) Hc Hw) as [(st1 & ob1 & fl1 & a & -> & Hview & Hf & Eu & Hcap1 & Hfr)|(st1 & -> & Hout & Href)];
      [destruct (Z.eqb_spec (zlen u + 1) (-1)); lia|unfold max_capacity; lia|lia|..]; cbn [mbind option_bind]; [|exists st1, None; auto].
    rewrite (v_obj _ _ _ _ _ _ _ _ _ Hview). cbn [mbind option_bind]. destruct (Z.eqb_spec (zlen u + 1) (-1)); [lia|]. destruct (terminate_view w st o st1 ob1 fl1 a u Hview Hf Eu) as (st2 & p & E & Hout); [lia|done|]. exists st2, (Some p). auto. }
  destruct (Z.ltb_spec (zlen u) (getCapacity ob)) as [Hroom|]; [|exact Hclone]. destruct (closed_array st o ob u Hc) as (p & m & Ep & Hm & Hlm & Et & Hcase). rewrite Ep. cbn [mbind option_bind]. rewrite !(packed_mask ob fl (zlen u)) by done.
  destruct (decide (fl = 8)) as [->|H8].
  - eval_flags. assert (Hlm1 : zlen u + 1 <= zlen m).
    { destruct (ok_8 _ _ _ Hok) as (b & off & a & Ea & Epk & H0 & Hoc & Hcap). rewrite (getArrayStart_packed o ob 8 (zlen u) Hp) in Ep. eval_flags. assert (p = InBlock b off) as -> by congruence. unfold memory in Hm. rewrite (peek_external _ _ _ Epk) in Hm.
      cbn [mbind option_bind cells] in Hm. destruct (_ && _); [|done]. injection Hm as <-. unfold getCapacity in Hroom. rewrite (packed_mask ob 8 (zlen u)) in Hroom by done. eval_flags. unfold zlen in *. rewrite length_drop. lia. }
    unfold load. rewrite Hm. cbn [mbind option_bind]. destruct (Z.leb_spec 0 (zlen u)), (Z.leb_spec (zlen u + 1) (zlen m)); [|lia..]. cbn [andb mbind option_bind].
    case_bool_decide as E0; [|exact Hclone]. exists st, (Some p). split; [done|]. split; [by eapply unchanged_outcome|]. unfold terminated, load. rewrite Hm. cbn [mbind option_bind]. destruct (Z.leb_spec 0 0), (Z.leb_spec (0 + (zlen u + 1)) (zlen m)); [|lia..]. cbn [andb]. rewrite drop_0. f_equal.
    transitivity (ztake (zlen u) m ++ ztake 1 (drop (Z.to_nat (zlen u)) m)); [|by rewrite E0, <- Et]. unfold ztake. rewrite <- (take_drop (Z.to_nat (zlen u)) m) at 1.
    replace (Z.to_nat (zlen u + 1)) with (List.length (take (Z.to_nat (zlen u)) m) + Z.to_nat 1)%nat by (rewrite length_take; unfold zlen in *; lia). apply take_app_add.
  - assert (negb (Z.land fl kBufferIsReadonly =? 0) = false) as -> by (destruct Hfl as [->|[->|[->| ->]]]; done). cbv iota.
    assert (Hrefs : exists n, (if negb (Z.land fl kRefCounted =? 0) then refCount st ob else Some 1) = Some n /\ (n = 1 -> fl = 4 -> refCount st ob = Some 1)).
    { destruct (decide (fl = 4)) as [->|H4]; [|destruct Hfl as [->|[->|[->| ->]]]; try done; by exists 1]. destruct (closed_refCount st o ob u 4 Hc Hok eq_refl) as [n En]. exists n. rewrite En. by split; [|intros ->]. }
    destruct Hrefs as (n & -> & Hn). cbn [mbind option_bind]. destruct (Z.eqb_spec n 1) as [->|]; [|exact Hclone].
    destruct (view_of_ok w st o ob fl (zlen u) u Hwf Ho Hok Hval Hw H8 (Hn eq_refl)) as (a & Hview & Ea & Eu & Hf). destruct (terminate_view w st o st ob fl a u Hview Hf Eu) as (st2 & p2 & E & Hout); [lia|apply frame_refl|].
    rewrite Ep in E. cbn [mbind option_bind] in E. exists st2, (Some p2). auto.
Qed.
End InPlace.
End StringInPlaceFacts.
