(* ===== verification/StringRefinement.v ===== *)
(** * Strings as values

    Programs that create, copy, change and destroy strings see values: each string is what the
    operations on it made of it, whatever arrays it shares with others.  The store is a detail that
    nothing shows but a lack of memory, which leaves the string bogus that it was for.

    At the end every counted array is freed.  Where it goes wrong: a string that is appended to
    itself and must grow is read after it was freed. *)

From S2P Require Import Prelude Utf16 UString StringStore StringEdit StringStoreFacts StringCloneFacts StringEditFacts StringCopyFacts StringInPlaceFacts.

Module StringRefinement.
Import StringStore StringEdit StringStoreFacts StringCloneFacts StringEditFacts StringCopyFacts StringInPlaceFacts.

Create HintDb strings.

(** ** Programs *)

Inductive command :=
  | New (o : nat)
  | NewCopy (o src : nat)
  | Assign (o src : nat)
  | Swap (o other : nat)
  | Destroy (o : nat)
  | Append (o src : nat) (srcStart srcLength : Z)
  | AppendCodePoint (o : nat) (c : Z)
  | Replace (o : nat) (start length : Z) (src : nat) (srcStart srcLength : Z)
  | ReplaceCodePoint (o : nat) (start length c : Z)
  | Remove (o : nat) (start length : Z)
  | Truncate (o : nat) (targetLength : Z)
  | PadLeading (o : nat) (targetLength padChar : Z)
  | PadTrailing (o : nat) (targetLength padChar : Z)
  | SetCharAt (o : nat) (offset c : Z).

(** The object whose value it changes; [Swap] and [Destroy] cannot fail. *)
Definition target (c : command) : nat :=
  match c with
  | New o | NewCopy o _ | Assign o _ | Swap o _ | Destroy o | Append o _ _ _ | AppendCodePoint o _ | Replace o _ _ _ _ _ | ReplaceCodePoint o _ _ _
  | Remove o _ _ | Truncate o _ | PadLeading o _ _ | PadTrailing o _ _ | SetCharAt o _ _ => o
  end.

(** *** The values *)

Notation values := (gmap nat UnicodeString.t).

(** What a command does to values.  [None]: an object that does not exist or exists already, a
    source that is the target, a text longer than [max_text], an argument that the code does not
    take. *)
Definition step_value (m : values) (c : command) : option values :=
  match c with
  | New o => match m !! o with None => Some (<[o := UnicodeString.Str []]> m) | Some _ => None end
  | NewCopy o src => v ← m !! src; match m !! o with None => if UnicodeString.length v <=? max_text then Some (<[o := v]> m) else None | Some _ => None end
  | Assign o src => _ ← m !! o; v ← m !! src; if UnicodeString.length v <=? max_text then Some (<[o := v]> m) else None
  | Swap o other => v ← m !! o; v' ← m !! other; if (o =? other)%nat then None else Some (<[o := v']> (<[other := v]> m))
  | Destroy o => _ ← m !! o; Some (delete o m)
  | Append o src srcStart srcLength =>
      v ← m !! o; s ← m !! src;
      if negb (o =? src)%nat && (UnicodeString.length v + UnicodeString.length s <=? max_text) then Some (<[o := appended v (part s srcStart srcLength)]> m) else None
  | AppendCodePoint o c =>
      v ← m !! o; if (0 <=? c) && (c <=? 0x10ffff) && (UnicodeString.length v + 2 <=? max_text) then Some (<[o := appended v (Utf16.encode c)]> m) else None
  | Replace o start length src srcStart srcLength =>
      v ← m !! o; s ← m !! src;
      if negb (o =? src)%nat && (UnicodeString.length v + UnicodeString.length s <=? max_text) then Some (<[o := replaced v start length (part s srcStart srcLength)]> m) else None
  | ReplaceCodePoint o start length c =>
      v ← m !! o; if (0 <=? c) && (c <=? 0x10ffff) && (UnicodeString.length v + 2 <=? max_text) then Some (<[o := replaced v start length (Utf16.encode c)]> m) else None
  | Remove o start length => v ← m !! o; if UnicodeString.length v <=? max_text then Some (<[o := removed v start length]> m) else None
  | Truncate o n => v ← m !! o; if (UnicodeString.length v <=? max_text) && (INT32_MIN <=? n) && (n <=? INT32_MAX) then Some (<[o := truncated v n]> m) else None
  | PadLeading o n c => v ← m !! o; if n <=? max_capacity then Some (<[o := padded_leading v n c]> m) else None
  | PadTrailing o n c => v ← m !! o; if n <=? max_capacity then Some (<[o := padded_trailing v n c]> m) else None
  | SetCharAt o offset c => v ← m !! o; Some (<[o := with_unit v offset c]> m)
  end.

Section Refinement.
Context `{HP : Heap}.

(** *** The code *)

Definition exec (st : store) (c : command) : option store :=
  match c with
  | New o => Some (new_empty st o)
  | NewCopy o src => new_copy st o src
  | Assign o src => operator_assign st o src
  | Swap o other => swap st o other
  | Destroy o => destroy st o
  | Append o src srcStart srcLength => doAppend_str st o src srcStart srcLength
  | AppendCodePoint o c => append_code_point st o c
  | Replace o start length src srcStart srcLength => doReplace_str st o start length src srcStart srcLength
  | ReplaceCodePoint o start length c => replace_code_point st o start length c
  | Remove o start length => remove st o start length
  | Truncate o n => '(st, _) ← truncate st o n; Some st
  | PadLeading o n c => '(st, _) ← padLeading st o n c; Some st
  | PadTrailing o n c => '(st, _) ← padTrailing st o n c; Some st
  | SetCharAt o offset c => setCharAt st o offset c
  end.

(** A shared array is cloned by [setCharAt] at its capacity, whatever the length of the text. *)
Definition room (st : store) (c : command) : Prop :=
  match c with SetCharAt o _ _ => forall ob, objs st !! o = Some ob -> getCapacity ob <= max_capacity | _ => True end.

(** The store holds exactly these values. *)
Record represents (st : store) (m : values) : Prop := {
  rp_wf : wf st;
  rp_values : forall o, value_at st o = Closed <$> m !! o
}.

(** ** One command *)

Definition refined (st : store) (m m' : values) (c : command) (r : option store) : Prop :=
  exists st', r = Some st' /\ (represents st' m' \/ refused /\ represents st' (<[target c := UnicodeString.Bogus]> m)).

Lemma outcome_represents w st m o v r :
  represents st m -> outcome w st o v r ->
  exists st', r = Some st' /\ (represents st' (<[o := v]> m) \/ refused /\ represents st' (<[o := UnicodeString.Bogus]> m)).
Proof.
  intros [Hwf Hm] (st' & -> & Hwf' & Hfr & Hv). exists st'. split; [done|].
  assert (Hput : forall x, value_at st' o = Some (Closed x) -> represents st' (<[o := x]> m)).
  { intros x Hx. split; [done|]. intros q. destruct (decide (q = o)) as [->|Hne]; [by rewrite lookup_insert_eq|]. rewrite lookup_insert_ne by done. by rewrite <- Hm, (frame_value o w st st'). }
  destruct Hv as [Hv|[Href Hv]]; auto.
Qed.

Lemma represents_value st m o v : represents st m -> m !! o = Some v -> value_at st o = Some (Closed v).
Proof. intros [_ Hm] E. by rewrite Hm, E. Qed.

Lemma represents_obj st m o v : represents st m -> m !! o = Some v -> is_Some (objs st !! o).
Proof. intros Hr E. apply (represents_value st m o v Hr) in E. unfold value_at in E. by destruct (objs st !! o). Qed.

Lemma peek_memory st b off k a : peek (blocks st) b = Some (k, a) -> 0 <= off <= zlen a -> memory st (InBlock b off) = Some (drop (Z.to_nat off) a).
Proof.
  unfold peek, memory. destruct (blocks st !! b) as [bl|]; [|done]. cbn [mbind option_bind]. intros [= _ ->] Hoff. destruct (Z.leb_spec 0 off), (Z.leb_spec off (zlen a)); lia || done.
Qed.

Lemma value_exists st o ob : wf st -> objs st !! o = Some ob -> is_Some (value_at st o).
Proof.
  intros Hwf Ho. destruct (wf_focus st o ob Hwf Ho) as (_ & _ & fl & len & Hok). pose proof (ok_packed _ _ _ _ Hok) as Hp. pose proof (pk_nonneg _ _ _ Hp).
  unfold value_at. rewrite Ho. cbn [mbind option_bind]. unfold value_of, isBogus. rewrite !(packed_mask ob fl len) by (done || cbn; lia). rewrite (getArrayStart_packed o ob fl len Hp).
  destruct Hok as [|? ? [-> | ->]|? ? b a [-> | ->] _ Ea Epk Ec|? ? b off a [->|[-> | ->]] _ Ea Epk H0 Hoc Hl]; eval_flags; rewrite ?Ea; cbn [mbind option_bind]; try done.
  - unfold memory. by rewrite Ho.
  - rewrite (peek_memory st b 0 true a Epk) by (pose proof (zlen_nonneg a); lia). done.
  - rewrite (peek_memory st b off false a Epk) by lia. done.
  - rewrite (peek_memory st b off false a Epk) by lia. done.
Qed.

Lemma represents_none st m o : represents st m -> m !! o = None -> objs st !! o = None.
Proof.
  intros [Hwf Hm] E. destruct (objs st !! o) as [ob|] eqn:Ho; [|done]. destruct (value_exists st o ob Hwf Ho) as [v Hv]. by rewrite Hm, E in Hv.
Qed.

(** The cases in which [step_value] is defined. *)
Ltac step_cases H :=
  repeat match type of H with
  | mbind _ (?m !! ?o) = Some _ => let E := fresh "E" in destruct (m !! o) as [?|] eqn:E; [cbn [mbind option_bind] in H|done]
  | match ?m !! ?o with None => _ | Some _ => None end = Some _ => let E := fresh "E" in destruct (m !! o) as [?|] eqn:E; [done|]
  | (if ?b then _ else None) = Some _ => let E := fresh "Hif" in destruct b eqn:E; [|done]
  | (if ?b then None else _) = Some _ => let E := fresh "Hif" in destruct b eqn:E; [done|]
  | Some _ = Some _ => injection H as <-
  end.

Hint Resolve represents_value represents_obj represents_none rp_wf : strings.

Lemma step_assign st m o src v : represents st m -> m !! src = Some v -> is_Some (m !! o) -> UnicodeString.length v <= max_text -> refined st m (<[o := v]> m) (Assign o src) (exec st (Assign o src)).
Proof.
  intros Hr Hv [v0 Ho] Hl. cbn [exec]. unfold operator_assign. destruct (decide (o = src)) as [->|Hne].
  - unfold copyFrom. rewrite Nat.eqb_refl. exists st. split; [done|]. left. by rewrite insert_id.
  - eapply (outcome_represents None); [done|]. apply copyFrom_spec; eauto with strings. unfold max_text, max_capacity in *. lia.
Qed.

Lemma step_swap st m o p v v' : represents st m -> m !! o = Some v -> m !! p = Some v' -> o <> p -> refined st m (<[o := v']> (<[p := v]> m)) (Swap o p) (exec st (Swap o p)).
Proof.
  intros Hr Ho Hp Hne. destruct (swap_values st o p (rp_wf _ _ Hr) Hne) as (st' & E & Hwf' & H1 & H2 & H3 & _); [eauto with strings..|]. exists st'. split; [done|]. left. split; [done|]. intros q. destruct (decide (q = o)) as [->|Hq].
  - rewrite lookup_insert_eq, H1. by eapply represents_value.
  - rewrite lookup_insert_ne by done. destruct (decide (q = p)) as [->|Hq2]; [rewrite lookup_insert_eq, H2; by eapply represents_value|]. rewrite lookup_insert_ne, H3 by done. apply Hr.
Qed.

Lemma step_destroy st m o v : represents st m -> m !! o = Some v -> refined st m (delete o m) (Destroy o) (exec st (Destroy o)).
Proof.
  intros Hr Ho. destruct (destroy_spec None st o (rp_wf _ _ Hr)) as (st' & E & Hwf' & Eo & Hfr); [eauto with strings|]. exists st'. split; [done|]. left. split; [done|]. intros q. destruct (decide (q = o)) as [->|Hq].
  - rewrite lookup_delete_eq. unfold value_at. by rewrite Eo, lookup_delete_eq.
  - rewrite lookup_delete_ne, (frame_value o None st st') by (done || apply Hr). apply Hr.
Qed.

Lemma command_refines st m c m' : represents st m -> room st c -> step_value m c = Some m' -> refined st m m' c (exec st c).
Proof.
  intros Hr Hroom Hstep. destruct c; cbn [step_value room] in *; step_cases Hstep;
    try (by apply step_assign; [..|lia]); try (by apply step_swap; [..|apply Nat.eqb_neq]); try (by eapply step_destroy); (eapply outcome_represents; [done|]); cbn [exec].
  - apply (new_empty_spec None); eauto with strings.
  - apply (new_copy_spec None); eauto with strings. unfold max_text, max_capacity in *. lia.
  - apply andb_true_iff in Hif as [Hne%negb_true_iff%Nat.eqb_neq Hl]. apply doAppend_str_spec; eauto with strings; lia.
  - apply append_code_point_spec; eauto with strings; unfold Utf16.code_point; lia.
  - apply andb_true_iff in Hif as [Hne%negb_true_iff%Nat.eqb_neq Hl]. apply doReplace_str_spec; eauto with strings; lia.
  - apply replace_code_point_spec; eauto with strings; unfold Utf16.code_point; lia.
  - apply remove_spec; eauto with strings; lia.
  - apply (truncate_spec None); eauto with strings; lia.
  - apply padLeading_spec; eauto with strings; lia.
  - apply padTrailing_spec; eauto with strings; lia.
  - apply setCharAt_spec; eauto with strings.
Qed.

(** C2: refinement.  Any command on strings, in a store that keeps the invariant and represents the
    values [m], with arguments that the value semantics [step_value] is defined on, ends without
    touching memory that is not there; the store afterwards keeps the invariant, and represents the
    values that [step_value] gives, or, only if an allocation was refused, the old values with the
    target bogus.  No other string changes its value, whatever arrays they share.  [step_value] is
    defined when the source of an append or a replacement is another string than the target, the
    texts have at most [max_text] units together, and code points are in range. *)
Theorem string_command_refines st m c m' :
  represents st m -> room st c -> step_value m c = Some m' ->
  exists st', exec st c = Some st' /\ (represents st' m' \/ refused /\ represents st' (<[target c := UnicodeString.Bogus]> m)).
Proof. apply command_refines. Qed.

(** ** Programs *)

Fixpoint run_values (m : values) (cs : list command) : option values := match cs with [] => Some m | c :: cs => m ← step_value m c; run_values m cs end.
Fixpoint exec_all (st : store) (cs : list command) : option store := match cs with [] => Some st | c :: cs => st ← exec st c; exec_all st cs end.

(** There is room at every step. *)
Fixpoint rooms (st : store) (cs : list command) : Prop := match cs with [] => True | c :: cs => room st c /\ forall st', exec st c = Some st' -> rooms st' cs end.

Lemma commands_refine st m cs m' :
  ~ refused -> represents st m -> rooms st cs -> run_values m cs = Some m' -> exists st', exec_all st cs = Some st' /\ represents st' m'.
Proof.
  intros Hno. revert st m. induction cs as [|c cs IH]; intros st m Hr Hroom Hrun; cbn [run_values exec_all rooms] in *.
  - injection Hrun as <-. by exists st.
  - destruct (step_value m c) as [m1|] eqn:E; [|done]. cbn [mbind option_bind] in Hrun. destruct Hroom as [Hc Hcs]. destruct (command_refines st m c m1 Hr Hc E) as (st1 & E1 & [Hr1|[? _]]); [|done].
    rewrite E1. cbn [mbind option_bind]. apply (IH st1 m1 Hr1); [by apply Hcs|done].
Qed.

(** refinement.  With an allocator that refuses nothing, a whole program of commands has the
    same result as on values: it runs to its end, and the store represents the values that
    [run_values] computes without any store. *)
Theorem string_program_values st m cs m' :
  ~ refused -> represents st m -> rooms st cs -> run_values m cs = Some m' -> exists st', exec_all st cs = Some st' /\ represents st' m'.
Proof. apply commands_refine. Qed.

(** ** The end of all strings *)

Fixpoint destroy_all (st : store) (os : list nat) : option store := match os with [] => Some st | o :: os => st ← destroy st o; destroy_all st os end.

Lemma destroy_all_spec os st :
  wf st -> NoDup os -> (forall o, o ∈ os <-> is_Some (objs st !! o)) ->
  exists st', destroy_all st os = Some st' /\ wf st' /\ objs st' = ∅ /\ forall b a, peek (blocks st) b = Some (false, a) -> peek (blocks st') b = Some (false, a).
Proof.
  revert st. induction os as [|o os IH]; intros st Hwf Hnd Hos; cbn [destroy_all].
  - exists st. split; [done|]. split; [done|]. split; [|done]. apply map_empty. intros o. apply eq_None_not_Some. intros Ho. apply Hos, elem_of_nil in Ho. done.
  - apply NoDup_cons in Hnd as [Hni Hnd]. destruct (destroy_spec None st o Hwf) as (st1 & -> & Hwf1 & Eo & Hfr); [apply Hos; by left|]. cbn [mbind option_bind].
    destruct (IH st1 Hwf1 Hnd) as (st2 & E2 & Hwf2 & Eo2 & Hext).
    { intros q. rewrite Eo. destruct (decide (q = o)) as [->|Hne]; [rewrite lookup_delete_eq; split; [done|by intros [? ?]]|]. rewrite lookup_delete_ne by done. rewrite <- Hos, elem_of_cons. naive_solver. }
    exists st2. split_and!; auto. intros b a Hb. apply Hext. rewrite (fr_blocks _ _ _ _ Hfr); [done|]. right. by exists a.
Qed.

(** C11: no leaks and no double frees.  In a store that keeps the invariant, the destructors of all
    strings, in any order, free every counted array exactly once and nothing else: none is left, and
    the caller's memory that strings were aliases of is what it was. *)
Theorem strings_freed os st :
  wf st -> NoDup os -> (forall o, o ∈ os <-> is_Some (objs st !! o)) ->
  exists st', destroy_all st os = Some st' /\ (forall b bl, blocks st' !! b = Some bl -> refs bl = None) /\
    forall b a, blocks st !! b = Some (mk_block None a) -> blocks st' !! b = Some (mk_block None a).
Proof.
  intros Hwf Hnd Hos. destruct (destroy_all_spec os st Hwf Hnd Hos) as (st' & E & Hwf' & Eo & Hext). exists st'. split; [done|]. split.
  - intros b [[n|] a] Hb; [exfalso|done]. destruct (re_refs _ _ _ _ _ Hwf' b n a Hb) as [-> [Hpos|]]; [|done]. rewrite Eo in Hpos. unfold count in Hpos. rewrite map_filter_empty, map_size_empty in Hpos. change (occ b []) with 0 in Hpos. lia.
  - intros b a Hb. apply peek_external, Hext. unfold peek. by rewrite Hb.
Qed.

(** ** The buffer *)

(** C38: round trip.  What the caller writes through the pointer that [getBuffer] gives, up to the
    capacity asked for, is the text of the string after [releaseBuffer]; in between the string is
    open, and every other string keeps its value throughout, also one that shared the array. *)
Theorem buffer_roundtrip st o u minCapacity x :
  wf st -> value_at st o = Some (Closed (UnicodeString.Str u)) -> 0 <= minCapacity <= max_capacity -> zlen x <= minCapacity -> ~ refused ->
  exists st1 p st2 st3, getBuffer st o minCapacity = Some (st1, Some p) /\ wf st1 /\ value_at st1 o = Some Open /\ store_units st1 p 0 x = Some st2 /\
    releaseBuffer st2 o (zlen x) = Some st3 /\ wf st3 /\ value_at st3 o = Some (Closed (UnicodeString.Str x)) /\ forall q, q <> o -> value_at st3 q = value_at st q.
Proof.
  intros Hwf Hv Hmin Hx Hno. destruct (closed_at st o u Hwf Hv) as (ob & Hc). pose proof (zlen_nonneg x).
  destruct (getBuffer_spec (alias_of st o) st o ob u minCapacity Hc) as [(st1 & p & ob1 & fl & a & E1 & Hv1 & Hf & Ep & Hcap & Hfr1)|(st1 & _ & _ & Href)]; [intros b; by apply alias_writes, Hc|done| |done].
  destruct (view_store _ [] None st1 o ob1 (fl + 16) a 0 0 x p Hv1 Ep) as (st2 & ob2 & E2 & Hv2 & _ & Hfr2 & _); [lia..|].
  assert (Hz : zlen (splice a 0 x) = zlen a) by (apply splice_zlen; lia). destruct (close_view _ st2 o ob2 fl _ 0 (zlen x) Hv2 Hf) as (st3 & ob3 & E3 & Hv3 & Hfr3); [lia|].
  exists st1, p, st2, st3. split; [done|]. split; [by eapply view_wf|]. split.
  { unfold value_at. rewrite (v_obj _ _ _ _ _ _ _ _ _ Hv1). cbn [mbind option_bind]. unfold value_of, isBogus. rewrite !(packed_mask ob1 (fl + 16) 0) by (apply Hv1 || done). by destruct Hf as [->|[->| ->]]. }
  split; [done|]. split; [done|]. split; [by eapply view_wf|]. split.
  - rewrite (view_value _ _ _ _ _ _ _ _ _ Hv3) by (by destruct Hf as [->|[->| ->]]). by rewrite ztake_splice_0.
  - intros q Hq. apply (frame_value o (alias_of st o)); [done| |done]. eapply frame_trans; [exact Hfr1|]. by eapply frame_trans.
Qed.

(** ** A string appended to itself *)

(** C39: error.  [s.append(s)] on a string that has a counted array of its own with no room for the
    double length: the array is freed when a larger one is in place, and then read. *)
Theorem self_append_reads_freed st o ob u b :
  wf st -> objs st !! o = Some ob -> value_at st o = Some (Closed (UnicodeString.Str u)) -> owned ob = Some b -> refCount st ob = Some 1 ->
  getCapacity ob < 2 * zlen u <= max_text -> ~ refused -> append st o o = None.
Proof.
  intros Hwf Ho Hv Hown Hrc Hcap Hno. assert (Hc : closed st o ob u) by (split; auto; unfold value_at in Hv; by rewrite Ho in Hv). destruct (closed_ok st o ob u Hc) as (fl & Hok & Hfl). pose proof (ok_packed _ _ _ _ Hok) as Hp.
  assert (fl = 4) as -> by (rewrite (owned_packed ob fl _ Hp) in Hown; destruct Hfl as [->|[->|[->| ->]]]; done). destruct (ok_4 _ _ _ Hok) as (b' & a0 & Ea & _). rewrite (owned_packed ob 4 _ Hp), Ea in Hown. eval_flags. injection Hown as ->.
  pose proof (closed_capacity st o ob u Hc). unfold max_text in *.
  unfold append. rewrite Ho. cbn [mbind option_bind]. rewrite (closed_length st o ob u Hc). unfold doAppend_str. destruct (Z.eqb_spec (zlen u) 0) as [?|_]; [lia|]. rewrite Ho. cbn [mbind option_bind].
  assert (pinIndices ob 0 (zlen u) = (0, zlen u)) as ->.
  { rewrite (closed_pinIndices st o ob u 0 (zlen u) Hc). exact (UnicodeString_facts.pinIndices_whole (UnicodeString.Str u)). }
  rewrite (getArrayStart_packed o ob 4 _ Hp), Ea. eval_flags. unfold doAppend. rewrite Ho. cbn [mbind option_bind]. rewrite (closed_isWritable st o ob u Hc). cbn [negb orb].
  destruct (Z.eqb_spec (zlen u) 0) as [?|_]; [lia|]. destruct (Z.ltb_spec (zlen u) 0); [lia|]. cbn [mbind option_bind]. destruct (Z.eqb_spec (zlen u) 0) as [?|_]; [lia|]. rewrite (closed_length st o ob u Hc). set (n := zlen u + zlen u).
  rewrite checked_in by (unfold n, INT32_MIN, INT32_MAX; lia). cbn [mbind option_bind]. destruct (Z.leb_spec n (getCapacity ob)); [unfold n in *; lia|]. cbn [mbind option_bind]. unfold growth. rewrite Z.shiftr_div_pow2 by lia. change (2 ^ 2) with 4.
  rewrite checked_in by (unfold n, INT32_MIN, INT32_MAX, kGrowSize; dlia). cbn [mbind option_bind]. unfold cloneArray. assert (Hm1 : (n =? -1) = false) by (apply Z.eqb_neq; unfold n; lia).
  destruct (clone_spec (alias_of st o) st o ob 4 (zlen u) u n (n + n / 4 + kGrowSize) true false Hwf Ho Hok (cl_value _ _ _ _ Hc)) as [(_ & a & Hview & _ & Hnc & _)|[(st1 & del & ob1 & fl1 & a & len1 & -> & Hview & _ & _ & _ & _ & _ & _ & _ & Hfresh & _ & Hgone)|(st1 & _ & Href & _)]];
    rewrite ?Hm1 in *; [intros c; by apply alias_writes|unfold n, max_capacity; lia|unfold n, max_capacity, kGrowSize; dlia|right; unfold n, kGrowSize; dlia|..|done].
  - rewrite <- (exclusive_capacity _ _ _ _ _ (v_packed _ _ _ _ _ _ _ _ _ Hview) (v_exclusive _ _ _ _ _ _ _ _ _ Hview)) in Hnc. lia.
  - assert (Hb1 : blocks st1 !! b = None) by (apply Hgone; [done|done|done|by rewrite (owned_packed ob 4 _ Hp), Ea]).
    cbn [mbind option_bind]. rewrite (v_obj _ _ _ _ _ _ _ _ _ Hview). cbn [mbind option_bind].
    assert (Hplace : exists q, getArrayStart o ob1 = Some q /\ same_place (InBlock b 0) q 0 (zlen u) = false).
    { destruct Hfresh as [[-> _]|(b1 & -> & _ & Hnew)]; eexists; (split; [done|]); [done|]. cbn. destruct (Nat.eqb_spec b b1) as [->|]; [|done]. cbn. apply Z.eqb_neq. lia. }
    destruct Hplace as (q & Eq & Eplace). rewrite Eq. cbn [mbind option_bind]. rewrite Eplace. unfold us_arrayCopy. destruct (Z.ltb_spec 0 (zlen u)); [|lia]. cbn [mbind option_bind]. unfold load, memory. by rewrite Hb1.
Qed.
End Refinement.

(** ** Two strings that share an array *)

Definition no_strings : store := mk_store ∅ ∅ 0.

Lemma no_strings_represents `{HP : Heap} : represents no_strings ∅.
Proof.
  split; [|done]. split; unfold no_strings; cbn.
  - intros o ob Ho. by rewrite lookup_empty in Ho.
  - intros b n a Hb. by rewrite lookup_empty in Hb.
  - intros o1 o2 ob1 ob2 b _ H1. by rewrite lookup_empty in H1.
  - intros b [bl Hb]. by rewrite lookup_empty in Hb.
  - intros b Hb. by apply elem_of_nil in Hb.
Qed.

#[local] Existing Instance big_heap.

(** A string of forty units, its copy, and the commands that follow. *)
Definition solo : list command := [New 0; PadTrailing 0 40 97].
Definition pair : list command := solo ++ [NewCopy 1 0].
Definition session : list command := pair ++ [SetCharAt 1 0 98; Append 0 1 0 3; Remove 1 2 30; Swap 0 1; Assign 1 0; Destroy 0].

Definition result_of (cs : list command) : store := match exec_all no_strings cs with Some st => st | None => no_strings end.
Definition solo_store : store := Eval vm_compute in result_of solo.
Definition pair_store : store := Eval vm_compute in result_of pair.

Definition forty : list Z := replicate 40 97.

Lemma exec_to `{HP : Heap} st m cs m' st' : ~ refused -> represents st m -> rooms st cs -> run_values m cs = Some m' -> exec_all st cs = Some st' -> represents st' m'.
Proof. intros Hno Hr Hroom Hrun E. destruct (commands_refine st m cs m' Hno Hr Hroom Hrun) as (st2 & E2 & Hr2). congruence. Qed.

Lemma solo_represents : represents solo_store {[0%nat := UnicodeString.Str forty]}.
Proof.
  apply (exec_to no_strings ∅ solo); [exact big_heap_grants|apply no_strings_represents| |by vm_compute|by vm_compute]. cbn [solo rooms room]. auto.
Qed.

Lemma pair_represents : represents pair_store (<[1%nat := UnicodeString.Str forty]> {[0%nat := UnicodeString.Str forty]}).
Proof.
  apply (exec_to no_strings ∅ pair); [exact big_heap_grants|apply no_strings_represents| |by vm_compute|by vm_compute]. cbn [pair solo rooms room app]. auto 10.
Qed.

Lemma string_command_refines_witness :
  room pair_store (SetCharAt 1 0 98) /\
  exists st', exec pair_store (SetCharAt 1 0 98) = Some st' /\
    (represents st' (<[1%nat := UnicodeString.Str (98 :: replicate 39 97)]> {[0%nat := UnicodeString.Str forty]}) \/
     refused /\ represents st' (<[1%nat := UnicodeString.Bogus]> (<[1%nat := UnicodeString.Str forty]> {[0%nat := UnicodeString.Str forty]}))).
Proof.
  assert (Hroom : room pair_store (SetCharAt 1 0 98)) by (intros ob E; vm_compute in E; injection E as <-; vm_compute; discriminate). split; [exact Hroom|].
  apply (string_command_refines pair_store _ (SetCharAt 1 0 98) _ pair_represents Hroom). by vm_compute.
Defined.

Lemma string_program_values_witness :
  exists st', exec_all no_strings session = Some st' /\ represents st' {[1%nat := UnicodeString.Str (98 :: replicate 9 97)]}.
Proof.
  apply (string_program_values no_strings ∅ session); [exact big_heap_grants|apply no_strings_represents| |by vm_compute].
  cbn [session pair solo rooms room app]. repeat (split; [exact I|intros ? E; vm_compute in E; injection E as <-]). split; [intros ob E; vm_compute in E; injection E as <-; vm_compute; discriminate|].
  intros ? E; vm_compute in E; injection E as <-. auto 20.
Defined.

Lemma strings_freed_witness :
  exists st', destroy_all pair_store [1%nat; 0%nat] = Some st' /\ (forall b bl, blocks st' !! b = Some bl -> refs bl = None) /\
    forall b a, blocks pair_store !! b = Some (mk_block None a) -> blocks st' !! b = Some (mk_block None a).
Proof.
  apply (strings_freed); [exact (rp_wf _ _ pair_represents)|by apply NoDup_cons; split; [set_solver|apply NoDup_singleton]|]. intros o. rewrite <- elem_of_dom. assert (dom (objs pair_store) = ({[0%nat; 1%nat]} : gset nat)) as -> by (by vm_compute). set_solver.
Defined.

Lemma buffer_roundtrip_witness :
  exists st1 p st2 st3, getBuffer pair_store 1 30 = Some (st1, Some p) /\ wf st1 /\ value_at st1 1 = Some Open /\ store_units st1 p 0 [104; 105] = Some st2 /\
    releaseBuffer st2 1 (zlen [104; 105]) = Some st3 /\ wf st3 /\ value_at st3 1 = Some (Closed (UnicodeString.Str [104; 105])) /\
    forall q, q <> 1%nat -> value_at st3 q = value_at pair_store q.
Proof.
  apply (buffer_roundtrip pair_store 1 forty 30 [104; 105]); [exact (rp_wf _ _ pair_represents)|by vm_compute|by vm_compute|by vm_compute|exact big_heap_grants].
Defined.

Lemma self_append_reads_freed_witness : value_at solo_store 0 = Some (Closed (UnicodeString.Str forty)) /\ append solo_store 0 0 = None.
Proof.
  split; [by vm_compute|]. refine (self_append_reads_freed solo_store 0 _ forty 0 (rp_wf _ _ solo_represents) _ _ _ _ _ big_heap_grants); by vm_compute.
Defined.
End StringRefinement.
