(* ===== verification/StringReverse.v ===== *)
(** * Reversing strings

    [doReverse] swaps the units of a range from both ends and then the halves of the surrogate
    pairs that this has turned around: the code points of the range come in reverse order. *)

From S2P Require Import Prelude Utf16 UString StringStore StringEdit StringStoreFacts StringCloneFacts StringEditFacts StringCopyFacts StringInPlaceFacts StringRefinement.

Module StringReverse.
Import Utf16 StringStore StringEdit StringStoreFacts StringCloneFacts StringEditFacts StringCopyFacts StringInPlaceFacts.

(** ** The loops *)

Definition has_lead (u : list Z) : bool := existsb U16_IS_LEAD u.

Lemma has_lead_app u v : has_lead (u ++ v) = has_lead u || has_lead v.
Proof. apply existsb_app. Qed.

(** A list of at least two units has a first and a last one. *)
Lemma split_ends (m : list Z) : 2 <= zlen m -> exists x m' y, m = x :: m' ++ [y].
Proof.
  destruct m as [|x m]; [by cbn|]. intros Hm. destruct m as [|z m _] using rev_ind; [by cbn in Hm|]. by exists x, m, z.
Qed.

Lemma reverse_loop_spec fuel (l m r : list Z) has :
  2 <= zlen m -> zlen m <= Z.of_nat fuel ->
  exists stop has' c, reverse_loop fuel (l ++ m ++ r) (zlen l) (zlen l + zlen m - 1) has = Some (l ++ rev m ++ r, stop, has') /\
    zget (l ++ rev m ++ r) stop = Some c /\ has' || U16_IS_LEAD c = has || has_lead m.
Proof.
  revert l m r has. induction fuel as [|fuel IH]; intros l m r has Hm Hf; [lia|]. destruct (split_ends m Hm) as (x & m' & y & ->). assert (Hm' : zlen (x :: m' ++ [y]) = zlen m' + 2) by (rewrite zlen_cons, zlen_app; change (zlen [y]) with 1; lia). rewrite Hm' in *. pose proof (zlen_nonneg m').
  cbn [reverse_loop]. assert (El : l ++ (x :: m' ++ [y]) ++ r = l ++ x :: m' ++ y :: r) by (by rewrite <- app_comm_cons, <- app_assoc). rewrite El, zget_middle. cbn [mbind option_bind].
  assert (Er : l ++ x :: m' ++ y :: r = (l ++ x :: m') ++ y :: r) by (by rewrite <- app_assoc). assert (Hz : zlen l + (zlen m' + 2) - 1 = zlen (l ++ x :: m')) by (rewrite zlen_app, zlen_cons; lia).
  rewrite Hz, Er, zget_middle, <- Er. cbn [mbind option_bind]. rewrite zset_middle. cbn [mbind option_bind].
  assert (Er2 : l ++ y :: m' ++ y :: r = (l ++ y :: m') ++ y :: r) by (by rewrite <- app_assoc). assert (Hz2 : zlen (l ++ x :: m') = zlen (l ++ y :: m')) by (by rewrite !zlen_app, !zlen_cons).
  rewrite Hz2, Er2, zset_middle. cbn [mbind option_bind]. set (has1 := has || U16_IS_LEAD x || U16_IS_LEAD y).
  assert (Ehas : has || has_lead (x :: m' ++ [y]) = has1 || has_lead m').
  { unfold has1. change (x :: m' ++ [y]) with ([x] ++ m' ++ [y]). rewrite !has_lead_app. cbn. rewrite !orb_false_r. by destruct has, (U16_IS_LEAD x), (U16_IS_LEAD y), (has_lead m'). }
  rewrite Ehas. assert (Erev : l ++ rev (x :: m' ++ [y]) ++ r = (l ++ [y]) ++ rev m' ++ x :: r) by (cbn [rev]; rewrite rev_app_distr; cbn; by rewrite <- !app_assoc). rewrite Erev.
  assert (Enow : (l ++ y :: m') ++ x :: r = (l ++ [y]) ++ m' ++ x :: r) by (by rewrite <- !app_assoc). rewrite Enow. assert (Hl1 : zlen l + 1 = zlen (l ++ [y])) by (by rewrite zlen_app).
  assert (Hr1 : zlen (l ++ y :: m') - 1 = zlen (l ++ [y]) + zlen m' - 1) by (rewrite !zlen_app, zlen_cons; change (zlen [y]) with 1; lia). rewrite Hl1, Hr1. destruct (Z.ltb_spec (zlen (l ++ [y])) (zlen (l ++ [y]) + zlen m' - 1)) as [Hlt|Hge].
  - apply IH; lia.
  - assert (rev m' = m') as -> by (destruct m' as [|z [|z' m']]; [done|done|rewrite !zlen_cons in *; pose proof (zlen_nonneg m'); lia]).
    destruct m' as [|z m'].
    + exists (zlen (l ++ [y])), has1, x. split; [done|]. cbn [app]. rewrite zget_middle. split; [done|]. unfold has1. cbn. by destruct has, (U16_IS_LEAD x), (U16_IS_LEAD y).
    + assert (m' = []) as -> by (destruct m'; [done|]; rewrite !zlen_cons in *; pose proof (zlen_nonneg m'); lia). exists (zlen (l ++ [y])), has1, z. split; [done|]. cbn [app]. rewrite zget_middle. split; [done|]. cbn. by rewrite orb_false_r.
Qed.

(** The pairs turned around, as a function. *)
Fixpoint reswap (v : list Z) : list Z :=
  match v with
  | [] => []
  | a :: v' => match v' with [] => [a] | b :: r => if U16_IS_TRAIL a && U16_IS_LEAD b then b :: a :: reswap r else a :: reswap v' end
  end.

Lemma reswap_two a b r : reswap (a :: b :: r) = if U16_IS_TRAIL a && U16_IS_LEAD b then b :: a :: reswap r else a :: reswap (b :: r).
Proof. done. Qed.

Lemma reswap_loop_spec fuel d v : zlen v < Z.of_nat fuel -> reswap_loop fuel (d ++ v) (zlen d) (zlen d + zlen v - 1) = Some (d ++ reswap v).
Proof.
  revert d v. induction fuel as [|fuel IH]; intros d v Hf; [pose proof (zlen_nonneg v); lia|]. cbn [reswap_loop]. destruct v as [|a [|b r]].
  - change (zlen (@nil Z)) with 0. destruct (Z.ltb_spec (zlen d) (zlen d + 0 - 1)); [lia|done].
  - change (zlen [a]) with 1. destruct (Z.ltb_spec (zlen d) (zlen d + 1 - 1)); [lia|done].
  - rewrite !zlen_cons in *. pose proof (zlen_nonneg r). set (n := zlen d + _ - 1). destruct (Z.ltb_spec (zlen d) n); [|unfold n in *; lia]. rewrite zget_middle. cbn [mbind option_bind].
    assert (E1 : forall x y, d ++ x :: y :: r = (d ++ [x]) ++ y :: r) by (intros x y; by rewrite <- app_assoc). assert (Z1 : forall x, zlen d + 1 = zlen (d ++ [x])) by (intros x; by rewrite zlen_app).
    rewrite (Z1 a), (E1 a b), zget_middle. cbn [mbind option_bind]. rewrite reswap_two. destruct (U16_IS_TRAIL a && U16_IS_LEAD b).
    + rewrite <- E1, zset_middle. cbn [mbind option_bind]. rewrite <- (Z1 a), (Z1 b), (E1 b b), zset_middle. cbn [mbind option_bind]. rewrite <- E1. specialize (IH (d ++ [b; a]) r).
      rewrite zlen_app, <- !app_assoc in IH. change (zlen [b; a]) with 2 in IH. cbn [app] in IH. rewrite <- IH by lia. f_equal. unfold n. lia.
    + specialize (IH (d ++ [a]) (b :: r)). rewrite zlen_app, zlen_cons, <- !app_assoc in IH. change (zlen [a]) with 1 in IH. cbn [app] in IH. rewrite <- E1, <- (Z1 a), <- IH by lia. f_equal. unfold n. lia.
Qed.

Lemma reswap_no_lead v : has_lead v = false -> reswap v = v.
Proof.
  induction v as [|a v IH]; [done|]. cbn [has_lead existsb]. intros [_ Hv]%orb_false_iff. specialize (IH Hv). destruct v as [|b r]; [done|]. rewrite reswap_two. cbn in Hv. apply orb_false_iff in Hv as [-> _]. rewrite andb_false_r. by rewrite IH.
Qed.

Lemma has_lead_rev u : has_lead (rev u) = has_lead u.
Proof. induction u as [|x u IH]; [done|]. cbn [rev]. rewrite has_lead_app, IH. cbn. rewrite orb_false_r. apply orb_comm. Qed.

(** The units of the code points, the last code point first. *)
Definition reversed (u : list Z) : list Z := concat (map encode (rev (code_points u))).

Lemma reswap_rev n u : Forall unit16 u -> (List.length u <= n)%nat -> reswap (rev u) = reversed u.
Proof.
  unfold reversed. revert u. induction n as [|n IH]; intros u Hu Hn; [by destruct u; [|cbn in Hn; lia]|]. destruct u as [|t u _] using rev_ind; [done|]. apply Forall_app in Hu as [Hu Ht]. apply Forall_cons in Ht as [Ht _]. rewrite length_app in Hn. cbn in Hn.
  destruct u as [|l u _] using rev_ind.
  - cbn. by rewrite app_nil_r, encode_unit.
  - destruct (is_pair l t) eqn:Ep.
    + apply Forall_app in Hu as [Hu Hl]. apply Forall_cons in Hl as [Hl _]. rewrite <- app_assoc. cbn [app]. rewrite code_points_snoc_pair by done. rewrite !rev_app_distr. cbn [rev app map concat].
      destruct (encode_supplementary l t Hl Ht Ep) as [_ ->]. unfold is_pair in Ep. rewrite reswap_two. rewrite andb_comm in Ep. rewrite Ep. cbn [app]. rewrite IH; [done|done|rewrite length_app in Hn; cbn in Hn; lia].
    + rewrite code_points_snoc_single by (intros l'; rewrite last_snoc; by intros [= <-]). rewrite !rev_app_distr. cbn [rev app map concat]. rewrite encode_unit by done.
      assert (Es : reswap (t :: l :: rev u) = t :: reswap (l :: rev u)) by (rewrite reswap_two; unfold is_pair in Ep; rewrite andb_comm in Ep; by rewrite Ep).
      rewrite Es. cbn [app]. f_equal. rewrite <- IH; [|done|lia]. by rewrite rev_app_distr.
Qed.

Lemma reverse_units_spec u : Forall unit16 u -> 2 <= zlen u -> reverse_units u = Some (reversed u).
Proof.
  intros Hu Hl. unfold reverse_units. destruct (reverse_loop_spec (S (List.length u)) [] u [] false Hl) as (stop & has & c & E & Hc & Hhas); [unfold zlen; lia|]. cbn [app] in *. rewrite !app_nil_r in *. change (zlen (@nil Z)) with 0 in E. rewrite Z.add_0_l in E.
  rewrite E. cbn [mbind option_bind]. rewrite Hc. cbn [mbind option_bind]. rewrite Hhas. cbn [orb]. rewrite <- (reswap_rev (List.length u)) by done.
  destruct (has_lead u) eqn:El; [|by rewrite reswap_no_lead by (by rewrite has_lead_rev)].
  assert (Hz : zlen (rev u) = zlen u) by (unfold zlen; by rewrite length_rev). pose proof (reswap_loop_spec (S (List.length u)) [] (rev u)) as Hs. rewrite Hz in Hs. cbn [app] in Hs. change (zlen (@nil Z)) with 0 in Hs. rewrite Z.add_0_l in Hs. apply Hs. unfold zlen. lia.
Qed.

Lemma reversed_zlen u : Forall unit16 u -> zlen (reversed u) = zlen u.
Proof.
  intros Hu. rewrite <- (encode_code_points u Hu) at 2. unfold reversed. induction (code_points u) as [|c cs IH]; [done|]. cbn [rev map concat]. rewrite map_app, concat_app, !zlen_app. cbn. rewrite app_nil_r, IH. lia.
Qed.

Lemma reversed_short u : Forall unit16 u -> zlen u <= 1 -> reversed u = u.
Proof.
  intros Hu Hl. destruct u as [|x [|y u]]; [done| |rewrite !zlen_cons in Hl; pose proof (zlen_nonneg u); lia]. unfold reversed. cbn. rewrite app_nil_r. apply encode_unit. by apply Forall_cons in Hu as [? _].
Qed.

(** ** The method *)

Definition reversed_range (v : UnicodeString.t) (start len : Z) : UnicodeString.t := replaced v start len (reversed (part v start len)).

(** The pieces of a text. *)
Lemma splice_pieces (u x : list Z) i n : 0 <= i -> 0 <= n -> i + n <= zlen u -> zlen x = n -> splice u i x = ztake i u ++ x ++ drop (Z.to_nat (i + n)) u.
Proof. intros Hi Hn Hl <-. done. Qed.

Lemma pieces_same (u : list Z) i n : 0 <= i -> 0 <= n -> i + n <= zlen u -> ztake i u ++ slice u i n ++ drop (Z.to_nat (i + n)) u = u.
Proof. intros Hi Hn Hl. rewrite <- (splice_pieces u (slice u i n)) by (done || by apply slice_zlen). by apply splice_same. Qed.

Lemma ztake_splice (a u x : list Z) i : ztake (zlen u) a = u -> 0 <= i -> i + zlen x <= zlen u -> zlen u <= zlen a -> ztake (zlen u) (splice a i x) = splice u i x.
Proof.
  intros Eu Hi Hl Ha. pose proof (zlen_nonneg x). assert (Ea : a = u ++ drop (Z.to_nat (zlen u)) a) by (rewrite <- Eu at 1; unfold ztake; by rewrite take_drop).
  rewrite Ea. pose proof (splice_app_l [] u (drop (Z.to_nat (zlen u)) a) x i Hi Hl) as E. cbn [app] in E. change (zlen (@nil Z)) with 0 in E. rewrite Z.add_0_l in E. rewrite E.
  rewrite <- (splice_zlen u i x) at 1 by lia. apply ztake_app_exact.
Qed.

Section Reverse.
Context `{HP : Heap}.

(** C15: equivalence with a reference.  [doReverse] of a range of any string puts its code points in
    the reverse order, surrogate pairs kept whole and unpaired surrogates as they are; the rest of
    the text and every other string stay what they are.  No object has a capacity above
    [max_capacity]; a refused allocation of the clone leaves the string bogus. *)
Theorem doReverse_code_points st o u start len :
  wf st -> value_at st o = Some (Closed (UnicodeString.Str u)) -> Forall unit16 u -> (forall ob, objs st !! o = Some ob -> getCapacity ob <= max_capacity) ->
  outcome (alias_of st o) st o (reversed_range (UnicodeString.Str u) start len) (doReverse st o start len).
Proof.
  intros Hwf Hv Hu Hcap. destruct (closed_at st o u Hwf Hv) as (ob & Hc). pose proof (cl_obj _ _ _ _ Hc) as Ho. pose proof (zlen_nonneg u). unfold doReverse, reversed_range, replaced.
  destruct (UnicodeString.pinIndices (UnicodeString.Str u) start len) as [i n] eqn:Epin. destruct (part_zlen _ _ _ _ _ Epin) as [Ep Ez]. rewrite Ep in *. cbn [UnicodeString.units] in *. pose proof (pinIndices_range _ _ _ _ _ Epin) as (Hi & Hn & Hl). unfold UnicodeString.length in Hl. cbn [UnicodeString.units] in Hl.
  assert (Hsl : Forall unit16 (slice u i n)) by (unfold slice, ztake; by apply Forall_take, Forall_drop).
  assert (Hsame : n <= 1 -> UnicodeString.Str (ztake i u ++ reversed (slice u i n) ++ drop (Z.to_nat (i + n)) u) = UnicodeString.Str u) by (intros Hn1; rewrite reversed_short by (done || lia); f_equal; by apply pieces_same).
  assert (Hnlen : len <= 1 -> n <= 1).
  { intros Hlen. unfold UnicodeString.pinIndices in Epin. injection Epin as _ <-. repeat zcase; lia. }
  destruct (Z.leb_spec len 1) as [Hle|Hgt]; [rewrite Hsame by auto; by eapply unchanged_outcome|]. pose proof (closed_capacity st o ob u Hc).
  destruct (cloneArray_spec (alias_of st o) st o ob u (-1) (-1) Hc) as [(st1 & ob1 & fl & a & -> & Hview & Hf & Eu & Hcap1 & Hfr)|(st1 & -> & Hout & Href)];
    [intros b; by apply alias_writes|cbn; split; [done|by apply Hcap]|unfold max_capacity; lia|lia|..]; cbn [mbind option_bind]; [|by apply outcome_refused].
  pose proof (v_len _ _ _ _ _ _ _ _ _ Hview). rewrite (v_obj _ _ _ _ _ _ _ _ _ Hview). cbn [mbind option_bind].
  assert (pinIndices ob1 start len = (i, n)) as -> by (unfold pinIndices; rewrite (packed_length ob1 fl (zlen u)) by apply Hview; exact Epin).
  destruct (Z.leb_spec n 1) as [Hn1|Hn2]; [rewrite Hsame by done; by eapply view_outcome; [exact Hview|..]|].
  destruct (view_load _ [] None st1 o ob1 fl a (zlen u) i n Hview) as (p & Eptr & Hload); [lia..|]. rewrite Eptr. cbn [mbind option_bind]. rewrite Hload. cbn [mbind option_bind]. rewrite (slice_prefix a u) by (done || lia).
  rewrite reverse_units_spec by (done || lia). cbn [mbind option_bind]. assert (Hz : zlen (reversed (slice u i n)) = n) by (by rewrite reversed_zlen).
  destruct (view_store _ [] None st1 o ob1 fl a (zlen u) i (reversed (slice u i n)) p Hview Eptr) as (st2 & ob2 & -> & Hv2 & _ & Hfr2 & _); [lia..|].
  eapply view_outcome; [exact Hv2|done|by eapply frame_trans|]. rewrite ztake_splice by (done || lia). symmetry. by apply splice_pieces.
Qed.
End Reverse.

#[local] Existing Instance big_heap.

(** "a", U+10000, "b" *)
Definition letters : list StringRefinement.command := [StringRefinement.New 0; StringRefinement.AppendCodePoint 0 97; StringRefinement.AppendCodePoint 0 0x10000; StringRefinement.AppendCodePoint 0 98].
Definition letters_store : store := Eval vm_compute in StringRefinement.result_of letters.

Lemma letters_represents : StringRefinement.represents letters_store {[0%nat := UnicodeString.Str [97; 0xd800; 0xdc00; 98]]}.
Proof.
  apply (StringRefinement.exec_to StringRefinement.no_strings ∅ letters); [exact big_heap_grants|apply StringRefinement.no_strings_represents| |by vm_compute|by vm_compute].
  cbn [letters StringRefinement.rooms StringRefinement.room]. auto 10.
Qed.

Lemma doReverse_code_points_witness :
  reversed_range (UnicodeString.Str [97; 0xd800; 0xdc00; 98]) 0 4 = UnicodeString.Str [98; 0xd800; 0xdc00; 97] /\
  outcome (alias_of letters_store 0) letters_store 0 (reversed_range (UnicodeString.Str [97; 0xd800; 0xdc00; 98]) 0 4) (doReverse letters_store 0 0 4).
Proof.
  split; [by vm_compute|]. apply doReverse_code_points; [exact (StringRefinement.rp_wf _ _ letters_represents)|by vm_compute|repeat constructor; by cbn|].
  intros ob E. vm_compute in E. injection E as <-. vm_compute. discriminate.
Defined.
End StringReverse.
