(* ===== verification/StringFind.v ===== *)
(** * Searching in strings, and replacing what was found (common/unistr.cpp, unicode/unistr.h)

    The searches of [UnicodeString] call those of ustring.cpp on the unit arrays of the store; they
    do not change it.  [findAndReplace] alternates them with [doReplace]. *)

From S2P Require Import Prelude Utf16 UString StringStore StringEdit StringSearch.

Module StringFind.
Import Utf16 StringStore StringEdit StringSearch.

Section Find.
Context `{HP : Heap}.

(** The units from [p+i] to the end of the memory; nothing can be read from a null pointer. *)
Definition units_from (st : store) (p : option ptr) (i : Z) : option (list Z) :=
  match p with
  | Some p => a ← memory st p; if (0 <=? i) && (i <=? zlen a) then Some (drop (Z.to_nat i) a) else None
  | None => Some []
  end.

(** [match-array], or -1 for null. *)
Definition found (start : Z) (match_ : option Z) : Z := match match_ with Some k => start + k | None => -1 end.

(** ** Substrings *)

(** [indexOf] and [lastIndexOf] of units, with the search that they call. *)
Definition find_chars (search : option (list Z) -> Z -> option (list Z) -> Z -> option (option Z))
    (st : store) (o : nat) (srcChars : option ptr) (srcStart srcLength start length0 : Z) : option Z :=
  ob ← objs st !! o;
  if isBogus ob || bool_decide (srcChars = None) || (srcStart <? 0) || (srcLength =? 0) then Some (-1)
  else
    src ← units_from st srcChars srcStart;
    empty ← (if srcLength <? 0 then c ← zget src 0; Some (c =? 0) else Some false);
    if (empty : bool) then Some (-1)
    else
      let '(start, length0) := pinIndices ob start length0 in
      array ← units_from st (getArrayStart o ob) start;
      match_ ← search (Some array) length0 (Some src) srcLength;
      Some (found start match_).

Definition indexOf_chars := find_chars u_strFindFirst.
Definition lastIndexOf_chars := find_chars u_strFindLast.

Definition indexOf (st : store) (o src : nat) (srcStart srcLength start length0 : Z) : option Z :=
  s ← objs st !! src;
  if isBogus s then Some (-1)
  else
    let '(srcStart, srcLength) := pinIndices s srcStart srcLength in
    if 0 <? srcLength then indexOf_chars st o (getArrayStart src s) srcStart srcLength start length0 else Some (-1).
Definition lastIndexOf (st : store) (o src : nat) (srcStart srcLength start length0 : Z) : option Z :=
  s ← objs st !! src;
  if isBogus s then Some (-1)
  else
    let '(srcStart, srcLength) := pinIndices s srcStart srcLength in
    if 0 <? srcLength then lastIndexOf_chars st o (getArrayStart src s) srcStart srcLength start length0 else Some (-1).

(** The whole text, from the beginning or from [start] on. *)
Definition indexOf_text (st : store) (o src : nat) : option Z :=
  ob ← objs st !! o; s ← objs st !! src; indexOf st o src 0 (length s) 0 (length ob).
Definition indexOf_text_from (st : store) (o src : nat) (start : Z) : option Z :=
  ob ← objs st !! o; s ← objs st !! src; let start := pinIndex ob start in indexOf st o src 0 (length s) start (length ob - start).
Definition lastIndexOf_text (st : store) (o src : nat) : option Z :=
  ob ← objs st !! o; s ← objs st !! src; lastIndexOf st o src 0 (length s) 0 (length ob).
Definition lastIndexOf_text_from (st : store) (o src : nat) (start : Z) : option Z :=
  ob ← objs st !! o; s ← objs st !! src; let start := pinIndex ob start in lastIndexOf st o src 0 (length s) start (length ob - start).

(** ** Units and code points *)

Definition find_in (search : list Z -> Z -> option (option Z)) (st : store) (o : nat) (start length0 : Z) : option Z :=
  ob ← objs st !! o;
  let '(start, length0) := pinIndices ob start length0 in
  array ← units_from st (getArrayStart o ob) start; match_ ← search array length0; Some (found start match_).

Definition doIndexOf (st : store) (o : nat) (c start length0 : Z) : option Z := find_in (fun a n => u_memchr a c n) st o start length0.
Definition doIndexOf32 (st : store) (o : nat) (c start length0 : Z) : option Z := find_in (fun a n => u_memchr32 a c n) st o start length0.
Definition doLastIndexOf (st : store) (o : nat) (c start length0 : Z) : option Z :=
  ob ← objs st !! o; if isBogus ob then Some (-1) else find_in (fun a n => u_memrchr a c n) st o start length0.
Definition doLastIndexOf32 (st : store) (o : nat) (c start length0 : Z) : option Z := find_in (fun a n => u_memrchr32 a c n) st o start length0.

(** ** Replacing *)

Fixpoint findAndReplace_loop (fuel : nat) (st : store) (o : nat) (start length0 : Z) (oldText : nat) (oldStart oldLength : Z) (newText : nat) (newStart newLength : Z) : option store :=
  match fuel with
  | O => None
  | S fuel =>
      if (0 <? length0) && (oldLength <=? length0) then
        pos ← indexOf st o oldText oldStart oldLength start length0;
        if pos <? 0 then Some st
        else
          st ← doReplace_str st o pos oldLength newText newStart newLength;
          findAndReplace_loop fuel st o (pos + newLength) (length0 - (pos + oldLength - start)) oldText oldStart oldLength newText newStart newLength
      else Some st
  end.

Definition findAndReplace (st : store) (o : nat) (start length0 : Z) (oldText : nat) (oldStart oldLength : Z) (newText : nat) (newStart newLength : Z) : option store :=
  ob ← objs st !! o; old ← objs st !! oldText; new ← objs st !! newText;
  if isBogus ob || isBogus old || isBogus new then Some st
  else
    let '(start, length0) := pinIndices ob start length0 in
    let '(oldStart, oldLength) := pinIndices old oldStart oldLength in
    let '(newStart, newLength) := pinIndices new newStart newLength in
    if oldLength =? 0 then Some st
    else findAndReplace_loop (S (Z.to_nat length0)) st o start length0 oldText oldStart oldLength newText newStart newLength.

Definition findAndReplace_range (st : store) (o : nat) (start length0 : Z) (oldText newText : nat) : option store :=
  old ← objs st !! oldText; new ← objs st !! newText; findAndReplace st o start length0 oldText 0 (length old) newText 0 (length new).
Definition findAndReplace_all (st : store) (o oldText newText : nat) : option store :=
  ob ← objs st !! o; old ← objs st !! oldText; new ← objs st !! newText; findAndReplace st o 0 (length ob) oldText 0 (length old) newText 0 (length new).
End Find.
End StringFind.
