(* ===== verification/StringFindFacts.v ===== *)
(** * What is found and replaced in a string

    [indexOf] answers with the first occurrence in the range as a text of its own, and
    [findAndReplace] replaces the occurrences from left to right, whatever arrays the three strings share. *)

From S2P Require Import Prelude Utf16 UString StringStore StringEdit StringStoreFacts StringCloneFacts StringEditFacts StringRefinement StringSearch StringSearchFacts StringFind.

Module StringFindFacts.
Import Utf16 StringStore StringEdit StringStoreFacts StringCloneFacts StringEditFacts StringRefinement StringSearch StringSearchFacts StringFind.

(** ** Occurrences in a text *)

Definition occurs_at (seg sub : list Z) (i : nat) : bool := bool_decide (take (List.length sub) (drop i seg) = sub) && whole seg (Z.of_nat i) (zlen sub).
Definition places (seg sub : list Z) : list nat := List.filter (occurs_at seg sub) (List.seq 0 (List.length seg)).
Definition first_occurrence (seg sub : list Z) : option Z := Z.of_nat <$> head (places seg sub).
Definition last_occurrence (seg sub : list Z) : option Z := Z.of_nat <$> last (places seg sub).

(** Replacing the occurrences from left to right, each one behind the one before. *)
Fixpoint replace_all (fuel : nat) (seg sub new : list Z) : list Z :=
  match fuel with
  | O => seg
  | S fuel => match first_occurrence seg sub with Some i => ztake i seg ++ new ++ replace_all fuel (drop (Z.to_nat (i + zlen sub)) seg) sub new | None => seg end
  end.

Lemma occurs_at_spec seg sub i : 0 < zlen sub -> occurs_at seg sub i = true <-> occurs seg sub (Z.of_nat i).
Proof.
  intros Hpos. unfold occurs_at, occurs. rewrite andb_true_iff, bool_decide_eq_true. unfold zlen in *. split.
  - intros [E Hw]. assert (Hl : List.length (take (List.length sub) (drop i seg)) = List.length sub) by (by rewrite E). rewrite length_take, length_drop in Hl. split_and!; [lia|lia| |done].
    intros k Hk. unfold zlen in Hk. rewrite <- (Z2Nat.id k) by lia. rewrite <- Nat2Z.inj_add, !zget_nat, <- lookup_drop. rewrite <- E. rewrite lookup_take_lt; [done|lia].
  - intros (_ & Hl & Hu & Hw). split; [|done]. apply list_eq. intros k. destruct (decide (k < List.length sub)%nat) as [Hk|Hk].
    + rewrite lookup_take_lt, lookup_drop by done. rewrite <- !zget_nat, Nat2Z.inj_add. apply Hu. unfold zlen. lia.
    + rewrite (lookup_ge_None_2 sub) by lia. apply lookup_ge_None_2. rewrite length_take. lia.
Qed.

Lemma filter_all_false {A} (P : A -> bool) l : (forall x, x ∈ l -> P x = false) -> List.filter P l = [].
Proof. induction l as [|x l IH]; intros H; [done|]. cbn. rewrite (H x) by set_solver. apply IH. set_solver. Qed.

Lemma occurs_split seg sub i : 0 < zlen sub -> occurs seg sub i -> exists n, i = Z.of_nat n /\ List.seq 0 (List.length seg) = List.seq 0 n ++ n :: List.seq (S n) (List.length seg - S n).
Proof.
  intros Hpos (H0 & Hl & _). exists (Z.to_nat i). split; [lia|]. unfold zlen in *. replace (List.length seg) with (Z.to_nat i + S (List.length seg - S (Z.to_nat i)))%nat at 1 by lia. by rewrite List.seq_app.
Qed.

Lemma not_occurs seg sub n : 0 < zlen sub -> ~ occurs seg sub (Z.of_nat n) -> occurs_at seg sub n = false.
Proof. intros Hpos Hn. apply not_true_iff_false. by rewrite occurs_at_spec. Qed.

Lemma first_occurrence_spec seg sub r : 0 < zlen sub -> is_first seg sub r -> first_occurrence seg sub = r.
Proof.
  intros Hpos Hr. unfold first_occurrence, places. destruct r as [i|]; cbn [is_first] in Hr.
  - destruct Hr as [Ho Hj]. destruct (occurs_split seg sub i Hpos Ho) as (n & -> & ->). rewrite List.filter_app, (filter_all_false _ (List.seq 0 n)).
    + cbn [app List.filter]. rewrite (proj2 (occurs_at_spec seg sub n Hpos) Ho). done.
    + intros x Hx. apply not_occurs; [done|]. apply Hj. apply elem_of_seq in Hx. lia.
  - rewrite filter_all_false; [done|]. intros x _. by apply not_occurs.
Qed.

Lemma last_occurrence_spec seg sub r : 0 < zlen sub -> is_last seg sub r -> last_occurrence seg sub = r.
Proof.
  intros Hpos Hr. unfold last_occurrence, places. destruct r as [i|]; cbn [is_last] in Hr.
  - destruct Hr as [Ho Hj]. destruct (occurs_split seg sub i Hpos Ho) as (n & -> & ->). rewrite List.filter_app. cbn [List.filter]. rewrite (proj2 (occurs_at_spec seg sub n Hpos) Ho), (filter_all_false _ (List.seq (S n) _)).
    + by rewrite last_snoc.
    + intros x Hx. apply not_occurs; [done|]. apply Hj. apply elem_of_seq in Hx. lia.
  - rewrite filter_all_false; [done|]. intros x _. by apply not_occurs.
Qed.

(** ** The store *)

Section Store.
Context `{HP : Heap}.

Lemma units_from_closed st o ob u i :
  closed st o ob u -> 0 <= i <= zlen u -> exists r, units_from st (getArrayStart o ob) i = Some (drop (Z.to_nat i) u ++ r).
Proof.
  intros Hc Hi. destruct (closed_array st o ob u Hc) as (p & m & -> & Hm & Hl & Eu & _). exists (drop (List.length u) m). unfold units_from. rewrite Hm. cbn [mbind option_bind]. destruct (Z.leb_spec 0 i), (Z.leb_spec i (zlen m)); try lia. cbn [andb]. f_equal.
  rewrite <- (take_drop (List.length u) m) at 1. assert (take (List.length u) m = u) as -> by (rewrite Eu at 2; unfold ztake, zlen; by rewrite Nat2Z.id). apply drop_app_le. unfold zlen in *. lia.
Qed.

(** What the searches of ustring.cpp promise for counted arguments. *)
Definition searches (search : option (list Z) -> Z -> option (list Z) -> Z -> option (option Z)) (result : list Z -> list Z -> option Z) : Prop :=
  forall u r sub r', Forall unit16 sub -> settled u r sub -> 0 < zlen sub -> search (Some (u ++ r)) (zlen u) (Some (sub ++ r')) (zlen sub) = Some (result u sub).

Lemma strFindFirst_searches : searches u_strFindFirst first_occurrence.
Proof.
  intros u r sub r' Hu Hset Hpos. pose proof (zlen_nonneg u). destruct (strFindFirst_finds u r (zlen u) (sub ++ r') (zlen sub) sub) as (x & -> & Hx); [left; split; [done|by exists r]|left; split; [done|by exists r']|done|done|done|lia|]. by rewrite (first_occurrence_spec u sub x).
Qed.

Lemma strFindLast_searches : searches u_strFindLast last_occurrence.
Proof.
  intros u r sub r' Hu Hset Hpos. pose proof (zlen_nonneg u). destruct (strFindLast_finds u r (zlen u) (sub ++ r') (zlen sub) sub) as (x & -> & Hx); [left; split; [done|by exists r]|left; split; [done|by exists r']|done|done|done|lia|]. by rewrite (last_occurrence_spec u sub x).
Qed.

(** The units behind a text in memory decide nothing if those of the string itself do not. *)
Lemma settled_more u r r' sub : settled u r sub -> settled u (r ++ r') sub.
Proof. intros [H|(x & r0 & -> & Hx)]; [by left|right]. by exists x, (r0 ++ r'). Qed.

Lemma slice_split (u : list Z) i n : 0 <= i -> 0 <= n -> drop (Z.to_nat i) u = slice u i n ++ drop (Z.to_nat (i + n)) u.
Proof. intros Hi Hn. unfold slice, ztake. replace (Z.to_nat (i + n)) with (Z.to_nat i + Z.to_nat n)%nat by lia. by rewrite <- drop_drop, take_drop. Qed.

Lemma find_chars_spec search result st o ob u src s v srcStart start len i n :
  searches search result -> closed st o ob u -> closed st src s v -> Forall unit16 v -> UnicodeString.pinIndices (UnicodeString.Str u) start len = (i, n) ->
  forall srcLength, 0 <= srcStart -> 0 < srcLength -> srcStart + srcLength <= zlen v -> settled (slice u i n) (drop (Z.to_nat (i + n)) u) (slice v srcStart srcLength) ->
  find_chars search st o (getArrayStart src s) srcStart srcLength start len = Some (found i (result (slice u i n) (slice v srcStart srcLength))).
Proof.
  intros Hsearch Hc Hs Hu Epin srcLength H0 Hpos Hl Hset. pose proof (pinIndices_range _ _ _ _ _ Epin) as (Hi & Hn & Hin). change (UnicodeString.length (UnicodeString.Str u)) with (zlen u) in Hin.
  destruct (units_from_closed st o ob u i Hc ltac:(lia)) as (r & Ha). destruct (units_from_closed st src s v srcStart Hs ltac:(lia)) as (r' & Hb). destruct (closed_array st src s v Hs) as (p & _ & Ep & _).
  unfold find_chars. rewrite (cl_obj _ _ _ _ Hc). cbn [mbind option_bind]. assert (isBogus ob = false) as ->.
  { destruct Hc as [_ _ Hv]. unfold value_of in Hv. by destruct (isBogus ob). }
  rewrite (bool_decide_false (getArrayStart src s = None)) by (by rewrite Ep). destruct (Z.ltb_spec srcStart 0), (Z.eqb_spec srcLength 0); try lia. cbn [orb]. rewrite Hb. cbn [mbind option_bind]. destruct (Z.ltb_spec srcLength 0); [lia|]. cbn [mbind option_bind].
  rewrite (closed_pinIndices st o ob u start len Hc), Epin, Ha. cbn [mbind option_bind]. rewrite (slice_split u i n), (slice_split v srcStart srcLength), <- !app_assoc by lia.
  pose proof (Hsearch (slice u i n) (drop (Z.to_nat (i + n)) u ++ r) (slice v srcStart srcLength) (drop (Z.to_nat (srcStart + srcLength)) v ++ r')) as E. rewrite !slice_zlen in E by lia.
  rewrite E; [done| |by apply settled_more|lia]. unfold slice, ztake. by apply Forall_take, Forall_drop.
Qed.

Lemma indexOf_string st o ob u src s v srcStart srcLength start len i n :
  closed st o ob u -> closed st src s v -> Forall unit16 v -> UnicodeString.pinIndices (UnicodeString.Str u) start len = (i, n) ->
  let sub := part (UnicodeString.Str v) srcStart srcLength in
  settled (slice u i n) (drop (Z.to_nat (i + n)) u) sub -> indexOf st o src srcStart srcLength start len = Some (if 0 <? zlen sub then found i (first_occurrence (slice u i n) sub) else -1).
Proof.
  intros Hc Hs Hu Epin sub Hset. destruct (UnicodeString.pinIndices (UnicodeString.Str v) srcStart srcLength) as [j k] eqn:Ej. pose proof (pinIndices_range _ _ _ _ _ Ej) as (H0 & Hk & Hl). destruct (part_zlen _ _ _ _ _ Ej) as [Ep Ez]. fold sub in Ep, Ez.
  unfold indexOf. rewrite (cl_obj _ _ _ _ Hs). cbn [mbind option_bind]. assert (isBogus s = false) as ->. { destruct Hs as [_ _ Hv]. unfold value_of in Hv. by destruct (isBogus s). }
  rewrite (closed_pinIndices st src s v srcStart srcLength Hs), Ej, Ez. destruct (Z.ltb_spec 0 k); [|done]. rewrite Ep in Hset |- *. unfold indexOf_chars. cbn [UnicodeString.units] in *. by apply (find_chars_spec u_strFindFirst first_occurrence st o ob u src s v j start len i n strFindFirst_searches Hc Hs Hu Epin k).
Qed.

Lemma indexOf_in_bogus st o ob src s v srcStart srcLength start len : objs st !! o = Some ob -> isBogus ob = true -> closed st src s v -> indexOf st o src srcStart srcLength start len = Some (-1).
Proof.
  intros Ho Hb Hs. unfold indexOf. rewrite (cl_obj _ _ _ _ Hs). cbn [mbind option_bind]. assert (isBogus s = false) as ->. { destruct Hs as [_ _ Hv]. unfold value_of in Hv. by destruct (isBogus s). }
  destruct (pinIndices s srcStart srcLength) as [j k]. destruct (0 <? k); [|done]. unfold indexOf_chars, find_chars. rewrite Ho. cbn [mbind option_bind]. by rewrite Hb.
Qed.

(** ** Replacing *)

Lemma first_occurrence_occurs seg sub k : 0 < zlen sub -> first_occurrence seg sub = Some k -> occurs seg sub k.
Proof.
  intros Hpos Hk. unfold first_occurrence, places in Hk. destruct (List.filter (occurs_at seg sub) (List.seq 0 (List.length seg))) as [|x l] eqn:E; [done|]. injection Hk as <-. apply occurs_at_spec; [done|].
  assert (Hin : List.In x (List.filter (occurs_at seg sub) (List.seq 0 (List.length seg)))) by (rewrite E; by left). apply List.filter_In in Hin. apply Hin.
Qed.

Lemma pin_inside w i n : 0 <= i -> 0 <= n -> i + n <= zlen w -> UnicodeString.pinIndices (UnicodeString.Str w) i n = (i, n).
Proof. intros Hi Hn Hl. unfold UnicodeString.pinIndices. change (UnicodeString.length (UnicodeString.Str w)) with (zlen w). repeat zcase; f_equal; lia. Qed.

Lemma part_inside w i n : 0 <= i -> 0 <= n -> i + n <= zlen w -> part (UnicodeString.Str w) i n = slice w i n.
Proof. intros Hi Hn Hl. unfold part. by rewrite pin_inside. Qed.

Lemma slice_middle (d seg tail : list Z) : slice (d ++ seg ++ tail) (zlen d) (zlen seg) = seg.
Proof. unfold slice. rewrite <- (Z.add_0_r (zlen d)). unfold ztake, zlen. rewrite Z.add_0_r, !Nat2Z.id, drop_app_length. apply take_app_length. Qed.

Lemma drop_middle (d seg tail : list Z) : drop (Z.to_nat (zlen d + zlen seg)) (d ++ seg ++ tail) = tail.
Proof. rewrite app_assoc, <- zlen_app. unfold zlen. rewrite Nat2Z.id. apply drop_app_length. Qed.

Lemma lead_end_drop (l : list Z) k : lead_end (drop k l) = true -> lead_end l = true.
Proof.
  unfold lead_end, lead_at. destruct (Z.le_gt_cases (zlen (drop k l)) 0) as [Hle|Hgt]; [by rewrite zget_None by lia|]. unfold zget. destruct (Z.leb_spec 0 (zlen (drop k l) - 1)), (Z.leb_spec 0 (zlen l - 1)); try (unfold zlen in *; rewrite length_drop in *; lia).
  rewrite lookup_drop. replace (k + Z.to_nat (zlen (drop k l) - 1))%nat with (Z.to_nat (zlen l - 1)) by (unfold zlen in *; rewrite length_drop in *; lia). done.
Qed.

Lemma settled_drop seg tail sub k : settled seg tail sub -> settled (drop k seg) tail sub.
Proof.
  intros [H|H]; [left|by right]. destruct (lead_end (drop k seg)) eqn:E; [|done]. by rewrite (lead_end_drop _ _ E) in H.
Qed.

(** The text with the units [sub] at [k] of its middle part replaced. *)
Lemma replaced_middle (d seg tail x : list Z) k m :
  0 <= k -> 0 <= m -> k + m <= zlen seg ->
  replaced (UnicodeString.Str (d ++ seg ++ tail)) (zlen d + k) m x = UnicodeString.Str ((d ++ ztake k seg ++ x) ++ drop (Z.to_nat (k + m)) seg ++ tail).
Proof.
  intros Hk Hm Hl. unfold replaced. pose proof (zlen_nonneg d). pose proof (zlen_nonneg tail). rewrite pin_inside by (rewrite ?zlen_app; lia). f_equal. unfold ztake, zlen in *. replace (Z.to_nat (Z.of_nat (List.length d) + k)) with (List.length d + Z.to_nat k)%nat by lia.
  replace (Z.to_nat (Z.of_nat (List.length d) + k + m)) with (List.length d + Z.to_nat (k + m))%nat by lia. rewrite take_app_add, drop_app_add, take_app_le, drop_app_le by lia. by rewrite <- !app_assoc.
Qed.

Lemma represents_closed st m o u : represents st m -> m !! o = Some (UnicodeString.Str u) -> exists ob, closed st o ob u.
Proof. intros Hr E. apply closed_at; [apply Hr|]. by apply (represents_value st m). Qed.

Definition replaced_or_bogus (st' : store) (m : gmap nat UnicodeString.t) (o : nat) (v : UnicodeString.t) : Prop :=
  represents st' (<[o := v]> m) \/ refused /\ represents st' (<[o := UnicodeString.Bogus]> m).

Section Replacing.
Context (o oldText newText : nat) (a b : list Z) (oldStart oldLength newStart newLength : Z).
Context (Hold : oldText <> o) (Hnew : newText <> o) (Ha : Forall unit16 a).
Context (H1 : 0 <= oldStart) (H2 : 0 < oldLength) (H3 : oldStart + oldLength <= zlen a) (H4 : 0 <= newStart) (H5 : 0 <= newLength) (H6 : newStart + newLength <= zlen b).
Let sub := slice a oldStart oldLength.
Let nb := slice b newStart newLength.
Let loop fuel st start len := findAndReplace_loop fuel st o start len oldText oldStart oldLength newText newStart newLength.

Lemma loop_bogus fuel st m start len :
  represents st m -> m !! o = Some UnicodeString.Bogus -> m !! oldText = Some (UnicodeString.Str a) -> loop (S fuel) st start len = Some st.
Proof.
  intros Hr Ho Hs. unfold loop. cbn [findAndReplace_loop]. destruct ((0 <? len) && (oldLength <=? len)); [|done]. destruct (represents_closed st m oldText a Hr Hs) as (s & Hc). destruct (bogus_at st o (rp_wf _ _ Hr) (represents_value st m o _ Hr Ho)) as (ob & Hob & Hp & _).
  rewrite (indexOf_in_bogus st o ob oldText s a); [done|done| |done]. unfold isBogus. by rewrite (packed_mask ob kIsBogus 0) by (done || cbn; lia).
Qed.

Lemma loop_step fuel st m d seg tail k :
  represents st m -> m !! o = Some (UnicodeString.Str (d ++ seg ++ tail)) -> m !! oldText = Some (UnicodeString.Str a) -> m !! newText = Some (UnicodeString.Str b) ->
  zlen (d ++ seg ++ tail) + zlen b <= max_text -> settled seg tail sub -> first_occurrence seg sub = Some k -> 0 <= k /\ k + oldLength <= zlen seg /\
  exists st1, replaced_or_bogus st1 m o (UnicodeString.Str ((d ++ ztake k seg ++ nb) ++ drop (Z.to_nat (k + oldLength)) seg ++ tail)) /\
    loop (S fuel) st (zlen d) (zlen seg) = loop fuel st1 (zlen (d ++ ztake k seg ++ nb)) (zlen (drop (Z.to_nat (k + oldLength)) seg)).
Proof.
  intros Hr Ho Hs Hn Hmax Hset Hk. assert (Hzsub : zlen sub = oldLength) by (apply slice_zlen; lia). assert (Hznb : zlen nb = newLength) by (apply slice_zlen; lia). apply first_occurrence_occurs in Hk as Hocc; [|lia]. destruct Hocc as (Hk0 & Hkl & _). rewrite Hzsub in Hkl. split; [done|]. split; [done|].
  destruct (represents_closed st m o _ Hr Ho) as (ob & Hc). destruct (represents_closed st m oldText a Hr Hs) as (s & Hcs). pose proof (zlen_nonneg d). pose proof (zlen_nonneg seg). pose proof (zlen_nonneg tail).
  unfold loop. cbn [findAndReplace_loop]. destruct (Z.ltb_spec 0 (zlen seg)), (Z.leb_spec oldLength (zlen seg)); try lia. cbn [andb].
  rewrite (indexOf_string st o ob _ oldText s a oldStart oldLength (zlen d) (zlen seg) (zlen d) (zlen seg) Hc Hcs Ha); [|apply pin_inside; rewrite ?zlen_app; lia|by rewrite part_inside, slice_middle, drop_middle by lia]. rewrite part_inside by lia. fold sub. rewrite Hzsub, slice_middle, Hk. cbn [mbind option_bind found]. destruct (Z.ltb_spec 0 oldLength); [|lia]. cbn [mbind option_bind].
  destruct (Z.ltb_spec (zlen d + k) 0); [lia|].
  pose proof (doReplace_str_spec st o newText (UnicodeString.Str (d ++ seg ++ tail)) (UnicodeString.Str b) (zlen d + k) oldLength newStart newLength (rp_wf _ _ Hr) Hnew (represents_value st m o _ Hr Ho) (represents_value st m newText _ Hr Hn) Hmax) as Hout.
  rewrite part_inside, replaced_middle in Hout by lia. destruct (outcome_represents _ st m o _ _ Hr Hout) as (st1 & -> & Hres). exists st1. split; [exact Hres|]. cbn [mbind option_bind]. f_equal.
  - rewrite !zlen_app, Hznb, zlen_ztake by lia. lia.
  - unfold zlen in *. rewrite length_drop. lia.
Qed.

Lemma loop_spec fuel st m d seg tail :
  represents st m -> m !! o = Some (UnicodeString.Str (d ++ seg ++ tail)) -> m !! oldText = Some (UnicodeString.Str a) -> m !! newText = Some (UnicodeString.Str b) ->
  settled seg tail sub -> zlen seg < Z.of_nat fuel -> zlen d + (zlen seg + 1) * (zlen b + 1) + zlen tail <= max_text ->
  exists st', loop fuel st (zlen d) (zlen seg) = Some st' /\ replaced_or_bogus st' m o (UnicodeString.Str (d ++ replace_all fuel seg sub nb ++ tail)).
Proof.
  assert (Hzsub : zlen sub = oldLength) by (apply slice_zlen; lia). assert (Hznb : zlen nb = newLength) by (apply slice_zlen; lia).
  revert st m d seg. induction fuel as [|fuel IH]; intros st m d seg Hr Ho Hs Hn Hset Hf Hmax; [pose proof (zlen_nonneg seg); lia|]. cbn [replace_all]. destruct (first_occurrence seg sub) as [k|] eqn:Ek.
  - pose proof (zlen_nonneg d). pose proof (zlen_nonneg seg). pose proof (zlen_nonneg tail). pose proof (zlen_nonneg b).
    destruct (loop_step fuel st m d seg tail k Hr Ho Hs Hn ltac:(rewrite !zlen_app; nia) Hset Ek) as (Hk & Hkl & st1 & Hres & ->). assert (Hzd : zlen (drop (Z.to_nat (k + oldLength)) seg) = zlen seg - k - oldLength) by (unfold zlen in *; rewrite length_drop; lia). rewrite Hzsub. destruct Hres as [Hr1|[Href Hr1]].
    + destruct (IH st1 _ (d ++ ztake k seg ++ nb) (drop (Z.to_nat (k + oldLength)) seg) Hr1) as (st' & -> & Hres); [by rewrite lookup_insert_eq|by rewrite lookup_insert_ne|by rewrite lookup_insert_ne|by apply settled_drop|lia|rewrite !zlen_app, Hznb, Hzd, zlen_ztake by lia; nia|].
      exists st'. split; [done|]. unfold replaced_or_bogus in Hres |- *. rewrite !insert_insert_eq in Hres. by rewrite <- !app_assoc in Hres |- *.
    + destruct fuel as [|fuel]; [unfold zlen in *; lia|]. rewrite (loop_bogus fuel st1 _ _ _ Hr1) by (by rewrite ?lookup_insert_eq, ?lookup_insert_ne). exists st1. split; [done|]. right. done.
  - exists st. split; [|left; by rewrite insert_id]. destruct (represents_closed st m o _ Hr Ho) as (ob & Hc). destruct (represents_closed st m oldText a Hr Hs) as (s & Hcs). pose proof (zlen_nonneg d). pose proof (zlen_nonneg seg). pose proof (zlen_nonneg tail).
    unfold loop. cbn [findAndReplace_loop]. destruct ((0 <? zlen seg) && (oldLength <=? zlen seg)); [|done].
    rewrite (indexOf_string st o ob _ oldText s a oldStart oldLength (zlen d) (zlen seg) (zlen d) (zlen seg) Hc Hcs Ha); [|apply pin_inside; rewrite ?zlen_app; lia|by rewrite part_inside, slice_middle, drop_middle by lia]. rewrite part_inside by lia. fold sub. rewrite slice_middle, Ek. by destruct (0 <? zlen sub).
Qed.
End Replacing.

(** The units of a range with the occurrences of [sub] replaced; an empty [sub] occurs nowhere. *)
Definition find_replaced (u : list Z) (i n : Z) (sub new : list Z) : list Z :=
  ztake i u ++ (if bool_decide (sub = []) then slice u i n else replace_all (S (Z.to_nat n)) (slice u i n) sub new) ++ drop (Z.to_nat (i + n)) u.

Lemma three_parts (u : list Z) i n : 0 <= i -> 0 <= n -> i + n <= zlen u -> ztake i u ++ slice u i n ++ drop (Z.to_nat (i + n)) u = u.
Proof.
  intros Hi Hn Hl. unfold slice, ztake. rewrite <- (take_drop (Z.to_nat i) u) at 4. f_equal. rewrite <- (take_drop (Z.to_nat n) (drop (Z.to_nat i) u)) at 2. f_equal. rewrite drop_drop. f_equal. lia.
Qed.

(** C10: [findAndReplace] replaces, from left to right, every occurrence of a part of the old text in a range
    of the string by a part of the new text, and leaves the other strings alone, whatever arrays
    the three share; only a refused allocation leaves the string bogus.  An occurrence splits no
    surrogate pair of what is left of the range.  The bounds: the text with a copy of the new text
    behind every unit has at most [max_text] units; and if the searched part and the range both end
    with a lead surrogate, a unit that is no trail surrogate follows the range in the string
    ([settled]), since the search decides with the unit behind the range about a match at its
    end. *)
Theorem findAndReplace_replaces st m o oldText newText u a b start len oldStart oldLength newStart newLength i n :
  represents st m -> m !! o = Some (UnicodeString.Str u) -> m !! oldText = Some (UnicodeString.Str a) -> m !! newText = Some (UnicodeString.Str b) -> oldText <> o -> newText <> o ->
  Forall unit16 a -> (zlen u + 1) * (zlen b + 1) <= max_text -> UnicodeString.pinIndices (UnicodeString.Str u) start len = (i, n) ->
  settled (slice u i n) (drop (Z.to_nat (i + n)) u) (part (UnicodeString.Str a) oldStart oldLength) ->
  exists st', findAndReplace st o start len oldText oldStart oldLength newText newStart newLength = Some st' /\
    replaced_or_bogus st' m o (UnicodeString.Str (find_replaced u i n (part (UnicodeString.Str a) oldStart oldLength) (part (UnicodeString.Str b) newStart newLength))).
Proof.
  intros Hr Ho Hold Hnew Hne1 Hne2 Hu Hmax Epin Hset. destruct (represents_closed st m o u Hr Ho) as (ob & Hco). destruct (represents_closed st m oldText a Hr Hold) as (oa & Hca). destruct (represents_closed st m newText b Hr Hnew) as (obn & Hcb).
  pose proof (pinIndices_range _ _ _ _ _ Epin) as (Hi & Hn & Hin). change (UnicodeString.length (UnicodeString.Str u)) with (zlen u) in Hin.
  destruct (UnicodeString.pinIndices (UnicodeString.Str a) oldStart oldLength) as [j k] eqn:Ea. pose proof (pinIndices_range _ _ _ _ _ Ea) as (Hj & Hk & Hjk). destruct (part_zlen _ _ _ _ _ Ea) as [Epa Eza].
  destruct (UnicodeString.pinIndices (UnicodeString.Str b) newStart newLength) as [j' k'] eqn:Eb. pose proof (pinIndices_range _ _ _ _ _ Eb) as (Hj' & Hk' & Hjk'). destruct (part_zlen _ _ _ _ _ Eb) as [Epb _].
  assert (Hopen : forall q oq v, closed st q oq v -> isBogus oq = false) by (intros q oq v [_ _ Hv]; unfold value_of in Hv; by destruct (isBogus oq)).
  unfold findAndReplace. rewrite (cl_obj _ _ _ _ Hco), (cl_obj _ _ _ _ Hca), (cl_obj _ _ _ _ Hcb). cbn [mbind option_bind]. rewrite (Hopen _ _ _ Hco), (Hopen _ _ _ Hca), (Hopen _ _ _ Hcb). cbn [orb].
  rewrite (closed_pinIndices _ _ _ _ _ _ Hco), (closed_pinIndices _ _ _ _ _ _ Hca), (closed_pinIndices _ _ _ _ _ _ Hcb), Epin, Ea, Eb. unfold find_replaced. destruct (Z.eqb_spec k 0) as [->|Hk0].
  - exists st. split; [done|]. left. rewrite bool_decide_true by (by apply zlen_0_inv). rewrite three_parts by done. by rewrite insert_id.
  - rewrite bool_decide_false by (intros E; rewrite E in Eza; change (zlen []) with 0 in Eza; lia). rewrite Epa in *. rewrite Epb. cbn [UnicodeString.units] in *.
    assert (Hzi : zlen (ztake i u) = i) by (apply zlen_ztake; lia). assert (Hzn : zlen (slice u i n) = n) by (by apply slice_zlen).
    destruct (loop_spec o oldText newText a b j k j' k' Hne1 Hne2 Hu Hj ltac:(lia) Hjk Hj' Hk' Hjk' (S (Z.to_nat n)) st m (ztake i u) (slice u i n) (drop (Z.to_nat (i + n)) u) Hr) as (st' & E & Hres); [by rewrite three_parts|done|done|done|lia| |].
    + rewrite Hzi, Hzn. assert (zlen (drop (Z.to_nat (i + n)) u) = zlen u - i - n) as -> by (unfold zlen in *; rewrite length_drop; lia). pose proof (zlen_nonneg b). nia.
    + rewrite Hzi, Hzn in E. by exists st'.
Qed.
End Store.

#[local] Existing Instance big_heap.

(** "xabyabx", "ab" and "0" *)
Definition words : list command :=
  [New 0; New 1; New 2] ++ map (AppendCodePoint 0) [0x78; 0x61; 0x62; 0x79; 0x61; 0x62; 0x78] ++ map (AppendCodePoint 1) [0x61; 0x62] ++ [AppendCodePoint 2 0x30].
Definition words_values : gmap nat UnicodeString.t := {[0%nat := UnicodeString.Str [0x78; 0x61; 0x62; 0x79; 0x61; 0x62; 0x78]; 1%nat := UnicodeString.Str [0x61; 0x62]; 2%nat := UnicodeString.Str [0x30]]}.
Definition words_store : store := Eval vm_compute in StringRefinement.result_of words.

Lemma words_represents : represents words_store words_values.
Proof.
  apply (exec_to no_strings ∅ words); [exact big_heap_grants|apply no_strings_represents| |by vm_compute|by vm_compute].
  cbn [words app map rooms room]. auto 40.
Qed.

Lemma findAndReplace_replaces_witness :
  exists st', findAndReplace words_store 0 0 7 1 0 2 2 0 1 = Some st' /\ replaced_or_bogus st' words_values 0 (UnicodeString.Str [0x78; 0x30; 0x79; 0x30; 0x78]).
Proof.
  destruct (findAndReplace_replaces words_store words_values 0 1 2 [0x78; 0x61; 0x62; 0x79; 0x61; 0x62; 0x78] [0x61; 0x62] [0x30] 0 7 0 2 0 1 0 7 words_represents) as (st' & E & Hres); [by vm_compute|by vm_compute|by vm_compute|done|done| |by vm_compute|by vm_compute|by left; vm_compute|].
  - repeat constructor; by cbn.
  - exists st'. split; [exact E|]. exact Hres.
Defined.
End StringFindFacts.
