(* ===== verification/UHash.v ===== *)
(** * UHashtable (common/uhash.c, uhash.h)

    The hash table of the library: one array of elements, double hashing, deleted slots marked
    by a hash code of their own, and an array length taken from a list of primes that moves with
    the number of elements.  Keys and values are tokens, pointers or integers; objects handed to
    the deleters are logged. *)

From S2P Require Import Prelude Vector UString.
Import UVector.

(** ** Function pointers

    A table holds pointers to a hash function and to comparators; [uhash_equals] compares the
    pointers themselves. *)
Class Callbacks (A : Type) := {
  hashFn : Type;
  compareFn : Type;
  compareFn_eq_dec :: EqDecision compareFn;
  hash_of : hashFn -> UElement A -> Z;
  compare_of : compareFn -> UElement A -> UElement A -> bool
}.

Module UHash.

Notation tok := UElement.

(** ** Constants *)

Definition PRIMES : list Z :=
  [13; 31; 61; 127; 251; 509; 1021; 2039; 4093; 8191; 16381; 32749; 65521; 131071; 262139; 524287;
   1048573; 2097143; 4194301; 8388593; 16777213; 33554393; 67108859; 134217689; 268435399;
   536870909; 1073741789; 2147483647].
Definition PRIMES_LENGTH : Z := 28.
Definition DEFAULT_PRIME_INDEX : Z := 3.

(** A float as a fraction [mantissa / 2 ^ scale]. *)
Record float := Float { mantissa : Z; scale : Z }.

Inductive UHashResizePolicy := U_GROW | U_GROW_AND_SHRINK | U_FIXED.

(** The nearest values of single precision: 0.1F is 13421773 / 2^27. *)
Definition RESIZE_POLICY_RATIO_TABLE (policy : UHashResizePolicy) : float * float :=
  match policy with
  | U_GROW => (Float 0 0, Float 1 1)
  | U_GROW_AND_SHRINK => (Float 13421773 27, Float 1 1)
  | U_FIXED => (Float 0 0, Float 1 0)
  end.

(** Rounding to the 24 bits of single precision, ties to even. *)
Definition round24 (z : Z) : Z :=
  let step := 2 ^ (Z.max 0 (Z.log2 z + 1 - 24)) in
  let q := z / step in let r := z mod step in
  if (step <? 2 * r) || ((2 * r =? step) && Z.odd q) && negb (r =? 0) then (q + 1) * step else q * step.

(** [(int32_t)(length * ratio)] for a positive length. *)
Definition scaled (length : Z) (ratio : float) : Z :=
  round24 (round24 length * mantissa ratio) / 2 ^ scale ratio.

Definition HASH_DELETED : Z := INT32_MIN.
Definition HASH_EMPTY : Z := HASH_DELETED + 1.
Definition IS_EMPTY_OR_DELETED (x : Z) : bool := x <? 0.

Definition sizeof_UHashElement : Z := 24.
Definition UHASH_FIRST : Z := -1.

(** ** The table *)

Record UHashElement (A : Type) := Elem { hashcode : Z; value : tok A; key : tok A }.
Arguments Elem {A}. Arguments hashcode {A}. Arguments value {A}. Arguments key {A}.

Record t (A : Type) `{Callbacks A} := mk {
  elements : option (list (UHashElement A));
  keyHasher : hashFn;
  keyComparator : compareFn;
  valueComparator : option compareFn;
  keyDeleter : bool;
  valueDeleter : bool;
  count : Z;
  length : Z;
  highWaterMark : Z;
  lowWaterMark : Z;
  highWaterRatio : float;
  lowWaterRatio : float;
  primeIndex : Z;
  allocated : bool;
  deletedKeys : list A;
  deletedValues : list A
}.
Arguments mk {A _}. Arguments elements {A _}. Arguments keyHasher {A _}. Arguments keyComparator {A _}.
Arguments valueComparator {A _}. Arguments keyDeleter {A _}. Arguments valueDeleter {A _}. Arguments count {A _}.
Arguments length {A _}. Arguments highWaterMark {A _}. Arguments lowWaterMark {A _}. Arguments highWaterRatio {A _}.
Arguments lowWaterRatio {A _}. Arguments primeIndex {A _}. Arguments allocated {A _}. Arguments deletedKeys {A _}.
Arguments deletedValues {A _}.

Section Ops.
Context `{HP : Heap} {A : Type} `{EqA : EqDecision A} `{CB : Callbacks A}.
Implicit Types h : t A.

Definition emptytok : tok A := Ptr None.

(** ** Updates of members *)

Definition set_cells h (cells : list (UHashElement A)) : t A :=
  mk (Some cells) (keyHasher h) (keyComparator h) (valueComparator h) (keyDeleter h) (valueDeleter h) (count h) (length h)
     (highWaterMark h) (lowWaterMark h) (highWaterRatio h) (lowWaterRatio h) (primeIndex h) (allocated h) (deletedKeys h) (deletedValues h).
Definition set_count h (n : Z) : t A :=
  mk (elements h) (keyHasher h) (keyComparator h) (valueComparator h) (keyDeleter h) (valueDeleter h) n (length h)
     (highWaterMark h) (lowWaterMark h) (highWaterRatio h) (lowWaterRatio h) (primeIndex h) (allocated h) (deletedKeys h) (deletedValues h).
Definition set_array h (cells : option (list (UHashElement A))) (n : Z) : t A :=
  mk cells (keyHasher h) (keyComparator h) (valueComparator h) (keyDeleter h) (valueDeleter h) (count h) n
     (highWaterMark h) (lowWaterMark h) (highWaterRatio h) (lowWaterRatio h) (primeIndex h) (allocated h) (deletedKeys h) (deletedValues h).
Definition set_prime h (i : Z) : t A :=
  mk (elements h) (keyHasher h) (keyComparator h) (valueComparator h) (keyDeleter h) (valueDeleter h) (count h) (length h)
     (highWaterMark h) (lowWaterMark h) (highWaterRatio h) (lowWaterRatio h) i (allocated h) (deletedKeys h) (deletedValues h).
Definition set_marks h : t A :=
  mk (elements h) (keyHasher h) (keyComparator h) (valueComparator h) (keyDeleter h) (valueDeleter h) (count h) (length h)
     (scaled (length h) (highWaterRatio h)) (scaled (length h) (lowWaterRatio h)) (highWaterRatio h) (lowWaterRatio h) (primeIndex h) (allocated h)
     (deletedKeys h) (deletedValues h).
Definition log_deleted h (ks vs : list A) : t A :=
  mk (elements h) (keyHasher h) (keyComparator h) (valueComparator h) (keyDeleter h) (valueDeleter h) (count h) (length h)
     (highWaterMark h) (lowWaterMark h) (highWaterRatio h) (lowWaterRatio h) (primeIndex h) (allocated h) (deletedKeys h ++ ks) (deletedValues h ++ vs).

(** The object that a deleter gets: an integer that is not zero is no object. *)
Definition object (e : tok A) : option A := match e with Ptr p => p | Int _ => None end.

(** [if (deleter != NULL && e.pointer != NULL) ( *deleter)(e.pointer);] *)
Definition delete_key h (e : tok A) : option (t A) :=
  if keyDeleter h && negb (is_null e) then x ← object e; Some (log_deleted h [x] []) else Some h.
Definition delete_value h (e : tok A) : option (t A) :=
  if valueDeleter h && negb (is_null e) then x ← object e; Some (log_deleted h [] [x]) else Some h.

(** [HASH_DELETE_KEY_VALUE] *)
Definition HASH_DELETE_KEY_VALUE h (k v : tok A) : option (t A) := h ← delete_key h k; delete_value h v.

(** ** Elements *)

(** Storing at slot [i]; the old value is returned unless it was deleted. *)
Definition _uhash_setElement h (i hash : Z) (k v : tok A) : option (tok A * t A) :=
  cells ← elements h;
  e ← zget cells i;
  h ← (if bool_decide (key e = k) then Some h else delete_key h (key e));
  h ← (if bool_decide (value e = v) then Some h else delete_value h (value e));
  cells ← zset cells i (Elem hash v k);
  Some (if valueDeleter h then emptytok else value e, set_cells h cells).

Definition _uhash_internalRemoveElement h (i : Z) : option (tok A * t A) :=
  _uhash_setElement (set_count h (count h - 1)) i HASH_DELETED emptytok emptytok.

Definition _uhash_internalSetResizePolicy h (policy : UHashResizePolicy) : t A :=
  let '(low, high) := RESIZE_POLICY_RATIO_TABLE policy in
  mk (elements h) (keyHasher h) (keyComparator h) (valueComparator h) (keyDeleter h) (valueDeleter h) (count h) (length h)
     (highWaterMark h) (lowWaterMark h) high low (primeIndex h) (allocated h) (deletedKeys h) (deletedValues h).

Definition empty_element : UHashElement A := Elem HASH_EMPTY emptytok emptytok.

Definition _uhash_allocate h (index : Z) (status : UErrorCode) : option (t A * UErrorCode) :=
  if U_FAILURE status then Some (h, status)
  else
    n ← zget PRIMES index;
    let h := set_array (set_prime h index) None n in
    match uprv_malloc (Elem junk (Int junk) (Int junk) : UHashElement A) sizeof_UHashElement n with
    | None => Some (h, U_MEMORY_ALLOCATION_ERROR)
    | Some _ => Some (set_marks (set_count (set_cells h (replicate (Z.to_nat n) empty_element)) 0), status)
    end.

Definition _uhash_init (keyHash : hashFn) (keyComp : compareFn) (valueComp : option compareFn) (index : Z) (status : UErrorCode)
  : option (option (t A) * UErrorCode) :=
  if U_FAILURE status then Some (None, status)
  else
    let h := mk None keyHash keyComp valueComp false false 0 0 0 0 (Float 0 0) (Float 0 0) 0 false [] [] in
    '(h, status) ← _uhash_allocate (_uhash_internalSetResizePolicy h U_GROW) index status;
    Some (if U_FAILURE status then None else Some h, status).

Definition sizeof_UHashtable : Z := 80.

(** The result of [uprv_malloc] for the table itself: its [allocated] is set. *)
Definition _uhash_create (keyHash : hashFn) (keyComp : compareFn) (valueComp : option compareFn) (index : Z) (status : UErrorCode)
  : option (option (t A) * UErrorCode) :=
  if U_FAILURE status then Some (None, status)
  else if alloc_ok sizeof_UHashtable then
    '(r, status) ← _uhash_init keyHash keyComp valueComp index status;
    Some (match r with
          | None => None
          | Some h => Some (mk (elements h) (keyHasher h) (keyComparator h) (valueComparator h) (keyDeleter h) (valueDeleter h) (count h)
              (length h) (highWaterMark h) (lowWaterMark h) (highWaterRatio h) (lowWaterRatio h) (primeIndex h) true (deletedKeys h) (deletedValues h))
          end, status)
  else Some (None, U_MEMORY_ALLOCATION_ERROR).

(** ** Searching *)

(** The do-while loop of [_uhash_find]; the inner [None] is a null result. *)
Fixpoint find_loop (fuel : nat) h (cells : list (UHashElement A)) (k : tok A) (hash startIndex theIndex jump firstDeleted : Z)
  : option (option Z) :=
  match fuel with
  | O => None
  | S fuel =>
      e ← zget cells theIndex;
      let tableHash := hashcode e in
      let next firstDeleted :=
        let jump := if jump =? 0 then hash mod (length h - 1) + 1 else jump in
        sum ← checked (theIndex + jump);
        let theIndex := sum mod length h in
        if negb (theIndex =? startIndex) then find_loop fuel h cells k hash startIndex theIndex jump firstDeleted
        else if 0 <=? firstDeleted then Some (Some firstDeleted)
        else if negb (tableHash =? HASH_EMPTY) then Some None
        else Some (Some theIndex) in
      if tableHash =? hash then
        if compare_of (keyComparator h) k (key e) then Some (Some theIndex) else next firstDeleted
      else if negb (IS_EMPTY_OR_DELETED tableHash) then next firstDeleted
      else if tableHash =? HASH_EMPTY then Some (Some (if 0 <=? firstDeleted then firstDeleted else theIndex))
      else next (if firstDeleted <? 0 then theIndex else firstDeleted)
  end.

Definition _uhash_find h (k : tok A) (hash : Z) : option (option Z) :=
  cells ← elements h;
  let hash := Z.land hash 0x7FFFFFFF in
  let startIndex := Z.lxor hash 0x4000000 mod length h in
  find_loop (S (Z.to_nat (length h))) h cells k hash startIndex startIndex 0 (-1).

(** The slot that a find must return: reading through a null result has no meaning. *)
Definition find_slot h (k : tok A) : option Z := r ← _uhash_find h k (hash_of (keyHasher h) k); r.

(** ** Rehashing *)

(** The loop over the old array, from its end. *)
Fixpoint rehash_loop (n : nat) h (old : list (UHashElement A)) : option (t A) :=
  match n with
  | O => Some h
  | S n =>
      e ← zget old (Z.of_nat n);
      h ← (if IS_EMPTY_OR_DELETED (hashcode e) then Some h
           else
             r ← _uhash_find h (key e) (hashcode e);
             i ← r;
             cells ← elements h;
             cells ← zset cells i (Elem (hashcode e) (value e) (key e));
             Some (set_count (set_cells h cells) (count h + 1)));
      rehash_loop n h old
  end.

Definition _uhash_rehash h (status : UErrorCode) : option (t A * UErrorCode) :=
  let newPrimeIndex :=
    if highWaterMark h <? count h then
      if PRIMES_LENGTH <=? primeIndex h + 1 then None else Some (primeIndex h + 1)
    else if count h <? lowWaterMark h then
      if primeIndex h - 1 <? 0 then None else Some (primeIndex h - 1)
    else None in
  match newPrimeIndex with
  | None => Some (h, status)
  | Some index =>
      '(h', status) ← _uhash_allocate h index status;
      if U_FAILURE status then Some (set_array h' (elements h) (length h), status)
      else old ← elements h; h' ← rehash_loop (Z.to_nat (length h)) h' old; Some (h', status)
  end.

(** ** Putting and removing *)

Definition _uhash_remove h (k : tok A) : option (tok A * t A) :=
  i ← find_slot h k;
  cells ← elements h;
  e ← zget cells i;
  if IS_EMPTY_OR_DELETED (hashcode e) then Some (emptytok, h)
  else
    '(result, h) ← _uhash_internalRemoveElement h i;
    if count h <? lowWaterMark h
    then '(h, _) ← _uhash_rehash h U_ZERO_ERROR; Some (result, h)
    else Some (result, h).

(** [goto err] *)
Definition put_err h (k v : tok A) (status : UErrorCode) : option (tok A * t A * UErrorCode) :=
  h ← HASH_DELETE_KEY_VALUE h k v; Some (emptytok, h, status).

(** [valuePointer] is [hint & HINT_VALUE_POINTER]. *)
Definition _uhash_put h (k v : tok A) (valuePointer : bool) (status : UErrorCode) : option (tok A * t A * UErrorCode) :=
  if U_FAILURE status then put_err h k v status
  else if valuePointer && is_null v then '(r, h) ← _uhash_remove h k; Some (r, h, status)
  else
    '(h, status) ← (if highWaterMark h <? count h then _uhash_rehash h status else Some (h, status));
    if U_FAILURE status then put_err h k v status
    else
      let hash := hash_of (keyHasher h) k in
      r ← _uhash_find h k hash;
      i ← r;
      cells ← elements h;
      e ← zget cells i;
      let store h := '(r, h) ← _uhash_setElement h i (Z.land hash 0x7FFFFFFF) k v; Some (r, h, status) in
      if IS_EMPTY_OR_DELETED (hashcode e) then
        if count h + 1 =? length h then put_err h k v U_MEMORY_ALLOCATION_ERROR
        else store (set_count h (count h + 1))
      else store h.

(** ** The public functions *)

Definition uhash_open (keyHash : hashFn) (keyComp : compareFn) (valueComp : option compareFn) (status : UErrorCode) :=
  _uhash_create keyHash keyComp valueComp DEFAULT_PRIME_INDEX status.

(** The smallest index whose prime is at least [size]. *)
Fixpoint size_index (n : nat) (i size : Z) : option Z :=
  match n with
  | O => None
  | S n => if i <? PRIMES_LENGTH - 1
           then p ← zget PRIMES i; if p <? size then size_index n (i + 1) size else Some i
           else Some i
  end.

Definition uhash_openSize (keyHash : hashFn) (keyComp : compareFn) (valueComp : option compareFn) (size : Z) (status : UErrorCode) :=
  i ← size_index 28 0 size; _uhash_create keyHash keyComp valueComp i status.

Definition uhash_init (keyHash : hashFn) (keyComp : compareFn) (valueComp : option compareFn) (status : UErrorCode) :=
  _uhash_init keyHash keyComp valueComp DEFAULT_PRIME_INDEX status.

(** The setters return the old member. *)
Definition set_functions h (hf : hashFn) (cf : compareFn) (vc : option compareFn) (kd vd : bool) : t A :=
  mk (elements h) hf cf vc kd vd (count h) (length h) (highWaterMark h) (lowWaterMark h) (highWaterRatio h) (lowWaterRatio h) (primeIndex h)
     (allocated h) (deletedKeys h) (deletedValues h).
Definition uhash_setKeyHasher h (fn : hashFn) : hashFn * t A :=
  (keyHasher h, set_functions h fn (keyComparator h) (valueComparator h) (keyDeleter h) (valueDeleter h)).
Definition uhash_setKeyComparator h (fn : compareFn) : compareFn * t A :=
  (keyComparator h, set_functions h (keyHasher h) fn (valueComparator h) (keyDeleter h) (valueDeleter h)).
Definition uhash_setValueComparator h (fn : option compareFn) : option compareFn * t A :=
  (valueComparator h, set_functions h (keyHasher h) (keyComparator h) fn (keyDeleter h) (valueDeleter h)).
Definition uhash_setKeyDeleter h (fn : bool) : bool * t A :=
  (keyDeleter h, set_functions h (keyHasher h) (keyComparator h) (valueComparator h) fn (valueDeleter h)).
Definition uhash_setValueDeleter h (fn : bool) : bool * t A :=
  (valueDeleter h, set_functions h (keyHasher h) (keyComparator h) (valueComparator h) (keyDeleter h) fn).

Definition uhash_setResizePolicy h (policy : UHashResizePolicy) : option (t A) :=
  '(h, _) ← _uhash_rehash (set_marks (_uhash_internalSetResizePolicy h policy)) U_ZERO_ERROR; Some h.

Definition uhash_count h : Z := count h.

(** [uhash_get], [uhash_iget], [uhash_geti] and [uhash_igeti]: the value token of the slot. *)
Definition uhash_get h (k : tok A) : option (tok A) :=
  i ← find_slot h k; cells ← elements h; e ← zget cells i; Some (value e).

(** [uhash_put] and [uhash_iput], [uhash_puti] and [uhash_iputi], by their value. *)
Definition uhash_put h (k : tok A) (v : option A) (status : UErrorCode) := _uhash_put h k (Ptr v) true status.
Definition uhash_puti h (k : tok A) (v : Z) (status : UErrorCode) := _uhash_put h k (Int v) false status.

(** [uhash_remove] and its variants. *)
Definition uhash_remove h (k : tok A) : option (tok A * t A) := _uhash_remove h k.

(** The slot of the next element behind [pos]; [None] at the end. *)
Fixpoint next_loop (n : nat) (cells : list (UHashElement A)) (i : Z) : option (option Z) :=
  match n with
  | O => Some None
  | S n => e ← zget cells i; if IS_EMPTY_OR_DELETED (hashcode e) then next_loop n cells (i + 1) else Some (Some i)
  end.

Definition uhash_nextElement h (pos : Z) : option (option Z) :=
  cells ← elements h; next_loop (Z.to_nat (length h - (pos + 1))) cells (pos + 1).

Definition uhash_find h (k : tok A) : option (option Z) :=
  i ← find_slot h k; cells ← elements h; e ← zget cells i; Some (if IS_EMPTY_OR_DELETED (hashcode e) then None else Some i).

Definition uhash_removeElement h (i : Z) : option (tok A * t A) :=
  cells ← elements h; e ← zget cells i;
  if IS_EMPTY_OR_DELETED (hashcode e) then Some (emptytok, h) else _uhash_internalRemoveElement h i.

Fixpoint removeAll_loop (fuel : nat) h (pos : Z) : option (t A) :=
  match fuel with
  | O => None
  | S fuel =>
      r ← uhash_nextElement h pos;
      match r with
      | None => Some h
      | Some i => '(_, h) ← uhash_removeElement h i; removeAll_loop fuel h i
      end
  end.

Definition uhash_removeAll h : option (t A) :=
  if negb (count h =? 0) then removeAll_loop (S (Z.to_nat (length h))) h UHASH_FIRST else Some h.

(** The loop of [uhash_close] that deletes keys and values. *)
Fixpoint close_loop (fuel : nat) h (pos : Z) : option (t A) :=
  match fuel with
  | O => None
  | S fuel =>
      r ← uhash_nextElement h pos;
      match r with
      | None => Some h
      | Some i => cells ← elements h; e ← zget cells i; h ← HASH_DELETE_KEY_VALUE h (key e) (value e); close_loop fuel h i
      end
  end.

(** What is left of the table: its logs. *)
Definition uhash_close h : option (list A * list A) :=
  match elements h with
  | None => Some (deletedKeys h, deletedValues h)
  | Some _ =>
      h ← (if keyDeleter h || valueDeleter h then close_loop (S (Z.to_nat (length h))) h UHASH_FIRST else Some h);
      Some (deletedKeys h, deletedValues h)
  end.

Fixpoint equals_loop (n : nat) h1 h2 (vc : compareFn) (pos : Z) : option bool :=
  match n with
  | O => Some true
  | S n =>
      r ← uhash_nextElement h1 pos;
      i ← r;
      cells ← elements h1;
      e ← zget cells i;
      v2 ← uhash_get h2 (key e);
      if compare_of vc (value e) v2 then equals_loop n h1 h2 vc i else Some false
  end.

(** For two tables that are not the same object. *)
Definition uhash_equals h1 h2 : option bool :=
  match valueComparator h1 with
  | None => Some false
  | Some vc =>
      if bool_decide (keyComparator h1 = keyComparator h2) && bool_decide (valueComparator h1 = valueComparator h2) then
        if count h1 =? count h2 then equals_loop (Z.to_nat (count h1)) h1 h2 vc UHASH_FIRST else Some false
      else Some false
  end.
End Ops.
End UHash.
