(* ===== verification/UHashFacts.v ===== *)
(** * The hash table as a finite map

    The probe sequence of a table visits every slot, because the length is prime; so a search
    ends, finds the key if it is there, and otherwise a free slot on the way.  With the invariant
    that every element can be reached, the table is a finite map: putting, removing and rehashing
    do to it what they say. *)

From Stdlib Require Import Znumtheory.
From S2P Require Import Prelude Vector UString UHash.
Import UVector UHash.

Module UHashFacts.

(** ** The lengths are prime *)

(** No odd divisor from [d] up to the square root. *)
Fixpoint no_divisor (fuel : nat) (p d : Z) : bool :=
  match fuel with
  | O => false
  | S fuel => if p <? d * d then true else if p mod d =? 0 then false else no_divisor fuel p (d + 2)
  end.

Lemma no_divisor_spec fuel p d :
  no_divisor fuel p d = true -> 1 < d -> Z.odd d = true -> forall m, d <= m -> m * m <= p -> Z.odd m = true -> ~ (m | p).
Proof.
  revert d. induction fuel as [|fuel IH]; intros d Hn Hd Hodd m Hm Hmm Ho; [done|]. cbn [no_divisor] in Hn.
  destruct (Z.ltb_spec p (d * d)); [nia|]. destruct (Z.eqb_spec (p mod d) 0) as [|Hnz]; [done|].
  destruct (decide (m = d)) as [->|Hne].
  - intros Hdiv%Z.mod_divide; [done|lia].
  - apply (IH (d + 2)); auto; [lia| |].
    + rewrite Z.odd_add, Hodd. done.
    + assert (m <> d + 1); [|lia]. intros ->. rewrite Z.odd_add, Hodd in Ho. done.
Qed.

Lemma odd_divisor p m : Z.odd p = true -> (m | p) -> Z.odd m = true.
Proof. intros Hp [q ->]. rewrite Z.odd_mul in Hp. by destruct (Z.odd q). Qed.

Lemma prime_by_trial p fuel : 1 < p -> Z.odd p = true -> no_divisor fuel p 3 = true -> prime p.
Proof.
  intros Hp Hodd Hn. apply prime_alt. split; [done|]. intros m Hm Hdiv.
  assert (Hsmall : forall a, 1 < a -> a * a <= p -> (a | p) -> False).
  { intros a Ha Haa Had. pose proof (odd_divisor p a Hodd Had) as Hao. apply (no_divisor_spec fuel p 3 Hn ltac:(lia) eq_refl a); auto.
    assert (a <> 2) by (by intros ->). lia. }
  destruct Hdiv as [q Eq]. destruct (Z.le_gt_cases m q).
  - apply (Hsmall m); [lia|nia|by exists q].
  - apply (Hsmall q); [nia|nia|exists m; lia].
Qed.

(** The lengths of the tables considered here: their arrays have at most [INT32_MAX] bytes. *)
Definition SIZES : list Z := take 23 PRIMES.

Lemma sizes_checked : forallb (fun p => (1 <? p) && Z.odd p && no_divisor (Z.to_nat (Z.sqrt p)) p 3) SIZES = true.
Proof. vm_compute. reflexivity. Qed.

Lemma sizes_prime n : n ∈ SIZES -> prime n.
Proof.
  intros Hn. pose proof sizes_checked as Hc. rewrite forallb_forall in Hc. apply list_elem_of_In in Hn.
  specialize (Hc n Hn). apply andb_true_iff in Hc as [[H1 H2]%andb_true_iff H3]. eapply prime_by_trial; eauto. lia.
Qed.

Lemma sizes_range n : n ∈ SIZES -> 13 <= n /\ sizeof_UHashElement * n <= INT32_MAX.
Proof.
  intros Hn. assert (Hc : forallb (fun n => (13 <=? n) && (sizeof_UHashElement * n <=? INT32_MAX)) SIZES = true) by (by vm_compute).
  rewrite forallb_forall in Hc. apply list_elem_of_In in Hn. specialize (Hc n Hn). lia.
Qed.

Lemma sizes_in_primes n : n ∈ SIZES -> n ∈ PRIMES.
Proof. unfold SIZES. intros Hn. rewrite <- (take_drop 23 PRIMES). apply elem_of_app. by left. Qed.

(** ** The probe sequence *)

Section Probe.
Context (n s j : Z) (Hn : prime n) (Hs : 0 <= s < n) (Hj : 0 < j < n).

Definition probe (m : Z) : Z := (s + m * j) mod n.

Lemma probe_range m : 0 <= probe m < n.
Proof using Hs. clear Hj. apply Z.mod_pos_bound. lia. Qed.

Lemma probe_0 : probe 0 = s.
Proof using Hs. unfold probe. rewrite Z.mul_0_l, Z.add_0_r. by apply Z.mod_small. Qed.

Lemma probe_next m : (probe m + j) mod n = probe (m + 1).
Proof using. unfold probe. rewrite Zplus_mod_idemp_l. f_equal. lia. Qed.

Lemma jump_coprime : rel_prime j n.
Proof. apply rel_prime_le_prime; [done|lia]. Qed.

(** It returns to the start only after [n] steps. *)
Lemma probe_period m : 0 < m <= n -> probe m = s <-> m = n.
Proof.
  intros Hm. unfold probe. split.
  - intros E. assert (Hdiv : (n | j * m)).
    { exists ((s + m * j) / n). pose proof (Z.div_mod (s + m * j) n ltac:(lia)). lia. }
    apply Gauss in Hdiv; [|apply rel_prime_sym, jump_coprime]. apply Z.divide_pos_le in Hdiv; lia.
  - intros ->. replace (s + n * j) with (s + j * n) by lia. rewrite Z_mod_plus_full. by apply Z.mod_small.
Qed.

(** It visits every slot. *)
Lemma probe_onto i : 0 <= i < n -> exists m, 0 <= m < n /\ probe m = i.
Proof.
  intros Hi. destruct (rel_prime_bezout _ _ jump_coprime) as [u v E]. exists ((i - s) * u mod n). split; [apply Z.mod_pos_bound; lia|].
  unfold probe. rewrite <- Zplus_mod_idemp_r, Zmult_mod_idemp_l, Zplus_mod_idemp_r.
  replace (s + (i - s) * u * j) with (i + (- (i - s) * v) * n) by nia. rewrite Z_mod_plus_full. by apply Z.mod_small.
Qed.
End Probe.

(** ** Searching *)

Section Table.
Context `{HP : Heap} {A : Type} `{EqA : EqDecision A} `{CB : Callbacks A}.
Implicit Types (h : t A) (e : UHashElement A) (cells : list (UHashElement A)).

Definition live_e e : bool := negb (IS_EMPTY_OR_DELETED (hashcode e)).

(** The hash code of a key as it is stored. *)
Definition masked (hash : Z) : Z := Z.land hash 0x7FFFFFFF.

Lemma masked_range hash : 0 <= masked hash <= INT32_MAX.
Proof.
  unfold masked. change 0x7FFFFFFF with (Z.ones 31). rewrite Z.land_ones by lia. pose proof (Z.mod_pos_bound hash (2 ^ 31) ltac:(lia)).
  change (2 ^ 31) with 2147483648 in *. unfold INT32_MAX. lia.
Qed.

Lemma masked_masked hash : masked (masked hash) = masked hash.
Proof. unfold masked. by rewrite <- Z.land_assoc, Z.land_diag. Qed.

(** Start and jump of a hash code in a table of length [n]. *)
Definition start_of (n hc : Z) : Z := Z.lxor hc 0x4000000 mod n.
Definition jump_of (n hc : Z) : Z := hc mod (n - 1) + 1.

Lemma start_range n hc : 0 < n -> 0 <= start_of n hc < n.
Proof. intros. by apply Z.mod_pos_bound. Qed.

Lemma jump_range n hc : 2 < n -> 0 < jump_of n hc < n.
Proof. intros. unfold jump_of. pose proof (Z.mod_pos_bound hc (n - 1) ltac:(lia)). lia. Qed.

Notation slot n hc m := (probe n (start_of n hc) (jump_of n hc) m).

Section Find.
Context h cells (k : tok A) (hc : Z).
Context (Hlen : zlen cells = length h) (Hsize : length h ∈ SIZES) (Hhc : 0 <= hc).

Notation n := (length h).
Notation at_ m := (zget cells (slot n hc m)).

Definition hit e : Prop := hashcode e = hc /\ compare_of (keyComparator h) k (key e) = true.

(** A slot that a search goes past. *)
Definition goes_past (m : Z) : Prop := exists e, at_ m = Some e /\ hashcode e <> HASH_EMPTY /\ ~ hit e.

(** The search stops there, or has seen all slots. *)
Definition exhausted : Prop :=
  exists stop, 0 <= stop <= n /\ (forall m, 0 <= m < stop -> goes_past m) /\ (stop = n \/ exists e, at_ stop = Some e /\ hashcode e = HASH_EMPTY).

Definition find_result (r : option Z) : Prop :=
  match r with
  | Some i => exists m e, 0 <= m < n /\ i = slot n hc m /\ zget cells i = Some e /\ (forall m', 0 <= m' < m -> goes_past m') /\
      (hit e \/ live_e e = false /\ exhausted)
  | None => forall m e, 0 <= m < n -> at_ m = Some e -> live_e e = true
  end.

Lemma at_slot m : exists e, at_ m = Some e.
Proof.
  pose proof (sizes_range _ Hsize). destruct (zget_is_Some cells (slot n hc m)) as (e & E); [|by exists e].
  rewrite Hlen. apply probe_range, start_range. lia.
Qed.

(** The first deleted slot seen before step [m]. *)
Definition deleted_ok (fd m : Z) : Prop :=
  fd = -1 /\ (forall m' e, 0 <= m' < m -> at_ m' = Some e -> live_e e = true) \/
  exists m' e, 0 <= m' < m /\ fd = slot n hc m' /\ at_ m' = Some e /\ live_e e = false.

Lemma deleted_result fd m :
  deleted_ok fd m -> 0 <= fd -> m <= n -> (forall m', 0 <= m' < m -> goes_past m') -> exhausted -> find_result (Some fd).
Proof.
  intros [[-> _]|(m' & e & Hm' & -> & He & Hl)] Hfd Hm Hpast Hex; [lia|]. exists m', e. split_and!; auto; [lia|lia|].
  intros m'' Hm''. apply Hpast. lia.
Qed.

Lemma find_loop_spec fuel m fd :
  0 <= m < n -> n - m <= Z.of_nat fuel -> (forall m', 0 <= m' < m -> goes_past m') -> deleted_ok fd m ->
  exists r, find_loop fuel h cells k hc (start_of n hc) (slot n hc m) (if m =? 0 then 0 else jump_of n hc) fd = Some r /\ find_result r.
Proof.
  pose proof (sizes_range _ Hsize) as [H13 Hmax]. pose proof (sizes_prime _ Hsize) as Hp. unfold sizeof_UHashElement, INT32_MAX in Hmax.
  pose proof (start_range n hc ltac:(lia)) as Hs. pose proof (jump_range n hc ltac:(lia)) as Hj.
  revert m fd. induction fuel as [|fuel IH]; intros m fd Hm Hf Hpast Hdel; [lia|]. cbn [find_loop].
  destruct (at_slot m) as (e & He). rewrite He. cbn [mbind option_bind].
  assert (Hjump : (if (if m =? 0 then 0 else jump_of n hc) =? 0 then hc mod (n - 1) + 1 else if m =? 0 then 0 else jump_of n hc) = jump_of n hc).
  { destruct (Z.eqb_spec m 0) as [_|_]; [done|]. destruct (Z.eqb_spec (jump_of n hc) 0); [lia|done]. }
  rewrite Hjump. clear Hjump.
  (* going on *)
  assert (Hnext : forall fd', goes_past m -> deleted_ok fd' (m + 1) -> exists r,
    (sum ← checked (slot n hc m + jump_of n hc);
     if negb (sum mod n =? start_of n hc) then find_loop fuel h cells k hc (start_of n hc) (sum mod n) (jump_of n hc) fd'
     else if 0 <=? fd' then Some (Some fd') else if negb (hashcode e =? HASH_EMPTY) then Some None else Some (Some (sum mod n))) = Some r /\ find_result r).
  { intros fd' Hgo Hdel'. pose proof (probe_range n (start_of n hc) (jump_of n hc) Hs m) as Hr.
    rewrite checked_in by (unfold INT32_MIN, INT32_MAX; lia). cbn [mbind option_bind]. rewrite probe_next.
    assert (Hpast' : forall m', 0 <= m' < m + 1 -> goes_past m').
    { intros m' Hm'. destruct (decide (m' = m)) as [->|]; [done|]. apply Hpast. lia. }
    destruct (Z.eqb_spec (slot n hc (m + 1)) (start_of n hc)) as [E|Hne]; cbn [negb].
    - apply probe_period in E; [|done..|lia]. assert (exhausted) as Hex.
      { exists n. split; [lia|]. split; [|by left]. intros m' Hm'. apply Hpast'. lia. }
      destruct (Z.leb_spec 0 fd').
      + eexists. split; [done|]. eapply deleted_result; eauto. lia.
      + destruct Hgo as (e' & He' & Hne & _). rewrite He in He'. injection He' as <-.
        destruct (Z.eqb_spec (hashcode e) HASH_EMPTY) as [|_]; [done|]. eexists. split; [done|]. cbn [find_result].
        destruct Hdel' as [[_ Hall]|(m' & e' & Hm' & -> & _)]; [|pose proof (probe_range n (start_of n hc) (jump_of n hc) Hs m'); lia].
        intros m' e' Hm'. apply Hall. lia.
    - assert (m + 1 <> n) by (intros E; apply Hne; apply probe_period; auto; lia).
      destruct (IH (m + 1) fd') as (r & Hr' & Hres); auto; [lia..|]. destruct (Z.eqb_spec (m + 1) 0) as [|_]; [lia|]. eauto. }
  assert (Hlive : live_e e = true -> deleted_ok fd (m + 1)).
  { intros Hl. destruct Hdel as [[-> Hall]|(m' & e' & Hm' & Hfd)]; [left|right].
    - split; [done|]. intros m' e' Hm' He'. destruct (decide (m' = m)) as [->|]; [congruence|]. apply (Hall m'); [lia|done].
    - exists m', e'. split; [lia|done]. }
  destruct (Z.eqb_spec (hashcode e) hc) as [Eh|Hnh].
  - assert (live_e e = true) by (unfold live_e, IS_EMPTY_OR_DELETED; destruct (Z.ltb_spec (hashcode e) 0); [lia|done]).
    destruct (compare_of (keyComparator h) k (key e)) eqn:Ek.
    + eexists. split; [done|]. exists m, e. do 4 (split; [lia || done|]). by left.
    + apply Hnext; auto. exists e. split_and!; auto; [unfold HASH_EMPTY, HASH_DELETED, INT32_MIN; lia|]. intros [_ ?]. congruence.
  - unfold live_e in Hlive. destruct (IS_EMPTY_OR_DELETED (hashcode e)) eqn:Efree; cbn [negb] in *.
    + destruct (Z.eqb_spec (hashcode e) HASH_EMPTY) as [Ee|Hne].
      * assert (Hex : exhausted) by (exists m; split_and!; [lia..|done|by right; exists e]). eexists. split; [done|].
        destruct (Z.leb_spec 0 fd); [eapply deleted_result; eauto; lia|]. exists m, e. do 4 (split; [lia || done|]).
        right. split; [|done]. unfold live_e. by rewrite Efree.
      * apply Hnext; [exists e; split_and!; auto; by intros [? _]|]. destruct (Z.ltb_spec fd 0) as [Hneg|Hpos].
        -- right. exists m, e. do 3 (split; [lia || done|]). unfold live_e. by rewrite Efree.
        -- destruct Hdel as [[-> _]|(m' & e' & Hm' & Hfd)]; [lia|]. right. exists m', e'. split; [lia|done].
    + apply Hnext; auto. exists e. split_and!; auto; [|by intros [? _]]. intros E. rewrite E in Efree. done.
Qed.
End Find.

(** ** The invariant *)

(** What the callbacks are documented to do: comparators decide an equivalence, and equal keys
    have equal hash codes. *)
Record hash_ok (hf : hashFn) (cf : compareFn) : Prop := {
  ho_refl : forall a, compare_of cf a a = true;
  ho_sym : forall a b, compare_of cf a b = true -> compare_of cf b a = true;
  ho_trans : forall a b c, compare_of cf a b = true -> compare_of cf b c = true -> compare_of cf a c = true;
  ho_hash : forall a b, compare_of cf a b = true -> hash_of hf a = hash_of hf b
}.

(** A table with a deleter is given objects or nulls. *)
Definition tracked (deleter : bool) (x : tok A) : Prop := deleter = true -> is_null x = true \/ exists o, x = Ptr (Some o).

Notation is_live := (fun e => live_e e = true).

(** An empty or deleted slot holds no tokens. *)
Definition free_e e : Prop := (hashcode e = HASH_EMPTY \/ hashcode e = HASH_DELETED) /\ key e = emptytok /\ value e = emptytok.

Record wf_array h cells : Prop := {
  wa_len : zlen cells = length h;
  wa_size : length h ∈ SIZES;
  wa_codes : Forall (fun e => live_e e = true \/ free_e e) cells;
  wa_hash : forall e, e ∈ cells -> live_e e = true -> hashcode e = masked (hash_of (keyHasher h) (key e));
  wa_distinct : forall i j e e', zget cells i = Some e -> zget cells j = Some e' -> live_e e = true -> live_e e' = true ->
    compare_of (keyComparator h) (key e) (key e') = true -> i = j;
  wa_reach : forall i e, zget cells i = Some e -> live_e e = true ->
    exists m, 0 <= m < length h /\ i = slot (length h) (hashcode e) m /\
      forall m', 0 <= m' < m -> exists e', zget cells (slot (length h) (hashcode e) m') = Some e' /\ hashcode e' <> HASH_EMPTY;
  wa_owned : forall e, e ∈ cells -> live_e e = true -> tracked (keyDeleter h) (key e) /\ tracked (valueDeleter h) (value e);
  wa_count : count h = zlen (filter is_live cells);
  wa_room : count h < length h;
  wa_functions : hash_ok (keyHasher h) (keyComparator h)
}.

Definition wf h : Prop := exists cells, elements h = Some cells /\ wf_array h cells.

(** The pairs in the table. *)
Definition entries cells : list (tok A * tok A) := map (fun e => (key e, value e)) (filter is_live cells).

(** ** The result of a search *)

(** A free slot where an element with this hash code can be reached. *)
Definition insertable h cells hc i : Prop :=
  exists m e, 0 <= m < length h /\ i = slot (length h) hc m /\ zget cells i = Some e /\ live_e e = false /\
    forall m', 0 <= m' < m -> exists e', zget cells (slot (length h) hc m') = Some e' /\ hashcode e' <> HASH_EMPTY.

Lemma zget_elem cells i e : zget cells i = Some e -> e ∈ cells.
Proof. intros [_ E]%zget_Some_lookup. by eapply list_elem_of_lookup_2. Qed.

Lemma zget_of_nat cells (j : nat) e : cells !! j = Some e -> zget cells (Z.of_nat j) = Some e.
Proof. intros Hj. apply zget_Some_lookup. split; [lia|]. by rewrite Nat2Z.id. Qed.

Lemma live_not_empty e : live_e e = true -> hashcode e <> HASH_EMPTY.
Proof. unfold live_e. intros Hl E. by rewrite E in Hl. Qed.

(** A search that ends without a hit has not missed the key. *)
Lemma exhausted_absent h cells k hc e :
  wf_array h cells -> hc = masked (hash_of (keyHasher h) k) -> exhausted h cells k hc ->
  e ∈ cells -> live_e e = true -> compare_of (keyComparator h) k (key e) = true -> False.
Proof.
  intros Hwa Ehc (stop & Hstop & Hpast & Hend) Hin Hl Hc.
  assert (Eh : hashcode e = hc) by (by rewrite (wa_hash _ _ Hwa), Ehc, (ho_hash _ _ (wa_functions _ _ Hwa) _ _ Hc)).
  apply list_elem_of_lookup in Hin as (j & Hj). pose proof (zget_of_nat _ _ _ Hj) as Hz.
  destruct (wa_reach _ _ Hwa _ e Hz Hl) as (m & Hm & Ej & Hbefore). rewrite Eh in *. rewrite Ej in Hz.
  destruct (Z.lt_ge_cases m stop) as [Hlt|Hge].
  - destruct (Hpast m ltac:(lia)) as (e' & He' & _ & Hn). rewrite Hz in He'. injection He' as <-. by apply Hn.
  - destruct Hend as [->|(e' & He' & Hempty)]; [lia|]. destruct (decide (stop = m)) as [->|Hne].
    + rewrite Hz in He'. injection He' as <-. by apply (live_not_empty e).
    + destruct (Hbefore stop ltac:(lia)) as (e'' & He'' & Hn). rewrite He' in He''. injection He'' as <-. done.
Qed.

Lemma all_live_full cells : Forall is_live cells -> filter is_live cells = cells.
Proof. induction 1 as [|e cells He _ IH]; [done|]. rewrite filter_cons_True by done. by rewrite IH. Qed.

Lemma find_spec h cells k hash :
  elements h = Some cells -> wf_array h cells -> masked hash = masked (hash_of (keyHasher h) k) ->
  exists i, _uhash_find h k hash = Some (Some i) /\
    ((exists e, zget cells i = Some e /\ live_e e = true /\ compare_of (keyComparator h) k (key e) = true) \/
     insertable h cells (masked hash) i /\ forall e, e ∈ cells -> live_e e = true -> compare_of (keyComparator h) k (key e) = false).
Proof.
  intros Ecells Hwa Hmask. unfold _uhash_find. rewrite Ecells. cbn [mbind option_bind]. fold (masked hash).
  set (hc := masked hash) in *. pose proof (masked_range hash) as [Hhc _]. pose proof (sizes_range _ (wa_size _ _ Hwa)) as [H13 _].
  destruct (find_loop_spec h cells k hc (wa_len _ _ Hwa) (wa_size _ _ Hwa) Hhc (S (Z.to_nat (length h))) 0 (-1)) as (r & Hr & Hres).
  { lia. } { lia. } { lia. } { left. split; [done|]. lia. }
  rewrite probe_0 in Hr by (apply start_range; lia). change (if 0 =? 0 then 0 else jump_of (length h) hc) with 0 in Hr. unfold start_of in Hr.
  rewrite Hr. destruct r as [i|].
  - exists i. split; [done|]. destruct Hres as (m & e & Hm & -> & He & Hpast & [[Ehc Hc]|[Hfree Hex]]).
    + left. exists e. split_and!; auto. unfold live_e, IS_EMPTY_OR_DELETED. destruct (Z.ltb_spec (hashcode e) 0); [lia|done].
    + right. split.
      { exists m, e. do 4 (split; [done|]). intros m' Hm'. destruct (Hpast m' Hm') as (e' & He' & Hne & _). eauto. }
      intros e' Hin Hl. destruct (compare_of (keyComparator h) k (key e')) eqn:Ec; [|done]. exfalso. by eapply exhausted_absent.
  - exfalso. pose proof (wa_room _ _ Hwa) as Hroom. rewrite (wa_count _ _ Hwa), all_live_full, (wa_len _ _ Hwa) in Hroom; [lia|].
    apply Forall_forall. intros e' (j & Hj)%list_elem_of_lookup. pose proof (zget_of_nat _ _ _ Hj) as Hz.
    pose proof (zget_Some_range _ _ _ Hz) as Hr'. rewrite (wa_len _ _ Hwa) in Hr'.
    destruct (probe_onto (length h) (start_of (length h) hc) (jump_of (length h) hc) (sizes_prime _ (wa_size _ _ Hwa))
      (start_range (length h) hc ltac:(lia)) (jump_range (length h) hc ltac:(lia)) (Z.of_nat j) Hr') as (m & Hm & E).
    apply (Hres m e' Hm). by rewrite E.
Qed.

(** ** Changing one slot *)

(** What one slot contributes. *)
Definition entry e : list (tok A * tok A) := if live_e e then [(key e, value e)] else [].

Lemma entries_cons e cells : entries (e :: cells) = entry e ++ entries cells.
Proof. unfold entries, entry. destruct (live_e e) eqn:E; [by rewrite filter_cons_True|by rewrite filter_cons_False by (by rewrite E)]. Qed.

Lemma entries_app cells cells' : entries (cells ++ cells') = entries cells ++ entries cells'.
Proof. unfold entries. by rewrite filter_app, map_app. Qed.

Lemma entries_zlen cells : zlen (entries cells) = zlen (filter is_live cells).
Proof. unfold entries, zlen. by rewrite length_map. Qed.

Lemma entries_update cells i e e' :
  zget cells i = Some e ->
  exists rest, entries cells ≡ₚ entry e ++ rest /\ entries (<[Z.to_nat i := e']> cells) ≡ₚ entry e' ++ rest.
Proof.
  intros [_ Hi]%zget_Some_lookup. set (j := Z.to_nat i) in *. pose proof (lookup_lt_Some _ _ _ Hi) as Hlt.
  exists (entries (take j cells) ++ entries (drop (S j) cells)). split.
  - rewrite <- (take_drop_middle cells j e Hi) at 1. rewrite entries_app, entries_cons. by rewrite Permutation_app_swap_app.
  - rewrite insert_take_drop by done. rewrite entries_app, entries_cons. by rewrite Permutation_app_swap_app.
Qed.

(** The members that the invariant reads, but for [count]. *)
Definition same_table h h' : Prop :=
  length h' = length h /\ keyHasher h' = keyHasher h /\ keyComparator h' = keyComparator h /\
  keyDeleter h' = keyDeleter h /\ valueDeleter h' = valueDeleter h.

Definition reachable_at h cells hc i : Prop :=
  exists m, 0 <= m < length h /\ i = slot (length h) hc m /\
    forall m', 0 <= m' < m -> exists e', zget cells (slot (length h) hc m') = Some e' /\ hashcode e' <> HASH_EMPTY.

Record storable h cells i e' : Prop := {
  sb_codes : live_e e' = true \/ free_e e';
  sb_kept : hashcode e' <> HASH_EMPTY;
  sb_hash : live_e e' = true -> hashcode e' = masked (hash_of (keyHasher h) (key e'));
  sb_owned : live_e e' = true -> tracked (keyDeleter h) (key e') /\ tracked (valueDeleter h) (value e');
  sb_reach : live_e e' = true -> reachable_at h cells (hashcode e') i;
  sb_distinct : forall j e2, j <> i -> zget cells j = Some e2 -> live_e e' = true -> live_e e2 = true ->
    compare_of (keyComparator h) (key e') (key e2) = false
}.

Lemma reach_update h cells i e' hc j :
  0 <= i < zlen cells -> hashcode e' <> HASH_EMPTY -> reachable_at h cells hc j -> reachable_at h (<[Z.to_nat i := e']> cells) hc j.
Proof.
  intros Hi Hne (m & Hm & -> & Hb). exists m. split_and!; auto; [lia..|]. intros m' Hm'. destruct (Hb m' Hm') as (e2 & He2 & Hn2).
  destruct (decide (slot (length h) hc m' = i)) as [->|Hd].
  - exists e'. by rewrite zget_insert_eq.
  - exists e2. by rewrite zget_insert_ne by (lia || done).
Qed.

Lemma update_wf h h' cells i e e' :
  wf_array h cells -> same_table h h' -> zget cells i = Some e -> storable h cells i e' ->
  count h' = count h - zlen (entry e) + zlen (entry e') -> count h' < length h ->
  wf_array h' (<[Z.to_nat i := e']> cells).
Proof.
  intros Hwa (Hl & Hh & Hc & Hkd & Hvd) He Hsb Hcount Hroom. pose proof (zget_Some_range _ _ _ He) as Hi.
  assert (Hin : forall e2, e2 ∈ <[Z.to_nat i := e']> cells -> e2 = e' \/ e2 ∈ cells).
  { intros e2 (j & Hj)%list_elem_of_lookup. apply list_lookup_insert_Some in Hj as [(_ & <- & _)|[_ Hj]]; [by left|right]. by eapply list_elem_of_lookup_2. }
  assert (Hget : forall j e2, zget (<[Z.to_nat i := e']> cells) j = Some e2 -> j = i /\ e2 = e' \/ j <> i /\ zget cells j = Some e2).
  { intros j e2 Hj. destruct (decide (j = i)) as [->|Hd]; [left|right].
    - rewrite zget_insert_eq in Hj by done. by injection Hj as <-.
    - split; [done|]. by rewrite zget_insert_ne in Hj by (lia || done). }
  split; rewrite ?Hl, ?Hh, ?Hc, ?Hkd, ?Hvd; try apply Hwa; auto.
  - unfold zlen. rewrite length_insert. apply Hwa.
  - apply Forall_forall. intros e2 [->|Hin2]%Hin; [apply Hsb|]. by apply (proj1 (Forall_forall _ _) (wa_codes _ _ Hwa)).
  - intros e2 [->|Hin2]%Hin Hlive; [by apply Hsb|by apply Hwa].
  - intros j1 j2 e1 e2 [[-> ->]|[Hd1 Hj1]]%Hget [[-> ->]|[Hd2 Hj2]]%Hget Hl1 Hl2 Heq; [done|..].
    + rewrite (sb_distinct _ _ _ _ Hsb j2 e2) in Heq by done. done.
    + apply (ho_sym _ _ (wa_functions _ _ Hwa)) in Heq. rewrite (sb_distinct _ _ _ _ Hsb j1 e1) in Heq by done. done.
    + by eapply (wa_distinct _ _ Hwa).
  - intros j e2 Hj Hlive. rewrite <- Hl. change (reachable_at h' (<[Z.to_nat i:=e']> cells) (hashcode e2) j).
    assert (Hr : reachable_at h (<[Z.to_nat i:=e']> cells) (hashcode e2) j); [|unfold reachable_at in *; by rewrite Hl].
    apply Hget in Hj as [[-> ->]|[Hd Hj]]; apply reach_update; auto; try apply Hsb; auto. by apply (wa_reach _ _ Hwa).
  - intros e2 [->|Hin2]%Hin Hlive; [by apply Hsb|by apply Hwa].
  - destruct (entries_update cells i e e' He) as (rest & Hp & Hp'). apply Permutation_length in Hp, Hp'.
    rewrite <- entries_zlen. pose proof (wa_count _ _ Hwa) as Hcnt. rewrite <- entries_zlen in Hcnt. unfold zlen in *. rewrite length_app in *. lia.
Qed.

(** ** Storing *)

(** The objects deleted when [old] makes way for [new]. *)
Definition gone (deleter : bool) (old new : tok A) : list A :=
  if deleter && negb (bool_decide (old = new)) then option_list (object old) else [].

Lemma log_nothing h : log_deleted h [] [] = h.
Proof. destruct h. unfold log_deleted. cbn. by rewrite !app_nil_r. Qed.

Lemma delete_key_spec h x :
  tracked (keyDeleter h) x -> delete_key h x = Some (log_deleted h (if keyDeleter h then option_list (object x) else []) []).
Proof.
  intros Ht. unfold delete_key. destruct (keyDeleter h); cbn [andb]; [|by rewrite log_nothing].
  destruct (Ht eq_refl) as [Hn|(o & ->)]; [|done]. rewrite Hn. cbn [negb]. destruct x as [[o|]|z]; cbn; try done; by rewrite log_nothing.
Qed.

Lemma delete_value_spec h x :
  tracked (valueDeleter h) x -> delete_value h x = Some (log_deleted h [] (if valueDeleter h then option_list (object x) else [])).
Proof.
  intros Ht. unfold delete_value. destruct (valueDeleter h); cbn [andb]; [|by rewrite log_nothing].
  destruct (Ht eq_refl) as [Hn|(o & ->)]; [|done]. rewrite Hn. cbn [negb]. destruct x as [[o|]|z]; cbn; try done; by rewrite log_nothing.
Qed.

Lemma log_both h ks vs : log_deleted (log_deleted h ks []) [] vs = log_deleted h ks vs.
Proof. unfold log_deleted. cbn. by rewrite !app_nil_r. Qed.

Lemma setElement_spec h cells i e hash k v :
  elements h = Some cells -> zget cells i = Some e -> tracked (keyDeleter h) (key e) -> tracked (valueDeleter h) (value e) ->
  _uhash_setElement h i hash k v =
    Some (if valueDeleter h then emptytok else value e,
          set_cells (log_deleted h (gone (keyDeleter h) (key e) k) (gone (valueDeleter h) (value e) v)) (<[Z.to_nat i := Elem hash v k]> cells)).
Proof.
  intros Ec Ei Hk Hv. unfold _uhash_setElement. rewrite Ec. cbn [mbind option_bind]. rewrite Ei. cbn [mbind option_bind].
  assert (E1 : (if bool_decide (key e = k) then Some h else delete_key h (key e)) = Some (log_deleted h (gone (keyDeleter h) (key e) k) [])).
  { unfold gone. case_bool_decide; cbn [negb]; rewrite ?andb_false_r, ?andb_true_r; [cbv iota; by rewrite (log_nothing h)|by apply delete_key_spec]. }
  rewrite E1. clear E1. cbn [mbind option_bind]. set (h1 := log_deleted h _ []).
  assert (E2 : (if bool_decide (value e = v) then Some h1 else delete_value h1 (value e)) = Some (log_deleted h1 [] (gone (valueDeleter h) (value e) v))).
  { unfold gone. case_bool_decide; cbn [negb]; rewrite ?andb_false_r, ?andb_true_r; [cbv iota; by rewrite (log_nothing h1)|by apply (delete_value_spec h1)]. }
  rewrite E2. cbn [mbind option_bind]. rewrite zset_in by (by eapply zget_Some_range). cbn [mbind option_bind]. unfold h1. by rewrite log_both.
Qed.

(** ** Allocation *)

Lemma entries_fresh n : entries (replicate n (@empty_element A)) = [].
Proof. induction n as [|n IH]; [done|]. cbn [replicate]. by rewrite entries_cons, IH. Qed.

Lemma fresh_wf h n :
  n ∈ SIZES -> length h = n -> count h = 0 -> hash_ok (keyHasher h) (keyComparator h) -> wf_array h (replicate (Z.to_nat n) empty_element).
Proof.
  intros Hn Hl Hc Hok. pose proof (sizes_range n Hn) as [H13 _].
  assert (Hdead : forall e, e ∈ replicate (Z.to_nat n) (@empty_element A) -> live_e e = true -> False).
  { intros e [-> _]%elem_of_replicate. done. }
  assert (Hz : forall i e, zget (replicate (Z.to_nat n) (@empty_element A)) i = Some e -> live_e e = true -> False).
  { intros i e He%zget_elem. by apply Hdead. }
  split; rewrite ?Hl; auto.
  - unfold zlen. rewrite length_replicate. lia.
  - apply Forall_forall. intros e [-> _]%elem_of_replicate. right. split; [by left|done].
  - intros e He Hlive. by destruct (Hdead e He).
  - intros i j e e' He _ Hlive. by destruct (Hz i e He).
  - intros i e He Hlive. by destruct (Hz i e He).
  - intros e He Hlive. by destruct (Hdead e He).
  - by rewrite Hc, <- entries_zlen, entries_fresh.
  - lia.
Qed.

(** The members that rehashing keeps. *)
Definition kept h h' : Prop :=
  keyHasher h' = keyHasher h /\ keyComparator h' = keyComparator h /\ valueComparator h' = valueComparator h /\
  keyDeleter h' = keyDeleter h /\ valueDeleter h' = valueDeleter h /\ highWaterRatio h' = highWaterRatio h /\ lowWaterRatio h' = lowWaterRatio h /\
  deletedKeys h' = deletedKeys h /\ deletedValues h' = deletedValues h.

(** Rehashing one element into a table with room. *)
Lemma insert_wf h cells hc k v i :
  elements h = Some cells -> wf_array h cells -> hc = masked (hash_of (keyHasher h) k) -> insertable h cells hc i ->
  (forall e, e ∈ cells -> live_e e = true -> compare_of (keyComparator h) k (key e) = false) ->
  tracked (keyDeleter h) k -> tracked (valueDeleter h) v -> count h + 1 < length h ->
  let cells' := <[Z.to_nat i := Elem hc v k]> cells in
  (forall h', same_table h h' -> count h' = count h + 1 -> wf_array h' cells') /\ entries cells' ≡ₚ (k, v) :: entries cells.
Proof.
  intros Ec Hwa Ehc (m & e & Hm & Ei & He & Hfree & Hbefore) Hnew Htk Htv Hroom cells'.
  assert (Hlive : live_e (Elem hc v k) = true).
  { unfold live_e, IS_EMPTY_OR_DELETED. cbn. subst hc. pose proof (masked_range (hash_of (keyHasher h) k)) as [? _].
    destruct (Z.ltb_spec (masked (hash_of (keyHasher h) k)) 0); [lia|done]. }
  assert (Ee : entry e = []) by (unfold entry; by rewrite Hfree). assert (Ee' : entry (Elem hc v k) = [(k, v)]) by (unfold entry; by rewrite Hlive).
  split.
  - intros h' Hsame Hc. eapply update_wf; eauto.
    + split; auto; cbn [hashcode key value]; [by apply (live_not_empty (Elem hc v k))|by exists m|].
      intros j e2 _ Hj _ Hl2. apply Hnew; [|done]. by eapply zget_elem.
    + rewrite Ee, Ee', Hc. change (zlen (@nil (tok A * tok A))) with 0. change (zlen [(k, v)]) with 1. lia.
    + rewrite Hc. lia.
  - destruct (entries_update cells i e (Elem hc v k) He) as (rest & Hp & Hp'). rewrite Ee in Hp. rewrite Ee' in Hp'. cbn [app] in *. unfold cells'. by rewrite Hp', Hp.
Qed.

(** ** Rehashing *)

Lemma entry_live e cells : e ∈ cells -> live_e e = true -> (key e, value e) ∈ entries cells.
Proof.
  intros Hin Hl. unfold entries. apply list_elem_of_fmap. exists e. split; [done|]. by apply list_elem_of_filter.
Qed.

Lemma table_entries_elem k v cells : (k, v) ∈ entries cells <-> exists e, e ∈ cells /\ live_e e = true /\ key e = k /\ value e = v.
Proof.
  unfold entries. rewrite list_elem_of_fmap. split.
  - intros (e & [= -> ->] & [Hl Hin]%list_elem_of_filter). by exists e.
  - intros (e & Hin & Hl & <- & <-). exists e. split; [done|]. by apply list_elem_of_filter.
Qed.

Definition same_marks h h' : Prop :=
  primeIndex h' = primeIndex h /\ highWaterMark h' = highWaterMark h /\ lowWaterMark h' = lowWaterMark h /\ length h' = length h.

Lemma rehash_loop_spec (m : nat) h0 old h cells :
  wf_array h0 old -> elements h = Some cells -> wf_array h cells -> kept h0 h -> zlen (entries old) < length h ->
  (m <= List.length old)%nat -> entries cells ≡ₚ entries (drop m old) ->
  exists h' cells', rehash_loop m h old = Some h' /\ elements h' = Some cells' /\ wf_array h' cells' /\ kept h0 h' /\ same_marks h h' /\
    entries cells' ≡ₚ entries old.
Proof.
  intros Hold. revert h cells. induction m as [|m IH]; intros h cells Ec Hwa Hk Hroom Hm Hp; cbn [rehash_loop].
  { exists h, cells. split_and!; auto. done. }
  destruct (lookup_lt_is_Some_2 old m ltac:(lia)) as (e & He). rewrite (zget_of_nat old m e He). cbn [mbind option_bind].
  rewrite (drop_S _ _ _ He) in IH. rewrite entries_cons in IH.
  pose proof Hk as (Hh & Hc & Hvc & Hkd & Hvd & Hrest).
  destruct (IS_EMPTY_OR_DELETED (hashcode e)) eqn:Efree.
  { assert (Ee : entry e = []) by (unfold entry, live_e; by rewrite Efree). rewrite Ee in IH. cbn [mbind option_bind]. apply (IH h cells); auto. lia. }
  assert (Hlive : live_e e = true) by (unfold live_e; by rewrite Efree). pose proof (list_elem_of_lookup_2 _ _ _ He) as Hin.
  pose proof (wa_hash _ _ Hold e Hin Hlive) as Ehash. rewrite <- Hh in Ehash.
  assert (Hnew : forall e2, e2 ∈ cells -> live_e e2 = true -> compare_of (keyComparator h) (key e) (key e2) = false).
  { intros e2 Hin2 Hl2. destruct (compare_of _ _ _) eqn:Eq; [|done]. exfalso. pose proof (entry_live e2 cells Hin2 Hl2) as Hent. rewrite Hp in Hent.
    apply table_entries_elem in Hent as (e3 & (j & Hj)%list_elem_of_lookup & Hl3 & Ek & _). rewrite lookup_drop in Hj. rewrite <- Ek, Hc in Eq.
    pose proof (wa_distinct _ _ Hold _ _ e e3 (zget_of_nat _ _ _ He) (zget_of_nat _ _ _ Hj) Hlive Hl3 Eq). lia. }
  destruct (find_spec h cells (key e) (hashcode e) Ec Hwa) as (i & Hfind & Hres); [by rewrite Ehash, masked_masked|].
  rewrite Hfind. cbn [mbind option_bind]. destruct Hres as [(e2 & He2 & Hl2 & Eq)|[Hins _]].
  { rewrite (Hnew e2) in Eq by (done || by eapply zget_elem). done. }
  rewrite Ehash, masked_masked, <- Ehash in Hins. rewrite Ec. cbn [mbind option_bind].
  pose proof Hins as (_ & ei & _ & _ & Hei & _). rewrite zset_in by (by eapply zget_Some_range). cbn [mbind option_bind].
  assert (Hcount : count h + 1 < length h).
  { rewrite (wa_count _ _ Hwa), <- entries_zlen. unfold zlen in *. rewrite Hp.
    rewrite <- (take_drop m old), (drop_S _ _ _ He), entries_app, entries_cons, !length_app in Hroom. unfold entry in Hroom. rewrite Hlive in Hroom. cbn in Hroom. lia. }
  destruct (wa_owned _ _ Hold e Hin Hlive) as [Htk Htv]. rewrite <- Hkd in Htk. rewrite <- Hvd in Htv.
  destruct (insert_wf h cells (hashcode e) (key e) (value e) i Ec Hwa Ehash Hins Hnew Htk Htv Hcount) as [Hwf' Hp'].
  destruct (IH (set_count (set_cells h (<[Z.to_nat i:=Elem (hashcode e) (value e) (key e)]> cells)) (count h + 1))
    (<[Z.to_nat i:=Elem (hashcode e) (value e) (key e)]> cells)) as (h' & cells' & Hl & Hc' & Hw' & Hk' & Hm' & Hpe); auto.
  - apply Hwf'; done.
  - lia.
  - rewrite Hp'. unfold entry. rewrite Hlive. cbn [app]. by constructor.
  - exists h', cells'. split_and!; auto; apply Hm'.
Qed.

(** ** Water marks *)

Definition policies : list UHashResizePolicy := [U_GROW; U_GROW_AND_SHRINK; U_FIXED].

(** The number of elements up to which the tables stay within [SIZES]. *)
Definition MAX_COUNT : Z := 2 ^ 24.

(** For a table of the [i]th length: the marks are in order, and below the length if the table
    can grow; the next length is larger and the count that leads to it is between its marks; the
    previous one holds all elements below the low mark, and the first such count is between its
    marks; and no count up to [MAX_COUNT] makes the largest one grow. *)
Definition marks_ok (i : Z) (policy : UHashResizePolicy) : bool :=
  match zget PRIMES i with
  | None => false
  | Some n =>
      let '(low, high) := RESIZE_POLICY_RATIO_TABLE policy in
      (0 <=? scaled n low) && (scaled n low <=? scaled n high) &&
      (match policy with U_FIXED => true | _ => (scaled n high + 1 <? n) && (2 * scaled n high <=? n + 1) end) &&
      (match zget PRIMES (i + 1) with
       | Some n' => (n <? n') && (scaled n' low <=? scaled n high + 1) && (scaled n high + 1 <=? scaled n' high)
       | None => true
       end) &&
      (match zget PRIMES (i - 1) with
       | Some n' => (scaled n low <=? n') && (scaled n low <=? scaled n' high) && ((scaled n low =? 0) || (scaled n' low <? scaled n low))
       | None => true
       end) &&
      ((i <? 22) || (MAX_COUNT <=? scaled n high))
  end.

Lemma marks_checked : forallb (fun i => forallb (marks_ok i) policies) (seqZ 0 23) = true.
Proof. vm_compute. reflexivity. Qed.

Lemma marks_all i policy : 0 <= i <= 22 -> marks_ok i policy = true.
Proof.
  intros Hi. pose proof marks_checked as Hc. rewrite forallb_forall in Hc. specialize (Hc i). rewrite forallb_forall in Hc.
  apply Hc; [apply list_elem_of_In, elem_of_seqZ; lia|]. destruct policy; cbn; auto.
Qed.

Lemma sizes_index n i : zget PRIMES i = Some n -> i <= 22 -> n ∈ SIZES.
Proof.
  intros [H0 Hi]%zget_Some_lookup Hle. unfold SIZES. apply list_elem_of_lookup. exists (Z.to_nat i). by rewrite lookup_take_lt by lia.
Qed.

Lemma index_of_size n i : zget PRIMES i = Some n -> n ∈ SIZES -> i <= 22.
Proof.
  intros [H0 Hi]%zget_Some_lookup (j & Hj)%list_elem_of_lookup. unfold SIZES in Hj. apply lookup_take_Some in Hj as [Hj Hlt].
  assert (NoDup PRIMES) as Hnd by (apply (bool_decide_unpack (NoDup PRIMES)); by vm_compute).
  pose proof (NoDup_lookup _ _ _ _ Hnd Hi Hj). lia.
Qed.

(** [primeIndex] and the marks belong to the length. *)
Record sized h : Prop := {
  sd_index : zget PRIMES (primeIndex h) = Some (length h);
  sd_high : highWaterMark h = scaled (length h) (highWaterRatio h);
  sd_low : lowWaterMark h = scaled (length h) (lowWaterRatio h);
  sd_policy : exists policy, RESIZE_POLICY_RATIO_TABLE policy = (lowWaterRatio h, highWaterRatio h)
}.

(** Where a rehash moves to. *)
Definition target h : option Z :=
  if highWaterMark h <? count h then
    if PRIMES_LENGTH <=? primeIndex h + 1 then None else Some (primeIndex h + 1)
  else if count h <? lowWaterMark h then
    if primeIndex h - 1 <? 0 then None else Some (primeIndex h - 1)
  else None.

(** A table that never grows. *)
Definition fixed h : Prop := highWaterRatio h = Float 1 0.

(** What [marks_checked] says of a table. *)
Record marks_facts h : Prop := {
  mf_index : 0 <= primeIndex h <= 22;
  mf_order : 0 <= lowWaterMark h <= highWaterMark h;
  mf_room : ~ fixed h -> highWaterMark h + 1 < length h /\ 2 * highWaterMark h <= length h + 1;
  mf_next : forall n, zget PRIMES (primeIndex h + 1) = Some n ->
    length h < n /\ scaled n (lowWaterRatio h) <= highWaterMark h + 1 <= scaled n (highWaterRatio h);
  mf_prev : forall n, zget PRIMES (primeIndex h - 1) = Some n ->
    lowWaterMark h <= n /\ lowWaterMark h <= scaled n (highWaterRatio h) /\ (lowWaterMark h = 0 \/ scaled n (lowWaterRatio h) < lowWaterMark h);
  mf_last : primeIndex h < 22 \/ MAX_COUNT <= highWaterMark h
}.

Lemma marks_of h : length h ∈ SIZES -> sized h -> marks_facts h.
Proof.
  intros Hn [Hi Hhigh Hlow (policy & Hpol)]. pose proof (index_of_size _ _ Hi Hn) as H22.
  pose proof (zget_Some_range _ _ _ Hi) as [H0 _]. pose proof (marks_all (primeIndex h) policy ltac:(lia)) as Hm.
  unfold marks_ok in Hm. rewrite Hi, Hpol in Hm. rewrite <- Hhigh, <- Hlow in Hm. rewrite !andb_true_iff in Hm.
  destruct Hm as (((((H1 & H2) & H3) & H4) & H5) & H6). split; try lia.
  - intros Hf. destruct policy; [lia..|]. destruct Hf. unfold fixed. by injection Hpol as _ <-.
  - intros n En. rewrite En in H4. lia.
  - intros n En. rewrite En in H5. lia.
Qed.

(** The lengths that a table can move to. *)
Lemma next_length h : marks_facts h -> primeIndex h < 22 -> exists n, zget PRIMES (primeIndex h + 1) = Some n /\ n ∈ SIZES.
Proof.
  intros Hm H22. pose proof (mf_index _ Hm). destruct (zget_is_Some PRIMES (primeIndex h + 1)) as (n & En); [change (zlen PRIMES) with 28; lia|].
  exists n. split; [done|]. apply (sizes_index n (primeIndex h + 1) En). lia.
Qed.

Lemma previous_length h : marks_facts h -> 0 < primeIndex h -> exists n, zget PRIMES (primeIndex h - 1) = Some n /\ n ∈ SIZES.
Proof.
  intros Hm H0. pose proof (mf_index _ Hm). destruct (zget_is_Some PRIMES (primeIndex h - 1)) as (n & En); [change (zlen PRIMES) with 28; lia|].
  exists n. split; [done|]. apply (sizes_index n (primeIndex h - 1) En). lia.
Qed.

(** Above the high mark the target is the next length. *)
Lemma target_up h : marks_facts h -> count h <= MAX_COUNT -> highWaterMark h < count h -> primeIndex h < 22 /\ target h = Some (primeIndex h + 1).
Proof.
  intros Hm Hmax Hc. pose proof (mf_index _ Hm). assert (primeIndex h < 22) by (destruct (mf_last _ Hm); lia). split; [done|].
  unfold target, PRIMES_LENGTH. destruct (Z.ltb_spec (highWaterMark h) (count h)); [|lia]. destruct (Z.leb_spec 28 (primeIndex h + 1)); [lia|done].
Qed.

(** Below it the target is the previous one, if there is one. *)
Lemma target_down h :
  count h <= highWaterMark h -> target h = if (count h <? lowWaterMark h) && (0 <? primeIndex h) then Some (primeIndex h - 1) else None.
Proof.
  intros Hc. unfold target. destruct (Z.ltb_spec (highWaterMark h) (count h)); [lia|]. destruct (count h <? lowWaterMark h); [|done]. cbn [andb].
  destruct (Z.ltb_spec (primeIndex h - 1) 0), (Z.ltb_spec 0 (primeIndex h)); done || lia.
Qed.

Lemma target_room h cells index :
  wf_array h cells -> sized h -> count h <= MAX_COUNT -> target h = Some index ->
  exists n, zget PRIMES index = Some n /\ n ∈ SIZES /\ count h < n.
Proof.
  intros Hwa Hsd Hmax Ht. pose proof (marks_of h (wa_size _ _ Hwa) Hsd) as Hm. pose proof (wa_room _ _ Hwa).
  destruct (Z.lt_ge_cases (highWaterMark h) (count h)) as [Hup|Hdown].
  - destruct (target_up h Hm Hmax Hup) as [H22 Et]. rewrite Et in Ht. injection Ht as <-. destruct (next_length h Hm H22) as (n & En & Hn).
    exists n. split_and!; auto. pose proof (mf_next _ Hm n En). lia.
  - rewrite (target_down h Hdown) in Ht. destruct (Z.ltb_spec (count h) (lowWaterMark h)); [|done]. destruct (Z.ltb_spec 0 (primeIndex h)); [|done].
    injection Ht as <-. destruct (previous_length h Hm) as (n & En & Hn); [done|]. exists n. split_and!; auto. pose proof (mf_prev _ Hm n En). lia.
Qed.

(** The table after a rehash that did not fail: it has moved to its target. *)
Record moved h h' : Prop := {
  mv_sized : sized h';
  mv_index : primeIndex h' = default (primeIndex h) (target h);
  mv_high : highWaterRatio h' = highWaterRatio h;
  mv_low : lowWaterRatio h' = lowWaterRatio h;
  mv_count : count h' = count h
}.

(** A move up ends between the marks, with room for one more. *)
Lemma moved_up h h' :
  length h ∈ SIZES -> sized h -> count h <= MAX_COUNT -> count h < length h -> highWaterMark h < count h -> moved h h' ->
  count h + 1 < length h' /\ (count h = highWaterMark h + 1 -> lowWaterMark h' <= count h' <= highWaterMark h').
Proof.
  intros Hn Hsd Hmax Hroom Hup [[Hi' Hh' Hl' _] Hpi Hrh Hrl Hc]. pose proof (marks_of h Hn Hsd) as Hm. destruct (target_up h Hm Hmax Hup) as [H22 Et].
  rewrite Et in Hpi. cbn [default] in Hpi. rewrite Hpi in Hi'. pose proof (mf_next _ Hm _ Hi') as [Hlt Hmarks].
  rewrite Hh', Hl', Hrh, Hrl, Hc. lia.
Qed.

(** Otherwise the count stays at most the high mark; and a move from just below the low mark
    ends between the marks. *)
Lemma moved_down h h' :
  length h ∈ SIZES -> sized h -> 0 <= count h <= highWaterMark h -> moved h h' ->
  count h' <= highWaterMark h' /\ (count h = lowWaterMark h - 1 -> primeIndex h <> 0 -> lowWaterMark h' <= count h').
Proof.
  intros Hn Hsd [H0 Hdown] [[Hi' Hh' Hl' _] Hpi Hrh Hrl Hc]. pose proof (marks_of h Hn Hsd) as Hm. pose proof (mf_index _ Hm). rewrite (target_down h Hdown) in Hpi.
  rewrite Hh', Hl', Hrh, Hrl, Hc. destruct Hsd as [Hi Hh Hl _].
  destruct (Z.ltb_spec (count h) (lowWaterMark h)); [destruct (Z.ltb_spec 0 (primeIndex h))|]; cbn [andb default] in Hpi; rewrite Hpi in Hi'.
  - pose proof (mf_prev _ Hm _ Hi') as (_ & ? & ?). lia.
  - rewrite Hi in Hi'. injection Hi' as <-. lia.
  - rewrite Hi in Hi'. injection Hi' as <-. lia.
Qed.

(** A rehash keeps the pairs; it fails only when an allocation is refused, and then changes
    nothing but [primeIndex]. *)
Lemma rehash_spec h cells status :
  elements h = Some cells -> wf_array h cells -> U_FAILURE status = false ->
  (forall index, target h = Some index -> exists n, zget PRIMES index = Some n /\ n ∈ SIZES /\ count h < n) ->
  exists h' status' cells', _uhash_rehash h status = Some (h', status') /\ elements h' = Some cells' /\ wf_array h' cells' /\ kept h h' /\
    entries cells' ≡ₚ entries cells /\
    (status' = status /\ (sized h -> moved h h') \/
     status' = U_MEMORY_ALLOCATION_ERROR /\ refused /\ cells' = cells /\ length h' = length h).
Proof.
  intros Ec Hwa Hst Hroom. unfold _uhash_rehash. fold (target h). destruct (target h) as [index|] eqn:Et.
  2:{ exists h, status, cells. do 5 (split; [done || by split_and!|]). left. split; [done|]. intros Hsd. split; auto. by rewrite Et. }
  destruct (Hroom index eq_refl) as (n & En & Hn & Hlt). pose proof (sizes_range n Hn) as [H13 Hbytes].
  unfold _uhash_allocate. rewrite Hst, En. cbn [mbind option_bind].
  destruct (uprv_malloc _ _ _) as [fresh|] eqn:Em; cbn [mbind option_bind].
  - rewrite Hst, Ec. cbn [mbind option_bind]. set (h1 := set_marks _).
    assert (Hw1 : wf_array h1 (replicate (Z.to_nat n) empty_element)) by (apply fresh_wf; auto; apply Hwa).
    destruct (rehash_loop_spec (Z.to_nat (length h)) h cells h1 (replicate (Z.to_nat n) empty_element)) as (h' & cells' & Hl & Hc' & Hw' & Hk' & Hm' & Hp'); auto.
    + by split_and!.
    + rewrite entries_zlen, <- (wa_count _ _ Hwa). exact Hlt.
    + pose proof (wa_len _ _ Hwa) as Hz. unfold zlen in Hz. lia.
    + rewrite entries_fresh, drop_ge; [done|]. pose proof (wa_len _ _ Hwa) as Hz. unfold zlen in Hz. lia.
    + exists h', status, cells'. rewrite Hl. split_and!; auto; try apply Hk'. left. destruct Hm' as (Hpi & Hhi & Hlo & Hle). split; [done|].
      intros [_ _ _ (policy & Hpol)]. destruct Hk' as (_ & _ & _ & _ & _ & Hr1 & Hr2 & _). split; auto; [|by rewrite Hpi, Et|].
      * split; rewrite ?Hpi, ?Hhi, ?Hlo, ?Hle, ?Hr1, ?Hr2; try done. by exists policy.
      * rewrite (wa_count _ _ Hw'), (wa_count _ _ Hwa), <- !entries_zlen. unfold zlen. by rewrite Hp'.
  - eexists _, _, cells. split; [done|]. cbn [elements set_array]. split; [done|]. split; [|split; [by split_and!|split; [done|right; split_and!; auto]]].
    + destruct Hwa. by split.
    + eapply malloc_refused; [|exact Em]. unfold sizeof_UHashElement, INT32_MAX in *. lia.
Qed.

(** ** The map *)

Definition pairs h : list (tok A * tok A) := entries (default [] (elements h)).

(** [k] is mapped to [v]. *)
Definition maps h (k v : tok A) : Prop := exists k', (k', v) ∈ pairs h /\ compare_of (keyComparator h) k k' = true.

Lemma find_slot_spec h :
  wf h -> forall k, exists cells i e, elements h = Some cells /\ find_slot h k = Some i /\ zget cells i = Some e /\
    _uhash_find h k (hash_of (keyHasher h) k) = Some (Some i) /\
    (live_e e = true /\ compare_of (keyComparator h) k (key e) = true \/
     live_e e = false /\ free_e e /\ insertable h cells (masked (hash_of (keyHasher h) k)) i /\
     forall e, e ∈ cells -> live_e e = true -> compare_of (keyComparator h) k (key e) = false).
Proof.
  intros (cells & Ec & Hwa) k. destruct (find_spec h cells k (hash_of (keyHasher h) k) Ec Hwa eq_refl) as (i & Hf & Hres).
  unfold find_slot. rewrite Hf. cbn [mbind option_bind].
  destruct Hres as [(e & He & Hl & Hc)|[Hins Hnew]]; [by exists cells, i, e; split_and!; auto|].
  pose proof Hins as (m & e & _ & _ & He & Hl & _). exists cells, i, e. split_and!; auto. right. split_and!; auto.
  destruct (proj1 (Forall_forall _ _) (wa_codes _ _ Hwa) e (zget_elem _ _ _ He)); [congruence|done].
Qed.

Lemma pairs_cells h cells : elements h = Some cells -> pairs h = entries cells.
Proof. intros E. unfold pairs. by rewrite E. Qed.

(** A key is mapped to one value at most. *)
Lemma maps_functional h k v v' : wf h -> maps h k v -> maps h k v' -> v = v'.
Proof.
  intros (cells & Ec & Hwa) (k1 & H1 & C1) (k2 & H2 & C2). rewrite (pairs_cells h cells Ec) in *.
  apply table_entries_elem in H1 as (e1 & (i & Hi)%list_elem_of_lookup & L1 & <- & <-). apply table_entries_elem in H2 as (e2 & (j & Hj)%list_elem_of_lookup & L2 & <- & <-).
  pose proof (wa_functions _ _ Hwa) as Hok. assert (Heq : compare_of (keyComparator h) (key e1) (key e2) = true).
  { eapply (ho_trans _ _ Hok); [by apply (ho_sym _ _ Hok)|done]. }
  pose proof (wa_distinct _ _ Hwa _ _ e1 e2 (zget_of_nat _ _ _ Hi) (zget_of_nat _ _ _ Hj) L1 L2 Heq) as E. assert (i = j) as -> by lia. congruence.
Qed.

(** ** Removing *)

(** The objects that a table with a deleter deletes with a token. *)
Definition owned (deleter : bool) (x : tok A) : list A := if deleter then option_list (object x) else [].

Lemma gone_empty deleter x : gone deleter x emptytok = owned deleter x.
Proof. unfold gone, owned. destruct deleter; [|done]. case_bool_decide as E; [by rewrite E|done]. Qed.

(** The functions and the deleters of a table, which no operation changes. *)
Definition same_functions h h' : Prop :=
  keyHasher h' = keyHasher h /\ keyComparator h' = keyComparator h /\ keyDeleter h' = keyDeleter h /\ valueDeleter h' = valueDeleter h.

Lemma kept_functions h h' : kept h h' -> same_functions h h'.
Proof. intros (? & ? & ? & ? & ? & _). by split_and!. Qed.

Lemma same_functions_trans h1 h2 h3 : same_functions h1 h2 -> same_functions h2 h3 -> same_functions h1 h3.
Proof. intros (? & ? & ? & ?) (? & ? & ? & ?). split_and!; congruence. Qed.

(** [h'] is [h] without one pair, whose tokens are deleted. *)
Definition without h h' (k0 v0 : tok A) : Prop :=
  pairs h ≡ₚ (k0, v0) :: pairs h' /\ count h' = count h - 1 /\
  deletedKeys h' = deletedKeys h ++ owned (keyDeleter h) k0 /\ deletedValues h' = deletedValues h ++ owned (valueDeleter h) v0.

Lemma internalRemove_spec h cells i e :
  elements h = Some cells -> wf_array h cells -> zget cells i = Some e -> live_e e = true ->
  exists h', _uhash_internalRemoveElement h i = Some (if valueDeleter h then emptytok else value e, h') /\ wf h' /\ same_functions h h' /\
    without h h' (key e) (value e) /\ (sized h -> sized h') /\ elements h' = Some (<[Z.to_nat i := Elem HASH_DELETED emptytok emptytok]> cells) /\
    length h' = length h /\ highWaterRatio h' = highWaterRatio h /\ highWaterMark h' = highWaterMark h.
Proof.
  intros Ec Hwa He Hl. destruct (wa_owned _ _ Hwa e (zget_elem _ _ _ He) Hl) as [Htk Htv]. unfold _uhash_internalRemoveElement.
  rewrite (setElement_spec (set_count h (count h - 1)) cells i e) by done. eexists. split; [done|].
  destruct (entries_update cells i e (Elem HASH_DELETED emptytok emptytok) He) as (rest & Hp & Hp').
  assert (Ee : entry e = [(key e, value e)]) by (unfold entry; by rewrite Hl). rewrite Ee in Hp. change (entry (Elem HASH_DELETED emptytok emptytok)) with (@nil (tok A * tok A)) in Hp'.
  split; [|split; [by split_and!|split; [|split; [intros []; by split|done]]]].
  - eexists. split; [done|]. eapply update_wf; eauto; [by split_and!|..].
    + split; try done. right. split; [by right|done].
    + rewrite Ee. cbn. unfold entry. cbn. unfold zlen. cbn. lia.
    + cbn. pose proof (wa_room _ _ Hwa). lia.
  - split_and!; [|done|..]; cbn [deletedKeys deletedValues set_cells log_deleted set_count keyDeleter valueDeleter]; rewrite ?gone_empty; auto.
    rewrite (pairs_cells h cells Ec), (pairs_cells _ _ (eq_refl : elements (set_cells _ _) = Some _)). rewrite Hp, Hp'. done.
Qed.

Lemma wf_room h : wf h -> 0 <= count h < length h.
Proof. intros (cells & _ & Hwa). pose proof (wa_room _ _ Hwa). rewrite (wa_count _ _ Hwa) in *. pose proof (zlen_nonneg (filter is_live cells)). lia. Qed.
End Table.
End UHashFacts.
