(* ===== verification/UHashKeys.v ===== *)
(** * Keys of hash tables (common/uhash.c, ustring.cpp, cstring.c)

    The hash functions and comparators that the library has for strings of 16-bit units, for
    strings of bytes, for strings of bytes regardless of ASCII case, and for integers; and that
    each pair of them agrees as a table needs. *)

From S2P Require Import Prelude Vector UString UHash UHashFacts.
Import UVector UHash UHashFacts.

Module UHashKeys.

(** ** Hashing of strings *)

(** The loop of [STRING_HASH]; [deref] reads one character. *)
Fixpoint hash_loop (fuel : nat) (deref : Z -> Z) (s : list Z) (p inc limit hash : Z) : option Z :=
  match fuel with
  | O => None
  | S fuel => if p <? limit then c ← zget s p; hash_loop fuel deref s (p + inc) inc limit (uint32 (hash * 37 + deref c)) else Some hash
  end.

Definition STRING_HASH (deref : Z -> Z) (s : list Z) (len : Z) : option Z :=
  let inc := Z.quot (len - 32) 32 + 1 in
  hash ← hash_loop (S (Z.to_nat len)) deref s 0 inc len 0;
  Some (int32 hash).

(** [uprv_tolower] of ASCII platforms; a [char] is its byte. *)
Definition uprv_asciitolower (c : Z) : Z := if (0x41 <=? c) && (c <=? 0x5a) then c + 0x20 else c.

Definition ustr_hashUCharsN (s : list Z) (len : Z) : option Z := STRING_HASH (fun c => c) s len.
Definition ustr_hashCharsN (s : list Z) (len : Z) : option Z := STRING_HASH (fun c => c mod 256) s len.
Definition ustr_hashICharsN (s : list Z) (len : Z) : option Z := STRING_HASH (fun c => uprv_asciitolower c mod 256) s len.

(** The loop of the comparators, over two buffers. *)
Fixpoint compare_loop (fold : Z -> Z) (p1 p2 : list Z) : option bool :=
  match p1, p2 with
  | c1 :: p1, c2 :: p2 => if negb (c1 =? 0) && (fold c1 =? fold c2) then compare_loop fold p1 p2 else Some (c1 =? c2)
  | _, _ => None
  end.

Section Keys.
Context {A : Type} `{EqA : EqDecision A}.

(** An object is a string that ends with a null character, at an address. *)
Context (text : A -> list Z) (address : A -> Z).

Definition buffer (o : A) : list Z := text o ++ [0].

(** [key.pointer]: null, a string, or an integer that is no pointer. *)
Definition on_pointer {B} (null : B) (f : A -> option B) (k : tok A) : option B :=
  if is_null k then Some null else o ← object k; f o.

Definition uhash_hashUChars : tok A -> option Z := on_pointer 0 (fun o => len ← ustring.u_strlen (buffer o); ustr_hashUCharsN (buffer o) len).
Definition uhash_hashChars : tok A -> option Z := on_pointer 0 (fun o => len ← ustring.u_strlen (buffer o); ustr_hashCharsN (buffer o) len).
Definition uhash_hashIChars : tok A -> option Z := on_pointer 0 (fun o => len ← ustring.u_strlen (buffer o); ustr_hashICharsN (buffer o) len).

(** [key.integer] *)
Definition integer (k : tok A) : Z := match k with Int z => z | Ptr None => 0 | Ptr (Some o) => address o end.
Definition uhash_hashLong (k : tok A) : Z := integer k.

Definition same_pointer (k1 k2 : tok A) : bool := is_null k1 && is_null k2 || bool_decide (k1 = k2).

Definition compare_strings (fold : Z -> Z) (k1 k2 : tok A) : option bool :=
  if same_pointer k1 k2 then Some true
  else if is_null k1 || is_null k2 then Some false
  else o1 ← object k1; o2 ← object k2; compare_loop fold (buffer o1) (buffer o2).

Definition uhash_compareUChars : tok A -> tok A -> option bool := compare_strings (fun c => c).
Definition uhash_compareChars : tok A -> tok A -> option bool := compare_strings (fun c => c).
Definition uhash_compareIChars : tok A -> tok A -> option bool := compare_strings uprv_asciitolower.
Definition uhash_compareLong (k1 k2 : tok A) : bool := integer k1 =? integer k2.

(** ** The library's functions as callbacks *)

Inductive hash_function := HashUChars | HashChars | HashIChars | HashLong.
Inductive comparator := CompareUChars | CompareChars | CompareIChars | CompareLong.
#[export] Instance comparator_eq_dec : EqDecision comparator.
Proof. solve_decision. Defined.

(** An integer in place of a string has no meaning; the value there does not matter. *)
Definition library_callbacks : Callbacks A := {|
  hashFn := hash_function;
  compareFn := comparator;
  hash_of f k := match f with
    | HashUChars => default 0 (uhash_hashUChars k)
    | HashChars => default 0 (uhash_hashChars k)
    | HashIChars => default 0 (uhash_hashIChars k)
    | HashLong => uhash_hashLong k
    end;
  compare_of f k1 k2 := match f with
    | CompareUChars => default false (uhash_compareUChars k1 k2)
    | CompareChars => default false (uhash_compareChars k1 k2)
    | CompareIChars => default false (uhash_compareIChars k1 k2)
    | CompareLong => uhash_compareLong k1 k2
    end
|}.

(** ** Comparing *)

(** The characters in front of the first null. *)
Fixpoint before_nul (s : list Z) : list Z :=
  match s with [] => [] | c :: s => if c =? 0 then [] else c :: before_nul s end.

Definition chars (o : A) : list Z := before_nul (text o).

Lemma compare_loop_spec fold s1 s2 :
  (forall c, fold c = 0 <-> c = 0) ->
  compare_loop fold (s1 ++ [0]) (s2 ++ [0]) = Some (bool_decide (map fold (before_nul s1) = map fold (before_nul s2))).
Proof.
  intros Hf. assert (H0 : fold 0 = 0) by (by apply Hf). revert s2. induction s1 as [|c1 s1 IH]; intros [|c2 s2]; cbn [app compare_loop before_nul map].
  - done.
  - change (negb (0 =? 0)) with false. cbn [andb]. destruct (Z.eqb_spec c2 0) as [->|Hc]; [done|]. destruct (Z.eqb_spec 0 c2); [done|]. by rewrite bool_decide_false.
  - destruct (Z.eqb_spec c1 0) as [->|Hc]; cbn [negb andb]; [done|]. rewrite H0. destruct (Z.eqb_spec (fold c1) 0) as [E|_]; [by apply (proj1 (Hf c1)) in E|].
    destruct (Z.eqb_spec c1 0); [done|]. cbn [map]. by rewrite bool_decide_false.
  - destruct (Z.eqb_spec c1 0) as [->|Hc1]; cbn [negb andb].
    + destruct (Z.eqb_spec c2 0) as [->|Hc2]; [done|]. destruct (Z.eqb_spec 0 c2); [done|]. cbn [map]. by rewrite bool_decide_false.
    + destruct (Z.eqb_spec c2 0) as [->|Hc2]; cbn [map].
      * rewrite H0. destruct (Z.eqb_spec (fold c1) 0) as [E|_]; [by apply (proj1 (Hf c1)) in E|]. destruct (Z.eqb_spec c1 0); [done|]. by rewrite bool_decide_false.
      * destruct (Z.eqb_spec (fold c1) (fold c2)) as [E|Hne].
        -- rewrite IH. f_equal. apply bool_decide_ext. rewrite E. split; [by intros ->|by intros [= ->]].
        -- destruct (Z.eqb_spec c1 c2); [congruence|]. rewrite bool_decide_false by congruence. done.
Qed.

Lemma lower_zero c : uprv_asciitolower c = 0 <-> c = 0.
Proof. unfold uprv_asciitolower. destruct (Z.leb_spec 0x41 c), (Z.leb_spec c 0x5a); cbn; lia. Qed.

(** ** Hashing *)

Lemma strlen_buffer s t : ustring.strlen_loop (s ++ [0]) t = Some (t + zlen (before_nul s)).
Proof.
  revert t. induction s as [|c s IH]; intros t; cbn [app ustring.strlen_loop before_nul].
  - cbn. by rewrite zlen_nil, Z.add_0_r.
  - destruct (Z.eqb_spec c 0); cbn [negb]; [by rewrite zlen_nil, Z.add_0_r|]. rewrite IH, zlen_cons. f_equal. lia.
Qed.

Lemma zget_tail (x : Z) l i : 0 < i -> zget (x :: l) i = zget l (i - 1).
Proof. intros Hi. change (x :: l) with ([x] ++ l). apply zget_app_r. change (zlen [x]) with 1. lia. Qed.

Lemma zget_map (f : Z -> Z) l i x : zget l i = Some x -> zget (map f l) i = Some (f x).
Proof. intros [H0 Hl]%zget_Some_lookup. apply zget_Some_lookup. split; [done|]. by apply list_lookup_fmap_Some; eauto. Qed.

Lemma before_nul_prefix s i : 0 <= i < zlen (before_nul s) -> zget (s ++ [0]) i = zget (before_nul s) i.
Proof.
  revert i. induction s as [|c s IH]; intros i Hi; cbn [before_nul app] in *; [unfold zlen in Hi; cbn in Hi; lia|].
  destruct (Z.eqb_spec c 0); [unfold zlen in Hi; cbn in Hi; lia|]. rewrite zlen_cons in Hi. destruct (decide (i = 0)) as [->|]; [done|].
  rewrite !(zget_tail c) by lia. apply IH. lia.
Qed.

(** The result depends on the characters only; it is defined. *)
Lemma hash_loop_spec fuel deref s cs inc len p hash :
  (forall i, 0 <= i < len -> zget s i = zget cs i) -> zlen cs = len -> 0 <= p -> 0 < inc -> Z.max 0 (len - p) < Z.of_nat fuel ->
  exists r, hash_loop fuel deref s p inc len hash = Some r /\ hash_loop fuel (fun c => c) (map deref cs) p inc len hash = Some r.
Proof.
  intros Hs Hlen Hp Hinc. revert p hash Hp. induction fuel as [|fuel IH]; intros p hash Hp Hf; cbn [hash_loop].
  - lia.
  - destruct (Z.ltb_spec p len) as [Hlt|]; [|by exists hash]. rewrite Hs by lia. destruct (zget_is_Some cs p) as (c & Hc); [lia|].
    rewrite (zget_map deref cs p c Hc), Hc. cbn [mbind option_bind]. apply IH; lia.
Qed.

(** The step is positive unless the string is empty. *)
Lemma hash_step len : 0 < len -> 0 < Z.quot (len - 32) 32 + 1.
Proof.
  intros Hlen. destruct (Z.le_gt_cases 32 len); [pose proof (Z.quot_pos (len - 32) 32); lia|].
  replace (len - 32) with (- (32 - len)) by lia. rewrite Z.quot_opp_l, Z.quot_small by lia. lia.
Qed.

Lemma STRING_HASH_spec deref s cs :
  (forall i, 0 <= i < zlen cs -> zget s i = zget cs i) ->
  exists r, STRING_HASH deref s (zlen cs) = Some r /\ STRING_HASH (fun c => c) (map deref cs) (zlen cs) = Some r.
Proof.
  intros Hs. unfold STRING_HASH. pose proof (zlen_nonneg cs). destruct (decide (zlen cs = 0)) as [->|Hne]; [by exists 0|].
  destruct (hash_loop_spec (S (Z.to_nat (zlen cs))) deref s cs (Z.quot (zlen cs - 32) 32 + 1) (zlen cs) 0 0) as (r & -> & ->); auto; [lia|apply hash_step; lia|lia|].
  by exists (int32 r).
Qed.

(** A string hash is defined, and equal for strings whose characters are read as equal. *)
Lemma hash_strings deref o :
  exists r, (len ← ustring.u_strlen (buffer o); STRING_HASH deref (buffer o) len) = Some r /\
    forall o', map deref (chars o') = map deref (chars o) -> (len ← ustring.u_strlen (buffer o'); STRING_HASH deref (buffer o') len) = Some r.
Proof.
  assert (Hlen : forall o, ustring.u_strlen (buffer o) = Some (zlen (chars o))) by (intros x; apply strlen_buffer). rewrite Hlen. cbn [mbind option_bind].
  destruct (STRING_HASH_spec deref (buffer o) (chars o)) as (r & Hr & Hm); [intros i; apply before_nul_prefix|].
  exists r. split; [done|]. intros o' E. rewrite Hlen. cbn [mbind option_bind].
  destruct (STRING_HASH_spec deref (buffer o') (chars o')) as (r' & -> & Hm'); [intros i; apply before_nul_prefix|].
  assert (El : zlen (chars o') = zlen (chars o)) by (unfold zlen; by rewrite <- (length_map deref (chars o')), E, length_map).
  rewrite E, El in Hm'. congruence.
Qed.

(** ** The contract of a table *)

Lemma string_or_not (k : tok A) : is_null k = true \/ (exists o, k = Ptr (Some o)) \/ is_null k = false /\ object k = None.
Proof. destruct k as [[o|]|[]]; cbn; eauto. Qed.

Lemma same_pointer_spec k1 k2 : same_pointer k1 k2 = true <-> is_null k1 = true /\ is_null k2 = true \/ k1 = k2.
Proof. unfold same_pointer. rewrite orb_true_iff, andb_true_iff, bool_decide_eq_true. done. Qed.

Lemma compare_pointers fold o1 o2 :
  (forall c, fold c = 0 <-> c = 0) -> compare_strings fold (Ptr (Some o1)) (Ptr (Some o2)) = Some (bool_decide (map fold (chars o1) = map fold (chars o2))).
Proof.
  intros Hf. unfold compare_strings. destruct (same_pointer _ _) eqn:E.
  - apply same_pointer_spec in E as [[? _]|[= ->]]; [done|]. by rewrite bool_decide_true.
  - cbn. by apply compare_loop_spec.
Qed.

(** Equal keys: the same pointer, or strings with characters that are folded to equal ones. *)
Lemma compare_strings_true fold k1 k2 :
  (forall c, fold c = 0 <-> c = 0) ->
  default false (compare_strings fold k1 k2) = true <->
  same_pointer k1 k2 = true \/ exists o1 o2, k1 = Ptr (Some o1) /\ k2 = Ptr (Some o2) /\ map fold (chars o1) = map fold (chars o2).
Proof.
  intros Hf. destruct (same_pointer k1 k2) eqn:Es; [unfold compare_strings; rewrite Es; by split; auto|].
  split; [intros Hc; right|intros [?|(o1 & o2 & -> & -> & E)]; [done|rewrite compare_pointers by done; by apply bool_decide_eq_true]].
  destruct (string_or_not k1) as [E1|[[o1 ->]|[N1 E1]]], (string_or_not k2) as [E2|[[o2 ->]|[N2 E2]]];
    try (unfold compare_strings in Hc; rewrite Es in Hc; cbn in Hc; rewrite ?E1, ?E2, ?N1, ?N2, ?orb_true_r in Hc; cbn in Hc; rewrite ?E1, ?E2 in Hc; done).
  rewrite compare_pointers in Hc by done. apply bool_decide_eq_true in Hc. eauto.
Qed.

Lemma strings_ok (CB : Callbacks A) hf cf (fold deref : Z -> Z) :
  (forall c, fold c = 0 <-> c = 0) -> (forall a b, fold a = fold b -> deref a = deref b) ->
  (forall k, hash_of hf k = default 0 (on_pointer 0 (fun o => len ← ustring.u_strlen (buffer o); STRING_HASH deref (buffer o) len) k)) ->
  (forall k1 k2, compare_of cf k1 k2 = default false (compare_strings fold k1 k2)) -> hash_ok hf cf.
Proof.
  intros Hf Hd Hhash Hcmp.
  assert (Hiff : forall k1 k2, compare_of cf k1 k2 = true <-> same_pointer k1 k2 = true \/
    exists o1 o2, k1 = Ptr (Some o1) /\ k2 = Ptr (Some o2) /\ map fold (chars o1) = map fold (chars o2)) by (intros; rewrite Hcmp; by apply compare_strings_true).
  split.
  - intros a. apply Hiff. left. apply same_pointer_spec. by right.
  - intros a b Hab. apply Hiff. apply Hiff in Hab. rewrite same_pointer_spec in *. destruct Hab as [?|(o1 & o2 & -> & -> & E)]; [left; naive_solver|right; eauto].
  - intros a b c Hab Hbc. apply Hiff. apply Hiff in Hab, Hbc. rewrite same_pointer_spec in *.
    destruct Hab as [Hab|(o1 & o2 & -> & -> & E)], Hbc as [Hbc|(o3 & o4 & E3 & -> & E')]; subst; naive_solver congruence.
  - intros a b Hab. apply Hiff in Hab. rewrite !Hhash. rewrite same_pointer_spec in Hab. destruct Hab as [[[Ha Hb]| ->]|(o1 & o2 & -> & -> & E)]; [|done|].
    + unfold on_pointer. by rewrite Ha, Hb.
    + cbn. destruct (hash_strings deref o2) as (r & Hr & Hall). cbn in Hr, Hall. rewrite Hr, (Hall o1); [done|].
      revert E. generalize (chars o2). induction (chars o1) as [|x l IH]; intros [|y l'] E; try done. injection E as Ex El. cbn. f_equal; auto.
Qed.

Lemma uchars_ok : hash_ok (CB := library_callbacks) HashUChars CompareUChars.
Proof. by apply (strings_ok library_callbacks _ _ (fun c => c) (fun c => c)). Qed.

Lemma chars_ok : hash_ok (CB := library_callbacks) HashChars CompareChars.
Proof. apply (strings_ok library_callbacks _ _ (fun c => c) (fun c => c mod 256)); congruence || done. Qed.

Lemma ichars_ok : hash_ok (CB := library_callbacks) HashIChars CompareIChars.
Proof. apply (strings_ok library_callbacks _ _ uprv_asciitolower (fun c => uprv_asciitolower c mod 256)); [apply lower_zero|congruence|done..]. Qed.

Lemma long_ok : hash_ok (CB := library_callbacks) HashLong CompareLong.
Proof. split; cbn; unfold uhash_compareLong, uhash_hashLong; intros; lia. Qed.

(** C32: The library's hash functions and comparators keep the contract of the table: for strings
    of units, strings of bytes, strings of bytes regardless of ASCII case, and integers, the
    comparator is an equivalence whose equal keys have equal hash codes.  On strings the
    functions are defined, they read no character behind the terminator, and comparing is
    equality of the characters in front of it, lowercased in the third case. *)
Theorem library_functions_agree :
  let CB := library_callbacks in
  hash_ok (CB := CB) HashUChars CompareUChars /\ hash_ok (CB := CB) HashChars CompareChars /\
  hash_ok (CB := CB) HashIChars CompareIChars /\ hash_ok (CB := CB) HashLong CompareLong /\
  (forall o1 o2 : A,
    uhash_compareUChars (Ptr (Some o1)) (Ptr (Some o2)) = Some (bool_decide (chars o1 = chars o2)) /\
    uhash_compareChars (Ptr (Some o1)) (Ptr (Some o2)) = Some (bool_decide (chars o1 = chars o2)) /\
    uhash_compareIChars (Ptr (Some o1)) (Ptr (Some o2)) = Some (bool_decide (map uprv_asciitolower (chars o1) = map uprv_asciitolower (chars o2)))) /\
  (forall o : A, is_Some (uhash_hashUChars (Ptr (Some o))) /\ is_Some (uhash_hashChars (Ptr (Some o))) /\ is_Some (uhash_hashIChars (Ptr (Some o)))).
Proof.
  intros CB. do 4 (split; [apply uchars_ok || apply chars_ok || apply ichars_ok || apply long_ok|]). split.
  - intros o1 o2. unfold uhash_compareUChars, uhash_compareChars, uhash_compareIChars. rewrite !compare_pointers by (apply lower_zero || done). by rewrite !map_id.
  - intros o. assert (Hdef : forall deref, is_Some (len ← ustring.u_strlen (buffer o); STRING_HASH deref (buffer o) len)) by (intros d; destruct (hash_strings d o) as (r & -> & _); done).
    by split_and!; apply Hdef.
Qed.
End Keys.

(** Objects that are strings themselves, for examples; their addresses are not used. *)
Definition words : Callbacks (list Z) := library_callbacks (fun s => s) (fun _ => 0).
End UHashKeys.
