(* ===== verification/UHashMap.v ===== *)
(** * The operations of the hash table on the map

    Putting, getting, removing, iterating and comparing, stated for the map from keys to values
    that a table stands for, and for the objects that a table with deleters owns. *)

From S2P Require Import Prelude Vector UString UHash UHashFacts.
Import UVector UHash UHashFacts.

Module UHashMap.
Section Table.
Context `{HP : Heap} {A : Type} `{EqA : EqDecision A} `{CB : Callbacks A}.
Implicit Types (h : t A) (e : UHashElement A) (cells : list (UHashElement A)) (k v : tok A).

Lemma same_functions_refl h : same_functions h h.
Proof. by split_and!. Qed.
#[local] Hint Resolve same_functions_refl : core.

(** ** Putting *)

(** A pair was added. *)
Definition added h h' k v (r : tok A) : Prop :=
  pairs h' ≡ₚ (k, v) :: pairs h /\ (forall v', ~ maps h k v') /\ count h' = count h + 1 /\
  deletedKeys h' = deletedKeys h /\ deletedValues h' = deletedValues h /\ r = emptytok.

(** A pair took the place of one with an equal key. *)
Definition replaced h h' k v (r : tok A) : Prop :=
  exists k0 v0 rest, compare_of (keyComparator h) k k0 = true /\ pairs h ≡ₚ (k0, v0) :: rest /\ pairs h' ≡ₚ (k, v) :: rest /\ count h' = count h /\
    deletedKeys h' = deletedKeys h ++ gone (keyDeleter h) k0 k /\ deletedValues h' = deletedValues h ++ gone (valueDeleter h) v0 v /\
    r = if valueDeleter h then emptytok else v0.

(** The key and the value were not stored, and are deleted. *)
Definition rejected h h' k v (r : tok A) : Prop :=
  pairs h' ≡ₚ pairs h /\ count h' = count h /\
  deletedKeys h' = deletedKeys h ++ owned (keyDeleter h) k /\ deletedValues h' = deletedValues h ++ owned (valueDeleter h) v /\
  r = emptytok /\ (refused \/ fixed h /\ count h + 1 = length h').

Lemma delete_both_spec h k v :
  tracked (keyDeleter h) k -> tracked (valueDeleter h) v ->
  HASH_DELETE_KEY_VALUE h k v = Some (log_deleted h (owned (keyDeleter h) k) (owned (valueDeleter h) v)).
Proof.
  intros Hk Hv. unfold HASH_DELETE_KEY_VALUE. rewrite delete_key_spec by done. cbn [mbind option_bind].
  rewrite delete_value_spec by done. by rewrite log_both.
Qed.

Lemma log_wf h cells ks vs : wf_array h cells -> wf_array (log_deleted h ks vs) cells.
Proof. intros []. by split. Qed.

Lemma log_sized h ks vs : sized h -> sized (log_deleted h ks vs).
Proof. intros []. by split. Qed.

Lemma maps_perm h h' k v : pairs h' ≡ₚ pairs h -> keyComparator h' = keyComparator h -> maps h' k v <-> maps h k v.
Proof. intros Hp Hc. unfold maps. rewrite Hc. by setoid_rewrite Hp. Qed.

Lemma absent_not_mapped h cells k :
  elements h = Some cells -> (forall e, e ∈ cells -> live_e e = true -> compare_of (keyComparator h) k (key e) = false) -> forall v, ~ maps h k v.
Proof.
  intros Ec Hnew v (k' & Hin & Hc). rewrite (pairs_cells h cells Ec) in Hin. apply table_entries_elem in Hin as (e' & Hin & Hl & <- & _). by rewrite (Hnew e' Hin Hl) in Hc.
Qed.

(** Storing into the slot of an equal key. *)
Lemma replace_wf h cells i e k v :
  elements h = Some cells -> wf_array h cells -> zget cells i = Some e -> live_e e = true -> compare_of (keyComparator h) k (key e) = true ->
  tracked (keyDeleter h) k -> tracked (valueDeleter h) v ->
  let e' := Elem (masked (hash_of (keyHasher h) k)) v k in let cells' := <[Z.to_nat i := e']> cells in
  (forall h', same_table h h' -> count h' = count h -> wf_array h' cells') /\
  exists rest, entries cells ≡ₚ (key e, value e) :: rest /\ entries cells' ≡ₚ (k, v) :: rest.
Proof.
  intros Ec Hwa He Hl Hcmp Htk Htv e' cells'. pose proof (wa_functions _ _ Hwa) as Hok. pose proof (zget_elem _ _ _ He) as Hin.
  assert (Eh : hashcode e' = hashcode e) by (cbn; by rewrite (wa_hash _ _ Hwa e Hin Hl), (ho_hash _ _ Hok _ _ Hcmp)).
  assert (Hl' : live_e e' = true) by (unfold live_e; rewrite Eh; exact Hl).
  assert (Ee : entry e = [(key e, value e)]) by (unfold entry; by rewrite Hl). assert (Ee' : entry e' = [(k, v)]) by (unfold entry; by rewrite Hl').
  split.
  - intros h' Hsame Hc. eapply update_wf; eauto.
    + split; auto; [by apply live_not_empty|intros _; rewrite Eh; by apply (wa_reach _ _ Hwa)|].
      intros j e2 Hj He2 _ Hl2. destruct (compare_of (keyComparator h) (key e') (key e2)) eqn:Eq; [|done]. destruct Hj.
      apply (wa_distinct _ _ Hwa j i e2 e); auto. apply (ho_sym _ _ Hok). eapply (ho_trans _ _ Hok); [apply (ho_sym _ _ Hok), Hcmp|exact Eq].
    + rewrite Ee, Ee', Hc. unfold zlen. cbn. lia.
    + rewrite Hc. apply Hwa.
  - destruct (entries_update cells i e e' He) as (rest & Hp & Hp'). rewrite Ee in Hp. rewrite Ee' in Hp'. by exists rest.
Qed.

#[local] Instance float_eq_dec : EqDecision float.
Proof. solve_decision. Defined.

(** The load of a table that can grow. *)
Definition loaded h : Prop := fixed h \/ count h <= highWaterMark h + 1.

(** The first step of a put: it may rehash. *)
Lemma put_rehash h cells :
  elements h = Some cells -> wf_array h cells -> sized h -> count h <= MAX_COUNT ->
  exists h1 st1 c1, (if highWaterMark h <? count h then _uhash_rehash h U_ZERO_ERROR else Some (h, U_ZERO_ERROR)) = Some (h1, st1) /\
    elements h1 = Some c1 /\ wf_array h1 c1 /\ kept h h1 /\ entries c1 ≡ₚ entries cells /\
    (st1 = U_ZERO_ERROR /\ sized h1 /\ (~ fixed h -> count h1 + 1 < length h1) /\ (loaded h -> fixed h1 \/ count h1 <= highWaterMark h1) \/
     st1 = U_MEMORY_ALLOCATION_ERROR /\ refused).
Proof.
  intros Ec Hwa Hsd Hmax. pose proof (wa_size _ _ Hwa) as Hn. pose proof (wa_room _ _ Hwa) as Hroom. destruct (Z.ltb_spec (highWaterMark h) (count h)) as [Hup|Hle].
  - destruct (rehash_spec h cells U_ZERO_ERROR Ec Hwa eq_refl) as (h1 & st1 & c1 & Hr & Ec1 & Hw1 & Hk1 & Hp1 & Hor).
    { intros index Ht. by eapply target_room. }
    exists h1, st1, c1. split_and!; auto; try apply Hk1. destruct Hor as [[-> Hmv]|(-> & ? & _)]; [left|by right]. specialize (Hmv Hsd).
    destruct (moved_up h h1 Hn Hsd Hmax Hroom Hup Hmv) as [Hlt Hin]. destruct Hmv as [Hsd1 _ Hhi _ Hc]. split_and!; auto; [lia|].
    intros [Hf|Hl]; [left; unfold fixed in *; congruence|right]. apply Hin. lia.
  - exists h, U_ZERO_ERROR, cells. do 5 (split; [done || by split_and!|]). left. split_and!; auto.
    intros Hf. pose proof (mf_room _ (marks_of h Hn Hsd) Hf). lia.
Qed.

(** What a put does to the table [h]. *)
Record put_outcome h k v (r : tok A) h' (st : UErrorCode) : Prop := {
  po_wf : wf h';
  po_functions : same_functions h h';
  po_fixed : fixed h' <-> fixed h;
  po_sized : sized h' /\ (loaded h -> loaded h') \/ refused;
  po_effect : st = U_ZERO_ERROR /\ (added h h' k v r \/ replaced h h' k v r) \/ st = U_MEMORY_ALLOCATION_ERROR /\ rejected h h' k v r
}.

Section Put.
Context h k v h1 c1 (Ec1 : elements h1 = Some c1) (Hw1 : wf_array h1 c1) (Hkept : kept h h1) (Hpairs : pairs h1 ≡ₚ pairs h).
Context (Hcount : count h1 = count h) (Hk : tracked (keyDeleter h1) k) (Hv : tracked (valueDeleter h1) v).

Lemma kept_fixed : fixed h1 <-> fixed h.
Proof using Hkept. destruct Hkept as (_ & _ & _ & _ & _ & Hr & _). unfold fixed. by rewrite Hr. Qed.

Lemma put_err_outcome :
  (sized h1 /\ (loaded h -> loaded h1) \/ refused) -> refused \/ fixed h /\ count h + 1 = length h1 ->
  exists r h' st, put_err h1 k v U_MEMORY_ALLOCATION_ERROR = Some (r, h', st) /\ put_outcome h k v r h' st.
Proof using All.
  intros Hs Hwhy. unfold put_err. rewrite delete_both_spec by done. cbn [mbind option_bind]. eexists _, _, _. split; [done|].
  pose proof Hkept as (_ & _ & _ & Ekd & Evd & _ & _ & Hdk & Hdv). split.
  - exists c1. split; [done|by apply log_wf].
  - by apply kept_functions in Hkept.
  - apply kept_fixed.
  - destruct Hs as [[? ?]|]; [left; split; [by apply log_sized|done]|by right].
  - right. split; [done|]. split_and!; auto; cbn [deletedKeys deletedValues log_deleted]; by rewrite ?Hdk, ?Hdv, ?Ekd, ?Evd.
Qed.

Context i e (He : zget c1 i = Some e) (Hsd : sized h1) (Hload : loaded h -> fixed h1 \/ count h1 <= highWaterMark h1).

Lemma store_over :
  live_e e = true -> compare_of (keyComparator h1) k (key e) = true ->
  exists r h', _uhash_setElement h1 i (masked (hash_of (keyHasher h1) k)) k v = Some (r, h') /\ put_outcome h k v r h' U_ZERO_ERROR.
Proof using All.
  intros Hl Hcmp. destruct (wa_owned _ _ Hw1 e (zget_elem _ _ _ He) Hl) as [Hok1 Hok2]. rewrite (setElement_spec h1 c1 i e) by done.
  destruct (replace_wf h1 c1 i e k v Ec1 Hw1 He Hl Hcmp Hk Hv) as [Hw' (rest & Hpe & Hpe')]. eexists _, _. split; [done|].
  pose proof Hkept as (_ & Ehc & _ & Ekd & Evd & _ & _ & Hdk & Hdv). split.
  - eexists. split; [done|]. by apply Hw'.
  - by apply kept_functions in Hkept.
  - apply kept_fixed.
  - left. split; [destruct Hsd; by split|]. intros [Hf|Hc]%Hload; [by left|right; cbn; lia].
  - left. split; [done|]. right. exists (key e), (value e), rest. rewrite <- Ehc, <- Ekd, <- Evd, <- Hdk, <- Hdv.
    split_and!; auto. by rewrite <- Hpairs, (pairs_cells h1 c1 Ec1).
Qed.

Lemma gone_emptytok deleter x : gone deleter (@emptytok A) x = [].
Proof using. unfold gone. by destruct (deleter && _). Qed.

Lemma store_new :
  free_e e -> insertable h1 c1 (masked (hash_of (keyHasher h1) k)) i -> count h1 + 1 < length h1 ->
  (forall e, e ∈ c1 -> live_e e = true -> compare_of (keyComparator h1) k (key e) = false) ->
  exists r h', _uhash_setElement (set_count h1 (count h1 + 1)) i (masked (hash_of (keyHasher h1) k)) k v = Some (r, h') /\
    put_outcome h k v r h' U_ZERO_ERROR.
Proof using All.
  intros (_ & Eke & Eve) Hins Hroom Hnew.
  rewrite (setElement_spec (set_count h1 (count h1 + 1)) c1 i e); [|done|done|rewrite Eke; intros _; by left|rewrite Eve; intros _; by left].
  destruct (insert_wf h1 c1 _ k v i Ec1 Hw1 eq_refl Hins Hnew Hk Hv Hroom) as [Hw' Hpe]. eexists _, _. split; [done|].
  pose proof Hkept as (_ & Ehc & _ & Ekd & Evd & _ & _ & Hdk & Hdv). split.
  - eexists. split; [done|]. by apply Hw'.
  - by apply kept_functions in Hkept.
  - apply kept_fixed.
  - left. split; [destruct Hsd; by split|]. intros [Hf|Hc]%Hload; [by left|right; cbn; lia].
  - left. split; [done|]. left. unfold added. cbn [deletedKeys deletedValues set_cells log_deleted set_count count keyDeleter valueDeleter].
    rewrite Eke, Eve, !gone_emptytok, !app_nil_r. split_and!; [|..|lia|done|done|by destruct (valueDeleter h1)].
    + rewrite <- Hpairs, (pairs_cells h1 c1 Ec1). exact Hpe.
    + intros v' Hm. apply (maps_perm h1 h) in Hm; [|by symmetry..]. by apply (absent_not_mapped h1 c1 k Ec1 Hnew v').
Qed.
End Put.

(** Putting a value: the pair is added, or takes the place of one with an equal key, or is
    deleted, which happens only when an allocation is refused or the table is fixed and full. *)
Lemma put_result h k v (valuePointer : bool) :
  wf h -> sized h -> count h <= MAX_COUNT -> tracked (keyDeleter h) k -> tracked (valueDeleter h) v -> valuePointer && is_null v = false ->
  exists r h' st, _uhash_put h k v valuePointer U_ZERO_ERROR = Some (r, h', st) /\ put_outcome h k v r h' st.
Proof.
  intros (cells & Ec & Hwa) Hsd Hmax Htk Htv Hv. unfold _uhash_put. change (U_FAILURE U_ZERO_ERROR) with false. rewrite Hv. cbv iota.
  destruct (put_rehash h cells Ec Hwa Hsd Hmax) as (h1 & st1 & c1 & -> & Ec1 & Hw1 & Hk1 & Hp1 & Hor). cbn [mbind option_bind].
  assert (Hcnt : count h1 = count h) by (rewrite (wa_count _ _ Hw1), (wa_count _ _ Hwa), <- !entries_zlen; unfold zlen; by rewrite Hp1).
  assert (Hpairs : pairs h1 ≡ₚ pairs h) by (rewrite (pairs_cells _ _ Ec), (pairs_cells _ _ Ec1); exact Hp1).
  pose proof (kept_functions _ _ Hk1) as (_ & _ & Ekd & Evd). rewrite <- Ekd in Htk. rewrite <- Evd in Htv.
  destruct Hor as [(-> & Hsd1 & Hroom & Hload)|[-> Href]]; [|apply (put_err_outcome h k v h1 c1); auto].
  change (U_FAILURE U_ZERO_ERROR) with false. cbv iota.
  destruct (find_slot_spec h1 (ex_intro _ c1 (conj Ec1 Hw1)) k) as (c1' & i & e & Ec1' & _ & He & Hf & Hres).
  rewrite Ec1 in Ec1'. injection Ec1' as <-. rewrite Hf. cbn [mbind option_bind]. rewrite Ec1. cbn [mbind option_bind]. rewrite He. cbn [mbind option_bind].
  fold (masked (hash_of (keyHasher h1) k)).
  assert (Elive : IS_EMPTY_OR_DELETED (hashcode e) = negb (live_e e)) by (unfold live_e; by rewrite negb_involutive). rewrite Elive.
  destruct Hres as [[Hl Hcmp]|(Hfree & Hfe & Hins & Hnew)]; [rewrite Hl|rewrite Hfree]; cbn [negb].
  - destruct (store_over h k v h1 c1 Ec1 Hw1 Hk1 Hpairs Hcnt Htk Htv i e He Hsd1 Hload Hl Hcmp) as (r & h' & -> & Hout). cbn. eauto.
  - destruct (Z.eqb_spec (count h1 + 1) (length h1)) as [Efull|Hnf].
    + apply (put_err_outcome h k v h1 c1); auto.
      * left. split; [done|]. intros [?|?]%Hload; [by left|right; lia].
      * right. split; [|lia]. destruct (decide (highWaterRatio h = Float 1 0)) as [|Hn]; [done|]. specialize (Hroom Hn). lia.
    + assert (count h1 + 1 < length h1) by (pose proof (wa_room _ _ Hw1); lia).
      destruct (store_new h k v h1 c1 Ec1 Hw1 Hk1 Hpairs Hcnt Htk Htv i e He Hsd1 Hload Hfe Hins) as (r & h' & -> & Hout); auto. cbn. eauto.
Qed.

(** ** Removing *)

(** What a remove does to the table [h]. *)
Record remove_outcome h k (r : tok A) h' : Prop := {
  ro_wf : wf h';
  ro_functions : same_functions h h';
  ro_fixed : fixed h' <-> fixed h;
  ro_sized : sized h' /\ (loaded h -> loaded h') \/ refused;
  ro_effect :
    (exists k0 v0, compare_of (keyComparator h) k k0 = true /\ without h h' k0 v0 /\ r = (if valueDeleter h then emptytok else v0)) \/
    h' = h /\ r = emptytok /\ forall v, ~ maps h k v
}.

Lemma without_rehash h h1 h2 c1 c2 k0 v0 :
  without h h1 k0 v0 -> elements h1 = Some c1 -> elements h2 = Some c2 -> wf_array h1 c1 -> wf_array h2 c2 -> kept h1 h2 -> entries c2 ≡ₚ entries c1 ->
  without h h2 k0 v0.
Proof.
  intros (Hp & Hcnt & Hdk & Hdv) Ec1 Ec2 Hw1 Hw2 (_ & _ & _ & _ & _ & _ & _ & Hdk2 & Hdv2) Hp2. split_and!; [..|by rewrite Hdk2|by rewrite Hdv2].
  - rewrite Hp, (pairs_cells h1 c1 Ec1), (pairs_cells h2 c2 Ec2), Hp2. done.
  - rewrite <- Hcnt, (wa_count _ _ Hw1), (wa_count _ _ Hw2), <- !entries_zlen. unfold zlen. by rewrite Hp2.
Qed.

Lemma remove_result h k :
  wf h -> sized h -> count h <= MAX_COUNT ->
  exists r h', _uhash_remove h k = Some (r, h') /\ remove_outcome h k r h'.
Proof.
  intros Hwf Hsd Hmax. destruct (find_slot_spec h Hwf k) as (cells & i & e & Ec & Hfs & He & _ & Hres). destruct Hwf as (cells' & Ec' & Hwa).
  rewrite Ec in Ec'. injection Ec' as <-. unfold _uhash_remove. rewrite Hfs, Ec. cbn [mbind option_bind]. rewrite He. cbn [mbind option_bind].
  assert (Elive : IS_EMPTY_OR_DELETED (hashcode e) = negb (live_e e)) by (unfold live_e; by rewrite negb_involutive). rewrite Elive. clear Elive.
  destruct Hres as [[Hl Hcmp]|(Hfree & _ & _ & Hnew)]; [rewrite Hl|rewrite Hfree]; cbn [negb].
  2:{ exists emptytok, h. split; [done|]. split; [by exists cells|by split_and!|done|by left|]. right. split_and!; auto. by eapply absent_not_mapped. }
  destruct (internalRemove_spec h cells i e Ec Hwa He Hl) as (h1 & -> & (c1 & Ec1 & Hw1) & Hsf & Hwo & Hsd1 & _ & _ & Hrh & Hhi). cbn [mbind option_bind].
  specialize (Hsd1 Hsd). pose proof (proj1 (proj2 Hwo)) as Hcnt. assert (Hfix : fixed h1 <-> fixed h) by (unfold fixed; by rewrite Hrh).
  destruct (Z.ltb_spec (count h1) (lowWaterMark h1)) as [Hlow|_].
  2:{ eexists _, h1. split; [done|]. split; [by exists c1|done|done| |left; eauto]. left. split; [done|]. intros [?|?]; [left; tauto|right; lia]. }
  destruct (rehash_spec h1 c1 U_ZERO_ERROR Ec1 Hw1 eq_refl) as (h2 & st & c2 & -> & Ec2 & Hw2 & Hk2 & Hp2 & Hor).
  { intros index Ht. eapply target_room; eauto. lia. }
  cbn [mbind option_bind]. eexists _, h2. split; [done|]. split.
  - by exists c2.
  - by eapply same_functions_trans, kept_functions.
  - rewrite <- Hfix. by apply kept_fixed.
  - destruct Hor as [[_ Hmv]|(_ & ? & _)]; [left|by right]. specialize (Hmv Hsd1). split; [apply Hmv|]. intros _. right.
    pose proof (mf_order _ (marks_of h1 (wa_size _ _ Hw1) Hsd1)). pose proof (wf_room h1 (ex_intro _ c1 (conj Ec1 Hw1))).
    destruct (moved_down h1 h2 (wa_size _ _ Hw1) Hsd1) as [? _]; auto; lia.
  - left. exists (key e), (value e). split; [done|]. split; [|done]. by eapply without_rehash.
Qed.

(** ** No churning *)

(** The marks that a put or a remove has just crossed. *)
Definition just_crossed h : Prop := count h = highWaterMark h + 1 \/ count h = lowWaterMark h - 1 /\ primeIndex h <> 0.

Lemma rehash_settles h :
  ~ refused -> wf h -> sized h -> count h <= MAX_COUNT -> just_crossed h ->
  exists h', _uhash_rehash h U_ZERO_ERROR = Some (h', U_ZERO_ERROR) /\ wf h' /\ pairs h' ≡ₚ pairs h /\ primeIndex h' <> primeIndex h /\
    lowWaterMark h' <= count h' <= highWaterMark h'.
Proof.
  intros Hnr (cells & Ec & Hwa) Hsd Hmax Hc. pose proof (wa_size _ _ Hwa) as Hn. pose proof (wf_room h (ex_intro _ cells (conj Ec Hwa))) as Hroom.
  pose proof (marks_of h Hn Hsd) as Hm. pose proof (mf_order _ Hm). pose proof (mf_index _ Hm).
  destruct (rehash_spec h cells U_ZERO_ERROR Ec Hwa eq_refl) as (h' & st & c' & Hr & Ec' & Hw' & _ & Hp & [[-> Hmv]|(_ & ? & _)]); [|..|done].
  { intros index Ht. by eapply target_room. }
  specialize (Hmv Hsd). exists h'. split; [done|]. split; [by exists c'|]. split; [by rewrite (pairs_cells h cells Ec), (pairs_cells h' c' Ec')|].
  destruct Hc as [Hup|[Hdown Hpi]].
  - destruct (moved_up h h' Hn Hsd) as [_ Hin]; auto; [lia..|]. destruct (target_up h Hm) as [_ Et]; [lia..|]. rewrite (mv_index _ _ Hmv), Et. cbn. split; [lia|auto].
  - destruct (moved_down h h' Hn Hsd) as [Hle Hin]; auto; [lia|]. rewrite (mv_index _ _ Hmv), (target_down h) by lia.
    destruct (Z.ltb_spec (count h) (lowWaterMark h)); [|lia]. destruct (Z.ltb_spec 0 (primeIndex h)); [|lia]. cbn. split; [lia|auto].
Qed.

Lemma rehash_idle h st : lowWaterMark h <= count h <= highWaterMark h -> _uhash_rehash h st = Some (h, st).
Proof. intros Hc. unfold _uhash_rehash. destruct (Z.ltb_spec (highWaterMark h) (count h)); [lia|]. destruct (Z.ltb_spec (count h) (lowWaterMark h)); [lia|done]. Qed.

(** C30: A resize does not churn: when the count has just passed the high water mark, or has just
    fallen below the low one in a table that can shrink, a rehash moves to another length with
    the same pairs, where the count is between the marks, so that a second rehash does nothing;
    for every length with an array of at most [INT32_MAX] bytes and every resize policy. *)
Theorem rehash_does_not_churn h :
  ~ refused -> wf h -> sized h -> count h <= MAX_COUNT -> just_crossed h ->
  exists h', _uhash_rehash h U_ZERO_ERROR = Some (h', U_ZERO_ERROR) /\ wf h' /\ pairs h' ≡ₚ pairs h /\ primeIndex h' <> primeIndex h /\
    lowWaterMark h' <= count h' <= highWaterMark h' /\ _uhash_rehash h' U_ZERO_ERROR = Some (h', U_ZERO_ERROR).
Proof.
  intros Hnr Hwf Hsd Hmax Hc. destruct (rehash_settles h Hnr Hwf Hsd Hmax Hc) as (h' & Hr & Hwf' & Hp & Hpi & Hin).
  exists h'. split_and!; auto; try lia. by apply rehash_idle.
Qed.

(** ** Getting *)

Lemma get_result h k :
  wf h -> exists v, uhash_get h k = Some v /\ (maps h k v \/ v = emptytok /\ forall v', ~ maps h k v').
Proof.
  intros Hwf. destruct (find_slot_spec h Hwf k) as (cells & i & e & Ec & Hfs & He & _ & Hres). unfold uhash_get. rewrite Hfs, Ec. cbn [mbind option_bind].
  rewrite He. cbn [mbind option_bind]. eexists. split; [done|]. destruct Hres as [[Hl Hcmp]|(_ & (_ & _ & Ev) & _ & Hnew)].
  - left. exists (key e). split; [|done]. rewrite (pairs_cells h cells Ec). apply table_entries_elem. exists e. split_and!; auto. by eapply zget_elem.
  - right. split; [done|]. by eapply absent_not_mapped.
Qed.

(** ** Opening *)

(** A new table. *)
Record opened (hf : hashFn) (cf : compareFn) (vc : option compareFn) h : Prop := {
  op_wf : wf h;
  op_sized : sized h;
  op_fixed : ~ fixed h;
  op_empty : pairs h = [];
  op_count : count h = 0;
  op_hasher : keyHasher h = hf;
  op_comparator : keyComparator h = cf;
  op_value : valueComparator h = vc;
  op_deleters : keyDeleter h = false /\ valueDeleter h = false;
  op_logs : deletedKeys h = [] /\ deletedValues h = []
}.

Lemma init_result hf cf vc index :
  hash_ok hf cf -> 0 <= index <= 22 ->
  (exists h, _uhash_init hf cf vc index U_ZERO_ERROR = Some (Some h, U_ZERO_ERROR) /\ opened hf cf vc h) \/
  _uhash_init hf cf vc index U_ZERO_ERROR = Some (None, U_MEMORY_ALLOCATION_ERROR) /\ refused.
Proof.
  intros Hok Hi. destruct (zget_is_Some PRIMES index) as (n & En); [change (zlen PRIMES) with 28; lia|].
  pose proof (sizes_index n index En ltac:(lia)) as Hn. pose proof (sizes_range n Hn) as [H13 Hbytes]. unfold _uhash_init, _uhash_allocate.
  change (U_FAILURE U_ZERO_ERROR) with false. cbv iota. rewrite En. cbn [mbind option_bind].
  destruct (uprv_malloc _ _ _) as [cells|] eqn:Em; cbn [mbind option_bind].
  - left. eexists. split; [done|]. split; try done.
    + eexists. split; [done|]. by apply fresh_wf.
    + split; try done. by exists U_GROW.
    + unfold pairs. cbn [elements default set_marks set_count set_cells]. apply entries_fresh.
  - right. split; [done|]. eapply malloc_refused; [|exact Em]. unfold sizeof_UHashElement, INT32_MAX in *. lia.
Qed.

Lemma create_result hf cf vc index :
  hash_ok hf cf -> 0 <= index <= 22 ->
  (exists h, _uhash_create hf cf vc index U_ZERO_ERROR = Some (Some h, U_ZERO_ERROR) /\ opened hf cf vc h) \/
  _uhash_create hf cf vc index U_ZERO_ERROR = Some (None, U_MEMORY_ALLOCATION_ERROR) /\ refused.
Proof.
  intros Hok Hi. unfold _uhash_create. change (U_FAILURE U_ZERO_ERROR) with false. cbv iota. destruct (alloc_ok sizeof_UHashtable) eqn:Ea.
  - destruct (init_result hf cf vc index Hok Hi) as [(h & -> & Hop)|[-> Hr]]; cbn [mbind option_bind]; [left|right; by split].
    eexists. split; [done|]. destruct Hop as [(cells & Ec & Hwa) [] ? ? ? ? ? ? ? ?]. split; try done. exists cells. split; [done|]. destruct Hwa. by split.
  - right. split; [done|]. exists sizeof_UHashtable. split; [unfold sizeof_UHashtable, INT32_MAX; lia|done].
Qed.

(** [uhash_openSize] takes the smallest length that is at least the size. *)
Lemma size_index_spec n i size :
  0 <= i <= 27 -> 27 - i < Z.of_nat n -> size <= 67108859 -> i <= 22 -> exists j, size_index n i size = Some j /\ i <= j <= 22.
Proof.
  revert i. induction n as [|n IH]; intros i Hi Hn Hs H22; [lia|]. cbn [size_index]. unfold PRIMES_LENGTH.
  destruct (Z.ltb_spec i (28 - 1)); [|exists i; split; [done|lia]].
  destruct (zget_is_Some PRIMES i) as (p & Ep); [change (zlen PRIMES) with 28; lia|]. rewrite Ep. cbn [mbind option_bind].
  destruct (Z.ltb_spec p size); [|exists i; split; [done|lia]]. destruct (decide (i = 22)) as [->|].
  - change (zget PRIMES 22) with (Some 67108859) in Ep. injection Ep as <-. lia.
  - destruct (IH (i + 1)) as (j & -> & Hj); [lia..|]. exists j. split; [done|lia].
Qed.

(** ** Setters *)

(** Deleters are set on an empty table. *)
Lemma set_deleters_wf h kd vd :
  wf h -> pairs h = [] -> wf (set_functions h (keyHasher h) (keyComparator h) (valueComparator h) kd vd).
Proof.
  intros (cells & Ec & Hwa) Hp. exists cells. split; [done|]. destruct Hwa. split; auto. intros e Hin Hl. exfalso.
  rewrite (pairs_cells h cells Ec) in Hp. assert ((key e, value e) ∈ entries cells) as Hm by (apply table_entries_elem; eauto). rewrite Hp in Hm. by apply not_elem_of_nil in Hm.
Qed.

Lemma set_policy_result h policy :
  wf h -> sized h -> count h <= MAX_COUNT -> policy <> U_FIXED -> ~ fixed h ->
  exists h', uhash_setResizePolicy h policy = Some h' /\ wf h' /\ same_functions h h' /\ ~ fixed h' /\ pairs h' ≡ₚ pairs h /\
    deletedKeys h' = deletedKeys h /\ deletedValues h' = deletedValues h /\ (sized h' /\ (loaded h -> loaded h') \/ refused).
Proof.
  intros (cells & Ec & Hwa) Hsd Hmax Hpol Hnf. unfold uhash_setResizePolicy. set (h1 := set_marks _).
  assert (Ec1 : elements h1 = Some cells) by (by destruct policy). assert (Hw1 : wf_array h1 cells) by (destruct Hwa; destruct policy; by split).
  assert (Hsd1 : sized h1) by (destruct Hsd; destruct policy; (split; [done..|]); (by exists U_GROW) || (by exists U_GROW_AND_SHRINK) || done).
  assert (Hnf1 : ~ fixed h1) by (by destruct policy).
  assert (Hhi : highWaterMark h1 = highWaterMark h /\ count h1 = count h).
  { destruct Hsd as [_ -> _ (p & Hp)]. assert (Hr : highWaterRatio h = Float 1 1) by (destruct p; [by injection Hp as _ <-..|]; destruct Hnf; unfold fixed; by injection Hp as _ <-).
    rewrite Hr. by destruct policy. }
  destruct (rehash_spec h1 cells U_ZERO_ERROR Ec1 Hw1 eq_refl) as (h2 & st & c2 & -> & Ec2 & Hw2 & Hk2 & Hp2 & Hor).
  { intros index Ht. eapply target_room; eauto. lia. }
  cbn [mbind option_bind]. exists h2. split; [done|]. split; [by exists c2|].
  split; [eapply same_functions_trans, kept_functions, Hk2; by destruct policy|]. pose proof Hk2 as (_ & _ & _ & _ & _ & Hr2 & _ & Hdk & Hdv).
  split; [unfold fixed; by rewrite Hr2|]. split; [by rewrite (pairs_cells h cells Ec), (pairs_cells h2 c2 Ec2)|].
  split; [rewrite Hdk; by destruct policy|]. split; [rewrite Hdv; by destruct policy|].
  destruct Hor as [[_ Hmv]|(_ & ? & _)]; [left|by right]. specialize (Hmv Hsd1). split; [apply Hmv|]. intros [?|Hl]; [done|]. right.
  pose proof (wa_size _ _ Hw1) as Hn. pose proof (wf_room h1 (ex_intro _ cells (conj Ec1 Hw1))).
  destruct (Z.lt_ge_cases (highWaterMark h1) (count h1)).
  - destruct (moved_up h1 h2 Hn Hsd1) as [_ Hin]; auto; lia.
  - destruct (moved_down h1 h2 Hn Hsd1) as [? _]; auto; lia.
Qed.

(** ** Iterating *)

(** The pairs behind a position. *)
Definition behind cells pos : list (tok A * tok A) := entries (drop (Z.to_nat (pos + 1)) cells).

Lemma behind_step cells i e : zget cells i = Some e -> behind cells (i - 1) = entry e ++ behind cells i.
Proof.
  intros He. pose proof (zget_Some_range _ _ _ He). apply zget_Some_lookup in He as [_ He]. unfold behind. replace (i - 1 + 1) with i by lia.
  rewrite (drop_S _ _ _ He), entries_cons. by replace (Z.to_nat (i + 1)) with (S (Z.to_nat i)) by lia.
Qed.

Lemma next_loop_spec cells n i :
  0 <= i -> Z.of_nat n = zlen cells - i ->
  next_loop n cells i = Some None /\ behind cells (i - 1) = [] \/
  exists j e, next_loop n cells i = Some (Some j) /\ i <= j /\ zget cells j = Some e /\ live_e e = true /\ behind cells (i - 1) = (key e, value e) :: behind cells j.
Proof.
  revert i. induction n as [|n IH]; intros i Hi Hn; cbn [next_loop].
  - left. split; [done|]. unfold behind. rewrite drop_ge; [done|]. unfold zlen in *. lia.
  - destruct (zget_is_Some cells i) as (e & He); [lia|]. rewrite He. cbn [mbind option_bind]. rewrite (behind_step cells i e He). unfold entry, live_e.
    destruct (IS_EMPTY_OR_DELETED (hashcode e)) eqn:Ef; cbn [negb].
    + destruct (IH (i + 1)) as [[Hl Hb]|(j & e' & Hl & Hj & He' & Hlive & Hb)]; [lia..| |]; replace (i + 1 - 1) with i in Hb by lia.
      * left. by split.
      * right. exists j, e'. split_and!; auto. lia.
    + right. exists i, e. split_and!; auto; [lia|]. unfold live_e. by rewrite Ef.
Qed.

Lemma nextElement_spec h cells pos :
  elements h = Some cells -> zlen cells = length h -> -1 <= pos < length h ->
  uhash_nextElement h pos = Some None /\ behind cells pos = [] \/
  exists i e, uhash_nextElement h pos = Some (Some i) /\ pos < i < length h /\ zget cells i = Some e /\ live_e e = true /\
    behind cells pos = (key e, value e) :: behind cells i.
Proof.
  intros Ec Hlen Hpos. unfold uhash_nextElement. rewrite Ec. cbn [mbind option_bind].
  destruct (next_loop_spec cells (Z.to_nat (length h - (pos + 1))) (pos + 1)) as [[-> Hb]|(i & e & -> & Hi & He & Hl & Hb)]; [lia..| |];
    replace (pos + 1 - 1) with pos in Hb by lia; [by left|right].
  exists i, e. pose proof (zget_Some_range _ _ _ He). split_and!; auto; lia.
Qed.

Lemma behind_first h cells : elements h = Some cells -> behind cells UHASH_FIRST = pairs h.
Proof. intros Ec. by rewrite (pairs_cells h cells Ec). Qed.

(** The loop of a client over a table: the elements from [pos] on. *)
Fixpoint iterate (fuel : nat) h (pos : Z) : option (list (tok A * tok A)) :=
  match fuel with
  | O => None
  | S fuel =>
      r ← uhash_nextElement h pos;
      match r with
      | None => Some []
      | Some i => cells ← elements h; e ← zget cells i; rest ← iterate fuel h i; Some ((key e, value e) :: rest)
      end
  end.

Lemma iterate_spec h cells fuel pos :
  elements h = Some cells -> zlen cells = length h -> -1 <= pos < length h -> (List.length (behind cells pos) < fuel)%nat ->
  iterate fuel h pos = Some (behind cells pos).
Proof.
  intros Ec Hlen. revert pos. induction fuel as [|fuel IH]; intros pos Hpos Hf; [lia|]. cbn [iterate].
  destruct (nextElement_spec h cells pos Ec Hlen Hpos) as [[-> ->]|(i & e & -> & Hi & He & _ & Hb)]; [done|].
  rewrite Hb in Hf |- *. cbn in Hf. cbn [mbind option_bind]. rewrite Ec. cbn [mbind option_bind]. rewrite He. cbn [mbind option_bind].
  rewrite IH by lia. done.
Qed.

(** ** Removing all elements, closing *)

(** The key and value objects of pairs in a table with deleters. *)
Definition key_objects (deleter : bool) (ps : list (tok A * tok A)) : list A := ps ≫= fun kv => owned deleter kv.1.
Definition value_objects (deleter : bool) (ps : list (tok A * tok A)) : list A := ps ≫= fun kv => owned deleter kv.2.

#[export] Instance key_objects_proper deleter : Proper ((≡ₚ) ==> (≡ₚ)) (key_objects deleter).
Proof. intros ps ps' Hp. unfold key_objects. by rewrite Hp. Qed.
#[export] Instance value_objects_proper deleter : Proper ((≡ₚ) ==> (≡ₚ)) (value_objects deleter).
Proof. intros ps ps' Hp. unfold value_objects. by rewrite Hp. Qed.

Lemma behind_insert cells i e : 0 <= i -> behind (<[Z.to_nat i := e]> cells) i = behind cells i.
Proof. intros Hi. unfold behind. by rewrite drop_insert_lt by lia. Qed.

Lemma table_removeAll_loop_spec fuel h cells pos :
  elements h = Some cells -> wf_array h cells -> -1 <= pos < length h -> pairs h ≡ₚ behind cells pos -> (List.length (behind cells pos) < fuel)%nat ->
  exists h', removeAll_loop fuel h pos = Some h' /\ wf h' /\ same_functions h h' /\ (fixed h' <-> fixed h) /\ (sized h -> sized h') /\ pairs h' = [] /\
    deletedKeys h' = deletedKeys h ++ key_objects (keyDeleter h) (behind cells pos) /\
    deletedValues h' = deletedValues h ++ value_objects (valueDeleter h) (behind cells pos).
Proof.
  revert h cells pos. induction fuel as [|fuel IH]; intros h cells pos Ec Hwa Hpos Hp Hf; [lia|]. cbn [removeAll_loop].
  destruct (nextElement_spec h cells pos Ec (wa_len _ _ Hwa) Hpos) as [[-> Hb]|(i & e & -> & Hi & He & Hl & Hb)]; cbn [mbind option_bind].
  - rewrite Hb in Hp |- *. apply Permutation_nil_r in Hp. exists h. unfold key_objects, value_objects. cbn. rewrite !app_nil_r. split_and!; auto. by exists cells.
  - unfold uhash_removeElement. rewrite Ec. cbn [mbind option_bind]. rewrite He. cbn [mbind option_bind].
    assert (Ef : IS_EMPTY_OR_DELETED (hashcode e) = false) by (by apply negb_true_iff). rewrite Ef.
    destruct (internalRemove_spec h cells i e Ec Hwa He Hl) as (h1 & -> & (c1 & Ec1 & Hw1) & Hsf & (Hp1 & _ & Hdk & Hdv) & Hsd1 & Ec1' & Hlen & Hrh & _).
    cbn [mbind option_bind]. rewrite Ec1' in Ec1. injection Ec1 as <-.
    assert (Eb : behind (<[Z.to_nat i := Elem HASH_DELETED emptytok emptytok]> cells) i = behind cells i) by (apply behind_insert; lia).
    destruct (IH h1 _ i Ec1' Hw1) as (h' & -> & Hwf & Hsf' & Hfix & Hsd' & Hnil & Hdk' & Hdv').
    + lia.
    + rewrite Eb. apply (Permutation_cons_inv (a := (key e, value e))). by rewrite <- Hp1, Hp, Hb.
    + rewrite Eb. rewrite Hb in Hf. cbn in Hf. lia.
    + rewrite Eb in Hdk', Hdv'. exists h'. split; [done|]. split; [done|]. split; [by eapply same_functions_trans|].
      destruct Hsf as (_ & _ & Ekd & Evd). split; [rewrite Hfix; unfold fixed; by rewrite Hrh|]. split; [auto|]. split; [done|].
      rewrite Hdk', Hdv', Hdk, Hdv, Ekd, Evd, Hb. unfold key_objects, value_objects. cbn. by rewrite <- !app_assoc.
Qed.

Lemma behind_length cells pos n : zlen cells = n -> (List.length (behind cells pos) <= Z.to_nat n)%nat.
Proof.
  intros <-. unfold behind, entries. rewrite length_map. etransitivity; [apply length_filter|]. rewrite length_drop. unfold zlen. lia.
Qed.

Lemma removeAll_result h :
  wf h -> exists h', uhash_removeAll h = Some h' /\ wf h' /\ same_functions h h' /\ (fixed h' <-> fixed h) /\ (sized h -> sized h') /\ pairs h' = [] /\
    deletedKeys h' = deletedKeys h ++ key_objects (keyDeleter h) (pairs h) /\ deletedValues h' = deletedValues h ++ value_objects (valueDeleter h) (pairs h).
Proof.
  intros (cells & Ec & Hwa). unfold uhash_removeAll, UHASH_FIRST. pose proof (wf_room h (ex_intro _ cells (conj Ec Hwa))).
  destruct (Z.eqb_spec (count h) 0) as [E0|_]; cbn [negb].
  - assert (Hnil : pairs h = []).
    { rewrite (pairs_cells h cells Ec). apply nil_length_inv. rewrite (wa_count _ _ Hwa), <- entries_zlen in E0. unfold zlen in E0. lia. }
    exists h. rewrite Hnil. unfold key_objects, value_objects. cbn. rewrite !app_nil_r. split_and!; auto. by exists cells.
  - destruct (table_removeAll_loop_spec (S (Z.to_nat (length h))) h cells (-1) Ec Hwa) as (h' & -> & Hres); [lia|by rewrite <- (behind_first h cells Ec)|..].
    { pose proof (behind_length cells (-1) _ (wa_len _ _ Hwa)). lia. }
    exists h'. split; [done|]. by rewrite <- (behind_first h cells Ec).
Qed.

Lemma close_loop_spec fuel h cells pos :
  elements h = Some cells -> wf_array h cells -> -1 <= pos < length h -> (List.length (behind cells pos) < fuel)%nat ->
  close_loop fuel h pos = Some (log_deleted h (key_objects (keyDeleter h) (behind cells pos)) (value_objects (valueDeleter h) (behind cells pos))).
Proof.
  revert h pos. induction fuel as [|fuel IH]; intros h pos Ec Hwa Hpos Hf; [lia|]. cbn [close_loop].
  destruct (nextElement_spec h cells pos Ec (wa_len _ _ Hwa) Hpos) as [[-> ->]|(i & e & -> & Hi & He & Hl & Hb)]; cbn [mbind option_bind].
  - cbn. by rewrite log_nothing.
  - rewrite Ec. cbn [mbind option_bind]. rewrite He. cbn [mbind option_bind].
    destruct (wa_owned _ _ Hwa e (zget_elem _ _ _ He) Hl) as [Hk Hv]. rewrite delete_both_spec by done. cbn [mbind option_bind].
    rewrite Hb in Hf |- *. cbn in Hf. rewrite IH; [|done|by apply log_wf|cbn; lia|lia]. cbn. f_equal. unfold log_deleted. cbn. by rewrite <- !app_assoc.
Qed.

Lemma close_result h :
  wf h -> uhash_close h = Some (deletedKeys h ++ key_objects (keyDeleter h) (pairs h), deletedValues h ++ value_objects (valueDeleter h) (pairs h)).
Proof.
  intros (cells & Ec & Hwa). unfold uhash_close. rewrite Ec. destruct (keyDeleter h || valueDeleter h) eqn:Ed.
  - rewrite (close_loop_spec _ h cells UHASH_FIRST); auto.
    + cbn. by rewrite (behind_first h cells Ec).
    + unfold UHASH_FIRST. pose proof (wf_room h (ex_intro _ cells (conj Ec Hwa))). lia.
    + pose proof (behind_length cells UHASH_FIRST _ (wa_len _ _ Hwa)). lia.
  - apply orb_false_iff in Ed as [-> ->]. cbn.
    assert (Hn : forall (f : tok A * tok A -> list A), (forall x, f x = []) -> pairs h ≫= f = []) by (intros f Hfn; induction (pairs h) as [|x l IHl]; [done|]; cbn; by rewrite Hfn).
    unfold key_objects, value_objects. rewrite !Hn by done. by rewrite !app_nil_r.
Qed.
End Table.
End UHashMap.
