(* ===== verification/UHashSpec.v ===== *)
(** * The hash table against an association list

    The abstract machine is an association list with one pair for every key.  Any sequence of
    operations on a new table gives the results that the association list gives, while the load
    stays below the mark; the objects handed to a table with deleters are deleted once. *)

From S2P Require Import Prelude Vector UString UHash UHashFacts UHashKeys UHashMap.
Import UVector UHash UHashFacts UHashKeys UHashMap.

Module UHashSpec.
Section Spec.
Context `{HP : Heap} {A : Type} `{EqA : EqDecision A} `{CB : Callbacks A}.
Implicit Types (h : t A) (k v : tok A) (m ps : list (tok A * tok A)).

(** ** Distinct keys *)

Definition distinct (cf : compareFn) ps : Prop := ForallOrdPairs (fun p q => compare_of cf p.1 q.1 = false) ps.

Lemma distinct_head cf x ps : distinct cf (x :: ps) -> Forall (fun q => compare_of cf x.1 q.1 = false) ps.
Proof. by inversion 1. Qed.

Lemma distinct_perm hf cf ps ps' : hash_ok hf cf -> ps ≡ₚ ps' -> distinct cf ps -> distinct cf ps'.
Proof.
  intros Hok. unfold distinct. induction 1 as [|x l l' Hp IH|x y l|l1 l2 l3 _ IH1 _ IH2]; intros Hd; auto.
  - inversion Hd as [|? ? Hx Hl]; subst. constructor; [by rewrite <- Hp|auto].
  - inversion Hd as [|? ? Hy Hl]; subst. inversion Hl as [|? ? Hx Hl']; subst. inversion Hy as [|? ? Hyx Hy']; subst.
    constructor; [constructor; [|done]|by constructor]. destruct (compare_of cf x.1 y.1) eqn:E; [|done]. apply (ho_sym _ _ Hok) in E. congruence.
Qed.

Lemma entries_distinct cf (cells : list (UHashElement A)) :
  (forall i j e e', zget cells i = Some e -> zget cells j = Some e' -> live_e e = true -> live_e e' = true -> compare_of cf (key e) (key e') = true -> i = j) ->
  distinct cf (entries cells).
Proof.
  unfold distinct. induction cells as [|e cells IH]; intros Hd; [constructor|]. rewrite entries_cons.
  assert (Hshift : forall (i : nat) x, cells !! i = Some x -> zget (e :: cells) (Z.of_nat (S i)) = Some x) by (intros i x Hi; by apply zget_of_nat).
  assert (Htail : ForallOrdPairs (fun p q => compare_of cf p.1 q.1 = false) (entries cells)).
  { apply IH. intros i j x y [Hi Ei]%zget_Some_lookup [Hj Ej]%zget_Some_lookup Hx Hy Hc. pose proof (Hd _ _ _ _ (Hshift _ _ Ei) (Hshift _ _ Ej) Hx Hy Hc). lia. }
  unfold entry. destruct (live_e e) eqn:Hl; [|done]. cbn [app]. constructor; [|done]. apply Forall_forall. intros [k v] Hin.
  apply table_entries_elem in Hin as (x & (i & Hi)%list_elem_of_lookup & Hx & <- & <-). cbn. destruct (compare_of cf (key e) (key x)) eqn:Ec; [|done].
  pose proof (Hd 0 (Z.of_nat (S i)) e x (zget_of_nat (e :: cells) 0%nat e eq_refl) (Hshift _ _ Hi) Hl Hx Ec). lia.
Qed.

Lemma wf_distinct h : wf h -> distinct (keyComparator h) (pairs h).
Proof. intros (cells & Ec & Hwa). rewrite (pairs_cells h cells Ec). apply entries_distinct, Hwa. Qed.

Lemma wf_hash_ok h : wf h -> hash_ok (keyHasher h) (keyComparator h).
Proof. intros (cells & _ & Hwa). apply Hwa. Qed.

Lemma wf_count h : wf h -> count h = zlen (pairs h).
Proof. intros (cells & Ec & Hwa). by rewrite (pairs_cells h cells Ec), (wa_count _ _ Hwa), <- entries_zlen. Qed.

(** ** The abstract machine *)

Section Machine.
Context (cf : compareFn) (vd : bool).

Definition a_get m k : tok A := match List.find (fun kv => compare_of cf k kv.1) m with Some (_, v) => v | None => emptytok end.
Definition a_remove m k : list (tok A * tok A) := List.filter (fun kv => negb (compare_of cf k kv.1)) m.
Definition a_put m k v : list (tok A * tok A) := (k, v) :: a_remove m k.

Inductive op :=
  | Put (k : tok A) (v : option A) | Puti (k : tok A) (v : Z) | Remove (k : tok A) | Get (k : tok A)
  | Count | RemoveAll | SetPolicy (policy : UHashResizePolicy).

(** The value that is replaced or removed is returned, unless it is deleted. *)
Definition returned m k : tok A := if vd then emptytok else a_get m k.

(** Storing a null or a 0 is removing, as uhash.h says. *)
Definition a_step m (o : op) : tok A * UErrorCode * list (tok A * tok A) :=
  match o with
  | Put k None => (returned m k, U_ZERO_ERROR, a_remove m k)
  | Put k (Some v) => (returned m k, U_ZERO_ERROR, a_put m k (Ptr (Some v)))
  | Puti k v => (returned m k, U_ZERO_ERROR, if v =? 0 then a_remove m k else a_put m k (Int v))
  | Remove k => (returned m k, U_ZERO_ERROR, a_remove m k)
  | Get k => (a_get m k, U_ZERO_ERROR, m)
  | Count => (Int (zlen m), U_ZERO_ERROR, m)
  | RemoveAll => (emptytok, U_ZERO_ERROR, [])
  | SetPolicy _ => (emptytok, U_ZERO_ERROR, m)
  end.

Fixpoint a_run m (os : list op) : list (tok A * UErrorCode) * list (tok A * tok A) :=
  match os with
  | [] => ([], m)
  | o :: os => let '(r, m) := a_step m o in let '(rs, m) := a_run m os in (r :: rs, m)
  end.

(** The operations of the table. *)
Definition c_step h (o : op) : option (tok A * UErrorCode * t A) :=
  match o with
  | Put k v => '(r, h, st) ← uhash_put h k v U_ZERO_ERROR; Some (r, st, h)
  | Puti k v => '(r, h, st) ← uhash_puti h k v U_ZERO_ERROR; Some (r, st, h)
  | Remove k => '(r, h) ← uhash_remove h k; Some (r, U_ZERO_ERROR, h)
  | Get k => r ← uhash_get h k; Some (r, U_ZERO_ERROR, h)
  | Count => Some (Int (uhash_count h), U_ZERO_ERROR, h)
  | RemoveAll => h ← uhash_removeAll h; Some (emptytok, U_ZERO_ERROR, h)
  | SetPolicy policy => h ← uhash_setResizePolicy h policy; Some (emptytok, U_ZERO_ERROR, h)
  end.

Fixpoint c_run h (os : list op) : option (list (tok A * UErrorCode) * t A) :=
  match os with
  | [] => Some ([], h)
  | o :: os => '(r, h) ← c_step h o; '(rs, h) ← c_run h os; Some (r :: rs, h)
  end.

(** ** Simulation *)

Record refines h m : Prop := {
  rf_wf : wf h;
  rf_sized : sized h;
  rf_grows : ~ fixed h;
  rf_loaded : loaded h;
  rf_pairs : pairs h ≡ₚ m;
  rf_comparator : keyComparator h = cf;
  rf_deleter : valueDeleter h = vd
}.

(** Keys and values are objects or nulls where they are deleted, and tables can grow.  A number
    that is put is not 0: [puti_zero_stored] says what happens to a 0. *)
Definition op_ok (kd : bool) (o : op) : Prop :=
  match o with
  | Put k _ => tracked kd k
  | Puti k v => v <> 0 /\ tracked kd k /\ tracked vd (Int v : tok A)
  | SetPolicy policy => policy <> U_FIXED
  | _ => True
  end.

Lemma a_get_maps h m k v : wf h -> keyComparator h = cf -> pairs h ≡ₚ m -> maps h k v -> a_get m k = v.
Proof.
  intros Hwf Ecf Hp Hm. unfold a_get. destruct (List.find _ m) as [[k' v']|] eqn:Ef.
  - apply List.find_some in Ef as [Hin%list_elem_of_In Hc]. eapply (maps_functional h k); [done| |exact Hm]. exists k'. rewrite Hp, Ecf. by split.
  - destruct Hm as (k' & Hin & Hc). rewrite Hp in Hin. apply list_elem_of_In in Hin. pose proof (List.find_none _ _ Ef _ Hin) as Hn. cbn in Hn. congruence.
Qed.

Lemma a_get_absent h m k : keyComparator h = cf -> pairs h ≡ₚ m -> (forall v, ~ maps h k v) -> a_get m k = emptytok.
Proof.
  intros Ecf Hp Hn. unfold a_get. destruct (List.find _ m) as [[k' v']|] eqn:Ef; [|done].
  apply List.find_some in Ef as [Hin%list_elem_of_In Hc]. destruct (Hn v'). exists k'. rewrite Hp, Ecf. by split.
Qed.

#[export] Instance a_remove_proper : Proper ((≡ₚ) ==> (=) ==> (≡ₚ)) a_remove.
Proof.
  intros m m' Hp k ? <-. unfold a_remove. induction Hp as [|x l l' _ IH|x y l|l1 l2 l3 _ IH1 _ IH2]; cbn [List.filter]; auto.
  - destruct (negb _); [by constructor|done].
  - destruct (negb (compare_of cf k x.1)), (negb (compare_of cf k y.1)); try done. apply perm_swap.
  - by etransitivity.
Qed.

Lemma a_remove_all m k : Forall (fun kv => compare_of cf k kv.1 = false) m -> a_remove m k = m.
Proof. unfold a_remove. induction 1 as [|x m Hx _ IH]; cbn [List.filter]; [done|]. rewrite Hx. cbn. by rewrite IH. Qed.

Lemma a_remove_absent h m k : keyComparator h = cf -> pairs h ≡ₚ m -> (forall v, ~ maps h k v) -> a_remove m k = m.
Proof.
  intros Ecf Hp Hn. apply a_remove_all, Forall_forall. intros [k' v'] Hin. cbn. destruct (compare_of cf k k') eqn:Ec; [|done].
  destruct (Hn v'). exists k'. rewrite Hp, Ecf. by split.
Qed.

(** Removing a key that is there removes its pair only. *)
Lemma a_remove_pair h m k k0 v0 rest :
  wf h -> keyComparator h = cf -> pairs h ≡ₚ m -> pairs h ≡ₚ (k0, v0) :: rest -> compare_of cf k k0 = true -> a_remove m k ≡ₚ rest.
Proof.
  intros Hwf Ecf Hp Hrest Hc. rewrite <- Hp, Hrest. cbn. rewrite Hc. cbn. pose proof (wf_hash_ok h Hwf) as Hok. pose proof (wf_distinct h Hwf) as Hd.
  eapply (distinct_perm (keyHasher h)) in Hd; [|exact Hok|exact Hrest]. apply distinct_head in Hd. rewrite Ecf in *.
  fold (a_remove rest k). rewrite a_remove_all; [done|]. eapply Forall_impl; [exact Hd|]. intros [k' v'] Hk'. cbn in *.
  destruct (compare_of cf k k') eqn:Ek; [|done]. rewrite <- Hk'. symmetry. eapply (ho_trans _ _ Hok); [|exact Ek]. by apply (ho_sym _ _ Hok).
Qed.

Lemma a_get_pair h m k k0 v0 rest :
  wf h -> keyComparator h = cf -> pairs h ≡ₚ m -> pairs h ≡ₚ (k0, v0) :: rest -> compare_of cf k k0 = true -> a_get m k = v0.
Proof. intros Hwf Ecf Hp Hrest Hc. eapply a_get_maps; eauto. exists k0. rewrite Hrest, Ecf. split; [by left|done]. Qed.

(** A put of a value that is stored. *)
Lemma put_refines h m kd k v p :
  ~ refused -> refines h m -> keyDeleter h = kd -> zlen m <= MAX_COUNT -> tracked kd k -> tracked vd v -> p && is_null v = false ->
  exists h', _uhash_put h k v p U_ZERO_ERROR = Some (returned m k, h', U_ZERO_ERROR) /\ refines h' (a_put m k v) /\ keyDeleter h' = kd.
Proof.
  intros Hnr [Hwf Hsd Hgr Hld Hp Ecf Evd] Ekd Hmax Hk Hv Hnull. subst kd. rewrite <- Evd in Hv.
  destruct (put_result h k v p Hwf Hsd) as (r & h' & st & -> & [Hwf' (_ & Ecf' & Ekd' & Evd') Hfix Hs Heff]); auto.
  { rewrite (wf_count h Hwf). unfold zlen in *. by rewrite Hp. }
  assert (Hno : ~ rejected h h' k v r) by (intros (_ & _ & _ & _ & _ & [?|[? _]]); done). destruct Hs as [[Hsd' Hld']|?]; [|done].
  destruct Heff as [[-> Heff]|[_ ?]]; [|done]. exists h'. unfold returned, a_put. rewrite <- Evd.
  assert (Hgr' : ~ fixed h') by (by rewrite Hfix). specialize (Hld' Hld).
  destruct Heff as [(Hp' & Hn & _ & _ & _ & ->)|(k0 & v0 & rest & Hc & Hrest & Hp' & _ & _ & _ & ->)].
  - rewrite (a_get_absent h m k Ecf Hp Hn). split; [by destruct (valueDeleter h)|]. split; [|done]. split; auto; try congruence.
    rewrite (a_remove_absent h m k Ecf Hp Hn), Hp', Hp. done.
  - rewrite Ecf in Hc. rewrite (a_get_pair h m k k0 v0 rest Hwf Ecf Hp Hrest Hc). split; [done|]. split; [|done]. split; auto; try congruence.
    by rewrite (a_remove_pair h m k k0 v0 rest Hwf Ecf Hp Hrest Hc).
Qed.

Lemma remove_refines h m k :
  ~ refused -> refines h m -> zlen m <= MAX_COUNT ->
  exists h', _uhash_remove h k = Some (returned m k, h') /\ refines h' (a_remove m k) /\ keyDeleter h' = keyDeleter h.
Proof.
  intros Hnr [Hwf Hsd Hgr Hld Hp Ecf Evd] Hmax.
  destruct (remove_result h k Hwf Hsd) as (r & h' & -> & [Hwf' (_ & Ecf' & Ekd' & Evd') Hfix Hs Heff]).
  { rewrite (wf_count h Hwf). unfold zlen in *. by rewrite Hp. }
  destruct Hs as [[Hsd' Hld']|?]; [|done]. specialize (Hld' Hld). exists h'. unfold returned. rewrite <- Evd.
  assert (Hgr' : ~ fixed h') by (by rewrite Hfix).
  destruct Heff as [(k0 & v0 & Hc & (Hrest & _) & ->)|(-> & -> & Hn)].
  - rewrite Ecf in Hc. rewrite (a_get_pair h m k k0 v0 _ Hwf Ecf Hp Hrest Hc). split; [done|]. split; [|done]. split; auto; try congruence.
    by rewrite (a_remove_pair h m k k0 v0 _ Hwf Ecf Hp Hrest Hc).
  - rewrite (a_get_absent h m k Ecf Hp Hn). split; [by destruct (valueDeleter h)|]. split; [|done]. rewrite (a_remove_absent h m k Ecf Hp Hn). by split.
Qed.

(** Putting a null is removing. *)
Lemma put_null h k : uhash_put h k None U_ZERO_ERROR = ('(r, h') ← _uhash_remove h k; Some (r, h', U_ZERO_ERROR)).
Proof. reflexivity. Qed.

Lemma step_refines h m kd o :
  ~ refused -> refines h m -> keyDeleter h = kd -> zlen m <= MAX_COUNT -> op_ok kd o ->
  exists h', c_step h o = Some ((a_step m o).1, h') /\ refines h' (a_step m o).2 /\ keyDeleter h' = kd.
Proof.
  intros Hnr Href Ekd Hmax Hop. pose proof Href as [Hwf Hsd Hgr Hld Hp Ecf Evd].
  assert (Hcount : count h = zlen m) by (rewrite (wf_count h Hwf); unfold zlen; by rewrite Hp).
  destruct o as [k [v|]|k v|k|k| | |policy]; cbn [c_step a_step fst snd] in *; unfold uhash_put, uhash_puti, uhash_remove.
  - destruct (put_refines h m kd k (Ptr (Some v)) true) as (h' & -> & ?); eauto. intros _. eauto.
  - change (_uhash_put h k (Ptr None) true U_ZERO_ERROR) with (uhash_put h k None U_ZERO_ERROR). rewrite put_null.
    destruct (remove_refines h m k) as (h' & -> & ? & ?); auto. exists h'. cbn. split_and!; auto. congruence.
  - destruct Hop as (Hv0 & Hk & Hv). destruct (Z.eqb_spec v 0); [done|]. destruct (put_refines h m kd k (Int v) false) as (h' & -> & ?); eauto.
  - destruct (remove_refines h m k) as (h' & -> & ? & ?); auto. exists h'. cbn. split_and!; auto. congruence.
  - destruct (get_result h k Hwf) as (v & -> & [Hm|[-> Hn]]); exists h; cbn.
    + by rewrite (a_get_maps h m k v Hwf Ecf Hp Hm).
    + by rewrite (a_get_absent h m k Ecf Hp Hn).
  - exists h. unfold uhash_count. by rewrite Hcount.
  - destruct (removeAll_result h Hwf) as (h' & -> & Hwf' & (_ & Ecf' & Ekd' & Evd') & Hfix & Hsd' & Hnil & _). exists h'. cbn. split; [done|].
    split; [|congruence]. split; auto; try congruence; [by rewrite Hfix| |by rewrite Hnil].
    right. rewrite (wf_count h' Hwf'), Hnil. pose proof (sd_high _ (Hsd' Hsd)). destruct Hwf' as (c & _ & Hw).
    pose proof (mf_order _ (marks_of h' (wa_size _ _ Hw) (Hsd' Hsd))). change (zlen (@nil (tok A * tok A))) with 0. lia.
  - destruct (set_policy_result h policy) as (h' & -> & Hwf' & (_ & Ecf' & Ekd' & Evd') & Hgr' & Hp' & _ & _ & [[Hsd' Hld']|?]); [auto; lia..| |done].
    exists h'. cbn. split; [done|]. split; [|congruence]. split; auto; try congruence. by rewrite Hp'.
Qed.

Lemma a_remove_le m k : zlen (a_remove m k) <= zlen m.
Proof. unfold a_remove, zlen. pose proof (List.filter_length_le (fun kv => negb (compare_of cf k kv.1)) m). lia. Qed.

Lemma a_step_le m o : zlen (a_step m o).2 <= zlen m + 1.
Proof.
  destruct o as [k [v|]|k v|k|k| | |policy]; cbn [a_step snd]; try (pose proof (a_remove_le m k)); try case_match; unfold a_put; rewrite ?zlen_cons; try lia.
  change (zlen (@nil (tok A * tok A))) with 0. pose proof (zlen_nonneg m). lia.
Qed.

Lemma run_refines h m kd os :
  ~ refused -> refines h m -> keyDeleter h = kd -> zlen m + zlen os <= MAX_COUNT -> Forall (op_ok kd) os ->
  exists h', c_run h os = Some ((a_run m os).1, h') /\ refines h' (a_run m os).2.
Proof.
  intros Hnr Href Ekd Hmax Hops. revert h m Href Ekd Hmax. induction Hops as [|o os Ho _ IH]; intros h m Href Ekd Hmax; cbn [c_run a_run]; [by exists h|].
  rewrite zlen_cons in Hmax. pose proof (zlen_nonneg os). pose proof (a_step_le m o).
  destruct (step_refines h m kd o) as (h1 & -> & Href1 & Ekd1); auto; [lia|]. cbn [mbind option_bind].
  destruct (a_step m o) as [r m1] eqn:Es. cbn [fst snd] in *. destruct (IH h1 m1 Href1 Ekd1) as (h' & -> & Href'); [lia|].
  exists h'. destruct (a_run m1 os) as [rs m2]. cbn in *. by split.
Qed.

(** The header has [uhash_puti] with a 0 remove the key; it is stored and counted instead. *)
Lemma puti_zero_stored h m kd k :
  ~ refused -> refines h m -> keyDeleter h = kd -> zlen m <= MAX_COUNT -> tracked kd k -> tracked vd (Int 0 : tok A) ->
  exists h', c_step h (Puti k 0) = Some (returned m k, U_ZERO_ERROR, h') /\ pairs h' ≡ₚ (k, Int 0) :: a_remove m k /\ (a_step m (Puti k 0)).2 = a_remove m k.
Proof.
  intros Hnr Href Ekd Hmax Hk Hv. destruct (put_refines h m kd k (Int 0) false) as (h' & E & Href' & _); auto. exists h'. cbn [c_step]. unfold uhash_puti. rewrite E. split; [done|]. split; [apply Href'|done].
Qed.

(** A new table with its deleters. *)
Definition with_deleters h (kd : bool) : t A := (uhash_setValueDeleter (uhash_setKeyDeleter h kd).2 vd).2.

Lemma opened_refines hf vc h kd : hash_ok hf cf -> opened hf cf vc h -> refines (with_deleters h kd) [] /\ keyDeleter (with_deleters h kd) = kd.
Proof.
  intros Hok [Hwf Hsd Hgr Hnil Hc Ehf Ecf _ _ _]. split; [|done].
  assert (Hwf' : wf (with_deleters h kd)) by exact (set_deleters_wf h kd vd Hwf Hnil).
  assert (Hsd' : sized (with_deleters h kd)) by (destruct Hsd; by split).
  split; auto.
  - right. change (count (with_deleters h kd)) with (count h). rewrite Hc. destruct Hwf' as (c & _ & Hw). pose proof (mf_order _ (marks_of _ (wa_size _ _ Hw) Hsd')). lia.
  - change (pairs (with_deleters h kd)) with (pairs h). by rewrite Hnil.
Qed.

(** A run from a new table. *)
Definition runs hf vc kd os h h' : Prop :=
  uhash_open hf cf vc U_ZERO_ERROR = Some (Some h, U_ZERO_ERROR) /\ c_run (with_deleters h kd) os = Some ((a_run [] os).1, h').

Definition run_new hf vc kd os : option (t A) :=
  '(r, _) ← uhash_open hf cf vc U_ZERO_ERROR; h ← r; '(_, h) ← c_run (with_deleters h kd) os; Some h.

Lemma run_new_spec hf vc kd os h h' : runs hf vc kd os h h' -> run_new hf vc kd os = Some h'.
Proof. intros [Ho Hr]. unfold run_new. rewrite Ho. cbn [mbind option_bind]. by rewrite Hr. Qed.

Lemma opened_run hf vc kd os :
  ~ refused -> hash_ok hf cf -> Forall (op_ok kd) os -> zlen os <= MAX_COUNT ->
  exists h h', runs hf vc kd os h h' /\ opened hf cf vc h /\ refines h' (a_run [] os).2.
Proof.
  intros Hnr Hok Hops Hlen. destruct (create_result hf cf vc DEFAULT_PRIME_INDEX Hok) as [(h & Ho & Hop)|[_ ?]]; [done| |done].
  destruct (opened_refines hf vc h kd Hok Hop) as [Href Ekd]. destruct (run_refines (with_deleters h kd) [] kd os Hnr Href Ekd) as (h' & Hr & Href'); auto.
  exists h, h'. by split_and!.
Qed.

(** C18: The hash table is a finite map: on a newly opened table, with any deleters, every
    sequence of up to [2 ^ 24] puts, removes, gets, counts, removals of all elements and changes
    between the growing resize policies succeeds, returns for each operation what an association
    list with one pair per key returns, and ends with the pairs of that list, if the hash function
    and the comparator agree and no allocation is refused.  A value that the table deletes is not
    returned.  Putting the number 0 is left out: uhash.h has it remove the key, but it is stored
    ([puti_zero_stored]). *)
Theorem uhash_refines_map hf vc kd os :
  ~ refused -> hash_ok hf cf -> Forall (op_ok kd) os -> zlen os <= MAX_COUNT ->
  exists h h', uhash_open hf cf vc U_ZERO_ERROR = Some (Some h, U_ZERO_ERROR) /\
    c_run (with_deleters h kd) os = Some ((a_run [] os).1, h') /\ pairs h' ≡ₚ (a_run [] os).2.
Proof.
  intros Hnr Hok Hops Hlen. destruct (opened_run hf vc kd os Hnr Hok Hops Hlen) as (h & h' & [Ho Hr] & _ & Href).
  exists h, h'. split_and!; auto. apply Href.
Qed.

(** The table stays at most half full: after any such sequence of operations the count is at
    most one above the high water mark and the mark at most half the length, rounded up, so that
    free slots are left for the searches; the length is one of the primes, and its array has at
    most [INT32_MAX] bytes. *)
Theorem uhash_load_bounded hf vc kd os :
  ~ refused -> hash_ok hf cf -> Forall (op_ok kd) os -> zlen os <= MAX_COUNT ->
  exists h h', uhash_open hf cf vc U_ZERO_ERROR = Some (Some h, U_ZERO_ERROR) /\ c_run (with_deleters h kd) os = Some ((a_run [] os).1, h') /\
    0 <= count h' <= highWaterMark h' + 1 /\ 2 * highWaterMark h' <= length h' + 1 /\ count h' + 1 < length h' /\
    length h' ∈ PRIMES /\ sizeof_UHashElement * length h' <= INT32_MAX.
Proof.
  intros Hnr Hok Hops Hlen. destruct (opened_run hf vc kd os Hnr Hok Hops Hlen) as (h & h' & [Ho Hr] & _ & [Hwf Hsd Hgr Hld _ _ _]).
  exists h, h'. split; [done|]. split; [done|]. destruct Hld as [?|Hld]; [done|]. pose proof (wf_room h' Hwf). destruct Hwf as (c & _ & Hw).
  pose proof (wa_size _ _ Hw) as Hn. pose proof (mf_room _ (marks_of h' Hn Hsd) Hgr). pose proof (sizes_range _ Hn).
  split_and!; try lia. by apply sizes_in_primes.
Qed.

(** ** Ownership *)

(** The objects that a table with deleters has been given: deleted ones and the ones it holds. *)
Definition ledger_keys h : list A := deletedKeys h ++ key_objects (keyDeleter h) (pairs h).
Definition ledger_values h : list A := deletedValues h ++ value_objects (valueDeleter h) (pairs h).

(** What an operation gives to the table: with a key deleter it owns every key that is put. *)
Definition given_keys kd (o : op) : list A := match o with Put k _ | Puti k _ => owned kd k | _ => [] end.
Definition given_values (o : op) : list A :=
  match o with Put _ (Some v) => owned vd (Ptr (Some v)) | Puti _ v => owned vd (Int v : tok A) | _ => [] end.

Lemma ledger_replace d (x0 x : tok A) (D R : list A) :
  (forall a, a ∈ owned d x -> a ∉ D ++ owned d x0 ++ R) -> (D ++ gone d x0 x) ++ owned d x ++ R ≡ₚ (D ++ owned d x0 ++ R) ++ owned d x.
Proof.
  intros Hfresh. unfold gone, owned in *. destruct d; cbn [andb negb] in *; [|by rewrite !app_nil_r].
  case_bool_decide as E; cbn [negb].
  - subst x0. destruct (object x) as [a|] eqn:Ex; cbn in *; [|by rewrite !app_nil_r]. destruct (Hfresh a); set_solver.
  - rewrite <- !app_assoc. by rewrite (Permutation_app_comm (option_list (object x)) R).
Qed.

(** A key that is put with a null value is not an object that the table must delete. *)
Definition null_key_ok kd (o : op) : Prop := match o with Put k None => owned kd k = [] | _ => True end.

Definition fresh_in (xs ys : list A) : Prop := forall a, a ∈ xs -> a ∉ ys.

Lemma put_ledger h k v r h' st :
  put_outcome h k v r h' st -> fresh_in (owned (keyDeleter h) k) (ledger_keys h) -> fresh_in (owned (valueDeleter h) v) (ledger_values h) ->
  ledger_keys h' ≡ₚ ledger_keys h ++ owned (keyDeleter h) k /\ ledger_values h' ≡ₚ ledger_values h ++ owned (valueDeleter h) v.
Proof.
  intros [_ (_ & _ & Ekd & Evd) _ _ Heff] Hfk Hfv. unfold ledger_keys, ledger_values in *. rewrite Ekd, Evd.
  destruct Heff as [[_ [(Hp & _ & _ & -> & -> & _)|(k0 & v0 & rest & _ & Hp & Hp' & _ & -> & -> & _)]]|[_ (Hp & _ & -> & -> & _)]].
  - rewrite Hp. unfold key_objects, value_objects. cbn. rewrite <- !app_assoc. split; f_equiv; apply Permutation_app_comm.
  - rewrite Hp', Hp. unfold key_objects, value_objects. cbn. split; apply ledger_replace; intros a Ha Hin.
    + apply (Hfk a Ha). rewrite Hp. exact Hin.
    + apply (Hfv a Ha). rewrite Hp. exact Hin.
  - rewrite Hp, <- !app_assoc. split; f_equiv; apply Permutation_app_comm.
Qed.

Lemma without_ledger h h' k0 v0 :
  same_functions h h' -> without h h' k0 v0 -> ledger_keys h' ≡ₚ ledger_keys h /\ ledger_values h' ≡ₚ ledger_values h.
Proof.
  intros (_ & _ & Ekd & Evd) (Hp & _ & Hdk & Hdv). unfold ledger_keys, ledger_values. rewrite Ekd, Evd, Hdk, Hdv, Hp.
  unfold key_objects, value_objects. cbn. by rewrite <- !app_assoc.
Qed.

Lemma remove_ledger h k r h' : remove_outcome h k r h' -> ledger_keys h' ≡ₚ ledger_keys h /\ ledger_values h' ≡ₚ ledger_values h.
Proof. intros [_ Hsf _ _ [(k0 & v0 & _ & Hwo & _)|(-> & _)]]; [by eapply without_ledger|done]. Qed.

Lemma step_ledger h m kd o x h' :
  refines h m -> keyDeleter h = kd -> zlen m <= MAX_COUNT -> op_ok kd o -> null_key_ok kd o -> c_step h o = Some (x, h') ->
  fresh_in (given_keys kd o) (ledger_keys h) -> fresh_in (given_values o) (ledger_values h) ->
  ledger_keys h' ≡ₚ ledger_keys h ++ given_keys kd o /\ ledger_values h' ≡ₚ ledger_values h ++ given_values o.
Proof.
  intros [Hwf Hsd Hgr _ Hp _ Evd] Ekd Hmax Hop Hnk Hs Hfk Hfv.
  assert (Hcount : count h <= MAX_COUNT) by (rewrite (wf_count h Hwf); unfold zlen in *; by rewrite Hp).
  assert (Hput : forall k v p y, tracked kd k -> tracked vd v -> p && is_null v = false -> fresh_in (owned kd k) (ledger_keys h) -> fresh_in (owned vd v) (ledger_values h) ->
    _uhash_put h k v p U_ZERO_ERROR = Some y -> ledger_keys y.1.2 ≡ₚ ledger_keys h ++ owned kd k /\ ledger_values y.1.2 ≡ₚ ledger_values h ++ owned vd v).
  { intros k v p y Hk Hv Hnull. rewrite <- Ekd, <- Evd in *. destruct (put_result h k v p) as (r & h1 & st & -> & Hout); auto. intros ? ? [= <-]. by eapply put_ledger. }
  assert (Hrem : forall k y, _uhash_remove h k = Some y -> ledger_keys y.2 ≡ₚ ledger_keys h /\ ledger_values y.2 ≡ₚ ledger_values h).
  { intros k y. destruct (remove_result h k Hwf Hsd Hcount) as (r & h1 & -> & Hout). intros [= <-]. by eapply remove_ledger. }
  destruct o as [k [v|]|k v|k|k| | |policy]; cbn [c_step given_keys given_values op_ok null_key_ok] in *; rewrite ?app_nil_r.
  - unfold uhash_put in Hs. destruct (_uhash_put _ _ _ _ _) as [[[r h1] st]|] eqn:E; [|done]. injection Hs as _ <-.
    apply (Hput k (Ptr (Some v)) true (r, h1, st)); auto. intros _. eauto.
  - rewrite Hnk, app_nil_r. rewrite put_null in Hs. destruct (_uhash_remove h k) as [[r h1]|] eqn:E; [|done]. injection Hs as _ <-. exact (Hrem k _ E).
  - unfold uhash_puti in Hs. destruct (_uhash_put _ _ _ _ _) as [[[r h1] st]|] eqn:E; [|done]. injection Hs as _ <-.
    destruct Hop as (_ & ? & ?). apply (Hput k (Int v) false (r, h1, st)); auto.
  - unfold uhash_remove in Hs. destruct (_uhash_remove h k) as [[r h1]|] eqn:E; [|done]. injection Hs as _ <-. exact (Hrem k _ E).
  - destruct (uhash_get h k); [|done]. by injection Hs as _ <-.
  - by injection Hs as _ <-.
  - destruct (removeAll_result h Hwf) as (h1 & E & _ & (_ & _ & Ekd1 & Evd1) & _ & _ & Hnil & Hdk & Hdv). rewrite E in Hs. injection Hs as _ <-.
    unfold ledger_keys, ledger_values, key_objects, value_objects in *. rewrite Hnil, Hdk, Hdv. cbn. by rewrite !app_nil_r.
  - destruct (set_policy_result h policy) as (h1 & E & _ & (_ & _ & Ekd1 & Evd1) & _ & Hp1 & Hdk & Hdv & _); auto. rewrite E in Hs. injection Hs as _ <-.
    unfold ledger_keys, ledger_values. by rewrite Ekd1, Evd1, Hdk, Hdv, Hp1.
Qed.

Lemma fresh_app (xs ys zs : list A) : NoDup (ys ++ xs ++ zs) -> fresh_in xs ys.
Proof. intros (_ & Hd & _)%NoDup_app a Hx Hy. apply (Hd a Hy). set_solver. Qed.

Lemma run_ledger h m kd os rs h' :
  ~ refused -> refines h m -> keyDeleter h = kd -> zlen m + zlen os <= MAX_COUNT -> Forall (op_ok kd) os -> Forall (null_key_ok kd) os -> c_run h os = Some (rs, h') ->
  NoDup (ledger_keys h ++ (os ≫= given_keys kd)) -> NoDup (ledger_values h ++ (os ≫= given_values)) ->
  ledger_keys h' ≡ₚ ledger_keys h ++ (os ≫= given_keys kd) /\ ledger_values h' ≡ₚ ledger_values h ++ (os ≫= given_values).
Proof.
  intros Hnr Href Ekd Hmax Hops. revert h m rs Href Ekd Hmax.
  induction Hops as [|o os Ho _ IH]; intros h m rs Href Ekd Hmax Hnull Hrun Hk Hv; cbn [c_run mbind list_bind] in *.
  - injection Hrun as _ <-. by rewrite !app_nil_r.
  - apply Forall_cons in Hnull as [Hn0 Hnull]. rewrite zlen_cons in Hmax. pose proof (zlen_nonneg os). pose proof (a_step_le m o).
    destruct (step_refines h m kd o) as (h1 & E & Href1 & Ekd1); auto; [lia|]. rewrite E in Hrun. cbn [mbind option_bind] in Hrun.
    destruct (c_run h1 os) as [[rs1 h2]|] eqn:E1; [|done]. injection Hrun as _ <-.
    destruct (step_ledger h m kd o _ h1 Href Ekd ltac:(lia) Ho Hn0 E) as [Hk1 Hv1]; [by eapply fresh_app..|].
    destruct (IH h1 (a_step m o).2 rs1 Href1 Ekd1 ltac:(lia) Hnull E1) as [Hk2 Hv2]; [by rewrite Hk1, <- app_assoc|by rewrite Hv1, <- app_assoc|].
    by rewrite Hk2, Hk1, Hv2, Hv1, <- !app_assoc.
Qed.

(** The key that is put with a null value is lost: the table neither holds nor deletes it,
    although it owns it after the call, and the caller gets the value back, if any, but not the
    key. *)
Lemma put_null_key_lost h m k x h' :
  refines h m -> zlen m <= MAX_COUNT -> c_step h (Put k None) = Some (x, h') -> fresh_in (owned (keyDeleter h) k) (ledger_keys h) ->
  fresh_in (owned (keyDeleter h) k) (ledger_keys h').
Proof.
  intros [Hwf Hsd _ _ Hp _ _] Hmax Hs Hf. assert (Hcount : count h <= MAX_COUNT) by (rewrite (wf_count h Hwf); unfold zlen in *; by rewrite Hp).
  cbn [c_step] in Hs. rewrite put_null in Hs. destruct (remove_result h k Hwf Hsd Hcount) as (r & h1 & E & Hout). rewrite E in Hs. injection Hs as _ <-. destruct (remove_ledger h k r h1 Hout) as [Hl _]. intros a Ha. rewrite Hl. by apply Hf.
Qed.

(** C28: Every object is deleted once: when a run on a table with deleters hands over each key
    object and each value object once, and the table is then closed, the objects given to the
    key deleter are those of the keys put and the ones given to the value deleter those of the
    values put, each exactly once; without a deleter none is deleted.  No key object is put with a
    null value: [uhash_put] loses such a key ([put_null_key_lost]). *)
Theorem uhash_objects_deleted_once hf vc kd os :
  ~ refused -> hash_ok hf cf -> Forall (op_ok kd) os -> Forall (null_key_ok kd) os -> zlen os <= MAX_COUNT ->
  NoDup (os ≫= given_keys kd) -> NoDup (os ≫= given_values) ->
  exists h h' ks vs, uhash_open hf cf vc U_ZERO_ERROR = Some (Some h, U_ZERO_ERROR) /\ c_run (with_deleters h kd) os = Some ((a_run [] os).1, h') /\
    uhash_close h' = Some (ks, vs) /\ ks ≡ₚ os ≫= given_keys kd /\ vs ≡ₚ os ≫= given_values.
Proof.
  intros Hnr Hok Hops Hnull Hlen Hk Hv. destruct (opened_run hf vc kd os Hnr Hok Hops Hlen) as (h & h' & [Ho Hr] & Hop & Href).
  destruct (opened_refines hf vc h kd Hok Hop) as [Href0 Ekd]. destruct (op_logs _ _ _ _ Hop) as [Ek Ev].
  assert (El : ledger_keys (with_deleters h kd) = [] /\ ledger_values (with_deleters h kd) = []).
  { unfold ledger_keys, ledger_values. change (pairs (with_deleters h kd)) with (pairs h). rewrite (op_empty _ _ _ _ Hop). cbn. by rewrite Ek, Ev. }
  destruct El as [Ek0 Ev0].
  destruct (run_ledger (with_deleters h kd) [] kd os _ h' Hnr Href0 Ekd ltac:(by rewrite zlen_nil) Hops Hnull Hr) as [Hlk Hlv]; [by rewrite Ek0|by rewrite Ev0|].
  rewrite Ek0 in Hlk. rewrite Ev0 in Hlv. eexists h, h', _, _. split_and!; [done|done|apply close_result, Href|exact Hlk|exact Hlv].
Qed.
End Machine.
End Spec.

(** ** Examples *)

Ltac ops_ok := repeat (apply Forall_cons_2; [cbn; split_and?; first [done|intros _; right; eexists; reflexivity]|]); apply Forall_nil_2.

Section Examples.
#[local] Existing Instance words.
#[local] Existing Instance big_heap.

Definition word (s : list Z) : tok (list Z) := Ptr (Some s).

(** Two puts with equal keys in different case, a number, and what is read back. *)
Definition sample : list (op (A := list Z)) :=
  [Put (word [65; 98]) (Some [49]); Puti (word [99]) 7; Put (word [97; 66]) (Some [50]); Get (word [97; 98]); SetPolicy U_GROW_AND_SHRINK;
   Remove (word [67]); Get (word [99]); Count; Put (word [100]) None].

Lemma uhash_refines_map_witness :
  exists h h', uhash_open (CB := words) HashIChars CompareIChars None U_ZERO_ERROR = Some (Some h, U_ZERO_ERROR) /\
    c_run (with_deleters (CB := words) false h true) sample =
      Some ([(emptytok, U_ZERO_ERROR); (emptytok, U_ZERO_ERROR); (word [49], U_ZERO_ERROR); (word [50], U_ZERO_ERROR); (emptytok, U_ZERO_ERROR);
             (Int 7, U_ZERO_ERROR); (emptytok, U_ZERO_ERROR); (Int 1, U_ZERO_ERROR); (emptytok, U_ZERO_ERROR)], h') /\
    pairs h' ≡ₚ [(word [97; 66], word [50])].
Proof.
  apply (uhash_refines_map (CB := words) CompareIChars false HashIChars None true sample).
  - exact big_heap_grants.
  - apply ichars_ok.
  - ops_ok.
  - vm_compute. discriminate.
Defined.

Lemma uhash_load_bounded_witness :
  exists h h', uhash_open (CB := words) HashIChars CompareIChars None U_ZERO_ERROR = Some (Some h, U_ZERO_ERROR) /\
    c_run (with_deleters (CB := words) false h true) sample = Some ((a_run (CB := words) CompareIChars false [] sample).1, h') /\
    0 <= count h' <= highWaterMark h' + 1 /\ 2 * highWaterMark h' <= length h' + 1 /\ count h' + 1 < length h' /\
    length h' ∈ PRIMES /\ sizeof_UHashElement * length h' <= INT32_MAX.
Proof.
  apply (uhash_load_bounded (CB := words) CompareIChars false HashIChars None true sample).
  - exact big_heap_grants.
  - apply ichars_ok.
  - ops_ok.
  - vm_compute. discriminate.
Defined.

(** A key replaced, a pair removed, and one left until the table is closed. *)
Definition handed : list (op (A := list Z)) :=
  [Put (word [65]) (Some [49]); Put (word [97]) (Some [50]); Put (word [98]) (Some [51]); Remove (word [66]); Put (word [99]) (Some [52])].

Lemma uhash_objects_deleted_once_witness :
  exists h h' ks vs, uhash_open (CB := words) HashIChars CompareIChars None U_ZERO_ERROR = Some (Some h, U_ZERO_ERROR) /\
    c_run (with_deleters (CB := words) true h true) handed = Some ((a_run (CB := words) CompareIChars true [] handed).1, h') /\
    uhash_close h' = Some (ks, vs) /\ ks ≡ₚ [[65]; [97]; [98]; [99]] /\ vs ≡ₚ [[49]; [50]; [51]; [52]].
Proof.
  apply (uhash_objects_deleted_once (CB := words) CompareIChars true HashIChars None true handed).
  - exact big_heap_grants.
  - apply ichars_ok.
  - ops_ok.
  - repeat constructor.
  - vm_compute. discriminate.
  - apply (bool_decide_unpack _). vm_compute. exact I.
  - apply (bool_decide_unpack _). vm_compute. exact I.
Defined.

(** Sixty-four numbers: one more than the high water mark of a new table. *)
Definition numbers : list (op (A := list Z)) := map (fun i => Puti (Int i) i) (seqZ 1 64).

Lemma numbered_marks : (fun h => (count h, highWaterMark h)) <$> run_new (CB := words) CompareLong false HashLong None false numbers = Some (64, 63).
Proof. vm_compute. reflexivity. Qed.

Lemma numbered_table : exists h : t (list Z), wf h /\ sized h /\ count h = 64 /\ highWaterMark h = 63.
Proof.
  destruct (opened_run (CB := words) CompareLong false HashLong None false numbers) as (h0 & h & Hr & _ & [Hwf Hsd _ _ _ _ _]).
  - exact big_heap_grants.
  - apply long_ok.
  - apply Forall_forall. intros o (i & -> & Hi%elem_of_seqZ)%list_elem_of_fmap. split; [lia|split; discriminate].
  - vm_compute. discriminate.
  - pose proof numbered_marks as Hm. apply run_new_spec in Hr. rewrite Hr in Hm. injection Hm as Hc Hh. exists h. exact (conj Hwf (conj Hsd (conj Hc Hh))).
Qed.

Lemma rehash_does_not_churn_witness :
  exists h h' : t (list Z), count h = 64 /\ highWaterMark h = 63 /\ _uhash_rehash h U_ZERO_ERROR = Some (h', U_ZERO_ERROR) /\ wf h' /\ pairs h' ≡ₚ pairs h /\
    primeIndex h' <> primeIndex h /\ lowWaterMark h' <= count h' <= highWaterMark h' /\ _uhash_rehash h' U_ZERO_ERROR = Some (h', U_ZERO_ERROR).
Proof.
  destruct numbered_table as (h & Hwf & Hsd & Hc & Hh). destruct (rehash_does_not_churn (CB := words) h big_heap_grants Hwf Hsd) as (h' & Hres).
  - rewrite Hc. vm_compute. discriminate.
  - left. rewrite Hc, Hh. reflexivity.
  - exists h, h'. split; [exact Hc|]. split; [exact Hh|exact Hres].
Defined.
End Examples.
End UHashSpec.
