(* ===== verification/UHashEquals.v ===== *)
(** * Searching, iterating and comparing hash tables

    A search makes at most as many probes as the table has slots; a loop over a table visits
    every pair once; and two tables compare equal when they are the same map. *)

From S2P Require Import Prelude Vector UString UHash UHashFacts UHashKeys UHashMap UHashSpec.
Import UVector UHash UHashFacts UHashKeys UHashMap UHashSpec.

Module UHashEquals.
Section Table.
Context `{HP : Heap} {A : Type} `{EqA : EqDecision A} `{CB : Callbacks A}.
Implicit Types (h : t A) (e : UHashElement A) (cells : list (UHashElement A)) (k v : tok A).

(** ** Searching *)

Lemma find_loop_mono n n' h cells k hc start i jump fd r :
  find_loop n h cells k hc start i jump fd = Some r -> (n <= n')%nat -> find_loop n' h cells k hc start i jump fd = Some r.
Proof.
  revert n' i jump fd. induction n as [|n IH]; intros n' i jump fd Hr Hn; [done|]. destruct n' as [|n']; [lia|]. cbn [find_loop] in *.
  destruct (zget cells i) as [e|]; [|done]. cbn [mbind option_bind] in *.
  assert (Hnext : forall fd', (sum ← checked (i + (if jump =? 0 then hc mod (length h - 1) + 1 else jump));
      if negb (sum mod length h =? start) then find_loop n h cells k hc start (sum mod length h) (if jump =? 0 then hc mod (length h - 1) + 1 else jump) fd'
      else if 0 <=? fd' then Some (Some fd') else if negb (hashcode e =? HASH_EMPTY) then Some None else Some (Some (sum mod length h))) = Some r ->
    (sum ← checked (i + (if jump =? 0 then hc mod (length h - 1) + 1 else jump));
      if negb (sum mod length h =? start) then find_loop n' h cells k hc start (sum mod length h) (if jump =? 0 then hc mod (length h - 1) + 1 else jump) fd'
      else if 0 <=? fd' then Some (Some fd') else if negb (hashcode e =? HASH_EMPTY) then Some None else Some (Some (sum mod length h))) = Some r).
  { intros fd'. destruct (checked _) as [sum|]; [|done]. cbn [mbind option_bind]. destruct (negb (_ =? start)); [|done]. intros Hl. apply (IH n'); auto. lia. }
  destruct (hashcode e =? hc); [destruct (compare_of _ _ _); auto|]. destruct (negb _); auto. destruct (hashcode e =? HASH_EMPTY); auto.
Qed.

(** C29: A search ends: in a well-formed table it makes at most as many probes as there are slots,
    whatever the key, without overflow and without reading outside of the array; the slot it
    returns holds the key if the table does, and is free for it otherwise. *)
Theorem uhash_find_terminates h k :
  wf h ->
  exists cells i e, elements h = Some cells /\ zget cells i = Some e /\
    (forall n, length h <= Z.of_nat n ->
      find_loop n h cells k (masked (hash_of (keyHasher h) k)) (start_of (length h) (masked (hash_of (keyHasher h) k)))
        (start_of (length h) (masked (hash_of (keyHasher h) k))) 0 (-1) = Some (Some i)) /\
    _uhash_find h k (hash_of (keyHasher h) k) = Some (Some i) /\
    (live_e e = true /\ compare_of (keyComparator h) k (key e) = true \/ free_e e /\ forall v, ~ maps h k v).
Proof.
  intros Hwf. destruct (find_slot_spec h Hwf k) as (cells & i & e & Ec & _ & He & Hf & Hres). exists cells, i, e. split; [done|]. split; [done|].
  split; [|split; [done|destruct Hres as [?|(_ & ? & _ & Hnew)]; [by left|right; split; [done|by eapply absent_not_mapped]]]].
  destruct Hwf as (cells' & Ec' & Hwa). rewrite Ec in Ec'. injection Ec' as <-. intros n Hn. set (hc := masked _).
  pose proof (sizes_range _ (wa_size _ _ Hwa)) as [H13 _]. pose proof (masked_range (hash_of (keyHasher h) k)) as [Hhc _].
  destruct (find_loop_spec h cells k hc (wa_len _ _ Hwa) (wa_size _ _ Hwa) Hhc n 0 (-1)) as (r & Hr & _); [lia..|left; split; [done|lia]|].
  rewrite probe_0 in Hr by (apply start_range; lia). change (if 0 =? 0 then 0 else jump_of (length h) hc) with 0 in Hr.
  unfold _uhash_find in Hf. rewrite Ec in Hf. cbn [mbind option_bind] in Hf. change (Z.land (hash_of (keyHasher h) k) 0x7FFFFFFF) with hc in Hf.
  change (Z.lxor hc 0x4000000 mod length h) with (start_of (length h) hc) in Hf.
  apply (find_loop_mono _ (n + S (Z.to_nat (length h)))) in Hf; [|lia]. pose proof (find_loop_mono _ (n + S (Z.to_nat (length h))) _ _ _ _ _ _ _ _ _ Hr ltac:(lia)). congruence.
Qed.

(** ** Iterating *)

(** A loop over a table ends and visits everything: [uhash_nextElement] from [UHASH_FIRST] on
    returns an element exactly [count] times and then null; what it visits are all pairs of the
    table, no two of them with equal keys. *)
Theorem uhash_iteration_complete h :
  wf h ->
  exists ps, iterate (S (Z.to_nat (uhash_count h))) h UHASH_FIRST = Some ps /\ zlen ps = uhash_count h /\ distinct (keyComparator h) ps /\
    forall k v, maps h k v <-> exists k', (k', v) ∈ ps /\ compare_of (keyComparator h) k k' = true.
Proof.
  intros Hwf. pose proof (wf_count h Hwf) as Hc. exists (pairs h). split; [|split; [done|split; [by apply wf_distinct|done]]].
  pose proof (wf_room h Hwf). destruct Hwf as (cells & Ec & Hwa). rewrite <- (behind_first h cells Ec) in Hc |- *.
  apply iterate_spec; auto; [apply Hwa|unfold UHASH_FIRST; lia|]. unfold uhash_count. rewrite Hc. unfold zlen. lia.
Qed.

(** ** Comparing *)

(** The value that [uhash_equals] reads: the one of the key, or the null of a free slot. *)
Lemma equals_loop_spec h1 h2 cells vc n pos :
  elements h1 = Some cells -> wf_array h1 cells -> wf h2 -> -1 <= pos < length h1 -> List.length (behind cells pos) = n ->
  exists b, equals_loop n h1 h2 vc pos = Some b /\
    (b = true <-> forall k v, (k, v) ∈ behind cells pos -> exists v2, uhash_get h2 k = Some v2 /\ compare_of vc v v2 = true).
Proof.
  intros Ec Hwa Hwf2. revert pos. induction n as [|n IH]; intros pos Hpos Hn; cbn [equals_loop].
  - exists true. split; [done|]. split; [|done]. intros _ k v Hin. apply nil_length_inv in Hn. rewrite Hn in Hin. by apply not_elem_of_nil in Hin.
  - destruct (nextElement_spec h1 cells pos Ec (wa_len _ _ Hwa) Hpos) as [[_ Hb]|(i & e & -> & Hi & He & _ & Hb)]; [by rewrite Hb in Hn|].
    cbn [mbind option_bind]. rewrite Ec. cbn [mbind option_bind]. rewrite He. cbn [mbind option_bind].
    destruct (get_result h2 (key e) Hwf2) as (v2 & Hg & _). rewrite Hg. cbn [mbind option_bind]. rewrite Hb in Hn. injection Hn as Hn.
    destruct (compare_of vc (value e) v2) eqn:Ev.
    + destruct (IH i ltac:(lia) Hn) as (b & -> & Hb'). exists b. split; [done|]. rewrite Hb', Hb. split; intros Hall k v Hin.
      * apply elem_of_cons in Hin as [[= -> ->]|Hin]; [by exists v2|auto].
      * apply Hall. by right.
    + exists false. split; [done|]. split; [done|]. intros Hall. rewrite Hb in Hall. destruct (Hall (key e) (value e) ltac:(by left)) as (v2' & Hg' & Hc). congruence.
Qed.

Lemma equals_spec h1 h2 :
  wf h1 -> wf h2 ->
  exists b, uhash_equals h1 h2 = Some b /\
    (b = true <-> exists vc, valueComparator h1 = Some vc /\ valueComparator h2 = Some vc /\ keyComparator h1 = keyComparator h2 /\ count h1 = count h2 /\
      forall k v, (k, v) ∈ pairs h1 -> exists v2, uhash_get h2 k = Some v2 /\ compare_of vc v v2 = true).
Proof.
  intros Hwf1 Hwf2. unfold uhash_equals. pose proof (wf_count h1 Hwf1) as Hc1. pose proof (wf_room h1 Hwf1).
  destruct (valueComparator h1) as [vc|]; [|exists false; split; [done|]; split; [done|]; by intros (? & ? & _)].
  destruct (bool_decide (keyComparator h1 = keyComparator h2) && bool_decide (Some vc = valueComparator h2)) eqn:E.
  2:{ exists false. split; [done|]. split; [done|]. intros (vc' & [= <-] & Hv & Hk & _). apply andb_false_iff in E as [E%bool_decide_eq_false|E%bool_decide_eq_false]; congruence. }
  apply andb_true_iff in E as [Ek%bool_decide_eq_true Ev%bool_decide_eq_true]. destruct (Z.eqb_spec (count h1) (count h2)) as [Ec|Hne].
  2:{ exists false. split; [done|]. split; [done|]. intros (vc' & _ & _ & _ & Hc & _). congruence. }
  destruct Hwf1 as (cells & Ecells & Hwa). rewrite <- (behind_first h1 cells Ecells) in *.
  destruct (equals_loop_spec h1 h2 cells vc (Z.to_nat (count h1)) UHASH_FIRST Ecells Hwa Hwf2) as (b & -> & Hb).
  { unfold UHASH_FIRST. lia. } { rewrite Hc1. unfold zlen. lia. }
  exists b. split; [done|]. rewrite Hb. split; [intros Hall; exists vc; by split_and!|]. intros (vc' & [= <-] & _ & _ & _ & Hall). exact Hall.
Qed.

(** Every key of the first list has an equal one in the second. *)
Definition covers (cf : compareFn) (l1 l2 : list (tok A * tok A)) : Prop :=
  forall p, p ∈ l1 -> exists q, q ∈ l2 /\ compare_of cf p.1 q.1 = true.

Lemma covers_step hf cf p l1 l2 :
  hash_ok hf cf -> distinct cf (p :: l1) -> distinct cf l2 -> covers cf (p :: l1) l2 ->
  exists q l2', l2 ≡ₚ q :: l2' /\ compare_of cf p.1 q.1 = true /\ distinct cf l1 /\ distinct cf l2' /\ covers cf l1 l2'.
Proof.
  intros Hok Hd1 Hd2 Hcov. destruct (Hcov p ltac:(by left)) as (q & Hq & Hpq). apply elem_of_Permutation in Hq as (l2' & Hp). exists q, l2'.
  pose proof (distinct_head _ _ _ Hd1) as Hx. apply (distinct_perm hf _ _ _ Hok Hp) in Hd2. split_and!; auto; [by inversion Hd1|by inversion Hd2|].
  intros p' Hp'. destruct (Hcov p' ltac:(by right)) as (q' & Hq' & Hc). rewrite Hp in Hq'. apply elem_of_cons in Hq' as [->|Hq']; [|eauto].
  rewrite Forall_forall in Hx. specialize (Hx p' Hp'). exfalso. cbn in Hx. rewrite (ho_trans _ _ Hok p.1 q.1 p'.1) in Hx; [done|done|by apply (ho_sym _ _ Hok)].
Qed.

Lemma covers_le hf cf l1 l2 : hash_ok hf cf -> distinct cf l1 -> distinct cf l2 -> covers cf l1 l2 -> (List.length l1 <= List.length l2)%nat.
Proof.
  intros Hok. revert l2. induction l1 as [|p l1 IH]; intros l2 Hd1 Hd2 Hcov; [cbn; lia|].
  destruct (covers_step hf cf p l1 l2 Hok Hd1 Hd2 Hcov) as (q & l2' & Hp & _ & Hd1' & Hd2' & Hcov'). rewrite Hp. cbn. specialize (IH l2' Hd1' Hd2' Hcov'). lia.
Qed.

(** With as many keys, the converse holds. *)
Lemma covers_back hf cf l1 l2 :
  hash_ok hf cf -> distinct cf l1 -> distinct cf l2 -> covers cf l1 l2 -> List.length l1 = List.length l2 -> covers cf l2 l1.
Proof.
  intros Hok. revert l2. induction l1 as [|p l1 IH]; intros l2 Hd1 Hd2 Hcov Hlen.
  - destruct l2; [|done]. intros q Hq. by apply not_elem_of_nil in Hq.
  - destruct (covers_step hf cf p l1 l2 Hok Hd1 Hd2 Hcov) as (q & l2' & Hp & Hpq & Hd1' & Hd2' & Hcov'). rewrite Hp in Hlen. injection Hlen as Hlen.
    intros q' Hq'. rewrite Hp in Hq'. apply elem_of_cons in Hq' as [->|Hq'].
    + exists p. split; [by left|]. by apply (ho_sym _ _ Hok).
    + destruct (IH l2' Hd1' Hd2' Hcov' Hlen q' Hq') as (p' & Hp' & Hc). exists p'. split; [by right|done].
Qed.

(** Every key of the first table has a value in the second that compares equal. *)
Definition agrees (vc : compareFn) h1 h2 : Prop := forall k v, maps h1 k v -> exists v2, maps h2 k v2 /\ compare_of vc v v2 = true.

Lemma maps_pair h k v : wf h -> (k, v) ∈ pairs h -> maps h k v.
Proof. intros Hwf Hin. exists k. split; [done|]. apply (ho_refl _ _ (wf_hash_ok h Hwf)). Qed.

Lemma maps_equal h k k' v : wf h -> compare_of (keyComparator h) k k' = true -> maps h k' v -> maps h k v.
Proof. intros Hwf Hc (k2 & Hin & Hc2). exists k2. split; [done|]. by eapply (ho_trans _ _ (wf_hash_ok h Hwf)). Qed.

Lemma agrees_pairs vc h1 h2 :
  wf h1 -> wf h2 -> keyComparator h1 = keyComparator h2 -> (forall k v, maps h1 k v -> compare_of vc v emptytok = false) ->
  agrees vc h1 h2 <-> forall k v, (k, v) ∈ pairs h1 -> exists v2, uhash_get h2 k = Some v2 /\ compare_of vc v v2 = true.
Proof.
  intros Hwf1 Hwf2 Ek Hnn. split.
  - intros Hag k v Hin. destruct (Hag k v (maps_pair h1 k v Hwf1 Hin)) as (v2 & Hm & Hc). exists v2. split; [|done].
    destruct (get_result h2 k Hwf2) as (v2' & -> & [Hm'|[_ Hn]]); [|by destruct (Hn v2)]. f_equal. by eapply maps_functional.
  - intros Hall k v (k' & Hin & Hc). destruct (Hall k' v Hin) as (v2 & Hg & Hv). exists v2. split; [|done]. rewrite Ek in Hc. apply (maps_equal h2 k k'); auto.
    destruct (get_result h2 k' Hwf2) as (v2' & Hg' & [Hm'|[-> Hn]]); [congruence|]. rewrite Hg in Hg'. injection Hg' as ->.
    rewrite (Hnn k' v (maps_pair h1 k' v Hwf1 Hin)) in Hv. done.
Qed.

Lemma agrees_covers vc h1 h2 : wf h1 -> keyComparator h1 = keyComparator h2 -> agrees vc h1 h2 -> covers (keyComparator h1) (pairs h1) (pairs h2).
Proof. intros Hwf1 Ek Hag [k v] Hin. destruct (Hag k v (maps_pair h1 k v Hwf1 Hin)) as (v2 & (k2 & Hin2 & Hc) & _). exists (k2, v2). split; [done|]. by rewrite Ek. Qed.

(** C31: Equality of tables is equality of maps: for two well-formed tables with the same key and
    value comparators, [uhash_equals] returns true exactly when they have equal keys and the
    values of equal keys compare equal, provided that no value of the first table compares equal
    to the null that a search for an absent key ends at; the hash functions may differ. *)
Theorem uhash_equals_maps h1 h2 vc :
  wf h1 -> wf h2 -> valueComparator h1 = Some vc -> valueComparator h2 = Some vc -> keyComparator h1 = keyComparator h2 ->
  (forall k v, maps h1 k v -> compare_of vc v emptytok = false) ->
  exists b, uhash_equals h1 h2 = Some b /\
    (b = true <-> agrees vc h1 h2 /\ forall k v2, maps h2 k v2 -> exists v, maps h1 k v /\ compare_of vc v v2 = true).
Proof.
  intros Hwf1 Hwf2 Ev1 Ev2 Ek Hnn. destruct (equals_spec h1 h2 Hwf1 Hwf2) as (b & Hb & Hiff). exists b. split; [done|]. rewrite Hiff. clear Hiff Hb.
  pose proof (wf_distinct h1 Hwf1) as Hd1. pose proof (wf_distinct h2 Hwf2) as Hd2. rewrite <- Ek in Hd2. pose proof (wf_hash_ok h1 Hwf1) as Hok.
  split.
  - intros (vc' & Hv & _ & _ & Hc & Hall). rewrite Ev1 in Hv. injection Hv as <-. apply agrees_pairs in Hall as Hag; auto. split; [done|].
    intros k v2 Hm2. pose proof Hm2 as (k2 & Hin2 & Hk2).
    destruct (covers_back (keyHasher h1) _ (pairs h1) (pairs h2) Hok Hd1 Hd2 (agrees_covers vc h1 h2 Hwf1 Ek Hag)) with (k2, v2) as ([k1 v1] & Hin1 & Hk1); auto.
    { rewrite (wf_count h1 Hwf1), (wf_count h2 Hwf2) in Hc. unfold zlen in Hc. lia. }
    assert (Hm1 : maps h1 k v1) by (exists k1; split; [done|]; eapply (ho_trans _ _ Hok); [rewrite Ek; exact Hk2|exact Hk1]).
    exists v1. split; [done|]. destruct (Hag k v1 Hm1) as (v2' & Hm2' & Hc'). by rewrite (maps_functional h2 k v2 v2' Hwf2 Hm2 Hm2').
  - intros [Hag Hback]. exists vc. split_and!; auto; [|by apply agrees_pairs].
    rewrite (wf_count h1 Hwf1), (wf_count h2 Hwf2). unfold zlen. pose proof (covers_le _ _ _ _ Hok Hd1 Hd2 (agrees_covers vc h1 h2 Hwf1 Ek Hag)) as Hle.
    assert (Hcov : covers (keyComparator h1) (pairs h2) (pairs h1)).
    { intros [k2 v2] Hin2. destruct (Hback k2 v2 (maps_pair h2 k2 v2 Hwf2 Hin2)) as (v & (k1 & Hin1 & Hc) & _). by exists (k1, v). }
    pose proof (covers_le _ _ _ _ Hok Hd2 Hd1 Hcov). lia.
Qed.
End Table.

(** ** Examples *)

Section Examples.
#[local] Existing Instance words.
#[local] Existing Instance big_heap.

(** A table with two pairs. *)
Definition fill (a b : list Z) : list (op (A := list Z)) := [Put (word a) (Some a); Put (word b) (Some b)].

Lemma filled (a b : list Z) :
  exists h', wf (CB := words) h' /\ keyComparator h' = CompareUChars /\ pairs h' ≡ₚ (a_run (CB := words) CompareUChars false [] (fill a b)).2.
Proof.
  destruct (opened_run (CB := words) CompareUChars false HashUChars None true (fill a b)) as (h & h' & _ & _ & [Hwf _ _ _ Hp Hc _]).
  - exact big_heap_grants.
  - apply uchars_ok.
  - ops_ok.
  - vm_compute. discriminate.
  - by exists h'.
Qed.

Lemma uhash_find_terminates_witness :
  exists h, wf (CB := words) h /\ exists cells i e, elements h = Some cells /\ zget cells i = Some e /\
    (forall n, length h <= Z.of_nat n ->
      find_loop n h cells (word [97]) (masked (hash_of (keyHasher h) (word [97]))) (start_of (length h) (masked (hash_of (keyHasher h) (word [97]))))
        (start_of (length h) (masked (hash_of (keyHasher h) (word [97])))) 0 (-1) = Some (Some i)) /\
    _uhash_find h (word [97]) (hash_of (keyHasher h) (word [97])) = Some (Some i) /\
    (live_e e = true /\ compare_of (keyComparator h) (word [97]) (key e) = true \/ free_e e /\ forall v, ~ maps h (word [97]) v).
Proof.
  destruct (filled [97] [98]) as (h & Hwf & _ & _). exists h. split; [exact Hwf|]. apply (uhash_find_terminates (CB := words) h (word [97])). exact Hwf.
Defined.

Lemma uhash_iteration_complete_witness :
  exists h ps, pairs (CB := words) h ≡ₚ [(word [98], word [98]); (word [97], word [97])] /\
    iterate (S (Z.to_nat (uhash_count h))) h UHASH_FIRST = Some ps /\ zlen ps = uhash_count h /\ distinct (keyComparator h) ps /\
    forall k v, maps h k v <-> exists k', (k', v) ∈ ps /\ compare_of (keyComparator h) k k' = true.
Proof.
  destruct (filled [97] [98]) as (h & Hwf & _ & Hp). destruct (uhash_iteration_complete (CB := words) h Hwf) as (ps & Hps). exists h, ps. split; [exact Hp|exact Hps].
Defined.

Definition compared (h : t (list Z)) : t (list Z) := (uhash_setValueComparator h (Some CompareUChars)).2.

Lemma compared_wf h : wf (CB := words) h -> wf (CB := words) (compared h).
Proof. intros (cells & Ec & Hwa). exists cells. split; [done|]. destruct Hwa. by split. Qed.

(** Filled in another order: the same map. *)
Lemma uhash_equals_maps_witness :
  exists h1 h2, pairs (CB := words) h1 ≡ₚ [(word [98], word [98]); (word [97], word [97])] /\ pairs (CB := words) h2 ≡ₚ [(word [97], word [97]); (word [98], word [98])] /\
    exists b, uhash_equals h1 h2 = Some b /\
      (b = true <-> agrees CompareUChars h1 h2 /\ forall k v2, maps h2 k v2 -> exists v, maps h1 k v /\ compare_of CompareUChars v v2 = true).
Proof.
  destruct (filled [97] [98]) as (h1 & Hwf1 & Hc1 & Hp1). destruct (filled [98] [97]) as (h2 & Hwf2 & Hc2 & Hp2). exists (compared h1), (compared h2).
  split; [exact Hp1|]. split; [exact Hp2|]. apply (uhash_equals_maps (CB := words) (compared h1) (compared h2) CompareUChars).
  - by apply compared_wf.
  - by apply compared_wf.
  - done.
  - done.
  - by transitivity CompareUChars.
  - intros k v (k' & Hin & _). change (pairs (compared h1)) with (pairs h1) in Hin. rewrite Hp1 in Hin. apply elem_of_cons in Hin as [[= _ ->]|[[= _ ->]|Hin%not_elem_of_nil]%elem_of_cons]; done.
Defined.

(** Without that proviso different maps can be equal: with integers as values, a table that maps
    one key to zero and one that maps another key to zero. *)
Definition with_zero (k : Z) : option (t (list Z)) :=
  '(r, _) ← uhash_open (CB := words) HashLong CompareLong (Some CompareLong) U_ZERO_ERROR; h ← r;
  '(_, h, _) ← uhash_puti h (Int k) 0 U_ZERO_ERROR; Some h.

Example equal_to_absent_zero : (h1 ← with_zero 1; h2 ← with_zero 2; uhash_equals h1 h2) = Some true.
Proof. vm_compute. reflexivity. Qed.
End Examples.

Section Refusal.
#[local] Existing Instance words.

(** An allocator with no room for the second array. *)
Definition small_heap : Heap := {| alloc_ok := fun n => n <=? 24 * 127; junk := 0 |}.

Definition refused_growth : option (UErrorCode * Z * Z) :=
  h ← run_new (HP := small_heap) (CB := words) CompareLong false HashLong None false numbers;
  '(_, h, st) ← uhash_puti (HP := small_heap) h (Int 64) 64 U_ZERO_ERROR; Some (st, length h, primeIndex h).

(** A rehash that fails restores the array and the length, but not [primeIndex]. *)
Example refused_rehash_moves_index : refused_growth = Some (U_MEMORY_ALLOCATION_ERROR, 127, DEFAULT_PRIME_INDEX + 1).
Proof. vm_compute. reflexivity. Qed.
End Refusal.
End UHashEquals.
