(* ===== verification/StringConv.v ===== *)
(** * Conversion between 16-bit and 8-bit strings (common/ustrtrns.cpp)

    [u_strFromUTF8WithSub] and [u_strToUTF8WithSub] with their loops: the unchecked fast loop
    while there is plenty of room, the careful loop near the end of a buffer, the loop that only
    counts what no longer fits, and the variants for NUL-terminated text.  A pointer is an index
    into its array, a buffer is the list of its cells; [None] is an access outside an array or a
    signed overflow, and an early [return NULL] is an [inl] with what was written so far. *)

From S2P Require Import Prelude Utf16 UString Utf8.
Import Utf16 Utf8.

Module StringConv.

(** What the caller finds after the call: the buffer, [*pDestLength] and [*pNumSubstitutions]
    if they were written, the error code, and whether [dest] was returned. *)
Record result := Result {
  r_dest : option (list Z);
  r_length : option Z;
  r_subs : option Z;
  r_code : UErrorCode;
  r_ok : bool
}.

(** The cursors of the loops: [pSrc], the buffer, [pDest-dest], [reqLength], [numSubstitutions]. *)
Record state := State { c_src : Z; c_dest : list Z; c_at : Z; c_req : Z; c_subs : Z }.

(** [*pErrorCode = e; return NULL;] *)
Notation loop_result := (option ((UErrorCode * list Z) + state)).

(** ** From UTF-8 *)

(** The switches of the two functions below: the value so far and whether it is illegal. *)
Definition terminated_1 (s : list Z) (i c : Z) : option (Z * Z * bool) :=
  x ← zget s i; let trail := uint8 (x - 0x80) in
  Some (i + 1, Z.lor (Z.shiftl c 6) trail, 0x3f <? trail).
Definition terminated_2 (s : list Z) (i c : Z) : option (Z * Z * bool) :=
  x ← zget s i; let trail := uint8 (x - 0x80) in
  if 0x3f <? trail then Some (i + 1, c, true) else terminated_1 s (i + 1) (Z.lor (Z.shiftl c 6) trail).
Definition terminated_3 (s : list Z) (i c : Z) : option (Z * Z * bool) :=
  x ← zget s i; let trail := uint8 (x - 0x80) in
  let c := Z.lor (Z.shiftl c 6) trail in
  if (0x3f <? trail) || (0x110 <=? c) then Some (i + 1, c, true) else terminated_2 s (i + 1) c.

(** [if(illegal || c<utf8_minLegal[count] || U_IS_SURROGATE(c))] *)
Definition bad_value (illegal : bool) (c count : Z) : option bool :=
  if illegal then Some true
  else minimum ← zget utf8_minLegal count; Some ((c <? minimum) || U_IS_SURROGATE c).

Definition utf8_nextCharSafeBodyTerminated (s : list Z) (ps c : Z) : option (Z * Z) :=
  let count := U8_COUNT_TRAIL_BYTES c in
  let c := U8_MASK_LEAD_BYTE c count in
  if count =? 0 then Some (U_SENTINEL, ps)
  else
    '(i, c, illegal) ←
      (if 4 <=? count then Some (ps, c, true)
       else if count =? 3 then terminated_3 s ps c
       else if count =? 2 then terminated_2 s ps c
       else terminated_1 s ps c);
    bad ← bad_value illegal c count;
    if (bad : bool) then i ← skip_trails (Z.to_nat count) s ps; Some (U_SENTINEL, i) else Some (c, i).

Definition pointer_1 (s : list Z) (i c illegal : Z) : option (Z * Z * Z) :=
  trail ← zget s i;
  Some (i + 1, Z.lor (Z.shiftl c 6) (Z.land trail 0x3f), Z.lor illegal (Z.lxor (Z.land trail 0xc0) 0x80)).
Definition pointer_2 (s : list Z) (i c illegal : Z) : option (Z * Z * Z) :=
  '(i, c, illegal) ← pointer_1 s i c illegal; pointer_1 s i c illegal.
Definition pointer_3 (s : list Z) (i c illegal : Z) : option (Z * Z * Z) :=
  trail ← zget s i;
  let c := Z.lor (Z.shiftl c 6) (Z.land trail 0x3f) in
  if c <? 0x110 then pointer_2 s (i + 1) c (Z.lor illegal (Z.lxor (Z.land trail 0xc0) 0x80))
  else Some (i + 1, c, 1).

(** [while(count>0 && s<limit && U8_IS_TRAIL( *s)) { ++s; --count; }] *)
Fixpoint skip_trails_until (count : nat) (s : list Z) (i limit : Z) : option Z :=
  match count with
  | O => Some i
  | S count =>
      if i <? limit then
        x ← zget s i; if U8_IS_TRAIL x then skip_trails_until count s (i + 1) limit else Some i
      else Some i
  end.

Definition utf8_nextCharSafeBodyPointer (s : list Z) (ps limit c : Z) : option (Z * Z) :=
  let count := U8_COUNT_TRAIL_BYTES c in
  if (count <=? limit - ps) && (count =? 0) then Some (U_SENTINEL, ps)
  else
    '(i, c, illegal) ←
      (if count <=? limit - ps then
         let c := U8_MASK_LEAD_BYTE c count in
         if 4 <=? count then Some (ps, c, 1)
         else if count =? 3 then pointer_3 s ps c 0
         else if count =? 2 then pointer_2 s ps c 0
         else pointer_1 s ps c 0
       else Some (ps, c, 1));
    bad ← bad_value (negb (illegal =? 0)) c count;
    if (bad : bool) then i ← skip_trails_until (Z.to_nat count) s ps limit; Some (U_SENTINEL, i) else Some (c, i).

(** The byte at [pSrc], and the code point and the new [pSrc] when the code decodes it inline:
    ASCII, U+1000..U+CFFF and U+0080..U+07FF.  [room n] is the test that [n] bytes are left. *)
Definition inline8 (room : Z -> bool) (s : list Z) (i : Z) : option (Z * option (Z * Z)) :=
  ch ← zget s i;
  r ← (if ch <=? 0x7f then Some (Some (ch, i + 1))
       else if 0xe0 <? ch then
         if (ch <=? 0xec) && room 3 then
           x1 ← zget s (i + 1);
           if uint8 (x1 - 0x80) <=? 0x3f then
             x2 ← zget s (i + 2);
             Some (if uint8 (x2 - 0x80) <=? 0x3f
                   then Some (uint16 (Z.lor (Z.lor (Z.shiftl ch 12) (Z.shiftl (uint8 (x1 - 0x80)) 6)) (uint8 (x2 - 0x80))), i + 3)
                   else None)
           else Some None
         else Some None
       else if ch <? 0xe0 then
         if (0xc2 <=? ch) && room 2 then
           x1 ← zget s (i + 1);
           Some (if uint8 (x1 - 0x80) <=? 0x3f
                 then Some (uint16 (Z.lor (Z.shiftl (Z.land ch 0x1f) 6) (uint8 (x1 - 0x80))), i + 2) else None)
         else Some None
       else Some None);
  Some (ch, r).

(** [if(ch<0 && (++numSubstitutions, ch = subchar) < 0)]: [None] is the invalid character. *)
Definition substitute (subchar ch subs : Z) : option (Z * Z) :=
  if ch <? 0 then if subchar <? 0 then None else Some (subchar, subs + 1) else Some (ch, subs).

(** One character: inline, or by the function [body]. *)
Definition read8 (room : Z -> bool) (body : list Z -> Z -> Z -> option (Z * Z)) (s : list Z)
    (subchar i subs : Z) : option (option (Z * Z * Z)) :=
  '(ch, r) ← inline8 room s i;
  match r with
  | Some (ch, i) => Some (Some (ch, i, subs))
  | None =>
      '(ch, i) ← body s (i + 1) ch;
      Some (match substitute subchar ch subs with Some (ch, subs) => Some (ch, i, subs) | None => None end)
  end.

(** The units of [ch] at [pDest], the trail surrogate only if it fits; whether it did. *)
Definition write16 (ch limit : Z) (d : list Z) (k : Z) : option (list Z * Z * bool) :=
  if ch <=? 0xffff then d ← zset d k (uint16 ch); Some (d, k + 1, true)
  else
    d ← zset d k (U16_LEAD ch);
    if k + 1 <? limit then d ← zset d (k + 1) (U16_TRAIL ch); Some (d, k + 2, true)
    else Some (d, k + 1, false).

(** The loop that writes: [more i] is the condition on [pSrc]. *)
Fixpoint write_loop8 (fuel : nat) (room : Z -> Z -> bool) (body : list Z -> Z -> Z -> option (Z * Z))
    (more : Z -> option bool) (s : list Z) (subchar limit : Z) (st : state) : loop_result :=
  match fuel with
  | O => None
  | S fuel =>
      go ← more (c_src st);
      if (go : bool) && (c_at st <? limit) then
        r ← read8 (room (c_src st)) body s subchar (c_src st) (c_subs st);
        match r with
        | None => Some (inl (U_INVALID_CHAR_FOUND, c_dest st))
        | Some (ch, i, subs) =>
            '(d, k, fit) ← write16 ch limit (c_dest st) (c_at st);
            if (fit : bool) then write_loop8 fuel room body more s subchar limit (State i d k (c_req st) subs)
            else req ← checked (c_req st + 1); Some (inr (State i d k req subs))
        end
      else Some (inr st)
  end.

(** The loop that counts the rest. *)
Fixpoint count_loop8 (fuel : nat) (room : Z -> Z -> bool) (body : list Z -> Z -> Z -> option (Z * Z))
    (more : Z -> option bool) (s : list Z) (subchar : Z) (st : state) : loop_result :=
  match fuel with
  | O => None
  | S fuel =>
      go ← more (c_src st);
      if (go : bool) then
        r ← read8 (room (c_src st)) body s subchar (c_src st) (c_subs st);
        match r with
        | None => Some (inl (U_INVALID_CHAR_FOUND, c_dest st))
        | Some (ch, i, subs) =>
            req ← checked (c_req st + U16_LENGTH ch);
            count_loop8 fuel room body more s subchar (State i (c_dest st) (c_at st) req subs)
        end
      else Some (inr st)
  end.

(** The inner fast loop: [count] characters, at most one unit and three bytes each. *)
Fixpoint fast_inner8 (fuel : nat) (s : list Z) (srcLimit subchar count : Z) (st : state) : loop_result :=
  match fuel with
  | O => None
  | S fuel =>
      let next count st :=
        let count := count - 1 in
        if 0 <? count then fast_inner8 fuel s srcLimit subchar count st else Some (inr st) in
      '(ch, r) ← inline8 (fun _ => true) s (c_src st);
      match r with
      | Some (ch, i) =>
          d ← zset (c_dest st) (c_at st) (uint16 ch);
          next count (State i d (c_at st + 1) (c_req st) (c_subs st))
      | None =>
          let wide := (0xf0 <=? ch) || (0xffff <? subchar) in
          let count := if wide then count - 1 else count in
          if wide && (count =? 0) then Some (inr st)
          else
            '(ch, i) ← utf8_nextCharSafeBodyPointer s (c_src st + 1) srcLimit ch;
            match substitute subchar ch (c_subs st) with
            | None => Some (inl (U_INVALID_CHAR_FOUND, c_dest st))
            | Some (ch, subs) =>
                '(d, k) ←
                  (if ch <=? 0xffff then d ← zset (c_dest st) (c_at st) (uint16 ch); Some (d, c_at st + 1)
                   else d ← zset (c_dest st) (c_at st) (U16_LEAD ch);
                        d ← zset d (c_at st + 1) (U16_TRAIL ch); Some (d, c_at st + 2));
                next count (State i d k (c_req st) subs)
            end
      end
  end.

(** The outer fast loop: recompute [count] until it is too small. *)
Fixpoint fast_loop8 (fuel : nat) (s : list Z) (srcLimit subchar limit : Z) (st : state) : loop_result :=
  match fuel with
  | O => None
  | S fuel =>
      let count := limit - c_at st in
      let srcLength := Z.quot (srcLimit - c_src st) 3 in
      let count := if srcLength <? count then srcLength else count in
      if count <? 3 then Some (inr st)
      else
        r ← fast_inner8 (Z.to_nat count) s srcLimit subchar count st;
        match r with inl e => Some (inl e) | inr st => fast_loop8 fuel s srcLimit subchar limit st end
  end.

(** Running a loop after another, unless it returned. *)
Definition andThen (r : loop_result) (f : state -> loop_result) : loop_result :=
  r ← r; match r with inl e => Some (inl e) | inr st => f st end.

Definition u_strFromUTF8WithSub (dest : option (list Z)) (destCapacity : Z) (src : option (list Z))
    (srcLength subchar : Z) (pErrorCode : UErrorCode) : option result :=
  if U_FAILURE pErrorCode then Some (Result dest None None pErrorCode false)
  else if (match src with None => negb (srcLength =? 0) | Some _ => false end) || (srcLength <? -1) ||
          (destCapacity <? 0) || (match dest with None => 0 <? destCapacity | Some _ => false end) ||
          (0x10ffff <? subchar) || U_IS_SURROGATE (uint32 subchar)
  then Some (Result dest None None U_ILLEGAL_ARGUMENT_ERROR false)
  else
    let s := default [] src in
    let fuel := S (length s) in
    let st := State 0 (default [] dest) 0 0 0 in
    r ← (if srcLength <? 0 then
           let room _ _ := true in
           let body s i ch := utf8_nextCharSafeBodyTerminated s i ch in
           let more i := ch ← zget s i; Some (negb (ch =? 0)) in
           andThen (write_loop8 fuel room body more s subchar destCapacity st)
             (count_loop8 fuel room body more s subchar)
         else
           let room i n := n <=? srcLength - i in
           let body s i ch := utf8_nextCharSafeBodyPointer s i srcLength ch in
           let more i := Some (i <? srcLength) in
           andThen (fast_loop8 fuel s srcLength subchar destCapacity st) (fun st =>
           andThen (write_loop8 fuel room body more s subchar destCapacity st)
             (count_loop8 fuel room body more s subchar)));
    match r with
    | inl (e, d) => Some (Result (match dest with Some _ => Some d | None => None end) None (Some 0) e false)
    | inr st =>
        reqLength ← checked (c_req st + c_at st);
        '(d, n, e) ← ustring.u_terminateUChars (match dest with Some _ => Some (c_dest st) | None => None end)
                       destCapacity reqLength pErrorCode;
        Some (Result d (Some n) (Some (c_subs st)) e true)
    end.

Definition u_strFromUTF8 (dest : option (list Z)) (destCapacity : Z) (src : option (list Z)) (srcLength : Z)
    (pErrorCode : UErrorCode) : option result :=
  u_strFromUTF8WithSub dest destCapacity src srcLength U_SENTINEL pErrorCode.

(** ** To UTF-8 *)

(** [_appendUTF8], and the same stores written out in the loops. *)
Definition appendUTF8 (d : list Z) (k c : Z) : option (list Z * Z) :=
  if c <=? 0x7f then put_bytes d k [c]
  else if c <=? 0x7ff then put_bytes d k [lead_2 c; trail_6 c]
  else if c <=? 0xffff then put_bytes d k [lead_3 c; trail_6 (Z.shiftr c 6); trail_6 c]
  else put_bytes d k [lead_4 c; trail_6 (Z.shiftr c 12); trail_6 (Z.shiftr c 6); trail_6 c].

(** The character at [pSrc], whose unit [ch] has just been read: the inner [None] is an
    unpaired surrogate that [subchar] does not replace.  [more] is the test for a next unit. *)
Definition read16 (more : Z -> bool) (s : list Z) (subchar ch i subs : Z) : option (option (Z * Z * Z)) :=
  if (ch <=? 0xd7ff) || (0xe000 <=? ch) then Some (Some (ch, i, subs))
  else
    pair ← (if U16_IS_SURROGATE_LEAD ch && more i then ch2 ← zget s i; Some (if U16_IS_TRAIL ch2 then Some ch2 else None)
            else Some None);
    Some (match pair with
          | Some ch2 => Some (U16_GET_SUPPLEMENTARY ch ch2, i + 1, subs)
          | None => if 0 <=? subchar then Some (subchar, i, subs + 1) else None
          end).

(** The loop that writes whole characters; at the first that does not fit, [reqLength] takes
    its length.  [next i] is the condition on [pSrc] with the unit read there. *)
Fixpoint write_loop16 (fuel : nat) (more : Z -> bool) (next : Z -> option (option Z)) (s : list Z)
    (subchar limit : Z) (st : state) : loop_result :=
  match fuel with
  | O => None
  | S fuel =>
      ch ← next (c_src st);
      match ch with
      | None => Some (inr st)
      | Some ch =>
          r ← read16 more s subchar ch (c_src st + 1) (c_subs st);
          match r with
          | None => Some (inl (U_INVALID_CHAR_FOUND, c_dest st))
          | Some (ch, i, subs) =>
              if U8_LENGTH ch <=? limit - c_at st then
                '(d, k) ← appendUTF8 (c_dest st) (c_at st) ch;
                write_loop16 fuel more next s subchar limit (State i d k (c_req st) subs)
              else Some (inr (State i (c_dest st) (c_at st) (U8_LENGTH ch) subs))
          end
      end
  end.

(** The loop that counts the rest. *)
Fixpoint count_loop16 (fuel : nat) (more : Z -> bool) (next : Z -> option (option Z)) (s : list Z)
    (subchar : Z) (st : state) : loop_result :=
  match fuel with
  | O => None
  | S fuel =>
      ch ← next (c_src st);
      match ch with
      | None => Some (inr st)
      | Some ch =>
          r ← read16 more s subchar ch (c_src st + 1) (c_subs st);
          match r with
          | None => Some (inl (U_INVALID_CHAR_FOUND, c_dest st))
          | Some (ch, i, subs) =>
              req ← checked (c_req st + U8_LENGTH ch);
              count_loop16 fuel more next s subchar (State i (c_dest st) (c_at st) req subs)
          end
      end
  end.

(** The inner fast loop: [count] units, at most three bytes each; a surrogate counts twice. *)
Fixpoint fast_inner16 (fuel : nat) (s : list Z) (subchar count : Z) (st : state) : loop_result :=
  match fuel with
  | O => None
  | S fuel =>
      ch ← zget s (c_src st);
      let surrogate := negb ((ch <=? 0xd7ff) || (0xe000 <=? ch)) in
      let count := if surrogate then count - 1 else count in
      if surrogate && (count =? 0) then Some (inr st)
      else
        r ← read16 (fun _ => true) s subchar ch (c_src st + 1) (c_subs st);
        match r with
        | None => Some (inl (U_INVALID_CHAR_FOUND, c_dest st))
        | Some (ch, i, subs) =>
            '(d, k) ← appendUTF8 (c_dest st) (c_at st) ch;
            let st := State i d k (c_req st) subs in
            let count := count - 1 in
            if 0 <? count then fast_inner16 fuel s subchar count st else Some (inr st)
        end
  end.

Fixpoint fast_loop16 (fuel : nat) (s : list Z) (srcLimit subchar limit : Z) (st : state) : loop_result :=
  match fuel with
  | O => None
  | S fuel =>
      let count := Z.quot (limit - c_at st) 3 in
      let srcLength := srcLimit - c_src st in
      let count := if srcLength <? count then srcLength else count in
      if count <? 3 then Some (inr st)
      else
        r ← fast_inner16 (Z.to_nat count) s subchar count st;
        match r with inl e => Some (inl e) | inr st => fast_loop16 fuel s srcLimit subchar limit st end
  end.

Definition u_strToUTF8WithSub (dest : option (list Z)) (destCapacity : Z) (pSrc : option (list Z))
    (srcLength subchar : Z) (pErrorCode : UErrorCode) : option result :=
  if U_FAILURE pErrorCode then Some (Result dest None None pErrorCode false)
  else if (match pSrc with None => negb (srcLength =? 0) | Some _ => false end) || (srcLength <? -1) ||
          (destCapacity <? 0) || (match dest with None => 0 <? destCapacity | Some _ => false end) ||
          (0x10ffff <? subchar) || U_IS_SURROGATE (uint32 subchar)
  then Some (Result dest None None U_ILLEGAL_ARGUMENT_ERROR false)
  else
    let s := default [] pSrc in
    let fuel := S (length s) in
    let st := State 0 (default [] dest) 0 0 0 in
    r ← (if srcLength =? -1 then
           let more _ := true in
           let next i := ch ← zget s i; Some (if ch =? 0 then None else Some ch) in
           andThen (write_loop16 fuel more next s subchar destCapacity st)
             (count_loop16 fuel more next s subchar)
         else
           let more i := i <? srcLength in
           let next i := if i <? srcLength then ch ← zget s i; Some (Some ch) else Some None in
           andThen (fast_loop16 fuel s srcLength subchar destCapacity st) (fun st =>
           andThen (write_loop16 fuel more next s subchar destCapacity st)
             (count_loop16 fuel more next s subchar)));
    match r with
    | inl (e, d) => Some (Result (match dest with Some _ => Some d | None => None end) None (Some 0) e false)
    | inr st =>
        reqLength ← checked (c_req st + c_at st);
        '(d, n, e) ← ustring.u_terminateUChars (match dest with Some _ => Some (c_dest st) | None => None end)
                       destCapacity reqLength pErrorCode;
        Some (Result d (Some n) (Some (c_subs st)) e true)
    end.

Definition u_strToUTF8 (dest : option (list Z)) (destCapacity : Z) (pSrc : option (list Z)) (srcLength : Z)
    (pErrorCode : UErrorCode) : option result :=
  u_strToUTF8WithSub dest destCapacity pSrc srcLength U_SENTINEL pErrorCode.

End StringConv.
