(* ===== verification/StringConvFacts.v ===== *)
(** * The conversions compute the encoding forms

    Every loop of [StringConv.v] reads the same pieces or code points, so the buffers and lengths
    that the functions leave are those of the plain definitions [decode8] and [encode8], with
    substitution, truncation and errors as documented. *)

From S2P Require Import Prelude Utf16 UString Utf8 StringConv.
Import Utf16 Utf8 StringConv.

Module StringConvFacts.

(** ** The functions behind the conversion loops *)

Lemma more_bits c t : byte8 t -> U8_IS_TRAIL t = true -> Z.lor (Z.shiftl c 6) (Z.land t 0x3f) = more c t.
Proof. intros Hb Ht. rewrite trail_bits, <- (uint8_trail t) by done. by apply lor_more. Qed.

Lemma trail_flag t : byte8 t -> (Z.lxor (Z.land t 0xc0) 0x80 =? 0) = U8_IS_TRAIL t.
Proof. check_bytes t. Qed.

Lemma surrogate_bool c : 0 <= c <= 0x10ffff -> U_IS_SURROGATE c = (0xd800 <=? c) && (c <=? 0xdfff).
Proof. intros Hc. apply eq_true_iff_eq. rewrite surrogate_range, andb_true_iff, !Z.leb_le by lia. done. Qed.

(** The final test of both functions, on a complete sequence. *)
Lemma bad_value_spec b ts c count :
  byte8 b -> 0x80 <= b -> zlen ts = count -> count = U8_COUNT_TRAIL_BYTES b -> 1 <= count <= 3 ->
  c = seq_value b ts -> 0 <= c <= 0x10ffff ->
  exists bad, bad_value false c count = Some bad /\
    piece_value (-1) (b :: ts) = if bad then U_SENTINEL else c.
Proof.
  intros Hb Hge Hl Hc Hr Hv Hcr. unfold bad_value.
  destruct (zget_is_Some utf8_minLegal count) as [m Hm]; [change (zlen utf8_minLegal) with 4; lia|].
  rewrite Hm. cbn [mbind option_bind]. eexists. split; [done|]. rewrite piece_value_multi, <- Hc, Hl, <- Hv by done.
  destruct (Z.eqb_spec count count), (Z.leb_spec 1 count), (Z.leb_spec count 3); try lia. cbn [andb].
  rewrite legal_12 by lia. rewrite Hm. cbn [from_option id]. unfold surrogate_ok. rewrite surrogate_bool by done.
  rewrite (Z.ltb_antisym m c). change (-1 =? -2) with false. cbn [orb]. change (error8 (-1)) with U_SENTINEL.
  destruct (m <=? c), ((0xd800 <=? c) && _); done.
Qed.

Lemma incomplete_piece b ts : 0x80 <= b -> zlen ts <> U8_COUNT_TRAIL_BYTES b -> piece_value (-1) (b :: ts) = U_SENTINEL.
Proof. intros Hb Hn. rewrite piece_value_multi by done. by destruct (Z.eqb_spec (zlen ts) (U8_COUNT_TRAIL_BYTES b)). Qed.

Lemma large_piece b ts : 0x80 <= b -> 0x10ffff < seq_value b ts -> piece_value (-1) (b :: ts) = U_SENTINEL.
Proof.
  intros Hb Hn. rewrite piece_value_multi by done. unfold legal.
  destruct (Z.leb_spec (seq_value b ts) 0x10ffff); [lia|]. by rewrite andb_false_r, andb_false_l, andb_false_r.
Qed.

Lemma long_piece b ts : 0x80 <= b -> U8_COUNT_TRAIL_BYTES b = 0 \/ 4 <= U8_COUNT_TRAIL_BYTES b ->
  piece_value (-1) (b :: ts) = U_SENTINEL.
Proof.
  intros Hb Hn. rewrite piece_value_multi by done.
  destruct (Z.leb_spec 1 (U8_COUNT_TRAIL_BYTES b)), (Z.leb_spec (U8_COUNT_TRAIL_BYTES b) 3); try lia; by rewrite ?andb_false_r.
Qed.

Lemma seq_value_range b ts :
  byte8 b -> 0x80 <= b -> zlen ts = U8_COUNT_TRAIL_BYTES b -> 1 <= zlen ts <= 2 ->
  Forall (fun t => 0x80 <= t <= 0xbf) ts -> 0 <= seq_value b ts <= 0xffff.
Proof.
  intros Hb Hge Hl Hr Ha. unfold seq_value. rewrite fold_more. pose proof (fold_more_range ts Ha) as Hf.
  pose proof (lead_bits_range b Hb) as Hbits. rewrite <- Hl in Hbits.
  assert (zlen ts = 1 \/ zlen ts = 2) as [E|E] by lia; rewrite E in *; lia.
Qed.

(** *** The NUL-terminated one *)

(** What the switch leaves: illegal, or the value of a complete sequence. *)
Definition switch_result (p u : list Z) (b : Z) (r : option (Z * Z * bool)) : Prop :=
  exists i c illegal, r = Some (i, c, illegal) /\
    ((illegal = true /\ piece_value (-1) (b :: own_trails b u) = U_SENTINEL) \/
     (illegal = false /\ U8_COUNT_TRAIL_BYTES b <= 3 /\ zlen (own_trails b u) = U8_COUNT_TRAIL_BYTES b /\ c = seq_value b (own_trails b u) /\
      0 <= c <= 0x10ffff /\ i = zlen p + zlen (own_trails b u))).

Lemma own_trails_range b u : Forall byte8 u -> Forall (fun t => 0x80 <= t <= 0xbf) (own_trails b u).
Proof. apply take_trails_range. Qed.

Lemma terminated_1_spec q v c :
  Forall byte8 v -> enough 1 v ->
  exists i c' bad, terminated_1 (q ++ v) (zlen q) c = Some (i, c', bad) /\
    match take_trails 1 v with [t] => bad = false /\ c' = more c t /\ i = zlen q + 1 | _ => bad = true end.
Proof.
  intros Hv He. destruct v as [|x v]; [by apply enough_nil in He|]. apply Forall_cons in Hv as [Hx _].
  unfold terminated_1. rewrite zget_middle. cbn [mbind option_bind take_trails]. rewrite trail_offset_gt by done.
  eexists _, _, _. split; [done|]. destruct (U8_IS_TRAIL x) eqn:Et; [|done]. by rewrite lor_more.
Qed.

Lemma terminated_2_spec q v c :
  Forall byte8 v -> enough 2 v ->
  exists i c' bad, terminated_2 (q ++ v) (zlen q) c = Some (i, c', bad) /\
    match take_trails 2 v with
    | [t; t'] => bad = false /\ c' = more (more c t) t' /\ i = zlen q + 2
    | _ => bad = true
    end.
Proof.
  intros Hv He. destruct v as [|x v]; [by apply enough_nil in He|]. apply Forall_cons in Hv as [Hx Hv].
  unfold terminated_2. rewrite zget_middle. cbn [mbind option_bind]. rewrite trail_offset_gt by done.
  change (take_trails 2 (x :: v)) with (if U8_IS_TRAIL x then x :: take_trails 1 v else []).
  destruct (U8_IS_TRAIL x) eqn:Et; cbn [negb]; [|by eexists _, _, _]. rewrite lor_more by done.
  destruct (terminated_1_spec (q ++ [x]) v (more c x)) as (i & c' & bad & E & Hr); [done|by eapply enough_cons|].
  rewrite <- snoc_app, zlen_snoc in E. exists i, c', bad. split; [done|].
  destruct (take_trails 1 v) as [|t [|]]; try done. rewrite zlen_snoc in Hr. destruct Hr as (? & ? & ?). split_and!; auto; lia.
Qed.

Lemma terminated_3_spec q v c :
  Forall byte8 v -> enough 3 v ->
  exists i c' bad, terminated_3 (q ++ v) (zlen q) c = Some (i, c', bad) /\
    match take_trails 3 v with
    | [t; t'; t''] => bad = (0x110 <=? more c t) /\
                      (bad = false -> c' = more (more (more c t) t') t'' /\ i = zlen q + 3)
    | _ => bad = true
    end.
Proof.
  intros Hv He. destruct v as [|x v]; [by apply enough_nil in He|]. apply Forall_cons in Hv as [Hx Hv].
  unfold terminated_3. rewrite zget_middle. cbn [mbind option_bind]. rewrite trail_offset_gt by done.
  change (take_trails 3 (x :: v)) with (if U8_IS_TRAIL x then x :: take_trails 2 v else []).
  destruct (U8_IS_TRAIL x) eqn:Et; cbn [negb orb]; [|by eexists _, _, _]. rewrite lor_more by done.
  destruct (0x110 <=? more c x).
  { eexists _, _, _. split; [done|]. by destruct (take_trails 2 v) as [|t [|t' [|]]]. }
  destruct (terminated_2_spec (q ++ [x]) v (more c x)) as (i & c' & bad & E & Hr); [done|by eapply enough_cons|].
  rewrite <- snoc_app, zlen_snoc in E. exists i, c', bad. split; [done|].
  destruct (take_trails 2 v) as [|t [|t' [|]]]; try done. rewrite zlen_snoc in Hr. destruct Hr as (? & ? & ?).
  split; [done|]. intros _. split; [done|lia].
Qed.

(** A sequence of three trail bytes is in range when its first two bytes are. *)
Lemma seq_value_3 b t t' t'' :
  byte8 b -> U8_COUNT_TRAIL_BYTES b = 3 -> Forall (fun t => 0x80 <= t <= 0xbf) [t; t'; t''] ->
  (0x110 <=? more (lead_bits b) t) = (0x10ffff <? seq_value b [t; t'; t'']) /\ 0 <= seq_value b [t; t'; t''].
Proof.
  intros Hb Hc Ha. pose proof (lead_bits_range b Hb) as Hl. rewrite Hc in Hl. rewrite !Forall_cons in Ha.
  unfold seq_value. cbn [fold_left]. unfold more. split; [|lia].
  apply eq_true_iff_eq. rewrite Z.leb_le, Z.ltb_lt. lia.
Qed.

Lemma terminated_switch p b u :
  byte8 b -> 0x80 <= b -> Forall byte8 u -> enough (trails_of b) u ->
  let count := U8_COUNT_TRAIL_BYTES b in
  1 <= count ->
  switch_result p u b
    (if 4 <=? count then Some (zlen p, lead_bits b, true)
     else if count =? 3 then terminated_3 (p ++ u) (zlen p) (lead_bits b)
     else if count =? 2 then terminated_2 (p ++ u) (zlen p) (lead_bits b)
     else terminated_1 (p ++ u) (zlen p) (lead_bits b)).
Proof.
  intros Hb Hge Hu He count H1. pose proof (own_trails_range b u Hu) as Ha. unfold switch_result.
  pose proof (take_trails_length (trails_of b) u) as Hl. fold (own_trails b u) in Hl.
  destruct (Z.leb_spec 4 count) as [H4|H4].
  { eexists _, _, _. split; [done|]. left. split; [done|]. apply long_piece; auto. }
  assert (Hshort : zlen (own_trails b u) <> count -> piece_value (-1) (b :: own_trails b u) = U_SENTINEL) by by apply incomplete_piece.
  unfold own_trails in *. fold count in Ha, Hl, He, Hshort |- *.
  destruct (Z.eqb_spec count 3) as [E|]; [|destruct (Z.eqb_spec count 2) as [E|]; [|assert (count = 1) as E by lia]]; rewrite E in *.
  - change (Z.to_nat 3) with 3%nat in *. destruct (terminated_3_spec p u (lead_bits b) Hu He) as (i & c & bad & -> & Hr).
    eexists _, _, _. split; [done|]. destruct (take_trails 3 u) as [|t [|t' [|t'' [|]]]] eqn:Et; try (left; split; [done|apply Hshort; unfold zlen; cbn [length]; cbn [length] in Hl; lia]). destruct Hr as [Hbad Hr].
    destruct (seq_value_3 b t t' t'' Hb E Ha) as [Hbig H0]. rewrite Hbig in Hbad. destruct (Z.ltb_spec 0x10ffff (seq_value b [t; t'; t''])).
    + left. split; [done|]. by apply large_piece.
    + right. destruct (Hr Hbad) as [-> ->]. split_and!; auto; lia.
  - change (Z.to_nat 2) with 2%nat in *. destruct (terminated_2_spec p u (lead_bits b) Hu He) as (i & c & bad & -> & Hr).
    eexists _, _, _. split; [done|]. destruct (take_trails 2 u) as [|t [|t' [|]]] eqn:Et; try (left; split; [done|apply Hshort; unfold zlen; cbn [length]; cbn [length] in Hl; lia]).
    destruct Hr as (-> & -> & ->). right.
    assert (0 <= seq_value b [t; t'] <= 0xffff) by (apply seq_value_range; [done|done|by fold count; rewrite E|by change (zlen [t; t']) with 2|done]).
    change (more _ t') with (seq_value b [t; t']). split_and!; auto; lia.
  - change (Z.to_nat 1) with 1%nat in *. destruct (terminated_1_spec p u (lead_bits b) Hu He) as (i & c & bad & -> & Hr).
    eexists _, _, _. split; [done|]. destruct (take_trails 1 u) as [|t [|]] eqn:Et; try (left; split; [done|apply Hshort; unfold zlen; cbn [length]; cbn [length] in Hl; lia]).
    destruct Hr as (-> & -> & ->). right.
    assert (0 <= seq_value b [t] <= 0xffff) by (apply seq_value_range; [done|done|by fold count; rewrite E|by change (zlen [t]) with 1|done]).
    change (more _ t) with (seq_value b [t]). split_and!; auto; lia.
Qed.

(** From the switch to the result of the function, errors included. *)
Lemma switch_finish p b u count (skip : option Z) r :
  byte8 b -> 0x80 <= b -> count = U8_COUNT_TRAIL_BYTES b -> 1 <= count ->
  switch_result p u b r -> skip = Some (zlen p + zlen (own_trails b u)) ->
  ('(i, c, illegal) ← r; bad ← bad_value illegal c count;
   if (bad : bool) then i ← skip; Some (U_SENTINEL, i) else Some (c, i)) =
    Some (piece_value (-1) (b :: own_trails b u), zlen p + zlen (own_trails b u)).
Proof.
  intros Hb Hge Hc H1 (i & c & illegal & -> & Hr) ->. cbn [mbind option_bind].
  destruct Hr as [[-> ->]|(-> & H3 & Hl & Hv & Hcr & ->)]; [done|].
  destruct (bad_value_spec b (own_trails b u) c count) as (bad & -> & ->); auto; [congruence|lia|].
  cbn [mbind option_bind]. by destruct bad.
Qed.

Lemma nextCharSafeBodyTerminated_spec p b u :
  byte8 b -> 0x80 <= b -> Forall byte8 u -> Exists (fun x => U8_IS_TRAIL x = false) u ->
  utf8_nextCharSafeBodyTerminated (p ++ u) (zlen p) b =
    Some (piece_value (-1) (b :: own_trails b u), zlen p + zlen (own_trails b u)).
Proof.
  intros Hb Hge Hu He. unfold utf8_nextCharSafeBodyTerminated. fold (lead_bits b). pose proof (count_range b Hb).
  destruct (Z.eqb_spec (U8_COUNT_TRAIL_BYTES b) 0) as [E|].
  { rewrite long_piece by auto. unfold own_trails. rewrite E. cbn. change (zlen (@nil Z)) with 0. by rewrite Z.add_0_r. }
  apply (switch_finish p b u (U8_COUNT_TRAIL_BYTES b) (skip_trails (trails_of b) (p ++ u) (zlen p))); auto; [lia| |].
  - apply terminated_switch; auto; [by right|lia].
  - apply skip_trails_spec. by right.
Qed.

(** *** The one with a limit *)

Lemma pointer_1_spec q x v c illegal :
  byte8 x -> exists c' illegal', pointer_1 (q ++ x :: v) (zlen q) c illegal = Some (zlen q + 1, c', illegal') /\
    (illegal' =? 0) = (illegal =? 0) && U8_IS_TRAIL x /\ (U8_IS_TRAIL x = true -> c' = more c x).
Proof.
  intros Hx. unfold pointer_1. rewrite zget_middle. cbn [mbind option_bind]. eexists _, _. split; [done|].
  split; [|by apply more_bits]. rewrite <- trail_flag by done. apply eq_true_iff_eq.
  rewrite andb_true_iff, !Z.eqb_eq. apply Z.lor_eq_0_iff.
Qed.

Lemma pointer_2_spec q x y v c illegal :
  byte8 x -> byte8 y ->
  exists c' illegal', pointer_2 (q ++ x :: y :: v) (zlen q) c illegal = Some (zlen q + 2, c', illegal') /\
    (illegal' =? 0) = (illegal =? 0) && U8_IS_TRAIL x && U8_IS_TRAIL y /\
    (U8_IS_TRAIL x = true -> U8_IS_TRAIL y = true -> c' = more (more c x) y).
Proof.
  intros Hx Hy. unfold pointer_2. destruct (pointer_1_spec q x (y :: v) c illegal Hx) as (c1 & i1 & -> & Hi1 & Hc1).
  cbn [mbind option_bind]. rewrite snoc_app, <- (zlen_snoc q x).
  destruct (pointer_1_spec (q ++ [x]) y v c1 i1 Hy) as (c2 & i2 & -> & Hi2 & Hc2). exists c2, i2.
  rewrite zlen_snoc. split; [f_equal; f_equal; f_equal; lia|]. rewrite Hi2, Hi1. split; [done|]. intros Ht1 Ht2.
  by rewrite Hc2, Hc1.
Qed.

Lemma pointer_3_spec q x y z v c :
  byte8 x -> byte8 y -> byte8 z ->
  exists i c' illegal', pointer_3 (q ++ x :: y :: z :: v) (zlen q) c 0 = Some (i, c', illegal') /\
    (illegal' = 0 -> U8_IS_TRAIL x = true /\ U8_IS_TRAIL y = true /\ U8_IS_TRAIL z = true /\
       c' = more (more (more c x) y) z /\ i = zlen q + 3 /\ more c x < 0x110) /\
    (U8_IS_TRAIL x = true -> U8_IS_TRAIL y = true -> U8_IS_TRAIL z = true -> more c x < 0x110 -> illegal' = 0).
Proof.
  intros Hx Hy Hz. unfold pointer_3. rewrite zget_middle. cbn [mbind option_bind].
  set (c1 := Z.lor (Z.shiftl c 6) (Z.land x 0x3f)).
  destruct (Z.ltb_spec c1 0x110) as [Hlt|Hge].
  - rewrite snoc_app, <- (zlen_snoc q x).
    destruct (pointer_2_spec (q ++ [x]) y z v c1 (Z.lor 0 (Z.lxor (Z.land x 0xc0) 0x80)) Hy Hz) as (c2 & i2 & -> & Hi2 & Hc2).
    rewrite Z.lor_0_l, trail_flag in Hi2 by done. eexists _, c2, i2. split; [done|]. split.
    + intros ->. rewrite Z.eqb_refl in Hi2. symmetry in Hi2. rewrite !andb_true_iff in Hi2. destruct Hi2 as [[H1 H2] H3].
      assert (c1 = more c x) as Hc1 by by apply more_bits. rewrite zlen_snoc, <- Hc1. split_and!; auto. lia.
    + intros H1 H2 H3 _. rewrite H1, H2, H3 in Hi2. cbn in Hi2. lia.
  - eexists _, _, _. split; [done|]. split; [done|]. intros H1 _ _ Hlt.
    assert (c1 = more c x) by by apply more_bits. lia.
Qed.

Lemma skip_trails_until_spec n p u tail :
  skip_trails_until n (p ++ u ++ tail) (zlen p) (zlen (p ++ u)) = Some (zlen p + zlen (take_trails n u)).
Proof.
  revert p u. induction n as [|n IH]; intros p u; cbn [skip_trails_until take_trails].
  { change (zlen (@nil Z)) with 0. by rewrite Z.add_0_r. }
  destruct u as [|x u].
  { rewrite app_nil_r, Z.ltb_irrefl. change (zlen (@nil Z)) with 0. by rewrite Z.add_0_r. }
  pose proof (zlen_nonneg u). destruct (Z.ltb_spec (zlen p) (zlen (p ++ x :: u))); [|rewrite zlen_app, zlen_cons in *; lia].
  cbn [app]. rewrite zget_middle. cbn [mbind option_bind].
  destruct (U8_IS_TRAIL x); [|change (zlen (@nil Z)) with 0; by rewrite Z.add_0_r].
  rewrite (snoc_app p x (u ++ tail)), <- (zlen_snoc p x), (snoc_app p x u), IH. rewrite zlen_snoc, zlen_cons. f_equal. lia.
Qed.

(** The switch of the function with a limit, its flag read as a boolean. *)
Lemma pointer_switch p b u tail :
  byte8 b -> 0x80 <= b -> Forall byte8 u -> U8_COUNT_TRAIL_BYTES b <= zlen u ->
  let count := U8_COUNT_TRAIL_BYTES b in
  1 <= count ->
  switch_result p u b
    ('(i, c, illegal) ←
       (if 4 <=? count then Some (zlen p, lead_bits b, 1)
        else if count =? 3 then pointer_3 (p ++ u ++ tail) (zlen p) (lead_bits b) 0
        else if count =? 2 then pointer_2 (p ++ u ++ tail) (zlen p) (lead_bits b) 0
        else pointer_1 (p ++ u ++ tail) (zlen p) (lead_bits b) 0);
     Some (i, c, negb (illegal =? 0))).
Proof.
  intros Hb Hge Hu He count H1. pose proof (own_trails_range b u Hu) as Ha. unfold switch_result.
  destruct (Z.leb_spec 4 count) as [H4|H4].
  { eexists _, _, _. split; [done|]. left. split; [done|]. apply long_piece; auto. }
  assert (Hshort : zlen (own_trails b u) <> count -> piece_value (-1) (b :: own_trails b u) = U_SENTINEL) by by apply incomplete_piece.
  unfold own_trails in *. fold count in Ha, He, Hshort |- *.
  destruct (Z.eqb_spec count 3) as [E|]; [|destruct (Z.eqb_spec count 2) as [E|]; [|assert (count = 1) as E by lia]]; rewrite E in *.
  - change (Z.to_nat 3) with 3%nat in *. destruct u as [|x [|y [|z u]]]; unfold zlen in He; cbn [length] in He; try lia. clear He.
    rewrite !Forall_cons in Hu. destruct Hu as (Hx & Hy & Hz & _). cbn [app].
    destruct (pointer_3_spec p x y z (u ++ tail) (lead_bits b) Hx Hy Hz) as (i & c & ill & -> & Hr & Hr'). cbn [mbind option_bind].
    eexists _, _, _. split; [done|]. cbn [take_trails] in *.
    destruct (U8_IS_TRAIL x), (U8_IS_TRAIL y), (U8_IS_TRAIL z);
      try (left; split; [destruct (Z.eqb_spec ill 0) as [E0|]; [by destruct (Hr E0) as (? & ? & ? & _)|done]|by apply Hshort]).
    destruct (seq_value_3 b x y z Hb E Ha) as [Hbig H0].
    destruct (Z.eqb_spec ill 0) as [E0|Hne].
    + right. destruct (Hr E0) as (_ & _ & _ & -> & -> & Hlt). destruct (Z.leb_spec 0x110 (more (lead_bits b) x)); [lia|].
      change (zlen [x; y; z]) with 3. change (more (more _ y) z) with (seq_value b [x; y; z]).
      split_and!; auto; lia.
    + left. split; [done|]. apply large_piece; [done|]. destruct (Z.leb_spec 0x110 (more (lead_bits b) x)); [lia|].
      destruct Hne. by apply Hr'.
  - change (Z.to_nat 2) with 2%nat in *. destruct u as [|x [|y u]]; unfold zlen in He; cbn [length] in He; try lia. clear He.
    rewrite !Forall_cons in Hu. destruct Hu as (Hx & Hy & _). cbn [app].
    destruct (pointer_2_spec p x y (u ++ tail) (lead_bits b) 0 Hx Hy) as (c & ill & -> & Hr & Hr'). cbn [mbind option_bind].
    eexists _, _, _. split; [done|]. cbn [take_trails] in *. rewrite Hr. cbn [Z.eqb andb].
    destruct (U8_IS_TRAIL x), (U8_IS_TRAIL y); try (left; split; [done|by apply Hshort]).
    rewrite Hr' by done. right. change (zlen [x; y]) with 2. change (more (more _ x) y) with (seq_value b [x; y]).
    assert (0 <= seq_value b [x; y] <= 0xffff) by (apply seq_value_range; [done|done|by fold count; rewrite E|by change (zlen [x; y]) with 2|done]).
    split_and!; auto; lia.
  - change (Z.to_nat 1) with 1%nat in *. destruct u as [|x u]; unfold zlen in He; cbn [length] in He; try lia. clear He.
    rewrite !Forall_cons in Hu. destruct Hu as (Hx & _). cbn [app].
    destruct (pointer_1_spec p x (u ++ tail) (lead_bits b) 0 Hx) as (c & ill & -> & Hr & Hr'). cbn [mbind option_bind].
    eexists _, _, _. split; [done|]. cbn [take_trails] in *. rewrite Hr. cbn [Z.eqb andb].
    destruct (U8_IS_TRAIL x); try (left; split; [done|by apply Hshort]).
    rewrite Hr' by done. right. change (zlen [x]) with 1. change (more _ x) with (seq_value b [x]).
    assert (0 <= seq_value b [x] <= 0xffff) by (apply seq_value_range; [done|done|by fold count; rewrite E|by change (zlen [x]) with 1|done]).
    split_and!; auto; lia.
Qed.

Lemma nextCharSafeBodyPointer_spec p b u tail :
  byte8 b -> 0x80 <= b -> Forall byte8 u ->
  utf8_nextCharSafeBodyPointer (p ++ u ++ tail) (zlen p) (zlen (p ++ u)) b =
    Some (piece_value (-1) (b :: own_trails b u), zlen p + zlen (own_trails b u)).
Proof.
  intros Hb Hge Hu. unfold utf8_nextCharSafeBodyPointer. fold (lead_bits b). pose proof (count_range b Hb).
  rewrite zlen_app. replace (zlen p + zlen u - zlen p) with (zlen u) by lia. rewrite <- zlen_app. pose proof (zlen_nonneg u).
  destruct (Z.leb_spec (U8_COUNT_TRAIL_BYTES b) (zlen u)); cbn [andb].
  - destruct (Z.eqb_spec (U8_COUNT_TRAIL_BYTES b) 0) as [E|].
    { rewrite long_piece by auto. unfold own_trails. rewrite E. cbn. change (zlen (@nil Z)) with 0. by rewrite Z.add_0_r. }
    rewrite <- (switch_finish p b u (U8_COUNT_TRAIL_BYTES b)
      (skip_trails_until (trails_of b) (p ++ u ++ tail) (zlen p) (zlen (p ++ u))) _
      Hb Hge eq_refl ltac:(lia) (pointer_switch p b u tail Hb Hge Hu ltac:(lia) ltac:(lia))).
    + destruct (if 4 <=? _ then _ else _) as [[[? ?] ?]|]; done.
    + apply skip_trails_until_spec.
  - cbn [mbind option_bind]. change (negb (1 =? 0)) with true. cbn [bad_value mbind option_bind].
    rewrite skip_trails_until_spec. cbn [mbind option_bind]. fold (own_trails b u).
    rewrite incomplete_piece; [done|done|]. pose proof (take_trails_prefix (trails_of b) u) as Hp. fold (own_trails b u) in Hp.
    apply (f_equal zlen) in Hp. rewrite zlen_app in Hp. pose proof (zlen_nonneg (drop (length (own_trails b u)) u)). lia.
Qed.

(** *** One character *)

Lemma piece_value_bmp b ts :
  byte8 b -> zlen ts <= 2 -> Forall (fun t => 0x80 <= t <= 0xbf) ts -> piece_value (-1) (b :: ts) <= 0xffff.
Proof.
  intros Hb Hl Ha. cbn [piece_value]. change (error8 (-1)) with (-1). destruct (Z.ltb_spec b 0x80); [unfold byte8 in Hb; lia|].
  destruct (Z.eqb_spec (zlen ts) (U8_COUNT_TRAIL_BYTES b)) as [E|]; [|cbn [andb]; lia].
  destruct (Z.leb_spec 1 (U8_COUNT_TRAIL_BYTES b)); [|cbn [andb]; lia].
  pose proof (seq_value_range b ts Hb ltac:(lia) E ltac:(lia) Ha). cbn [andb]. destruct (_ && _); lia.
Qed.

(** A sequence that is decoded inline: complete, of at most three bytes, within the [room]. *)
Lemma inline8_spec room p b v :
  Forall byte8 (b :: v) -> (room 3 = true -> enough 2 v) -> (room 2 = true -> enough 1 v) ->
  exists r, inline8 room (p ++ b :: v) (zlen p) = Some (b, r) /\
    (r = None /\ 0x80 <= b \/
     exists ts v', v = ts ++ v' /\ Forall is_trail ts /\ zlen ts = U8_COUNT_TRAIL_BYTES b /\ zlen ts <= 2 /\
       (ts = [] \/ room (zlen ts + 1) = true) /\ 0 <= piece_value (-1) (b :: ts) <= 0xffff /\
       r = Some (piece_value (-1) (b :: ts), zlen p + 1 + zlen ts)).
Proof.
  intros [Hb Hv]%Forall_cons H3 H2. destruct (count_of b Hb) as (C0 & C1 & C2 & _). unfold inline8. rewrite zget_middle. cbn [mbind option_bind].
  destruct (Z.leb_spec b 0x7f) as [Hlt|Hge].
  { eexists. split; [done|]. right. exists [], v. change (zlen (@nil Z)) with 0. rewrite piece_value_lone by done.
    destruct (Z.ltb_spec b 0x80); [|lia]. unfold byte8 in Hb. split_and!; auto; try lia. by rewrite Z.add_0_r. }
  destruct (Z.ltb_spec 0xe0 b); [|destruct (Z.ltb_spec b 0xe0)].
  - destruct (Z.leb_spec b 0xec); cbn [andb]; [|eexists; split; [done|left; split; [done|lia]]].
    destruct (room 3) eqn:Hr; [|eexists; split; [done|left; split; [done|lia]]]. specialize (H3 eq_refl).
    destruct v as [|x v]; [by apply enough_nil in H3|]. rewrite zget_snoc_next, zget_cons_0 by done. cbn [mbind option_bind].
    apply Forall_cons in Hv as [Hx Hv]. rewrite trail_offset by done. destruct (U8_IS_TRAIL x) eqn:Hxt; [|eexists; split; [done|left; split; [done|lia]]].
    apply (enough_cons 1 x v Hxt) in H3. destruct v as [|y v]; [by apply enough_nil in H3|].
    replace (zlen p + 2) with (zlen p + 1 + 1) by lia. rewrite zget_snoc_next2 by done. change (zget (x :: y :: v) 1) with (Some y).
    cbn [mbind option_bind]. apply Forall_cons in Hv as [Hy Hv]. rewrite trail_offset by done.
    destruct (U8_IS_TRAIL y) eqn:Hyt; [|eexists; split; [done|left; split; [done|lia]]].
    eexists. split; [done|]. right. exists [x; y], v. rewrite !uint8_trail by done. apply trail_range8 in Hxt as Hxr, Hyt as Hyr; auto.
    rewrite (inline_three_value b x y (-1)) by lia. change (zlen [x; y]) with 2.
    assert (0 <= piece_value (-1) [b; x; y] <= 0xffff) by (rewrite piece_three by lia; unfold more; lia).
    split_and!; auto; try lia. f_equal. f_equal. lia.
  - destruct (Z.leb_spec 0xc2 b); cbn [andb]; [|eexists; split; [done|left; split; [done|lia]]].
    destruct (room 2) eqn:Hr; [|eexists; split; [done|left; split; [done|lia]]]. specialize (H2 eq_refl).
    destruct v as [|x v]; [by apply enough_nil in H2|]. rewrite zget_snoc_next, zget_cons_0 by done. cbn [mbind option_bind].
    apply Forall_cons in Hv as [Hx Hv]. rewrite trail_offset by done. destruct (U8_IS_TRAIL x) eqn:Hxt; [|eexists; split; [done|left; split; [done|lia]]].
    eexists. split; [done|]. right. exists [x], v. rewrite uint8_trail by done. apply trail_range8 in Hxt as Hxr; auto.
    rewrite (inline_two_value b x (-1)) by lia. change (zlen [x]) with 1.
    assert (0 <= piece_value (-1) [b; x] < 0x10000) by (destruct (piece_two b x (-1)) as [-> _]; [lia..|unfold more; lia]).
    unfold uint16. rewrite Z.mod_small by lia. split_and!; auto; try lia. f_equal. f_equal. lia.
  - eexists; split; [done|left; split; [done|lia]].
Qed.

(** What a piece is converted to: a substitute, if there is one, for an ill-formed piece. *)
Definition char8 (subchar : Z) (w : list Z) : option Z :=
  let c := piece_value (-1) w in
  if c <? 0 then if subchar <? 0 then None else Some subchar else Some c.
Definition err8 (w : list Z) : Z := if piece_value (-1) w <? 0 then 1 else 0.

(** The character at [p], before [b] and [u], is read with the trail bytes it owns. *)
Definition reads8 (room : Z -> bool) (body : list Z -> Z -> Z -> option (Z * Z)) (s p : list Z) (b : Z) (u : list Z) : Prop :=
  forall subchar subs, read8 room body s subchar (zlen p) subs =
    Some (match char8 subchar (b :: own_trails b u) with
          | Some ch => Some (ch, zlen p + 1 + zlen (own_trails b u), subs + err8 (b :: own_trails b u))
          | None => None
          end).

Lemma own_trails_complete b ts v : Forall is_trail ts -> zlen ts = U8_COUNT_TRAIL_BYTES b -> own_trails b (ts ++ v) = ts.
Proof. intros Ht Hl. unfold own_trails. rewrite <- Hl. unfold zlen. rewrite Nat2Z.id. by apply take_trails_full. Qed.

Lemma read8_inline room body s p b u c i :
  inline8 room s (zlen p) = Some (b, Some (c, i)) -> c = piece_value (-1) (b :: own_trails b u) -> 0 <= c ->
  i = zlen p + 1 + zlen (own_trails b u) -> reads8 room body s p b u.
Proof.
  intros E Hc H0 Hi subchar subs. unfold read8. rewrite E. cbn [mbind option_bind]. unfold char8, err8. rewrite <- Hc.
  destruct (Z.ltb_spec c 0); [lia|]. rewrite <- Hi. by rewrite Z.add_0_r.
Qed.

Lemma read8_body room body s p b u :
  inline8 room s (zlen p) = Some (b, None) ->
  body s (zlen p + 1) b = Some (piece_value (-1) (b :: own_trails b u), zlen p + 1 + zlen (own_trails b u)) ->
  reads8 room body s p b u.
Proof.
  intros E Hb subchar subs. unfold read8. rewrite E. cbn [mbind option_bind]. rewrite Hb. cbn [mbind option_bind].
  unfold substitute, char8, err8. destruct (_ <? 0); [destruct (subchar <? 0); done|]. by rewrite Z.add_0_r.
Qed.

Lemma read8_nul p b u tail :
  Forall byte8 (b :: u ++ 0 :: tail) ->
  reads8 (fun _ => true) (fun s i ch => utf8_nextCharSafeBodyTerminated s i ch) (p ++ b :: u ++ 0 :: tail) p b u.
Proof.
  intros Hb. assert (He : Exists (fun x => U8_IS_TRAIL x = false) (u ++ 0 :: tail)) by (apply Exists_app; right; by left).
  assert (Hown : own_trails b (u ++ 0 :: tail) = own_trails b u).
  { unfold own_trails. generalize (trails_of b). intros n. revert u Hb He. clear.
    intros u _ _. revert u. induction n as [|n IH]; intros [|x u]; cbn [app take_trails]; try done. by rewrite IH. }
  destruct (inline8_spec (fun _ => true) p b (u ++ 0 :: tail)) as (r & E & Hr); auto; [intros _; by right..|].
  pose proof Hb as [Hbb Hv]%Forall_cons.
  destruct Hr as [[-> Hge]|(ts & v' & Hv' & Ht & Hl & _ & _ & Hc & ->)].
  - apply (read8_body _ _ _ _ _ _ E). rewrite snoc_app, <- (zlen_snoc p b), <- Hown.
    by apply nextCharSafeBodyTerminated_spec.
  - assert (own_trails b u = ts) by (rewrite <- Hown, Hv'; by apply own_trails_complete). subst ts.
    apply (read8_inline _ _ _ _ _ _ _ _ E); auto; lia.
Qed.

Lemma inline8_within room p b u tail :
  Forall byte8 (b :: u ++ tail) -> (room 3 = true -> 2 <= zlen u) -> (room 2 = true -> 1 <= zlen u) ->
  exists r, inline8 room (p ++ b :: u ++ tail) (zlen p) = Some (b, r) /\
    (r = None /\ 0x80 <= b \/
     zlen (own_trails b u) <= 2 /\ 0 <= piece_value (-1) (b :: own_trails b u) <= 0xffff /\
     r = Some (piece_value (-1) (b :: own_trails b u), zlen p + 1 + zlen (own_trails b u))).
Proof.
  intros Hb H3 H2. assert (Henough : forall n, Z.of_nat n <= zlen u -> enough n (u ++ tail)).
  { intros n Hn. left. rewrite length_app. unfold zlen in Hn. lia. }
  destruct (inline8_spec room p b (u ++ tail)) as (r & E & Hr); auto.
  exists r. split; [done|]. destruct Hr as [?|(ts & v' & Hv' & Ht & Hl & Hl2 & Hroom & Hc & ->)]; [by left|right].
  assert (Hle : zlen ts <= zlen u).
  { pose proof (zlen_nonneg u). destruct Hroom as [->|Hroom]; [change (zlen (@nil Z)) with 0; lia|].
    assert (zlen ts = 0 \/ zlen ts = 1 \/ zlen ts = 2) as [Hz|[Hz|Hz]] by (unfold zlen in *; lia); rewrite Hz in *; auto. }
  assert (own_trails b u = ts) as ->; [|by split; [|split]].
  assert (exists w, u = ts ++ w) as [w ->].
  { exists (drop (length ts) u). rewrite <- (take_drop (length ts) u) at 1. f_equal.
    apply (f_equal (take (length ts))) in Hv'. rewrite take_app_length in Hv'.
    rewrite take_app_le in Hv' by (unfold zlen in Hle; lia). done. }
  by apply own_trails_complete.
Qed.

Lemma read8_counted p b u tail :
  Forall byte8 (b :: u ++ tail) ->
  let limit := zlen (p ++ b :: u) in
  reads8 (fun n => n <=? limit - zlen p) (fun s i ch => utf8_nextCharSafeBodyPointer s i limit ch)
    (p ++ b :: u ++ tail) p b u.
Proof.
  intros Hb limit. assert (limit - zlen p = 1 + zlen u) as Hlim by (unfold limit; rewrite zlen_app, zlen_cons; lia).
  destruct (inline8_within (fun n => n <=? limit - zlen p) p b u tail) as (r & E & Hr); auto; [intros; lia..|].
  apply Forall_cons in Hb as [Hbb Hv]. destruct Hr as [[-> Hge]|(_ & Hc & ->)].
  - apply (read8_body _ _ _ _ _ _ E). rewrite snoc_app, <- (zlen_snoc p b). unfold limit. rewrite (snoc_app p b u).
    apply nextCharSafeBodyPointer_spec; auto. by apply Forall_app in Hv as [? _].
  - apply (read8_inline _ _ _ _ _ _ _ _ E); auto; lia.
Qed.

(** ** The loops from UTF-8 *)

(** The units of a sequence of code points. *)
Definition units (cs : list Z) : list Z := concat (map encode cs).

Lemma units_snoc cs c : units (cs ++ [c]) = units cs ++ encode c.
Proof. unfold units. rewrite map_app, concat_app. cbn. by rewrite app_nil_r. Qed.

(** The pieces after the first ones are those of the rest of the text. *)
Lemma pieces_rest front ws u : pieces u = front ++ ws -> exists v, u = concat front ++ v /\ pieces v = ws.
Proof.
  revert u. induction front as [|x front IH]; intros u E; [by exists u|].
  destruct u as [|b u]; [done|]. rewrite pieces_cons in E. cbn [app] in E. injection E as <- E.
  destruct (IH _ E) as (v & Hv & Hp). exists v. split; [|done]. cbn [concat app]. f_equal.
  rewrite <- app_assoc, <- Hv. apply take_trails_prefix.
Qed.

Lemma pieces_from_count r cur u : (length (pieces_from r cur u) <= S (length u))%nat.
Proof.
  revert r cur. induction u as [|b u IH]; intros r cur; [done|]. cbn [pieces_from length].
  destruct r as [|r]; [|destruct (U8_IS_TRAIL b)]; cbn [length];
    [specialize (IH (trails_of b) [b])|specialize (IH r (cur ++ [b]))|specialize (IH (trails_of b) [b])]; lia.
Qed.

Lemma pieces_count u : (length (pieces u) <= length u)%nat.
Proof. destruct u as [|b u]; [done|]. apply pieces_from_count. Qed.

(** Storing one more unit after those written. *)
Lemma zset_next (w dest0 : list Z) x :
  zlen w < zlen dest0 ->
  zset (w ++ drop (length w) dest0) (zlen w) x = Some ((w ++ [x]) ++ drop (length (w ++ [x])) dest0).
Proof.
  intros Hl. destruct (drop (length w) dest0) as [|y r] eqn:E.
  { apply (f_equal length) in E. rewrite length_drop in E. unfold zlen in Hl. simpl in E. lia. }
  rewrite zset_middle, <- app_assoc. cbn [app]. f_equal. f_equal. f_equal. rewrite length_app. cbn [length].
  rewrite Nat.add_comm. cbn [Nat.add]. replace (S (length w)) with (length w + 1)%nat by lia.
  rewrite <- drop_drop, E. done.
Qed.

(** A first part of the text needs more units than an [int32_t] counts. *)
Definition too_long (subchar : Z) (text : list Z) : Prop :=
  exists front rest cs, pieces text = front ++ rest /\ mapM (char8 subchar) front = Some cs /\ INT32_MAX < zlen (units cs).

Section From.
Context (text dest0 : list Z) (limit subchar : Z).
Hypothesis Htext : Forall byte8 text.
Hypothesis Hlimit : 0 <= limit <= zlen dest0.
Hypothesis Hsub : subchar < 0 \/ scalar subchar.

Definition errors (ws : list (list Z)) : Z := foldr (fun w n => err8 w + n) 0 ws.

(** What the loops maintain after the pieces [done_], converted to [cs]. *)
Record inv8 (done_ : list (list Z)) (cs : list Z) (st : state) : Prop := {
  i_src : c_src st = zlen (concat done_);
  i_conv : mapM (char8 subchar) done_ = Some cs;
  i_total : c_at st + c_req st = zlen (units cs);
  i_at : 0 <= c_at st <= limit;
  i_req : 0 <= c_req st;
  i_full : c_req st = 0 \/ c_at st = limit;
  i_dest : c_dest st = ztake (c_at st) (units cs) ++ drop (Z.to_nat (c_at st)) dest0;
  i_subs : c_subs st = errors done_
}.

Lemma errors_snoc ws w : errors (ws ++ [w]) = errors ws + err8 w.
Proof. induction ws as [|x ws IH]; cbn; [lia|]. fold (errors (ws ++ [w])) (errors ws). lia. Qed.

Lemma mapM_snoc ws w cs c :
  mapM (char8 subchar) ws = Some cs -> char8 subchar w = Some c -> mapM (char8 subchar) (ws ++ [w]) = Some (cs ++ [c]).
Proof.
  revert cs. induction ws as [|x ws IH]; intros cs E Ec; cbn in *.
  - injection E as <-. by rewrite Ec.
  - destruct (char8 subchar x) as [y|]; [|done]. cbn in *. destruct (mapM _ ws) as [ys|]; [|done]. cbn in *.
    injection E as <-. by rewrite (IH ys).
Qed.

Lemma char8_code_point w c : Forall byte8 w -> char8 subchar w = Some c -> code_point c.
Proof.
  intros Hw. unfold char8. destruct (Z.ltb_spec (piece_value (-1) w) 0).
  - destruct (Z.ltb_spec subchar 0); [done|]. intros [= <-]. destruct Hsub as [?|[? _]]; [lia|done].
  - intros [= <-]. unfold code_point. split; [done|]. destruct w as [|b ts]; [done|]. cbn [piece_value].
    apply Forall_cons in Hw as [Hb _]. destruct (b <? 0x80); [unfold byte8 in Hb; lia|].
    unfold legal. destruct (Z.leb_spec (seq_value b ts) 0x10ffff).
    + by destruct (_ && _ && _ && _).
    + rewrite andb_false_r, andb_false_l, andb_false_r. done.
Qed.

Lemma encode_length c : zlen (encode c) = 1 \/ zlen (encode c) = 2.
Proof. unfold encode. destruct (_ <=? _); auto. Qed.

(** [write16] stores the units, or the lead surrogate alone at the end of the buffer. *)
Lemma write16_spec w c :
  code_point c -> zlen w < limit ->
  exists d k fit, write16 c limit (w ++ drop (length w) dest0) (zlen w) = Some (d, k, fit) /\
    d = ztake k (w ++ encode c) ++ drop (Z.to_nat k) dest0 /\
    (fit = true /\ k = zlen w + zlen (encode c) /\ k <= limit \/
     fit = false /\ k = limit /\ k + 1 = zlen w + zlen (encode c)).
Proof.
  intros Hc Hw. unfold write16. unfold code_point in Hc.
  destruct (Z.leb_spec c 0xffff).
  - rewrite zset_next by lia. cbn [mbind option_bind].
    eexists _, _, true. split; [done|]. assert (uint16 c = c) as -> by (unfold uint16; apply Z.mod_small; lia).
    rewrite (encode_unit c) by (unfold unit16; lia).
    rewrite <- (zlen_snoc w c), ztake_all. split; [unfold zlen; by rewrite Nat2Z.id|]. left. rewrite zlen_snoc. split_and!; auto. lia.
  - assert (encode c = [U16_LEAD c; U16_TRAIL c]) as -> by (unfold encode; by destruct (Z.leb_spec c 0xffff); [lia|]).
    rewrite zset_next by lia. cbn [mbind option_bind]. change (zlen [U16_LEAD c; U16_TRAIL c]) with 2.
    destruct (Z.ltb_spec (zlen w + 1) limit).
    + rewrite <- (zlen_snoc w (U16_LEAD c)), zset_next by (rewrite zlen_snoc; lia). cbn [mbind option_bind].
      eexists _, _, true. split; [done|].
      replace ((w ++ [U16_LEAD c]) ++ [U16_TRAIL c]) with (w ++ [U16_LEAD c; U16_TRAIL c]) by (by rewrite <- app_assoc).
      replace (zlen w + 2) with (zlen (w ++ [U16_LEAD c; U16_TRAIL c])) by (rewrite zlen_app; done).
      rewrite ztake_all. split; [unfold zlen; by rewrite Nat2Z.id|]. left. rewrite zlen_app. change (zlen [U16_LEAD c; U16_TRAIL c]) with 2.
      split_and!; auto. lia.
    + eexists _, _, false. split; [done|]. rewrite <- (zlen_snoc w (U16_LEAD c)).
      replace (w ++ [U16_LEAD c; U16_TRAIL c]) with ((w ++ [U16_LEAD c]) ++ [U16_TRAIL c]) by (by rewrite <- app_assoc).
      rewrite ztake_app_exact. split; [unfold zlen; by rewrite Nat2Z.id|]. right. rewrite zlen_snoc. split_and!; auto; lia.
Qed.

(** A state whose units all fitted so far. *)
Lemma inv8_dest done_ cs st :
  inv8 done_ cs st -> c_req st = 0 ->
  c_at st = zlen (units cs) /\ c_dest st = units cs ++ drop (length (units cs)) dest0.
Proof.
  intros Hi Hr. pose proof (i_total _ _ _ Hi) as Ht. rewrite Hr, Z.add_0_r in Ht. split; [done|].
  rewrite (i_dest _ _ _ Hi), Ht, ztake_all. unfold zlen. by rewrite Nat2Z.id.
Qed.

Lemma inv8_start : inv8 [] [] (State 0 dest0 0 0 0).
Proof. split; cbn; auto; try lia. Qed.

Lemma inv8_zlen done_ cs st : inv8 done_ cs st -> zlen (c_dest st) = zlen dest0.
Proof.
  intros Hi. rewrite (i_dest _ _ _ Hi), zlen_app. pose proof (i_at _ _ _ Hi). pose proof (i_total _ _ _ Hi). pose proof (i_req _ _ _ Hi).
  rewrite zlen_ztake by lia. unfold zlen in *. rewrite length_drop. lia.
Qed.

(** The next piece of the text. *)
Lemma next_piece front w ws :
  pieces text = front ++ w :: ws ->
  exists b u, text = concat front ++ b :: u /\ w = b :: own_trails b u /\ Forall byte8 (b :: u).
Proof.
  intros E. destruct (pieces_rest _ _ _ E) as (v & Hv & Hp). destruct v as [|b u]; [done|]. rewrite pieces_cons in Hp.
  injection Hp as Hw _. exists b, u. split_and!; auto. rewrite Hv in Htext. by apply Forall_app in Htext as [_ ?].
Qed.

Lemma concat_snoc (front : list (list Z)) w : concat (front ++ [w]) = concat front ++ w.
Proof. rewrite concat_app. cbn. by rewrite app_nil_r. Qed.

(** Writing one more character. *)
Lemma inv8_write done_ cs st b u c :
  inv8 done_ cs st -> c_req st = 0 -> c_at st < limit -> text = concat done_ ++ b :: u -> Forall byte8 (b :: u) ->
  char8 subchar (b :: own_trails b u) = Some c ->
  exists d k fit, write16 c limit (c_dest st) (c_at st) = Some (d, k, fit) /\
    inv8 (done_ ++ [b :: own_trails b u]) (cs ++ [c])
      (State (c_src st + 1 + zlen (own_trails b u)) d k (if fit then 0 else 1) (c_subs st + err8 (b :: own_trails b u))) /\
    (fit = false -> k = limit).
Proof.
  intros Hi Hr Hat Htx Hb Hc. destruct (inv8_dest _ _ _ Hi Hr) as [Ha ->].
  assert (Hcp : code_point c).
  { apply (char8_code_point (b :: own_trails b u)); [|done]. apply Forall_cons in Hb as [Hb Hu]. constructor; [done|].
    rewrite (take_trails_prefix (trails_of b) u), Forall_app in Hu. apply Hu. }
  rewrite Ha in *. destruct (write16_spec (units cs) c Hcp Hat) as (d & k & fit & -> & Hd & Hk).
  exists d, k, fit. split; [done|]. pose proof (zlen_nonneg (units cs)). pose proof (encode_nonempty c).
  split; [|naive_solver]. pose proof (i_src _ _ _ Hi). pose proof (i_subs _ _ _ Hi).
  split; cbn [c_src c_dest c_at c_req c_subs].
  - rewrite concat_snoc, zlen_app, zlen_cons. lia.
  - apply mapM_snoc; [apply Hi|done].
  - rewrite units_snoc, zlen_app. destruct fit; naive_solver lia.
  - destruct fit; naive_solver lia.
  - destruct fit; lia.
  - destruct fit; naive_solver.
  - by rewrite units_snoc.
  - rewrite errors_snoc. lia.
Qed.

Lemma mapM_app_None (l k : list (list Z)) :
  mapM (char8 subchar) l = None \/ mapM (char8 subchar) k = None -> mapM (char8 subchar) (l ++ k) = None.
Proof.
  induction l as [|w l IH]; intros Hor; cbn [app].
  - destruct Hor as [?|?]; [done|done].
  - cbn in *. destruct (char8 subchar w) as [c|]; [|done]. cbn in *. rewrite IH; [done|].
    destruct Hor as [Hl|?]; [left|by right]. by destruct (mapM _ l).
Qed.

Section Loop.
Context (room : Z -> Z -> bool) (body : list Z -> Z -> Z -> option (Z * Z)) (more : Z -> option bool) (s : list Z).
Hypothesis Hmore : forall front ws, pieces text = front ++ ws ->
  more (zlen (concat front)) = Some (negb (bool_decide (ws = []))).
Hypothesis Hread : forall p b u, text = p ++ b :: u -> reads8 (room (zlen p)) body s p b u.

Lemma write_loop8_spec fuel done_ cs st rest :
  inv8 done_ cs st -> c_req st = 0 -> pieces text = done_ ++ rest -> (length rest < fuel)%nat ->
  (exists d, write_loop8 fuel room body more s subchar limit st = Some (inl (U_INVALID_CHAR_FOUND, d)) /\
     zlen d = zlen dest0 /\ mapM (char8 subchar) rest = None) \/
  (exists st' mid rest' cs', write_loop8 fuel room body more s subchar limit st = Some (inr st') /\
     rest = mid ++ rest' /\ inv8 (done_ ++ mid) cs' st' /\ (rest' = [] \/ c_at st' = limit)).
Proof.
  revert done_ cs st rest. induction fuel as [|fuel IH]; intros done_ cs st rest Hi Hr Hp Hf; [lia|].
  cbn [write_loop8]. rewrite (i_src _ _ _ Hi), (Hmore done_ rest) by done. cbn [mbind option_bind].
  destruct rest as [|w rest].
  { cbn. right. exists st, [], [], cs. split_and!; auto. by rewrite app_nil_r. }
  change (negb (bool_decide (w :: rest = []))) with true. cbn [andb].
  destruct (Z.ltb_spec (c_at st) limit) as [Hat|Hat].
  2:{ right. exists st, [], (w :: rest), cs. pose proof (i_at _ _ _ Hi). split_and!; auto; [by rewrite app_nil_r|right; lia]. }
  destruct (next_piece _ _ _ Hp) as (b & u & Htx & -> & Hb). rewrite (Hread _ b u Htx). cbn [mbind option_bind].
  destruct (char8 subchar (b :: own_trails b u)) as [c|] eqn:Hc.
  2:{ left. eexists. split; [done|]. split; [by eapply inv8_zlen|]. cbn. by rewrite Hc. }
  destruct (inv8_write done_ cs st b u c Hi Hr Hat Htx Hb Hc) as (d & k & fit & -> & Hi' & Hk). cbn [mbind option_bind].
  rewrite (i_src _ _ _ Hi) in Hi'. destruct fit.
  - rewrite Hr. destruct (IH _ _ _ rest Hi' eq_refl) as [(d' & -> & Hd & Hn)|(st' & mid & rest' & cs' & -> & -> & Hi2 & Hor)].
    + by rewrite <- app_assoc.
    + cbn [length] in Hf. lia.
    + left. exists d'. split_and!; auto. cbn. rewrite Hc. cbn. by rewrite Hn.
    + right. exists st', ((b :: own_trails b u) :: mid), rest', cs'. split_and!; auto. by rewrite <- app_assoc in Hi2.
  - rewrite Hr, checked_in by (unfold INT32_MIN, INT32_MAX; lia). cbn [mbind option_bind]. right.
    eexists _, [b :: own_trails b u], rest, _. split_and!; [done|done|exact Hi'|]. right. by apply Hk.
Qed.

(** What counting leaves: an invalid character, the state at the end, or an overflow. *)
Definition count_result (rest : list (list Z)) (r : loop_result) : Prop :=
  (exists d, r = Some (inl (U_INVALID_CHAR_FOUND, d)) /\ zlen d = zlen dest0 /\ mapM (char8 subchar) rest = None) \/
  (exists st' cs', r = Some (inr st') /\ inv8 (pieces text) cs' st') \/ (r = None /\ too_long subchar text).

Lemma count_loop8_spec fuel done_ cs st rest :
  inv8 done_ cs st -> pieces text = done_ ++ rest -> rest = [] \/ c_at st = limit -> (length rest < fuel)%nat ->
  count_result rest (count_loop8 fuel room body more s subchar st).
Proof.
  revert done_ cs st rest. induction fuel as [|fuel IH]; intros done_ cs st rest Hi Hp Hor Hf; [lia|].
  cbn [count_loop8]. rewrite (i_src _ _ _ Hi), (Hmore done_ rest) by done. cbn [mbind option_bind].
  destruct rest as [|w rest].
  { cbn. right. left. exists st, cs. rewrite Hp, app_nil_r. done. }
  change (negb (bool_decide (w :: rest = []))) with true. cbv iota. destruct Hor as [?|Hlim]; [done|].
  destruct (next_piece _ _ _ Hp) as (b & u & Htx & -> & Hb). rewrite (Hread _ b u Htx). cbn [mbind option_bind].
  destruct (char8 subchar (b :: own_trails b u)) as [c|] eqn:Hc.
  2:{ left. eexists. split; [done|]. split; [by eapply inv8_zlen|]. cbn. by rewrite Hc. }
  assert (Hcp : code_point c).
  { apply (char8_code_point (b :: own_trails b u)); [|done]. apply Forall_cons in Hb as [Hb Hu]. constructor; [done|].
    rewrite (take_trails_prefix (trails_of b) u), Forall_app in Hu. apply Hu. }
  assert (Hconv : mapM (char8 subchar) (done_ ++ [b :: own_trails b u]) = Some (cs ++ [c])) by (apply mapM_snoc; [apply Hi|done]).
  pose proof (i_total _ _ _ Hi) as Ht. pose proof (i_at _ _ _ Hi) as Hat. pose proof (i_req _ _ _ Hi) as Hrq. pose proof (encode_nonempty c) as Hne.
  rewrite <- (encode_zlen c Hcp).
  destruct (Z.lt_ge_cases INT32_MAX (c_req st + zlen (encode c))) as [Hbig|Hbound].
  { rewrite checked_out by lia. right. right. split; [done|]. exists (done_ ++ [b :: own_trails b u]), rest, (cs ++ [c]).
    split_and!; [by rewrite <- app_assoc|done|]. rewrite units_snoc, zlen_app. lia. }
  rewrite checked_in by (unfold INT32_MIN; lia). cbn [mbind option_bind].
  destruct (IH (done_ ++ [b :: own_trails b u]) (cs ++ [c])
    (State (zlen (concat done_) + 1 + zlen (own_trails b u)) (c_dest st) (c_at st) (c_req st + zlen (encode c))
       (c_subs st + err8 (b :: own_trails b u))) rest) as [(d' & -> & Hd & Hn)|[(st' & cs' & -> & Hi2)|[-> Hlong]]].
  - pose proof (i_subs _ _ _ Hi). split; cbn [c_src c_dest c_at c_req c_subs]; auto.
    + rewrite concat_snoc, zlen_app, zlen_cons. lia.
    + rewrite units_snoc, zlen_app. lia.
    + lia.
    + rewrite units_snoc, ztake_app_le by lia. apply Hi.
    + rewrite errors_snoc. lia.
  - by rewrite <- app_assoc.
  - by right.
  - cbn [length] in Hf. lia.
  - left. exists d'. split_and!; auto. cbn. rewrite Hc. cbn. by rewrite Hn.
  - right. left. by exists st', cs'.
  - right. by right.
Qed.

Lemma write_count8_spec fuel done_ cs st rest :
  inv8 done_ cs st -> c_req st = 0 -> pieces text = done_ ++ rest -> (length rest < fuel)%nat ->
  count_result rest (andThen (write_loop8 fuel room body more s subchar limit st) (count_loop8 fuel room body more s subchar)).
Proof.
  intros Hi Hr Hp Hf. unfold andThen.
  destruct (write_loop8_spec fuel done_ cs st rest Hi Hr Hp Hf) as [(d & -> & ? & ?)|(st' & mid & rest' & cs' & -> & -> & Hi' & Hor)].
  - left. eauto.
  - cbn [mbind option_bind]. rewrite app_assoc in Hp. rewrite length_app in Hf.
    destruct (count_loop8_spec fuel _ cs' st' rest' Hi' Hp Hor) as [(d & -> & ? & Hn)|[(st2 & cs2 & -> & Hi2)|[-> Hlong]]]; [lia| | |].
    + left. exists d. split_and!; auto. apply mapM_app_None. by right.
    + right. left. eauto.
    + right. by right.
Qed.
End Loop.

Lemma inv8_step_at done_ done' cs c st i d k req subs fit :
  inv8 done_ cs st -> c_req st = 0 -> inv8 done' (cs ++ [c]) (State i d k req subs) -> req = (if fit : bool then 0 else 1) ->
  fit = true -> k = c_at st + zlen (encode c).
Proof.
  intros Hi Hr Hi' -> ->. destruct (inv8_dest _ _ _ Hi Hr) as [-> _]. destruct (inv8_dest _ _ _ Hi' eq_refl) as [E _].
  cbn in E. by rewrite E, units_snoc, zlen_app.
Qed.

(** *** The fast loop *)

Context (tail : list Z).
Hypothesis Htail : Forall byte8 tail.

(** Without the check of the buffer, [write16] is two stores. *)
Lemma write16_unchecked c d k r :
  write16 c limit d k = Some r -> c <= 0xffff \/ k + 1 < limit ->
  r.2 = true /\
  (if c <=? 0xffff then d ← zset d k (uint16 c); Some (d, k + 1)
   else d ← zset d k (U16_LEAD c); d ← zset d (k + 1) (U16_TRAIL c); Some (d, k + 2)) = Some r.1.
Proof.
  unfold write16. destruct (Z.leb_spec c 0xffff).
  - destruct (zset d k (uint16 c)); [|done]. cbn. by intros [= <-].
  - destruct (zset d k (U16_LEAD c)) as [d'|]; [|done]. cbn [mbind option_bind]. destruct (Z.ltb_spec (k + 1) limit); [|lia].
    destruct (zset d' (k + 1) (U16_TRAIL c)); [|done]. cbn. by intros [= <-].
Qed.

Lemma own_trails_size b u : byte8 b -> zlen (own_trails b u) <= U8_COUNT_TRAIL_BYTES b /\ U8_COUNT_TRAIL_BYTES b <= 5.
Proof. intros Hb. pose proof (take_trails_length (trails_of b) u). pose proof (count_range b Hb). unfold own_trails, zlen. lia. Qed.

(** Where a code point needs two units, the loop has counted twice. *)
Lemma char8_wide b u c :
  byte8 b -> Forall byte8 u -> char8 subchar (b :: own_trails b u) = Some c -> 0xffff < c ->
  (0xf0 <=? b) || (0xffff <? subchar) = true.
Proof.
  intros Hb Hu Hc Hgt. unfold char8 in Hc. destruct (Z.ltb_spec (piece_value (-1) (b :: own_trails b u)) 0).
  - destruct (subchar <? 0); [done|]. injection Hc as ->. destruct (Z.ltb_spec 0xffff c); [by rewrite orb_true_r|lia].
  - apply Some_inj in Hc. destruct (Z.leb_spec 0xf0 b); [done|]. destruct (count_of b Hb) as (_ & _ & _ & C).
    specialize (C ltac:(lia)). destruct (own_trails_size b u Hb) as [Hl _].
    pose proof (piece_value_bmp b (own_trails b u) Hb ltac:(lia) (own_trails_range b u Hu)). lia.
Qed.

Definition fast_result (done_ rest : list (list Z)) (progress : Prop) (r : loop_result) : Prop :=
  (exists d, r = Some (inl (U_INVALID_CHAR_FOUND, d)) /\ zlen d = zlen dest0 /\ mapM (char8 subchar) rest = None) \/
  (exists st' mid rest' cs', r = Some (inr st') /\ rest = mid ++ rest' /\ inv8 (done_ ++ mid) cs' st' /\
     c_req st' = 0 /\ (progress -> mid <> [])).

Lemma fast_result_cons done_ w rest (P Q : Prop) r c :
  char8 subchar w = Some c -> fast_result (done_ ++ [w]) rest P r -> fast_result done_ (w :: rest) Q r.
Proof.
  intros Hc [(d & -> & Hd & Hn)|(st' & mid & rest' & cs' & -> & -> & Hi & Hr & _)].
  - left. exists d. split_and!; auto. cbn. rewrite Hc. cbn. by rewrite Hn.
  - right. exists st', (w :: mid), rest', cs'. rewrite <- app_assoc in Hi. by split_and!.
Qed.

Lemma fast_inner8_spec fuel done_ cs st rest count :
  inv8 done_ cs st -> c_req st = 0 -> pieces text = done_ ++ rest ->
  1 <= count <= Z.of_nat fuel -> c_at st + count <= limit -> 3 * count <= zlen text - c_src st ->
  fast_result done_ rest (2 <= count) (fast_inner8 fuel (text ++ tail) (zlen text) subchar count st).
Proof.
  revert done_ cs st rest count. induction fuel as [|fuel IH]; intros done_ cs st rest count Hi Hr Hp Hc Hat Hsrc; [lia|].
  pose proof (i_src _ _ _ Hi) as Hs.
  destruct rest as [|w rest].
  { rewrite app_nil_r in Hp. pose proof (pieces_concat text) as Hcc. rewrite Hp in Hcc. rewrite <- Hcc, Hs in Hsrc. lia. }
  destruct (next_piece _ _ _ Hp) as (b & u & Htx & -> & Hb). pose proof Hb as [Hbb Hu]%Forall_cons.
  assert (Hlen : zlen text = zlen (concat done_) + 1 + zlen u) by (rewrite Htx at 1; rewrite zlen_app, zlen_cons; lia).
  assert (Htl : text ++ tail = concat done_ ++ b :: u ++ tail) by (rewrite Htx at 1; by rewrite <- app_assoc).
  destruct (own_trails_size b u Hbb) as [Hsz Hsz5].
  assert (Hp' : pieces text = (done_ ++ [b :: own_trails b u]) ++ rest) by (by rewrite <- app_assoc).
  (* after one more character, [n] units further *)
  assert (Hstep : forall c d k fit n, char8 subchar (b :: own_trails b u) = Some c ->
    inv8 (done_ ++ [b :: own_trails b u]) (cs ++ [c])
      (State (c_src st + 1 + zlen (own_trails b u)) d k (if (fit : bool) then 0 else 1) (c_subs st + err8 (b :: own_trails b u))) ->
    fit = true -> k + (n - 1) <= limit -> n <= count -> 3 * (n - 1) <= zlen text - (c_src st + 1 + zlen (own_trails b u)) ->
    fast_result done_ ((b :: own_trails b u) :: rest) (2 <= count)
      (if 0 <? n - 1 then fast_inner8 fuel (text ++ tail) (zlen text) subchar (n - 1)
         (State (c_src st + 1 + zlen (own_trails b u)) d k 0 (c_subs st + err8 (b :: own_trails b u)))
       else Some (inr (State (c_src st + 1 + zlen (own_trails b u)) d k 0 (c_subs st + err8 (b :: own_trails b u)))))).
  { intros c d k fit n Hch Hi' -> Hk Hn Hb3. destruct (Z.ltb_spec 0 (n - 1)).
    - eapply (fast_result_cons _ _ _ (2 <= n - 1)); [done|]. eapply IH; eauto; cbn [c_at c_src]; lia.
    - right. eexists _, [b :: own_trails b u], rest, _. by split_and!. }
  cbn [fast_inner8]. rewrite Hs, Htl.
  destruct (inline8_within (fun _ => true) (concat done_) b u tail) as (r & -> & Hin); [|intros _; lia..|].
  { constructor; [done|]. by apply Forall_app. }
  cbn [mbind option_bind]. rewrite <- Hs, <- Htl in *.
  destruct Hin as [[-> Hge]|(Hsz2 & Hrange & ->)].
  - set (wide := (0xf0 <=? b) || (0xffff <? subchar)).
    destruct (wide && ((if wide then count - 1 else count) =? 0)) eqn:Hbreak.
    { right. exists st, [], ((b :: own_trails b u) :: rest), cs. rewrite app_nil_r. split_and!; auto.
      destruct wide; [|done]. intros. lia. }
    rewrite Htl, snoc_app, Hs, <- (zlen_snoc (concat done_) b).
    replace (zlen text) with (zlen ((concat done_ ++ [b]) ++ u)) by (rewrite Htx at 1; by rewrite <- app_assoc).
    rewrite nextCharSafeBodyPointer_spec by done. cbn [mbind option_bind].
    rewrite <- snoc_app, <- Htl. replace (zlen ((concat done_ ++ [b]) ++ u)) with (zlen text) by (rewrite Htx at 1; by rewrite <- app_assoc).
    rewrite zlen_snoc, <- Hs.
    assert (Hsubst : substitute subchar (piece_value (-1) (b :: own_trails b u)) (c_subs st) =
      match char8 subchar (b :: own_trails b u) with Some c => Some (c, c_subs st + err8 (b :: own_trails b u)) | None => None end).
    { unfold substitute, char8, err8. destruct (_ <? 0); [destruct (subchar <? 0); done|]. by rewrite Z.add_0_r. }
    rewrite Hsubst. destruct (char8 subchar (b :: own_trails b u)) as [c|] eqn:Hch.
    2:{ left. eexists. split; [done|]. split; [by eapply inv8_zlen|]. cbn. by rewrite Hch. }
    destruct (inv8_write done_ cs st b u c Hi Hr ltac:(lia) Htx Hb Hch) as (d & k & fit & Hw & Hi' & Hk).
    destruct (write16_unchecked c _ _ _ Hw) as [Hfit ->].
    { destruct (Z.leb_spec c 0xffff); [by left|right]. pose proof (char8_wide b u c Hbb Hu Hch ltac:(lia)) as Hwide. fold wide in Hwide.
      rewrite Hwide in Hbreak. cbn in Hbreak. lia. }
    cbn [fst snd] in *. cbn [mbind option_bind]. rewrite Hr.
    apply (Hstep c d k fit); auto.
    + pose proof (inv8_step_at _ _ _ _ _ _ _ _ _ _ _ Hi Hr Hi' eq_refl Hfit) as Hkk. rewrite Hkk. unfold encode.
      destruct (Z.leb_spec c 0xffff).
      * change (zlen [c]) with 1. destruct wide; lia.
      * pose proof (char8_wide b u c Hbb Hu Hch ltac:(lia)) as Hwide. fold wide in Hwide. rewrite Hwide.
        change (zlen [U16_LEAD c; U16_TRAIL c]) with 2. lia.
    + destruct wide; lia.
    + destruct (count_of b Hbb) as (_ & _ & _ & C). unfold wide. destruct (Z.leb_spec 0xf0 b); cbn [orb]; [lia|].
      specialize (C ltac:(lia)). destruct (0xffff <? subchar); lia.
  - assert (Hch : char8 subchar (b :: own_trails b u) = Some (piece_value (-1) (b :: own_trails b u))).
    { unfold char8. by destruct (Z.ltb_spec (piece_value (-1) (b :: own_trails b u)) 0); [lia|]. }
    destruct (inv8_write done_ cs st b u _ Hi Hr ltac:(lia) Htx Hb Hch) as (d & k & fit & Hw & Hi' & Hk).
    destruct (write16_unchecked _ _ _ _ Hw ltac:(left; lia)) as [Hfit Hst]. cbn [fst snd] in *.
    pose proof (inv8_step_at _ _ _ _ _ _ _ _ _ _ _ Hi Hr Hi' eq_refl Hfit) as Hkk.
    destruct (Z.leb_spec (piece_value (-1) (b :: own_trails b u)) 0xffff); [|lia].
    destruct (zset (c_dest st) (c_at st) _) as [d'|]; [|done]. cbn [mbind option_bind] in *. injection Hst as -> Hk1.
    rewrite Hr. rewrite Hk1. replace (c_subs st) with (c_subs st + err8 (b :: own_trails b u)).
    2:{ unfold err8. destruct (Z.ltb_spec (piece_value (-1) (b :: own_trails b u)) 0); lia. }
    apply (Hstep (piece_value (-1) (b :: own_trails b u)) d k fit); auto; lia.
Qed.

Lemma fast_loop8_spec fuel done_ cs st rest :
  inv8 done_ cs st -> c_req st = 0 -> pieces text = done_ ++ rest -> (length rest < fuel)%nat ->
  fast_result done_ rest False (fast_loop8 fuel (text ++ tail) (zlen text) subchar limit st).
Proof.
  revert done_ cs st rest. induction fuel as [|fuel IH]; intros done_ cs st rest Hi Hr Hp Hf; [lia|].
  cbn [fast_loop8]. set (q := Z.quot (zlen text - c_src st) 3).
  destruct (Z.ltb_spec (if q <? limit - c_at st then q else limit - c_at st) 3) as [Hlt|Hge].
  { right. exists st, [], rest, cs. rewrite app_nil_r. by split_and!. }
  set (count := if q <? limit - c_at st then q else limit - c_at st) in *.
  assert (Hq : 3 * q <= zlen text - c_src st).
  { pose proof (i_src _ _ _ Hi) as Hs. pose proof (pieces_concat text) as Hc. rewrite Hp, concat_app in Hc.
    apply (f_equal zlen) in Hc. rewrite zlen_app in Hc. pose proof (zlen_nonneg (concat rest)).
    unfold q. rewrite Z.quot_div_nonneg by lia. dlia. }
  assert (Hcount : count <= limit - c_at st /\ count <= q) by (unfold count; destruct (Z.ltb_spec q (limit - c_at st)); lia).
  destruct (fast_inner8_spec (Z.to_nat count) done_ cs st rest count) as [(d & -> & ? & ?)|(st' & mid & rest' & cs' & -> & -> & Hi' & Hr' & Hprog)];
    auto; [lia|lia|lia| |].
  - left. eauto.
  - cbn [mbind option_bind]. rewrite length_app in Hf. destruct mid as [|w mid]; [exfalso; apply Hprog; [lia|done]|].
    destruct (IH (done_ ++ w :: mid) cs' st' rest') as [(d & -> & ? & Hn)|(st2 & mid2 & rest2 & cs2 & -> & -> & Hi2 & Hr2 & _)]; auto.
    + by rewrite <- app_assoc.
    + cbn [length] in Hf. lia.
    + left. exists d. split_and!; auto. apply mapM_app_None. by right.
    + right. exists st2, ((w :: mid) ++ mid2), rest2, cs2. split_and!; [done|by rewrite <- app_assoc|by rewrite app_assoc|done|done].
Qed.
End From.

(** ** The conversion from UTF-8 *)

(** The buffer after a conversion to [w]: cut off at its capacity, or terminated. *)
Definition filled (dest0 w : list Z) (cap : Z) : list Z :=
  if zlen w <? cap then w ++ 0 :: drop (S (length w)) dest0 else ztake cap w ++ drop (Z.to_nat cap) dest0.

Definition length_code (n cap : Z) : UErrorCode :=
  if n <? cap then U_ZERO_ERROR else if n =? cap then U_STRING_NOT_TERMINATED_WARNING else U_BUFFER_OVERFLOW_ERROR.

(** [dest] with other contents. *)
Definition with_cells (dest : option (list Z)) (d : list Z) : option (list Z) :=
  match dest with Some _ => Some d | None => None end.

(** How the caller hands over [text]: by its length, or before a NUL. *)
Definition passed (text tail : list Z) (srcLength : Z) : Prop :=
  srcLength = zlen text \/ srcLength = -1 /\ Forall (fun x => x <> 0) text /\ exists t, tail = 0 :: t.

(** An argument for [subchar] that the functions accept. *)
Definition sub_ok (subchar : Z) : Prop := INT32_MIN <= subchar < 0 \/ scalar subchar.

Lemma sub_ok_args subchar :
  sub_ok subchar -> (0x10ffff <? subchar) || U_IS_SURROGATE (uint32 subchar) = false.
Proof.
  intros [Hn|[Hc Hs]].
  - destruct (Z.ltb_spec 0x10ffff subchar); [lia|]. cbn [orb]. apply not_true_iff_false.
    unfold INT32_MIN in Hn. unfold uint32. rewrite surrogate_range by dlia. dlia.
  - unfold code_point in Hc. destruct (Z.ltb_spec 0x10ffff subchar); [lia|]. cbn [orb]. apply not_true_iff_false.
    unfold uint32. rewrite Z.mod_small by lia. rewrite surrogate_range by lia. done.
Qed.

Lemma sub_ok_weaken subchar : sub_ok subchar -> subchar < 0 \/ scalar subchar.
Proof. intros [?|?]; [left; lia|by right]. Qed.

(** Termination after the loops: [d] holds the units as far as they fit. *)
Lemma terminate_filled dest w cap at_ :
  0 <= cap <= zlen (default [] dest) -> at_ = Z.min (zlen w) cap ->
  ustring.u_terminateUChars (with_cells dest (ztake at_ w ++ drop (Z.to_nat at_) (default [] dest))) cap (zlen w) U_ZERO_ERROR =
    Some (with_cells dest (filled (default [] dest) w cap), zlen w, length_code (zlen w) cap).
Proof.
  intros Hcap ->. unfold ustring.u_terminateUChars, filled, length_code. cbn [U_SUCCESS U_FAILURE negb].
  pose proof (zlen_nonneg w). destruct (Z.ltb_spec (zlen w) 0); [lia|]. destruct (Z.ltb_spec (zlen w) cap).
  - destruct dest as [d|]; [|unfold zlen in *; simpl in *; lia]. cbn [with_cells mbind option_bind default from_option id] in *.
    rewrite Z.min_l by lia. rewrite ztake_all.
    replace (Z.to_nat (zlen w)) with (length w) by (unfold zlen; lia). rewrite zset_next by lia. cbn [mbind option_bind].
    rewrite <- app_assoc, length_app. cbn [length app]. by rewrite Nat.add_comm.
  - rewrite Z.min_r by lia. by destruct (zlen w =? cap).
Qed.

Lemma pieces_nil_text front ws text :
  pieces text = front ++ ws -> (zlen (concat front) <? zlen text) = negb (bool_decide (ws = [])).
Proof.
  intros E. destruct (pieces_rest _ _ _ E) as (v & -> & Hp). rewrite zlen_app. destruct ws as [|w ws].
  - destruct v as [|b v]; [|by rewrite pieces_cons in Hp]. cbn. change (zlen (@nil Z)) with 0. rewrite Z.add_0_r. apply Z.ltb_irrefl.
  - destruct v as [|b v]; [done|]. cbn. rewrite zlen_cons. pose proof (zlen_nonneg v). apply Z.ltb_lt. lia.
Qed.

(** What the loops leave behind: an invalid character, or the whole text converted; nothing, if its
    length overflows. *)
Definition loops_done (text dest : list Z) (cap subchar : Z) (r : loop_result) : Prop :=
  (exists d, r = Some (inl (U_INVALID_CHAR_FOUND, d)) /\ zlen d = zlen dest /\ mapM (char8 subchar) (pieces text) = None) \/
  (exists st cs, r = Some (inr st) /\ inv8 dest cap subchar (pieces text) cs st) \/
  (r = None /\ too_long subchar text).

Lemma fromUTF8_nul text tail dest cap subchar :
  Forall byte8 (text ++ 0 :: tail) -> 0 <= cap <= zlen dest -> sub_ok subchar ->
  Forall (fun x => x <> 0) text ->
  let s := text ++ 0 :: tail in let fuel := S (length s) in
  let body s i ch := utf8_nextCharSafeBodyTerminated s i ch in
  let more i := ch ← zget s i; Some (negb (ch =? 0)) in
  loops_done text dest cap subchar
    (andThen (write_loop8 fuel (fun _ _ => true) body more s subchar cap (State 0 dest 0 0 0))
       (count_loop8 fuel (fun _ _ => true) body more s subchar)).
Proof.
  intros Hb Hcap Hsub Hnz s fuel body more0. pose proof Hb as [Ht _]%Forall_app.
  pose proof (pieces_count text) as Hcount.
  apply (write_count8_spec text dest cap subchar Ht Hcap (sub_ok_weaken _ Hsub) (fun _ _ => true) body more0 s) with
    (done_ := []) (cs := []); auto.
  - intros front ws E. destruct (pieces_rest _ _ _ E) as (v & Hv & Hp). unfold more0, s. rewrite Hv, <- app_assoc.
    destruct v as [|b v].
    + cbn [app]. rewrite zget_middle. cbn. by destruct ws.
    + cbn [app]. rewrite zget_middle. cbn [mbind option_bind]. rewrite pieces_cons in Hp. rewrite <- Hp. cbn.
      rewrite Hv, Forall_app, Forall_cons in Hnz. destruct Hnz as (_ & Hnz & _). by destruct (Z.eqb_spec b 0).
  - intros p b u E. unfold s. rewrite E, <- app_assoc. cbn [app]. apply read8_nul.
    rewrite E, <- app_assoc in Hb. by apply Forall_app in Hb as [_ ?].
  - apply inv8_start; auto.
  - unfold fuel, s. rewrite length_app. lia.
Qed.

Lemma fromUTF8_counted text tail dest cap subchar :
  Forall byte8 (text ++ tail) -> 0 <= cap <= zlen dest -> sub_ok subchar ->
  let s := text ++ tail in let fuel := S (length s) in let n := zlen text in
  let room i k := k <=? n - i in
  let body s i ch := utf8_nextCharSafeBodyPointer s i n ch in
  let more i := Some (i <? n) in
  loops_done text dest cap subchar
    (andThen (fast_loop8 fuel s n subchar cap (State 0 dest 0 0 0)) (fun st =>
     andThen (write_loop8 fuel room body more s subchar cap st) (count_loop8 fuel room body more s subchar))).
Proof.
  intros Hb Hcap Hsub s fuel n room body more0. pose proof Hb as [Ht Htl]%Forall_app.
  pose proof (pieces_count text) as Hcount. pose proof (sub_ok_weaken _ Hsub) as Hs.
  assert (Hf : (length (pieces text) < fuel)%nat) by (unfold fuel, s; rewrite length_app; lia).
  unfold andThen at 1.
  destruct (fast_loop8_spec text dest cap subchar Ht Hcap Hs tail Htl fuel [] [] (State 0 dest 0 0 0) (pieces text))
    as [(d & E & ? & ?)|(st & mid & rest & cs & E & Hsplit & Hi & Hr & _)]; auto; [by apply inv8_start| |].
  - fold s n in E. rewrite E. left. eauto.
  - fold s n in E. rewrite E. cbn [mbind option_bind]. rewrite Hsplit, length_app in Hf.
    assert (Hn : mapM (char8 subchar) rest = None -> mapM (char8 subchar) (pieces text) = None).
    { intros Hn. rewrite Hsplit. apply mapM_app_None. by right. }
    destruct (write_count8_spec text dest cap subchar Ht Hcap Hs room body more0 s) with
      (fuel := fuel) (done_ := mid) (cs := cs) (st := st) (rest := rest) as [(d & -> & ? & ?)|[(st' & cs' & -> & ?)|[-> ?]]]; auto.
    + intros front ws E'. unfold more0, n. by rewrite (pieces_nil_text _ _ _ E').
    + intros p b u E'. unfold room, body, n, s. rewrite E', <- app_assoc. cbn [app]. apply (read8_counted p b u tail).
      rewrite E', <- app_assoc in Hb. by apply Forall_app in Hb as [_ ?].
    + lia.
    + left. eauto.
    + right. left. eauto.
    + right. by right.
Qed.

(** Arguments that both conversion functions accept. *)
Lemma args_accepted (dest : option (list Z)) s cap srcLength subchar :
  -1 <= srcLength -> 0 <= cap <= zlen (default [] dest) -> sub_ok subchar ->
  (match Some s : option (list Z) with None => negb (srcLength =? 0) | Some _ => false end) || (srcLength <? -1) ||
  (cap <? 0) || (match dest with None => 0 <? cap | Some _ => false end) ||
  (0x10ffff <? subchar) || U_IS_SURROGATE (uint32 subchar) = false.
Proof.
  intros Hl Hcap Hsub. rewrite <- (orb_assoc _ (0x10ffff <? subchar)), sub_ok_args, orb_false_r by done. cbn [orb].
  destruct (Z.ltb_spec srcLength (-1)), (Z.ltb_spec cap 0); try lia. cbn [orb].
  destruct dest; [done|]. change (zlen (default [] None)) with 0 in Hcap. apply Z.ltb_ge. lia.
Qed.

Lemma passed_length text tail srcLength : passed text tail srcLength -> -1 <= srcLength.
Proof. pose proof (zlen_nonneg text). intros [->|[-> _]]; lia. Qed.

(** What the functions do with the state in which the loops end. *)
Definition finish (dest : option (list Z)) (cap : Z) (r : loop_result) : option result :=
  r ← r;
  match r with
  | inl (e, d) => Some (Result (match dest with Some _ => Some d | None => None end) None (Some 0) e false)
  | inr st =>
      reqLength ← checked (c_req st + c_at st);
      '(d, n, e) ← ustring.u_terminateUChars (match dest with Some _ => Some (c_dest st) | None => None end)
                     cap reqLength U_ZERO_ERROR;
      Some (Result d (Some n) (Some (c_subs st)) e true)
  end.

(** What a conversion from UTF-8 with this substitute returns: the units and their number, or
    the error of the first ill-formed piece. *)
Definition from_result (text : list Z) (dest : option (list Z)) (cap subchar : Z) (r : option result) : Prop :=
  match mapM (char8 subchar) (pieces text) with
  | Some cs =>
      r = Some (Result (with_cells dest (filled (default [] dest) (units cs) cap)) (Some (zlen (units cs)))
                  (Some (errors (pieces text))) (length_code (zlen (units cs)) cap) true)
  | None =>
      exists d, zlen d = zlen (default [] dest) /\
        r = Some (Result (with_cells dest d) None (Some 0) U_INVALID_CHAR_FOUND false)
  end.

(** The units of the result, without ill-formed pieces if there is no substitute. *)
Definition converted_length (subchar : Z) (text : list Z) : Z := zlen (units (omap (char8 subchar) (pieces text))).

Lemma mapM_omap (f : list Z -> option Z) ws cs : mapM f ws = Some cs -> omap f ws = cs.
Proof.
  revert cs. induction ws as [|w ws IH]; intros cs; cbn; [by intros [= <-]|]. destruct (f w) as [c|]; [|done]. cbn.
  destruct (mapM f ws) as [k|]; [|done]. cbn. intros [= <-]. f_equal. by apply IH.
Qed.

Lemma too_long_converted subchar text : too_long subchar text -> INT32_MAX < converted_length subchar text.
Proof.
  intros (front & rest & cs & Hp & Hm & Hlt). unfold converted_length. rewrite Hp, omap_app, (mapM_omap _ _ _ Hm). unfold units in *.
  rewrite map_app, concat_app, zlen_app. pose proof (zlen_nonneg (concat (map encode (omap (char8 subchar) rest)))). lia.
Qed.

Lemma converted_sentinel subchar text : converted_length U_SENTINEL text <= converted_length subchar text.
Proof.
  unfold converted_length, units. induction (pieces text) as [|w ws IH]; [done|].
  assert (Hs : char8 U_SENTINEL w = char8 subchar w \/ char8 U_SENTINEL w = None) by (unfold char8; destruct (piece_value (-1) w <? 0); [by right|by left]).
  change (omap ?f (w :: ws)) with (match f w with Some c => c :: omap f ws | None => omap f ws end).
  destruct Hs as [-> | ->]; destruct (char8 subchar w) as [c|]; cbn [map concat]; rewrite ?zlen_app; [lia..| |exact IH]. pose proof (zlen_nonneg (encode c)). lia.
Qed.

(** The function returns what the loops leave. *)
Lemma fromUTF8_loops text tail dest cap subchar srcLength :
  Forall byte8 (text ++ tail) -> 0 <= cap <= zlen (default [] dest) -> sub_ok subchar -> passed text tail srcLength ->
  exists R, loops_done text (default [] dest) cap subchar R /\
    u_strFromUTF8WithSub dest cap (Some (text ++ tail)) srcLength subchar U_ZERO_ERROR = finish dest cap R.
Proof.
  intros Hb Hcap Hsub Hpass. set (d0 := default [] dest) in *. unfold u_strFromUTF8WithSub. cbn [U_FAILURE].
  rewrite args_accepted by (eauto using passed_length). fold d0. destruct Hpass as [->|(-> & Hnz & t & ->)].
  - destruct (Z.ltb_spec (zlen text) 0); [pose proof (zlen_nonneg text); lia|].
    eexists. split; [apply (fromUTF8_counted text tail d0 cap subchar); auto|done].
  - eexists. split; [apply (fromUTF8_nul text t d0 cap subchar); auto|done].
Qed.

Lemma fromUTF8_spec text tail dest cap subchar srcLength :
  Forall byte8 (text ++ tail) -> 0 <= cap <= zlen (default [] dest) -> sub_ok subchar ->
  converted_length subchar text <= INT32_MAX -> passed text tail srcLength ->
  from_result text dest cap subchar (u_strFromUTF8WithSub dest cap (Some (text ++ tail)) srcLength subchar U_ZERO_ERROR).
Proof.
  intros Hb Hcap Hsub Hsize Hpass. destruct (fromUTF8_loops _ _ _ _ _ _ Hb Hcap Hsub Hpass) as (R & HR & ->). set (d0 := default [] dest) in *.
  unfold from_result. destruct HR as [(d & -> & Hd & ->)|[(st & cs & -> & Hi)|[_ Hlong%too_long_converted]]]; [by exists d| |lia].
  rewrite (i_conv _ _ _ _ _ _ Hi). unfold finish. cbn [mbind option_bind]. pose proof (i_total _ _ _ _ _ _ Hi) as Htot.
  unfold converted_length in Hsize. rewrite (mapM_omap _ _ _ (i_conv _ _ _ _ _ _ Hi)) in Hsize.
  pose proof (zlen_nonneg (units cs)). rewrite Z.add_comm, Htot.
  rewrite checked_in by (unfold INT32_MIN; lia). cbn [mbind option_bind]. rewrite (i_dest _ _ _ _ _ _ Hi).
  fold (with_cells dest (ztake (c_at st) (units cs) ++ drop (Z.to_nat (c_at st)) d0)). unfold d0.
  rewrite terminate_filled; [|done|].
  - cbn [mbind option_bind]. by rewrite (i_subs _ _ _ _ _ _ Hi).
  - pose proof (i_at _ _ _ _ _ _ Hi). pose proof (i_req _ _ _ _ _ _ Hi). destruct (i_full _ _ _ _ _ _ Hi); lia.
Qed.

(** Nothing guards the count: a text that is converted to more than [INT32_MAX] units makes it
    overflow. *)
Lemma fromUTF8_overflows text tail dest cap subchar srcLength cs :
  Forall byte8 (text ++ tail) -> 0 <= cap <= zlen (default [] dest) -> sub_ok subchar ->
  mapM (char8 subchar) (pieces text) = Some cs -> INT32_MAX < zlen (units cs) -> passed text tail srcLength ->
  u_strFromUTF8WithSub dest cap (Some (text ++ tail)) srcLength subchar U_ZERO_ERROR = None.
Proof.
  intros Hb Hcap Hsub Hm Hbig Hpass. destruct (fromUTF8_loops _ _ _ _ _ _ Hb Hcap Hsub Hpass) as (R & HR & ->).
  destruct HR as [(d & -> & _ & Hn)|[(st & cs' & -> & Hi)|[-> _]]]; [congruence| |done].
  unfold finish. cbn [mbind option_bind]. pose proof (i_conv _ _ _ _ _ _ Hi) as Hc. rewrite Hm in Hc. injection Hc as ->.
  rewrite Z.add_comm, (i_total _ _ _ _ _ _ Hi), checked_out by lia. done.
Qed.

(** ** The loops to UTF-8 *)

Definition surrogate (c : Z) : bool := (0xd800 <=? c) && (c <=? 0xdfff).

(** What a code point is converted to: a substitute, if there is one, for an unpaired surrogate. *)
Definition char16 (subchar c : Z) : option Z :=
  if surrogate c then if 0 <=? subchar then Some subchar else None else Some c.
Definition err16 (c : Z) : Z := if surrogate c then 1 else 0.
Definition errors16 (cs : list Z) : Z := foldr (fun c n => err16 c + n) 0 cs.

Definition bytes (cs : list Z) : list Z := concat (map encode8 cs).

Lemma bytes_snoc cs c : bytes (cs ++ [c]) = bytes cs ++ encode8 c.
Proof. unfold bytes. rewrite map_app, concat_app. cbn. by rewrite app_nil_r. Qed.

Lemma bytes_app cs cs' : bytes (cs ++ cs') = bytes cs ++ bytes cs'.
Proof. unfold bytes. by rewrite map_app, concat_app. Qed.

(** The code points before the first whose bytes do not fit any more. *)
Fixpoint fit (cap : Z) (cs : list Z) : list Z :=
  match cs with
  | [] => []
  | c :: cs => if zlen (encode8 c) <=? cap then c :: fit (cap - zlen (encode8 c)) cs else []
  end.

Lemma fit_snoc cap cs c :
  fit cap (cs ++ [c]) =
    if bool_decide (fit cap cs = cs) && (zlen (encode8 c) <=? cap - zlen (bytes cs)) then cs ++ [c] else fit cap cs.
Proof.
  revert cap. induction cs as [|x cs IH]; intros cap; cbn [app fit].
  - change (bytes []) with (@nil Z). rewrite zlen_nil, Z.sub_0_r. cbn. by destruct (_ <=? cap).
  - destruct (Z.leb_spec (zlen (encode8 x)) cap); [|done]. rewrite IH.
    change (bytes (x :: cs)) with (encode8 x ++ bytes cs). rewrite zlen_app.
    replace (cap - (zlen (encode8 x) + zlen (bytes cs))) with (cap - zlen (encode8 x) - zlen (bytes cs)) by lia.
    rewrite (bool_decide_ext (x :: fit (cap - zlen (encode8 x)) cs = x :: cs) (fit (cap - zlen (encode8 x)) cs = cs))
      by (split; [by intros [= ?]|by intros ->]).
    by destruct (_ && _).
Qed.

Lemma fit_bytes cap cs : 0 <= cap -> zlen (bytes (fit cap cs)) <= cap.
Proof.
  revert cap. induction cs as [|c cs IH]; intros cap Hc; cbn [fit]; [done|].
  destruct (Z.leb_spec (zlen (encode8 c)) cap); [|done].
  unfold bytes in *. cbn [map concat]. rewrite zlen_app. specialize (IH (cap - zlen (encode8 c)) ltac:(lia)). lia.
Qed.

Section To.
Context (text dest0 : list Z) (limit subchar : Z).
Hypothesis Htext : Forall unit16 text.
Hypothesis Hlimit : 0 <= limit <= zlen dest0.
Hypothesis Hsub : subchar < 0 \/ scalar subchar.
Hypothesis Hsize : 4 * zlen text <= INT32_MAX.

Record inv16 (done_ cs : list Z) (st : state) : Prop := {
  j_src : c_src st = zlen (units done_);
  j_conv : mapM (char16 subchar) done_ = Some cs;
  j_at : c_at st = zlen (bytes (fit limit cs));
  j_total : c_at st + c_req st = zlen (bytes cs);
  j_dest : c_dest st = bytes (fit limit cs) ++ drop (length (bytes (fit limit cs))) dest0;
  j_subs : c_subs st = errors16 done_
}.

Lemma inv16_start : inv16 [] [] (State 0 dest0 0 0 0).
Proof. by split. Qed.

Lemma errors16_snoc cs c : errors16 (cs ++ [c]) = errors16 cs + err16 c.
Proof. induction cs as [|x cs IH]; cbn; [lia|]. fold (errors16 (cs ++ [c])) (errors16 cs). lia. Qed.

Lemma mapM16_snoc ds d cs c :
  mapM (char16 subchar) ds = Some cs -> char16 subchar d = Some c -> mapM (char16 subchar) (ds ++ [d]) = Some (cs ++ [c]).
Proof.
  revert cs. induction ds as [|x ds IH]; intros cs E Ec; cbn in *.
  - injection E as <-. by rewrite Ec.
  - destruct (char16 subchar x) as [y|]; [|done]. cbn in *. destruct (mapM _ ds) as [ys|]; [|done]. cbn in *.
    injection E as <-. by rewrite (IH ys).
Qed.

Lemma char16_scalar c d : code_point c -> char16 subchar c = Some d -> scalar d.
Proof.
  intros Hc. unfold char16, surrogate. destruct (_ && _) eqn:Hs.
  - destruct (Z.leb_spec 0 subchar); [|done]. intros [= <-]. destruct Hsub; [lia|done].
  - intros [= <-]. split; [done|lia].
Qed.

Lemma inv16_zlen done_ cs st : inv16 done_ cs st -> zlen (c_dest st) = zlen dest0.
Proof.
  intros Hi. rewrite (j_dest _ _ _ Hi), zlen_app. pose proof (fit_bytes limit cs ltac:(lia)). unfold zlen in *.
  rewrite length_drop. lia.
Qed.

(** Appending one more character where it fits. *)
Lemma inv16_write done_ cs st c d :
  inv16 done_ cs st -> fit limit cs = cs -> code_point c -> char16 subchar c = Some d -> U8_LENGTH d <= limit - c_at st ->
  exists b k, appendUTF8 (c_dest st) (c_at st) d = Some (b, k) /\ k = c_at st + zlen (encode8 d) /\
    inv16 (done_ ++ [c]) (cs ++ [d]) (State (c_src st + zlen (encode c)) b k (c_req st) (c_subs st + err16 c)) /\
    fit limit (cs ++ [d]) = cs ++ [d].
Proof.
  intros Hi Hfit Hc Hd Hroom. pose proof (char16_scalar c d Hc Hd) as Hs. rewrite <- (encode8_length d Hs) in Hroom.
  pose proof (j_at _ _ _ Hi) as Ha. pose proof (j_dest _ _ _ Hi) as Hb. rewrite Hfit in Ha, Hb.
  assert (Hfit' : fit limit (cs ++ [d]) = cs ++ [d]).
  { rewrite fit_snoc, Hfit, bool_decide_true by done. cbn [andb]. rewrite Ha in Hroom.
    by destruct (Z.leb_spec (zlen (encode8 d)) (limit - zlen (bytes cs))); [|lia]. }
  assert (Hput : appendUTF8 (c_dest st) (c_at st) d = put_bytes (c_dest st) (c_at st) (stored d)).
  { unfold appendUTF8, stored. by repeat destruct (_ <=? _). }
  set (n := length (encode8 d)). set (r := drop (length (bytes cs)) dest0) in *.
  assert (Hlr : zlen (take n r) = zlen (encode8 d)).
  { unfold r, n, zlen in *. rewrite length_take, length_drop. lia. }
  rewrite Hput, Hb, <- (take_drop n r), Ha, put_stored by (apply Hs || done).
  eexists _, _. split; [done|]. split; [done|]. split; [|done].
  pose proof (j_src _ _ _ Hi). pose proof (j_subs _ _ _ Hi). pose proof (j_total _ _ _ Hi).
  split; cbn [c_src c_dest c_at c_req c_subs].
  - rewrite units_snoc, zlen_app. lia.
  - apply mapM16_snoc; [apply Hi|done].
  - rewrite Hfit', bytes_snoc, zlen_app. done.
  - rewrite bytes_snoc, zlen_app. lia.
  - rewrite Hfit', bytes_snoc, <- app_assoc. f_equal. f_equal. unfold r, n. by rewrite drop_drop, length_app.
  - rewrite errors16_snoc. lia.
Qed.

(** The character that starts with the unit [x], before [u], is read as a whole. *)
Definition reads16 (more : Z -> bool) (s p : list Z) (x : Z) (u : list Z) : Prop :=
  forall subs, read16 more s subchar x (zlen p + 1) subs =
    Some (match char16 subchar (first_cp x u) with
          | Some d => Some (d, zlen p + zlen (encode (first_cp x u)), subs + err16 (first_cp x u))
          | None => None
          end).

Lemma surrogate_unit x : unit16 x -> (x <=? 0xd7ff) || (0xe000 <=? x) = negb (surrogate x).
Proof. unfold surrogate. destruct (Z.leb_spec x 0xd7ff), (Z.leb_spec 0xe000 x), (Z.leb_spec 0xd800 x), (Z.leb_spec x 0xdfff); lia || done. Qed.

(** [more] says whether there is a next unit; where it says so there is one, or the end. *)
Lemma read16_spec more p x u tail :
  Forall unit16 (x :: u) -> (u <> [] -> more (zlen p + 1) = true) ->
  (u = [] -> surrogate x = true -> more (zlen p + 1) = false \/ exists t, tail = 0 :: t) ->
  reads16 more (p ++ x :: u ++ tail) p x u.
Proof.
  intros [Hx Hu]%Forall_cons Hm Hend subs. unfold read16. rewrite surrogate_unit by done.
  destruct (surrogate x) eqn:Hs; cbn [negb].
  2:{ assert (first_cp x u = x) as ->.
      { pose proof (first_cp_range x u Hx Hu) as Hr. destruct (pairs_with x u); [|done]. unfold surrogate in Hs. lia. }
      unfold char16, err16. rewrite Hs, encode_unit by done. change (zlen [x]) with 1. by rewrite Z.add_0_r. }
  assert (Hsr : 0xd800 <= x <= 0xdfff) by (unfold surrogate in Hs; lia).
  rewrite surrogate_lead by done.
  assert (Hsingle : first_cp x u = x ->
    Some (if 0 <=? subchar then Some (subchar, zlen p + 1, subs + 1) else None) =
    Some (match char16 subchar (first_cp x u) with
          | Some d => Some (d, zlen p + zlen (encode (first_cp x u)), subs + err16 (first_cp x u))
          | None => None
          end)).
  { intros ->. unfold char16, err16. rewrite Hs, encode_unit by done. change (zlen [x]) with 1. by destruct (0 <=? subchar). }
  destruct (U16_IS_LEAD x) eqn:Hl; cbn [andb].
  2:{ cbn [mbind option_bind]. apply Hsingle. destruct u as [|y u]; [done|]. cbn. unfold is_pair. by rewrite Hl. }
  destruct u as [|y u].
  { destruct (Hend eq_refl eq_refl) as [->|[t ->]]; [cbn [mbind option_bind]; by apply Hsingle|].
    destruct (more (zlen p + 1)); [|cbn [mbind option_bind]; by apply Hsingle].
    cbn [app]. rewrite zget_snoc_next, zget_cons_0 by done. cbn [mbind option_bind]. by apply Hsingle. }
  rewrite Hm by done. cbn [app]. rewrite zget_snoc_next, zget_cons_0 by done. cbn [mbind option_bind].
  cbn [first_cp] in *. unfold is_pair in *. rewrite Hl in *. cbn [andb] in *.
  destruct (U16_IS_TRAIL y) eqn:Ht; [|by apply Hsingle].
  apply Forall_cons in Hu as [Hy _]. destruct (encode_supplementary x y Hx Hy) as [Hr He]; [unfold is_pair; by rewrite Hl, Ht|].
  unfold char16, err16, surrogate. destruct (Z.leb_spec 0xd800 (U16_GET_SUPPLEMENTARY x y)), (Z.leb_spec (U16_GET_SUPPLEMENTARY x y) 0xdfff); try lia.
  cbn [andb]. rewrite He. change (zlen [x; y]) with 2. rewrite Z.add_0_r. do 4 f_equal. lia.
Qed.

(** The first code point of the rest of the text. *)
Lemma next_cp x u :
  Forall unit16 (x :: u) ->
  exists u', x :: u = encode (first_cp x u) ++ u' /\ code_points (x :: u) = first_cp x u :: code_points u' /\
    code_point (first_cp x u) /\ Forall unit16 u'.
Proof.
  intros Hu. destruct (code_points_cons x u Hu) as (c & w & u' & E & -> & Hc & Hcp & _).
  destruct (code_points_first x u) as [r Hr]. rewrite Hc in Hr. injection Hr as <- _.
  exists u'. split_and!; auto. rewrite E in Hu. by apply Forall_app in Hu as [_ ?].
Qed.

Lemma fit_length cap cs : (length (fit cap cs) <= length cs)%nat.
Proof. revert cap. induction cs as [|c cs IH]; intros cap; cbn [fit]; [done|]. destruct (_ <=? _); cbn [length]; [|lia]. specialize (IH (cap - zlen (encode8 c))). lia. Qed.

Lemma fit_bytes_le cap cs : zlen (bytes (fit cap cs)) <= zlen (bytes cs).
Proof.
  revert cap. induction cs as [|c cs IH]; intros cap; cbn [fit]; [done|]. pose proof (zlen_nonneg (bytes (c :: cs))).
  destruct (_ <=? _); [|done]. specialize (IH (cap - zlen (encode8 c))). unfold bytes in *. cbn [map concat]. rewrite !zlen_app. lia.
Qed.

Lemma req_nonneg done_ cs st : inv16 done_ cs st -> 0 <= c_req st.
Proof. intros Hi. pose proof (j_at _ _ _ Hi). pose proof (j_total _ _ _ Hi). pose proof (fit_bytes_le limit cs). lia. Qed.

Lemma bytes_bound ds v cs :
  text = units ds ++ v -> mapM (char16 subchar) ds = Some cs -> zlen (bytes cs) <= 4 * zlen text.
Proof.
  intros Ht Hm. assert (zlen (bytes cs) <= 4 * zlen (units ds)).
  { clear Ht. revert cs Hm. induction ds as [|c ds IH]; intros cs Hm; cbn in Hm; [by injection Hm as <-|].
    destruct (char16 subchar c) as [d|]; [|done]. cbn in Hm. destruct (mapM _ ds) as [cs'|]; [|done]. cbn in Hm. injection Hm as <-.
    unfold bytes, units in *. cbn [map concat]. rewrite !zlen_app. specialize (IH cs' eq_refl).
    pose proof (encode_nonempty c). rewrite encode8_size. repeat zcase; lia. }
  rewrite Ht, zlen_app. pose proof (zlen_nonneg v). lia.
Qed.

Lemma mapM16_app_None (l k : list Z) :
  mapM (char16 subchar) k = None -> mapM (char16 subchar) (l ++ k) = None.
Proof.
  induction l as [|w l IH]; intros Hk; cbn [app]; [done|]. cbn in *. destruct (char16 subchar w) as [c|]; [|done]. cbn in *.
  by rewrite IH.
Qed.

Section Loop16.
Context (more : Z -> bool) (next : Z -> option (option Z)) (s : list Z).
Hypothesis Hnext : forall p v, text = p ++ v -> next (zlen p) = Some (head v).
Hypothesis Hread : forall p x u, text = p ++ x :: u -> reads16 more s p x u.

Lemma write_loop16_spec fuel done_ cs st v :
  inv16 done_ cs st -> fit limit cs = cs -> text = units done_ ++ v -> (length v < fuel)%nat ->
  (exists d, write_loop16 fuel more next s subchar limit st = Some (inl (U_INVALID_CHAR_FOUND, d)) /\
     zlen d = zlen dest0 /\ mapM (char16 subchar) (code_points v) = None) \/
  (exists st' mid v' cs', write_loop16 fuel more next s subchar limit st = Some (inr st') /\
     code_points v = mid ++ code_points v' /\ text = units (done_ ++ mid) ++ v' /\ (length v' <= length v)%nat /\
     inv16 (done_ ++ mid) cs' st' /\ (v' = [] \/ fit limit cs' <> cs')).
Proof.
  revert done_ cs st v. induction fuel as [|fuel IH]; intros done_ cs st v Hi Hfit Ht Hf; [lia|].
  cbn [write_loop16]. rewrite (j_src _ _ _ Hi), (Hnext _ _ Ht). cbn [mbind option_bind].
  destruct v as [|x u].
  { right. exists st, [], [], cs. rewrite !app_nil_r in *. split_and!; auto. }
  cbn [head]. rewrite (Hread _ x u Ht). cbn [mbind option_bind].
  assert (Hxu : Forall unit16 (x :: u)) by (rewrite Ht in Htext; by apply Forall_app in Htext as [_ ?]).
  destruct (next_cp x u Hxu) as (u' & Hsplit & Hcps & Hcp & Hu'). set (c := first_cp x u) in *.
  assert (Ht' : text = units (done_ ++ [c]) ++ u') by (by rewrite units_snoc, <- app_assoc, <- Hsplit).
  pose proof (encode_nonempty c) as Hne. assert (Hlen : (length u' < length (x :: u))%nat).
  { rewrite Hsplit, length_app. unfold zlen in Hne. lia. }
  rewrite Hcps. destruct (char16 subchar c) as [d|] eqn:Hd.
  2:{ left. eexists. split; [done|]. split; [by eapply inv16_zlen|]. cbn. by rewrite Hd. }
  destruct (Z.leb_spec (U8_LENGTH d) (limit - c_at st)) as [Hroom|Hfull].
  - destruct (inv16_write done_ cs st c d Hi Hfit Hcp Hd Hroom) as (b & k & -> & _ & Hi' & Hfit'). cbn [mbind option_bind].
    rewrite (j_src _ _ _ Hi) in Hi'.
    destruct (IH _ _ _ u' Hi' Hfit' Ht') as [(d' & -> & Hd' & Hn)|(st' & mid & v' & cs' & -> & Hc' & Ht2 & Hl' & Hi2 & Hor)]; [lia| |].
    + left. exists d'. split_and!; auto. cbn. rewrite Hd. cbn. by rewrite Hn.
    + right. exists st', (c :: mid), v', cs'. rewrite <- app_assoc in *. rewrite Hc'. split_and!; auto. lia.
  - right. eexists _, [c], u', (cs ++ [d]). split; [done|]. split; [done|]. split; [done|]. split; [lia|].
    pose proof (char16_scalar c d Hcp Hd) as Hs. rewrite <- (encode8_length d Hs) in *.
    pose proof (j_at _ _ _ Hi) as Ha. pose proof (j_total _ _ _ Hi) as Htot. pose proof (j_dest _ _ _ Hi) as Hb. pose proof (j_subs _ _ _ Hi).
    assert (Hstuck : fit limit (cs ++ [d]) = cs).
    { rewrite fit_snoc, Hfit, bool_decide_true by done. cbn [andb]. rewrite Hfit in Ha.
      by destruct (Z.leb_spec (zlen (encode8 d)) (limit - zlen (bytes cs))); [lia|]. }
    rewrite Hfit in Ha, Hb. split; [|right].
    + split; cbn [c_src c_dest c_at c_req c_subs]; rewrite ?Hstuck; auto.
      * by rewrite units_snoc, zlen_app.
      * apply mapM16_snoc; [apply Hi|done].
      * rewrite bytes_snoc, zlen_app. lia.
      * rewrite errors16_snoc. lia.
    + rewrite Hstuck. intros E. apply (f_equal length) in E. rewrite length_app in E. simpl in E. lia.
Qed.

Lemma count_loop16_spec fuel done_ cs st v :
  inv16 done_ cs st -> v = [] \/ fit limit cs <> cs -> text = units done_ ++ v -> (length v < fuel)%nat ->
  (exists d, count_loop16 fuel more next s subchar st = Some (inl (U_INVALID_CHAR_FOUND, d)) /\
     zlen d = zlen dest0 /\ mapM (char16 subchar) (code_points v) = None) \/
  (exists st' cs', count_loop16 fuel more next s subchar st = Some (inr st') /\ inv16 (done_ ++ code_points v) cs' st').
Proof.
  revert done_ cs st v. induction fuel as [|fuel IH]; intros done_ cs st v Hi Hor Ht Hf; [lia|].
  cbn [count_loop16]. rewrite (j_src _ _ _ Hi), (Hnext _ _ Ht). cbn [mbind option_bind].
  destruct v as [|x u].
  { right. exists st, cs. cbn [code_points]. by rewrite app_nil_r. }
  cbn [head]. rewrite (Hread _ x u Ht). cbn [mbind option_bind]. destruct Hor as [?|Hstuck]; [done|].
  assert (Hxu : Forall unit16 (x :: u)) by (rewrite Ht in Htext; by apply Forall_app in Htext as [_ ?]).
  destruct (next_cp x u Hxu) as (u' & Hsplit & Hcps & Hcp & Hu'). set (c := first_cp x u) in *.
  assert (Ht' : text = units (done_ ++ [c]) ++ u') by (by rewrite units_snoc, <- app_assoc, <- Hsplit).
  pose proof (encode_nonempty c) as Hne. assert (Hlen : (length u' < length (x :: u))%nat).
  { rewrite Hsplit, length_app. unfold zlen in Hne. lia. }
  rewrite Hcps. destruct (char16 subchar c) as [d|] eqn:Hd.
  2:{ left. eexists. split; [done|]. split; [by eapply inv16_zlen|]. cbn. by rewrite Hd. }
  pose proof (char16_scalar c d Hcp Hd) as Hs. rewrite <- (encode8_length d Hs).
  assert (Hconv : mapM (char16 subchar) (done_ ++ [c]) = Some (cs ++ [d])) by (apply mapM16_snoc; [apply Hi|done]).
  pose proof (bytes_bound (done_ ++ [c]) u' (cs ++ [d]) Ht' Hconv) as Hbound. rewrite bytes_snoc, zlen_app in Hbound.
  pose proof (j_at _ _ _ Hi) as Ha. pose proof (j_total _ _ _ Hi) as Htot. pose proof (zlen_nonneg (bytes (fit limit cs))).
  pose proof (req_nonneg done_ cs st Hi). pose proof (encode8_nonempty d).
  rewrite checked_in by (unfold INT32_MIN; lia). cbn [mbind option_bind].
  assert (Hf' : fit limit (cs ++ [d]) = fit limit cs) by (rewrite fit_snoc, bool_decide_false by done; done).
  destruct (IH (done_ ++ [c]) (cs ++ [d])
    (State (zlen (units done_) + zlen (encode c)) (c_dest st) (c_at st) (c_req st + zlen (encode8 d)) (c_subs st + err16 c)) u')
    as [(d' & -> & Hd' & Hn)|(st' & cs' & -> & Hi2)].
  - pose proof (j_subs _ _ _ Hi). split; cbn [c_src c_dest c_at c_req c_subs]; rewrite ?Hf'; auto.
    + by rewrite units_snoc, zlen_app.
    + rewrite bytes_snoc, zlen_app. lia.
    + apply Hi.
    + rewrite errors16_snoc. lia.
  - right. rewrite Hf'. intros E. apply (f_equal length) in E. rewrite length_app in E.
    pose proof (fit_length limit cs). simpl in E. lia.
  - done.
  - lia.
  - left. exists d'. split_and!; auto. cbn. rewrite Hd. cbn. by rewrite Hn.
  - right. exists st', cs'. by rewrite <- app_assoc in Hi2.
Qed.

Lemma write_count16_spec fuel done_ cs st v :
  inv16 done_ cs st -> fit limit cs = cs -> text = units done_ ++ v -> (length v < fuel)%nat ->
  (exists d, andThen (write_loop16 fuel more next s subchar limit st) (count_loop16 fuel more next s subchar) =
       Some (inl (U_INVALID_CHAR_FOUND, d)) /\ zlen d = zlen dest0 /\ mapM (char16 subchar) (code_points v) = None) \/
  (exists st' cs', andThen (write_loop16 fuel more next s subchar limit st) (count_loop16 fuel more next s subchar) =
       Some (inr st') /\ inv16 (done_ ++ code_points v) cs' st').
Proof.
  intros Hi Hfit Ht Hf. unfold andThen.
  destruct (write_loop16_spec fuel done_ cs st v Hi Hfit Ht Hf)
    as [(d & -> & ? & ?)|(st' & mid & v' & cs' & -> & Hc & Ht' & Hl & Hi' & Hor)]; [left; eauto|].
  cbn [mbind option_bind].
  destruct (count_loop16_spec fuel _ cs' st' v' Hi' Hor Ht') as [(d & -> & ? & Hn)|(st2 & cs2 & -> & Hi2)]; [lia| |].
  - left. exists d. split_and!; auto. rewrite Hc. by apply mapM16_app_None.
  - right. exists st2, cs2. by rewrite Hc, app_assoc.
Qed.
End Loop16.

(** *** The fast loop *)

Context (tail : list Z).

Definition fast_result16 (done_ v : list Z) (progress : Prop) (r : loop_result) : Prop :=
  (exists d, r = Some (inl (U_INVALID_CHAR_FOUND, d)) /\ zlen d = zlen dest0 /\ mapM (char16 subchar) (code_points v) = None) \/
  (exists st' mid v' cs', r = Some (inr st') /\ code_points v = mid ++ code_points v' /\ text = units (done_ ++ mid) ++ v' /\
     inv16 (done_ ++ mid) cs' st' /\ fit limit cs' = cs' /\ (length v' <= length v)%nat /\
     (progress -> (length v' < length v)%nat)).

Lemma fast_inner16_spec fuel done_ cs st v count :
  inv16 done_ cs st -> fit limit cs = cs -> text = units done_ ++ v ->
  1 <= count <= Z.of_nat fuel -> 3 * count <= limit - c_at st -> count <= zlen v ->
  fast_result16 done_ v (2 <= count) (fast_inner16 fuel (text ++ tail) subchar count st).
Proof.
  revert done_ cs st v count. induction fuel as [|fuel IH]; intros done_ cs st v count Hi Hfit Ht Hc Hat Hv; [lia|].
  destruct v as [|x u]; [change (zlen (@nil Z)) with 0 in Hv; lia|]. rewrite zlen_cons in Hv.
  assert (Htl : text ++ tail = units done_ ++ x :: u ++ tail) by (rewrite Ht at 1; by rewrite <- app_assoc).
  cbn [fast_inner16]. rewrite (j_src _ _ _ Hi), Htl, zget_middle. cbn [mbind option_bind].
  assert (Hxu : Forall unit16 (x :: u)) by (rewrite Ht in Htext; by apply Forall_app in Htext as [_ ?]).
  pose proof Hxu as [Hx Hu]%Forall_cons. rewrite surrogate_unit, negb_involutive by done.
  destruct (surrogate x && ((if surrogate x then count - 1 else count) =? 0)) eqn:Hbreak.
  { right. exists st, [], (x :: u), cs. rewrite !app_nil_r. split_and!; auto.
    destruct (surrogate x); [|done]. intros. lia. }
  rewrite (read16_spec (fun _ => true) (units done_) x u tail Hxu); [|done|].
  2:{ intros -> Hs. exfalso. change (zlen (@nil Z)) with 0 in Hv. rewrite Hs in Hbreak. cbn in Hbreak. lia. }
  cbn [mbind option_bind]. rewrite <- Htl.
  destruct (next_cp x u Hxu) as (u' & Hsplit & Hcps & Hcp & Hu'). set (c := first_cp x u) in *.
  assert (Ht' : text = units (done_ ++ [c]) ++ u') by (by rewrite units_snoc, <- app_assoc, <- Hsplit).
  pose proof (encode_nonempty c) as Hne. assert (Hlen : zlen u + 1 = zlen (encode c) + zlen u') by (by rewrite <- (zlen_cons x u), Hsplit, zlen_app).
  unfold fast_result16. rewrite Hcps. destruct (char16 subchar c) as [d|] eqn:Hd.
  2:{ left. eexists. split; [done|]. split; [by eapply inv16_zlen|]. cbn. by rewrite Hd. }
  pose proof (char16_scalar c d Hcp Hd) as Hs.
  assert (Hcx : surrogate x = false -> c = x /\ d = x).
  { intros Hsx. assert (Hcx : c = x).
    { pose proof (first_cp_range x u Hx Hu) as Hr. fold c in Hr. destruct (pairs_with x u); [|done]. unfold surrogate in Hsx. lia. }
    split; [done|]. rewrite Hcx in Hd. unfold char16 in Hd. rewrite Hsx in Hd. by injection Hd. }
  assert (Hd3 : surrogate x = false -> zlen (encode8 d) <= 3).
  { intros Hsx. destruct (Hcx Hsx) as [_ ->]. rewrite encode8_size. unfold unit16 in Hx. repeat zcase; lia. }
  assert (Hd4 : zlen (encode8 d) <= 4) by (rewrite encode8_size; repeat zcase; lia).
  assert (Hc2 : zlen (encode c) <= if surrogate x then 2 else 1).
  { destruct (surrogate x) eqn:Hsx; [destruct (encode_length c); lia|]. destruct (Hcx eq_refl) as [-> _]. by rewrite encode_unit. }
  set (n := if surrogate x then count - 1 else count) in *.
  destruct (inv16_write done_ cs st c d Hi Hfit Hcp Hd) as (b & k & -> & Hk & Hi' & Hfit').
  { rewrite <- (encode8_length d Hs). unfold n in Hbreak. destruct (surrogate x); [cbn in Hbreak; lia|]. specialize (Hd3 eq_refl). lia. }
  cbn [mbind option_bind]. rewrite (j_src _ _ _ Hi) in Hi'. cbn [length].
  assert (Hlt : (length u' < S (length u))%nat) by (unfold zlen in *; lia).
  destruct (Z.ltb_spec 0 (n - 1)).
  - destruct (IH _ _ _ u' (n - 1) Hi' Hfit' Ht') as [(d' & -> & Hd' & Hn)|(st' & mid & v' & cs' & -> & Hc' & Ht2 & Hi2 & Hf2 & Hl2 & _)].
    + unfold n. destruct (surrogate x); lia.
    + cbn [c_at]. unfold n. destruct (surrogate x); [lia|specialize (Hd3 eq_refl); lia].
    + unfold n. destruct (surrogate x); lia.
    + left. exists d'. split_and!; auto. cbn. rewrite Hd. cbn. by rewrite Hn.
    + right. exists st', (c :: mid), v', cs'. rewrite <- app_assoc in *. rewrite Hc'. split_and!; auto; lia.
  - right. eexists _, [c], u', _. split; [done|]. split_and!; eauto; lia.
Qed.

Lemma fast_loop16_spec fuel done_ cs st v :
  inv16 done_ cs st -> fit limit cs = cs -> text = units done_ ++ v -> (length v < fuel)%nat ->
  fast_result16 done_ v False (fast_loop16 fuel (text ++ tail) (zlen text) subchar limit st).
Proof.
  revert done_ cs st v. induction fuel as [|fuel IH]; intros done_ cs st v Hi Hfit Ht Hf; [lia|].
  cbn [fast_loop16]. set (q := Z.quot (limit - c_at st) 3).
  assert (Hrest : zlen text - c_src st = zlen v) by (rewrite (j_src _ _ _ Hi); rewrite Ht at 1; rewrite zlen_app; lia). rewrite Hrest.
  destruct (Z.ltb_spec (if zlen v <? q then zlen v else q) 3) as [Hlt|Hge].
  { right. exists st, [], v, cs. rewrite !app_nil_r. by split_and!. }
  set (count := if zlen v <? q then zlen v else q) in *.
  assert (Hcount : count <= zlen v /\ count <= q) by (unfold count; destruct (Z.ltb_spec (zlen v) q); lia).
  assert (Hq : 3 * q <= limit - c_at st).
  { rewrite (j_at _ _ _ Hi). unfold q. rewrite (j_at _ _ _ Hi). pose proof (fit_bytes limit cs ltac:(lia)).
    rewrite Z.quot_div_nonneg by lia. dlia. }
  destruct (fast_inner16_spec (Z.to_nat count) done_ cs st v count)
    as [(d & -> & ? & ?)|(st' & mid & v' & cs' & -> & Hc & Ht' & Hi' & Hf' & _ & Hprog)]; auto; [lia..|left; eauto|].
  cbn [mbind option_bind]. specialize (Hprog ltac:(lia)).
  destruct (IH (done_ ++ mid) cs' st' v') as [(d & -> & ? & Hn)|(st2 & mid2 & v2 & cs2 & -> & Hc2 & Ht2 & Hi2 & Hf2 & Hl2 & _)]; auto; [lia| |].
  - left. exists d. split_and!; auto. rewrite Hc. by apply mapM16_app_None.
  - right. exists st2, (mid ++ mid2), v2, cs2. rewrite Hc, Hc2. rewrite <- app_assoc in *. split_and!; auto; [lia|done].
Qed.
End To.

(** ** The conversion to UTF-8 *)

Definition filled8 (dest0 cs : list Z) (cap : Z) : list Z :=
  if zlen (bytes cs) <? cap then bytes cs ++ 0 :: drop (S (length (bytes cs))) dest0
  else bytes (fit cap cs) ++ drop (length (bytes (fit cap cs))) dest0.

Lemma fit_all cap cs : zlen (bytes cs) <= cap -> fit cap cs = cs.
Proof.
  revert cap. induction cs as [|c cs IH]; intros cap Hc; [done|]. unfold bytes in *. cbn [map concat fit] in *. rewrite zlen_app in Hc.
  pose proof (zlen_nonneg (concat (map encode8 cs))). destruct (Z.leb_spec (zlen (encode8 c)) cap); [|lia]. by rewrite IH by lia.
Qed.

Lemma terminate_filled8 dest cs cap :
  0 <= cap <= zlen (default [] dest) ->
  ustring.u_terminateUChars (with_cells dest (bytes (fit cap cs) ++ drop (length (bytes (fit cap cs))) (default [] dest)))
    cap (zlen (bytes cs)) U_ZERO_ERROR =
    Some (with_cells dest (filled8 (default [] dest) cs cap), zlen (bytes cs), length_code (zlen (bytes cs)) cap).
Proof.
  intros Hcap. unfold ustring.u_terminateUChars, filled8, length_code. cbn [U_SUCCESS U_FAILURE negb].
  pose proof (zlen_nonneg (bytes cs)). destruct (Z.ltb_spec (zlen (bytes cs)) 0); [lia|]. destruct (Z.ltb_spec (zlen (bytes cs)) cap).
  - destruct dest as [d|]; [|unfold zlen in *; simpl in *; lia]. cbn [with_cells mbind option_bind from_option id] in *.
    rewrite fit_all, zset_next by lia. cbn [mbind option_bind]. rewrite <- app_assoc, length_app. cbn [length app]. by rewrite Nat.add_comm.
  - by destruct (zlen (bytes cs) =? cap).
Qed.

Definition loops_done16 (text dest : list Z) (cap subchar : Z) (r : loop_result) : Prop :=
  (exists d, r = Some (inl (U_INVALID_CHAR_FOUND, d)) /\ zlen d = zlen dest /\ mapM (char16 subchar) (code_points text) = None) \/
  (exists st cs, r = Some (inr st) /\ inv16 dest cap subchar (code_points text) cs st).

Lemma toUTF8_nul text tail dest cap subchar :
  Forall unit16 text -> 0 <= cap <= zlen dest -> sub_ok subchar -> 4 * zlen text <= INT32_MAX ->
  Forall (fun x => x <> 0) text ->
  let s := text ++ 0 :: tail in let fuel := S (length s) in
  let next i := ch ← zget s i; Some (if ch =? 0 then None else Some ch) in
  loops_done16 text dest cap subchar
    (andThen (write_loop16 fuel (fun _ => true) next s subchar cap (State 0 dest 0 0 0))
       (count_loop16 fuel (fun _ => true) next s subchar)).
Proof.
  intros Ht Hcap Hsub Hsize Hnz s fuel next.
  apply (write_count16_spec text dest cap subchar Ht Hcap (sub_ok_weaken _ Hsub) Hsize (fun _ => true) next s) with
    (done_ := []) (cs := []); auto.
  - intros p v E. unfold next, s. rewrite E, <- app_assoc. destruct v as [|x v]; cbn [app].
    + by rewrite zget_middle.
    + rewrite zget_middle. cbn [mbind option_bind head]. rewrite E, Forall_app, Forall_cons in Hnz. destruct Hnz as (_ & ? & _).
      by destruct (Z.eqb_spec x 0).
  - intros p x u E. unfold s. rewrite E, <- app_assoc. cbn [app]. apply read16_spec; eauto.
    rewrite E in Ht. by apply Forall_app in Ht as [_ ?].
  - apply inv16_start.
  - unfold fuel, s. rewrite length_app. lia.
Qed.

Lemma toUTF8_counted text tail dest cap subchar :
  Forall unit16 text -> 0 <= cap <= zlen dest -> sub_ok subchar -> 4 * zlen text <= INT32_MAX ->
  let s := text ++ tail in let fuel := S (length s) in let n := zlen text in
  let more i := i <? n in
  let next i := if i <? n then ch ← zget s i; Some (Some ch) else Some None in
  loops_done16 text dest cap subchar
    (andThen (fast_loop16 fuel s n subchar cap (State 0 dest 0 0 0)) (fun st =>
     andThen (write_loop16 fuel more next s subchar cap st) (count_loop16 fuel more next s subchar))).
Proof.
  intros Ht Hcap Hsub Hsize s fuel n more0 next. pose proof (sub_ok_weaken _ Hsub) as Hs.
  assert (Hf : (length text < fuel)%nat) by (unfold fuel, s; rewrite length_app; lia).
  unfold andThen at 1.
  destruct (fast_loop16_spec text dest cap subchar Ht Hcap Hs tail fuel [] [] (State 0 dest 0 0 0) text)
    as [(d & E & ? & ?)|(st & mid & v & cs & E & Hsplit & Ht' & Hi & Hfit & Hl & _)]; auto; [by apply inv16_start| |];
    fold s n in E; rewrite E; [left; eauto|].
  cbn [mbind option_bind].
  destruct (write_count16_spec text dest cap subchar Ht Hcap Hs Hsize more0 next s) with
    (fuel := fuel) (done_ := mid) (cs := cs) (st := st) (v := v) as [(d & -> & ? & Hn)|(st' & cs' & -> & Hi')]; auto.
  - intros p w E'. unfold next, s, n. rewrite E', zlen_app, <- app_assoc. destruct w as [|x w].
    + change (zlen (@nil Z)) with 0. by rewrite Z.add_0_r, Z.ltb_irrefl.
    + rewrite zlen_cons. pose proof (zlen_nonneg w). destruct (Z.ltb_spec (zlen p) (zlen p + (zlen w + 1))); [|lia].
      cbn [app]. by rewrite zget_middle.
  - intros p x u E'. unfold more0, n, s. rewrite E', <- app_assoc. cbn [app]. apply read16_spec.
    + rewrite E' in Ht. by apply Forall_app in Ht as [_ ?].
    + intros Hu. rewrite zlen_app, zlen_cons. destruct u as [|y u]; [done|]. rewrite zlen_cons. pose proof (zlen_nonneg u). apply Z.ltb_lt. lia.
    + intros -> _. left. rewrite zlen_app. change (zlen [x]) with 1. apply Z.ltb_irrefl.
  - lia.
  - left. exists d. split_and!; auto. rewrite Hsplit. by apply mapM16_app_None.
  - right. exists st', cs'. by rewrite Hsplit.
Qed.

Definition to_result (text : list Z) (dest : option (list Z)) (cap subchar : Z) (r : option result) : Prop :=
  match mapM (char16 subchar) (code_points text) with
  | Some cs =>
      r = Some (Result (with_cells dest (filled8 (default [] dest) cs cap)) (Some (zlen (bytes cs)))
                  (Some (errors16 (code_points text))) (length_code (zlen (bytes cs)) cap) true)
  | None =>
      exists d, zlen d = zlen (default [] dest) /\
        r = Some (Result (with_cells dest d) None (Some 0) U_INVALID_CHAR_FOUND false)
  end.

Lemma toUTF8_spec text tail dest cap subchar srcLength :
  Forall unit16 text -> 0 <= cap <= zlen (default [] dest) -> sub_ok subchar ->
  4 * zlen text <= INT32_MAX -> passed text tail srcLength ->
  to_result text dest cap subchar (u_strToUTF8WithSub dest cap (Some (text ++ tail)) srcLength subchar U_ZERO_ERROR).
Proof.
  intros Ht Hcap Hsub Hsize Hpass. set (d0 := default [] dest) in *. set (r := u_strToUTF8WithSub _ _ _ _ _ _).
  assert (exists R, loops_done16 text d0 cap subchar R /\ r = finish dest cap R) as (R & HR & Hr).
  { unfold r, u_strToUTF8WithSub. cbn [U_FAILURE]. rewrite args_accepted by (eauto using passed_length). fold d0.
    destruct Hpass as [->|(-> & Hnz & t & ->)].
    - destruct (Z.eqb_spec (zlen text) (-1)); [pose proof (zlen_nonneg text); lia|].
      eexists. split; [apply (toUTF8_counted text tail d0 cap subchar); auto|done].
    - eexists. split; [apply (toUTF8_nul text t d0 cap subchar); auto|done]. }
  unfold to_result. rewrite Hr. destruct HR as [(d & -> & Hd & ->)|(st & cs & -> & Hi)]; [by exists d|].
  rewrite (j_conv _ _ _ _ _ _ Hi). unfold finish. cbn [mbind option_bind]. pose proof (j_total _ _ _ _ _ _ Hi) as Htot.
  assert (zlen (bytes cs) <= 4 * zlen text).
  { apply (bytes_bound text subchar (code_points text) [] cs); [|apply Hi]. rewrite app_nil_r. symmetry. by apply encode_code_points. }
  pose proof (zlen_nonneg (bytes cs)). rewrite Z.add_comm, Htot.
  rewrite checked_in by (unfold INT32_MIN; lia). cbn [mbind option_bind]. rewrite (j_dest _ _ _ _ _ _ Hi).
  fold (with_cells dest (bytes (fit cap cs) ++ drop (length (bytes (fit cap cs))) d0)). unfold d0.
  rewrite terminate_filled8 by done. cbn [mbind option_bind]. by rewrite (j_subs _ _ _ _ _ _ Hi).
Qed.

(** ** There and back *)

(** A complete well-formed piece is the encoding of its value: UTF-8 has one form only. *)
Lemma encode8_value b u :
  byte8 b -> Forall byte8 u -> 0 <= piece_value (-1) (b :: own_trails b u) ->
  encode8 (piece_value (-1) (b :: own_trails b u)) = b :: own_trails b u /\
  scalar (piece_value (-1) (b :: own_trails b u)).
Proof.
  intros Hb Hu. pose proof (own_trails_range b u Hu) as Hr. destruct (lead_bits_value b Hb) as (L1 & L2 & L3).
  pose proof (lead_bits_range b Hb) as Hbits. destruct (Z.ltb_spec b 0x80) as [Hlt|Hge].
  { destruct (count_of b Hb) as [C _]. unfold own_trails. rewrite C by lia. cbn [Z.to_nat take_trails piece_value].
    intros _. unfold byte8 in Hb. destruct (Z.ltb_spec b 0x80); [|lia]. unfold encode8. zcase; [|lia].
    split; [done|]. split; unfold code_point; lia. }
  rewrite piece_value_multi by done. set (ts := own_trails b u) in *. change (error8 (-1)) with (-1).
  destruct (Z.eqb_spec (zlen ts) (U8_COUNT_TRAIL_BYTES b)) as [E|]; cbn [andb]; [|lia]. rewrite <- E in *.
  destruct (Z.leb_spec 1 (zlen ts)), (Z.leb_spec (zlen ts) 3); cbn [andb]; try lia.
  destruct (legal (-1) (zlen ts) (seq_value b ts)) eqn:Hl; [intros _|lia]. unfold legal in Hl.
  change (-1 =? -2) with false in Hl. cbn [orb] in Hl. unfold byte8 in Hb. unfold scalar, code_point.
  destruct ts as [|t [|t' [|t'' [|x ts]]]]; autorewrite with zlen in *; change (zlen (@nil Z)) with 0 in *; try lia.
  4: pose proof (zlen_nonneg ts); lia.
  all: change (0 + 1 + 1 + 1) with 3 in *; change (0 + 1 + 1) with 2 in *; change (0 + 1) with 1 in *;
    rewrite ?Forall_cons in Hr; unfold seq_value in *; cbn [fold_left] in *; unfold more in *.
  all: [> rewrite L1 in * by done; change (default 0 (zget utf8_minLegal 1)) with 0x80 in Hl
       | rewrite L2 in * by done; change (default 0 (zget utf8_minLegal 2)) with 0x800 in Hl
       | rewrite L3 in * by done; change (default 0 (zget utf8_minLegal 3)) with 0x10000 in Hl].
  all: split; [|lia]; unfold encode8; repeat zcase; try lia; repeat f_equal; dlia.
Qed.

Lemma well_formed_bytes u :
  Forall byte8 u -> Forall (fun w => 0 <= piece_value (-1) w) (pieces u) ->
  bytes (decode8 (-1) u) = u /\ Forall scalar (decode8 (-1) u).
Proof.
  induction u as [u IH] using (induction_ltof1 _ (@length Z)). intros Hu Hw. destruct u as [|b u]; [split; [done|constructor]|].
  unfold decode8 in *. rewrite pieces_cons in *. apply Forall_cons in Hw as [Hw Hws], Hu as [Hb Hu].
  destruct (encode8_value b u Hb Hu Hw) as [He Hs]. set (rest := drop (length (own_trails b u)) u) in *.
  assert (u = own_trails b u ++ rest) as Hsplit.
  { pose proof (pieces_concat (b :: u)) as Hc. rewrite pieces_cons in Hc. cbn [concat app] in Hc. fold rest in Hc.
    rewrite pieces_concat in Hc. by injection Hc as ->. }
  destruct (IH rest) as [Hb' Hs']; auto.
  - unfold ltof, rest. rewrite length_drop. cbn [length]. lia.
  - rewrite Hsplit in Hu. by apply Forall_app in Hu as [_ ?].
  - unfold bytes in *. cbn [map concat]. rewrite He, Hb'. split; [cbn [app]; by rewrite <- Hsplit|by constructor].
Qed.

Lemma code_points_units cs : Forall scalar cs -> code_points (units cs) = cs /\ Forall unit16 (units cs).
Proof.
  induction 1 as [|c cs [Hc Hs] Hcs [IH Hu]]; [split; [done|constructor]|].
  unfold units in *. cbn [map concat]. split; [|apply Forall_app; split; [by apply encode_units|done]].
  unfold code_point in Hc. unfold encode at 1. zcase; cbn [app].
  - rewrite pairs_with_false, IH; [done|]. destruct (concat (map encode cs)) as [|y w]; [done|]. cbn [pairs_with].
    apply Forall_cons in Hu as [Hy _]. apply not_true_iff_false. rewrite is_pair_range; unfold unit16 in *; lia.
  - destruct (encode_pair c) as [Hp Hv]; [lia|]. cbn [code_points]. by rewrite Hp, Hv, IH.
Qed.

Lemma char16_valid cs : Forall scalar cs -> mapM (char16 U_SENTINEL) cs = Some cs /\ errors16 cs = 0.
Proof.
  induction 1 as [|c cs [Hc Hs] Hcs [IH He]]; [done|]. assert (surrogate c = false) as E by (unfold surrogate; lia). cbn.
  assert (char16 U_SENTINEL c = Some c /\ err16 c = 0) as [-> Hc0] by (unfold char16, err16; by rewrite E).
  fold (errors16 cs). by rewrite IH, He, Hc0.
Qed.

Lemma char8_valid ws :
  Forall (fun w => 0 <= piece_value (-1) w) ws ->
  mapM (char8 U_SENTINEL) ws = Some (map (piece_value (-1)) ws) /\ errors ws = 0.
Proof.
  induction 1 as [|w ws Hw Hws [IH He]]; [done|]. cbn.
  assert (char8 U_SENTINEL w = Some (piece_value (-1) w) /\ err8 w = 0) as [-> Hw0]
    by (unfold char8, err8; by destruct (Z.ltb_spec (piece_value (-1) w) 0); [lia|]).
  fold (errors ws). by rewrite IH, He, Hw0.
Qed.

(** The sizes of the two forms of a text bound each other. *)
Lemma form_sizes cs : Forall scalar cs -> zlen (units cs) <= zlen (bytes cs) <= 3 * zlen (units cs).
Proof.
  induction 1 as [|c cs [Hc _] Hcs IH]; [done|]. unfold units, bytes in *. cbn [map concat]. rewrite !zlen_app.
  unfold code_point in Hc. rewrite encode8_size, encode_zlen by done. unfold U16_LENGTH, uint32. rewrite Z.mod_small by lia.
  repeat zcase; lia.
Qed.

Lemma length_code_success n cap : n <= cap -> U_SUCCESS (length_code n cap) = true.
Proof. intros H. unfold length_code. destruct (Z.ltb_spec n cap); [done|]. by destruct (Z.eqb_spec n cap); [|lia]. Qed.

Lemma filled_all (d w : list Z) : zlen w <= zlen d -> exists rest, filled d w (zlen d) = w ++ rest.
Proof.
  intros H. unfold filled. destruct (Z.ltb_spec (zlen w) (zlen d)); [by eexists|].
  exists (drop (Z.to_nat (zlen d)) d). replace (zlen d) with (zlen w) at 1 by lia. by rewrite ztake_all.
Qed.

Lemma filled8_all d cs :
  Forall byte8 d -> zlen (bytes cs) <= zlen d ->
  exists rest, filled8 d cs (zlen d) = bytes cs ++ rest /\ Forall byte8 rest.
Proof.
  intros Hd H. unfold filled8. destruct (Z.ltb_spec (zlen (bytes cs)) (zlen d)).
  - eexists. split; [done|]. constructor; [unfold byte8; lia|by apply Forall_drop].
  - rewrite fit_all by done. eexists. split; [done|]. by apply Forall_drop.
Qed.

(** The conversions of a well-formed text into buffers that take it. *)
Lemma toUTF8_valid text tail d cs :
  Forall unit16 text -> code_points text = cs -> Forall scalar cs -> 4 * zlen text <= INT32_MAX ->
  Forall byte8 d -> zlen (bytes cs) <= zlen d ->
  exists rest e, u_strToUTF8 (Some d) (zlen d) (Some (text ++ tail)) (zlen text) U_ZERO_ERROR =
    Some (Result (Some (bytes cs ++ rest)) (Some (zlen (bytes cs))) (Some 0) e true) /\ U_SUCCESS e = true /\ Forall byte8 rest.
Proof.
  intros Ht Hcs Hs Hsize Hd Hl. pose proof (zlen_nonneg d).
  pose proof (toUTF8_spec text tail (Some d) (zlen d) U_SENTINEL (zlen text) Ht) as Hr. cbn [from_option id] in Hr.
  specialize (Hr ltac:(lia) ltac:(by left) Hsize ltac:(by left)). unfold to_result in Hr. cbn [from_option id] in Hr.
  destruct (char16_valid cs Hs) as [Hm He]. rewrite Hcs, Hm, He in Hr.
  destruct (filled8_all d cs Hd Hl) as (rest & Hf & Hb). cbn [with_cells] in Hr. rewrite Hf in Hr.
  exists rest, (length_code (zlen (bytes cs)) (zlen d)). split; [exact Hr|]. split; [by apply length_code_success|done].
Qed.

Lemma fromUTF8_valid b tail d cs :
  Forall byte8 (b ++ tail) -> Forall (fun w => 0 <= piece_value (-1) w) (pieces b) -> decode8 (-1) b = cs ->
  zlen (units cs) <= INT32_MAX -> zlen (units cs) <= zlen d ->
  exists rest e, u_strFromUTF8 (Some d) (zlen d) (Some (b ++ tail)) (zlen b) U_ZERO_ERROR =
    Some (Result (Some (units cs ++ rest)) (Some (zlen (units cs))) (Some 0) e true) /\ U_SUCCESS e = true.
Proof.
  intros Hb Hw Hcs Hsize Hl. pose proof (zlen_nonneg d).
  pose proof (fromUTF8_spec b tail (Some d) (zlen d) U_SENTINEL (zlen b) Hb) as Hr. cbn [from_option id] in Hr.
  destruct (char8_valid (pieces b) Hw) as [Hm He]. unfold decode8 in Hcs. assert (Hfit : converted_length U_SENTINEL b <= INT32_MAX) by (unfold converted_length; rewrite (mapM_omap _ _ _ Hm), Hcs; done).
  specialize (Hr ltac:(lia) ltac:(by left) Hfit ltac:(by left)). unfold from_result in Hr. cbn [from_option id] in Hr. rewrite Hm, He, Hcs in Hr.
  destruct (filled_all d (units cs) Hl) as (rest & Hf). cbn [with_cells] in Hr. rewrite Hf in Hr.
  exists rest, (length_code (zlen (units cs)) (zlen d)). split; [exact Hr|by apply length_code_success].
Qed.

Lemma encoded_well_formed cs : Forall scalar cs ->
  Forall byte8 (bytes cs) /\ Forall (fun w => 0 <= piece_value (-1) w) (pieces (bytes cs)) /\ decode8 (-1) (bytes cs) = cs.
Proof.
  intros Hs. split; [by apply encoded_bytes|]. split; [|by apply decode8_encoded]. unfold bytes. rewrite pieces_encoded by done.
  apply Forall_map. eapply Forall_impl; [exact Hs|]. intros c Hc. rewrite encode8_piece by done. destruct Hc as [[? _] _]. done.
Qed.

(** ** Claims *)

(** C23: [u_strFromUTF8WithSub] (and [u_strFromUTF8], with a negative substitute) on any bytes,
    given by length or NUL-terminated, that are converted to at most [INT32_MAX] units: the text is
    converted piece by piece, ill-formed pieces to the substitute or, without one, to
    [U_INVALID_CHAR_FOUND]; the returned length is that of the whole result, the buffer holds as
    much of it as fits, terminated if there is room, with the warning or the overflow error
    otherwise; both variants agree and touch nothing else.  Beyond [INT32_MAX] units the count
    overflows ([fromUTF8_overflows]); bytes that an [int32_t] counts get there only with a
    supplementary substitute for ill-formed pieces. *)
Theorem u_strFromUTF8_correct text tail dest cap subchar srcLength :
  Forall byte8 (text ++ tail) -> 0 <= cap <= zlen (default [] dest) -> sub_ok subchar ->
  converted_length subchar text <= INT32_MAX -> passed text tail srcLength ->
  from_result text dest cap subchar
    (u_strFromUTF8WithSub dest cap (Some (text ++ tail)) srcLength subchar U_ZERO_ERROR) /\
  from_result text dest cap U_SENTINEL (u_strFromUTF8 dest cap (Some (text ++ tail)) srcLength U_ZERO_ERROR).
Proof.
  intros Hb Hcap Hsub Hsize Hp. split; [by apply fromUTF8_spec|]. apply fromUTF8_spec; auto; [by left|]. pose proof (converted_sentinel subchar text). lia.
Qed.

Lemma u_strFromUTF8_correct_witness :
  from_result [0x41; 0xe2; 0x82; 0xac; 0xc0; 0xf0; 0x9f; 0x98; 0x80] (Some (replicate 5 7)) 5 0xfffd
    (u_strFromUTF8WithSub (Some (replicate 5 7)) 5
       (Some ([0x41; 0xe2; 0x82; 0xac; 0xc0; 0xf0; 0x9f; 0x98; 0x80] ++ [0])) (-1) 0xfffd U_ZERO_ERROR) /\
  from_result [0x41; 0xe2; 0x82; 0xac; 0xc0; 0xf0; 0x9f; 0x98; 0x80] (Some (replicate 5 7)) 5 U_SENTINEL
    (u_strFromUTF8 (Some (replicate 5 7)) 5
       (Some ([0x41; 0xe2; 0x82; 0xac; 0xc0; 0xf0; 0x9f; 0x98; 0x80] ++ [0])) (-1) U_ZERO_ERROR) /\
  u_strFromUTF8WithSub (Some (replicate 5 7)) 5
    (Some ([0x41; 0xe2; 0x82; 0xac; 0xc0; 0xf0; 0x9f; 0x98; 0x80] ++ [0])) (-1) 0xfffd U_ZERO_ERROR =
    Some (Result (Some [0x41; 0x20ac; 0xfffd; 0xd83d; 0xde00]) (Some 5) (Some 1) U_STRING_NOT_TERMINATED_WARNING true).
Proof.
  destruct (u_strFromUTF8_correct [0x41; 0xe2; 0x82; 0xac; 0xc0; 0xf0; 0x9f; 0x98; 0x80] [0]
    (Some (replicate 5 7)) 5 0xfffd (-1)) as [H1 H2]; [..|split; [exact H1|split; [exact H2|by vm_compute]]].
  - repeat constructor; unfold byte8; lia.
  - vm_compute. split; discriminate.
  - right. split; [unfold code_point|]; lia.
  - vm_compute. discriminate.
  - right. split; [done|]. split; [repeat constructor; lia|by exists []].
Defined.

(** C24: [u_strToUTF8WithSub] (and [u_strToUTF8], with a negative substitute) on any 16-bit text of
    at most [INT32_MAX / 4] units, so that every result can be counted, given by length or
    NUL-terminated: every code point is encoded in UTF-8, an unpaired surrogate
    as the substitute or, without one, as [U_INVALID_CHAR_FOUND]; the returned length is that of
    the whole result; the buffer holds all of it, terminated if there is room, or the whole
    characters before the first that does not fit, with the overflow error. *)
Theorem u_strToUTF8_correct text tail dest cap subchar srcLength :
  Forall unit16 text -> 0 <= cap <= zlen (default [] dest) -> sub_ok subchar ->
  4 * zlen text <= INT32_MAX -> passed text tail srcLength ->
  to_result text dest cap subchar
    (u_strToUTF8WithSub dest cap (Some (text ++ tail)) srcLength subchar U_ZERO_ERROR) /\
  to_result text dest cap U_SENTINEL (u_strToUTF8 dest cap (Some (text ++ tail)) srcLength U_ZERO_ERROR).
Proof. intros. split; [by apply toUTF8_spec|]. apply toUTF8_spec; auto. by left. Qed.

Lemma u_strToUTF8_correct_witness :
  to_result [0x41; 0xdc00; 0xd83d; 0xde00; 0x20ac] (Some (replicate 9 7)) 9 0x3f
    (u_strToUTF8WithSub (Some (replicate 9 7)) 9 (Some ([0x41; 0xdc00; 0xd83d; 0xde00; 0x20ac] ++ [])) 5 0x3f U_ZERO_ERROR) /\
  to_result [0x41; 0xdc00; 0xd83d; 0xde00; 0x20ac] (Some (replicate 9 7)) 9 U_SENTINEL
    (u_strToUTF8 (Some (replicate 9 7)) 9 (Some ([0x41; 0xdc00; 0xd83d; 0xde00; 0x20ac] ++ [])) 5 U_ZERO_ERROR) /\
  u_strToUTF8WithSub (Some (replicate 9 7)) 9 (Some ([0x41; 0xdc00; 0xd83d; 0xde00; 0x20ac] ++ [])) 5 0x3f U_ZERO_ERROR =
    Some (Result (Some [0x41; 0x3f; 0xf0; 0x9f; 0x98; 0x80; 0xe2; 0x82; 0xac]) (Some 9) (Some 1)
            U_STRING_NOT_TERMINATED_WARNING true).
Proof.
  destruct (u_strToUTF8_correct [0x41; 0xdc00; 0xd83d; 0xde00; 0x20ac] [] (Some (replicate 9 7)) 9 0x3f 5) as [H1 H2];
    [..|split; [exact H1|split; [exact H2|by vm_compute]]].
  - repeat constructor; unfold unit16; lia.
  - vm_compute. split; discriminate.
  - right. split; [unfold code_point|]; lia.
  - vm_compute. discriminate.
  - by left.
Defined.

(** C25: Well-formed text survives the two conversions in either order: UTF-16 text without unpaired
    surrogates comes back from [u_strToUTF8] and [u_strFromUTF8] unchanged, and so do bytes in which
    every sequence is well-formed from [u_strFromUTF8] and [u_strToUTF8]; all calls succeed when the
    UTF-8 buffer has three bytes per unit, respectively the UTF-16 buffer one unit per byte, for
    texts of at most [INT32_MAX / 4] units or bytes. *)
Theorem utf8_utf16_roundtrip d8 d16 text b :
  Forall byte8 d8 ->
  Forall unit16 text -> Forall scalar (code_points text) -> 4 * zlen text <= INT32_MAX ->
  3 * zlen text <= zlen d8 -> zlen text <= zlen d16 ->
  Forall byte8 b -> Forall (fun w => 0 <= piece_value (-1) w) (pieces b) -> 4 * zlen b <= INT32_MAX ->
  zlen b <= zlen d8 -> zlen b <= zlen d16 ->
  (exists w r e r' e',
     u_strToUTF8 (Some d8) (zlen d8) (Some text) (zlen text) U_ZERO_ERROR =
       Some (Result (Some (w ++ r)) (Some (zlen w)) (Some 0) e true) /\ U_SUCCESS e = true /\
     u_strFromUTF8 (Some d16) (zlen d16) (Some (w ++ r)) (zlen w) U_ZERO_ERROR =
       Some (Result (Some (text ++ r')) (Some (zlen text)) (Some 0) e' true) /\ U_SUCCESS e' = true) /\
  (exists w r e r' e',
     u_strFromUTF8 (Some d16) (zlen d16) (Some b) (zlen b) U_ZERO_ERROR =
       Some (Result (Some (w ++ r)) (Some (zlen w)) (Some 0) e true) /\ U_SUCCESS e = true /\
     u_strToUTF8 (Some d8) (zlen d8) (Some (w ++ r)) (zlen w) U_ZERO_ERROR =
       Some (Result (Some (b ++ r')) (Some (zlen b)) (Some 0) e' true) /\ U_SUCCESS e' = true).
Proof.
  intros Hd Ht Hs Hst H8 H16 Hb Hw Hsb Hb8 Hb16. pose proof (zlen_nonneg text). pose proof (zlen_nonneg b). split.
  - pose proof (encode_code_points text Ht : units (code_points text) = text) as Hu. set (cs := code_points text) in *.
    pose proof (form_sizes cs Hs) as Hsizes. rewrite Hu in Hsizes. destruct (encoded_well_formed cs Hs) as (Hby & Hwf & Hdec).
    destruct (toUTF8_valid text [] d8 cs) as (r & e & E & He & Hr); auto; [lia..|]. rewrite app_nil_r in E.
    destruct (fromUTF8_valid (bytes cs) r d16 cs) as (r' & e' & E' & He'); auto; [by apply Forall_app|rewrite Hu; lia|by rewrite Hu|].
    rewrite Hu in E'. exists (bytes cs), r, e, r', e'. auto.
  - destruct (well_formed_bytes b Hb Hw) as [Hby Hsc]. set (cs := decode8 (-1) b) in *. destruct (code_points_units cs Hsc) as [Hcp Hu].
    pose proof (form_sizes cs Hsc) as Hsizes. rewrite Hby in Hsizes.
    destruct (fromUTF8_valid b [] d16 cs) as (r & e & E & He); auto; [by rewrite app_nil_r|lia..|]. rewrite app_nil_r in E.
    destruct (toUTF8_valid (units cs) r d8 cs) as (r' & e' & E' & He' & _); auto; [lia|rewrite Hby; lia|].
    rewrite Hby in E'. exists (units cs), r, e, r', e'. auto.
Qed.

Lemma utf8_utf16_roundtrip_witness :
  (exists w r e r' e',
     u_strToUTF8 (Some (replicate 9 0)) (zlen (replicate 9 0)) (Some [0x41; 0xd83d; 0xde00]) (zlen [0x41; 0xd83d; 0xde00]) U_ZERO_ERROR =
       Some (Result (Some (w ++ r)) (Some (zlen w)) (Some 0) e true) /\ U_SUCCESS e = true /\
     u_strFromUTF8 (Some (replicate 6 0)) (zlen (replicate 6 0)) (Some (w ++ r)) (zlen w) U_ZERO_ERROR =
       Some (Result (Some ([0x41; 0xd83d; 0xde00] ++ r')) (Some (zlen [0x41; 0xd83d; 0xde00])) (Some 0) e' true) /\ U_SUCCESS e' = true) /\
  (exists w r e r' e',
     u_strFromUTF8 (Some (replicate 6 0)) (zlen (replicate 6 0)) (Some [0xc3; 0xa9; 0xf0; 0x9f; 0x98; 0x80]) (zlen [0xc3; 0xa9; 0xf0; 0x9f; 0x98; 0x80]) U_ZERO_ERROR =
       Some (Result (Some (w ++ r)) (Some (zlen w)) (Some 0) e true) /\ U_SUCCESS e = true /\
     u_strToUTF8 (Some (replicate 9 0)) (zlen (replicate 9 0)) (Some (w ++ r)) (zlen w) U_ZERO_ERROR =
       Some (Result (Some ([0xc3; 0xa9; 0xf0; 0x9f; 0x98; 0x80] ++ r')) (Some (zlen [0xc3; 0xa9; 0xf0; 0x9f; 0x98; 0x80])) (Some 0) e' true) /\ U_SUCCESS e' = true).
Proof.
  apply (utf8_utf16_roundtrip (replicate 9 0) (replicate 6 0) [0x41; 0xd83d; 0xde00] [0xc3; 0xa9; 0xf0; 0x9f; 0x98; 0x80]).
  all: try match goal with |- _ <= _ => vm_compute; discriminate end.
  1, 2, 4: repeat constructor; unfold byte8, unit16; lia.
  - change (Forall scalar [0x41; 0x1f600]). repeat constructor; unfold code_point; lia.
  - change (pieces [0xc3; 0xa9; 0xf0; 0x9f; 0x98; 0x80]) with [[0xc3; 0xa9]; [0xf0; 0x9f; 0x98; 0x80]].
    repeat constructor; vm_compute; discriminate.
Defined.
End StringConvFacts.
