(* ===== verification/InversionList.v ===== *)
(** * Inversion lists: the fundamental operators of UnicodeSet (common/uniset.cpp)

    A set of code points is kept as the ascending list of the values at which membership
    changes, ended by [UNICODESET_HIGH].  This file has the binary search and the three
    merging loops ([exclusiveOr], [add], [retain]) as array programs over the cells of
    [list], [other] and [buffer], and their correctness against the set of code points a
    list stands for. *)

From S2P Require Import Prelude.

Module InvList.

Definition UNICODESET_HIGH : Z := 1114112.   (* 0x110000 *)
Definition UNICODESET_LOW : Z := 0.

Definition pinCodePoint (c : Z) : Z :=
  if c <? UNICODESET_LOW then UNICODESET_LOW
  else if UNICODESET_HIGH - 1 <? c then UNICODESET_HIGH - 1
  else c.

(** ** findCodePoint *)

(** [for (;;) { i=(lo+hi)>>1; if (i==lo) break; if (c<list[i]) hi=i; else lo=i; } return hi;] *)
Fixpoint findCodePoint_loop (fuel : nat) (list : list Z) (c lo hi : Z) : option Z :=
  match fuel with
  | O => None
  | S fuel =>
      let i := Z.shiftr (lo + hi) 1 in
      if i =? lo then Some hi
      else x ← zget list i;
           if c <? x then findCodePoint_loop fuel list c lo i
           else findCodePoint_loop fuel list c i hi
  end.

(** The search between two indexes, as [BMPSet::findCodePoint] has it. *)
Definition findCodePoint_between (list : list Z) (c lo hi : Z) : option Z :=
  x ← zget list lo;
  if c <? x then Some lo
  else if hi <=? lo then Some hi
  else y ← zget list (hi - 1);
       if y <=? c then Some hi
       else findCodePoint_loop (S (Z.to_nat (hi - lo))) list c lo hi.

(** [UnicodeSet::findCodePoint] *)
Definition findCodePoint (list : list Z) (len c : Z) : option Z :=
  findCodePoint_between list c 0 (len - 1).

(** ** exclusiveOr *)

Fixpoint exclusiveOr_loop (fuel : nat) (list other buffer : list Z) (i j k a b : Z)
  : option (Datatypes.list Z * Z) :=
  match fuel with
  | O => None
  | S fuel =>
      if a <? b then
        buffer ← zset buffer k a; a ← zget list i;
        exclusiveOr_loop fuel list other buffer (i + 1) j (k + 1) a b
      else if b <? a then
        buffer ← zset buffer k b; b ← zget other j;
        exclusiveOr_loop fuel list other buffer i (j + 1) (k + 1) a b
      else if negb (a =? UNICODESET_HIGH) then
        a ← zget list i; b ← zget other j;
        exclusiveOr_loop fuel list other buffer (i + 1) (j + 1) k a b
      else
        buffer ← zset buffer k UNICODESET_HIGH; Some (buffer, k + 1)
  end.

(** The work of [exclusiveOr] after its guards: the new contents and length. *)
Definition exclusiveOr_cells (list other buffer : list Z) (polarity : Z)
  : option (Datatypes.list Z * Z) :=
  let fuel := S (length list + length other) in
  a ← zget list 0;
  if (polarity =? 1) || (polarity =? 2) then
    o0 ← zget other 0;
    if o0 =? UNICODESET_LOW then
      b ← zget other 1; exclusiveOr_loop fuel list other buffer 1 1 0 a b
    else exclusiveOr_loop fuel list other buffer 1 0 0 a UNICODESET_LOW
  else
    b ← zget other 0; exclusiveOr_loop fuel list other buffer 1 1 0 a b.

(** ** add *)

Definition umax (a b : Z) : Z := if b <? a then a else b.

(** [if (k>0 && x<=buffer[k-1]) x=max(next, buffer[--k]); else { buffer[k++]=x; x=next; }] *)
Definition add_take (buffer : list Z) (k x next : Z) : option (list Z * Z * Z) :=
  if 0 <? k then
    top ← zget buffer (k - 1);
    if x <=? top then Some (buffer, k - 1, umax next top)
    else buffer ← zset buffer k x; Some (buffer, k + 1, next)
  else buffer ← zset buffer k x; Some (buffer, k + 1, next).

Fixpoint add_loop (fuel : nat) (list other buffer : list Z) (i j k a b polarity : Z)
  : option (Datatypes.list Z * Z) :=
  match fuel with
  | O => None
  | S fuel =>
      let loop_end := Some (buffer, k) in
      match polarity with
      | 0 => (* both first; take lower if unequal *)
          if a <? b then
            next ← zget list i;
            '(buffer, k, a) ← add_take buffer k a next;
            add_loop fuel list other buffer (i + 1) j k a b (Z.lxor polarity 1)
          else if b <? a then
            next ← zget other j;
            '(buffer, k, b) ← add_take buffer k b next;
            add_loop fuel list other buffer i (j + 1) k a b (Z.lxor polarity 2)
          else if a =? UNICODESET_HIGH then loop_end
          else
            next ← zget list i;
            '(buffer, k, a) ← add_take buffer k a next;
            b ← zget other j;
            add_loop fuel list other buffer (i + 1) (j + 1) k a b
              (Z.lxor (Z.lxor polarity 1) 2)
      | 3 => (* both second; take higher if unequal, and drop other *)
          if b <=? a then
            if a =? UNICODESET_HIGH then loop_end
            else
              buffer ← zset buffer k a; a ← zget list i; b ← zget other j;
              add_loop fuel list other buffer (i + 1) (j + 1) (k + 1) a b
                (Z.lxor (Z.lxor polarity 1) 2)
          else
            if b =? UNICODESET_HIGH then loop_end
            else
              buffer ← zset buffer k b; a ← zget list i; b ← zget other j;
              add_loop fuel list other buffer (i + 1) (j + 1) (k + 1) a b
                (Z.lxor (Z.lxor polarity 1) 2)
      | 1 => (* a second, b first; if b < a, overlap *)
          if a <? b then
            buffer ← zset buffer k a; a ← zget list i;
            add_loop fuel list other buffer (i + 1) j (k + 1) a b (Z.lxor polarity 1)
          else if b <? a then
            b ← zget other j;
            add_loop fuel list other buffer i (j + 1) k a b (Z.lxor polarity 2)
          else if a =? UNICODESET_HIGH then loop_end
          else
            a ← zget list i; b ← zget other j;
            add_loop fuel list other buffer (i + 1) (j + 1) k a b
              (Z.lxor (Z.lxor polarity 1) 2)
      | 2 => (* a first, b second; if a < b, overlap *)
          if b <? a then
            buffer ← zset buffer k b; b ← zget other j;
            add_loop fuel list other buffer i (j + 1) (k + 1) a b (Z.lxor polarity 2)
          else if a <? b then
            a ← zget list i;
            add_loop fuel list other buffer (i + 1) j k a b (Z.lxor polarity 1)
          else if a =? UNICODESET_HIGH then loop_end
          else
            a ← zget list i; b ← zget other j;
            add_loop fuel list other buffer (i + 1) (j + 1) k a b
              (Z.lxor (Z.lxor polarity 1) 2)
      | _ => None
      end
  end.

(** The terminator that follows the loop of [add] and of [retain]. *)
Definition terminate (r : option (list Z * Z)) : option (list Z * Z) :=
  '(buffer, k) ← r; buffer ← zset buffer k UNICODESET_HIGH; Some (buffer, k + 1).

Definition add_cells (list other buffer : list Z) (polarity : Z)
  : option (Datatypes.list Z * Z) :=
  a ← zget list 0; b ← zget other 0;
  terminate (add_loop (S (length list + length other)) list other buffer 1 1 0 a b polarity).

(** ** retain *)

Fixpoint retain_loop (fuel : nat) (list other buffer : list Z) (i j k a b polarity : Z)
  : option (Datatypes.list Z * Z) :=
  match fuel with
  | O => None
  | S fuel =>
      let loop_end := Some (buffer, k) in
      match polarity with
      | 0 => (* both first; drop the smaller *)
          if a <? b then
            a ← zget list i;
            retain_loop fuel list other buffer (i + 1) j k a b (Z.lxor polarity 1)
          else if b <? a then
            b ← zget other j;
            retain_loop fuel list other buffer i (j + 1) k a b (Z.lxor polarity 2)
          else if a =? UNICODESET_HIGH then loop_end
          else
            buffer ← zset buffer k a; a ← zget list i; b ← zget other j;
            retain_loop fuel list other buffer (i + 1) (j + 1) (k + 1) a b
              (Z.lxor (Z.lxor polarity 1) 2)
      | 3 => (* both second; take lower if unequal *)
          if a <? b then
            buffer ← zset buffer k a; a ← zget list i;
            retain_loop fuel list other buffer (i + 1) j (k + 1) a b (Z.lxor polarity 1)
          else if b <? a then
            buffer ← zset buffer k b; b ← zget other j;
            retain_loop fuel list other buffer i (j + 1) (k + 1) a b (Z.lxor polarity 2)
          else if a =? UNICODESET_HIGH then loop_end
          else
            buffer ← zset buffer k a; a ← zget list i; b ← zget other j;
            retain_loop fuel list other buffer (i + 1) (j + 1) (k + 1) a b
              (Z.lxor (Z.lxor polarity 1) 2)
      | 1 => (* a second, b first *)
          if a <? b then
            a ← zget list i;
            retain_loop fuel list other buffer (i + 1) j k a b (Z.lxor polarity 1)
          else if b <? a then
            buffer ← zset buffer k b; b ← zget other j;
            retain_loop fuel list other buffer i (j + 1) (k + 1) a b (Z.lxor polarity 2)
          else if a =? UNICODESET_HIGH then loop_end
          else
            a ← zget list i; b ← zget other j;
            retain_loop fuel list other buffer (i + 1) (j + 1) k a b
              (Z.lxor (Z.lxor polarity 1) 2)
      | 2 => (* a first, b second; if a < b, overlap *)
          if b <? a then
            b ← zget other j;
            retain_loop fuel list other buffer i (j + 1) k a b (Z.lxor polarity 2)
          else if a <? b then
            buffer ← zset buffer k a; a ← zget list i;
            retain_loop fuel list other buffer (i + 1) j (k + 1) a b (Z.lxor polarity 1)
          else if a =? UNICODESET_HIGH then loop_end
          else
            a ← zget list i; b ← zget other j;
            retain_loop fuel list other buffer (i + 1) (j + 1) k a b
              (Z.lxor (Z.lxor polarity 1) 2)
      | _ => None
      end
  end.

Definition retain_cells (list other buffer : list Z) (polarity : Z)
  : option (Datatypes.list Z * Z) :=
  a ← zget list 0; b ← zget other 0;
  terminate (retain_loop (S (length list + length other)) list other buffer 1 1 0 a b polarity).

(** ** The set an inversion list stands for *)

(** [c] is in the set iff an odd number of the values are at most [c]. *)
Fixpoint inv_mem (l : list Z) (c : Z) : bool :=
  match l with
  | [] => false
  | x :: l => if x <=? c then negb (inv_mem l c) else inv_mem l c
  end.

(** Well-formed: strictly ascending from 0 up, ended by [UNICODESET_HIGH]. *)
Definition wf_list (l : list Z) : Prop :=
  StronglySorted Z.lt l /\ Forall (Z.le 0) l /\ last l = Some UNICODESET_HIGH.

(** [a] followed by [r] ascends strictly to [UNICODESET_HIGH]. *)
Definition chain (a : Z) (r : list Z) : Prop :=
  StronglySorted Z.lt (a :: r) /\ last (a :: r) = Some UNICODESET_HIGH.

(** The cells from index [i] on start with [r]. *)
Definition suffix_at (cells : list Z) (i : Z) (r : list Z) : Prop :=
  0 <= i /\ exists stale, drop (Z.to_nat i) cells = r ++ stale.

Lemma suffix_at_zget cells i x r : suffix_at cells i (x :: r) -> zget cells i = Some x.
Proof.
  intros [Hi [st E]]. apply zget_Some_lookup. split; [done|].
  rewrite <- (Nat.add_0_r (Z.to_nat i)), <- lookup_drop, E. done.
Qed.

Lemma suffix_at_tail cells i x r : suffix_at cells i (x :: r) -> suffix_at cells (i + 1) r.
Proof.
  intros [Hi [st E]]. split; [lia|]. exists st.
  replace (Z.to_nat (i + 1)) with (Z.to_nat i + 1)%nat by lia.
  rewrite <- drop_drop, E. done.
Qed.

Lemma chain_bound a r : chain a r -> a <= UNICODESET_HIGH.
Proof.
  intros [Hs Hl]. destruct r as [|x r]; [simpl in Hl; simplify_eq; lia|].
  apply StronglySorted_cons in Hs as [Hf _].
  apply Z.lt_le_incl, (proj1 (Forall_forall _ _) Hf).
  apply last_Some_elem_of. by rewrite last_cons_cons in Hl.
Qed.

Lemma chain_next a r :
  chain a r -> a <> UNICODESET_HIGH ->
  exists a' r', r = a' :: r' /\ a < a' /\ chain a' r'.
Proof.
  intros [Hs Hl] Hne. destruct r as [|x r]; [simpl in Hl; simplify_eq; lia|].
  exists x, r. apply StronglySorted_cons in Hs as [Hf Hs]. apply Forall_cons in Hf as [? _].
  split_and!; [done|done|]. split; [done|]. by rewrite last_cons_cons in Hl.
Qed.

Lemma chain_HIGH r : chain UNICODESET_HIGH r -> r = [].
Proof.
  intros [Hs Hl]. destruct r as [|x r]; [done|]. exfalso.
  apply StronglySorted_cons in Hs as [Hf _]. rewrite last_cons_cons in Hl.
  apply last_Some_elem_of in Hl. apply (proj1 (Forall_forall _ _) Hf) in Hl. lia.
Qed.

Lemma inv_mem_app l1 l2 c : inv_mem (l1 ++ l2) c = xorb (inv_mem l1 c) (inv_mem l2 c).
Proof.
  induction l1 as [|x l1 IH]; simpl; [by destruct (inv_mem l2 c)|]. rewrite IH.
  destruct (x <=? c), (inv_mem l1 c), (inv_mem l2 c); done.
Qed.

Lemma inv_mem_above l c : Forall (fun x => c < x) l -> inv_mem l c = false.
Proof. induction 1 as [|x l Hx Hl IH]; simpl; [done|]. zcase; [lia|done]. Qed.

Lemma inv_mem_chain_above a r c : chain a r -> c < a -> inv_mem (a :: r) c = false.
Proof.
  intros [Hs _] Hc. apply inv_mem_above. apply StronglySorted_cons in Hs as [Hf _].
  constructor; [done|]. eapply Forall_impl; [done|]. simpl. lia.
Qed.

Lemma inv_mem_cons_le x l c : x <= c -> inv_mem (x :: l) c = negb (inv_mem l c).
Proof. intros. simpl. zcase; [done|lia]. Qed.

Lemma inv_mem_cons_gt x l c : c < x -> inv_mem (x :: l) c = inv_mem l c.
Proof. intros. simpl. zcase; [lia|done]. Qed.

(** Values pushed in ascending order from [lo] on, below [UNICODESET_HIGH]. *)
Definition ascending_from (lo : Z) (new : list Z) : Prop :=
  StronglySorted Z.lt new /\ Forall (fun x => lo <= x < UNICODESET_HIGH) new.

Lemma ascending_weaken lo lo' new : lo' <= lo -> ascending_from lo new -> ascending_from lo' new.
Proof. intros ? [? Hf]. split; [done|]. eapply Forall_impl; [done|]. simpl. lia. Qed.

Lemma ascending_nil lo : ascending_from lo [].
Proof. split; constructor. Qed.

Lemma ascending_cons lo x new :
  lo <= x < UNICODESET_HIGH -> ascending_from (x + 1) new -> ascending_from lo (x :: new).
Proof.
  intros Hx [Hs Hf]. split.
  - constructor; [done|]. eapply Forall_impl; [done|]. simpl. lia.
  - constructor; [lia|]. eapply Forall_impl; [done|]. simpl. lia.
Qed.

Lemma ascending_mem lo new c : ascending_from lo new -> c < lo -> inv_mem new c = false.
Proof. intros [_ Hf] Hc. apply inv_mem_above. eapply Forall_impl; [done|]. simpl. lia. Qed.

Definition pol (pa pb : bool) : Z := (if pa then 1 else 0) + (if pb then 2 else 0).

(** Both steps of a merge, when a value is consumed from the list it heads. *)
Lemma consume cells i a r :
  chain a r -> a < UNICODESET_HIGH -> suffix_at cells i r ->
  exists a' r', r = a' :: r' /\ zget cells i = Some a' /\ suffix_at cells (i + 1) r' /\
    a < a' /\ chain a' r' /\
    (forall c, a <= c -> inv_mem (a :: r) c = negb (inv_mem (a' :: r') c)) /\
    (forall c, c < a -> inv_mem (a :: r) c = false /\ inv_mem (a' :: r') c = false).
Proof.
  intros Hch Ha Hsuf. destruct (chain_next a r Hch) as (a' & r' & -> & Hlt & Hch'); [lia|].
  exists a', r'. split_and!; auto.
  - by eapply suffix_at_zget.
  - by eapply suffix_at_tail.
  - intros c Hc. by apply inv_mem_cons_le.
  - intros c Hc. split; (apply inv_mem_chain_above; [done|lia]).
Qed.

(** Pushing [x] extends the part of [buffer] already written. *)
Lemma push_cell (buffer : list Z) k x :
  0 <= k < zlen buffer ->
  exists buffer', zset buffer k x = Some buffer' /\ zlen buffer' = zlen buffer /\
    ztake (k + 1) buffer' = ztake k buffer ++ [x].
Proof.
  intros Hk. exists (<[Z.to_nat k := x]> buffer). rewrite zset_in by done.
  split_and!; [done| |by apply ztake_snoc]. unfold zlen. by rewrite length_insert.
Qed.

(** What a merge loop must deliver: the values appended to [buffer], and the set they give. *)
Definition merged (buffer : list Z) (k lo : Z) (sem : list Z -> Prop)
    (res : option (list Z * Z)) : Prop :=
  exists (buffer' : list Z) (k' : Z) (new : list Z), res = Some (buffer', k') /\ zlen buffer' = zlen buffer /\
    k <= k' < zlen buffer /\ ztake k' buffer' = ztake k buffer ++ new /\
    ascending_from lo new /\ sem new.

Lemma merged_done buffer k lo (sem : list Z -> Prop) :
  0 <= k < zlen buffer -> sem [] -> merged buffer k lo sem (Some (buffer, k)).
Proof.
  intros Hk Hs. exists buffer, k, []. rewrite app_nil_r. split_and!; auto; try lia.
  apply ascending_nil.
Qed.

Lemma merged_mono buffer k lo lo' (sem sem' : list Z -> Prop) res :
  merged buffer k lo sem res -> lo' <= lo ->
  (forall new, ascending_from lo new -> sem new -> sem' new) -> merged buffer k lo' sem' res.
Proof.
  intros (buffer' & k' & new & -> & ? & ? & ? & Ha & ?) Hlo Hsem. exists buffer', k', new.
  split_and!; eauto using ascending_weaken; lia.
Qed.

Lemma merged_push buffer buffer1 k x lo lo' (sem sem' : list Z -> Prop) res :
  0 <= k -> zlen buffer1 = zlen buffer -> ztake (k + 1) buffer1 = ztake k buffer ++ [x] ->
  merged buffer1 (k + 1) lo sem res -> lo' <= x < UNICODESET_HIGH -> x < lo ->
  (forall new, ascending_from lo new -> sem new -> sem' (x :: new)) ->
  merged buffer k lo' sem' res.
Proof.
  intros Hk Hl Ht (buffer' & k' & new & -> & ? & ? & Hk' & Ha & ?) Hx Hlo Hsem.
  exists buffer', k', (x :: new). split_and!; auto; try lia.
  - by rewrite Hk', Ht, <- app_assoc.
  - apply ascending_cons; [done|]. eapply ascending_weaken; [|done]. lia.
Qed.

(** *** The loop of [exclusiveOr] *)

Ltac consume_from cells := match goal with
  | Hc : chain ?a ?r, Hs : suffix_at cells ?i ?r |- context [zget cells ?i] =>
      destruct (consume cells i a r Hc) as (?a' & ?r' & -> & Hg & ?Hs' & ?Hlt & ?Hc' & ?Hge & ?Hbelow);
      [lia|exact Hs|]; rewrite Hg; clear Hg; cbn [mbind option_bind length] in *
  end.

Ltac push := match goal with
  | |- context [zset ?b ?k ?x] =>
      let b' := fresh "buffer'" in
      destruct (push_cell b k x) as (b' & Hpush & ?Hlen & ?Htake);
      [cbn [length] in *; lia|]; rewrite Hpush; clear Hpush; cbn [mbind option_bind] in *
  end.

(** Reduces a claim about the new set at a code point to the values at the ends. *)
Ltac at_code_point :=
  repeat match goal with
  | Hg : forall c, ?a <= c -> inv_mem (?a :: _) c = _, Hb : forall c, c < ?a -> _ |- context [inv_mem _ ?c] =>
      destruct (Z.le_gt_cases a c);
      [rewrite (Hg c) in * by lia; clear Hb Hg
      |let H1 := fresh in let H2 := fresh in
       destruct (Hb c) as [H1 H2]; [lia|]; rewrite ?H1, ?H2 in *; clear Hb Hg H1 H2]
  end.

Lemma exclusiveOr_loop_merged fuel list other buffer i j k a b la lb :
  chain a la -> chain b lb -> suffix_at list i la -> suffix_at other j lb ->
  (length la + length lb < fuel)%nat -> 0 <= k ->
  k + Z.of_nat (length la) + Z.of_nat (length lb) + 1 <= zlen buffer ->
  exists buffer' new, exclusiveOr_loop fuel list other buffer i j k a b =
      Some (buffer', k + zlen new + 1) /\ zlen buffer' = zlen buffer /\
    ztake (k + zlen new + 1) buffer' = ztake k buffer ++ new ++ [UNICODESET_HIGH] /\
    ascending_from (Z.min a b) new /\
    forall c, c < UNICODESET_HIGH ->
      inv_mem new c = xorb (inv_mem (a :: la) c) (inv_mem (b :: lb) c).
Proof.
  revert buffer i j k a b la lb.
  induction fuel as [|fuel IH]; intros buffer i j k a b la lb Ca Cb Sa Sb Hf Hk Hroom; [lia|].
  pose proof (chain_bound _ _ Ca). pose proof (chain_bound _ _ Cb).
  cbn [exclusiveOr_loop]. destruct (Z.ltb_spec a b); [|destruct (Z.ltb_spec b a)].
  - push. consume_from list.
    destruct (IH buffer' (i + 1) j (k + 1) a' b r' lb) as (bf & new & E & Hl & Ht & Has & Hm);
      auto; try lia.
    exists bf, (a :: new). rewrite zlen_cons.
    replace (k + (zlen new + 1) + 1) with (k + 1 + zlen new + 1) by lia.
    split_and!; auto; try lia.
    + by rewrite Ht, Htake, <- app_assoc.
    + apply ascending_cons; [lia|]. eapply ascending_weaken; [|done]. lia.
    + intros c Hc. specialize (Hm c Hc). destruct (Z.le_gt_cases a c).
      * rewrite Hge, inv_mem_cons_le, Hm by lia. by destruct (inv_mem (a' :: r') c), (inv_mem (b :: lb) c).
      * destruct (Hbelow c) as [-> Hb']; [lia|]. rewrite inv_mem_cons_gt, Hm, Hb' by lia. done.
  - push. consume_from other.
    destruct (IH buffer' i (j + 1) (k + 1) a a' la r') as (bf & new & E & Hl & Ht & Has & Hm);
      auto; try lia.
    exists bf, (b :: new). rewrite zlen_cons.
    replace (k + (zlen new + 1) + 1) with (k + 1 + zlen new + 1) by lia.
    split_and!; auto; try lia.
    + by rewrite Ht, Htake, <- app_assoc.
    + apply ascending_cons; [lia|]. eapply ascending_weaken; [|done]. lia.
    + intros c Hc. specialize (Hm c Hc). destruct (Z.le_gt_cases b c).
      * rewrite Hge, inv_mem_cons_le, Hm by lia. by destruct (inv_mem (a' :: r') c), (inv_mem (a :: la) c).
      * destruct (Hbelow c) as [-> Hb']; [lia|]. rewrite inv_mem_cons_gt, Hm, Hb' by lia. done.
  - assert (a = b) by lia. subst b. destruct (Z.eqb_spec a UNICODESET_HIGH) as [->|]; cbn [negb].
    + apply chain_HIGH in Ca as ->. apply chain_HIGH in Cb as ->. push.
      exists buffer', []. rewrite zlen_nil, Z.add_0_r. split_and!; auto; [apply ascending_nil|].
      intros c Hc. cbn [inv_mem]. zcase; [lia|done].
    + consume_from list. consume_from other.
      destruct (IH buffer (i + 1) (j + 1) k a' a'0 r' r'0) as (bf & new & E & Hl & Ht & Has & Hm);
        auto; try lia.
      exists bf, new. split_and!; auto; [eapply ascending_weaken; [|done]; lia|].
      intros c Hc. rewrite (Hm c Hc). destruct (Z.le_gt_cases a c).
      * rewrite Hge, Hge0 by lia. by destruct (inv_mem (a' :: r') c), (inv_mem (a'0 :: r'0) c).
      * destruct (Hbelow c) as [-> ->]; [lia|]. destruct (Hbelow0 c) as [-> ->]; [lia|]. done.
Qed.

(** *** The loop of [retain] *)

(** The set an operand still gives: [p] is the polarity it is read with. *)
Definition rest (p : bool) (a : Z) (r : list Z) (c : Z) : bool := xorb p (inv_mem (a :: r) c).

Lemma rest_consume p a r a' r' c :
  (a <= c -> inv_mem (a :: r) c = negb (inv_mem (a' :: r') c)) ->
  (c < a -> inv_mem (a :: r) c = false /\ inv_mem (a' :: r') c = false) ->
  (a <= c /\ rest p a r c = rest (negb p) a' r' c) \/
  (c < a /\ rest p a r c = p /\ rest (negb p) a' r' c = negb p).
Proof.
  unfold rest. intros Hge Hb. destruct (Z.le_gt_cases a c) as [H|H]; [left|right].
  - split; [done|]. rewrite (Hge H). by destruct p, (inv_mem (a' :: r') c).
  - split; [lia|]. destruct Hb as [-> ->]; [lia|]. by destruct p.
Qed.

Lemma rest_below p a r c : chain a r -> c < a -> rest p a r c = p.
Proof. intros. unfold rest. rewrite inv_mem_chain_above by done. by destruct p. Qed.

Definition retain_sem (pa pb : bool) (a b : Z) (la lb new : list Z) : Prop :=
  forall c, c < UNICODESET_HIGH ->
    xorb (pa && pb) (inv_mem new c) = rest pa a la c && rest pb b lb c.

(** The step of the loop, by the order of the two heads. *)
Lemma retain_loop_lt fuel list other buffer i j k a b pa pb :
  a < b ->
  retain_loop (S fuel) list other buffer i j k a b (pol pa pb) =
    if pb then buffer ← zset buffer k a; a ← zget list i;
               retain_loop fuel list other buffer (i + 1) j (k + 1) a b (pol (negb pa) pb)
    else a ← zget list i; retain_loop fuel list other buffer (i + 1) j k a b (pol (negb pa) pb).
Proof.
  intros Hab. assert (E1 : (a <? b) = true) by lia. assert (E2 : (b <? a) = false) by lia.
  destruct pa, pb; cbn [retain_loop pol Z.add Pos.add]; rewrite ?E1, ?E2; reflexivity.
Qed.

Lemma retain_loop_gt fuel list other buffer i j k a b pa pb :
  b < a ->
  retain_loop (S fuel) list other buffer i j k a b (pol pa pb) =
    if pa then buffer ← zset buffer k b; b ← zget other j;
               retain_loop fuel list other buffer i (j + 1) (k + 1) a b (pol pa (negb pb))
    else b ← zget other j; retain_loop fuel list other buffer i (j + 1) k a b (pol pa (negb pb)).
Proof.
  intros Hab. assert (E1 : (a <? b) = false) by lia. assert (E2 : (b <? a) = true) by lia.
  destruct pa, pb; cbn [retain_loop pol Z.add Pos.add]; rewrite ?E1, ?E2; reflexivity.
Qed.

Lemma retain_loop_eq fuel list other buffer i j k a pa pb :
  retain_loop (S fuel) list other buffer i j k a a (pol pa pb) =
    if a =? UNICODESET_HIGH then Some (buffer, k)
    else if eqb pa pb
    then buffer ← zset buffer k a; a ← zget list i; b ← zget other j;
         retain_loop fuel list other buffer (i + 1) (j + 1) (k + 1) a b (pol (negb pa) (negb pb))
    else a ← zget list i; b ← zget other j;
         retain_loop fuel list other buffer (i + 1) (j + 1) k a b (pol (negb pa) (negb pb)).
Proof.
  destruct pa, pb; cbn [retain_loop pol Z.add Pos.add]; rewrite Z.ltb_irrefl;
    destruct (a =? UNICODESET_HIGH); reflexivity.
Qed.

Ltac consume_as cells a' r' Hstep := match goal with
  | Hc : chain ?a ?r, Hs : suffix_at cells ?i ?r |- context [zget cells ?i] =>
      let Hg := fresh in let Hge := fresh in let Hb := fresh in
      destruct (consume cells i a r Hc) as (a' & r' & -> & Hg & ?Hs' & ?Hlt & ?Hc' & Hge & Hb);
      [lia|exact Hs|]; rewrite Hg; clear Hg; cbn [mbind option_bind length] in *;
      assert (Hstep := fun p c => rest_consume p _ _ _ _ c (Hge c) (Hb c)); clear Hge Hb
  end.

(** Closes a boolean claim at [c] from the values the operands take below and above. *)
Ltac bool_at c :=
  repeat match goal with
  | H : context [rest ?p ?a ?r c] |- _ => destruct (rest p a r c)
  | |- context [rest ?p ?a ?r c] => destruct (rest p a r c)
  | H : context [inv_mem ?l c] |- _ => destruct (inv_mem l c)
  | |- context [inv_mem ?l c] => destruct (inv_mem l c)
  end; simpl in *; try congruence; try lia.

Lemma retain_loop_merged fuel list other buffer i j k a b la lb pa pb :
  chain a la -> chain b lb -> suffix_at list i la -> suffix_at other j lb ->
  (length la + length lb < fuel)%nat -> 0 <= k ->
  k + Z.of_nat (length la) + Z.of_nat (length lb) + 1 <= zlen buffer ->
  merged buffer k (Z.min a b) (retain_sem pa pb a b la lb)
    (retain_loop fuel list other buffer i j k a b (pol pa pb)).
Proof.
  revert buffer i j k a b la lb pa pb.
  induction fuel as [|fuel IH]; intros buffer i j k a b la lb pa pb Ca Cb Sa Sb Hf Hk Hroom; [lia|].
  pose proof (chain_bound _ _ Ca) as Ba. pose proof (chain_bound _ _ Cb) as Bb.
  destruct (Z.lt_trichotomy a b) as [Hab|[Hab|Hab]].
  - rewrite retain_loop_lt by done. destruct pb.
    + push. consume_as list a' r' Hst.
      eapply (merged_push _ _ _ _ _ _ (retain_sem (negb pa) true a' b r' lb)); [done..| |lia| |].
      * apply (IH _ _ _ _ _ _ r' lb); auto; lia.
      * lia.
      * intros new Has Hsem c Hc. specialize (Hsem c Hc). pose proof (rest_below true b lb c Cb).
        destruct (Hst pa c) as [[? E]|(? & E & E')]; rewrite E in *; clear E.
        -- rewrite inv_mem_cons_le by done. destruct pa; bool_at c.
        -- rewrite inv_mem_cons_gt by done. rewrite (ascending_mem _ _ c Has) in * by lia.
           rewrite H by lia. by destruct pa.
    + consume_as list a' r' Hst.
      eapply merged_mono; [apply (IH _ _ _ _ _ _ r' lb); auto; lia|lia|].
      intros new Has Hsem c Hc. specialize (Hsem c Hc). pose proof (rest_below false b lb c Cb).
      destruct (Hst pa c) as [[? E]|(? & E & E')]; rewrite E in *; clear E.
      -- destruct pa; bool_at c.
      -- rewrite H in * by lia. destruct pa; bool_at c.
  - subst b. rewrite retain_loop_eq. destruct (Z.eqb_spec a UNICODESET_HIGH) as [->|Hne].
    + apply chain_HIGH in Ca as Ea. apply chain_HIGH in Cb as Eb.
      apply merged_done; [lia|]. intros c Hc. rewrite !rest_below by done. by destruct pa, pb.
    + destruct (eqb pa pb) eqn:Epp; [push|]; consume_as list a' r' Hst; consume_as other b' s' Hst'.
      * eapply (merged_push _ _ _ _ _ _ (retain_sem (negb pa) (negb pb) a' b' r' s')); [done..| |lia| |].
        -- apply (IH _ _ _ _ _ _ r' s'); auto; lia.
        -- lia.
        -- intros new Has Hsem c Hc. specialize (Hsem c Hc). apply eqb_prop in Epp as ->.
           destruct (Hst pb c) as [[? E]|(? & E & E')], (Hst' pb c) as [[? E1]|(? & E1 & E1')];
             rewrite E, E1 in *; clear E E1; try lia.
           ++ rewrite inv_mem_cons_le by done. destruct pb; bool_at c.
           ++ rewrite inv_mem_cons_gt by done. rewrite (ascending_mem _ _ c Has) by lia. by destruct pb.
      * eapply merged_mono; [apply (IH _ _ _ _ _ _ r' s'); auto; lia|lia|].
        intros new Has Hsem c Hc. specialize (Hsem c Hc). apply eqb_false_iff in Epp.
        destruct (Hst pa c) as [[? E]|(? & E & E')], (Hst' pb c) as [[? E1]|(? & E1 & E1')];
          rewrite E, E1 in *; clear E E1; try lia.
        -- destruct pa, pb; try congruence; bool_at c.
        -- rewrite (ascending_mem _ _ c Has) by lia. by destruct pa, pb.
  - rewrite retain_loop_gt by done. destruct pa.
    + push. consume_as other b' s' Hst.
      eapply (merged_push _ _ _ _ _ _ (retain_sem true (negb pb) a b' la s')); [done..| |lia| |].
      * apply (IH _ _ _ _ _ _ la s'); auto; lia.
      * lia.
      * intros new Has Hsem c Hc. specialize (Hsem c Hc). pose proof (rest_below true a la c Ca).
        destruct (Hst pb c) as [[? E]|(? & E & E')]; rewrite E in *; clear E.
        -- rewrite inv_mem_cons_le by done. destruct pb; bool_at c.
        -- rewrite inv_mem_cons_gt by done. rewrite (ascending_mem _ _ c Has) in * by lia.
           rewrite H by lia. by destruct pb.
    + consume_as other b' s' Hst.
      eapply merged_mono; [apply (IH _ _ _ _ _ _ la s'); auto; lia|lia|].
      intros new Has Hsem c Hc. specialize (Hsem c Hc). pose proof (rest_below false a la c Ca).
      destruct (Hst pb c) as [[? E]|(? & E & E')]; rewrite E in *; clear E.
      -- destruct pb; bool_at c.
      -- rewrite H in * by lia. destruct pb; bool_at c.
Qed.

(** *** The loop of [add]

    The loop keeps ranges it may still extend in [buffer], so its invariant is about the
    whole of [buffer]: the last range starts at [s], is open in the polarities 1 to 3, and
    every value still to come is at least [s]. *)

Definition bounded (l : list Z) : Prop :=
  StronglySorted Z.lt l /\ Forall (fun x => 0 <= x < UNICODESET_HIGH) l.

(** The last range starts at [s] and is not ended. *)
Definition out_open (out : list Z) (s : Z) : Prop :=
  bounded out /\ (exists pre, out = pre ++ [s]) /\ forall c, s <= c -> inv_mem out c = true.

(** All ranges are ended; the last one starts at [s]. *)
Definition out_closed (out : list Z) (s : Z) : Prop :=
  (out = [] /\ s = 0) \/
  exists out' t, out = out' ++ [t] /\ bounded out /\ s < t /\ out_open out' s.

(** One operand: its current value [x] is a start ([p=false]) or an end ([p=true]); an end
    may have been raised above the value [x0] that the list has. *)
Record operand := Op { o_p : bool; o_x : Z; o_x0 : Z; o_r : list Z }.

Definition op_ok (s : Z) (o : operand) : Prop :=
  chain (o_x0 o) (o_r o) /\ o_x0 o <= o_x o <= UNICODESET_HIGH /\
  (o_x o = UNICODESET_HIGH -> o_x0 o = UNICODESET_HIGH) /\
  (o_p o = false -> o_x o = o_x0 o) /\
  s <= o_x0 o /\ (o_p o = true -> s < o_x0 o).

(** The code points the operand has yet to give, the open range apart. *)
Definition op_rest (o : operand) (c : Z) : bool :=
  inv_mem (if o_p o then o_r o else o_x0 o :: o_r o) c.

(** Where the open range ends, as far as is known. *)
Definition pending_end (oa ob : operand) : Z :=
  match o_p oa, o_p ob with
  | false, false => UNICODESET_HIGH
  | true, false => o_x oa
  | false, true => o_x ob
  | true, true => Z.max (o_x oa) (o_x ob)
  end.

Definition out_ok (out : list Z) (s : Z) (oa ob : operand) : Prop :=
  if o_p oa || o_p ob then out_open out s else out_closed out s.

(** The union that the finished buffer must give. *)
Definition add_target (out : list Z) (oa ob : operand) (c : Z) : bool :=
  (inv_mem out c && (c <? pending_end oa ob)) || op_rest oa c || op_rest ob c.

Lemma bounded_snoc l x :
  bounded l -> Forall (fun y => y < x) l -> 0 <= x < UNICODESET_HIGH -> bounded (l ++ [x]).
Proof.
  intros [Hs Hf] Hx Hb. split.
  - apply StronglySorted_app. split_and!; [|done|by repeat constructor].
    intros y z Hy Hz. apply list_elem_of_singleton in Hz as ->. by apply (proj1 (Forall_forall _ _) Hx).
  - apply Forall_app; split; [done|]. by constructor.
Qed.

Lemma bounded_snoc_inv l x : bounded (l ++ [x]) ->
  bounded l /\ Forall (fun y => y < x) l /\ 0 <= x < UNICODESET_HIGH.
Proof.
  intros [Hs Hf]. apply StronglySorted_app in Hs as (Hx & Hs & _).
  apply Forall_app in Hf as [Hf Hb]. apply Forall_cons in Hb as [Hb _].
  split; [by split|]. split; [|exact Hb].
  apply Forall_forall. intros y Hy. apply Hx; [done|by left].
Qed.

Lemma out_open_lt out s x : out_open out s -> s < x -> Forall (fun y => y < x) out.
Proof.
  intros (Hb & [pre ->] & _) Hsx. apply bounded_snoc_inv in Hb as (_ & Hf & _).
  apply Forall_app; split; [|by constructor]. eapply Forall_impl; [done|]. simpl. lia.
Qed.

(** A closed prefix covers nothing from its last end on. *)
Lemma out_closed_above out s c :
  out_closed out s -> (forall t, last out = Some t -> t <= c) -> inv_mem out c = false.
Proof.
  intros [[-> _]|(out' & t & -> & _ & Hst & Ho)] Hc; [done|].
  specialize (Hc t). rewrite last_snoc in Hc. specialize (Hc eq_refl).
  destruct Ho as (_ & _ & Ho). rewrite inv_mem_app, Ho by lia. simpl. zcase; [done|lia].
Qed.

Lemma inv_mem_snoc_lt l x c : c < x -> inv_mem (l ++ [x]) c = inv_mem l c.
Proof. intros. rewrite inv_mem_app. simpl. zcase; [lia|]. by destruct (inv_mem l c). Qed.

Lemma inv_mem_snoc_ge l x c : x <= c -> inv_mem (l ++ [x]) c = negb (inv_mem l c).
Proof. intros. rewrite inv_mem_app. simpl. zcase; [|lia]. by destruct (inv_mem l c). Qed.

(** The state and its reading are symmetric in the operands. *)
Lemma out_ok_sym out s oa ob : out_ok out s oa ob -> out_ok out s ob oa.
Proof. unfold out_ok. by rewrite orb_comm. Qed.

Lemma add_target_sym out oa ob c : add_target out oa ob c = add_target out ob oa c.
Proof.
  unfold add_target, pending_end. destruct (o_p oa), (o_p ob); rewrite ?(Z.max_comm (o_x oa));
    destruct (inv_mem _ _ && _), (op_rest oa c), (op_rest ob c); done.
Qed.

(** The next value of an operand, a start or an end, with what it gives at each code point. *)
Lemma op_next cells i s o :
  op_ok s o -> o_x o < UNICODESET_HIGH -> suffix_at cells i (o_r o) ->
  exists x' r', o_r o = x' :: r' /\ zget cells i = Some x' /\ suffix_at cells (i + 1) r' /\
    o_x0 o < x' /\ chain x' r' /\ x' <= UNICODESET_HIGH.
Proof.
  intros (Hch & Hx & _) Hlt Hs.
  destruct (consume cells i (o_x0 o) (o_r o) Hch) as (x' & r' & E & Hg & Hs' & Hlt' & Hch' & _);
    [lia|done|].
  exists x', r'. split_and!; auto. by eapply chain_bound.
Qed.

(** A chain's values at a code point. *)
Lemma inv_mem_start x x' r c :
  chain x' r -> x < x' ->
  inv_mem (x :: x' :: r) c =
    if c <? x then false else if c <? x' then true else inv_mem r c.
Proof.
  intros Hch Hlt. destruct (Z.ltb_spec c x); [|destruct (Z.ltb_spec c x')].
  - rewrite inv_mem_cons_gt by lia. apply inv_mem_chain_above; [done|lia].
  - rewrite inv_mem_cons_le by lia. rewrite inv_mem_chain_above; [done..|lia].
  - rewrite inv_mem_cons_le, inv_mem_cons_le by lia. by rewrite negb_involutive.
Qed.

Lemma inv_mem_chain_tail x r c : chain x r -> c <= x -> inv_mem r c = false.
Proof.
  intros [Hs _] Hc. apply inv_mem_above. apply StronglySorted_cons in Hs as [Hf _].
  eapply Forall_impl; [done|]. simpl. lia.
Qed.

Lemma umax_max a b : umax a b = Z.max a b.
Proof. unfold umax. zcase; lia. Qed.

(** A start below every other value opens a range, or reopens the last one. *)
Lemma add_open_extend out' t s x x' r ob :
  op_ok s (Op false x x (x' :: r)) -> op_ok s ob -> o_p ob = false -> x <= o_x ob ->
  x < UNICODESET_HIGH -> out_closed (out' ++ [t]) s -> x <= t ->
  let oa' := Op true (umax x' t) x' r in
  op_ok s oa' /\ out_ok out' s oa' ob /\
  forall c, c < UNICODESET_HIGH ->
    add_target out' oa' ob c = add_target (out' ++ [t]) (Op false x x (x' :: r)) ob c.
Proof.
  intros (Hch & _ & _ & _ & Hsx & _) Hob Hpb Hxb Hx Hcl Hxt oa'.
  cbn [o_p o_x o_x0 o_r] in *.
  destruct (chain_next _ _ Hch) as (y & r0 & [= <- <-] & Hlt & Hch'); [lia|].
  pose proof (chain_bound _ _ Hch').
  destruct Hcl as [[E _]|(out2 & t2 & E & Hb & Hst & Ho)]; [by destruct out'|].
  apply app_inj_2 in E as [<- [= <-]]; [|done]. apply bounded_snoc_inv in Hb as (_ & _ & Ht).
  unfold oa' in *. rewrite umax_max in *. split_and!.
  - unfold op_ok. cbn [o_p o_x o_x0 o_r]. split_and!; try done; lia.
  - done.
  - intros c Hc. unfold add_target, pending_end, op_rest, oa'. cbn [o_p o_x o_x0 o_r]. rewrite Hpb.
    rewrite (inv_mem_start x x' r c Hch' Hlt). destruct Ho as (_ & _ & Ho).
    destruct (Z.ltb_spec c UNICODESET_HIGH); [|lia]. rewrite andb_true_r.
    destruct (Z.ltb_spec c (Z.max x' t)), (Z.ltb_spec c x).
    + rewrite inv_mem_snoc_lt, (inv_mem_chain_tail x' r c Hch') by lia. by rewrite andb_true_r.
    + rewrite Ho by lia. destruct (Z.ltb_spec c t).
      * by rewrite inv_mem_snoc_lt, Ho by lia.
      * destruct (Z.ltb_spec c x'); [|lia]. by rewrite !orb_true_r.
    + lia.
    + rewrite inv_mem_snoc_ge, Ho by lia. destruct (Z.ltb_spec c x'); [lia|]. by rewrite andb_false_r.
Qed.

Lemma add_open_new out s x x' r ob :
  0 <= s -> op_ok s (Op false x x (x' :: r)) -> op_ok s ob -> o_p ob = false -> x <= o_x ob ->
  x < UNICODESET_HIGH -> out_closed out s -> (forall t, last out = Some t -> t < x) ->
  let oa' := Op true x' x' r in
  op_ok x oa' /\ op_ok x ob /\ out_open (out ++ [x]) x /\
  forall c, c < UNICODESET_HIGH ->
    add_target (out ++ [x]) oa' ob c = add_target out (Op false x x (x' :: r)) ob c.
Proof.
  intros Hs (Hch & _ & _ & _ & Hsx & _) Hob Hpb Hxb Hx Hcl Hlast oa'. cbn [o_p o_x o_x0 o_r] in *.
  destruct (chain_next _ _ Hch) as (y & r0 & [= <- <-] & Hlt & Hch'); [lia|].
  pose proof (chain_bound _ _ Hch').
  assert (Hb : bounded (out ++ [x])).
  { destruct Hcl as [[-> _]|(out2 & t & -> & Hb & _ & _)].
    - split; [by repeat constructor|]. constructor; [lia|constructor].
    - apply bounded_snoc; [done| |lia]. specialize (Hlast t). rewrite last_snoc in Hlast.
      specialize (Hlast eq_refl). apply bounded_snoc_inv in Hb as (_ & Hf & _).
      apply Forall_app; split; [|by constructor]. eapply Forall_impl; [done|]. simpl. lia. }
  assert (Hout : forall c, x <= c -> inv_mem out c = false).
  { intros c Hc. apply (out_closed_above out s); [done|]. intros t Ht. specialize (Hlast t Ht). lia. }
  split_and!.
  - unfold op_ok, oa'. cbn [o_p o_x o_x0 o_r]. split_and!; try done; lia.
  - destruct Hob as (? & ? & ? & Hp & ? & ?). specialize (Hp Hpb).
    unfold op_ok. split_and!; auto; try lia. congruence.
  - split_and!; [done|eauto|]. intros c Hc. by rewrite inv_mem_snoc_ge, Hout by lia.
  - intros c Hc. unfold add_target, pending_end, op_rest, oa'. cbn [o_p o_x o_x0 o_r]. rewrite Hpb.
    rewrite (inv_mem_start x x' r c Hch' Hlt).
    destruct (Z.ltb_spec c UNICODESET_HIGH); [|lia]. rewrite andb_true_r.
    destruct (Z.ltb_spec c x).
    + rewrite inv_mem_snoc_lt, (inv_mem_chain_tail x' r c Hch') by lia.
      destruct (Z.ltb_spec c x'); [|lia]. by rewrite andb_true_r.
    + rewrite inv_mem_snoc_ge, Hout by lia. destruct (Z.ltb_spec c x'); [done|]. done.
Qed.

(** A start inside the open range only prolongs it. *)
Lemma add_drop_start out s oa x x' r :
  op_ok s oa -> o_p oa = true -> op_ok s (Op false x x (x' :: r)) -> x <= o_x oa ->
  x < UNICODESET_HIGH -> out_open out s ->
  let ob' := Op true x' x' r in
  op_ok s ob' /\
  forall c, add_target out oa ob' c = add_target out oa (Op false x x (x' :: r)) c.
Proof.
  intros Hoa Hpa (Hch & _ & _ & _ & Hsx & _) Hxa Hx (_ & _ & Ho) ob'. cbn [o_p o_x o_x0 o_r] in *.
  destruct (chain_next _ _ Hch) as (y & r0 & [= <- <-] & Hlt & Hch'); [lia|].
  pose proof (chain_bound _ _ Hch'). split.
  - unfold op_ok, ob'. cbn [o_p o_x o_x0 o_r]. split_and!; try done; lia.
  - intros c. unfold add_target, pending_end, op_rest, ob'. cbn [o_p o_x o_x0 o_r]. rewrite Hpa.
    rewrite (inv_mem_start x x' r c Hch' Hlt).
    destruct (Z.ltb_spec c x).
    + rewrite (inv_mem_chain_tail x' r c Hch') by lia.
      destruct (Z.ltb_spec c (o_x oa)), (Z.ltb_spec c (Z.max (o_x oa) x')); try lia; done.
    + rewrite Ho by lia. destruct (Z.ltb_spec c x').
      * destruct (Z.ltb_spec c (Z.max (o_x oa) x')); [|lia]. by rewrite !orb_true_r.
      * destruct (Z.ltb_spec c (o_x oa)), (Z.ltb_spec c (Z.max (o_x oa) x')); try lia; done.
Qed.

(** An end that another end covers is dropped. *)
Lemma add_drop_end out s oa y y0 y' r :
  op_ok s oa -> o_p oa = true -> op_ok s (Op true y y0 (y' :: r)) -> y <= o_x oa ->
  y < UNICODESET_HIGH ->
  let ob' := Op false y' y' r in
  op_ok s ob' /\
  forall c, add_target out oa ob' c = add_target out oa (Op true y y0 (y' :: r)) c.
Proof.
  intros Hoa Hpa (Hch & Hy & _ & _ & Hsx & _) Hya Hyh ob'. cbn [o_p o_x o_x0 o_r] in *.
  destruct (chain_next _ _ Hch) as (z & r0 & [= <- <-] & Hlt & Hch'); [lia|].
  pose proof (chain_bound _ _ Hch'). split.
  - unfold op_ok, ob'. cbn [o_p o_x o_x0 o_r]. split_and!; try done; lia.
  - intros c. unfold add_target, pending_end, op_rest, ob'. cbn [o_p o_x o_x0 o_r]. rewrite Hpa.
    by rewrite Z.max_l by lia.
Qed.

(** An end below the other operand's start ends the range. *)
Lemma add_close_range out s x x0 x' r ob :
  0 <= s -> op_ok s (Op true x x0 (x' :: r)) -> op_ok s ob -> o_p ob = false ->
  x < UNICODESET_HIGH -> out_open out s ->
  let oa' := Op false x' x' r in
  op_ok s oa' /\ out_closed (out ++ [x]) s /\
  forall c, c < UNICODESET_HIGH ->
    add_target (out ++ [x]) oa' ob c = add_target out (Op true x x0 (x' :: r)) ob c.
Proof.
  intros Hs (Hch & Hx & _ & _ & _ & Hsx) Hob Hpb Hxh Ho oa'. cbn [o_p o_x o_x0 o_r] in *.
  specialize (Hsx eq_refl).
  destruct (chain_next _ _ Hch) as (z & r0 & [= <- <-] & Hlt & Hch'); [lia|].
  pose proof (chain_bound _ _ Hch'). split_and!.
  - unfold op_ok, oa'. cbn [o_p o_x o_x0 o_r]. split_and!; try done; lia.
  - right. exists out, x. split_and!; [done| |lia|done].
    apply bounded_snoc; [apply Ho|by apply (out_open_lt out s); [|lia]|lia].
  - intros c Hc. unfold add_target, pending_end, op_rest, oa'. cbn [o_p o_x o_x0 o_r]. rewrite Hpb.
    destruct (Z.ltb_spec c UNICODESET_HIGH); [|lia]. rewrite andb_true_r.
    destruct (Z.ltb_spec c x).
    + by rewrite inv_mem_snoc_lt, andb_true_r by lia.
    + destruct Ho as (_ & _ & Ho). by rewrite inv_mem_snoc_ge, Ho by lia.
Qed.

(** When the range that is open, if any, has no end, the buffer is the union. *)
Lemma add_finish out s oa ob c :
  op_ok s oa -> op_ok s ob -> out_ok out s oa ob -> pending_end oa ob = UNICODESET_HIGH ->
  (o_p oa = false -> o_x oa = UNICODESET_HIGH) -> (o_p ob = false -> o_x ob = UNICODESET_HIGH) ->
  c < UNICODESET_HIGH -> add_target out oa ob c = inv_mem out c.
Proof.
  intros Ha Hb Ho He Hpa Hpb Hc.
  assert (Hrest : forall o, op_ok s o -> (o_p o = false -> o_x o = UNICODESET_HIGH) ->
            (o_p o = true -> out_open out s) -> op_rest o c = true -> inv_mem out c = true).
  { intros o (Hch & _ & Hh & _ & Hs & Hlt) Hp Hop. unfold op_rest. destruct (o_p o).
    - intros Hm. destruct (Hop eq_refl) as (_ & _ & Hop'). apply Hop'.
      destruct (Z.le_gt_cases c (o_x0 o)); [|lia].
      rewrite (inv_mem_chain_tail _ _ _ Hch) in Hm by done. done.
    - rewrite inv_mem_chain_above; [done..|]. rewrite Hh; auto. }
  unfold add_target. rewrite He. destruct (Z.ltb_spec c UNICODESET_HIGH); [|lia].
  rewrite andb_true_r. unfold out_ok in Ho.
  destruct (inv_mem out c) eqn:Em; [done|].
  destruct (op_rest oa c) eqn:Ea.
  { exfalso. enough (false = true) by done. apply (Hrest oa); auto. intros Hp. by rewrite Hp in Ho. }
  destruct (op_rest ob c) eqn:Eb; [|done].
  exfalso. enough (false = true) by done. apply (Hrest ob); auto.
  intros Hp. by rewrite Hp, orb_true_r in Ho.
Qed.

(** The body of the three places that take a start. *)
Lemma add_take_spec buffer k s x x' r ob :
  0 <= s -> op_ok s (Op false x x (x' :: r)) -> op_ok s ob -> o_p ob = false -> x <= o_x ob ->
  x < UNICODESET_HIGH -> out_closed (ztake k buffer) s -> 0 <= k < zlen buffer ->
  exists buffer' k' z s', add_take buffer k x x' = Some (buffer', k', z) /\
    zlen buffer' = zlen buffer /\ 0 <= k' <= k + 1 /\ 0 <= s' /\
    op_ok s' (Op true z x' r) /\ op_ok s' ob /\ out_open (ztake k' buffer') s' /\ x < z /\
    forall c, c < UNICODESET_HIGH ->
      add_target (ztake k' buffer') (Op true z x' r) ob c =
      add_target (ztake k buffer) (Op false x x (x' :: r)) ob c.
Proof.
  intros Hs Hoa Hob Hpb Hxb Hx Hcl Hk. unfold add_take.
  assert (Hlt : x < x').
  { destruct Hoa as (Hch & _). cbn in Hch.
    destruct (chain_next _ _ Hch) as (y & r0 & [= <- <-] & ? & _); [lia|done]. }
  assert (Hnew : (forall t, last (ztake k buffer) = Some t -> t < x) ->
    exists buffer' k' z s',
      (buffer ← zset buffer k x; Some (buffer, k + 1, x')) = Some (buffer', k', z) /\
      zlen buffer' = zlen buffer /\ 0 <= k' <= k + 1 /\ 0 <= s' /\
      op_ok s' (Op true z x' r) /\ op_ok s' ob /\ out_open (ztake k' buffer') s' /\ x < z /\
      forall c, c < UNICODESET_HIGH ->
        add_target (ztake k' buffer') (Op true z x' r) ob c =
        add_target (ztake k buffer) (Op false x x (x' :: r)) ob c).
  { intros Hlast. push.
    destruct (add_open_new (ztake k buffer) s x x' r ob) as (H1 & H2 & H3 & H4); auto.
    exists buffer', (k + 1), x', x. rewrite Htake. split_and!; try done; try lia.
    destruct Hoa as (_ & _ & _ & _ & ? & _). cbn in *. lia. }
  destruct (Z.ltb_spec 0 k).
  - destruct (zget_is_Some buffer (k - 1)) as [t Ht]; [lia|]. rewrite Ht. cbn [mbind option_bind].
    assert (Hout : ztake k buffer = ztake (k - 1) buffer ++ [t]).
    { rewrite <- (ztake_succ (k - 1) buffer t) by (lia || done). f_equal. lia. }
    destruct (Z.leb_spec x t).
    + rewrite Hout in *.
      destruct (add_open_extend (ztake (k - 1) buffer) t s x x' r ob) as (H1 & H2 & H3); auto.
      exists buffer, (k - 1), (umax x' t), s.
      split_and!; auto; try lia; try apply H2. rewrite umax_max. lia.
    + apply Hnew. rewrite Hout, last_snoc. intros ? [= <-]. lia.
  - apply Hnew. assert (k = 0) as -> by lia. done.
Qed.

Definition add_result (buffer : list Z) (target : Z -> bool) (res : option (list Z * Z)) : Prop :=
  exists buffer' k', res = Some (buffer', k') /\ zlen buffer' = zlen buffer /\
    0 <= k' < zlen buffer /\ bounded (ztake k' buffer') /\
    forall c, c < UNICODESET_HIGH -> inv_mem (ztake k' buffer') c = target c.

Lemma add_result_mono buffer1 buffer T1 T res :
  add_result buffer1 T1 res -> zlen buffer1 = zlen buffer ->
  (forall c, c < UNICODESET_HIGH -> T1 c = T c) -> add_result buffer T res.
Proof.
  intros (b' & k' & -> & Hl & Hk & Hb & Hm) Hlen HT. exists b', k'.
  split_and!; auto; try lia; try apply Hb. intros c Hc. by rewrite Hm, HT.
Qed.

(** The states of the loop, and what it must do from each of them within [fuel] rounds. *)
Definition add_state (fuel : nat) (list other buffer : list Z) (i j k s : Z) (oa ob : operand) : Prop :=
  0 <= s /\ out_ok (ztake k buffer) s oa ob /\ op_ok s oa /\ op_ok s ob /\
  suffix_at list i (o_r oa) /\ suffix_at other j (o_r ob) /\
  (length (o_r oa) + length (o_r ob) < fuel)%nat /\ 0 <= k /\
  k + Z.of_nat (length (o_r oa)) + Z.of_nat (length (o_r ob)) + 1 <= zlen buffer.

Definition add_correct (fuel : nat) : Prop := forall list other buffer i j k s oa ob,
  add_state fuel list other buffer i j k s oa ob ->
  add_result buffer (add_target (ztake k buffer) oa ob)
    (add_loop fuel list other buffer i j k (o_x oa) (o_x ob) (pol (o_p oa) (o_p ob))).

Lemma bounded_out out s oa ob : out_ok out s oa ob -> bounded out.
Proof.
  unfold out_ok. destruct (_ || _); [by intros [? _]|].
  intros [[-> _]|(? & ? & _ & ? & _)]; [split; constructor|done].
Qed.

Lemma add_stop fuel list other buffer i j k s oa ob :
  add_state fuel list other buffer i j k s oa ob ->
  pending_end oa ob = UNICODESET_HIGH ->
  (o_p oa = false -> o_x oa = UNICODESET_HIGH) -> (o_p ob = false -> o_x ob = UNICODESET_HIGH) ->
  add_result buffer (add_target (ztake k buffer) oa ob) (Some (buffer, k)).
Proof.
  intros (Hs & Ho & Ha & Hb & _ & _ & _ & Hk & Hroom) He Hpa Hpb. exists buffer, k.
  split_and!; auto; try lia; try (by eapply bounded_out). intros c Hc. symmetry.
  by eapply add_finish.
Qed.

Ltac next_of cells o x' r' := match goal with
  | Hop : op_ok ?s o, Hs : suffix_at cells ?i _ |- context [zget cells ?i] =>
      let E := fresh "E" in let Hg := fresh "Hg" in
      destruct (op_next cells i s o Hop) as (x' & r' & E & Hg & ?Hsuf & ?Hlt & ?Hch & ?Hle);
      [cbn; lia|exact Hs|]; cbn [o_r] in E; subst; rewrite Hg; cbn [mbind option_bind]
  end.

Lemma op_ok_start s x x0 r : op_ok s (Op false x x0 r) -> x = x0.
Proof. intros (_ & _ & _ & E & _). by apply E. Qed.

Lemma add_step_first fuel list other buffer i j k s a a0 ra b b0 rb :
  add_correct fuel ->
  add_state (S fuel) list other buffer i j k s (Op false a a0 ra) (Op false b b0 rb) ->
  add_result buffer (add_target (ztake k buffer) (Op false a a0 ra) (Op false b b0 rb))
    (add_loop (S fuel) list other buffer i j k a b 0).
Proof.
  intros IH Hst. pose proof Hst as (Hs & Ho & Ha & Hb & Sa & Sb & Hf & Hk & Hroom).
  apply op_ok_start in Ha as Ea. apply op_ok_start in Hb as Eb. subst a0 b0.
  pose proof Ha as (_ & [_ Ba] & _). pose proof Hb as (_ & [_ Bb] & _).
  cbn [o_p o_x o_x0 o_r] in *. cbn [add_loop].
  destruct (Z.ltb_spec a b); [|destruct (Z.ltb_spec b a)].
  - next_of list (Op false a a ra) a' ra'. cbn [length] in *.
    destruct (add_take_spec buffer k s a a' ra' (Op false b b rb))
      as (bf & k' & z & s' & -> & Hl & Hk' & Hs' & Ha' & Hb' & Ho' & Hz & HT);
      auto; cbn [o_x]; try lia.
    cbn [mbind option_bind]. eapply add_result_mono; [|exact Hl|exact HT].
    apply (IH list other bf (i + 1) j k' s' (Op true z a' ra') (Op false b b rb)).
    split_and!; cbn [o_p o_x o_x0 o_r] in *; auto; lia.
  - next_of other (Op false b b rb) b' rb'. cbn [length] in *.
    destruct (add_take_spec buffer k s b b' rb' (Op false a a ra))
      as (bf & k' & z & s' & -> & Hl & Hk' & Hs' & Hb' & Ha' & Ho' & Hz & HT);
      auto; cbn [o_x]; try lia.
    cbn [mbind option_bind]. eapply add_result_mono; [|exact Hl|].
    + apply (IH list other bf i (j + 1) k' s' (Op false a a ra) (Op true z b' rb')).
      split_and!; cbn [o_p o_x o_x0 o_r] in *; auto; lia.
    + intros c Hc. rewrite add_target_sym, HT by done. apply add_target_sym.
  - assert (b = a) by lia. subst b. destruct (Z.eqb_spec a UNICODESET_HIGH).
    + eapply add_stop; [done|done| |]; done.
    + next_of list (Op false a a ra) a' ra'. cbn [length] in *.
      destruct (add_take_spec buffer k s a a' ra' (Op false a a rb))
        as (bf & k' & z & s' & -> & Hl & Hk' & Hs' & Ha' & Hb' & Ho' & Hz & HT);
        auto; cbn [o_x]; try lia.
      cbn [mbind option_bind]. next_of other (Op false a a rb) b' rb'. cbn [length] in *.
      destruct (add_drop_start (ztake k' bf) s' (Op true z a' ra') a b' rb') as [Hb'' HT'];
        auto; cbn [o_x]; try lia.
      eapply add_result_mono; [|exact Hl|].
      * apply (IH list other bf (i + 1) (j + 1) k' s' (Op true z a' ra') (Op true b' b' rb')).
        split_and!; cbn [o_p o_x o_x0 o_r] in *; auto; lia.
      * intros c Hc. by rewrite HT', HT.
Qed.

Lemma add_step_a_second fuel list other buffer i j k s a a0 ra b b0 rb :
  add_correct fuel ->
  add_state (S fuel) list other buffer i j k s (Op true a a0 ra) (Op false b b0 rb) ->
  add_result buffer (add_target (ztake k buffer) (Op true a a0 ra) (Op false b b0 rb))
    (add_loop (S fuel) list other buffer i j k a b 1).
Proof.
  intros IH Hst. pose proof Hst as (Hs & Ho & Ha & Hb & Sa & Sb & Hf & Hk & Hroom).
  apply op_ok_start in Hb as Eb. subst b0.
  pose proof Ha as (_ & [_ Ba] & _). pose proof Hb as (_ & [_ Bb] & _).
  cbn [o_p o_x o_x0 o_r] in *. cbn [add_loop].
  destruct (Z.ltb_spec a b); [|destruct (Z.ltb_spec b a)].
  - push. next_of list (Op true a a0 ra) a' ra'. cbn [length] in *.
    destruct (add_close_range (ztake k buffer) s a a0 a' ra' (Op false b b rb))
      as (Ha' & Ho' & HT); auto; try lia.
    eapply add_result_mono; [|exact Hlen|].
    + apply (IH list other buffer' (i + 1) j (k + 1) s (Op false a' a' ra') (Op false b b rb)).
      rewrite <- Htake in Ho'. split_and!; cbn [o_p o_x o_x0 o_r] in *; auto; lia.
    + rewrite Htake. exact HT.
  - next_of other (Op false b b rb) b' rb'. cbn [length] in *.
    destruct (add_drop_start (ztake k buffer) s (Op true a a0 ra) b b' rb') as [Hb' HT];
      auto; cbn [o_x]; try lia.
    eapply add_result_mono; [|done|intros c _; exact (HT c)].
    apply (IH list other buffer i (j + 1) k s (Op true a a0 ra) (Op true b' b' rb')).
    split_and!; cbn [o_p o_x o_x0 o_r] in *; auto; lia.
  - assert (b = a) by lia. subst b. destruct (Z.eqb_spec a UNICODESET_HIGH).
    + eapply add_stop; done.
    + next_of list (Op true a a0 ra) a' ra'. next_of other (Op false a a rb) b' rb'.
      cbn [length] in *.
      destruct (add_drop_start (ztake k buffer) s (Op true a a0 (a' :: ra')) a b' rb') as [Hb' HT];
        auto; cbn [o_x]; try lia.
      destruct (add_drop_end (ztake k buffer) s (Op true b' b' rb') a a0 a' ra') as [Ha' HT'];
        auto; cbn [o_x o_x0] in *; try lia.
      eapply add_result_mono; [|done|].
      * apply (IH list other buffer (i + 1) (j + 1) k s (Op false a' a' ra') (Op true b' b' rb')).
        split_and!; cbn [o_p o_x o_x0 o_r] in *; auto; lia.
      * intros c _. by rewrite add_target_sym, HT', add_target_sym, HT.
Qed.

Lemma add_step_b_second fuel list other buffer i j k s a a0 ra b b0 rb :
  add_correct fuel ->
  add_state (S fuel) list other buffer i j k s (Op false a a0 ra) (Op true b b0 rb) ->
  add_result buffer (add_target (ztake k buffer) (Op false a a0 ra) (Op true b b0 rb))
    (add_loop (S fuel) list other buffer i j k a b 2).
Proof.
  intros IH Hst. pose proof Hst as (Hs & Ho & Ha & Hb & Sa & Sb & Hf & Hk & Hroom).
  apply op_ok_start in Ha as Ea. subst a0.
  pose proof Ha as (_ & [_ Ba] & _). pose proof Hb as (_ & [_ Bb] & _).
  cbn [o_p o_x o_x0 o_r] in *. cbn [add_loop].
  destruct (Z.ltb_spec b a); [|destruct (Z.ltb_spec a b)].
  - push. next_of other (Op true b b0 rb) b' rb'. cbn [length] in *.
    destruct (add_close_range (ztake k buffer) s b b0 b' rb' (Op false a a ra))
      as (Hb' & Ho' & HT); auto; try lia.
    eapply add_result_mono; [|exact Hlen|].
    + apply (IH list other buffer' i (j + 1) (k + 1) s (Op false a a ra) (Op false b' b' rb')).
      rewrite <- Htake in Ho'. split_and!; cbn [o_p o_x o_x0 o_r] in *; auto; lia.
    + intros c Hc. rewrite Htake, add_target_sym, HT by done. apply add_target_sym.
  - next_of list (Op false a a ra) a' ra'. cbn [length] in *.
    destruct (add_drop_start (ztake k buffer) s (Op true b b0 rb) a a' ra') as [Ha' HT];
      auto; cbn [o_x]; try lia.
    eapply add_result_mono; [|done|].
    + apply (IH list other buffer (i + 1) j k s (Op true a' a' ra') (Op true b b0 rb)).
      split_and!; cbn [o_p o_x o_x0 o_r] in *; auto; lia.
    + intros c _. rewrite add_target_sym, HT. apply add_target_sym.
  - assert (b = a) by lia. subst b. destruct (Z.eqb_spec a UNICODESET_HIGH).
    + eapply add_stop; done.
    + next_of list (Op false a a ra) a' ra'. next_of other (Op true a b0 rb) b' rb'.
      cbn [length] in *.
      destruct (add_drop_start (ztake k buffer) s (Op true a b0 (b' :: rb')) a a' ra') as [Ha' HT];
        auto; cbn [o_x]; try lia.
      destruct (add_drop_end (ztake k buffer) s (Op true a' a' ra') a b0 b' rb') as [Hb' HT'];
        auto; cbn [o_x o_x0] in *; try lia.
      eapply add_result_mono; [|done|].
      * apply (IH list other buffer (i + 1) (j + 1) k s (Op true a' a' ra') (Op false b' b' rb')).
        split_and!; cbn [o_p o_x o_x0 o_r] in *; auto; lia.
      * intros c _. rewrite HT', add_target_sym, HT. apply add_target_sym.
Qed.

Lemma add_step_both_second fuel list other buffer i j k s a a0 ra b b0 rb :
  add_correct fuel ->
  add_state (S fuel) list other buffer i j k s (Op true a a0 ra) (Op true b b0 rb) ->
  add_result buffer (add_target (ztake k buffer) (Op true a a0 ra) (Op true b b0 rb))
    (add_loop (S fuel) list other buffer i j k a b 3).
Proof.
  intros IH Hst. pose proof Hst as (Hs & Ho & Ha & Hb & Sa & Sb & Hf & Hk & Hroom).
  pose proof Ha as (_ & [_ Ba] & _). pose proof Hb as (_ & [_ Bb] & _).
  cbn [o_p o_x o_x0 o_r] in *. cbn [add_loop]. destruct (Z.leb_spec b a).
  - destruct (Z.eqb_spec a UNICODESET_HIGH).
    { eapply add_stop; try done. unfold pending_end. cbn. lia. }
    push. next_of list (Op true a a0 ra) a' ra'. next_of other (Op true b b0 rb) b' rb'.
    cbn [length] in *.
    destruct (add_drop_end (ztake k buffer) s (Op true a a0 (a' :: ra')) b b0 b' rb') as [Hb' HT'];
      auto; cbn [o_x o_x0] in *; try lia.
    destruct (add_close_range (ztake k buffer) s a a0 a' ra' (Op false b' b' rb'))
      as (Ha' & Ho' & HT); auto; try lia.
    eapply add_result_mono; [|exact Hlen|].
    + apply (IH list other buffer' (i + 1) (j + 1) (k + 1) s (Op false a' a' ra') (Op false b' b' rb')).
      rewrite <- Htake in Ho'. split_and!; cbn [o_p o_x o_x0 o_r] in *; auto; lia.
    + intros c Hc. by rewrite Htake, HT, HT'.
  - destruct (Z.eqb_spec b UNICODESET_HIGH).
    { eapply add_stop; try done. unfold pending_end. cbn. lia. }
    push. next_of list (Op true a a0 ra) a' ra'. next_of other (Op true b b0 rb) b' rb'.
    cbn [length] in *.
    destruct (add_drop_end (ztake k buffer) s (Op true b b0 (b' :: rb')) a a0 a' ra') as [Ha' HT'];
      auto; cbn [o_x o_x0] in *; try lia.
    destruct (add_close_range (ztake k buffer) s b b0 b' rb' (Op false a' a' ra'))
      as (Hb' & Ho' & HT); auto; try lia.
    eapply add_result_mono; [|exact Hlen|].
    + apply (IH list other buffer' (i + 1) (j + 1) (k + 1) s (Op false a' a' ra') (Op false b' b' rb')).
      rewrite <- Htake in Ho'. split_and!; cbn [o_p o_x o_x0 o_r] in *; auto; lia.
    + intros c Hc. by rewrite Htake, add_target_sym, HT, HT', add_target_sym.
Qed.

Lemma add_loop_correct fuel : add_correct fuel.
Proof.
  induction fuel as [|fuel IH]; intros list other buffer i j k s [pa a a0 ra] [pb b b0 rb] Hst.
  { destruct Hst as (_ & _ & _ & _ & _ & _ & ? & _). lia. }
  destruct pa, pb; cbn [o_x o_p pol].
  - by apply (add_step_both_second fuel list other buffer i j k s).
  - by apply (add_step_a_second fuel list other buffer i j k s).
  - by apply (add_step_b_second fuel list other buffer i j k s).
  - by apply (add_step_first fuel list other buffer i j k s).
Qed.

(** *** The three operators on whole lists *)

Lemma wf_list_chain l : wf_list l -> exists a r, l = a :: r /\ chain a r /\ 0 <= a.
Proof.
  intros (Hs & Hp & Hl). destruct l as [|a r]; [done|]. exists a, r.
  apply Forall_cons in Hp as [? _]. split_and!; [done..|].  done.
Qed.

Lemma wf_list_zlen l : wf_list l -> 0 < zlen l.
Proof. intros (a & r & -> & _)%wf_list_chain. rewrite zlen_cons. pose proof (zlen_nonneg r). lia. Qed.

Lemma suffix_at_1 a r stale : suffix_at ((a :: r) ++ stale) 1 r.
Proof. split; [lia|]. by exists stale. Qed.

Lemma wf_list_terminated l : bounded l -> wf_list (l ++ [UNICODESET_HIGH]).
Proof.
  intros [Hs Hf]. split_and!.
  - apply StronglySorted_app. split_and!; [|done|by repeat constructor].
    intros x y Hx Hy%list_elem_of_singleton. subst. apply (proj1 (Forall_forall _ _) Hf x Hx).
  - apply Forall_app; split; [|by repeat constructor]. eapply Forall_impl; [done|]. simpl. lia.
  - by rewrite last_snoc.
Qed.

Lemma inv_mem_terminated l c : c < UNICODESET_HIGH -> inv_mem (l ++ [UNICODESET_HIGH]) c = inv_mem l c.
Proof. apply inv_mem_snoc_lt. Qed.

(** What an operator on whole lists must give: a well-formed list, within the buffer, for
    the set [sem]. *)
Definition gives (buffer : list Z) (sem : Z -> bool) (res : option (list Z * Z)) : Prop :=
  exists buffer' n, res = Some (buffer', n) /\ zlen buffer' = zlen buffer /\ 0 < n <= zlen buffer /\
    wf_list (ztake n buffer') /\ forall c, c < UNICODESET_HIGH -> inv_mem (ztake n buffer') c = sem c.

Lemma gives_terminate buffer buffer' k sem :
  zlen buffer' = zlen buffer -> 0 <= k < zlen buffer -> bounded (ztake k buffer') ->
  (forall c, c < UNICODESET_HIGH -> inv_mem (ztake k buffer') c = sem c) ->
  gives buffer sem (terminate (Some (buffer', k))).
Proof.
  intros Hl Hk Hb Hm. cbn. destruct (push_cell buffer' k UNICODESET_HIGH) as (bf & -> & Hlen & Ht); [lia|].
  cbn. exists bf, (k + 1). rewrite Ht. split_and!; try lia; try by apply wf_list_terminated.
  - done.
  - intros c Hc. by rewrite inv_mem_terminated, Hm.
Qed.

Lemma add_cells_union l o st1 st2 buffer :
  wf_list l -> wf_list o -> zlen l + zlen o - 1 <= zlen buffer ->
  gives buffer (fun c => inv_mem l c || inv_mem o c) (add_cells (l ++ st1) (o ++ st2) buffer 0).
Proof.
  intros (a & ra & -> & Ca & Ha)%wf_list_chain (b & rb & -> & Cb & Hb)%wf_list_chain Hroom.
  rewrite !zlen_cons in Hroom. unfold add_cells. cbn [app]. rewrite !zget_cons_0. cbn [mbind option_bind].
  destruct (add_loop_correct (S (length (a :: ra ++ st1) + length (b :: rb ++ st2)))
    (a :: ra ++ st1) (b :: rb ++ st2) buffer 1 1 0 0 (Op false a a ra) (Op false b b rb))
    as (bf & k & E & Hl & Hk & Hbd & Hm).
  - pose proof (chain_bound _ _ Ca). pose proof (chain_bound _ _ Cb).
    unfold add_state, op_ok. cbn [o_p o_x o_x0 o_r length]. unfold zlen in *. rewrite !length_app.
    split_and!; auto using suffix_at_1; try done; try lia.
    + by left.
    + apply (suffix_at_1 a).
    + apply (suffix_at_1 b).
  - change (pol _ _) with 0 in E. cbn [o_x] in E. rewrite E.
    by apply gives_terminate.
Qed.

Lemma retain_cells_meet l o st1 st2 buffer pb :
  wf_list l -> wf_list o -> zlen l + zlen o - 1 <= zlen buffer ->
  gives buffer (fun c => inv_mem l c && xorb pb (inv_mem o c))
    (retain_cells (l ++ st1) (o ++ st2) buffer (if pb then 2 else 0)).
Proof.
  intros (a & ra & -> & Ca & Ha)%wf_list_chain (b & rb & -> & Cb & Hb)%wf_list_chain Hroom.
  rewrite !zlen_cons in Hroom. unfold retain_cells. cbn [app]. rewrite !zget_cons_0.
  cbn [mbind option_bind].
  destruct (retain_loop_merged (S (length (a :: ra ++ st1) + length (b :: rb ++ st2)))
    (a :: ra ++ st1) (b :: rb ++ st2) buffer 1 1 0 a b ra rb false pb)
    as (bf & k & new & E & Hl & Hk & Ht & Has & Hm); auto.
  - apply (suffix_at_1 a).
  - apply (suffix_at_1 b).
  - cbn. rewrite !length_app. lia.
  - lia.
  - unfold zlen in *. lia.
  - change (pol false pb) with ((if pb then 2 else 0) : Z) in E. rewrite E.
    change (ztake 0 buffer) with (@nil Z) in Ht. cbn [app] in Ht.
    apply gives_terminate; auto; rewrite Ht.
    + destruct Has as [Hs Hf]. split; [done|]. eapply Forall_impl; [done|]. simpl. lia.
    + intros c Hc. specialize (Hm c Hc). unfold rest in Hm. cbn [xorb andb] in Hm.
      rewrite <- Hm. by destruct (inv_mem new c).
Qed.

Lemma exclusiveOr_cells_xor l o st1 st2 buffer :
  wf_list l -> wf_list o -> zlen l + zlen o - 1 <= zlen buffer ->
  gives buffer (fun c => xorb (inv_mem l c) (inv_mem o c))
    (exclusiveOr_cells (l ++ st1) (o ++ st2) buffer 0).
Proof.
  intros (a & ra & -> & Ca & Ha)%wf_list_chain (b & rb & -> & Cb & Hb)%wf_list_chain Hroom.
  rewrite !zlen_cons in Hroom. unfold exclusiveOr_cells. cbn [app Z.eqb orb]. rewrite !zget_cons_0.
  cbn [mbind option_bind].
  destruct (exclusiveOr_loop_merged (S (length (a :: ra ++ st1) + length (b :: rb ++ st2)))
    (a :: ra ++ st1) (b :: rb ++ st2) buffer 1 1 0 a b ra rb)
    as (bf & new & E & Hl & Ht & Has & Hm); auto.
  - apply (suffix_at_1 a).
  - apply (suffix_at_1 b).
  - cbn. rewrite !length_app. lia.
  - lia.
  - unfold zlen in *. lia.
  - rewrite E. change (ztake 0 buffer) with (@nil Z) in Ht. cbn [app] in Ht.
    exists bf, (0 + zlen new + 1). rewrite Ht. pose proof (zlen_nonneg new).
    assert (zlen new + 1 <= zlen buffer).
    { apply (f_equal zlen) in Ht. rewrite zlen_app in Ht. change (zlen [_]) with 1 in Ht.
      rewrite <- Hl. unfold zlen, ztake in *. rewrite length_take in Ht. lia. }
    split_and!; auto; try lia.
    + apply wf_list_terminated. destruct Has as [Hs Hf]. split; [done|].
      eapply Forall_impl; [done|]. simpl. lia.
    + intros c Hc. by rewrite inv_mem_terminated, Hm.
Qed.

(** *** Searching *)

(** [i] is where [c] falls in [l]: the values before it are at most [c], it is above. *)
Definition splits_at (l : list Z) (c i : Z) : Prop :=
  0 <= i < zlen l /\ (forall j x, 0 <= j < i -> zget l j = Some x -> x <= c) /\
  (forall x, zget l i = Some x -> c < x).

Lemma sorted_zget l i j x y :
  StronglySorted Z.lt l -> i < j -> zget l i = Some x -> zget l j = Some y -> x < y.
Proof.
  intros Hs Hij Hx Hy. pose proof (zget_Some_range _ _ _ Hx). pose proof (zget_Some_range _ _ _ Hy).
  apply zget_Some_lookup in Hx as [_ Hx]. apply zget_Some_lookup in Hy as [_ Hy].
  eapply (StronglySorted_lookup Z.lt l (Z.to_nat i) (Z.to_nat j)); eauto. lia.
Qed.

Lemma findCodePoint_loop_spec fuel l c lo hi :
  StronglySorted Z.lt l -> 0 <= lo < hi -> hi < zlen l -> hi - lo < Z.of_nat fuel ->
  (forall x, zget l lo = Some x -> x <= c) -> (forall x, zget l hi = Some x -> c < x) ->
  exists r, findCodePoint_loop fuel l c lo hi = Some r /\ lo < r <= hi /\ splits_at l c r.
Proof.
  intros Hs. revert lo hi. induction fuel as [|fuel IH]; intros lo hi Hlo Hhi Hf Hl Hh; [lia|].
  cbn [findCodePoint_loop]. rewrite Z.shiftr_div_pow2 by lia. change (2 ^ 1) with 2.
  assert (Hm : lo <= (lo + hi) / 2 < hi).
  { split; [apply Z.div_le_lower_bound | apply Z.div_lt_upper_bound]; lia. }
  destruct (Z.eqb_spec ((lo + hi) / 2) lo) as [E|Hne].
  - assert (hi = lo + 1).
    { pose proof (Z.div_mod (lo + hi) 2). pose proof (Z.mod_pos_bound (lo + hi) 2). lia. }
    subst hi. exists (lo + 1). split; [done|]. split; [lia|]. split; [lia|]. split; [|done].
    intros j x Hj Hx. destruct (zget_is_Some l lo) as [y Hy]; [lia|].
    specialize (Hl y Hy). destruct (decide (j = lo)) as [->|]; [congruence|].
    assert (x < y) by (eapply (sorted_zget l j lo); eauto; lia). lia.
  - destruct (zget_is_Some l ((lo + hi) / 2)) as [x Hx]; [lia|]. rewrite Hx. cbn [mbind option_bind].
    destruct (Z.ltb_spec c x).
    + destruct (IH lo ((lo + hi) / 2)) as (r & -> & ? & ?); auto; try lia.
      { congruence || (intros ? ?; simplify_eq; lia). }
      exists r. split; [done|]. split; [lia|done].
    + destruct (IH ((lo + hi) / 2) hi) as (r & -> & ? & ?); auto; try lia.
      { intros ? ?; simplify_eq; lia. }
      exists r. split; [done|]. split; [lia|done].
Qed.

Lemma findCodePoint_between_spec l c lo hi :
  StronglySorted Z.lt l -> 0 <= lo <= hi -> hi < zlen l ->
  (forall j x, 0 <= j < lo -> zget l j = Some x -> x <= c) ->
  (forall x, zget l hi = Some x -> c < x) ->
  exists r, findCodePoint_between l c lo hi = Some r /\ lo <= r <= hi /\ splits_at l c r.
Proof.
  intros Hs Hlo Hhi Hbefore Hh. unfold findCodePoint_between.
  destruct (zget_is_Some l lo) as [x Hx]; [lia|]. rewrite Hx. cbn [mbind option_bind].
  destruct (Z.ltb_spec c x).
  { exists lo. split; [done|]. split; [lia|]. split; [lia|]. split; [done|].
    intros ? ?; simplify_eq; lia. }
  destruct (Z.leb_spec hi lo).
  { assert (hi = lo) as -> by lia. specialize (Hh x Hx). lia. }
  destruct (zget_is_Some l (hi - 1)) as [y Hy]; [lia|]. rewrite Hy. cbn [mbind option_bind].
  destruct (Z.leb_spec y c).
  { exists hi. split; [done|]. split; [lia|]. split; [lia|]. split; [|done]. intros j z Hj Hz.
    destruct (decide (j = hi - 1)) as [->|]; [simplify_eq; lia|].
    assert (z < y) by (eapply (sorted_zget l j (hi - 1)); eauto; lia). lia. }
  destruct (findCodePoint_loop_spec (S (Z.to_nat (hi - lo))) l c lo hi) as (r & -> & ? & Hr);
    auto; try lia.
  { intros ? ?; simplify_eq; lia. }
  exists r. split; [done|]. split; [lia|done].
Qed.

Lemma inv_mem_all_le l c : Forall (fun x => x <= c) l -> inv_mem l c = Z.odd (zlen l).
Proof.
  induction 1 as [|x l Hx Hl IH]; [done|]. rewrite inv_mem_cons_le, IH, zlen_cons by done.
  by rewrite Z.add_1_r, Z.odd_succ, Z.negb_odd.
Qed.

(** Membership is the parity of the index that the search returns. *)
Lemma splits_at_odd l c i : StronglySorted Z.lt l -> splits_at l c i -> inv_mem l c = Z.odd i.
Proof.
  intros Hs (Hi & Hle & Hgt).
  rewrite <- (take_drop (Z.to_nat i) l), inv_mem_app.
  rewrite inv_mem_all_le, inv_mem_above.
  - rewrite xorb_false_r. f_equal. apply (zlen_ztake i l). lia.
  - apply Forall_lookup. intros j x Hx. rewrite lookup_drop in Hx.
    destruct (zget_is_Some l i) as [y Hy]; [lia|]. specialize (Hgt y Hy).
    destruct (decide (j = 0%nat)) as [->|].
    { rewrite Nat.add_0_r in Hx. apply zget_Some_lookup in Hy as [_ Hy]. simplify_eq. done. }
    assert (y < x); [|lia]. eapply (StronglySorted_lookup Z.lt l (Z.to_nat i) (Z.to_nat i + j)); eauto; [lia|].
    by apply zget_Some_lookup in Hy as [_ Hy].
  - apply Forall_lookup. intros j x [Hx Hj]%lookup_take_Some. apply (Hle (Z.of_nat j)); [lia|].
    by rewrite zget_nat.
Qed.

(** Ascending values from [a] up to [b] are at most [b - a + 1]. *)
Lemma ascending_zlen (l : list Z) a b :
  StronglySorted Z.lt l -> Forall (Z.le a) l -> Forall (fun x => x <= b) l -> a <= b + 1 -> zlen l <= b - a + 1.
Proof.
  revert a. induction l as [|x l IH]; intros a Hs Ha Hb Hab; [unfold zlen; simpl; lia|].
  apply StronglySorted_inv in Hs as [Hs Hx]. apply Forall_cons in Ha as [Hax _], Hb as [Hxb Hb].
  rewrite zlen_cons. assert (Forall (Z.le (x + 1)) l) as Hx'.
  { eapply Forall_impl; [exact Hx|]. simpl. lia. }
  specialize (IH (x + 1) Hs Hx' Hb). lia.
Qed.

Lemma wf_list_bound l : wf_list l -> zlen l <= UNICODESET_HIGH + 1.
Proof.
  intros (Hs & H0 & Hl). apply last_Some in Hl as [k ->].
  pose proof (ascending_zlen (k ++ [UNICODESET_HIGH]) 0 UNICODESET_HIGH Hs H0) as Hz.
  rewrite Z.sub_0_r in Hz. apply Hz; [|unfold UNICODESET_HIGH; lia].
  apply StronglySorted_app in Hs as (Hlt & _ & _). apply Forall_app. split; [|by repeat constructor].
  apply Forall_forall. intros x Hx. specialize (Hlt x UNICODESET_HIGH Hx ltac:(set_solver)). lia.
Qed.

Lemma wf_list_last l : wf_list l -> zget l (zlen l - 1) = Some UNICODESET_HIGH.
Proof.
  intros Hwf. pose proof (wf_list_zlen l Hwf). destruct Hwf as (_ & _ & Hl).
  rewrite last_lookup in Hl. rewrite <- Hl, <- zget_nat. f_equal. unfold zlen in *. lia.
Qed.

(** The searches do not look past the part of the array in use. *)
Lemma findCodePoint_loop_app fuel l stale c lo hi :
  0 <= lo <= hi -> hi < zlen l ->
  findCodePoint_loop fuel (l ++ stale) c lo hi = findCodePoint_loop fuel l c lo hi.
Proof.
  revert lo hi. induction fuel as [|fuel IH]; intros lo hi ? ?; [done|]. cbn [findCodePoint_loop].
  rewrite Z.shiftr_div_pow2 by lia. change (2 ^ 1) with 2.
  assert (lo <= (lo + hi) / 2 <= hi).
  { split; [apply Z.div_le_lower_bound | apply Z.div_le_upper_bound]; lia. }
  rewrite zget_app_l by lia. destruct (_ =? lo); [done|].
  destruct (zget l _); cbn [mbind option_bind]; [|reflexivity]. destruct (c <? _); apply IH; lia.
Qed.

Lemma findCodePoint_between_app l stale c lo hi :
  0 <= lo <= hi -> hi < zlen l ->
  findCodePoint_between (l ++ stale) c lo hi = findCodePoint_between l c lo hi.
Proof.
  intros ? ?. unfold findCodePoint_between. rewrite (zget_app_l l stale lo) by lia.
  destruct (zget l lo) as [x|]; cbn [mbind option_bind]; [|reflexivity].
  destruct (c <? x); [done|]. destruct (hi <=? lo) eqn:?; [done|].
  rewrite (zget_app_l l stale (hi - 1)) by lia. destruct (zget l _) as [y|]; cbn [mbind option_bind]; [|reflexivity].
  destruct (y <=? c); [done|]. by apply findCodePoint_loop_app.
Qed.

Lemma findCodePoint_spec l stale c :
  wf_list l -> c < UNICODESET_HIGH ->
  exists i, findCodePoint (l ++ stale) (zlen l) c = Some i /\ splits_at l c i.
Proof.
  intros Hwf Hc. pose proof (wf_list_zlen l Hwf) as Hlen. pose proof (wf_list_last l Hwf) as Hlast.
  unfold findCodePoint. rewrite findCodePoint_between_app by lia.
  destruct (findCodePoint_between_spec l c 0 (zlen l - 1)) as (i & E & Hi & Hs);
    [apply Hwf|lia|lia|intros; lia|intros; simplify_eq; lia|]. eauto.
Qed.

(** Two well-formed lists for the same set are the same list. *)
Lemma chain_ext a r b s :
  chain a r -> chain b s -> (forall c, c < UNICODESET_HIGH -> inv_mem (a :: r) c = inv_mem (b :: s) c) ->
  a :: r = b :: s.
Proof.
  revert a b s. induction r as [|a' r IH]; intros a b s Ca Cb Hm.
  all: pose proof (chain_bound _ _ Ca); pose proof (chain_bound _ _ Cb).
  all: assert (Hlt : forall x y l l', chain x l -> chain y l' -> x < y ->
         (forall c, c < UNICODESET_HIGH -> inv_mem (x :: l) c = inv_mem (y :: l') c) -> False).
  all: try (intros x y l l' Cx Cy Hxy He; pose proof (chain_bound _ _ Cy);
    specialize (He x ltac:(lia)); rewrite (inv_mem_chain_above y), inv_mem_cons_le in He by (done || lia);
    destruct (chain_next x l Cx) as (x' & l0 & -> & ? & Cx'); [lia|];
    rewrite inv_mem_chain_above in He by done; done).
  all: assert (a = b) as <- by
    (destruct (Z.lt_trichotomy a b) as [?|[?|?]]; [exfalso; eauto|done|exfalso; eapply (Hlt b a); eauto;
      intros; symmetry; auto]).
  - destruct Ca as [_ [= ->]]. apply chain_HIGH in Cb as ->. done.
  - assert (a <> UNICODESET_HIGH) by (intros ->; apply chain_HIGH in Ca; done).
    destruct (chain_next a (a' :: r) Ca) as (? & ? & [= <- <-] & ? & Ca'); [done|].
    destruct (chain_next a s Cb) as (b' & s' & -> & ? & Cb'); [done|].
    f_equal. apply IH; auto. intros c Hc. destruct (Z.le_gt_cases a c).
    + specialize (Hm c Hc). rewrite !(inv_mem_cons_le a) in Hm by done.
      by destruct (inv_mem (a' :: r) c), (inv_mem (b' :: s') c).
    + rewrite !inv_mem_chain_above by (done || lia). done.
Qed.

Lemma wf_list_ext l1 l2 :
  wf_list l1 -> wf_list l2 ->
  (forall c, 0 <= c < UNICODESET_HIGH -> inv_mem l1 c = inv_mem l2 c) -> l1 = l2.
Proof.
  intros (a & r & -> & Ca & Ha)%wf_list_chain (b & s & -> & Cb & Hb)%wf_list_chain Hm.
  apply chain_ext; auto. intros c Hc. destruct (Z.le_gt_cases 0 c); [by apply Hm|].
  by rewrite !inv_mem_chain_above by (done || lia).
Qed.
End InvList.
