(* ===== verification/BMPSet.v ===== *)
(** * BMPSet: the lookup tables of a frozen set (common/bmpset.cpp, bmpset.h)

    A byte per ASCII character, a bit per code point below 0x800, two bits per block of 64
    BMP code points ("vertical": bit [lead] of word [trail]), and the inversion list with the
    indexes of the 4k boundaries for everything else. *)

From S2P Require Import Prelude Utf16 InversionList.
Import Utf16 InvList.

Module BMPSet.

Record t := mk {
  asciiBytes : list Z;      (* 0xc0 entries *)
  table7FF : list Z;        (* 64 words *)
  bmpBlockBits : list Z;    (* 64 words *)
  list4kStarts : list Z;    (* 18 indexes *)
  cells : list Z;           (* the parent's list *)
  listLength : Z
}.

(** ** Searching *)

Definition findCodePoint (b : t) (c lo hi : Z) : option Z := findCodePoint_between (cells b) c lo hi.

(** [findCodePoint(c, lo, hi) & 1] *)
Definition containsSlow (b : t) (c lo hi : Z) : option bool :=
  i ← findCodePoint b c lo hi; Some (negb (Z.land i 1 =? 0)).

(** ** Building the tables *)

(** [for(i=lo; i<hi; ++i) a[i]=f(a[i]);] *)
Fixpoint update_range (f : Z -> Z) (n : nat) (a : list Z) (i : Z) : option (list Z) :=
  match n with
  | O => Some a
  | S n => x ← zget a i; a ← zset a i (f x); update_range f n a (i + 1)
  end.

(** [table[trail]|=bits] for [n] values of [trail] from the given one on. *)
Definition or_column (n : nat) (table : list Z) (trail bits : Z) : option (list Z) :=
  update_range (fun x => Z.lor x bits) n table trail.

Definition set32x64Bits (table : list Z) (start limit : Z) : option (list Z) :=
  let lead := Z.shiftr start 6 in
  let trail := Z.land start 0x3f in
  let bits := uint32 (Z.shiftl 1 lead) in
  if start + 1 =? limit then or_column 1 table trail bits
  else
    let limitLead := Z.shiftr limit 6 in
    let limitTrail := Z.land limit 0x3f in
    if lead =? limitLead then or_column (Z.to_nat (limitTrail - trail)) table trail bits
    else
      '(table, lead) ← (if 0 <? trail
                        then table ← or_column (Z.to_nat (64 - trail)) table trail bits;
                             Some (table, lead + 1)
                        else Some (table, lead));
      table ← (if lead <? limitLead then
                 let bits := uint32 (Z.lnot (Z.shiftl 1 lead - 1)) in
                 let bits := if limitLead <? 0x20
                             then Z.land bits (uint32 (Z.shiftl 1 limitLead - 1)) else bits in
                 or_column 64 table 0 bits
               else Some table);
      let bits := uint32 (Z.shiftl 1 (if limitLead =? 0x20 then limitLead - 1 else limitLead)) in
      or_column (Z.to_nat limitTrail) table 0 bits.

(** [start=list[listIndex++]; limit= listIndex<listLength ? list[listIndex++] : 0x110000;] *)
Definition next_range (l : list Z) (len listIndex : Z) : option (Z * Z * Z) :=
  start ← zget l listIndex;
  let listIndex := listIndex + 1 in
  if listIndex <? len then limit ← zget l listIndex; Some (start, limit, listIndex + 1)
  else Some (start, 0x110000, listIndex).

(** [do { asciiBytes[start++]=1; } while(start<limit && start<0x80);] *)
Fixpoint ascii_range (fuel : nat) (bytes : list Z) (start limit : Z) : option (list Z * Z) :=
  match fuel with
  | O => None
  | S fuel =>
      bytes ← zset bytes start 1;
      let start := start + 1 in
      if (start <? limit) && (start <? 0x80) then ascii_range fuel bytes start limit
      else Some (bytes, start)
  end.

Fixpoint ascii_loop (fuel : nat) (l : list Z) (len : Z) (bytes : list Z) (listIndex : Z)
  : option (list Z * Z * Z * Z) :=
  match fuel with
  | O => None
  | S fuel =>
      '(start, limit, listIndex) ← next_range l len listIndex;
      if 0x80 <=? start then Some (bytes, start, limit, listIndex)
      else
        '(bytes, start) ← ascii_range 0x80 bytes start limit;
        if limit <=? 0x80 then ascii_loop fuel l len bytes listIndex
        else Some (bytes, start, limit, listIndex)
  end.

Fixpoint table7FF_loop (fuel : nat) (l : list Z) (len : Z) (table : list Z)
    (start limit listIndex : Z) : option (list Z * Z * Z * Z) :=
  match fuel with
  | O => None
  | S fuel =>
      if start <? 0x800 then
        table ← set32x64Bits table start (if limit <=? 0x800 then limit else 0x800);
        if 0x800 <? limit then Some (table, 0x800, limit, listIndex)
        else '(start, limit, listIndex) ← next_range l len listIndex;
             table7FF_loop fuel l len table start limit listIndex
      else Some (table, start, limit, listIndex)
  end.

(** [bmpBlockBits[x&0x3f]|=0x10001<<(x>>6)] for the block number [x]. *)
Definition mark_mixed (table : list Z) (x : Z) : option (list Z) :=
  or_column 1 table (Z.land x 0x3f) (uint32 (Z.shiftl 0x10001 (Z.shiftr x 6))).

(** The tables for one range [start..limit[ of the BMP: the table, the limit, minStart. *)
Definition block_range (table : list Z) (start limit minStart : Z) : option (list Z * Z * Z) :=
  if start <? limit then
    '(table, start, minStart) ←
      (if negb (Z.land start 0x3f =? 0) then
         let start := Z.shiftr start 6 in
         table ← mark_mixed table start;
         let start := Z.shiftl (start + 1) 6 in Some (table, start, start)
       else Some (table, start, minStart));
    if start <? limit then
      table ← (if start <? Z.land limit (Z.lnot 0x3f)
               then set32x64Bits table (Z.shiftr start 6) (Z.shiftr limit 6) else Some table);
      if negb (Z.land limit 0x3f =? 0) then
        let limit := Z.shiftr limit 6 in
        table ← mark_mixed table limit;
        let limit := Z.shiftl (limit + 1) 6 in Some (table, limit, limit)
      else Some (table, limit, minStart)
    else Some (table, limit, minStart)
  else Some (table, limit, minStart).

Fixpoint block_loop (fuel : nat) (l : list Z) (len : Z) (table : list Z)
    (start limit listIndex minStart : Z) : option (list Z) :=
  match fuel with
  | O => None
  | S fuel =>
      if start <? 0x10000 then
        let limit := if 0x10000 <? limit then 0x10000 else limit in
        let start := if start <? minStart then minStart else start in
        '(table, limit, minStart) ← block_range table start limit minStart;
        if limit =? 0x10000 then Some table
        else '(start, limit, listIndex) ← next_range l len listIndex;
             block_loop fuel l len table start limit listIndex minStart
      else Some table
  end.

Definition initBits (b : t) : option t :=
  let l := cells b in
  let len := listLength b in
  let fuel := S (length l) in
  '(bytes, start, limit, listIndex) ← ascii_loop fuel l len (asciiBytes b) 0;
  '(table, start, limit, listIndex) ← table7FF_loop fuel l len (table7FF b) start limit listIndex;
  blocks ← block_loop fuel l len (bmpBlockBits b) start limit listIndex 0x800;
  Some (mk bytes table blocks (list4kStarts b) l len).

Definition overrideIllegal (b : t) : option t :=
  lo ← zget (list4kStarts b) 0xf; hi ← zget (list4kStarts b) 0x10;
  fffd ← containsSlow b 0xfffd lo hi;
  let mask := uint32 (Z.lnot (Z.shiftl 0x10001 0xd)) in
  if (fffd : bool) then
    bytes ← update_range (fun _ => 1) (0xc0 - 0x80) (asciiBytes b) 0x80;
    table ← update_range (fun x => Z.lor x 3) 64 (table7FF b) 0;
    blocks ← update_range (fun x => Z.lor x 1) 32 (bmpBlockBits b) 0;
    blocks ← update_range (fun x => Z.lor (Z.land x mask) (Z.shiftl 1 0xd)) 32 blocks 32;
    Some (mk bytes table blocks (list4kStarts b) (cells b) (listLength b))
  else
    blocks ← update_range (fun x => Z.land x mask) 32 (bmpBlockBits b) 32;
    Some (mk (asciiBytes b) (table7FF b) blocks (list4kStarts b) (cells b) (listLength b)).

(** [for(i=1; i<=0x10; ++i) list4kStarts[i]=findCodePoint(i<<12, list4kStarts[i-1], listLength-1);]
    with the entries so far in [acc]. *)
Fixpoint starts_loop (n : nat) (l : list Z) (len i : Z) (acc : list Z) : option (list Z) :=
  match n with
  | O => Some acc
  | S n => prev ← zget acc (i - 1); x ← findCodePoint_between l (Z.shiftl i 12) prev (len - 1);
           starts_loop n l len (i + 1) (acc ++ [x])
  end.

(** The constructor. *)
Definition new (parentList : list Z) (parentListLength : Z) : option t :=
  first ← findCodePoint_between parentList 0x800 0 (parentListLength - 1);
  starts ← starts_loop 0x10 parentList parentListLength 1 [first];
  b ← initBits (mk (replicate 0xc0 0) (replicate 64 0) (replicate 64 0)
                   (starts ++ [parentListLength - 1]) parentList parentListLength);
  overrideIllegal b.

(** The copy constructor with a new parent list. *)
Definition copy (other : t) (newParentList : list Z) (newParentListLength : Z) : t :=
  mk (asciiBytes other) (table7FF other) (bmpBlockBits other) (list4kStarts other)
     newParentList newParentListLength.

(** ** Lookup *)

(** [(table7FF[c&0x3f]&((uint32_t)1<<(c>>6)))!=0] *)
Definition in_table7FF (b : t) (c : Z) : option bool :=
  x ← zget (table7FF b) (Z.land c 0x3f);
  Some (negb (Z.land x (uint32 (Z.shiftl 1 (Z.shiftr c 6))) =? 0)).

(** [containsSlow(c, list4kStarts[i], list4kStarts[j])] *)
Definition containsSlow_between (b : t) (c i j : Z) : option bool :=
  lo ← zget (list4kStarts b) i; hi ← zget (list4kStarts b) j; containsSlow b c lo hi.

(** The two bits of a 64-block, and the list for a mixed block. *)
Definition in_bmpBlock (b : t) (c : Z) : option bool :=
  let lead := Z.shiftr c 12 in
  x ← zget (bmpBlockBits b) (Z.land (Z.shiftr c 6) 0x3f);
  let twoBits := Z.land (Z.shiftr x lead) 0x10001 in
  if twoBits <=? 1 then Some (negb (twoBits =? 0))
  else containsSlow_between b c lead (lead + 1).

Definition contains (b : t) (c : Z) : option bool :=
  if uint32 c <=? 0x7f then x ← zget (asciiBytes b) c; Some (negb (x =? 0))
  else if uint32 c <=? 0x7ff then in_table7FF b c
  else if (uint32 c <? 0xd800) || ((0xe000 <=? c) && (c <=? 0xffff)) then in_bmpBlock b c
  else if uint32 c <=? 0x10ffff then containsSlow_between b c 0xd 0x11
  else Some false.

(** ** Spans over UTF-16 text *)

(** What [span] and [spanBack] look up for a unit [c] that is not a surrogate. *)
Definition contains_bmp (b : t) (c : Z) : option bool :=
  if c <=? 0x7f then x ← zget (asciiBytes b) c; Some (negb (x =? 0))
  else if c <=? 0x7ff then in_table7FF b c
  else in_bmpBlock b c.

(** One step of [span]: whether the code point at [s] is in the set, and the offset of its
    last unit. *)
Definition lookup_next (b : t) (text : list Z) (s limit : Z) : option (bool * Z) :=
  c ← zget text s;
  if (c <? 0xd800) || (0xe000 <=? c) then r ← contains_bmp b c; Some (r, s)
  else
    paired ← (if (0xdc00 <=? c) || (s + 1 =? limit) then Some None
              else c2 ← zget text (s + 1);
                   Some (if (c2 <? 0xdc00) || (0xe000 <=? c2) then None else Some c2));
    match paired with
    | None => r ← containsSlow_between b c 0xd 0xe; Some (r, s)
    | Some c2 => r ← containsSlow_between b (U16_GET_SUPPLEMENTARY c c2) 0x10 0x11; Some (r, s + 1)
    end.

(** The loop of [span]: from offset [s] to [limit], while [contains(c)==cond]. *)
Fixpoint span_loop (fuel : nat) (b : t) (text : list Z) (s limit : Z) (cond : bool) : option Z :=
  match fuel with
  | O => None
  | S fuel =>
      '(inside, s') ← lookup_next b text s limit;
      if negb (Bool.eqb inside cond) then Some s
      else let s := s' + 1 in
           if s <? limit then span_loop fuel b text s limit cond else Some s
  end.

Definition span (b : t) (text : list Z) (s limit : Z) (spanCondition : bool) : option Z :=
  span_loop (Z.to_nat (limit - s)) b text s limit spanCondition.

(** One step of [spanBack], for the code point that ends before [limit]. *)
Definition lookup_prev (b : t) (text : list Z) (s limit : Z) : option (bool * Z) :=
  let limit := limit - 1 in
  c ← zget text limit;
  if (c <? 0xd800) || (0xe000 <=? c) then r ← contains_bmp b c; Some (r, limit)
  else
    paired ← (if (c <? 0xdc00) || (s =? limit) then Some None
              else c2 ← zget text (limit - 1);
                   Some (if (c2 <? 0xd800) || (0xdc00 <=? c2) then None else Some c2));
    match paired with
    | None => r ← containsSlow_between b c 0xd 0xe; Some (r, limit)
    | Some c2 => r ← containsSlow_between b (U16_GET_SUPPLEMENTARY c2 c) 0x10 0x11;
                 Some (r, limit - 1)
    end.

(** The loop of [spanBack]: down from [limit] to [s]; a break returns the offset behind the
    code point that ended the loop. *)
Fixpoint spanBack_loop (fuel : nat) (b : t) (text : list Z) (s limit : Z) (cond : bool) : option Z :=
  match fuel with
  | O => None
  | S fuel =>
      '(inside, limit') ← lookup_prev b text s limit;
      if negb (Bool.eqb inside cond) then Some limit
      else if s =? limit' then Some s
      else spanBack_loop fuel b text s limit' cond
  end.

Definition spanBack (b : t) (text : list Z) (s limit : Z) (spanCondition : bool) : option Z :=
  spanBack_loop (Z.to_nat (limit - s)) b text s limit spanCondition.

(** ** The tables agree with the list *)

(** *** Tables of bits *)

Lemma update_range_spec f n a i :
  0 <= i -> i + Z.of_nat n <= zlen a ->
  exists a', update_range f n a i = Some a' /\ zlen a' = zlen a /\
    forall j, zget a' j = if (i <=? j) && (j <? i + Z.of_nat n) then f <$> zget a j else zget a j.
Proof.
  revert a i. induction n as [|n IH]; intros a i Hi Hn; cbn [update_range].
  { exists a. split_and!; auto. intros j. by zcases. }
  destruct (zget_is_Some a i) as [x Hx]; [lia|]. rewrite Hx. cbn [mbind option_bind].
  rewrite zset_in by lia. cbn [mbind option_bind].
  destruct (IH (<[Z.to_nat i := f x]> a) (i + 1)) as (a' & -> & Hl & Hg).
  { lia. } { unfold zlen in *. rewrite length_insert. lia. }
  exists a'. split_and!; auto.
  { rewrite Hl. unfold zlen. by rewrite length_insert. }
  intros j. rewrite Hg. destruct (decide (j = i)) as [->|Hne].
  - rewrite zget_insert_eq, Hx by lia. repeat (zcase; cbn [andb]; try lia); done.
  - rewrite zget_insert_ne by lia. repeat (zcase; cbn [andb]; try lia); done.
Qed.

(** The bit for number [c] in the vertical organization. *)
Definition bit_at (table : list Z) (c : Z) : bool :=
  match zget table (c mod 64) with Some x => Z.testbit x (c / 64) | None => false end.

Lemma or_column_spec n table trail bits :
  zlen table = 64 -> 0 <= trail -> trail + Z.of_nat n <= 64 ->
  exists table', or_column n table trail bits = Some table' /\ zlen table' = 64 /\
    forall c, 0 <= c -> bit_at table' c =
      bit_at table c || (trail <=? c mod 64) && (c mod 64 <? trail + Z.of_nat n) && Z.testbit bits (c / 64).
Proof.
  intros Hl Ht Hn. unfold or_column.
  destruct (update_range_spec (fun x => Z.lor x bits) n table trail) as (t' & -> & Hl' & Hg); [lia..|].
  exists t'. split_and!; [done|lia|]. intros c Hc. unfold bit_at. rewrite Hg.
  destruct (zget_is_Some table (c mod 64)) as [x Hx]; [rewrite Hl; apply Z.mod_pos_bound; lia|].
  destruct (_ && _); rewrite Hx; cbn [fmap option_fmap option_map andb].
  - by rewrite Z.lor_spec.
  - by rewrite orb_false_r.
Qed.

Lemma testbit_uint32 x k : 0 <= k -> Z.testbit (uint32 x) k = Z.testbit x k && (k <? 32).
Proof.
  intros. unfold uint32. change 4294967296 with (2 ^ 32). zcase.
  - rewrite Z.mod_pow2_bits_low by lia. by rewrite andb_true_r.
  - rewrite Z.mod_pow2_bits_high by lia. by rewrite andb_false_r.
Qed.

Lemma testbit_shift1 n k : 0 <= n -> 0 <= k -> Z.testbit (Z.shiftl 1 n) k = (k =? n).
Proof.
  intros. rewrite Z.shiftl_1_l, Z.pow2_bits_eqb by lia. apply Z.eqb_sym.
Qed.

Lemma testbit_below n k : 0 <= n -> 0 <= k -> Z.testbit (Z.shiftl 1 n - 1) k = (k <? n).
Proof.
  intros. rewrite Z.shiftl_1_l. replace (2 ^ n - 1) with (Z.ones n) by (rewrite Z.ones_equiv; lia).
  zcase; [by apply Z.ones_spec_low|apply Z.ones_spec_high; lia].
Qed.

Lemma split64 c : 0 <= c -> Z.shiftr c 6 = c / 64 /\ Z.land c 0x3f = c mod 64.
Proof.
  intros. rewrite Z.shiftr_div_pow2 by lia. change 0x3f with (Z.ones 6). by rewrite land_low by lia.
Qed.

(** A table with the bits of [lo..hi[ set as well. *)
Definition adds (table table' : list Z) (lo hi : Z) : Prop :=
  zlen table' = 64 /\ forall c, 0 <= c -> bit_at table' c = bit_at table c || (lo <=? c) && (c <? hi).

Lemma adds_nothing table lo hi : zlen table = 64 -> hi <= lo -> adds table table lo hi.
Proof.
  intros Hl Hh. split; [done|]. intros c Hc. rewrite <- (orb_false_r (bit_at table c)) at 1. f_equal.
  zcases.
Qed.

Lemma adds_more t1 t2 t3 a b c : adds t1 t2 a b -> adds t2 t3 b c -> a <= b <= c -> adds t1 t3 a c.
Proof.
  intros [_ H1] [Hl H2] Hab. split; [done|]. intros x Hx. rewrite H2, H1, <- orb_assoc by done. f_equal.
  zcases.
Qed.

Lemma column_adds n table trail lead :
  zlen table = 64 -> 0 <= trail -> trail + Z.of_nat n <= 64 -> 0 <= lead < 32 ->
  exists table', or_column n table trail (uint32 (Z.shiftl 1 lead)) = Some table' /\
    adds table table' (lead * 64 + trail) (lead * 64 + trail + Z.of_nat n).
Proof.
  intros Hl Ht Hn Hlead.
  destruct (or_column_spec n table trail (uint32 (Z.shiftl 1 lead))) as (t' & -> & ? & Hg); [done..|].
  exists t'. split; [done|]. split; [done|]. intros c Hc.
  rewrite Hg, testbit_uint32, testbit_shift1 by dlia. f_equal.
  apply eq_true_iff_eq. rewrite !andb_true_iff, !Z.leb_le, !Z.ltb_lt, Z.eqb_eq. dlia.
Qed.

Lemma rectangle_adds table lo hi :
  zlen table = 64 -> 0 <= lo <= hi -> hi <= 32 ->
  exists table', (if lo <? hi then or_column 64 table 0
      (if hi <? 0x20 then Z.land (uint32 (Z.lnot (Z.shiftl 1 lo - 1))) (uint32 (Z.shiftl 1 hi - 1))
       else uint32 (Z.lnot (Z.shiftl 1 lo - 1))) else Some table) = Some table' /\
    adds table table' (lo * 64) (hi * 64).
Proof.
  intros Hl Hlo Hhi. destruct (Z.ltb_spec lo hi).
  2:{ exists table. split; [done|]. apply adds_nothing; [done|lia]. }
  edestruct (or_column_spec 64 table 0) as (t' & -> & ? & Hg); [done|lia|lia|].
  exists t'. split; [done|]. split; [done|]. intros c Hc. rewrite Hg by done. f_equal.
  assert (0 <= c / 64) by dlia. transitivity ((lo <=? c / 64) && (c / 64 <? hi)).
  - rewrite (proj2 (Z.leb_le 0 (c mod 64))), (proj2 (Z.ltb_lt (c mod 64) (0 + Z.of_nat 64))) by dlia.
    cbn [andb].
    destruct (Z.ltb_spec hi 0x20);
      rewrite ?Z.land_spec, !testbit_uint32, Z.lnot_spec, !testbit_below by lia; zcases.
  - apply eq_true_iff_eq. rewrite !andb_true_iff, !Z.leb_le, !Z.ltb_lt. dlia.
Qed.

(** [set32x64Bits] adds the numbers from [start] to [limit]. *)
Lemma set32x64Bits_adds table start limit :
  zlen table = 64 -> 0 <= start < limit -> limit <= 0x800 ->
  exists table', set32x64Bits table start limit = Some table' /\ adds table table' start limit.
Proof.
  intros Hl Hs Hm. unfold set32x64Bits.
  destruct (split64 start) as [-> ->]; [lia|]. destruct (split64 limit) as [-> ->]; [lia|].
  destruct (Z.eqb_spec (start + 1) limit).
  { destruct (column_adds 1 table (start mod 64) (start / 64)) as (t' & -> & Ha); [done|dlia..|].
    exists t'. split; [done|]. replace start with (start / 64 * 64 + start mod 64) at 1 by dlia.
    replace limit with (start / 64 * 64 + start mod 64 + Z.of_nat 1) by dlia. done. }
  destruct (Z.eqb_spec (start / 64) (limit / 64)).
  { destruct (column_adds (Z.to_nat (limit mod 64 - start mod 64)) table (start mod 64) (start / 64))
      as (t' & -> & Ha); [done|dlia..|].
    exists t'. split; [done|]. replace start with (start / 64 * 64 + start mod 64) at 1 by dlia.
    replace limit with (start / 64 * 64 + start mod 64 + Z.of_nat (Z.to_nat (limit mod 64 - start mod 64))) by dlia.
    done. }
  set (lead := if 0 <? start mod 64 then start / 64 + 1 else start / 64).
  assert (exists t1, (if 0 <? start mod 64
     then t ← or_column (Z.to_nat (64 - start mod 64)) table (start mod 64) (uint32 (Z.shiftl 1 (start / 64)));
          Some (t, start / 64 + 1)
     else Some (table, start / 64)) = Some (t1, lead) /\ adds table t1 start (lead * 64)) as (t1 & -> & H1).
  { unfold lead. destruct (Z.ltb_spec 0 (start mod 64)).
    - destruct (column_adds (Z.to_nat (64 - start mod 64)) table (start mod 64) (start / 64))
        as (t' & -> & Ha); [done|dlia..|].
      exists t'. split; [done|]. replace start with (start / 64 * 64 + start mod 64) at 1 by dlia.
      replace ((start / 64 + 1) * 64)
        with (start / 64 * 64 + start mod 64 + Z.of_nat (Z.to_nat (64 - start mod 64))) by dlia. done.
    - exists table. split; [done|]. apply adds_nothing; [done|dlia]. }
  cbn [mbind option_bind].
  assert (Hlead : start <= lead * 64 /\ lead <= limit / 64 <= 32 /\ 0 <= lead) by (unfold lead; zcase; dlia).
  destruct (rectangle_adds t1 lead (limit / 64)) as (t2 & -> & H2); [apply H1|lia..|].
  cbn [mbind option_bind].
  set (top := if limit / 64 =? 0x20 then limit / 64 - 1 else limit / 64).
  destruct (column_adds (Z.to_nat (limit mod 64)) t2 0 top) as (t3 & -> & H3).
  { apply H2. } { lia. } { dlia. } { unfold top. zcase; dlia. }
  exists t3. split; [done|]. eapply (adds_more _ t2); [eapply (adds_more _ t1); eauto; lia| |dlia].
  unfold top in H3. destruct (Z.eqb_spec (limit / 64) 0x20).
  - replace limit with (limit / 64 * 64) by dlia. split; [apply H3|]. intros c Hc.
    destruct H3 as [_ ->]; [|done]. f_equal. zcases; dlia.
  - replace limit with (limit / 64 * 64 + 0 + Z.of_nat (Z.to_nat (limit mod 64))) at 2 by dlia.
    by rewrite Z.add_0_r in *.
Qed.

(** *** The ranges of the list, one after the other *)

(** From [m] on the set is what the values [rest] say. *)
Definition remaining (l : list Z) (m : Z) (rest : list Z) : Prop :=
  (exists a r, rest = a :: r /\ chain a r) /\
  forall c, m <= c < UNICODESET_HIGH -> inv_mem l c = inv_mem rest c.

(** From [m] on the set is the range [start..limit[ and what [rest] says, above [limit]. *)
Definition pending (l : list Z) (m start limit : Z) (rest : list Z) : Prop :=
  (limit = UNICODESET_HIGH /\ rest = [] /\ start <= limit \/
   start < limit /\ exists a r, rest = a :: r /\ chain a r /\ limit < a) /\
  forall c, m <= c < UNICODESET_HIGH ->
    inv_mem l c = (start <=? c) && (c <? limit) || inv_mem rest c.

Lemma next_range_spec l st pre rest m :
  l = pre ++ rest -> remaining l m rest ->
  exists start limit pre' rest', next_range (l ++ st) (zlen l) (zlen pre) = Some (start, limit, zlen pre') /\
    l = pre' ++ rest' /\ zlen rest' < zlen rest /\ head rest = Some start /\
    pending l m start limit rest'.
Proof.
  intros -> [(a & r & -> & Hc) Hm]. unfold next_range. rewrite <- app_assoc. cbn [app].
  rewrite zget_middle. cbn [mbind option_bind]. rewrite zlen_app, zlen_cons.
  pose proof (zlen_nonneg r). destruct (decide (a = UNICODESET_HIGH)) as [->|Hne].
  - apply chain_HIGH in Hc as ->. change (zlen (@nil Z)) with 0. destruct (Z.ltb_spec (zlen pre + 1) (zlen pre + (0 + 1))); [lia|].
    exists UNICODESET_HIGH, 0x110000, (pre ++ [UNICODESET_HIGH]), []. rewrite zlen_app, app_nil_r.
    do 4 (split; [done|]). split; [by left|]. intros c Hc. rewrite Hm by done. unfold UNICODESET_HIGH in *. cbn. zcases.
  - destruct (chain_next a r Hc Hne) as (b & r' & -> & Hab & Hc'). rewrite zlen_cons in *.
    pose proof (zlen_nonneg r').
    destruct (Z.ltb_spec (zlen pre + 1) (zlen pre + (zlen r' + 1 + 1))); [|lia].
    rewrite zget_app_r by lia. replace (zlen pre + 1 - zlen pre) with 1 by lia. cbn.
    exists a, b, (pre ++ [a; b]), r'. rewrite zlen_app, <- app_assoc. change (zlen [a; b]) with 2.
    split; [by replace (zlen pre + 1 + 1) with (zlen pre + 2) by lia|].
    split; [done|]. split; [lia|]. split; [done|]. split.
    + destruct (decide (b = UNICODESET_HIGH)) as [->|Hb].
      * left. apply chain_HIGH in Hc' as ->. split_and!; auto. lia.
      * right. split; [done|]. destruct (chain_next b r' Hc' Hb) as (x & y & ? & ? & ?). eauto.
    + intros c Hcc. rewrite Hm by done. destruct (Z.leb_spec a c); cbn [andb].
      * rewrite inv_mem_cons_le by done. destruct (Z.ltb_spec c b); cbn [orb].
        -- rewrite inv_mem_chain_above by done. done.
        -- rewrite inv_mem_cons_le by done. apply negb_involutive.
      * rewrite inv_mem_chain_above by done. symmetry.
        destruct Hc' as [[Hf _]%StronglySorted_cons _]. apply inv_mem_above.
        eapply Forall_impl; [done|]. cbn. lia.
Qed.

(** When the pending range ends below HIGH, the rest describes the set from its end on. *)
Lemma pending_done l m start limit rest m' :
  pending l m start limit rest -> limit < UNICODESET_HIGH -> m <= m' -> limit <= m' ->
  remaining l m' rest.
Proof.
  intros [[(?&_)|(Hlt & a & r & -> & Hc & Ha)] Hm] Hlim Hmm Hlm; [lia|]. split; [eauto|].
  intros c Hcc. rewrite Hm by lia. destruct (Z.ltb_spec c limit); [lia|]. by rewrite andb_false_r.
Qed.

Lemma pending_head l m start limit rest a :
  pending l m start limit rest -> head rest = Some a -> limit < a.
Proof. intros [[(_ & -> & _)|(_ & b & r & -> & _ & ?)] _] Ha; [done|]. by simplify_eq/=. Qed.

Lemma pending_weaken l m m' start start' limit rest :
  pending l m start limit rest -> m <= m' -> start <= start' -> start' <= m' \/ start' = start ->
  start' < limit \/ start' = start -> pending l m' start' limit rest.
Proof.
  intros [Hs Hm] Hmm Hst Hm' Hlim. split.
  - destruct Hs as [(-> & -> & ?)|(? & a & r & -> & ? & ?)]; [left|right; split; [lia|eauto]].
    split_and!; auto. lia.
  - intros c Hc. rewrite Hm by lia. f_equal. zcases.
Qed.

Lemma pending_above l m start limit rest c :
  pending l m start limit rest -> m <= c < UNICODESET_HIGH -> c < start -> inv_mem l c = false.
Proof.
  intros [Hs Hm] Hc Hlt. rewrite Hm by done. destruct (Z.leb_spec start c); [lia|]. cbn.
  destruct Hs as [(_ & -> & _)|(? & a & r & -> & Hch & ?)]; [done|].
  apply inv_mem_chain_above; [done|lia].
Qed.

Lemma pending_in l m start limit rest c :
  pending l m start limit rest -> m <= c < UNICODESET_HIGH -> start <= c < limit -> inv_mem l c = true.
Proof. intros [_ Hm] Hc Hlt. rewrite Hm by done. zcases; done. Qed.

Lemma pending_limit l m start limit rest : pending l m start limit rest -> start <= limit <= UNICODESET_HIGH.
Proof.
  intros [[(-> & _ & ?)|(? & a & r & -> & Hc & ?)] _]; [lia|]. pose proof (chain_bound _ _ Hc). lia.
Qed.

(** *** The bytes for ASCII *)

Lemma ascii_range_spec fuel bytes start limit :
  0 <= start < 0x80 -> start < limit -> zlen bytes = 0xc0 -> 0x80 - start <= Z.of_nat fuel ->
  exists bytes', ascii_range fuel bytes start limit = Some (bytes', Z.min limit 0x80) /\
    zlen bytes' = 0xc0 /\
    forall c, zget bytes' c = if (start <=? c) && (c <? Z.min limit 0x80) then Some 1 else zget bytes c.
Proof.
  revert bytes start. induction fuel as [|fuel IH]; intros bytes start Hs Hl Hz Hf; [lia|].
  cbn [ascii_range]. rewrite zset_in by lia. cbn [mbind option_bind].
  assert (zlen (<[Z.to_nat start:=1]> bytes) = 0xc0) by (unfold zlen in *; rewrite length_insert; lia).
  destruct (_ && _) eqn:E.
  - destruct (IH (<[Z.to_nat start:=1]> bytes) (start + 1)) as (b' & -> & ? & Hg); [lia..|].
    exists b'. split_and!; auto. intros c. rewrite Hg. destruct (decide (c = start)) as [->|].
    + rewrite zget_insert_eq by lia. repeat (zcase; cbn [andb]; try lia); done.
    + rewrite zget_insert_ne by lia. repeat (zcase; cbn [andb]; try lia); done.
  - eexists. split; [do 2 f_equal; lia|]. split; [done|]. intros c.
    destruct (decide (c = start)) as [->|].
    + rewrite zget_insert_eq by lia. repeat (zcase; cbn [andb]; try lia); done.
    + rewrite zget_insert_ne by lia. repeat (zcase; cbn [andb]; try lia); done.
Qed.

(** The bytes below [m] tell membership in [l], the others are 0. *)
Definition bytes_upto (l bytes : list Z) (m : Z) : Prop :=
  zlen bytes = 0xc0 /\ forall c, 0 <= c < 0xc0 ->
    zget bytes c = Some (if (c <? m) && inv_mem l c then 1 else 0).

Lemma bytes_upto_skip l bytes m m' :
  bytes_upto l bytes m -> m <= m' -> (forall c, 0 <= c -> m <= c < m' -> inv_mem l c = false) ->
  bytes_upto l bytes m'.
Proof.
  intros [Hz Hb] Hm Hn. split; [done|]. intros c Hc. rewrite Hb by done.
  destruct (Z.ltb_spec c m), (Z.ltb_spec c m'); cbn [andb]; try done; [lia|].
  by rewrite Hn by lia.
Qed.

Lemma ascii_loop_spec fuel l st pre rest bytes m :
  l = pre ++ rest -> remaining l m rest -> (forall a, head rest = Some a -> m <= a) -> 0 <= m <= 0x80 ->
  bytes_upto l bytes m -> zlen rest < Z.of_nat fuel ->
  exists bytes' start limit pre' rest',
    ascii_loop fuel (l ++ st) (zlen l) bytes (zlen pre) = Some (bytes', start, limit, zlen pre') /\
    l = pre' ++ rest' /\ bytes_upto l bytes' 0x80 /\ 0x80 <= start /\ pending l 0x80 start limit rest'.
Proof.
  revert pre rest bytes m. induction fuel as [|fuel IH]; intros pre rest bytes m El Hrem Hhd Hm Hby Hf.
  { pose proof (zlen_nonneg rest). lia. }
  cbn [ascii_loop]. destruct (next_range_spec l st pre rest m El Hrem)
    as (start & limit & pre' & rest' & -> & El' & Hlt & Hst & Hp). cbn [mbind option_bind].
  specialize (Hhd start Hst). pose proof (pending_limit _ _ _ _ _ Hp) as Hpl.
  destruct (Z.leb_spec 0x80 start) as [Hge|Hlt80].
  - exists bytes, start, limit, pre', rest'. split_and!; auto.
    + eapply bytes_upto_skip; [done|lia|]. intros c Hc Hcc.
      apply (pending_above l m start limit rest'); auto; unfold UNICODESET_HIGH; lia.
    + eapply pending_weaken; eauto; lia.
  - assert (start < limit).
    { destruct Hp as [[(-> & _)|(? & _)] _]; [unfold UNICODESET_HIGH; lia|done]. }
    destruct (ascii_range_spec 0x80 bytes start limit) as (bytes' & -> & Hz & Hg); [lia|lia|apply Hby|lia|].
    cbn [mbind option_bind].
    assert (Hby' : bytes_upto l bytes' (Z.min limit 0x80)).
    { split; [done|]. intros c Hc. rewrite Hg. destruct Hby as [_ Hby]. rewrite Hby by done.
      destruct (Z.leb_spec start c); cbn [andb].
      - destruct (Z.ltb_spec c (Z.min limit 0x80)); cbn [andb].
        + by rewrite (pending_in l m start limit rest') by (done || unfold UNICODESET_HIGH; lia).
        + destruct (Z.ltb_spec c m); [lia|done].
      - destruct (Z.ltb_spec c (Z.min limit 0x80)); [|lia].
        destruct (Z.ltb_spec c m); [done|]. cbn [andb].
        by rewrite (pending_above l m start limit rest') by (done || unfold UNICODESET_HIGH; lia). }
    destruct (Z.leb_spec limit 0x80).
    + replace (Z.min limit 0x80) with limit in Hby' by lia. apply (IH pre' rest' bytes' limit); auto; try lia.
      * eapply pending_done; eauto; unfold UNICODESET_HIGH; lia.
      * intros a Ha. pose proof (pending_head _ _ _ _ _ _ Hp Ha). lia.
    + replace (Z.min limit 0x80) with 0x80 in * by lia.
      exists bytes', 0x80, limit, pre', rest'. split_and!; auto; [lia|].
      eapply pending_weaken; eauto; lia.
Qed.

(** *** The bits below 0x800 *)

Definition table_upto (l table : list Z) (m : Z) : Prop :=
  zlen table = 64 /\ forall c, 0 <= c -> bit_at table c = (0x80 <=? c) && (c <? m) && inv_mem l c.

Lemma table_upto_skip l table m m' :
  table_upto l table m -> m <= m' -> (forall c, m <= c < m' -> inv_mem l c = false) ->
  table_upto l table m'.
Proof.
  intros [Hz Hb] Hm Hn. split; [done|]. intros c Hc. rewrite Hb by done.
  destruct (Z.ltb_spec c m), (Z.ltb_spec c m'); try done; [lia|].
  rewrite Hn by lia. by rewrite !andb_false_r.
Qed.

Lemma table7FF_loop_spec fuel l st pre rest table start limit m :
  l = pre ++ rest -> pending l m start limit rest -> 0x80 <= m <= start -> m <= 0x800 ->
  table_upto l table m -> zlen rest < Z.of_nat fuel ->
  exists table' start' limit' pre' rest',
    table7FF_loop fuel (l ++ st) (zlen l) table start limit (zlen pre) =
      Some (table', start', limit', zlen pre') /\
    l = pre' ++ rest' /\ table_upto l table' 0x800 /\ 0x800 <= start' /\ pending l 0x800 start' limit' rest'.
Proof.
  revert pre rest table start limit m.
  induction fuel as [|fuel IH]; intros pre rest table start limit m El Hp Hm Hm' Ht Hf.
  { pose proof (zlen_nonneg rest). lia. }
  cbn [table7FF_loop]. pose proof (pending_limit _ _ _ _ _ Hp) as Hpl.
  assert (Hskip : forall m', m <= m' <= start -> m' <= UNICODESET_HIGH -> table_upto l table m').
  { intros m' ? ?. eapply table_upto_skip; [done|lia|]. intros c Hc.
    apply (pending_above l m start limit rest); auto; lia. }
  destruct (Z.ltb_spec start 0x800) as [Hlt|Hge].
  - assert (start < limit).
    { destruct Hp as [[(-> & _)|(? & _)] _]; [unfold UNICODESET_HIGH; lia|done]. }
    replace (if limit <=? 0x800 then limit else 0x800) with (Z.min limit 0x800) by zcases.
    destruct (set32x64Bits_adds table start (Z.min limit 0x800)) as (t' & -> & Hz & Hg);
      [apply Ht|lia|lia|]. cbn [mbind option_bind].
    assert (Ht' : table_upto l t' (Z.min limit 0x800)).
    { split; [done|]. intros c Hc. rewrite Hg by done. destruct (Hskip start) as [_ Hb];
        [lia|unfold UNICODESET_HIGH; lia|]. rewrite Hb by done.
      destruct (Z.leb_spec start c); [destruct (Z.ltb_spec c (Z.min limit 0x800))|]; cbn [andb].
      - rewrite (pending_in l m start limit rest) by (done || unfold UNICODESET_HIGH; lia). zcases.
      - destruct (Z.ltb_spec c start); [lia|]. by rewrite andb_false_r.
      - destruct (Z.ltb_spec c start), (Z.ltb_spec c (Z.min limit 0x800)); try lia. by rewrite orb_false_r. }
    destruct (Z.ltb_spec 0x800 limit).
    + replace (Z.min limit 0x800) with 0x800 in Ht' by lia.
      exists t', 0x800, limit, pre, rest. split_and!; auto; [lia|]. eapply pending_weaken; eauto; lia.
    + replace (Z.min limit 0x800) with limit in Ht' by lia.
      assert (remaining l limit rest) as Hrem by (eapply pending_done; eauto; unfold UNICODESET_HIGH; lia).
      destruct (next_range_spec l st pre rest limit El Hrem)
        as (start2 & limit2 & pre' & rest' & -> & El' & Hlt2 & Hst & Hp2). cbn [mbind option_bind].
      pose proof (pending_head _ _ _ _ _ _ Hp Hst). eapply IH; eauto; lia.
  - exists table, start, limit, pre, rest. split_and!; auto.
    + apply Hskip; [lia|unfold UNICODESET_HIGH; lia].
    + eapply pending_weaken; eauto; lia.
Qed.

(** *** The bits of the 64-blocks *)

(** The two bits of block [blk] are right: mixed, or the same answer for the whole block. *)
Definition exact (l table : list Z) (blk : Z) : Prop :=
  bit_at table (blk + 1024) = true \/
  forall c, c / 64 = blk -> inv_mem l c = bit_at table blk.

(** The blocks of [0x800..P[ are right, the blocks below and from [P] on are untouched. *)
Definition blocks_upto (l table : list Z) (P : Z) : Prop :=
  zlen table = 64 /\ P mod 64 = 0 /\
  (forall blk, 0x20 <= blk < P / 64 -> exact l table blk) /\
  (forall blk, 0 <= blk < 0x20 \/ P / 64 <= blk < 1024 ->
     bit_at table blk = false /\ bit_at table (blk + 1024) = false).

Lemma blocks_skip l table P P' :
  blocks_upto l table P -> P <= P' <= 0x10000 -> P' mod 64 = 0 ->
  (forall c, P <= c < P' -> inv_mem l c = false) -> blocks_upto l table P'.
Proof.
  intros (Hz & Hd & He & Hn) HP Hd' Hm. split_and!; auto.
  - intros blk Hb. destruct (Z.lt_ge_cases blk (P / 64)); [apply He; lia|]. right. intros c Hc.
    destruct (Hn blk) as [-> _]; [dlia|]. apply Hm. dlia.
  - intros blk Hb. apply Hn. dlia.
Qed.

Lemma mark_mixed_spec table x :
  zlen table = 64 -> 0 <= x < 1024 ->
  exists table', mark_mixed table x = Some table' /\ zlen table' = 64 /\
    forall c, 0 <= c < 2048 -> bit_at table' c = bit_at table c || (c =? x) || (c =? x + 1024).
Proof.
  intros Hz Hx. unfold mark_mixed. destruct (split64 x) as [-> ->]; [lia|].
  destruct (or_column_spec 1 table (x mod 64) (uint32 (Z.shiftl 0x10001 (x / 64)))) as (t' & -> & ? & Hg);
    [done|dlia|dlia|].
  exists t'. split_and!; auto. intros c Hc. rewrite Hg, <- orb_assoc by lia. f_equal.
  rewrite testbit_uint32 by dlia. change 0x10001 with (Z.lor (Z.shiftl 1 0) (Z.shiftl 1 16)).
  rewrite Z.shiftl_lor, !Z.shiftl_shiftl, Z.lor_spec, !testbit_shift1 by dlia.
  apply eq_true_iff_eq. rewrite !orb_true_iff, !andb_true_iff, orb_true_iff, !Z.leb_le, !Z.ltb_lt, !Z.eqb_eq.
  dlia.
Qed.

Lemma blocks_mark l table P :
  blocks_upto l table P -> 0x800 <= P < 0x10000 ->
  exists table', mark_mixed table (P / 64) = Some table' /\ blocks_upto l table' (P + 64).
Proof.
  intros (Hz & Hd & He & Hn) HP.
  destruct (mark_mixed_spec table (P / 64)) as (t' & -> & Hz' & Hg); [done|dlia|].
  exists t'. split; [done|]. split_and!; [done|dlia| |].
  - intros blk Hb. unfold exact. rewrite !Hg by dlia. destruct (Z.eqb_spec (blk + 1024) (P / 64 + 1024)).
    { left. by rewrite orb_true_r. }
    destruct (He blk) as [He'|He']; [dlia| |].
    + left. by rewrite He'.
    + right. intros c Hc. rewrite (He' c Hc). zcases; [dlia..|]. by rewrite !orb_false_r.
  - intros blk Hb. rewrite !Hg by dlia. destruct (Hn blk) as [-> ->]; [dlia|].
    cbn [orb]. zcases; dlia || done.
Qed.

Lemma blocks_fill l table P P' :
  blocks_upto l table P -> 0x800 <= P < P' -> P' <= 0x10000 -> P' mod 64 = 0 ->
  (forall c, P <= c < P' -> inv_mem l c = true) ->
  exists table', set32x64Bits table (P / 64) (P' / 64) = Some table' /\ blocks_upto l table' P'.
Proof.
  intros (Hz & Hd & He & Hn) HP HP' Hd' Hm.
  destruct (set32x64Bits_adds table (P / 64) (P' / 64)) as (t' & -> & Hz' & Hg); [done|dlia..|].
  exists t'. split; [done|]. split_and!; auto.
  - intros blk Hb. unfold exact. rewrite !Hg by dlia. destruct (Z.lt_ge_cases blk (P / 64)) as [Hlt|Hge].
    + destruct (He blk) as [He'|He']; [lia| |].
      * left. by rewrite He'.
      * right. intros c Hc. rewrite (He' c Hc). zcases. by rewrite orb_false_r.
    + right. intros c Hc. rewrite Hm by dlia. symmetry. zcases.
  - intros blk Hb. rewrite !Hg by dlia. destruct (Hn blk) as [-> ->]; [dlia|].
    assert (0x20 <= P / 64 <= P' / 64) by dlia. assert (P' / 64 <= 1024) by dlia. cbn [orb]. by zcases.
Qed.

Lemma land_block c : 0 <= c -> Z.land c (Z.lnot 0x3f) = c / 64 * 64.
Proof.
  intros. change 0x3f with (Z.ones 6). rewrite <- Z.ldiff_land, Z.ldiff_ones_r, Z.shiftl_mul_pow2 by lia.
  by rewrite Z.shiftr_div_pow2 by lia.
Qed.

(** One range: the processed part grows to [P'], past the end of the range. *)
Lemma block_range_spec l table P start limit minStart :
  blocks_upto l table P -> 0x800 <= P <= start -> start < limit -> limit <= 0x10000 -> minStart <= P ->
  (forall c, P <= c < start -> inv_mem l c = false) ->
  (forall c, start <= c < limit -> inv_mem l c = true) ->
  exists table' limit' minStart' P', block_range table start limit minStart = Some (table', limit', minStart') /\
    blocks_upto l table' P' /\ limit <= P' <= 0x10000 /\ minStart' <= P' /\
    (P' = minStart' \/ P' = limit) /\ (limit' = 0x10000 -> P' = 0x10000) /\
    (limit' <> 0x10000 -> limit < 0x10000).
Proof.
  intros Hb HP Hlt Hlim Hmin Hno Hyes. unfold block_range. destruct (Z.ltb_spec start limit); [|lia].
  destruct (split64 start) as [Es ->]; [lia|]. destruct (split64 limit) as [El ->]; [lia|].
  rewrite Es, land_block by lia. rewrite El.
  assert (exists t1 start1 min1, (if negb (start mod 64 =? 0)
      then t ← mark_mixed table (start / 64);
           Some (t, Z.shiftl (start / 64 + 1) 6, Z.shiftl (start / 64 + 1) 6)
      else Some (table, start, minStart)) = Some (t1, start1, min1) /\ blocks_upto l t1 start1 /\
      start <= start1 < start + 64 /\ min1 <= start1 /\ (start1 = min1 \/ start1 = start) /\ start1 mod 64 = 0 /\
      start1 <= 0x10000)
    as (t1 & start1 & min1 & -> & Hb1 & Hs1 & Hmin1 & Hor1 & Hd1 & Hle1).
  { destruct (Z.eqb_spec (start mod 64) 0) as [E|E]; cbn [negb].
    - exists table, start, minStart. split_and!; auto; try lia. eapply blocks_skip; eauto; lia.
    - assert (blocks_upto l table (start / 64 * 64)) as Hb0.
      { eapply blocks_skip; eauto; [|dlia|intros; apply Hno; dlia].
        destruct Hb as (_ & Hd & _). dlia. }
      destruct (blocks_mark l table (start / 64 * 64)) as (t' & Em & Hb'); [done|dlia|].
      rewrite Z.div_mul in Em by lia. rewrite Em. cbn [mbind option_bind].
      rewrite Z.shiftl_mul_pow2 by lia. change (2 ^ 6) with 64.
      exists t', ((start / 64 + 1) * 64), ((start / 64 + 1) * 64).
      replace ((start / 64 + 1) * 64) with (start / 64 * 64 + 64) by lia. split_and!; auto; dlia. }
  cbn [mbind option_bind]. destruct (Z.ltb_spec start1 limit) as [Hlt1|Hge1].
  2:{ exists t1, limit, min1, start1. split_and!; auto; lia. }
  assert (exists t2, (if start1 <? limit / 64 * 64
      then set32x64Bits t1 (Z.shiftr start1 6) (limit / 64) else Some t1) = Some t2 /\
      blocks_upto l t2 (limit / 64 * 64)) as (t2 & -> & Hb2).
  { destruct (split64 start1) as [-> _]; [lia|]. destruct (Z.ltb_spec start1 (limit / 64 * 64)) as [Hlt2|Hge2].
    - destruct (blocks_fill l t1 start1 (limit / 64 * 64)) as (t2 & Ef & Hb2);
        [done|lia|dlia|dlia|intros; apply Hyes; dlia|].
      rewrite Z.div_mul in Ef by lia. eauto.
    - exists t1. split; [done|]. replace (limit / 64 * 64) with start1 by dlia. done. }
  cbn [mbind option_bind]. destruct (Z.eqb_spec (limit mod 64) 0) as [E|E]; cbn [negb].
  - exists t2, limit, min1, (limit / 64 * 64). split_and!; auto; dlia.
  - destruct (blocks_mark l t2 (limit / 64 * 64)) as (t3 & Em & Hb3); [done|dlia|].
    rewrite Z.div_mul in Em by lia. rewrite Em. cbn [mbind option_bind].
    rewrite Z.shiftl_mul_pow2 by lia. change (2 ^ 6) with 64.
    replace ((limit / 64 + 1) * 64) with (limit / 64 * 64 + 64) by lia.
    eexists t3, _, _, (limit / 64 * 64 + 64). split_and!; eauto; dlia.
Qed.

Lemma block_loop_spec fuel l st pre rest table start limit minStart P :
  l = pre ++ rest -> pending l P start limit rest -> blocks_upto l table P ->
  0x800 <= P <= 0x10000 -> minStart <= P -> P = minStart \/ P <= start ->
  zlen rest < Z.of_nat fuel ->
  exists table', block_loop fuel (l ++ st) (zlen l) table start limit (zlen pre) minStart = Some table' /\
    blocks_upto l table' 0x10000.
Proof.
  revert pre rest table start limit minStart P.
  induction fuel as [|fuel IH]; intros pre rest table start limit minStart P El Hp Hb HP Hmin Hor Hf.
  { pose proof (zlen_nonneg rest). lia. }
  cbn [block_loop]. pose proof (pending_limit _ _ _ _ _ Hp) as Hpl.
  destruct (Z.ltb_spec start 0x10000) as [Hlt|Hge].
  2:{ exists table. split; [done|]. eapply blocks_skip; [done|lia|done|]. intros c Hc.
      apply (pending_above l P start limit rest); auto; unfold UNICODESET_HIGH; lia. }
  replace (if 0x10000 <? limit then 0x10000 else limit) with (Z.min limit 0x10000) by zcases.
  replace (if start <? minStart then minStart else start) with (Z.max start minStart) by zcases.
  assert (Hr : exists table' limit' minStart' P', block_range table (Z.max start minStart) (Z.min limit 0x10000) minStart
      = Some (table', limit', minStart') /\
    blocks_upto l table' P' /\ P <= P' /\ Z.min limit 0x10000 <= P' <= 0x10000 /\ minStart' <= P' /\
    (P' = minStart' \/ P' = Z.min limit 0x10000) /\ (limit' = 0x10000 -> P' = 0x10000) /\
    (limit' <> 0x10000 -> Z.min limit 0x10000 < 0x10000)).
  { destruct (Z.lt_ge_cases (Z.max start minStart) (Z.min limit 0x10000)).
    - destruct (block_range_spec l table P (Z.max start minStart) (Z.min limit 0x10000) minStart)
        as (t' & lim' & min' & P' & E & ? & ? & ? & ? & ? & ?); auto; try lia.
      + intros c Hc. apply (pending_above l P start limit rest); auto; unfold UNICODESET_HIGH; lia.
      + intros c Hc. apply (pending_in l P start limit rest); auto; unfold UNICODESET_HIGH; lia.
      + exists t', lim', min', P'. split_and!; auto; lia.
    - unfold block_range. destruct (Z.ltb_spec (Z.max start minStart) (Z.min limit 0x10000)); [lia|].
      assert (start < limit) by (destruct Hp as [[(-> & _)|(? & _)] _]; unfold UNICODESET_HIGH; lia).
      exists table, (Z.min limit 0x10000), minStart, P. split_and!; auto; lia. }
  destruct Hr as (t' & lim' & min' & P' & -> & Hb' & HPP & HP' & Hmin' & Hor' & Hend & Hnot).
  cbn [mbind option_bind]. destruct (Z.eqb_spec lim' 0x10000) as [Eq|Hne].
  { exists t'. split; [done|]. by rewrite <- (Hend Eq). }
  specialize (Hnot Hne).
  assert (Hrem : remaining l P' rest) by (eapply pending_done; eauto; unfold UNICODESET_HIGH; lia).
  destruct (next_range_spec l st pre rest P' El Hrem)
    as (start2 & limit2 & pre' & rest' & -> & El' & Hlt2 & Hst & Hp2). cbn [mbind option_bind].
  pose proof (pending_head _ _ _ _ _ _ Hp Hst). eapply (IH pre' rest' t' start2 limit2 min' P'); eauto; lia.
Qed.

(** *** The indexes of the 4k boundaries *)

Definition boundary_of (i : Z) : Z := if i =? 0 then 0x800 else if i =? 0x11 then 0x10ffff else i * 4096.

Definition starts_ok (l starts : list Z) (n : Z) : Prop :=
  forall i, 0 <= i < n -> exists x, zget starts i = Some x /\ splits_at l (boundary_of i) x.

Lemma splits_at_mono l c d i j : splits_at l c i -> splits_at l d j -> c <= d -> i <= j.
Proof.
  intros (Hi & Hle & _) (Hj & _ & Hgt) Hcd. apply Z.nlt_ge. intros Hji.
  destruct (zget_is_Some l j) as [x Hx]; [lia|]. specialize (Hle j x ltac:(lia) Hx). specialize (Hgt x Hx). lia.
Qed.

Lemma find_from l st c lo d :
  wf_list l -> splits_at l d lo -> d <= c -> c < UNICODESET_HIGH ->
  exists i, findCodePoint_between (l ++ st) c lo (zlen l - 1) = Some i /\ splits_at l c i.
Proof.
  intros Hwf (Hlo & Hle & _) Hdc Hc. rewrite findCodePoint_between_app by lia.
  pose proof (wf_list_last l Hwf) as Hlast.
  destruct (findCodePoint_between_spec l c lo (zlen l - 1)) as (i & E & _ & Hs); eauto; try lia.
  - apply Hwf.
  - intros j x Hj Hx. specialize (Hle j x Hj Hx). lia.
  - intros x Hx. simplify_eq. done.
Qed.

Lemma starts_loop_spec n l st acc :
  wf_list l -> 0 < zlen acc -> zlen acc + Z.of_nat n <= 0x11 -> starts_ok l acc (zlen acc) ->
  exists starts, starts_loop n (l ++ st) (zlen l) (zlen acc) acc = Some starts /\
    zlen starts = zlen acc + Z.of_nat n /\ starts_ok l starts (zlen acc + Z.of_nat n).
Proof.
  intros Hwf. revert acc. induction n as [|n IH]; intros acc Hpos Hn Hok; cbn [starts_loop].
  { exists acc. rewrite Z.add_0_r. auto. }
  destruct (Hok (zlen acc - 1)) as (prev & -> & Hprev); [lia|]. cbn [mbind option_bind].
  rewrite Z.shiftl_mul_pow2 by lia. change (2 ^ 12) with 4096.
  destruct (find_from l st (zlen acc * 4096) prev (boundary_of (zlen acc - 1))) as (x & -> & Hx); auto.
  { unfold boundary_of. zcases. } { unfold UNICODESET_HIGH. lia. }
  cbn [mbind option_bind]. specialize (IH (acc ++ [x])). rewrite zlen_app in IH.
  change (zlen [x]) with 1 in IH. destruct IH as (starts & -> & Hl & Hs); [lia|lia| |].
  - intros i Hi. destruct (Z.lt_ge_cases i (zlen acc)).
    + rewrite zget_app_l by lia. apply Hok. lia.
    + assert (i = zlen acc) as -> by lia. rewrite zget_middle. exists x. split; [done|].
      unfold boundary_of. zcases. done.
  - exists starts. replace (zlen acc + Z.of_nat (S n)) with (zlen acc + 1 + Z.of_nat n) by lia. auto.
Qed.

Lemma new_starts l st :
  wf_list l -> exists first starts, findCodePoint_between (l ++ st) 0x800 0 (zlen l - 1) = Some first /\
    starts_loop 0x10 (l ++ st) (zlen l) 1 [first] = Some starts /\ starts_ok l (starts ++ [zlen l - 1]) 0x12.
Proof.
  intros Hwf. pose proof (wf_list_zlen l Hwf). pose proof (wf_list_last l Hwf) as Hlast.
  destruct (findCodePoint_spec l st 0x800 Hwf) as (first & Hf & Hs); [unfold UNICODESET_HIGH; lia|].
  destruct (starts_loop_spec 0x10 l st [first]) as (starts & E & Hl & Hok); [done|done|done| |].
  { intros i Hi. change (zlen [first]) with 1 in Hi. assert (i = 0) as -> by lia. exists first. done. }
  exists first, starts. split_and!; [done|done|]. change (zlen [first] + Z.of_nat 16) with 0x11 in *.
  intros i Hi. destruct (Z.lt_ge_cases i 0x11).
  - rewrite zget_app_l by lia. apply Hok. lia.
  - assert (i = 0x11) as -> by lia. rewrite <- Hl, zget_middle. exists (zlen l - 1). split; [done|].
    rewrite Hl. cbn. split; [lia|]. split.
    + intros j x Hj Hx. assert (x < UNICODESET_HIGH); [|unfold UNICODESET_HIGH in *; lia].
      eapply (sorted_zget l j (zlen l - 1)); eauto; [apply Hwf|lia].
    + intros x Hx. rewrite Hlast in Hx. simplify_eq. unfold UNICODESET_HIGH. lia.
Qed.

(** *** What makes a table set right for a list *)

(** The bits for which the tables repeat the answer for U+FFFD: ill-formed sequences. *)
Definition surrogate_block (blk : Z) : Prop := 0x360 <= blk < 0x380.

Record represents (b : t) (l : list Z) := {
  rep_list : exists st, cells b = l ++ st;
  rep_length : listLength b = zlen l;
  rep_starts : starts_ok l (list4kStarts b) 0x12;
  rep_ascii : zlen (asciiBytes b) = 0xc0 /\ forall c, 0 <= c < 0xc0 ->
    zget (asciiBytes b) c = Some (Z.b2z (inv_mem l (if c <? 0x80 then c else 0xfffd)));
  rep_table : zlen (table7FF b) = 64 /\ forall c, 0 <= c < 0x800 ->
    bit_at (table7FF b) c = inv_mem l (if c <? 0x80 then 0xfffd else c);
  rep_blocks : zlen (bmpBlockBits b) = 64 /\ forall blk, 0 <= blk < 1024 ->
    if decide (blk < 0x20 \/ surrogate_block blk)
    then bit_at (bmpBlockBits b) blk = inv_mem l 0xfffd /\ bit_at (bmpBlockBits b) (blk + 1024) = false
    else exact l (bmpBlockBits b) blk
}.

Lemma containsSlow_cells b l st c i j :
  wf_list l -> cells b = l ++ st -> starts_ok l (list4kStarts b) 0x12 ->
  0 <= i < 0x12 -> 0 <= j < 0x12 -> boundary_of i <= c <= boundary_of j ->
  containsSlow_between b c i j = Some (inv_mem l c).
Proof.
  intros Hwf Hcl Hs0 Hi Hj Hc. unfold containsSlow_between, containsSlow, findCodePoint. rewrite Hcl.
  destruct (Hs0 i Hi) as (lo & -> & Hlo), (Hs0 j Hj) as (hi & -> & Hhi).
  cbn [mbind option_bind]. assert (lo <= hi) by (eapply splits_at_mono; eauto; lia).
  pose proof Hlo as (Hlr & Hle & _). pose proof Hhi as (Hhr & _ & Hgt).
  rewrite findCodePoint_between_app by lia.
  destruct (findCodePoint_between_spec l c lo hi) as (r & -> & Hrr & Hs); auto; try lia.
  - apply Hwf.
  - intros k x Hk Hx. specialize (Hle k x Hk Hx). lia.
  - intros x Hx. specialize (Hgt x Hx). lia.
  - cbn [mbind option_bind]. f_equal. rewrite (splits_at_odd l c r) by (done || apply Hwf).
    change 1 with (Z.ones 1). rewrite land_low by lia. change (2 ^ 1) with 2. rewrite Zmod_odd.
    by destruct (Z.odd r).
Qed.

Lemma containsSlow_spec b l c i j :
  wf_list l -> represents b l -> 0 <= i < 0x12 -> 0 <= j < 0x12 -> boundary_of i <= c <= boundary_of j ->
  containsSlow_between b c i j = Some (inv_mem l c).
Proof.
  intros Hwf Hr. destruct (rep_list b l Hr) as [st Hl].
  apply (containsSlow_cells b l st); [done|done|apply Hr].
Qed.

Lemma in_table7FF_spec b c :
  zlen (table7FF b) = 64 -> 0 <= c < 0x800 -> in_table7FF b c = Some (bit_at (table7FF b) c).
Proof.
  intros Hz Hc. unfold in_table7FF, bit_at. destruct (split64 c) as [-> ->]; [lia|].
  destruct (zget_is_Some (table7FF b) (c mod 64)) as [x ->]; [rewrite Hz; dlia|].
  cbn [mbind option_bind]. f_equal.
  assert (uint32 (Z.shiftl 1 (c / 64)) = 2 ^ (c / 64)) as ->.
  { unfold uint32. rewrite Z.shiftl_1_l, Z.mod_small; [done|]. split; [apply Z.pow_nonneg; lia|].
    apply (Z.pow_lt_mono_r 2 (c / 64) 32); dlia. }
  destruct (Z.testbit x (c / 64)) eqn:E.
  - apply negb_true_iff, Z.eqb_neq. intros H0.
    assert (Z.testbit (Z.land x (2 ^ (c / 64))) (c / 64) = true) as Hb.
    { rewrite Z.land_spec, E, Z.pow2_bits_true by dlia. done. }
    rewrite H0, Z.bits_0 in Hb. done.
  - apply negb_false_iff, Z.eqb_eq, Z.bits_inj'. intros k Hk.
    rewrite Z.land_spec, Z.bits_0, Z.pow2_bits_eqb by dlia.
    destruct (Z.eqb_spec (c / 64) k) as [<-|]; [by rewrite E|apply andb_false_r].
Qed.

(** [(x>>lead)&0x10001] *)
Lemma two_bits x lead :
  0 <= lead -> Z.land (Z.shiftr x lead) 0x10001 =
    Z.b2z (Z.testbit x lead) + Z.b2z (Z.testbit x (lead + 16)) * 0x10000.
Proof.
  intros Hl. apply Z.bits_inj'. intros k Hk.
  rewrite Z.land_spec, Z.shiftr_spec by lia.
  change 0x10001 with (Z.lor (Z.shiftl 1 0) (Z.shiftl 1 16)). rewrite Z.lor_spec, !testbit_shift1 by lia.
  assert (Hs : Z.b2z (Z.testbit x lead) + Z.b2z (Z.testbit x (lead + 16)) * 0x10000 =
               Z.lor (Z.b2z (Z.testbit x (lead + 16)) * 2 ^ 16) (Z.b2z (Z.testbit x lead))).
  { rewrite lor_disjoint; [lia|lia|]. destruct (Z.testbit x lead); cbn; lia. }
  rewrite Hs, Z.lor_spec, Z.mul_pow2_bits by lia.
  destruct (Z.eqb_spec k 0) as [->|]; [|destruct (Z.eqb_spec k 16) as [->|]].
  - rewrite (Z.testbit_neg_r (Z.b2z (Z.testbit x (lead + 16))) (0 - 16)) by lia. cbn [Z.add orb]. rewrite andb_true_r. rewrite Z.add_0_l. by destruct (Z.testbit x lead).
  - rewrite (Z.add_comm 16), Z.sub_diag. cbn [Z.eqb orb]. rewrite andb_true_r.
    destruct (Z.testbit x (lead + 16)), (Z.testbit x lead); done.
  - rewrite andb_false_r. symmetry. apply orb_false_iff. split.
    + destruct (Z.ltb_spec k 16); [by rewrite Z.testbit_neg_r by lia|].
      apply (testbit_high _ 1); [lia|]. destruct (Z.testbit x (lead + 16)); cbn; lia.
    + apply (testbit_high _ 1); [lia|]. destruct (Z.testbit x lead); cbn; lia.
Qed.

Lemma in_bmpBlock_bits b c :
  zlen (bmpBlockBits b) = 64 -> 0 <= c < 0x10000 ->
  in_bmpBlock b c = if bit_at (bmpBlockBits b) (c / 64 + 1024)
                    then containsSlow_between b c (c / 4096) (c / 4096 + 1)
                    else Some (bit_at (bmpBlockBits b) (c / 64)).
Proof.
  intros Hz Hc. unfold in_bmpBlock, bit_at.
  assert (Z.shiftr c 12 = c / 4096) as -> by (by rewrite Z.shiftr_div_pow2 by lia).
  destruct (split64 c) as [-> _]; [lia|]. destruct (split64 (c / 64)) as [_ ->]; [dlia|].
  replace ((c / 64 + 1024) mod 64) with ((c / 64) mod 64) by dlia.
  destruct (zget_is_Some (bmpBlockBits b) ((c / 64) mod 64)) as [x ->]; [rewrite Hz; dlia|].
  cbn [mbind option_bind]. rewrite two_bits by dlia.
  replace (c / 64 / 64) with (c / 4096) by dlia.
  replace ((c / 64 + 1024) / 64) with (c / 4096 + 16) by dlia.
  destruct (Z.testbit x (c / 4096 + 16)), (Z.testbit x (c / 4096)); done.
Qed.

Lemma in_bmpBlock_spec b l c :
  wf_list l -> represents b l -> 0x800 <= c < 0x10000 -> ~ surrogate_block (c / 64) ->
  in_bmpBlock b c = Some (inv_mem l c).
Proof.
  intros Hwf Hr Hc Hns. destruct (rep_blocks b l Hr) as [Hz Hb]. rewrite in_bmpBlock_bits by (done || lia).
  specialize (Hb (c / 64) ltac:(dlia)). destruct (decide _) as [[?|?]|_]; [dlia|done|].
  destruct (bit_at _ (c / 64 + 1024)) eqn:E.
  - apply containsSlow_spec; auto; try dlia. unfold boundary_of.
    destruct (Z.eqb_spec (c / 4096) 0), (Z.eqb_spec (c / 4096) 0x11), (Z.eqb_spec (c / 4096 + 1) 0),
      (Z.eqb_spec (c / 4096 + 1) 0x11); dlia.
  - destruct Hb as [Hb|Hb]; [congruence|]. by rewrite (Hb c eq_refl).
Qed.

Lemma contains_represented b l c :
  wf_list l -> represents b l -> 0 <= c < UNICODESET_HIGH -> contains b c = Some (inv_mem l c).
Proof.
  intros Hwf Hr Hc. unfold UNICODESET_HIGH in Hc. unfold contains, uint32. rewrite Z.mod_small by lia.
  destruct (Z.leb_spec c 0x7f).
  { destruct (rep_ascii b l Hr) as [_ Ha]. rewrite Ha by lia. destruct (Z.ltb_spec c 0x80); [|lia].
    cbn [mbind option_bind]. f_equal. by destruct (inv_mem l c). }
  destruct (Z.leb_spec c 0x7ff).
  { destruct (rep_table b l Hr) as [Hz Ht]. rewrite in_table7FF_spec, Ht by (done || lia).
    by destruct (Z.ltb_spec c 0x80); [lia|]. }
  destruct (_ || _) eqn:E.
  { apply in_bmpBlock_spec; auto; [lia|]. unfold surrogate_block. dlia. }
  destruct (Z.leb_spec c 0x10ffff); [|lia]. apply containsSlow_spec; auto; try lia. cbn. lia.
Qed.

(** *** The constructor *)

Lemma bit_at_update table table' f i n c :
  zlen table = 64 -> 0 <= c ->
  (forall j, zget table' j = if (i <=? j) && (j <? i + n) then f <$> zget table j else zget table j) ->
  bit_at table' c = if (i <=? c mod 64) && (c mod 64 <? i + n)
                    then match zget table (c mod 64) with Some x => Z.testbit (f x) (c / 64) | None => false end
                    else bit_at table c.
Proof.
  intros Hz Hc Hg. unfold bit_at. rewrite Hg. destruct (_ && _); [|done]. by destruct (zget table _).
Qed.

Lemma initBits_spec l st starts :
  wf_list l ->
  exists bytes table blocks,
    initBits (mk (replicate 0xc0 0) (replicate 64 0) (replicate 64 0) starts (l ++ st) (zlen l)) =
      Some (mk bytes table blocks starts (l ++ st) (zlen l)) /\
    bytes_upto l bytes 0x80 /\ table_upto l table 0x800 /\ blocks_upto l blocks 0x10000.
Proof.
  intros Hwf. unfold initBits. cbn [cells listLength asciiBytes table7FF bmpBlockBits list4kStarts].
  assert (Hzero : forall n c, bit_at (replicate n 0) c = false).
  { intros n c. unfold bit_at. destruct (zget (replicate n 0) _) as [x|] eqn:E; [|done].
    apply zget_Some_lookup in E as [_ [-> _]%lookup_replicate]. apply Z.bits_0. }
  destruct (wf_list_chain l Hwf) as (a & r & El & Hc & Ha).
  destruct (ascii_loop_spec (S (length (l ++ st))) l st [] l (replicate 0xc0 0) 0)
    as (bytes & start & limit & pre & rest & E1 & El1 & Hby & Hst & Hp); auto.
  { split; [eauto|done]. } { intros a' Ea. rewrite El in Ea. simplify_eq/=. done. } { lia. }
  { split; [done|]. intros c Hcc. assert (c <? 0 = false) as -> by lia. apply zget_Some_lookup.
    split; [lia|]. apply lookup_replicate. split; [done|lia]. }
  { unfold zlen. rewrite length_app. lia. }
  change (zlen (@nil Z)) with 0 in E1. rewrite E1. cbn [mbind option_bind].
  assert (Hlen : forall p q : list Z, l = p ++ q -> zlen q < Z.of_nat (S (length (l ++ st)))).
  { intros p q ->. unfold zlen. rewrite !length_app. lia. }
  destruct (table7FF_loop_spec (S (length (l ++ st))) l st pre rest (replicate 64 0) start limit 0x80)
    as (table & start2 & limit2 & pre2 & rest2 & E2 & El2 & Htb & Hst2 & Hp2); auto; try lia.
  { split; [done|]. intros c Hcc. rewrite Hzero. zcases; done. } { eauto. }
  rewrite E2. cbn [mbind option_bind].
  destruct (block_loop_spec (S (length (l ++ st))) l st pre2 rest2 (replicate 64 0) start2 limit2 0x800 0x800)
    as (blocks & -> & Hbl); auto; try lia.
  { split_and!; [done|done|intros blk Hb; change (0x800 / 64) with 32 in Hb; lia|]. intros blk Hb. by rewrite !Hzero. } { eauto. }
  cbn [mbind option_bind]. exists bytes, table, blocks. auto.
Qed.

(** The bits that [overrideIllegal] writes into the blocks of the surrogates. *)
Lemma override_mask x k :
  0 <= k -> Z.testbit (Z.land x (uint32 (Z.lnot (Z.shiftl 0x10001 0xd)))) k =
    Z.testbit x k && negb (k =? 13) && negb (k =? 29) && (k <? 32).
Proof.
  intros Hk. rewrite Z.land_spec, testbit_uint32, Z.lnot_spec by lia.
  change (Z.shiftl 0x10001 0xd) with (Z.lor (Z.shiftl 1 13) (Z.shiftl 1 29)).
  rewrite Z.lor_spec, !testbit_shift1 by lia.
  destruct (Z.testbit x k), (k =? 13), (k =? 29), (k <? 32); done.
Qed.

(** The bits of the blocks after [overrideIllegal], [m] being the answer for U+FFFD. *)
Definition overridden (blocks : list Z) (m : bool) (c : Z) : bool :=
  if c mod 64 <? 32 then bit_at blocks c || m && (c / 64 =? 0)
  else bit_at blocks c && negb (c / 64 =? 13) && negb (c / 64 =? 29) || m && (c / 64 =? 13).

Lemma override_blocks l blocks blocks2 :
  blocks_upto l blocks 0x10000 ->
  (forall c, 0 <= c < 2048 -> bit_at blocks2 c = overridden blocks (inv_mem l 0xfffd) c) ->
  forall blk, 0 <= blk < 1024 ->
    if decide (blk < 0x20 \/ surrogate_block blk)
    then bit_at blocks2 blk = inv_mem l 0xfffd /\ bit_at blocks2 (blk + 1024) = false
    else exact l blocks2 blk.
Proof.
  intros (Hz & _ & He & Hn) Hbit blk Hblk. change (0x10000 / 64) with 1024 in *.
  unfold exact. rewrite !Hbit by lia. unfold overridden.
  replace ((blk + 1024) mod 64) with (blk mod 64) by dlia.
  replace ((blk + 1024) / 64) with (blk / 64 + 16) by dlia.
  assert (0 <= blk / 64 < 16) by dlia. unfold surrogate_block.
  destruct (decide _) as [[Hlow|Hsur]|Hleg].
  - destruct (Hn blk) as [-> ->]; [lia|]. assert (blk / 64 = 0) by dlia. assert (blk mod 64 < 32) by dlia.
    repeat (zcase; try lia). by rewrite andb_true_r, andb_false_r.
  - assert (blk / 64 = 13) by dlia. assert (32 <= blk mod 64) by dlia.
    repeat (zcase; try lia).
    by destruct (bit_at blocks blk), (bit_at blocks (blk + 1024)), (inv_mem l 0xfffd).
  - destruct (Z.ltb_spec (blk mod 64) 32).
    + assert (blk / 64 <> 0) by dlia. repeat (zcase; try lia).
      rewrite !andb_false_r, !orb_false_r. apply He. lia.
    + assert (blk / 64 <> 13) by dlia. repeat (zcase; try lia). cbn [negb].
      rewrite !andb_false_r, !andb_true_r, !orb_false_r. apply He. lia.
Qed.

Lemma override_bits_in blocks blocks1 blocks2 :
  zlen blocks = 64 -> zlen blocks1 = 64 ->
  (forall j, zget blocks1 j = if (0 <=? j) && (j <? 0 + Z.of_nat 32)
     then (fun x => Z.lor x 1) <$> zget blocks j else zget blocks j) ->
  (forall j, zget blocks2 j = if (32 <=? j) && (j <? 32 + Z.of_nat 32)
     then (fun x => Z.lor (Z.land x (uint32 (Z.lnot (Z.shiftl 0x10001 0xd)))) (Z.shiftl 1 0xd)) <$> zget blocks1 j
     else zget blocks1 j) ->
  forall c, 0 <= c < 2048 -> bit_at blocks2 c = overridden blocks true c.
Proof.
  intros Hz Hz1 Hg1 Hg2 c Hc. unfold overridden, bit_at. rewrite Hg2, Hg1.
  assert (0 <= c mod 64 < 64) by dlia. assert (0 <= c / 64 < 32) by dlia.
  destruct (zget_is_Some blocks (c mod 64)) as [x ->]; [lia|].
  destruct (Z.ltb_spec (c mod 64) 32); repeat (zcase; cbn [andb]; try lia);
    cbn [fmap option_fmap option_map]; rewrite Z.lor_spec;
    change 1 with (Z.shiftl 1 0) at 1; rewrite ?override_mask, ?testbit_shift1 by lia;
    rewrite ?Z.add_0_r; repeat (zcase; cbn [andb negb]; try lia); by rewrite ?andb_true_r.
Qed.

Lemma override_bits_out blocks blocks2 :
  zlen blocks = 64 ->
  (forall j, zget blocks2 j = if (32 <=? j) && (j <? 32 + Z.of_nat 32)
     then (fun x => Z.land x (uint32 (Z.lnot (Z.shiftl 0x10001 0xd)))) <$> zget blocks j
     else zget blocks j) ->
  forall c, 0 <= c < 2048 -> bit_at blocks2 c = overridden blocks false c.
Proof.
  intros Hz Hg c Hc. unfold overridden, bit_at. rewrite Hg.
  assert (0 <= c mod 64 < 64) by dlia. assert (0 <= c / 64 < 32) by dlia.
  destruct (zget_is_Some blocks (c mod 64)) as [x ->]; [lia|].
  destruct (Z.ltb_spec (c mod 64) 32); repeat (zcase; cbn [andb]; try lia);
    cbn [fmap option_fmap option_map andb]; rewrite ?override_mask, ?orb_false_r by lia;
    repeat (zcase; cbn [andb negb]; try lia); by rewrite ?andb_true_r, ?andb_false_r.
Qed.

Lemma overrideIllegal_spec l st starts bytes table blocks :
  wf_list l -> starts_ok l starts 0x12 ->
  bytes_upto l bytes 0x80 -> table_upto l table 0x800 -> blocks_upto l blocks 0x10000 ->
  exists b, overrideIllegal (mk bytes table blocks starts (l ++ st) (zlen l)) = Some b /\ represents b l.
Proof.
  intros Hwf Hs [Hz1 Hby] [Hz2 Htb] Hbl. pose proof Hbl as (Hz3 & _).
  set (b0 := mk bytes table blocks starts (l ++ st) (zlen l)).
  assert (Hslow : containsSlow_between b0 0xfffd 0xf 0x10 = Some (inv_mem l 0xfffd)).
  { apply (containsSlow_cells b0 l st); auto; try lia. cbn. lia. }
  unfold containsSlow_between in Hslow. unfold overrideIllegal.
  destruct (zget (list4kStarts b0) 0xf) as [lo|]; [|done]. cbn [mbind option_bind] in *.
  destruct (zget (list4kStarts b0) 0x10) as [hi|]; [|done]. cbn [mbind option_bind] in *.
  rewrite Hslow. cbn [mbind option_bind b0 asciiBytes table7FF bmpBlockBits list4kStarts cells listLength].
  destruct (inv_mem l 0xfffd) eqn:Em.
  - destruct (update_range_spec (fun _ => 1) (0xc0 - 0x80) bytes 0x80) as (bytes2 & -> & Hl1 & Hg1); [lia|lia|].
    destruct (update_range_spec (fun x => Z.lor x 3) 64 table 0) as (table2 & -> & Hl2 & Hg2); [lia|lia|].
    destruct (update_range_spec (fun x => Z.lor x 1) 32 blocks 0) as (blocks1 & -> & Hl3 & Hg3); [lia|lia|].
    cbn [mbind option_bind].
    destruct (update_range_spec (fun x => Z.lor (Z.land x (uint32 (Z.lnot (Z.shiftl 0x10001 0xd)))) (Z.shiftl 1 0xd))
      32 blocks1 32) as (blocks2 & -> & Hl4 & Hg4); [lia|lia|].
    cbn [mbind option_bind]. eexists. split; [done|].
    constructor; cbn [asciiBytes table7FF bmpBlockBits list4kStarts cells listLength]; eauto.
    + split; [lia|]. intros c Hc. rewrite Hg1. rewrite Hby by lia.
      destruct (Z.ltb_spec c 0x80); repeat (zcase; cbn [andb]; try lia).
      * by destruct (inv_mem l c).
      * by rewrite Em.
    + split; [lia|]. intros c Hc.
      rewrite (bit_at_update table table2 _ _ _ c Hz2 ltac:(lia) Hg2).
      assert (0 <= c mod 64 < 64) by dlia. repeat (zcase; cbn [andb]; try lia).
      all: specialize (Htb c ltac:(lia)); unfold bit_at in Htb.
      all: destruct (zget_is_Some table (c mod 64)) as [x Hx]; [lia|]; rewrite Hx in *.
      all: rewrite Z.lor_spec, Htb; change 3 with (Z.lor (Z.shiftl 1 0) (Z.shiftl 1 1)).
      all: rewrite Z.lor_spec, !testbit_shift1 by dlia.
      * rewrite Em. assert (c / 64 = 0 \/ c / 64 = 1) as [-> | ->] by dlia; by rewrite orb_true_r.
      * assert (2 <= c / 64) by dlia. repeat (zcase; cbn [andb orb]; try lia). by rewrite orb_false_r.
    + split; [lia|]. apply (override_blocks l blocks blocks2 Hbl). rewrite Em.
      by apply (override_bits_in blocks blocks1 blocks2); [|lia|..].
  - destruct (update_range_spec (fun x => Z.land x (uint32 (Z.lnot (Z.shiftl 0x10001 0xd)))) 32 blocks 32)
      as (blocks2 & -> & Hl4 & Hg4); [lia|lia|].
    cbn [mbind option_bind]. eexists. split; [done|].
    constructor; cbn [asciiBytes table7FF bmpBlockBits list4kStarts cells listLength]; eauto.
    + split; [lia|]. intros c Hc. rewrite Hby by lia.
      destruct (Z.ltb_spec c 0x80); cbn [andb]; [by destruct (inv_mem l c)|by rewrite Em].
    + split; [lia|]. intros c Hc. rewrite Htb by lia.
      destruct (Z.ltb_spec c 0x80); repeat (zcase; cbn [andb]; try lia); done.
    + split; [lia|]. apply (override_blocks l blocks blocks2 Hbl). rewrite Em.
      by apply override_bits_out.
Qed.

Lemma new_represents l st : wf_list l -> exists b, new (l ++ st) (zlen l) = Some b /\ represents b l.
Proof.
  intros Hwf. unfold new. destruct (new_starts l st Hwf) as (first & starts & -> & E0 & Hs).
  cbn [mbind option_bind]. rewrite E0.
  destruct (initBits_spec l st (starts ++ [zlen l - 1]) Hwf) as (bytes & table & blocks & E & Hby & Htb & Hbl).
  cbn [mbind option_bind]. rewrite E. cbn [mbind option_bind]. by apply overrideIllegal_spec.
Qed.

(** C17: for every inversion list the constructor builds the bit tables without an access
    outside its arrays, and [contains] then answers, for each of the 0x110000 code points,
    exactly what the list says, whichever table it looks the code point up in. *)
Theorem BMPSet_contains l st :
  wf_list l -> exists b, new (l ++ st) (zlen l) = Some b /\
    forall c, is_int32 c -> contains b c = Some ((0 <=? c) && (c <? UNICODESET_HIGH) && inv_mem l c).
Proof.
  intros Hwf. destruct (new_represents l st Hwf) as (b & E & Hr). exists b. split; [done|].
  intros c Hi. unfold is_int32, INT32_MIN, INT32_MAX in Hi.
  destruct ((0 <=? c) && (c <? UNICODESET_HIGH)) eqn:Hc.
  - cbn [andb]. apply (contains_represented b l c Hwf Hr). lia.
  - cbn [andb]. unfold UNICODESET_HIGH in Hc. unfold contains, uint32.
    assert (0x110000 <= c mod 4294967296) by dlia.
    repeat (zcase; cbn [andb orb]; try lia); done.
Qed.

(** *** Spans *)

(** The number of units of the longest prefix of code points that satisfy [P]. *)
Fixpoint span_units (P : Z -> bool) (cs : list Z) : Z :=
  match cs with
  | [] => 0
  | c :: cs => if P c then U16_LENGTH c + span_units P cs else 0
  end.

Lemma contains_bmp_spec b l c :
  wf_list l -> represents b l -> unit16 c -> ~ (0xd800 <= c < 0xe000) ->
  contains_bmp b c = Some (inv_mem l c).
Proof.
  intros Hwf Hr Hc Hs. unfold unit16 in Hc. rewrite <- (contains_represented b l c Hwf Hr) by (unfold UNICODESET_HIGH; lia).
  unfold contains_bmp, contains, uint32. rewrite Z.mod_small by lia.
  repeat (zcase; cbn [andb orb]; try lia); done.
Qed.

Lemma surrogate_slow b l c :
  wf_list l -> represents b l -> 0xd800 <= c < 0xe000 -> containsSlow_between b c 0xd 0xe = Some (inv_mem l c).
Proof. intros. apply containsSlow_spec; auto; try lia. cbn. lia. Qed.

Lemma supplementary_slow b l c :
  wf_list l -> represents b l -> 0x10000 <= c <= 0x10ffff ->
  containsSlow_between b c 0x10 0x11 = Some (inv_mem l c).
Proof. intros. apply containsSlow_spec; auto; try lia. Qed.

Ltac same_offset :=
  match goal with |- Some (?a, ?x) = Some (?a, ?y) => replace y with x by lia; reflexivity end.

Lemma lookup_next_spec b l text s limit :
  wf_list l -> represents b l -> Forall unit16 text -> limit <= zlen text -> 0 <= s < limit ->
  lookup_next b text s limit = '(c, i) ← U16_NEXT text s limit; Some (inv_mem l c, i - 1).
Proof.
  intros Hwf Hr Hu Hlim Hs. unfold lookup_next, U16_NEXT.
  assert (Hunit : forall i c, zget text i = Some c -> unit16 c).
  { intros i c [_ Hi]%zget_Some_lookup. by eapply Forall_lookup_1. }
  destruct (zget_is_Some text s) as [c Hc]; [lia|]. rewrite Hc. cbn [mbind option_bind].
  pose proof (Hunit s c Hc) as Uc. pose proof (lead_range c ltac:(unfold unit16 in Uc; lia)) as Lc.
  destruct (_ || _) eqn:E.
  { assert (U16_IS_LEAD c = false) as -> by (apply not_true_iff_false; rewrite Lc; lia). cbn [andb mbind option_bind].
    rewrite (contains_bmp_spec b l) by (done || lia). cbn [mbind option_bind]. same_offset. }
  destruct (Z.leb_spec 0xdc00 c); cbn [orb].
  { assert (U16_IS_LEAD c = false) as -> by (apply not_true_iff_false; rewrite Lc; lia). cbn [andb mbind option_bind].
    rewrite (surrogate_slow b l) by (done || lia). cbn [mbind option_bind]. same_offset. }
  assert (U16_IS_LEAD c = true) as -> by (apply Lc; lia). cbn [andb].
  destruct (Z.eqb_spec (s + 1) limit); cbn [negb mbind option_bind].
  { rewrite (surrogate_slow b l) by (done || lia). cbn [mbind option_bind]. same_offset. }
  destruct (zget_is_Some text (s + 1)) as [c2 Hc2]; [lia|]. rewrite Hc2. cbn [mbind option_bind].
  pose proof (Hunit _ c2 Hc2) as Uc2. pose proof (trail_range c2 ltac:(unfold unit16 in Uc2; lia)) as Tc.
  destruct ((c2 <? 0xdc00) || (0xe000 <=? c2)) eqn:E2.
  - assert (U16_IS_TRAIL c2 = false) as -> by (apply not_true_iff_false; rewrite Tc; lia). cbn [mbind option_bind].
    rewrite (surrogate_slow b l) by (done || lia). cbn [mbind option_bind]. same_offset.
  - assert (U16_IS_TRAIL c2 = true) as -> by (apply Tc; lia). cbn [mbind option_bind].
    rewrite (supplementary_slow b l) by (done || rewrite supplementary_value; lia). cbn [mbind option_bind].
    same_offset.
Qed.

Lemma lookup_prev_spec b l text limit :
  wf_list l -> represents b l -> Forall unit16 text -> 0 < limit <= zlen text ->
  lookup_prev b text 0 limit = '(c, i) ← U16_PREV text 0 limit; Some (inv_mem l c, i).
Proof.
  intros Hwf Hr Hu Hlim. unfold lookup_prev, U16_PREV.
  assert (Hunit : forall i c, zget text i = Some c -> unit16 c).
  { intros i c [_ Hi]%zget_Some_lookup. by eapply Forall_lookup_1. }
  destruct (zget_is_Some text (limit - 1)) as [c Hc]; [lia|]. rewrite Hc. cbn [mbind option_bind].
  pose proof (Hunit _ c Hc) as Uc. pose proof (trail_range c ltac:(unfold unit16 in Uc; lia)) as Tc.
  destruct (_ || _) eqn:E.
  { assert (U16_IS_TRAIL c = false) as -> by (apply not_true_iff_false; rewrite Tc; lia). cbn [andb mbind option_bind].
    rewrite (contains_bmp_spec b l) by (done || lia). done. }
  destruct (Z.ltb_spec c 0xdc00); cbn [orb].
  { assert (U16_IS_TRAIL c = false) as -> by (apply not_true_iff_false; rewrite Tc; lia). cbn [andb mbind option_bind].
    rewrite (surrogate_slow b l) by (done || lia). done. }
  assert (U16_IS_TRAIL c = true) as -> by (apply Tc; lia). cbn [andb].
  destruct (Z.eqb_spec 0 (limit - 1)), (Z.ltb_spec 0 (limit - 1)); try lia; cbn [mbind option_bind].
  { rewrite (surrogate_slow b l) by (done || lia). done. }
  destruct (zget_is_Some text (limit - 1 - 1)) as [c2 Hc2]; [lia|]. rewrite Hc2. cbn [mbind option_bind].
  pose proof (Hunit _ c2 Hc2) as Uc2. pose proof (lead_range c2 ltac:(unfold unit16 in Uc2; lia)) as Lc.
  destruct ((c2 <? 0xd800) || (0xdc00 <=? c2)) eqn:E2.
  - assert (U16_IS_LEAD c2 = false) as -> by (apply not_true_iff_false; rewrite Lc; lia). cbn [mbind option_bind].
    rewrite (surrogate_slow b l) by (done || lia). done.
  - assert (U16_IS_LEAD c2 = true) as -> by (apply Lc; lia). cbn [mbind option_bind].
    rewrite (supplementary_slow b l) by (done || rewrite supplementary_value; lia). done.
Qed.

Lemma span_loop_spec fuel b l p u cond :
  wf_list l -> represents b l -> Forall unit16 (p ++ u) -> u <> [] -> zlen u <= Z.of_nat fuel ->
  span_loop fuel b (p ++ u) (zlen p) (zlen (p ++ u)) cond =
    Some (zlen p + span_units (fun c => Bool.eqb (inv_mem l c) cond) (code_points u)).
Proof.
  intros Hwf Hr. revert p u. induction fuel as [|fuel IH]; intros p u Hu Hne Hf.
  { destruct u; [done|]. rewrite zlen_cons in Hf. pose proof (zlen_nonneg u). lia. }
  destruct u as [|x u]; [done|]. pose proof Hu as [_ Hxu]%Forall_app.
  cbn [span_loop]. rewrite (lookup_next_spec b l) by (try done;
    rewrite ?zlen_app, ?zlen_cons; pose proof (zlen_nonneg u); pose proof (zlen_nonneg p); lia).
  destruct (U16_NEXT_step p x u Hxu) as (c & u' & E & Hc & Hcp & ->). cbn [mbind option_bind].
  rewrite Hc. cbn [span_units]. rewrite <- (encode_zlen c Hcp).
  destruct (Bool.eqb (inv_mem l c) cond); cbn [negb]; [|f_equal; lia].
  replace (zlen p + zlen (encode c) - 1 + 1) with (zlen (p ++ encode c)) by (rewrite zlen_app; lia).
  rewrite E in *. rewrite app_assoc in *. pose proof (encode_nonempty c). destruct u' as [|y u'].
  - rewrite app_nil_r, Z.ltb_irrefl. cbn [code_points span_units]. rewrite zlen_app. f_equal. lia.
  - destruct (Z.ltb_spec (zlen (p ++ encode c)) (zlen ((p ++ encode c) ++ y :: u'))).
    2:{ rewrite (zlen_app (p ++ encode c)), zlen_cons in *. pose proof (zlen_nonneg u'). lia. }
    rewrite IH; auto.
    + rewrite zlen_app. f_equal. lia.
    + rewrite zlen_app in Hf. lia.
Qed.

Lemma spanBack_loop_spec fuel b l u st cond :
  wf_list l -> represents b l -> Forall unit16 (u ++ st) -> u <> [] -> zlen u <= Z.of_nat fuel ->
  spanBack_loop fuel b (u ++ st) 0 (zlen u) cond =
    Some (zlen u - span_units (fun c => Bool.eqb (inv_mem l c) cond) (rev (code_points u))).
Proof.
  intros Hwf Hr. revert u st. induction fuel as [|fuel IH]; intros u st Hu Hne Hf.
  { destruct u; [done|]. rewrite zlen_cons in Hf. pose proof (zlen_nonneg u). lia. }
  assert (0 < zlen u) by (destruct u; [done|]; rewrite zlen_cons; pose proof (zlen_nonneg u); lia).
  cbn [spanBack_loop]. rewrite (lookup_prev_spec b l) by (try done; rewrite ?zlen_app; pose proof (zlen_nonneg st); lia).
  pose proof Hu as [Hu1 _]%Forall_app.
  destruct (U16_PREV_step u st Hu1 Hne) as (c & u' & E & Hc & Hcp & ->). cbn [mbind option_bind].
  rewrite Hc, rev_app_distr. cbn [rev app span_units]. rewrite <- (encode_zlen c Hcp).
  destruct (Bool.eqb (inv_mem l c) cond); cbn [negb]; [|f_equal; lia].
  pose proof (encode_nonempty c). subst u. rewrite zlen_app in *. destruct u' as [|y u'].
  - cbn. f_equal. unfold zlen. cbn. lia.
  - destruct (Z.eqb_spec 0 (zlen (y :: u'))). { rewrite zlen_cons in *. pose proof (zlen_nonneg u'). lia. }
    rewrite <- app_assoc in *. rewrite (IH (y :: u') (encode c ++ st)); auto; [f_equal; lia|lia].
Qed.

(** [BMPSet::span] and [spanBack] over any 16-bit text, well-formed or not, return the
    end (resp. start) of the longest prefix (suffix) of code points whose membership in the
    set equals the condition; surrogate pairs count as one code point, and no step reads
    outside the text or the tables. *)
Theorem BMPSet_span l st u cond :
  wf_list l -> Forall unit16 u -> u <> [] ->
  exists b, new (l ++ st) (zlen l) = Some b /\
    span b u 0 (zlen u) cond =
      Some (span_units (fun c => Bool.eqb (inv_mem l c) cond) (code_points u)) /\
    spanBack b u 0 (zlen u) cond =
      Some (zlen u - span_units (fun c => Bool.eqb (inv_mem l c) cond) (rev (code_points u))).
Proof.
  intros Hwf Hu Hne. destruct (new_represents l st Hwf) as (b & E & Hr). exists b. split; [done|].
  unfold span, spanBack. rewrite Z.sub_0_r. split.
  - apply (span_loop_spec _ b l []); auto. pose proof (zlen_nonneg u). lia.
  - rewrite <- (app_nil_r u) at 2. apply spanBack_loop_spec; auto; rewrite ?app_nil_r; auto.
    pose proof (zlen_nonneg u). lia.
Qed.

(** A small list for the witnesses: A..Z, U+07C0..U+0811 and everything from U+1F600 on. *)
Definition sample : list Z := [0x41; 0x5b; 0x7c0; 0x812; 0x1f600; 0x110000].

Lemma sample_wf : wf_list sample.
Proof. split_and!; [repeat constructor; lia|repeat constructor; lia|done]. Qed.

Lemma BMPSet_contains_witness :
  exists b, new (sample ++ []) 6 = Some b /\
    forall c, is_int32 c -> contains b c = Some ((0 <=? c) && (c <? UNICODESET_HIGH) && inv_mem sample c).
Proof. exact (BMPSet_contains sample [] sample_wf). Defined.

Lemma BMPSet_span_witness :
  exists b, new (sample ++ []) 6 = Some b /\
    span b [0x41; 0xd83d; 0xde00; 0x7c0; 0x61] 0 5 true = Some 4 /\
    spanBack b [0x41; 0xd83d; 0xde00; 0x7c0; 0x61] 0 5 false = Some 4.
Proof.
  destruct (BMPSet_span sample [] [0x41; 0xd83d; 0xde00; 0x7c0; 0x61] true) as (b & E & Hs & _).
  - exact sample_wf.
  - repeat constructor; unfold unit16; lia.
  - discriminate.
  - destruct (BMPSet_span sample [] [0x41; 0xd83d; 0xde00; 0x7c0; 0x61] false) as (b' & E' & _ & Hb).
    + exact sample_wf.
    + repeat constructor; unfold unit16; lia.
    + discriminate.
    + assert (b' = b) by (change (new (sample ++ []) (zlen sample)) with (new (sample ++ []) 6) in *; congruence).
      subst b'. exists b. split; [exact E|]. split; [exact Hs|exact Hb].
Defined.
End BMPSet.
