(* ===== verification/BMPSetUtf8.v ===== *)
(** * BMPSet: spans over UTF-8 text (common/bmpset.cpp)

    [spanUTF8] looks the lead and trail bytes up in the tables without assembling a code point
    first, checks once for a truncated sequence at the end of the text, and takes each byte of
    an ill-formed sequence for U+FFFD; [spanBackUTF8] steps back with [utf8_prevCharSafeBody]. *)

From S2P Require Import Prelude Utf16 Utf8 InversionList BMPSet.
Import Utf16 Utf8 InvList.

Module BMPSetUtf8.

(** [asciiBytes[b]!=0], for ASCII and, with the answer for U+FFFD, trail bytes. *)
Definition in_asciiBytes (s : BMPSet.t) (b : Z) : option bool :=
  x ← zget (BMPSet.asciiBytes s) b; Some (negb (x =? 0)).

(** The initial all-ASCII span: the offset, and whether the function returns it. *)
Fixpoint ascii_span (fuel : nat) (set : BMPSet.t) (text : list Z) (s limit : Z) (cond : bool) : option (Z * bool) :=
  match fuel with
  | O => None
  | S fuel =>
      b ← zget text s;
      if b <? 0x80 then
        inside ← in_asciiBytes set b;
        if negb (Bool.eqb inside cond) then Some (s, true)
        else let s := s + 1 in
             if s =? limit then Some (s, true) else ascii_span fuel set text s limit cond
      else Some (s, false)
  end.

(** The check for a truncated sequence at the end: [limit] and [limit0]. *)
Definition cut_end (set : BMPSet.t) (text : list Z) (length limit : Z) (cond : bool) : option (Z * Z) :=
  let cut limit' :=
    fffd ← in_asciiBytes set 0x80;
    Some (limit', if negb (Bool.eqb fffd cond) then limit' else limit) in
  b ← zget text (limit - 1);
  if 0x80 <=? b then
    if b <? 0xc0 then
      b ← (if 2 <=? length then zget text (limit - 2) else Some b);
      if (2 <=? length) && (0xe0 <=? b) then cut (limit - 2)
      else if (b <? 0xc0) && (0x80 <=? b) && (3 <=? length) then
        b ← zget text (limit - 3); if 0xf0 <=? b then cut (limit - 3) else Some (limit, limit)
      else Some (limit, limit)
    else cut (limit - 1)
  else Some (limit, limit).

(** The loop over bytes below 0xc0: the value to return, or the offset and byte it ends at. *)
Fixpoint single_bytes (fuel : nat) (set : BMPSet.t) (text : list Z) (s b limit limit0 : Z) (cond : bool)
  : option (Z + Z * Z) :=
  match fuel with
  | O => None
  | S fuel =>
      inside ← in_asciiBytes set b;
      if negb (Bool.eqb inside cond) then Some (inl s)
      else let s := s + 1 in
           if s =? limit then Some (inl limit0)
           else b ← zget text s;
                if b <? 0xc0 then single_bytes fuel set text s b limit limit0 cond else Some (inr (s, b))
  end.

(** [(t1=(uint8_t)(s[i]-0x80)) <= 0x3f] *)
Definition trail_at (text : list Z) (i : Z) : option (option Z) :=
  x ← zget text i; let t := uint8 (x - 0x80) in Some (if t <=? 0x3f then Some t else None).

(** The tables for a lead byte [b], [s] being the offset after it: the answer and the number
    of trail bytes used, or nothing for an ill-formed sequence. *)
Definition lead_3_bytes (set : BMPSet.t) (text : list Z) (s b : Z) : option (option (bool * Z)) :=
  t1 ← trail_at text s;
  match t1 with
  | None => Some None
  | Some t1 =>
      t2 ← trail_at text (s + 1);
      match t2 with
      | None => Some None
      | Some t2 =>
          let b := Z.land b 0xf in
          x ← zget (BMPSet.bmpBlockBits set) t1;
          let twoBits := Z.land (Z.shiftr x b) 0x10001 in
          inside ← (if twoBits <=? 1 then Some (negb (twoBits =? 0))
                    else BMPSet.containsSlow_between set (Z.lor (Z.lor (Z.shiftl b 12) (Z.shiftl t1 6)) t2) b (b + 1));
          Some (Some (inside, 2))
      end
  end.

Definition lead_4_bytes (set : BMPSet.t) (text : list Z) (s b : Z) : option (option (bool * Z)) :=
  t1 ← trail_at text s;
  match t1 with
  | None => Some None
  | Some t1 =>
      t2 ← trail_at text (s + 1);
      match t2 with
      | None => Some None
      | Some t2 =>
          t3 ← trail_at text (s + 2);
          match t3 with
          | None => Some None
          | Some t3 =>
              let c := Z.lor (Z.lor (Z.lor (Z.shiftl (b - 0xf0) 18) (Z.shiftl t1 12)) (Z.shiftl t2 6)) t3 in
              inside ← (if (0x10000 <=? c) && (c <=? 0x10ffff) then BMPSet.containsSlow_between set c 0x10 0x11
                        else in_asciiBytes set 0x80);
              Some (Some (inside, 3))
          end
      end
  end.

Definition lead_2_bytes (set : BMPSet.t) (text : list Z) (s b : Z) : option (option (bool * Z)) :=
  t1 ← trail_at text s;
  match t1 with
  | None => Some None
  | Some t1 =>
      x ← zget (BMPSet.table7FF set) t1;
      Some (Some (negb (Z.land x (uint32 (Z.shiftl 1 (Z.land b 0x1f))) =? 0), 1))
  end.

(** The loop: [while(s<limit)]. *)
Fixpoint spanUTF8_loop (fuel : nat) (set : BMPSet.t) (text : list Z) (s limit limit0 : Z) (cond : bool) : option Z :=
  match fuel with
  | O => None
  | S fuel =>
      if s <? limit then
        b ← zget text s;
        r ← (if b <? 0xc0 then single_bytes (Z.to_nat (limit - s)) set text s b limit limit0 cond
             else Some (inr (s, b)));
        match r with
        | inl s => Some s
        | inr (s, b) =>
            let s := s + 1 in
            r ← (if 0xe0 <=? b then if b <? 0xf0 then lead_3_bytes set text s b else lead_4_bytes set text s b
                 else lead_2_bytes set text s b);
            match r with
            | Some (inside, n) =>
                if negb (Bool.eqb inside cond) then Some (s - 1)
                else spanUTF8_loop fuel set text (s + n) limit limit0 cond
            | None =>
                fffd ← in_asciiBytes set 0x80;
                if negb (Bool.eqb fffd cond) then Some (s - 1)
                else spanUTF8_loop fuel set text s limit limit0 cond
            end
        end
      else Some limit0
  end.

Definition spanUTF8 (set : BMPSet.t) (text : list Z) (length : Z) (cond : bool) : option Z :=
  let limit := length in
  '(s, done_) ← ascii_span (Z.to_nat length) set text 0 limit cond;
  if (done_ : bool) then Some s
  else
    let length := limit - s in
    '(limit, limit0) ← cut_end set text length limit cond;
    spanUTF8_loop (S (Z.to_nat length)) set text s limit limit0 cond.

(** ** Backwards *)

(** The ASCII sub-span from the byte [b] at [length] down: the value to return, or the offset
    and byte it ends at. *)
Fixpoint ascii_back (fuel : nat) (set : BMPSet.t) (text : list Z) (b length : Z) (cond : bool)
  : option (Z + Z * Z) :=
  match fuel with
  | O => None
  | S fuel =>
      inside ← in_asciiBytes set b;
      if negb (Bool.eqb inside cond) then Some (inl (length + 1))
      else if length =? 0 then Some (inl 0)
      else let length := length - 1 in
           b ← zget text length;
           if b <? 0x80 then ascii_back fuel set text b length cond else Some (inr (length, b))
  end.

(** The tables for a code point that is no surrogate and not ASCII. *)
Definition in_tables (set : BMPSet.t) (c : Z) : option bool :=
  if c <=? 0x7ff then BMPSet.in_table7FF set c
  else if c <=? 0xffff then BMPSet.in_bmpBlock set c
  else BMPSet.containsSlow_between set c 0x10 0x11.

Fixpoint spanBackUTF8_loop (fuel : nat) (set : BMPSet.t) (text : list Z) (length : Z) (cond : bool) : option Z :=
  match fuel with
  | O => None
  | S fuel =>
      let length := length - 1 in
      b ← zget text length;
      r ← (if b <? 0x80 then ascii_back (S (Z.to_nat length)) set text b length cond else Some (inr (length, b)));
      match r with
      | inl n => Some n
      | inr (length, b) =>
          let prev := length in
          '(c, length) ← utf8_prevCharSafeBody text 0 length b (-3);
          inside ← in_tables set c;
          if negb (Bool.eqb inside cond) then Some (prev + 1)
          else if 0 <? length then spanBackUTF8_loop fuel set text length cond else Some 0
      end
  end.

Definition spanBackUTF8 (set : BMPSet.t) (text : list Z) (length : Z) (cond : bool) : option Z :=
  spanBackUTF8_loop (S (Z.to_nat length)) set text length cond.

(** ** What the spans count *)

(** The number of bytes of the longest prefix of pieces whose code points satisfy [P], ill-formed
    pieces standing for U+FFFD. *)
Fixpoint run8 (P : Z -> bool) (ws : list (list Z)) : Z :=
  match ws with
  | [] => 0
  | w :: ws => if P (piece_value (-3) w) then zlen w + run8 P ws else 0
  end.

(** The value of a byte that is no lead byte. *)
Definition lone (b : Z) : Z := if b <? 0x80 then b else 0xfffd.

Section Run.
Variable P : Z -> bool.
Notation R u := (run8 P (pieces u)).

Lemma run_lone b u : byte8 b -> b < 0xc0 -> R (b :: u) = if P (lone b) then 1 + R u else 0.
Proof.
  intros Hb Hlt. rewrite pieces_cons. unfold own_trails. destruct (count_of b Hb) as [-> _]; [|lia].
  cbn [Z.to_nat take_trails length drop run8]. rewrite piece_value_lone by done. done.
Qed.

Lemma trail_lone t : byte8 t -> U8_IS_TRAIL t = true -> t < 0xc0 /\ lone t = 0xfffd.
Proof. intros Hb Ht%trail_range8; [|done]. unfold lone. destruct (Z.ltb_spec t 0x80); [lia|]. split; [lia|done]. Qed.

Lemma run_trails ts v :
  P 0xfffd = true -> Forall byte8 ts -> Forall is_trail ts -> R (ts ++ v) = zlen ts + R v.
Proof.
  intros HP Hb Ht. induction ts as [|t ts IH]; [done|]. apply Forall_cons in Hb as [Hb Hbs], Ht as [Ht Hts].
  destruct (trail_lone t Hb Ht) as [? E]. cbn [app]. rewrite run_lone, E, HP, IH, zlen_cons by done. lia.
Qed.

(** An ill-formed piece, of which the trail bytes [ts] are skipped. *)
Lemma run_ill b ts v :
  Forall byte8 (b :: ts ++ v) -> Forall is_trail ts -> piece_value (-3) (b :: own_trails b (ts ++ v)) = 0xfffd ->
  R (b :: ts ++ v) = if P 0xfffd then 1 + zlen ts + R v else 0.
Proof.
  intros Hb Ht E. rewrite pieces_cons. cbn [run8]. rewrite E. destruct (P 0xfffd) eqn:HP; [|done].
  apply Forall_cons in Hb as [_ Hb]. rewrite zlen_cons.
  assert (Ho : R (ts ++ v) = zlen (own_trails b (ts ++ v)) + R (drop (length (own_trails b (ts ++ v))) (ts ++ v))).
  { rewrite <- run_trails; [unfold own_trails; by rewrite <- take_trails_prefix|done| |apply take_trails_all].
    rewrite (take_trails_prefix (trails_of b) (ts ++ v)), Forall_app in Hb. apply Hb. }
  apply Forall_app in Hb as [Hb _]. rewrite run_trails in Ho by done. lia.
Qed.

(** A piece with all its trail bytes. *)
Lemma run_whole b ts v :
  Forall is_trail ts -> zlen ts = U8_COUNT_TRAIL_BYTES b ->
  R (b :: ts ++ v) = if P (piece_value (-3) (b :: ts)) then 1 + zlen ts + R v else 0.
Proof.
  intros Ht Hl. rewrite pieces_cons. assert (own_trails b (ts ++ v) = ts) as ->.
  { unfold own_trails. rewrite <- Hl. unfold zlen. rewrite Nat2Z.id. by apply take_trails_full. }
  rewrite drop_app_length. cbn [run8]. rewrite zlen_cons. destruct (P _); [lia|done].
Qed.
End Run.

(** ** The tables answer for bytes *)

Section Tables.
Context (set : BMPSet.t) (l : list Z) (Hwf : wf_list l) (Hrep : BMPSet.represents set l).

Lemma ascii_lookup b : 0 <= b < 0xc0 -> in_asciiBytes set b = Some (inv_mem l (lone b)).
Proof.
  intros Hb. unfold in_asciiBytes. destruct (BMPSet.rep_ascii set l Hrep) as [_ ->]; [|done]. cbn [mbind option_bind].
  fold (lone b). by destruct (inv_mem l (lone b)).
Qed.

Lemma fffd_lookup : in_asciiBytes set 0x80 = Some (inv_mem l 0xfffd).
Proof. by apply ascii_lookup. Qed.

(** What the tables say of the lead byte [b] before [u]: an ill-formed sequence, or the answer
    for the code point [x], after the trail bytes [ts]. *)
Definition lead_result (b : Z) (u : list Z) (r : option (option (bool * Z))) : Prop :=
  r = Some None /\ piece_value (-3) (b :: own_trails b u) = 0xfffd \/
  exists ts v x, u = ts ++ v /\ Forall is_trail ts /\ r = Some (Some (inv_mem l x, zlen ts)) /\
    forall P, run8 P (pieces (b :: u)) = if P x then 1 + zlen ts + run8 P (pieces v) else 0.

Lemma trail_at_spec p x u :
  byte8 x -> trail_at (p ++ x :: u) (zlen p) = Some (if U8_IS_TRAIL x then Some (x - 0x80) else None).
Proof.
  intros Hx. unfold trail_at. rewrite zget_middle. cbn [mbind option_bind]. rewrite trail_offset by done.
  destruct (U8_IS_TRAIL x) eqn:E; [by rewrite uint8_trail|done].
Qed.

(** An incomplete sequence is ill-formed. *)
Lemma short_ill b u :
  0x80 <= b -> zlen (own_trails b u) <> U8_COUNT_TRAIL_BYTES b -> piece_value (-3) (b :: own_trails b u) = 0xfffd.
Proof. intros Hb Hne. rewrite piece_value_multi by done. by destruct (Z.eqb_spec (zlen (own_trails b u)) (U8_COUNT_TRAIL_BYTES b)). Qed.

(** The value of a complete sequence of a two- or three-byte lead. *)
Lemma whole_value b ts :
  byte8 b -> 0xc0 <= b -> zlen ts = U8_COUNT_TRAIL_BYTES b -> 1 <= zlen ts <= 3 ->
  piece_value (-3) (b :: ts) = if legal (-3) (zlen ts) (seq_value b ts) then seq_value b ts else 0xfffd.
Proof.
  intros Hb Hge Hl Hr. rewrite piece_value_multi by lia. rewrite <- Hl, Z.eqb_refl.
  destruct (Z.leb_spec 1 (zlen ts)), (Z.leb_spec (zlen ts) 3); try lia. done.
Qed.

Lemma lead_class b : byte8 b ->
  (0xc0 <= b < 0xe0 -> U8_COUNT_TRAIL_BYTES b = 1 /\ Z.land b 0x1f = b - 0xc0) /\
  (0xe0 <= b < 0xf0 -> U8_COUNT_TRAIL_BYTES b = 2 /\ Z.land b 0xf = b - 0xe0) /\
  (0xf0 <= b < 0xf8 -> U8_COUNT_TRAIL_BYTES b = 3) /\
  (0xf8 <= b < 0xfe -> 4 <= U8_COUNT_TRAIL_BYTES b) /\ (0xfe <= b -> U8_COUNT_TRAIL_BYTES b = 0).
Proof.
  intros Hb. eapply (bytes_check (fun b =>
    (negb ((0xc0 <=? b) && (b <? 0xe0)) || (U8_COUNT_TRAIL_BYTES b =? 1) && (Z.land b 0x1f =? b - 0xc0)) &&
    (negb ((0xe0 <=? b) && (b <? 0xf0)) || (U8_COUNT_TRAIL_BYTES b =? 2) && (Z.land b 0xf =? b - 0xe0)) &&
    (negb ((0xf0 <=? b) && (b <? 0xf8)) || (U8_COUNT_TRAIL_BYTES b =? 3)) &&
    (negb ((0xf8 <=? b) && (b <? 0xfe)) || (4 <=? U8_COUNT_TRAIL_BYTES b)) &&
    (negb (0xfe <=? b) || (U8_COUNT_TRAIL_BYTES b =? 0)))) in Hb; [lia|by vm_compute].
Qed.

Lemma lead_2_spec p b u :
  Forall byte8 (b :: u) -> 0xc0 <= b < 0xe0 -> enough 1 u -> lead_result b u (lead_2_bytes set (p ++ u) (zlen p) b).
Proof.
  intros [Hb Hu]%Forall_cons Hr He. destruct (lead_class b Hb) as ((Hc & Hm) & _); [done|].
  destruct u as [|x u]; [by apply enough_nil in He|]. apply Forall_cons in Hu as [Hx Hu].
  unfold lead_2_bytes. rewrite trail_at_spec by done. cbn [mbind option_bind].
  destruct (U8_IS_TRAIL x) eqn:Ht.
  2:{ left. split; [done|]. apply short_ill; [lia|]. unfold own_trails. rewrite Hc. change (Z.to_nat 1) with 1%nat. cbn [take_trails]. by rewrite Ht. }
  right. apply trail_range8 in Ht as Hxr; [|done]. exists [x], u. set (c := (b - 0xc0) * 64 + (x - 0x80)).
  exists (if c <? 0x80 then 0xfffd else c). split; [done|]. split; [by constructor|]. split.
  - destruct (BMPSet.rep_table set l Hrep) as [Hz Ht']. specialize (Ht' c ltac:(lia)). rewrite <- Ht'.
    pose proof (BMPSet.in_table7FF_spec set c Hz ltac:(lia)) as Hin. unfold BMPSet.in_table7FF in Hin.
    destruct (BMPSet.split64 c) as [E1 E2]; [lia|]. rewrite E1, E2 in Hin.
    replace (c / 64) with (b - 0xc0) in Hin by (unfold c; dlia). replace (c mod 64) with (x - 0x80) in Hin by (unfold c; dlia).
    rewrite Hm. destruct (zget (BMPSet.table7FF set) (x - 0x80)) as [y|]; [|done]. cbn [mbind option_bind] in *.
    injection Hin as <-. done.
  - intros P. change (b :: x :: u) with (b :: [x] ++ u). rewrite (run_whole P b [x] u) by (done || by constructor). rewrite whole_value by (done || lia).
    assert (seq_value b [x] = c) as ->.
    { unfold seq_value. cbn [fold_left]. unfold more. destruct (lead_bits_value b Hb) as (-> & _); done. }
    unfold legal. change (default 0 (zget utf8_minLegal (zlen [x]))) with 0x80.
    destruct (Z.ltb_spec c 0x80), (Z.leb_spec 0x80 c); try lia; [done|].
    destruct (Z.leb_spec c 0x10ffff), (Z.leb_spec 0xd800 c); try (unfold c in *; lia). done.
Qed.

(** A block lookup for any two-byte value, the ill-formed ones answering for U+FFFD. *)
Lemma in_bmpBlock_any c :
  0 <= c < 0x10000 ->
  BMPSet.in_bmpBlock set c = Some (inv_mem l (if (c <? 0x800) || (0xd800 <=? c) && (c <=? 0xdfff) then 0xfffd else c)).
Proof.
  intros Hc. destruct ((c <? 0x800) || _) eqn:E.
  - rewrite BMPSet.in_bmpBlock_bits by (lia || apply Hrep). destruct (BMPSet.rep_blocks set l Hrep) as [_ Hb].
    specialize (Hb (c / 64) ltac:(dlia)). destruct (decide _) as [_|Hn]; [by destruct Hb as [-> ->]|].
    exfalso. apply Hn. unfold BMPSet.surrogate_block. dlia.
  - apply BMPSet.in_bmpBlock_spec; auto; [lia|]. unfold BMPSet.surrogate_block. dlia.
Qed.

Lemma own_trails_2 b u : U8_COUNT_TRAIL_BYTES b = 2 -> own_trails b u = take_trails 2 u.
Proof. intros E. unfold own_trails. by rewrite E. Qed.

Lemma lead_3_spec p b u :
  Forall byte8 (b :: u) -> 0xe0 <= b < 0xf0 -> enough 2 u -> lead_result b u (lead_3_bytes set (p ++ u) (zlen p) b).
Proof.
  intros [Hb Hu]%Forall_cons Hr He. destruct (lead_class b Hb) as (_ & (Hc & Hm) & _); [done|].
  destruct u as [|x u]; [by apply enough_nil in He|]. apply Forall_cons in Hu as [Hx Hu].
  unfold lead_3_bytes. rewrite trail_at_spec by done. cbn [mbind option_bind].
  destruct (U8_IS_TRAIL x) eqn:Ht.
  2:{ left. split; [done|]. apply short_ill; [lia|]. rewrite own_trails_2, Hc by done. cbn [take_trails]. by rewrite Ht. }
  apply enough_cons in He; [|done]. destruct u as [|y u]; [by apply enough_nil in He|]. apply Forall_cons in Hu as [Hy Hu].
  rewrite snoc_app, <- (zlen_snoc p x), trail_at_spec by done. cbn [mbind option_bind].
  destruct (U8_IS_TRAIL y) eqn:Ht'.
  2:{ left. split; [done|]. apply short_ill; [lia|]. rewrite own_trails_2, Hc by done. cbn [take_trails]. by rewrite Ht, Ht'. }
  right. apply trail_range8 in Ht as Hxr, Ht' as Hyr; [|done..]. exists [x; y], u.
  set (c := (b - 0xe0) * 4096 + (x - 0x80) * 64 + (y - 0x80)).
  exists (if (c <? 0x800) || (0xd800 <=? c) && (c <=? 0xdfff) then 0xfffd else c). split; [done|]. split; [by repeat constructor|]. split.
  - assert (Hlor : Z.lor (Z.lor (Z.shiftl (Z.land b 0xf) 12) (Z.shiftl (x - 0x80) 6)) (y - 0x80) = c).
    { rewrite Hm, !Z.shiftl_mul_pow2, lor_disjoint by lia.
      replace ((b - 0xe0) * 2 ^ 12 + (x - 0x80) * 2 ^ 6) with (((b - 0xe0) * 64 + (x - 0x80)) * 2 ^ 6) by lia.
      rewrite lor_disjoint by lia. unfold c. lia. }
    pose proof (in_bmpBlock_any c ltac:(unfold c; lia)) as Hin. unfold BMPSet.in_bmpBlock in Hin.
    replace (Z.shiftr c 12) with (b - 0xe0) in Hin by (rewrite Z.shiftr_div_pow2 by lia; unfold c; dlia).
    destruct (BMPSet.split64 c) as [E1 _]; [unfold c; lia|]. rewrite E1 in Hin.
    destruct (BMPSet.split64 (c / 64)) as [_ E2]; [unfold c; dlia|]. rewrite E2 in Hin.
    replace ((c / 64) mod 64) with (x - 0x80) in Hin by (unfold c; dlia).
    rewrite Hlor, Hm. destruct (zget (BMPSet.bmpBlockBits set) (x - 0x80)) as [w|]; [|done]. cbn [mbind option_bind] in *.
    rewrite Hin. done.
  - intros P. change (b :: x :: y :: u) with (b :: [x; y] ++ u). rewrite (run_whole P b [x; y] u) by (done || by repeat constructor).
    rewrite whole_value by (done || lia). destruct (lead_bits_value b Hb) as (_ & L2 & _).
    assert (seq_value b [x; y] = c) as -> by (unfold seq_value; cbn [fold_left]; unfold more; rewrite L2 by done; unfold c; lia).
    unfold legal. change (default 0 (zget utf8_minLegal (zlen [x; y]))) with 0x800. change (-3 =? -2) with false. cbn [orb].
    destruct (Z.ltb_spec c 0x800), (Z.leb_spec 0x800 c); try lia; cbn [andb orb]; [done|].
    destruct (Z.leb_spec c 0x10ffff); [|unfold c in *; lia]. cbn [andb]. by destruct ((0xd800 <=? c) && (c <=? 0xdfff)).
Qed.

Lemma long_ill b u : 0xf8 <= b -> byte8 b -> piece_value (-3) (b :: own_trails b u) = 0xfffd.
Proof.
  intros Hge Hb. destruct (lead_class b Hb) as (_ & _ & _ & H4 & H0). rewrite piece_value_multi by lia.
  destruct (Z.lt_ge_cases b 0xfe).
  - destruct (Z.leb_spec (U8_COUNT_TRAIL_BYTES b) 3); [specialize (H4 ltac:(lia)); lia|]. by rewrite !andb_false_r.
  - rewrite H0 by lia. by rewrite andb_false_r.
Qed.

(** A four-byte lead whose next bytes are not three trail bytes. *)
Lemma lead_4_short b u :
  byte8 b -> 0xf0 <= b -> (length (take_trails 3 u) < 3)%nat -> piece_value (-3) (b :: own_trails b u) = 0xfffd.
Proof.
  intros Hb Hge Hl. destruct (Z.lt_ge_cases b 0xf8); [|by apply long_ill].
  destruct (lead_class b Hb) as (_ & _ & H3 & _). apply short_ill; [lia|]. unfold own_trails. rewrite H3 by lia.
  change (Z.to_nat 3) with 3%nat. unfold zlen. lia.
Qed.

Lemma lead_4_spec p b u :
  Forall byte8 (b :: u) -> 0xf0 <= b -> enough 3 u -> lead_result b u (lead_4_bytes set (p ++ u) (zlen p) b).
Proof.
  intros [Hb Hu]%Forall_cons Hr He. pose proof (lead_4_short b u Hb Hr) as Hshort.
  destruct u as [|x u]; [by apply enough_nil in He|]. pose proof Hu as [Hx Hu1]%Forall_cons. cbn [take_trails] in Hshort.
  unfold lead_4_bytes. rewrite trail_at_spec by done. cbn [mbind option_bind].
  destruct (U8_IS_TRAIL x) eqn:Ht; [|left; split; [done|apply Hshort; simpl; lia]].
  apply enough_cons in He; [|done]. destruct u as [|y u]; [by apply enough_nil in He|]. pose proof Hu1 as [Hy Hu2]%Forall_cons.
  rewrite snoc_app, <- (zlen_snoc p x), trail_at_spec by done. cbn [mbind option_bind].
  destruct (U8_IS_TRAIL y) eqn:Ht'; [|left; split; [done|apply Hshort; simpl; lia]].
  apply enough_cons in He; [|done]. destruct u as [|z u]; [by apply enough_nil in He|]. pose proof Hu2 as [Hz Hu3]%Forall_cons.
  rewrite snoc_app. replace (zlen p + 2) with (zlen ((p ++ [x]) ++ [y])) by (rewrite !zlen_snoc; lia).
  rewrite trail_at_spec by done. cbn [mbind option_bind].
  destruct (U8_IS_TRAIL z) eqn:Ht''; [clear Hshort|left; split; [done|apply Hshort; simpl; lia]].
  right. apply trail_range8 in Ht as Hxr, Ht' as Hyr, Ht'' as Hzr; [|done..]. unfold byte8 in Hb. exists [x; y; z], u.
  set (c := (b - 0xf0) * 262144 + (x - 0x80) * 4096 + (y - 0x80) * 64 + (z - 0x80)).
  exists (if (0x10000 <=? c) && (c <=? 0x10ffff) then c else 0xfffd). split; [done|]. split; [by repeat constructor|]. split.
  - assert (Hlor : Z.lor (Z.lor (Z.lor (Z.shiftl (b - 0xf0) 18) (Z.shiftl (x - 0x80) 12)) (Z.shiftl (y - 0x80) 6)) (z - 0x80) = c).
    { rewrite !Z.shiftl_mul_pow2, lor_disjoint by lia.
      replace ((b - 0xf0) * 2 ^ 18 + (x - 0x80) * 2 ^ 12) with (((b - 0xf0) * 64 + (x - 0x80)) * 2 ^ 12) by lia.
      rewrite lor_disjoint by lia.
      replace (((b - 0xf0) * 64 + (x - 0x80)) * 2 ^ 12 + (y - 0x80) * 2 ^ 6)
        with ((((b - 0xf0) * 64 + (x - 0x80)) * 64 + (y - 0x80)) * 2 ^ 6) by lia.
      rewrite lor_disjoint by lia. unfold c. lia. }
    rewrite Hlor. destruct ((0x10000 <=? c) && (c <=? 0x10ffff)) eqn:E.
    + by rewrite (BMPSet.supplementary_slow set l) by (done || lia).
    + by rewrite fffd_lookup.
  - intros P. change (b :: x :: y :: z :: u) with (b :: [x; y; z] ++ u). destruct (Z.lt_ge_cases b 0xf8) as [Hlt|Hge].
    + destruct (lead_class b Hb) as (_ & _ & H3 & _). specialize (H3 ltac:(lia)).
      rewrite (run_whole P b [x; y; z] u) by (done || by repeat constructor).
      rewrite whole_value by (done || lia). destruct (lead_bits_value b Hb) as (_ & _ & L3).
      assert (seq_value b [x; y; z] = c) as -> by (unfold seq_value; cbn [fold_left]; unfold more; rewrite L3 by done; unfold c; lia).
      unfold legal. change (default 0 (zget utf8_minLegal (zlen [x; y; z]))) with 0x10000. change (-3 =? -2) with false. cbn [orb].
      destruct (Z.leb_spec 0x10000 c), (Z.leb_spec c 0x10ffff); cbn [andb]; try done.
      destruct (Z.leb_spec c 0xdfff); [lia|]. by rewrite andb_false_r.
    + rewrite run_ill; [|by repeat (apply Forall_cons; split)|by repeat constructor|by apply long_ill].
      destruct (Z.leb_spec 0x10000 c), (Z.leb_spec c 0x10ffff); cbn [andb]; try done. unfold c in *. lia.
Qed.

(** ** The forward loop *)

Variable cond : bool.
Let P (c : Z) : bool := Bool.eqb (inv_mem l c) cond.
Notation R u := (run8 P (pieces u)).

(** How many trail bytes the code reads after a lead byte. *)
Definition wants (b : Z) : nat := if b <? 0xe0 then 1 else if b <? 0xf0 then 2 else 3.

(** The text up to [limit], and the truncated sequence behind it. *)
Record cut_ok (v z : list Z) : Prop := {
  cut_head : forall x, head z = Some x -> U8_IS_TRAIL x = false;
  cut_run : R z = if P 0xfffd then zlen z else 0;
  cut_enough : forall p b u, v = p ++ b :: u -> 0xc0 <= b -> enough (wants b) (u ++ z)
}.

Lemma cut_ok_drop p v z : cut_ok (p ++ v) z -> cut_ok v z.
Proof. intros [H1 H2 H3]. split; auto. intros q b u ->. apply (H3 (p ++ q)). by rewrite app_assoc. Qed.

Lemma run8_nonneg ws : 0 <= run8 P ws.
Proof. induction ws as [|w ws IH]; cbn [run8]; [lia|]. pose proof (zlen_nonneg w). destruct (P _); lia. Qed.

Lemma single_bytes_spec fuel p b u z limit0 :
  Forall byte8 (b :: u) -> b < 0xc0 -> (length (b :: u) <= fuel)%nat ->
  limit0 = zlen p + zlen (b :: u) + R z ->
  (single_bytes fuel set (p ++ b :: u ++ z) (zlen p) b (zlen p + zlen (b :: u)) limit0 cond =
     Some (inl (zlen p + R (b :: u ++ z)))) \/
  (exists q b' u', b :: u = q ++ b' :: u' /\ 0xc0 <= b' /\ R (b :: u ++ z) = zlen q + R (b' :: u' ++ z) /\
     single_bytes fuel set (p ++ b :: u ++ z) (zlen p) b (zlen p + zlen (b :: u)) limit0 cond =
       Some (inr (zlen p + zlen q, b'))).
Proof.
  revert p b u. induction fuel as [|fuel IH]; intros p b u [Hb Hu]%Forall_cons Hlt Hf Hl; [simpl in Hf; lia|].
  cbn [single_bytes]. unfold byte8 in Hb. rewrite ascii_lookup by lia. cbn [mbind option_bind]. rewrite run_lone by done. fold (P (lone b)).
  destruct (P (lone b)) eqn:HP; cbn [negb]; [|left; by rewrite Z.add_0_r]. rewrite zlen_cons in *.
  destruct u as [|b' u].
  { change (zlen (@nil Z)) with 0. rewrite Z.add_0_l, Z.eqb_refl. left. rewrite Hl. cbn [app]. change (zlen (@nil Z)) with 0. do 2 f_equal. lia. }
  rewrite zlen_cons in *. pose proof (zlen_nonneg u). destruct (Z.eqb_spec (zlen p + 1) (zlen p + (zlen u + 1 + 1))); [lia|].
  cbn [app]. rewrite snoc_app, <- (zlen_snoc p b), zget_middle. cbn [mbind option_bind]. pose proof Hu as [Hb' Hu']%Forall_cons.
  destruct (Z.ltb_spec b' 0xc0).
  - replace (zlen p + (zlen u + 1 + 1)) with (zlen (p ++ [b]) + zlen (b' :: u)) by (rewrite zlen_snoc, zlen_cons; lia).
    destruct (IH (p ++ [b]) b' u) as [->|(q & x & w & E & Hx & HR & ->)]; auto; [simpl in *; lia|rewrite zlen_snoc, zlen_cons; lia| |].
    + left. rewrite zlen_snoc. do 2 f_equal. lia.
    + right. exists (b :: q), x, w. cbn [app]. rewrite <- E, zlen_cons, zlen_snoc. split; [done|]. split; [done|]. split; [lia|].
      do 3 f_equal. lia.
  - right. exists [b], b', u. change (zlen [b]) with 1. rewrite zlen_snoc. done.
Qed.

(** The trail bytes used after a lead byte lie before [limit]. *)
Lemma trails_before u z ts v :
  Forall is_trail ts -> (forall x, head z = Some x -> U8_IS_TRAIL x = false) -> u ++ z = ts ++ v -> exists u', u = ts ++ u' /\ v = u' ++ z.
Proof.
  revert u. induction ts as [|t ts IH]; intros u Ht Hz E; [by exists u|]. apply Forall_cons in Ht as [Ht Hts].
  destruct u as [|x u]; cbn [app] in E; [subst z; by rewrite (Hz t eq_refl) in Ht|]. injection E as -> E.
  destruct (IH u Hts Hz E) as (u' & -> & ->). by exists u'.
Qed.

Lemma lead_spec p b u z :
  Forall byte8 (b :: u ++ z) -> 0xc0 <= b -> enough (wants b) (u ++ z) ->
  lead_result b (u ++ z)
    (if 0xe0 <=? b then if b <? 0xf0 then lead_3_bytes set (p ++ u ++ z) (zlen p) b else lead_4_bytes set (p ++ u ++ z) (zlen p) b
     else lead_2_bytes set (p ++ u ++ z) (zlen p) b).
Proof.
  intros Hb Hge He. unfold wants in He. destruct (Z.leb_spec 0xe0 b), (Z.ltb_spec b 0xe0); try lia.
  - destruct (Z.ltb_spec b 0xf0); [by apply lead_3_spec|by apply lead_4_spec].
  - by apply lead_2_spec.
Qed.

Lemma spanUTF8_loop_spec fuel p v z limit0 :
  Forall byte8 (v ++ z) -> cut_ok v z -> limit0 = zlen p + zlen v + R z -> (length v < fuel)%nat ->
  spanUTF8_loop fuel set (p ++ v ++ z) (zlen p) (zlen p + zlen v) limit0 cond = Some (zlen p + R (v ++ z)).
Proof.
  revert p v. induction fuel as [|fuel IH]; intros p v Hb Hcut Hl Hf; [lia|]. cbn [spanUTF8_loop]. destruct v as [|b u].
  { change (zlen (@nil Z)) with 0 in *. rewrite Z.add_0_r, Z.ltb_irrefl, Hl. by rewrite Z.add_0_r. }
  rewrite zlen_cons in *. pose proof (zlen_nonneg u). destruct (Z.ltb_spec (zlen p) (zlen p + (zlen u + 1))); [|lia].
  cbn [app] in *. rewrite zget_middle. cbn [mbind option_bind].
  (* the offset of the next lead byte *)
  assert (Hlead : exists r, (if b <? 0xc0 then single_bytes (Z.to_nat (zlen p + (zlen u + 1) - zlen p)) set (p ++ b :: u ++ z)
      (zlen p) b (zlen p + (zlen u + 1)) limit0 cond else Some (inr (zlen p, b))) = Some r /\
    (r = inl (zlen p + R (b :: u ++ z)) \/ exists q b' u', b :: u = q ++ b' :: u' /\ 0xc0 <= b' /\
       R (b :: u ++ z) = zlen q + R (b' :: u' ++ z) /\ r = inr (zlen p + zlen q, b'))).
  { destruct (Z.ltb_spec b 0xc0).
    - rewrite <- (zlen_cons b u) in *. destruct (single_bytes_spec (Z.to_nat (zlen p + zlen (b :: u) - zlen p)) p b u z limit0)
        as [->|(q & b' & u' & E & Hx & HR & ->)]; eauto; [|unfold zlen; lia|eexists; split; [done|right; by exists q, b', u']].
      rewrite Forall_cons, Forall_app in Hb. destruct Hb as (? & ? & _). by constructor.
    - eexists. split; [done|]. right. exists [], b, u. change (zlen (@nil Z)) with 0. rewrite Z.add_0_r. done. }
  destruct Hlead as (r & -> & [->|(q & b' & u' & E & Hge & HR & ->)]); cbn [mbind option_bind]; [done|].
  assert (Et : p ++ b :: u ++ z = (p ++ q) ++ b' :: u' ++ z).
  { rewrite <- app_assoc. f_equal. change (b :: u ++ z) with ((b :: u) ++ z). by rewrite E, <- app_assoc. }
  assert (Hb' : Forall byte8 (b' :: u' ++ z)).
  { change (b :: u ++ z) with ((b :: u) ++ z) in Hb. rewrite E, <- app_assoc, Forall_app in Hb. apply Hb. }
  assert (Hcut' : cut_ok (b' :: u') z) by (apply (cut_ok_drop q); by rewrite <- E).
  assert (Hlen : zlen u + 1 = zlen q + (zlen u' + 1)) by (rewrite <- (zlen_cons b u), E, zlen_app, zlen_cons; lia).
  assert (Hf' : (length u' < fuel)%nat) by (unfold zlen in *; simpl in Hf; lia). rewrite Et, HR. pose proof (zlen_nonneg q).
  rewrite snoc_app. replace (zlen p + zlen q + 1) with (zlen ((p ++ q) ++ [b'])) by (rewrite zlen_snoc, zlen_app; lia).
  destruct (lead_spec ((p ++ q) ++ [b']) b' u' z Hb' Hge) as [(-> & Hill)|(ts & w & x & Hw & Hts & -> & Hrun)];
    [by apply (cut_enough _ _ Hcut' [])| |]; cbn [mbind option_bind].
  - rewrite fffd_lookup. cbn [mbind option_bind]. fold (P 0xfffd).
    change (b' :: u' ++ z) with (b' :: [] ++ u' ++ z). rewrite run_ill by (done || by constructor).
    change (zlen (@nil Z)) with 0. destruct (P 0xfffd) eqn:HP; cbn [negb]; [|f_equal; rewrite zlen_snoc, zlen_app; lia].
    replace (zlen p + (zlen u + 1)) with (zlen ((p ++ q) ++ [b']) + zlen u') by (rewrite zlen_snoc, zlen_app; lia).
    apply Forall_cons in Hb' as [_ Hb']. rewrite IH; auto.
    + f_equal. rewrite zlen_snoc, zlen_app. lia.
    + by apply (cut_ok_drop [b']).
    + rewrite Hl, zlen_snoc, zlen_app. lia.
  - fold (P x). rewrite Hrun. destruct (P x) eqn:HP; cbn [negb]; [|f_equal; rewrite zlen_snoc, zlen_app; lia].
    destruct (trails_before u' z ts w Hts (cut_head _ _ Hcut') Hw) as (u2 & -> & ->). rewrite zlen_app in Hlen.
    rewrite <- (app_assoc ts u2 z), (app_assoc _ ts (u2 ++ z)). replace (zlen p + (zlen u + 1)) with (zlen (((p ++ q) ++ [b']) ++ ts) + zlen u2)
      by (rewrite (zlen_app _ ts), zlen_snoc, zlen_app; lia).
    replace (zlen ((p ++ q) ++ [b']) + zlen ts) with (zlen (((p ++ q) ++ [b']) ++ ts)) by (by rewrite (zlen_app _ ts)).
    rewrite length_app in Hf'. rewrite IH; auto; [|..|lia].
    + f_equal. rewrite (zlen_app _ ts), zlen_snoc, zlen_app. lia.
    + apply Forall_cons in Hb' as [_ Hb']. rewrite <- app_assoc, Forall_app in Hb'. apply Hb'.
    + by apply (cut_ok_drop (b' :: ts)).
    + rewrite Hl, (zlen_app _ ts), zlen_snoc, zlen_app. lia.
Qed.

(** ** The end of the text *)

Lemma wants_range b : (1 <= wants b <= 3)%nat.
Proof. unfold wants. repeat case_match; lia. Qed.

(** Without a cut: enough to know the last three bytes. *)
Lemma no_cut v :
  (forall p x, v = p ++ [x] -> x < 0xc0) ->
  (forall p x y, v = p ++ [x; y] -> U8_IS_TRAIL y = true -> x < 0xe0) ->
  (forall p x y y', v = p ++ [x; y; y'] -> U8_IS_TRAIL y = true -> U8_IS_TRAIL y' = true -> x < 0xf0) -> cut_ok v [].
Proof.
  intros H1 H2 H3. split; [done|cbn; by destruct (P _)|]. intros p x u -> Hx. rewrite app_nil_r. pose proof (wants_range x).
  assert (Htr : forall y, U8_IS_TRAIL y = true \/ U8_IS_TRAIL y = false) by (intros y; destruct (U8_IS_TRAIL y); auto).
  destruct u as [|y [|y' [|y'' u]]].
  - specialize (H1 p x eq_refl). lia.
  - destruct (Htr y) as [Ht|Ht]; [left|right; by constructor]. specialize (H2 p x y eq_refl Ht). unfold wants. by destruct (Z.ltb_spec x 0xe0); [|lia].
  - destruct (Htr y) as [Ht|Ht]; [|right; by constructor]. destruct (Htr y') as [Ht'|Ht']; [left|right; by repeat constructor].
    specialize (H3 p x y y' eq_refl Ht Ht'). unfold wants. cbn [length]. destruct (Z.ltb_spec x 0xe0); [lia|]. destruct (Z.ltb_spec x 0xf0); lia.
  - left. cbn [length]. lia.
Qed.

(** A cut in front of a lead byte and the trail bytes behind it. *)
Lemma lead_cut v b ts :
  Forall byte8 (b :: ts) -> Forall is_trail ts -> 0xc0 <= b -> piece_value (-3) (b :: own_trails b ts) = 0xfffd -> cut_ok v (b :: ts).
Proof.
  intros Hb Hts Hge Hill. pose proof Hb as [Hb' _]%Forall_cons.
  assert (Hx : U8_IS_TRAIL b = false) by (rewrite trail_byte by done; destruct (Z.leb_spec b 0xbf); [lia|apply andb_false_r]).
  split.
  - by intros x [= <-].
  - rewrite <- (app_nil_r ts) at 1. rewrite run_ill; rewrite ?app_nil_r; auto. cbn [pieces run8]. rewrite zlen_cons. destruct (P _); lia.
  - intros p x u -> _. right. apply Exists_app. right. by constructor.
Qed.

Lemma snoc2_inj {A} (p q : list A) x y z : q ++ [z] = p ++ [x; y] -> q = p ++ [x] /\ z = y.
Proof. change [x; y] with ([x] ++ [y]). rewrite app_assoc. apply app_inj_tail. Qed.

Lemma snoc3_inj {A} (p q : list A) x y y' z : q ++ [z] = p ++ [x; y; y'] -> q = p ++ [x; y] /\ z = y'.
Proof. change [x; y; y'] with ([x; y] ++ [y']). rewrite app_assoc. apply app_inj_tail. Qed.

Lemma cut_end_spec p v :
  Forall byte8 v -> v <> [] ->
  exists v1 z, v = v1 ++ z /\ cut_ok v1 z /\
    cut_end set (p ++ v) (zlen v) (zlen p + zlen v) cond = Some (zlen p + zlen v1, zlen p + zlen v1 + R z).
Proof.
  intros Hb Hne.
  assert (Hcut : forall v1 z, v = v1 ++ z -> cut_ok v1 z ->
    (fffd ← in_asciiBytes set 0x80; Some (zlen p + zlen v - zlen z, if negb (Bool.eqb fffd cond) then zlen p + zlen v - zlen z
      else zlen p + zlen v)) = Some (zlen p + zlen v1, zlen p + zlen v1 + R z)).
  { intros v1 z -> Hc. rewrite fffd_lookup, (cut_run _ _ Hc), zlen_app. cbn [mbind option_bind]. fold (P 0xfffd).
    destruct (P 0xfffd); cbn [negb]; do 2 f_equal; lia. }
  assert (Hnone : cut_ok v [] -> exists v1 z, v = v1 ++ z /\ cut_ok v1 z /\
    Some (zlen p + zlen v, zlen p + zlen v) = Some (zlen p + zlen v1, zlen p + zlen v1 + R z)).
  { intros Hc. exists v, []. rewrite app_nil_r. split_and!; auto. cbn. by rewrite Z.add_0_r. }
  unfold cut_end. destruct v as [|b v _] using rev_ind; [done|]. apply Forall_app in Hb as [Hbv Hb]. rewrite Forall_singleton in Hb.
  rewrite zlen_snoc in *. pose proof (zlen_nonneg v).
  replace (zlen p + (zlen v + 1) - 1) with (zlen (p ++ v)) by (rewrite zlen_app; lia). rewrite app_assoc, zget_middle. cbn [mbind option_bind].
  destruct (Z.leb_spec 0x80 b) as [Hge|Hlt].
  2:{ apply Hnone, no_cut.
      - intros q x [_ <-]%app_inj_tail. lia.
      - intros q x y [_ <-]%snoc2_inj Ht. apply trail_range8 in Ht; [lia|done].
      - intros q x y y' [_ <-]%snoc3_inj _ Ht. apply trail_range8 in Ht; [lia|done]. }
  destruct (Z.ltb_spec b 0xc0) as [Htr|Hld].
  2:{ assert (Hc : cut_ok v [b]).
      { apply lead_cut; [by rewrite Forall_singleton|constructor|done|]. unfold own_trails. replace (take_trails (trails_of b) []) with (@nil Z) by (by destruct (trails_of b)).
        rewrite piece_value_lone by done. destruct (Z.ltb_spec b 0x80); [lia|done]. }
      exists v, [b]. split; [done|]. split; [done|]. specialize (Hcut v [b] eq_refl Hc). change (zlen [b]) with 1 in Hcut.
      by replace (zlen p + (zlen v + 1) - 1) with (zlen (p ++ v)) in Hcut by (rewrite zlen_app; lia). }
  assert (Htb : U8_IS_TRAIL b = true) by (rewrite trail_byte by done; lia).
  destruct v as [|b2 v _] using rev_ind.
  { change (2 <=? zlen (@nil Z) + 1) with false. change (3 <=? zlen (@nil Z) + 1) with false. cbn [mbind option_bind andb].
    rewrite andb_false_r. apply Hnone, no_cut.
    - intros q x [_ <-]%app_inj_tail. lia.
    - by intros q x y [[]%app_cons_not_nil _]%snoc2_inj.
    - intros q x y y' [E _]%snoc3_inj. by destruct q. }
  rewrite zlen_snoc in *. pose proof (zlen_nonneg v). apply Forall_app in Hbv as [Hbv Hb2]. rewrite Forall_singleton in Hb2.
  destruct (Z.leb_spec 2 (zlen v + 1 + 1)); [|lia]. cbn [andb].
  replace (zlen p + (zlen v + 1 + 1) - 2) with (zlen (p ++ v)) by (rewrite zlen_app; lia).
  rewrite (app_assoc p v), <- (app_assoc (p ++ v)). cbn [app]. rewrite zget_middle. cbn [mbind option_bind].
  destruct (Z.leb_spec 0xe0 b2) as [Hge2|Hlt2].
  { assert (Hc : cut_ok v [b2; b]).
    { apply lead_cut; [by rewrite !Forall_cons|by rewrite Forall_singleton|lia|]. destruct (lead_class b2 Hb2) as (_ & C2 & C3 & C4 & C0).
      destruct (Z.lt_ge_cases b2 0xfe); [|apply long_ill; [lia|done]].
      apply short_ill; [lia|]. unfold own_trails. pose proof (take_trails_length (trails_of b2) [b]).
      assert (length (take_trails (trails_of b2) [b]) <= 1)%nat by (destruct (trails_of b2); cbn [take_trails]; [simpl; lia|]; rewrite Htb; destruct n; simpl; lia).
      unfold zlen. destruct (Z.lt_ge_cases b2 0xf0); [|destruct (Z.lt_ge_cases b2 0xf8)]; lia. }
    exists v, [b2; b]. split; [by rewrite <- app_assoc|]. split; [done|]. specialize (Hcut v [b2; b]). rewrite <- app_assoc in Hcut. specialize (Hcut eq_refl Hc).
    change (zlen [b2; b]) with 2 in Hcut. by replace (zlen p + (zlen v + 1 + 1) - 2) with (zlen (p ++ v)) in Hcut by (rewrite zlen_app; lia). }
  assert (H12 : forall q x y, (v ++ [b2]) ++ [b] = q ++ [x; y] -> U8_IS_TRAIL y = true -> x < 0xe0).
  { intros q x y [[_ <-]%app_inj_tail <-]%snoc2_inj _. lia. }
  assert (H11 : forall q x, (v ++ [b2]) ++ [b] = q ++ [x] -> x < 0xc0) by (intros q x [_ <-]%app_inj_tail; lia).
  destruct (U8_IS_TRAIL b2) eqn:Ht2.
  2:{ assert (0x80 <=? b2 = false \/ b2 <? 0xc0 = false) as Hcond by (rewrite trail_byte in Ht2 by done; lia).
      replace ((b2 <? 0xc0) && (0x80 <=? b2)) with false by (destruct Hcond as [-> | ->]; by rewrite ?andb_false_r). cbn [andb].
      apply Hnone, no_cut; auto. intros q x y y' [[_ <-]%snoc2_inj <-]%snoc3_inj Hy. congruence. }
  apply trail_range8 in Ht2 as Hr2; [|done]. destruct (Z.ltb_spec b2 0xc0), (Z.leb_spec 0x80 b2); try lia. cbn [andb].
  destruct v as [|b3 v _] using rev_ind.
  { change (3 <=? zlen (@nil Z) + 1 + 1) with false. cbn [mbind option_bind]. apply Hnone, no_cut; auto.
    intros q x y y' [[E _]%snoc2_inj _]%snoc3_inj. by destruct q. }
  rewrite zlen_snoc in *. pose proof (zlen_nonneg v). apply Forall_app in Hbv as [Hbv Hb3]. rewrite Forall_singleton in Hb3.
  destruct (Z.leb_spec 3 (zlen v + 1 + 1 + 1)); [|lia].
  replace (zlen p + (zlen v + 1 + 1 + 1) - 3) with (zlen (p ++ v)) by (rewrite zlen_app; lia).
  rewrite (app_assoc p v), <- (app_assoc (p ++ v)). cbn [app]. rewrite zget_middle. cbn [mbind option_bind].
  destruct (Z.leb_spec 0xf0 b3) as [Hge3|Hlt3].
  - assert (Hc : cut_ok v [b3; b2; b]).
    { apply lead_cut; [by rewrite !Forall_cons|by rewrite !Forall_cons|lia|]. apply lead_4_short; auto. cbn [take_trails]. rewrite Ht2, Htb. simpl. lia. }
    exists v, [b3; b2; b]. split; [by rewrite <- !app_assoc|]. split; [done|]. specialize (Hcut v [b3; b2; b]). rewrite <- !app_assoc in Hcut. specialize (Hcut eq_refl Hc).
    change (zlen [b3; b2; b]) with 3 in Hcut. by replace (zlen p + (zlen v + 1 + 1 + 1) - 3) with (zlen (p ++ v)) in Hcut by (rewrite zlen_app; lia).
  - apply Hnone, no_cut; auto. intros q x y y' [[[_ <-]%app_inj_tail _]%snoc2_inj _]%snoc3_inj _ _. done.
Qed.

Lemma ascii_span_spec fuel p v :
  Forall byte8 v -> v <> [] -> (length v <= fuel)%nat ->
  ascii_span fuel set (p ++ v) (zlen p) (zlen p + zlen v) cond = Some (zlen p + R v, true) \/
  exists q v', v = q ++ v' /\ v' <> [] /\ R v = zlen q + R v' /\
    ascii_span fuel set (p ++ v) (zlen p) (zlen p + zlen v) cond = Some (zlen p + zlen q, false).
Proof.
  revert p v. induction fuel as [|fuel IH]; intros p v Hb Hne Hf; [destruct v; [done|simpl in Hf; lia]|].
  destruct v as [|b u]; [done|]. pose proof Hb as [Hb0 Hu]%Forall_cons. cbn [ascii_span]. rewrite zget_middle. cbn [mbind option_bind].
  destruct (Z.ltb_spec b 0x80) as [Hlt|Hge].
  2:{ right. exists [], (b :: u). change (zlen (@nil Z)) with 0. by rewrite Z.add_0_r. }
  unfold byte8 in Hb0. rewrite ascii_lookup by lia. cbn [mbind option_bind]. fold (P (lone b)). rewrite run_lone by (done || lia).
  destruct (P (lone b)) eqn:HP; cbn [negb]; [|left; by rewrite Z.add_0_r]. rewrite zlen_cons.
  destruct u as [|b' u].
  { change (zlen (@nil Z)) with 0. rewrite Z.add_0_l, Z.eqb_refl. left. cbn. done. }
  pose proof (zlen_nonneg u). rewrite zlen_cons. destruct (Z.eqb_spec (zlen p + 1) (zlen p + (zlen u + 1 + 1))); [lia|].
  rewrite snoc_app, <- (zlen_snoc p b).
  replace (zlen p + (zlen u + 1 + 1)) with (zlen (p ++ [b]) + zlen (b' :: u)) by (rewrite zlen_snoc, zlen_cons; lia).
  destruct (IH (p ++ [b]) (b' :: u)) as [->|(q & v' & E & Hv & HR & ->)]; auto; [simpl in *; lia| |].
  - left. rewrite zlen_snoc. do 2 f_equal. lia.
  - right. exists (b :: q), v'. cbn [app]. rewrite <- E, zlen_cons, zlen_snoc. split_and!; auto; [lia|]. do 2 f_equal. lia.
Qed.

Lemma spanUTF8_spec v :
  Forall byte8 v -> v <> [] -> spanUTF8 set v (zlen v) cond = Some (R v).
Proof.
  intros Hb Hne. unfold spanUTF8.
  destruct (ascii_span_spec (Z.to_nat (zlen v)) [] v Hb Hne) as [E|(q & v' & -> & Hv' & HR & E)]; [unfold zlen; lia|..];
    change (zlen (@nil Z)) with 0 in E; rewrite !Z.add_0_l in E; cbn [app] in E; rewrite E; cbn [mbind option_bind]; [done|].
  apply Forall_app in Hb as [_ Hb]. replace (zlen (q ++ v') - zlen q) with (zlen v') by (rewrite zlen_app; lia).
  destruct (cut_end_spec q v' Hb Hv') as (v1 & z & -> & Hc & E'). rewrite (zlen_app q), E'. cbn [mbind option_bind].
  rewrite spanUTF8_loop_spec, HR; auto. unfold zlen. rewrite length_app. lia.
Qed.

(** ** Backwards *)

Lemma pieces_own u : Forall (fun w => exists b v, w = b :: own_trails b v) (pieces u).
Proof.
  induction u as [u IH] using (induction_ltof1 _ (@length Z)). destruct u as [|b u]; [constructor|]. rewrite pieces_cons.
  constructor; [eauto|]. apply IH. unfold ltof. rewrite length_drop. cbn [length]. lia.
Qed.

(** A code point read from bytes, if it is not ASCII, is looked up in the tables. *)
Lemma in_tables_spec c :
  0x80 <= c <= 0x10ffff -> ~ (0xd800 <= c <= 0xdfff) -> in_tables set c = Some (inv_mem l c).
Proof.
  intros Hc Hs. unfold in_tables. destruct (Z.leb_spec c 0x7ff).
  { destruct (BMPSet.rep_table set l Hrep) as [Hz Ht]. rewrite BMPSet.in_table7FF_spec, Ht by (done || lia).
    by destruct (Z.ltb_spec c 0x80); [lia|]. }
  destruct (Z.leb_spec c 0xffff).
  - rewrite in_bmpBlock_any by lia. destruct (_ || _) eqn:E; [lia|done].
  - apply BMPSet.supplementary_slow; auto. lia.
Qed.

Lemma multi_value b ts :
  byte8 b -> 0x80 <= b -> Forall byte8 ts -> let c := piece_value (-3) (b :: ts) in 0x80 <= c <= 0x10ffff /\ ~ (0xd800 <= c <= 0xdfff).
Proof.
  intros Hb Hge _ c. unfold c. rewrite piece_value_multi by done. change (error8 (-3)) with 0xfffd. destruct (_ && _) eqn:E; [|lia].
  unfold legal in E. change (-3 =? -2) with false in E. cbn [orb] in E. set (x := seq_value b ts) in *.
  assert (0x80 <= default 0 (zget utf8_minLegal (U8_COUNT_TRAIL_BYTES b))); [|lia].
  assert (U8_COUNT_TRAIL_BYTES b = 1 \/ U8_COUNT_TRAIL_BYTES b = 2 \/ U8_COUNT_TRAIL_BYTES b = 3) as [-> |[-> | ->]] by lia; vm_compute; discriminate.
Qed.

Lemma pieces_snoc_lone u b : U8_IS_TRAIL b = false -> pieces (u ++ [b]) = pieces u ++ [[b]].
Proof.
  intros Ht. destruct (decide (u = [])) as [->|Hne]; [done|].
  destruct (pieces_snoc u b Hne) as (front & w & -> & ->). rewrite Ht. cbn [andb]. by rewrite <- app_assoc.
Qed.

Lemma ascii_back_spec fuel u b st :
  Forall byte8 (u ++ [b]) -> b < 0x80 -> (length u < fuel)%nat ->
  let B v := zlen v - run8 P (rev (pieces v)) in
  ascii_back fuel set ((u ++ [b]) ++ st) b (zlen u) cond = Some (inl (B (u ++ [b]))) \/
  exists u' b' st', (u ++ [b]) ++ st = (u' ++ [b']) ++ st' /\ (length u' < length u)%nat /\ Forall byte8 (u' ++ [b']) /\ 0x80 <= b' /\
    B (u ++ [b]) = B (u' ++ [b']) /\ ascii_back fuel set ((u ++ [b]) ++ st) b (zlen u) cond = Some (inr (zlen u', b')).
Proof.
  revert u b st. induction fuel as [|fuel IH]; intros u b st Hb Hlt Hf B; [lia|]. pose proof Hb as [Hbu Hb0]%Forall_app. rewrite Forall_singleton in Hb0.
  assert (Hnt : U8_IS_TRAIL b = false) by (rewrite trail_byte by done; lia).
  cbn [ascii_back]. unfold byte8 in Hb0. rewrite ascii_lookup by lia. cbn [mbind option_bind].
  assert (Hlone : lone b = b) by (unfold lone; destruct (Z.ltb_spec b 0x80); [done|lia]). rewrite Hlone. fold (P b).
  assert (HB : B (u ++ [b]) = if P b then B u else zlen u + 1).
  { unfold B. rewrite pieces_snoc_lone, rev_app_distr by done. cbn [rev app run8]. rewrite piece_value_lone by done.
    destruct (Z.ltb_spec b 0x80); [|lia]. rewrite zlen_snoc. change (zlen [b]) with 1. destruct (P b); lia. }
  rewrite HB. destruct (P b); cbn [negb]; [|by left].
  destruct u as [|b' u _] using rev_ind; [by left|]. rewrite zlen_snoc in *. pose proof (zlen_nonneg u).
  destruct (Z.eqb_spec (zlen u + 1) 0); [lia|]. replace (zlen u + 1 - 1) with (zlen u) by lia.
  rewrite <- (app_assoc (u ++ [b'])). cbn [app].
  assert (Hg : zget ((u ++ [b']) ++ b :: st) (zlen u) = Some b') by (rewrite <- app_assoc; apply zget_middle). rewrite Hg. cbn [mbind option_bind].
  rewrite length_app in Hf. destruct (Z.ltb_spec b' 0x80).
  - destruct (IH u b' (b :: st) Hbu) as [->|(u' & b2 & st' & E & Hl & Hb2 & Hge & HB2 & ->)]; [done|simpl in Hf; lia|by left|].
    right. exists u', b2, st'. split_and!; auto. rewrite length_app. lia.
  - right. exists u, b', (b :: st). rewrite length_app. split_and!; auto. simpl. lia.
Qed.

Lemma last_own u b :
  Forall byte8 (u ++ [b]) -> 0x80 <= b ->
  exists front w, pieces (u ++ [b]) = front ++ [w] /\ u ++ [b] = concat front ++ w /\ 0 < zlen w /\
    pieces (concat front) = front /\ in_tables set (piece_value (-3) w) = Some (inv_mem l (piece_value (-3) w)).
Proof.
  intros Hb Hge. destruct (pieces (u ++ [b])) as [|w front _] eqn:E using rev_ind.
  { pose proof (pieces_concat (u ++ [b])) as Hc. rewrite E in Hc. by destruct u. }
  exists front, w. pose proof (pieces_concat (u ++ [b])) as Hc. rewrite E, concat_app in Hc. cbn [concat] in Hc. rewrite app_nil_r in Hc.
  pose proof (pieces_own (u ++ [b])) as Ho. rewrite E, Forall_app, Forall_singleton in Ho. destruct Ho as [_ (b0 & v & ->)].
  rewrite <- Hc, Forall_app, Forall_cons in Hb. destruct Hb as (_ & Hb0 & Hbt).
  split; [done|]. split; [done|]. split; [rewrite zlen_cons; pose proof (zlen_nonneg (own_trails b0 v)); lia|].
  split; [by eapply pieces_front|]. destruct (Z.lt_ge_cases b0 0x80) as [Hlt|Hge0].
  - exfalso. unfold own_trails in Hc. destruct (count_of b0 Hb0) as [C _]. rewrite C in Hc by lia. cbn [Z.to_nat take_trails] in Hc.
    apply app_inj_tail in Hc as [_ ->]. lia.
  - destruct (multi_value b0 (own_trails b0 v) Hb0 Hge0 Hbt) as [Hr Hs]. by apply in_tables_spec.
Qed.

Lemma spanBackUTF8_loop_spec fuel u st :
  Forall byte8 u -> u <> [] -> (length u < fuel)%nat ->
  spanBackUTF8_loop fuel set (u ++ st) (zlen u) cond = Some (zlen u - run8 P (rev (pieces u))).
Proof.
  revert u st. induction fuel as [|fuel IH]; intros u st Hb Hne Hf; [lia|]. destruct u as [|b u _] using rev_ind; [done|].
  cbn [spanBackUTF8_loop]. replace (zlen (u ++ [b]) - 1) with (zlen u) by (rewrite zlen_snoc; lia).
  assert (Hg : zget ((u ++ [b]) ++ st) (zlen u) = Some b) by (rewrite <- app_assoc; apply zget_middle). rewrite Hg. cbn [mbind option_bind].
  assert (Hlast : exists r, (if b <? 0x80 then ascii_back (S (Z.to_nat (zlen u))) set ((u ++ [b]) ++ st) b (zlen u) cond
      else Some (inr (zlen u, b))) = Some r /\
    (r = inl (zlen (u ++ [b]) - run8 P (rev (pieces (u ++ [b])))) \/
     exists u' b' st', (u ++ [b]) ++ st = (u' ++ [b']) ++ st' /\ (length u' <= length u)%nat /\ Forall byte8 (u' ++ [b']) /\ 0x80 <= b' /\
       zlen (u ++ [b]) - run8 P (rev (pieces (u ++ [b]))) = zlen (u' ++ [b']) - run8 P (rev (pieces (u' ++ [b']))) /\ r = inr (zlen u', b'))).
  { destruct (Z.ltb_spec b 0x80).
    - destruct (ascii_back_spec (S (Z.to_nat (zlen u))) u b st Hb) as [->|(u' & b' & st' & E & Hl & Hb' & Hge & HB & ->)];
        [done|unfold zlen; lia|eauto|]. eexists. split; [done|]. right. exists u', b', st'. split_and!; auto. lia.
    - eexists. split; [done|]. right. exists u, b, st. split_and!; auto. }
  destruct Hlast as (r & -> & [->|(u' & b' & st' & E & Hl & Hb' & Hge & HB & ->)]); cbn [mbind option_bind]; [done|].
  rewrite E, HB. destruct (last_own u' b' Hb' Hge) as (front & w & Ep & Ec & Hw & Hfr & Ht).
  pose proof (prev_char_spec (-3) (u' ++ [b']) front w st' Hb' ltac:(lia) Ep) as Hp. unfold prev_char in Hp.
  replace (zlen (u' ++ [b']) - 1) with (zlen u') in Hp by (rewrite zlen_snoc; lia).
  assert (Hg' : zget ((u' ++ [b']) ++ st') (zlen u') = Some b') by (rewrite <- app_assoc; apply zget_middle).
  rewrite Hg' in Hp. cbn [mbind option_bind] in Hp. destruct (Z.leb_spec 0x80 b'); [|lia]. rewrite Hp. cbn [mbind option_bind].
  rewrite Ht. cbn [mbind option_bind]. rewrite Ep, rev_app_distr. cbn [rev app run8]. fold (P (piece_value (-3) w)).
  destruct (P (piece_value (-3) w)); cbn [negb]; [|f_equal; rewrite zlen_snoc; lia].
  replace (zlen (u' ++ [b']) - zlen w) with (zlen (concat front)) by (rewrite Ec, zlen_app; lia).
  rewrite Ec, zlen_app, <- app_assoc. pose proof (zlen_nonneg (concat front)) as Hn.
  destruct (Z.ltb_spec 0 (zlen (concat front))) as [Hpos|].
  - rewrite IH, Hfr; [f_equal; lia| | |].
    + rewrite Ec, Forall_app in Hb'. apply Hb'.
    + intros E0. rewrite E0 in Hpos. done.
    + apply (f_equal zlen) in Ec. rewrite !zlen_app in Ec. change (zlen [b']) with 1 in Ec. rewrite length_app in Hf.
      unfold zlen in *. simpl in Hf. lia.
  - assert (concat front = []) as E0 by (apply length_zero_iff_nil; unfold zlen in *; lia).
    assert (front = []) as -> by (rewrite <- Hfr, E0; done). cbn [concat rev run8]. change (zlen (@nil Z)) with 0. f_equal. lia.
Qed.
End Tables.

(** [BMPSet::spanUTF8] and [spanBackUTF8] over any bytes, well-formed or not, return the end
    (resp. start) of the longest prefix (suffix) of UTF-8 sequences whose membership in the set
    equals the condition, an ill-formed sequence counting as one U+FFFD; no step reads outside
    the text or the tables, although lead bytes are looked up without assembling code points. *)
Theorem BMPSet_spanUTF8 l st u cond :
  wf_list l -> Forall byte8 u -> u <> [] ->
  exists b, BMPSet.new (l ++ st) (zlen l) = Some b /\
    spanUTF8 b u (zlen u) cond = Some (run8 (fun c => Bool.eqb (inv_mem l c) cond) (pieces u)) /\
    spanBackUTF8 b u (zlen u) cond = Some (zlen u - run8 (fun c => Bool.eqb (inv_mem l c) cond) (rev (pieces u))).
Proof.
  intros Hwf Hu Hne. destruct (BMPSet.new_represents l st Hwf) as (b & E & Hr). exists b. split; [done|]. split.
  - by apply spanUTF8_spec.
  - unfold spanBackUTF8. rewrite <- (app_nil_r u) at 2. apply spanBackUTF8_loop_spec; auto. unfold zlen. lia.
Qed.

(** [A], U+1F600, U+07C0, an overlong lead, [Z], a truncated sequence. *)
Lemma BMPSet_spanUTF8_witness :
  exists b, BMPSet.new (BMPSet.sample ++ []) 6 = Some b /\
    spanUTF8 b [0x41; 0xf0; 0x9f; 0x98; 0x80; 0xdf; 0x80; 0xc0; 0x5a; 0xe2; 0x82] 11 true = Some 7 /\
    spanBackUTF8 b [0x41; 0xf0; 0x9f; 0x98; 0x80; 0xdf; 0x80; 0xc0; 0x5a; 0xe2; 0x82] 11 true = Some 11.
Proof.
  apply (BMPSet_spanUTF8 BMPSet.sample [] [0x41; 0xf0; 0x9f; 0x98; 0x80; 0xdf; 0x80; 0xc0; 0x5a; 0xe2; 0x82] true).
  - exact BMPSet.sample_wf.
  - repeat constructor; unfold byte8; lia.
  - discriminate.
Defined.
End BMPSetUtf8.
