(* ===== verification/StringTokens.v ===== *)
(** * Sets of code points, and tokens

    [_matchFromSet] compares unit by unit and code point by code point; its callers return the length of the
    longest prefix of code points inside or outside of the set.  [u_strtok_r] cuts a text at
    delimiters of one unit each. *)

From S2P Require Import Prelude Utf16 UString BMPSet StringSearch StringSearchFacts.

Module StringTokens.
Import Utf16 StringSearch StringSearchFacts.

(** ** The set *)

(** A NUL-terminated string in a buffer. *)
Definition nul_string (b u : list Z) : Prop := Forall unit16 u /\ 0 ∉ u /\ exists r, b = u ++ 0 :: r.

Definition in_set (m : list Z) (c : Z) : bool := bool_decide (c ∈ code_points m).

Lemma single_code_points u c : Forall unit16 u -> U16_IS_SINGLE c = true -> unit16 c -> c ∈ code_points u <-> c ∈ u.
Proof.
  intros Hu Hs Hc. unfold U16_IS_SINGLE in Hs. apply negb_true_iff in Hs. assert (Hrange : ~ 0xd800 <= c <= 0xdfff) by (rewrite <- surrogate_range by (unfold unit16 in Hc; lia); congruence).
  induction u as [|x|x y u E IH|x y u E IH] using code_points_ind; cbn [code_points]; [done|done| |].
  - rewrite E. rewrite !Forall_cons in Hu. destruct Hu as (Hx & Hy & Hu). pose proof (encode_supplementary x y Hx Hy E) as [Hv _]. apply is_pair_range in E; [|done|done]. rewrite !elem_of_cons, IH by done. unfold unit16 in Hc. split; intros Hin; [|destruct Hin as [?|[?|?]]; [lia|lia|by right]]. destruct Hin; [lia|by do 2 right].
  - rewrite E. apply Forall_cons in Hu as [Hx Hu]. rewrite elem_of_cons. rewrite (IH Hu). by rewrite (elem_of_cons (y :: u)).
Qed.

Lemma single_prefix p u : Forall (fun c => U16_IS_SINGLE c = true) p -> code_points (p ++ u) = p ++ code_points u.
Proof.
  induction 1 as [|x p Hx Hp IH]; [done|]. cbn [app]. rewrite pairs_with_false, IH; [done|]. unfold pairs_with. destruct (p ++ u); [done|]. unfold is_pair. assert (U16_IS_LEAD x = false) as ->; [|done].
  unfold U16_IS_SINGLE, U_IS_SURROGATE in Hx. apply negb_true_iff, Z.eqb_neq in Hx. apply Z.eqb_neq. intros E. apply Hx. assert (Hl : Z.land x 0xfffff800 = Z.land (Z.land x 0xfffffc00) 0xfffff800) by (rewrite <- Z.land_assoc; done). by rewrite Hl, E.
Qed.

Lemma U16_NEXT_limit m st i : 0 <= i < zlen m -> U16_NEXT (m ++ st) i (zlen m) = U16_NEXT m i (zlen m).
Proof.
  intros Hi. unfold U16_NEXT. rewrite (zget_app_l m st i) by lia. destruct (zget m i); [|done]. cbn [mbind option_bind]. destruct (Z.eqb_spec (i + 1) (zlen m)); [by rewrite andb_false_r|]. by rewrite (zget_app_l m st (i + 1)) by lia.
Qed.

(** The loops over the set. *)
Lemma match_unit_spec m st c fuel i : 0 <= i <= zlen m -> zlen m - i < Z.of_nat fuel -> match_unit fuel (m ++ st) c i (zlen m) = Some (bool_decide (c ∈ drop (Z.to_nat i) m)).
Proof.
  revert i. induction fuel as [|fuel IH]; intros i Hi Hf; [lia|]. cbn [match_unit]. destruct (Z.ltb_spec i (zlen m)).
  - rewrite zget_app_l by lia. destruct (zget_is_Some m i ltac:(lia)) as [x Hx]. rewrite Hx. cbn [mbind option_bind]. apply zget_Some_lookup in Hx as [_ Hx]. rewrite (drop_S _ _ _ Hx). destruct (Z.eqb_spec c x) as [->|Hne].
    + symmetry. f_equal. apply bool_decide_true. by left.
    + rewrite IH by lia. f_equal. apply bool_decide_ext. replace (Z.to_nat (i + 1)) with (S (Z.to_nat i)) by lia. rewrite elem_of_cons. naive_solver.
  - rewrite drop_ge by (unfold zlen in *; lia). done.
Qed.

Lemma match_cp_spec p u st c fuel : Forall unit16 u -> zlen u < Z.of_nat fuel -> match_cp fuel ((p ++ u) ++ st) c (zlen p) (zlen (p ++ u)) = Some (in_set u c).
Proof.
  revert p u. induction fuel as [|fuel IH]; intros p u Hu Hf; [pose proof (zlen_nonneg u); lia|]. cbn [match_cp]. destruct u as [|x u].
  - rewrite app_nil_r, Z.ltb_irrefl. done.
  - destruct (Z.ltb_spec (zlen p) (zlen (p ++ x :: u))); [|rewrite zlen_app, zlen_cons in *; pose proof (zlen_nonneg u); lia]. rewrite U16_NEXT_limit by (pose proof (zlen_nonneg p); lia).
    destruct (U16_NEXT_step p x u Hu) as (d & u' & E & Hd & Hcp & ->). cbn [mbind option_bind]. unfold in_set. rewrite Hd. destruct (Z.eqb_spec c d) as [->|Hne].
    + symmetry. f_equal. apply bool_decide_true. by left.
    + rewrite <- zlen_app, E, app_assoc. pose proof (encode_nonempty d). rewrite E in Hu, Hf. apply Forall_app in Hu as [_ Hu]. rewrite zlen_app in Hf. rewrite IH by (done || lia). f_equal. apply bool_decide_ext. rewrite elem_of_cons. naive_solver.
Qed.

Lemma matchBMPLen_loop_spec p u r fuel :
  0 ∉ u -> zlen u < Z.of_nat fuel -> exists u1 u2, u = u1 ++ u2 /\ Forall (fun c => U16_IS_SINGLE c = true) u1 /\ matchBMPLen_loop fuel (p ++ u ++ 0 :: r) (zlen p) = Some (zlen p + zlen u1).
Proof.
  revert p u. induction fuel as [|fuel IH]; intros p u H0 Hf; [pose proof (zlen_nonneg u); lia|]. cbn [matchBMPLen_loop]. destruct u as [|x u].
  - exists [], []. cbn [app]. rewrite zget_middle. cbn. by rewrite Z.add_0_r.
  - cbn [app]. rewrite zget_middle. cbn [mbind option_bind]. assert (x <> 0) by set_solver. destruct (Z.eqb_spec x 0); [done|]. cbn [negb andb]. destruct (U16_IS_SINGLE x) eqn:Ex.
    + destruct (IH (p ++ [x]) u) as (u1 & u2 & -> & Hs & Hr); [set_solver|rewrite zlen_cons in Hf; lia|]. exists (x :: u1), u2. split; [done|]. split; [by constructor|]. rewrite <- app_assoc, zlen_app in Hr. cbn [app] in Hr. change (zlen [x]) with 1 in Hr. rewrite Hr, zlen_cons. f_equal. lia.
    + exists [], (x :: u). split; [done|]. split; [done|]. change (zlen []) with 0. by rewrite Z.add_0_r.
Qed.

Lemma matchLen_loop_spec p u r fuel : 0 ∉ u -> zlen u < Z.of_nat fuel -> matchLen_loop fuel (p ++ u ++ 0 :: r) (zlen p) = Some (zlen p + zlen u).
Proof.
  revert p u. induction fuel as [|fuel IH]; intros p u H0 Hf; [pose proof (zlen_nonneg u); lia|]. cbn [matchLen_loop]. destruct u as [|x u]; cbn [app]; rewrite zget_middle; cbn [mbind option_bind].
  - change (zlen []) with 0. by rewrite Z.add_0_r.
  - assert (x <> 0) by set_solver. destruct (Z.eqb_spec x 0); [done|]. cbn [negb]. rewrite zlen_cons in Hf. specialize (IH (p ++ [x]) u ltac:(set_solver) ltac:(lia)). rewrite <- app_assoc, zlen_app in IH. cbn [app] in IH. change (zlen [x]) with 1 in IH. rewrite IH, zlen_cons. f_equal. lia.
Qed.

(** ** The loop over the text *)

Definition set_answers (M : list Z) (bl ml : Z) (mem : Z -> bool) : Prop :=
  (forall c, unit16 c -> U16_IS_SINGLE c = true -> match_unit (fuel_for M) M c 0 ml = Some (mem c)) /\
  (forall c, (0xd800 <= c <= 0xdfff \/ 0x10000 <= c) -> match_cp (fuel_for M) M c bl ml = Some (mem c)).

Lemma set_answers_spec M m : nul_string M m ->
  exists bl, matchBMPLen_loop (fuel_for M) M 0 = Some bl /\ matchLen_loop (fuel_for M) M bl = Some (zlen m) /\ set_answers M bl (zlen m) (in_set m).
Proof.
  intros (Hu & H0 & r & ->). assert (Hfuel : zlen m < Z.of_nat (fuel_for (m ++ 0 :: r))) by (unfold fuel_for, zlen; rewrite length_app; lia).
  destruct (matchBMPLen_loop_spec [] m r _ H0 Hfuel) as (m1 & m2 & -> & Hs & Hbl). exists (zlen m1). split; [done|]. apply not_elem_of_app in H0 as [H1 H2]. rewrite zlen_app in Hfuel. pose proof (zlen_nonneg m1). pose proof (zlen_nonneg m2). split; [|split].
  - rewrite <- app_assoc, zlen_app. apply matchLen_loop_spec; [done|]. rewrite app_assoc. lia.
  - intros c Hc Hsc. rewrite match_unit_spec by (rewrite zlen_app; lia). f_equal. unfold in_set. apply bool_decide_ext. cbn [Z.to_nat drop]. by rewrite single_code_points.
  - intros c Hc. apply Forall_app in Hu as [Hu1 Hu2]. rewrite match_cp_spec by (done || lia). f_equal. unfold in_set. apply bool_decide_ext. rewrite single_prefix by done. rewrite elem_of_app. split; [by right|]. intros [Hin|]; [|done]. exfalso.
    rewrite Forall_forall in Hs, Hu1. specialize (Hs c Hin). specialize (Hu1 c Hin). unfold unit16 in Hu1. unfold U16_IS_SINGLE in Hs. apply negb_true_iff in Hs. assert (U_IS_SURROGATE c = true) by (apply surrogate_range; lia). congruence.
Qed.

Lemma matchFromSet_step M bl ml mem polarity p x u r fuel :
  set_answers M bl ml mem -> Forall unit16 (x :: u) -> 0 ∉ x :: u ->
  exists c u', x :: u = encode c ++ u' /\ code_points (x :: u) = c :: code_points u' /\ code_point c /\
    matchFromSet_loop (S fuel) (p ++ (x :: u) ++ 0 :: r) M bl ml polarity (zlen p) =
      if bool_decide (mem c = polarity) then Some (zlen p) else matchFromSet_loop fuel (p ++ (x :: u) ++ 0 :: r) M bl ml polarity (zlen p + zlen (encode c)).
Proof.
  intros [Hsu Hsc] Hu H0. destruct (code_points_cons x u Hu) as (c & w & u' & E & -> & Hcp & Hc & Hfirst). exists c, u'. split_and!; [done|done|done|].
  apply Forall_cons in Hu as [Hx Hu]. assert (x <> 0) by set_solver. assert (0 ∉ u) by set_solver. cbn [matchFromSet_loop app]. rewrite zget_middle. cbn [mbind option_bind]. destruct (Z.eqb_spec x 0); [done|]. rewrite (encode_zlen c Hc).
  assert (Hlen1 : unit16 c -> U16_LENGTH c = 1) by (unfold unit16, U16_LENGTH, uint32; intros; rewrite Z.mod_small by lia; zcase; [done|lia]).
  destruct (U16_IS_SINGLE x) eqn:Esingle; unfold U16_IS_SINGLE in Esingle.
  - assert (c = x) as ->. { destruct u as [|y u]; [done|]. assert (is_pair x y = false) as Hp; [|by rewrite Hp in Hfirst]. unfold is_pair. apply negb_true_iff in Esingle. rewrite unit_masks in Esingle by done. apply orb_false_iff in Esingle as [-> _]. done. }
    rewrite Hsu by done. cbn [mbind option_bind]. rewrite Hlen1 by done. by replace (zlen p + 1 - 1) with (zlen p) by lia.
  - apply negb_false_iff in Esingle. apply surrogate_range in Esingle; [|unfold unit16 in Hx; lia]. rewrite surrogate_lead by done.
    assert (Hc2 : exists y v, u ++ 0 :: r = y :: v /\ (U16_IS_LEAD x && U16_IS_TRAIL y = true -> c = U16_GET_SUPPLEMENTARY x y /\ 0x10000 <= c <= 0x10ffff) /\ (U16_IS_LEAD x && U16_IS_TRAIL y = false -> c = x)).
    { destruct u as [|y u]; [exists 0, r; split; [done|]; split; [by rewrite andb_false_r|done]|]. exists y, (u ++ 0 :: r). split; [done|]. change (U16_IS_LEAD x && U16_IS_TRAIL y) with (is_pair x y). split; intros Hp; rewrite Hp in Hfirst; [|done]. split; [done|]. rewrite Hfirst. apply Forall_cons in Hu as [Hy _]. by apply encode_supplementary. }
    destruct Hc2 as (y & v & Ey & Hpair & Hsolo). assert (Hnext : zget (p ++ x :: u ++ 0 :: r) (zlen p + 1) = Some y). { rewrite Ey. replace (p ++ x :: y :: v) with ((p ++ [x]) ++ y :: v) by (by rewrite <- app_assoc). replace (zlen p + 1) with (zlen (p ++ [x])) by (by rewrite zlen_app). apply zget_middle. }
    rewrite Hnext. cbn [mbind option_bind]. destruct (U16_IS_LEAD x) eqn:El; cbn [andb] in *; cbn [mbind option_bind].
    + destruct (U16_IS_TRAIL y) eqn:Et.
      * destruct (Hpair eq_refl) as [<- Hv]. rewrite Hsc by lia. cbn [mbind option_bind]. assert (U16_LENGTH c = 2) as ->. { unfold U16_LENGTH, uint32. rewrite Z.mod_small by lia. zcase; [lia|done]. } replace (zlen p + 1 + 1 - 2) with (zlen p) by lia. by replace (zlen p + 1 + 1) with (zlen p + 2) by lia.
      * rewrite (Hsolo eq_refl) in *. rewrite Hsc by lia. cbn [mbind option_bind]. rewrite Hlen1 by done. by replace (zlen p + 1 - 1) with (zlen p) by lia.
    + rewrite (Hsolo eq_refl) in *. rewrite Hsc by lia. cbn [mbind option_bind]. rewrite Hlen1 by done. by replace (zlen p + 1 - 1) with (zlen p) by lia.
Qed.

(** The units of the code points in front of the first one that is (not) in the set. *)
Definition prefix_units (mem : Z -> bool) (polarity : bool) (u : list Z) : Z := BMPSet.span_units (fun c => negb (bool_decide (mem c = polarity))) (code_points u).

Lemma prefix_units_ext (P mem : Z -> bool) polarity u : (forall c, P c = negb (bool_decide (mem c = polarity))) -> BMPSet.span_units P (code_points u) = prefix_units mem polarity u.
Proof. intros E. unfold prefix_units. induction (code_points u) as [|c cs IH]; [done|]. cbn [BMPSet.span_units]. by rewrite IH, E. Qed.

Lemma prefix_units_range mem polarity u : Forall unit16 u -> 0 <= prefix_units mem polarity u <= zlen u.
Proof.
  intros Hu. unfold prefix_units. pose proof (f_equal zlen (encode_code_points u Hu)) as <-. induction (code_points_valid u Hu) as [|c cs Hc Hcs IH]; [by vm_compute|]. cbn [BMPSet.span_units map concat]. rewrite zlen_app, encode_zlen by done. pose proof (zlen_nonneg (concat (map encode cs))).
  assert (0 < U16_LENGTH c) by (unfold U16_LENGTH; zcase; lia). destruct (negb (bool_decide (mem c = polarity))); lia.
Qed.

Lemma matchFromSet_loop_spec M bl ml mem polarity u r fuel p :
  set_answers M bl ml mem -> Forall unit16 u -> 0 ∉ u -> zlen u < Z.of_nat fuel ->
  matchFromSet_loop fuel (p ++ u ++ 0 :: r) M bl ml polarity (zlen p) =
    Some (let k := prefix_units mem polarity u in if k =? zlen u then - (zlen p + zlen u) - 1 else zlen p + k).
Proof.
  intros Hset. revert p u. induction fuel as [|fuel IH]; intros p u Hu H0 Hf; [pose proof (zlen_nonneg u); lia|]. destruct u as [|x u].
  - cbn [matchFromSet_loop app]. rewrite zget_middle. cbn -[zlen]. change (zlen []) with 0. cbn -[zlen]. by rewrite Z.add_0_r.
  - destruct (matchFromSet_step M bl ml mem polarity p x u r fuel Hset Hu H0) as (c & u' & E & Hcs & Hc & ->). unfold prefix_units. rewrite Hcs. cbn [BMPSet.span_units]. destruct (bool_decide (mem c = polarity)); cbn [negb].
    + destruct (Z.eqb_spec 0 (zlen (x :: u))) as [E0|]; [rewrite zlen_cons in E0; pose proof (zlen_nonneg u); lia|]. f_equal. lia.
    + rewrite E in *. rewrite <- zlen_app, <- app_assoc, app_assoc. apply Forall_app in Hu as [_ Hu]. apply not_elem_of_app in H0 as [_ H0]. pose proof (encode_nonempty c). rewrite zlen_app in Hf. rewrite IH by (done || lia). cbn zeta. fold (prefix_units mem polarity u'). rewrite !zlen_app, (encode_zlen c Hc). f_equal.
      destruct (Z.eqb_spec (prefix_units mem polarity u') (zlen u')), (Z.eqb_spec (U16_LENGTH c + prefix_units mem polarity u') (U16_LENGTH c + zlen u')); lia.
Qed.

Lemma matchFromSet_spec b u M m polarity : nul_string b u -> nul_string M m ->
  _matchFromSet b M polarity = Some (let k := prefix_units (in_set m) polarity u in if k =? zlen u then - zlen u - 1 else k).
Proof.
  intros (Hu & H0 & r & ->) HM. unfold _matchFromSet. destruct (set_answers_spec M m HM) as (bl & -> & Hml & Hset). cbn [mbind option_bind]. rewrite Hml. cbn [mbind option_bind].
  assert (Hfuel : zlen u < Z.of_nat (fuel_for (u ++ 0 :: r))) by (unfold fuel_for, zlen; rewrite length_app; lia). exact (matchFromSet_loop_spec M bl (zlen m) (in_set m) polarity u r _ [] Hset Hu H0 Hfuel).
Qed.

Lemma strspn_spec b u M m : nul_string b u -> nul_string M m -> u_strspn b M = Some (BMPSet.span_units (in_set m) (code_points u)).
Proof.
  intros Hb HM. pose proof Hb as (Hu & _). rewrite (prefix_units_ext (in_set m) (in_set m) false) by (intros c; by destruct (in_set m c)). pose proof (prefix_units_range (in_set m) false u Hu). unfold u_strspn. rewrite (matchFromSet_spec b u M m) by done. cbn [mbind option_bind]. f_equal.
  destruct (Z.eqb_spec (prefix_units (in_set m) false u) (zlen u)); [destruct (Z.leb_spec 0 (- zlen u - 1)); lia|destruct (Z.leb_spec 0 (prefix_units (in_set m) false u)); lia].
Qed.

Lemma strcspn_spec b u M m : nul_string b u -> nul_string M m -> let outside := BMPSet.span_units (fun c => negb (in_set m c)) (code_points u) in
  u_strcspn b M = Some outside /\ u_strpbrk b M = Some (if outside =? zlen u then None else Some outside).
Proof.
  intros Hb HM. pose proof Hb as (Hu & _). cbn zeta. rewrite (prefix_units_ext (fun c => negb (in_set m c)) (in_set m) true) by (intros c; by destruct (in_set m c)). pose proof (prefix_units_range (in_set m) true u Hu). unfold u_strcspn, u_strpbrk. rewrite (matchFromSet_spec b u M m) by done. cbn [mbind option_bind].
  destruct (Z.eqb_spec (prefix_units (in_set m) true u) (zlen u)); [destruct (Z.leb_spec 0 (- zlen u - 1))|destruct (Z.leb_spec 0 (prefix_units (in_set m) true u))]; (split; [f_equal; lia|done || lia]).
Qed.

(** [u_strspn] and [u_strcspn] return the number of units of the longest prefix of code points that
    are, or are not, in the set of code points, and [u_strpbrk] the place where a member comes
    first, for every two NUL-terminated 16-bit strings. *)
Theorem strspn_strcspn_strpbrk b u M m :
  nul_string b u -> nul_string M m ->
  let inside := BMPSet.span_units (in_set m) (code_points u) in
  let outside := BMPSet.span_units (fun c => negb (in_set m c)) (code_points u) in
  u_strspn b M = Some inside /\ u_strcspn b M = Some outside /\ u_strpbrk b M = Some (if outside =? zlen u then None else Some outside).
Proof. intros Hb HM. split; [by apply strspn_spec|]. by apply strcspn_spec. Qed.

(** A prefix of a pair and a letter, then a lone lead surrogate of the same pair. *)
Lemma strspn_strcspn_strpbrk_witness :
  u_strspn [0xd83d; 0xde00; 0x61; 0xd83d; 0x61; 0] [0x61; 0xd83d; 0xde00; 0] = Some 3.
Proof.
  destruct (strspn_strcspn_strpbrk [0xd83d; 0xde00; 0x61; 0xd83d; 0x61; 0] [0xd83d; 0xde00; 0x61; 0xd83d; 0x61] [0x61; 0xd83d; 0xde00; 0] [0x61; 0xd83d; 0xde00]) as (Hs & _).
  - split; [repeat constructor; cbn; lia|]. split; [set_solver|by exists []].
  - split; [repeat constructor; cbn; lia|]. split; [set_solver|by exists []].
  - rewrite Hs. vm_compute. reflexivity.
Defined.

(** ** Tokens *)

(** The runs of units between delimiters; [cur] is the one that is being read. *)
Fixpoint tokens (delim : list Z) (cur u : list Z) : list (list Z) :=
  match u with
  | [] => if bool_decide (cur = []) then [] else [cur]
  | x :: u => if bool_decide (x ∈ delim) then (if bool_decide (cur = []) then tokens delim [] u else cur :: tokens delim [] u) else tokens delim (cur ++ [x]) u
  end.

(** Calling [u_strtok_r] until it returns null, reading each token when it is returned. *)
Fixpoint all_tokens (fuel : nat) (buffer : list Z) (src : option Z) (delim : list Z) (saveState : option Z) : option (list (list Z)) :=
  match fuel with
  | O => None
  | S fuel =>
      '(token, buffer, saveState) ← u_strtok_r buffer src delim saveState;
      match token with
      | None => Some []
      | Some k => n ← ustring.u_strlen (drop (Z.to_nat k) buffer); rest ← all_tokens fuel buffer None delim saveState; Some (ztake n (drop (Z.to_nat k) buffer) :: rest)
      end
  end.

Lemma tokens_delims m ds u : Forall (fun x => x ∈ m) ds -> tokens m [] (ds ++ u) = tokens m [] u.
Proof. induction 1 as [|x ds Hx _ IH]; [done|]. cbn [app tokens]. by rewrite bool_decide_true. Qed.

Lemma tokens_run m cur w u : Forall (fun x => x ∉ m) w -> tokens m cur (w ++ u) = tokens m (cur ++ w) u.
Proof.
  intros Hw. revert cur. induction Hw as [|x w Hx _ IH]; intros cur; [by rewrite app_nil_r|]. cbn [app tokens]. rewrite bool_decide_false by done. by rewrite IH, <- app_assoc.
Qed.

(** A list starts with a run of elements that have a property. *)
Lemma run_split (P : Z -> Prop) `{forall x, Decision (P x)} u : exists w v, u = w ++ v /\ Forall P w /\ (forall x l, v = x :: l -> ~ P x).
Proof.
  induction u as [|x u (w & v & -> & Hw & Hv)]; [by exists [], []|]. destruct (decide (P x)).
  - exists (x :: w), v. split; [done|]. split; [by constructor|done].
  - exists [], (x :: w ++ v). split; [done|]. split; [done|]. by intros y l [= <- _].
Qed.

Lemma span_exact (P : Z -> bool) w v :
  Forall unit16 w -> boundary w v -> Forall (fun c => P c = true) (code_points w) -> (forall c cs, code_points v = c :: cs -> P c = false) -> BMPSet.span_units P (code_points (w ++ v)) = zlen w.
Proof.
  intros Hw Hb HP Hv. rewrite ustring_facts.code_points_app by done. rewrite <- (f_equal zlen (encode_code_points w Hw)). pose proof (code_points_valid w Hw) as Hcp. clear Hw Hb. induction (code_points w) as [|c cs IH]; cbn [app BMPSet.span_units map concat].
  - destruct (code_points v) as [|c cs]; [done|]. cbn [BMPSet.span_units]. by rewrite (Hv c cs).
  - apply Forall_cons in HP as [-> HP]. apply Forall_cons in Hcp as [Hc Hcp]. by rewrite zlen_app, encode_zlen, IH.
Qed.

(** The delimiters are single units. *)
Definition single_units (m : list Z) : Prop := Forall (fun c => U16_IS_SINGLE c = true) m.

Lemma in_set_single m c : single_units m -> in_set m c = bool_decide (c ∈ m).
Proof. intros Hs. pose proof (single_prefix m [] Hs) as E. cbn [code_points] in E. rewrite app_nil_r in E. unfold in_set. apply bool_decide_ext. by rewrite E. Qed.

Lemma single_masks x : unit16 x -> U16_IS_SINGLE x = true -> U16_IS_LEAD x = false /\ U16_IS_TRAIL x = false.
Proof. intros Hx Hs. unfold U16_IS_SINGLE in Hs. apply negb_true_iff in Hs. rewrite unit_masks in Hs by done. by apply orb_false_iff. Qed.

Lemma member_single m x : single_units m -> Forall unit16 m -> x ∈ m -> unit16 x /\ U16_IS_SINGLE x = true.
Proof. unfold single_units. rewrite !Forall_forall. auto. Qed.

Lemma delim_run m ds v :
  single_units m -> Forall unit16 m -> Forall unit16 (ds ++ v) -> Forall (fun x => x ∈ m) ds -> (forall x l, v = x :: l -> x ∉ m) -> BMPSet.span_units (in_set m) (code_points (ds ++ v)) = zlen ds.
Proof.
  intros Hs Hm Hu Hds Hv. apply Forall_app in Hu as [Hu1 Hu2]. apply span_exact; [done| | |].
  - intros l t Hl _. apply last_Some_elem_of in Hl. rewrite Forall_forall in Hds. destruct (member_single m l Hs Hm (Hds l Hl)) as [Hx Hsx]. unfold is_pair. by destruct (single_masks l Hx Hsx) as [-> _].
  - rewrite <- (app_nil_r ds), single_prefix; [|by apply (Forall_impl _ _ _ Hds); intros x Hx; by apply (member_single m x)]. cbn [code_points]. rewrite app_nil_r. apply (Forall_impl _ _ _ Hds). intros x Hx. rewrite in_set_single by done. by apply bool_decide_true.
  - intros c cs Ec. destruct v as [|x v]; [done|]. rewrite in_set_single by done. apply bool_decide_false. destruct (code_points_first x v) as [r Er]. rewrite Er in Ec. injection Ec as <- _. apply Forall_cons in Hu2 as [Hx Hu2]. pose proof (first_cp_range x v Hx Hu2) as Hr. intros Hin.
    destruct (pairs_with x v) eqn:Ep; [|rewrite Hr in Hin; by apply (Hv x v)]. destruct (member_single m _ Hs Hm Hin) as [Hc _]. unfold unit16 in Hc. lia.
Qed.

Lemma word_run m w v :
  single_units m -> Forall unit16 m -> Forall unit16 (w ++ v) -> Forall (fun x => x ∉ m) w -> (forall x l, v = x :: l -> x ∈ m) -> BMPSet.span_units (fun c => negb (in_set m c)) (code_points (w ++ v)) = zlen w.
Proof.
  intros Hs Hm Hu Hw Hv. apply Forall_app in Hu as [Hu1 Hu2]. apply span_exact; [done| | |].
  - intros l t _ Ht. destruct v as [|x v]; [done|]. injection Ht as ->. destruct (member_single m t Hs Hm (Hv t v eq_refl)) as [Hx Hsx]. unfold is_pair. destruct (single_masks t Hx Hsx) as [_ ->]. by rewrite andb_false_r.
  - apply Forall_forall. intros c Hc. rewrite in_set_single by done. apply negb_true_iff, bool_decide_false. intros Hin. destruct (member_single m c Hs Hm Hin) as [Hx Hsx]. apply (single_code_points w c Hu1 Hsx Hx) in Hc. rewrite Forall_forall in Hw. by apply (Hw c).
  - intros c cs Ec. destruct v as [|x v]; [done|]. specialize (Hv x v eq_refl). destruct (member_single m x Hs Hm Hv) as [Hx Hsx]. pose proof (single_prefix [x] v ltac:(constructor; [exact Hsx|constructor])) as E. cbn [app] in E. rewrite E in Ec. injection Ec as <- _. rewrite in_set_single by done. apply negb_false_iff. by apply bool_decide_true.
Qed.

(** One call, on the text [u] behind what is done. *)
Lemma strtok_call p u r M m src saveState :
  nul_string M m -> single_units m -> Forall unit16 u -> 0 ∉ u -> (src = Some (zlen p) \/ src = None /\ saveState = Some (zlen p)) ->
  let b := p ++ u ++ 0 :: r in
  (Forall (fun x => x ∈ m) u /\ u_strtok_r b src M saveState = Some (None, b, None)) \/
  (exists ds w, u = ds ++ w /\ w <> [] /\ Forall (fun x => x ∈ m) ds /\ Forall (fun x => x ∉ m) w /\ u_strtok_r b src M saveState = Some (Some (zlen (p ++ ds)), b, None)) \/
  (exists ds w d v, u = ds ++ w ++ d :: v /\ w <> [] /\ Forall (fun x => x ∈ m) ds /\ Forall (fun x => x ∉ m) w /\ d ∈ m /\
     u_strtok_r b src M saveState = Some (Some (zlen (p ++ ds)), (p ++ ds ++ w ++ [0]) ++ v ++ 0 :: r, Some (zlen (p ++ ds ++ w ++ [0])))).
Proof.
  intros HM Hs Hu H0 Hsrc b. assert (Hdrop : forall q v : list Z, drop (Z.to_nat (zlen q)) (q ++ v) = v) by (intros q v; unfold zlen; rewrite Nat2Z.id; apply drop_app_length).
  assert (Hstart : (match src with Some q => Some (q, Some q) | None => match saveState with Some q => Some (q, Some q) | None => None end end) = Some (zlen p, Some (zlen p))) by (destruct Hsrc as [->|[-> ->]]; done).
  unfold u_strtok_r. rewrite Hstart. unfold b. rewrite Hdrop. rewrite (strspn_spec _ u M m) by (done || (split_and!; [done|done|by eexists])). cbn [mbind option_bind]. pose proof HM as (Hm & _).
  destruct (run_split (fun x => x ∈ m) u) as (ds & v & -> & Hds & Hv). rewrite delim_run by done. rewrite <- zlen_app. replace (p ++ (ds ++ v) ++ 0 :: r) with ((p ++ ds) ++ v ++ 0 :: r) by (by rewrite <- !app_assoc). apply Forall_app in Hu as [Hu1 Hu2]. apply not_elem_of_app in H0 as [H1 H2]. destruct v as [|x v].
  - left. cbn [app]. rewrite zget_middle. cbn [mbind option_bind]. rewrite app_nil_r. split; [done|]. by rewrite Z.eqb_refl.
  - right. cbn [app]. rewrite zget_middle. cbn [mbind option_bind]. assert (x <> 0) by set_solver. destruct (Z.eqb_spec x 0); [done|]. cbn [negb]. rewrite Hdrop. change (x :: v ++ 0 :: r) with ((x :: v) ++ 0 :: r).
    assert (Hn : nul_string ((x :: v) ++ 0 :: r) (x :: v)) by (split_and!; [done|done|by eexists]). destruct (strcspn_spec _ (x :: v) M m Hn HM) as [_ ->]. cbn [mbind option_bind]. destruct (run_split (fun x => x ∉ m) (x :: v)) as (w & v' & E & Hw & Hv'). rewrite E in *.
    assert (Hwne : w <> []). { intros ->. cbn [app] in E. subst v'. apply (Hv' x v eq_refl). by apply (Hv x v). } rewrite word_run; [|done|done|done|done|intros y l Ey; specialize (Hv' y l Ey); by apply dec_stable].
    destruct v' as [|d v'].
    + left. exists ds, w. rewrite app_nil_r, Z.eqb_refl. done.
    + right. exists ds, w, d, v'. specialize (Hv' d v' eq_refl). apply dec_stable in Hv'. destruct (Z.eqb_spec (zlen w) (zlen (w ++ d :: v'))) as [El|_]; [rewrite zlen_app, zlen_cons in El; pose proof (zlen_nonneg v'); lia|].
      replace ((p ++ ds) ++ (w ++ d :: v') ++ 0 :: r) with ((p ++ ds ++ w) ++ d :: v' ++ 0 :: r) by (by rewrite <- !app_assoc). replace (zlen (p ++ ds) + zlen w) with (zlen (p ++ ds ++ w)) by (rewrite !zlen_app; lia). rewrite zset_middle. cbn [mbind option_bind].
      split_and!; try done. rewrite !zlen_app. change (zlen [0]) with 1. rewrite <- !app_assoc. cbn [app]. do 2 f_equal. f_equal. lia.
Qed.

Lemma read_token q w r : 0 ∉ w -> ustring.u_strlen (drop (Z.to_nat (zlen q)) (q ++ w ++ 0 :: r)) = Some (zlen w) /\ ztake (zlen w) (drop (Z.to_nat (zlen q)) (q ++ w ++ 0 :: r)) = w.
Proof.
  intros H0. assert (drop (Z.to_nat (zlen q)) (q ++ w ++ 0 :: r) = w ++ 0 :: r) as -> by (unfold zlen; rewrite Nat2Z.id; apply drop_app_length). split; [apply (strlen_sub w r 0 H0)|apply ztake_app_exact].
Qed.

Lemma all_tokens_spec M m fuel p u r src saveState :
  nul_string M m -> single_units m -> Forall unit16 u -> 0 ∉ u -> (src = Some (zlen p) \/ src = None /\ saveState = Some (zlen p)) -> zlen u + 1 < Z.of_nat fuel ->
  all_tokens fuel (p ++ u ++ 0 :: r) src M saveState = Some (tokens m [] u).
Proof.
  intros HM Hs. revert p u src saveState. induction fuel as [|fuel IH]; intros p u src saveState Hu H0 Hsrc Hf; [pose proof (zlen_nonneg u); lia|]. cbn [all_tokens].
  destruct (strtok_call p u r M m src saveState HM Hs Hu H0 Hsrc) as [[Hall ->]|[(ds & w & -> & Hne & Hds & Hw & ->)|(ds & w & d & v & -> & Hne & Hds & Hw & Hd & ->)]]; cbn [mbind option_bind].
  - f_equal. symmetry. rewrite <- (app_nil_r u), tokens_delims by done. done.
  - apply not_elem_of_app in H0 as [H1 H2]. replace (p ++ (ds ++ w) ++ 0 :: r) with ((p ++ ds) ++ w ++ 0 :: r) by (by rewrite <- !app_assoc). destruct (read_token (p ++ ds) w r H2) as [-> Htake]. cbn [mbind option_bind]. rewrite Htake. pose proof (zlen_nonneg (ds ++ w)). destruct fuel as [|fuel]; [lia|]. cbn [all_tokens u_strtok_r mbind option_bind].
    rewrite tokens_delims by done. rewrite <- (app_nil_r w) at 2. rewrite tokens_run by done. cbn [app tokens]. by rewrite bool_decide_false.
  - rewrite !not_elem_of_app in H0. destruct H0 as (H1 & H2 & H3). rewrite !Forall_app in Hu. destruct Hu as (Hu1 & Hu2 & Hu3). apply Forall_cons in Hu3 as [_ Hu3].
    pose proof (read_token (p ++ ds) w (v ++ 0 :: r) H2) as Hread. replace ((p ++ ds) ++ w ++ 0 :: v ++ 0 :: r) with ((p ++ ds ++ w ++ [0]) ++ v ++ 0 :: r) in Hread by (by rewrite <- !app_assoc). destruct Hread as [-> Htake]. cbn [mbind option_bind]. rewrite Htake.
    rewrite !zlen_app, zlen_cons in Hf. pose proof (zlen_nonneg ds). pose proof (zlen_nonneg w). rewrite IH; [|done|set_solver|by right|lia]. cbn [mbind option_bind].
    rewrite tokens_delims by done. rewrite tokens_run by done. cbn [app tokens]. rewrite bool_decide_true by done. by rewrite bool_decide_false.
Qed.

(** C35: Calling [u_strtok_r] until it returns null yields exactly the maximal runs of units between
    delimiters, in order, each terminated in place, for any text and any set of delimiters that
    are single units. *)
Theorem strtok_tokens b u M m saveState :
  nul_string b u -> nul_string M m -> single_units m ->
  all_tokens (S (S (S (List.length u)))) b (Some 0) M saveState = Some (tokens m [] u).
Proof.
  intros (Hu & H0 & r & ->) HM Hs. apply (all_tokens_spec M m _ [] u r); try done; [by left|]. unfold zlen. lia.
Qed.

(** [a,,bc;] with the delimiters [,] and [;]. *)
Lemma strtok_tokens_witness : all_tokens 9 [0x61; 0x2c; 0x2c; 0x62; 0x63; 0x3b; 0] (Some 0) [0x2c; 0x3b; 0] None = Some [[0x61]; [0x62; 0x63]].
Proof.
  transitivity (Some (tokens [0x2c; 0x3b] [] [0x61; 0x2c; 0x2c; 0x62; 0x63; 0x3b])); [|vm_compute; reflexivity]. apply (strtok_tokens [0x61; 0x2c; 0x2c; 0x62; 0x63; 0x3b; 0] [0x61; 0x2c; 0x2c; 0x62; 0x63; 0x3b] [0x2c; 0x3b; 0] [0x2c; 0x3b] None).
  - split; [repeat constructor; cbn; lia|]. split; [set_solver|by exists []].
  - split; [repeat constructor; cbn; lia|]. split; [set_solver|by exists []].
  - repeat constructor.
Defined.

(** A delimiter outside the BMP is not consumed whole: for every pair in the set, [u_strtok_r] overwrites only its
    lead surrogate, and the next token starts with its trail surrogate. *)
Theorem strtok_splits_pair l t :
  unit16 l -> unit16 t -> is_pair l t = true ->
  all_tokens 9 [0x61; l; t; 0x62; 0] (Some 0) [l; t; 0] None = Some [[0x61]; [t; 0x62]].
Proof.
  intros Hl Ht Hp. destruct (encode_supplementary l t Hl Ht Hp) as [Hs _]. pose proof Hp as Hr. apply is_pair_range in Hr as [Hlr Htr]; [|done|done]. set (S := U16_GET_SUPPLEMENTARY l t) in *.
  assert (Hset : forall c, in_set [l; t] c = bool_decide (c ∈ [S])) by (intros c; unfold in_set; cbn [code_points]; rewrite Hp; done).
  assert (Hmiss : forall c, c <> S -> in_set [l; t] c = false) by (intros c Hc; rewrite Hset; apply bool_decide_false; set_solver).
  assert (Hin : in_set [l; t] S = true) by (rewrite Hset; apply bool_decide_true; set_solver).
  assert (HM : nul_string [l; t; 0] [l; t]) by (split; [repeat (apply Forall_cons; split; [done|]); apply Forall_nil; done|]; split; [set_solver by lia|by exists []]).
  assert (Hb1 : nul_string [0x61; l; t; 0x62; 0] [0x61; l; t; 0x62]) by (split; [repeat constructor; cbn; lia|]; split; [set_solver by lia|by exists []]).
  assert (Hb2 : nul_string [t; 0x62; 0] [t; 0x62]) by (split; [repeat constructor; cbn; lia|]; split; [set_solver by lia|by exists []]).
  assert (Hp1 : is_pair 0x61 l = false) by done. assert (Hp2 : is_pair t 0x62 = false) by (by unfold is_pair; rewrite andb_false_r).
  assert (Hc1 : code_points [0x61; l; t; 0x62] = [0x61; S; 0x62]) by (cbn [code_points]; by rewrite Hp1, Hp). assert (Hc2 : code_points [t; 0x62] = [t; 0x62]) by (cbn [code_points]; by rewrite Hp2).
  assert (Hcall1 : u_strtok_r [0x61; l; t; 0x62; 0] (Some 0) [l; t; 0] None = Some (Some 0, [0x61; 0; t; 0x62; 0], Some 2)).
  { unfold u_strtok_r. change (drop (Z.to_nat 0) [0x61; l; t; 0x62; 0]) with [0x61; l; t; 0x62; 0]. rewrite (strspn_spec _ _ _ _ Hb1 HM), Hc1. cbn [BMPSet.span_units]. rewrite (Hmiss 0x61) by lia. cbn [mbind option_bind]. change (zget [0x61; l; t; 0x62; 0] (0 + 0)) with (Some 0x61). cbn [mbind option_bind]. change (drop (Z.to_nat (0 + 0)) [0x61; l; t; 0x62; 0]) with [0x61; l; t; 0x62; 0]. cbn [negb Z.eqb].
    destruct (strcspn_spec _ _ _ _ Hb1 HM) as [_ ->]. rewrite Hc1. cbn [BMPSet.span_units]. rewrite (Hmiss 0x61), Hin by lia. cbn. done. }
  assert (Hcall2 : u_strtok_r [0x61; 0; t; 0x62; 0] None [l; t; 0] (Some 2) = Some (Some 2, [0x61; 0; t; 0x62; 0], None)).
  { unfold u_strtok_r. change (drop (Z.to_nat 2) [0x61; 0; t; 0x62; 0]) with [t; 0x62; 0]. rewrite (strspn_spec _ _ _ _ Hb2 HM), Hc2. cbn [BMPSet.span_units]. rewrite (Hmiss t) by lia. cbn [mbind option_bind]. change (zget [0x61; 0; t; 0x62; 0] (2 + 0)) with (Some t). cbn [mbind option_bind]. destruct (Z.eqb_spec t 0); [lia|]. cbn [negb].
    change (drop (Z.to_nat (2 + 0)) [0x61; 0; t; 0x62; 0]) with [t; 0x62; 0]. destruct (strcspn_spec _ _ _ _ Hb2 HM) as [_ ->]. rewrite Hc2. cbn [BMPSet.span_units]. rewrite (Hmiss t), (Hmiss 0x62) by lia. cbn [negb]. unfold U16_LENGTH, uint32. rewrite (Z.mod_small t) by lia. destruct (Z.leb_spec t 0xffff); [|lia]. done. }
  destruct (read_token [] [0x61] [t; 0x62; 0] ltac:(set_solver)) as [Hl1 Ht1]. destruct (read_token [0x61; 0] [t; 0x62] [] ltac:(set_solver by lia)) as [Hl2 Ht2].
  cbn [all_tokens]. rewrite Hcall1. cbn [mbind option_bind]. rewrite Hcall2. change (zlen []) with 0 in Hl1, Ht1. change (zlen [0x61; 0]) with 2 in Hl2, Ht2. cbn in Hl1, Ht1, Hl2, Ht2 |- *. rewrite Hl1, Hl2. cbn. by rewrite Ht1, Ht2.
Qed.

(** U+1F600 between [a] and [b]. *)
Lemma strtok_splits_pair_witness : all_tokens 9 [0x61; 0xd83d; 0xde00; 0x62; 0] (Some 0) [0xd83d; 0xde00; 0] None = Some [[0x61]; [0xde00; 0x62]].
Proof. apply strtok_splits_pair; [unfold unit16; lia|unfold unit16; lia|by vm_compute]. Defined.
End StringTokens.
