(* ===== verification/UnicodeSet.v ===== *)
(** * UnicodeSet: the set object (common/uniset.cpp, unicode/uniset.h, unifilt.cpp)

    The class that keeps an inversion list with its capacity, a second buffer for the merging
    operators, a sorted vector of strings, a cached pattern, the flag of the bogus state, and
    the two lookup objects of a frozen set.  Every method that reads or changes this state is
    a definition here; [None] is an access outside an array or through a null pointer. *)

From S2P Require Import Prelude Vector Utf16 Utf8 UString InversionList BMPSet BMPSetUtf8.
Import InvList.

(** The lookup object for a set with strings (common/unisetspan.cpp), as far as UnicodeSet uses
    it: it is made from the list and the strings vector of its set and keeps a reference to
    that vector, which is therefore an argument of its methods.  [StringSpan.v] implements it. *)
Class StringSpan := {
  ss : Type;
  ss_new : list Z -> UVector.t UnicodeString.t -> Z -> option ss;     (* the set, the strings, which *)
  ss_copy : ss -> UVector.t UnicodeString.t -> option ss;
  needsStringSpanUTF16 : ss -> bool;
  needsStringSpanUTF8 : ss -> bool;
  ss_contains : ss -> Z -> option bool;
  ss_span : ss -> UVector.t UnicodeString.t -> list Z -> Z -> option Z;
  ss_spanBack : ss -> UVector.t UnicodeString.t -> list Z -> Z -> option Z;
  ss_spanUTF8 : ss -> UVector.t UnicodeString.t -> list Z -> Z -> option Z;
  ss_spanBackUTF8 : ss -> UVector.t UnicodeString.t -> list Z -> Z -> option Z
}.

(** The sizes of the C++ objects that the methods allocate with [new]. *)
Class ObjectSizes := {
  sizeof_UVector : Z;
  sizeof_UnicodeString : Z;
  sizeof_BMPSet : Z;
  sizeof_StringSpan : Z;
  sizeof_UnicodeSet : Z;
  sizes_int32 :
    Forall (fun n => 0 <= n <= INT32_MAX)
      [sizeof_UVector; sizeof_UnicodeString; sizeof_BMPSet; sizeof_StringSpan; sizeof_UnicodeSet]
}.

Module UnicodeSet.

Definition START_EXTRA : Z := 16.
Definition GROW_EXTRA : Z := 16.
Definition kIsBogus : Z := 1.
Definition MIN_VALUE : Z := 0.
Definition MAX_VALUE : Z := 0x10ffff.
Definition sizeof_UChar32 : Z := 4.
Definition sizeof_UChar : Z := 2.

Notation ustr := UnicodeString.t.
Notation uvec := (UVector.t ustr).

Section Ops.
Context `{Heap} `{ObjectSizes} `{StringSpan}.

Record t := mk {
  len : Z;
  capacity : Z;
  list_ : option (list Z);            (* list *)
  bmpSet : option BMPSet.t;
  bufferCapacity : Z;
  buffer : option (list Z);
  strings : option uvec;
  stringSpan : option ss;
  pat : option (list Z);              (* pat, patLen *)
  fFlags : Z
}.
Implicit Types s o c : t.

Definition set_list s (l : Z) (cells : option (list Z)) : t :=
  mk l (capacity s) cells (bmpSet s) (bufferCapacity s) (buffer s) (strings s) (stringSpan s)
     (pat s) (fFlags s).
Definition set_capacity s (cap : Z) (cells : option (list Z)) : t :=
  mk (len s) cap cells (bmpSet s) (bufferCapacity s) (buffer s) (strings s) (stringSpan s)
     (pat s) (fFlags s).
Definition set_buffer s (cap : Z) (b : option (list Z)) : t :=
  mk (len s) (capacity s) (list_ s) (bmpSet s) cap b (strings s) (stringSpan s) (pat s) (fFlags s).
Definition set_strings s (v : option uvec) : t :=
  mk (len s) (capacity s) (list_ s) (bmpSet s) (bufferCapacity s) (buffer s) v (stringSpan s)
     (pat s) (fFlags s).
Definition set_lookup s (b : option BMPSet.t) (sp : option ss) : t :=
  mk (len s) (capacity s) (list_ s) b (bufferCapacity s) (buffer s) (strings s) sp (pat s) (fFlags s).
Definition set_pat s (p : option (list Z)) : t :=
  mk (len s) (capacity s) (list_ s) (bmpSet s) (bufferCapacity s) (buffer s) (strings s)
     (stringSpan s) p (fFlags s).
Definition set_flags s (f : Z) : t :=
  mk (len s) (capacity s) (list_ s) (bmpSet s) (bufferCapacity s) (buffer s) (strings s)
     (stringSpan s) (pat s) f.

Definition isFrozen s : bool :=
  match bmpSet s, stringSpan s with None, None => false | _, _ => true end.
Definition isBogus s : bool := negb (Z.land (fFlags s) kIsBogus =? 0).

(** ** Utility methods *)

(** [compareUnicodeString]: the order of the strings vector. *)
Definition compareUnicodeString (t1 t2 : UVector.UElement ustr) : Z :=
  match t1, t2 with
  | UVector.Ptr (Some a), UVector.Ptr (Some b) => default 0 (UnicodeString.compare a b)
  | _, _ => 0
  end.

(** [uhash_compareUnicodeString] (unistr.cpp) *)
Definition uhash_compareUnicodeString (key1 key2 : UVector.UElement ustr) : bool :=
  match key1, key2 with
  | UVector.Ptr (Some a), UVector.Ptr (Some b) => UnicodeString.operator_eq a b
  | _, _ => bool_decide (key1 = key2)
  end.

Definition new_object (size : Z) : bool := alloc_ok size.

Definition allocateStrings s (status : UErrorCode) : t * UErrorCode * bool :=
  if U_FAILURE status then (s, status, false)
  else if new_object sizeof_UVector then
    let '(v, status) := UVector.new true (Some uhash_compareUnicodeString) 1 status in
    if U_FAILURE status then (set_strings s None, status, false)
    else (set_strings s (Some v), status, true)
  else (set_strings s None, U_MEMORY_ALLOCATION_ERROR, false).

Definition releasePattern s : t := set_pat s None.

Definition setPattern s (newPat : list Z) : t :=
  let s := releasePattern s in
  match uprv_malloc junk sizeof_UChar (zlen newPat + 1) with
  | Some _ => set_pat s (Some newPat)
  | None => s
  end.

Definition clear s : option t :=
  if isFrozen s then Some s
  else
    cells ← (match list_ s with
             | Some cells => cells ← zset cells 0 UNICODESET_HIGH; Some (Some cells)
             | None => Some None
             end);
    let s := releasePattern (set_list s 1 cells) in
    v ← (match strings s with
         | Some v => v ← UVector.removeAllElements v; Some (Some v)
         | None => Some None
         end);
    let s := set_strings s v in
    Some (match list_ s, strings s with Some _, Some _ => set_flags s 0 | _, _ => s end).

Definition setToBogus s : option t := s ← clear s; Some (set_flags s kIsBogus).

Definition ensureCapacity s (newLen : Z) (ec : UErrorCode) : option (t * UErrorCode) :=
  if newLen <=? capacity s then Some (s, ec)
  else
    match uprv_realloc junk (default [] (list_ s)) sizeof_UChar32 (newLen + GROW_EXTRA) with
    | None => s ← setToBogus s; Some (s, U_MEMORY_ALLOCATION_ERROR)
    | Some temp => Some (set_capacity s (newLen + GROW_EXTRA) (Some temp), ec)
    end.

Definition ensureBufferCapacity s (newLen : Z) (ec : UErrorCode) : option (t * UErrorCode) :=
  if (match buffer s with Some _ => true | None => false end) && (newLen <=? bufferCapacity s)
  then Some (s, ec)
  else
    match uprv_realloc junk (default [] (buffer s)) sizeof_UChar32 (newLen + GROW_EXTRA) with
    | None => s ← setToBogus s; Some (s, U_MEMORY_ALLOCATION_ERROR)
    | Some temp => Some (set_buffer s (newLen + GROW_EXTRA) (Some temp), ec)
    end.

Definition swapBuffers s : t :=
  mk (len s) (bufferCapacity s) (buffer s) (bmpSet s) (capacity s) (list_ s) (strings s)
     (stringSpan s) (pat s) (fFlags s).

(** ** The fundamental operators on the object

    [merge] is the common frame of the three operators: the guards, the room in the buffer,
    the loop [f] over the cells of [list], [other] and [buffer], the swap. *)

Definition merge s (other : list Z) (otherLen : Z)
    (f : list Z -> list Z -> list Z -> option (list Z * Z)) : option t :=
  if isFrozen s || isBogus s then Some s
  else
    '(s, status) ← ensureBufferCapacity s (len s + otherLen) U_ZERO_ERROR;
    if U_FAILURE status then Some s
    else
      cells ← list_ s; buf ← buffer s;
      '(buf, k) ← f cells other buf;
      let s := set_list (set_buffer s (bufferCapacity s) (Some buf)) k (list_ s) in
      Some (releasePattern (swapBuffers s)).

Definition exclusiveOr s (other : list Z) (otherLen polarity : Z) : option t :=
  merge s other otherLen (fun list other buffer => exclusiveOr_cells list other buffer polarity).

Definition add_op s (other : list Z) (otherLen polarity : Z) : option t :=
  merge s other otherLen (fun list other buffer => add_cells list other buffer polarity).

Definition retain_op s (other : list Z) (otherLen polarity : Z) : option t :=
  merge s other otherLen (fun list other buffer => retain_cells list other buffer polarity).

(** ** Reading the set *)

Definition findCodePoint s (c : Z) : option Z :=
  cells ← list_ s; InvList.findCodePoint cells (len s) c.

Definition contains s (c : Z) : option bool :=
  match bmpSet s, stringSpan s with
  | Some b, _ => BMPSet.contains b c
  | None, Some sp => ss_contains sp c
  | None, None =>
      if UNICODESET_HIGH <=? c then Some false
      else i ← findCodePoint s c; Some (negb (Z.land i 1 =? 0))
  end.

Definition contains_range s (start end_ : Z) : option bool :=
  i ← findCodePoint s start; cells ← list_ s;
  if negb (Z.land i 1 =? 0) then x ← zget cells i; Some (end_ <? x) else Some false.

Definition containsNone_range s (start end_ : Z) : option bool :=
  i ← findCodePoint s start; cells ← list_ s;
  if Z.land i 1 =? 0 then x ← zget cells i; Some (end_ <? x) else Some false.

(** [containsSome(start, end)] (uniset.h) *)
Definition containsSome_range s (start end_ : Z) : option bool :=
  b ← containsNone_range s start end_; Some (negb b).

Definition getRangeCount s : Z := Z.quot (len s) 2.
Definition getRangeStart s (index : Z) : option Z := cells ← list_ s; zget cells (index * 2).
Definition getRangeEnd s (index : Z) : option Z :=
  cells ← list_ s; x ← zget cells (index * 2 + 1); Some (x - 1).

Definition getSingleCP (str : ustr) : option Z :=
  if 2 <? UnicodeString.length str then Some (-1)
  else if UnicodeString.length str =? 1 then UnicodeString.charAt str 0
  else cp ← UnicodeString.char32At str 0;
       Some (if 0xffff <? cp then cp else -1).

Definition contains_string s (str : ustr) : option bool :=
  if UnicodeString.length str =? 0 then Some false
  else
    cp ← getSingleCP str;
    if cp <? 0 then v ← strings s; UVector.contains v (Some str) else contains s cp.

Fixpoint size_loop (n : nat) s (i acc : Z) : option Z :=
  match n with
  | O => Some acc
  | S n => e ← getRangeEnd s i; b ← getRangeStart s i;
           size_loop n s (i + 1) (int32 (acc + (e - b + 1)))
  end.

Definition size s : option Z :=
  n ← size_loop (Z.to_nat (getRangeCount s)) s 0 0;
  v ← strings s; Some (int32 (n + UVector.count v)).

Definition isEmpty s : option bool :=
  if len s =? 1 then v ← strings s; Some (UVector.count v =? 0) else Some false.

Fixpoint ranges_loop (test : Z -> Z -> option bool) (n : nat) c (i : Z) : option bool :=
  match n with
  | O => Some true
  | S n => b ← getRangeStart c i; e ← getRangeEnd c i; r ← test b e;
           if (r : bool) then ranges_loop test n c (i + 1) else Some false
  end.

Definition containsAll s c : option bool :=
  r ← ranges_loop (contains_range s) (Z.to_nat (getRangeCount c)) c 0;
  if (r : bool) then v ← strings s; w ← strings c; UVector.containsAll v w else Some false.

Definition containsNone s c : option bool :=
  r ← ranges_loop (containsNone_range s) (Z.to_nat (getRangeCount c)) c 0;
  if (r : bool) then v ← strings s; w ← strings c; UVector.containsNone v w else Some false.

Fixpoint eq_loop (n : nat) (a b : list Z) (i : Z) : option bool :=
  match n with
  | O => Some true
  | S n => x ← zget a i; y ← zget b i; if negb (x =? y) then Some false else eq_loop n a b (i + 1)
  end.

Definition operator_eq s o : option bool :=
  if negb (len s =? len o) then Some false
  else
    a ← list_ s; b ← list_ o;
    r ← eq_loop (Z.to_nat (len s)) a b 0;
    if (r : bool) then v ← strings s; w ← strings o; UVector.operator_eq v w else Some false.

Fixpoint hash_loop (n : nat) (cells : list Z) (i result : Z) : option Z :=
  match n with
  | O => Some result
  | S n => x ← zget cells i; hash_loop n cells (i + 1) (int32 (int32 (result * 1000003) + x))
  end.

Definition hashCode s : option Z :=
  cells ← list_ s; hash_loop (Z.to_nat (len s)) cells 0 (len s).

(** [indexOf]: [for(;;)] over pairs of values. *)
Fixpoint indexOf_loop (fuel : nat) (cells : list Z) (c i n : Z) : option Z :=
  match fuel with
  | O => None
  | S fuel =>
      start ← zget cells i;
      if c <? start then Some (-1)
      else
        limit ← zget cells (i + 1);
        if c <? limit then Some (n + c - start)
        else indexOf_loop fuel cells c (i + 2) (n + (limit - start))
  end.

Definition indexOf s (c : Z) : option Z :=
  if (c <? MIN_VALUE) || (MAX_VALUE <? c) then Some (-1)
  else cells ← list_ s; indexOf_loop (S (length cells)) cells c 0 0.

Fixpoint charAt_loop (n : nat) (cells : list Z) (i index : Z) : option Z :=
  match n with
  | O => Some (-1)
  | S n =>
      start ← zget cells i; limit ← zget cells (i + 1);
      let count := limit - start in
      if index <? count then Some (start + index)
      else charAt_loop n cells (i + 2) (index - count)
  end.

(** The loop runs [len2/2] times, [len2 = len & ~1]. *)
Definition charAt s (index : Z) : option Z :=
  if 0 <=? index then
    cells ← list_ s; charAt_loop (Z.to_nat (Z.land (len s) (Z.lnot 1) / 2)) cells 0 index
  else Some (-1).

(** ** Changing the set *)

(** [{ start, end+1, UNICODESET_HIGH }] *)
Definition range3 (start end_ : Z) : list Z := [start; end_ + 1; UNICODESET_HIGH].

Definition complement_range s (start end_ : Z) : option t :=
  if isFrozen s || isBogus s then Some s
  else
    let start := pinCodePoint start in
    let end_ := pinCodePoint end_ in
    s ← (if start <=? end_ then exclusiveOr s (range3 start end_) 2 0 else Some s);
    Some (releasePattern s).

Definition set s (start end_ : Z) : option t := s ← clear s; complement_range s start end_.

(** [while (src < srclimit) *(dst++) = *(src++);] with [src = dst + 2] *)
Fixpoint copy_down2 (n : nat) (cells : list Z) (dst : Z) : option (list Z) :=
  match n with
  | O => Some cells
  | S n => x ← zget cells (dst + 2); cells ← zset cells dst x; copy_down2 n cells (dst + 1)
  end.

(** [while (src > srclimit) *(--dst) = *(--src);] with [dst = src + 2] *)
Fixpoint copy_up2 (n : nat) (cells : list Z) (src : Z) : option (list Z) :=
  match n with
  | O => Some cells
  | S n => x ← zget cells (src - 1); cells ← zset cells (src + 1) x; copy_up2 n cells (src - 1)
  end.

(** [add(c)] just before a range: "if we touched the HIGH mark, then add a new one". *)
Definition add_end_mark s (c : Z) : option (t * UErrorCode) :=
  if c =? UNICODESET_HIGH - 1 then
    '(s, status) ← ensureCapacity s (len s + 1) U_ZERO_ERROR;
    if U_FAILURE status then Some (s, status)
    else
      cells ← list_ s; cells ← zset cells (len s) UNICODESET_HIGH;
      Some (set_list s (len s + 1) (Some cells), status)
  else Some (s, U_ZERO_ERROR).

(** [add(c)] between two ranges that now touch: "collapse adjacent ranges". *)
Definition collapse s (i : Z) : option t :=
  cells ← list_ s;
  cells ← copy_down2 (Z.to_nat (len s - (i + 1))) cells (i - 1);
  Some (set_list s (len s - 2) (Some cells)).

(** [add(c)] apart from all ranges: a new range [c, c+1] at index [i]. *)
Definition insert_range s (i c : Z) : option (t * UErrorCode) :=
  '(s, status) ← ensureCapacity s (len s + 2) U_ZERO_ERROR;
  if U_FAILURE status then Some (s, status)
  else
    cells ← list_ s;
    cells ← copy_up2 (Z.to_nat (len s - i)) cells (len s);
    cells ← zset cells i c;
    cells ← zset cells (i + 1) (c + 1);
    Some (set_list s (len s + 2) (Some cells), status).

Definition add_cp s (c : Z) : option t :=
  let c := pinCodePoint c in
  i ← findCodePoint s c;
  if negb (Z.land i 1 =? 0) || isFrozen s || isBogus s then Some s
  else
    cells ← list_ s;
    next ← zget cells i;
    after ← (if 0 <? i then x ← zget cells (i - 1); Some (c =? x) else Some false);
    if c =? next - 1 then
      cells ← zset cells i c;
      '(s, status) ← add_end_mark (set_list s (len s) (Some cells)) c;
      if U_FAILURE status then Some s
      else s ← (if (after : bool) then collapse s i else Some s); Some (releasePattern s)
    else if (after : bool) then
      x ← zget cells (i - 1); cells ← zset cells (i - 1) (x + 1);
      Some (releasePattern (set_list s (len s) (Some cells)))
    else
      '(s, status) ← insert_range s i c;
      if U_FAILURE status then Some s else Some (releasePattern s).

Definition add_range s (start end_ : Z) : option t :=
  let start := pinCodePoint start in
  let end_ := pinCodePoint end_ in
  if start <? end_ then add_op s (range3 start end_) 2 0
  else if start =? end_ then add_cp s start
  else Some s.

Definition retain_range s (start end_ : Z) : option t :=
  let start := pinCodePoint start in
  let end_ := pinCodePoint end_ in
  if start <=? end_ then retain_op s (range3 start end_) 2 0 else clear s.

Definition retain_cp s (c : Z) : option t := retain_range s c c.

Definition remove_range s (start end_ : Z) : option t :=
  let start := pinCodePoint start in
  let end_ := pinCodePoint end_ in
  if start <=? end_ then retain_op s (range3 start end_) 2 2 else Some s.

Definition remove_cp s (c : Z) : option t := remove_range s c c.

Definition complement_cp s (c : Z) : option t := complement_range s c c.

Definition complement s : option t :=
  if isFrozen s || isBogus s then Some s
  else
    cells ← list_ s;
    first ← zget cells 0;
    if first =? UNICODESET_LOW then
      '(s, status) ← ensureBufferCapacity s (len s - 1) U_ZERO_ERROR;
      if U_FAILURE status then Some s
      else
        buf ← buffer s;
        (* uprv_memcpy(buffer, list + 1, (len-1)*sizeof(UChar32)) *)
        let buf := ztake (len s - 1) (drop 1 cells) ++ drop (Z.to_nat (len s - 1)) buf in
        Some (releasePattern (swapBuffers
          (set_list (set_buffer s (bufferCapacity s) (Some buf)) (len s - 1) (list_ s))))
    else
      '(s, status) ← ensureBufferCapacity s (len s + 1) U_ZERO_ERROR;
      if U_FAILURE status then Some s
      else
        buf ← buffer s;
        (* uprv_memcpy(buffer + 1, list, len*sizeof(UChar32)); buffer[0] = UNICODESET_LOW *)
        let buf := UNICODESET_LOW :: ztake (len s) cells ++ drop (Z.to_nat (len s + 1)) buf in
        Some (releasePattern (swapBuffers
          (set_list (set_buffer s (bufferCapacity s) (Some buf)) (len s + 1) (list_ s)))).

(** *** Strings *)

Definition _add s (str : ustr) : option t :=
  if isFrozen s || isBogus s then Some s
  else if new_object sizeof_UnicodeString then
    v ← strings s;
    '(v, ec) ← UVector.sortedInsert v (UVector.Ptr (Some str)) compareUnicodeString U_ZERO_ERROR;
    let s := set_strings s (Some v) in
    if U_FAILURE ec then setToBogus s else Some s
  else setToBogus s.

Definition add_string s (str : ustr) : option t :=
  if (UnicodeString.length str =? 0) || isFrozen s || isBogus s then Some s
  else
    cp ← getSingleCP str;
    if cp <? 0 then
      v ← strings s; b ← UVector.contains v (Some str);
      if (b : bool) then Some s else s ← _add s str; Some (releasePattern s)
    else add_cp s cp.

Definition remove_string s (str : ustr) : option t :=
  if (UnicodeString.length str =? 0) || isFrozen s || isBogus s then Some s
  else
    cp ← getSingleCP str;
    if cp <? 0 then
      v ← strings s; '(v, _) ← UVector.removeElement v (Some str);
      Some (releasePattern (set_strings s (Some v)))
    else remove_range s cp cp.

Definition complement_string s (str : ustr) : option t :=
  if (UnicodeString.length str =? 0) || isFrozen s || isBogus s then Some s
  else
    cp ← getSingleCP str;
    if cp <? 0 then
      v ← strings s; b ← UVector.contains v (Some str);
      s ← (if (b : bool)
           then '(v, _) ← UVector.removeElement v (Some str); Some (set_strings s (Some v))
           else _add s str);
      Some (releasePattern s)
    else complement_range s cp cp.

Definition removeAllStrings s : option t :=
  v ← strings s; v ← UVector.removeAllElements v; Some (set_strings s (Some v)).

Definition getStringCount s : option Z := v ← strings s; Some (UVector.count v).
Definition getString s (index : Z) : option (UVector.UElement ustr) :=
  v ← strings s; UVector.elementAt v index.

(** The object that an element of a strings vector points to. *)
Definition the_string (e : UVector.UElement ustr) : option ustr :=
  match e with UVector.Ptr (Some str) => Some str | _ => None end.

(** *** Whole sets *)

(** [c.strings->elementAt(i)] for each [i] from 0 on, [_add] for those not yet contained. *)
Fixpoint addStrings_loop (n : nat) s (cv : uvec) (i : Z) : option t :=
  match n with
  | O => Some s
  | S n =>
      e ← UVector.elementAt cv i; str ← the_string e;
      v ← strings s; b ← UVector.contains v (Some str);
      s ← (if (b : bool) then Some s else _add s str);
      addStrings_loop n s cv (i + 1)
  end.

Definition addAll s c : option t :=
  s ← (match list_ c with
       | Some cells => if 0 <? len c then add_op s cells (len c) 0 else Some s
       | None => Some s
       end);
  match strings c with
  | Some cv => addStrings_loop (Z.to_nat (UVector.count cv)) s cv 0
  | None => Some s
  end.

Definition retainAll s c : option t :=
  if isFrozen s || isBogus s then Some s
  else
    cells ← list_ c;
    s ← retain_op s cells (len c) 0;
    v ← strings s; w ← strings c; '(v, _) ← UVector.retainAll v w;
    Some (set_strings s (Some v)).

Definition removeAll s c : option t :=
  if isFrozen s || isBogus s then Some s
  else
    cells ← list_ c;
    s ← retain_op s cells (len c) 2;
    v ← strings s; w ← strings c; '(v, _) ← UVector.removeAll v w;
    Some (set_strings s (Some v)).

Fixpoint complementStrings_loop (n : nat) s (cv : uvec) (i : Z) : option t :=
  match n with
  | O => Some s
  | S n =>
      e ← UVector.elementAt cv i; str ← the_string e;
      v ← strings s; '(v, removed) ← UVector.removeElement v (Some str);
      let s := set_strings s (Some v) in
      s ← (if (removed : bool) then Some s else _add s str);
      complementStrings_loop n s cv (i + 1)
  end.

Definition complementAll s c : option t :=
  if isFrozen s || isBogus s then Some s
  else
    cells ← list_ c;
    s ← exclusiveOr s cells (len c) 0;
    cv ← strings c;
    complementStrings_loop (Z.to_nat (UVector.count cv)) s cv 0.

Definition addMatchSetTo s (toUnionTo : t) : option t := addAll toUnionTo s.

(** *** The characters of a string *)

(** [for (i = 0; i < s.length(); i += U16_LENGTH(cp)) { cp = s.char32At(i); add(cp); }] *)
Fixpoint addAll_chars_loop (fuel : nat) s (str : ustr) (i : Z) : option t :=
  match fuel with
  | O => None
  | S fuel =>
      if i <? UnicodeString.length str then
        cp ← UnicodeString.char32At str i;
        s ← add_cp s cp;
        addAll_chars_loop fuel s str (i + Utf16.U16_LENGTH cp)
      else Some s
  end.

Definition addAll_chars s (str : ustr) : option t :=
  addAll_chars_loop (S (length (UnicodeString.units str))) s str 0.

(** ** Constructors, assignment *)

(** The members before the constructor's body runs. *)
Definition initial (l cap : Z) : t := mk l cap None None 0 None None None None 0.

Definition new_set : option t :=
  let '(s, status, _) := allocateStrings (initial 1 (1 + START_EXTRA)) U_ZERO_ERROR in
  if U_FAILURE status then Some s
  else match uprv_malloc junk sizeof_UChar32 (capacity s) with
       | Some cells => cells ← zset cells 0 UNICODESET_HIGH; Some (set_list s (len s) (Some cells))
       | None => setToBogus s
       end.

Definition new_range (start end_ : Z) : option t :=
  let '(s, status, _) := allocateStrings (initial 1 (1 + START_EXTRA)) U_ZERO_ERROR in
  if U_FAILURE status then Some s
  else match uprv_malloc junk sizeof_UChar32 (capacity s) with
       | Some cells => cells ← zset cells 0 UNICODESET_HIGH;
                       complement_range (set_list s (len s) (Some cells)) start end_
       | None => setToBogus s
       end.

(** [cloneUnicodeString] *)
Definition cloneUnicodeString (e : UVector.UElement ustr) : UVector.UElement ustr :=
  if new_object sizeof_UnicodeString then e else UVector.Ptr None.

(** [uprv_memcpy(list, o.list, len*sizeof(UChar32))] *)
Definition memcpy_cells (dst src : list Z) (n : Z) : option (list Z) :=
  if (n <=? zlen dst) && (n <=? zlen src) then Some (ztake n src ++ drop (Z.to_nat n) dst) else None.

(** The part of [operator=] after the inversion list and [bmpSet]. *)
Definition assign_rest s o (ec : UErrorCode) : option t :=
  match strings s, strings o with
  | Some v, Some w =>
      '(v, _) ← UVector.assign v w cloneUnicodeString ec;
      let s := set_strings s (Some v) in
      let finish s :=
        let s := releasePattern s in
        Some (match pat o with Some p => setPattern s p | None => s end) in
      match stringSpan o with
      | None => finish (set_lookup s (bmpSet s) None)
      | Some sp =>
          if new_object sizeof_StringSpan
          then sp ← ss_copy sp v; finish (set_lookup s (bmpSet s) (Some sp))
          else setToBogus (set_lookup s (bmpSet s) None)
      end
  | _, _ => setToBogus s
  end.

(** [operator=] for [this != &o]. *)
Definition assign s o : option t :=
  if isFrozen s then Some s
  else if isBogus o then setToBogus s
  else
    '(s, ec) ← ensureCapacity s (len o) U_ZERO_ERROR;
    if U_FAILURE ec then Some s
    else
      dst ← list_ s; src ← list_ o; cells ← memcpy_cells dst src (len o);
      let s := set_list s (len o) (Some cells) in
      match bmpSet o with
      | Some b =>
          if new_object sizeof_BMPSet
          then assign_rest (set_lookup s (Some (BMPSet.copy b cells (len o))) (stringSpan s)) o ec
          else setToBogus (set_lookup s None (stringSpan s))
      | None => assign_rest (set_lookup s None (stringSpan s)) o ec
      end.

(** The copy constructor: a frozen set is copied with its lookup object. *)
Definition new_copy o : option t :=
  let cap := if isFrozen o then len o else len o + GROW_EXTRA in
  let '(s, status, _) := allocateStrings (initial 0 cap) U_ZERO_ERROR in
  if U_FAILURE status then Some s
  else match uprv_malloc junk sizeof_UChar32 (capacity s) with
       | Some cells => assign (set_list s (len s) (Some cells)) o
       | None => setToBogus s
       end.

(** The constructor of [cloneAsThawed]. *)
Definition new_thawed o : option t :=
  let '(s, status, _) := allocateStrings (initial 0 (len o + GROW_EXTRA)) U_ZERO_ERROR in
  if U_FAILURE status then Some s
  else match uprv_malloc junk sizeof_UChar32 (capacity s) with
       | Some cells =>
           src ← list_ o; cells ← memcpy_cells cells src (len o);
           let s := set_list s (len o) (Some cells) in
           match strings s, strings o with
           | Some v, Some w =>
               '(v, _) ← UVector.assign v w cloneUnicodeString status;
               let s := set_strings s (Some v) in
               Some (match pat o with Some p => setPattern s p | None => s end)
           | _, _ => setToBogus s
           end
       | None => setToBogus s
       end.

(** The inner [None] is a null pointer. *)
Definition clone s : option (option t) :=
  if new_object sizeof_UnicodeSet then s ← new_copy s; Some (Some s) else Some None.
Definition cloneAsThawed s : option (option t) :=
  if new_object sizeof_UnicodeSet then s ← new_thawed s; Some (Some s) else Some None.

Definition retainAll_chars s (str : ustr) : option t :=
  set ← new_set; set ← addAll_chars set str; retainAll s set.
Definition complementAll_chars s (str : ustr) : option t :=
  set ← new_set; set ← addAll_chars set str; complementAll s set.
Definition removeAll_chars s (str : ustr) : option t :=
  set ← new_set; set ← addAll_chars set str; removeAll s set.

Definition createFrom (str : ustr) : option t := set ← new_set; add_string set str.
Definition createFromAll (str : ustr) : option t := set ← new_set; addAll_chars set str.

Definition compact s : option t :=
  if isFrozen s || isBogus s then Some s
  else
    let s := set_buffer s (bufferCapacity s) None in
    if len s <? capacity s then
      let newCapacity := len s + (if len s =? 0 then 1 else 0) in
      match uprv_realloc junk (default [] (list_ s)) sizeof_UChar32 newCapacity with
      | Some temp => Some (set_capacity s newCapacity (Some temp))
      | None => Some s
      end
    else Some s.

(** UnicodeSetStringSpan::ALL, FWD_UTF16_CONTAINED and the like (unisetspan.h). *)
Definition which_ALL : Z := 0x3f.

Definition freeze s : option t :=
  if isFrozen s || isBogus s then Some s
  else
    let s := set_buffer s (bufferCapacity s) None in
    '(s, ok) ←
      (if len s + GROW_EXTRA <? capacity s then
         let cap := len s + (if len s =? 0 then 1 else 0) in
         match uprv_realloc junk (default [] (list_ s)) sizeof_UChar32 cap with
         | Some temp => Some (set_capacity s cap (Some temp), true)
         | None => s ← setToBogus (set_capacity s cap None); Some (s, false)
         end
       else Some (s, true));
    if (ok : bool) then
      v ← strings s; cells ← list_ s;
      sp ←
        (if negb (UVector.count v =? 0) then
           if new_object sizeof_StringSpan then
             sp ← ss_new (ztake (len s) cells) v which_ALL;
             Some (if needsStringSpanUTF16 sp then Some sp else None)
           else Some None
         else Some None);
      match sp with
      | Some sp => Some (set_lookup s (bmpSet s) (Some sp))
      | None =>
          if new_object sizeof_BMPSet
          then b ← BMPSet.new cells (len s); Some (set_lookup s (Some b) None)
          else setToBogus (set_lookup s None None)
      end
    else Some s.

(** ** Serialization *)

(** The units written for the values from the first supplementary one on. *)
Fixpoint write_supplementary (n : nat) (dest : list Z) (d : Z) (cells : list Z) (p : Z)
  : option (list Z) :=
  match n with
  | O => Some dest
  | S n =>
      x ← zget cells p;
      dest ← zset dest d (uint16 (Z.shiftr x 16));
      dest ← zset dest (d + 1) (uint16 x);
      write_supplementary n dest (d + 2) cells (p + 1)
  end.

Fixpoint write_bmp (n : nat) (dest : list Z) (d : Z) (cells : list Z) (p : Z) : option (list Z) :=
  match n with
  | O => Some dest
  | S n => x ← zget cells p; dest ← zset dest d (uint16 x);
           write_bmp n dest (d + 1) cells (p + 1)
  end.

(** [for (bmpLength=0; bmpLength<length && list[bmpLength]<=0xffff; ++bmpLength) {}] *)
Fixpoint count_bmp (n : nat) (cells : list Z) (k : Z) : option Z :=
  match n with
  | O => Some k
  | S n => x ← zget cells k; if x <=? 0xffff then count_bmp n cells (k + 1) else Some k
  end.

(** [serialize(dest, destCapacity, ec)]; a null [dest] is [None].  The result is the
    buffer, the length and the error code. *)
Definition serialize s (dest : option (list Z)) (destCapacity : Z) (ec : UErrorCode)
  : option (option (list Z) * Z * UErrorCode) :=
  if U_FAILURE ec then Some (dest, 0, ec)
  else if (destCapacity <? 0) ||
          ((0 <? destCapacity) && match dest with None => true | Some _ => false end)
  then Some (dest, 0, U_ILLEGAL_ARGUMENT_ERROR)
  else
    let length := len s - 1 in
    if length =? 0 then
      if 0 <? destCapacity then d ← dest; d ← zset d 0 0; Some (Some d, 1, ec)
      else Some (dest, 1, U_BUFFER_OVERFLOW_ERROR)
    else
      cells ← list_ s;
      last ← zget cells (length - 1);
      '(bmpLength, length) ←
        (if last <=? 0xffff then Some (length, length)
         else first ← zget cells 0;
              if 0x10000 <=? first then Some (0, length * 2)
              else k ← count_bmp (Z.to_nat length) cells 0;
                   Some (k, k + 2 * (length - k)));
      if 0x7fff <? length then Some (dest, 0, U_INDEX_OUTOFBOUNDS_ERROR)
      else
        let destLength := length + (if bmpLength <? length then 2 else 1) in
        if destLength <=? destCapacity then
          d ← dest;
          d ← zset d 0 (uint16 length);
          '(d, at_) ← (if bmpLength <? length
                       then x ← zget d 0; d ← zset d 0 (Z.lor x 0x8000);
                            d ← zset d 1 (uint16 bmpLength); Some (d, 1)
                       else Some (d, 0));
          let at_ := at_ + 1 in
          d ← write_bmp (Z.to_nat bmpLength) d at_ cells 0;
          d ← write_supplementary (Z.to_nat ((length - bmpLength + 1) / 2)) d (at_ + bmpLength)
                cells bmpLength;
          Some (Some d, destLength, ec)
        else Some (dest, destLength, U_BUFFER_OVERFLOW_ERROR).

Fixpoint read_bmp (n : nat) (cells data : list Z) (headerSize i : Z) : option (list Z) :=
  match n with
  | O => Some cells
  | S n => x ← zget data (i + headerSize); cells ← zset cells i x;
           read_bmp n cells data headerSize (i + 1)
  end.

Fixpoint read_supplementary (n : nat) (cells data : list Z) (headerSize bmpLength i : Z)
  : option (list Z) :=
  match n with
  | O => Some cells
  | S n =>
      hi ← zget data (headerSize + bmpLength + (i - bmpLength) * 2 + 0);
      lo ← zget data (headerSize + bmpLength + (i - bmpLength) * 2 + 1);
      cells ← zset cells i (Z.shiftl hi 16 + lo);
      read_supplementary n cells data headerSize bmpLength (i + 1)
  end.

(** The deserializing constructor for [serialization == kSerialized]; a null [data] is [None]. *)
Definition new_serialized (data : option (list Z)) (dataLen : Z) (ec : UErrorCode)
  : option (t * UErrorCode) :=
  let s := initial 1 (1 + START_EXTRA) in
  if U_FAILURE ec then s ← setToBogus s; Some (s, ec)
  else match data with
  | None => s ← setToBogus s; Some (s, U_ILLEGAL_ARGUMENT_ERROR)
  | Some data =>
      if dataLen <? 1 then s ← setToBogus s; Some (s, U_ILLEGAL_ARGUMENT_ERROR)
      else
        let '(s, ec, _) := allocateStrings s ec in
        if U_FAILURE ec then s ← setToBogus s; Some (s, ec)
        else
          d0 ← zget data 0;
          let headerSize := if negb (Z.land d0 0x8000 =? 0) then 2 else 1 in
          bmpLength ← (if headerSize =? 1 then Some d0 else zget data 1);
          let l := Z.quot (Z.land d0 0x7fff - bmpLength) 2 + bmpLength in
          let s := set_capacity (set_list s l None) (l + 1) None in
          match uprv_malloc junk sizeof_UChar32 (capacity s) with
          | None => s ← setToBogus s; Some (s, ec)
          | Some cells =>
              cells ← read_bmp (Z.to_nat bmpLength) cells data headerSize 0;
              cells ← read_supplementary (Z.to_nat (l - bmpLength)) cells data headerSize bmpLength
                        bmpLength;
              cells ← zset cells l UNICODESET_HIGH;
              Some (set_list s (l + 1) (Some cells), ec)
          end
  end.

(** ** Spans *)

Definition USET_SPAN_NOT_CONTAINED : Z := 0.
Definition FWD_UTF16_CONTAINED : Z := 0x2a.      (* FWD|UTF16|CONTAINED *)
Definition FWD_UTF16_NOT_CONTAINED : Z := 0x29.
Definition BACK_UTF16_CONTAINED : Z := 0x1a.
Definition BACK_UTF16_NOT_CONTAINED : Z := 0x19.

(** [do { U16_NEXT(s, start, length, c); if(cond!=contains(c)) break; } while((prev=start)<length);] *)
Fixpoint span_chars (fuel : nat) s (text : list Z) (start prev length : Z) (cond : bool) : option Z :=
  match fuel with
  | O => None
  | S fuel =>
      '(c, start) ← Utf16.U16_NEXT text start length;
      r ← contains s c;
      if negb (Bool.eqb cond r) then Some prev
      else if start <? length then span_chars fuel s text start start length cond else Some start
  end.

Fixpoint spanBack_chars (fuel : nat) s (text : list Z) (length prev : Z) (cond : bool) : option Z :=
  match fuel with
  | O => None
  | S fuel =>
      '(c, length) ← Utf16.U16_PREV text 0 length;
      r ← contains s c;
      if negb (Bool.eqb cond r) then Some prev
      else if 0 <? length then spanBack_chars fuel s text length length cond else Some length
  end.

(** The choice of the string span, if one is needed, and its result. *)
Definition span_slow s (text : list Z) (length spanCondition : Z) (cond : bool) : option Z :=
  length ← (if length <? 0 then ustring.u_strlen text else Some length);
  if length =? 0 then Some 0
  else
    let text := ztake length text in
    let chars := span_chars (S (Z.to_nat length)) s text 0 0 length cond in
    match stringSpan s with
    | Some sp => v ← strings s; ss_span sp v text spanCondition
    | None =>
        v ← strings s; cells ← list_ s;
        if negb (UVector.count v =? 0) then
          let which := if spanCondition =? USET_SPAN_NOT_CONTAINED
                       then FWD_UTF16_NOT_CONTAINED else FWD_UTF16_CONTAINED in
          sp ← ss_new (ztake (len s) cells) v which;
          if needsStringSpanUTF16 sp then ss_span sp v text spanCondition else chars
        else chars
    end.

Definition spanBack_slow s (text : list Z) (length spanCondition : Z) (cond : bool) : option Z :=
  length ← (if length <? 0 then ustring.u_strlen text else Some length);
  if length =? 0 then Some 0
  else
    let text := ztake length text in
    let chars := spanBack_chars (S (Z.to_nat length)) s text length length cond in
    match stringSpan s with
    | Some sp => v ← strings s; ss_spanBack sp v text spanCondition
    | None =>
        v ← strings s; cells ← list_ s;
        if negb (UVector.count v =? 0) then
          let which := if spanCondition =? USET_SPAN_NOT_CONTAINED
                       then BACK_UTF16_NOT_CONTAINED else BACK_UTF16_CONTAINED in
          sp ← ss_new (ztake (len s) cells) v which;
          if needsStringSpanUTF16 sp then ss_spanBack sp v text spanCondition else chars
        else chars
    end.

Definition spanBack s (text : list Z) (length spanCondition : Z) : option Z :=
  let cond := negb (spanCondition =? USET_SPAN_NOT_CONTAINED) in
  match bmpSet s with
  | Some b => if 0 <? length then BMPSet.spanBack b text 0 length cond
              else spanBack_slow s text length spanCondition cond
  | None => spanBack_slow s text length spanCondition cond
  end.

Definition span s (text : list Z) (length spanCondition : Z) : option Z :=
  let cond := negb (spanCondition =? USET_SPAN_NOT_CONTAINED) in
  match bmpSet s with
  | Some b => if 0 <? length then BMPSet.span b text 0 length cond
              else span_slow s text length spanCondition cond
  | None => span_slow s text length spanCondition cond
  end.

Definition USET_SPAN_CONTAINED : Z := 1.

(** *** UTF-8 *)

Definition FWD_UTF8_CONTAINED : Z := 0x26.       (* FWD|UTF8|CONTAINED *)
Definition FWD_UTF8_NOT_CONTAINED : Z := 0x25.
Definition BACK_UTF8_CONTAINED : Z := 0x16.
Definition BACK_UTF8_NOT_CONTAINED : Z := 0x15.

(** [do { U8_NEXT_OR_FFFD(s, start, length, c); if(cond!=contains(c)) break; } while((prev=start)<length);] *)
Fixpoint span_bytes (fuel : nat) s (text : list Z) (start prev length : Z) (cond : bool) : option Z :=
  match fuel with
  | O => None
  | S fuel =>
      '(c, start) ← Utf8.U8_NEXT_OR_FFFD text start length;
      r ← contains s c;
      if negb (Bool.eqb cond r) then Some prev
      else if start <? length then span_bytes fuel s text start start length cond else Some start
  end.

Fixpoint spanBack_bytes (fuel : nat) s (text : list Z) (length prev : Z) (cond : bool) : option Z :=
  match fuel with
  | O => None
  | S fuel =>
      '(c, length) ← Utf8.U8_PREV_OR_FFFD text 0 length;
      r ← contains s c;
      if negb (Bool.eqb cond r) then Some prev
      else if 0 <? length then spanBack_bytes fuel s text length length cond else Some length
  end.

(** The functions from [if(length<0)] on. *)
Definition spanUTF8_slow s (text : list Z) (length spanCondition : Z) (cond : bool) : option Z :=
  length ← (if length <? 0 then ustring.u_strlen text else Some length);
  if length =? 0 then Some 0
  else
    let text := ztake length text in
    let chars := span_bytes (S (Z.to_nat length)) s text 0 0 length cond in
    match stringSpan s with
    | Some sp => v ← strings s; ss_spanUTF8 sp v text spanCondition
    | None =>
        v ← strings s; cells ← list_ s;
        if negb (UVector.count v =? 0) then
          let which := if spanCondition =? USET_SPAN_NOT_CONTAINED
                       then FWD_UTF8_NOT_CONTAINED else FWD_UTF8_CONTAINED in
          sp ← ss_new (ztake (len s) cells) v which;
          if needsStringSpanUTF8 sp then ss_spanUTF8 sp v text spanCondition else chars
        else chars
    end.

Definition spanBackUTF8_slow s (text : list Z) (length spanCondition : Z) (cond : bool) : option Z :=
  length ← (if length <? 0 then ustring.u_strlen text else Some length);
  if length =? 0 then Some 0
  else
    let text := ztake length text in
    let chars := spanBack_bytes (S (Z.to_nat length)) s text length length cond in
    match stringSpan s with
    | Some sp => v ← strings s; ss_spanBackUTF8 sp v text spanCondition
    | None =>
        v ← strings s; cells ← list_ s;
        if negb (UVector.count v =? 0) then
          let which := if spanCondition =? USET_SPAN_NOT_CONTAINED
                       then BACK_UTF8_NOT_CONTAINED else BACK_UTF8_CONTAINED in
          sp ← ss_new (ztake (len s) cells) v which;
          if needsStringSpanUTF8 sp then ss_spanBackUTF8 sp v text spanCondition else chars
        else chars
    end.

Definition spanUTF8 s (text : list Z) (length spanCondition : Z) : option Z :=
  let cond := negb (spanCondition =? USET_SPAN_NOT_CONTAINED) in
  match bmpSet s with
  | Some b => if 0 <? length then BMPSetUtf8.spanUTF8 b text length cond
              else spanUTF8_slow s text length spanCondition cond
  | None => spanUTF8_slow s text length spanCondition cond
  end.

Definition spanBackUTF8 s (text : list Z) (length spanCondition : Z) : option Z :=
  let cond := negb (spanCondition =? USET_SPAN_NOT_CONTAINED) in
  match bmpSet s with
  | Some b => if 0 <? length then BMPSetUtf8.spanBackUTF8 b text length cond
              else spanBackUTF8_slow s text length spanCondition cond
  | None => spanBackUTF8_slow s text length spanCondition cond
  end.

Definition containsAll_chars s (str : ustr) : option bool :=
  n ← span s (UnicodeString.units str) (UnicodeString.length str) USET_SPAN_CONTAINED;
  Some (n =? UnicodeString.length str).

Definition containsNone_chars s (str : ustr) : option bool :=
  n ← span s (UnicodeString.units str) (UnicodeString.length str) USET_SPAN_NOT_CONTAINED;
  Some (n =? UnicodeString.length str).

(** ** Matching *)

Fixpoint indexValue_ranges (n : nat) s (v i : Z) : option bool :=
  match n with
  | O => Some false
  | S n =>
      low ← getRangeStart s i; high ← getRangeEnd s i;
      let lb := Z.land low 0xff in
      let hb := Z.land high 0xff in
      if (if Z.land low (Z.lnot 0xff) =? Z.land high (Z.lnot 0xff)
          then (lb <=? v) && (v <=? hb) else (lb <=? v) || (v <=? hb))
      then Some true
      else indexValue_ranges n s v (i + 1)
  end.

Fixpoint indexValue_strings (n : nat) (sv : uvec) (v i : Z) : option bool :=
  match n with
  | O => Some false
  | S n =>
      e ← UVector.elementAt sv i; str ← the_string e; c ← UnicodeString.char32At str 0;
      if Z.land c 0xff =? v then Some true else indexValue_strings n sv v (i + 1)
  end.

Definition matchesIndexValue s (v : Z) : option bool :=
  r ← indexValue_ranges (Z.to_nat (getRangeCount s)) s v 0;
  if (r : bool) then Some true
  else sv ← strings s; indexValue_strings (Z.to_nat (UVector.count sv)) sv v 0.

Inductive UMatchDegree := U_MISMATCH | U_PARTIAL_MATCH | U_MATCH.

Definition U_ETHER : Z := 0xffff.

(** [for (i = 1; i < maxLen; ++i) if (text.charAt(start + dir*i) != s.charAt(from + dir*i)) return 0;] *)
Fixpoint matchRest_loop (n : nat) (text str : ustr) (start from dir i : Z) : option bool :=
  match n with
  | O => Some true
  | S n =>
      a ← UnicodeString.charAt text (start + dir * i);
      b ← UnicodeString.charAt str (from + dir * i);
      if negb (a =? b) then Some false else matchRest_loop n text str start from dir (i + 1)
  end.

Definition matchRest (text : ustr) (start limit : Z) (str : ustr) : option Z :=
  let slen := UnicodeString.length str in
  let maxLen := if start <? limit then limit - start else start - limit in
  let maxLen := if slen <? maxLen then slen else maxLen in
  ok ← (if start <? limit
        then matchRest_loop (Z.to_nat (maxLen - 1)) text str start 0 1 1
        else matchRest_loop (Z.to_nat (maxLen - 1)) text str start (slen - 1) (-1) 1);
  Some (if (ok : bool) then maxLen else 0).

(** The loop over the strings: a partial match, or the longest full match so far. *)
Fixpoint matches_loop (n : nat) (sv : uvec) (text : ustr) (offset limit : Z) (forward incremental : bool)
    (firstChar i highWaterLength : Z) : option (UMatchDegree + Z) :=
  match n with
  | O => Some (inr highWaterLength)
  | S n =>
      e ← UVector.elementAt sv i; trial ← the_string e;
      c ← UnicodeString.charAt trial (if forward then 0 else UnicodeString.length trial - 1);
      if forward && (firstChar <? c) then Some (inr highWaterLength)
      else if negb (c =? firstChar) then
        matches_loop n sv text offset limit forward incremental firstChar (i + 1) highWaterLength
      else
        matchLen ← matchRest text offset limit trial;
        if incremental && (matchLen =? (if forward then limit - offset else offset - limit))
        then Some (inl U_PARTIAL_MATCH)
        else if matchLen =? UnicodeString.length trial then
          let highWaterLength := if highWaterLength <? matchLen then matchLen else highWaterLength in
          if forward && (matchLen <? highWaterLength) then Some (inr highWaterLength)
          else matches_loop n sv text offset limit forward incremental firstChar (i + 1) highWaterLength
        else
          matches_loop n sv text offset limit forward incremental firstChar (i + 1) highWaterLength
  end.

(** [UnicodeFilter::matches] (unifilt.cpp): the result and the new offset. *)
Definition filter_matches s (text : ustr) (offset limit : Z) (incremental : bool)
  : option (UMatchDegree * Z) :=
  let miss := Some (if incremental && (offset =? limit) then (U_PARTIAL_MATCH, offset)
                    else (U_MISMATCH, offset)) in
  if offset <? limit then
    c ← UnicodeString.char32At text offset; b ← contains s c;
    if (b : bool) then Some (U_MATCH, offset + Utf16.U16_LENGTH c) else miss
  else if limit <? offset then
    c ← UnicodeString.char32At text offset; b ← contains s c;
    if (b : bool) then
      let offset := offset - 1 in
      if 0 <=? offset
      then d ← UnicodeString.char32At text offset; Some (U_MATCH, offset - (Utf16.U16_LENGTH d - 1))
      else Some (U_MATCH, offset)
    else miss
  else miss.

Definition matches s (text : ustr) (offset limit : Z) (incremental : bool)
  : option (UMatchDegree * Z) :=
  if offset =? limit then
    b ← contains s U_ETHER;
    Some (if (b : bool) then (if incremental then U_PARTIAL_MATCH else U_MATCH, offset)
          else (U_MISMATCH, offset))
  else
    sv ← strings s;
    if negb (UVector.count sv =? 0) then
      let forward := offset <? limit in
      firstChar ← UnicodeString.charAt text offset;
      r ← matches_loop (Z.to_nat (UVector.count sv)) sv text offset limit forward incremental
            firstChar 0 0;
      match r with
      | inl degree => Some (degree, offset)
      | inr highWaterLength =>
          if negb (highWaterLength =? 0)
          then Some (U_MATCH, offset + (if forward then highWaterLength else - highWaterLength))
          else filter_matches s text offset limit incremental
      end
    else filter_matches s text offset limit incremental.
End Ops.
End UnicodeSet.
