(* ===== verification/UnicodeSetFacts.v ===== *)
(** * What a UnicodeSet stands for, and what its operations do to it

    The representation invariant of the object, the set of code points and the sorted list of
    strings it stands for, and the correctness of the methods of [UnicodeSet.v] against plain
    set operations, allocation failures included. *)

From S2P Require Import Prelude Vector Utf16 UString InversionList BMPSet UnicodeSet.
Import InvList UnicodeSet.

Module UnicodeSetFacts.

Section Facts.
Context {HP : Heap} {OS : ObjectSizes} {SP : StringSpan}.
Implicit Types s : t.

(** ** The representation invariant *)

(** A string that the strings vector may hold: not empty and not a single code point. *)
Definition multi (str : ustr) : Prop :=
  exists u, str = UnicodeString.Str u /\ Forall Utf16.unit16 u /\
    (2 < zlen u \/ exists x y, u = [x; y] /\ Utf16.is_pair x y = false).

Definition str_le (a b : UVector.UElement ustr) : Prop := compareUnicodeString a b <= 0.

Record strings_wf (v : uvec) : Prop := {
  sw_wf : UVector.wf v;
  sw_deleter : UVector.deleter v = true;
  sw_comparer : UVector.comparer v = Some uhash_compareUnicodeString;
  sw_multi : Forall (fun e => exists str, e = UVector.Ptr (Some str) /\ multi str) (UVector.contents v);
  sw_sorted : StronglySorted str_le (UVector.contents v);
  sw_nodup : NoDup (UVector.contents v)
}.

(** The units of the strings. *)
Definition text_of (e : UVector.UElement ustr) : list Z :=
  match e with UVector.Ptr (Some str) => UnicodeString.units str | _ => [] end.
Definition texts (v : uvec) : list (list Z) := map text_of (UVector.contents v).

(** The values in use of the inversion list. *)
Definition values s : list Z := ztake (len s) (default [] (list_ s)).
(** The strings of the set, in order. *)
Definition strs s : list (UVector.UElement ustr) :=
  match strings s with Some v => UVector.contents v | None => [] end.
(** The code points of the set. *)
Definition has s (c : Z) : bool := inv_mem (values s) c.

Record wf s : Prop := {
  wf_cells : exists cells, list_ s = Some cells /\ zlen cells = capacity s;
  wf_len : 0 < len s <= capacity s;
  wf_values : wf_list (values s);
  wf_buffer : forall b, buffer s = Some b -> zlen b = bufferCapacity s;
  wf_strings : exists v, strings s = Some v /\ strings_wf v;
  wf_bmp : forall b, bmpSet s = Some b -> BMPSet.represents b (values s);
  wf_span : forall sp, stringSpan s = Some sp ->
    forall c, 0 <= c < UNICODESET_HIGH -> ss_contains sp c = Some (has s c);
  wf_flags : fFlags s = 0 \/ fFlags s = kIsBogus
}.

(** A mutable set: not frozen, not bogus. *)
Definition live s : Prop := wf s /\ isFrozen s = false /\ isBogus s = false.

(** An empty, bogus set: what is left after an allocation failure. *)
Definition failed s : Prop := wf s /\ isBogus s = true /\ isFrozen s = false /\
  values s = [UNICODESET_HIGH] /\ strs s = [].

Lemma values_split s :
  wf s -> exists cells st, list_ s = Some cells /\ cells = values s ++ st /\ zlen (values s) = len s /\
    zlen cells = capacity s.
Proof.
  intros Hwf. destruct (wf_cells s Hwf) as (cells & E & L). pose proof (wf_len s Hwf).
  exists cells, (drop (Z.to_nat (len s)) cells). split; [done|].
  unfold values. rewrite E. simpl. split; [unfold ztake; by rewrite take_drop|]. split; [|done].
  apply zlen_ztake. lia.
Qed.

Lemma not_frozen s : isFrozen s = false <-> bmpSet s = None /\ stringSpan s = None.
Proof. unfold isFrozen. destruct (bmpSet s), (stringSpan s); naive_solver. Qed.

Lemma bogus_flag s : wf s -> isBogus s = bool_decide (fFlags s = kIsBogus).
Proof. intros Hwf. unfold isBogus. destruct (wf_flags s Hwf) as [-> | ->]; done. Qed.

(** ** Strings *)

Lemma uhash_decides v : strings_wf v -> UVector.decides v.
Proof.
  intros Hv. exists uhash_compareUnicodeString. split; [apply Hv|].
  intros [[a|]|i] [[b|]|j]; try done. cbn. rewrite UnicodeString_facts.operator_eq_decides.
  apply bool_decide_ext. naive_solver.
Qed.

Lemma strings_objects v : strings_wf v -> UVector.all_objects (UVector.contents v).
Proof.
  intros Hv. eapply Forall_impl; [apply Hv|]. cbn. intros e (str & -> & _). by exists str.
Qed.

(** The order of the vector, on the strings it may hold. *)
Lemma compare_multi a b :
  multi a -> multi b ->
  compareUnicodeString (UVector.Ptr (Some a)) (UVector.Ptr (Some b)) =
    lex (UnicodeString.units a) (UnicodeString.units b).
Proof.
  intros (u & -> & Hu & _) (w & -> & Hw & _). unfold compareUnicodeString.
  by rewrite UnicodeString_facts.compare_lex.
Qed.

Lemma StronglySorted_filter {A} (R : A -> A -> Prop) (P : A -> Prop) `{forall x, Decision (P x)} l :
  StronglySorted R l -> StronglySorted R (filter P l).
Proof.
  induction 1 as [|x l Hs IH Hf]; [constructor|]. rewrite filter_cons. case_decide; [|done].
  constructor; [done|]. apply Forall_forall. intros y [_ Hy]%list_elem_of_filter.
  by eapply (proj1 (Forall_forall _ _) Hf).
Qed.

(** Removing strings keeps the vector sorted and free of duplicates. *)
Lemma strings_wf_filter v v' (P : UVector.UElement ustr -> Prop) `{forall x, Decision (P x)} :
  strings_wf v -> UVector.wf v' -> UVector.same_policy v v' ->
  UVector.contents v' = filter P (UVector.contents v) -> strings_wf v'.
Proof.
  intros Hv Hwf [Hd Hc] E. split; auto.
  - rewrite Hd. apply Hv.
  - rewrite Hc. apply Hv.
  - rewrite E. apply Forall_forall. intros x [_ Hx]%list_elem_of_filter.
    exact (proj1 (Forall_forall _ _) (sw_multi v Hv) x Hx).
  - rewrite E. by apply StronglySorted_filter, Hv.
  - rewrite E. by apply NoDup_filter, Hv.
Qed.

Lemma removeAllElements_strings v :
  strings_wf v -> exists v', UVector.removeAllElements v = Some v' /\ strings_wf v' /\ UVector.contents v' = [].
Proof.
  intros Hv. destruct (UVector.removeAllElements_spec v (sw_wf v Hv) (strings_objects v Hv))
    as (v' & -> & Hwf' & [Hd Hc] & E & _).
  exists v'. split; [done|]. split; [|done]. split; auto.
  - rewrite Hd. apply Hv.
  - rewrite Hc. apply Hv.
  - rewrite E. constructor.
  - rewrite E. constructor.
  - rewrite E. constructor.
Qed.

(** ** Clearing, growing *)

Lemma values_HIGH : wf_list [UNICODESET_HIGH].
Proof. split_and!; [by repeat constructor|by repeat constructor|done]. Qed.

(** [clear] on a set whose list and strings are allocated, before any validity of its values. *)
Lemma clear_spec s cells v :
  isFrozen s = false -> list_ s = Some cells -> zlen cells = capacity s -> 0 < capacity s ->
  (forall b, buffer s = Some b -> zlen b = bufferCapacity s) ->
  strings s = Some v -> strings_wf v ->
  exists s', clear s = Some s' /\ wf s' /\ isFrozen s' = false /\ fFlags s' = 0 /\
    values s' = [UNICODESET_HIGH] /\ strs s' = [].
Proof.
  intros Hf E L Hcap Hb Ev Hv. unfold clear. rewrite Hf, E. rewrite zset_in by lia. cbn [mbind option_bind].
  cbn [strings set_list releasePattern set_pat]. rewrite Ev.
  destruct (removeAllElements_strings v Hv) as (v' & -> & Hv' & Ec). cbn.
  eexists. split; [done|]. apply not_frozen in Hf as [Hf1 Hf2].
  assert (Hvals : ztake 1 (<[Z.to_nat 0:=UNICODESET_HIGH]> cells) = [UNICODESET_HIGH]).
  { change 1 with (0 + 1) at 1. rewrite ztake_snoc by lia. done. }
  split_and!; auto.
  - split; cbn; auto.
    + eexists. split; [done|]. unfold zlen in *. by rewrite length_insert.
    + lia.
    + unfold values. cbn. rewrite Hvals. apply values_HIGH.
    + eauto.
    + rewrite Hf1. done.
    + rewrite Hf2. done.
  - apply not_frozen. done.
Qed.

Lemma wf_set_flags s f : wf s -> f = 0 \/ f = kIsBogus -> wf (set_flags s f).
Proof. intros [] Hf. split; auto. Qed.

Lemma setToBogus_spec s cells v :
  isFrozen s = false -> list_ s = Some cells -> zlen cells = capacity s -> 0 < capacity s ->
  (forall b, buffer s = Some b -> zlen b = bufferCapacity s) ->
  strings s = Some v -> strings_wf v ->
  exists s', setToBogus s = Some s' /\ failed s'.
Proof.
  intros Hf E L Hcap Hb Ev Hv. unfold setToBogus.
  destruct (clear_spec s cells v) as (s' & -> & Hwf & Hf' & _ & Hvals & Hstrs); auto.
  cbn [mbind option_bind]. eexists. split; [done|]. split_and!; auto.
  apply wf_set_flags; auto.
Qed.

Lemma live_setToBogus s : wf s -> isFrozen s = false -> exists s', setToBogus s = Some s' /\ failed s'.
Proof.
  intros Hwf Hf. destruct (wf_cells s Hwf) as (cells & E & L), (wf_strings s Hwf) as (v & Ev & Hv).
  pose proof (wf_len s Hwf). apply (setToBogus_spec s cells v); auto; [lia|apply Hwf].
Qed.

(** The result of an operation that means to give the code points [sem] and the strings [st]:
    a live set with exactly these, or, when an allocation is refused, an empty bogus set. *)
Definition outcome (s : t) (sem : Z -> bool) (st : list (UVector.UElement ustr)) : Prop :=
  live s /\ (forall c, 0 <= c < UNICODESET_HIGH -> has s c = sem c) /\ strs s = st \/
  failed s /\ refused.

(** The lists the methods allocate are small: [len] is at most 0x110001. *)
Lemma wf_len_bound s : wf s -> len s <= UNICODESET_HIGH + 1.
Proof.
  intros Hwf. pose proof (wf_list_bound _ (wf_values s Hwf)) as Hb.
  destruct (values_split s Hwf) as (? & ? & _ & _ & Hz & _). lia.
Qed.

Lemma object_refused size :
  size ∈ [sizeof_UVector; sizeof_UnicodeString; sizeof_BMPSet; sizeof_StringSpan; sizeof_UnicodeSet] ->
  alloc_ok size = false -> refused.
Proof. intros Hs Ha. exists size. split; [|done]. by apply (proj1 (Forall_forall _ _) sizes_int32). Qed.

(** A request for the list or the buffer, of some [n] values and the usual slack. *)
Lemma grow_refused (cells : list Z) n :
  0 <= n <= 0x300000 -> uprv_realloc junk cells sizeof_UChar32 (n + GROW_EXTRA) = None -> refused.
Proof. intros Hn. apply realloc_refused. unfold sizeof_UChar32, GROW_EXTRA, INT32_MAX. lia. Qed.

Lemma ensureBufferCapacity_spec s n ec :
  live s -> 0 <= n <= 0x300000 ->
  exists s' ec', ensureBufferCapacity s n ec = Some (s', ec') /\
    ((ec' = ec /\ live s' /\ len s' = len s /\ list_ s' = list_ s /\ strings s' = strings s /\
      exists b, buffer s' = Some b /\ n <= zlen b) \/
     (ec' = U_MEMORY_ALLOCATION_ERROR /\ failed s' /\ refused)).
Proof.
  intros (Hwf & Hf & Hb) Hn. unfold ensureBufferCapacity.
  destruct (_ && _) eqn:Hroom.
  { exists s, ec. split; [done|left]. destruct (buffer s) as [b|] eqn:Eb; [|done].
    split_and!; auto; [done|]. exists b. split; [done|]. rewrite (wf_buffer s Hwf b Eb). lia. }
  destruct (uprv_realloc _ _ _ _) as [temp|] eqn:Er.
  - eexists _, ec. split; [done|left]. split; [done|]. cbn.
    assert (zlen temp = n + GROW_EXTRA) as Hz.
    { apply uprv_realloc_spec in Er as [Hz _]; auto; [unfold sizeof_UChar32; lia|].
      destruct (buffer s) as [b|] eqn:Eb; simpl in *.
      - rewrite (wf_buffer s Hwf b Eb). unfold GROW_EXTRA. lia.
      - unfold GROW_EXTRA, zlen. simpl. lia. }
    split_and!; auto.
    + split_and!; auto. destruct Hwf. split; auto. cbn. intros b [= <-]. done.
    + exists temp. split; [done|]. unfold GROW_EXTRA in *. lia.
  - destruct (live_setToBogus s Hwf Hf) as (s' & -> & Hfail). cbn [mbind option_bind].
    eexists _, _. split; [done|right]. split_and!; auto; try apply Hfail. by eapply grow_refused; eauto; lia.
Qed.

(** The frame of the merging operators: with a loop that gives [sem], the object gets [sem]. *)
Lemma merge_spec s other otherLen f sem :
  live s -> 0 <= otherLen <= UNICODESET_HIGH + 1 ->
  (forall cells st buf, cells = values s ++ st -> len s + otherLen <= zlen buf ->
     gives buf sem (f cells other buf)) ->
  exists s', merge s other otherLen f = Some s' /\ outcome s' sem (strs s) /\ (isBogus s' = false -> pat s' = None).
Proof.
  intros Hlive Hlen Hgives. pose proof Hlive as (Hwf & Hf & Hb). unfold merge. rewrite Hf, Hb. cbn [orb].
  pose proof (wf_len s Hwf). pose proof (wf_len_bound s Hwf).
  destruct (ensureBufferCapacity_spec s (len s + otherLen) U_ZERO_ERROR) as (s1 & ec & -> & Hr);
    [done|unfold UNICODESET_HIGH in *; lia|].
  cbn [mbind option_bind].
  destruct Hr as [(-> & (Hwf1 & Hf1 & Hb1) & El & Ell & Es & buf & Ebuf & Hroom)|(-> & Hfail & Hno)].
  2:{ cbn. exists s1. split; [done|]. split; [right; done|]. destruct Hfail as (_ & ? & _). congruence. }
  cbn [U_FAILURE]. destruct (values_split s Hwf) as (cells & st & E & Esplit & Hz & Hcap).
  rewrite Ell, E, Ebuf. cbn [mbind option_bind].
  destruct (Hgives cells st buf Esplit) as (buf' & k & -> & Hl' & Hk & Hvals & Hsem); [lia|].
  cbn [mbind option_bind]. eexists. split; [done|]. split; [left|done].
  split_and!.
  - split_and!; auto. apply not_frozen in Hf1 as [Hf1 Hf2]. split; cbn; auto.
    + exists buf'. split; [done|]. rewrite Hl'. by apply Hwf1.
    + rewrite <- (wf_buffer s1 Hwf1 buf Ebuf). lia.
    + unfold values. cbn. intros b [= <-]. destruct (wf_cells s1 Hwf1) as (cells1 & E1 & L1).
      rewrite Ell in *. rewrite E in *. congruence || (simplify_eq; done).
    + apply Hwf1.
    + rewrite Hf1. done.
    + rewrite Hf2. done.
    + apply Hwf1.
  - intros c Hc. unfold has, values. simpl. apply Hsem. lia.
  - unfold strs. cbn. by rewrite Es.
Qed.

(** ** Ranges *)

Definition inside (lo hi c : Z) : bool := (lo <=? c) && (c <=? hi).

Lemma pinCodePoint_range c : 0 <= pinCodePoint c < UNICODESET_HIGH.
Proof. unfold pinCodePoint, UNICODESET_LOW, UNICODESET_HIGH. zcases. Qed.

(** The array that a method passes for a range is an inversion list for it. *)
Lemma range3_list lo hi :
  0 <= lo <= hi -> hi < UNICODESET_HIGH ->
  exists o st, range3 lo hi = o ++ st /\ wf_list o /\ zlen o - 1 <= 2 <= UNICODESET_HIGH + 1 /\
    forall c, c < UNICODESET_HIGH -> inv_mem o c = inside lo hi c.
Proof.
  intros Hlo Hhi. unfold range3. destruct (decide (hi + 1 = UNICODESET_HIGH)) as [E|Hne].
  - exists [lo; UNICODESET_HIGH], [UNICODESET_HIGH]. rewrite E. split; [done|]. split; [|split].
    + split_and!; [repeat constructor; lia|repeat constructor; unfold UNICODESET_HIGH in *; lia|done].
    + unfold zlen. simpl. lia.
    + intros c Hc. unfold inside. simpl. repeat (zcase; simpl; try lia); done.
  - exists [lo; hi + 1; UNICODESET_HIGH], []. split; [done|]. split; [|split].
    + split_and!; [repeat constructor; lia|repeat constructor; unfold UNICODESET_HIGH in *; lia|done].
    + unfold zlen. simpl. lia.
    + intros c Hc. unfold inside. simpl. repeat (zcase; simpl; try lia); done.
Qed.

(** The merging operators on the object, for an inversion list and for a range. *)
Lemma add_op_spec s o st otherLen :
  live s -> wf_list o -> zlen o - 1 <= otherLen <= UNICODESET_HIGH + 1 ->
  exists s', add_op s (o ++ st) otherLen 0 = Some s' /\
    outcome s' (fun c => has s c || inv_mem o c) (strs s) /\ (isBogus s' = false -> pat s' = None).
Proof.
  intros Hl Ho Hlen. pose proof (wf_list_zlen o Ho). unfold add_op. apply merge_spec; [done|lia|].
  intros cells st' buf -> Hroom. destruct (values_split s (proj1 Hl)) as (? & ? & _ & _ & Hz & _).
  apply add_cells_union; auto; [apply Hl|lia].
Qed.

Lemma retain_op_spec s o st otherLen (pb : bool) :
  live s -> wf_list o -> zlen o - 1 <= otherLen <= UNICODESET_HIGH + 1 ->
  exists s', retain_op s (o ++ st) otherLen (if pb then 2 else 0) = Some s' /\
    outcome s' (fun c => has s c && xorb pb (inv_mem o c)) (strs s) /\ (isBogus s' = false -> pat s' = None).
Proof.
  intros Hl Ho Hlen. pose proof (wf_list_zlen o Ho). unfold retain_op. apply merge_spec; [done|lia|].
  intros cells st' buf -> Hroom. destruct (values_split s (proj1 Hl)) as (? & ? & _ & _ & Hz & _).
  apply retain_cells_meet; auto; [apply Hl|lia].
Qed.

Lemma exclusiveOr_spec s o st otherLen :
  live s -> wf_list o -> zlen o - 1 <= otherLen <= UNICODESET_HIGH + 1 ->
  exists s', exclusiveOr s (o ++ st) otherLen 0 = Some s' /\
    outcome s' (fun c => xorb (has s c) (inv_mem o c)) (strs s) /\ (isBogus s' = false -> pat s' = None).
Proof.
  intros Hl Ho Hlen. pose proof (wf_list_zlen o Ho). unfold exclusiveOr. apply merge_spec; [done|lia|].
  intros cells st' buf -> Hroom. destruct (values_split s (proj1 Hl)) as (? & ? & _ & _ & Hz & _).
  apply exclusiveOr_cells_xor; auto; [apply Hl|lia].
Qed.

Lemma outcome_ext s sem sem' st :
  (forall c, 0 <= c < UNICODESET_HIGH -> sem c = sem' c) -> outcome s sem st -> outcome s sem' st.
Proof.
  intros He [(Hl & Hs & Hst)|?]; [left|by right]. split_and!; auto. intros c Hc. by rewrite Hs, He.
Qed.

Lemma outcome_same s : live s -> outcome s (has s) (strs s).
Proof. left. auto. Qed.

Lemma live_set_pat s p : live s -> live (set_pat s p).
Proof. intros ([] & Hf & Hb). split; [|done]. split; auto. Qed.

Lemma outcome_releasePattern s sem st : outcome s sem st -> outcome (releasePattern s) sem st.
Proof.
  intros [(Hl & Hs & Hst)|((Hwf & Hf) & Hn)]; [left|right].
  - split_and!; auto; by apply live_set_pat.
  - split; [|done]. split; [|done]. destruct Hwf. split; auto.
Qed.

Lemma complement_range_spec s start end_ :
  live s -> let lo := pinCodePoint start in let hi := pinCodePoint end_ in
  exists s', complement_range s start end_ = Some s' /\
    outcome s' (fun c => xorb (has s c) (inside lo hi c)) (strs s).
Proof.
  intros Hl lo hi. unfold complement_range. pose proof Hl as (Hwf & -> & ->). cbn [orb].
  fold lo hi. pose proof (pinCodePoint_range start). pose proof (pinCodePoint_range end_).
  destruct (Z.leb_spec lo hi).
  - destruct (range3_list lo hi) as (o & st & -> & Ho & Hlen & Hm); [lia|lia|].
    destruct (exclusiveOr_spec s o st 2 Hl Ho Hlen) as (s' & -> & Hs & _). cbn [mbind option_bind].
    eexists. split; [done|]. apply outcome_releasePattern. eapply outcome_ext; [|exact Hs].
    intros c Hc. cbn. rewrite Hm by lia. done.
  - cbn [mbind option_bind]. eexists. split; [done|]. apply outcome_releasePattern.
    eapply outcome_ext; [|by apply outcome_same]. intros c Hc. unfold inside. zcases; by rewrite xorb_false_r.
Qed.

Lemma remove_range_spec s start end_ :
  live s -> let lo := pinCodePoint start in let hi := pinCodePoint end_ in
  exists s', remove_range s start end_ = Some s' /\
    outcome s' (fun c => has s c && negb (inside lo hi c)) (strs s).
Proof.
  intros Hl lo hi. unfold remove_range. fold lo hi.
  pose proof (pinCodePoint_range start). pose proof (pinCodePoint_range end_).
  destruct (Z.leb_spec lo hi).
  - destruct (range3_list lo hi) as (o & st & -> & Ho & Hlen & Hm); [lia|lia|].
    destruct (retain_op_spec s o st 2 true Hl Ho Hlen) as (s' & -> & Hs & _).
    eexists. split; [done|]. eapply outcome_ext; [|exact Hs]. intros c Hc. cbn. rewrite Hm by lia. done.
  - eexists. split; [done|]. eapply outcome_ext; [|by apply outcome_same].
    intros c Hc. unfold inside. zcases; by rewrite andb_true_r.
Qed.

Lemma clear_live s :
  wf s -> isFrozen s = false ->
  exists s', clear s = Some s' /\ live s' /\ values s' = [UNICODESET_HIGH] /\ strs s' = [].
Proof.
  intros Hwf Hf. destruct (wf_cells s Hwf) as (cells & E & L), (wf_strings s Hwf) as (v & Ev & Hv).
  pose proof (wf_len s Hwf).
  destruct (clear_spec s cells v) as (s' & -> & Hwf' & Hf' & Hfl & ? & ?); auto; [lia|apply Hwf|].
  exists s'. split_and!; auto. split_and!; auto. rewrite bogus_flag by done. by rewrite Hfl.
Qed.

Lemma retain_range_spec s start end_ :
  live s -> let lo := pinCodePoint start in let hi := pinCodePoint end_ in
  exists s', retain_range s start end_ = Some s' /\
    outcome s' (fun c => has s c && inside lo hi c) (if lo <=? hi then strs s else []).
Proof.
  intros Hl lo hi. unfold retain_range. fold lo hi.
  pose proof (pinCodePoint_range start). pose proof (pinCodePoint_range end_).
  destruct (Z.leb_spec lo hi).
  - destruct (range3_list lo hi) as (o & st & -> & Ho & Hlen & Hm); [lia|lia|].
    destruct (retain_op_spec s o st 2 false Hl Ho Hlen) as (s' & -> & Hs & _).
    eexists. split; [done|]. eapply outcome_ext; [|exact Hs]. intros c Hc. cbn. rewrite Hm by lia. done.
  - destruct Hl as (Hwf & Hf & Hb). destruct (clear_live s Hwf Hf) as (s' & -> & Hl' & Hv & Hs).
    eexists. split; [done|]. left. split_and!; auto. intros c Hc. unfold has at 1. rewrite Hv.
    unfold inside. simpl. repeat (zcase; simpl; try lia); by rewrite andb_false_r.
Qed.

(** ** Adding one code point in place *)

Lemma wf_list_splice l1 m r :
  StronglySorted Z.lt l1 -> StronglySorted Z.lt m -> StronglySorted Z.lt r ->
  Forall (Z.le 0) l1 -> Forall (Z.le 0) m -> Forall (Z.le 0) r -> last r = Some UNICODESET_HIGH ->
  (forall x y, x ∈ l1 -> y ∈ m ++ r -> x < y) -> (forall x y, x ∈ m -> y ∈ r -> x < y) ->
  wf_list (l1 ++ m ++ r).
Proof.
  intros S1 Sm Sr P1 Pm Pr Hl H1 Hm. split_and!.
  - rewrite !StronglySorted_app. auto 10.
  - by rewrite !Forall_app.
  - rewrite app_assoc, last_app, Hl. done.
Qed.

(** Where [c] falls: the values up to [c], the values above it. *)
Lemma splits_at_list l c i :
  wf_list l -> splits_at l c i ->
  exists l1 x l2, l = l1 ++ x :: l2 /\ zlen l1 = i /\ Forall (fun y => y <= c) l1 /\ c < x /\
    StronglySorted Z.lt l1 /\ StronglySorted Z.lt (x :: l2) /\ Forall (Z.le 0) l1 /\ Forall (Z.le 0) (x :: l2) /\
    last (x :: l2) = Some UNICODESET_HIGH /\ (forall y z, y ∈ l1 -> z ∈ x :: l2 -> y < z).
Proof.
  intros (Hs & Hp & Hl) (Hi & Hle & Hgt). destruct (zget_is_Some l i Hi) as [x Hx].
  destruct (zget_split l i x Hx) as (l1 & l2 & -> & Hz). exists l1, x, l2.
  apply StronglySorted_app in Hs as (H12 & H1 & H2). apply Forall_app in Hp as [P1 P2].
  rewrite last_app in Hl. split_and!; auto.
  - apply Forall_lookup. intros j y Hy. apply (Hle (Z.of_nat j)).
    + apply lookup_lt_Some in Hy. unfold zlen in Hz. lia.
    + rewrite zget_nat. rewrite lookup_app_l; [done|]. by apply lookup_lt_Some in Hy.
  - destruct (last (x :: l2)) eqn:E; [done|]. by apply last_None in E.
Qed.

(** Toggling the two values [c] and [c+1] in an inversion list toggles membership of [c]. *)
Lemma toggle_point (old new : list Z) c :
  (forall d, d < UNICODESET_HIGH -> inv_mem new d = xorb (inv_mem old d) (inv_mem [c; c + 1] d)) ->
  inv_mem old c = false -> forall d, d < UNICODESET_HIGH -> inv_mem new d = inv_mem old d || (d =? c).
Proof.
  intros Hn Ho d Hd. rewrite Hn by done. simpl. destruct (Z.eqb_spec d c) as [->|].
  - rewrite Ho. zcases.
  - rewrite orb_false_r. repeat (zcase; simpl; try lia); by rewrite xorb_false_r.
Qed.

Lemma copy_down2_spec n cells dst :
  0 <= dst -> dst + Z.of_nat n + 2 <= zlen cells ->
  exists r, copy_down2 n cells dst = Some r /\ zlen r = zlen cells /\
    forall j, zget r j = if (dst <=? j) && (j <? dst + Z.of_nat n) then zget cells (j + 2) else zget cells j.
Proof.
  revert cells dst. induction n as [|n IH]; intros cells dst Hd Hn; cbn [copy_down2].
  { exists cells. split_and!; auto. intros j. by zcases. }
  destruct (zget_is_Some cells (dst + 2)) as [x Hx]; [lia|]. rewrite Hx. cbn [mbind option_bind].
  rewrite zset_in by lia. cbn [mbind option_bind].
  assert (Hz : zlen (<[Z.to_nat dst:=x]> cells) = zlen cells) by (unfold zlen; by rewrite length_insert).
  destruct (IH (<[Z.to_nat dst:=x]> cells) (dst + 1)) as (r & -> & Hl & Hg); [lia|lia|].
  exists r. split_and!; auto; [lia|]. intros j. rewrite Hg.
  destruct (decide (j = dst)) as [->|].
  - rewrite zget_insert_eq by lia. repeat (zcase; cbn [andb]; try lia); done.
  - rewrite (zget_insert_ne cells dst j) by lia.
    destruct (Z.leb_spec (dst + 1) j); [rewrite zget_insert_ne by lia|];
      repeat (zcase; cbn [andb]; try lia); done.
Qed.

Lemma copy_up2_spec n cells src :
  Z.of_nat n <= src -> src + 2 <= zlen cells ->
  exists r, copy_up2 n cells src = Some r /\ zlen r = zlen cells /\
    forall j, zget r j = if (src - Z.of_nat n + 2 <=? j) && (j <? src + 2) then zget cells (j - 2) else zget cells j.
Proof.
  revert cells src. induction n as [|n IH]; intros cells src Hn Hs; cbn [copy_up2].
  { exists cells. split_and!; auto. intros j. by zcases. }
  destruct (zget_is_Some cells (src - 1)) as [x Hx]; [lia|]. rewrite Hx. cbn [mbind option_bind].
  rewrite zset_in by lia. cbn [mbind option_bind].
  assert (Hz : zlen (<[Z.to_nat (src + 1):=x]> cells) = zlen cells) by (unfold zlen; by rewrite length_insert).
  destruct (IH (<[Z.to_nat (src + 1):=x]> cells) (src - 1)) as (r & -> & Hl & Hg); [lia|lia|].
  exists r. split_and!; auto; [lia|]. intros j. rewrite Hg.
  destruct (decide (j = src + 1)) as [->|].
  - rewrite zget_insert_eq by lia. replace (src + 1 - 2) with (src - 1) by lia.
    repeat (zcase; cbn [andb]; try lia); done.
  - rewrite (zget_insert_ne cells (src + 1) j) by lia.
    destruct (Z.ltb_spec j (src + 1)); [rewrite zget_insert_ne by lia|];
      repeat (zcase; cbn [andb]; try lia); done.
Qed.

(** Closing a gap of two cells, making one. *)
Lemma copy_down2_cut a p q m st :
  exists r, copy_down2 (length m) (a ++ p :: q :: m ++ st) (zlen a) = Some r /\
    zlen r = zlen (a ++ p :: q :: m ++ st) /\ ztake (zlen a + zlen m) r = a ++ m.
Proof.
  pose proof (zlen_nonneg a). pose proof (zlen_nonneg m). pose proof (zlen_nonneg st).
  destruct (copy_down2_spec (length m) (a ++ p :: q :: m ++ st) (zlen a)) as (r & -> & Hl & Hg).
  { lia. } { rewrite zlen_app, !zlen_cons, zlen_app. unfold zlen. lia. }
  exists r. split_and!; auto. fold (zlen m) in Hg. rewrite zlen_app, !zlen_cons, zlen_app in Hl.
  apply zget_ext; [rewrite zlen_ztake, zlen_app; lia|].
  rewrite zlen_ztake by lia. intros j Hj. rewrite zget_ztake, Hg by lia.
  destruct (Z.leb_spec (zlen a) j), (Z.ltb_spec j (zlen a + zlen m)); cbn [andb]; try lia.
  - rewrite !zget_app_r by lia. replace (zget (p :: q :: m ++ st) (j + 2 - zlen a)) with (zget (m ++ st) (j - zlen a)).
    + apply zget_app_l. lia.
    + unfold zget. zcases. replace (Z.to_nat (j + 2 - zlen a)) with (S (S (Z.to_nat (j - zlen a)))) by lia. done.
  - rewrite !zget_app_l by lia. done.
Qed.

Lemma copy_up2_gap a m st :
  2 <= zlen st ->
  exists r x y rest, copy_up2 (length m) (a ++ m ++ st) (zlen a + zlen m) = Some r /\
    r = a ++ x :: y :: m ++ rest /\ zlen r = zlen (a ++ m ++ st).
Proof.
  intros Hst. pose proof (zlen_nonneg a). pose proof (zlen_nonneg m).
  destruct (copy_up2_spec (length m) (a ++ m ++ st) (zlen a + zlen m)) as (r & -> & Hl & Hg).
  { unfold zlen. lia. } { rewrite !zlen_app. lia. }
  fold (zlen m) in Hg. pose proof Hl as Hl'. rewrite !zlen_app in Hl'.
  destruct (zget_is_Some r (zlen a)) as [x Hx]; [lia|]. destruct (zget_is_Some r (zlen a + 1)) as [y Hy]; [lia|].
  exists r, x, y, (drop (Z.to_nat (zlen a + 2 + zlen m)) r). split; [done|]. split; [|done].
  apply zget_ext.
  - rewrite zlen_app, !zlen_cons, zlen_app. unfold zlen at 4. rewrite length_drop. unfold zlen in *. lia.
  - intros j Hj. destruct (Z.lt_ge_cases j (zlen a)).
    { rewrite zget_app_l by lia. rewrite Hg. repeat (zcase; cbn [andb]; try lia). by rewrite zget_app_l by lia. }
    rewrite (zget_app_r a (x :: _)) by lia.
    destruct (decide (j = zlen a)) as [->|]; [by rewrite Z.sub_diag|].
    destruct (decide (j = zlen a + 1)) as [->|]; [by replace (zlen a + 1 - zlen a) with 1 by lia|].
    assert (zget (x :: y :: m ++ drop (Z.to_nat (zlen a + 2 + zlen m)) r) (j - zlen a) =
            zget (m ++ drop (Z.to_nat (zlen a + 2 + zlen m)) r) (j - zlen a - 2)) as ->.
    { unfold zget. zcases. replace (Z.to_nat (j - zlen a)) with (S (S (Z.to_nat (j - zlen a - 2)))) by lia. done. }
    destruct (Z.lt_ge_cases (j - zlen a - 2) (zlen m)).
    + rewrite zget_app_l by lia. rewrite Hg. repeat (zcase; cbn [andb]; try lia).
      rewrite zget_app_r by lia. rewrite zget_app_l by lia. f_equal. lia.
    + rewrite zget_app_r by lia. unfold zget. zcases. rewrite lookup_drop. f_equal. lia.
Qed.

(** The allocated parts of a mutable set, whatever its list holds. *)
Record shape s (cells : list Z) (v : uvec) : Prop := {
  sh_mutable : isFrozen s = false;
  sh_list : list_ s = Some cells;
  sh_capacity : zlen cells = capacity s /\ 0 < capacity s;
  sh_buffer : forall b, buffer s = Some b -> zlen b = bufferCapacity s;
  sh_strings : strings s = Some v /\ strings_wf v;
  sh_flags : fFlags s = 0
}.

Lemma live_shape s : live s -> exists cells v, shape s cells v.
Proof.
  intros (Hwf & Hf & Hb). destruct (wf_cells s Hwf) as (cells & E & L), (wf_strings s Hwf) as (v & Ev & Hv).
  exists cells, v. pose proof (wf_len s Hwf). rewrite bogus_flag in Hb by done.
  split; auto; [split; [done|lia]|apply Hwf|].
  destruct (wf_flags s Hwf) as [?|Hk]; [done|]. by rewrite bool_decide_true in Hb.
Qed.

(** Writing a valid list into the cells makes the set live again. *)
Lemma shape_live s cells v cells' k :
  shape s cells v -> zlen cells' = zlen cells -> 0 < k <= zlen cells -> wf_list (ztake k cells') ->
  let s' := releasePattern (set_list s k (Some cells')) in
  live s' /\ values s' = ztake k cells' /\ strs s' = UVector.contents v.
Proof.
  intros [Hf E [Hc Hpos] Hb [Ev Hv] Hfl] Hz Hk Hl. cbn zeta. split; [|split; [done|]].
  - pose proof Hf as [Hf1 Hf2]%not_frozen. split_and!; auto.
    + split; cbn; auto; try lia.
      * exists cells'. split; [done|lia].
      * eauto.
      * by rewrite Hf1.
      * by rewrite Hf2.
    + unfold isBogus. cbn. by rewrite Hfl.
  - unfold strs. cbn. by rewrite Ev.
Qed.

Lemma shape_set_list s cells v cells' k :
  shape s cells v -> zlen cells' = zlen cells -> shape (set_list s k (Some cells')) cells' v.
Proof. intros [Hf E [Hc Hpos] Hb Hs Hfl] Hz. split; auto. cbn. split; [lia|done]. Qed.

Lemma ensureCapacity_room s cells v n ec :
  shape s cells v -> n <= 0x300000 ->
  exists s' ec', ensureCapacity s n ec = Some (s', ec') /\
    ((ec' = ec /\ len s' = len s /\
      exists st, shape s' (cells ++ st) v /\ n <= zlen (cells ++ st)) \/
     (ec' = U_MEMORY_ALLOCATION_ERROR /\ failed s' /\ refused)).
Proof.
  intros Hsh Hn. pose proof Hsh as [Hf E [Hc Hpos] Hb [Ev Hv] Hfl]. unfold ensureCapacity.
  destruct (Z.leb_spec n (capacity s)).
  { exists s, ec. split; [done|left]. split_and!; auto. exists []. rewrite app_nil_r. split; [done|lia]. }
  rewrite E. cbn [default from_option id].
  destruct (uprv_realloc junk cells sizeof_UChar32 (n + GROW_EXTRA)) as [temp|] eqn:Er.
  - eexists _, ec. split; [done|left]. split_and!; auto.
    apply uprv_realloc_spec in Er as [Hz Hk]; [|unfold sizeof_UChar32; lia|unfold GROW_EXTRA; lia].
    specialize (Hk (zlen cells) ltac:(lia)). rewrite (ztake_all cells) in Hk.
    exists (drop (Z.to_nat (zlen cells)) temp).
    assert (cells ++ drop (Z.to_nat (zlen cells)) temp = temp) as ->.
    { rewrite <- Hk at 1. apply take_drop. }
    split; [|unfold GROW_EXTRA in *; lia]. split; cbn; auto. split; [done|]. unfold GROW_EXTRA. lia.
  - destruct (setToBogus_spec s cells v) as (s' & -> & Hfail); auto. cbn [mbind option_bind].
    eexists _, _. split; [done|right]. split_and!; auto; try apply Hfail. by eapply grow_refused; eauto; lia.
Qed.

Lemma shape_self s cells v : shape s cells v -> set_list s (len s) (Some cells) = s.
Proof. intros [_ E _ _ _ _]. destruct s. cbn in *. by rewrite E. Qed.

(** The set after one of the four ways to splice [c] into the list. *)
Lemma add_point_done s s1 v c new st :
  shape s1 (new ++ st) v -> len s1 = zlen new -> strs s = UVector.contents v -> has s c = false ->
  wf_list new ->
  (forall d, d < UNICODESET_HIGH -> inv_mem new d = xorb (has s d) (inv_mem [c; c + 1] d)) ->
  outcome (releasePattern s1) (fun d => has s d || (d =? c)) (strs s).
Proof.
  intros Hsh El Hst Hc Hwf Hm. pose proof (wf_list_zlen new Hwf). pose proof (zlen_nonneg st).
  destruct (shape_live s1 (new ++ st) v (new ++ st) (len s1)) as (Hl' & Hv & Hs'); auto.
  { rewrite zlen_app. lia. } { by rewrite El, ztake_app_exact. }
  rewrite (shape_self _ _ _ Hsh) in *. left. split_and!; auto; [apply Hl'..| |by rewrite Hst].
  intros d Hd. unfold has at 1. rewrite Hv, El, ztake_app_exact.
  apply (toggle_point (values s)); auto. lia.
Qed.

(** When the value before is not [c], all of them are below. *)
Lemma below_c l1 c :
  Forall (fun y => y <= c) l1 -> StronglySorted Z.lt l1 -> last l1 <> Some c -> forall y, y ∈ l1 -> y < c.
Proof.
  intros Hle S1 Hn y Hy. pose proof (proj1 (Forall_forall _ _) Hle y Hy) as Hyc. cbn in Hyc.
  destruct (decide (y = c)) as [->|]; [|lia]. exfalso.
  destruct l1 as [|a l _] using rev_ind; [by apply elem_of_nil in Hy|]. rewrite last_snoc in Hn.
  apply elem_of_app in Hy as [Hy|Hy%list_elem_of_singleton]; [|congruence].
  apply StronglySorted_app in S1 as (Hlt & _ & _). specialize (Hlt c a Hy ltac:(set_solver)).
  apply Forall_app in Hle as [_ Ha]. apply Forall_cons in Ha as [Ha _]. lia.
Qed.

(** *** The four ways *)

Section Splice.
Context (l1 l2 : list Z) (c x : Z).
Context (Hc : 0 <= c < UNICODESET_HIGH) (Hle : Forall (fun y => y <= c) l1) (Hx : c < x).
Context (S1 : StronglySorted Z.lt l1) (S2 : StronglySorted Z.lt (x :: l2)).
Context (P1 : Forall (Z.le 0) l1) (P2 : Forall (Z.le 0) (x :: l2)).
Context (Hlast : last (x :: l2) = Some UNICODESET_HIGH).

(** What follows [x], with a new end mark when [x] was it. *)
Definition tail2 : list Z := if c =? UNICODESET_HIGH - 1 then [UNICODESET_HIGH] else l2.

Lemma tail2_facts : x = c + 1 ->
  StronglySorted Z.lt tail2 /\ Forall (Z.le 0) tail2 /\ last tail2 = Some UNICODESET_HIGH /\
  (forall y, y ∈ tail2 -> c < y) /\
  forall d, d < UNICODESET_HIGH -> inv_mem tail2 d = inv_mem l2 d.
Proof using Hc Hle Hx S1 S2 P1 P2 Hlast.
  intros ->. unfold tail2. apply StronglySorted_cons in S2 as [Sx Sl]. apply Forall_cons in P2 as [_ Pl].
  destruct (Z.eqb_spec c (UNICODESET_HIGH - 1)) as [->|Hne].
  - assert (l2 = []) as ->.
    { apply (chain_HIGH l2). replace (UNICODESET_HIGH - 1 + 1) with UNICODESET_HIGH in * by lia.
      split; [constructor; auto|done]. }
    split_and!; try by repeat constructor.
    + intros y Hy%list_elem_of_singleton. lia.
    + intros d Hd. simpl. zcases.
  - split_and!; auto.
    + destruct l2; [simpl in Hlast; simplify_eq; lia|]. by rewrite last_cons_cons in Hlast.
    + intros y Hy. pose proof (proj1 (Forall_forall _ _) Sx y Hy). lia.
Qed.

Lemma splice_before : x = c + 1 -> last l1 <> Some c ->
  wf_list (l1 ++ [c] ++ tail2) /\
  forall d, d < UNICODESET_HIGH -> inv_mem (l1 ++ [c] ++ tail2) d =
    xorb (inv_mem (l1 ++ x :: l2) d) (inv_mem [c; c + 1] d).
Proof using Hc Hle Hx S1 S2 P1 P2 Hlast.
  intros Ex Hn. pose proof (below_c l1 c Hle S1 Hn) as Hb. destruct (tail2_facts Ex) as (St & Pt & Lt & Ht & Mt). split.
  - apply wf_list_splice; auto.
    + repeat constructor.
    + repeat constructor. lia.
    + intros y z Hy [->%list_elem_of_singleton|Hz]%elem_of_app; [by apply Hb|].
      specialize (Hb y Hy). specialize (Ht z Hz). lia.
    + intros y z ->%list_elem_of_singleton Hz. by apply Ht.
  - intros d Hd. rewrite !inv_mem_app, (inv_mem_app [x] l2), Mt by done. rewrite Ex. simpl.
    repeat (zcase; simpl; try lia); destruct (inv_mem l1 d), (inv_mem l2 d); done.
Qed.

Lemma splice_collapse l1' : x = c + 1 -> l1 = l1' ++ [c] ->
  wf_list (l1' ++ [] ++ tail2) /\
  forall d, d < UNICODESET_HIGH -> inv_mem (l1' ++ [] ++ tail2) d =
    xorb (inv_mem (l1 ++ x :: l2) d) (inv_mem [c; c + 1] d).
Proof using Hc Hle Hx S1 S2 P1 P2 Hlast.
  intros Ex El. destruct (tail2_facts Ex) as (St & Pt & Lt & Ht & Mt).
  pose proof S1 as Sp. pose proof P1 as Pp. rewrite El in Sp, Pp |- *.
  apply StronglySorted_app in Sp as (Hlt & S1' & _). apply Forall_app in Pp as [P1' _]. split.
  - apply wf_list_splice; auto; try constructor.
    + intros y z Hy Hz. specialize (Hlt y c Hy ltac:(set_solver)). specialize (Ht z Hz). lia.
    + intros y z Hy. by apply elem_of_nil in Hy.
  - intros d Hd. rewrite !inv_mem_app, (inv_mem_app [x] l2), Mt by done. rewrite Ex. simpl.
    repeat (zcase; simpl; try lia); destruct (inv_mem l1' d), (inv_mem l2 d); done.
Qed.

Lemma splice_after l1' : c + 1 < x -> l1 = l1' ++ [c] ->
  wf_list (l1' ++ [c + 1] ++ x :: l2) /\
  forall d, d < UNICODESET_HIGH -> inv_mem (l1' ++ [c + 1] ++ x :: l2) d =
    xorb (inv_mem (l1 ++ x :: l2) d) (inv_mem [c; c + 1] d).
Proof using Hc Hle Hx S1 S2 P1 P2 Hlast.
  intros Ex El. pose proof S1 as Sp. pose proof P1 as Pp. rewrite El in Sp, Pp |- *.
  apply StronglySorted_app in Sp as (Hlt & S1' & _). apply Forall_app in Pp as [P1' _].
  pose proof S2 as [Sx _]%StronglySorted_cons.
  assert (Hge : forall z, z ∈ x :: l2 -> c + 1 < z).
  { intros z [->|Hz]%elem_of_cons; [done|]. pose proof (proj1 (Forall_forall _ _) Sx z Hz). lia. }
  split.
  - apply wf_list_splice; auto.
    + repeat constructor.
    + repeat constructor. lia.
    + intros y z Hy Hz. specialize (Hlt y c Hy ltac:(set_solver)).
      apply elem_of_app in Hz as [->%list_elem_of_singleton|Hz]; [lia|]. specialize (Hge z Hz). lia.
    + intros y z ->%list_elem_of_singleton Hz. by apply Hge.
  - intros d Hd. rewrite !inv_mem_app, (inv_mem_app [x] l2). simpl.
    repeat (zcase; simpl; try lia); destruct (inv_mem l1' d), (inv_mem l2 d); done.
Qed.

Lemma splice_between : c + 1 < x -> last l1 <> Some c ->
  wf_list (l1 ++ [c; c + 1] ++ x :: l2) /\
  forall d, d < UNICODESET_HIGH -> inv_mem (l1 ++ [c; c + 1] ++ x :: l2) d =
    xorb (inv_mem (l1 ++ x :: l2) d) (inv_mem [c; c + 1] d).
Proof using Hc Hle Hx S1 S2 P1 P2 Hlast.
  intros Ex Hn. pose proof (below_c l1 c Hle S1 Hn) as Hb. pose proof S2 as [Sx _]%StronglySorted_cons.
  assert (Hge : forall z, z ∈ x :: l2 -> c + 1 < z).
  { intros z [->|Hz]%elem_of_cons; [done|]. pose proof (proj1 (Forall_forall _ _) Sx z Hz). lia. }
  split.
  - apply wf_list_splice; auto.
    + repeat constructor. lia.
    + repeat constructor; lia.
    + intros y z Hy Hz. specialize (Hb y Hy).
      apply elem_of_app in Hz as [Hz|Hz]; [set_unfold in Hz; lia|]. specialize (Hge z Hz). lia.
    + intros y z Hy Hz. specialize (Hge z Hz). set_unfold in Hy. lia.
  - intros d Hd. rewrite !inv_mem_app. apply eq_true_iff_eq.
    destruct (inv_mem l1 d), (inv_mem (x :: l2) d), (inv_mem [c; c + 1] d); done.
Qed.
End Splice.

Lemma odd_land i : negb (Z.land i 1 =? 0) = Z.odd i.
Proof.
  change 1 with (Z.ones 1). rewrite land_low by lia. change (2 ^ 1) with 2. rewrite Zmod_odd.
  by destruct (Z.odd i).
Qed.

Lemma findCodePoint_has s c :
  wf s -> c < UNICODESET_HIGH ->
  exists i, findCodePoint s c = Some i /\ splits_at (values s) c i /\ has s c = Z.odd i.
Proof.
  intros Hwf Hc. destruct (values_split s Hwf) as (cells & st & E & Es & Hz & _).
  unfold findCodePoint. rewrite E. cbn [mbind option_bind].
  destruct (InvList.findCodePoint_spec (values s) st c (wf_values s Hwf) Hc) as (i & Hf & Hs).
  exists i. rewrite Es, <- Hz. split_and!; auto; try apply Hs.
  apply splits_at_odd; [apply Hwf|done].
Qed.

Lemma add_end_mark_spec s v l1 c l2 st :
  shape s (l1 ++ c :: l2 ++ st) v -> len s = zlen l1 + 1 + zlen l2 -> chain (c + 1) l2 -> len s <= UNICODESET_HIGH + 1 ->
  exists s' status, add_end_mark s c = Some (s', status) /\
    ((status = U_ZERO_ERROR /\ exists rest, shape s' (l1 ++ c :: tail2 l2 c ++ rest) v /\
        len s' = zlen l1 + 1 + zlen (tail2 l2 c)) \/
     (U_FAILURE status = true /\ failed s' /\ refused)).
Proof.
  intros Hsh El Hch Hbd. unfold add_end_mark, tail2. destruct (Z.eqb_spec c (UNICODESET_HIGH - 1)) as [->|Hne].
  2:{ eexists _, _. split; [done|left]. eauto. }
  replace (UNICODESET_HIGH - 1 + 1) with UNICODESET_HIGH in Hch by lia. apply chain_HIGH in Hch as ->.
  change (zlen (@nil Z)) with 0 in El. cbn [app] in Hsh.
  destruct (ensureCapacity_room _ _ _ (len s + 1) U_ZERO_ERROR Hsh ltac:(unfold UNICODESET_HIGH in *; lia))
    as (s2 & ec & -> & [(-> & El2 & st2 & Hsh2 & Hroom)|(-> & ? & ?)]); cbn [mbind option_bind U_FAILURE].
  2:{ eexists _, _. split; [done|]. right. auto. }
  rewrite (sh_list _ _ _ Hsh2). cbn [mbind option_bind].
  rewrite <- app_assoc in *. cbn [app] in *. destruct (st ++ st2) as [|y rest].
  { rewrite zlen_app in Hroom. change (zlen [_]) with 1 in Hroom. lia. }
  rewrite (cons_middle _ l1), app_assoc, El2.
  replace (len s) with (zlen (l1 ++ [UNICODESET_HIGH - 1])) by (rewrite zlen_app; change (zlen [_]) with 1; lia).
  rewrite zset_middle. cbn [mbind option_bind]. eexists _, _. split; [done|left]. split; [done|].
  exists rest. rewrite <- app_assoc. cbn [app]. split.
  - eapply shape_set_list; [done|]. by rewrite !zlen_app, !zlen_cons.
  - cbn. rewrite zlen_app. done.
Qed.

Lemma collapse_spec s v l1 c c' l2 st :
  shape s (l1 ++ c :: c' :: l2 ++ st) v -> len s = zlen l1 + 2 + zlen l2 ->
  exists s' rest, collapse s (zlen l1 + 1) = Some s' /\ shape s' ((l1 ++ l2) ++ rest) v /\ len s' = zlen (l1 ++ l2).
Proof.
  intros Hsh El. unfold collapse. rewrite (sh_list _ _ _ Hsh). cbn [mbind option_bind].
  replace (Z.to_nat (len s - (zlen l1 + 1 + 1))) with (length l2) by (unfold zlen in *; lia).
  replace (zlen l1 + 1 - 1) with (zlen l1) by lia.
  destruct (copy_down2_cut l1 c c' l2 st) as (r & -> & Hz & Ht). cbn [mbind option_bind].
  eexists _, (drop (Z.to_nat (zlen l1 + zlen l2)) r). split; [done|].
  assert ((l1 ++ l2) ++ drop (Z.to_nat (zlen l1 + zlen l2)) r = r) as ->.
  { rewrite <- Ht. apply take_drop. }
  split; [eapply shape_set_list; eauto|]. cbn. rewrite zlen_app. lia.
Qed.

Lemma insert_range_spec s v l1 c l2 st :
  shape s (l1 ++ l2 ++ st) v -> len s = zlen (l1 ++ l2) -> len s <= UNICODESET_HIGH + 1 ->
  exists s' status, insert_range s (zlen l1) c = Some (s', status) /\
    ((status = U_ZERO_ERROR /\ exists rest, shape s' ((l1 ++ [c; c + 1] ++ l2) ++ rest) v /\
        len s' = zlen (l1 ++ [c; c + 1] ++ l2)) \/
     (U_FAILURE status = true /\ failed s' /\ refused)).
Proof.
  intros Hsh El Hbd. unfold insert_range. rewrite zlen_app in El.
  destruct (ensureCapacity_room _ _ _ (len s + 2) U_ZERO_ERROR Hsh ltac:(unfold UNICODESET_HIGH in *; lia))
    as (s2 & ec & -> & [(-> & El2 & st2 & Hsh2 & Hroom)|(-> & ? & ?)]); cbn [mbind option_bind U_FAILURE].
  2:{ eexists _, _. split; [done|]. right. auto. }
  rewrite (sh_list _ _ _ Hsh2). cbn [mbind option_bind].
  replace ((l1 ++ l2 ++ st) ++ st2) with (l1 ++ l2 ++ st ++ st2) in * by (by rewrite <- !app_assoc).
  replace (Z.to_nat (len s2 - zlen l1)) with (length l2) by (unfold zlen in *; lia).
  rewrite El2, El. destruct (copy_up2_gap l1 l2 (st ++ st2)) as (r & x & y & rest & -> & -> & Hz).
  { rewrite !zlen_app in *. lia. }
  cbn [mbind option_bind]. rewrite zset_middle. cbn [mbind option_bind].
  rewrite (cons_middle c l1), app_assoc.
  replace (zlen l1 + 1) with (zlen (l1 ++ [c])) by (by rewrite zlen_app).
  rewrite zset_middle. cbn [mbind option_bind]. eexists _, _. split; [done|left]. split; [done|].
  exists rest. rewrite <- !app_assoc. cbn [app]. split.
  - eapply shape_set_list; [done|]. rewrite <- Hz. by rewrite !zlen_app, !zlen_cons.
  - cbn. rewrite zlen_app, !zlen_cons. lia.
Qed.

Lemma last_zget (l1 r : list Z) (c : Z) :
  (if 0 <? zlen l1 then x ← zget (l1 ++ r) (zlen l1 - 1); Some (c =? x) else Some false) =
    Some (bool_decide (last l1 = Some c)).
Proof.
  destruct l1 as [|a l _] using rev_ind; [done|]. rewrite zlen_app. change (zlen [a]) with 1.
  pose proof (zlen_nonneg l). zcase; [|lia]. replace (zlen l + 1 - 1) with (zlen l) by lia.
  rewrite <- app_assoc. cbn [app]. rewrite zget_middle, last_snoc. cbn [mbind option_bind]. f_equal.
  destruct (Z.eqb_spec c a) as [->|]; [by rewrite bool_decide_true|]. by rewrite bool_decide_false by congruence.
Qed.

Lemma failed_outcome s sem st :
  failed s -> refused -> outcome s sem st.
Proof. by right. Qed.

(** [add(c)]: the in-place insertion gives the union with the one code point. *)
Lemma add_cp_spec s c0 :
  live s -> exists s', add_cp s c0 = Some s' /\
    outcome s' (fun d => has s d || (d =? pinCodePoint c0)) (strs s).
Proof.
  intros Hl. pose proof Hl as (Hwf & Hf & Hb). unfold add_cp. set (c := pinCodePoint c0).
  pose proof (pinCodePoint_range c0) as Hc. fold c in Hc. clearbody c.
  destruct (findCodePoint_has s c Hwf) as (i & -> & Hi & Hh); [lia|]. cbn [mbind option_bind].
  rewrite odd_land, Hf, Hb, !orb_false_r, <- Hh. destruct (has s c) eqn:Hin.
  { exists s. split; [done|]. eapply outcome_ext; [|by apply outcome_same]. intros d Hd.
    destruct (Z.eqb_spec d c) as [->|]; [by rewrite Hin|by rewrite orb_false_r]. }
  destruct (live_shape s Hl) as (cells & v & Hsh). pose proof Hsh as [_ E _ _ [Ev _] _].
  destruct (values_split s Hwf) as (cells' & st & E' & Es & Hz & _). rewrite E in E'. simplify_eq.
  destruct (splits_at_list (values s) c i) as (l1 & x & l2 & Evs & <- & Hle & Hx & S1 & S2 & P1 & P2 & Hlast & _); [apply Hwf|done|].
  assert (Hst : strs s = UVector.contents v) by (unfold strs; by rewrite Ev).
  assert (Hm : forall new, (forall d, d < UNICODESET_HIGH -> inv_mem new d =
      xorb (inv_mem (l1 ++ x :: l2) d) (inv_mem [c; c + 1] d)) ->
    forall d, d < UNICODESET_HIGH -> inv_mem new d = xorb (has s d) (inv_mem [c; c + 1] d)).
  { intros new Hn d Hd. unfold has. rewrite Evs. by apply Hn. }
  rewrite E. cbn [mbind option_bind]. rewrite Evs in *. rewrite <- app_assoc in *. cbn [app] in *.
  rewrite zget_middle. cbn [mbind option_bind]. rewrite last_zget. cbn [mbind option_bind].
  rewrite zlen_app, zlen_cons in Hz.
  destruct (Z.eqb_spec c (x - 1)) as [Ex|Ex].
  - assert (x = c + 1) as -> by lia. rewrite zset_middle. cbn [mbind option_bind].
    destruct (add_end_mark_spec (set_list s (len s) (Some (l1 ++ c :: l2 ++ st))) v l1 c l2 st)
      as (s2 & status & -> & [(-> & rest & Hsh2 & El2)|(Hfl & Hfail & Hno)]).
    { eapply shape_set_list; [done|]. by rewrite !zlen_app, !zlen_cons. } { cbn. lia. } { done. } { exact (wf_len_bound s Hwf). }
    2:{ cbn [mbind option_bind]. rewrite Hfl. eexists. split; [done|]. by apply failed_outcome. }
    cbn [mbind option_bind U_FAILURE]. case_bool_decide as Hlc.
    + destruct l1 as [|a l1' _] using rev_ind; [done|]. rewrite last_snoc in Hlc. injection Hlc as ->.
      rewrite zlen_app in *. change (zlen [c]) with 1 in *. rewrite <- app_assoc in Hsh2. cbn [app] in Hsh2.
      destruct (collapse_spec s2 v l1' c c (tail2 l2 c) rest Hsh2) as (s3 & rest3 & -> & Hsh3 & El3); [lia|].
      cbn [mbind option_bind]. eexists. split; [done|].
      destruct (splice_collapse (l1' ++ [c]) l2 c (c + 1) Hc Hle Hx S1 S2 P1 P2 Hlast l1') as [Hw Hmm]; auto.
      eapply add_point_done; eauto.
    + cbn [mbind option_bind]. eexists. split; [done|].
      destruct (splice_before l1 l2 c (c + 1) Hc Hle Hx S1 S2 P1 P2 Hlast) as [Hw Hmm]; auto.
      eapply (add_point_done s s2 v c _ rest); eauto.
      * by rewrite <- !app_assoc.
      * rewrite !zlen_app. change (zlen [c]) with 1. lia.
  - case_bool_decide as Hlc.
    + destruct l1 as [|a l1' _] using rev_ind; [done|]. rewrite last_snoc in Hlc. injection Hlc as ->.
      rewrite zlen_app in *. change (zlen [c]) with 1 in *. replace (zlen l1' + 1 - 1) with (zlen l1') by lia.
      rewrite <- app_assoc in *. cbn [app] in *. rewrite zget_middle. cbn [mbind option_bind].
      rewrite zset_middle. cbn [mbind option_bind]. eexists. split; [done|].
      destruct (splice_after (l1' ++ [c]) l2 c x Hc Hle Hx S1 S2 P1 P2 Hlast l1') as [Hw Hmm]; [lia|done|].
      rewrite <- app_assoc in Hmm. cbn [app] in Hmm.
      eapply (add_point_done s _ v c _ st); eauto.
      * rewrite <- !app_assoc. cbn [app]. eapply shape_set_list; [done|]. by rewrite !zlen_app, !zlen_cons.
      * cbn. rewrite zlen_app, !zlen_cons. lia.
    + destruct (insert_range_spec s v l1 c (x :: l2) st) as (s2 & status & -> & [(-> & rest & Hsh2 & El2)|(Hfl & Hfail & Hno)]); auto.
      { rewrite zlen_app, zlen_cons. lia. } { by apply wf_len_bound. }
      2:{ cbn [mbind option_bind]. rewrite Hfl. eexists. split; [done|]. by apply failed_outcome. }
      cbn [mbind option_bind U_FAILURE]. eexists. split; [done|].
      destruct (splice_between l1 l2 c x Hc Hle Hx S1 S2 P1 P2 Hlast) as [Hw Hmm]; [lia|done|].
      eapply (add_point_done s s2 v c _ rest); eauto.
Qed.

Lemma add_range_spec s start end_ :
  live s -> let lo := pinCodePoint start in let hi := pinCodePoint end_ in
  exists s', add_range s start end_ = Some s' /\
    outcome s' (fun c => has s c || inside lo hi c) (strs s).
Proof.
  intros Hl lo hi. unfold add_range. fold lo hi.
  pose proof (pinCodePoint_range start). pose proof (pinCodePoint_range end_).
  destruct (Z.ltb_spec lo hi).
  - destruct (range3_list lo hi) as (o & st & -> & Ho & Hlen & Hm); [lia|lia|].
    destruct (add_op_spec s o st 2 Hl Ho Hlen) as (s' & -> & Hs & _).
    eexists. split; [done|]. eapply outcome_ext; [|exact Hs]. intros c Hc. cbn. rewrite Hm by lia. done.
  - destruct (Z.eqb_spec lo hi) as [E|].
    + destruct (add_cp_spec s lo Hl) as (s' & -> & Hs). eexists. split; [done|].
      eapply outcome_ext; [|exact Hs]. intros c Hc. cbn. f_equal.
      assert (pinCodePoint lo = lo) as ->.
      { unfold pinCodePoint, UNICODESET_LOW. zcases; unfold UNICODESET_HIGH in *; lia. }
      unfold inside. zcases.
    + eexists. split; [done|]. eapply outcome_ext; [|by apply outcome_same].
      intros c Hc. unfold inside. zcases; by rewrite orb_false_r.
Qed.

(** ** Strings of the set *)

Definition good (e : UVector.UElement ustr) : Prop := exists str, e = UVector.Ptr (Some str) /\ multi str.

Lemma str_le_trans a b c : good a -> good b -> good c -> str_le a b -> str_le b c -> str_le a c.
Proof.
  intros (x & -> & Hx) (y & -> & Hy) (z & -> & Hz). unfold str_le. rewrite !compare_multi by done. apply lex_trans.
Qed.

Lemma str_le_total a b : good a -> good b -> 0 < compareUnicodeString a b -> str_le b a.
Proof.
  intros (x & -> & Hx) (y & -> & Hy). unfold str_le. rewrite !compare_multi by done.
  rewrite (lex_antisym (UnicodeString.units x)). lia.
Qed.

Lemma sortedInsert_strings v str ec :
  strings_wf v -> multi str -> UVector.Ptr (Some str) ∉ UVector.contents v ->
  exists v' ec', UVector.sortedInsert v (UVector.Ptr (Some str)) compareUnicodeString ec = Some (v', ec') /\
    strings_wf v' /\
    ((ec' = ec /\ forall e, e ∈ UVector.contents v' <-> e ∈ UVector.contents v \/ e = UVector.Ptr (Some str)) \/
     (U_FAILURE ec' = true /\ (refused \/ 2 ^ 27 <= UVector.count v))).
Proof.
  intros Hv Hm Hnew. set (e := UVector.Ptr (Some str)).
  destruct (UVector.sortedInsert_spec compareUnicodeString good str_le_trans str_le_total v e ec)
    as (v' & ec' & -> & Hwf' & [Hd Hc] & _ & Hr).
  { apply Hv. } { exists str. auto. } { apply Hv. } { apply Hv. }
  exists v', ec'. split; [done|]. destruct Hr as [(-> & Hs & l1 & l2 & E & E' & _)|(-> & ? & ?)].
  2:{ split; [done|]. right. auto. }
  split.
  - split; auto.
    + rewrite Hd. apply Hv.
    + rewrite Hc. apply Hv.
    + rewrite E'. pose proof (sw_multi v Hv) as Hg. rewrite E in Hg. apply Forall_app in Hg as [? ?].
      apply Forall_app. split; [done|]. constructor; [|done]. exists str. auto.
    + rewrite E'. rewrite NoDup_app. pose proof (sw_nodup v Hv) as Hn. rewrite E, NoDup_app in Hn.
      rewrite E in Hnew. destruct Hn as (? & H12 & ?). rewrite NoDup_cons. split_and!; auto; [|set_solver].
      intros y Hy. rewrite elem_of_cons. intros [->|?]; [set_solver|]. by eapply H12.
  - left. split; [done|]. intros e'. rewrite E, E'. set_solver.
Qed.

Lemma live_set_strings s v : live s -> strings_wf v -> live (set_strings s (Some v)).
Proof.
  intros (Hwf & Hf & Hb) Hv. pose proof Hf as [Hf1 Hf2]%not_frozen. split_and!; auto.
  destruct Hwf. split; cbn; auto. eauto.
Qed.

Lemma failed_set_strings s v :
  failed s -> strings_wf v -> UVector.contents v = [] -> failed (set_strings s (Some v)).
Proof.
  intros (Hwf & Hb & Hf & Hvals & _) Hv E. pose proof Hf as [Hf1 Hf2]%not_frozen. split_and!; auto.
  destruct Hwf. split; cbn; auto. eauto.
Qed.

(** The result of an operation on code points and strings: a live set with the code points
    [sem] and the strings [P], or an empty bogus set and the reason [why]. *)
Definition result s (sem : Z -> bool) (P : UVector.UElement ustr -> Prop) (why : Prop) : Prop :=
  live s /\ (forall c, 0 <= c < UNICODESET_HIGH -> has s c = sem c) /\ (forall e, e ∈ strs s <-> P e) \/
  failed s /\ why.

Lemma outcome_result s sem st : outcome s sem st -> result s sem (.∈ st) refused.
Proof. intros [(? & ? & <-)|[? ?]]; [left|right]; done. Qed.

Lemma result_mono s sem sem' P P' (why why' : Prop) :
  (forall c, 0 <= c < UNICODESET_HIGH -> sem c = sem' c) -> (forall e, P e <-> P' e) -> (why -> why') ->
  result s sem P why -> result s sem' P' why'.
Proof.
  intros Hs HPP Hw [(Hl & Hh & He)|[? ?]]; [left|right; auto]. split_and!; auto.
  - intros c Hc. by rewrite Hh, Hs.
  - intros e. by rewrite He.
Qed.

Lemma live_strings s : live s -> exists v, strings s = Some v /\ strings_wf v /\ strs s = UVector.contents v.
Proof.
  intros (Hwf & _). destruct (wf_strings s Hwf) as (v & E & Hv). exists v. unfold strs. by rewrite E.
Qed.

Lemma failed_strings s : failed s -> exists v, strings s = Some v /\ strings_wf v /\ UVector.contents v = [].
Proof.
  intros (Hwf & _ & _ & _ & Hs). destruct (wf_strings s Hwf) as (v & E & Hv). exists v. unfold strs in Hs. by rewrite E in Hs.
Qed.

Lemma count_strs s v : live s -> strings s = Some v -> UVector.count v = zlen (strs s).
Proof.
  intros Hl E. destruct (live_strings s Hl) as (v' & E' & Hv & ->). simplify_eq.
  by rewrite UVector.contents_zlen by apply Hv.
Qed.

(** [_add]: the string joins the others, in order. *)
Lemma _add_spec s str :
  live s -> multi str -> UVector.Ptr (Some str) ∉ strs s ->
  exists s', _add s str = Some s' /\
    result s' (has s) (fun e => e ∈ strs s \/ e = UVector.Ptr (Some str)) (refused \/ 2 ^ 27 <= zlen (strs s)).
Proof.
  intros Hl Hm Hnew. pose proof Hl as (Hwf & Hf & Hb). unfold _add. rewrite Hf, Hb. cbn [orb].
  destruct (live_strings s Hl) as (v & Ev & Hv & Es). unfold new_object.
  destruct (alloc_ok sizeof_UnicodeString) eqn:Ha.
  - rewrite Ev. cbn [mbind option_bind]. rewrite Es in Hnew |- *.
    destruct (sortedInsert_strings v str U_ZERO_ERROR Hv Hm Hnew) as (v' & ec & -> & Hv' & Hr).
    cbn [mbind option_bind]. destruct Hr as [[-> He]|[Hfl Hwhy]].
    + cbn [U_FAILURE]. eexists. split; [done|]. left. split_and!; auto. by apply live_set_strings.
    + rewrite Hfl. destruct (live_set_strings s v' Hl Hv') as (Hwf' & Hf' & _).
      destruct (live_setToBogus _ Hwf' Hf') as (s' & -> & Hfail). eexists. split; [done|]. right.
      split; [done|]. by rewrite UVector.contents_zlen by apply Hv.
  - destruct (live_setToBogus s Hwf Hf) as (s' & -> & Hfail). eexists. split; [done|]. right.
    split; [done|]. left. apply (object_refused sizeof_UnicodeString); [set_solver|done].
Qed.

Lemma _add_failed s str : failed s -> _add s str = Some s.
Proof. intros (_ & Hb & Hf & _). unfold _add. by rewrite Hb, orb_true_r. Qed.

(** The loop of [addAll] over the other set's strings. *)
Lemma addStrings_loop_spec n s sem P cv i bound (why : Prop) :
  strings_wf cv -> 0 <= i -> i + Z.of_nat n = UVector.count cv ->
  (refused \/ 2 ^ 27 <= bound -> why) ->
  result s sem (fun e => P e \/ e ∈ take (Z.to_nat i) (UVector.contents cv)) why ->
  (live s -> zlen (strs s) + Z.of_nat n <= bound) ->
  exists s', addStrings_loop n s cv i = Some s' /\
    result s' sem (fun e => P e \/ e ∈ UVector.contents cv) why.
Proof.
  intros Hcv Hi Hn Hwhy. pose proof (UVector.contents_zlen cv (sw_wf cv Hcv)) as Hz.
  revert s i Hi Hn. induction n as [|n IH]; intros s i Hi Hn Hs Hbd; cbn [addStrings_loop].
  { exists s. split; [done|]. rewrite take_ge in Hs by (unfold zlen in Hz; lia). done. }
  destruct (zget_is_Some (UVector.contents cv) i) as [e He]; [lia|].
  pose proof He as [_ Hel]%zget_Some_lookup.
  assert (good e) as (str & -> & Hm) by (by eapply (Forall_lookup_1 _ _ _ _ (sw_multi cv Hcv))).
  unfold UVector.elementAt. destruct (_ && _) eqn:Hb; [|lia].
  pose proof (sw_wf cv Hcv) as (cells & Ec & _). rewrite Ec. cbn [mbind option_bind].
  rewrite (UVector.wf_cells cv cells Ec (sw_wf cv Hcv)) by lia. rewrite He. cbn [mbind option_bind the_string].
  assert (Htake : forall e', e' ∈ take (Z.to_nat (i + 1)) (UVector.contents cv) <->
     e' ∈ take (Z.to_nat i) (UVector.contents cv) \/ e' = UVector.Ptr (Some str)).
  { intros e'. replace (Z.to_nat (i + 1)) with (S (Z.to_nat i)) by lia. rewrite (take_S_r _ _ _ Hel). set_solver. }
  destruct Hs as [(Hl & Hh & Hst)|[Hfail Hw]].
  - destruct (live_strings s Hl) as (v & Ev & Hv & Es). rewrite Ev. cbn [mbind option_bind].
    rewrite UVector.contains_spec by (apply Hv || by apply uhash_decides). cbn [mbind option_bind].
    rewrite <- Es. case_bool_decide as Hin.
    + cbn [mbind option_bind]. apply IH; auto; [lia|lia| |intros; specialize (Hbd Hl); lia].
      left. split_and!; auto. intros e'. rewrite Hst, Htake. split; [tauto|]. intros [?|[?| ->]]; auto. by apply Hst.
    + destruct (_add_spec s str Hl Hm Hin) as (s' & -> & Hr). cbn [mbind option_bind].
      specialize (Hbd Hl). apply IH; auto; [lia|lia| |].
      * eapply result_mono; [| | |exact Hr].
        -- intros c Hc. by apply Hh.
        -- intros e'. cbn. rewrite Hst, Htake. tauto.
        -- intros [?|?]; apply Hwhy; [by left|right; lia].
      * intros Hl'. destruct Hr as [(_ & _ & Hst')|[(_ & Hb' & _) _]]; [|exfalso; destruct Hl' as (_ & _ & ?); congruence].
        enough (zlen (strs s') <= zlen (strs s) + 1) by lia.
        destruct (live_strings s' Hl') as (v' & _ & Hv' & Es'). rewrite Es' in *.
        assert (UVector.contents v' ⊆+ UVector.Ptr (Some str) :: strs s) as Hsub.
        { apply NoDup_submseteq; [apply Hv'|]. intros x Hx%Hst'. set_solver. }
        apply submseteq_length in Hsub. unfold zlen. cbn in Hsub. lia.
  - destruct (failed_strings s Hfail) as (v & Ev & Hv & Ec'). rewrite Ev. cbn [mbind option_bind].
    rewrite UVector.contains_spec by (apply Hv || by apply uhash_decides). cbn [mbind option_bind].
    rewrite Ec', bool_decide_false by apply not_elem_of_nil. cbn [mbind option_bind].
    rewrite _add_failed by done. cbn [mbind option_bind]. apply IH; auto; [lia|lia|by right|].
    intros Hl. destruct Hl as (_ & _ & ?), Hfail as (_ & ? & _). congruence.
Qed.
End Facts.
End UnicodeSetFacts.
