(* ===== verification/UnicodeSetAlgebra.v ===== *)
(** * The algebra of whole sets

    [addAll], [retainAll], [removeAll], [complementAll] and [complement] as set operations on
    the code points and on the strings, the single-string operations, and the queries
    [contains], [containsAll], [containsNone] and [operator==] against them. *)

From S2P Require Import Prelude Vector Utf16 Utf8 UString InversionList BMPSet BMPSetUtf8 UnicodeSet UnicodeSetFacts.
Import InvList UnicodeSet UnicodeSetFacts.

Module UnicodeSetAlgebra.

Section Algebra.
Context {HP : Heap} {OS : ObjectSizes} {SP : StringSpan}.
Implicit Types s c : t.

Notation elt := (UVector.UElement ustr).

Lemma values_arg c :
  wf c -> exists cells st, list_ c = Some cells /\ cells = values c ++ st /\ zlen (values c) = len c.
Proof. intros Hwf. destruct (values_split c Hwf) as (cells & st & ? & ? & ? & _). eauto. Qed.

Lemma wf_strs c : wf c -> exists v, strings c = Some v /\ strings_wf v /\ strs c = UVector.contents v.
Proof. intros Hwf. destruct (wf_strings c Hwf) as (v & E & Hv). exists v. unfold strs. by rewrite E. Qed.

(** Filtering the strings of the result of a merge. *)
Lemma result_filter s v v' sem (Q : elt -> Prop) `{forall e, Decision (Q e)} st :
  outcome s sem st -> strings s = Some v -> UVector.wf v' -> UVector.same_policy v v' ->
  UVector.contents v' = filter Q (UVector.contents v) ->
  result (set_strings s (Some v')) sem (fun e => e ∈ st /\ Q e) refused.
Proof.
  intros [(Hl & Hh & <-)|[Hf Hn]] Ev Hwf' Hp Hc.
  - destruct (live_strings s Hl) as (v0 & E0 & Hv & Es). simplify_eq. rewrite Es. left. split_and!; auto.
    + apply live_set_strings; [done|]. by eapply strings_wf_filter.
    + intros e. unfold strs. cbn. rewrite Hc, list_elem_of_filter. tauto.
  - destruct (failed_strings s Hf) as (v0 & E0 & Hv & Es). simplify_eq. right. split; [|done].
    rewrite Es in Hc. apply failed_set_strings; auto.
    eapply (strings_wf_filter v v' Q); auto. by rewrite Es.
Qed.

Lemma outcome_strings s sem st : outcome s sem st -> exists v, strings s = Some v /\ strings_wf v.
Proof.
  intros [(Hl & _)|[Hf _]].
  - destruct (live_strings s Hl) as (v & ? & ? & _). eauto.
  - destruct (failed_strings s Hf) as (v & ? & ? & _). eauto.
Qed.

(** ** Union *)

(** C1: [addAll] makes the set the union of the two sets, code points and strings; only a
    refused allocation, or a strings vector at its largest size, gives an empty bogus set
    instead. *)
Theorem addAll_union s c :
  live s -> wf c ->
  exists s', addAll s c = Some s' /\
    result s' (fun x => has s x || has c x) (fun e => e ∈ strs s \/ e ∈ strs c)
      (refused \/ 2 ^ 27 <= zlen (strs s) + zlen (strs c)).
Proof.
  intros Hl Hc. destruct (values_arg c Hc) as (cells & st & E & Ec & Hz). unfold addAll. rewrite E.
  pose proof (wf_len c Hc). destruct (Z.ltb_spec 0 (len c)); [|lia]. rewrite Ec.
  destruct (add_op_spec s (values c) st (len c) Hl (wf_values c Hc)) as (s1 & -> & Ho & _);
    [split; [lia|by apply wf_len_bound]|].
  cbn [mbind option_bind]. destruct (wf_strs c Hc) as (cv & -> & Hcv & Ecv).
  pose proof (UVector.contents_zlen cv (sw_wf cv Hcv)) as Hcz.
  pose proof (sw_wf cv Hcv) as (_ & _ & _ & ? & _).
  set (bound := zlen (strs s) + zlen (strs c)).
  destruct (addStrings_loop_spec (Z.to_nat (UVector.count cv)) s1 (fun x => has s x || has c x)
    (.∈ strs s) cv 0 bound (refused \/ 2 ^ 27 <= bound)) as (s' & -> & Hr); auto; [lia|lia| | |].
  - eapply result_mono; [| | |apply outcome_result, Ho]; auto.
    intros e. change (Z.to_nat 0) with 0%nat. rewrite take_0. set_solver.
  - intros Hl1. destruct Ho as [(_ & _ & ->)|[(_ & Hb & _) _]].
    + unfold bound. rewrite Ecv. lia.
    + destruct Hl1 as (_ & _ & ?). congruence.
  - exists s'. split; [done|]. by rewrite Ecv.
Qed.

(** ** Intersection, difference *)

Lemma retainAll_result s c :
  live s -> wf c ->
  exists s', retainAll s c = Some s' /\
    result s' (fun x => has s x && has c x) (fun e => e ∈ strs s /\ e ∈ strs c) refused.
Proof.
  intros Hl Hc. pose proof Hl as (_ & Hf & Hb). unfold retainAll. rewrite Hf, Hb. cbn [orb].
  destruct (values_arg c Hc) as (cells & st & -> & -> & Hz). cbn [mbind option_bind].
  destruct (retain_op_spec s (values c) st (len c) false Hl (wf_values c Hc)) as (s1 & -> & Ho & _);
    [split; [lia|by apply wf_len_bound]|].
  cbn [mbind option_bind]. destruct (outcome_strings _ _ _ Ho) as (v & Ev & Hv). rewrite Ev.
  destruct (wf_strs c Hc) as (w & -> & Hw & Ew). cbn [mbind option_bind].
  destruct (UVector.retainAll_spec v w) as (v' & ch & -> & Hwf' & Hp & Hk & _); auto using uhash_decides, strings_objects, sw_wf.
  cbn [mbind option_bind]. eexists. split; [done|]. rewrite Ew.
  eapply result_mono; [| | |eapply (result_filter s1 v v' _ (.∈ UVector.contents w)); eauto]; auto.
Qed.

(** C3: [retainAll] makes the set the intersection of the two sets, code points and
    strings, unless an allocation is refused. *)
Theorem retainAll_intersection s c :
  live s -> wf c ->
  exists s', retainAll s c = Some s' /\
    result s' (fun x => has s x && has c x) (fun e => e ∈ strs s /\ e ∈ strs c) refused.
Proof. apply retainAll_result. Qed.

(** C5: [removeAll] removes exactly the code points and strings of the other set, unless
    an allocation is refused. *)
Theorem removeAll_difference s c :
  live s -> wf c ->
  exists s', removeAll s c = Some s' /\
    result s' (fun x => has s x && negb (has c x)) (fun e => e ∈ strs s /\ e ∉ strs c) refused.
Proof.
  intros Hl Hc. pose proof Hl as (_ & Hf & Hb). unfold removeAll. rewrite Hf, Hb. cbn [orb].
  destruct (values_arg c Hc) as (cells & st & -> & -> & Hz). cbn [mbind option_bind].
  destruct (retain_op_spec s (values c) st (len c) true Hl (wf_values c Hc)) as (s1 & -> & Ho & _);
    [split; [lia|by apply wf_len_bound]|].
  cbn [mbind option_bind]. destruct (outcome_strings _ _ _ Ho) as (v & Ev & Hv). rewrite Ev.
  destruct (wf_strs c Hc) as (w & -> & Hw & Ew). cbn [mbind option_bind].
  destruct (UVector.removeAll_spec v w) as (v' & ch & -> & Hwf' & Hp & Hk & _);
    auto using uhash_decides, strings_objects, sw_wf, sw_nodup.
  cbn [mbind option_bind]. eexists. split; [done|]. rewrite Ew.
  eapply result_mono; [| | |eapply (result_filter s1 v v' _ (.∉ UVector.contents w)); eauto]; auto.
Qed.

(** ** Symmetric difference *)

(** One string flipped: [removeElement], or [_add] when there was nothing to remove. *)
Definition flip_string s (str : ustr) : option t :=
  v ← strings s; '(v, removed) ← UVector.removeElement v (Some str);
  let s := set_strings s (Some v) in if (removed : bool) then Some s else _add s str.

Lemma flip_string_live s str sem (P : elt -> Prop) (why : Prop) :
  live s -> multi str -> (forall x, 0 <= x < UNICODESET_HIGH -> has s x = sem x) ->
  (forall e, e ∈ strs s <-> P e) -> (refused \/ 2 ^ 27 <= zlen (strs s) -> why) ->
  exists s', flip_string s str = Some s' /\
    result s' sem (fun e => (P e /\ e <> UVector.Ptr (Some str)) \/
                            (~ P e /\ e = UVector.Ptr (Some str))) why.
Proof.
  intros Hl Hm Hh HPe Hwhy. destruct (live_strings s Hl) as (v & Ev & Hv & Es). unfold flip_string. rewrite Ev.
  cbn [mbind option_bind].
  destruct (UVector.removeElement_spec v (Some str)) as (v' & -> & Hwf' & Hp & Hk & _);
    auto using uhash_decides, strings_objects, sw_wf, sw_nodup. cbn [mbind option_bind].
  assert (Hv' : strings_wf v') by (by eapply strings_wf_filter).
  pose proof (live_set_strings s v' Hl Hv') as Hl'.
  assert (Hs' : forall e, e ∈ strs (set_strings s (Some v')) <-> P e /\ e <> UVector.Ptr (Some str)).
  { intros e. unfold strs. cbn. rewrite Hk, list_elem_of_filter, <- Es, HPe. tauto. }
  rewrite <- Es. case_bool_decide as Hin; rewrite HPe in Hin.
  - eexists. split; [done|]. left. split_and!; auto. intros e. rewrite Hs'. naive_solver.
  - destruct (_add_spec (set_strings s (Some v')) str Hl' Hm) as (s' & -> & Hr).
    { rewrite Hs'. tauto. }
    eexists. split; [done|]. eapply result_mono; [| | |exact Hr]; auto.
    + intros e. cbn. rewrite Hs'. naive_solver.
    + intros [?|Hbig]; apply Hwhy; [by left|right]. unfold strs in Hbig. cbn in Hbig. rewrite Hk in Hbig.
      rewrite Es. unfold zlen in *. pose proof (length_filter (fun y => y <> UVector.Ptr (Some str)) (UVector.contents v)). lia.
Qed.

Lemma flip_string_failed s str :
  failed s -> exists s', flip_string s str = Some s' /\ failed s'.
Proof.
  intros Hfail. destruct (failed_strings s Hfail) as (v & Ev & Hv & Es). unfold flip_string. rewrite Ev.
  cbn [mbind option_bind].
  destruct (UVector.removeElement_spec v (Some str)) as (v' & -> & Hwf' & Hp & Hk & _);
    auto using uhash_decides, strings_objects, sw_wf, sw_nodup. cbn [mbind option_bind].
  assert (Hv' : strings_wf v') by (by eapply strings_wf_filter).
  rewrite Es in Hk |- *. assert (failed (set_strings s (Some v'))) as Hfail' by (by apply failed_set_strings).
  rewrite bool_decide_false by apply not_elem_of_nil. rewrite _add_failed by done. eauto.
Qed.

Lemma complementStrings_loop_flip n s cv i :
  complementStrings_loop (S n) s cv i =
    (e ← UVector.elementAt cv i; str ← the_string e; s ← flip_string s str;
     complementStrings_loop n s cv (i + 1)).
Proof.
  cbn [complementStrings_loop]. destruct (UVector.elementAt cv i) as [e|]; [|done]. cbn [mbind option_bind].
  destruct (the_string e) as [str|]; [|done]. cbn [mbind option_bind]. unfold flip_string.
  destruct (strings s) as [v|]; [|done]. cbn [mbind option_bind].
  destruct (UVector.removeElement v (Some str)) as [[v' []]|]; done.
Qed.

(** The [i]-th string of a vector of strings. *)
Lemma elementAt_string cv i :
  strings_wf cv -> 0 <= i < UVector.count cv ->
  exists str, UVector.contents cv !! Z.to_nat i = Some (UVector.Ptr (Some str)) /\ multi str /\
    UVector.elementAt cv i = Some (UVector.Ptr (Some str)).
Proof.
  intros Hcv Hi. pose proof (UVector.contents_zlen cv (sw_wf cv Hcv)) as Hz.
  destruct (zget_is_Some (UVector.contents cv) i) as [e He]; [lia|].
  pose proof He as [_ Hel]%zget_Some_lookup.
  assert (good e) as (str & -> & Hm) by (by eapply (Forall_lookup_1 _ _ _ _ (sw_multi cv Hcv))).
  exists str. split_and!; auto. unfold UVector.elementAt. destruct (_ && _) eqn:Hb; [|lia].
  pose proof (sw_wf cv Hcv) as (cells & Ec & _). rewrite Ec. cbn [mbind option_bind].
  by rewrite (UVector.wf_cells cv cells Ec (sw_wf cv Hcv)) by lia.
Qed.

Lemma complementStrings_loop_spec n s sem st cv i bound (why : Prop) :
  strings_wf cv -> 0 <= i -> i + Z.of_nat n = UVector.count cv ->
  (refused \/ 2 ^ 27 <= bound -> why) -> NoDup st -> zlen st + UVector.count cv <= bound ->
  let flipped l e := (e ∈ st /\ e ∉ l) \/ (e ∉ st /\ e ∈ l) in
  result s sem (flipped (take (Z.to_nat i) (UVector.contents cv))) why ->
  exists s', complementStrings_loop n s cv i = Some s' /\
    result s' sem (flipped (UVector.contents cv)) why.
Proof.
  intros Hcv Hi Hn Hwhy Hst Hbd. pose proof (UVector.contents_zlen cv (sw_wf cv Hcv)) as Hz.
  revert s i Hi Hn. induction n as [|n IH]; intros s i Hi Hn flipped Hs.
  { exists s. split; [done|]. rewrite take_ge in Hs by (unfold zlen in Hz; lia). done. }
  rewrite complementStrings_loop_flip.
  destruct (elementAt_string cv i Hcv) as (str & Hel & Hm & ->); [lia|]. cbn [mbind option_bind the_string].
  assert (Hnext : forall e, flipped (take (Z.to_nat (i + 1)) (UVector.contents cv)) e <->
    (flipped (take (Z.to_nat i) (UVector.contents cv)) e /\ e <> UVector.Ptr (Some str)) \/
    (~ flipped (take (Z.to_nat i) (UVector.contents cv)) e /\ e = UVector.Ptr (Some str))).
  { intros e. unfold flipped. replace (Z.to_nat (i + 1)) with (S (Z.to_nat i)) by lia.
    rewrite (take_S_r _ _ _ Hel), elem_of_app, list_elem_of_singleton.
    assert (Hnew : UVector.Ptr (Some str) ∉ take (Z.to_nat i) (UVector.contents cv)).
    { pose proof (sw_nodup cv Hcv) as Hnd. rewrite <- (take_drop_middle _ _ _ Hel), NoDup_app in Hnd.
      intros Hin. destruct Hnd as (_ & Hnd & _). by apply (Hnd _ Hin), list_elem_of_here. }
    destruct (decide (e = UVector.Ptr (Some str))) as [->|]; [|naive_solver].
    destruct (decide (UVector.Ptr (Some str) ∈ st)); naive_solver. }
  destruct Hs as [(Hl & Hh & Hst')|[Hfail Hw]].
  - destruct (flip_string_live s str sem _ why Hl Hm Hh Hst') as (s' & -> & Hr).
    { intros [?|?]; apply Hwhy; [by left|right].
      enough (zlen (strs s) <= zlen st + UVector.count cv) by lia.
      destruct (live_strings s Hl) as (v & _ & Hv & Es). rewrite Es in *.
      assert (UVector.contents v ⊆+ st ++ UVector.contents cv) as Hsub.
      { apply NoDup_submseteq; [apply Hv|]. intros x Hx%Hst'. rewrite elem_of_app.
        destruct Hx as [[? _]|[_ Hx]]; [by left|right]. by eapply subseteq_take. }
      apply submseteq_length in Hsub. rewrite length_app in Hsub. unfold zlen in *. lia. }
    cbn [mbind option_bind]. apply IH; [lia|lia|]. eapply result_mono; [| | |exact Hr]; auto.
    intros e. symmetry. apply Hnext.
  - destruct (flip_string_failed s str Hfail) as (s' & -> & Hf'). cbn [mbind option_bind].
    apply IH; [lia|lia|]. by right.
Qed.

(** C4: [complementAll] makes the set the symmetric difference of the two sets, code
    points and strings. *)
Theorem complementAll_symmetric_difference s c :
  live s -> wf c ->
  exists s', complementAll s c = Some s' /\
    result s' (fun x => xorb (has s x) (has c x))
      (fun e => (e ∈ strs s /\ e ∉ strs c) \/ (e ∉ strs s /\ e ∈ strs c))
      (refused \/ 2 ^ 27 <= zlen (strs s) + zlen (strs c)).
Proof.
  intros Hl Hc. pose proof Hl as (_ & Hf & Hb). unfold complementAll. rewrite Hf, Hb. cbn [orb].
  destruct (values_arg c Hc) as (cells & st & -> & -> & Hz). cbn [mbind option_bind].
  destruct (exclusiveOr_spec s (values c) st (len c) Hl (wf_values c Hc)) as (s1 & -> & Ho & _);
    [split; [lia|by apply wf_len_bound]|].
  cbn [mbind option_bind]. destruct (wf_strs c Hc) as (cv & -> & Hcv & Ecv). cbn [mbind option_bind].
  pose proof (UVector.contents_zlen cv (sw_wf cv Hcv)) as Hcz.
  pose proof (sw_wf cv Hcv) as (_ & _ & _ & ? & _). destruct (wf_strs s (proj1 Hl)) as (sv & _ & Hsv & Esv).
  rewrite Ecv. apply (complementStrings_loop_spec _ s1 _ (strs s) cv 0 (zlen (strs s) + zlen (UVector.contents cv)));
    auto; [lia|lia|rewrite Esv; apply Hsv|lia|].
  eapply result_mono; [| | |apply outcome_result, Ho]; auto.
  intros e. change (Z.to_nat 0) with 0%nat. rewrite take_0. set_solver.
Qed.

(** ** Complement *)

Lemma wf_list_uncons l a r :
  wf_list (a :: r) -> a = 0 -> l = r -> wf_list l /\ forall x, 0 <= x -> inv_mem l x = negb (inv_mem (a :: r) x).
Proof.
  intros (Hs & Hp & Hl) -> ->. apply StronglySorted_cons in Hs as [H0 Hs]. apply Forall_cons in Hp as [_ Hp].
  split.
  - split_and!; auto. destruct r; [|done]. by injection Hl as ?.
  - intros x Hx. rewrite inv_mem_cons_le by lia. by rewrite negb_involutive.
Qed.

Lemma wf_list_cons_0 l x0 :
  wf_list l -> zget l 0 = Some x0 -> x0 <> 0 ->
  wf_list (0 :: l) /\ forall x, 0 <= x -> inv_mem (0 :: l) x = negb (inv_mem l x).
Proof.
  intros (Hs & Hp & Hl) H0 Hne. destruct l as [|a r]; [done|]. injection H0 as ->.
  apply Forall_cons in Hp as [Ha Hp]. pose proof Hs as [Hlt Hs']%StronglySorted_cons. split.
  - split_and!; [|by repeat constructor|done]. constructor; [done|]. constructor; [lia|].
    eapply Forall_impl; [exact Hlt|]. intros; cbn in *; lia.
  - intros x Hx. by rewrite inv_mem_cons_le by lia.
Qed.

(** A copy of [l] at the start of the buffer, then the swap. *)
Lemma swapped s s1 buf' l sem :
  live s1 -> strings s1 = strings s -> zlen buf' = bufferCapacity s1 -> ztake (zlen l) buf' = l ->
  zlen l <= bufferCapacity s1 ->
  wf_list l -> (forall x, 0 <= x < UNICODESET_HIGH -> inv_mem l x = sem x) ->
  outcome (releasePattern (swapBuffers
    (set_list (set_buffer s1 (bufferCapacity s1) (Some buf')) (zlen l) (list_ s1)))) sem (strs s).
Proof.
  intros (Hwf & Hf & Hb) Es Hz Ht Hle Hl Hsem. left. split_and!.
  - split_and!; auto. apply not_frozen in Hf as [Hf1 Hf2]. pose proof (wf_list_zlen l Hl). split; cbn; auto.
    + eauto.
    + unfold values. cbn. by rewrite Ht.
    + intros b Eb. destruct (wf_cells s1 Hwf) as (cells & E & L). congruence.
    + apply Hwf.
    + rewrite Hf1. done.
    + rewrite Hf2. done.
    + apply Hwf.
  - intros c Hc. unfold has, values. simpl. rewrite Ht. by apply Hsem.
  - unfold strs. cbn. by rewrite Es.
Qed.

(** [complement] flips the membership of every code point and keeps the strings. *)
Theorem complement_negates s :
  live s -> exists s', complement s = Some s' /\ outcome s' (fun x => negb (has s x)) (strs s).
Proof.
  intros Hl. pose proof Hl as (Hwf & Hf & Hb). unfold complement. rewrite Hf, Hb. cbn [orb].
  destruct (values_split s Hwf) as (cells & st & E & Ec & Hz & _). rewrite E. cbn [mbind option_bind].
  pose proof (wf_values s Hwf) as Hv. pose proof (wf_list_zlen _ Hv). pose proof (wf_len_bound s Hwf). rewrite Ec.
  destruct (zget_is_Some (values s) 0) as [x0 Hx0]; [lia|]. rewrite zget_app_l, Hx0 by lia. cbn [mbind option_bind].
  unfold UNICODESET_LOW. destruct (Z.eqb_spec x0 0) as [->|Hne].
  - destruct (ensureBufferCapacity_spec s (len s - 1) U_ZERO_ERROR Hl) as (s1 & ec & -> & Hr); [unfold UNICODESET_HIGH in *; lia|].
    cbn [mbind option_bind]. destruct Hr as [(-> & Hl1 & El & Ell & Es & buf & Ebuf & Hroom)|(-> & Hfail & Hno)].
    2:{ cbn. exists s1. split; [done|]. right. done. }
    cbn [U_FAILURE]. rewrite Ebuf, El. cbn [mbind option_bind].
    destruct (values s) as [|a r] eqn:Evals; [done|]. injection Hx0 as ->.
    destruct (wf_list_uncons r 0 r) as [Hwr Hmr]; auto. rewrite zlen_cons in Hz.
    replace (len s - 1) with (zlen r) by lia. change (drop 1 ((0 :: r) ++ st)) with (r ++ st).
    rewrite ztake_app_exact.
    pose proof (wf_buffer s1 (proj1 Hl1) buf Ebuf) as Hbz. eexists. split; [done|].
    apply (swapped s s1 _ r); auto.
    + rewrite zlen_app, <- Hbz. unfold zlen. rewrite length_drop. unfold zlen in *. lia.
    + apply ztake_app_exact.
    + lia.
    + intros x Hx. unfold has. rewrite Evals. apply Hmr. lia.
  - destruct (ensureBufferCapacity_spec s (len s + 1) U_ZERO_ERROR Hl) as (s1 & ec & -> & Hr); [unfold UNICODESET_HIGH in *; lia|].
    cbn [mbind option_bind]. destruct Hr as [(-> & Hl1 & El & Ell & Es & buf & Ebuf & Hroom)|(-> & Hfail & Hno)].
    2:{ cbn. exists s1. split; [done|]. right. done. }
    cbn [U_FAILURE]. rewrite Ebuf, El. cbn [mbind option_bind].
    destruct (wf_list_cons_0 (values s) x0) as [Hw0 Hm0]; auto.
    rewrite <- Hz, ztake_app_exact. replace (zlen (values s) + 1) with (zlen (0 :: values s)) by apply zlen_cons.
    pose proof (wf_buffer s1 (proj1 Hl1) buf Ebuf) as Hbz. pose proof (zlen_cons 0 (values s)). eexists. split; [done|]. rewrite app_comm_cons.
    apply (swapped s s1 _ (0 :: values s)); auto.
    + rewrite zlen_app, <- Hbz. unfold zlen. rewrite length_drop. unfold zlen in *. cbn. lia.
    + apply ztake_app_exact.
    + rewrite zlen_cons. lia.
    + intros x Hx. unfold has. apply Hm0. lia.
Qed.

(** ** Queries *)

(** [contains(c)], whichever of the three lookups the set uses. *)
Lemma contains_has s x : wf s -> 0 <= x < UNICODESET_HIGH -> contains s x = Some (has s x).
Proof.
  intros Hwf Hx. unfold contains. destruct (bmpSet s) as [b|] eqn:Eb.
  { apply BMPSet.contains_represented; auto; [apply Hwf|by apply Hwf]. }
  destruct (stringSpan s) as [sp|] eqn:Es; [by apply (wf_span s Hwf)|].
  destruct (Z.leb_spec UNICODESET_HIGH x); [lia|].
  destruct (findCodePoint_has s x Hwf) as (i & -> & _ & ->); [lia|]. cbn [mbind option_bind].
  by rewrite odd_land.
Qed.

(** A range is all in the set when its first code point is and no value lies inside it. *)
Lemma range_uniform s a b i x :
  wf s -> splits_at (values s) a i -> zget (values s) i = Some x -> a <= b < UNICODESET_HIGH ->
  (b <? x = true -> forall y, a <= y <= b -> has s y = has s a) /\
  (b <? x = false -> x <= b /\ has s x = negb (has s a)).
Proof.
  intros Hwf Hs Hx Hb. pose proof (wf_values s Hwf) as Hv.
  destruct (splits_at_list (values s) a i Hv Hs) as (l1 & x' & l2 & E & Hz & Hle & Hlt & _ & Sx & _ & _ & _ & H12).
  assert (x' = x) as -> by (rewrite E, <- Hz, zget_middle in Hx; congruence).
  assert (Ha : forall y, a <= y -> inv_mem l1 y = inv_mem l1 a).
  { intros y Hy. rewrite !inv_mem_all_le; auto. eapply Forall_impl; [exact Hle|]. cbn. lia. }
  assert (Hx2 : forall y, y < x -> inv_mem (x :: l2) y = false).
  { intros y Hy. apply inv_mem_above. apply StronglySorted_cons in Sx as [Hall _].
    constructor; [lia|]. eapply Forall_impl; [exact Hall|]. cbn. lia. }
  unfold has. rewrite E, !inv_mem_app. rewrite (Hx2 a), xorb_false_r by lia. split; intros Hbx.
  - intros y Hy. rewrite inv_mem_app, Ha, Hx2, xorb_false_r by lia. done.
  - split; [lia|]. rewrite Ha, inv_mem_cons_le by lia. apply StronglySorted_cons in Sx as [Hall _].
    rewrite (inv_mem_above l2 x) by exact Hall. by destruct (inv_mem l1 a).
Qed.

Lemma zget_values s i : wf s -> i < len s -> exists cells, list_ s = Some cells /\ zget cells i = zget (values s) i.
Proof.
  intros Hwf Hi. destruct (values_split s Hwf) as (cells & st & E & Ec & Hz & _). exists cells.
  split; [done|]. rewrite Ec. apply zget_app_l. lia.
Qed.

(** The test of a range that [containsAll] and [containsNone] use: [want] decides which. *)
Definition range_all s (want : bool) (a b : Z) : Prop := forall y, a <= y <= b -> has s y = want.

Lemma range_test s (want : bool) a b :
  wf s -> 0 <= a <= b -> b < UNICODESET_HIGH ->
  exists r : bool, (if want then contains_range s a b else containsNone_range s a b) = Some r /\
    (r = true <-> range_all s want a b).
Proof.
  intros Hwf Ha Hb. destruct (findCodePoint_has s a Hwf) as (i & Ei & Hsp & Hodd); [lia|].
  pose proof (values_split s Hwf) as (_ & _ & _ & _ & Hz & _). pose proof Hsp as (Hi & _).
  destruct (zget_is_Some (values s) i Hi) as [x Hx].
  destruct (zget_values s i Hwf) as (cells & El & Eg); [lia|].
  destruct (range_uniform s a b i x Hwf Hsp Hx) as [Hin Hout]; [lia|].
  assert (Hbit : (Z.land i 1 =? 0) = negb (has s a)) by (rewrite Hodd, <- odd_land, negb_involutive; done).
  exists (Bool.eqb (has s a) want && (b <? x)). split.
  - unfold contains_range, containsNone_range. rewrite Ei, El. cbn [mbind option_bind]. rewrite Eg, Hx, Hbit.
    cbn [mbind option_bind]. by destruct want, (has s a).
  - rewrite andb_true_iff, eqb_true_iff. split.
    + intros [<- Hbx] y Hy. by apply Hin.
    + intros Hall. split; [apply Hall; lia|]. destruct (b <? x) eqn:Hbx; [done|].
      destruct (Hout eq_refl) as [Hxb Hn]. destruct Hsp as (_ & _ & Hgt). specialize (Hgt x Hx).
      rewrite !Hall in Hn by lia. by destruct want.
Qed.

(** *** The ranges of a set *)

(** Range [i] of the set: from value [2i] up to just below value [2i+1]. *)
Lemma range_bounds c i :
  wf c -> 0 <= i < getRangeCount c ->
  exists b e, getRangeStart c i = Some b /\ getRangeEnd c i = Some e /\ 0 <= b <= e /\ e < UNICODESET_HIGH /\
    (forall y, b <= y <= e -> has c y = true) /\
    zget (values c) (2 * i) = Some b /\ zget (values c) (2 * i + 1) = Some (e + 1).
Proof.
  intros Hwf Hi. pose proof (values_split c Hwf) as (_ & _ & _ & _ & Hz & _). pose proof (wf_len c Hwf).
  assert (2 * i + 1 < len c).
  { unfold getRangeCount in Hi. rewrite Z.quot_div_nonneg in Hi by lia. dlia. }
  destruct (zget_is_Some (values c) (2 * i)) as [b Eb]; [lia|].
  destruct (zget_is_Some (values c) (2 * i + 1)) as [l El]; [lia|].
  pose proof (wf_values c Hwf) as (Hs & Hp & Hl).
  destruct (zget_values c (2 * i) Hwf) as (cells & Ec & E1); [lia|].
  destruct (zget_values c (2 * i + 1) Hwf) as (cells' & Ec' & E2); [lia|]. simplify_eq.
  exists b, (l - 1). unfold getRangeStart, getRangeEnd. rewrite Ec. cbn [mbind option_bind].
  replace (i * 2) with (2 * i) by lia. rewrite E1, E2, El. cbn [mbind option_bind].
  assert (b < l) by (by eapply (sorted_zget (values c) (2 * i) (2 * i + 1)); eauto; lia).
  assert (0 <= b) by (apply (proj1 (Forall_forall _ _) Hp); by eapply UVector.zget_elem_of).
  assert (l <= UNICODESET_HIGH).
  { pose proof (wf_list_last _ (wf_values c Hwf)) as Hlast. destruct (decide (2 * i + 1 = zlen (values c) - 1)) as [Eq|].
    - rewrite <- Eq in Hlast. rewrite Hlast in El. injection El as ->. lia.
    - apply Z.lt_le_incl. eapply (sorted_zget (values c) (2 * i + 1) (zlen (values c) - 1)); eauto; lia. }
  split_and!; auto; try lia; [| by replace (l - 1 + 1) with l by lia].
  intros y Hy. unfold has. rewrite (splits_at_odd (values c) y (2 * i + 1)); [|done|].
  - by rewrite Z.odd_add, Z.odd_mul.
  - split_and!; [lia|lia| |].
    + intros j x Hj Hx. destruct (decide (j = 2 * i)) as [->|]; [simplify_eq; lia|].
      enough (x < b) by lia. eapply (sorted_zget (values c) j (2 * i)); eauto; lia.
    + intros x Hx. simplify_eq. lia.
Qed.

(** Every code point of the set is in one of its ranges. *)
Lemma range_of c y :
  wf c -> 0 <= y < UNICODESET_HIGH -> has c y = true ->
  exists i b e, 0 <= i < getRangeCount c /\ getRangeStart c i = Some b /\ getRangeEnd c i = Some e /\ b <= y <= e.
Proof.
  intros Hwf Hy Hin. destruct (findCodePoint_has c y Hwf) as (k & _ & (Hk & Hle & Hgt) & Hodd); [lia|].
  rewrite Hin in Hodd. symmetry in Hodd. apply Z.odd_spec in Hodd as [i ->].
  pose proof (values_split c Hwf) as (_ & _ & _ & _ & Hz & _).
  assert (Hi : 0 <= i < getRangeCount c).
  { unfold getRangeCount. rewrite Z.quot_div_nonneg by lia. dlia. }
  destruct (range_bounds c i Hwf Hi) as (b & e & Eb & Ee & _ & _ & _ & G1 & G2).
  exists i, b, e. split_and!; auto; try lia.
  - apply (Hle (2 * i)); [lia|done].
  - specialize (Hgt _ G2). lia.
Qed.

Lemma ranges_loop_spec s c (want : bool) n i :
  wf s -> wf c -> 0 <= i -> i + Z.of_nat n = getRangeCount c ->
  exists r : bool,
    ranges_loop (fun a b => if want then contains_range s a b else containsNone_range s a b) n c i = Some r /\
    (r = true <-> forall k b e, i <= k < getRangeCount c -> getRangeStart c k = Some b -> getRangeEnd c k = Some e ->
       range_all s want b e).
Proof.
  intros Hs Hc. revert i. induction n as [|n IH]; intros i Hi Hn; cbn [ranges_loop].
  { exists true. split; [done|]. split; [|done]. intros _ k b e Hk. lia. }
  destruct (range_bounds c i Hc) as (b & e & Eb & Ee & Hb & He & _); [lia|]. rewrite Eb, Ee. cbn [mbind option_bind].
  destruct (range_test s want b e Hs) as (r & -> & Hr); [lia|lia|]. cbn [mbind option_bind].
  destruct r.
  - destruct (IH (i + 1)) as (r & -> & Hr'); [lia|lia|]. exists r. split; [done|]. rewrite Hr'. split.
    + intros Hall k b' e' Hk Eb' Ee'. destruct (decide (k = i)) as [->|]; [|eapply (Hall k); eauto; lia].
      simplify_eq. by apply Hr.
    + intros Hall k b' e' Hk. apply Hall. lia.
  - exists false. split; [done|]. split; [done|]. intros Hall. exfalso.
    assert (false = true) by (apply Hr; eapply (Hall i); eauto; lia). done.
Qed.

Lemma getRangeCount_nonneg c : wf c -> 0 <= getRangeCount c.
Proof. intros Hwf. pose proof (wf_len c Hwf). unfold getRangeCount. rewrite Z.quot_div_nonneg by lia. dlia. Qed.

Lemma ranges_loop_all s c (want : bool) :
  wf s -> wf c ->
  exists r : bool,
    ranges_loop (fun a b => if want then contains_range s a b else containsNone_range s a b)
      (Z.to_nat (getRangeCount c)) c 0 = Some r /\
    (r = true <-> forall y, 0 <= y < UNICODESET_HIGH -> has c y = true -> has s y = want).
Proof.
  intros Hs Hc. pose proof (getRangeCount_nonneg c Hc).
  destruct (ranges_loop_spec s c want (Z.to_nat (getRangeCount c)) 0) as (r & -> & Hr); auto; [lia..|].
  exists r. split; [done|]. rewrite Hr. split.
  - intros Hall y Hy Hin. destruct (range_of c y Hc Hy Hin) as (i & b & e & Hi & Eb & Ee & ?).
    eapply (Hall i b e); eauto.
  - intros Hall k b e Hk Eb Ee y Hy. destruct (range_bounds c k Hc Hk) as (b' & e' & Eb' & Ee' & ? & ? & Hin & _).
    simplify_eq. apply Hall; [lia|]. by apply Hin.
Qed.

(** [containsAll] answers whether the other set is included in this one, [wf] sets of
    any kind, code points and strings. *)
Theorem containsAll_inclusion s c :
  wf s -> wf c ->
  exists r : bool, containsAll s c = Some r /\
    (r = true <-> (forall y, 0 <= y < UNICODESET_HIGH -> has c y = true -> has s y = true) /\
                  (forall e, e ∈ strs c -> e ∈ strs s)).
Proof.
  intros Hs Hc. unfold containsAll. destruct (ranges_loop_all s c true Hs Hc) as (r & E & Hr).
  change (ranges_loop (contains_range s) (Z.to_nat (getRangeCount c)) c 0 = Some r) in E. rewrite E.
  cbn [mbind option_bind]. destruct r.
  - destruct (wf_strs s Hs) as (v & -> & Hv & ->), (wf_strs c Hc) as (w & -> & Hw & ->). cbn [mbind option_bind].
    rewrite UVector.containsAll_spec by auto using uhash_decides, sw_wf. eexists. split; [done|].
    rewrite bool_decide_eq_true, Forall_forall. tauto.
  - exists false. split; [done|]. split; [done|]. tauto.
Qed.

(** [containsNone] answers whether the two sets are disjoint, code points and strings. *)
Theorem containsNone_disjoint s c :
  wf s -> wf c ->
  exists r : bool, containsNone s c = Some r /\
    (r = true <-> (forall y, 0 <= y < UNICODESET_HIGH -> has c y = true -> has s y = false) /\
                  (forall e, e ∈ strs c -> e ∉ strs s)).
Proof.
  intros Hs Hc. unfold containsNone. destruct (ranges_loop_all s c false Hs Hc) as (r & E & Hr).
  change (ranges_loop (containsNone_range s) (Z.to_nat (getRangeCount c)) c 0 = Some r) in E. rewrite E.
  cbn [mbind option_bind]. destruct r.
  - destruct (wf_strs s Hs) as (v & -> & Hv & ->), (wf_strs c Hc) as (w & -> & Hw & ->). cbn [mbind option_bind].
    rewrite UVector.containsNone_spec by auto using uhash_decides, sw_wf. eexists. split; [done|].
    rewrite bool_decide_eq_true, Forall_forall. tauto.
  - exists false. split; [done|]. split; [done|]. tauto.
Qed.

(** *** Equality *)

Lemma eq_loop_spec n i (a b : list Z) :
  0 <= i -> i + Z.of_nat n <= zlen a -> i + Z.of_nat n <= zlen b ->
  eq_loop n a b i = Some (bool_decide (take n (drop (Z.to_nat i) a) = take n (drop (Z.to_nat i) b))).
Proof.
  revert i. induction n as [|n IH]; intros i Hi Ha Hb; simpl; [done|].
  destruct (zget_is_Some a i) as [x Hx]; [lia|]. destruct (zget_is_Some b i) as [y Hy]; [lia|].
  rewrite Hx, Hy. simpl. apply zget_Some_lookup in Hx as [_ Hx], Hy as [_ Hy].
  rewrite (drop_S _ _ _ Hx), (drop_S _ _ _ Hy). cbn [take].
  replace (S (Z.to_nat i)) with (Z.to_nat (i + 1)) by lia.
  destruct (Z.eqb_spec x y) as [->|Hxy]; simpl.
  - rewrite IH by lia. f_equal. apply bool_decide_ext. split; [by intros ->|by intros [= ?]].
  - rewrite bool_decide_false; [done|]. by intros [= ? ?].
Qed.

Lemma operator_eq_lists s o :
  wf s -> wf o -> operator_eq s o = Some (bool_decide (values s = values o /\ strs s = strs o)).
Proof.
  intros Hs Ho. unfold operator_eq.
  pose proof (wf_len s Hs). pose proof (wf_len o Ho).
  destruct (wf_cells s Hs) as (a & Ea & La), (wf_cells o Ho) as (b & Eb & Lb).
  pose proof (values_split s Hs) as (_ & _ & _ & _ & Zs & _).
  pose proof (values_split o Ho) as (_ & _ & _ & _ & Zo & _).
  destruct (Z.eqb_spec (len s) (len o)) as [El|El]; cbn [negb].
  - rewrite Ea, Eb. cbn [mbind option_bind]. rewrite eq_loop_spec by lia. cbn [mbind option_bind].
    assert (values s = take (Z.to_nat (len s)) (drop (Z.to_nat 0) a)) as <- by (unfold values; by rewrite Ea).
    assert (values o = take (Z.to_nat (len s)) (drop (Z.to_nat 0) b)) as <- by (unfold values; by rewrite Eb, El).
    case_bool_decide as Hv.
    + destruct (wf_strs s Hs) as (v & -> & Hvs & ->), (wf_strs o Ho) as (w & -> & Hws & ->). cbn [mbind option_bind].
      rewrite UVector.operator_eq_spec by auto using uhash_decides, sw_wf. f_equal. apply bool_decide_ext. tauto.
    + rewrite bool_decide_false by tauto. done.
  - rewrite bool_decide_false; [done|]. intros [Ev _]. rewrite Ev in Zs. lia.
Qed.

Lemma str_le_antisym a b : good a -> good b -> str_le a b -> str_le b a -> a = b.
Proof.
  intros (x & -> & Hx) (y & -> & Hy). unfold str_le. rewrite !compare_multi by done.
  rewrite (lex_antisym (UnicodeString.units x)). intros H1 H2.
  assert (lex (UnicodeString.units x) (UnicodeString.units y) = 0) as E%lex_eq_0 by lia.
  destruct Hx as (u & -> & _), Hy as (w & -> & _). cbn in E. by subst.
Qed.

(** Sorted without duplicates, the list of strings is determined by its elements. *)
Lemma strs_canonical v w :
  strings_wf v -> strings_wf w -> (forall e, e ∈ UVector.contents v <-> e ∈ UVector.contents w) ->
  UVector.contents v = UVector.contents w.
Proof.
  intros Hv Hw He. apply (StronglySorted_unique_strong str_le).
  - intros x y Hx Hy. apply str_le_antisym.
    + exact (proj1 (Forall_forall _ _) (sw_multi v Hv) x Hx).
    + exact (proj1 (Forall_forall _ _) (sw_multi w Hw) y Hy).
  - apply Hv.
  - apply Hw.
  - apply NoDup_Permutation; [apply Hv|apply Hw|done].
Qed.

(** [operator==] answers whether the two sets have the same code points and the same
    strings, whatever the capacities and histories of the two objects. *)
Theorem operator_eq_same_set s o :
  wf s -> wf o ->
  exists r : bool, operator_eq s o = Some r /\
    (r = true <-> (forall y, 0 <= y < UNICODESET_HIGH -> has s y = has o y) /\
                  (forall e, e ∈ strs s <-> e ∈ strs o)).
Proof.
  intros Hs Ho. rewrite operator_eq_lists by done. eexists. split; [done|]. rewrite bool_decide_eq_true. split.
  - intros [Ev ->]. split; [|done]. intros y _. unfold has. by rewrite Ev.
  - intros [Hh He]. split.
    + apply wf_list_ext; auto; apply wf_values; done.
    + destruct (wf_strs s Hs) as (v & _ & Hv & Es), (wf_strs o Ho) as (w & _ & Hw & Eo). rewrite Es, Eo in *.
      by apply strs_canonical.
Qed.

(** ** Strings as elements *)

(** The set as a set of strings: a string of one code point stands for that code point. *)
Definition elem s (u : list Z) : Prop :=
  match Utf16.code_points u with
  | [c] => has s c = true
  | _ => UVector.Ptr (Some (UnicodeString.Str u)) ∈ strs s
  end.

Definition text (u : list Z) : Prop := Forall Utf16.unit16 u /\ u <> [].

Lemma code_points_2 x y u : Utf16.is_pair x y = false \/ u <> [] ->
  forall c : Z, Utf16.code_points (x :: y :: u) <> [c].
Proof.
  intros Hor c. cbn. destruct (Utf16.is_pair x y).
  - destruct Hor as [?|Hu]; [done|]. destruct u as [|z u]; [done|].
    destruct (Utf16.code_points_first z u) as [r ->]. done.
  - destruct (Utf16.code_points_first y u) as [r Hr]. cbn in Hr. rewrite Hr. done.
Qed.

(** [getSingleCP] tells the strings of one code point from the others. *)
Lemma getSingleCP_spec u :
  text u ->
  (exists c : Z, Utf16.code_points u = [c] /\ 0 <= c < UNICODESET_HIGH /\ getSingleCP (UnicodeString.Str u) = Some c) \/
  (multi (UnicodeString.Str u) /\ (forall c : Z, Utf16.code_points u <> [c]) /\
   getSingleCP (UnicodeString.Str u) = Some (-1)).
Proof.
  intros [Hu Hne]. unfold getSingleCP, UnicodeString.length, UnicodeString.units, UNICODESET_HIGH.
  destruct u as [|x [|y [|z u]]]; [done|..].
  - apply Forall_cons in Hu as [Hx _]. unfold Utf16.unit16 in Hx. left. exists x. split_and!; auto; lia.
  - apply Forall_cons in Hu as [Hx Hy]. pose proof (proj1 (Forall_singleton _ _) Hy) as Hy1.
    pose proof (Utf16.U16_GET_boundary [] x [y]) as Hg. rewrite (Utf16.U16_NEXT_first [] x [y]) in Hg.
    cbn [app] in Hg. change (zlen (@nil Z)) with 0 in Hg.
    change (2 <? zlen [x; y]) with false. change (zlen [x; y] =? 1) with false. cbv iota.
    unfold UnicodeString.char32At, UnicodeString.length. cbn [UnicodeString.units].
    change (uint32 0 <? uint32 (zlen [x; y])) with true. cbv iota. rewrite Hg by (done || by constructor).
    destruct (Utf16.is_pair x y) eqn:Hp; cbn.
    + left. exists (Utf16.U16_GET_SUPPLEMENTARY x y). rewrite Hp.
      destruct (Utf16.encode_supplementary x y Hx Hy1 Hp) as [Hr _]. split_and!; auto; try lia.
      destruct (Z.ltb_spec 0xffff (Utf16.U16_GET_SUPPLEMENTARY x y)); [done|lia].
    + right. split_and!.
      * exists [x; y]. split_and!; auto. right. eauto.
      * apply (code_points_2 x y []). auto.
      * unfold Utf16.unit16 in Hx. destruct (Z.ltb_spec 0xffff x); [lia|done].
  - right. pose proof (zlen_nonneg u). split_and!.
    + exists (x :: y :: z :: u). split_and!; auto. left. rewrite !zlen_cons. lia.
    + apply (code_points_2 x y (z :: u)). auto.
    + rewrite !zlen_cons. destruct (Z.ltb_spec 2 (zlen u + 1 + 1 + 1)); [done|lia].
Qed.

Lemma code_points_inj u w :
  Forall Utf16.unit16 u -> Forall Utf16.unit16 w -> Utf16.code_points u = Utf16.code_points w -> u = w.
Proof. intros Hu Hw E. by rewrite <- (Utf16.encode_code_points u), <- (Utf16.encode_code_points w), E. Qed.

(** Reading a [result] as a set of strings. *)
Lemma result_elem s sem P why w :
  result s sem P why -> text w ->
  failed s /\ why \/
  live s /\ (elem s w <-> match Utf16.code_points w with
                          | [c] => sem c = true
                          | _ => P (UVector.Ptr (Some (UnicodeString.Str w))) end).
Proof.
  intros [(Hl & Hh & He)|?] [Hw Hne]; [right|by left]. split; [done|]. unfold elem.
  destruct (Utf16.code_points w) as [|c [|d l]] eqn:E; [apply He| |apply He].
  pose proof (Utf16.code_points_valid w Hw) as Hv. rewrite E in Hv. rewrite Forall_singleton in Hv.
  unfold Utf16.code_point in Hv. rewrite Hh; [done|]. unfold UNICODESET_HIGH. lia.
Qed.

(** The result of an operation that means to give the strings [Q] as elements. *)
Definition elements s (Q : list Z -> Prop) (why : Prop) : Prop :=
  live s /\ (forall w, text w -> elem s w <-> Q w) \/ failed s /\ why.

Lemma result_elements s sem P (why : Prop) (Q : list Z -> Prop) :
  result s sem P why ->
  (forall w, text w -> match Utf16.code_points w with
                       | [c] => sem c = true
                       | _ => P (UVector.Ptr (Some (UnicodeString.Str w))) end <-> Q w) ->
  elements s Q why.
Proof.
  intros Hr Hq. destruct Hr as [(Hl & Hh & He)|?]; [left|by right]. split; [done|].
  intros w Hw. rewrite <- (Hq w Hw). destruct (result_elem s sem P why w) as [[(_ & ? & _) _]|[_ ?]]; auto.
  - by left.
  - destruct Hl as (_ & _ & ?). congruence.
Qed.

Lemma code_point_pin u (c : Z) : Forall Utf16.unit16 u -> Utf16.code_points u = [c] -> pinCodePoint c = c.
Proof.
  intros Hu E. pose proof (Utf16.code_points_valid u Hu) as Hv. rewrite E in Hv. rewrite Forall_singleton in Hv.
  unfold Utf16.code_point in Hv. unfold pinCodePoint, UNICODESET_LOW, UNICODESET_HIGH. zcases.
Qed.

(** Whether two texts are equal, when one is a single code point. *)
Lemma single_eq u (c : Z) w :
  text u -> text w -> Utf16.code_points u = [c] ->
  w = u <-> match Utf16.code_points w with [d] => d = c | _ => False end.
Proof.
  intros [Hu _] [Hw _] E. split.
  - intros ->. by rewrite E.
  - destruct (Utf16.code_points w) as [|d [|]] eqn:Ew; try done. intros ->. apply code_points_inj; auto. congruence.
Qed.

Lemma outcome_single s s' u (c : Z) (f : bool -> bool -> bool) :
  text u -> Utf16.code_points u = [c] ->
  (forall b, f b false = b) ->
  outcome s' (fun d => f (has s d) (d =? c)) (strs s) ->
  elements s' (fun w => if decide (w = u) then f (has s c) true = true else elem s w) refused.
Proof.
  intros Hu Ec Hf Ho. eapply result_elements; [apply outcome_result, Ho|]. intros w Hw. unfold elem.
  pose proof (single_eq u c w Hu Hw Ec) as Heq. destruct (decide (w = u)) as [->|Hne].
  - rewrite Ec, Z.eqb_refl. done.
  - destruct (Utf16.code_points w) as [|d [|]]; try done. destruct (Z.eqb_spec d c) as [->|]; [tauto|].
    by rewrite Hf.
Qed.

Lemma live_releasePattern s sem P why : result s sem P why -> result (releasePattern s) sem P why.
Proof.
  intros [(Hl & Hh & He)|[(Hwf & Hf) Hw]]; [left|right].
  - split_and!; auto. by apply live_set_pat.
  - split; [|done]. split; [|done]. destruct Hwf. split; auto.
Qed.

(** A string of several code points is an element iff the strings vector has it. *)
Lemma elem_multi s u :
  (forall c : Z, Utf16.code_points u <> [c]) -> elem s u <-> UVector.Ptr (Some (UnicodeString.Str u)) ∈ strs s.
Proof. intros Hn. unfold elem. destruct (Utf16.code_points u) as [|d [|]] eqn:E; try done. by destruct (Hn d). Qed.

Lemma result_multi s s' u (P : elt -> Prop) why (f : Prop -> Prop) :
  (forall c : Z, Utf16.code_points u <> [c]) ->
  result s' (has s) P why ->
  (forall e, P e <-> if decide (e = UVector.Ptr (Some (UnicodeString.Str u))) then f (e ∈ strs s) else e ∈ strs s) ->
  elements s' (fun w => if decide (w = u) then f (UVector.Ptr (Some (UnicodeString.Str u)) ∈ strs s) else elem s w) why.
Proof.
  intros Hn Hr HPe. eapply result_elements; [exact Hr|]. intros w Hw. unfold elem. destruct (decide (w = u)) as [->|Hne].
  - specialize (HPe (UVector.Ptr (Some (UnicodeString.Str u)))). rewrite decide_True in HPe by done.
    destruct (Utf16.code_points u) as [|d [|]]; try done. by destruct (Hn d).
  - destruct (Utf16.code_points w) as [|d [|]]; rewrite ?HPe, ?decide_False by congruence; done.
Qed.

Lemma elements_mono s (Q Q' : list Z -> Prop) (why why' : Prop) :
  (forall w, text w -> Q w <-> Q' w) -> (why -> why') -> elements s Q why -> elements s Q' why'.
Proof.
  intros Hq Hw [[Hl He]|[? ?]]; [left|right; auto]. split; [done|]. intros w Ht. by rewrite He, Hq.
Qed.

Lemma text_length u : text u -> (UnicodeString.length (UnicodeString.Str u) =? 0) = false.
Proof.
  intros [_ Hne]. unfold UnicodeString.length. cbn. destruct u; [done|]. rewrite zlen_cons.
  pose proof (zlen_nonneg u). lia.
Qed.

(** [contains] of a string answers whether the string is an element, the strings of
    one code point standing for the code point, frozen or not. *)
Theorem contains_string_membership s u :
  wf s -> text u -> exists r : bool, contains_string s (UnicodeString.Str u) = Some r /\ (r = true <-> elem s u).
Proof.
  intros Hwf Hu. unfold contains_string. rewrite text_length by done.
  destruct (getSingleCP_spec u Hu) as [(c & Ec & Hc & ->)|(Hm & Hn & ->)]; cbn [mbind option_bind].
  - destruct (Z.ltb_spec c 0); [lia|]. rewrite contains_has by done. eexists. split; [done|].
    unfold elem. by rewrite Ec.
  - change (-1 <? 0) with true. cbv iota. destruct (wf_strs s Hwf) as (v & -> & Hv & Es). cbn [mbind option_bind].
    rewrite UVector.contains_spec by auto using uhash_decides, sw_wf. eexists. split; [done|].
    by rewrite bool_decide_eq_true, elem_multi, Es.
Qed.

(** Adding a string adds that element and no other. *)
Lemma add_string_adds s u :
  live s -> text u ->
  exists s', add_string s (UnicodeString.Str u) = Some s' /\
    elements s' (fun w => w = u \/ elem s w) (refused \/ 2 ^ 27 <= zlen (strs s)).
Proof.
  intros Hl Hu. pose proof Hl as (Hwf & Hf & Hb). unfold add_string. rewrite text_length, Hf, Hb by done. cbn [orb].
  destruct (getSingleCP_spec u Hu) as [(c & Ec & Hc & ->)|(Hm & Hn & ->)]; cbn [mbind option_bind].
  - destruct (Z.ltb_spec c 0); [lia|]. destruct (add_cp_spec s c Hl) as (s' & -> & Ho).
    rewrite (code_point_pin u) in Ho by (done || apply Hu). eexists. split; [done|].
    apply (outcome_single s s' u c orb) in Ho; auto using orb_false_r. eapply elements_mono; [| |exact Ho]; [|tauto].
    intros w Hw. cbn. rewrite orb_true_r. case_decide; naive_solver.
  - change (-1 <? 0) with true. cbv iota. destruct (live_strings s Hl) as (v & -> & Hv & Es). cbn [mbind option_bind].
    rewrite UVector.contains_spec by auto using uhash_decides, sw_wf. cbn [mbind option_bind]. rewrite <- Es.
    case_bool_decide as Hin.
    + eexists. split; [done|]. left. split; [done|]. intros w Hw. split; [auto|]. intros [->|?]; [|done].
      by apply elem_multi.
    + destruct (_add_spec s _ Hl Hm Hin) as (s' & -> & Hr). cbn [mbind option_bind]. eexists. split; [done|].
      apply live_releasePattern, (result_multi s _ u _ _ (fun _ => True)) in Hr; auto.
      * eapply elements_mono; [| |exact Hr]; [|tauto]. intros w Hw. cbn. destruct (decide (w = u)); naive_solver.
      * intros e. cbn. destruct (decide (e = _)); naive_solver.
Qed.

(** Removing or flipping a string that the strings vector holds. *)
Lemma removeElement_strings s u :
  live s -> exists v v', strings s = Some v /\
    UVector.removeElement v (Some (UnicodeString.Str u)) =
      Some (v', bool_decide (UVector.Ptr (Some (UnicodeString.Str u)) ∈ strs s)) /\
    result (set_strings s (Some v')) (has s)
      (fun e => e ∈ strs s /\ e <> UVector.Ptr (Some (UnicodeString.Str u))) refused.
Proof.
  intros Hl. destruct (live_strings s Hl) as (v & Ev & Hv & Es).
  destruct (UVector.removeElement_spec v (Some (UnicodeString.Str u))) as (v' & E & Hwf' & Hp & Hk & _);
    auto using uhash_decides, strings_objects, sw_wf, sw_nodup.
  exists v, v'. rewrite Es. split_and!; auto.
  eapply (result_filter s v v' (has s) (fun e => e <> UVector.Ptr (Some (UnicodeString.Str u)))); auto.
  left. split_and!; auto.
Qed.

(** Removing a string removes that element and no other. *)
Lemma remove_string_removes s u :
  live s -> text u ->
  exists s', remove_string s (UnicodeString.Str u) = Some s' /\
    elements s' (fun w => elem s w /\ w <> u) refused.
Proof.
  intros Hl Hu. pose proof Hl as (Hwf & Hf & Hb). unfold remove_string. rewrite text_length, Hf, Hb by done. cbn [orb].
  destruct (getSingleCP_spec u Hu) as [(c & Ec & Hc & ->)|(Hm & Hn & ->)]; cbn [mbind option_bind].
  - destruct (Z.ltb_spec c 0); [lia|]. destruct (remove_range_spec s c c Hl) as (s' & -> & Ho).
    rewrite (code_point_pin u) in Ho by (done || apply Hu). eexists. split; [done|].
    eapply outcome_ext in Ho; [apply (outcome_single s s' u c (fun a b => a && negb b)) in Ho|]; auto.
    + eapply elements_mono; [| |exact Ho]; [|tauto]. intros w Hw. cbn. rewrite andb_false_r. case_decide; naive_solver.
    + intros b. by rewrite andb_true_r.
    + intros d Hd. cbn. f_equal. f_equal. unfold inside. zcases.
  - change (-1 <? 0) with true. cbv iota. destruct (removeElement_strings s u Hl) as (v & v' & -> & E & Hr).
    cbn [mbind option_bind]. rewrite E. cbn [mbind option_bind]. eexists. split; [done|].
    apply live_releasePattern, (result_multi s _ u _ _ (fun _ => False)) in Hr; auto.
    + eapply elements_mono; [| |exact Hr]; [|tauto]. intros w Hw. cbn. destruct (decide (w = u)); naive_solver.
    + intros e. cbn. destruct (decide (e = _)); naive_solver.
Qed.

(** Complementing with a string flips that element and no other. *)
Lemma complement_string_flips s u :
  live s -> text u ->
  exists s', complement_string s (UnicodeString.Str u) = Some s' /\
    elements s' (fun w => if decide (w = u) then ~ elem s u else elem s w) (refused \/ 2 ^ 27 <= zlen (strs s)).
Proof.
  intros Hl Hu. pose proof Hl as (Hwf & Hf & Hb). unfold complement_string. rewrite text_length, Hf, Hb by done. cbn [orb].
  destruct (getSingleCP_spec u Hu) as [(c & Ec & Hc & ->)|(Hm & Hn & ->)]; cbn [mbind option_bind].
  - destruct (Z.ltb_spec c 0); [lia|]. destruct (complement_range_spec s c c Hl) as (s' & -> & Ho).
    rewrite (code_point_pin u) in Ho by (done || apply Hu). eexists. split; [done|].
    eapply outcome_ext in Ho; [apply (outcome_single s s' u c xorb) in Ho|]; auto using xorb_false_r.
    + eapply elements_mono; [| |exact Ho]; [|tauto]. intros w Hw. cbn. destruct (decide (w = u)); [|done]. unfold elem. rewrite Ec.
      by destruct (has s c).
    + intros d Hd. cbn. f_equal. unfold inside. zcases.
  - change (-1 <? 0) with true. cbv iota. destruct (removeElement_strings s u Hl) as (v & v' & Ev & E & Hr).
    rewrite Ev. cbn [mbind option_bind]. destruct (live_strings s Hl) as (v0 & Ev0 & Hv & Es). simplify_eq.
    rewrite UVector.contains_spec by auto using uhash_decides, sw_wf. cbn [mbind option_bind]. rewrite <- Es.
    case_bool_decide as Hin.
    + rewrite E. cbn [mbind option_bind]. eexists. split; [done|].
      apply live_releasePattern, (result_multi s _ u _ _ (fun _ => False)) in Hr; auto.
      * eapply elements_mono; [| |exact Hr]; [|tauto]. intros w Hw. cbn. destruct (decide (w = u)); [|done]. rewrite elem_multi by done. tauto.
      * intros e. cbn. destruct (decide (e = _)); naive_solver.
    + destruct (_add_spec s _ Hl Hm Hin) as (s' & -> & Hr'). cbn [mbind option_bind]. eexists. split; [done|].
      apply live_releasePattern, (result_multi s _ u _ _ (fun _ => True)) in Hr'; auto.
      * eapply elements_mono; [| |exact Hr']; [|tauto]. intros w Hw. cbn. destruct (decide (w = u)); [|done]. rewrite elem_multi by done. tauto.
      * intros e. cbn. destruct (decide (e = _)); naive_solver.
Qed.

(** adding a string of at least one unit adds that element and no other, removing it
    removes that element and no other, and complementing with it flips that element and no
    other; a string of one code point stands for the code point.  Each returns a well-formed
    set, empty and bogus only if an allocation is refused or the strings vector is full. *)
Theorem string_operations s u :
  live s -> text u ->
  (exists s', add_string s (UnicodeString.Str u) = Some s' /\
     elements s' (fun w => w = u \/ elem s w) (refused \/ 2 ^ 27 <= zlen (strs s))) /\
  (exists s', remove_string s (UnicodeString.Str u) = Some s' /\
     elements s' (fun w => elem s w /\ w <> u) refused) /\
  (exists s', complement_string s (UnicodeString.Str u) = Some s' /\
     elements s' (fun w => if decide (w = u) then ~ elem s u else elem s w)
       (refused \/ 2 ^ 27 <= zlen (strs s))).
Proof.
  intros. split_and!.
  - by apply add_string_adds.
  - by apply remove_string_removes.
  - by apply complement_string_flips.
Qed.

(** ** Ranges *)

(** for all integers [start] and [end_], pinned to code points [lo] and [hi]: [add] is the
    union with the range, [retain] the intersection, [remove] the difference and [complement]
    the symmetric difference.  The strings stay, except that [retain] of an empty range clears
    them.  Each returns a well-formed set, empty and bogus only if an allocation is refused. *)
Theorem range_operations s start end_ :
  live s ->
  let lo := pinCodePoint start in
  let hi := pinCodePoint end_ in
  (exists s', add_range s start end_ = Some s' /\ outcome s' (fun x => has s x || inside lo hi x) (strs s)) /\
  (exists s', retain_range s start end_ = Some s' /\
     outcome s' (fun x => has s x && inside lo hi x) (if lo <=? hi then strs s else [])) /\
  (exists s', remove_range s start end_ = Some s' /\
     outcome s' (fun x => has s x && negb (inside lo hi x)) (strs s)) /\
  (exists s', complement_range s start end_ = Some s' /\
     outcome s' (fun x => xorb (has s x) (inside lo hi x)) (strs s)).
Proof.
  intros Hl lo hi. split_and!.
  - by apply add_range_spec.
  - by apply retain_range_spec.
  - by apply remove_range_spec.
  - by apply complement_range_spec.
Qed.

(** [set] gives exactly the range, without strings, whatever the set held before and also
    when it was bogus. *)
Theorem set_range_recovers s start end_ :
  wf s -> isFrozen s = false ->
  exists s', UnicodeSet.set s start end_ = Some s' /\
    outcome s' (inside (pinCodePoint start) (pinCodePoint end_)) [].
Proof.
  intros Hwf Hf. unfold UnicodeSet.set. destruct (clear_live s Hwf Hf) as (s1 & -> & Hl1 & Hv1 & Hs1).
  cbn [mbind option_bind]. destruct (complement_range_spec s1 start end_ Hl1) as (s' & -> & Ho).
  exists s'. split; [done|]. rewrite Hs1 in Ho. eapply outcome_ext; [|exact Ho]. intros x Hx. cbn.
  unfold has. rewrite Hv1. simpl. destruct (Z.leb_spec UNICODESET_HIGH x); [lia|]. by rewrite xorb_false_l.
Qed.
End Algebra.

(** ** Concrete sets *)

(** A string span that answers for the code points of its set only. *)
#[export] Instance code_point_span : StringSpan := {|
  ss := list Z;
  ss_new := fun l _ _ => Some l;
  ss_copy := fun sp _ => Some sp;
  needsStringSpanUTF16 := fun _ => true;
  needsStringSpanUTF8 := fun _ => true;
  ss_contains := fun l c => Some (inv_mem l c);
  ss_span := fun l _ u cond =>
    Some (BMPSet.span_units (fun c => Bool.eqb (inv_mem l c) (negb (cond =? 0))) (Utf16.code_points u));
  ss_spanBack := fun l _ u cond =>
    Some (zlen u - BMPSet.span_units (fun c => Bool.eqb (inv_mem l c) (negb (cond =? 0))) (rev (Utf16.code_points u)));
  ss_spanUTF8 := fun l _ u cond =>
    Some (BMPSetUtf8.run8 (fun c => Bool.eqb (inv_mem l c) (negb (cond =? 0))) (Utf8.pieces u));
  ss_spanBackUTF8 := fun l _ u cond =>
    Some (zlen u - BMPSetUtf8.run8 (fun c => Bool.eqb (inv_mem l c) (negb (cond =? 0))) (rev (Utf8.pieces u)))
|}.

#[export] Instance sample_sizes : ObjectSizes.
Proof.
  refine {| sizeof_UVector := 40; sizeof_UnicodeString := 32; sizeof_BMPSet := 856; sizeof_StringSpan := 112;
    sizeof_UnicodeSet := 80 |}.
  abstract (repeat constructor; unfold INT32_MAX; lia).
Defined.

#[export] Existing Instance big_heap.

Definition sample_vector (l : list (list Z)) : uvec :=
  UVector.mk (zlen l) (zlen l) (Some (map (fun u => UVector.Ptr (Some (UnicodeString.Str u))) l))
    true (Some uhash_compareUnicodeString) [].

(** The set with the values [l] and the strings [ls]. *)
Definition sample_set {SP : StringSpan} (l : list Z) (ls : list (list Z)) : t :=
  mk (zlen l) (zlen l + 1) (Some (l ++ [0])) None 0 None (Some (sample_vector ls)) None None 0.

(** [a-z{ch}] and [A-z] *)
Definition letters : t := sample_set [0x61; 0x7b; UNICODESET_HIGH] [[0x63; 0x68]].
Definition ascii_block : t := sample_set [0x41; 0x7b; UNICODESET_HIGH] [].

Lemma sample_strings_wf ls :
  zlen ls <= 8 -> Forall (fun u => multi (UnicodeString.Str u)) ls ->
  StronglySorted str_le (UVector.contents (sample_vector ls)) -> NoDup ls -> strings_wf (sample_vector ls).
Proof.
  intros Hle Hm Hs Hn. pose proof (zlen_nonneg ls).
  assert (Hc : UVector.contents (sample_vector ls) = map (fun u => UVector.Ptr (Some (UnicodeString.Str u))) ls).
  { unfold UVector.contents. cbn. unfold ztake. apply take_ge. rewrite length_map. unfold zlen. lia. }
  split; auto.
  - apply UVector.wf_intro; [unfold zlen; by rewrite length_map|lia|].
    change (INT32_MAX / UVector.sizeof_UElement) with 268435455. lia.
  - rewrite Hc. apply Forall_map. eapply Forall_impl; [exact Hm|]. cbn. eauto.
  - rewrite Hc. apply NoDup_fmap_2_strong; [|done]. congruence.
Qed.

Lemma sample_live {SP : StringSpan} l ls :
  wf_list l -> strings_wf (sample_vector ls) -> live (sample_set l ls).
Proof.
  intros Hl Hs. pose proof (wf_list_zlen l Hl). split_and!; auto. split; cbn; try done.
  - eexists. split; [done|]. by rewrite zlen_app.
  - lia.
  - unfold values. cbn. by rewrite ztake_app_exact.
  - eauto.
  - by left.
Qed.

Lemma letters_live : live letters.
Proof.
  apply sample_live.
  - split_and!; [repeat constructor; unfold UNICODESET_HIGH; lia..|done].
  - apply sample_strings_wf; [done| | |apply NoDup_singleton].
    + repeat constructor. eexists. split_and!; [done|repeat constructor; unfold Utf16.unit16; lia|].
      right. eexists _, _. split; [done|]. done.
    + by repeat constructor.
Qed.

Lemma ascii_block_live : live ascii_block.
Proof.
  apply sample_live.
  - split_and!; [repeat constructor; unfold UNICODESET_HIGH; lia..|done].
  - apply sample_strings_wf; [done|constructor|constructor|constructor].
Qed.

Lemma addAll_union_witness :
  exists s', addAll ascii_block letters = Some s' /\
    result s' (fun x => has ascii_block x || has letters x) (fun e => e ∈ strs ascii_block \/ e ∈ strs letters)
      (refused \/ 2 ^ 27 <= zlen (strs ascii_block) + zlen (strs letters)).
Proof. apply addAll_union; [apply ascii_block_live|apply letters_live]. Defined.

Lemma retainAll_intersection_witness :
  exists s', retainAll letters ascii_block = Some s' /\
    result s' (fun x => has letters x && has ascii_block x) (fun e => e ∈ strs letters /\ e ∈ strs ascii_block) refused.
Proof. apply retainAll_intersection; [apply letters_live|apply ascii_block_live]. Defined.

Lemma removeAll_difference_witness :
  exists s', removeAll ascii_block letters = Some s' /\
    result s' (fun x => has ascii_block x && negb (has letters x))
      (fun e => e ∈ strs ascii_block /\ e ∉ strs letters) refused.
Proof. apply removeAll_difference; [apply ascii_block_live|apply letters_live]. Defined.

Lemma complementAll_symmetric_difference_witness :
  exists s', complementAll ascii_block letters = Some s' /\
    result s' (fun x => xorb (has ascii_block x) (has letters x))
      (fun e => (e ∈ strs ascii_block /\ e ∉ strs letters) \/ (e ∉ strs ascii_block /\ e ∈ strs letters))
      (refused \/ 2 ^ 27 <= zlen (strs ascii_block) + zlen (strs letters)).
Proof. apply complementAll_symmetric_difference; [apply ascii_block_live|apply letters_live]. Defined.

Lemma complement_negates_witness :
  exists s', complement letters = Some s' /\ outcome s' (fun x => negb (has letters x)) (strs letters).
Proof. apply complement_negates, letters_live. Defined.

Lemma containsAll_inclusion_witness :
  exists r : bool, containsAll ascii_block letters = Some r /\
    (r = true <-> (forall y, 0 <= y < UNICODESET_HIGH -> has letters y = true -> has ascii_block y = true) /\
                  (forall e, e ∈ strs letters -> e ∈ strs ascii_block)).
Proof. apply containsAll_inclusion; [apply ascii_block_live|apply letters_live]. Defined.

Lemma containsNone_disjoint_witness :
  exists r : bool, containsNone ascii_block letters = Some r /\
    (r = true <-> (forall y, 0 <= y < UNICODESET_HIGH -> has letters y = true -> has ascii_block y = false) /\
                  (forall e, e ∈ strs letters -> e ∉ strs ascii_block)).
Proof. apply containsNone_disjoint; [apply ascii_block_live|apply letters_live]. Defined.

Lemma operator_eq_same_set_witness :
  exists r : bool, operator_eq letters ascii_block = Some r /\
    (r = true <-> (forall y, 0 <= y < UNICODESET_HIGH -> has letters y = has ascii_block y) /\
                  (forall e, e ∈ strs letters <-> e ∈ strs ascii_block)).
Proof. apply operator_eq_same_set; [apply letters_live|apply ascii_block_live]. Defined.

Lemma text_sample : text [0x63; 0x68; 0x61].
Proof. split; [repeat constructor; unfold Utf16.unit16; lia|done]. Qed.

Lemma contains_string_membership_witness :
  exists r : bool, contains_string letters (UnicodeString.Str [0x63; 0x68; 0x61]) = Some r /\
    (r = true <-> elem letters [0x63; 0x68; 0x61]).
Proof. apply contains_string_membership; [apply letters_live|apply text_sample]. Defined.

Lemma string_operations_witness :
  let u := [0x63; 0x68; 0x61] in
  (exists s', add_string letters (UnicodeString.Str u) = Some s' /\
     elements s' (fun w => w = u \/ elem letters w) (refused \/ 2 ^ 27 <= zlen (strs letters))) /\
  (exists s', remove_string letters (UnicodeString.Str u) = Some s' /\
     elements s' (fun w => elem letters w /\ w <> u) refused) /\
  (exists s', complement_string letters (UnicodeString.Str u) = Some s' /\
     elements s' (fun w => if decide (w = u) then ~ elem letters u else elem letters w)
       (refused \/ 2 ^ 27 <= zlen (strs letters))).
Proof. intros u. apply string_operations; [apply letters_live|apply text_sample]. Defined.

Lemma range_operations_witness :
  let lo := pinCodePoint 0x70 in
  let hi := pinCodePoint 0x110005 in
  (exists s', add_range letters 0x70 0x110005 = Some s' /\
     outcome s' (fun x => has letters x || inside lo hi x) (strs letters)) /\
  (exists s', retain_range letters 0x70 0x110005 = Some s' /\
     outcome s' (fun x => has letters x && inside lo hi x) (if lo <=? hi then strs letters else [])) /\
  (exists s', remove_range letters 0x70 0x110005 = Some s' /\
     outcome s' (fun x => has letters x && negb (inside lo hi x)) (strs letters)) /\
  (exists s', complement_range letters 0x70 0x110005 = Some s' /\
     outcome s' (fun x => xorb (has letters x) (inside lo hi x)) (strs letters)).
Proof. apply range_operations, letters_live. Defined.

Lemma set_range_recovers_witness :
  exists s', UnicodeSet.set letters 0x30 0x39 = Some s' /\
    outcome s' (inside (pinCodePoint 0x30) (pinCodePoint 0x39)) [].
Proof. apply set_range_recovers; apply letters_live. Defined.
End UnicodeSetAlgebra.
