(* ===== verification/UnicodeSetFreeze.v ===== *)
(** * Freezing

    [freeze] trades the merge buffer for a lookup object and leaves the contents alone; from
    then on the methods that change a set return it as it is. *)

From S2P Require Import Prelude Vector Utf16 UString InversionList BMPSet UnicodeSet UnicodeSetFacts UnicodeSetAlgebra.
Import InvList UnicodeSet UnicodeSetFacts UnicodeSetAlgebra.

Module UnicodeSetFreeze.

(** The size of the meta data of all strings, eight bytes and at most four bytes of UTF-8 for
    each unit, fits an [int32_t]. *)
Definition meta_fits (v : uvec) : Prop :=
  8 * UVector.count v + 4 * foldr Z.add 0 (map zlen (texts v)) <= INT32_MAX.

Section Attach.
Context {HP : Heap} {OS : ObjectSizes} {SP : StringSpan}.
Implicit Types s c : t.

(** ** freeze *)

Definition frozen_as s s' : Prop :=
  wf s' /\ isFrozen s' = true /\ isBogus s' = false /\ values s' = values s /\ strs s' = strs s.

(** Shrinking an array keeps what fits. *)
Lemma realloc_shrink (cells temp : list Z) n :
  0 < n <= zlen cells -> uprv_realloc junk cells sizeof_UChar32 n = Some temp -> temp = ztake n cells.
Proof.
  intros Hn. unfold uprv_realloc, sizeof_UChar32, ztake. destruct (Z.eqb_spec (4 * n) 0); [lia|].
  destruct (alloc_ok _); [|done]. intros [= <-].
  replace (Z.to_nat n - length cells)%nat with 0%nat by (unfold zlen in Hn; lia). apply app_nil_r.
Qed.

Lemma wf_drop_buffer s : wf s -> wf (set_buffer s (bufferCapacity s) None).
Proof. intros []. split; auto. by intros b. Qed.

(** A set whose array is cut down to its length. *)
Lemma wf_trimmed s cells :
  wf s -> list_ s = Some cells -> wf (set_capacity s (len s) (Some (ztake (len s) cells))).
Proof.
  intros Hwf E. pose proof (wf_len s Hwf). destruct (wf_cells s Hwf) as (cells' & E' & L). simplify_eq.
  assert (Hv : values (set_capacity s (len s) (Some (ztake (len s) cells))) = values s).
  { unfold values. cbn. rewrite E. cbn. unfold ztake. rewrite take_take. f_equal. lia. }
  split; cbn; try apply Hwf.
  - eexists. split; [done|]. apply zlen_ztake. lia.
  - lia.
  - rewrite Hv. apply Hwf.
  - rewrite Hv. apply Hwf.
  - unfold has. rewrite Hv. apply Hwf.
Qed.

Lemma values_trimmed s cells :
  0 <= len s -> list_ s = Some cells -> values (set_capacity s (len s) (Some (ztake (len s) cells))) = values s.
Proof. intros Hl E. unfold values. cbn. rewrite E. cbn. unfold ztake. rewrite take_take. f_equal. lia. Qed.

(** The lookup object: the string span if one is needed, a BMPSet otherwise. *)
Definition attach s : option t :=
  v ← strings s; cells ← list_ s;
  sp ←
    (if negb (UVector.count v =? 0) then
       if new_object sizeof_StringSpan then
         sp ← ss_new (ztake (len s) cells) v which_ALL;
         Some (if needsStringSpanUTF16 sp then Some sp else None)
       else Some None
     else Some None);
  match sp with
  | Some sp => Some (set_lookup s (bmpSet s) (Some sp))
  | None =>
      if new_object sizeof_BMPSet
      then b ← BMPSet.new cells (len s); Some (set_lookup s (Some b) None)
      else setToBogus (set_lookup s None None)
  end.

(** What freezing needs of the string span constructor. *)
Definition spans_built s : Prop :=
  forall v, strings s = Some v -> UVector.count v <> 0 ->
    (exists sp, ss_new (values s) v which_ALL = Some sp /\
       forall x, 0 <= x < UNICODESET_HIGH -> ss_contains sp x = Some (has s x)) \/ refused.

(** Where the lookup object of a frozen set comes from. *)
Definition lookup_of s s' : Prop :=
  strings s' = strings s /\
  match stringSpan s' with
  | Some sp => bmpSet s' = None /\ exists v, strings s = Some v /\ ss_new (values s) v which_ALL = Some sp /\ needsStringSpanUTF16 sp = true
  | None => bmpSet s' <> None /\
      (strs s = [] \/ refused \/
       exists v sp, strings s = Some v /\ ss_new (values s) v which_ALL = Some sp /\ needsStringSpanUTF16 sp = false)
  end.

Lemma attach_spec s :
  live s -> spans_built s ->
  (exists s', attach s = Some s' /\ (frozen_as s s' /\ lookup_of s s' \/ failed s' /\ refused)) \/ strs s <> [] /\ refused.
Proof.
  intros (Hwf & Hf & Hb) Hlaw. pose proof Hf as [Hf1 Hf2]%not_frozen. unfold attach.
  destruct (values_split s Hwf) as (cells & st & E & Ec & Hz & _).
  destruct (wf_strings s Hwf) as (v & Ev & Hv). rewrite Ev, E. cbn [mbind option_bind].
  assert (Hvals : ztake (len s) cells = values s) by (unfold values; by rewrite E). rewrite Hvals.
  assert (Hsp : (exists o, (if negb (UVector.count v =? 0) then
       if new_object sizeof_StringSpan then
         sp ← ss_new (values s) v which_ALL; Some (if needsStringSpanUTF16 sp then Some sp else None)
       else Some None
     else Some None) = Some o /\
     match o with
     | Some sp => ss_new (values s) v which_ALL = Some sp /\ needsStringSpanUTF16 sp = true /\
         forall x, 0 <= x < UNICODESET_HIGH -> ss_contains sp x = Some (has s x)
     | None => strs s = [] \/ refused \/
         exists v sp, strings s = Some v /\ ss_new (values s) v which_ALL = Some sp /\ needsStringSpanUTF16 sp = false
     end) \/ strs s <> [] /\ refused).
  { assert (Hcount : UVector.count v = 0 <-> strs s = []).
    { unfold strs. rewrite Ev, <- (UVector.contents_zlen v (sw_wf v Hv)). split; [apply zlen_0_inv|by intros ->]. }
    destruct (Z.eqb_spec (UVector.count v) 0) as [Hz0|Hne]; [left; exists None; split; [done|]; left; by apply Hcount|]. cbn [negb].
    unfold new_object. destruct (alloc_ok sizeof_StringSpan) eqn:Ha.
    2:{ left. exists None. split; [done|]. right. left. apply (object_refused sizeof_StringSpan); [set_solver|done]. }
    destruct (Hlaw v Ev Hne) as [(sp & Es & Hc)|Hr]; [|right; split; [by rewrite <- Hcount|done]].
    left. rewrite Es. cbn [mbind option_bind]. eexists. split; [done|].
    destruct (needsStringSpanUTF16 sp) eqn:En; [done|]. right. right. by exists v, sp. }
  destruct Hsp as [(o & -> & Ho)|?]; [left|by right]. cbn [mbind option_bind]. destruct o as [sp|].
  - destruct Ho as (Es & En & Hc). eexists. split; [done|]. left. split; [split_and!; auto|].
    + split; cbn; try apply Hwf. by intros sp' [= <-].
    + unfold isFrozen. cbn. by destruct (bmpSet s).
    + split; cbn; [done|]. split; [done|]. by exists v.
  - unfold new_object. destruct (alloc_ok sizeof_BMPSet) eqn:Ha.
    + destruct (BMPSet.new_represents (values s) st (wf_values s Hwf)) as (b & Eb & Hr).
      rewrite Ec, <- Hz, Eb. cbn [mbind option_bind]. eexists. split; [done|]. left. split; [split_and!; auto|].
      * split; cbn; try apply Hwf; [|done]. by intros b' [= <-].
      * split; cbn; [done|]. split; [done|]. destruct Ho as [?|[?|(v' & sp & ? & ? & ?)]]; eauto 10.
    + assert (wf (set_lookup s None None)) as Hwf'.
      { split; cbn; try apply Hwf; done. }
      destruct (live_setToBogus (set_lookup s None None) Hwf') as (s' & -> & Hfail); [done|].
      eexists. split; [done|]. right. split; [done|]. apply (object_refused sizeof_BMPSet); [set_solver|done].
Qed.

Lemma freeze_result s :
  live s -> spans_built s ->
  (exists s', freeze s = Some s' /\ (frozen_as s s' /\ lookup_of s s' \/ isBogus s' = true /\ refused)) \/ strs s <> [] /\ refused.
Proof.
  intros Hl Hlaw. pose proof Hl as (Hwf & Hf & Hb). unfold freeze. rewrite Hf, Hb. cbn [orb].
  set (s0 := set_buffer s (bufferCapacity s) None).
  assert (Hl0 : live s0) by (split_and!; auto; by apply wf_drop_buffer).
  change (isBogus s0 = false) in Hb. pose proof (wf_len s Hwf). destruct (wf_cells s Hwf) as (cells & E & L).
  change (len s0) with (len s). change (capacity s0) with (capacity s). change (list_ s0) with (list_ s).
  rewrite E. destruct (Z.ltb_spec (len s + GROW_EXTRA) (capacity s)); cbn [mbind option_bind default].
  - destruct (Z.eqb_spec (len s) 0); [lia|]. rewrite Z.add_0_r.
    destruct (uprv_realloc _ _ _ _) as [temp|] eqn:Er.
    + apply realloc_shrink in Er as ->; [|cbn; unfold GROW_EXTRA in *; lia]. cbn [mbind option_bind].
      set (s1 := set_capacity s0 _ _).
      assert (Hl1 : live s1) by (split_and!; auto; apply (wf_trimmed s0 cells); auto; apply Hl0).
      assert (Hv1 : values s1 = values s) by (apply (values_trimmed s0 cells); [cbn; lia|done]).
      assert (Hlaw1 : spans_built s1) by (unfold spans_built, has; rewrite Hv1; exact Hlaw).
      destruct (attach_spec s1 Hl1 Hlaw1) as [(s' & Ha & Hr)|?]; [left|by right]. exists s'. split; [exact Ha|].
      destruct Hr as [[(Hw' & Hf' & Hb' & Hv' & Hs') Hlk]|[(_ & ? & _) ?]]; [left|right; auto]. split.
      * split_and!; auto. by rewrite Hv'.
      * unfold lookup_of in *. by rewrite Hv1 in Hlk.
    + unfold setToBogus, clear. cbn. pose proof Hf as [Hf1 Hf2]%not_frozen. unfold isFrozen. cbn. rewrite Hf1, Hf2.
      cbn. destruct (wf_strings s Hwf) as (v & Ev & Hv). rewrite Ev.
      destruct (removeAllElements_strings v Hv) as (v' & -> & _). cbn. left. eexists. split; [done|]. right.
      split; [done|]. eapply realloc_refused; [|exact Er]. pose proof (wf_len_bound s Hwf).
      unfold sizeof_UChar32, INT32_MAX, UNICODESET_HIGH in *. lia.
  - destruct (attach_spec s0 Hl0 Hlaw) as [(s' & Ha & Hr)|?]; [left|by right]. exists s'. split; [exact Ha|].
    destruct Hr as [?|[(_ & ? & _) ?]]; [by left|right; auto].
Qed.
End Attach.

(** What a UnicodeSet relies on from its string span, unless an allocation is refused: the
    lookup it forwards to. *)
Class StringSpanLaws `{Heap} `{SP : StringSpan} : Prop := {
  ss_new_contains : forall l v,
    wf_list l -> strings_wf v -> UVector.count v <> 0 -> meta_fits v ->
    (exists sp, ss_new l v which_ALL = Some sp /\
       forall c, 0 <= c < UNICODESET_HIGH -> ss_contains sp c = Some (inv_mem l c)) \/ refused
}.

Section Freeze.
Context {HP : Heap} {OS : ObjectSizes} {SP : StringSpan} {SL : StringSpanLaws}.
Implicit Types s c : t.

(** C21: freezing a set whose string meta data fit gives it a lookup object and changes neither
    its code points nor its strings; when an allocation is refused the set is bogus, or, if it is refused inside the
    lookup object for strings, nothing is promised. *)
Theorem freeze_preserves s :
  live s -> (forall v, strings s = Some v -> meta_fits v) ->
  (exists s', freeze s = Some s' /\ (frozen_as s s' \/ isBogus s' = true /\ refused)) \/ strs s <> [] /\ refused.
Proof.
  intros Hl Hfit. pose proof Hl as (Hwf & _). destruct (freeze_result s Hl) as [(s' & E & Hr)|?]; [|left|by right].
  - intros v Ev Hne. destruct (wf_strings s Hwf) as (v' & E & Hv). simplify_eq. apply ss_new_contains; auto. apply Hwf.
  - exists s'. split; [done|]. destruct Hr as [[? _]|?]; auto.
Qed.

(** ** The methods on a frozen set *)

Lemma frozen_merge s other n f : isFrozen s = true -> merge s other n f = Some s.
Proof. intros Hf. unfold merge. by rewrite Hf. Qed.

Lemma frozen_clear s : isFrozen s = true -> clear s = Some s.
Proof. intros Hf. unfold clear. by rewrite Hf. Qed.

Lemma frozen_add_cp s x : wf s -> isFrozen s = true -> add_cp s x = Some s.
Proof.
  intros Hwf Hf. unfold add_cp. pose proof (pinCodePoint_range x).
  destruct (findCodePoint_has s (pinCodePoint x) Hwf) as (i & -> & _); [lia|]. cbn [mbind option_bind].
  by rewrite Hf, orb_true_r.
Qed.

Lemma frozen_add_range s a b : wf s -> isFrozen s = true -> add_range s a b = Some s.
Proof.
  intros Hwf Hf. unfold add_range, add_op. rewrite frozen_merge, frozen_add_cp by done. by repeat case_match.
Qed.

Lemma frozen_strings_loop n s cv i :
  wf s -> isFrozen s = true -> strings_wf cv -> 0 <= i -> i + Z.of_nat n = UVector.count cv ->
  addStrings_loop n s cv i = Some s.
Proof.
  intros Hwf Hf Hcv. revert i. induction n as [|n IH]; intros i Hi Hn; cbn [addStrings_loop]; [done|].
  destruct (elementAt_string cv i Hcv) as (str & _ & _ & ->); [lia|]. cbn [mbind option_bind the_string].
  destruct (wf_strs s Hwf) as (v & -> & Hv & _). cbn [mbind option_bind].
  rewrite UVector.contains_spec by auto using uhash_decides, sw_wf. cbn [mbind option_bind].
  unfold _add. rewrite Hf. cbn [orb]. case_bool_decide; apply IH; lia.
Qed.

Lemma frozen_addAll s c : wf s -> isFrozen s = true -> wf c -> addAll s c = Some s.
Proof.
  intros Hwf Hf Hc. unfold addAll, add_op. destruct (list_ c); rewrite ?frozen_merge by done.
  all: destruct (wf_strs c Hc) as (cv & -> & Hcv & _); pose proof (sw_wf cv Hcv) as (_ & _ & _ & ? & _).
  all: try destruct (0 <? len c); cbn [mbind option_bind]; apply frozen_strings_loop; auto; lia.
Qed.

Lemma frozen_string_op s u (f : t -> ustr -> option t) :
  isFrozen s = true -> f = add_string \/ f = remove_string \/ f = complement_string -> f s u = Some s.
Proof.
  intros Hf [->|[->| ->]]; unfold add_string, remove_string, complement_string;
    by rewrite Hf, orb_true_r.
Qed.

(** a frozen set is left exactly as it is by every method that the class guards with
    [isFrozen]: clearing, the operations on code points, ranges, strings and whole sets,
    assignment, compaction and freezing again. *)
Theorem frozen_immutable s c a b x u :
  wf s -> isFrozen s = true -> wf c ->
  clear s = Some s /\ UnicodeSet.set s a b = Some s /\ add_cp s x = Some s /\ add_range s a b = Some s /\
  retain_range s a b = Some s /\ remove_range s a b = Some s /\ complement_range s a b = Some s /\
  complement s = Some s /\ add_string s u = Some s /\ remove_string s u = Some s /\
  complement_string s u = Some s /\ addAll s c = Some s /\ retainAll s c = Some s /\
  removeAll s c = Some s /\ complementAll s c = Some s /\ assign s c = Some s /\
  compact s = Some s /\ freeze s = Some s.
Proof.
  intros Hwf Hf Hc. pose proof (frozen_clear s Hf) as Hcl.
  assert (Hcr : complement_range s a b = Some s) by (unfold complement_range; by rewrite Hf).
  split_and!; auto using frozen_add_cp, frozen_add_range, frozen_addAll.
  - unfold UnicodeSet.set. by rewrite Hcl.
  - unfold retain_range, retain_op. rewrite frozen_merge, Hcl by done. by case_match.
  - unfold remove_range, retain_op. rewrite frozen_merge by done. by case_match.
  - unfold complement. by rewrite Hf.
  - apply (frozen_string_op s u add_string); auto.
  - apply (frozen_string_op s u remove_string); auto.
  - apply (frozen_string_op s u complement_string); auto.
  - unfold retainAll. by rewrite Hf.
  - unfold removeAll. by rewrite Hf.
  - unfold complementAll. by rewrite Hf.
  - unfold assign. by rewrite Hf.
  - unfold compact. by rewrite Hf.
  - unfold freeze. by rewrite Hf.
Qed.

(** [removeAllStrings] is not guarded: on any set, frozen or not, it empties the strings
    and keeps the lookup objects and the cached pattern that were made for them. *)
Theorem removeAllStrings_unguarded s :
  wf s -> exists s', removeAllStrings s = Some s' /\ strs s' = [] /\
    isFrozen s' = isFrozen s /\ bmpSet s' = bmpSet s /\ stringSpan s' = stringSpan s /\ pat s' = pat s.
Proof.
  intros Hwf. unfold removeAllStrings. destruct (wf_strs s Hwf) as (v & -> & Hv & _). cbn [mbind option_bind].
  destruct (removeAllElements_strings v Hv) as (v' & -> & _ & Ec). cbn [mbind option_bind].
  eexists. split; [done|]. split_and!; auto.
Qed.
End Freeze.

#[export] Instance code_point_span_laws : StringSpanLaws.
Proof. split. intros l v _ _ _ _. left. eauto. Qed.

Lemma freeze_preserves_witness :
  (exists s', freeze letters = Some s' /\ (frozen_as letters s' \/ isBogus s' = true /\ refused)) \/
  strs letters <> [] /\ refused.
Proof. apply freeze_preserves; [apply letters_live|]. intros v [= <-]. by vm_compute. Defined.

(** [letters] with a string span, as [freeze] leaves it. *)
Definition frozen_letters : t :=
  set_lookup letters None (Some [0x61; 0x7b; UNICODESET_HIGH]).

Lemma frozen_letters_wf : wf frozen_letters.
Proof.
  destruct letters_live as (Hwf & _). split; cbn; try apply Hwf.
  by intros sp [= <-] c Hc.
Qed.

Lemma frozen_immutable_witness :
  let s := frozen_letters in let c := ascii_block in
  clear s = Some s /\ UnicodeSet.set s 1 2 = Some s /\ add_cp s 3 = Some s /\ add_range s 1 2 = Some s /\
  retain_range s 1 2 = Some s /\ remove_range s 1 2 = Some s /\ complement_range s 1 2 = Some s /\
  complement s = Some s /\ add_string s UnicodeString.Bogus = Some s /\
  remove_string s UnicodeString.Bogus = Some s /\
  complement_string s UnicodeString.Bogus = Some s /\ addAll s c = Some s /\ retainAll s c = Some s /\
  removeAll s c = Some s /\ complementAll s c = Some s /\ assign s c = Some s /\
  compact s = Some s /\ freeze s = Some s.
Proof. apply frozen_immutable; [apply frozen_letters_wf|done|apply ascii_block_live]. Defined.

Lemma removeAllStrings_unguarded_witness :
  exists s', removeAllStrings frozen_letters = Some s' /\ strs s' = [] /\
    isFrozen s' = isFrozen frozen_letters /\ bmpSet s' = bmpSet frozen_letters /\
    stringSpan s' = stringSpan frozen_letters /\ pat s' = pat frozen_letters.
Proof. apply removeAllStrings_unguarded, frozen_letters_wf. Defined.
End UnicodeSetFreeze.
