(* ===== verification/UnicodeSetConstruct.v ===== *)
(** * Constructing sets

    The constructors of the empty set and of a range, with the allocations they make; what
    they leave behind when the strings vector cannot be allocated. *)

From S2P Require Import Prelude Vector Utf16 UString InversionList BMPSet UnicodeSet UnicodeSetFacts UnicodeSetAlgebra.
Import InvList UnicodeSet UnicodeSetFacts UnicodeSetAlgebra.

Module UnicodeSetConstruct.

Section Construct.
Context {HP : Heap} {OS : ObjectSizes} {SP : StringSpan}.
Implicit Types s : t.

Lemma malloc_zlen (n : Z) cells : 0 <= n -> uprv_malloc junk sizeof_UChar32 n = Some cells -> zlen cells = n.
Proof.
  intros Hn. unfold uprv_malloc, sizeof_UChar32. destruct (Z.ltb_spec 0 (4 * n)).
  - destruct (alloc_ok _); [|done]. intros [= <-]. unfold zlen. rewrite length_replicate. lia.
  - intros [= <-]. change (zlen (@nil Z)) with 0. lia.
Qed.

(** The strings vector of a new set: empty, owning, compared by string equality. *)
Lemma allocateStrings_spec s :
  exists s' ec ok, allocateStrings s U_ZERO_ERROR = (s', ec, ok) /\
    ((ec = U_ZERO_ERROR /\ exists v, s' = set_strings s (Some v) /\ strings_wf v /\ UVector.contents v = [] /\ UVector.capacity v <= 8) \/
     (U_FAILURE ec = true /\ s' = set_strings s None /\ refused)).
Proof.
  unfold allocateStrings. cbn [U_FAILURE]. unfold new_object. destruct (alloc_ok sizeof_UVector) eqn:Ha.
  2:{ eexists _, _, _. split; [done|]. right. split_and!; auto. apply (object_refused sizeof_UVector); [set_solver|done]. }
  unfold UVector.new, UVector._init. cbn [U_FAILURE]. cbn.
  change (INT32_MAX / UVector.sizeof_UElement <? 1) with false. cbn [orb].
  unfold uprv_malloc, UVector.sizeof_UElement. change (0 <? 8 * 1) with true. cbv iota.
  destruct (alloc_ok (8 * 1)) eqn:Hb; cbn.
  - eexists _, _, _. split; [done|]. left. split; [done|]. eexists. split; [done|].
    split; [|cbn; split; [done|lia]]. split; try done; try constructor.
    exists [UVector.Int junk]. split_and!; done.
  - eexists _, _, _. split; [done|]. right. split_and!; auto. by exists 8.
Qed.

(** The members of a new set once its list and its strings are allocated. *)
Lemma new_members l cap cells v n :
  strings_wf v -> zlen cells = cap -> 0 < n <= cap -> wf_list (ztake n cells) ->
  live (set_list (set_capacity (set_strings (initial l cap) (Some v)) cap (Some cells)) n (Some cells)).
Proof.
  intros Hv Hz Hn Hl. split_and!; auto. split; cbn; try done; eauto.
Qed.

(** The empty set's constructor: an empty live set; or bogus, for want of the list; or, for
    want of the strings vector, a set without arrays that is not marked as bogus. *)
Lemma new_set_spec :
  exists s, new_set = Some s /\
    ((live s /\ values s = [UNICODESET_HIGH] /\ strs s = []) \/
     (refused /\ list_ s = None /\ (isBogus s = true \/ strings s = None))).
Proof.
  unfold new_set. destruct (allocateStrings_spec (initial 1 (1 + START_EXTRA))) as (s & ec & ok & -> & Hr).
  destruct Hr as [(-> & v & -> & Hv & Ec & _)|(Hf & -> & Hno)].
  2:{ rewrite Hf. eexists. split; [done|]. right. auto. }
  cbn [U_FAILURE capacity set_strings initial]. destruct (uprv_malloc _ _ _) as [cells|] eqn:Em.
  - apply malloc_zlen in Em; [|unfold START_EXTRA; lia]. rewrite zset_in by (unfold START_EXTRA in *; lia).
    cbn [mbind option_bind]. eexists. split; [done|]. left.
    assert (Hvals : ztake 1 (<[Z.to_nat 0:=UNICODESET_HIGH]> cells) = [UNICODESET_HIGH]).
    { change 1 with (0 + 1) at 1. rewrite ztake_snoc by (unfold START_EXTRA in *; lia). done. }
    split_and!.
    + apply (new_members 1 (1 + START_EXTRA) _ v 1); auto.
      * unfold zlen in *. by rewrite length_insert.
      * unfold START_EXTRA. lia.
      * rewrite Hvals. apply values_HIGH.
    + unfold values. exact Hvals.
    + unfold strs. exact Ec.
  - unfold setToBogus, clear. cbn. destruct (removeAllElements_strings v Hv) as (v' & -> & _). cbn.
    eexists. split; [done|]. right. split_and!; auto. eapply malloc_refused; [|exact Em]. done.
Qed.

Lemma new_range_result start end_ :
  exists s, new_range start end_ = Some s /\
    (outcome s (inside (pinCodePoint start) (pinCodePoint end_)) [] \/ refused).
Proof.
  assert (E : new_range start end_ =
    match new_set with
    | Some s => match list_ s with Some _ => complement_range s start end_ | None => Some s end
    | None => None
    end).
  { unfold new_range, new_set. destruct (allocateStrings_spec (initial 1 (1 + START_EXTRA))) as (s & ec & ok & -> & Hr).
    destruct Hr as [(-> & v & -> & Hv & Ec & _)|(Hf & -> & Hno)].
    2:{ by rewrite Hf. }
    cbn [U_FAILURE]. destruct (uprv_malloc _ _ _) as [cells|].
    - destruct (zset cells 0 UNICODESET_HIGH); done.
    - unfold setToBogus, clear. cbn. by destruct (removeAllElements_strings v Hv) as (v' & -> & _). }
  rewrite E. destruct new_set_spec as (s & -> & Hr). cbn [mbind option_bind].
  destruct Hr as [(Hl & Hv & Hs)|(Hno & -> & _)]; [|eexists; split; [done|by right]].
  destruct (wf_cells s (proj1 Hl)) as (cells & -> & _).
  destruct (complement_range_spec s start end_ Hl) as (s' & -> & Ho). exists s'. split; [done|]. left.
  rewrite Hs in Ho. eapply outcome_ext; [|exact Ho]. intros x Hx. cbn. unfold has. rewrite Hv. simpl.
  destruct (Z.leb_spec UNICODESET_HIGH x); [lia|]. by rewrite xorb_false_l.
Qed.

(** a constructed range holds exactly the code points from the pinned start to the pinned
    end, and no strings; otherwise an allocation was refused. *)
Theorem new_range_contents start end_ :
  exists s, new_range start end_ = Some s /\
    (outcome s (inside (pinCodePoint start) (pinCodePoint end_)) [] \/ refused).
Proof. apply new_range_result. Qed.

(** ** Copies *)

Lemma copied_strings v w :
  strings_wf v -> UVector.contents v = [] -> UVector.capacity v <= 8 -> strings_wf w ->
  exists v' ec, UVector.assign v w cloneUnicodeString U_ZERO_ERROR = Some (v', ec) /\
    (strings_wf v' /\ UVector.contents v' = UVector.contents w \/ refused).
Proof.
  intros Hv Hc Hcap Hw.
  assert (Hc0 : UVector.count v = 0) by (by rewrite <- (UVector.contents_zlen v (sw_wf v Hv)), Hc).
  destruct (UVector.assign_fresh cloneUnicodeString v w (sw_wf v Hv) Hc0 Hcap (sw_wf w Hw)) as (v' & ec & -> & Hwf' & [Hd Hcm] & Hr).
  exists v', ec. split; [done|]. destruct Hr as [Hr|[_ ?]]; [|by right].
  unfold cloneUnicodeString, new_object in Hr. destruct (alloc_ok sizeof_UnicodeString) eqn:Ha.
  2:{ right. apply (object_refused sizeof_UnicodeString); [set_solver|done]. }
  left. assert (E : UVector.contents v' = UVector.contents w) by (rewrite Hr; apply map_id). split; [|done].
  destruct Hv, Hw. split; rewrite ?E; auto; congruence.
Qed.

(** The members of a copy, before the lookup objects. *)
Lemma copied_members o cap v v' cells bmp p :
  wf o -> strings_wf v' -> zlen cells = cap -> len o <= cap ->
  ztake (len o) cells = values o -> (forall b, bmp = Some b -> BMPSet.represents b (values o)) ->
  UVector.contents v' = strs o ->
  let s := set_pat (set_strings (set_lookup (set_list (set_list (set_strings (initial 0 cap) (Some v)) 0 (Some cells)) (len o) (Some cells)) bmp None) (Some v')) p in
  wf s /\ isBogus s = false /\ values s = values o /\ strs s = strs o.
Proof.
  intros Ho Hv' Hz Hcap Hval Hbmp Hc s. pose proof (wf_len o Ho).
  assert (Hvs : values s = values o) by (unfold values at 1; cbn; exact Hval). split_and!; auto.
  split; cbn; try done; eauto; try lia.
  - rewrite Hvs. apply Ho.
  - intros b Hb. rewrite Hvs. by apply Hbmp.
Qed.

Lemma memcpy_values (dst : list Z) o src :
  wf o -> list_ o = Some src -> len o <= zlen dst ->
  exists cells, memcpy_cells dst src (len o) = Some cells /\ zlen cells = zlen dst /\ ztake (len o) cells = values o.
Proof.
  intros Ho E Hd. destruct (wf_cells o Ho) as (src' & E' & L). simplify_eq. pose proof (wf_len o Ho). unfold memcpy_cells.
  destruct (Z.leb_spec (len o) (zlen dst)); [|lia]. destruct (Z.leb_spec (len o) (zlen src)); [|lia]. cbn [andb]. eexists. split; [done|].
  assert (Hz : zlen (ztake (len o) src) = len o) by (apply zlen_ztake; lia). split.
  - rewrite zlen_app, Hz. unfold zlen. rewrite length_drop. unfold zlen in *. lia.
  - unfold values. rewrite E. cbn. rewrite <- Hz at 1. apply ztake_app_exact.
Qed.

Lemma setPattern_cases s p : exists q, setPattern s p = set_pat s q.
Proof. unfold setPattern, releasePattern. destruct (uprv_malloc _ _ _); eexists; by destruct s. Qed.

(** The copy of [cloneAsThawed]: the same contents in a mutable set. *)
Lemma new_thawed_result o :
  wf o -> exists s, new_thawed o = Some s /\ (live s /\ values s = values o /\ strs s = strs o \/ refused).
Proof.
  intros Ho. unfold new_thawed. pose proof (wf_len o Ho). pose proof (wf_len_bound o Ho).
  destruct (allocateStrings_spec (initial 0 (len o + GROW_EXTRA))) as (s & ec & ok & -> & Hr).
  destruct Hr as [(-> & v & -> & Hv & Ec & Hcap)|(Hf & -> & Hno)]; [|rewrite Hf; eexists; split; [done|by right]].
  cbn [U_FAILURE capacity set_strings initial]. destruct (uprv_malloc _ _ _) as [cells|] eqn:Em.
  2:{ unfold setToBogus, clear. cbn. destruct (removeAllElements_strings v Hv) as (v' & -> & _). cbn. eexists. split; [done|]. right.
      eapply malloc_refused; [|exact Em]. unfold sizeof_UChar32, GROW_EXTRA, UNICODESET_HIGH, INT32_MAX in *. lia. }
  apply malloc_zlen in Em; [|unfold GROW_EXTRA; lia]. destruct (wf_cells o Ho) as (src & E & L). rewrite E. cbn [mbind option_bind].
  destruct (memcpy_values cells o src Ho E) as (cells' & -> & Hz' & Hval); [unfold GROW_EXTRA in *; lia|]. cbn [mbind option_bind].
  destruct (wf_strs o Ho) as (w & Ew & Hw & Es). rewrite Ew. cbn [strings set_list set_strings].
  destruct (copied_strings v w Hv Ec Hcap Hw) as (v' & ec' & -> & Hr). cbn [mbind option_bind].
  destruct Hr as [[Hv' Ec']|]; [|eexists; split; [done|by right]].
  assert (Hm : forall p, let s := set_pat (set_strings (set_list (set_strings (initial 0 (len o + GROW_EXTRA)) (Some v)) (len o) (Some cells')) (Some v')) p in
    live s /\ values s = values o /\ strs s = strs o).
  { intros p. destruct (copied_members o (len o + GROW_EXTRA) v v' cells' None p Ho Hv') as (H1 & H2 & H3 & H4);
      [lia|unfold GROW_EXTRA; lia|done|done|congruence|].
    split; [split_and!; [exact H1|done|done]|]. split; [exact H3|exact H4]. }
  eexists. split; [done|]. left. destruct (pat o) as [p|].
  - destruct (setPattern_cases (set_strings (set_list (set_strings (initial 0 (len o + GROW_EXTRA)) (Some v)) (len o) (Some cells')) (Some v')) p) as (q & ->).
    apply Hm.
  - apply (Hm None).
Qed.

Lemma BMPSet_copied b l cells n : BMPSet.represents b l -> ztake n cells = l -> n = zlen l -> BMPSet.represents (BMPSet.copy b cells n) l.
Proof.
  intros [] Hl ->. split; cbn; auto. exists (drop (length l) cells). rewrite <- Hl at 1. unfold ztake, zlen.
  by rewrite Nat2Z.id, take_drop.
Qed.

(** The copy constructor: the same contents, frozen if the original is. *)
Lemma new_copy_result o :
  wf o -> isBogus o = false -> stringSpan o = None ->
  exists s, new_copy o = Some s /\
    (wf s /\ isBogus s = false /\ isFrozen s = isFrozen o /\ stringSpan s = None /\ values s = values o /\ strs s = strs o \/ refused).
Proof.
  intros Ho Hb Hsp. unfold new_copy. pose proof (wf_len o Ho). pose proof (wf_len_bound o Ho).
  set (cap := if isFrozen o then len o else len o + GROW_EXTRA).
  assert (Hcapr : len o <= cap <= len o + GROW_EXTRA) by (unfold cap, GROW_EXTRA; destruct (isFrozen o); lia).
  destruct (allocateStrings_spec (initial 0 cap)) as (s & ec & ok & -> & Hr).
  destruct Hr as [(-> & v & -> & Hv & Ec & Hcap)|(Hf & -> & Hno)]; [|rewrite Hf; eexists; split; [done|by right]].
  cbn [U_FAILURE capacity set_strings initial len]. destruct (uprv_malloc _ _ _) as [cells|] eqn:Em.
  2:{ unfold setToBogus, clear. cbn. destruct (removeAllElements_strings v Hv) as (v' & -> & _). cbn. eexists. split; [done|]. right.
      eapply malloc_refused; [|exact Em]. unfold sizeof_UChar32, GROW_EXTRA, UNICODESET_HIGH, INT32_MAX in *. lia. }
  apply malloc_zlen in Em; [|lia]. unfold assign. change (isFrozen (set_list (set_strings (initial 0 cap) (Some v)) 0 (Some cells))) with false.
  cbv iota. rewrite Hb. unfold ensureCapacity. cbn [capacity set_list set_strings initial]. destruct (Z.leb_spec (len o) cap); [|lia].
  cbn [mbind option_bind U_FAILURE]. change (list_ (set_list (set_strings (initial 0 cap) (Some v)) 0 (Some cells))) with (Some cells).
  destruct (wf_cells o Ho) as (src & E & L). rewrite E. cbn [mbind option_bind].
  destruct (memcpy_values cells o src Ho E) as (cells' & -> & Hz' & Hval); [lia|]. cbn [mbind option_bind].
  destruct (wf_strs o Ho) as (w & Ew & Hw & Es).
  assert (Hrest : forall bmp, (bmp = None <-> bmpSet o = None) -> (forall b, bmp = Some b -> BMPSet.represents b (values o)) ->
    exists s, assign_rest (set_lookup (set_list (set_list (set_strings (initial 0 cap) (Some v)) 0 (Some cells)) (len o) (Some cells')) bmp None) o U_ZERO_ERROR = Some s /\
    (wf s /\ isBogus s = false /\ isFrozen s = isFrozen o /\ stringSpan s = None /\ values s = values o /\ strs s = strs o \/ refused)).
  { intros bmp Hiff Hrep. unfold assign_rest. cbn [strings set_lookup set_list set_strings]. rewrite Ew, Hsp.
    destruct (copied_strings v w Hv Ec Hcap Hw) as (v' & ec' & -> & Hr). cbn [mbind option_bind].
    destruct Hr as [[Hv' Ec']|]; [|eexists; split; [done|by right]].
    assert (Hm : forall p, let s := set_pat (set_strings (set_lookup (set_list (set_list (set_strings (initial 0 cap) (Some v)) 0 (Some cells')) (len o) (Some cells')) bmp None) (Some v')) p in
      wf s /\ isBogus s = false /\ isFrozen s = isFrozen o /\ stringSpan s = None /\ values s = values o /\ strs s = strs o).
    { intros p. destruct (copied_members o cap v v' cells' bmp p Ho Hv') as (Hw1 & Hw2 & Hw3 & Hw4); [lia..|done|done|congruence|].
      split_and!; auto. unfold isFrozen. cbn. rewrite Hsp. destruct bmp, (bmpSet o); try done; by destruct Hiff as [? ?]; intuition. }
    eexists. split; [done|]. left. unfold releasePattern. destruct (pat o) as [p|]; [|apply (Hm None)].
    destruct (setPattern_cases (set_pat (set_lookup (set_strings (set_lookup (set_list (set_list (set_strings (initial 0 cap) (Some v)) 0 (Some cells)) (len o) (Some cells')) bmp None) (Some v')) bmp None) None) p) as (q & Hq).
    cbn [bmpSet set_lookup set_strings]. rewrite Hq. apply (Hm q). }
  destruct (bmpSet o) as [b|] eqn:Eb.
  - unfold new_object. destruct (alloc_ok sizeof_BMPSet) eqn:Ha.
    + apply Hrest; [by split|]. intros b' [= <-]. apply BMPSet_copied; [by apply (wf_bmp o Ho)|done|].
      destruct (values_split o Ho) as (? & ? & _ & _ & Hz & _). done.
    + unfold setToBogus, clear. cbn. rewrite zset_in by lia. cbn. destruct (removeAllElements_strings v Hv) as (v' & -> & _). cbn. eexists. split; [done|]. right.
      apply (object_refused sizeof_BMPSet); [set_solver|done].
  - apply Hrest; [done|done].
Qed.
End Construct.

(** when the strings vector cannot be allocated, the constructor leaves a set whose list
    is null but which is not marked as bogus, and whose [contains] then reads through the null
    pointer. *)
Theorem constructor_failure_not_bogus :
  let no_heap := {| alloc_ok := fun _ => false; junk := 0 |} in
  exists s, new_set (H := no_heap) = Some s /\ isBogus s = false /\ list_ s = None /\
    contains s 0x61 = None.
Proof. eexists. split; [reflexivity|]. done. Qed.

(** assigning a valid set to a bogus one copies the code points and the strings but
    leaves the result marked as bogus. *)
Theorem assign_to_bogus_stays_bogus :
  exists s, assign (set_flags ascii_block kIsBogus) letters = Some s /\
    values s = values letters /\ strs s = strs letters /\ isBogus letters = false /\ isBogus s = true.
Proof. eexists. split; [reflexivity|]. split_and!; reflexivity. Qed.
End UnicodeSetConstruct.
