(* ===== verification/UnicodeSetSerial.v ===== *)
(** * The serialized form of a set

    [serialize] writes the values of the inversion list as 16-bit units, supplementary values
    as two units each behind a two-unit header; the deserializing constructor reads them back. *)

From S2P Require Import Prelude Vector Utf16 UString InversionList BMPSet UnicodeSet UnicodeSetFacts UnicodeSetAlgebra UnicodeSetConstruct.
Import InvList UnicodeSet UnicodeSetFacts UnicodeSetAlgebra UnicodeSetConstruct.

Module UnicodeSetSerial.

Definition bmp_value (x : Z) : Prop := 0 <= x <= 0xffff.
Definition supp_value (x : Z) : Prop := 0x10000 <= x < UNICODESET_HIGH.

(** The two units of a supplementary value. *)
Definition two_units (x : Z) : list Z := [x / 0x10000; x mod 0x10000].
Definition supp_units (b : list Z) : list Z := concat (map two_units b).

(** The image of the values [a], all in the BMP, and [b], all supplementary. *)
Definition serialized (a b : list Z) : list Z :=
  match b with
  | [] => zlen a :: a
  | _ => (zlen a + 2 * zlen b + 0x8000) :: zlen a :: a ++ supp_units b
  end.

(** An inversion list is BMP values, then supplementary values, then the end mark. *)
Lemma wf_list_parts l :
  wf_list l -> exists a b, l = a ++ b ++ [UNICODESET_HIGH] /\ Forall bmp_value a /\ Forall supp_value b.
Proof.
  intros (Hs & Hp & Hl). induction l as [|x l IH]; [done|].
  apply StronglySorted_cons in Hs as [Hx Hs]. apply Forall_cons in Hp as [H0 Hp].
  destruct l as [|y l].
  { exists [], []. injection Hl as ->. done. }
  destruct (IH Hs Hp Hl) as (a & b & E & Ha & Hb).
  assert (x < UNICODESET_HIGH).
  { apply (proj1 (Forall_forall _ _) Hx). rewrite E. set_solver. }
  destruct (Z.le_gt_cases x 0xffff).
  - exists (x :: a), b. rewrite E. split_and!; auto. constructor; [|done]. unfold bmp_value. lia.
  - destruct a as [|z a].
    + exists [], (x :: b). rewrite E. split_and!; auto. constructor; [|done]. unfold supp_value. lia.
    + exfalso. apply Forall_cons in Ha as [Hz _]. unfold bmp_value in Hz.
      assert (x < z) by (apply (proj1 (Forall_forall _ _) Hx); rewrite E; set_solver). lia.
Qed.

(** The units that the values of a list take, and with the header. *)
Definition bmp_count (l : list Z) : Z := zlen (filter (fun x => x <= 0xffff) l).
Definition serial_units (l : list Z) : Z := bmp_count l + 2 * (zlen l - 1 - bmp_count l).
Definition serial_length (l : list Z) : Z :=
  serial_units l + (if bmp_count l <? zlen l - 1 then 2 else 1).

Lemma bmp_count_parts a b :
  Forall bmp_value a -> Forall supp_value b -> bmp_count (a ++ b ++ [UNICODESET_HIGH]) = zlen a.
Proof.
  intros Ha Hb. unfold bmp_count. rewrite filter_app.
  rewrite (proj1 (filter_all_iff _ a)); [|eapply Forall_impl; [exact Ha|]; unfold bmp_value; intros; cbn; lia].
  enough (filter (fun x => x <= 0xffff) (b ++ [UNICODESET_HIGH]) = []) as -> by (by rewrite app_nil_r).
  induction Hb as [|x b Hx Hb IH]; [done|]. cbn [app]. rewrite filter_cons_False; [done|].
  unfold supp_value in Hx. lia.
Qed.

(** ** The loops *)

Lemma split_prefix {A} (l : list A) n : 0 <= n <= zlen l -> exists old rest, l = old ++ rest /\ zlen old = n.
Proof.
  intros Hn. exists (ztake n l), (drop (Z.to_nat n) l). unfold ztake. rewrite take_drop. split; [done|].
  by apply zlen_ztake.
Qed.

Lemma zset_at {A} (p : list A) x q y i : i = zlen p -> zset (p ++ x :: q) i y = Some (p ++ y :: q).
Proof. intros ->. apply zset_middle. Qed.

Lemma zget_at {A} (p : list A) x q i : i = zlen p -> zget (p ++ x :: q) i = Some x.
Proof. intros ->. apply zget_middle. Qed.


Lemma write_bmp_spec src p old rest q r d i :
  Forall bmp_value src -> zlen old = zlen src -> d = zlen p -> i = zlen q ->
  write_bmp (length src) (p ++ old ++ rest) d (q ++ src ++ r) i = Some (p ++ src ++ rest).
Proof.
  intros Hs. revert p old q d i. induction Hs as [|x src Hx Hs IH]; intros p old q d i Ho -> ->.
  { apply zlen_0_inv in Ho as ->. done. }
  destruct old as [|y old]; [rewrite zlen_cons, zlen_nil in Ho; pose proof (zlen_nonneg src); lia|].
  rewrite !zlen_cons in Ho. cbn [length write_bmp app]. rewrite zget_middle. cbn [mbind option_bind].
  rewrite zset_middle. cbn [mbind option_bind]. unfold bmp_value in Hx.
  replace (uint16 x) with x by (unfold uint16; rewrite Z.mod_small; lia).
  specialize (IH (p ++ [x]) old (q ++ [x]) (zlen p + 1) (zlen q + 1)).
  rewrite <- !app_assoc in IH. apply IH; rewrite ?zlen_snoc; lia.
Qed.

Lemma write_supplementary_spec src p old rest q r d i :
  Forall supp_value src -> zlen old = 2 * zlen src -> d = zlen p -> i = zlen q ->
  write_supplementary (length src) (p ++ old ++ rest) d (q ++ src ++ r) i = Some (p ++ supp_units src ++ rest).
Proof.
  intros Hs. revert p old q d i. induction Hs as [|x src Hx Hs IH]; intros p old q d i Ho -> ->.
  { apply zlen_0_inv in Ho as ->. done. }
  rewrite zlen_cons in Ho. pose proof (zlen_nonneg src).
  destruct old as [|y [|z old]]; [rewrite ?zlen_cons, zlen_nil in Ho; lia..|]. rewrite !zlen_cons in Ho.
  cbn [length write_supplementary app]. rewrite zget_middle. cbn [mbind option_bind].
  rewrite zset_middle. cbn [mbind option_bind].
  replace (p ++ uint16 (Z.shiftr x 16) :: z :: old ++ rest) with ((p ++ [uint16 (Z.shiftr x 16)]) ++ z :: old ++ rest)
    by (by rewrite <- app_assoc).
  rewrite zset_at by (by rewrite zlen_snoc). cbn [mbind option_bind]. unfold supp_value, UNICODESET_HIGH in Hx.
  assert (uint16 (Z.shiftr x 16) = x / 0x10000) as ->.
  { rewrite Z.shiftr_div_pow2 by lia. change (2 ^ 16) with 65536. unfold uint16. change (2 ^ 16) with 65536. dlia. }
  assert (uint16 x = x mod 0x10000) as -> by done.
  specialize (IH (p ++ two_units x) old (q ++ [x]) (zlen p + 2) (zlen q + 1)). unfold supp_units in *.
  cbn [map concat]. unfold two_units in *. rewrite <- !app_assoc in *. cbn [app] in *.
  apply IH; rewrite ?zlen_snoc, ?zlen_app, ?zlen_cons, ?zlen_nil; lia || done.
Qed.

Lemma count_bmp_spec a x r q :
  Forall bmp_value a -> 0xffff < x ->
  forall n, (length a < n)%nat -> count_bmp n (q ++ a ++ x :: r) (zlen q) = Some (zlen q + zlen a).
Proof.
  intros Ha Hx. revert q. induction Ha as [|y a Hy Ha IH]; intros q n Hn; (destruct n as [|n]; [cbn in Hn; lia|]).
  - cbn [count_bmp app]. rewrite zget_middle. cbn [mbind option_bind]. destruct (Z.leb_spec x 0xffff); [lia|].
    f_equal. change (zlen (@nil Z)) with 0. lia.
  - cbn [count_bmp app]. rewrite zget_middle. cbn [mbind option_bind]. unfold bmp_value in Hy.
    destruct (Z.leb_spec y 0xffff); [|lia]. specialize (IH (q ++ [y]) n). rewrite <- app_assoc, zlen_snoc in IH.
    rewrite zlen_cons. cbn in IH, Hn. rewrite IH by lia. f_equal. lia.
Qed.

Lemma read_bmp_spec src p old rest q r h i :
  zlen old = zlen src -> i = zlen p -> i + h = zlen q ->
  read_bmp (length src) (p ++ old ++ rest) (q ++ src ++ r) h i = Some (p ++ src ++ rest).
Proof.
  revert p old q i. induction src as [|x src IH]; intros p old q i Ho -> Hq.
  { apply zlen_0_inv in Ho as ->. done. }
  destruct old as [|y old]; [rewrite zlen_cons, zlen_nil in Ho; pose proof (zlen_nonneg src); lia|].
  rewrite !zlen_cons in Ho. cbn [length read_bmp app]. rewrite zget_at by done. cbn [mbind option_bind].
  rewrite zset_middle. cbn [mbind option_bind].
  specialize (IH (p ++ [x]) old (q ++ [x]) (zlen p + 1)).
  rewrite <- !app_assoc in IH. apply IH; rewrite ?zlen_snoc; lia.
Qed.

Lemma read_supplementary_spec src p old rest q r h k i :
  Forall supp_value src -> zlen old = zlen src -> i = zlen p -> h + k + (i - k) * 2 = zlen q ->
  read_supplementary (length src) (p ++ old ++ rest) (q ++ supp_units src ++ r) h k i = Some (p ++ src ++ rest).
Proof.
  intros Hs. revert p old q i. induction Hs as [|x src Hx Hs IH]; intros p old q i Ho -> Hq.
  { apply zlen_0_inv in Ho as ->. done. }
  destruct old as [|y old]; [rewrite zlen_cons, zlen_nil in Ho; pose proof (zlen_nonneg src); lia|].
  rewrite !zlen_cons in Ho. cbn [length read_supplementary].
  change (supp_units (x :: src) ++ r) with (x / 65536 :: x mod 65536 :: supp_units src ++ r).
  rewrite (zget_at q _ _ (h + k + (zlen p - k) * 2 + 0)) by lia. cbn [mbind option_bind].
  replace (q ++ x / 65536 :: x mod 65536 :: supp_units src ++ r)
    with ((q ++ [x / 65536]) ++ x mod 65536 :: supp_units src ++ r) by (by rewrite <- app_assoc).
  rewrite (zget_at (q ++ [x / 65536]) _ _ (h + k + (zlen p - k) * 2 + 1)) by (rewrite zlen_snoc; lia). cbn [mbind option_bind app]. rewrite zset_middle. cbn [mbind option_bind].
  rewrite Z.shiftl_mul_pow2 by lia. change (2 ^ 16) with 65536.
  replace (x / 65536 * 65536 + x mod 65536) with x by dlia.
  specialize (IH (p ++ [x]) old (q ++ two_units x) (zlen p + 1)). unfold two_units in IH.
  rewrite <- !app_assoc in *. cbn [app] in *.
  apply IH; rewrite ?zlen_snoc, ?zlen_app, ?zlen_cons, ?zlen_nil; lia.
Qed.

(** ** The two directions *)

(** [bmpLength] and [length] as [serialize] finds them. *)
Definition bmp_and_length (cells : list Z) (length : Z) : option (Z * Z) :=
  last ← zget cells (length - 1);
  if last <=? 0xffff then Some (length, length)
  else first ← zget cells 0;
       if 0x10000 <=? first then Some (0, length * 2)
       else k ← count_bmp (Z.to_nat length) cells 0; Some (k, k + 2 * (length - k)).

Lemma zget_last_of (p q : list Z) : 
  q <> [] -> exists y, y ∈ q /\ forall r, zget (p ++ q ++ r) (zlen (p ++ q) - 1) = Some y.
Proof.
  intros Hq. destruct q as [|y q _] using rev_ind; [done|]. exists y. split; [set_solver|].
  intros r. rewrite <- app_assoc, (app_assoc p q). apply zget_at. rewrite !zlen_app. change (zlen [y]) with 1. lia.
Qed.

Lemma bmp_and_length_spec a b r :
  Forall bmp_value a -> Forall supp_value b -> 0 < zlen a + zlen b ->
  bmp_and_length (a ++ b ++ r) (zlen a + zlen b) = Some (zlen a, zlen a + 2 * zlen b).
Proof.
  intros Ha Hb Hn. unfold bmp_and_length. destruct b as [|z b].
  - change (zlen (@nil Z)) with 0 in *. rewrite !Z.add_0_r. destruct (zget_last_of [] a) as (y & Hy & E).
    { intros ->. done. }
    cbn [app] in *. rewrite E. cbn [mbind option_bind].
    pose proof (proj1 (Forall_forall _ _) Ha y Hy) as Hv. unfold bmp_value in Hv.
    destruct (Z.leb_spec y 0xffff); [done|lia].
  - destruct (zget_last_of a (z :: b)) as (y & Hy & E); [done|]. rewrite <- zlen_app, E. cbn [mbind option_bind].
    pose proof (proj1 (Forall_forall _ _) Hb y Hy) as Hv. unfold supp_value in Hv.
    destruct (Z.leb_spec y 0xffff); [lia|]. rewrite zlen_app. pose proof (zlen_nonneg b).
    destruct a as [|x a].
    + apply Forall_cons in Hb as [Hz _]. unfold supp_value in Hz.
      change (([] ++ (z :: b) ++ r).[0]) with (Some z). cbn [mbind option_bind].
      destruct (Z.leb_spec 0x10000 z); [|lia]. f_equal. f_equal. change (zlen (@nil Z)) with 0. lia.
    + pose proof Ha as [Hx _]%Forall_cons. unfold bmp_value in Hx.
      change (((x :: a) ++ (z :: b) ++ r).[0]) with (Some x). cbn [mbind option_bind].
      destruct (Z.leb_spec 0x10000 x); [lia|].
      apply Forall_cons in Hb as [Hz _]. unfold supp_value in Hz.
      pose proof (count_bmp_spec (x :: a) z (b ++ r) [] Ha) as Hc. cbn [app] in Hc. change (zlen (@nil Z)) with 0 in Hc.
      cbn [app]. rewrite Hc; [|lia|].
      * cbn [mbind option_bind]. f_equal. f_equal; lia.
      * rewrite (zlen_cons z). unfold zlen. lia.
Qed.

Section Serial.
Context {HP : Heap} {OS : ObjectSizes} {SP : StringSpan}.
Implicit Types s : t.

Lemma serialize_unfold s cells dest destCapacity :
  list_ s = Some cells -> 0 < len s - 1 -> 0 <= destCapacity ->
  serialize s (Some dest) destCapacity U_ZERO_ERROR =
    ('(bmpLength, length) ← bmp_and_length cells (len s - 1);
     if 0x7fff <? length then Some (Some dest, 0, U_INDEX_OUTOFBOUNDS_ERROR)
     else
       let destLength := length + (if bmpLength <? length then 2 else 1) in
       if destLength <=? destCapacity then
         d ← zset dest 0 (uint16 length);
         '(d, at_) ← (if bmpLength <? length
                      then x ← zget d 0; d ← zset d 0 (Z.lor x 0x8000);
                           d ← zset d 1 (uint16 bmpLength); Some (d, 1)
                      else Some (d, 0));
         d ← write_bmp (Z.to_nat bmpLength) d (at_ + 1) cells 0;
         d ← write_supplementary (Z.to_nat ((length - bmpLength + 1) / 2)) d (at_ + 1 + bmpLength) cells bmpLength;
         Some (Some d, destLength, U_ZERO_ERROR)
       else Some (Some dest, destLength, U_BUFFER_OVERFLOW_ERROR)).
Proof.
  intros E Hl Hc. unfold serialize, bmp_and_length. cbn [U_FAILURE]. destruct (Z.ltb_spec destCapacity 0); [lia|].
  rewrite andb_false_r. cbn [orb]. destruct (Z.eqb_spec (len s - 1) 0); [lia|]. rewrite E. cbn [mbind option_bind].
  destruct (zget cells (len s - 1 - 1)) as [last|]; [|done]. cbn [mbind option_bind].
  destruct (last <=? 65535); [done|]. destruct (zget cells 0) as [first|]; done.
Qed.

Lemma supp_units_zlen b : zlen (supp_units b) = 2 * zlen b.
Proof.
  induction b as [|x b IH]; [done|]. change (supp_units (x :: b)) with (x / 0x10000 :: x mod 0x10000 :: supp_units b).
  rewrite !zlen_cons. lia.
Qed.

Lemma serialized_zlen a b :
  zlen (serialized a b) = zlen a + 2 * zlen b + (if zlen a <? zlen a + 2 * zlen b then 2 else 1).
Proof.
  unfold serialized. destruct b as [|x b].
  - rewrite zlen_cons. change (zlen (@nil Z)) with 0. rewrite Z.add_0_r, Z.ltb_irrefl. lia.
  - rewrite !zlen_cons, zlen_app, supp_units_zlen, zlen_cons. pose proof (zlen_nonneg b).
    destruct (Z.ltb_spec (zlen a) (zlen a + 2 * (zlen b + 1))); lia.
Qed.

Lemma lor_0x8000 x : 0 <= x <= 0x7fff -> Z.lor x 0x8000 = x + 0x8000.
Proof. intros Hx. rewrite Z.lor_comm. change 0x8000 with (1 * 2 ^ 15). rewrite lor_disjoint by lia. lia. Qed.

(** Cutting the destination along the image. *)
Lemma cut_dest (dest : list Z) n : (n <= length dest)%nat -> exists old, dest = old ++ drop n dest /\ length old = n.
Proof. intros Hn. exists (take n dest). rewrite take_drop. split; [done|]. rewrite length_take. lia. Qed.

Lemma write_image_bmp a r dest :
  Forall bmp_value a -> zlen a <= 0x7fff -> zlen a + 1 <= zlen dest ->
  exists d, zset dest 0 (uint16 (zlen a)) = Some d /\
    write_bmp (Z.to_nat (zlen a)) d 1 (a ++ r) 0 = Some (zlen a :: a ++ drop (S (length a)) dest).
Proof.
  intros Ha Hm Hd. destruct (cut_dest dest (S (length a))) as (old & E & Ho); [unfold zlen in *; lia|].
  set (rest := drop (S (length a)) dest) in *. destruct old as [|o old]; [done|]. rewrite E. clear E.
  pose proof (zlen_nonneg a). exists (uint16 (zlen a) :: old ++ rest). split; [by apply (zset_at [])|].
  replace (uint16 (zlen a)) with (zlen a) by (unfold uint16; rewrite Z.mod_small; lia).
  replace (Z.to_nat (zlen a)) with (length a) by (unfold zlen; lia).
  apply (write_bmp_spec a [zlen a] old _ [] r); auto. cbn in Ho. unfold zlen. lia.
Qed.

Lemma write_image_supp a b r dest :
  Forall bmp_value a -> Forall supp_value b -> b <> [] ->
  let units := zlen a + 2 * zlen b in
  units <= 0x7fff -> units + 2 <= zlen dest ->
  exists d0 d1 d2 d3, zset dest 0 (uint16 units) = Some d0 /\ zget d0 0 = Some units /\
    zset d0 0 (Z.lor units 0x8000) = Some d1 /\ zset d1 1 (uint16 (zlen a)) = Some d2 /\
    write_bmp (Z.to_nat (zlen a)) d2 2 (a ++ b ++ r) 0 = Some d3 /\
    write_supplementary (Z.to_nat (zlen b)) d3 (2 + zlen a) (a ++ b ++ r) (zlen a) =
      Some (serialized a b ++ drop (length (serialized a b)) dest).
Proof.
  intros Ha Hb Hne units Hm Hd. pose proof (zlen_nonneg a). pose proof (zlen_nonneg b).
  pose proof (serialized_zlen a b) as Hz. fold units in Hz.
  assert (zlen a < units). { destruct b; [done|]. unfold units. rewrite zlen_cons. pose proof (zlen_nonneg b). lia. }
  destruct (Z.ltb_spec (zlen a) units); [|lia].
  set (n := length (serialized a b)) in *. set (rest := drop n dest).
  destruct (cut_dest dest n) as (old & E & Ho); [unfold zlen in *; unfold n; lia|]. fold rest in E.
  assert (Hoz : zlen old = units + 2) by (unfold zlen in *; unfold n in *; lia).
  destruct old as [|o0 [|o1 old]]; [rewrite ?zlen_cons, zlen_nil in Hoz; lia..|]. rewrite !zlen_cons in Hoz.
  destruct (split_prefix old (zlen a)) as (oa & ob & -> & Hoa); [lia|]. rewrite zlen_app in Hoz.
  rewrite E. clear E Ho. cbn [app]. rewrite <- app_assoc.
  replace (uint16 units) with units by (unfold uint16; rewrite Z.mod_small; lia).
  replace (uint16 (zlen a)) with (zlen a) by (unfold uint16; rewrite Z.mod_small; lia).
  rewrite lor_0x8000 by lia.
  exists (units :: o1 :: oa ++ ob ++ rest), ((units + 0x8000) :: o1 :: oa ++ ob ++ rest),
    ((units + 0x8000) :: zlen a :: oa ++ ob ++ rest), ((units + 0x8000) :: zlen a :: a ++ ob ++ rest).
  split_and!.
  - apply (zset_at []). done.
  - done.
  - apply (zset_at []). done.
  - apply (zset_at [units + 0x8000]). done.
  - replace (Z.to_nat (zlen a)) with (length a) by (unfold zlen; lia).
    by apply (write_bmp_spec a [units + 0x8000; zlen a] oa _ [] (b ++ r)).
  - replace (Z.to_nat (zlen b)) with (length b) by (unfold zlen; lia).
    assert (serialized a b = ([units + 0x8000; zlen a] ++ a) ++ supp_units b) as Es by (unfold serialized; by destruct b).
    rewrite Es, <- (app_assoc _ (supp_units b)).
    apply (write_supplementary_spec b ([units + 0x8000; zlen a] ++ a) ob rest a r); auto.
    + unfold units in *. lia.
    + rewrite zlen_app. done.
Qed.

(** [serialize] on a buffer of any size: too many values, the image written at the start of
    the buffer, or the needed length with an overflow error. *)
Lemma serialize_cases s a b dest :
  wf s -> values s = a ++ b ++ [UNICODESET_HIGH] -> Forall bmp_value a -> Forall supp_value b ->
  serialize s (Some dest) (zlen dest) U_ZERO_ERROR =
    Some (if 0x7fff <? zlen a + 2 * zlen b then (Some dest, 0, U_INDEX_OUTOFBOUNDS_ERROR)
          else if zlen (serialized a b) <=? zlen dest
          then (Some (serialized a b ++ drop (length (serialized a b)) dest), zlen (serialized a b), U_ZERO_ERROR)
          else (Some dest, zlen (serialized a b), U_BUFFER_OVERFLOW_ERROR)).
Proof.
  intros Hwf Ev Ha Hb. destruct (values_split s Hwf) as (cells & st & E & Ec & Hz & _).
  rewrite Ev, !zlen_app in Hz. change (zlen [UNICODESET_HIGH]) with 1 in Hz.
  pose proof (zlen_nonneg a). pose proof (zlen_nonneg b). pose proof (zlen_nonneg dest).
  pose proof (serialized_zlen a b) as Hsz.
  destruct (Z.eqb_spec (zlen a + zlen b) 0).
  { assert (a = []) as -> by (apply zlen_0_inv; lia). assert (b = []) as -> by (apply zlen_0_inv; lia). unfold serialize. cbn [U_FAILURE].
    destruct (Z.ltb_spec (zlen dest) 0); [lia|]. rewrite andb_false_r. cbn [orb].
    destruct (Z.eqb_spec (len s - 1) 0); [|lia]. cbn.
    destruct dest as [|o dest]; [done|]. rewrite zlen_cons. pose proof (zlen_nonneg dest).
    destruct (Z.ltb_spec 0 (zlen dest + 1)); [|lia]. change (zlen [zlen (@nil Z)]) with 1.
    destruct (Z.leb_spec 1 (zlen dest + 1)); [|lia].
    pose proof (zset_at [] o dest 0 0 eq_refl) as Hset. cbn [app] in Hset. by rewrite Hset. }
  rewrite (serialize_unfold s cells) by (done || lia). replace (len s - 1) with (zlen a + zlen b) by lia.
  assert (cells = a ++ b ++ [UNICODESET_HIGH] ++ st) as -> by (rewrite Ec, Ev, <- !app_assoc; done).
  rewrite bmp_and_length_spec by (done || lia). cbn [mbind option_bind].
  destruct (Z.ltb_spec 0x7fff (zlen a + 2 * zlen b)); [done|]. rewrite <- Hsz.
  destruct (Z.leb_spec (zlen (serialized a b)) (zlen dest)); [|done].
  replace ((zlen a + 2 * zlen b - zlen a + 1) / 2) with (zlen b) by dlia.
  destruct b as [|x b].
  - change (zlen (@nil Z)) with 0 in *. rewrite Z.add_0_r, Z.ltb_irrefl in *. 
    destruct (write_image_bmp a ([] ++ [UNICODESET_HIGH] ++ st) dest) as (d & -> & Hw); [done|lia|lia|].
    cbn [mbind option_bind]. change (0 + 1) with 1. rewrite Hw. done.
  - pose proof (zlen_cons x b). pose proof (zlen_nonneg b).
    destruct (write_image_supp a (x :: b) ([UNICODESET_HIGH] ++ st) dest) as (d0 & d1 & d2 & d3 & -> & G & E1 & E2 & E3 & E4);
      [done|done|done|lia|destruct (Z.ltb_spec (zlen a) (zlen a + 2 * zlen (x :: b))); lia|].
    cbn [mbind option_bind]. destruct (Z.ltb_spec (zlen a) (zlen a + 2 * zlen (x :: b))).
    + rewrite G. cbn [mbind option_bind]. rewrite E1. cbn [mbind option_bind]. rewrite E2. cbn [mbind option_bind].
      change (1 + 1) with 2. rewrite E3. cbn [mbind option_bind]. rewrite E4. done.
    + lia.
Qed.

Lemma land_0x8000 x : 0 <= x <= 0x7fff -> Z.land x 0x8000 = 0 /\ Z.land (x + 0x8000) 0x8000 = 0x8000.
Proof.
  intros Hx. pose proof (land_high x 15 1) as E1. pose proof (land_high (x + 0x8000) 15 1) as E2.
  change (Z.shiftl (Z.ones 1) 15) with 0x8000 in *. change (2 ^ (15 + 1)) with 65536 in *.
  change (2 ^ 15) with 32768 in *. rewrite E1, E2 by lia. dlia.
Qed.

Lemma land_0x7fff x : 0 <= x <= 0x7fff -> Z.land x 0x7fff = x /\ Z.land (x + 0x8000) 0x7fff = x.
Proof.
  intros Hx. change 0x7fff with (Z.ones 15). rewrite !land_low by lia. change (2 ^ 15) with 32768. dlia.
Qed.

(** What the constructor finds in the header of an image. *)
Lemma header_spec a b rest :
  zlen a + 2 * zlen b <= 0x7fff ->
  exists d0 h, zget (serialized a b ++ rest) 0 = Some d0 /\ h = (if negb (Z.land d0 0x8000 =? 0) then 2 else 1) /\
    (if h =? 1 then Some d0 else zget (serialized a b ++ rest) 1) = Some (zlen a) /\
    Z.quot (Z.land d0 0x7fff - zlen a) 2 + zlen a = zlen a + zlen b /\
    exists hd, serialized a b ++ rest = hd ++ a ++ supp_units b ++ rest /\ zlen hd = h.
Proof.
  intros Hm. pose proof (zlen_nonneg a). pose proof (zlen_nonneg b). unfold serialized. destruct b as [|x b].
  - change (zlen (@nil Z)) with 0 in *. exists (zlen a), 1.
    destruct (land_0x8000 (zlen a)) as [-> _]; [lia|]. destruct (land_0x7fff (zlen a)) as [-> _]; [lia|].
    split_and!; auto; [rewrite Z.sub_diag, Z.quot_0_l by lia; lia|]. exists [zlen a]. split; done.
  - set (units := zlen a + 2 * zlen (x :: b)). exists (units + 0x8000), 2.
    destruct (land_0x8000 units) as [_ ->]; [unfold units; lia|]. destruct (land_0x7fff units) as [_ ->]; [unfold units; lia|].
    split_and!; auto.
    + replace (units - zlen a) with (zlen (x :: b) * 2) by (unfold units; lia). rewrite Z.quot_mul by lia. lia.
    + exists [units + 0x8000; zlen a]. split; [|done]. cbn [app]. by rewrite <- app_assoc.
Qed.

(** The deserializing constructor on an image. *)
Lemma new_serialized_spec l a b rest dataLen :
  wf_list l -> l = a ++ b ++ [UNICODESET_HIGH] -> Forall bmp_value a -> Forall supp_value b ->
  zlen a + 2 * zlen b <= 0x7fff -> 1 <= dataLen ->
  exists s ec, new_serialized (Some (serialized a b ++ rest)) dataLen U_ZERO_ERROR = Some (s, ec) /\
    ((ec = U_ZERO_ERROR /\ live s /\ values s = l /\ strs s = []) \/ (isBogus s = true /\ refused)).
Proof.
  intros Hl El Ha Hb Hm Hd. pose proof (zlen_nonneg a). pose proof (zlen_nonneg b). unfold new_serialized. cbn [U_FAILURE].
  destruct (Z.ltb_spec dataLen 1); [lia|].
  destruct (allocateStrings_spec (initial 1 (1 + START_EXTRA))) as (s & ec & ok & -> & Hr).
  destruct Hr as [(-> & v & -> & Hv & Ec & _)|(Hf & -> & Hno)].
  2:{ rewrite Hf. unfold setToBogus, clear. cbn. eexists _, _. split; [done|]. right. done. }
  cbn [U_FAILURE]. destruct (header_spec a b rest Hm) as (d0 & h & E0 & Eh & Ek & Eq & hd & Es & Hh).
  rewrite E0. cbn [mbind option_bind]. rewrite <- Eh, Ek. cbn [mbind option_bind]. rewrite Eq. cbn [capacity set_capacity].
  destruct (uprv_malloc _ _ _) as [cells|] eqn:Em.
  2:{ unfold setToBogus, clear. cbn. destruct (removeAllElements_strings v Hv) as (v' & -> & _). cbn.
      eexists _, _. split; [done|]. right. split; [done|]. eapply malloc_refused; [|exact Em].
      unfold sizeof_UChar32, INT32_MAX. lia. }
  apply malloc_zlen in Em; [|lia].
  destruct (split_prefix cells (zlen a)) as (oa & oc & -> & Hoa); [lia|]. rewrite zlen_app in Em.
  destruct (split_prefix oc (zlen b)) as (ob & o1 & -> & Hob); [lia|]. rewrite zlen_app in Em.
  destruct (zlen_1_inv o1) as [x ->]; [lia|].
  replace (Z.to_nat (zlen a)) with (length a) by (unfold zlen; lia).
  replace (Z.to_nat (zlen a + zlen b - zlen a)) with (length b) by (unfold zlen; lia).
  pose proof (read_bmp_spec a [] oa (ob ++ [x]) hd (supp_units b ++ rest) h 0) as Hread. cbn [app] in Hread.
  rewrite Es, Hread by (done || lia). cbn [mbind option_bind]. rewrite (app_assoc hd a).
  rewrite (read_supplementary_spec b a ob [x] (hd ++ a) rest h (zlen a) (zlen a)); auto; [|rewrite zlen_app; lia].
  cbn [mbind option_bind]. rewrite (app_assoc a b), zset_at by (rewrite zlen_app; lia). cbn [mbind option_bind].
  eexists _, _. split; [done|]. left. split; [done|].
  assert (Hvals : ztake (zlen a + zlen b + 1) ((a ++ b) ++ [UNICODESET_HIGH]) = l).
  { rewrite El, (app_assoc a b). unfold ztake. apply take_ge. rewrite length_app, length_app. unfold zlen. cbn. lia. }
  split_and!; [|exact Hvals|exact Ec].
  apply (new_members 1 (zlen a + zlen b + 1) _ v (zlen a + zlen b + 1)); auto.
  - rewrite !zlen_app. change (zlen [UNICODESET_HIGH]) with 1. lia.
  - lia.
  - by rewrite Hvals.
Qed.

Lemma serial_parts a b :
  Forall bmp_value a -> Forall supp_value b ->
  let l := a ++ b ++ [UNICODESET_HIGH] in
  serial_units l = zlen a + 2 * zlen b /\ serial_length l = zlen (serialized a b).
Proof.
  intros Ha Hb l. unfold serial_length, serial_units. unfold l. rewrite bmp_count_parts by done.
  rewrite serialized_zlen, !zlen_app. change (zlen [UNICODESET_HIGH]) with 1.
  pose proof (zlen_nonneg b). split; [lia|].
  destruct (Z.ltb_spec (zlen a) (zlen a + (zlen b + 1) - 1)), (Z.ltb_spec (zlen a) (zlen a + 2 * zlen b)); lia.
Qed.

(** C20: serializing a set into a buffer that is large enough, and constructing a set from the
    units written, gives the same code points (the strings are not part of the image); a set
    of more than 0x7fff units is refused and a buffer that is too small gets the overflow
    error with the needed length, and in both cases the buffer is not touched. *)
Theorem serialize_roundtrip s dest :
  wf s ->
  let units := serial_units (values s) in
  let need := serial_length (values s) in
  if 0x7fff <? units
  then serialize s (Some dest) (zlen dest) U_ZERO_ERROR = Some (Some dest, 0, U_INDEX_OUTOFBOUNDS_ERROR)
  else if zlen dest <? need
  then serialize s (Some dest) (zlen dest) U_ZERO_ERROR = Some (Some dest, need, U_BUFFER_OVERFLOW_ERROR)
  else exists image s' ec, serialize s (Some dest) (zlen dest) U_ZERO_ERROR = Some (Some image, need, U_ZERO_ERROR) /\
      zlen image = zlen dest /\ drop (Z.to_nat need) image = drop (Z.to_nat need) dest /\
      new_serialized (Some image) need U_ZERO_ERROR = Some (s', ec) /\
      ((ec = U_ZERO_ERROR /\ live s' /\ (forall c, has s' c = has s c) /\ strs s' = []) \/
       (isBogus s' = true /\ refused)).
Proof.
  intros Hwf. destruct (wf_list_parts (values s) (wf_values s Hwf)) as (a & b & Ev & Ha & Hb).
  rewrite (serialize_cases s a b dest Hwf Ev Ha Hb).
  destruct (serial_parts a b Ha Hb) as [Eu En]. rewrite <- Ev in Eu, En. cbn zeta. rewrite Eu, En.
  destruct (Z.ltb_spec 0x7fff (zlen a + 2 * zlen b)); [done|].
  destruct (Z.leb_spec (zlen (serialized a b)) (zlen dest)), (Z.ltb_spec (zlen dest) (zlen (serialized a b))); try lia; [|done].
  pose proof (serialized_zlen a b) as Hz. pose proof (zlen_nonneg a). pose proof (zlen_nonneg b).
  destruct (new_serialized_spec (values s) a b (drop (length (serialized a b)) dest) (zlen (serialized a b)))
    as (s' & ec & E & Hr); auto; [apply Hwf|destruct (_ <? _); lia|].
  eexists _, s', ec. split; [done|]. split_and!; auto.
  - rewrite zlen_app. unfold zlen in *. rewrite length_drop. lia.
  - unfold zlen. rewrite Nat2Z.id. apply drop_app_length.
  - destruct Hr as [(? & ? & Ev' & ?)|?]; [left|by right]. split_and!; auto. intros c. unfold has. by rewrite Ev'.
Qed.
End Serial.

Lemma serialize_roundtrip_witness :
  exists image s' ec, serialize letters (Some [7; 7; 7; 7]) 4 U_ZERO_ERROR = Some (Some image, 3, U_ZERO_ERROR) /\
      zlen image = 4 /\ drop 3 image = [7] /\
      new_serialized (Some image) 3 U_ZERO_ERROR = Some (s', ec) /\
      ((ec = U_ZERO_ERROR /\ live s' /\ (forall c, has s' c = has letters c) /\ strs s' = []) \/
       (isBogus s' = true /\ refused)).
Proof. exact (serialize_roundtrip letters [7; 7; 7; 7] (proj1 letters_live)). Defined.

(** the deserializing constructor trusts the header: it reads as many units as the header
    says, whatever [dataLen] is, so a truncated image is read past its end. *)
Theorem serialized_header_trusted : new_serialized (Some [5; 0x61]) 2 U_ZERO_ERROR = None.
Proof. reflexivity. Qed.
End UnicodeSetSerial.
