(* ===== verification/SerializedSet.v ===== *)
(** * Serialized sets (common/uset.cpp, unicode/uset.h)

    Lookup in the serialized form of a set without building a set: the values of the inversion
    list as 16-bit units, supplementary values as two units each.  The array of a
    [USerializedSet] points into the caller's units, or to its own static array. *)

From S2P Require Import Prelude Vector Utf16 UString InversionList BMPSet UnicodeSet UnicodeSetFacts UnicodeSetAlgebra UnicodeSetConstruct UnicodeSetSerial.
Import InvList UnicodeSet UnicodeSetFacts UnicodeSetAlgebra UnicodeSetSerial.

Module SerializedSet.

Definition USET_SERIALIZED_STATIC_ARRAY_CAPACITY : Z := 8.

(** [units] is the memory that [array] points into, at [offset]. *)
Record t := mk { units : list Z; offset : Z; bmpLength : Z; length : Z }.

(** [array[i]] *)
Definition at_ (s : t) (i : Z) : option Z := zget (units s) (offset s + i).

(** ** Access to an image *)

(** [uset_getSerializedSet]: a null [src] is [None].  The set and the result. *)
Definition uset_getSerializedSet (fillSet : t) (src : option (list Z)) (srcLength : Z) : option (t * bool) :=
  let failed := mk (units fillSet) (offset fillSet) 0 0 in
  match src with
  | None => Some (failed, false)
  | Some src =>
      if srcLength <=? 0 then Some (failed, false)
      else
        length ← zget src 0;
        if negb (Z.land length 0x8000 =? 0) then
          let length := Z.land length 0x7fff in
          if srcLength <? 2 + length then Some (failed, false)
          else bmp ← zget src 1; Some (mk src 2 bmp length, true)
        else if srcLength <? 1 + length then Some (failed, false)
        else Some (mk src 1 length length, true)
  end.

(** [uset_setSerializedToOne]; [staticArray] is the static array before. *)
Definition uset_setSerializedToOne (fillSet : t) (staticArray : list Z) (c : Z) : option t :=
  if (c <? 0) || (0x10ffff <? c) then Some fillSet
  else if c <? 0xffff then
    a ← zset staticArray 0 (uint16 c); a ← zset a 1 (uint16 (uint16 c + 1)); Some (mk a 0 2 2)
  else if c =? 0xffff then
    a ← zset staticArray 0 0xffff; a ← zset a 1 1; a ← zset a 2 0; Some (mk a 0 1 3)
  else if c <? 0x10ffff then
    a ← zset staticArray 0 (uint16 (Z.shiftr c 16)); a ← zset a 1 (uint16 c);
    a ← zset a 2 (uint16 (Z.shiftr (c + 1) 16)); a ← zset a 3 (uint16 (c + 1)); Some (mk a 0 0 4)
  else
    a ← zset staticArray 0 0x10; a ← zset a 1 0xffff; Some (mk a 0 0 2).

(** ** Membership *)

Fixpoint bmp_search (fuel : nat) (s : t) (c lo hi : Z) : option Z :=
  match fuel with
  | O => None
  | S fuel =>
      let i := Z.shiftr (lo + hi) 1 in
      if i =? lo then Some hi
      else x ← at_ s i; if c <? x then bmp_search fuel s c lo i else bmp_search fuel s c i hi
  end.

(** [high < array[i] || (high==array[i] && low<array[i+1])] *)
Definition pair_less (s : t) (high low i : Z) : option bool :=
  h ← at_ s i; if high <? h then Some true else if high =? h then l ← at_ s (i + 1); Some (low <? l) else Some false.

Fixpoint supp_search (fuel : nat) (s : t) (high low lo hi : Z) : option Z :=
  match fuel with
  | O => None
  | S fuel =>
      let i := Z.land (Z.shiftr (lo + hi) 1) (Z.lnot 1) in
      if i =? lo then Some hi
      else less ← pair_less s high low (i + bmpLength s);
           if (less : bool) then supp_search fuel s high low lo i else supp_search fuel s high low i hi
  end.

Definition serializedContains_fuel (fuel : nat) (s : t) (c : Z) : option bool :=
  if (c <? 0) || (0x10ffff <? c) then Some false
  else if c <=? 0xffff then
    let hi := bmpLength s - 1 in
    x ← at_ s 0;
    hi ← (if c <? x then Some 0
          else y ← at_ s hi; if c <? y then bmp_search fuel s c 0 hi else Some (hi + 1));
    Some (negb (Z.land hi 1 =? 0))
  else
    let high := uint16 (Z.shiftr c 16) in let low := uint16 c in
    let base := bmpLength s in let hi := length s - 2 - base in
    less ← pair_less s high low base;
    hi ← (if (less : bool) then Some 0
          else less ← pair_less s high low (base + hi);
               if (less : bool) then supp_search fuel s high low 0 hi else Some (hi + 2));
    Some (negb (Z.land (hi + Z.shiftl base 1) 2 =? 0)).

Definition uset_serializedContains (s : t) (c : Z) : option bool := serializedContains_fuel (S (Z.to_nat (length s))) s c.

(** ** Ranges *)

Definition uset_getSerializedRangeCount (s : t) : Z := Z.quot (bmpLength s + Z.quot (length s - bmpLength s) 2 + 1) 2.

(** [(array[i]<<16)|array[i+1]] *)
Definition pair_at (s : t) (i : Z) : option Z := h ← at_ s i; l ← at_ s (i + 1); Some (Z.lor (Z.shiftl h 16) l).

(** The range, or [None] inside for [FALSE]. *)
Definition uset_getSerializedRange (s : t) (rangeIndex : Z) : option (option (Z * Z)) :=
  if rangeIndex <? 0 then Some None
  else
    let rangeIndex := int32 (rangeIndex * 2) in
    if rangeIndex <? bmpLength s then
      start ← at_ s rangeIndex;
      let rangeIndex := rangeIndex + 1 in
      end_ ← (if rangeIndex <? bmpLength s then x ← at_ s rangeIndex; Some (x - 1)
              else if rangeIndex <? length s then x ← pair_at s rangeIndex; Some (x - 1)
              else Some 0x10ffff);
      Some (Some (start, end_))
    else
      let rangeIndex := int32 ((rangeIndex - bmpLength s) * 2) in
      let length := length s - bmpLength s in
      if rangeIndex <? length then
        start ← pair_at s (bmpLength s + rangeIndex);
        let rangeIndex := rangeIndex + 2 in
        end_ ← (if rangeIndex <? length then x ← pair_at s (bmpLength s + rangeIndex); Some (x - 1) else Some 0x10ffff);
        Some (Some (start, end_))
      else Some None.

(** ** What the array holds *)

(** [a] are the BMP values and [b] the supplementary ones. *)
Record holds (s : t) (a b : list Z) : Prop := {
  ho_units : exists pre rest, units s = pre ++ a ++ supp_units b ++ rest /\ offset s = zlen pre;
  ho_bmp : bmpLength s = zlen a;
  ho_length : length s = zlen a + 2 * zlen b;
  ho_sorted : StronglySorted Z.lt (a ++ b);
  ho_bmp_values : Forall bmp_value a;
  ho_supp_values : Forall supp_value b
}.

Lemma supp_units_get b j x :
  zget b j = Some x -> zget (supp_units b) (2 * j) = Some (x / 0x10000) /\ zget (supp_units b) (2 * j + 1) = Some (x mod 0x10000).
Proof.
  intros [H0 Hj]%zget_Some_lookup. revert j H0 Hj. induction b as [|y b IH]; intros j H0 Hj; [done|].
  change (supp_units (y :: b)) with ([y / 0x10000; y mod 0x10000] ++ supp_units b). destruct (decide (j = 0)) as [->|Hne].
  - injection Hj as ->. done.
  - rewrite !zget_app_r by (change (zlen [y / 0x10000; y mod 0x10000]) with 2; lia). change (zlen [y / 0x10000; y mod 0x10000]) with 2.
    replace (2 * j - 2) with (2 * (j - 1)) by lia. replace (2 * j + 1 - 2) with (2 * (j - 1) + 1) by lia. apply IH; [lia|].
    replace (Z.to_nat j) with (S (Z.to_nat (j - 1))) in Hj by lia. exact Hj.
Qed.

Section Holds.
Context (s : t) (a b : list Z) (H : holds s a b).

Lemma at_bmp i x : zget a i = Some x -> at_ s i = Some x.
Proof using H.
  intros Hi. pose proof (zget_Some_range _ _ _ Hi). destruct H as [(pre & rest & Eu & Eo) _ _ _ _ _]. unfold at_. rewrite Eu, Eo, zget_app_r by lia.
  replace (zlen pre + i - zlen pre) with i by lia. by rewrite zget_app_l by lia.
Qed.

Lemma at_supp j x : zget b j = Some x -> at_ s (zlen a + 2 * j) = Some (x / 0x10000) /\ at_ s (zlen a + 2 * j + 1) = Some (x mod 0x10000).
Proof using H.
  intros Hj. pose proof (zget_Some_range _ _ _ Hj). pose proof (zlen_nonneg a). destruct (supp_units_get b j x Hj) as [Hh Hl].
  destruct H as [(pre & rest & Eu & Eo) _ _ _ _ _]. unfold at_. rewrite Eu, Eo.
  assert (Hget : forall i, 0 <= i < 2 * zlen b -> zget (pre ++ a ++ supp_units b ++ rest) (zlen pre + (zlen a + i)) = zget (supp_units b) i).
  { intros i Hi. rewrite !zget_app_r by lia. replace (zlen pre + (zlen a + i) - zlen pre - zlen a) with i by lia. apply zget_app_l. rewrite supp_units_zlen. lia. }
  rewrite Hget by lia. replace (zlen pre + (zlen a + 2 * j + 1)) with (zlen pre + (zlen a + (2 * j + 1))) by lia. rewrite Hget by lia. done.
Qed.

(** A supplementary code point and a value, compared by halves. *)
Lemma pair_less_spec c j x :
  supp_value c -> zget b j = Some x -> pair_less s (uint16 (Z.shiftr c 16)) (uint16 c) (zlen a + 2 * j) = Some (c <? x).
Proof using H.
  intros Hc Hj. destruct (at_supp j x Hj) as [Hh Hl]. assert (Hx : supp_value x).
  { apply (proj1 (Forall_forall _ _) (ho_supp_values _ _ _ H)). apply zget_Some_lookup in Hj as [_ Hj]. by eapply list_elem_of_lookup_2. }
  unfold pair_less. rewrite Hh. cbn [mbind option_bind]. unfold supp_value, UNICODESET_HIGH in *.
  assert (uint16 (Z.shiftr c 16) = c / 0x10000) as -> by (rewrite Z.shiftr_div_pow2 by lia; change (2 ^ 16) with 65536; unfold uint16; dlia).
  unfold uint16. change 65536 with 0x10000. destruct (Z.ltb_spec (c / 0x10000) (x / 0x10000)); [|destruct (Z.eqb_spec (c / 0x10000) (x / 0x10000))].
  - destruct (Z.ltb_spec c x); [done|dlia].
  - rewrite Hl. cbn [mbind option_bind]. f_equal. destruct (Z.ltb_spec (c mod 0x10000) (x mod 0x10000)), (Z.ltb_spec c x); dlia || done.
  - destruct (Z.ltb_spec c x); [dlia|done].
Qed.
End Holds.

(** ** The searches *)

(** The first [k] values are at most [c], the others above. *)
Definition cut (l : list Z) (c k : Z) : Prop := exists l1 l2, l = l1 ++ l2 /\ zlen l1 = k /\ Forall (fun x => x <= c) l1 /\ Forall (fun x => c < x) l2.

Lemma cut_mem l c k : cut l c k -> inv_mem l c = Z.odd k.
Proof. intros (l1 & l2 & -> & <- & H1 & H2). rewrite inv_mem_app, inv_mem_all_le, inv_mem_above by done. by rewrite xorb_false_r. Qed.

Lemma cut_between l c k x y :
  StronglySorted Z.lt l -> zget l k = Some x -> zget l (k + 1) = Some y -> x <= c < y -> cut l c (k + 1).
Proof.
  intros Hs Hx Hy Hc. pose proof (zget_Some_range _ _ _ Hy). pose proof (zget_Some_range _ _ _ Hx).
  exists (take (Z.to_nat (k + 1)) l), (drop (Z.to_nat (k + 1)) l). split; [by rewrite take_drop|]. split; [unfold zlen in *; rewrite length_take; lia|].
  split; apply Forall_lookup; intros i z Hz.
  - apply lookup_take_Some in Hz as [Hz Hlt]. rewrite <- zget_nat in Hz. destruct (decide (Z.of_nat i = k)) as [E|]; [rewrite E in Hz; simplify_eq; lia|].
    pose proof (sorted_zget l (Z.of_nat i) k z x Hs ltac:(lia) Hz Hx). lia.
  - rewrite lookup_drop, <- zget_nat in Hz. destruct (decide (i = 0%nat)) as [->|]; [replace (Z.of_nat (Z.to_nat (k + 1) + 0)) with (k + 1) in Hz by lia; simplify_eq; lia|].
    pose proof (sorted_zget l (k + 1) (Z.of_nat (Z.to_nat (k + 1) + i)) y z Hs ltac:(lia) Hy Hz). lia.
Qed.

Lemma cut_all l c : Forall (fun x => x <= c) l -> cut l c (zlen l).
Proof. intros Hl. exists l, []. rewrite app_nil_r. split_and!; auto. Qed.

Lemma cut_none l c : Forall (fun x => c < x) l -> cut l c 0.
Proof. intros Hl. exists [], l. split_and!; auto. Qed.

Lemma all_from_last l c y : StronglySorted Z.lt l -> zget l (zlen l - 1) = Some y -> y <= c -> Forall (fun x => x <= c) l.
Proof.
  intros Hs Hy Hc. apply Forall_lookup. intros i x Hx. rewrite <- zget_nat in Hx. pose proof (zget_Some_range _ _ _ Hx).
  destruct (decide (Z.of_nat i = zlen l - 1)) as [E|]; [rewrite E in Hx; simplify_eq; lia|]. pose proof (sorted_zget l (Z.of_nat i) (zlen l - 1) x y Hs ltac:(lia) Hx Hy). lia.
Qed.

Lemma none_from_first l c y : StronglySorted Z.lt l -> zget l 0 = Some y -> c < y -> Forall (fun x => c < x) l.
Proof.
  intros Hs Hy Hc. apply Forall_lookup. intros i x Hx. rewrite <- zget_nat in Hx.
  destruct (decide (Z.of_nat i = 0)) as [E|]; [rewrite E in Hx; simplify_eq; lia|]. pose proof (sorted_zget l 0 (Z.of_nat i) y x Hs ltac:(lia) Hy Hx). lia.
Qed.

Lemma land_2_odd n : negb (Z.land (2 * n) 2 =? 0) = Z.odd n.
Proof.
  replace (Z.land (2 * n) 2) with (Z.land (Z.land (2 * n) (Z.ones 2)) 2) by (by rewrite <- Z.land_assoc). rewrite Z.land_ones by lia. change (2 ^ 2) with 4.
  replace ((2 * n) mod 4) with (2 * (n mod 2)) by dlia. rewrite Zmod_odd. by destruct (Z.odd n).
Qed.

Section Search.
Context (s : t) (a b : list Z) (H : holds s a b) (c : Z).

Lemma sorted_bmp : StronglySorted Z.lt a.
Proof using H. apply (StronglySorted_app_1_l _ a b), H. Qed.
Lemma sorted_supp : StronglySorted Z.lt b.
Proof using H. apply (StronglySorted_app_1_r _ a b), H. Qed.

Lemma bmp_search_spec fuel lo hi x y :
  0 <= lo < hi -> zget a lo = Some x -> zget a hi = Some y -> x <= c < y -> hi - lo <= Z.of_nat fuel ->
  exists k, bmp_search fuel s c lo hi = Some k /\ cut a c k.
Proof using H.
  revert lo hi x y. induction fuel as [|fuel IH]; intros lo hi x y Hlo Hx Hy Hc Hf; [lia|]. cbn [bmp_search]. rewrite Z.shiftr_div_pow2 by lia. change (2 ^ 1) with 2.
  pose proof (zget_Some_range _ _ _ Hy). destruct (Z.eqb_spec ((lo + hi) / 2) lo) as [E|Hne].
  - exists hi. split; [done|]. replace hi with (lo + 1) in * by dlia. by eapply cut_between; [apply sorted_bmp|..].
  - set (i := (lo + hi) / 2) in *. assert (Hi : lo < i < hi) by (unfold i in *; dlia). destruct (zget_is_Some a i) as (z & Hz); [lia|].
    rewrite (at_bmp s a b H i z Hz). cbn [mbind option_bind]. destruct (Z.ltb_spec c z); [eapply (IH lo i)|eapply (IH i hi)]; eauto; lia.
Qed.

Lemma even_mid p q : 0 <= p -> 0 <= q -> Z.land (Z.shiftr (2 * p + 2 * q) 1) (Z.lnot 1) = 2 * ((p + q) / 2).
Proof using.
  intros Hp Hq. replace (2 * p + 2 * q) with ((p + q) * 2) by lia. rewrite Z.shiftr_div_pow2 by lia. change (2 ^ 1) with 2. rewrite Z.div_mul by lia.
  rewrite <- Z.ldiff_land. change 1 with (Z.ones 1). rewrite Z.ldiff_ones_r by lia. rewrite Z.shiftr_div_pow2, Z.shiftl_mul_pow2 by lia. change (2 ^ 1) with 2. lia.
Qed.

Lemma supp_search_spec fuel p q x y :
  supp_value c -> 0 <= p < q -> zget b p = Some x -> zget b q = Some y -> x <= c < y -> q - p <= Z.of_nat fuel ->
  exists k, supp_search fuel s (uint16 (Z.shiftr c 16)) (uint16 c) (2 * p) (2 * q) = Some (2 * k) /\ cut b c k.
Proof using H.
  intros Hsc. revert p q x y. induction fuel as [|fuel IH]; intros p q x y Hp Hx Hy Hc Hf; [lia|]. cbn [supp_search]. rewrite even_mid by lia.
  pose proof (zget_Some_range _ _ _ Hy). destruct (Z.eqb_spec (2 * ((p + q) / 2)) (2 * p)) as [E|Hne].
  - exists q. split; [done|]. replace q with (p + 1) in * by dlia. by eapply cut_between; [apply sorted_supp|..].
  - set (i := (p + q) / 2) in *. assert (Hi : p < i < q) by (unfold i in *; dlia). destruct (zget_is_Some b i) as (z & Hz); [lia|].
    rewrite (ho_bmp _ _ _ H), (Z.add_comm (2 * i)), (pair_less_spec s a b H c i z Hsc Hz). cbn [mbind option_bind].
    destruct (Z.ltb_spec c z); [eapply (IH p i)|eapply (IH i q)]; eauto; lia.
Qed.

Lemma all_bmp_below : 0xffff < c -> Forall (fun x => x <= c) a.
Proof using H. intros Hc. eapply Forall_impl; [apply H|]. unfold bmp_value. cbn. lia. Qed.

Lemma all_supp_above : c <= 0xffff -> Forall (fun x => c < x) b.
Proof using H. intros Hc. eapply Forall_impl; [apply H|]. unfold supp_value. cbn. lia. Qed.

(** A code point of the BMP: there must be a value to look at; with supplementary values only,
    the unit in front of the array is read. *)
Lemma contains_bmp :
  0 <= c <= 0xffff -> a <> [] \/ b <> [] /\ at_ s (-1) = Some 0 -> uset_serializedContains s c = Some (inv_mem (a ++ b) c).
Proof using H.
  intros Hc Hne. unfold uset_serializedContains, serializedContains_fuel. destruct (Z.ltb_spec c 0), (Z.ltb_spec 0x10ffff c); [lia..|]. cbn [orb].
  destruct (Z.leb_spec c 0xffff); [|lia]. rewrite inv_mem_app, (inv_mem_above b c) by (apply all_supp_above; lia). rewrite xorb_false_r.
  assert (Hodd : forall hi, cut a c hi -> Some (negb (Z.land hi 1 =? 0)) = Some (inv_mem a c)).
  { intros hi Hcut. f_equal. rewrite (cut_mem a c hi Hcut). rewrite <- Z.bit0_odd. change 1 with (Z.ones 1). rewrite Z.land_ones by lia. change (2 ^ 1) with 2.
    rewrite Z.bit0_odd, Zmod_odd. by destruct (Z.odd hi). }
  rewrite (ho_bmp _ _ _ H), (ho_length _ _ _ H). pose proof (zlen_nonneg b). destruct (decide (a = [])) as [Ea|Hna].
  - destruct Hne as [?|[Hb Hat]]; [done|]. subst a. change (zlen (@nil Z)) with 0 in *. destruct (zget_is_Some b 0) as (y & Hy); [destruct b; [done|rewrite zlen_cons; pose proof (zlen_nonneg l); lia]|].
    destruct (at_supp s [] b H 0 y Hy) as [Hat0 _]. change (zlen (@nil Z) + 2 * 0) with 0 in Hat0. rewrite Hat0. cbn [mbind option_bind].
    assert (Hcut0 : cut [] c 0) by (by apply cut_none). destruct (c <? y / 0x10000); [by apply Hodd|]. change (0 - 1) with (-1). rewrite Hat. cbn [mbind option_bind].
    destruct (Z.ltb_spec c 0); [lia|]. by apply Hodd.
  - assert (Hpos : 0 < zlen a) by (destruct a; [done|rewrite zlen_cons; pose proof (zlen_nonneg l); lia]).
    destruct (zget_is_Some a 0) as (x & Hx); [lia|]. destruct (zget_is_Some a (zlen a - 1)) as (y & Hy); [lia|].
    rewrite (at_bmp s a b H 0 x Hx). cbn [mbind option_bind]. destruct (Z.ltb_spec c x).
    { apply Hodd, cut_none. by eapply none_from_first; [apply sorted_bmp|..]. }
    rewrite (at_bmp s a b H _ y Hy). cbn [mbind option_bind]. destruct (Z.ltb_spec c y).
    + assert (zlen a <> 1) by (intros E; rewrite E in Hy; change (1 - 1) with 0 in Hy; simplify_eq; lia).
      destruct (bmp_search_spec (S (Z.to_nat (zlen a + 2 * zlen b))) 0 (zlen a - 1) x y) as (k & -> & Hcut); auto; [lia..|]. by apply Hodd.
    + replace (zlen a - 1 + 1) with (zlen a) by lia. apply Hodd, cut_all. by eapply all_from_last; [apply sorted_bmp|..].
Qed.

(** A supplementary code point: there must be a supplementary value. *)
Lemma contains_supp : supp_value c -> b <> [] -> uset_serializedContains s c = Some (inv_mem (a ++ b) c).
Proof using H.
  intros Hc Hne. unfold uset_serializedContains, serializedContains_fuel. pose proof Hc as Hc'. unfold supp_value, UNICODESET_HIGH in Hc'.
  destruct (Z.ltb_spec c 0), (Z.ltb_spec 0x10ffff c); [lia..|]. cbn [orb]. destruct (Z.leb_spec c 0xffff); [lia|].
  rewrite inv_mem_app, (inv_mem_all_le a c) by (apply all_bmp_below; lia).
  assert (Hodd : forall k, cut b c k -> Some (negb (Z.land (2 * k + Z.shiftl (zlen a) 1) 2 =? 0)) = Some (xorb (Z.odd (zlen a)) (inv_mem b c))).
  { intros k Hcut. f_equal. rewrite (cut_mem b c k Hcut), <- Z.odd_add. rewrite Z.shiftl_mul_pow2 by lia. change (2 ^ 1) with 2.
    replace (2 * k + zlen a * 2) with (2 * (zlen a + k)) by lia. apply land_2_odd. }
  rewrite (ho_bmp _ _ _ H), (ho_length _ _ _ H). replace (zlen a + 2 * zlen b - 2 - zlen a) with (2 * (zlen b - 1)) by lia. pose proof (zlen_nonneg a).
  assert (Hpos : 0 < zlen b) by (destruct b; [done|rewrite zlen_cons; pose proof (zlen_nonneg l); lia]).
  destruct (zget_is_Some b 0) as (x & Hx); [lia|]. destruct (zget_is_Some b (zlen b - 1)) as (y & Hy); [lia|].
  pose proof (pair_less_spec s a b H c 0 x Hc Hx) as Hl0. rewrite Z.add_0_r in Hl0. rewrite Hl0. cbn [mbind option_bind]. destruct (Z.ltb_spec c x).
  { apply (Hodd 0), cut_none. by eapply none_from_first; [apply sorted_supp|..]. }
  rewrite (pair_less_spec s a b H c _ y Hc Hy). cbn [mbind option_bind]. destruct (Z.ltb_spec c y).
  - assert (zlen b <> 1) by (intros E; rewrite E in Hy; change (1 - 1) with 0 in Hy; simplify_eq; lia).
    destruct (supp_search_spec (S (Z.to_nat (zlen a + 2 * zlen b))) 0 (zlen b - 1) x y) as (k & Hk & Hcut); auto; [lia..|]. change (2 * 0) with 0 in Hk. rewrite Hk. by apply Hodd.
  - replace (2 * (zlen b - 1) + 2) with (2 * zlen b) by lia. apply Hodd, cut_all. by eapply all_from_last; [apply sorted_supp|..].
Qed.
End Search.

(** ** Ranges *)

Section Ranges.
Context (s : t) (a b : list Z) (H : holds s a b).

Lemma pair_at_spec j x : zget b j = Some x -> pair_at s (zlen a + 2 * j) = Some x.
Proof using H.
  intros Hj. destruct (at_supp s a b H j x Hj) as [Hh Hl]. unfold pair_at. rewrite Hh. cbn [mbind option_bind]. rewrite Hl. cbn [mbind option_bind]. f_equal.
  assert (Hx : supp_value x) by (apply (proj1 (Forall_forall _ _) (ho_supp_values _ _ _ H)); apply zget_Some_lookup in Hj as [_ Hj]; by eapply list_elem_of_lookup_2).
  unfold supp_value in Hx. rewrite Z.shiftl_mul_pow2 by lia. rewrite lor_disjoint by (change (2 ^ 16) with 65536; dlia). change (2 ^ 16) with 65536. dlia.
Qed.

Lemma range_count : uset_getSerializedRangeCount s = (zlen (a ++ b) + 1) / 2.
Proof using H.
  unfold uset_getSerializedRangeCount. rewrite (ho_bmp _ _ _ H), (ho_length _ _ _ H), zlen_app. pose proof (zlen_nonneg a). pose proof (zlen_nonneg b).
  replace (zlen a + 2 * zlen b - zlen a) with (zlen b * 2) by lia. rewrite Z.quot_mul by lia. rewrite Z.quot_div_nonneg by lia. done.
Qed.

Lemma range_spec i :
  0 <= i < 2 ^ 29 ->
  uset_getSerializedRange s i =
    Some (x ← zget (a ++ b) (2 * i); Some (x, match zget (a ++ b) (2 * i + 1) with Some y => y - 1 | None => 0x10ffff end)).
Proof using H.
  intros Hi. unfold uset_getSerializedRange. destruct (Z.ltb_spec i 0); [lia|]. rewrite (ho_bmp _ _ _ H), (ho_length _ _ _ H). pose proof (zlen_nonneg a). pose proof (zlen_nonneg b).
  rewrite (int32_small (i * 2)) by (unfold is_int32, INT32_MIN, INT32_MAX; lia). replace (i * 2) with (2 * i) by lia. destruct (Z.ltb_spec (2 * i) (zlen a)).
  - destruct (zget_is_Some a (2 * i)) as (x & Hx); [lia|]. rewrite (at_bmp s a b H _ x Hx), (zget_app_l a b (2 * i)), Hx by lia. cbn [mbind option_bind].
    destruct (Z.ltb_spec (2 * i + 1) (zlen a)).
    + destruct (zget_is_Some a (2 * i + 1)) as (y & Hy); [lia|]. rewrite (at_bmp s a b H _ y Hy), (zget_app_l a b (2 * i + 1)), Hy by lia. done.
    + assert (E : 2 * i + 1 = zlen a) by lia. rewrite E, zget_app_r, Z.sub_diag by lia. destruct (Z.ltb_spec (zlen a) (zlen a + 2 * zlen b)).
      * destruct (zget_is_Some b 0) as (y & Hy); [lia|]. pose proof (pair_at_spec 0 y Hy) as Hp. rewrite Z.add_0_r in Hp. rewrite Hp, Hy. done.
      * assert (b = []) as -> by (apply zlen_0_inv; lia). done.
  - rewrite (zget_app_r a b (2 * i)), (zget_app_r a b (2 * i + 1)) by lia. set (j := 2 * i - zlen a).
    rewrite (int32_small (j * 2)) by (unfold j, is_int32, INT32_MIN, INT32_MAX; lia). replace (2 * i + 1 - zlen a) with (j + 1) by lia.
    replace (zlen a + 2 * zlen b - zlen a) with (2 * zlen b) by lia. replace (j * 2) with (2 * j) by lia. destruct (Z.ltb_spec (2 * j) (2 * zlen b)).
    + destruct (zget_is_Some b j) as (x & Hx); [lia|]. rewrite (pair_at_spec j x Hx), Hx. cbn [mbind option_bind]. destruct (Z.ltb_spec (2 * j + 2) (2 * zlen b)).
      * destruct (zget_is_Some b (j + 1)) as (y & Hy); [lia|]. replace (2 * j + 2) with (2 * (j + 1)) by lia. rewrite (pair_at_spec (j + 1) y Hy), Hy. done.
      * rewrite (zget_None b (j + 1)) by lia. done.
    + rewrite (zget_None b j) by lia. done.
Qed.
End Ranges.

(** ** Reading what a set wrote *)

Lemma zlen_pos {A} (l : list A) : l <> [] -> 0 < zlen l.
Proof. destruct l as [|x l]; [done|]. rewrite zlen_cons. pose proof (zlen_nonneg l). lia. Qed.

(** [uset_getSerializedSet] on an image, in a memory that may go on behind it. *)
Lemma get_serialized fill a b rest :
  StronglySorted Z.lt (a ++ b) -> Forall bmp_value a -> Forall supp_value b -> zlen a + 2 * zlen b <= 0x7fff ->
  exists s, uset_getSerializedSet fill (Some (serialized a b ++ rest)) (zlen (serialized a b)) = Some (s, true) /\ holds s a b /\ (b <> [] -> at_ s (-1) = Some (zlen a)).
Proof.
  intros Hs Ha Hb Hlen. pose proof (zlen_nonneg a). pose proof (zlen_nonneg b). unfold uset_getSerializedSet.
  pose proof (serialized_zlen a b) as Hz. destruct (Z.leb_spec (zlen (serialized a b)) 0); [destruct (zlen a <? _); lia|].
  destruct (decide (b = [])) as [->|Hne].
  - cbn [serialized app]. rewrite zget_cons_0. cbn [mbind option_bind]. rewrite zlen_cons. change (2 * zlen (@nil Z)) with 0 in *.
    destruct (land_0x8000 (zlen a)) as [-> _]; [lia|]. change (0 =? 0) with true. cbn [negb].
    destruct (Z.ltb_spec (zlen a + 1) (1 + zlen a)); [lia|]. eexists. split; [done|]. split; [|done].
    split; try done; [|cbn [length]; change (zlen (@nil Z)) with 0; lia]. exists [zlen a], rest. done.
  - set (n := zlen a + 2 * zlen b) in *.
    assert (Eser : serialized a b = (n + 0x8000) :: zlen a :: a ++ supp_units b) by (destruct b; done).
    pose proof (zlen_pos b Hne). destruct (Z.ltb_spec (zlen a) n); [|lia]. rewrite Eser in *. cbn [app]. rewrite zget_cons_0. cbn [mbind option_bind].
    destruct (land_0x8000 n) as [_ ->]; [lia|]. destruct (land_0x7fff n) as [_ ->]; [lia|]. change (0x8000 =? 0) with false. cbn [negb].
    rewrite Hz. destruct (Z.ltb_spec (n + 2) (2 + n)); [lia|]. change (zget (n + 0x8000 :: zlen a :: (a ++ supp_units b) ++ rest) 1) with (Some (zlen a)).
    cbn [mbind option_bind]. eexists. split; [done|]. split; [|done].
    split; try done. exists [n + 0x8000; zlen a], rest. cbn. by rewrite <- app_assoc.
Qed.

Section Agree.
Context {HP : Heap} {OS : ObjectSizes} {SP : StringSpan}.

(** Reading ranges of what the set wrote is reading ranges of the set. *)
Lemma ranges_agree s ss a b :
  wf s -> values s = a ++ b ++ [UNICODESET_HIGH] -> holds ss a b -> zlen a + 2 * zlen b <= 0x7fff ->
  uset_getSerializedRangeCount ss = getRangeCount s /\
  forall i, 0 <= i < 2 ^ 29 ->
    uset_getSerializedRange ss i =
      Some (if i <? getRangeCount s then x ← getRangeStart s i; y ← getRangeEnd s i; Some (x, y) else None).
Proof.
  intros Hwf Ev Hh Hlen. pose proof (values_split s Hwf) as (_ & _ & _ & _ & Hz & _). pose proof (zlen_nonneg a). pose proof (zlen_nonneg b).
  rewrite Ev, app_assoc, zlen_app in Hz. change (zlen [UNICODESET_HIGH]) with 1 in Hz.
  assert (Hc : getRangeCount s = (zlen (a ++ b) + 1) / 2).
  { unfold getRangeCount. rewrite <- Hz, zlen_app. apply Z.quot_div_nonneg; lia. }
  split; [by rewrite Hc, (range_count ss a b Hh)|]. intros i Hi. rewrite (range_spec ss a b Hh i Hi). destruct (Z.ltb_spec i (getRangeCount s)) as [Hlt|Hge].
  - destruct (range_bounds s i Hwf) as (x & y & -> & -> & _ & _ & _ & Gx & Gy); [lia|]. cbn [mbind option_bind]. rewrite Ev, app_assoc in Gx, Gy. rewrite Hc in Hlt.
    rewrite zget_app_l in Gx by dlia. rewrite Gx. cbn [mbind option_bind]. destruct (Z.ltb_spec (2 * i + 1) (zlen (a ++ b))).
    + rewrite zget_app_l in Gy by lia. rewrite Gy. do 3 f_equal. lia.
    + rewrite zget_app_r in Gy by lia. rewrite (zget_None (a ++ b)) by lia. assert (E : 2 * i + 1 - zlen (a ++ b) = 0) by dlia. rewrite E, zget_cons_0 in Gy. injection Gy as Gy.
      do 3 f_equal. unfold UNICODESET_HIGH in Gy. lia.
  - rewrite Hc in Hge. rewrite (zget_None (a ++ b) (2 * i)) by dlia. done.
Qed.

(** C14: the image that [serialize] writes, read in place: [uset_getSerializedSet] accepts it;
    membership of a code point of the BMP is that of the set, if the set has a value; of a
    supplementary code point, if the set has a supplementary value; the ranges are counted and
    returned as those of the set, and there is no range behind the last one. *)
Theorem serialized_lookup_agrees s dest image need fill :
  wf s -> serialize s (Some dest) (zlen dest) U_ZERO_ERROR = Some (Some image, need, U_ZERO_ERROR) ->
  exists ss, uset_getSerializedSet fill (Some image) need = Some (ss, true) /\
    (forall c, 0 <= c <= 0xffff -> values s <> [UNICODESET_HIGH] -> uset_serializedContains ss c = Some (has s c)) /\
    (forall c, supp_value c -> Exists supp_value (values s) -> uset_serializedContains ss c = Some (has s c)) /\
    uset_getSerializedRangeCount ss = getRangeCount s /\
    forall i, 0 <= i < 2 ^ 29 ->
      uset_getSerializedRange ss i =
        Some (if i <? getRangeCount s then x ← getRangeStart s i; y ← getRangeEnd s i; Some (x, y) else None).
Proof.
  intros Hwf Hser. destruct (wf_list_parts (values s) (wf_values s Hwf)) as (a & b & Ev & Ha & Hb).
  rewrite (serialize_cases s a b dest Hwf Ev Ha Hb) in Hser. destruct (Z.ltb_spec 0x7fff (zlen a + 2 * zlen b)); [done|].
  destruct (_ <=? _); [|done]. injection Hser as <- <-.
  assert (Hs : StronglySorted Z.lt (a ++ b)).
  { pose proof (wf_values s Hwf) as (Hs & _ & _). rewrite Ev, app_assoc in Hs. by apply StronglySorted_app in Hs as (_ & Hs & _). }
  destruct (get_serialized fill a b (drop (List.length (serialized a b)) dest) Hs Ha Hb) as (ss & E & Hh & Hpre); [lia|].
  exists ss. split; [done|]. destruct (ranges_agree s ss a b Hwf Ev Hh) as [Hc Hr]; [lia|].
  assert (Hhas : forall c, c <= 0x10ffff -> has s c = inv_mem (a ++ b) c).
  { intros c Hlt. unfold has. rewrite Ev, app_assoc, inv_mem_app, (inv_mem_above [_]); [apply xorb_false_r|]. repeat constructor. unfold UNICODESET_HIGH. lia. }
  split_and!; auto; intros c Hc' Hne; rewrite Hhas by (unfold supp_value, UNICODESET_HIGH in *; lia).
  - apply (contains_bmp ss a b Hh); [done|]. destruct (decide (a = [])) as [->|]; [|by left]. right.
    assert (b <> []) by (intros ->; done). split; [done|]. by rewrite Hpre.
  - apply (contains_supp ss a b Hh); [done|]. intros ->. rewrite Ev in Hne. cbn [app] in Hne. apply Exists_app in Hne as [Hx|Hx]; apply Exists_exists in Hx as (x & Hin & Hx).
    + pose proof (proj1 (Forall_forall _ _) Ha x Hin) as Hb'. unfold bmp_value, supp_value in *. lia.
    + apply list_elem_of_singleton in Hin as ->. unfold supp_value in Hx. lia.
Qed.
End Agree.

Lemma serialized_lookup_agrees_witness :
  exists ss, uset_getSerializedSet (mk [] 0 0 0) (Some [2; 0x61; 0x7b; 7]) 3 = Some (ss, true) /\
    (forall c, 0 <= c <= 0xffff -> values letters <> [UNICODESET_HIGH] -> uset_serializedContains ss c = Some (has letters c)) /\
    (forall c, supp_value c -> Exists supp_value (values letters) -> uset_serializedContains ss c = Some (has letters c)) /\
    uset_getSerializedRangeCount ss = getRangeCount letters /\
    forall i, 0 <= i < 2 ^ 29 ->
      uset_getSerializedRange ss i =
        Some (if i <? getRangeCount letters then x ← getRangeStart letters i; y ← getRangeEnd letters i; Some (x, y) else None).
Proof. apply (serialized_lookup_agrees letters [7; 7; 7; 7] [2; 0x61; 0x7b; 7] 3); [apply letters_live|reflexivity]. Defined.

(** ** The set of one code point *)

(** The inversion list of one code point, in its two parts. *)
Definition one_bmp (c : Z) : list Z := if c <? 0xffff then [c; c + 1] else if c =? 0xffff then [c] else [].
Definition one_supp (c : Z) : list Z := if c <? 0xffff then [] else if c =? 0xffff then [c + 1] else if c <? 0x10ffff then [c; c + 1] else [c].

Lemma toOne_holds fill arr c :
  zlen arr = USET_SERIALIZED_STATIC_ARRAY_CAPACITY -> 0 <= c <= 0x10ffff ->
  exists s, uset_setSerializedToOne fill arr c = Some s /\ holds s (one_bmp c) (one_supp c) /\ offset s = 0 /\
    (c < 0xffff -> zget (units s) 2 = zget arr 2).
Proof.
  intros Harr Hc. unfold zlen, USET_SERIALIZED_STATIC_ARRAY_CAPACITY in Harr. destruct arr as [|x0 [|x1 [|x2 [|x3 [|x4 [|x5 [|x6 [|x7 [|x8 arr]]]]]]]]]; cbn [Datatypes.length] in Harr; try lia.
  unfold uset_setSerializedToOne, one_bmp, one_supp. destruct (Z.ltb_spec c 0), (Z.ltb_spec 0x10ffff c); [lia..|]. cbn [orb].
  assert (Hshift : forall x, 0 <= x <= 0x10ffff -> uint16 (Z.shiftr x 16) = x / 0x10000) by (intros x Hx; rewrite Z.shiftr_div_pow2 by lia; change (2 ^ 16) with 65536; unfold uint16; dlia).
  destruct (Z.ltb_spec c 0xffff); [|destruct (Z.eqb_spec c 0xffff) as [->|]; [|destruct (Z.ltb_spec c 0x10ffff)]];
    eexists; (split; [reflexivity|]).
  all: split; [|split; [done|try lia; done]].
  - assert (uint16 c = c) as -> by (unfold uint16; dlia). assert (uint16 (c + 1) = c + 1) as -> by (unfold uint16; dlia).
    split; try done; [exists [], [x2; x3; x4; x5; x6; x7]; done|repeat constructor; lia|repeat constructor; unfold bmp_value; lia].
  - split; try done; [exists [], [x3; x4; x5; x6; x7]; done|repeat constructor; lia|repeat constructor; unfold supp_value; lia|repeat constructor; unfold supp_value; lia].
  - rewrite !Hshift by lia. split; try done; [exists [], [x4; x5; x6; x7]; done|repeat constructor; lia|repeat constructor; unfold supp_value, UNICODESET_HIGH; lia].
  - assert (c = 0x10ffff) as -> by lia. split; try done; [exists [], [x2; x3; x4; x5; x6; x7]; done|repeat constructor; lia|repeat constructor; unfold supp_value, UNICODESET_HIGH; lia].
Qed.

Lemma one_mem c d : 0 <= c <= 0x10ffff -> d <= 0x10ffff -> inv_mem (one_bmp c ++ one_supp c) d = (d =? c).
Proof.
  intros Hc Hd. assert (E : one_bmp c ++ one_supp c = if c <? 0x10ffff then [c; c + 1] else [c]).
  { unfold one_bmp, one_supp. destruct (Z.ltb_spec c 0xffff), (Z.eqb_spec c 0xffff), (Z.ltb_spec c 0x10ffff); done || lia. }
  rewrite E. destruct (Z.ltb_spec c 0x10ffff), (Z.ltb_spec d c).
  - rewrite inv_mem_above by (repeat constructor; lia). symmetry. apply Z.eqb_neq. lia.
  - rewrite inv_mem_cons_le by lia. destruct (Z.eqb_spec d c).
    + rewrite inv_mem_above by (repeat constructor; lia). done.
    + rewrite inv_mem_cons_le, inv_mem_above by (lia || constructor). done.
  - rewrite inv_mem_above by (repeat constructor; lia). symmetry. apply Z.eqb_neq. lia.
  - rewrite inv_mem_cons_le by lia. rewrite inv_mem_above by constructor. symmetry. apply Z.eqb_eq. lia.
Qed.

(** [uset_setSerializedToOne] makes the set of the one code point, for lookups in the same
    half of the code space (all lookups for U+FFFF, whose list has values in both halves). *)
Theorem setSerializedToOne_contains fill arr c d :
  zlen arr = USET_SERIALIZED_STATIC_ARRAY_CAPACITY -> 0 <= c <= 0x10ffff -> 0 <= d <= 0x10ffff ->
  c = 0xffff \/ c <= 0xffff /\ d <= 0xffff \/ 0xffff < c /\ 0xffff < d ->
  exists s, uset_setSerializedToOne fill arr c = Some s /\ uset_serializedContains s d = Some (d =? c).
Proof.
  intros Harr Hc Hd Hhalf. destruct (toOne_holds fill arr c Harr Hc) as (s & E & Hh & _ & _). exists s. split; [done|].
  rewrite <- one_mem by lia. destruct (Z.leb_spec d 0xffff).
  - apply contains_bmp; [done|lia|]. left. unfold one_bmp. destruct (Z.ltb_spec c 0xffff); [done|]. destruct (Z.eqb_spec c 0xffff); [done|].
    lia.
  - apply contains_supp; [done|unfold supp_value, UNICODESET_HIGH; lia|]. unfold one_supp. destruct (Z.ltb_spec c 0xffff); [|destruct (c =? 0xffff), (c <? 0x10ffff); done].
    lia.
Qed.

Lemma setSerializedToOne_contains_witness :
  exists s, uset_setSerializedToOne (mk [] 0 0 0) [0; 0; 0; 0; 0; 0; 0; 0] 0xffff = Some s /\ uset_serializedContains s 0x10000 = Some (0x10000 =? 0xffff).
Proof. apply setSerializedToOne_contains; [reflexivity|lia|lia|by left]. Defined.

(** With no supplementary value the search starts from [hi] = -2 and does not move. *)
Lemma supp_search_stuck fuel s high low : bmpLength s = 2 -> pair_less s high low 0 = Some true -> supp_search fuel s high low 0 (-2) = None.
Proof.
  intros Hb Hless. induction fuel as [|fuel IH]; [done|]. cbn [supp_search]. change (Z.land (Z.shiftr (0 + -2) 1) (Z.lnot 1)) with (-2).
  change (-2 =? 0) with false. cbv iota. rewrite Hb. change (-2 + 2) with 0. rewrite Hless. exact IH.
Qed.

(** C37: a supplementary code point looked up in the set of one BMP code point between U+0011 and
    U+FFFE: what is behind the two values in the static array is read, and if that is 0 (as in a cleared structure) the
    binary search never ends: no number of steps gives a result. *)
Theorem serialized_supplementary_lookup_diverges fill arr c d :
  zlen arr = USET_SERIALIZED_STATIC_ARRAY_CAPACITY -> zget arr 2 = Some 0 -> 0x10 < c < 0xffff -> 0x10000 <= d <= 0x10ffff ->
  exists s, uset_setSerializedToOne fill arr c = Some s /\ forall fuel, serializedContains_fuel fuel s d = None.
Proof.
  intros Harr Hz Hc Hd. destruct (toOne_holds fill arr c Harr ltac:(lia)) as (s & E & Hh & Ho & Hu). exists s. split; [done|]. intros fuel.
  assert (Ea : one_bmp c = [c; c + 1]) by (unfold one_bmp; destruct (Z.ltb_spec c 0xffff); [done|lia]).
  assert (Eb : one_supp c = []) by (unfold one_supp; destruct (Z.ltb_spec c 0xffff); [done|lia]). rewrite Ea, Eb in Hh.
  unfold serializedContains_fuel. destruct (Z.ltb_spec d 0), (Z.ltb_spec 0x10ffff d), (Z.leb_spec d 0xffff); [lia..|]. cbn [orb].
  rewrite (ho_bmp _ _ _ Hh), (ho_length _ _ _ Hh). change (zlen [c; c + 1]) with 2. change (2 + 2 * zlen (@nil Z) - 2 - 2) with (-2).
  set (high := uint16 (Z.shiftr d 16)). assert (Hhigh : 0 < high <= 0x10) by (unfold high; rewrite Z.shiftr_div_pow2 by lia; change (2 ^ 16) with 65536; unfold uint16; dlia).
  assert (Hless : pair_less s high (uint16 d) 0 = Some true).
  { unfold pair_less. rewrite (at_bmp s _ _ Hh 0 c eq_refl). cbn [mbind option_bind]. destruct (Z.ltb_spec high c); [done|lia]. }
  assert (Hmore : pair_less s high (uint16 d) 2 = Some false).
  { unfold pair_less, at_. rewrite Ho. change (0 + 2) with 2. rewrite Hu, Hz by lia. cbn [mbind option_bind]. destruct (Z.ltb_spec high 0), (Z.eqb_spec high 0); lia || done. }
  rewrite Hmore. cbn [mbind option_bind]. change (2 + -2) with 0. rewrite Hless. cbn [mbind option_bind].
  by rewrite (supp_search_stuck fuel s _ _ (ho_bmp _ _ _ Hh) Hless).
Qed.

Lemma serialized_supplementary_lookup_diverges_witness :
  exists s, uset_setSerializedToOne (mk [] 0 0 0) [0; 0; 0; 0; 0; 0; 0; 0] 0x41 = Some s /\ forall fuel, serializedContains_fuel fuel s 0x10000 = None.
Proof. apply serialized_supplementary_lookup_diverges; [reflexivity|reflexivity|lia|lia]. Defined.

(** A BMP code point looked up in the set of a supplementary one: the unit in front of the array is read. *)
Example one_supplementary_reads_in_front :
  (s ← uset_setSerializedToOne (mk [] 0 0 0) [0; 0; 0; 0; 0; 0; 0; 0] 0x10000; uset_serializedContains s 0x41) = None.
Proof. reflexivity. Qed.
End SerializedSet.
