(* ===== verification/UnicodeSetIndex.v ===== *)
(** * The elements by index

    [charAt] and [indexOf] number the code points of a set in ascending order, and [size]
    counts them with the strings: against the enumeration that an inversion list stands for. *)

From S2P Require Import Prelude Vector Utf16 UString InversionList BMPSet UnicodeSet UnicodeSetFacts UnicodeSetAlgebra.
Import InvList UnicodeSet UnicodeSetFacts UnicodeSetAlgebra.

Module UnicodeSetIndex.

(** The code points below a list's ranges [start, limit) are counted range by range. *)
Fixpoint total (l : list Z) : Z :=
  match l with a :: b :: r => (b - a) + total r | _ => 0 end.

Fixpoint rank (l : list Z) (c n : Z) : Z :=
  match l with
  | a :: b :: r => if c <? a then -1 else if c <? b then n + c - a else rank r c (n + (b - a))
  | _ => -1
  end.

Fixpoint nth_cp (l : list Z) (k : Z) : Z :=
  match l with
  | a :: b :: r => if k <? b - a then a + k else nth_cp r (k - (b - a))
  | _ => -1
  end.

Lemma rank_cons a b r c n :
  rank (a :: b :: r) c n = if c <? a then -1 else if c <? b then n + c - a else rank r c (n + (b - a)).
Proof. done. Qed.

Lemma nth_cp_cons a b r k : nth_cp (a :: b :: r) k = if k <? b - a then a + k else nth_cp r (k - (b - a)).
Proof. done. Qed.

(** Induction over the ranges of a list that ascends to [UNICODESET_HIGH]. *)
Lemma ranges_ind (P : Z -> list Z -> Prop) :
  P UNICODESET_HIGH [] ->
  (forall a, a < UNICODESET_HIGH -> P a [UNICODESET_HIGH]) ->
  (forall a b c r, a < b -> b < c -> chain c r -> P c r -> P a (b :: c :: r)) ->
  forall a r, chain a r -> P a r.
Proof.
  intros H1 H2 H3 a r. remember (length r) as n eqn:En. revert a r En.
  induction n as [n IH] using lt_wf_ind. intros a r En Hc.
  destruct (decide (a = UNICODESET_HIGH)) as [->|Hne].
  { by apply chain_HIGH in Hc as ->. }
  destruct (chain_next a r Hc Hne) as (b & r' & -> & Hab & Hb).
  destruct (decide (b = UNICODESET_HIGH)) as [->|Hne'].
  { apply chain_HIGH in Hb as ->. by apply H2. }
  destruct (chain_next b r' Hb Hne') as (c & r'' & -> & Hbc & Hc'). apply H3; auto.
  apply (IH (length r'')); auto. cbn in En. lia.
Qed.

Lemma total_nonneg a r : chain a r -> 0 <= total (a :: r) <= UNICODESET_HIGH - a.
Proof.
  intros Hc. induction Hc as [|a Ha|a b d r Hab Hbd Hd IH] using ranges_ind; [done|cbn; lia|].
  pose proof (chain_bound _ _ Hd). change (total (a :: b :: d :: r)) with (b - a + total (d :: r)). lia.
Qed.

(** ** Numbering and its inverse *)

Lemma rank_out a r c n : chain a r -> c < UNICODESET_HIGH -> inv_mem (a :: r) c = false -> rank (a :: r) c n = -1.
Proof.
  intros Hc Hlt. revert n. induction Hc as [|a Ha|a b d r Hab Hbd Hd IH] using ranges_ind; intros n Hm; [done|..].
  - rewrite ?rank_cons. cbn in Hm. destruct (Z.ltb_spec c a); [done|]. destruct (Z.leb_spec a c); [|lia].
    destruct (Z.leb_spec UNICODESET_HIGH c); [lia|done].
  - rewrite ?rank_cons. destruct (Z.ltb_spec c a); [done|]. rewrite inv_mem_cons_le in Hm by lia.
    destruct (Z.ltb_spec c b).
    + rewrite inv_mem_cons_gt, (inv_mem_chain_above d) in Hm by (done || lia). done.
    + rewrite inv_mem_cons_le, negb_involutive in Hm by lia. by apply IH.
Qed.

Lemma rank_in a r c n :
  chain a r -> c < UNICODESET_HIGH -> inv_mem (a :: r) c = true ->
  exists k, 0 <= k < total (a :: r) /\ rank (a :: r) c n = n + k /\ nth_cp (a :: r) k = c.
Proof.
  intros Hc Hlt. revert n. induction Hc as [|a Ha|a b d r Hab Hbd Hd IH] using ranges_ind; intros n Hm.
  - cbn in Hm. destruct (Z.leb_spec UNICODESET_HIGH c); [lia|done].
  - cbn in Hm. destruct (Z.leb_spec UNICODESET_HIGH c); [lia|]. destruct (Z.leb_spec a c); [|done].
    exists (c - a). cbn [rank nth_cp total]. destruct (Z.ltb_spec c a), (Z.ltb_spec c UNICODESET_HIGH),
      (Z.ltb_spec (c - a) (UNICODESET_HIGH - a)); try lia.
  - pose proof (total_nonneg d r Hd). rewrite ?rank_cons, ?nth_cp_cons. change (total (a :: b :: d :: r)) with (b - a + total (d :: r)).
    destruct (Z.ltb_spec c a).
    { rewrite inv_mem_cons_gt, inv_mem_cons_gt, inv_mem_chain_above in Hm by (done || lia). done. }
    destruct (Z.ltb_spec c b).
    + exists (c - a). rewrite nth_cp_cons. destruct (Z.ltb_spec (c - a) (b - a)); [|lia]. split_and!; lia.
    + rewrite (inv_mem_cons_le a), (inv_mem_cons_le b), negb_involutive in Hm by lia. destruct (IH (n + (b - a)) Hm) as (k & Hk & -> & Hn).
      exists (b - a + k). rewrite nth_cp_cons. destruct (Z.ltb_spec (b - a + k) (b - a)); [lia|].
      replace (b - a + k - (b - a)) with k by lia. split_and!; auto; lia.
Qed.

Lemma nth_cp_in a r k n :
  chain a r -> 0 <= a -> 0 <= k < total (a :: r) ->
  let c := nth_cp (a :: r) k in
  a <= c < UNICODESET_HIGH /\ inv_mem (a :: r) c = true /\ rank (a :: r) c n = n + k.
Proof.
  intros Hc. revert k n. induction Hc as [|a Ha|a b d r Hab Hbd Hd IH] using ranges_ind; intros k n H0 Hk; cbn zeta.
  - cbn in Hk. lia.
  - cbn [total] in Hk. cbn [nth_cp rank inv_mem]. destruct (Z.ltb_spec k (UNICODESET_HIGH - a)); [|lia].
    split_and!; [lia|lia| |].
    + destruct (Z.leb_spec a (a + k)), (Z.leb_spec UNICODESET_HIGH (a + k)); lia || done.
    + destruct (Z.ltb_spec (a + k) a), (Z.ltb_spec (a + k) UNICODESET_HIGH); lia.
  - change (total (a :: b :: d :: r)) with (b - a + total (d :: r)) in Hk. rewrite ?nth_cp_cons, ?rank_cons.
    pose proof (chain_bound _ _ Hd). destruct (Z.ltb_spec k (b - a)).
    + split_and!; [lia|lia| |].
      * rewrite inv_mem_cons_le, inv_mem_cons_gt, inv_mem_chain_above by (done || lia). done.
      * destruct (Z.ltb_spec (a + k) a), (Z.ltb_spec (a + k) b); lia.
    + destruct (IH (k - (b - a)) (n + (b - a))) as (Hr & Hm & Hn); [lia|lia|].
      set (c := nth_cp (d :: r) (k - (b - a))) in *.
      split_and!; [lia|lia| |].
      * rewrite (inv_mem_cons_le a), (inv_mem_cons_le b), negb_involutive by lia. done.
      * change (nth_cp _ _) with c. destruct (Z.ltb_spec c a), (Z.ltb_spec c b); lia.
Qed.

Lemma nth_cp_out a r k : chain a r -> total (a :: r) <= k -> nth_cp (a :: r) k = -1.
Proof.
  intros Hc. revert k. induction Hc as [|a Ha|a b d r Hab Hbd Hd IH] using ranges_ind; intros k Hk; [done|..].
  - cbn [total] in Hk. rewrite ?nth_cp_cons. destruct (Z.ltb_spec k (UNICODESET_HIGH - a)); [lia|done].
  - change (total (a :: b :: d :: r)) with (b - a + total (d :: r)) in Hk. pose proof (total_nonneg d r Hd). rewrite ?nth_cp_cons.
    destruct (Z.ltb_spec k (b - a)); [lia|]. apply IH. lia.
Qed.

(** The numbering is ascending. *)
Lemma nth_cp_mono a r j k :
  chain a r -> 0 <= a -> 0 <= j < k -> k < total (a :: r) -> nth_cp (a :: r) j < nth_cp (a :: r) k.
Proof.
  intros Hc. revert j k. induction Hc as [|a Ha|a b d r Hab Hbd Hd IH] using ranges_ind; intros j k H0 Hj Hk.
  - cbn in Hk. lia.
  - cbn [total] in Hk. rewrite ?nth_cp_cons. destruct (Z.ltb_spec j (UNICODESET_HIGH - a)), (Z.ltb_spec k (UNICODESET_HIGH - a)); lia.
  - change (total (a :: b :: d :: r)) with (b - a + total (d :: r)) in Hk. rewrite ?nth_cp_cons.
    destruct (Z.ltb_spec j (b - a)), (Z.ltb_spec k (b - a)); try lia.
    + destruct (nth_cp_in d r (k - (b - a)) 0 Hd) as ((? & _) & _); lia.
    + apply IH; lia.
Qed.

(** ** The loops *)

Lemma zget_1 {A} (p : list A) x y q : zget (p ++ x :: y :: q) (zlen p + 1) = Some y.
Proof.
  replace (p ++ x :: y :: q) with ((p ++ [x]) ++ y :: q) by (by rewrite <- app_assoc).
  rewrite zget_app_r by (rewrite zlen_app; change (zlen [x]) with 1; lia).
  rewrite zlen_app. change (zlen [x]) with 1. by rewrite Z.sub_diag.
Qed.

Lemma two_more {A} (p : list A) x y q : p ++ x :: y :: q = (p ++ [x; y]) ++ q.
Proof. by rewrite <- app_assoc. Qed.

Lemma indexOf_loop_rank fuel a r p st c n :
  chain a r -> c < UNICODESET_HIGH -> (length (a :: r) < fuel)%nat ->
  indexOf_loop fuel (p ++ (a :: r) ++ st) c (zlen p) n = Some (rank (a :: r) c n).
Proof.
  intros Hc Hlt. revert fuel p n. induction Hc as [|a Ha|a b d r Hab Hbd Hd IH] using ranges_ind; intros fuel p n Hf;
    (destruct fuel as [|fuel]; [cbn in Hf; lia|]); cbn [indexOf_loop app]; rewrite zget_middle; cbn [mbind option_bind].
  - destruct (Z.ltb_spec c UNICODESET_HIGH); [done|lia].
  - rewrite rank_cons. destruct (c <? a); [done|]. rewrite zget_1. cbn [mbind option_bind].
    destruct (Z.ltb_spec c UNICODESET_HIGH); [done|lia].
  - rewrite rank_cons. destruct (c <? a); [done|]. rewrite zget_1. cbn [mbind option_bind].
    destruct (c <? b); [done|]. rewrite two_more. replace (zlen p + 2) with (zlen (p ++ [a; b])) by (by rewrite zlen_app).
    apply (IH fuel (p ++ [a; b])). cbn in *. lia.
Qed.

Lemma charAt_loop_nth a r p st k :
  chain a r -> charAt_loop (Nat.div2 (length (a :: r))) (p ++ (a :: r) ++ st) (zlen p) k = Some (nth_cp (a :: r) k).
Proof.
  intros Hc. revert p k. induction Hc as [|a Ha|a b d r Hab Hbd Hd IH] using ranges_ind; intros p k;
    cbn [length Nat.div2 charAt_loop app]; [done|..]; rewrite zget_middle; cbn [mbind option_bind];
    rewrite zget_1; cbn [mbind option_bind]; rewrite nth_cp_cons; (destruct (k <? _); [done|]).
  - done.
  - rewrite two_more. replace (zlen p + 2) with (zlen (p ++ [a; b])) by (by rewrite zlen_app). apply IH.
Qed.

Section Index.
Context {HP : Heap} {OS : ObjectSizes} {SP : StringSpan}.
Implicit Types s : t.

Lemma size_loop_total s a r p st i acc :
  chain a r -> list_ s = Some (p ++ (a :: r) ++ st) -> zlen p = 2 * i -> 0 <= a -> 0 <= acc <= a ->
  size_loop (Nat.div2 (length (a :: r))) s i acc = Some (acc + total (a :: r)).
Proof.
  intros Hc. revert p i acc. induction Hc as [|a Ha|a b d r Hab Hbd Hd IH] using ranges_ind; intros p i acc E Hp H0 Hacc;
    cbn [length Nat.div2 size_loop]; [by rewrite Z.add_0_r|..];
    unfold getRangeEnd, getRangeStart; rewrite E; cbn [mbind option_bind app];
    replace (i * 2) with (zlen p) by lia; rewrite zget_1, zget_middle; cbn [mbind option_bind].
  - rewrite int32_small by (unfold is_int32, INT32_MIN, INT32_MAX, UNICODESET_HIGH in *; lia). cbn [total]. f_equal. lia.
  - pose proof (chain_bound _ _ Hd).
    rewrite int32_small by (unfold is_int32, INT32_MIN, INT32_MAX, UNICODESET_HIGH in *; lia).
    rewrite (IH (p ++ [a; b]) (i + 1)).
    + change (total (a :: b :: d :: r)) with (b - a + total (d :: r)). f_equal. lia.
    + rewrite E. by rewrite <- app_assoc.
    + rewrite zlen_app. change (zlen [a; b]) with 2. lia.
    + lia.
    + lia.
Qed.

(** The number of code points of a set. *)
Definition cp_count s : Z := total (values s).

(** [charAt] lists the code points of the set in ascending order, indexes 0 to one below
    their number, and [indexOf] is its inverse; outside both answer -1.  [size] is that number
    plus the number of strings. *)
Theorem elements_by_index s :
  wf s ->
  let n := cp_count s in
  size s = Some (n + zlen (strs s)) /\
  (forall c, 0 <= c < UNICODESET_HIGH -> has s c = true ->
     exists i, 0 <= i < n /\ indexOf s c = Some i /\ charAt s i = Some c) /\
  (forall c, 0 <= c < UNICODESET_HIGH -> has s c = false -> indexOf s c = Some (-1)) /\
  (forall i, 0 <= i < n -> exists c, charAt s i = Some c /\ 0 <= c < UNICODESET_HIGH /\ has s c = true /\
     indexOf s c = Some i) /\
  (forall i, i < 0 \/ n <= i -> charAt s i = Some (-1)) /\
  (forall i j c d, 0 <= i < j -> j < n -> charAt s i = Some c -> charAt s j = Some d -> c < d).
Proof.
  intros Hwf n. destruct (values_split s Hwf) as (cells & st & E & Ec & Hz & Hcap).
  destruct (wf_list_chain _ (wf_values s Hwf)) as (a & r & Ev & Hch & Ha).
  assert (Hio : forall c, 0 <= c < UNICODESET_HIGH -> indexOf s c = Some (rank (values s) c 0)).
  { intros c Hc. unfold indexOf, MIN_VALUE, MAX_VALUE. destruct ((c <? 0) || (0x10ffff <? c)) eqn:Hr; [unfold UNICODESET_HIGH in *; lia|].
    rewrite E. cbn [mbind option_bind]. rewrite Ec, Ev. apply (indexOf_loop_rank _ a r [] st); [done|lia|].
    rewrite length_app. lia. }
  assert (Hca : forall i, 0 <= i -> charAt s i = Some (nth_cp (values s) i)).
  { intros i Hi. unfold charAt. destruct (Z.leb_spec 0 i); [|lia]. rewrite E. cbn [mbind option_bind].
    assert (Z.to_nat (Z.land (len s) (Z.lnot 1) / 2) = Nat.div2 (length (values s))) as ->.
    { rewrite <- Z.ldiff_land. change 1 with (Z.ones 1). rewrite Z.ldiff_ones_r by lia.
      rewrite Z.shiftl_mul_pow2, Z.shiftr_div_pow2 by lia. change (2 ^ 1) with 2. rewrite Z.div_mul by lia.
      rewrite <- Hz. unfold zlen. rewrite Nat.div2_div. apply Nat2Z.inj. rewrite Z2Nat.id by dlia.
      by rewrite Nat2Z.inj_div. }
    rewrite Ec, Ev. apply (charAt_loop_nth a r [] st i Hch). }
  unfold n, cp_count, has in *. rewrite Ev in *. split_and!.
  - unfold size. destruct (wf_strs s Hwf) as (v & Evs & Hv & ->). rewrite Evs.
    assert (Z.to_nat (getRangeCount s) = Nat.div2 (length (a :: r))) as ->.
    { unfold getRangeCount. rewrite Z.quot_div_nonneg by (pose proof (wf_len s Hwf); lia).
      rewrite <- Hz. unfold zlen. rewrite Nat.div2_div. apply Nat2Z.inj. rewrite Z2Nat.id by dlia.
      by rewrite Nat2Z.inj_div. }
    rewrite (size_loop_total s a r [] st 0 0) by (done || lia || by rewrite E, Ec).
    cbn [mbind option_bind]. pose proof (total_nonneg a r Hch). pose proof (sw_wf v Hv) as (_ & _ & _ & Hcnt & Hmax).
    change (INT32_MAX / UVector.sizeof_UElement) with 268435455 in Hmax.
    rewrite int32_small by (unfold is_int32, INT32_MIN, INT32_MAX, UNICODESET_HIGH in *; lia).
    by rewrite UVector.contents_zlen, Z.add_0_l by apply Hv.
  - intros c Hc Hm. destruct (rank_in a r c 0 Hch) as (k & Hk & Er & En); [lia|done|].
    exists k. rewrite Hio, Hca by lia. rewrite Er, En. auto.
  - intros c Hc Hm. rewrite Hio by done. f_equal. apply rank_out; [done|lia|done].
  - intros i Hi. destruct (nth_cp_in a r i 0 Hch) as (Hr & Hm & En); [lia|done|].
    eexists. rewrite Hca by lia. split_and!; [done|lia|lia|done|]. by rewrite Hio, En by lia.
  - intros i [Hi|Hi].
    + unfold charAt. destruct (Z.leb_spec 0 i); [lia|done].
    + pose proof (total_nonneg a r Hch). rewrite Hca by lia. f_equal. by apply nth_cp_out.
  - intros i j c d Hi Hj. rewrite !Hca by lia. intros [= <-] [= <-]. by apply nth_cp_mono.
Qed.
End Index.

Lemma elements_by_index_witness :
  size letters = Some 27 /\ indexOf letters 0x63 = Some 2 /\ charAt letters 2 = Some 0x63 /\
  (forall c, 0 <= c < UNICODESET_HIGH -> has letters c = false -> indexOf letters c = Some (-1)).
Proof.
  pose proof (elements_by_index letters (proj1 letters_live)) as (Hs & _ & Ho & _).
  split_and!; [exact Hs|reflexivity|reflexivity|exact Ho].
Defined.
End UnicodeSetIndex.
