(* ===== verification/SetIterator.v ===== *)
(** * The iterator over a set (common/usetiter.cpp)

    A [UnicodeSetIterator] walks the code points of a set one by one ([next]) or range by range
    ([nextRange]), then its strings; the two may be mixed.  The set is not modified while it is
    walked.  Against an abstract cursor: the ranges and the strings that are still to come. *)

From S2P Require Import Prelude Vector Utf16 UString InversionList BMPSet UnicodeSet UnicodeSetFacts UnicodeSetAlgebra UnicodeSetIndex.
Import InvList UnicodeSet UnicodeSetFacts UnicodeSetAlgebra UnicodeSetIndex.

Module SetIterator.

Definition IS_STRING : Z := -1.

(** What [string] points to: nothing, a string of the set, or the iterator's own [cpString]. *)
Inductive string_ptr := NullString | SetString (str : ustr) | CpString.

(** An element of the strings, as [const UnicodeString *]. *)
Definition as_string (e : UVector.UElement ustr) : string_ptr :=
  match the_string e with Some str => SetString str | None => NullString end.

Section Iterator.
Context {HP : Heap} {OS : ObjectSizes} {SP : StringSpan}.
Notation uset := UnicodeSet.t.

Record t := mk {
  codepoint : Z;
  codepointEnd : Z;
  string_ : string_ptr;
  set_ : option uset;
  endRange : Z;
  range : Z;
  endElement : Z;
  nextElement : Z;
  nextString : Z;
  stringCount : Z;
  cpString : option ustr
}.

Definition set_element it (c e : Z) (str : string_ptr) : t :=
  mk c e str (set_ it) (endRange it) (range it) (endElement it) (nextElement it) (nextString it) (stringCount it) (cpString it).
Definition set_range it (r : Z) : t :=
  mk (codepoint it) (codepointEnd it) (string_ it) (set_ it) (endRange it) r (endElement it) (nextElement it) (nextString it) (stringCount it) (cpString it).
Definition set_elements it (next end_ : Z) : t :=
  mk (codepoint it) (codepointEnd it) (string_ it) (set_ it) (endRange it) (range it) end_ next (nextString it) (stringCount it) (cpString it).
Definition set_nextString it (n : Z) : t :=
  mk (codepoint it) (codepointEnd it) (string_ it) (set_ it) (endRange it) (range it) (endElement it) (nextElement it) n (stringCount it) (cpString it).
Definition set_cpString it (str : string_ptr) (own : option ustr) : t :=
  mk (codepoint it) (codepointEnd it) str (set_ it) (endRange it) (range it) (endElement it) (nextElement it) (nextString it) (stringCount it) own.

Definition isString it : bool := codepoint it =? IS_STRING.
Definition getCodepoint it : Z := codepoint it.
Definition getCodepointEnd it : Z := codepointEnd it.

Definition loadRange it (iRange : Z) : option t :=
  s ← set_ it; b ← getRangeStart s iRange; e ← getRangeEnd s iRange; Some (set_elements it b e).

Definition reset it : option t :=
  '(er, sc) ← match set_ it with
              | None => Some (-1, 0)
              | Some s => v ← strings s; Some (getRangeCount s - 1, UVector.count v)
              end;
  let it := mk (codepoint it) (codepointEnd it) (string_ it) (set_ it) er 0 (-1) 0 (nextString it) sc (cpString it) in
  it ← (if 0 <=? endRange it then loadRange it (range it) else Some it);
  let it := set_nextString it 0 in
  Some (set_element it (codepoint it) (codepointEnd it) NullString).

Definition reset_to it (uSet : uset) : option t :=
  reset (mk (codepoint it) (codepointEnd it) (string_ it) (Some uSet) (endRange it) (range it) (endElement it) (nextElement it) (nextString it) (stringCount it) (cpString it)).

(** The constructors; [fresh] is what the fields hold before. *)
Definition new_iterator (fresh : t) (uSet : uset) : option t := reset_to (set_cpString fresh (string_ fresh) None) uSet.
Definition new_empty (fresh : t) : option t :=
  reset (mk (codepoint fresh) (codepointEnd fresh) (string_ fresh) None (endRange fresh) (range fresh) (endElement fresh) (nextElement fresh)
            (nextString fresh) (stringCount fresh) None).

(** The strings, behind the code points, in both [next] and [nextRange]. *)
Definition next_string it : option (t * bool) :=
  if stringCount it <=? nextString it then Some (it, false)
  else
    s ← set_ it; v ← strings s; e ← UVector.elementAt v (nextString it);
    Some (set_element (set_nextString it (nextString it + 1)) IS_STRING (codepointEnd it) (as_string e), true).

Definition next it : option (t * bool) :=
  let step it := set_element (set_elements it (nextElement it + 1) (endElement it)) (nextElement it) (nextElement it) NullString in
  if nextElement it <=? endElement it then Some (step it, true)
  else if range it <? endRange it then it ← loadRange (set_range it (range it + 1)) (range it + 1); Some (step it, true)
  else next_string it.

Definition nextRange it : option (t * bool) :=
  let it := set_element it (codepoint it) (codepointEnd it) NullString in
  let step it := set_element (set_elements it (endElement it + 1) (endElement it)) (nextElement it) (endElement it) NullString in
  if nextElement it <=? endElement it then Some (step it, true)
  else if range it <? endRange it then it ← loadRange (set_range it (range it + 1)) (range it + 1); Some (step it, true)
  else next_string it.

(** [UnicodeString::setTo(UChar32)]: the whole text is replaced by the code point, or by nothing. *)
Definition setTo_char32 (srcChar : Z) : option ustr :=
  '(buffer, count, isError) ← Utf16.U16_APPEND [junk; junk] 0 2 srcChar;
  Some (UnicodeString.Str (ztake (if (isError : bool) then 0 else count) buffer)).

(** The string that is returned, and the iterator after. *)
Definition getString it : option (t * ustr) :=
  it ← match string_ it with
       | NullString =>
           if negb (codepoint it =? IS_STRING) then
             let own := match cpString it with Some own => Some own | None => if new_object sizeof_UnicodeString then Some (UnicodeString.Str []) else None end in
             match own with
             | Some _ => str ← setTo_char32 (codepoint it); Some (set_cpString it CpString (Some str))
             | None => Some (set_cpString it NullString None)
             end
           else Some it
       | _ => Some it
       end;
  match string_ it with
  | NullString => None
  | SetString str => Some (it, str)
  | CpString => str ← cpString it; Some (it, str)
  end.

(** ** The abstract cursor *)

(** What is still to come: ranges of code points, then strings. *)
Record cursor := { ranges : list (Z * Z); texts_ : list (UVector.UElement ustr) }.

(** What a call shows: a code point, a range, a string; or that nothing is left. *)
Inductive item := Code (c : Z) | Range (b e : Z) | Text (p : string_ptr) | Nothing.

Definition pop_string (k : cursor) : cursor * item :=
  match texts_ k with
  | [] => (k, Nothing)
  | e :: es => ({| ranges := ranges k; texts_ := es |}, Text (as_string e))
  end.

Definition pop (k : cursor) : cursor * item :=
  match ranges k with
  | [] => pop_string k
  | (b, e) :: r => ({| ranges := if b <? e then (b + 1, e) :: r else r; texts_ := texts_ k |}, Code b)
  end.

Definition pop_range (k : cursor) : cursor * item :=
  match ranges k with
  | [] => pop_string k
  | (b, e) :: r => ({| ranges := r; texts_ := texts_ k |}, Range b e)
  end.

(** The ranges of an inversion list. *)
Fixpoint range_list (l : list Z) : list (Z * Z) :=
  match l with a :: b :: r => (a, b - 1) :: range_list r | _ => [] end.

Definition whole s : cursor := {| ranges := range_list (values s); texts_ := strs s |}.

(** The iterator over [s] has the ranges and strings of [k] still to come. *)
Record stands_at (s : uset) (it : t) (k : cursor) : Prop := {
  st_set : set_ it = Some s;
  st_endRange : endRange it = getRangeCount s - 1;
  st_stringCount : stringCount it = zlen (strs s);
  st_range : 0 <= range it;
  st_next : 0 <= nextElement it;
  st_end : endElement it < UNICODESET_HIGH;
  st_ranges : ranges k = (if nextElement it <=? endElement it then [(nextElement it, endElement it)] else []) ++
    range_list (drop (Z.to_nat (2 * (range it + 1))) (values s));
  st_nextString : 0 <= nextString it <= stringCount it;
  st_texts : texts_ k = drop (Z.to_nat (nextString it)) (strs s)
}.

Lemma strings_of s : wf s -> exists v, strings s = Some v /\ strings_wf v /\ strs s = UVector.contents v /\ UVector.count v = zlen (strs s).
Proof.
  intros Hwf. destruct (wf_strings s Hwf) as (v & Ev & Hv). exists v. unfold strs. rewrite Ev. split_and!; auto.
  symmetry. apply UVector.contents_zlen, Hv.
Qed.

(** The ranges from range [i] on. *)
Lemma ranges_from s i :
  wf s -> 0 <= i ->
  if i <? getRangeCount s
  then exists b e, getRangeStart s i = Some b /\ getRangeEnd s i = Some e /\ 0 <= b <= e /\ e < UNICODESET_HIGH /\
    range_list (drop (Z.to_nat (2 * i)) (values s)) = (b, e) :: range_list (drop (Z.to_nat (2 * (i + 1))) (values s))
  else range_list (drop (Z.to_nat (2 * i)) (values s)) = [].
Proof.
  intros Hwf Hi. destruct (Z.ltb_spec i (getRangeCount s)) as [Hlt|Hge].
  - destruct (range_bounds s i Hwf) as (b & e & Eb & Ee & Hbe & He & _ & Gb & Ge); [lia|]. exists b, e. split; [done|]. split; [done|]. split; [done|]. split; [done|].
    apply zget_Some_lookup in Gb as [_ Gb]. apply zget_Some_lookup in Ge as [_ Ge].
    rewrite (drop_S _ _ _ Gb). replace (S (Z.to_nat (2 * i))) with (Z.to_nat (2 * i + 1)) by lia. rewrite (drop_S _ _ _ Ge).
    replace (S (Z.to_nat (2 * i + 1))) with (Z.to_nat (2 * (i + 1))) by lia. cbn [range_list]. do 2 f_equal. lia.
  - pose proof (values_split s Hwf) as (_ & _ & _ & _ & Hz & _). pose proof (wf_len s Hwf). unfold getRangeCount in Hge. rewrite Z.quot_div_nonneg in Hge by lia.
    assert (Hl : (List.length (drop (Z.to_nat (2 * i)) (values s)) <= 1)%nat) by (unfold zlen in Hz; rewrite length_drop; dlia).
    destruct (drop _ _) as [|x [|y l]]; [done|done|cbn in Hl; lia].
Qed.

Section Steps.
Context (s : uset) (Hwf : wf s).

(** [reset] starts from the beginning, wherever the iterator was. *)
Lemma reset_to_spec it : exists it', reset_to it s = Some it' /\ stands_at s it' (whole s).
Proof using Hwf.
  destruct (strings_of s Hwf) as (v & Ev & Hv & Es & Ec). unfold reset_to, reset. cbn [set_]. rewrite Ev. cbn [mbind option_bind endRange range].
  pose proof (ranges_from s 0 Hwf ltac:(lia)) as Hr. pose proof (getRangeCount_nonneg s Hwf). pose proof (zlen_nonneg (strs s)). change (drop (Z.to_nat (2 * 0)) (values s)) with (values s) in Hr.
  destruct (Z.leb_spec 0 (getRangeCount s - 1)), (Z.ltb_spec 0 (getRangeCount s)); try lia.
  - destruct Hr as (b & e & Eb & Ee & Hbe & He & Hr). unfold loadRange. cbn [set_ mbind option_bind]. rewrite Eb. cbn [mbind option_bind]. rewrite Ee. cbn [mbind option_bind].
    eexists. split; [done|]. split; cbn; try done; [lia| |lia]. rewrite Hr. destruct (Z.leb_spec b e); [done|lia].
  - cbn [mbind option_bind]. eexists. split; [done|]. split; cbn; try done; [|lia]. rewrite Hr.
    pose proof (ranges_from s 1 Hwf ltac:(lia)) as Hr1. destruct (Z.ltb_spec 1 (getRangeCount s)); [lia|]. symmetry. exact Hr1.
Qed.

(** What a call of [next] and one of [nextRange] show. *)
Definition shown (element : t -> item) (r : t * bool) : item :=
  if r.2 then if isString r.1 then Text (string_ r.1) else element r.1 else Nothing.
Definition one_element it : item := Code (codepoint it).
Definition one_range it : item := Range (codepoint it) (codepointEnd it).

Lemma next_string_spec element it k :
  stands_at s it k -> ranges k = [] ->
  exists r, next_string it = Some r /\ stands_at s r.1 (pop_string k).1 /\ shown element r = (pop_string k).2.
Proof using Hwf.
  intros [Eset Eer Esc Hr Hn He' Hrs Hns Hts] Hemp. unfold next_string, pop_string. rewrite Hts. destruct (strings_of s Hwf) as (v & Ev & Hv & Es & Ec).
  destruct (Z.leb_spec (stringCount it) (nextString it)).
  - rewrite drop_ge by (unfold zlen in Esc; lia). eexists. split; [done|]. split; [|done]. cbn [fst]. split; auto.
  - destruct (elementAt_string v (nextString it) Hv) as (str & Hel & _ & Eat); [lia|]. rewrite Eset. cbn [mbind option_bind]. rewrite Ev. cbn [mbind option_bind]. rewrite Eat. cbn [mbind option_bind].
    rewrite <- Es in Hel. rewrite (drop_S _ _ _ Hel). eexists. split; [done|]. split; [|done]. split; cbn; auto; [lia|].
    by replace (S (Z.to_nat (nextString it))) with (Z.to_nat (nextString it + 1)) by lia.
Qed.

(** The range that the iterator is in is loaded when the one before is used up. *)
Lemma load_next it k :
  stands_at s it k -> endElement it < nextElement it ->
  if range it <? endRange it
  then exists it', loadRange (set_range it (range it + 1)) (range it + 1) = Some it' /\ stands_at s it' k /\ nextElement it' <= endElement it'
  else ranges k = [].
Proof using Hwf.
  intros [Eset Eer Esc Hr Hn He' Hrs Hns Hts] Hused. pose proof (ranges_from s (range it + 1) Hwf ltac:(lia)) as Hfrom.
  destruct (Z.leb_spec (nextElement it) (endElement it)); [lia|]. rewrite Eer. cbn [app] in Hrs.
  destruct (Z.ltb_spec (range it) (getRangeCount s - 1)), (Z.ltb_spec (range it + 1) (getRangeCount s)); try lia; [|by rewrite Hrs].
  destruct Hfrom as (b & e & Eb & Ee & Hbe & He & Hfrom). unfold loadRange. cbn [set_ set_range]. rewrite Eset. cbn [mbind option_bind]. rewrite Eb. cbn [mbind option_bind]. rewrite Ee. cbn [mbind option_bind].
  eexists. split; [done|]. split; [|cbn; lia]. split; cbn [set_ set_elements set_range endRange stringCount range nextElement endElement nextString]; auto; [lia|lia|].
  rewrite Hrs, Hfrom. destruct (Z.leb_spec b e); [done|lia].
Qed.

Lemma step_code it k :
  stands_at s it k -> nextElement it <= endElement it ->
  let r := (set_element (set_elements it (nextElement it + 1) (endElement it)) (nextElement it) (nextElement it) NullString, true) in
  stands_at s r.1 (pop k).1 /\ shown one_element r = (pop k).2.
Proof using Hwf.
  intros [Eset Eer Esc Hr Hn He' Hrs Hns Hts] Hin. destruct (Z.leb_spec (nextElement it) (endElement it)); [|lia]. cbn [app] in Hrs.
  unfold pop. rewrite Hrs. cbn. unfold shown, isString, IS_STRING, one_element. cbn. destruct (Z.eqb_spec (nextElement it) (-1)); [lia|]. split; [|done].
  split; cbn; auto; [lia|]. destruct (Z.ltb_spec (nextElement it) (endElement it)), (Z.leb_spec (nextElement it + 1) (endElement it)); done || lia.
Qed.

Lemma step_range it k :
  stands_at s it k -> nextElement it <= endElement it ->
  let r := (set_element (set_elements it (endElement it + 1) (endElement it)) (nextElement it) (endElement it) NullString, true) in
  stands_at s r.1 (pop_range k).1 /\ shown one_range r = (pop_range k).2.
Proof using Hwf.
  intros [Eset Eer Esc Hr Hn He' Hrs Hns Hts] Hin. destruct (Z.leb_spec (nextElement it) (endElement it)); [|lia]. cbn [app] in Hrs.
  unfold pop_range. rewrite Hrs. cbn. unfold shown, isString, IS_STRING, one_range. cbn. destruct (Z.eqb_spec (nextElement it) (-1)); [lia|]. split; [|done].
  split; cbn; auto; [lia|]. destruct (Z.leb_spec (endElement it + 1) (endElement it)); [lia|done].
Qed.

Lemma next_spec it k : stands_at s it k -> exists r, next it = Some r /\ stands_at s r.1 (pop k).1 /\ shown one_element r = (pop k).2.
Proof using Hwf.
  intros Hat. unfold next. destruct (Z.leb_spec (nextElement it) (endElement it)).
  { eexists. split; [done|]. by apply step_code. }
  pose proof (load_next it k Hat ltac:(lia)) as Hload. destruct (range it <? endRange it).
  - destruct Hload as (it' & -> & Hat' & Hin). cbn [mbind option_bind]. eexists. split; [done|]. by apply step_code.
  - unfold pop. rewrite Hload. by apply next_string_spec.
Qed.

Lemma stands_null it k : stands_at s it k -> stands_at s (set_element it (codepoint it) (codepointEnd it) NullString) k.
Proof using. by intros []. Qed.

Lemma nextRange_spec it k : stands_at s it k -> exists r, nextRange it = Some r /\ stands_at s r.1 (pop_range k).1 /\ shown one_range r = (pop_range k).2.
Proof using Hwf.
  intros Hat%stands_null. unfold nextRange. set (it0 := set_element _ _ _ _) in *. destruct (Z.leb_spec (nextElement it0) (endElement it0)).
  { eexists. split; [done|]. by apply step_range. }
  pose proof (load_next it0 k Hat ltac:(lia)) as Hload. destruct (range it0 <? endRange it0).
  - destruct Hload as (it' & -> & Hat' & Hin). cbn [mbind option_bind]. eexists. split; [done|]. by apply step_range.
  - unfold pop_range. rewrite Hload. by apply next_string_spec.
Qed.

Lemma reset_spec it k : stands_at s it k -> exists it', reset it = Some it' /\ stands_at s it' (whole s).
Proof using Hwf.
  intros Hat. destruct (reset_to_spec it) as (it' & E & Hat'). exists it'. split; [|done]. rewrite <- E. unfold reset_to. rewrite <- (st_set _ _ _ Hat). by destruct it.
Qed.
End Steps.

(** ** Any sequence of calls *)

Inductive call := Next | NextRange | Reset.

Fixpoint run (calls : list call) it : option (list item) :=
  match calls with
  | [] => Some []
  | Next :: calls => r ← next it; rest ← run calls r.1; Some (shown one_element r :: rest)
  | NextRange :: calls => r ← nextRange it; rest ← run calls r.1; Some (shown one_range r :: rest)
  | Reset :: calls => it ← reset it; run calls it
  end.

Fixpoint run_cursor (start : cursor) (calls : list call) (k : cursor) : list item :=
  match calls with
  | [] => []
  | Next :: calls => (pop k).2 :: run_cursor start calls (pop k).1
  | NextRange :: calls => (pop_range k).2 :: run_cursor start calls (pop_range k).1
  | Reset :: calls => run_cursor start calls start
  end.

Lemma run_spec s calls it k : wf s -> stands_at s it k -> run calls it = Some (run_cursor (whole s) calls k).
Proof.
  intros Hwf. revert it k. induction calls as [|[] calls IH]; intros it k Hat; cbn [run run_cursor]; [done|..].
  - destruct (next_spec s Hwf it k Hat) as (r & -> & Hat' & <-). cbn [mbind option_bind]. by rewrite (IH _ _ Hat').
  - destruct (nextRange_spec s Hwf it k Hat) as (r & -> & Hat' & <-). cbn [mbind option_bind]. by rewrite (IH _ _ Hat').
  - destruct (reset_spec s Hwf it k Hat) as (it' & -> & Hat'). cbn [mbind option_bind]. by apply IH.
Qed.

(** C12: the iterator implements the cursor: whatever sequence of [next], [nextRange] and [reset]
    is called on a new iterator over a well-formed set, no call fails, and what the calls show is
    what the cursor over the set's ranges and strings shows; [nextRange] after [next] gives the
    rest of the range. *)
Theorem iterator_refines_cursor fresh s calls :
  wf s -> exists it, new_iterator fresh s = Some it /\ run calls it = Some (run_cursor (whole s) calls (whole s)).
Proof.
  intros Hwf. destruct (reset_to_spec s Hwf (set_cpString fresh (string_ fresh) None)) as (it & E & Hat). exists it.
  split; [done|]. by apply run_spec.
Qed.

(** ** The loops of clients *)

(** [while (it.next()) ...]; [None] when [fuel] is not enough. *)
Fixpoint iterate (step : t -> option (t * bool)) (element : t -> item) (fuel : nat) it : option (list item) :=
  match fuel with
  | O => None
  | S fuel =>
      r ← step it;
      if (r : t * bool).2 then rest ← iterate step element fuel r.1; Some (shown element r :: rest) else Some []
  end.

Definition codes (rs : list (Z * Z)) : list Z := flat_map (fun r => seqZ r.1 (r.2 - r.1 + 1)) rs.
Definition shown_texts (es : list (UVector.UElement ustr)) : list item := map (fun e => Text (as_string e)) es.

Lemma pop_codes k :
  Forall (fun r => r.1 <= r.2) (ranges k) ->
  match codes (ranges k) with
  | c :: cs => (pop k).2 = Code c /\ codes (ranges (pop k).1) = cs /\ texts_ (pop k).1 = texts_ k /\ Forall (fun r => r.1 <= r.2) (ranges (pop k).1)
  | [] => pop k = pop_string k /\ ranges k = []
  end.
Proof.
  intros Hgood. unfold pop. destruct (ranges k) as [|[b e] rs]; [done|]. apply Forall_cons in Hgood as [Hbe Hgood]. cbn [fst snd] in Hbe. unfold codes. cbn [flat_map fst snd].
  rewrite seqZ_cons by lia. cbn [app]. split; [done|]. destruct (Z.ltb_spec b e).
  - cbn [ranges fst texts_]. split; [|split; [done|by constructor; [cbn; lia|]]]. cbn [flat_map fst snd]. do 2 f_equal; lia.
  - cbn [ranges fst texts_]. split; [|done]. replace (Z.pred (e - b + 1)) with 0 by lia. done.
Qed.

Lemma iterate_strings s step element fuel it k :
  wf s -> (forall (it : t) (k : cursor), stands_at s it k -> ranges k = [] -> exists r, step it = Some r /\ stands_at s r.1 (pop_string k).1 /\ shown element r = (pop_string k).2) ->
  (forall it : t, element it <> Nothing) ->
  stands_at s it k -> ranges k = [] -> (length (texts_ k) < fuel)%nat -> iterate step element fuel it = Some (shown_texts (texts_ k)).
Proof.
  intros Hwf Hstep Hel. revert it k. induction fuel as [|fuel IH]; intros it k Hat Hemp Hf; [lia|]. cbn [iterate].
  destruct (Hstep it k Hat Hemp) as (r & -> & Hat' & Hsh). cbn [mbind option_bind]. unfold pop_string in *. destruct (texts_ k) as [|e es] eqn:Et; cbn [fst snd] in *.
  - unfold shown in Hsh. destruct r.2; [|done]. destruct (isString r.1); [done|]. by apply Hel in Hsh.
  - rewrite Hsh. assert (r.2 = true) as -> by (unfold shown in Hsh; by destruct r.2). cbn in Hf. rewrite (IH _ _ Hat'); [done|done|cbn; lia].
Qed.

Lemma iterate_next s fuel it k :
  wf s -> stands_at s it k -> Forall (fun r => r.1 <= r.2) (ranges k) -> (length (codes (ranges k)) + length (texts_ k) < fuel)%nat ->
  iterate next one_element fuel it = Some (map Code (codes (ranges k)) ++ shown_texts (texts_ k)).
Proof.
  intros Hwf. revert it k. induction fuel as [|fuel IH]; intros it k Hat Hgood Hf; [lia|]. pose proof (pop_codes k Hgood) as Hpop.
  destruct (codes (ranges k)) as [|c cs].
  - destruct Hpop as [_ Hemp]. cbn [map app]. apply (iterate_strings s next one_element (S fuel) it k); try done.
    intros it' k' Hat' He. destruct (next_spec s Hwf it' k' Hat') as (r & E & Hs). unfold pop in Hs. rewrite He in Hs. eauto.
  - destruct Hpop as (Hc & Hcs & Ht & Hgood'). cbn [iterate]. destruct (next_spec s Hwf it k Hat) as (r & -> & Hat' & Hsh). cbn [mbind option_bind]. rewrite Hsh, Hc.
    assert (r.2 = true) as -> by (rewrite Hc in Hsh; unfold shown in Hsh; by destruct r.2). cbn in Hf. rewrite (IH _ _ Hat'), Hcs, Ht by (done || rewrite ?Hcs, ?Ht; lia). done.
Qed.

Lemma iterate_nextRange s fuel it k :
  wf s -> stands_at s it k -> (length (ranges k) + length (texts_ k) < fuel)%nat ->
  iterate nextRange one_range fuel it = Some (map (fun r => Range r.1 r.2) (ranges k) ++ shown_texts (texts_ k)).
Proof.
  intros Hwf. revert it k. induction fuel as [|fuel IH]; intros it k Hat Hf; [lia|]. destruct (ranges k) as [|[b e] rs] eqn:Er.
  - cbn [map app]. apply (iterate_strings s nextRange one_range (S fuel) it k); try done.
    intros it' k' Hat' He. destruct (nextRange_spec s Hwf it' k' Hat') as (r & E & Hs). unfold pop_range in Hs. rewrite He in Hs. eauto.
  - cbn [iterate]. destruct (nextRange_spec s Hwf it k Hat) as (r & -> & Hat' & Hsh). cbn [mbind option_bind]. unfold pop_range in *. rewrite Er in *. cbn [fst snd] in *. rewrite Hsh.
    assert (r.2 = true) as -> by (unfold shown in Hsh; by destruct r.2). cbn in Hf. rewrite (IH _ _ Hat') by (cbn; lia). done.
Qed.

Lemma seqZ_sorted m n : StronglySorted Z.lt (seqZ m n).
Proof.
  destruct (Z.le_gt_cases n 0); [rewrite seqZ_nil by lia; constructor|]. rewrite <- (Z2Nat.id n) by lia. generalize (Z.to_nat n). clear. intros n. revert m.
  induction n as [|n IH]; intros m; [constructor|]. rewrite seqZ_cons by lia. replace (Z.pred (Z.of_nat (S n))) with (Z.of_nat n) by lia.
  constructor; [done|]. apply Forall_forall. intros c Hc%elem_of_seqZ. lia.
Qed.

(** The ranges of an ascending list: none empty, apart from each other, together the code points. *)
Lemma range_list_spec a r :
  chain a r ->
  let rs := range_list (a :: r) in
  Forall (fun x => a <= x.1 <= x.2 /\ x.2 < UNICODESET_HIGH) rs /\ StronglySorted (fun x y => x.2 + 1 < y.1) rs /\
  StronglySorted Z.lt (codes rs) /\ Forall (fun c => a <= c) (codes rs) /\
  forall c, c < UNICODESET_HIGH -> c ∈ codes rs <-> inv_mem (a :: r) c = true.
Proof.
  intros Hc. induction Hc as [|a Ha|a b d r Hab Hbd Hd (Hf & Hs & Hcs & Hcf & Hm)] using ranges_ind; cbn zeta.
  - cbn. split_and!; try constructor; [|destruct (Z.leb_spec UNICODESET_HIGH c); [lia|done]]. intros Hin. by apply elem_of_nil in Hin.
  - change (range_list [a; UNICODESET_HIGH]) with [(a, UNICODESET_HIGH - 1)]. unfold codes. cbn [flat_map fst snd app]. rewrite app_nil_r. split_and!.
    + repeat constructor; cbn; lia.
    + repeat constructor.
    + apply seqZ_sorted.
    + apply Forall_forall. intros c Hc%elem_of_seqZ. lia.
    + intros c Hlt. rewrite elem_of_seqZ. cbn. destruct (Z.leb_spec a c), (Z.leb_spec UNICODESET_HIGH c); cbn; split; try lia; done.
  - change (range_list (a :: b :: d :: r)) with ((a, b - 1) :: range_list (d :: r)). unfold codes. cbn [flat_map fst snd]. fold (codes (range_list (d :: r))).
    pose proof (chain_bound _ _ Hd). split_and!.
    + constructor; [cbn; lia|]. eapply Forall_impl; [exact Hf|]. cbn. lia.
    + constructor; [done|]. eapply Forall_impl; [exact Hf|]. cbn. lia.
    + apply StronglySorted_app. split_and!; [|apply seqZ_sorted|done]. intros x y Hx%elem_of_seqZ Hy. apply (proj1 (Forall_forall _ _) Hcf) in Hy. lia.
    + apply Forall_app. split; [apply Forall_forall; intros c Hc%elem_of_seqZ; lia|]. eapply Forall_impl; [exact Hcf|]. cbn. lia.
    + intros c Hlt. rewrite elem_of_app, elem_of_seqZ, Hm by done. destruct (Z.ltb_spec c a).
      { rewrite (inv_mem_cons_gt a), (inv_mem_cons_gt b), (inv_mem_chain_above d) by (done || lia). split; [intros [?|?]; lia || done|done]. }
      rewrite (inv_mem_cons_le a) by lia. destruct (Z.ltb_spec c b).
      * rewrite (inv_mem_cons_gt b), (inv_mem_chain_above d) by (done || lia). cbn. split; [done|left; lia].
      * rewrite (inv_mem_cons_le b), negb_involutive by lia. split; [intros [?|?]; [lia|done]|by right].
Qed.

(** C13: the loops over an iterator end, and show everything there is, in order: [next] the code
    points of the set, each once and ascending, [nextRange] its ranges, as [getRangeStart] and
    [getRangeEnd] number them, disjoint and not contiguous; both then the strings, in their
    sorted order. *)
Theorem iteration_complete fresh s :
  wf s ->
  exists it cps rs, new_iterator fresh s = Some it /\
    (forall fuel, (length cps + length (strs s) < fuel)%nat -> iterate next one_element fuel it = Some (map Code cps ++ shown_texts (strs s))) /\
    (forall fuel, (length rs + length (strs s) < fuel)%nat -> iterate nextRange one_range fuel it = Some (map (fun r => Range r.1 r.2) rs ++ shown_texts (strs s))) /\
    StronglySorted Z.lt cps /\ (forall c, c ∈ cps <-> 0 <= c < UNICODESET_HIGH /\ has s c = true) /\
    StronglySorted (fun x y => x.2 + 1 < y.1) rs /\ cps = codes rs /\ StronglySorted str_le (strs s).
Proof.
  intros Hwf. destruct (reset_to_spec s Hwf (set_cpString fresh (string_ fresh) None)) as (it & E & Hat). destruct (strings_of s Hwf) as (v & _ & Hv & Es & _).
  destruct (wf_list_chain _ (wf_values s Hwf)) as (a & r & Ev & Hch & Ha). pose proof (range_list_spec a r Hch) as (Hf & Hs & Hcs & Hcf & Hm). rewrite <- Ev in *.
  exists it, (codes (range_list (values s))), (range_list (values s)). split; [done|]. split_and!; auto.
  - intros fuel Hfuel. apply (iterate_next s fuel it (whole s) Hwf Hat); [|done]. eapply Forall_impl; [exact Hf|]. cbn. lia.
  - intros fuel Hfuel. by apply (iterate_nextRange s fuel it (whole s) Hwf Hat).
  - intros c. unfold has. split.
    + intros Hin. assert (c < UNICODESET_HIGH).
      { apply list_elem_of_In, in_flat_map in Hin as (x & Hx%list_elem_of_In & Hin%list_elem_of_In%elem_of_seqZ). apply (proj1 (Forall_forall _ _) Hf) in Hx. lia. }
      pose proof (proj1 (Forall_forall _ _) Hcf c Hin) as Hac. cbn beta in Hac. split; [lia|]. by apply Hm.
    + intros [Hc Hin]. apply Hm; [lia|done].
  - rewrite Es. apply Hv.
Qed.

(** ** The element as a string *)

Lemma setTo_char32_spec c : Utf16.code_point c -> setTo_char32 c = Some (UnicodeString.Str (Utf16.encode c)).
Proof.
  unfold Utf16.code_point, setTo_char32, Utf16.U16_APPEND, Utf16.encode, uint32. intros Hc. rewrite Z.mod_small by lia. destruct (Z.leb_spec c 0xffff).
  - cbn. unfold uint16. by rewrite Z.mod_small by lia.
  - destruct (Z.leb_spec c 0x10ffff); [|lia]. done.
Qed.

Lemma loadRange_keeps it i it' : loadRange it i = Some it' -> cpString it' = cpString it.
Proof. unfold loadRange. by intros (? & _ & (? & _ & (? & _ & [= <-])%bind_Some)%bind_Some)%bind_Some. Qed.

Lemma next_keeps it it' r : next it = Some (it', r) -> cpString it' = cpString it.
Proof.
  unfold next, next_string. destruct (nextElement it <=? endElement it); [by intros [= <- <-]|]. destruct (range it <? endRange it).
  - intros (it1 & E%loadRange_keeps & [= <- <-])%bind_Some. exact E.
  - destruct (stringCount it <=? nextString it); [by intros [= <- <-]|]. by intros (? & _ & (? & _ & (? & _ & [= <- <-])%bind_Some)%bind_Some)%bind_Some.
Qed.

(** The text of what a call shows. *)
Definition item_text (i : item) : list Z :=
  match i with Code c => Utf16.encode c | Text (SetString str) => UnicodeString.units str | _ => [] end.

Lemma own_string it c :
  codepoint it = c -> Utf16.code_point c -> string_ it = NullString -> cpString it <> None \/ new_object sizeof_UnicodeString = true ->
  let it' := set_cpString it CpString (Some (UnicodeString.Str (Utf16.encode c))) in
  getString it = Some (it', UnicodeString.Str (Utf16.encode c)) /\ getString it' = Some (it', UnicodeString.Str (Utf16.encode c)).
Proof.
  intros Ec Hc Es Hown. split; [|done]. unfold getString. rewrite Es, Ec. unfold IS_STRING. unfold Utf16.code_point in Hc. destruct (Z.eqb_spec c (-1)); [lia|]. cbn [negb].
  rewrite setTo_char32_spec by done. destruct (cpString it); [done|]. destruct Hown as [?|Hn]; [done|]. by rewrite Hn.
Qed.

Lemma step_shows s it k :
  stands_at s it k -> nextElement it <= endElement it ->
  let it' := set_element (set_elements it (nextElement it + 1) (endElement it)) (nextElement it) (nextElement it) NullString in
  isString it' = false /\ string_ it' = NullString /\ Utf16.code_point (codepoint it').
Proof.
  intros Hat Hin. pose proof (st_next _ _ _ Hat). pose proof (st_end _ _ _ Hat). unfold UNICODESET_HIGH in *.
  split_and!; [|done|unfold Utf16.code_point; cbn; lia]. unfold isString, IS_STRING. cbn. apply Z.eqb_neq. lia.
Qed.

Lemma next_shows s it k it' :
  wf s -> stands_at s it k -> next it = Some (it', true) ->
  isString it' = false /\ string_ it' = NullString /\ Utf16.code_point (codepoint it') \/
  isString it' = true /\ exists str, string_ it' = SetString str.
Proof.
  intros Hwf Hat. unfold next. destruct (Z.leb_spec (nextElement it) (endElement it)).
  { intros [= <-]. left. by eapply step_shows. }
  pose proof (load_next s Hwf it k Hat ltac:(lia)) as Hload. destruct (range it <? endRange it).
  - destruct Hload as (it1 & -> & Hat1 & Hin). intros [= <-]. left. by eapply step_shows.
  - unfold next_string. destruct (Z.leb_spec (stringCount it) (nextString it)); [done|]. pose proof (st_nextString _ _ _ Hat). pose proof (st_stringCount _ _ _ Hat).
    destruct (strings_of s Hwf) as (v & Ev & Hv & Es & Ec). destruct (elementAt_string v (nextString it) Hv) as (str & _ & _ & Eat); [lia|].
    rewrite (st_set _ _ _ Hat). cbn [mbind option_bind]. rewrite Ev. cbn [mbind option_bind]. rewrite Eat. intros [= <-]. right. split; [done|]. by exists str.
Qed.

(** [getString] after [next]: the string of the set, or a string with the code point, which
    the iterator owns; asking again gives the same, and the iteration goes on as if it had not
    been asked. *)
Theorem getString_current s it k it' :
  wf s -> stands_at s it k -> next it = Some (it', true) -> cpString it <> None \/ new_object sizeof_UnicodeString = true ->
  exists it'' str, getString it' = Some (it'', str) /\ UnicodeString.units str = item_text (pop k).2 /\
    getString it'' = Some (it'', str) /\ stands_at s it'' (pop k).1.
Proof.
  intros Hwf Hat Hnext Hown. pose proof (next_keeps it it' true Hnext) as Hk. rewrite <- Hk in Hown. destruct (next_spec s Hwf it k Hat) as (r & E & Hat' & Hsh).
  rewrite Hnext in E. injection E as <-. unfold shown, one_element in Hsh. cbn [fst snd] in *. rewrite <- Hsh.
  destruct (next_shows s it k it' Hwf Hat Hnext) as [(Hi & Hnull & Hc)|(Hi & str & Hstr)]; rewrite Hi.
  - destruct (own_string it' _ eq_refl Hc Hnull Hown) as [E1 E2]. eexists _, _. split; [exact E1|]. split; [done|]. split; [exact E2|]. by destruct Hat'.
  - exists it', str. unfold getString. rewrite Hstr. cbn [mbind option_bind]. rewrite Hstr. done.
Qed.
End Iterator.

Definition unused : t := mk 0 0 NullString None 0 0 0 0 0 0 None.

(** The letters a..z and the string "ch": a few letters, the rest of the range, the string. *)
Example letters_walk :
  (it ← new_iterator unused letters; run [Next; Next; NextRange; NextRange; NextRange; Reset; NextRange] it) =
    Some [Code 0x61; Code 0x62; Range 0x63 0x7a; Text (SetString (UnicodeString.Str [0x63; 0x68])); Nothing; Range 0x61 0x7a].
Proof. reflexivity. Qed.

Lemma iterator_refines_cursor_witness :
  exists it, new_iterator unused letters = Some it /\ run [Next; NextRange; Next] it = Some (run_cursor (whole letters) [Next; NextRange; Next] (whole letters)).
Proof. apply iterator_refines_cursor, letters_live. Defined.

Lemma iteration_complete_witness :
  exists it cps rs, new_iterator unused letters = Some it /\
    (forall fuel, (length cps + length (strs letters) < fuel)%nat -> iterate next one_element fuel it = Some (map Code cps ++ shown_texts (strs letters))) /\
    (forall fuel, (length rs + length (strs letters) < fuel)%nat -> iterate nextRange one_range fuel it = Some (map (fun r => Range r.1 r.2) rs ++ shown_texts (strs letters))) /\
    StronglySorted Z.lt cps /\ (forall c, c ∈ cps <-> 0 <= c < UNICODESET_HIGH /\ has letters c = true) /\
    StronglySorted (fun x y => x.2 + 1 < y.1) rs /\ cps = codes rs /\ StronglySorted str_le (strs letters).
Proof. apply iteration_complete, letters_live. Defined.

Definition at_start : t := mk 0 0 NullString (Some letters) 0 0 0x7a 0x61 0 1 None.

Lemma letters_start : stands_at letters at_start (whole letters).
Proof. split; try done; cbn; lia. Qed.

Lemma getString_current_witness :
  exists it'' str, getString (mk 0x61 0x61 NullString (Some letters) 0 0 0x7a 0x62 0 1 None) = Some (it'', str) /\ UnicodeString.units str = [0x61] /\
    getString it'' = Some (it'', str) /\ stands_at letters it'' (pop (whole letters)).1.
Proof. apply (getString_current letters at_start (whole letters)); [apply letters_live|apply letters_start|reflexivity|right; reflexivity]. Defined.
End SetIterator.
