(* ===== verification/UnicodeSetSpan.v ===== *)
(** * Spans over text

    [span], [spanBack], [containsAll] and [containsNone] of a set without relevant strings,
    on 16-bit text: the loop over code points of a mutable set and the tables of a frozen one
    give the same answers. *)

From S2P Require Import Prelude Vector Utf16 Utf8 UString InversionList BMPSet BMPSetUtf8 UnicodeSet UnicodeSetFacts UnicodeSetAlgebra.
Import InvList UnicodeSet UnicodeSetFacts UnicodeSetAlgebra.

Module UnicodeSetSpan.
Import Utf16.

Section Span.
Context {HP : Heap} {OS : ObjectSizes} {SP : StringSpan}.
Implicit Types s : t.

(** The longest run of code points whose membership is [cond]. *)
Definition run s (cond : bool) (cs : list Z) : Z := BMPSet.span_units (fun c => Bool.eqb (has s c) cond) cs.

Lemma eqb_sym_negb (a b : bool) : negb (Bool.eqb a b) = negb (Bool.eqb b a).
Proof. by destruct a, b. Qed.

Lemma code_point_contains s c : wf s -> code_point c -> contains s c = Some (has s c).
Proof. intros Hwf Hc. apply contains_has; [done|]. unfold code_point, UNICODESET_HIGH in *. lia. Qed.

Lemma span_chars_spec fuel s p u cond :
  wf s -> Forall unit16 u -> u <> [] -> zlen u <= Z.of_nat fuel ->
  span_chars fuel s (p ++ u) (zlen p) (zlen p) (zlen (p ++ u)) cond = Some (zlen p + run s cond (code_points u)).
Proof.
  intros Hwf. revert p u. induction fuel as [|fuel IH]; intros p u Hu Hne Hf.
  { destruct u; [done|]. rewrite zlen_cons in Hf. pose proof (zlen_nonneg u). lia. }
  destruct u as [|x u]; [done|]. cbn [span_chars].
  destruct (U16_NEXT_step p x u Hu) as (c & u' & E & Hc & Hcp & ->). cbn [mbind option_bind].
  rewrite code_point_contains by done. cbn [mbind option_bind]. rewrite Hc. unfold run. cbn [BMPSet.span_units].
  rewrite eqb_sym_negb, <- (encode_zlen c Hcp). destruct (Bool.eqb (has s c) cond); cbn [negb]; [|f_equal; lia].
  rewrite <- zlen_app, E in *. rewrite (app_assoc p). apply Forall_app in Hu as [_ Hu]. destruct u' as [|y u'].
  - rewrite app_nil_r, Z.ltb_irrefl. cbn [code_points BMPSet.span_units]. rewrite zlen_app. f_equal. lia.
  - pose proof (encode_nonempty c). rewrite zlen_app in Hf. 
    destruct (Z.ltb_spec (zlen (p ++ encode c)) (zlen ((p ++ encode c) ++ y :: u'))).
    2:{ rewrite (zlen_app (p ++ encode c)), zlen_cons in *. pose proof (zlen_nonneg u'). lia. }
    rewrite IH by (done || lia). unfold run. rewrite zlen_app. f_equal. lia.
Qed.

Lemma spanBack_chars_spec fuel s u st cond :
  wf s -> Forall unit16 u -> u <> [] -> zlen u <= Z.of_nat fuel ->
  spanBack_chars fuel s (u ++ st) (zlen u) (zlen u) cond = Some (zlen u - run s cond (rev (code_points u))).
Proof.
  intros Hwf. revert u st. induction fuel as [|fuel IH]; intros u st Hu Hne Hf.
  { destruct u; [done|]. rewrite zlen_cons in Hf. pose proof (zlen_nonneg u). lia. }
  cbn [spanBack_chars]. destruct (U16_PREV_step u st Hu Hne) as (c & u' & E & Hc & Hcp & ->). cbn [mbind option_bind].
  rewrite code_point_contains by done. cbn [mbind option_bind]. rewrite Hc, rev_app_distr. unfold run. cbn [rev app BMPSet.span_units].
  rewrite eqb_sym_negb, <- (encode_zlen c Hcp). destruct (Bool.eqb (has s c) cond); cbn [negb]; [|f_equal; lia].
  pose proof (encode_nonempty c). subst u. rewrite zlen_app in *. apply Forall_app in Hu as [Hu _]. destruct u' as [|y u'].
  - cbn. change (zlen (@nil Z)) with 0. f_equal. lia.
  - destruct (Z.ltb_spec 0 (zlen (y :: u'))). 2:{ rewrite zlen_cons in *. pose proof (zlen_nonneg u'). lia. }
    rewrite <- app_assoc, IH by (done || lia). unfold run. f_equal. lia.
Qed.

(** A set for whose spans the strings do not matter. *)
Definition no_span_strings s : Prop := stringSpan s = None /\ (bmpSet s <> None \/ strs s = []).

Lemma no_strings_count s v : wf s -> strs s = [] -> strings s = Some v -> UVector.count v = 0.
Proof.
  intros Hwf Hs E. destruct (wf_strs s Hwf) as (v' & E' & Hv & Es). simplify_eq.
  rewrite <- (UVector.contents_zlen v (sw_wf v Hv)), <- Es, Hs. done.
Qed.

(** [spanBack] does not look beyond the length it is given. *)
Lemma spanBack_within s u st spanCondition :
  wf s -> no_span_strings s -> Forall unit16 (u ++ st) -> u <> [] ->
  spanBack s (u ++ st) (zlen u) spanCondition =
    Some (zlen u - run s (negb (spanCondition =? USET_SPAN_NOT_CONTAINED)) (rev (code_points u))).
Proof.
  intros Hwf [Hsp Hor] Hust Hne. unfold spanBack. set (cond := negb _). pose proof Hust as [Hu _]%Forall_app.
  assert (0 < zlen u) by (destruct u; [done|]; rewrite zlen_cons; pose proof (zlen_nonneg u); lia).
  destruct (bmpSet s) as [b|] eqn:Eb.
  - destruct (Z.ltb_spec 0 (zlen u)); [|lia]. pose proof (wf_bmp s Hwf b Eb) as Hr. unfold BMPSet.spanBack.
    rewrite Z.sub_0_r. apply BMPSet.spanBack_loop_spec; auto; [apply Hwf|lia].
  - destruct Hor as [?|Hs]; [done|]. unfold spanBack_slow. destruct (Z.ltb_spec (zlen u) 0); [lia|].
    cbn [mbind option_bind]. destruct (Z.eqb_spec (zlen u) 0); [lia|]. rewrite Hsp, ztake_app_exact.
    destruct (wf_strs s Hwf) as (v & Ev & _ & _). destruct (wf_cells s Hwf) as (cells & E & _). rewrite Ev, E.
    cbn [mbind option_bind]. rewrite (no_strings_count s v Hwf Hs Ev). cbn [Z.eqb negb].
    rewrite <- (app_nil_r u) at 2. apply spanBack_chars_spec; auto. lia.
Qed.

Lemma span_runs s u spanCondition :
  wf s -> no_span_strings s -> Forall unit16 u -> u <> [] ->
  let cond := negb (spanCondition =? USET_SPAN_NOT_CONTAINED) in
  span s u (zlen u) spanCondition = Some (run s cond (code_points u)) /\
  spanBack s u (zlen u) spanCondition = Some (zlen u - run s cond (rev (code_points u))).
Proof.
  intros Hwf Hn Hu Hne cond. split; [|rewrite <- (app_nil_r u) at 1; apply spanBack_within; by rewrite ?app_nil_r].
  destruct Hn as [Hsp Hor]. unfold span. fold cond.
  assert (0 < zlen u) by (destruct u; [done|]; rewrite zlen_cons; pose proof (zlen_nonneg u); lia).
  destruct (bmpSet s) as [b|] eqn:Eb.
  - destruct (Z.ltb_spec 0 (zlen u)); [|lia]. pose proof (wf_bmp s Hwf b Eb) as Hr. unfold BMPSet.span.
    rewrite Z.sub_0_r. apply (BMPSet.span_loop_spec _ b (values s) []); auto; [apply Hwf|lia].
  - destruct Hor as [?|Hs]; [done|]. unfold span_slow. destruct (Z.ltb_spec (zlen u) 0); [lia|].
    cbn [mbind option_bind]. destruct (Z.eqb_spec (zlen u) 0); [lia|]. rewrite Hsp, ztake_all.
    destruct (wf_strs s Hwf) as (v & Ev & _ & _). destruct (wf_cells s Hwf) as (cells & E & _). rewrite Ev, E.
    cbn [mbind option_bind]. rewrite (no_strings_count s v Hwf Hs Ev). cbn [Z.eqb negb].
    apply (span_chars_spec _ s [] u); auto. lia.
Qed.

(** A run that covers the text. *)
Lemma run_all s (cond : bool) cs :
  Forall code_point cs ->
  0 <= run s cond cs <= BMPSet.span_units (fun _ => true) cs /\
  (run s cond cs = BMPSet.span_units (fun _ => true) cs <-> Forall (fun c => has s c = cond) cs).
Proof.
  induction 1 as [|c cs Hc Hcs IH]; [by split; [|done]|]. unfold run in *. cbn [BMPSet.span_units].
  pose proof (encode_nonempty c). rewrite (encode_zlen c Hc) in *. rewrite Forall_cons.
  destruct (Bool.eqb (has s c) cond) eqn:E.
  - apply eqb_prop in E. destruct IH as [? Hi]. split; [lia|]. split.
    + intros. split; [done|]. apply Hi. lia.
    + intros [_ Hf%Hi]. lia.
  - split; [lia|]. apply eqb_false_iff in E. split; [lia|tauto].
Qed.

Lemma span_units_all cs : Forall code_point cs -> BMPSet.span_units (fun _ => true) cs = zlen (concat (map encode cs)).
Proof.
  induction 1 as [|c cs Hc Hcs IH]; [done|]. cbn [BMPSet.span_units map concat]. by rewrite zlen_app, encode_zlen, IH.
Qed.

(** C19: for a set whose strings do not matter for spans ([no_span_strings]: it has none, or
    freezing it has built no string span), over any counted, non-empty 16-bit text, [span] returns
    the end of the longest prefix of code points that are all in the set, or all not in it, and
    [spanBack] the start of the longest such suffix, whether the set is frozen or not, unpaired
    surrogates counting as code points; so [containsAll] and [containsNone] of a text answer
    whether all or none of its code points are in the set.  With strings that matter the spans are
    others: [span_with_strings]. *)
Theorem span_longest_run s u spanCondition :
  wf s -> no_span_strings s -> Forall unit16 u -> u <> [] ->
  let cond := negb (spanCondition =? USET_SPAN_NOT_CONTAINED) in
  span s u (zlen u) spanCondition = Some (run s cond (code_points u)) /\
  spanBack s u (zlen u) spanCondition = Some (zlen u - run s cond (rev (code_points u))) /\
  containsAll_chars s (UnicodeString.Str u) = Some (forallb (has s) (code_points u)) /\
  containsNone_chars s (UnicodeString.Str u) = Some (forallb (fun c => negb (has s c)) (code_points u)).
Proof.
  intros Hwf Hn Hu Hne cond.
  destruct (span_runs s u spanCondition Hwf Hn Hu Hne) as [Hs Hb]. split_and!; auto.
  all: pose proof (code_points_valid u Hu) as Hv.
  all: assert (Hz : BMPSet.span_units (fun _ => true) (code_points u) = zlen u)
    by (by rewrite span_units_all, encode_code_points).
  - unfold containsAll_chars, UnicodeString.length. cbn [UnicodeString.units].
    destruct (span_runs s u USET_SPAN_CONTAINED Hwf Hn Hu Hne) as [-> _]. cbn [mbind option_bind]. f_equal.
    apply eq_true_iff_eq. rewrite Z.eqb_eq, <- Is_true_true, forallb_True, <- Hz, (proj2 (run_all s _ _ Hv)).
    apply Forall_iff. intros c. by rewrite Is_true_true.
  - unfold containsNone_chars, UnicodeString.length. cbn [UnicodeString.units].
    destruct (span_runs s u USET_SPAN_NOT_CONTAINED Hwf Hn Hu Hne) as [-> _]. cbn [mbind option_bind]. f_equal.
    apply eq_true_iff_eq. rewrite Z.eqb_eq, <- Is_true_true, forallb_True, <- Hz, (proj2 (run_all s _ _ Hv)).
    apply Forall_iff. intros c. by rewrite Is_true_true, negb_true_iff.
Qed.
(** ** UTF-8 *)

(** The longest run of pieces whose membership is [cond]. *)
Definition run_bytes s (cond : bool) (ws : list (list Z)) : Z := BMPSetUtf8.run8 (fun c => Bool.eqb (has s c) cond) ws.

Lemma piece_code_point w : Forall Utf8.byte8 w -> code_point (Utf8.piece_value (-3) w).
Proof.
  intros Hw. destruct w as [|b ts]; [unfold code_point; cbn; lia|]. apply Forall_cons in Hw as [Hb _].
  unfold code_point. cbn [Utf8.piece_value]. change (Utf8.error8 (-3)) with 0xfffd. unfold Utf8.byte8 in Hb.
  destruct (b <? 0x80); [lia|]. destruct (_ && _) eqn:E; [|lia]. unfold Utf8.legal in E.
  assert (0 <= default 0 (zget Utf8.utf8_minLegal (Utf8.U8_COUNT_TRAIL_BYTES b))); [|lia].
  assert (Utf8.U8_COUNT_TRAIL_BYTES b = 1 \/ Utf8.U8_COUNT_TRAIL_BYTES b = 2 \/ Utf8.U8_COUNT_TRAIL_BYTES b = 3) as [-> |[-> | ->]]
    by lia; vm_compute; discriminate.
Qed.

Lemma span_bytes_spec fuel s p u cond :
  wf s -> Forall Utf8.byte8 u -> u <> [] -> zlen u <= Z.of_nat fuel ->
  span_bytes fuel s (p ++ u) (zlen p) (zlen p) (zlen (p ++ u)) cond = Some (zlen p + run_bytes s cond (Utf8.pieces u)).
Proof.
  intros Hwf. revert p u. induction fuel as [|fuel IH]; intros p u Hu Hne Hf.
  { destruct u; [done|]. rewrite zlen_cons in Hf. pose proof (zlen_nonneg u). lia. }
  destruct u as [|b u]; [done|]. cbn [span_bytes]. unfold Utf8.U8_NEXT_OR_FFFD.
  rewrite Utf8.next_char_spec by (done || by left). cbn [mbind option_bind]. rewrite Utf8.pieces_cons.
  pose proof (Utf8.take_trails_prefix (Z.to_nat (Utf8.U8_COUNT_TRAIL_BYTES b)) u) as Hsp. fold (Utf8.own_trails b u) in Hsp.
  set (w := Utf8.own_trails b u) in *. set (v := drop (length w) u) in *. apply Forall_cons in Hu as [Hb Hu].
  rewrite Hsp, Forall_app in Hu. destruct Hu as [Hbw Hbv].
  rewrite code_point_contains by (done || by apply piece_code_point; constructor). cbn [mbind option_bind].
  unfold run_bytes. cbn [BMPSetUtf8.run8]. rewrite eqb_sym_negb, zlen_cons. destruct (Bool.eqb _ cond); cbn [negb]; [|f_equal; lia].
  rewrite zlen_cons, Hsp, zlen_app in Hf. pose proof (zlen_nonneg w).
  assert (Et : p ++ b :: u = (p ++ b :: w) ++ v) by (rewrite Hsp at 1; by rewrite <- app_assoc).
  replace (zlen p + 1 + zlen w) with (zlen (p ++ b :: w)) by (autorewrite with zlen; lia). rewrite Et.
  destruct v as [|y v'] eqn:Ev.
  - rewrite app_nil_r, Z.ltb_irrefl. cbn. autorewrite with zlen. f_equal. lia.
  - rewrite (zlen_app (p ++ b :: w)). pose proof (zlen_nonneg v'). destruct (Z.ltb_spec (zlen (p ++ b :: w)) (zlen (p ++ b :: w) + zlen (y :: v'))).
    2:{ rewrite (zlen_cons y) in *. lia. }
    rewrite <- (zlen_app (p ++ b :: w)), IH by (done || lia). unfold run_bytes. autorewrite with zlen. f_equal. lia.
Qed.

Lemma spanBack_bytes_spec fuel s u st cond :
  wf s -> Forall Utf8.byte8 u -> u <> [] -> zlen u <= Z.of_nat fuel ->
  spanBack_bytes fuel s (u ++ st) (zlen u) (zlen u) cond = Some (zlen u - run_bytes s cond (rev (Utf8.pieces u))).
Proof.
  intros Hwf. revert u st. induction fuel as [|fuel IH]; intros u st Hu Hne Hf.
  { destruct u; [done|]. rewrite zlen_cons in Hf. pose proof (zlen_nonneg u). lia. }
  cbn [spanBack_bytes]. destruct (Utf8.last_piece u Hu Hne) as (front & w & E & _). unfold Utf8.U8_PREV_OR_FFFD.
  rewrite (Utf8.prev_char_spec (-3) u front w st Hu ltac:(lia) E). cbn [mbind option_bind].
  pose proof (Utf8.pieces_concat u) as Hc. rewrite E, concat_app in Hc. cbn [concat] in Hc. rewrite app_nil_r in Hc.
  pose proof Hu as Hu'. rewrite <- Hc, Forall_app in Hu'. destruct Hu' as [Hbf Hbw].
  rewrite code_point_contains by (done || by apply piece_code_point). cbn [mbind option_bind].
  rewrite E, rev_app_distr. unfold run_bytes. cbn [rev app BMPSetUtf8.run8]. rewrite eqb_sym_negb.
  destruct (Bool.eqb _ cond); cbn [negb]; [|f_equal; lia].
  pose proof (Utf8.pieces_front front [w] u E) as Hfr.
  replace (zlen u - zlen w) with (zlen (concat front)) by (rewrite <- Hc, zlen_app; lia).
  pose proof (BMPSetUtf8.pieces_own u) as Ho. rewrite E, Forall_app, Forall_singleton in Ho. destruct Ho as [_ (b & v & ->)].
  rewrite <- Hc in Hf |- *. rewrite zlen_app in *. rewrite zlen_cons in *. pose proof (zlen_nonneg (Utf8.own_trails b v)).
  destruct front as [|x front].
  - cbn. f_equal. lia.
  - pose proof (zlen_nonneg (concat (x :: front))). destruct (Z.ltb_spec 0 (zlen (concat (x :: front)))) as [Hpos|Hz].
    + rewrite <- app_assoc, IH, Hfr; [unfold run_bytes; f_equal; lia|done| |lia]. intros E0. by rewrite E0 in Hpos.
    + exfalso. assert (concat (x :: front) = []) as E0 by (apply length_zero_iff_nil; unfold zlen in *; lia).
      by rewrite E0 in Hfr.
Qed.

Lemma spanBackUTF8_within s u st spanCondition :
  wf s -> no_span_strings s -> Forall Utf8.byte8 u -> u <> [] ->
  spanBackUTF8 s (u ++ st) (zlen u) spanCondition =
    Some (zlen u - run_bytes s (negb (spanCondition =? USET_SPAN_NOT_CONTAINED)) (rev (Utf8.pieces u))).
Proof.
  intros Hwf [Hsp Hor] Hu Hne. unfold spanBackUTF8. set (cond := negb _).
  assert (0 < zlen u) by (destruct u; [done|]; rewrite zlen_cons; pose proof (zlen_nonneg u); lia).
  destruct (bmpSet s) as [b|] eqn:Eb.
  - destruct (Z.ltb_spec 0 (zlen u)); [|lia]. pose proof (wf_bmp s Hwf b Eb) as Hr. unfold BMPSetUtf8.spanBackUTF8.
    apply (BMPSetUtf8.spanBackUTF8_loop_spec b (values s)); auto; [apply Hwf|unfold zlen; lia].
  - destruct Hor as [?|Hs]; [done|]. unfold spanBackUTF8_slow. destruct (Z.ltb_spec (zlen u) 0); [lia|].
    cbn [mbind option_bind]. destruct (Z.eqb_spec (zlen u) 0); [lia|]. rewrite Hsp, ztake_app_exact.
    destruct (wf_strs s Hwf) as (v & Ev & _ & _). destruct (wf_cells s Hwf) as (cells & E & _). rewrite Ev, E.
    cbn [mbind option_bind]. rewrite (no_strings_count s v Hwf Hs Ev). cbn [Z.eqb negb].
    rewrite <- (app_nil_r u) at 2. apply spanBack_bytes_spec; auto. lia.
Qed.

Lemma spanUTF8_runs s u spanCondition :
  wf s -> no_span_strings s -> Forall Utf8.byte8 u -> u <> [] ->
  let cond := negb (spanCondition =? USET_SPAN_NOT_CONTAINED) in
  spanUTF8 s u (zlen u) spanCondition = Some (run_bytes s cond (Utf8.pieces u)) /\
  spanBackUTF8 s u (zlen u) spanCondition = Some (zlen u - run_bytes s cond (rev (Utf8.pieces u))).
Proof.
  intros Hwf Hn Hu Hne cond. split; [|rewrite <- (app_nil_r u) at 1; by apply spanBackUTF8_within].
  destruct Hn as [Hsp Hor]. unfold spanUTF8. fold cond.
  assert (0 < zlen u) by (destruct u; [done|]; rewrite zlen_cons; pose proof (zlen_nonneg u); lia).
  destruct (bmpSet s) as [b|] eqn:Eb.
  - destruct (Z.ltb_spec 0 (zlen u)); [|lia]. pose proof (wf_bmp s Hwf b Eb) as Hr.
    apply (BMPSetUtf8.spanUTF8_spec b (values s)); auto. apply Hwf.
  - destruct Hor as [?|Hs]; [done|]. unfold spanUTF8_slow. destruct (Z.ltb_spec (zlen u) 0); [lia|].
    cbn [mbind option_bind]. destruct (Z.eqb_spec (zlen u) 0); [lia|]. rewrite Hsp, ztake_all.
    destruct (wf_strs s Hwf) as (v & Ev & _ & _). destruct (wf_cells s Hwf) as (cells & E & _). rewrite Ev, E.
    cbn [mbind option_bind]. rewrite (no_strings_count s v Hwf Hs Ev). cbn [Z.eqb negb].
    apply (span_bytes_spec _ s [] u); auto. lia.
Qed.
End Span.

Lemma span_longest_run_witness :
  let u := [0x61; 0x7a; 0xd83d; 0xde00; 0x41] in
  span ascii_block u 5 1 = Some 2 /\
  spanBack ascii_block u 5 0 = Some 5 /\
  containsAll_chars ascii_block (UnicodeString.Str u) = Some false /\
  containsNone_chars ascii_block (UnicodeString.Str u) = Some false.
Proof.
  assert (Hn : no_span_strings ascii_block) by (split; [done|by right]).
  assert (Hu : Forall unit16 [0x61; 0x7a; 0xd83d; 0xde00; 0x41]) by (repeat constructor; unfold unit16; lia).
  destruct (span_longest_run ascii_block [0x61; 0x7a; 0xd83d; 0xde00; 0x41] 1 (proj1 ascii_block_live) Hn Hu ltac:(discriminate))
    as (Hs & _ & Ha & Hno).
  destruct (span_longest_run ascii_block [0x61; 0x7a; 0xd83d; 0xde00; 0x41] 0 (proj1 ascii_block_live) Hn Hu ltac:(discriminate))
    as (_ & Hb & _).
  split_and!; [exact Hs|exact Hb|exact Ha|exact Hno].
Defined.
End UnicodeSetSpan.
