(* ===== verification/StringSpanLoop.v ===== *)
(** * The loops of UnicodeSetStringSpan (common/unisetspan.cpp)

    [OffsetList], the circular buffer of the match ends still to be tried, and the two
    algorithms of [span] with strings.  The source writes them out four times, forwards and
    backwards over UTF-16 and UTF-8, with the same control flow; here the loops are written once
    over [rest], the number of units not yet passed ([rest] of the forward functions, [pos] of
    the backward ones), and take what differs as arguments:
    - [entry i], string [i] with its span length byte, or nothing if it is to be skipped;
    - [long t], the overlap to start with for a string whose span length did not fit the byte;
    - [matches rest overlap inc t], whether [t] lies over the [overlap] units before the current
      position and the [inc] units after it;
    - [run rest], the code point span from there, and [one rest], its first code point, negative
      if it is not in the set.
    UnicodeSetStringSpan.v supplies them for the four functions. *)

From S2P Require Import Prelude.

Module StringSpanLoop.

(** ** OffsetList *)

Record OffsetList := Offsets { o_list : list bool; o_capacity : Z; o_length : Z; o_start : Z }.

(** The constructor: [list] is the uninitialised [staticList], so nothing may be read from it. *)
Definition no_offsets : OffsetList := Offsets [] 0 0 0.

Definition sizeof_staticList : Z := 16.

(** When the allocation is refused, [capacity] stays 0 and [list] uninitialised. *)
Definition setMaxLength `{Heap} (o : OffsetList) (maxLength : Z) : OffsetList :=
  if maxLength <=? sizeof_staticList
  then Offsets (replicate (Z.to_nat sizeof_staticList) false) sizeof_staticList (o_length o) (o_start o)
  else match uprv_malloc false 1 maxLength with
       | Some l => Offsets l maxLength (o_length o) (o_start o)
       | None => o
       end.

(** [uprv_memset(list, 0, capacity); start=length=0;] *)
Definition clear (o : OffsetList) : OffsetList :=
  Offsets (replicate (Z.to_nat (o_capacity o)) false) (o_capacity o) 0 0.

Definition isEmpty (o : OffsetList) : bool := o_length o =? 0.

(** [i=start+offset; if(i>=capacity) i-=capacity;] *)
Definition index_of (o : OffsetList) (offset : Z) : Z :=
  let i := o_start o + offset in if o_capacity o <=? i then i - o_capacity o else i.

Definition shift (o : OffsetList) (delta : Z) : option OffsetList :=
  let i := index_of o delta in
  b ← zget (o_list o) i;
  if (b : bool) then l ← zset (o_list o) i false; Some (Offsets l (o_capacity o) (o_length o - 1) i)
  else Some (Offsets (o_list o) (o_capacity o) (o_length o) i).

Definition addOffset (o : OffsetList) (offset : Z) : option OffsetList :=
  l ← zset (o_list o) (index_of o offset) true;
  Some (Offsets l (o_capacity o) (o_length o + 1) (o_start o)).

Definition containsOffset (o : OffsetList) (offset : Z) : option bool := zget (o_list o) (index_of o offset).

(** [while(++i<capacity) if(list[i]) ...]: the index found, if any. *)
Fixpoint find_above (fuel : nat) (l : list bool) (i capacity : Z) : option (option Z) :=
  match fuel with
  | O => None
  | S fuel =>
      let i := i + 1 in
      if i <? capacity then b ← zget l i; if (b : bool) then Some (Some i) else find_above fuel l i capacity
      else Some None
  end.

(** [while(!list[i]) ++i;] *)
Fixpoint find_wrapped (fuel : nat) (l : list bool) (i : Z) : option Z :=
  match fuel with
  | O => None
  | S fuel => b ← zget l i; if (b : bool) then Some i else find_wrapped fuel l (i + 1)
  end.

Definition popMinimum (o : OffsetList) : option (Z * OffsetList) :=
  let fuel := S (length (o_list o)) in
  r ← find_above fuel (o_list o) (o_start o) (o_capacity o);
  match r with
  | Some i =>
      l ← zset (o_list o) i false;
      Some (i - o_start o, Offsets l (o_capacity o) (o_length o - 1) i)
  | None =>
      i ← find_wrapped fuel (o_list o) 0;
      l ← zset (o_list o) i false;
      Some (o_capacity o - o_start o + i, Offsets l (o_capacity o) (o_length o - 1) i)
  end.

(** ** The loops *)

(** Special spanLength byte values. *)
Definition LONG_SPAN : Z := 0xfe.
Definition ALL_CP_CONTAINED : Z := 0xff.

Definition makeSpanLengthByte (spanLength : Z) : Z := if spanLength <? 0xfe then spanLength else 0xfe.

Section Loops.
Context {T : Type} (size : T -> Z).
Context (entry : Z -> option (option (Z * T))) (long : T -> option Z).
Context (matches : Z -> Z -> Z -> T -> option bool) (run one : Z -> option Z).
Context (stringsLength length : Z).

(** One string, from the largest overlap down: whether it reached the end of the text, and the
    offsets with the ends of its matches. *)
Fixpoint try_overlaps (fuel : nat) (t : T) (rest overlap inc : Z) (offsets : OffsetList)
  : option (bool * OffsetList) :=
  match fuel with
  | O => None
  | S fuel =>
      if rest <? inc then Some (false, offsets)
      else
        listed ← containsOffset offsets inc;
        hit ← (if (listed : bool) then Some false else matches rest overlap inc t);
        if (hit : bool) && (inc =? rest) then Some (true, offsets)
        else
          offsets ← (if (hit : bool) then addOffset offsets inc else Some offsets);
          if overlap =? 0 then Some (false, offsets) else try_overlaps fuel t rest (overlap - 1) (inc + 1) offsets
  end.

(** USET_SPAN_CONTAINED: all relevant strings at a position. *)
Fixpoint contained_strings (n : nat) (i rest spanLength : Z) (offsets : OffsetList)
  : option (bool * OffsetList) :=
  match n with
  | O => Some (false, offsets)
  | S n =>
      e ← entry i;
      match e with
      | None => contained_strings n (i + 1) rest spanLength offsets
      | Some (overlap, t) =>
          if overlap =? ALL_CP_CONTAINED then contained_strings n (i + 1) rest spanLength offsets
          else
            overlap ← (if LONG_SPAN <=? overlap then long t else Some overlap);
            let overlap := if spanLength <? overlap then spanLength else overlap in
            '(reached, offsets) ← try_overlaps (S (Z.to_nat overlap)) t rest overlap (size t - overlap) offsets;
            if (reached : bool) then Some (true, offsets)
            else contained_strings n (i + 1) rest spanLength offsets
      end
  end.

(** USET_SPAN_SIMPLE: one string; [maxInc] and [maxOverlap]. *)
Fixpoint simple_overlaps (fuel : nat) (t : T) (rest overlap inc maxInc maxOverlap : Z) : option (Z * Z) :=
  match fuel with
  | O => None
  | S fuel =>
      if (rest <? inc) || (overlap <? maxOverlap) then Some (maxInc, maxOverlap)
      else
        hit ← (if (maxOverlap <? overlap) || (maxInc <? inc) then matches rest overlap inc t else Some false);
        if (hit : bool) then Some (inc, overlap)
        else simple_overlaps fuel t rest (overlap - 1) (inc + 1) maxInc maxOverlap
  end.

Fixpoint simple_strings (n : nat) (i rest spanLength maxInc maxOverlap : Z) : option (Z * Z) :=
  match n with
  | O => Some (maxInc, maxOverlap)
  | S n =>
      e ← entry i;
      match e with
      | None => simple_strings n (i + 1) rest spanLength maxInc maxOverlap
      | Some (overlap, t) =>
          let overlap := if LONG_SPAN <=? overlap then size t else overlap in
          let overlap := if spanLength <? overlap then spanLength else overlap in
          '(maxInc, maxOverlap) ←
            simple_overlaps (S (S (Z.to_nat overlap))) t rest overlap (size t - overlap) maxInc maxOverlap;
          simple_strings n (i + 1) rest spanLength maxInc maxOverlap
      end
  end.

(** The main loop, which returns what is left of the text: [contained] is
    [spanCondition==USET_SPAN_CONTAINED]. *)
Fixpoint span_loop (fuel : nat) (contained : bool) (rest spanLength : Z) (offsets : OffsetList) : option Z :=
  match fuel with
  | O => None
  | S fuel =>
      let pop offsets :=
        '(minOffset, offsets) ← popMinimum offsets; span_loop fuel contained (rest - minOffset) 0 offsets in
      let finished offsets :=
        if negb (spanLength =? 0) || (rest =? length) then
          if isEmpty offsets then Some rest else pop offsets
        else if isEmpty offsets then
          spanLength ← run rest;
          if (spanLength =? rest) || (spanLength =? 0) then Some (rest - spanLength)
          else span_loop fuel contained (rest - spanLength) spanLength offsets
        else
          n ← one rest;
          if 0 <? n then
            if n =? rest then Some 0
            else offsets ← shift offsets n; span_loop fuel contained (rest - n) 0 offsets
          else pop offsets in
      if contained then
        '(reached, offsets) ← contained_strings (Z.to_nat stringsLength) 0 rest spanLength offsets;
        if (reached : bool) then Some 0 else finished offsets
      else
        '(maxInc, maxOverlap) ← simple_strings (Z.to_nat stringsLength) 0 rest spanLength 0 0;
        if negb (maxInc =? 0) || negb (maxOverlap =? 0) then
          let rest := rest - maxInc in
          if rest =? 0 then Some 0 else span_loop fuel contained rest 0 offsets
        else finished offsets
  end.

(** [spanNot] and its variants: [notRun] is the span of [pSpanNotSet], [found] the match of a
    string at the current position. *)
Fixpoint find_string (n : nat) (found : Z -> T -> option bool) (i rest : Z) : option bool :=
  match n with
  | O => Some false
  | S n =>
      e ← entry i;
      match e with
      | None => find_string n found (i + 1) rest
      | Some (overlap, t) =>
          if overlap =? ALL_CP_CONTAINED then find_string n found (i + 1) rest
          else
            hit ← (if size t <=? rest then found rest t else Some false);
            if (hit : bool) then Some true else find_string n found (i + 1) rest
      end
  end.

Fixpoint spanNot_loop (fuel : nat) (notRun : Z -> option Z) (found : Z -> T -> option bool) (rest : Z) : option Z :=
  match fuel with
  | O => None
  | S fuel =>
      i ← notRun rest;
      if i =? rest then Some 0
      else
        let rest := rest - i in
        cpLength ← one rest;
        if 0 <? cpLength then Some rest
        else
          hit ← find_string (Z.to_nat stringsLength) found 0 rest;
          if (hit : bool) then Some rest
          else
            let rest := rest + cpLength in
            if negb (rest =? 0) then spanNot_loop fuel notRun found rest else Some 0
  end.
End Loops.
End StringSpanLoop.
