(* ===== verification/UnicodeSetStringSpan.v ===== *)
(** * UnicodeSetStringSpan: spans over text for a set with strings (common/unisetspan.cpp, .h)

    The object that a UnicodeSet with strings builds for its spans, once for all variants when
    it is frozen or for one variant on the fly: the set without its strings, a set that stops at
    the characters strings start or end with, and for each string the length of its span.  It
    implements the class [StringSpan] that UnicodeSet.v is written against; its own sets have no
    strings, so they are sets over the empty implementation [no_span]. *)

From S2P Require Import Prelude Vector Utf16 Utf8 UString StringConv InversionList BMPSet BMPSetUtf8 UnicodeSet StringSpanLoop.
Import InvList StringSpanLoop.

(** The string spans of sets without strings: there are none. *)
Definition no_span : StringSpan := {|
  ss := Empty_set;
  ss_new := fun _ _ _ => None;
  ss_copy := fun _ _ => None;
  needsStringSpanUTF16 := fun _ => false;
  needsStringSpanUTF8 := fun _ => false;
  ss_contains := fun _ _ => None;
  ss_span := fun _ _ _ _ => None;
  ss_spanBack := fun _ _ _ _ => None;
  ss_spanUTF8 := fun _ _ _ _ => None;
  ss_spanBackUTF8 := fun _ _ _ _ => None
|}.

Module UnicodeSetStringSpan.

Notation uvec := (UVector.t UnicodeString.t).
Notation set0 := (@UnicodeSet.t no_span).

Definition FWD : Z := 0x20.
Definition BACK : Z := 0x10.
Definition UTF16 : Z := 8.
Definition UTF8 : Z := 4.
Definition CONTAINED : Z := 2.
Definition NOT_CONTAINED : Z := 1.
Definition ALL : Z := 0x3f.

(** [which&bit] *)
Definition bit (which b : Z) : bool := negb (Z.land which b =? 0).

Section Object.
Context `{Heap} `{ObjectSizes}.
#[local] Existing Instance no_span.

(** [pSpanNotSet]: null, the address of [spanSet], or a set of its own. *)
Inductive not_set := NullSet | SpanSet | OwnSet (s : set0).

(** The block of meta data as the arrays in it; they are empty while [utf8Lengths] is null.
    [spanLengths] holds the bytes of all four variants if [all], of the one variant otherwise. *)
Record t := mk {
  spanSet : set0;
  pSpanNotSet : not_set;
  utf8Lengths : list Z;
  spanLengths : list Z;
  utf8 : list Z;
  utf8Length : Z;
  maxLength16 : Z;
  maxLength8 : Z;
  all : bool
}.

Definition needsUTF16 (sp : t) : bool := negb (maxLength16 sp =? 0).
Definition needsUTF8 (sp : t) : bool := negb (maxLength8 sp =? 0).
Definition contains (sp : t) (c : Z) : option bool := UnicodeSet.contains (spanSet sp) c.

(** The units of string [i]. *)
Definition string_at (v : uvec) (i : Z) : option (list Z) :=
  e ← UVector.elementAt v i; str ← UnicodeSet.the_string e; Some (UnicodeString.units str).

(** ** Construction *)

(** The number of UTF-8 bytes of a string; 0 if it has an unpaired surrogate. *)
Definition getUTF8Length (s : list Z) (length : Z) : option Z :=
  r ← StringConv.u_strToUTF8 None 0 (Some s) length U_ZERO_ERROR;
  let length8 := default 0 (StringConv.r_length r) in
  Some (match StringConv.r_code r with
        | U_BUFFER_OVERFLOW_ERROR => length8
        | e => if U_SUCCESS e then length8 else 0
        end).

(** The UTF-8 form of a string written at [t]. *)
Definition appendUTF8 (s : list Z) (length : Z) (t : list Z) (capacity : Z) : option (list Z * Z) :=
  r ← StringConv.u_strToUTF8 (Some t) capacity (Some s) length U_ZERO_ERROR;
  Some (default [] (StringConv.r_dest r),
        if U_SUCCESS (StringConv.r_code r) then default 0 (StringConv.r_length r) else 0).

(** The first loop of the constructor: [someRelevant], [maxLength16], [maxLength8], [utf8Length]. *)
Fixpoint measure (n : nat) (set : set0) (v : uvec) (which i : Z) (some : bool) (max16 max8 len8 : Z)
  : option (bool * Z * Z * Z) :=
  match n with
  | O => Some (some, max16, max8, len8)
  | S n =>
      s16 ← string_at v i;
      let length16 := zlen s16 in
      spanLength ← UnicodeSet.span set s16 length16 UnicodeSet.USET_SPAN_CONTAINED;
      let thisRelevant := spanLength <? length16 in
      let max16 := if bit which UTF16 && (max16 <? length16) then length16 else max16 in
      '(max8, len8) ←
        (if bit which UTF8 && (thisRelevant || bit which CONTAINED) then
           length8 ← getUTF8Length s16 length16;
           len8 ← checked (len8 + length8);
           Some (if max8 <? length8 then length8 else max8, len8)
         else Some (max8, len8));
      measure n set v which (i + 1) (some || thisRelevant) max16 max8 len8
  end.

(** [addToSpanNotSet]: the inner [None] of [cloneAsThawed] is a refused allocation. *)
Definition addToSpanNotSet (set : set0) (p : not_set) (c : Z) : option not_set :=
  match p with
  | OwnSet s => s ← UnicodeSet.add_cp s c; Some (OwnSet s)
  | _ =>
      b ← UnicodeSet.contains set c;
      if (b : bool) then Some p
      else
        newSet ← UnicodeSet.cloneAsThawed set;
        match newSet with
        | None => Some p
        | Some s => s ← UnicodeSet.add_cp s c; Some (OwnSet s)
        end
  end.

(** The state of the second loop: [pSpanNotSet], the arrays, [utf8Count]. *)
Record meta := Meta { m_not : not_set; m_len8 : list Z; m_spans : list Z; m_utf8 : list Z; m_count : Z }.

(** [uint8_t *s8=utf8+utf8Count; length8=appendUTF8(...); utf8Count+=utf8Lengths[i]=length8;] *)
Definition store_utf8 (s16 : list Z) (i len8 : Z) (m : meta) : option (list Z * Z * meta) :=
  let s8 := drop (Z.to_nat (m_count m)) (m_utf8 m) in
  '(s8, length8) ← appendUTF8 s16 (zlen s16) s8 (len8 - m_count m);
  lens ← zset (m_len8 m) i length8;
  count ← checked (m_count m + length8);
  Some (s8, length8, Meta (m_not m) lens (m_spans m) (ztake (m_count m) (m_utf8 m) ++ s8) count).

(** [spanXYZLengths[i]=b]: the variants 0 to 3 are forward and backward UTF-16, forward and
    backward UTF-8; their arrays are the same one unless [all]. *)
Definition store_span (n : Z) (is_all : bool) (variant i b : Z) (m : meta) : option meta :=
  spans ← zset (m_spans m) ((if is_all then variant * n else 0) + i) b;
  Some (Meta (m_not m) (m_len8 m) spans (m_utf8 m) (m_count m)).

Definition add_not (set : set0) (c : Z) (m : meta) : option meta :=
  p ← addToSpanNotSet set (m_not m) c; Some (Meta p (m_len8 m) (m_spans m) (m_utf8 m) (m_count m)).

(** [if(condition) statement] *)
Definition when {A} (b : bool) (f : A -> option A) (a : A) : option A := if b then f a else Some a.

(** The UTF-16 span lengths of a relevant string. *)
Definition store_relevant16 (set : set0) (which n : Z) (is_all : bool) (s16 : list Z) (i spanLength : Z) (m : meta)
  : option meta :=
  if bit which CONTAINED then
    m ← when (bit which FWD) (store_span n is_all 0 i (makeSpanLengthByte spanLength)) m;
    when (bit which BACK) (fun m =>
      back ← UnicodeSet.spanBack set s16 (zlen s16) UnicodeSet.USET_SPAN_CONTAINED;
      store_span n is_all 1 i (makeSpanLengthByte (zlen s16 - back)) m) m
  else m ← store_span n is_all 0 i 0 m; store_span n is_all 1 i 0 m.

(** The UTF-8 form and its span lengths. *)
Definition store_relevant8 (set : set0) (which n len8 : Z) (is_all : bool) (s16 : list Z) (i : Z) (m : meta)
  : option meta :=
  '(s8, length8, m) ← store_utf8 s16 i len8 m;
  if length8 =? 0 then
    m ← store_span n is_all 2 i ALL_CP_CONTAINED m; store_span n is_all 3 i ALL_CP_CONTAINED m
  else if bit which CONTAINED then
    m ← when (bit which FWD) (fun m =>
      spanLength ← UnicodeSet.spanUTF8 set (ztake length8 s8) length8 UnicodeSet.USET_SPAN_CONTAINED;
      store_span n is_all 2 i (makeSpanLengthByte spanLength) m) m;
    when (bit which BACK) (fun m =>
      back ← UnicodeSet.spanBackUTF8 set (ztake length8 s8) length8 UnicodeSet.USET_SPAN_CONTAINED;
      store_span n is_all 3 i (makeSpanLengthByte (length8 - back)) m) m
  else m ← store_span n is_all 2 i 0 m; store_span n is_all 3 i 0 m.

(** The first and the last character of a relevant string. *)
Definition store_not (set : set0) (which : Z) (s16 : list Z) (m : meta) : option meta :=
  m ← when (bit which FWD) (fun m => '(c, _) ← Utf16.U16_NEXT s16 0 (zlen s16); add_not set c m) m;
  when (bit which BACK) (fun m => '(c, _) ← Utf16.U16_PREV s16 0 (zlen s16); add_not set c m) m.

Definition store_irrelevant (which n len8 : Z) (is_all : bool) (s16 : list Z) (i : Z) (m : meta) : option meta :=
  m ← when (bit which UTF8) (fun m =>
    if bit which CONTAINED then '(_, _, m) ← store_utf8 s16 i len8 m; Some m
    else lens ← zset (m_len8 m) i 0; Some (Meta (m_not m) lens (m_spans m) (m_utf8 m) (m_count m))) m;
  m ← store_span n is_all 0 i ALL_CP_CONTAINED m;
  if is_all then
    m ← store_span n is_all 1 i ALL_CP_CONTAINED m;
    m ← store_span n is_all 2 i ALL_CP_CONTAINED m;
    store_span n is_all 3 i ALL_CP_CONTAINED m
  else Some m.

(** What the second loop stores for one string. *)
Definition store_string (set : set0) (which n len8 : Z) (is_all : bool) (s16 : list Z) (i : Z) (m : meta) : option meta :=
  spanLength ← UnicodeSet.span set s16 (zlen s16) UnicodeSet.USET_SPAN_CONTAINED;
  if spanLength <? zlen s16 then
    m ← when (bit which UTF16) (store_relevant16 set which n is_all s16 i spanLength) m;
    m ← when (bit which UTF8) (store_relevant8 set which n len8 is_all s16 i) m;
    when (bit which NOT_CONTAINED) (store_not set which s16) m
  else store_irrelevant which n len8 is_all s16 i m.

(** The second loop. *)
Fixpoint fill (k : nat) (set : set0) (v : uvec) (which n len8 i : Z) (is_all : bool) (m : meta) : option meta :=
  match k with
  | O => Some m
  | S k =>
      s16 ← string_at v i;
      m ← store_string set which n len8 is_all s16 i m;
      fill k set v which n len8 (i + 1) is_all m
  end.

Definition sizeof_staticLengths : Z := 128.

(** Whether the block of meta data is there: in the object, or allocated. *)
Definition block_ok (allocSize : Z) : bool :=
  (allocSize <=? sizeof_staticLengths) || alloc_ok allocSize.

(** What the constructor reads of the parent set: its list and its strings. *)
Definition parent (l : list Z) (v : uvec) : set0 :=
  UnicodeSet.mk (zlen l) (zlen l) (Some l) None 0 None (Some v) None None 0.

Definition new (l : list Z) (v : uvec) (which : Z) : option t :=
  set ← UnicodeSet.new_range 0 0x10ffff;
  let is_all := which =? ALL in
  set ← UnicodeSet.retainAll set (parent l v);
  let notSet := if bit which NOT_CONTAINED then SpanSet else NullSet in
  let n := UVector.count v in
  '(some, max16, max8, len8) ← measure (Z.to_nat n) set v which 0 false 0 0 0;
  if negb some then Some (mk set notSet [] [] [] len8 0 0 is_all)
  else
    set ← when is_all UnicodeSet.freeze set;
    allocSize ← (if is_all then checked (n * (4 + 1 + 1 + 1 + 1) + len8)
                 else if bit which UTF8 then checked (n + (n * 4 + len8)) else Some n);
    if block_ok allocSize then
      let cells k := replicate (Z.to_nat k) junk in
      m ← fill (Z.to_nat n) set v which n len8 0 is_all
            (Meta notSet (if bit which UTF8 then cells n else []) (cells (if is_all then 4 * n else n))
                  (if bit which UTF8 then cells len8 else []) 0);
      '(set, notSet) ←
        (if is_all then
           match m_not m with
           | NullSet => None
           | SpanSet => set ← UnicodeSet.freeze set; Some (set, SpanSet)
           | OwnSet s => s ← UnicodeSet.freeze s; Some (set, OwnSet s)
           end
         else Some (set, m_not m));
      Some (mk set notSet (m_len8 m) (m_spans m) (m_utf8 m) len8 max16 max8 is_all)
    else Some (mk set notSet [] [] [] len8 0 0 is_all).

(** The copy constructor, for the vector of the new parent. *)
Definition copy (o : t) (v : uvec) : option t :=
  set ← UnicodeSet.new_copy (spanSet o);
  notSet ← match pSpanNotSet o with
           | SpanSet => Some SpanSet
           | NullSet => None
           | OwnSet s => c ← UnicodeSet.clone s; Some (match c with Some s => OwnSet s | None => NullSet end)
           end;
  let n := UVector.count v in
  allocSize ← checked (n * (4 + 1 + 1 + 1 + 1) + utf8Length o);
  if block_ok allocSize then
    if (zlen (utf8Lengths o) =? n) && (zlen (spanLengths o) =? 4 * n) && (zlen (utf8 o) =? utf8Length o)
    then Some (mk set notSet (utf8Lengths o) (spanLengths o) (utf8 o) (utf8Length o) (maxLength16 o) (maxLength8 o) true)
    else None
  else Some (mk set notSet [] [] [] (utf8Length o) 0 0 true).

(** ** Matching *)

(** The do-while loop over [length] units, [n] being the number after the first. *)
Fixpoint matches_from (n : nat) (s t : list Z) (i j : Z) : option bool :=
  x ← zget s i; y ← zget t j;
  if x =? y then match n with O => Some true | S n => matches_from n s t (i + 1) (j + 1) end
  else Some false.

Definition matches16 (s : list Z) (start : Z) (t : list Z) (length : Z) : option bool :=
  matches_from (Z.to_nat (length - 1)) s t start 0.
Definition matches8 (s : list Z) (start : Z) (t : list Z) (length : Z) : option bool :=
  matches_from (Z.to_nat (length - 1)) s t start 0.

(** [U16_IS_LEAD(s[i-1]) && U16_IS_TRAIL(s[i])] *)
Definition splits_pair (s : list Z) (i : Z) : option bool :=
  x ← zget s (i - 1); if Utf16.U16_IS_LEAD x then y ← zget s i; Some (Utf16.U16_IS_TRAIL y) else Some false.

Definition matches16CPB (s : list Z) (start limit : Z) (t : list Z) (length : Z) : option bool :=
  m ← matches16 s start t length;
  if (m : bool) then
    a ← (if 0 <? start then splits_pair s start else Some false);
    if (a : bool) then Some false
    else
      b ← (if length <? limit - start then splits_pair s (start + length) else Some false);
      Some (negb b)
  else Some false.

(** [contains(c) ? n : -n] *)
Definition signed (set : set0) (c n : Z) : option Z :=
  b ← UnicodeSet.contains set c; Some (if (b : bool) then n else - n).

Definition spanOne (set : set0) (s : list Z) (length : Z) : option Z :=
  c ← zget s 0;
  c2 ← (if (0xd800 <=? c) && (c <=? 0xdbff) && (2 <=? length)
        then c2 ← zget s 1; Some (if Utf16.U16_IS_TRAIL c2 then Some c2 else None) else Some None);
  match c2 with Some c2 => signed set (Utf16.U16_GET_SUPPLEMENTARY c c2) 2 | None => signed set c 1 end.

Definition spanOneBack (set : set0) (s : list Z) (length : Z) : option Z :=
  c ← zget s (length - 1);
  c2 ← (if (0xdc00 <=? c) && (c <=? 0xdfff) && (2 <=? length)
        then c2 ← zget s (length - 2); Some (if Utf16.U16_IS_LEAD c2 then Some c2 else None) else Some None);
  match c2 with Some c2 => signed set (Utf16.U16_GET_SUPPLEMENTARY c2 c) 2 | None => signed set c 1 end.

Definition spanOneUTF8 (set : set0) (s : list Z) (length : Z) : option Z :=
  c ← zget s 0;
  if c <? 0x80 then signed set c 1
  else '(c, i) ← Utf8.U8_NEXT_OR_FFFD s 0 length; signed set c i.

Definition spanOneBackUTF8 (set : set0) (s : list Z) (length : Z) : option Z :=
  c ← zget s (length - 1);
  if c <? 0x80 then signed set c 1
  else '(c, i) ← Utf8.utf8_prevCharSafeBody s 0 (length - 1) c (-3); signed set c (length - i).

(** ** The spans *)

(** [spanLengths[i]], for the variants numbered as above. *)
Definition span_byte (sp : t) (n variant i : Z) : option Z :=
  zget (spanLengths sp) ((if all sp then variant * n else 0) + i).

(** String [i] for the UTF-16 loops. *)
Definition entry16 (sp : t) (v : uvec) (variant i : Z) : option (option (Z * list Z)) :=
  overlap ← span_byte sp (UVector.count v) variant i; s16 ← string_at v i; Some (Some (overlap, s16)).

(** [s8], the sum of the lengths before string [i]. *)
Definition utf8_offset (lens : list Z) (i : Z) : Z := foldr Z.add 0 (ztake i lens).

(** String [i] for the UTF-8 loops: a string of length 0 is not representable. *)
Definition entry8 (sp : t) (v : uvec) (variant i : Z) : option (option (Z * list Z)) :=
  length8 ← zget (utf8Lengths sp) i;
  if length8 =? 0 then Some None
  else
    overlap ← span_byte sp (UVector.count v) variant i;
    Some (Some (overlap, ztake length8 (drop (Z.to_nat (utf8_offset (utf8Lengths sp) i)) (utf8 sp)))).

(** [s+pos] for the [rest] units at the end. *)
Definition tail (s : list Z) (rest : Z) : list Z := drop (Z.to_nat (zlen s - rest)) s.

Definition fuel_for (s : list Z) : nat := S (S (2 * length s)).

(** [offsets.setMaxLength(maxLength)] while contained. *)
Definition initial_offsets (contained : bool) (maxLength : Z) : OffsetList :=
  if contained then setMaxLength no_offsets maxLength else no_offsets.

Definition not_span (sp : t) : option set0 :=
  match pSpanNotSet sp with NullSet => None | SpanSet => Some (spanSet sp) | OwnSet s => Some s end.

Definition spanNot (sp : t) (v : uvec) (s : list Z) : option Z :=
  let length := zlen s in
  not ← not_span sp;
  rest ← spanNot_loop zlen (entry16 sp v 0)
    (fun rest => spanOne (spanSet sp) (tail s rest) rest) (UVector.count v) (fuel_for s)
    (fun rest => UnicodeSet.span not (tail s rest) rest UnicodeSet.USET_SPAN_NOT_CONTAINED)
    (fun rest t => matches16CPB s (length - rest) length t (zlen t)) length;
  Some (length - rest).

Definition spanNotBack (sp : t) (v : uvec) (s : list Z) : option Z :=
  let length := zlen s in
  not ← not_span sp;
  spanNot_loop zlen (entry16 sp v 0)
    (fun rest => spanOneBack (spanSet sp) s rest) (UVector.count v) (fuel_for s)
    (fun rest => pos ← UnicodeSet.spanBack not s rest UnicodeSet.USET_SPAN_NOT_CONTAINED; Some (rest - pos))
    (fun rest t => matches16CPB s (rest - zlen t) length t (zlen t)) length.

Definition spanNotUTF8 (sp : t) (v : uvec) (s : list Z) : option Z :=
  let length := zlen s in
  not ← not_span sp;
  rest ← spanNot_loop zlen (entry8 sp v 2)
    (fun rest => spanOneUTF8 (spanSet sp) (tail s rest) rest) (UVector.count v) (fuel_for s)
    (fun rest => UnicodeSet.spanUTF8 not (tail s rest) rest UnicodeSet.USET_SPAN_NOT_CONTAINED)
    (fun rest t => matches8 s (length - rest) t (zlen t)) length;
  Some (length - rest).

Definition spanNotBackUTF8 (sp : t) (v : uvec) (s : list Z) : option Z :=
  let length := zlen s in
  not ← not_span sp;
  spanNot_loop zlen (entry8 sp v 3)
    (fun rest => spanOneBackUTF8 (spanSet sp) s rest) (UVector.count v) (fuel_for s)
    (fun rest => pos ← UnicodeSet.spanBackUTF8 not s rest UnicodeSet.USET_SPAN_NOT_CONTAINED; Some (rest - pos))
    (fun rest t => matches8 s (rest - zlen t) t (zlen t)) length.

(** The overlap of a string with a long span: without its last, or first, character. *)
Definition all_but_last16 (t : list Z) : option Z := Utf16.U16_BACK_1 t 0 (zlen t).
Definition all_but_first16 (t : list Z) : option Z := len1 ← Utf16.U16_FWD_1 t 0 (zlen t); Some (zlen t - len1).
Definition all_but_last8 (t : list Z) : option Z := Utf8.U8_BACK_1 t 0 (zlen t).
Definition all_but_first8 (t : list Z) : option Z := len1 ← Utf8.U8_FWD_1 t 0 (zlen t); Some (zlen t - len1).

Definition span (sp : t) (v : uvec) (s : list Z) (spanCondition : Z) : option Z :=
  if spanCondition =? UnicodeSet.USET_SPAN_NOT_CONTAINED then spanNot sp v s
  else
    let length := zlen s in
    let contained := spanCondition =? UnicodeSet.USET_SPAN_CONTAINED in
    let run rest := UnicodeSet.span (spanSet sp) (tail s rest) rest UnicodeSet.USET_SPAN_CONTAINED in
    spanLength ← run length;
    if spanLength =? length then Some length
    else
      rest ← span_loop zlen (entry16 sp v 0) all_but_last16
        (fun rest overlap _ t => matches16CPB s (length - rest - overlap) length t (zlen t))
        run (fun rest => spanOne (spanSet sp) (tail s rest) rest) (UVector.count v) length
        (fuel_for s) contained (length - spanLength) spanLength (initial_offsets contained (maxLength16 sp));
      Some (length - rest).

Definition spanBack (sp : t) (v : uvec) (s : list Z) (spanCondition : Z) : option Z :=
  if spanCondition =? UnicodeSet.USET_SPAN_NOT_CONTAINED then spanNotBack sp v s
  else
    let length := zlen s in
    let contained := spanCondition =? UnicodeSet.USET_SPAN_CONTAINED in
    let run rest := pos ← UnicodeSet.spanBack (spanSet sp) s rest UnicodeSet.USET_SPAN_CONTAINED; Some (rest - pos) in
    spanLength ← run length;
    if spanLength =? length then Some 0
    else
      span_loop zlen (entry16 sp v 1) all_but_first16
        (fun rest _ dec t => matches16CPB s (rest - dec) length t (zlen t))
        run (fun rest => spanOneBack (spanSet sp) s rest) (UVector.count v) length
        (fuel_for s) contained (length - spanLength) spanLength (initial_offsets contained (maxLength16 sp)).

(** [!U8_IS_TRAIL(s[start]) && matches8(s+start, s8, length8)] *)
Definition matches8CPB (s : list Z) (start : Z) (t : list Z) : option bool :=
  x ← zget s start; if Utf8.U8_IS_TRAIL x then Some false else matches8 s start t (zlen t).

Definition spanUTF8 (sp : t) (v : uvec) (s : list Z) (spanCondition : Z) : option Z :=
  if spanCondition =? UnicodeSet.USET_SPAN_NOT_CONTAINED then spanNotUTF8 sp v s
  else
    let length := zlen s in
    let contained := spanCondition =? UnicodeSet.USET_SPAN_CONTAINED in
    let run rest := UnicodeSet.spanUTF8 (spanSet sp) (tail s rest) rest UnicodeSet.USET_SPAN_CONTAINED in
    spanLength ← run length;
    if spanLength =? length then Some length
    else
      rest ← span_loop zlen (entry8 sp v 2) all_but_last8
        (fun rest overlap _ t => matches8CPB s (length - rest - overlap) t)
        run (fun rest => spanOneUTF8 (spanSet sp) (tail s rest) rest) (UVector.count v) length
        (fuel_for s) contained (length - spanLength) spanLength (initial_offsets contained (maxLength8 sp));
      Some (length - rest).

Definition spanBackUTF8 (sp : t) (v : uvec) (s : list Z) (spanCondition : Z) : option Z :=
  if spanCondition =? UnicodeSet.USET_SPAN_NOT_CONTAINED then spanNotBackUTF8 sp v s
  else
    let length := zlen s in
    let contained := spanCondition =? UnicodeSet.USET_SPAN_CONTAINED in
    let run rest := pos ← UnicodeSet.spanBackUTF8 (spanSet sp) s rest UnicodeSet.USET_SPAN_CONTAINED; Some (rest - pos) in
    spanLength ← run length;
    if spanLength =? length then Some 0
    else
      span_loop zlen (entry8 sp v 3) all_but_first8
        (fun rest _ dec t => matches8CPB s (rest - dec) t)
        run (fun rest => spanOneBackUTF8 (spanSet sp) s rest) (UVector.count v) length
        (fuel_for s) contained (length - spanLength) spanLength (initial_offsets contained (maxLength8 sp)).
End Object.

(** The implementation of the interface. *)
Definition string_span `{Heap} `{ObjectSizes} : StringSpan := {|
  ss := t;
  ss_new := new;
  ss_copy := copy;
  needsStringSpanUTF16 := needsUTF16;
  needsStringSpanUTF8 := needsUTF8;
  ss_contains := contains;
  ss_span := span;
  ss_spanBack := spanBack;
  ss_spanUTF8 := spanUTF8;
  ss_spanBackUTF8 := spanBackUTF8
|}.
End UnicodeSetStringSpan.
