(* ===== verification/StringSpanFacts.v ===== *)
(** * The loops of UnicodeSetStringSpan are correct

    [OffsetList] implements a finite set of positive offsets.  With it, the CONTAINED loop
    returns the furthest position that a concatenation of set elements, code points and strings,
    can reach; the SIMPLE loop stops at a reachable position where no element follows; and the
    NOT_CONTAINED loop stops at the first position where an element starts.  The text is a list
    of characters in reading direction, so that the same theorems serve the forward and the
    backward functions over UTF-16 and UTF-8. *)

From S2P Require Import Prelude UnicodeSet StringSpanLoop.

Module StringSpanFacts.
Import StringSpanLoop.

(** ** OffsetList as a set of offsets *)

Record o_rep (o : OffsetList) (X : gset Z) : Prop := {
  or_cells : zlen (o_list o) = o_capacity o;
  or_start : 0 <= o_start o < o_capacity o;
  or_length : o_length o = Z.of_nat (size X);
  or_range : forall x, x ∈ X -> 1 <= x <= o_capacity o;
  or_flags : forall x, 1 <= x <= o_capacity o -> zget (o_list o) (index_of o x) = Some (bool_decide (x ∈ X))
}.

(** The offsets seen from [d] further on. *)
Definition shifted (X : gset Z) (d : Z) : gset Z := set_map (fun x => x - d) (X ∖ {[d]}).

Lemma elem_shifted X d y : y ∈ shifted X d <-> y + d ∈ X /\ y <> 0.
Proof.
  unfold shifted. rewrite elem_of_map. split.
  - intros (x & -> & [Hx Hd]%elem_of_difference). rewrite not_elem_of_singleton in Hd.
    replace (x - d + d) with x by lia. split; [done|lia].
  - intros [Hy Hne]. exists (y + d). split; [lia|]. apply elem_of_difference. split; [done|].
    rewrite not_elem_of_singleton. lia.
Qed.

Lemma size_moved (X : gset Z) d : size (set_map (fun x => x - d) X : gset Z) = size X.
Proof.
  induction X as [|x X Hx IH] using set_ind_L; [by rewrite set_map_empty|].
  rewrite set_map_union_L, set_map_singleton_L, !size_union, !size_singleton, IH; [done|set_solver|].
  intros y ->%elem_of_singleton (z & E & Hz)%elem_of_map. assert (x = z) as -> by lia. done.
Qed.

Lemma size_shifted X d : size (shifted X d) = if bool_decide (d ∈ X) then (size X - 1)%nat else size X.
Proof.
  unfold shifted. rewrite size_moved. case_bool_decide as Hd.
  - rewrite size_difference by set_solver. by rewrite size_singleton.
  - f_equal. set_solver.
Qed.

Lemma index_range o x : 0 <= o_start o < o_capacity o -> 1 <= x <= o_capacity o -> 0 <= index_of o x < o_capacity o.
Proof. intros. unfold index_of. zcase; lia. Qed.

Lemma index_inj o x y :
  0 <= o_start o < o_capacity o -> 1 <= x <= o_capacity o -> 1 <= y <= o_capacity o ->
  index_of o x = index_of o y -> x = y.
Proof. intros ???. unfold index_of. repeat zcase; lia. Qed.

Lemma clear_rep o : 0 < o_capacity o -> o_rep (clear o) ∅.
Proof.
  intros Hc. split; cbn; try done; try lia.
  - unfold zlen. rewrite length_replicate. lia.
  - intros x Hx. rewrite bool_decide_eq_false_2 by set_solver. apply zget_Some_lookup.
    pose proof (index_range (clear o) x ltac:(cbn; lia) ltac:(cbn; lia)) as Hi. cbn in Hi. split; [lia|].
    apply lookup_replicate. split; [done|lia].
Qed.

Lemma setMaxLength_rep `{Heap} m :
  m <= INT32_MAX -> (o_rep (setMaxLength no_offsets m) ∅ /\ 16 <= o_capacity (setMaxLength no_offsets m) /\ m <= o_capacity (setMaxLength no_offsets m)) \/ refused.
Proof.
  intros Hm. unfold setMaxLength, sizeof_staticList. destruct (Z.leb_spec m 16).
  - left. split; [|cbn; lia]. exact (clear_rep (Offsets [] 16 0 0) ltac:(cbn; lia)).
  - destruct (uprv_malloc false 1 m) as [l|] eqn:E.
    + left. cbn. split; [|lia]. unfold uprv_malloc in E. destruct (Z.ltb_spec 0 (1 * m)); [|lia].
      destruct (alloc_ok _); [|done]. injection E as <-. exact (clear_rep (Offsets [] m 0 0) ltac:(cbn; lia)).
    + right. eapply malloc_refused; [|exact E]. lia.
Qed.

Lemma isEmpty_rep o X : o_rep o X -> isEmpty o = bool_decide (X = ∅).
Proof.
  intros Hr. unfold isEmpty. rewrite (or_length o X Hr). case_bool_decide as E.
  - subst. by rewrite size_empty.
  - apply Z.eqb_neq. intros E'. apply E. apply leibniz_equiv, size_empty_inv. lia.
Qed.

Lemma containsOffset_rep o X x :
  o_rep o X -> 1 <= x <= o_capacity o -> containsOffset o x = Some (bool_decide (x ∈ X)).
Proof. intros Hr Hx. by apply or_flags. Qed.

Lemma addOffset_rep o X x :
  o_rep o X -> 1 <= x <= o_capacity o -> x ∉ X ->
  exists o', addOffset o x = Some o' /\ o_capacity o' = o_capacity o /\ o_rep o' ({[x]} ∪ X).
Proof.
  intros [Hz Hs Hl Hr Hf] Hx Hn. unfold addOffset. pose proof (index_range o x Hs Hx) as Hi.
  rewrite zset_in by lia. cbn [mbind option_bind]. eexists. split; [done|]. split; [done|]. split; cbn; auto.
  - by rewrite <- Hz; unfold zlen; rewrite length_insert.
  - rewrite Hl, size_union, size_singleton by set_solver. lia.
  - intros y [->%elem_of_singleton|Hy]%elem_of_union; [done|by apply Hr].
  - intros y Hy. change (index_of (Offsets _ (o_capacity o) (o_length o + 1) (o_start o)) y) with (index_of o y).
    destruct (decide (y = x)) as [->|Hne].
    + rewrite zget_insert_eq by lia. rewrite bool_decide_eq_true_2 by set_solver. done.
    + rewrite zget_insert_ne; [|lia|]. 2:{ intros E. apply Hne. by apply (index_inj o). }
      rewrite Hf by done. f_equal. apply bool_decide_ext. set_solver.
Qed.

(** Moving on by [d], which no offset is below. *)
Lemma shift_rep o X d :
  o_rep o X -> 1 <= d <= o_capacity o -> (forall x, x ∈ X -> d <= x) ->
  exists o', shift o d = Some o' /\ o_capacity o' = o_capacity o /\ o_rep o' (shifted X d).
Proof.
  intros [Hz Hs Hl Hr Hf] Hd Hmin. unfold shift. pose proof (index_range o d Hs Hd) as Hi. rewrite Hf by done.
  cbn [mbind option_bind].
  assert (Hidx : forall n y, 1 <= y <= o_capacity o -> forall l,
    index_of (Offsets l (o_capacity o) n (index_of o d)) y = index_of o (if y + d <=? o_capacity o then y + d else y + d - o_capacity o)).
  { intros n y Hy l. unfold index_of. cbn. repeat zcase; lia. }
  assert (Hrange : forall y, y ∈ shifted X d -> 1 <= y <= o_capacity o).
  { intros y [Hy Hne]%elem_shifted. specialize (Hmin _ Hy). specialize (Hr _ Hy). lia. }
  assert (Hval : forall y, 1 <= y <= o_capacity o ->
    let x := (if y + d <=? o_capacity o then y + d else y + d - o_capacity o) in
    1 <= x <= o_capacity o /\ bool_decide (y ∈ shifted X d) = bool_decide (x ∈ X /\ x <> d)).
  { cbv zeta. intros y Hy. set (x := if (y + d <=? o_capacity o) then y + d else y + d - o_capacity o). split; [subst x; zcase; lia|]. apply bool_decide_ext. rewrite elem_shifted. subst x.
    destruct (Z.leb_spec (y + d) (o_capacity o)); [intuition lia|]. split.
    - intros [Hyd _]. apply Hr in Hyd. lia.
    - intros [Hx Hxd]. specialize (Hmin _ Hx). lia. }
  case_bool_decide as Hin.
  - rewrite zset_in by lia. cbn [mbind option_bind]. eexists. split; [done|]. split; [done|]. split; cbn; auto.
    + by rewrite <- Hz; unfold zlen; rewrite length_insert.
    + rewrite size_shifted, bool_decide_eq_true_2 by done. assert (size X <> 0%nat); [|lia].
      intros E. apply size_empty_inv in E. set_solver.
    + intros y Hy. rewrite Hidx by done. destruct (Hval y Hy) as [Hx ->].
      destruct (decide ((if y + d <=? o_capacity o then y + d else y + d - o_capacity o) = d)) as [Exd|Hne].
      * rewrite Exd, zget_insert_eq by lia. by rewrite bool_decide_eq_false_2 by tauto.
      * rewrite zget_insert_ne; [|lia|]. 2:{ intros E. apply Hne. by apply (index_inj o). }
        rewrite Hf by done. f_equal. apply bool_decide_ext. tauto.
  - eexists. split; [done|]. split; [done|]. split; cbn; auto.
    + by rewrite size_shifted, bool_decide_eq_false_2.
    + intros y Hy. rewrite Hidx by done. destruct (Hval y Hy) as [Hx ->]. rewrite Hf by done. f_equal.
      apply bool_decide_ext. split; [|tauto]. intros Hxx. split; [done|]. intros E. by rewrite E in Hxx.
Qed.

Lemma find_above_spec fuel l i capacity :
  zlen l = capacity -> -1 <= i <= capacity -> (Z.to_nat (capacity - i) < fuel)%nat ->
  (exists k, find_above fuel l i capacity = Some (Some k) /\ i < k < capacity /\ zget l k = Some true /\
     forall j, i < j < k -> zget l j = Some false) \/
  (find_above fuel l i capacity = Some None /\ forall j, i < j < capacity -> zget l j = Some false).
Proof.
  intros Hz. revert i. induction fuel as [|fuel IH]; intros i Hi Hf; [lia|]. cbn [find_above].
  destruct (Z.ltb_spec (i + 1) capacity) as [Hlt|Hge]; [|right; split; [done|lia]].
  destruct (zget_is_Some l (i + 1) ltac:(lia)) as (b & Eb). rewrite Eb. cbn [mbind option_bind]. destruct b.
  - left. exists (i + 1). split_and!; auto; lia.
  - destruct (IH (i + 1) ltac:(lia) ltac:(lia)) as [(k & -> & Hk & Hkt & Hj)|[-> Hj]].
    + left. exists k. split_and!; auto; [lia..|]. intros j ?. destruct (decide (j = i + 1)) as [->|]; [done|]. apply Hj. lia.
    + right. split; [done|]. intros j ?. destruct (decide (j = i + 1)) as [->|]; [done|]. apply Hj. lia.
Qed.

Lemma find_wrapped_spec fuel l i k :
  0 <= i <= k -> zget l k = Some true -> (Z.to_nat (k - i) < fuel)%nat ->
  exists m, find_wrapped fuel l i = Some m /\ i <= m <= k /\ zget l m = Some true /\
    forall j, i <= j < m -> zget l j = Some false.
Proof.
  intros Hi Hk. revert i Hi. induction fuel as [|fuel IH]; intros i Hi Hf; [lia|]. cbn [find_wrapped].
  pose proof (zget_Some_range _ _ _ Hk). destruct (zget_is_Some l i ltac:(lia)) as (b & Eb). rewrite Eb.
  cbn [mbind option_bind]. destruct b; [exists i; split_and!; auto; lia|].
  destruct (decide (i = k)) as [->|]; [congruence|]. destruct (IH (i + 1) ltac:(lia) ltac:(lia)) as (m & -> & Hm & Hmt & Hj).
  exists m. split_and!; auto; [lia..|]. intros j ?. destruct (decide (j = i)) as [->|]; [done|]. apply Hj. lia.
Qed.

(** The search of [popMinimum] finds the least offset, and then does what [shift] does. *)
Lemma popMinimum_shift o X :
  o_rep o X -> X <> ∅ ->
  exists m o', popMinimum o = Some (m, o') /\ m ∈ X /\ (forall x, x ∈ X -> m <= x) /\ shift o m = Some o'.
Proof.
  intros [Hz Hs Hl Hr Hf] Hne. destruct (set_choose_L X Hne) as (x0 & Hx0). unfold popMinimum.
  assert (Hcell : forall x b, 1 <= x <= o_capacity o -> zget (o_list o) (index_of o x) = Some b -> (b = true <-> x ∈ X)).
  { intros x b Hx E. rewrite Hf in E by done. injection E as <-. by rewrite bool_decide_eq_true. }
  assert (Hfuel : (length (o_list o) = Z.to_nat (o_capacity o))%nat) by (unfold zlen in Hz; lia).
  assert (Hshift : forall m, m ∈ X -> forall i, index_of o m = i -> zget (o_list o) i = Some true ->
    shift o m = (l ← zset (o_list o) i false; Some (Offsets l (o_capacity o) (o_length o - 1) i))).
  { intros m Hm i Ei Et. unfold shift. by rewrite Ei, Et. }
  destruct (find_above_spec (S (length (o_list o))) (o_list o) (o_start o) (o_capacity o)) as
    [(k & -> & Hk & Hkt & Hj)|[-> Hj]]; try lia; cbn [mbind option_bind].
  - rewrite zset_in by lia. cbn [mbind option_bind].
    assert (Ek : index_of o (k - o_start o) = k) by (unfold index_of; zcase; lia).
    assert (Hin : k - o_start o ∈ X) by (apply (Hcell _ true); [lia|by rewrite Ek|done]).
    eexists _, _. split; [done|]. split; [done|]. split.
    + intros x Hx. specialize (Hr x Hx). destruct (Z.le_gt_cases (k - o_start o) x) as [|Hlt]; [done|exfalso].
      assert (E : index_of o x = o_start o + x) by (unfold index_of; zcase; lia).
      assert (false = true) as [=]. apply (Hcell x false); [lia| |done]. rewrite E. apply Hj. lia.
    + rewrite (Hshift _ Hin k) by done. by rewrite zset_in by lia.
  - assert (Hwrap : forall x, x ∈ X -> o_capacity o <= o_start o + x).
    { intros x Hx. specialize (Hr x Hx). destruct (Z.le_gt_cases (o_capacity o) (o_start o + x)) as [|Hlt]; [done|exfalso].
      assert (E : index_of o x = o_start o + x) by (unfold index_of; zcase; lia).
      assert (false = true) as [=]. apply (Hcell x false); [lia| |done]. rewrite E. apply Hj. lia. }
    pose proof (Hwrap x0 Hx0). pose proof (Hr x0 Hx0).
    assert (E0 : index_of o x0 = o_start o + x0 - o_capacity o) by (unfold index_of; zcase; lia).
    destruct (find_wrapped_spec (S (length (o_list o))) (o_list o) 0 (index_of o x0)) as (m & -> & Hm & Hmt & Hjm).
    { lia. } { rewrite Hf, bool_decide_eq_true_2 by done. done. } { lia. }
    cbn [mbind option_bind]. rewrite zset_in by lia. cbn [mbind option_bind].
    assert (Em : index_of o (o_capacity o - o_start o + m) = m) by (unfold index_of; zcase; lia).
    assert (Hin : o_capacity o - o_start o + m ∈ X) by (apply (Hcell _ true); [lia|by rewrite Em|done]).
    eexists _, _. split; [done|]. split; [done|]. split.
    + intros x Hx. specialize (Hr x Hx). specialize (Hwrap x Hx).
      destruct (Z.le_gt_cases (o_capacity o - o_start o + m) x) as [|Hlt]; [done|exfalso].
      assert (E : index_of o x = o_start o + x - o_capacity o) by (unfold index_of; zcase; lia).
      assert (false = true) as [=]. apply (Hcell x false); [lia| |done]. rewrite E. apply Hjm. lia.
    + rewrite (Hshift _ Hin m) by done. by rewrite zset_in by lia.
Qed.

Lemma popMinimum_rep o X :
  o_rep o X -> X <> ∅ ->
  exists m o', popMinimum o = Some (m, o') /\ m ∈ X /\ (forall x, x ∈ X -> m <= x) /\
    o_capacity o' = o_capacity o /\ o_rep o' (shifted X m).
Proof.
  intros Hr Hne. destruct (popMinimum_shift o X Hr Hne) as (m & o' & E & Hm & Hmin & Hsh).
  destruct (shift_rep o X m Hr (or_range o X Hr m Hm) Hmin) as (o2 & E2 & Hc & Hr2). simplify_eq. eauto 10.
Qed.

(** ** Text, elements and reachable positions *)

Section Text.
Context {A T : Type} (sz : A -> Z) (inset : A -> bool) (cps : T -> list A).
Context (sz_pos : forall a, 1 <= sz a <= 6).
Implicit Types (p q r m cs : list A) (t : T) (ts : list T).

(** The number of units of a text. *)
Definition total cs : Z := foldr (fun a n => sz a + n) 0 cs.

Lemma total_cons a cs : total (a :: cs) = sz a + total cs.
Proof. done. Qed.

Lemma total_app p q : total (p ++ q) = total p + total q.
Proof. induction p as [|a p IH]; cbn; [done|]. fold (total (p ++ q)) (total p). lia. Qed.

Lemma text_total_nonneg p : 0 <= total p.
Proof. induction p as [|a p IH]; cbn; [done|]. fold (total p). pose proof (sz_pos a). lia. Qed.

Lemma total_pos p : p <> [] -> 0 < total p.
Proof. destruct p as [|a p]; [done|]. intros _. rewrite total_cons. pose proof (sz_pos a). pose proof (text_total_nonneg p). lia. Qed.

Lemma total_0 p : total p = 0 -> p = [].
Proof. intros E. destruct p as [|a p]; [done|]. pose proof (total_pos (a :: p) ltac:(done)). lia. Qed.

(** Positions determine splits: of two, the one with fewer units is a prefix of the other. *)
Lemma split_le p1 r1 p2 r2 :
  p1 ++ r1 = p2 ++ r2 -> total p1 <= total p2 -> exists m, p2 = p1 ++ m /\ r1 = m ++ r2.
Proof.
  intros E Hle. destruct (app_eq_inv _ _ _ _ E) as [(k & -> & ->)|(k & -> & ->)]; [|eauto].
  rewrite total_app in Hle. assert (k = []) as -> by (apply total_0; pose proof (text_total_nonneg k); lia).
  exists []. by rewrite !app_nil_r.
Qed.

Lemma split_eq p1 r1 p2 r2 : p1 ++ r1 = p2 ++ r2 -> total p1 = total p2 -> p1 = p2 /\ r1 = r2.
Proof.
  intros E Ht. destruct (split_le p1 r1 p2 r2 E ltac:(lia)) as (m & -> & ->). rewrite total_app in Ht.
  assert (m = []) as -> by (apply total_0; lia). by rewrite app_nil_r.
Qed.

(** The units of the longest prefix in the set. *)
Fixpoint span_of cs : Z :=
  match cs with [] => 0 | a :: cs => if inset a then sz a + span_of cs else 0 end.

Definition stops cs : Prop := match cs with [] => True | a :: _ => inset a = false end.

Lemma span_of_split cs :
  exists m r, cs = m ++ r /\ total m = span_of cs /\ Forall (fun a => inset a = true) m /\ stops r.
Proof.
  induction cs as [|a cs (m & r & -> & Hm & Hf & Hs)]; [by exists [], []|]. cbn [span_of].
  destruct (inset a) eqn:E; [|by exists [], (a :: m ++ r)].
  exists (a :: m), r. split_and!; auto. rewrite total_cons. lia.
Qed.

Lemma span_of_maximal p r :
  Forall (fun a => inset a = true) p -> total p <= span_of (p ++ r).
Proof.
  induction 1 as [|a p Ha Hp IH]; cbn [app span_of].
  - destruct (span_of_split r) as (m & r' & _ & <- & _). apply text_total_nonneg.
  - rewrite Ha, total_cons. lia.
Qed.

Lemma span_of_all cs : span_of cs = total cs <-> Forall (fun a => inset a = true) cs.
Proof.
  destruct (span_of_split cs) as (m & r & -> & <- & Hf & Hs). rewrite total_app, Forall_app. split.
  - intros E. assert (r = []) as -> by (apply total_0; lia). done.
  - intros [_ Hr]. destruct r as [|a r]; [cbn; lia|]. apply Forall_cons in Hr as [Ha _]. cbn in Hs. congruence.
Qed.

Lemma span_of_le cs : 0 <= span_of cs <= total cs.
Proof.
  destruct (span_of_split cs) as (m & r & -> & <- & _). rewrite total_app.
  pose proof (text_total_nonneg m). pose proof (text_total_nonneg r). lia.
Qed.

(** Unless all characters are in the set, the span ends before the last one. *)
Lemma span_of_snoc l a : ~ Forall (fun c => inset c = true) (l ++ [a]) -> span_of (l ++ [a]) <= total l.
Proof.
  intros Hn. destruct (span_of_split (l ++ [a])) as (m & r & E & <- & Hm & _).
  destruct r as [|b r _] using rev_ind.
  - rewrite app_nil_r in E. by rewrite E in Hn.
  - rewrite app_assoc in E. apply app_inj_tail in E as [-> _]. rewrite total_app. pose proof (text_total_nonneg r). lia.
Qed.

(** Concatenations of set elements, with the strings for which [P] holds. *)
Inductive built (P : T -> Prop) : list A -> Prop :=
  | built_nil : built P []
  | built_one p a : built P p -> inset a = true -> built P (p ++ [a])
  | built_string p t : built P p -> P t -> built P (p ++ cps t).

Definition reachable (P : T -> Prop) cs (d : Z) : Prop :=
  exists p r, cs = p ++ r /\ total p = d /\ built P p.

Lemma built_ones P p m : built P p -> Forall (fun a => inset a = true) m -> built P (p ++ m).
Proof.
  intros Hp Hm. revert p Hp. induction Hm as [|a m Ha Hm IH]; intros p Hp; [by rewrite app_nil_r|].
  rewrite snoc_app. apply IH. by apply built_one.
Qed.

Lemma built_mono (P Q : T -> Prop) p : (forall t, P t -> Q t) -> built P p -> built Q p.
Proof. intros Hpq. induction 1; [apply built_nil|by apply built_one|by apply built_string; auto]. Qed.

(** A string whose characters are all in the set adds nothing. *)
Definition relevant t : Prop := ~ Forall (fun a => inset a = true) (cps t).

Lemma built_relevant P p : built P p -> built (fun t => P t /\ relevant t) p.
Proof.
  induction 1 as [|p a _ IH Ha|p t _ IH Ht]; [apply built_nil|by apply built_one|].
  destruct (decide (Forall (fun a => inset a = true) (cps t))) as [Hf|Hf]; [by apply built_ones|].
  by apply built_string.
Qed.

(** ** What the loops are given *)

Context (cs : list A) (es : list (option (Z * T))) (tsize : T -> Z).
Context (entry : Z -> option (option (Z * T))) (long : T -> option Z).
Context (matches : Z -> Z -> Z -> T -> option bool) (run one : Z -> option Z) (stringsLength : Z).

(** The strings that can be matched, and those that matter. *)
Definition listed t : Prop := exists b, Some (b, t) ∈ es.
Definition matters t : Prop := listed t /\ relevant t.

(** [t] lies in the text from unit [d] on. *)
Definition occurs t (d : Z) : Prop := exists p r, cs = p ++ cps t ++ r /\ total p = d.

(** What all loops rely on. *)
Record loop_ok : Prop := {
  lk_count : zlen es = stringsLength;
  lk_entry : forall i e, zget es i = Some e -> entry i = Some e;
  lk_size : forall b t, Some (b, t) ∈ es -> tsize t = total (cps t) /\ cps t <> [];
  lk_byte : forall b t, Some (b, t) ∈ es -> b = ALL_CP_CONTAINED <-> ~ relevant t;
  lk_one : forall p a r, cs = p ++ a :: r -> one (total (a :: r)) = Some (if inset a then sz a else - sz a)
}.

(** What the loops of [span] rely on, beyond that. *)
Record span_ok : Prop := {
  sk_byte : forall b t, Some (b, t) ∈ es -> relevant t -> b = makeSpanLengthByte (span_of (cps t));
  sk_long : forall t, matters t -> exists n, long t = Some n /\ span_of (cps t) <= n < total (cps t);
  sk_matches : forall t rest overlap, listed t ->
    0 <= overlap <= total (cps t) -> total (cps t) - overlap <= rest <= total cs - overlap ->
    exists b, matches rest overlap (total (cps t) - overlap) t = Some b /\
      (b = true <-> occurs t (total cs - rest - overlap));
  sk_run : forall p r, cs = p ++ r -> r <> [] -> run (total r) = Some (span_of r)
}.

Context (ok : loop_ok) (sok : span_ok).

(** [elem_of] and [entry] together, by induction over the strings. *)
Lemma entry_at k i :
  i + Z.of_nat (S k) = stringsLength -> 0 <= i -> exists e, entry i = Some e /\ e ∈ es /\ drop (Z.to_nat i) es = e :: drop (Z.to_nat (i + 1)) es.
Proof.
  intros Hi H0. pose proof (lk_count ok) as Hz. destruct (zget_is_Some es i ltac:(lia)) as (e & E).
  pose proof E as [_ El]%zget_Some_lookup. exists e. split_and!.
  - by apply (lk_entry ok).
  - by eapply list_elem_of_lookup_2.
  - rewrite (drop_S _ _ _ El). do 2 f_equal. lia.
Qed.

Notation len t := (total (cps t)).

Lemma occurs_range t d : occurs t d -> 0 <= d /\ d + len t <= total cs.
Proof.
  intros (p & r & -> & <-). rewrite !total_app. pose proof (text_total_nonneg p). pose proof (text_total_nonneg r). lia.
Qed.

(** ** While contained: all strings at a position *)

(** A match of [t] over the last [ov] units before the position and on to [x] units after it. *)
Definition crosses t (rest ov x : Z) : Prop := x = len t - ov /\ occurs t (total cs - rest - ov).

(** What trying strings over at most [overlap] units does to the offsets: it only adds ends of
    matches [C ov x] before the end of the text, and unless one reaches the end it has all
    those that [D] asks for. *)
Definition tries (C D : Z -> Z -> Prop) (rest : Z) o (X : gset Z) (res : option (bool * OffsetList)) : Prop :=
  exists reached o' X', res = Some (reached, o') /\
    o_rep o' X' /\ o_capacity o' = o_capacity o /\ X ⊆ X' /\
    (forall x, x ∈ X' -> x ∈ X \/ x < rest /\ exists ov, C ov x) /\
    if reached : bool then exists ov, C ov rest else forall ov x, D ov x -> x ∈ X'.

(** Continuing from a list that has more. *)
Lemma tries_then (C C2 D D2 : Z -> Z -> Prop) rest o X o2 X2 res :
  o_capacity o2 = o_capacity o -> X ⊆ X2 ->
  (forall x, x ∈ X2 -> x ∈ X \/ x < rest /\ exists ov, C ov x) ->
  (forall ov x, C2 ov x -> C ov x) -> (forall ov x, D ov x -> D2 ov x \/ x ∈ X2) ->
  tries C2 D2 rest o2 X2 res -> tries C D rest o X res.
Proof.
  intros Hc2 Hs2 Hx2 HC HD (reached & o' & X' & -> & Hr' & Hc' & Hs' & Hx' & Hre).
  exists reached, o', X'. split_and!; auto; [lia|set_solver|..].
  - intros x [Hx|(Hlt & ov & Hov)]%Hx'; [auto|]. right. eauto.
  - destruct reached; [destruct Hre; eauto|]. intros ov x [?|?]%HD; [eauto|auto].
Qed.

Lemma try_overlaps_spec t fuel rest overlap o X :
  listed t -> 0 <= overlap < len t -> overlap <= total cs - rest -> (Z.to_nat overlap < fuel)%nat ->
  o_rep o X -> len t <= o_capacity o ->
  let C ov x := 0 <= ov <= overlap /\ crosses t rest ov x in
  tries C C rest o X (try_overlaps matches fuel t rest overlap (len t - overlap) o).
Proof.
  intros Hl Ho Hp Hf Hr Hc. revert overlap o X Ho Hp Hf Hr Hc. induction fuel as [|fuel IH]; intros; [lia|]. cbn [try_overlaps].
  destruct (Z.ltb_spec rest (len t - overlap)) as [Hgt|Hle].
  { eexists _, _, X. split_and!; eauto. intros ov x [Hov [-> [_ Hend]%occurs_range]]. lia. }
  rewrite (containsOffset_rep o X) by (auto; lia). cbn [mbind option_bind].
  destruct (sk_matches sok t rest overlap Hl) as (b & Hb & Hbt); [lia..|].
  (** the rest of the overlaps, from any list that has this one *)
  assert (Hrest : forall o2 X2, o_rep o2 X2 -> o_capacity o2 = o_capacity o -> X ⊆ X2 ->
    (forall x, x ∈ X2 -> x ∈ X \/ x < rest /\ exists ov, C ov x) ->
    (crosses t rest overlap (len t - overlap) -> len t - overlap ∈ X2) ->
    tries C C rest o X
      (if overlap =? 0 then Some (false, o2) else try_overlaps matches fuel t rest (overlap - 1) (len t - overlap + 1) o2)).
  { intros o2 X2 Hr2 Hc2 Hs2 Hx2 Hthis.
    assert (Hlast : forall x, crosses t rest overlap x -> x ∈ X2) by (intros x Hcr; pose proof Hcr as [-> _]; auto).
    destruct (Z.eqb_spec overlap 0) as [->|Hne].
    - eexists _, _, X2. split_and!; eauto. intros ov x [Hov Hcr]. assert (ov = 0) as -> by lia. auto.
    - replace (len t - overlap + 1) with (len t - (overlap - 1)) by lia.
      eapply tries_then; [exact Hc2|exact Hs2|exact Hx2| | |apply IH; auto; lia].
      + intros ov x [? ?]. split; [lia|done].
      + intros ov x [? ?]. destruct (decide (ov = overlap)) as [->|]; [auto|]. left. split; [lia|done]. }
  case_bool_decide as Hin; cbn [mbind option_bind andb]; [by apply (Hrest o X); auto|].
  rewrite Hb. cbn [mbind option_bind]. destruct b; cbn [andb].
  2:{ cbn [mbind option_bind]. apply (Hrest o X); auto. intros [_ Hoc%Hbt]. done. }
  assert (Hcr : crosses t rest overlap (len t - overlap)) by (split; [done|by apply Hbt]).
  destruct (Z.eqb_spec (len t - overlap) rest) as [Eend|Hne].
  { eexists _, _, X. split_and!; eauto. exists overlap. split; [lia|]. by rewrite Eend in Hcr. }
  destruct (addOffset_rep o X (len t - overlap) Hr ltac:(lia) Hin) as (o2 & -> & Hc2 & Hr2). cbn [mbind option_bind].
  apply (Hrest o2 ({[len t - overlap]} ∪ X)); auto; [set_solver| |set_solver].
  intros x [->%elem_of_singleton|Hx]%elem_of_union; [right|by left]. split; [lia|]. exists overlap. split; [lia|done].
Qed.

(** The overlap to start from. *)
Lemma first_overlap b t :
  Some (b, t) ∈ es -> relevant t -> b <> ALL_CP_CONTAINED /\
  exists n, (if LONG_SPAN <=? b then long t else Some b) = Some n /\ span_of (cps t) <= n < len t.
Proof.
  intros Hin Hrel. pose proof Hin as Hin'. rewrite (sk_byte sok b t Hin Hrel) in Hin' |- *.
  destruct (sk_long sok t) as (n & Hn & Hrange); [split; [by exists (makeSpanLengthByte (span_of (cps t)))|done]|].
  pose proof (span_of_le (cps t)). unfold makeSpanLengthByte, LONG_SPAN, ALL_CP_CONTAINED.
  destruct (Z.ltb_spec (span_of (cps t)) 0xfe).
  - split; [lia|]. destruct (Z.leb_spec 0xfe (span_of (cps t))); [lia|]. exists (span_of (cps t)). split; [done|]. lia.
  - split; [lia|]. rewrite Z.leb_refl. eauto.
Qed.

(** Matches of the strings that matter over at most [spanLength] units. *)
Definition can_cross (rest spanLength ov x : Z) : Prop :=
  0 <= ov <= spanLength /\ exists t, matters t /\ ov < len t /\ crosses t rest ov x.

(** Those whose overlap is in the set, of the strings [todo]. *)
Definition must_cross (todo : list (option (Z * T))) (rest spanLength ov x : Z) : Prop :=
  0 <= ov <= spanLength /\
  exists b t, Some (b, t) ∈ todo /\ relevant t /\ ov <= span_of (cps t) /\ crosses t rest ov x.

Lemma contained_strings_spec k i rest spanLength o X :
  i + Z.of_nat k = stringsLength -> 0 <= i -> 0 <= spanLength <= total cs - rest ->
  o_rep o X -> (forall t, listed t -> len t <= o_capacity o) ->
  tries (can_cross rest spanLength) (must_cross (drop (Z.to_nat i) es) rest spanLength) rest o X
    (contained_strings tsize entry long matches k i rest spanLength o).
Proof.
  revert i o X. induction k as [|k IH]; intros i o X Hi H0 Hs Hr Hc; cbn [contained_strings].
  { eexists _, _, X. split_and!; eauto. intros ov x (_ & b & t & Hin & _).
    rewrite drop_ge in Hin; [by apply not_elem_of_nil in Hin|]. pose proof (lk_count ok). unfold zlen in *. lia. }
  destruct (entry_at k i Hi H0) as (e & -> & He & Hd). cbn [mbind option_bind]. rewrite Hd.
  (** the strings after this one, from any list that has all its matches *)
  assert (Hrest : forall o2 X2, o_rep o2 X2 -> o_capacity o2 = o_capacity o -> X ⊆ X2 ->
    (forall x, x ∈ X2 -> x ∈ X \/ x < rest /\ exists ov, can_cross rest spanLength ov x) ->
    (forall ov x, must_cross [e] rest spanLength ov x -> x ∈ X2) ->
    tries (can_cross rest spanLength) (must_cross (e :: drop (Z.to_nat (i + 1)) es) rest spanLength) rest o X
      (contained_strings tsize entry long matches k (i + 1) rest spanLength o2)).
  { intros o2 X2 Hr2 Hc2 Hs2 Hx2 Hthis.
    eapply tries_then; [exact Hc2|exact Hs2|exact Hx2|done| |apply IH; auto; [lia..|by rewrite Hc2]].
    intros ov x (Hov & b & t & [E|Hin]%elem_of_cons & Ht); [right|left; split; eauto].
    apply (Hthis ov). split; [done|]. exists b, t. rewrite E. split; [by apply list_elem_of_singleton|done]. }
  destruct e as [[b t]|].
  2:{ apply (Hrest o X); auto. by intros ov x (_ & b & t & [=]%list_elem_of_singleton & _). }
  destruct (Z.eqb_spec b ALL_CP_CONTAINED) as [->|Hb].
  { apply (Hrest o X); auto. intros ov x (_ & b & t' & [= -> ->]%list_elem_of_singleton & Hrel & _).
    by destruct (first_overlap _ t He Hrel). }
  assert (Hrel : relevant t) by (apply dec_stable; by rewrite <- (lk_byte ok b t He)).
  destruct (lk_size ok b t He) as [-> _].
  assert (Hli : listed t) by (by exists b).
  destruct (first_overlap b t He Hrel) as (_ & n & -> & Hn). cbn [mbind option_bind].
  pose proof (span_of_le (cps t)). set (ov0 := if spanLength <? n then spanLength else n).
  assert (Hov0 : 0 <= ov0 <= spanLength /\ ov0 < len t /\ Z.min spanLength (span_of (cps t)) <= ov0)
    by (unfold ov0; zcase; lia).
  destruct (try_overlaps_spec t (S (Z.to_nat ov0)) rest ov0 o X) as (reached & o2 & X2 & -> & Hr2 & Hc2 & Hs2 & Hx2 & Hre);
    auto; try lia.
  cbn [mbind option_bind].
  assert (Hnew : forall ov x, 0 <= ov <= ov0 /\ crosses t rest ov x -> can_cross rest spanLength ov x).
  { intros ov x [? ?]. split; [lia|]. exists t. split_and!; auto; [done|lia]. }
  assert (Hx2' : forall x, x ∈ X2 -> x ∈ X \/ x < rest /\ exists ov, can_cross rest spanLength ov x).
  { intros x [?|(? & ov & ?)]%Hx2; [by left|right]. eauto. }
  destruct reached.
  - exists true, o2, X2. split_and!; auto. destruct Hre as (ov & ?). eauto.
  - apply (Hrest o2 X2); auto. intros ov x (? & b' & t' & [= -> ->]%list_elem_of_singleton & _ & ? & ?).
    apply (Hre ov). split; [lia|done].
Qed.

(** ** The position of the loop *)

(** [p] has been passed, its last [spanLength] units by a code point span that could not go on,
    and [r] is left. *)
Record position (P : T -> Prop) (rest spanLength : Z) p r : Prop := {
  at_text : cs = p ++ r;
  at_rest : total r = rest;
  at_more : r <> [];
  at_span : exists q m, p = q ++ m /\ built P q /\ Forall (fun a => inset a = true) m /\ total m = spanLength /\
    (stops r \/ m = [] /\ p <> [])
}.

Lemma position_built P rest spanLength p r : position P rest spanLength p r -> built P p.
Proof. intros [_ _ _ (q & m & -> & Hq & Hm & _)]. by apply built_ones. Qed.

Lemma position_total P rest spanLength p r :
  position P rest spanLength p r -> total p = total cs - rest /\ 0 < rest /\ 0 <= spanLength <= total p.
Proof.
  intros [-> <- Hr (q & m & -> & _ & _ & <- & _)]. rewrite !total_app. pose proof (total_pos r Hr).
  pose proof (text_total_nonneg q). pose proof (text_total_nonneg m). lia.
Qed.

(** Any position inside the span is reachable. *)
Lemma position_inside P rest spanLength p r q r' :
  position P rest spanLength p r -> cs = q ++ r' -> total p - spanLength <= total q <= total p ->
  built P q /\ exists k, p = q ++ k /\ r' = k ++ r /\ Forall (fun a => inset a = true) k.
Proof.
  intros [-> _ _ (q0 & m & -> & Hq0 & Hm & <- & _)] E Hle. rewrite total_app in Hle.
  destruct (split_le q0 (m ++ r) q r') as (z & -> & Ez); [by rewrite app_assoc|lia|]. rewrite total_app in Hle.
  symmetry in Ez. destruct (split_le z r' m r Ez ltac:(lia)) as (k & -> & ->). apply Forall_app in Hm as [Hz Hk]. split.
  - by apply built_ones.
  - exists k. by rewrite app_assoc.
Qed.

(** A new position after [m]. *)
Lemma position_move P p m r :
  cs = p ++ m ++ r -> r <> [] -> built P (p ++ m) -> m <> [] -> position P (total r) 0 (p ++ m) r.
Proof.
  intros E Hr Hb Hm. split; [by rewrite <- app_assoc|done|done|]. exists (p ++ m), []. rewrite app_nil_r.
  split_and!; auto. right. split; [done|]. by intros [_ ?]%app_nil.
Qed.

(** ** USET_SPAN_CONTAINED *)

(** The ends beyond [d] of all matches that start at reachable positions below [lim]. *)
Definition pending (d lim : Z) (X : gset Z) : Prop :=
  forall q t r', built matters q -> matters t -> cs = q ++ cps t ++ r' ->
    total q < lim -> d < total q + len t -> total q + len t - d ∈ X.

Definition sound (d : Z) (X : gset Z) : Prop :=
  forall x, x ∈ X -> d + x < total cs /\ reachable matters cs (d + x).

(** The strings at a position complete what is pending from before its span. *)
Lemma strings_complete rest spanLength p r X X' :
  position matters rest spanLength p r -> pending (total p) (total p - spanLength) X -> X ⊆ X' ->
  (forall ov x, must_cross es rest spanLength ov x -> x ∈ X') -> pending (total p) (total p + 1) X'.
Proof.
  intros Hpos Hpend Hs Hall q t r' Hq Ht E Hle Hcr.
  destruct (position_total _ _ _ _ _ Hpos) as (Hd & _ & Hsl).
  destruct (Z.lt_ge_cases (total q) (total p - spanLength)) as [Hlt|Hge]; [by apply Hs, (Hpend q t r')|].
  destruct (position_inside matters rest spanLength p r q (cps t ++ r') Hpos E ltac:(lia)) as (_ & k & -> & Ek & Hk).
  rewrite total_app in *. apply (Hall (total k)). split; [pose proof (text_total_nonneg k); lia|].
  destruct Ht as [[b Hb] Hrel]. exists b, t. split_and!; auto.
  - symmetry in Ek. destruct (split_le k r (cps t) r' Ek ltac:(lia)) as (k' & -> & _). by apply span_of_maximal.
  - split; [lia|]. exists q, r'. split; [done|lia].
Qed.

(** What the strings add is sound. *)
Lemma crosses_reachable rest spanLength p r ov x :
  position matters rest spanLength p r -> can_cross rest spanLength ov x ->
  1 <= x /\ total p + x <= total cs /\ reachable matters cs (total p + x).
Proof.
  intros Hpos (Hov & t & Ht & Hlt & -> & q & r' & E & Hq).
  destruct (position_total _ _ _ _ _ Hpos) as (Hd & _ & Hsl).
  destruct (position_inside matters rest spanLength p r q (cps t ++ r') Hpos E ltac:(lia)) as (Hb & _).
  split_and!; [lia| |].
  - pose proof (f_equal total E) as Et. rewrite !total_app in Et. pose proof (text_total_nonneg r'). lia.
  - exists (q ++ cps t), r'. rewrite <- app_assoc, total_app. split_and!; [done|lia|by apply built_string].
Qed.

(** Where no code point follows, nothing is reachable before the next listed offset. *)
Lemma reachable_gap p r X q r' :
  cs = p ++ r -> stops r -> pending (total p) (total p + 1) X ->
  built matters q -> cs = q ++ r' -> total q <= total p \/ exists x, x ∈ X /\ total p + x <= total q.
Proof.
  intros E Hst Hpend Hq. revert r'. induction Hq as [|q a Hq IH Ha|q t Hq IH Ht]; intros r' Eq.
  - left. apply text_total_nonneg.
  - rewrite <- app_assoc in Eq. rewrite total_app. destruct (IH _ Eq) as [Hle|(x & Hx & Hle)].
    2:{ right. exists x. split; [done|]. pose proof (text_total_nonneg [a]). lia. }
    left. rewrite E in Eq. symmetry in Eq. destruct (split_le q ([a] ++ r') p r Eq Hle) as (m & -> & Em).
    destruct m as [|a' m]; cbn in Em; [subst r; cbn in Hst; congruence|]. injection Em as <- _.
    rewrite total_app, !total_cons. change (total []) with 0. pose proof (text_total_nonneg m). lia.
  - rewrite <- app_assoc in Eq. rewrite total_app. destruct (IH _ Eq) as [Hle|(x & Hx & Hle)].
    2:{ right. exists x. split; [done|]. pose proof (text_total_nonneg (cps t)). lia. }
    destruct (Z.le_gt_cases (total q + len t) (total p)) as [|Hgt]; [by left|right].
    exists (total q + len t - total p). split; [|lia]. apply (Hpend q t r'); auto; lia.
Qed.

(** [rest] units are left after the furthest reachable position. *)
Definition furthest (P : T -> Prop) (rest : Z) : Prop :=
  reachable P cs (total cs - rest) /\ forall d, reachable P cs d -> d <= total cs - rest.

Lemma furthest_here p r :
  cs = p ++ r -> built matters p -> stops r -> pending (total p) (total p + 1) ∅ -> furthest matters (total r).
Proof.
  intros E Hb Hst Hpend. unfold furthest. assert (total cs - total r = total p) as -> by (rewrite E, total_app; lia). split.
  - exists p, r. eauto.
  - intros d (q & r' & Eq & <- & Hq). destruct (reachable_gap p r ∅ q r' E Hst Hpend Hq Eq) as [|(x & Hx & _)]; [done|].
    set_solver.
Qed.

Lemma furthest_end (P : T -> Prop) : reachable P cs (total cs) -> furthest P 0.
Proof.
  intros Hr. unfold furthest. rewrite Z.sub_0_r. split; [done|]. intros d (q & r & -> & <- & _). rewrite total_app.
  pose proof (text_total_nonneg r). lia.
Qed.

(** The offsets after moving on by [m]. *)
Lemma sound_shifted d x X : sound d X -> sound (d + x) (shifted X x).
Proof. intros Hs y [Hy _]%elem_shifted. destruct (Hs _ Hy). replace (d + x + y) with (d + (y + x)) by lia. done. Qed.

Lemma pending_shifted d x lim X : pending d lim X -> 0 <= x -> pending (d + x) lim (shifted X x).
Proof.
  intros Hp Hx q t r' Hq Ht E Hlim Hcr. apply elem_shifted. split; [|lia].
  replace (total q + len t - (d + x) + x) with (total q + len t - d) by lia. apply (Hp q t r'); auto. lia.
Qed.

(** The invariant of the loop while contained. *)
Record contained_inv (rest spanLength : Z) (o : OffsetList) p r X : Prop := {
  ci_pos : position matters rest spanLength p r;
  ci_rep : o_rep o X;
  ci_cap : 6 <= o_capacity o;
  ci_fit : forall t, listed t -> len t <= o_capacity o;
  ci_sound : sound (total p) X;
  ci_pending : pending (total p) (total p - spanLength) X
}.

(** [popMinimum] moves to the next reachable position. *)
Lemma contained_pop rest spanLength o p r X X' o' :
  contained_inv rest spanLength o p r X -> o_rep o' X' -> o_capacity o' = o_capacity o -> sound (total p) X' ->
  pending (total p) (total p + 1) X' -> stops r -> X' <> ∅ ->
  exists (m : Z) o2 p2 r2 X2, popMinimum o' = Some (m, o2) /\ 1 <= m < rest /\ contained_inv (rest - m) 0 o2 p2 r2 X2.
Proof.
  intros Hinv Hr' Hc' Hsd Hpend Hst Hne. pose proof (ci_pos _ _ _ _ _ _ Hinv) as Hpos.
  destruct (position_total _ _ _ _ _ Hpos) as (Hd & _ & _).
  destruct (popMinimum_rep o' X' Hr' Hne) as (m & o2 & -> & Hm & Hmin & Hc2 & Hr2).
  pose proof (or_range o' X' Hr' m Hm) as Hrange. destruct (Hsd m Hm) as (Hlt & p2 & r2 & E2 & Hp2 & Hb2).
  exists m, o2, p2, r2, (shifted X' m). split; [done|]. split; [lia|]. pose proof (at_text _ _ _ _ _ Hpos) as E.
  pose proof (f_equal total E2) as Et. rewrite total_app in Et. split; auto.
  - assert (total r2 = rest - m) as <- by lia.
    destruct (split_le p r p2 r2) as (z & -> & _); [congruence|lia|]. rewrite total_app in *. rewrite <- app_assoc in E2.
    apply position_move; auto.
    + intros ->. rewrite app_nil_r in *. change (total []) with 0 in *. lia.
    + intros ->. change (total []) with 0 in *. lia.
  - rewrite Hc2, Hc'. exact (ci_cap _ _ _ _ _ _ Hinv).
  - rewrite Hc2, Hc'. exact (ci_fit _ _ _ _ _ _ Hinv).
  - rewrite Hp2. by apply sound_shifted.
  - rewrite Hp2, Z.sub_0_r. intros q t r' Hq Ht Eq Hlim Hcr.
    assert (total q < total p + 1).
    { destruct (reachable_gap p r X' q (cps t ++ r') E Hst Hpend Hq Eq) as [|(x & Hx & Hle)]; [lia|].
      specialize (Hmin x Hx). lia. }
    apply (pending_shifted (total p) m (total p + 1) X' Hpend ltac:(lia) q t r'); auto.
Qed.

(** One code point is passed while offsets are pending. *)
Lemma contained_one rest o p a r X X' o' :
  contained_inv rest 0 o p (a :: r) X -> o_rep o' X' -> o_capacity o' = o_capacity o -> sound (total p) X' ->
  pending (total p) (total p + 1) X' -> inset a = true -> r <> [] ->
  exists o2 X2, shift o' (sz a) = Some o2 /\ contained_inv (rest - sz a) 0 o2 (p ++ [a]) r X2.
Proof.
  intros Hinv Hr' Hc' Hsd Hpend Ha Hr. pose proof (ci_pos _ _ _ _ _ _ Hinv) as Hpos.
  pose proof (at_text _ _ _ _ _ Hpos) as E. pose proof (at_rest _ _ _ _ _ Hpos) as Erest. rewrite total_cons in Erest.
  pose proof (sz_pos a). pose proof (ci_cap _ _ _ _ _ _ Hinv).
  destruct (shift_rep o' X' (sz a) Hr' ltac:(lia)) as (o2 & -> & Hc2 & Hr2).
  { intros x Hx. destruct (Hsd x Hx) as (_ & p2 & r2 & E2 & Hp2 & _). pose proof (or_range o' X' Hr' x Hx).
    destruct (split_le p (a :: r) p2 r2) as (z & -> & Ez); [congruence|lia|]. rewrite total_app in Hp2.
    destruct z as [|a' z]; [change (total []) with 0 in Hp2; lia|]. injection Ez as <- _. rewrite total_cons in Hp2.
    pose proof (text_total_nonneg z). lia. }
  assert (Ht : total (p ++ [a]) = total p + sz a) by (rewrite total_app, total_cons; change (total []) with 0; lia).
  exists o2, (shifted X' (sz a)). split; [done|]. split; auto.
  - assert (rest - sz a = total r) as -> by lia. apply position_move; auto. apply built_one; [|done].
    by eapply position_built.
  - by rewrite Hc2, Hc'.
  - rewrite Hc2, Hc'. exact (ci_fit _ _ _ _ _ _ Hinv).
  - rewrite Ht. by apply sound_shifted.
  - rewrite Ht, Z.sub_0_r. intros q t r' Hq Htm Eq Hlim Hcr.
    apply (pending_shifted (total p) (sz a) (total p + 1) X' Hpend ltac:(lia) q t r'); auto.
    destruct (Z.le_gt_cases (total q) (total p)) as [|Hgt]; [lia|exfalso].
    destruct (split_le p (a :: r) q (cps t ++ r')) as (z & -> & Ez); [congruence|lia|].
    rewrite total_app in *. destruct z as [|a' z]; [change (total []) with 0 in *; lia|]. injection Ez as <- _.
    rewrite total_cons in *. pose proof (text_total_nonneg z). lia.
Qed.

(** A code point span when no offset is pending. *)
Lemma contained_run rest o p r X o' :
  contained_inv rest 0 o p r X -> o_rep o' ∅ -> o_capacity o' = o_capacity o ->
  pending (total p) (total p + 1) ∅ -> 0 < span_of r < rest ->
  exists p2 r2, contained_inv (rest - span_of r) (span_of r) o' p2 r2 ∅.
Proof.
  intros Hinv Hr' Hc' Hpend Hlt. pose proof (ci_pos _ _ _ _ _ _ Hinv) as Hpos.
  pose proof (at_text _ _ _ _ _ Hpos) as E. pose proof (at_rest _ _ _ _ _ Hpos) as Erest.
  pose proof (position_built _ _ _ _ _ Hpos) as Hb.
  destruct (span_of_split r) as (m & r2 & -> & Em & Hm & Hst). rewrite total_app in Erest. rewrite <- Em in *.
  exists (p ++ m), r2. split; auto.
  - split; [by rewrite <- app_assoc|lia| |].
    + intros ->. change (total []) with 0 in *. lia.
    + exists p, m. split_and!; auto.
  - rewrite Hc'. exact (ci_cap _ _ _ _ _ _ Hinv).
  - rewrite Hc'. exact (ci_fit _ _ _ _ _ _ Hinv).
  - intros x Hx. set_solver.
  - rewrite total_app. intros q t r' Hq Ht Eq Hlim Hcr. exfalso.
    assert (total q + len t - total p ∈ (∅ : gset Z)); [|set_solver]. apply (Hpend q t r'); auto; lia.
Qed.

Lemma span_loop_contained fuel rest spanLength o p r X :
  contained_inv rest spanLength o p r X -> rest < Z.of_nat fuel ->
  exists rest', span_loop tsize entry long matches run one stringsLength (total cs) fuel true rest spanLength o = Some rest' /\
    furthest matters rest'.
Proof.
  revert rest spanLength o p r X. induction fuel as [|fuel IH]; intros rest spanLength o p r X Hinv Hf.
  { pose proof (position_total _ _ _ _ _ (ci_pos _ _ _ _ _ _ Hinv)). lia. }
  pose proof (ci_pos _ _ _ _ _ _ Hinv) as Hpos. destruct (position_total _ _ _ _ _ Hpos) as (Hd & Hrest & Hsl).
  pose proof (at_text _ _ _ _ _ Hpos) as E. pose proof (at_rest _ _ _ _ _ Hpos) as Erest.
  pose proof (position_built _ _ _ _ _ Hpos) as Hb.
  cbn [span_loop]. pose proof (lk_count ok) as Hcount. pose proof (zlen_nonneg es).
  destruct (contained_strings_spec (Z.to_nat stringsLength) 0 rest spanLength o X) as
    (reached & o' & X' & -> & Hr' & Hc' & Hs' & Hx' & Hre); try lia; [apply Hinv..|]. cbn [mbind option_bind].
  destruct reached.
  { exists 0. split; [done|]. apply furthest_end. destruct Hre as (ov & Hcr).
    destruct (crosses_reachable _ _ _ _ _ _ Hpos Hcr) as (_ & _ & Hreach). by replace (total cs) with (total p + rest) by lia. }
  assert (Hsd : sound (total p) X').
  { intros x [Hx|(Hlt & ov & Hcr)]%Hx'; [by apply Hinv|]. destruct (crosses_reachable _ _ _ _ _ _ Hpos Hcr) as (? & ? & ?).
    split; [lia|done]. }
  assert (Hpend : pending (total p) (total p + 1) X')
    by (eapply strings_complete; [exact Hpos|apply Hinv|done|by rewrite drop_0 in Hre]).
  assert (Hpop : stops r -> X' <> ∅ -> exists rest', ('(minOffset, offsets) ← popMinimum o';
    span_loop tsize entry long matches run one stringsLength (total cs) fuel true (rest - minOffset) 0 offsets) = Some rest' /\ furthest matters rest').
  { intros Hst Hne. destruct (contained_pop _ _ _ _ _ _ X' o' Hinv) as (m & o2 & p2 & r2 & X2 & -> & Hm & Hinv2); auto.
    cbn [mbind option_bind]. apply (IH _ _ _ p2 r2 X2 Hinv2). lia. }
  rewrite (isEmpty_rep o' X' Hr'). destruct (negb (spanLength =? 0) || (rest =? total cs)) eqn:Eafter.
  - assert (Hst : stops r).
    { destruct (at_span _ _ _ _ _ Hpos) as (q & m & Ep & _ & _ & Em & [|[-> Hne]]); [done|exfalso].
      change (total []) with 0 in Em. pose proof (total_pos p Hne). lia. }
    case_bool_decide as Hem; [|by apply Hpop]. exists rest. split; [done|]. subst X' rest. by apply (furthest_here p).
  - assert (spanLength = 0) as -> by lia. case_bool_decide as Hem.
    + subst X'. rewrite <- Erest, (sk_run sok p r E (at_more _ _ _ _ _ Hpos)). cbn [mbind option_bind]. rewrite Erest.
      pose proof (span_of_le r). destruct (Z.eqb_spec (span_of r) rest) as [Eall|Hnall]; cbn [orb].
      { exists (rest - span_of r). split; [done|]. replace (rest - span_of r) with 0 by lia. apply furthest_end.
        exists cs, []. rewrite app_nil_r. split_and!; auto. rewrite E. apply built_ones; [done|]. apply span_of_all. lia. }
      destruct (Z.eqb_spec (span_of r) 0) as [Ez|Hnz].
      { exists (rest - span_of r). split; [done|]. rewrite Ez, Z.sub_0_r, <- Erest. apply (furthest_here p); auto.
        destruct r as [|a r]; [done|]. cbn in Ez |- *. destruct (inset a); [|done]. pose proof (sz_pos a).
        pose proof (span_of_le r). lia. }
      destruct (contained_run _ _ _ _ _ o' Hinv) as (p2 & r2 & Hinv2); auto; [lia|]. apply (IH _ _ _ p2 r2 ∅ Hinv2). lia.
    + destruct r as [|a r]; [by destruct (at_more _ _ _ _ _ Hpos)|]. rewrite <- Erest, (lk_one ok p a r E). cbn [mbind option_bind].
      rewrite Erest. pose proof (sz_pos a). destruct (inset a) eqn:Ha.
      * destruct (Z.ltb_spec 0 (sz a)); [|lia]. rewrite total_cons in Erest. destruct (Z.eqb_spec (sz a) rest) as [Eend|Hnend].
        { exists 0. split; [done|]. apply furthest_end. exists cs, []. rewrite app_nil_r. split_and!; auto. rewrite E.
          assert (r = []) as -> by (apply total_0; lia). by apply built_one. }
        destruct (contained_one rest o p a r X X' o' Hinv) as (o2 & X2 & -> & Hinv2); auto.
        { intros ->. change (total []) with 0 in *. lia. }
        cbn [mbind option_bind]. apply (IH _ _ _ (p ++ [a]) r X2 Hinv2). lia.
      * destruct (Z.ltb_spec 0 (- sz a)); [lia|]. by apply Hpop.
Qed.

(** ** USET_SPAN_SIMPLE *)

(** A string found [mo] units back and reaching [mi] units ahead. *)
Definition found (rest spanLength mi mo : Z) : Prop :=
  0 <= mo <= spanLength /\ 0 <= mi <= rest /\ 0 < mi + mo /\ exists t, listed t /\ crosses t rest mo mi.

Lemma simple_overlaps_spec t fuel rest overlap mi mo :
  listed t -> 0 < len t -> -1 <= overlap <= len t -> overlap <= total cs - rest -> (Z.to_nat (overlap + 1) < fuel)%nat ->
  0 <= mi -> 0 <= mo ->
  exists mi' mo', simple_overlaps matches fuel t rest overlap (len t - overlap) mi mo = Some (mi', mo') /\
    (mi' = mi /\ mo' = mo /\ (mi = 0 -> mo = 0 -> 0 <= overlap -> ~ occurs t (total cs - rest)) \/
     mo' <= overlap /\ found rest overlap mi' mo').
Proof.
  intros Hl Hlen Ho Hp Hf Hmi Hmo. revert overlap Ho Hp Hf. induction fuel as [|fuel IH]; intros; [lia|]. cbn [simple_overlaps].
  destruct (Z.ltb_spec rest (len t - overlap)) as [Hgt|Hle]; cbn [orb].
  { eexists _, _. split; [done|]. left. split_and!; auto. intros _ _ H0 Hoc. apply occurs_range in Hoc. lia. }
  destruct (Z.ltb_spec overlap mo) as [Hlt|Hge]; [eexists _, _; split; [done|]; left; split_and!; auto; lia|].
  destruct (sk_matches sok t rest overlap Hl) as (b & Hb & Hbt); [lia..|].
  assert (Hnext : (mi = 0 -> mo = 0 -> overlap = 0 -> ~ occurs t (total cs - rest)) ->
    exists mi' mo', simple_overlaps matches fuel t rest (overlap - 1) (len t - overlap + 1) mi mo = Some (mi', mo') /\
      (mi' = mi /\ mo' = mo /\ (mi = 0 -> mo = 0 -> 0 <= overlap -> ~ occurs t (total cs - rest)) \/
       mo' <= overlap /\ found rest overlap mi' mo')).
  { intros Hthis. replace (len t - overlap + 1) with (len t - (overlap - 1)) by lia.
    destruct (IH (overlap - 1)) as (mi' & mo' & -> & Hpost); [lia..|]. eexists _, _. split; [done|].
    destruct Hpost as [(-> & -> & Hno)|(Hle' & Hov & Hfound)]; [left|right].
    - split_and!; auto. intros E1 E2 H0. destruct (decide (overlap = 0)); [auto|]. apply Hno; auto. lia.
    - split; [lia|]. split; [lia|done]. }
  destruct ((mo <? overlap) || (mi <? len t - overlap)) eqn:Etry; cbn [mbind option_bind].
  2:{ apply Hnext. lia. }
  rewrite Hb. cbn [mbind option_bind]. destruct b.
  - eexists _, _. split; [done|]. right. split; [lia|]. split_and!; try lia. exists t. split; [done|]. split; [done|]. by apply Hbt.
  - apply Hnext. intros _ _ -> Hoc. destruct Hbt as [_ Hbt]. discriminate Hbt. by rewrite Z.sub_0_r.
Qed.

Lemma simple_strings_spec k i rest spanLength mi mo :
  i + Z.of_nat k = stringsLength -> 0 <= i -> 0 <= spanLength <= total cs - rest ->
  mi = 0 /\ mo = 0 \/ found rest spanLength mi mo ->
  exists mi' mo', simple_strings tsize entry matches k i rest spanLength mi mo = Some (mi', mo') /\
    (mi = 0 /\ mo = 0 /\ mi' = 0 /\ mo' = 0 /\ (forall b t, Some (b, t) ∈ drop (Z.to_nat i) es -> ~ occurs t (total cs - rest)) \/
     found rest spanLength mi' mo').
Proof.
  revert i mi mo. induction k as [|k IH]; intros i mi mo Hi H0 Hs Hor; cbn [simple_strings].
  { eexists _, _. split; [done|]. destruct Hor as [[-> ->]|]; [left|by right]. split_and!; auto.
    intros b t Hin. rewrite drop_ge in Hin; [by apply not_elem_of_nil in Hin|]. pose proof (lk_count ok). unfold zlen in *. lia. }
  destruct (entry_at k i Hi H0) as (e & -> & He & Hd). cbn [mbind option_bind]. rewrite Hd.
  destruct e as [[b t]|].
  2:{ destruct (IH (i + 1) mi mo) as (mi' & mo' & -> & Hpost); auto; [lia..|]. eexists _, _. split; [done|].
      destruct Hpost as [(? & ? & ? & ? & Hno)|]; [left|by right]. split_and!; auto. intros b t [[=]|Hin]%elem_of_cons. by eapply Hno. }
  assert (Hl : listed t) by (by exists b). destruct (lk_size ok b t He) as [-> Hne].
  pose proof (total_pos (cps t) Hne) as Hpos. pose proof (span_of_le (cps t)).
  set (ov0 := if LONG_SPAN <=? b then len t else b). set (ov := if spanLength <? ov0 then spanLength else ov0).
  assert (Hov : 0 <= ov <= spanLength /\ ov <= len t).
  { assert (0 <= ov0 <= len t); [|unfold ov; zcase; lia]. unfold ov0, LONG_SPAN.
    destruct (decide (Forall (fun a => inset a = true) (cps t))) as [Hall|Hrel].
    - rewrite (proj2 (lk_byte ok b t He)) by (by intros Hrel). cbn. lia.
    - rewrite (sk_byte sok b t He Hrel). unfold makeSpanLengthByte. repeat zcase; lia. }
  assert (Hm : 0 <= mi /\ 0 <= mo) by (destruct Hor as [|(? & ? & _)]; lia).
  destruct (simple_overlaps_spec t (S (S (Z.to_nat ov))) rest ov mi mo) as (mi1 & mo1 & -> & Hpost); auto; try lia.
  cbn [mbind option_bind].
  destruct Hpost as [(-> & -> & Hno1)|(_ & Hov1 & Hf1)].
  - destruct (IH (i + 1) mi mo) as (mi' & mo' & -> & Hpost); auto; [lia..|]. eexists _, _. split; [done|].
    destruct Hpost as [(-> & -> & ? & ? & Hno)|]; [left|by right]. split_and!; auto.
    intros b' t' [[= -> ->]|Hin]%elem_of_cons; [apply Hno1; auto; lia|by eapply Hno].
  - assert (Hfound : found rest spanLength mi1 mo1) by (split; [lia|done]).
    destruct (IH (i + 1) mi1 mo1) as (mi' & mo' & -> & Hpost); auto; [lia..|]. eexists _, _. split; [done|]. right.
    destruct Hpost as [(-> & -> & _)|]; [|done]. destruct Hf1 as (_ & ? & _). lia.
Qed.

(** An element of the set is next. *)
Definition starts (P : T -> Prop) r : Prop :=
  (exists a r', r = a :: r' /\ inset a = true) \/ exists t r', P t /\ r = cps t ++ r'.

(** [rest] units are left at a reachable position where nothing follows. *)
Definition stuck (P : T -> Prop) (rest : Z) : Prop :=
  exists p r, cs = p ++ r /\ total r = rest /\ built P p /\ ~ starts P r.

Lemma stuck_here p r :
  cs = p ++ r -> built listed p -> stops r -> (forall b t, Some (b, t) ∈ es -> ~ occurs t (total p)) -> stuck listed (total r).
Proof.
  intros E Hb Hst Hno. exists p, r. split_and!; auto. intros [(a & r' & -> & Ha)|(t & r' & [b Hin] & ->)].
  - cbn in Hst. congruence.
  - apply (Hno b t Hin). by exists p, r'.
Qed.

Lemma stuck_end : reachable listed cs (total cs) -> stuck listed 0.
Proof.
  intros (p & r & E & Hp & Hb). pose proof (f_equal total E) as Et. rewrite total_app in Et.
  assert (r = []) as -> by (apply total_0; lia). exists p, []. split_and!; auto.
  intros [(a & r' & [=] & _)|(t & r' & [b Hin] & [Ht _]%eq_sym%app_nil)].
  by destruct (lk_size ok b t Hin).
Qed.

Lemma span_loop_simple fuel rest spanLength o p r :
  position listed rest spanLength p r -> isEmpty o = true ->
  2 * rest + (if spanLength =? 0 then 0 else 1) < Z.of_nat fuel ->
  exists rest', span_loop tsize entry long matches run one stringsLength (total cs) fuel false rest spanLength o = Some rest' /\
    stuck listed rest'.
Proof.
  revert rest spanLength p r. induction fuel as [|fuel IH]; intros rest spanLength p r Hpos Hem Hf.
  { pose proof (position_total _ _ _ _ _ Hpos). destruct (spanLength =? 0); lia. }
  destruct (position_total _ _ _ _ _ Hpos) as (Hd & Hrest & Hsl).
  pose proof (at_text _ _ _ _ _ Hpos) as E. pose proof (at_rest _ _ _ _ _ Hpos) as Erest.
  pose proof (position_built _ _ _ _ _ Hpos) as Hb.
  cbn [span_loop]. pose proof (lk_count ok) as Hcount. pose proof (zlen_nonneg es).
  destruct (simple_strings_spec (Z.to_nat stringsLength) 0 rest spanLength 0 0) as (mi & mo & -> & Hpost); auto; [lia..|].
  cbn [mbind option_bind]. destruct Hpost as [(_ & _ & -> & -> & Hno)|(Hmo & Hmi & Hpos' & t & Ht & Emi & q & r' & Eq & Hq)].
  - cbn [Z.eqb negb orb]. rewrite drop_0 in Hno. rewrite Hem. rewrite <- Hd in Hno.
    destruct (negb (spanLength =? 0) || (rest =? total cs)) eqn:Eafter.
    + assert (Hst : stops r).
      { destruct (at_span _ _ _ _ _ Hpos) as (q & m & Ep & _ & _ & Em & [|[-> Hne]]); [done|exfalso].
        change (total []) with 0 in Em. pose proof (total_pos p Hne). lia. }
      exists rest. split; [done|]. rewrite <- Erest. by apply (stuck_here p).
    + assert (spanLength = 0) as -> by lia.
      rewrite <- Erest, (sk_run sok p r E (at_more _ _ _ _ _ Hpos)). cbn [mbind option_bind]. rewrite Erest.
      pose proof (span_of_le r). destruct (Z.eqb_spec (span_of r) rest) as [Eall|Hnall]; cbn [orb].
      { exists (rest - span_of r). split; [done|]. replace (rest - span_of r) with 0 by lia. apply stuck_end.
        exists cs, []. rewrite app_nil_r. split_and!; auto. rewrite E. apply built_ones; [done|]. apply span_of_all. lia. }
      destruct (span_of_split r) as (m & r2 & -> & Em & Hm & Hst). rewrite total_app in Erest.
      destruct (Z.eqb_spec (span_of (m ++ r2)) 0) as [Ez|Hnz].
      { exists (rest - span_of (m ++ r2)). split; [done|]. assert (m = []) as -> by (apply total_0; lia). cbn [app] in *.
        replace (rest - span_of r2) with (total r2) by (change (total []) with 0 in *; lia). by apply (stuck_here p). }
      rewrite <- Em in *. rewrite Z.eqb_refl in Hf. apply (IH _ _ (p ++ m) r2); auto; [|destruct (Z.eqb_spec (total m) 0); lia].
      split; [by rewrite <- app_assoc|lia| |].
      * intros ->. change (total []) with 0 in *. lia.
      * exists p, m. split_and!; auto.
  - assert (Enz : negb (mi =? 0) || negb (mo =? 0) = true) by lia. rewrite Enz.
    destruct (position_inside listed rest spanLength p r q (cps t ++ r') Hpos Eq ltac:(lia)) as (Hbq & k & Ek & Ek' & _).
    assert (Hbt : built listed (q ++ cps t)) by (by apply built_string).
    rewrite app_assoc in Eq. assert (Htq : total (q ++ cps t) = total p + mi) by (rewrite total_app; lia).
    destruct (Z.eqb_spec (rest - mi) 0) as [Eend|Hnend].
    { exists 0. split; [done|]. apply stuck_end. exists (q ++ cps t), r'. split_and!; auto. lia. }
    destruct (split_le p r (q ++ cps t) r') as (z & Ez & Er); [congruence|lia|]. rewrite Ez in *. rewrite total_app in Htq.
    pose proof (f_equal total Er) as Etr. rewrite total_app in Etr.
    apply (IH _ _ (p ++ z) r'); auto; [|cbn; destruct (Z.eqb_spec spanLength 0); lia].
    split; auto; [lia| |].
    + intros ->. change (total []) with 0 in *. lia.
    + exists (p ++ z), []. rewrite app_nil_r. split_and!; auto. right. split; [done|]. intros [-> ->]%app_nil.
      change (total []) with 0 in *. lia.
Qed.

(** ** USET_SPAN_NOT_CONTAINED *)

Context (notRun : Z -> option Z) (foundHere : Z -> T -> option bool) (innot : A -> bool).

(** The span-not set has the set's code points and the first characters of the strings that
    matter; [foundHere] matches a string at the position. *)
Record not_ok : Prop := {
  nk_cps : forall a, a ∈ cs -> inset a = true -> innot a = true;
  nk_strings : forall t a l, matters t -> cps t = a :: l -> innot a = true;
  nk_run : forall p r, cs = p ++ r -> r <> [] ->
    exists m r', r = m ++ r' /\ notRun (total r) = Some (total m) /\ Forall (fun a => innot a = false) m;
  nk_found : forall p r t, cs = p ++ r -> listed t -> len t <= total r ->
    exists b, foundHere (total r) t = Some b /\ (b = true <-> exists r', r = cps t ++ r')
}.

Context (nok : not_ok).

(** [rest] units are left at the first position where an element starts, or none. *)
Definition first_start (P : T -> Prop) (rest : Z) : Prop :=
  exists p r, cs = p ++ r /\ total r = rest /\ (r = [] \/ starts P r) /\
    forall p' r', cs = p' ++ r' -> total p' < total p -> ~ starts P r'.

Lemma starts_innot a r : a ∈ cs -> starts listed (a :: r) -> innot a = true.
Proof.
  intros Hcs [(a' & r' & [= <- <-] & Ha)|(t & r' & [b Hin] & E)]; [by apply (nk_cps nok)|].
  destruct (lk_size ok b t Hin) as [_ Hne]. destruct (cps t) as [|a' l] eqn:Et; [done|]. injection E as <- ->.
  destruct (decide (Forall (fun a => inset a = true) (cps t))) as [Hall|Hrel].
  - apply (nk_cps nok); [done|]. rewrite Et in Hall. by apply Forall_cons in Hall as [? _].
  - apply (nk_strings nok t a l); [|done]. split; [by exists b|done].
Qed.

(** Nothing starts before the end of [m] either. *)
Lemma no_start_before p m r :
  cs = p ++ m ++ r -> Forall (fun a => innot a = false) m ->
  (forall p' r', cs = p' ++ r' -> total p' < total p -> ~ starts listed r') ->
  forall p' r', cs = p' ++ r' -> total p' < total (p ++ m) -> ~ starts listed r'.
Proof.
  intros E Hm Hbefore p' r' E' Hlt Hst. destruct (Z.lt_ge_cases (total p') (total p)) as [|Hge]; [by eapply Hbefore|].
  destruct (split_le p (m ++ r) p' r') as (z & -> & Ez); [congruence|done|]. rewrite !total_app in Hlt. symmetry in Ez.
  destruct (split_le z r' m r Ez ltac:(lia)) as (k & -> & ->).
  destruct k as [|a k]; [rewrite app_nil_r in Hlt; lia|]. apply Forall_app in Hm as [_ Hk]. apply Forall_cons in Hk as [Ha _].
  apply starts_innot in Hst; [congruence|]. rewrite E, !elem_of_app, elem_of_cons. auto.
Qed.

Lemma find_string_spec k i p r :
  cs = p ++ r -> i + Z.of_nat k = stringsLength -> 0 <= i ->
  exists b, find_string tsize entry k foundHere i (total r) = Some b /\
    (b = true -> starts listed r) /\
    (b = false -> forall c t r', Some (c, t) ∈ drop (Z.to_nat i) es -> relevant t -> r <> cps t ++ r').
Proof.
  intros E. revert i. induction k as [|k IH]; intros i Hi H0; cbn [find_string].
  { exists false. split_and!; auto; [done|]. intros _ c t r' Hin.
    rewrite drop_ge in Hin; [by apply not_elem_of_nil in Hin|]. pose proof (lk_count ok). unfold zlen in *. lia. }
  destruct (entry_at k i Hi H0) as (e & -> & He & Hd). cbn [mbind option_bind]. rewrite Hd.
  assert (Hskip : (forall c t r', e = Some (c, t) -> relevant t -> r <> cps t ++ r') ->
    exists b, find_string tsize entry k foundHere (i + 1) (total r) = Some b /\
      (b = true -> starts listed r) /\
      (b = false -> forall c t r', Some (c, t) ∈ e :: drop (Z.to_nat (i + 1)) es -> relevant t -> r <> cps t ++ r')).
  { intros Hthis. destruct (IH (i + 1)) as (b & -> & Hb1 & Hb2); [lia..|]. exists b. split_and!; auto.
    intros Hb c t r' [Ee|Hin]%elem_of_cons; [by apply (Hthis c)|by apply (Hb2 Hb c)]. }
  destruct e as [[c t]|]; [|by apply Hskip]. destruct (lk_size ok c t He) as [-> _].
  destruct (Z.eqb_spec c ALL_CP_CONTAINED) as [->|Hne].
  { apply Hskip. intros c t' r' [= <- <-] Hrel. by apply (lk_byte ok _ _ He) in Hrel. }
  assert (Hl : listed t) by (by exists c). destruct (Z.leb_spec (len t) (total r)) as [Hle|Hgt].
  - destruct (nk_found nok p r t E Hl Hle) as (b & -> & Hb). cbn [mbind option_bind]. destruct b.
    + exists true. split_and!; auto. intros _. right. destruct Hb as [Hb _]. destruct (Hb eq_refl) as (r' & ->).
      by exists t, r'.
    + apply Hskip. intros c' t' r' [= <- <-] _ Er. destruct Hb as [_ Hb]. discriminate Hb. eauto.
  - cbn [mbind option_bind]. apply Hskip. intros c' t' r' [= <- <-] _ Er.
    pose proof (f_equal total Er) as Et. rewrite total_app in Et. pose proof (text_total_nonneg r'). lia.
Qed.

Lemma spanNot_loop_spec fuel p r :
  cs = p ++ r -> r <> [] -> total r < Z.of_nat fuel ->
  (forall p' r', cs = p' ++ r' -> total p' < total p -> ~ starts listed r') ->
  exists rest', spanNot_loop tsize entry one stringsLength fuel notRun foundHere (total r) = Some rest' /\
    first_start listed rest'.
Proof.
  revert p r. induction fuel as [|fuel IH]; intros p r E Hr Hf Hbefore.
  { pose proof (text_total_nonneg r). lia. }
  cbn [spanNot_loop]. destruct (nk_run nok p r E Hr) as (m & r2 & -> & -> & Hm). cbn [mbind option_bind].
  pose proof (no_start_before p m r2 E Hm Hbefore) as Hbefore2. rewrite (total_app m) in *.
  destruct (Z.eqb_spec (total m) (total m + total r2)) as [Eall|Hnall].
  { assert (r2 = []) as -> by (apply total_0; lia). exists 0. split; [done|]. exists (p ++ m), [].
    rewrite app_nil_r in *. split_and!; auto. }
  replace (total m + total r2 - total m) with (total r2) by lia. destruct r2 as [|a r2]; [by rewrite Z.add_0_r in Hnall|].
  rewrite app_assoc in E. rewrite (lk_one ok _ a r2 E). cbn [mbind option_bind]. pose proof (sz_pos a). destruct (inset a) eqn:Ha.
  { destruct (Z.ltb_spec 0 (sz a)); [|lia]. eexists. split; [done|]. exists (p ++ m), (a :: r2). split_and!; auto.
    right. left. eauto. }
  destruct (Z.ltb_spec 0 (- sz a)); [lia|]. pose proof (lk_count ok) as Hcount. pose proof (zlen_nonneg es).
  destruct (find_string_spec (Z.to_nat stringsLength) 0 (p ++ m) (a :: r2) E) as (b & -> & Hb1 & Hb2); [lia..|].
  cbn [mbind option_bind]. destruct b.
  { eexists. split; [done|]. exists (p ++ m), (a :: r2). split_and!; auto. }
  assert (Hno : ~ starts listed (a :: r2)).
  { intros [(a' & r' & [= <- <-] & Ha')|(t & r' & [c Hin] & Er)]; [congruence|]. destruct (lk_size ok c t Hin) as [_ Hne].
    destruct (decide (Forall (fun a => inset a = true) (cps t))) as [Hall|Hrel].
    - destruct (cps t) as [|a' l]; [done|]. injection Er as <- _. apply Forall_cons in Hall as [? _]. congruence.
    - by apply (Hb2 eq_refl c t r'). }
  assert (Hbefore3 : forall p' r', cs = p' ++ r' -> total p' < total ((p ++ m) ++ [a]) -> ~ starts listed r').
  { intros p' r' E' Hlt. destruct (Z.lt_ge_cases (total p') (total (p ++ m))) as [|Hge]; [by apply (Hbefore2 p')|].
    destruct (split_le (p ++ m) (a :: r2) p' r') as (z & -> & Ez); [congruence|done|]. destruct z as [|a' z]; [by cbn in Ez; subst r'|].
    injection Ez as <- _. rewrite (total_app (p ++ m)), !(total_app (p ++ m)), !total_cons in Hlt. change (total []) with 0 in Hlt.
    pose proof (text_total_nonneg z). lia. }
  rewrite total_cons in *. replace (sz a + total r2 + - sz a) with (total r2) by lia.
  rewrite snoc_app in E. destruct (Z.eqb_spec (total r2) 0) as [Ez|Hnz]; cbn [negb].
  - exists 0. split; [done|]. assert (r2 = []) as -> by (by apply total_0). exists ((p ++ m) ++ [a]), []. split_and!; auto.
  - apply (IH ((p ++ m) ++ [a]) r2); auto; [by intros ->|]. pose proof (text_total_nonneg m). lia.
Qed.

(** ** The functions *)

Lemma furthest_listed rest : furthest matters rest -> furthest listed rest.
Proof.
  intros [(p & r & E & Ht & Hb) Hmax]. split.
  - exists p, r. split_and!; auto. by eapply built_mono; [|exact Hb]; intros t [? _].
  - intros d (q & r' & Eq & Hq & Hbq). apply Hmax. exists q, r'. split_and!; auto. by apply built_relevant.
Qed.

(** The first span already covers the text. *)
Lemma span_covers : span_of cs = total cs -> furthest listed 0 /\ stuck listed 0.
Proof.
  intros E%span_of_all. assert (reachable listed cs (total cs)).
  { exists cs, []. rewrite app_nil_r. split_and!; auto. apply (built_ones listed []); [apply built_nil|done]. }
  split; [by apply furthest_end|by apply stuck_end].
Qed.

(** The position after the first span. *)
Lemma first_position P :
  span_of cs <> total cs ->
  exists m r, total m = span_of cs /\ position P (total cs - span_of cs) (span_of cs) m r.
Proof.
  intros Hne. destruct (span_of_split cs) as (m & r & E & Em & Hm & Hst). exists m, r. split; [done|].
  rewrite <- Em in *. pose proof (f_equal total E) as Et. rewrite total_app in Et. split; [done|lia| |].
  - intros ->. change (total []) with 0 in Et. lia.
  - exists [], m. split_and!; auto. apply built_nil.
Qed.

Lemma span_contained fuel o :
  span_of cs <> total cs -> o_rep o ∅ -> 6 <= o_capacity o -> (forall t, listed t -> len t <= o_capacity o) ->
  total cs < Z.of_nat fuel ->
  exists rest, span_loop tsize entry long matches run one stringsLength (total cs) fuel true (total cs - span_of cs) (span_of cs) o = Some rest /\
    furthest listed rest.
Proof.
  intros Hne Ho Hcap Hfit Hf. destruct (first_position matters Hne) as (m & r & Hm & Hpos). pose proof (span_of_le cs).
  destruct (span_loop_contained fuel (total cs - span_of cs) (span_of cs) o m r ∅) as (rest & -> & Hrest); [|lia|].
  - split; auto; [intros x; set_solver|]. intros q t r' _ _ _ Hlt. pose proof (text_total_nonneg q). lia.
  - exists rest. split; [done|]. by apply furthest_listed.
Qed.

Lemma span_simple fuel o :
  span_of cs <> total cs -> isEmpty o = true -> 2 * total cs + 1 < Z.of_nat fuel ->
  exists rest, span_loop tsize entry long matches run one stringsLength (total cs) fuel false (total cs - span_of cs) (span_of cs) o = Some rest /\
    stuck listed rest.
Proof.
  intros Hne Ho Hf. destruct (first_position listed Hne) as (m & r & Hm & Hpos). pose proof (span_of_le cs).
  apply (span_loop_simple fuel _ _ o m r); auto. destruct (_ =? 0); lia.
Qed.

(** The body of the span functions: the first span, then the loop unless it covers the text. *)
Lemma span_parts (contained : bool) fuel o :
  cs <> [] ->
  (if contained then o_rep o ∅ /\ 6 <= o_capacity o /\ forall t, listed t -> len t <= o_capacity o else isEmpty o = true) ->
  2 * total cs + 1 < Z.of_nat fuel ->
  let result rest := if contained then furthest listed rest else stuck listed rest in
  run (total cs) = Some (span_of cs) /\
  if span_of cs =? total cs then result 0
  else exists rest, span_loop tsize entry long matches run one stringsLength (total cs) fuel contained (total cs - span_of cs) (span_of cs) o = Some rest /\
    result rest.
Proof.
  intros Hne Ho Hf result. split; [by apply (sk_run sok [])|]. pose proof (text_total_nonneg cs). destruct (Z.eqb_spec (span_of cs) (total cs)) as [E|Hn].
  - destruct (span_covers E). unfold result. by destruct contained.
  - unfold result. destruct contained.
    + destruct Ho as (Hr & Hc & Hfit). apply span_contained; auto. lia.
    + by apply span_simple.
Qed.

Lemma span_not fuel :
  cs <> [] -> total cs < Z.of_nat fuel ->
  exists rest, spanNot_loop tsize entry one stringsLength fuel notRun foundHere (total cs) = Some rest /\ first_start listed rest.
Proof.
  intros Hne Hf. apply (spanNot_loop_spec fuel [] cs); auto. intros p' r' _ Hlt. pose proof (text_total_nonneg p').
  change (total []) with 0 in Hlt. lia.
Qed.
End Text.

(** The results depend on the strings only as a set. *)
Section Same.
Context {A T : Type} (sz : A -> Z) (inset : A -> bool) (cps : T -> list A) (cs : list A).
Context (P Q : T -> Prop) (HPQ : forall t, P t <-> Q t).

Lemma built_same p : built inset cps P p <-> built inset cps Q p.
Proof. split; apply built_mono; apply HPQ. Qed.

Lemma reachable_same d : reachable sz inset cps P cs d <-> reachable sz inset cps Q cs d.
Proof. unfold reachable. by setoid_rewrite built_same. Qed.

Lemma furthest_same rest : furthest sz inset cps cs P rest -> furthest sz inset cps cs Q rest.
Proof. unfold furthest. intros [Hr Hm]. split; [by apply reachable_same|]. intros d Hd%reachable_same. auto. Qed.

Lemma starts_same r : starts inset cps P r <-> starts inset cps Q r.
Proof. unfold starts. by setoid_rewrite HPQ. Qed.

Lemma stuck_same rest : stuck sz inset cps cs P rest -> stuck sz inset cps cs Q rest.
Proof. unfold stuck. setoid_rewrite built_same. by setoid_rewrite starts_same. Qed.

Lemma first_start_same rest : first_start sz inset cps cs P rest -> first_start sz inset cps cs Q rest.
Proof. unfold first_start. by setoid_rewrite starts_same. Qed.
End Same.

(** An irrelevant string starts where its first character, an element, does. *)
Lemma starts_relevant {A T} (inset : A -> bool) (cps : T -> list A) P r :
  (forall t, P t -> cps t <> []) -> starts inset cps P r <-> starts inset cps (fun t => P t /\ relevant inset cps t) r.
Proof.
  intros Hne. split.
  - intros [?|(t & r' & Ht & ->)]; [by left|]. destruct (decide (Forall (fun a => inset a = true) (cps t))) as [Hall|Hrel].
    + left. specialize (Hne t Ht). destruct (cps t) as [|a l]; [done|]. apply Forall_cons in Hall as [Ha _]. by exists a, (l ++ r').
    + right. by exists t, r'.
  - intros [?|(t & r' & [Ht _] & ->)]; [by left|]. right. by exists t, r'.
Qed.

Lemma first_start_relevant {A T} (sz : A -> Z) (inset : A -> bool) (cps : T -> list A) cs P rest :
  (forall t, P t -> cps t <> []) ->
  first_start sz inset cps cs (fun t => P t /\ relevant inset cps t) rest -> first_start sz inset cps cs P rest.
Proof. intros Hne. unfold first_start. by setoid_rewrite <- (starts_relevant inset cps P _ Hne). Qed.

(** A SIMPLE span is never longer than the CONTAINED span. *)
Lemma stuck_furthest {A T} (sz : A -> Z) (inset : A -> bool) (cps : T -> list A) cs P rest rest' :
  stuck sz inset cps cs P rest -> furthest sz inset cps cs P rest' -> rest' <= rest.
Proof.
  intros (p & r & E & Hr & Hb & _) [_ Hmax]. pose proof (f_equal (total sz) E) as Et. rewrite total_app in Et.
  specialize (Hmax (total sz p)). assert (total sz p <= total sz cs - rest'); [|lia]. apply Hmax. by exists p, r.
Qed.

(** ** The result of a span *)

(** What a span promises, by its condition: the first position where an element starts, the
    furthest concatenation of elements, or a concatenation after which no element follows. *)
Section Outcome.
Context {A T : Type} (sz : A -> Z) (sz_pos : forall a, 1 <= sz a <= 6) (cps : T -> list A).
Implicit Types (f g : A -> bool) (P : T -> Prop) (cs : list A).

Definition outcome f P cs (spanCondition rest : Z) : Prop :=
  if spanCondition =? UnicodeSet.USET_SPAN_NOT_CONTAINED then first_start sz f cps cs P rest
  else if spanCondition =? UnicodeSet.USET_SPAN_CONTAINED then furthest sz f cps cs P rest
  else stuck sz f cps cs P rest.

(** Only the membership of the characters of the text matters. *)
Lemma built_ext f g P p : (forall a, a ∈ p -> f a = g a) -> built f cps P p -> built g cps P p.
Proof.
  clear sz_pos. intros Hfg Hb. induction Hb as [|p a _ IH Ha|p t _ IH Ht]; [apply built_nil|apply built_one|apply built_string]; auto.
  - apply IH. intros b Hb. apply Hfg. set_solver.
  - rewrite <- Hfg; set_solver.
  - apply IH. intros b Hb. apply Hfg. set_solver.
Qed.

Lemma starts_ext f g P r : (forall a, a ∈ r -> f a = g a) -> starts f cps P r -> starts g cps P r.
Proof.
  clear sz_pos. intros Hfg [(a & r' & -> & Ha)|Ht]; [left|by right]. exists a, r'. split; [done|]. rewrite <- Hfg; set_solver.
Qed.

Lemma reachable_ext f g P cs d :
  (forall a, a ∈ cs -> f a = g a) -> reachable sz f cps P cs d -> reachable sz g cps P cs d.
Proof.
  clear sz_pos. intros Hfg (p & r & -> & Hd & Hb). exists p, r. split_and!; auto. eapply built_ext; [|done]. set_solver.
Qed.

Lemma span_outcome_ext f g P cs spanCondition rest :
  (forall a, a ∈ cs -> f a = g a) -> outcome f P cs spanCondition rest -> outcome g P cs spanCondition rest.
Proof.
  clear sz_pos. intros Hfg. assert (Hgf : forall a, a ∈ cs -> g a = f a) by (intros; symmetry; auto). unfold outcome.
  destruct (_ =? _); [|destruct (_ =? _)].
  - intros (p & r & -> & Hr & Hst & Hno). exists p, r. split_and!; auto.
    + destruct Hst as [|Hst]; [by left|right]. eapply starts_ext; [|done]. set_solver.
    + intros p' r' E Hlt Hs. apply (Hno p' r' E Hlt). eapply starts_ext; [|done]. rewrite E in Hgf. set_solver.
  - intros [Hr Hmax]. split; [by eapply reachable_ext|]. intros d Hd. apply Hmax. by eapply reachable_ext.
  - intros (p & r & -> & Hr & Hb & Hno). exists p, r. split_and!; auto.
    + eapply built_ext; [|done]. set_solver.
    + intros Hs. apply Hno. eapply starts_ext; [|done]. set_solver.
Qed.

(** No element starts in an empty text. *)
Lemma outcome_nil f P spanCondition : (forall t, P t -> cps t <> []) -> outcome f P [] spanCondition 0.
Proof.
  intros Hne. assert (Hns : ~ starts f cps P []).
  { intros [(a & r & ? & _)|(t & r & Ht & E)]; [done|]. destruct (cps t) eqn:Et; [by apply (Hne t)|done]. }
  unfold outcome. destruct (_ =? _); [|destruct (_ =? _)].
  - exists [], []. split_and!; auto. intros p' r' _ Hlt. pose proof (text_total_nonneg sz sz_pos p'). change (total sz []) with 0 in Hlt. lia.
  - split; [exists [], []; split_and!; auto; apply built_nil|]. intros d (p & r & E & <- & _). symmetry in E. apply app_eq_nil in E as [-> _]. done.
  - exists [], []. split_and!; auto. apply built_nil.
Qed.

(** Without strings that matter the spans are those of the characters. *)
Lemma built_only f P p : (forall t, P t -> Forall (fun a => f a = true) (cps t)) -> built f cps P p -> Forall (fun a => f a = true) p.
Proof. intros HP. induction 1; rewrite ?Forall_app, ?Forall_singleton; auto. Qed.

Lemma starts_only f P a r :
  (forall t, P t -> cps t <> [] /\ Forall (fun a => f a = true) (cps t)) -> starts f cps P (a :: r) -> f a = true.
Proof.
  intros HP [(a' & r' & [= <- <-] & Ha)|(t & r' & [Hne Hall]%HP & E)]; [done|].
  destruct (cps t) as [|a' l]; [done|]. injection E as <- _. by apply Forall_cons in Hall as [? _].
Qed.

Lemma outcome_plain f P cs spanCondition :
  (forall t, P t -> cps t <> [] /\ Forall (fun a => f a = true) (cps t)) ->
  outcome f P cs spanCondition
    (total sz cs - span_of sz (fun a => Bool.eqb (f a) (negb (spanCondition =? UnicodeSet.USET_SPAN_NOT_CONTAINED))) cs).
Proof.
  intros HP. set (f' := fun a : A => _). destruct (span_of_split sz f' cs) as (m & r & E & Em & Hm & Hst).
  assert (Et : total sz cs - span_of sz f' cs = total sz r) by (rewrite E at 1; rewrite total_app; lia).
  rewrite Et. clear Et. pose proof (f_equal (total sz) E) as Hsum. rewrite total_app in Hsum.
  unfold f' in *. clear f' Em. unfold outcome. destruct (_ =? _); cbn [negb] in *.
  - exists m, r. split_and!; auto.
    + destruct r as [|a r]; [by left|right]. left. exists a, r. split; [done|]. cbn in Hst. by destruct (f a).
    + intros p' r' E' Hlt Hs. rewrite E in E'. destruct (split_le sz sz_pos p' r' m r) as (m' & -> & ->); [done|lia|].
      destruct m' as [|a m']; [rewrite app_nil_r in Hlt; lia|]. apply starts_only in Hs; [|done].
      apply Forall_app in Hm as [_ Hm]. apply Forall_cons in Hm as [Ha _]. by rewrite Hs in Ha.
  - assert (Hm' : Forall (fun a => f a = true) m) by (eapply Forall_impl; [exact Hm|]; intros a; cbn; by destruct (f a)).
    assert (Hb : built f cps P m) by (apply (built_ones f cps P []); [apply built_nil|done]).
    destruct (_ =? _).
    + split; [exists m, r; split_and!; auto; lia|]. intros d (q & r' & Eq & <- & Hq).
      apply built_only in Hq; [|by intros t [_ ?]%HP]. replace (total sz cs - total sz r) with (total sz m) by lia.
      destruct (Z.le_gt_cases (total sz q) (total sz m)) as [|Hgt]; [done|]. exfalso. rewrite E in Eq.
      destruct (split_le sz sz_pos m r q r') as (m' & -> & ->); [done|lia|].
      destruct m' as [|a m']; [rewrite app_nil_r in Hgt; lia|]. apply Forall_app in Hq as [_ Hq].
      apply Forall_cons in Hq as [Ha _]. cbn in Hst. by rewrite Ha in Hst.
    + exists m, r. split_and!; auto. intros Hs. destruct r as [|a r].
      * destruct Hs as [(a & r' & ? & _)|(t & r' & [Hne _]%HP & Et)]; [done|]. by destruct (cps t).
      * apply starts_only in Hs; [|done]. cbn in Hst. by rewrite Hs in Hst.
Qed.
End Outcome.
End StringSpanFacts.
