(* ===== verification/StringSpanText.v ===== *)
(** * Text for the string span loops

    What the loops of UnicodeSetStringSpan are given, for the four functions: matching a string
    at unit [start] of a text finds it exactly where it lies between code point boundaries,
    [spanOne] and its variants decide the next code point, and the spans of a set without
    strings are the contained prefixes that the theory of the loops speaks of. *)

From S2P Require Import Prelude Vector Utf16 Utf8 UString StringConv InversionList BMPSet BMPSetUtf8 UnicodeSet UnicodeSetFacts UnicodeSetAlgebra UnicodeSetSpan StringSpanLoop UnicodeSetStringSpan StringSpanFacts.
Import InvList.

Module StringSpanText.
Import Utf16 UnicodeSetStringSpan StringSpanFacts.

(** ** Matching units *)

Lemma matches_from_prefix a a' b b' p q :
  (length b' <= length a')%nat ->
  matches_from (length b') (p ++ a :: a') (q ++ b :: b') (zlen p) (zlen q) = Some (bool_decide (b :: b' `prefix_of` a :: a')).
Proof.
  revert a a' b p q. induction b' as [|b2 b' IH]; intros a a' b p q Hl.
  - cbn [length matches_from]. rewrite (zget_middle p), (zget_middle q). cbn [mbind option_bind].
    destruct (Z.eqb_spec a b) as [->|Hne]; symmetry; f_equal.
    + apply bool_decide_eq_true_2. by exists a'.
    + apply bool_decide_eq_false_2. intros Hp. apply Hne. by apply prefix_cons_inv_1 in Hp.
  - cbn [length matches_from]. rewrite (zget_middle p), (zget_middle q). cbn [mbind option_bind].
    destruct (Z.eqb_spec a b) as [->|Hne].
    + destruct a' as [|a2 a']; [cbn in Hl; lia|]. replace (zlen p + 1) with (zlen (p ++ [b])) by apply zlen_snoc.
      replace (zlen q + 1) with (zlen (q ++ [b])) by apply zlen_snoc. rewrite (snoc_app p b), (snoc_app q b), IH by (cbn in Hl; lia).
      f_equal. apply bool_decide_ext. split; [apply prefix_cons|apply prefix_cons_inv_2].
    + symmetry. f_equal. apply bool_decide_eq_false_2. intros Hp. apply Hne. by apply prefix_cons_inv_1 in Hp.
Qed.

(** Split a text at a unit. *)
Lemma unit_split (s : list Z) (i : Z) : 0 <= i <= zlen s -> exists u w, s = u ++ w /\ zlen u = i.
Proof.
  intros Hi. exists (ztake i s), (drop (Z.to_nat i) s). split; [by unfold ztake; rewrite take_drop|]. by apply zlen_ztake.
Qed.

Lemma matches16_prefix u w t :
  t <> [] -> zlen t <= zlen w -> matches16 (u ++ w) (zlen u) t (zlen t) = Some (bool_decide (t `prefix_of` w)).
Proof.
  intros Ht Hl. destruct t as [|b t]; [done|]. destruct w as [|a w].
  { rewrite zlen_cons in Hl. change (zlen (@nil Z)) with 0 in Hl. pose proof (zlen_nonneg t). lia. }
  unfold matches16. rewrite !zlen_cons in *. replace (Z.to_nat (zlen t + 1 - 1)) with (length t) by (unfold zlen; lia).
  apply (matches_from_prefix a w b t u []). unfold zlen in *. lia.
Qed.

(** ** UTF-16 *)

Notation total16 := (total U16_LENGTH).

Lemma U16_LENGTH_sizes c : 1 <= U16_LENGTH c <= 6.
Proof. unfold U16_LENGTH. zcase; lia. Qed.

Lemma total16_units cs : Forall code_point cs -> total16 cs = zlen (concat (map encode cs)).
Proof.
  induction 1 as [|c cs Hc Hcs IH]; [done|]. cbn [map concat]. rewrite total_cons, zlen_app, encode_zlen by done. lia.
Qed.

Lemma total16_text u : Forall unit16 u -> total16 (code_points u) = zlen u.
Proof. intros Hu. by rewrite total16_units, encode_code_points by (done || by apply code_points_valid). Qed.

Lemma code_points_encode c : code_point c -> code_points (encode c) = [c].
Proof.
  intros Hc. unfold encode. destruct (Z.leb_spec c 0xffff); [done|]. unfold code_point in Hc.
  destruct (encode_pair c ltac:(lia)) as (Hp & E). cbn [code_points]. by rewrite Hp, E.
Qed.

(** A split of the code points is a split of the text, not inside a surrogate pair. *)
Lemma code_points_split s p r :
  Forall unit16 s -> code_points s = p ++ r ->
  exists u v, s = u ++ v /\ code_points u = p /\ code_points v = r /\ boundary u v.
Proof.
  revert s. induction p as [|c p IH]; intros s Hs E.
  { exists [], s. split_and!; auto. by intros l t [=]. }
  destruct s as [|x s]; [done|]. destruct (code_points_cons x s Hs) as (c' & w & s' & Es & -> & Ec & Hcp & _).
  rewrite Ec in E. injection E as -> E. pose proof Hs as Hs'. rewrite Es in Hs'. apply Forall_app in Hs' as [_ Hs'].
  destruct (IH s' Hs' E) as (u & v & -> & <- & <- & Hb). pose proof (boundary_next [] x s c (u ++ v) Hs Es Ec) as Hbc.
  exists (encode c ++ u), v. split_and!; auto; [by rewrite <- app_assoc| |].
  - assert (Hcu : boundary (encode c) u).
    { intros l t Hl Ht. apply Hbc; [done|]. destruct u; [done|]. by simplify_eq/=. }
    rewrite ustring_facts.code_points_app, code_points_encode by done. done.
  - destruct u as [|y u]; [by rewrite app_nil_r|]. intros l t Hl Ht. apply Hb; [|done].
    by rewrite last_app_cons in Hl.
Qed.

Lemma splits_pair_spec u x y w : splits_pair ((u ++ [x]) ++ y :: w) (zlen (u ++ [x])) = Some (is_pair x y).
Proof.
  unfold splits_pair. replace (zlen (u ++ [x]) - 1) with (zlen u) by (rewrite zlen_snoc; lia). rewrite zget_middle, <- app_assoc.
  cbn [app]. rewrite zget_middle. cbn [mbind option_bind]. unfold is_pair. by destruct (U16_IS_LEAD x).
Qed.

(** The two checks of [matches16CPB]. *)
Lemma splits_before u w :
  w <> [] -> exists b, (if 0 <? zlen u then splits_pair (u ++ w) (zlen u) else Some false) = Some b /\ (b = false <-> boundary u w).
Proof.
  intros Hw. destruct w as [|y w]; [done|]. destruct u as [|x u _] using rev_ind.
  { exists false. split; [done|]. split; [|done]. by intros _ l t [=]. }
  destruct (Z.ltb_spec 0 (zlen (u ++ [x]))). 2:{ rewrite zlen_snoc in *. pose proof (zlen_nonneg u). lia. }
  exists (is_pair x y). split; [apply splits_pair_spec|]. split.
  - intros Hp l t Hl Ht. rewrite last_snoc in Hl. by simplify_eq/=.
  - intros Hb. apply Hb; [apply last_snoc|done].
Qed.

Lemma splits_after u w n :
  u <> [] -> n = zlen (u ++ w) -> exists b, (if zlen u <? n then splits_pair (u ++ w) (zlen u) else Some false) = Some b /\ (b = false <-> boundary u w).
Proof.
  intros Hu ->. rewrite zlen_app. destruct w as [|y w].
  { exists false. change (zlen (@nil Z)) with 0. rewrite Z.add_0_r, Z.ltb_irrefl. split; [done|]. split; [|done]. by intros _ l t _ [=]. }
  destruct (Z.ltb_spec (zlen u) (zlen u + zlen (y :: w))). 2:{ rewrite zlen_cons in *. pose proof (zlen_nonneg w). lia. }
  destruct (splits_before u (y :: w)) as (b & Hb & Hbb); [done|]. exists b. split; [|done].
  destruct (Z.ltb_spec 0 (zlen u)); [done|]. destruct u; [done|]. rewrite zlen_cons in *. pose proof (zlen_nonneg u). lia.
Qed.

(** A string lies between code point boundaries exactly where its code points are. *)
Lemma boundaries_code_points s t start :
  Forall unit16 s -> t <> [] -> Forall unit16 t ->
  (exists u w, s = u ++ t ++ w /\ zlen u = start /\ boundary u (t ++ w) /\ boundary (u ++ t) w) <->
  (exists p r, code_points s = p ++ code_points t ++ r /\ total16 p = start).
Proof.
  intros Hs Ht Ht16. split.
  - intros (u & w & -> & Hu & Hb1 & Hb2). exists (code_points u), (code_points w).
    apply Forall_app in Hs as [Hu16 Hs]. split; [|by rewrite total16_text].
    rewrite ustring_facts.code_points_app by done. f_equal. apply ustring_facts.code_points_app.
    intros l x Hl Hx. apply Hb2; [|done]. destruct t as [|y t]; [done|]. by rewrite last_app_cons.
  - intros (p & r & E & Hp). destruct (code_points_split s p _ Hs E) as (u & v & -> & <- & E2 & Hb).
    apply Forall_app in Hs as [Hu16 Hv16]. rewrite total16_text in Hp by done.
    destruct (code_points_split v _ _ Hv16 E2) as (t' & w & -> & Et & _ & Hb2).
    assert (t' = t) as ->.
    { apply Forall_app in Hv16 as [Ht' _]. by rewrite <- (encode_code_points t'), <- (encode_code_points t), Et. }
    exists u, w. split_and!; auto. intros l x Hl Hx. apply Hb2; [|done]. destruct t as [|y t]; [done|].
    by rewrite last_app_cons in Hl.
Qed.

Lemma matches16CPB_spec s t start :
  Forall unit16 s -> t <> [] -> Forall unit16 t -> 0 <= start -> start + zlen t <= zlen s ->
  exists b, matches16CPB s start (zlen s) t (zlen t) = Some b /\
    (b = true <-> exists p r, code_points s = p ++ code_points t ++ r /\ total16 p = start).
Proof.
  intros Hs Ht Ht16 Hst Hend. setoid_rewrite <- boundaries_code_points; [|done..].
  destruct (unit_split s start) as (u & v & -> & <-); [pose proof (zlen_nonneg t); lia|]. unfold matches16CPB.
  rewrite zlen_app in Hend. rewrite matches16_prefix by (done || lia). cbn [mbind option_bind]. case_bool_decide as Hp.
  - destruct Hp as [w ->]. assert (Htw : t ++ w <> []) by (destruct t; done).
    destruct (splits_before u (t ++ w) Htw) as (a & -> & Ha). cbn [mbind option_bind]. destruct a.
    { exists false. split; [done|]. split; [done|]. intros (u' & w' & E & Hz & Hb & _).
      apply app_inj_1 in E as [-> E]; [|unfold zlen in Hz; lia]. rewrite <- E in Hb. by apply Ha in Hb. }
    destruct (splits_after (u ++ t) w (zlen (u ++ t ++ w))) as (b & Hb & Hbb); [by destruct u, t|by rewrite <- app_assoc|].
    rewrite zlen_app, <- app_assoc in Hb. replace (zlen t <? zlen (u ++ t ++ w) - zlen u) with (zlen u + zlen t <? zlen (u ++ t ++ w))
      by (repeat zcase; lia).
    rewrite Hb. cbn [mbind option_bind]. exists (negb b). split; [done|]. rewrite negb_true_iff, Hbb. split.
    + intros Hb2. exists u, w. split_and!; auto. by apply Ha.
    + intros (u' & w' & E & Hz & _ & Hb2). apply app_inj_1 in E as [-> E]; [|unfold zlen in Hz; lia].
      by apply app_inj_1 in E as [_ ->].
  - exists false. split; [done|]. split; [done|]. intros (u' & w' & E & Hz & _). destruct Hp.
    apply app_inj_1 in E as [-> ->]; [by apply prefix_app_r|unfold zlen in Hz; lia].
Qed.

(** ** Spans of a set without strings *)

Lemma span_of_units (P : Z -> bool) cs : span_of U16_LENGTH P cs = BMPSet.span_units P cs.
Proof. induction cs as [|c cs IH]; cbn; [done|]. by rewrite IH. Qed.

Lemma tail_app u v : tail (u ++ v) (zlen v) = v.
Proof. unfold tail. rewrite zlen_app. replace (Z.to_nat (zlen u + zlen v - zlen v)) with (length u) by (unfold zlen; lia). apply drop_app_length. Qed.

Lemma total_rev cs : total16 (rev cs) = total16 cs.
Proof. induction cs as [|c cs IH]; [done|]. cbn [rev]. rewrite total_app, !total_cons, IH. change (total16 []) with 0. lia. Qed.

Lemma span_units_ext (P Q : Z -> bool) cs : (forall c, P c = Q c) -> BMPSet.span_units P cs = BMPSet.span_units Q cs.
Proof. intros E. induction cs as [|c cs IH]; cbn; [done|]. by rewrite E, IH. Qed.

Lemma lead_test x : unit16 x -> (0xd800 <=? x) && (x <=? 0xdbff) = U16_IS_LEAD x.
Proof. intros Hx. apply eq_true_iff_eq. rewrite lead_range by (unfold unit16 in Hx; lia). lia. Qed.

Lemma trail_test x : unit16 x -> (0xdc00 <=? x) && (x <=? 0xdfff) = U16_IS_TRAIL x.
Proof. intros Hx. apply eq_true_iff_eq. rewrite trail_range by (unfold unit16 in Hx; lia). lia. Qed.

Lemma U16_BACK_1_PREV s start i : U16_BACK_1 s start i = option_map snd (U16_PREV s start i).
Proof.
  unfold U16_BACK_1, U16_PREV. destruct (zget s (i - 1)) as [c|]; [|done]. cbn [mbind option_bind].
  destruct (_ && _); [|done]. destruct (zget s (i - 1 - 1)) as [c2|]; [|done]. cbn. by destruct (U16_IS_LEAD c2).
Qed.

Lemma U16_FWD_1_NEXT s i length : U16_FWD_1 s i length = option_map snd (U16_NEXT s i length).
Proof.
  unfold U16_FWD_1, U16_NEXT. destruct (zget s i) as [c|]; [|done]. cbn [mbind option_bind].
  destruct (_ && _); [|done]. destruct (zget s (i + 1)) as [c2|]; [|done]. cbn. by destruct (U16_IS_TRAIL c2).
Qed.

Lemma all_but_last16_spec t :
  Forall unit16 t -> t <> [] -> exists l a, code_points t = l ++ [a] /\ all_but_last16 t = Some (total16 l).
Proof.
  intros Ht Hne. destruct (U16_PREV_step t [] Ht Hne) as (c & u & E & Ec & _ & Hp). rewrite app_nil_r in Hp.
  exists (code_points u), c. split; [done|]. unfold all_but_last16. rewrite U16_BACK_1_PREV, Hp. cbn.
  rewrite total16_text; [done|]. rewrite E in Ht. by apply Forall_app in Ht as [? _].
Qed.

Lemma all_but_first16_spec t :
  Forall unit16 t -> t <> [] -> exists l a, rev (code_points t) = l ++ [a] /\ all_but_first16 t = Some (total16 l).
Proof.
  intros Ht Hne. destruct t as [|x t]; [done|]. destruct (U16_NEXT_step [] x t Ht) as (c & u & E & Ec & _ & Hp).
  exists (rev (code_points u)), c. rewrite Ec. split; [done|]. unfold all_but_first16. cbn [app] in Hp.
  change (zlen (@nil Z)) with 0 in Hp. rewrite U16_FWD_1_NEXT, Hp. cbn [option_map snd mbind option_bind].
  rewrite E in Ht |- *. apply Forall_app in Ht as [_ Hu]. rewrite total_rev, total16_text, zlen_app by done. f_equal. lia.
Qed.

Section Plain.
Context {HP : Heap} {OS : ObjectSizes}.
#[local] Existing Instance no_span.
Implicit Types set : set0.

(** A set without strings, whose own spans are those of its code points. *)
Definition plain set : Prop := UnicodeSetFacts.wf set /\ UnicodeSetFacts.strs set = [].

Lemma plain_span set : plain set -> UnicodeSetFacts.wf set /\ UnicodeSetSpan.no_span_strings set.
Proof. intros [Hwf Hs]. split; [done|]. split; [|by right]. by destruct (UnicodeSet.stringSpan set) as [[]|]. Qed.

Notation has := UnicodeSetFacts.has.

Lemma signed_spec set c n : plain set -> code_point c -> signed set c n = Some (if has set c then n else - n).
Proof. intros [Hwf _] Hc. unfold signed. by rewrite UnicodeSetSpan.code_point_contains. Qed.

(** *** Forwards over UTF-16 *)

Lemma span_tail set s p r spanCondition :
  plain set -> Forall unit16 s -> code_points s = p ++ r -> r <> [] ->
  UnicodeSet.span set (tail s (total16 r)) (total16 r) spanCondition =
    Some (span_of U16_LENGTH (fun c => Bool.eqb (has set c) (negb (spanCondition =? UnicodeSet.USET_SPAN_NOT_CONTAINED))) r).
Proof.
  intros [Hwf Hn]%plain_span Hs E Hr. destruct (code_points_split s p r Hs E) as (u & v & -> & <- & <- & _).
  apply Forall_app in Hs as [_ Hv]. rewrite total16_text, tail_app, span_of_units by done.
  apply UnicodeSetSpan.span_runs; auto. by intros ->.
Qed.

Lemma span_of_has set cs : span_of U16_LENGTH (fun c => Bool.eqb (has set c) true) cs = span_of U16_LENGTH (has set) cs.
Proof. rewrite !span_of_units. apply span_units_ext. intros c. by destruct (has set c). Qed.

Lemma spanOne_text set x v :
  plain set -> Forall unit16 (x :: v) ->
  exists c r, code_points (x :: v) = c :: r /\ spanOne set (x :: v) (zlen (x :: v)) = Some (if has set c then U16_LENGTH c else - U16_LENGTH c).
Proof.
  intros Hset Hv. destruct (code_points_cons x v Hv) as (c & w & v' & Ev & -> & Ec & Hcp & Hm). exists c, (code_points v').
  split; [done|]. rewrite <- encode_zlen by done. unfold spanOne. rewrite zget_cons_0. cbn [mbind option_bind].
  apply Forall_cons in Hv as [Hx Hv]. rewrite lead_test by done.
  assert (Hsingle : encode x = [x]) by (by apply encode_unit).
  assert (Hx' : code_point x) by (unfold unit16, code_point in *; lia).
  destruct v as [|y v]; rewrite !zlen_cons.
  - change (2 <=? zlen (@nil Z) + 1) with false. rewrite andb_false_r. cbn [mbind option_bind]. subst c.
    rewrite Hsingle. by apply signed_spec.
  - pose proof (zlen_nonneg v). apply Forall_cons in Hv as [Hy _]. destruct (Z.leb_spec 2 (zlen v + 1 + 1)); [|lia]. rewrite andb_true_r.
    unfold is_pair in Hm. destruct (U16_IS_LEAD x) eqn:El; cbn [andb] in Hm; [|cbn [mbind option_bind]; subst c; rewrite Hsingle; by apply signed_spec].
    change (zget (x :: y :: v) 1) with (Some y). cbn [mbind option_bind]. destruct (U16_IS_TRAIL y) eqn:Et; subst c.
    + rewrite (proj2 (encode_supplementary x y Hx Hy ltac:(unfold is_pair; by rewrite El, Et))). by apply signed_spec.
    + rewrite Hsingle. by apply signed_spec.
Qed.

Lemma spanOne_tail set s p c r :
  plain set -> Forall unit16 s -> code_points s = p ++ c :: r ->
  spanOne set (tail s (total16 (c :: r))) (total16 (c :: r)) = Some (if has set c then U16_LENGTH c else - U16_LENGTH c).
Proof.
  intros Hset Hs E. destruct (code_points_split s p _ Hs E) as (u & v & -> & <- & Ev & _). rewrite <- Ev.
  apply Forall_app in Hs as [_ Hv]. rewrite total16_text, tail_app by done. destruct v as [|x v]; [done|].
  destruct (spanOne_text set x v Hset Hv) as (c' & r' & E' & Hone). rewrite E' in Ev. by simplify_eq.
Qed.

(** *** Backwards over UTF-16 *)

Lemma rev_split s p r :
  Forall unit16 s -> rev (code_points s) = p ++ r ->
  exists u v, s = u ++ v /\ code_points u = rev r /\ code_points v = rev p /\ zlen u = total16 r.
Proof.
  intros Hs E. apply (f_equal (@rev Z)) in E. rewrite rev_involutive, rev_app_distr in E.
  destruct (code_points_split s _ _ Hs E) as (u & v & -> & Eu & Ev & _). exists u, v. split_and!; auto.
  apply Forall_app in Hs as [Hu _]. by rewrite <- total16_text, Eu, total_rev.
Qed.

Lemma spanBack_head set s p r spanCondition :
  plain set -> Forall unit16 s -> rev (code_points s) = p ++ r -> r <> [] ->
  UnicodeSet.spanBack set s (total16 r) spanCondition =
    Some (total16 r - span_of U16_LENGTH (fun c => Bool.eqb (has set c) (negb (spanCondition =? UnicodeSet.USET_SPAN_NOT_CONTAINED))) r).
Proof.
  intros [Hwf Hn]%plain_span Hs E Hr. destruct (rev_split s p r Hs E) as (u & v & -> & Eu & _ & <-).
  rewrite UnicodeSetSpan.spanBack_within; auto.
  - by rewrite Eu, rev_involutive, span_of_units.
  - intros ->. apply Hr. by rewrite <- (rev_involutive r), <- Eu.
Qed.

Lemma spanOneBack_head set s p c r :
  plain set -> Forall unit16 s -> rev (code_points s) = p ++ c :: r ->
  spanOneBack set s (total16 (c :: r)) = Some (if has set c then U16_LENGTH c else - U16_LENGTH c).
Proof.
  intros Hset Hs E. destruct (rev_split s p _ Hs E) as (u & v & -> & Eu & _ & <-). apply Forall_app in Hs as [Hu _].
  destruct u as [|x u _] using rev_ind; [by cbn in Eu; destruct (rev r)|]. apply Forall_app in Hu as [Hu Hx%Forall_cons]. destruct Hx as [Hx _].
  cbn [rev] in Eu. assert (Hx' : code_point x) by (unfold unit16, code_point in *; lia).
  unfold spanOneBack. replace (zlen (u ++ [x]) - 1) with (zlen u) by (rewrite zlen_snoc; lia).
  rewrite <- app_assoc. cbn [app]. rewrite zget_middle. cbn [mbind option_bind]. rewrite trail_test by done.
  assert (Hlast : (forall l, last u = Some l -> is_pair l x = false) -> c = x).
  { intros Hnp. rewrite code_points_snoc_single in Eu by done. by apply app_inj_tail in Eu as [_ ->]. }
  assert (Hone : U16_LENGTH x = 1) by (unfold U16_LENGTH, uint32; rewrite Z.mod_small by (unfold unit16 in Hx; lia); destruct (Z.leb_spec x 0xffff); [done|unfold unit16 in Hx; lia]).
  destruct u as [|l u _] using rev_ind.
  - rewrite Hlast by done. change (2 <=? zlen ([] ++ [x])) with false. rewrite andb_false_r. cbn [mbind option_bind].
    rewrite Hone. by apply signed_spec.
  - apply Forall_app in Hu as [Hu Hl%Forall_cons]. destruct Hl as [Hl _]. rewrite !zlen_snoc. pose proof (zlen_nonneg u).
    destruct (Z.leb_spec 2 (zlen u + 1 + 1)); [|lia]. rewrite andb_true_r.
    replace (zlen u + 1 + 1 - 2) with (zlen u) by lia. rewrite <- app_assoc. cbn [app]. rewrite zget_middle.
    destruct (is_pair l x) eqn:Ep.
    + pose proof Ep as [El Et]%andb_true_iff. rewrite Et. cbn [mbind option_bind]. rewrite El.
      rewrite <- app_assoc in Eu. cbn [app] in Eu. rewrite code_points_snoc_pair in Eu by done. apply app_inj_tail in Eu as [_ <-].
      destruct (encode_supplementary l x Hl Hx Ep) as [Hr He]. rewrite <- encode_zlen by (unfold code_point; lia). rewrite He.
      apply signed_spec; [done|]. unfold code_point. lia.
    + rewrite Hlast. 2:{ intros l' E'. rewrite last_snoc in E'. by simplify_eq. }
      rewrite Hone. unfold is_pair in Ep. destruct (U16_IS_TRAIL x); cbn [mbind option_bind]; [|by apply signed_spec].
      destruct (U16_IS_LEAD l); [done|]. by apply signed_spec.
Qed.
End Plain.
End StringSpanText.
