(* ===== verification/StringSpanUtf16.v ===== *)
(** * Spans of UnicodeSetStringSpan over UTF-16

    [span], [spanBack], [spanNot] and [spanNotBack] of an object whose meta data are right for
    its strings: the loops of StringSpanFacts.v instantiated with the code points of the text,
    in order for the forward functions and reversed for the backward ones. *)

From S2P Require Import Prelude Vector Utf16 Utf8 UString StringConv InversionList BMPSet BMPSetUtf8 UnicodeSet UnicodeSetFacts UnicodeSetAlgebra UnicodeSetSpan StringSpanLoop UnicodeSetStringSpan StringSpanFacts StringSpanText.
Import InvList.

Module StringSpanUtf16.
Import Utf16 UnicodeSetFacts UnicodeSetAlgebra StringSpanLoop UnicodeSetStringSpan StringSpanFacts StringSpanText.
Notation uvec := (UVector.t UnicodeString.t).

(** ** The strings of a set *)

(** A string of a set: 16-bit units, more than one code point. *)
Definition good_text (t : list Z) : Prop := Forall unit16 t /\ (2 <= length (code_points t))%nat.

Lemma multi_good str : multi str -> good_text (UnicodeString.units str).
Proof.
  intros (u & -> & Hu & Hor). split; [done|]. cbn. destruct Hor as [Hl|(x & y & -> & Hp)].
  - destruct (code_points u) as [|c [|c2 l]] eqn:E; cbn; [..|lia]; exfalso; pose proof (total16_text u Hu) as Ht; rewrite E in Ht.
    + cbn in Ht. lia.
    + rewrite total_cons in Ht. change (total16 []) with 0 in Ht. unfold U16_LENGTH in Ht. destruct (_ <=? _); lia.
  - cbn [code_points]. rewrite Hp. cbn. lia.
Qed.

Lemma texts_zlen v : strings_wf v -> zlen (texts v) = UVector.count v.
Proof. intros Hv. unfold texts, zlen. rewrite length_map. apply (UVector.contents_zlen v (sw_wf v Hv)). Qed.

Lemma texts_good v : strings_wf v -> Forall good_text (texts v).
Proof.
  intros Hv. unfold texts. apply Forall_map. eapply Forall_impl; [exact (sw_multi v Hv)|].
  intros e (str & -> & Hm). by apply multi_good.
Qed.

Lemma string_at_text v i t : strings_wf v -> zget (texts v) i = Some t -> string_at v i = Some t.
Proof.
  intros Hv Hi. pose proof (zget_Some_range _ _ _ Hi) as Hr. rewrite texts_zlen in Hr by done.
  destruct (elementAt_string v i Hv Hr) as (str & Hl & _ & E). unfold string_at. rewrite E. cbn [mbind option_bind UnicodeSet.the_string].
  apply zget_Some_lookup in Hi as [_ Hi]. unfold texts in Hi. rewrite list_lookup_fmap, Hl in Hi. done.
Qed.

Lemma good_nonempty t : good_text t -> t <> [].
Proof. intros [_ Hl] ->. cbn in Hl. lia. Qed.

(** ** The meta data *)

Section Object.
Context {HP : Heap} {OS : ObjectSizes}.
#[local] Existing Instance no_span.

(** The span length byte of a string: [exact] but for a NOT_CONTAINED object. *)
Definition byte_of {A} (sz : A -> Z) (inset : A -> bool) (exact : bool) (cs : list A) : Z :=
  if forallb inset cs then ALL_CP_CONTAINED else if exact then makeSpanLengthByte (span_of sz inset cs) else 0.

Lemma forallb_Forall {A} (f : A -> bool) l : forallb f l = true <-> Forall (fun a => f a = true) l.
Proof.
  rewrite <- Is_true_true, forallb_True. apply Forall_iff. intros a. by rewrite Is_true_true.
Qed.

Lemma makeSpanLengthByte_range n : 0 <= n -> 0 <= makeSpanLengthByte n <= 0xfe.
Proof. unfold makeSpanLengthByte. zcase; lia. Qed.

Lemma byte_of_all {A} (sz : A -> Z) (inset : A -> bool) (exact : bool) cs :
  (forall a, 1 <= sz a <= 6) ->
  byte_of sz inset exact cs = ALL_CP_CONTAINED <-> ~ ~ Forall (fun a => inset a = true) cs.
Proof.
  intros Hsz. unfold byte_of. destruct (forallb inset cs) eqn:E.
  - apply forallb_Forall in E. tauto.
  - assert (Hn : ~ Forall (fun a => inset a = true) cs) by (rewrite <- forallb_Forall, E; done).
    split; [|done]. pose proof (span_of_le sz inset Hsz cs). pose proof (makeSpanLengthByte_range (span_of sz inset cs)).
    unfold ALL_CP_CONTAINED in *. destruct exact; lia.
Qed.

(** The strings as the loops see them. *)
Definition entries (byte : list Z -> Z) (ts : list (list Z)) : list (option (Z * list Z)) :=
  map (fun t => Some (byte t, t)) ts.

Lemma entries_elem byte ts b t : Some (b, t) ∈ entries byte ts <-> t ∈ ts /\ b = byte t.
Proof.
  unfold entries. rewrite list_elem_of_fmap. split.
  - intros (t' & [= -> ->] & Ht). done.
  - intros [Ht ->]. by exists t.
Qed.

Lemma entries_listed byte ts t : listed (entries byte ts) t <-> t ∈ ts.
Proof. unfold listed. setoid_rewrite entries_elem. naive_solver. Qed.

(** Characters of a string in reading direction. *)
Definition ahead (t : list Z) : list Z := code_points t.
Definition behind (t : list Z) : list Z := rev (code_points t).

Lemma Forall_rev_iff {A} (P : A -> Prop) l : Forall P (rev l) <-> Forall P l.
Proof. rewrite !Forall_forall. apply forall_proper. intros x. by rewrite !list_elem_of_In, <- in_rev. Qed.

Lemma rev_elem {A} (l : list A) x : x ∈ rev l <-> x ∈ l.
Proof. by rewrite !list_elem_of_In, <- in_rev. Qed.

(** The span length bytes of UTF-16 strings read by [cps]. *)
Definition byte16 (set : set0) (exact : bool) (cps : list Z -> list Z) (t : list Z) : Z :=
  byte_of U16_LENGTH (has set) exact (cps t).

(** A byte that tells the strings that matter. *)
Definition tells (set : set0) (cps : list Z -> list Z) (byte : list Z -> Z) : Prop :=
  forall t, byte t = ALL_CP_CONTAINED <-> ~ relevant (has set) cps t.

Lemma ahead_tells set exact : tells set ahead (byte16 set exact ahead).
Proof. intros t. apply byte_of_all, U16_LENGTH_sizes. Qed.

Lemma behind_tells set exact : tells set behind (byte16 set exact behind).
Proof. intros t. apply byte_of_all, U16_LENGTH_sizes. Qed.

Lemma ahead_tells_behind set exact : tells set behind (byte16 set exact ahead).
Proof.
  intros t. rewrite (ahead_tells set exact t). unfold relevant, behind, ahead. by rewrite Forall_rev_iff.
Qed.

(** An object with these span lengths for UTF-16. *)
Record carries16 (sp : t) (v : uvec) (variant : Z) (byte : list Z -> Z) : Prop := {
  ca_plain : plain (spanSet sp);
  ca_bytes : forall i t, zget (texts v) i = Some t -> span_byte sp (UVector.count v) variant i = Some (byte t);
  ca_max : forall t, t ∈ texts v -> zlen t <= maxLength16 sp;
  ca_max_int : maxLength16 sp <= INT32_MAX
}.

(** [pSpanNotSet] has the code points and the first characters of the relevant strings. *)
Record carries_not (sp : t) (v : uvec) (cps : list Z -> list Z) (not : set0) : Prop := {
  cn_set : not_span sp = Some not;
  cn_plain : plain not;
  cn_cps : forall c, code_point c -> has (spanSet sp) c = true -> has not c = true;
  cn_strings : forall t c l, t ∈ texts v -> relevant (has (spanSet sp)) cps t -> cps t = c :: l -> has not c = true
}.

Lemma entry16_text sp v variant byte i e :
  strings_wf v -> carries16 sp v variant byte -> zget (entries byte (texts v)) i = Some e -> entry16 sp v variant i = Some e.
Proof.
  intros Hv Hc Hi. apply zget_Some_lookup in Hi as [H0 Hi]. unfold entries in Hi. rewrite list_lookup_fmap in Hi.
  destruct (texts v !! Z.to_nat i) as [t|] eqn:Et; [|done]. injection Hi as <-.
  assert (Ht : zget (texts v) i = Some t) by (by apply zget_Some_lookup).
  unfold entry16. by rewrite (ca_bytes _ _ _ _ Hc i t Ht), (string_at_text v i t Hv Ht).
Qed.

(** The part of [loop_ok] that does not depend on the direction. *)
Lemma loop_ok16 sp v variant cps byte cs one :
  strings_wf v -> carries16 sp v variant byte -> tells (spanSet sp) cps byte ->
  (forall t, good_text t -> total16 (cps t) = zlen t) ->
  (forall p c r, cs = p ++ c :: r -> one (total16 (c :: r)) = Some (if has (spanSet sp) c then U16_LENGTH c else - U16_LENGTH c)) ->
  loop_ok U16_LENGTH (has (spanSet sp)) cps cs (entries byte (texts v)) zlen
    (entry16 sp v variant) one (UVector.count v).
Proof.
  intros Hv Hc Htell Hlen Hone. split; auto.
  - unfold entries, zlen. rewrite length_map. by apply texts_zlen.
  - intros i e. by apply entry16_text.
  - intros b t [Ht _]%entries_elem. pose proof (proj1 (Forall_forall _ _) (texts_good v Hv) t Ht) as Hg.
    rewrite Hlen by done. split; [done|]. intros E. apply (good_nonempty t Hg). apply zlen_0_inv. rewrite <- Hlen, E by done. done.
  - by intros b t [Ht ->]%entries_elem.
Qed.

(** ** What the loops are given *)

Lemma good_lookup v t : strings_wf v -> t ∈ texts v -> good_text t.
Proof. intros Hv Ht. exact (proj1 (Forall_forall _ _) (texts_good v Hv) t Ht). Qed.

Lemma ahead_total t : good_text t -> total16 (ahead t) = zlen t.
Proof. intros [Ht _]. by apply total16_text. Qed.

Lemma behind_total t : good_text t -> total16 (behind t) = zlen t.
Proof. intros Ht. unfold behind. rewrite total_rev. by apply ahead_total. Qed.

(** The parts of [span_ok] that do not depend on the direction. *)
Lemma span_ok16 (set : set0) cps cs v long matches run :
  strings_wf v ->
  (forall t, good_text t -> exists l a, cps t = l ++ [a] /\ long t = Some (total16 l)) ->
  (forall t rest overlap, good_text t -> 0 <= overlap <= total16 (cps t) -> total16 (cps t) - overlap <= rest <= total16 cs - overlap ->
    exists b, matches rest overlap (total16 (cps t) - overlap) t = Some b /\
      (b = true <-> occurs U16_LENGTH cps cs t (total16 cs - rest - overlap))) ->
  (forall p r, cs = p ++ r -> r <> [] -> run (total16 r) = Some (span_of U16_LENGTH (has set) r)) ->
  span_ok U16_LENGTH (has set) cps cs (entries (byte16 set true cps) (texts v)) long matches run.
Proof.
  intros Hv Hlong Hmatch Hrun. split; auto.
  - intros b t [Ht ->]%entries_elem Hrel. unfold byte16, byte_of. destruct (forallb (has set) (cps t)) eqn:E; [|done].
    by apply forallb_Forall in E.
  - intros t [Ht%entries_listed Hrel]. destruct (Hlong t (good_lookup v t Hv Ht)) as (l & a & E & ->).
    exists (total16 l). split; [done|]. unfold relevant in Hrel. rewrite E in *. split; [apply span_of_snoc; auto using U16_LENGTH_sizes|].
    rewrite total_app, total_cons. change (total16 []) with 0. pose proof (U16_LENGTH_sizes a). lia.
  - intros t rest overlap Ht%entries_listed. apply Hmatch. by eapply good_lookup.
Qed.

Lemma ahead_loop sp v byte s :
  strings_wf v -> carries16 sp v 0 byte -> tells (spanSet sp) ahead byte -> Forall unit16 s ->
  loop_ok U16_LENGTH (has (spanSet sp)) ahead (code_points s) (entries byte (texts v)) zlen
    (entry16 sp v 0) (fun rest => spanOne (spanSet sp) (tail s rest) rest) (UVector.count v).
Proof.
  intros Hv Hc Htell Hs. apply loop_ok16; auto using ahead_total. intros p c r E.
  by apply (spanOne_tail _ s p); [apply Hc|..].
Qed.

Lemma behind_loop sp v variant byte s :
  strings_wf v -> carries16 sp v variant byte -> tells (spanSet sp) behind byte -> Forall unit16 s ->
  loop_ok U16_LENGTH (has (spanSet sp)) behind (rev (code_points s)) (entries byte (texts v)) zlen
    (entry16 sp v variant) (fun rest => spanOneBack (spanSet sp) s rest) (UVector.count v).
Proof.
  intros Hv Hc Htell Hs. apply loop_ok16; auto using behind_total. intros p c r E.
  by apply (spanOneBack_head _ s p); [apply Hc|..].
Qed.

(** An occurrence seen from either end. *)
Lemma occurs_behind s t d :
  Forall unit16 s -> good_text t ->
  occurs U16_LENGTH behind (rev (code_points s)) t d <->
  exists p r, code_points s = p ++ code_points t ++ r /\ total16 p = zlen s - d - zlen t.
Proof.
  intros Hs Ht. pose proof (total16_text s Hs) as Hz. pose proof (ahead_total t Ht) as Hzt. unfold ahead in Hzt. split.
  - intros (p & r & E & Hp). apply (f_equal (@rev Z)) in E. unfold behind in E.
    rewrite !rev_app_distr, !rev_involutive, <- app_assoc in E. exists (rev r), (rev p). split; [done|].
    rewrite E, !total_app, !total_rev in Hz. rewrite total_rev. lia.
  - intros (p & r & E & Hp). exists (rev r), (rev p). unfold behind. rewrite E, !rev_app_distr, <- app_assoc. split; [done|].
    rewrite E, !total_app in Hz. rewrite total_rev. lia.
Qed.

Lemma ahead_span sp v s :
  strings_wf v -> plain (spanSet sp) -> Forall unit16 s ->
  span_ok U16_LENGTH (has (spanSet sp)) ahead (code_points s) (entries (byte16 (spanSet sp) true ahead) (texts v))
    all_but_last16 (fun rest overlap _ t => matches16CPB s (zlen s - rest - overlap) (zlen s) t (zlen t))
    (fun rest => UnicodeSet.span (spanSet sp) (tail s rest) rest UnicodeSet.USET_SPAN_CONTAINED).
Proof.
  intros Hv Hp Hs. apply span_ok16; auto.
  - intros t Ht. apply all_but_last16_spec; [apply Ht|by apply good_nonempty].
  - intros t rest overlap Ht. rewrite ahead_total, total16_text by done. intros Ho Hr.
    apply matches16CPB_spec; auto; [by apply good_nonempty|apply Ht|lia..].
  - intros p r E Hr. rewrite (span_tail _ s p r) by done. f_equal. apply span_of_has.
Qed.

Lemma behind_span sp v s :
  strings_wf v -> plain (spanSet sp) -> Forall unit16 s ->
  span_ok U16_LENGTH (has (spanSet sp)) behind (rev (code_points s)) (entries (byte16 (spanSet sp) true behind) (texts v))
    all_but_first16 (fun rest _ dec t => matches16CPB s (rest - dec) (zlen s) t (zlen t))
    (fun rest => pos ← UnicodeSet.spanBack (spanSet sp) s rest UnicodeSet.USET_SPAN_CONTAINED; Some (rest - pos)).
Proof.
  intros Hv Hp Hs. apply span_ok16; auto.
  - intros t Ht. apply all_but_first16_spec; [apply Ht|by apply good_nonempty].
  - intros t rest overlap Ht. rewrite behind_total, total_rev, total16_text by done. intros Ho Hr.
    destruct (matches16CPB_spec s t (rest - (zlen t - overlap))) as (b & -> & Hb); auto; [by apply good_nonempty|apply Ht|lia..|].
    exists b. split; [done|]. rewrite Hb, occurs_behind by done. by replace (zlen s - (zlen s - rest - overlap) - zlen t) with (rest - (zlen t - overlap)) by lia.
  - intros p r E Hr. rewrite (spanBack_head _ s p r) by done. cbn [mbind option_bind]. f_equal.
    change (negb (UnicodeSet.USET_SPAN_CONTAINED =? UnicodeSet.USET_SPAN_NOT_CONTAINED)) with true. rewrite span_of_has. lia.
Qed.

(** The run of the span-not set stops before its first character. *)
Lemma not_run (not : set0) cs :
  exists m r, cs = m ++ r /\ span_of U16_LENGTH (fun c => Bool.eqb (has not c) false) cs = total16 m /\
    Forall (fun c => has not c = false) m.
Proof.
  destruct (span_of_split U16_LENGTH (fun c => Bool.eqb (has not c) false) cs) as (m & r & E & Hm & Hf & _).
  exists m, r. split_and!; auto. eapply Forall_impl; [exact Hf|]. by intros c Hc%eqb_prop.
Qed.

(** A string at the position, as an occurrence. *)
Lemma occurs_here (cps : list Z -> list Z) cs p r t :
  cs = p ++ r -> occurs U16_LENGTH cps cs t (total16 p) <-> exists r', r = cps t ++ r'.
Proof.
  intros E. split.
  - intros (p' & r' & E' & Hp). rewrite E in E'. symmetry in Hp.
    destruct (split_eq U16_LENGTH U16_LENGTH_sizes p r p' _ E' Hp) as [_ ->]. eauto.
  - intros (r' & ->). by exists p, r'.
Qed.

Lemma ahead_not sp v byte s not :
  strings_wf v -> carries_not sp v ahead not -> Forall unit16 s ->
  not_ok U16_LENGTH (has (spanSet sp)) ahead (code_points s) (entries byte (texts v))
    (fun rest => UnicodeSet.span not (tail s rest) rest UnicodeSet.USET_SPAN_NOT_CONTAINED)
    (fun rest t => matches16CPB s (zlen s - rest) (zlen s) t (zlen t)) (has not).
Proof.
  intros Hv Hc Hs. pose proof (cn_plain _ _ _ _ Hc) as Hpl. pose proof (code_points_valid s Hs) as Hval. split.
  - intros c Hin. apply (cn_cps _ _ _ _ Hc). rewrite Forall_forall in Hval. apply Hval. by rewrite ?rev_elem in Hin.
  - intros t a l [Ht%entries_listed Hrel]. by apply Hc.
  - intros p r E Hr. rewrite (span_tail not s p r) by done. destruct (not_run not r) as (m & r' & Er & Hm & Hf).
    exists m, r'. split_and!; auto. by rewrite <- Hm.
  - intros p r t E Ht%entries_listed Hl. pose proof (good_lookup v t Hv Ht) as Hg. rewrite ahead_total in Hl by done.
    pose proof (f_equal total16 E) as Et. rewrite total_app, total16_text in Et by done.
    pose proof (text_total_nonneg U16_LENGTH U16_LENGTH_sizes p).
    destruct (matches16CPB_spec s t (zlen s - total16 r)) as (b & -> & Hb); auto; [by apply good_nonempty|apply Hg|lia..|].
    exists b. split; [done|]. rewrite Hb, <- (occurs_here ahead _ p r t E). by replace (zlen s - total16 r) with (total16 p) by lia.
Qed.

Lemma behind_not sp v byte s not :
  strings_wf v -> carries_not sp v behind not -> Forall unit16 s ->
  not_ok U16_LENGTH (has (spanSet sp)) behind (rev (code_points s)) (entries byte (texts v))
    (fun rest => pos ← UnicodeSet.spanBack not s rest UnicodeSet.USET_SPAN_NOT_CONTAINED; Some (rest - pos))
    (fun rest t => matches16CPB s (rest - zlen t) (zlen s) t (zlen t)) (has not).
Proof.
  intros Hv Hc Hs. pose proof (cn_plain _ _ _ _ Hc) as Hpl. pose proof (code_points_valid s Hs) as Hval. split.
  - intros c Hin. apply (cn_cps _ _ _ _ Hc). rewrite Forall_forall in Hval. apply Hval. by rewrite ?rev_elem in Hin.
  - intros t a l [Ht%entries_listed Hrel]. by apply Hc.
  - intros p r E Hr. rewrite (spanBack_head not s p r) by done. destruct (not_run not r) as (m & r' & Er & Hm & Hf).
    exists m, r'. split_and!; auto. cbn [mbind option_bind]. f_equal. rewrite <- Hm.
    change (negb (UnicodeSet.USET_SPAN_NOT_CONTAINED =? UnicodeSet.USET_SPAN_NOT_CONTAINED)) with false. lia.
  - intros p r t E Ht%entries_listed Hl. pose proof (good_lookup v t Hv Ht) as Hg. rewrite behind_total in Hl by done.
    pose proof (f_equal total16 E) as Et. rewrite total_app, total_rev, total16_text in Et by done.
    pose proof (text_total_nonneg U16_LENGTH U16_LENGTH_sizes p).
    destruct (matches16CPB_spec s t (total16 r - zlen t)) as (b & -> & Hb); auto; [by apply good_nonempty|apply Hg|lia..|].
    exists b. split; [done|]. rewrite Hb, <- (occurs_here behind _ p r t E), occurs_behind by done.
    by replace (zlen s - total16 p - zlen t) with (total16 r - zlen t) by lia.
Qed.

(** ** The functions *)

(** Whatever the strings, the entries stand for them. *)
Lemma same_strings byte v t : listed (entries byte (texts v)) t <-> t ∈ texts v.
Proof. apply entries_listed. Qed.

Lemma text_total s : Forall unit16 s -> zlen s = total16 (code_points s) /\ zlen s = total16 (rev (code_points s)).
Proof. intros Hs. by rewrite total_rev, total16_text. Qed.

Lemma fuel_enough s : 2 * zlen s + 1 < Z.of_nat (fuel_for s).
Proof. unfold fuel_for, zlen. lia. Qed.

Lemma offsets_ready sp v cps variant byte (contained : bool) :
  strings_wf v -> carries16 sp v variant byte -> (forall t, good_text t -> total16 (cps t) = zlen t) ->
  (let o := initial_offsets contained (maxLength16 sp) in
   if contained then o_rep o ∅ /\ 6 <= o_capacity o /\ forall t, listed (entries byte (texts v)) t -> total16 (cps t) <= o_capacity o
   else isEmpty o = true) \/ refused.
Proof.
  intros Hv Hc Hlen. destruct contained; [|by left].
  destruct (setMaxLength_rep (maxLength16 sp) (ca_max_int _ _ _ _ Hc)) as [(Ho & H16 & Hm)|]; [left|by right].
  split_and!; [done|cbn [initial_offsets]; lia|]. intros t Ht%entries_listed. rewrite Hlen by (by eapply good_lookup).
  pose proof (ca_max _ _ _ _ Hc t Ht). cbn [initial_offsets]. lia.
Qed.

(** The result over the strings of the vector. *)
Lemma result_same (set : set0) cps cs byte v (contained : bool) rest :
  (if contained then furthest U16_LENGTH (has set) cps cs (listed (entries byte (texts v))) rest
   else stuck U16_LENGTH (has set) cps cs (listed (entries byte (texts v))) rest) ->
  if contained then furthest U16_LENGTH (has set) cps cs (.∈ texts v) rest else stuck U16_LENGTH (has set) cps cs (.∈ texts v) rest.
Proof. destruct contained; [apply furthest_same|apply stuck_same]; apply same_strings. Qed.

Lemma span16_spec sp v s spanCondition :
  strings_wf v -> carries16 sp v 0 (byte16 (spanSet sp) true ahead) -> Forall unit16 s -> s <> [] ->
  spanCondition <> UnicodeSet.USET_SPAN_NOT_CONTAINED ->
  (exists rest, span sp v s spanCondition = Some (zlen s - rest) /\
    if spanCondition =? UnicodeSet.USET_SPAN_CONTAINED
    then furthest U16_LENGTH (has (spanSet sp)) ahead (code_points s) (.∈ texts v) rest
    else stuck U16_LENGTH (has (spanSet sp)) ahead (code_points s) (.∈ texts v) rest) \/ refused.
Proof.
  intros Hv Hc Hs Hne Hcond. pose proof (ahead_loop sp v _ s Hv Hc (ahead_tells _ _) Hs) as Hok.
  pose proof (ahead_span sp v s Hv (ca_plain _ _ _ _ Hc) Hs) as Hsok. destruct (text_total s Hs) as [Hz _]. pose proof (fuel_enough s).
  destruct (offsets_ready sp v ahead 0 _ (spanCondition =? UnicodeSet.USET_SPAN_CONTAINED) Hv Hc ahead_total) as [Ho|]; [left|by right].
  assert (Hcs : code_points s <> []) by (intros E; rewrite E in Hz; apply Hne, zlen_0_inv; done).
  destruct (span_parts _ _ _ U16_LENGTH_sizes _ _ _ _ _ _ _ _ _ Hok Hsok _ (fuel_for s) _ Hcs Ho) as [Hrun Hres]; [lia|].
  rewrite <- Hz in Hrun, Hres. unfold span. destruct (Z.eqb_spec spanCondition UnicodeSet.USET_SPAN_NOT_CONTAINED); [done|].
  rewrite Hrun. cbn [mbind option_bind]. destruct (_ =? zlen s); [exists 0; rewrite Z.sub_0_r; split; [done|by eapply result_same]|].
  destruct Hres as (rest & -> & Hr). exists rest. split; [done|by eapply result_same].
Qed.

Lemma spanBack16_spec sp v s spanCondition :
  strings_wf v -> carries16 sp v 1 (byte16 (spanSet sp) true behind) -> Forall unit16 s -> s <> [] ->
  spanCondition <> UnicodeSet.USET_SPAN_NOT_CONTAINED ->
  (exists rest, spanBack sp v s spanCondition = Some rest /\
    if spanCondition =? UnicodeSet.USET_SPAN_CONTAINED
    then furthest U16_LENGTH (has (spanSet sp)) behind (rev (code_points s)) (.∈ texts v) rest
    else stuck U16_LENGTH (has (spanSet sp)) behind (rev (code_points s)) (.∈ texts v) rest) \/ refused.
Proof.
  intros Hv Hc Hs Hne Hcond. pose proof (behind_loop sp v 1 _ s Hv Hc (behind_tells _ _) Hs) as Hok.
  pose proof (behind_span sp v s Hv (ca_plain _ _ _ _ Hc) Hs) as Hsok. destruct (text_total s Hs) as [_ Hz]. pose proof (fuel_enough s).
  destruct (offsets_ready sp v behind 1 _ (spanCondition =? UnicodeSet.USET_SPAN_CONTAINED) Hv Hc behind_total) as [Ho|]; [left|by right].
  assert (Hcs : rev (code_points s) <> []) by (intros E; rewrite E in Hz; apply Hne, zlen_0_inv; done).
  destruct (span_parts _ _ _ U16_LENGTH_sizes _ _ _ _ _ _ _ _ _ Hok Hsok _ (fuel_for s) _ Hcs Ho) as [Hrun Hres]; [lia|].
  rewrite <- Hz in Hrun, Hres. unfold spanBack. destruct (Z.eqb_spec spanCondition UnicodeSet.USET_SPAN_NOT_CONTAINED); [done|].
  rewrite Hrun. cbn [mbind option_bind]. destruct (_ =? zlen s); [exists 0; split; [done|by eapply result_same]|].
  destruct Hres as (rest & -> & Hr). exists rest. split; [done|by eapply result_same].
Qed.

Lemma spanNot16_spec sp v s not byte :
  strings_wf v -> carries16 sp v 0 byte -> tells (spanSet sp) ahead byte -> carries_not sp v ahead not -> Forall unit16 s -> s <> [] ->
  exists rest, spanNot sp v s = Some (zlen s - rest) /\
    first_start U16_LENGTH (has (spanSet sp)) ahead (code_points s) (.∈ texts v) rest.
Proof.
  intros Hv Hc Htell Hcn Hs Hne. pose proof (ahead_loop sp v byte s Hv Hc Htell Hs) as Hok.
  pose proof (ahead_not sp v byte s not Hv Hcn Hs) as Hnok. destruct (text_total s Hs) as [Hz _].
  assert (Hcs : code_points s <> []) by (intros E; rewrite E in Hz; apply Hne, zlen_0_inv; done).
  pose proof (fuel_enough s). pose proof (zlen_nonneg s).
  destruct (span_not _ _ _ U16_LENGTH_sizes _ _ _ _ _ _ Hok _ _ _ Hnok (fuel_for s) Hcs) as (rest & Hr & Hf); [lia|].
  rewrite <- Hz in Hr. unfold spanNot. rewrite (cn_set _ _ _ _ Hcn). cbn [mbind option_bind]. rewrite Hr. exists rest.
  split; [done|]. eapply first_start_same; [|exact Hf]. apply same_strings.
Qed.

Lemma spanNotBack16_spec sp v s not byte :
  strings_wf v -> carries16 sp v 0 byte -> tells (spanSet sp) behind byte -> carries_not sp v behind not -> Forall unit16 s -> s <> [] ->
  exists rest, spanNotBack sp v s = Some rest /\
    first_start U16_LENGTH (has (spanSet sp)) behind (rev (code_points s)) (.∈ texts v) rest.
Proof.
  intros Hv Hc Htell Hcn Hs Hne. pose proof (behind_loop sp v 0 byte s Hv Hc Htell Hs) as Hok.
  pose proof (behind_not sp v byte s not Hv Hcn Hs) as Hnok. destruct (text_total s Hs) as [_ Hz].
  assert (Hcs : rev (code_points s) <> []) by (intros E; rewrite E in Hz; apply Hne, zlen_0_inv; done).
  pose proof (fuel_enough s). pose proof (zlen_nonneg s).
  destruct (span_not _ _ _ U16_LENGTH_sizes _ _ _ _ _ _ Hok _ _ _ Hnok (fuel_for s) Hcs) as (rest & Hr & Hf); [lia|].
  rewrite <- Hz in Hr. unfold spanNotBack. rewrite (cn_set _ _ _ _ Hcn). cbn [mbind option_bind]. rewrite Hr. exists rest.
  split; [done|]. eapply first_start_same; [|exact Hf]. apply same_strings.
Qed.
End Object.
End StringSpanUtf16.
