(* ===== verification/StringSpanBuild.v ===== *)
(** * The constructor of UnicodeSetStringSpan

    The meta data that the constructor computes for the strings of a set: whether any of them
    matters, the largest lengths, the span length bytes of each variant, the UTF-8 forms, and the
    set that spanNot() stops at.  Unless an allocation is refused, the object carries what the
    loops rely on. *)

From S2P Require Import Prelude Vector Utf16 Utf8 UString StringConv StringConvFacts InversionList BMPSet BMPSetUtf8 UnicodeSet UnicodeSetFacts UnicodeSetAlgebra UnicodeSetFreeze UnicodeSetConstruct UnicodeSetSpan StringSpanLoop UnicodeSetStringSpan StringSpanFacts StringSpanText StringSpanUtf16.
Import InvList.

Module StringSpanBuild.
Import Utf16 UnicodeSetFacts UnicodeSetAlgebra StringSpanLoop UnicodeSetStringSpan StringSpanFacts StringSpanText StringSpanUtf16.
Notation uvec := (UVector.t UnicodeString.t).

(** ** UTF-8 forms *)

(** The UTF-8 form of a string, empty if it has an unpaired surrogate. *)
Definition form8 (t : list Z) : list Z :=
  match mapM (StringConvFacts.char16 Utf8.U_SENTINEL) (code_points t) with
  | Some cs => StringConvFacts.bytes cs
  | None => []
  end.

Definition small_text (t : list Z) : Prop := 4 * zlen t <= INT32_MAX.

Lemma getUTF8Length_spec t : Forall unit16 t -> small_text t -> getUTF8Length t (zlen t) = Some (zlen (form8 t)).
Proof.
  intros Ht Hs. unfold getUTF8Length, StringConv.u_strToUTF8, form8.
  pose proof (StringConvFacts.toUTF8_spec t [] None 0 Utf8.U_SENTINEL (zlen t) Ht) as Hr.
  specialize (Hr ltac:(done) ltac:(by left) Hs ltac:(by left)). rewrite app_nil_r in Hr. unfold StringConvFacts.to_result in Hr.
  destruct (mapM _ (code_points t)) as [cs|].
  - rewrite Hr. cbn. f_equal. unfold StringConvFacts.length_code. pose proof (zlen_nonneg (StringConvFacts.bytes cs)).
    destruct (Z.ltb_spec (zlen (StringConvFacts.bytes cs)) 0); [lia|]. by destruct (zlen (StringConvFacts.bytes cs) =? 0).
  - destruct Hr as (d & _ & ->). done.
Qed.

Lemma appendUTF8_spec t d :
  Forall unit16 t -> small_text t -> zlen (form8 t) <= zlen d ->
  exists rest, appendUTF8 t (zlen t) d (zlen d) = Some (form8 t ++ rest, zlen (form8 t)) /\ zlen (form8 t ++ rest) = zlen d.
Proof.
  intros Ht Hs Hd. unfold appendUTF8, StringConv.u_strToUTF8, form8 in *. pose proof (zlen_nonneg d).
  pose proof (StringConvFacts.toUTF8_spec t [] (Some d) (zlen d) Utf8.U_SENTINEL (zlen t) Ht) as Hr.
  cbn [from_option] in Hr. specialize (Hr ltac:(cbn; lia) ltac:(by left) Hs ltac:(by left)). rewrite app_nil_r in Hr.
  unfold StringConvFacts.to_result in Hr. destruct (mapM _ (code_points t)) as [cs|].
  - rewrite Hr. cbn [mbind option_bind StringConv.r_dest StringConv.r_length StringConv.r_code StringConvFacts.with_cells from_option id].
    rewrite (StringConvFacts.length_code_success _ _ Hd). unfold StringConvFacts.filled8.
    destruct (Z.ltb_spec (zlen (StringConvFacts.bytes cs)) (zlen d)) as [Hlt|Hge].
    + eexists. split; [done|]. autorewrite with zlen. unfold zlen in *. rewrite length_drop. lia.
    + rewrite StringConvFacts.fit_all by done. eexists. split; [done|]. autorewrite with zlen. unfold zlen in *. rewrite length_drop. lia.
  - destruct Hr as (d' & Hz & ->). exists d'. done.
Qed.

Lemma form8_cases t :
  Forall unit16 t ->
  Forall Utf8.scalar (code_points t) /\ form8 t = StringConvFacts.bytes (code_points t) \/
  ~ Forall Utf8.scalar (code_points t) /\ form8 t = [].
Proof.
  intros Ht. unfold form8. pose proof (code_points_valid t Ht) as Hc. revert Hc. generalize (code_points t). intros cs Hc.
  destruct (decide (Forall Utf8.scalar cs)) as [Hs|Hn]; [left|right]; (split; [done|]).
  - by destruct (StringConvFacts.char16_valid cs Hs) as [-> _].
  - destruct (mapM _ cs) as [cs'|] eqn:E; [|done]. destruct Hn. apply mapM_Some_1 in E.
    assert (Hb : Forall2 (fun c _ => Utf8.scalar c) cs cs').
    { revert Hc. induction E as [|c c' cs cs' Ec _ IH]; [constructor|]. intros [Hc Hcs]%Forall_cons. constructor; [|auto].
      split; [done|]. unfold StringConvFacts.char16, StringConvFacts.surrogate in Ec. cbn in Ec. destruct (_ && _) eqn:Es; [done|lia]. }
    clear -Hb. induction Hb; auto.
Qed.

Lemma form8_size t : Forall unit16 t -> zlen (form8 t) <= 4 * zlen t.
Proof.
  intros Ht. pose proof (zlen_nonneg t). destruct (form8_cases t Ht) as [[Hs ->]|[_ ->]]; [|change (zlen (@nil Z)) with 0; lia].
  pose proof (StringConvFacts.form_sizes _ Hs) as Hf. unfold StringConvFacts.units in Hf. rewrite encode_code_points in Hf by done. lia.
Qed.

Definition sum_of (f : list Z -> Z) (ts : list (list Z)) : Z := foldr (fun t n => f t + n) 0 ts.

Lemma sum_cons f t ts : sum_of f (t :: ts) = f t + sum_of f ts.
Proof. done. Qed.

Lemma sum_le f g ts : Forall (fun t => 0 <= f t <= g t) ts -> 0 <= sum_of f ts <= sum_of g ts.
Proof. induction 1 as [|t ts Ht _ IH]; cbn; [done|]. fold (sum_of f ts) (sum_of g ts). lia. Qed.

(** ** The first loop *)

Section Build.
Context {HP : Heap} {OS : ObjectSizes}.
#[local] Existing Instance no_span.
Implicit Types set : set0.

(** Whether a string is relevant: not all of its characters are in the set. *)
Definition matter set (t : list Z) : bool := negb (forallb (has set) (code_points t)).

Lemma matter_relevant set t : matter set t = true <-> relevant (has set) ahead t.
Proof. unfold matter, relevant. rewrite <- forallb_Forall. unfold ahead. by destruct (forallb _ _). Qed.

Lemma text_span set t :
  plain set -> good_text t ->
  UnicodeSet.span set t (zlen t) UnicodeSet.USET_SPAN_CONTAINED = Some (span_of U16_LENGTH (has set) (code_points t)) /\
  UnicodeSet.spanBack set t (zlen t) UnicodeSet.USET_SPAN_CONTAINED = Some (zlen t - span_of U16_LENGTH (has set) (rev (code_points t))).
Proof.
  intros [Hwf Hn]%plain_span Ht. rewrite <- !span_of_has, !span_of_units.
  apply (UnicodeSetSpan.span_runs set t UnicodeSet.USET_SPAN_CONTAINED); auto; [apply Ht|by apply good_nonempty].
Qed.

Lemma span_matter set t : good_text t -> (span_of U16_LENGTH (has set) (code_points t) <? zlen t) = matter set t.
Proof.
  intros [Ht _]. rewrite <- (total16_text t Ht). pose proof (span_of_le U16_LENGTH (has set) U16_LENGTH_sizes (code_points t)).
  pose proof (span_of_all U16_LENGTH (has set) U16_LENGTH_sizes (code_points t)) as Ha. rewrite <- forallb_Forall in Ha. unfold matter.
  destruct (forallb (has set) (code_points t)), (Z.ltb_spec (span_of U16_LENGTH (has set) (code_points t)) (total16 (code_points t))); cbn; try done.
  - destruct Ha as [_ Ha]. specialize (Ha eq_refl). lia.
  - destruct Ha as [Ha _]. discriminate Ha. lia.
Qed.

(** The UTF-8 form that is stored for a string. *)
Definition stored8 set (which : Z) (t : list Z) : list Z :=
  if bit which UTF8 && (matter set t || bit which CONTAINED) then form8 t else [].

Lemma stored8_size set which t : Forall unit16 t -> zlen (stored8 set which t) <= 4 * zlen t.
Proof. intros Ht. unfold stored8. destruct (_ && _); [by apply form8_size|]. change (zlen (@nil Z)) with 0. pose proof (zlen_nonneg t). lia. Qed.

Notation size8 set which := (fun t => zlen (stored8 set which t)).

Lemma drop_text v i k : strings_wf v -> 0 <= i -> i + Z.of_nat (S k) = UVector.count v ->
  exists t, zget (texts v) i = Some t /\ good_text t /\ drop (Z.to_nat i) (texts v) = t :: drop (Z.to_nat (i + 1)) (texts v).
Proof.
  intros Hv H0 Hi. destruct (zget_is_Some (texts v) i) as [t Ht]; [rewrite texts_zlen by done; lia|]. exists t.
  pose proof Ht as [_ Hl]%zget_Some_lookup. split; [done|]. split; [by eapply Forall_lookup_1; [apply texts_good|]|].
  rewrite (drop_S _ _ _ Hl). do 2 f_equal. lia.
Qed.

Lemma measure_spec k set v which i some max16 max8 len8 :
  plain set -> strings_wf v -> Forall small_text (texts v) -> 0 <= i -> i + Z.of_nat k = UVector.count v ->
  0 <= len8 -> len8 + sum_of (size8 set which) (drop (Z.to_nat i) (texts v)) <= INT32_MAX ->
  0 <= max16 <= INT32_MAX -> 0 <= max8 <= INT32_MAX ->
  exists max16' max8', measure k set v which i some max16 max8 len8 =
      Some (some || existsb (matter set) (drop (Z.to_nat i) (texts v)), max16', max8',
            len8 + sum_of (size8 set which) (drop (Z.to_nat i) (texts v))) /\
    max16 <= max16' <= INT32_MAX /\ max8 <= max8' <= INT32_MAX /\
    (forall t, t ∈ drop (Z.to_nat i) (texts v) -> (bit which UTF16 = true -> zlen t <= max16') /\ zlen (stored8 set which t) <= max8').
Proof.
  intros Hset Hv Hsmall. revert i some max16 max8 len8. induction k as [|k IH]; intros i some max16 max8 len8 H0 Hi Hl Hsum H16 H8.
  { cbn [measure]. rewrite drop_ge by (pose proof (texts_zlen v Hv); unfold zlen in *; lia). cbn. rewrite orb_false_r, Z.add_0_r.
    exists max16, max8. split_and!; auto; try lia; by intros ? ?%not_elem_of_nil. }
  destruct (drop_text v i k Hv H0 Hi) as (t & Et & Ht & Ed). rewrite Ed in *. cbn [sum_of foldr existsb] in *.
  fold (sum_of (size8 set which) (drop (Z.to_nat (i + 1)) (texts v))) in *.
  assert (Hsm : small_text t) by (eapply (Forall_lookup_1 _ _ _ _ Hsmall); by apply zget_Some_lookup in Et as [_ ?]).
  cbn [measure]. rewrite (string_at_text v i t Hv Et). cbn [mbind option_bind]. rewrite (proj1 (text_span set t Hset Ht)).
  cbn [mbind option_bind]. rewrite (span_matter set t Ht).
  assert (Hnn : 0 <= sum_of (size8 set which) (drop (Z.to_nat (i + 1)) (texts v))).
  { apply (sum_le _ (size8 set which)). apply Forall_true. intros x. pose proof (zlen_nonneg (stored8 set which x)). lia. }
  set (m16 := if bit which UTF16 && (max16 <? zlen t) then zlen t else max16).
  assert (Hm16 : max16 <= m16 <= INT32_MAX /\ (bit which UTF16 = true -> zlen t <= m16)).
  { unfold m16. unfold small_text in Hsm. pose proof (zlen_nonneg t). destruct (bit which UTF16); cbn [andb]; [|split; [lia|done]]. zcase; lia. }
  pose proof (zlen_nonneg (stored8 set which t)) as Hs8. pose proof (stored8_size set which t (proj1 Ht)) as Hsz.
  unfold small_text in Hsm.
  assert (exists m8, (if bit which UTF8 && (matter set t || bit which CONTAINED) then
       length8 ← getUTF8Length t (zlen t);
       len0 ← checked (len8 + length8); Some (if max8 <? length8 then length8 else max8, len0)
     else Some (max8, len8)) = Some (m8, len8 + zlen (stored8 set which t)) /\
     max8 <= m8 <= INT32_MAX /\ zlen (stored8 set which t) <= m8) as (m8 & -> & Hm8 & Hm8').
  { unfold stored8 in *. destruct (_ && _).
    - rewrite getUTF8Length_spec by (apply Ht || done). cbn [mbind option_bind].
      rewrite checked_in by (unfold INT32_MIN, INT32_MAX in *; lia). cbn [mbind option_bind]. eexists. split; [done|].
      zcase; lia.
    - exists max8. change (zlen (@nil Z)) with 0 in *. rewrite Z.add_0_r. split; [done|]. lia. }
  cbn [mbind option_bind].
  destruct (IH (i + 1) (some || matter set t) m16 m8 (len8 + zlen (stored8 set which t))) as (max16' & max8' & -> & Ha & Hb & Hc); try lia.
  exists max16', max8'. split_and!; auto; try lia.
  - do 2 f_equal; [|lia]. do 2 f_equal. by rewrite orb_assoc.
  - intros t' [->|Hin]%elem_of_cons; [|by apply Hc]. split; [intros Hu; specialize (proj2 Hm16 Hu)|]; lia.
Qed.

(** ** The span-not set *)

(** A code point of the set that [pSpanNotSet] stands for. *)
Definition nhas set (p : not_set) (c : Z) : bool := match p with OwnSet s => has s c | _ => has set c end.

Definition not_fine (p : not_set) : Prop := p <> NullSet /\ forall s, p = OwnSet s -> live s /\ strs s = [].

Definition adds set (p p' : not_set) (c : Z) : Prop :=
  not_fine p' /\ forall d, 0 <= d < UNICODESET_HIGH -> nhas set p' d = nhas set p d || (d =? c).

(** One code point added to a set of its own. *)
Lemma add_own (s : set0) c :
  live s -> strs s = [] -> code_point c ->
  (exists s', UnicodeSet.add_cp s c = Some s' /\ live s' /\ strs s' = [] /\
     forall d, 0 <= d < UNICODESET_HIGH -> has s' d = has s d || (d =? c)) \/ refused.
Proof.
  intros Hl Hs Hc. destruct (add_cp_spec s c Hl) as (s' & -> & [(Hl' & Hh & Hs')|[_ ?]]); [left|by right].
  exists s'. split_and!; auto; [congruence|]. intros d Hd. rewrite Hh by done. unfold code_point in Hc.
  replace (pinCodePoint c) with c; [done|]. unfold pinCodePoint, UNICODESET_LOW, UNICODESET_HIGH. zcases.
Qed.

Lemma addToSpanNotSet_spec set p c :
  plain set -> not_fine p -> code_point c -> (exists p', addToSpanNotSet set p c = Some p' /\ adds set p p' c) \/ refused.
Proof.
  intros [Hwf Hs] [Hne Hown] Hc. destruct p as [| |s].
  - done.
  - unfold addToSpanNotSet. rewrite UnicodeSetSpan.code_point_contains by done. cbn [mbind option_bind]. destruct (has set c) eqn:Ec.
    { left. exists SpanSet. split; [done|]. split; [done|]. intros d Hd. cbn. destruct (Z.eqb_spec d c) as [->|]; [by rewrite Ec|by rewrite orb_false_r]. }
    unfold UnicodeSet.cloneAsThawed. destruct (UnicodeSet.new_object UnicodeSet.sizeof_UnicodeSet) eqn:En; cbn [mbind option_bind].
    2:{ right. unfold UnicodeSet.new_object in En. apply (object_refused UnicodeSet.sizeof_UnicodeSet); [set_solver|done]. }
    destruct (UnicodeSetConstruct.new_thawed_result set Hwf) as (s & -> & [(Hl & Hv & Hst)|]); [|by right]. cbn [mbind option_bind].
    destruct (add_own s c Hl ltac:(congruence) Hc) as [(s' & -> & Hl' & Hs' & Hh)|]; [left|by right]. cbn [mbind option_bind].
    exists (OwnSet s'). split; [done|]. split; [split; [done|by intros ? [= <-]]|]. intros d Hd. cbn. rewrite Hh by done.
    unfold UnicodeSetFacts.has. by rewrite Hv.
  - destruct (Hown s eq_refl) as [Hl Hst]. unfold addToSpanNotSet.
    destruct (add_own s c Hl Hst Hc) as [(s' & -> & Hl' & Hs' & Hh)|]; [left|by right]. cbn [mbind option_bind].
    exists (OwnSet s'). split; [done|]. split; [split; [done|by intros ? [= <-]]|]. done.
Qed.

(** ** What is stored for a string *)

Definition with_spans (m : meta) (spans : list Z) : meta := Meta (m_not m) (m_len8 m) spans (m_utf8 m) (m_count m).

Definition slot (n : Z) (is_all : bool) (variant i : Z) : Z := (if is_all then variant * n else 0) + i.

Lemma store_span_in n is_all variant i b m :
  0 <= slot n is_all variant i < zlen (m_spans m) ->
  store_span n is_all variant i b m = Some (with_spans m (<[Z.to_nat (slot n is_all variant i) := b]> (m_spans m))).
Proof. intros Hi. unfold store_span, slot in *. by rewrite zset_in. Qed.

(** The span length in each variant: forward or backward, UTF-16 or UTF-8. *)
Definition span16 set (fwd : bool) (t : list Z) : Z :=
  span_of U16_LENGTH (has set) (if fwd then ahead t else behind t).
Definition span8 set (fwd : bool) (t : list Z) : Z :=
  UnicodeSetSpan.run_bytes set true (if fwd then Utf8.pieces (form8 t) else rev (Utf8.pieces (form8 t))).

Definition byte_val set (fwd utf16 exact : bool) (t : list Z) : Z :=
  if negb (matter set t) then ALL_CP_CONTAINED
  else if utf16 then (if exact then makeSpanLengthByte (span16 set fwd t) else 0)
  else if zlen (form8 t) =? 0 then ALL_CP_CONTAINED
  else if exact then makeSpanLengthByte (span8 set fwd t) else 0.

(** The UTF-8 part of the state after storing the form of string [i]. *)
Record stored (m m' : meta) (i : Z) (f : list Z) : Prop := {
  st_not : m_not m' = m_not m;
  st_spans : m_spans m' = m_spans m;
  st_len8 : m_len8 m' = <[Z.to_nat i := zlen f]> (m_len8 m);
  st_size : zlen (m_utf8 m') = zlen (m_utf8 m);
  st_form : ztake (m_count m') (m_utf8 m') = ztake (m_count m) (m_utf8 m) ++ f;
  st_count : m_count m' = m_count m + zlen f
}.

Lemma store_utf8_spec t i len8 m :
  Forall unit16 t -> small_text t -> zlen (m_utf8 m) = len8 -> len8 <= INT32_MAX -> 0 <= m_count m ->
  m_count m + zlen (form8 t) <= len8 -> 0 <= i < zlen (m_len8 m) ->
  exists s8 m', store_utf8 t i len8 m = Some (s8, zlen (form8 t), m') /\
    ztake (zlen (form8 t)) s8 = form8 t /\ stored m m' i (form8 t).
Proof.
  intros Ht Hs Hz Hmax Hc Hf Hi. unfold store_utf8. pose proof (zlen_nonneg (form8 t)).
  set (d := drop (Z.to_nat (m_count m)) (m_utf8 m)).
  assert (Hd : zlen d = len8 - m_count m) by (unfold d, zlen in *; rewrite length_drop; lia).
  destruct (appendUTF8_spec t d Ht Hs ltac:(lia)) as (rest & Ha & Hr). rewrite Hd in Ha. rewrite Ha. cbn [mbind option_bind].
  rewrite zset_in by lia. cbn [mbind option_bind]. rewrite checked_in by (unfold INT32_MIN, INT32_MAX in *; lia).
  cbn [mbind option_bind]. eexists _, _. split; [done|]. split; [apply ztake_app_exact|].
  assert (Hz2 : zlen (ztake (m_count m) (m_utf8 m)) = m_count m) by (apply zlen_ztake; lia).
  split; cbn; auto.
  - rewrite zlen_app. lia.
  - rewrite app_assoc. replace (m_count m + zlen (form8 t)) with (zlen (ztake (m_count m) (m_utf8 m) ++ form8 t)) by (rewrite zlen_app; lia).
    apply ztake_app_exact.
Qed.

(** The spans of the stored UTF-8 form. *)
Lemma form8_bytes t : Forall unit16 t -> Forall Utf8.byte8 (form8 t).
Proof.
  intros Ht. destruct (form8_cases t Ht) as [[Hs ->]|[_ ->]]; [|constructor]. by apply Utf8.encoded_bytes.
Qed.

Lemma form8_span set t :
  plain set -> Forall unit16 t -> zlen (form8 t) <> 0 ->
  UnicodeSet.spanUTF8 set (form8 t) (zlen (form8 t)) UnicodeSet.USET_SPAN_CONTAINED = Some (span8 set true t) /\
  UnicodeSet.spanBackUTF8 set (form8 t) (zlen (form8 t)) UnicodeSet.USET_SPAN_CONTAINED = Some (zlen (form8 t) - span8 set false t).
Proof.
  intros [Hwf Hn]%plain_span Ht Hne. apply (UnicodeSetSpan.spanUTF8_runs set (form8 t) UnicodeSet.USET_SPAN_CONTAINED); auto.
  - by apply form8_bytes.
  - intros E. by rewrite E in Hne.
Qed.

(** The characters that strings begin and end with go into the span-not set. *)
Definition ends_of (which : Z) (t : list Z) (c : Z) : Prop :=
  bit which FWD = true /\ head (code_points t) = Some c \/ bit which BACK = true /\ last (code_points t) = Some c.

Record not_grows set which (t : list Z) (m m' : meta) : Prop := {
  ng_fine : not_fine (m_not m');
  ng_keeps : forall d, 0 <= d < UNICODESET_HIGH -> nhas set (m_not m) d = true -> nhas set (m_not m') d = true;
  ng_ends : forall c, ends_of which t c -> nhas set (m_not m') c = true
}.

Definition with_not (m : meta) (p : not_set) : meta := Meta p (m_len8 m) (m_spans m) (m_utf8 m) (m_count m).

Lemma first_code_point t : good_text t -> exists c r, code_points t = c :: r /\ code_point c /\ exists i, U16_NEXT t 0 (zlen t) = Some (c, i).
Proof.
  intros Ht. destruct t as [|x t]; [by destruct (good_nonempty _ Ht)|]. destruct (U16_NEXT_step [] x t (proj1 Ht)) as (c & u & _ & E & Hc & Hn).
  exists c, (code_points u). cbn [app] in Hn. split; [done|]. split; [done|]. eexists. exact Hn.
Qed.

Lemma last_code_point t : good_text t -> exists c, last (code_points t) = Some c /\ code_point c /\ exists i, U16_PREV t 0 (zlen t) = Some (c, i).
Proof.
  intros Ht. destruct (U16_PREV_step t [] (proj1 Ht) (good_nonempty t Ht)) as (c & u & _ & E & Hc & Hn). rewrite app_nil_r in Hn.
  exists c. rewrite E, last_snoc. eauto.
Qed.

Lemma code_point_high c : code_point c -> 0 <= c < UNICODESET_HIGH.
Proof. unfold code_point, UNICODESET_HIGH. lia. Qed.

Lemma store_not_spec set which t m :
  plain set -> good_text t -> not_fine (m_not m) ->
  (exists p, store_not set which t m = Some (with_not m p) /\ not_grows set which t m (with_not m p)) \/ refused.
Proof.
  intros Hset Ht Hm. unfold store_not, add_not.
  destruct (first_code_point t Ht) as (c1 & r1 & E1 & Hc1 & i1 & Hn1). destruct (last_code_point t Ht) as (c2 & E2 & Hc2 & i2 & Hn2).
  assert (Hfirst : (exists p, when (bit which FWD) (fun m => '(c, _) ← U16_NEXT t 0 (zlen t); p ← addToSpanNotSet set (m_not m) c;
      Some (Meta p (m_len8 m) (m_spans m) (m_utf8 m) (m_count m))) m = Some (with_not m p) /\ not_fine p /\
      (forall d, 0 <= d < UNICODESET_HIGH -> nhas set (m_not m) d = true -> nhas set p d = true) /\
      (bit which FWD = true -> nhas set p c1 = true)) \/ refused).
  { unfold when. destruct (bit which FWD); [|left; exists (m_not m); by destruct m]. rewrite Hn1. cbn [mbind option_bind].
    destruct (addToSpanNotSet_spec set (m_not m) c1 Hset Hm Hc1) as [(p & -> & Hf & Hh)|]; [left|by right]. cbn [mbind option_bind].
    exists p. split_and!; auto. { intros d Hd Hd1. by rewrite Hh, Hd1. } intros _. rewrite Hh by (by apply code_point_high).
    by rewrite Z.eqb_refl, orb_true_r. }
  destruct Hfirst as [(p1 & -> & Hf1 & Hk1 & Hh1)|]; [|by right]. cbn [mbind option_bind]. unfold when.
  destruct (bit which BACK) eqn:Eb.
  - rewrite Hn2. cbn [mbind option_bind]. destruct (addToSpanNotSet_spec set p1 c2 Hset Hf1 Hc2) as [(p & Hp & Hf & Hh)|]; [left|by right].
    exists p. change (m_not (with_not m p1)) with p1. rewrite Hp. cbn [mbind option_bind]. split; [done|]. split; cbn [m_not with_not].
    + done.
    + intros d Hd Hd1. by rewrite Hh, (Hk1 d).
    + intros c [[Hfw Hc]|[_ Hc]].
      * rewrite E1 in Hc. injection Hc as <-. rewrite Hh, Hh1 by (done || by apply code_point_high). done.
      * rewrite E2 in Hc. injection Hc as <-. rewrite Hh by (by apply code_point_high). by rewrite Z.eqb_refl, orb_true_r.
  - left. exists p1. split; [done|]. split; cbn [m_not with_not]; auto. intros c [[Hfw Hc]|[Hbk _]]; [|congruence].
    rewrite E1 in Hc. injection Hc as <-. auto.
Qed.

(** The variants an object is constructed for: all, or exactly one. *)
Definition one_variant (which : Z) : Prop :=
  exists fwd utf16 cont, (which =? ALL) = false /\ bit which FWD = fwd /\ bit which BACK = negb fwd /\
    bit which UTF16 = utf16 /\ bit which UTF8 = negb utf16 /\ bit which CONTAINED = cont /\ bit which NOT_CONTAINED = negb cont.

(** A write to the cell of string [i] for one variant. *)
Definition put (n : Z) (is_all : bool) (i variant b : Z) (spans : list Z) : list Z := <[Z.to_nat (slot n is_all variant i) := b]> spans.

Lemma zlen_put n is_all i variant b spans : zlen (put n is_all i variant b spans) = zlen spans.
Proof. unfold put, zlen. by rewrite length_insert. Qed.

Lemma store_span_put n is_all variant i b m :
  0 <= slot n is_all variant i < zlen (m_spans m) ->
  store_span n is_all variant i b m = Some (with_spans m (put n is_all i variant b (m_spans m))).
Proof. apply store_span_in. Qed.

(** The cells of [i] in the span length array. *)
Definition cells_ok (n i : Z) (is_all : bool) (spans : list Z) : Prop :=
  0 <= i < n /\ zlen spans = if is_all then 4 * n else n.

Lemma cells_range n i is_all spans w : cells_ok n i is_all spans -> 0 <= w < 4 -> 0 <= slot n is_all w i < zlen spans.
Proof. intros [Hi Hz] Hw. unfold slot. rewrite Hz. destruct is_all; nia. Qed.

Lemma cells_put n i is_all spans w b : cells_ok n i is_all spans -> cells_ok n i is_all (put n is_all i w b spans).
Proof. intros [? ?]. split; [done|]. by rewrite zlen_put. Qed.

(** With one variant there is one cell for each string. *)
Lemma put_one n i w b spans : put n false i w b spans = <[Z.to_nat i := b]> spans.
Proof. done. Qed.

Lemma store_relevant16_one set which n t i m fwd cont :
  plain set -> good_text t -> cells_ok n i false (m_spans m) ->
  bit which FWD = fwd -> bit which BACK = negb fwd -> bit which CONTAINED = cont ->
  store_relevant16 set which n false t i (span16 set true t) m =
    Some (with_spans m (<[Z.to_nat i := if cont then makeSpanLengthByte (span16 set fwd t) else 0]> (m_spans m))).
Proof.
  intros Hset Ht Hc Hf Hb Hcont. unfold store_relevant16. rewrite Hf, Hb, Hcont. pose proof (cells_range _ _ _ _ 0 Hc) as H0.
  pose proof (cells_range _ _ _ _ 1 Hc) as H1. destruct cont.
  - destruct fwd; cbn [when negb mbind option_bind].
    + rewrite store_span_put by (apply H0; lia). done.
    + rewrite (proj2 (text_span set t Hset Ht)). cbn [mbind option_bind]. rewrite store_span_put by (apply H1; lia).
      rewrite put_one. do 4 f_equal. unfold span16, behind. lia.
  - rewrite store_span_put by (apply H0; lia). cbn [mbind option_bind].
    rewrite store_span_put by (cbn [m_spans with_spans]; rewrite zlen_put; apply H1; lia). unfold with_spans. cbn. rewrite !put_one. by rewrite list_insert_insert_eq.
Qed.

Lemma store_relevant16_all set n t i m :
  plain set -> good_text t -> cells_ok n i true (m_spans m) ->
  store_relevant16 set ALL n true t i (span16 set true t) m =
    Some (with_spans m (put n true i 1 (makeSpanLengthByte (span16 set false t)) (put n true i 0 (makeSpanLengthByte (span16 set true t)) (m_spans m)))).
Proof.
  intros Hset Ht Hc. unfold store_relevant16. change (bit ALL CONTAINED) with true. change (bit ALL FWD) with true. change (bit ALL BACK) with true.
  cbn [when]. rewrite store_span_put by (eapply cells_range; [exact Hc|lia]). cbn [mbind option_bind].
  rewrite (proj2 (text_span set t Hset Ht)). cbn [mbind option_bind].
  rewrite store_span_put by (cbn [m_spans with_spans]; eapply cells_range; [apply cells_put, Hc|lia]). unfold with_spans. cbn.
  do 4 f_equal. unfold span16, behind. lia.
Qed.

(** The UTF-8 part, after the form is stored. *)
Lemma store_relevant8_one set which n len8 t i m fwd cont :
  plain set -> good_text t -> small_text t -> cells_ok n i false (m_spans m) ->
  zlen (m_utf8 m) = len8 -> len8 <= INT32_MAX -> 0 <= m_count m -> m_count m + zlen (form8 t) <= len8 -> zlen (m_len8 m) = n ->
  bit which FWD = fwd -> bit which BACK = negb fwd -> bit which CONTAINED = cont ->
  exists m1, stored m m1 i (form8 t) /\ store_relevant8 set which n len8 false t i m =
    Some (with_spans m1 (<[Z.to_nat i := if zlen (form8 t) =? 0 then ALL_CP_CONTAINED
                                          else if cont then makeSpanLengthByte (span8 set fwd t) else 0]> (m_spans m1))).
Proof.
  intros Hset Ht Hs Hc Hz Hmax H0 Hsum Hn Hf Hb Hcont. unfold store_relevant8.
  destruct (store_utf8_spec t i len8 m (proj1 Ht) Hs Hz Hmax H0 Hsum) as (s8 & m1 & -> & Hs8 & Hst); [rewrite Hn; apply Hc|].
  exists m1. split; [done|]. cbn [mbind option_bind]. rewrite <- (st_spans _ _ _ _ Hst) in Hc.
  assert (Htwice : forall b, (m ← store_span n false 2 i b m1; store_span n false 3 i b m) = Some (with_spans m1 (<[Z.to_nat i := b]> (m_spans m1)))).
  { intros b. rewrite store_span_put by (eapply cells_range; [exact Hc|lia]). cbn [mbind option_bind].
    rewrite store_span_put by (cbn [m_spans with_spans]; rewrite zlen_put; eapply cells_range; [exact Hc|lia]). unfold with_spans. cbn.
    rewrite !put_one. by rewrite list_insert_insert_eq. }
  destruct (Z.eqb_spec (zlen (form8 t)) 0) as [|Hne]; [apply Htwice|]. rewrite Hs8, Hf, Hb, Hcont.
  destruct (form8_span set t Hset (proj1 Ht) Hne) as [-> ->]. destruct cont; [|apply Htwice].
  destruct fwd; cbn [when negb mbind option_bind].
  - by rewrite store_span_put by (eapply cells_range; [exact Hc|lia]).
  - rewrite store_span_put by (eapply cells_range; [exact Hc|lia]). rewrite put_one. do 4 f_equal. lia.
Qed.

Lemma store_relevant8_all set n len8 t i m :
  plain set -> good_text t -> small_text t -> cells_ok n i true (m_spans m) ->
  zlen (m_utf8 m) = len8 -> len8 <= INT32_MAX -> 0 <= m_count m -> m_count m + zlen (form8 t) <= len8 -> zlen (m_len8 m) = n ->
  exists m1, stored m m1 i (form8 t) /\ store_relevant8 set ALL n len8 true t i m =
    let b fwd := if zlen (form8 t) =? 0 then ALL_CP_CONTAINED else makeSpanLengthByte (span8 set fwd t) in
    Some (with_spans m1 (put n true i 3 (b false) (put n true i 2 (b true) (m_spans m1)))).
Proof.
  intros Hset Ht Hs Hc Hz Hmax H0 Hsum Hn. unfold store_relevant8.
  destruct (store_utf8_spec t i len8 m (proj1 Ht) Hs Hz Hmax H0 Hsum) as (s8 & m1 & -> & Hs8 & Hst); [rewrite Hn; apply Hc|].
  exists m1. split; [done|]. cbn [mbind option_bind]. rewrite <- (st_spans _ _ _ _ Hst) in Hc.
  change (bit ALL CONTAINED) with true. change (bit ALL FWD) with true. change (bit ALL BACK) with true. cbn [when].
  destruct (Z.eqb_spec (zlen (form8 t)) 0) as [|Hne].
  - rewrite store_span_put by (eapply cells_range; [exact Hc|lia]). cbn [mbind option_bind].
    by rewrite store_span_put by (cbn [m_spans with_spans]; eapply cells_range; [apply cells_put, Hc|lia]).
  - rewrite Hs8. destruct (form8_span set t Hset (proj1 Ht) Hne) as [-> ->]. cbn [mbind option_bind].
    rewrite store_span_put by (eapply cells_range; [exact Hc|lia]). cbn [mbind option_bind].
    rewrite store_span_put by (cbn [m_spans with_spans]; eapply cells_range; [apply cells_put, Hc|lia]). unfold with_spans. cbn. do 4 f_equal. lia.
Qed.

(** ** One string *)

(** The byte wanted in the cell of a string for variant [w]. *)
Definition wanted set (which w : Z) (t : list Z) : Z :=
  if which =? ALL then byte_val set ((w =? 0) || (w =? 2)) (w <? 2) true t
  else byte_val set (bit which FWD) (bit which UTF16) (bit which CONTAINED) t.

Definition writes set which n is_all t i (spans spans' : list Z) : Prop :=
  zlen spans' = zlen spans /\
  (forall w, 0 <= w < 4 -> zget spans' (slot n is_all w i) = Some (wanted set which w t)) /\
  forall w j, 0 <= w < 4 -> 0 <= j < n -> j <> i -> zget spans' (slot n is_all w j) = zget spans (slot n is_all w j).

Lemma writes_one set which n t i spans b :
  cells_ok n i false spans -> (which =? ALL) = false -> b = byte_val set (bit which FWD) (bit which UTF16) (bit which CONTAINED) t ->
  writes set which n false t i spans (<[Z.to_nat i := b]> spans).
Proof.
  intros [Hi Hz] Hall ->. unfold writes, wanted, slot. rewrite Hall, !Z.add_0_l. split_and!.
  - unfold zlen. by rewrite length_insert.
  - intros w _. apply zget_insert_eq. lia.
  - intros w j _ Hj Hne. apply zget_insert_ne; lia.
Qed.

Lemma slot_inj n w w' i j : 0 <= i < n -> 0 <= j < n -> slot n true w i = slot n true w' j -> w = w' /\ i = j.
Proof.
  intros Hi Hj E. unfold slot in E. assert (w = w'); [|subst; lia].
  destruct (Z.lt_trichotomy w w') as [Hlt|[|Hlt]]; [|done|]; exfalso; nia.
Qed.

Lemma zget_put n i w b spans w' j :
  cells_ok n i true spans -> 0 <= w < 4 -> 0 <= j < n -> 0 <= w' ->
  zget (put n true i w b spans) (slot n true w' j) = if decide (w = w' /\ i = j) then Some b else zget spans (slot n true w' j).
Proof.
  intros Hc Hw Hj Hw'. unfold put. pose proof (cells_range n i true spans w Hc Hw). destruct Hc as [Hi Hz]. destruct (decide _) as [[-> ->]|Hne].
  - by apply zget_insert_eq.
  - apply zget_insert_ne; [lia|]. intros E. apply Hne. by apply (slot_inj n).
Qed.

Lemma writes_all set n t i spans b0 b1 b2 b3 :
  cells_ok n i true spans ->
  b0 = byte_val set true true true t -> b1 = byte_val set false true true t ->
  b2 = byte_val set true false true t -> b3 = byte_val set false false true t ->
  writes set ALL n true t i spans (put n true i 3 b3 (put n true i 2 b2 (put n true i 1 b1 (put n true i 0 b0 spans)))).
Proof.
  intros Hc -> -> -> ->. pose proof Hc as [Hi Hz]. unfold writes. split_and!; [by rewrite !zlen_put|..].
  - intros w Hw. rewrite !zget_put by (lia || (repeat apply cells_put; done)). unfold wanted. change (ALL =? ALL) with true. cbv iota.
    assert (w = 0 \/ w = 1 \/ w = 2 \/ w = 3) as [->|[->|[->| ->]]] by lia; repeat (destruct (decide _) as [[? _]|?]; [done || lia|]); tauto.
  - intros w j Hw Hj Hne. rewrite !zget_put by (lia || (repeat apply cells_put; done)).
    repeat (destruct (decide _) as [[_ ?]|_]; [congruence|]). done.
Qed.

Record step set which n is_all t i (m m' : meta) : Prop := {
  sp_spans : writes set which n is_all t i (m_spans m) (m_spans m');
  sp_utf8 : bit which UTF8 = true ->
    let f := stored8 set which t in
    m_len8 m' = <[Z.to_nat i := zlen f]> (m_len8 m) /\ zlen (m_utf8 m') = zlen (m_utf8 m) /\
    ztake (m_count m') (m_utf8 m') = ztake (m_count m) (m_utf8 m) ++ f /\ m_count m' = m_count m + zlen f;
  sp_not : if bit which NOT_CONTAINED && matter set t then not_grows set which t m m' else m_not m' = m_not m
}.

(** What a step needs of the state. *)
Record ready set which n len8 is_all t i (m : meta) : Prop := {
  rd_cells : cells_ok n i is_all (m_spans m);
  rd_utf8 : bit which UTF8 = true ->
    zlen (m_utf8 m) = len8 /\ len8 <= INT32_MAX /\ 0 <= m_count m /\ m_count m + zlen (stored8 set which t) <= len8 /\ zlen (m_len8 m) = n;
  rd_not : bit which NOT_CONTAINED = true -> not_fine (m_not m)
}.

Lemma store_irrelevant_spec set which n len8 t i m :
  good_text t -> small_text t -> matter set t = false -> which = ALL \/ one_variant which ->
  ready set which n len8 (which =? ALL) t i m ->
  exists m', store_irrelevant which n len8 (which =? ALL) t i m = Some m' /\ step set which n (which =? ALL) t i m m'.
Proof.
  intros Ht Hs Hmat Hw [Hc H8 Hnot]. unfold store_irrelevant.
  assert (Hst : stored8 set which t = if bit which UTF8 && bit which CONTAINED then form8 t else []) by (unfold stored8; by rewrite Hmat).
  (** the UTF-8 form first *)
  assert (exists m1, when (bit which UTF8) (fun m =>
      if bit which CONTAINED then '(_, _, m) ← store_utf8 t i len8 m; Some m
      else lens ← zset (m_len8 m) i 0; Some (Meta (m_not m) lens (m_spans m) (m_utf8 m) (m_count m))) m = Some m1 /\
      m_spans m1 = m_spans m /\ m_not m1 = m_not m /\ (bit which UTF8 = true -> stored m m1 i (stored8 set which t))) as (m1 & -> & Hsp1 & Hn1 & Hst1).
  { unfold when. destruct (bit which UTF8) eqn:E8; [|by exists m]. destruct (H8 eq_refl) as (Hz & Hmax & H0 & Hsum & Hl8). rewrite Hst in *. cbn [andb] in *.
    destruct (bit which CONTAINED).
    - destruct (store_utf8_spec t i len8 m (proj1 Ht) Hs Hz Hmax H0 Hsum) as (s8 & m1 & -> & _ & Hstm); [rewrite Hl8; apply Hc|].
      cbn [mbind option_bind]. exists m1. destruct Hstm. split_and!; auto. by intros _.
    - rewrite zset_in by (rewrite Hl8; apply Hc). cbn [mbind option_bind]. eexists. split; [done|]. split; [done|]. split; [done|]. intros _.
      split; cbn [m_not m_spans m_len8 m_utf8 m_count]; rewrite ?app_nil_r; auto. change (zlen (@nil Z)) with 0. lia. }
  cbn [mbind option_bind]. rewrite <- Hsp1 in Hc.
  assert (Hfin : forall spans, writes set which n (which =? ALL) t i (m_spans m1) spans -> step set which n (which =? ALL) t i m (with_spans m1 spans)).
  { intros spans Hwr. split; cbn [m_spans m_len8 m_utf8 m_count m_not with_spans].
    - by rewrite <- Hsp1.
    - intros E8. destruct (Hst1 E8). auto.
    - by rewrite Hmat, andb_false_r. }
  rewrite store_span_put by (eapply cells_range; [exact Hc|lia]). cbn [mbind option_bind].
  assert (Hb : forall f u c, byte_val set f u c t = ALL_CP_CONTAINED) by (intros; unfold byte_val; by rewrite Hmat).
  destruct Hw as [->|(f & u & c & Hall & Hw)].
  - change (ALL =? ALL) with true in *. cbv iota. do 3 (rewrite store_span_put by (cbn [m_spans with_spans]; eapply cells_range; [(repeat apply cells_put); exact Hc|lia]); cbn [mbind option_bind]).
    eexists. split; [done|]. apply (Hfin (put n true i 3 _ (put n true i 2 _ (put n true i 1 _ (put n true i 0 _ (m_spans m1)))))).
    apply writes_all; auto.
  - rewrite Hall in *. eexists. split; [done|]. apply Hfin. rewrite put_one. apply writes_one; auto.
Qed.

(** The last part of a step for a relevant string. *)
Lemma store_not_step set which n is_all t i m m2 :
  plain set -> good_text t -> matter set t = true ->
  writes set which n is_all t i (m_spans m) (m_spans m2) ->
  (bit which UTF8 = true ->
    let f := stored8 set which t in
    m_len8 m2 = <[Z.to_nat i := zlen f]> (m_len8 m) /\ zlen (m_utf8 m2) = zlen (m_utf8 m) /\
    ztake (m_count m2) (m_utf8 m2) = ztake (m_count m) (m_utf8 m) ++ f /\ m_count m2 = m_count m + zlen f) ->
  m_not m2 = m_not m -> (bit which NOT_CONTAINED = true -> not_fine (m_not m)) ->
  (exists m', when (bit which NOT_CONTAINED) (store_not set which t) m2 = Some m' /\ step set which n is_all t i m m') \/ refused.
Proof.
  intros Hset Ht Hmat Hwr H8 Hn Hnot. unfold when. destruct (bit which NOT_CONTAINED) eqn:En.
  - destruct (store_not_spec set which t m2 Hset Ht) as [(p & -> & Hg)|]; [rewrite Hn; auto|left|by right].
    eexists. split; [done|]. split; cbn [m_spans m_len8 m_utf8 m_count m_not with_not]; auto. rewrite En, Hmat. cbn [andb].
    destruct Hg as [Hg1 Hg2 Hg3]. rewrite Hn in Hg2. by split.
  - left. exists m2. split; [done|]. split; auto. by rewrite En.
Qed.

Lemma store_string_spec set which n len8 t i m :
  plain set -> good_text t -> small_text t -> which = ALL \/ one_variant which ->
  ready set which n len8 (which =? ALL) t i m ->
  (exists m', store_string set which n len8 (which =? ALL) t i m = Some m' /\ step set which n (which =? ALL) t i m m') \/ refused.
Proof.
  intros Hset Ht Hs Hw Hrd. unfold store_string. rewrite (proj1 (text_span set t Hset Ht)). cbn [mbind option_bind].
  rewrite (span_matter set t Ht). destruct (matter set t) eqn:Hmat.
  2:{ left. by apply store_irrelevant_spec. }
  change (span_of U16_LENGTH (has set) (code_points t)) with (span16 set true t). pose proof Hrd as [Hc H8 Hnot].
  assert (Hbv : forall f u c, byte_val set f u c t = if u then if c then makeSpanLengthByte (span16 set f t) else 0
      else if zlen (form8 t) =? 0 then ALL_CP_CONTAINED else if c then makeSpanLengthByte (span8 set f t) else 0)
    by (intros; unfold byte_val; by rewrite Hmat).
  assert (Hst : bit which UTF8 = true -> stored8 set which t = form8 t) by (intros E; unfold stored8; by rewrite E, Hmat).
  destruct Hw as [->|(f & u & c & Hall & Hf & Hb & Hu & Hu8 & Hcc & Hcn)].
  - change (ALL =? ALL) with true in *. change (bit ALL UTF16) with true. change (bit ALL UTF8) with true in *. cbn [when].
    destruct (H8 eq_refl) as (Hz & Hmax & H0 & Hsum & Hl8). specialize (Hst eq_refl). rewrite Hst in Hsum.
    rewrite store_relevant16_all by done. cbn [mbind option_bind].
    destruct (store_relevant8_all set n len8 t i (with_spans m (put n true i 1 (makeSpanLengthByte (span16 set false t)) (put n true i 0 (makeSpanLengthByte (span16 set true t)) (m_spans m)))))
      as (m1 & Hst1 & ->); auto; [cbn; by apply cells_put, cells_put|]. cbn [mbind option_bind].
    apply store_not_step; auto; destruct Hst1 as [Hn1 Hsp1 Hl1 Hz1 Hf1 Hc1]; cbn [m_spans m_len8 m_utf8 m_count m_not with_spans] in *; try done.
    + rewrite Hsp1. apply writes_all; rewrite ?Hbv; auto.
    + intros _. rewrite Hst. auto.
  - rewrite Hall, Hu, Hu8 in *. destruct u; cbn [when negb].
    + rewrite (store_relevant16_one set which n t i m f c) by done. cbn [mbind option_bind]. apply store_not_step; auto.
      * cbn [m_spans with_spans]. apply writes_one; auto. rewrite Hf, Hcc, Hu, Hbv. done.
      * by rewrite Hu8.
    + cbn [negb mbind option_bind] in *. destruct (H8 eq_refl) as (Hz & Hmax & H0 & Hsum & Hl8). specialize (Hst eq_refl). rewrite Hst in Hsum.
      destruct (store_relevant8_one set which n len8 t i m f c) as (m1 & Hst1 & ->); auto. cbn [mbind option_bind].
      apply store_not_step; auto; destruct Hst1 as [Hn1 Hsp1 Hl1 Hz1 Hf1 Hc1]; cbn [m_spans m_len8 m_utf8 m_count m_not with_spans] in *; try done.
      * rewrite Hsp1. apply writes_one; auto. rewrite Hf, Hcc, Hu, Hbv. done.
      * intros _. rewrite Hst. auto.
Qed.

(** ** The second loop *)

(** The arrays after the first [i] strings. *)
Record filled set which n len8 v i (m : meta) : Prop := {
  fi_size : zlen (m_spans m) = if which =? ALL then 4 * n else n;
  fi_bytes : forall w j t, 0 <= w < 4 -> j < i -> zget (texts v) j = Some t ->
    zget (m_spans m) (slot n (which =? ALL) w j) = Some (wanted set which w t);
  fi_utf8 : bit which UTF8 = true ->
    zlen (m_len8 m) = n /\ zlen (m_utf8 m) = len8 /\
    m_count m = sum_of (size8 set which) (ztake i (texts v)) /\
    ztake (m_count m) (m_utf8 m) = concat (map (stored8 set which) (ztake i (texts v))) /\
    forall j t, j < i -> zget (texts v) j = Some t -> zget (m_len8 m) j = Some (zlen (stored8 set which t));
  fi_not : bit which NOT_CONTAINED = true ->
    not_fine (m_not m) /\ (forall d, 0 <= d < UNICODESET_HIGH -> has set d = true -> nhas set (m_not m) d = true) /\
    forall j t c, j < i -> zget (texts v) j = Some t -> matter set t = true -> ends_of which t c -> nhas set (m_not m) c = true
}.

Lemma sum_snoc f ts t : sum_of f (ts ++ [t]) = sum_of f ts + f t.
Proof. induction ts as [|x ts IH]; cbn; [lia|]. fold (sum_of f (ts ++ [t])) (sum_of f ts). lia. Qed.

Lemma sum_app f ts ts' : sum_of f (ts ++ ts') = sum_of f ts + sum_of f ts'.
Proof. induction ts as [|x ts IH]; cbn; [done|]. fold (sum_of f (ts ++ ts')) (sum_of f ts). lia. Qed.

Lemma sum_nonneg f ts : (forall t, 0 <= f t) -> 0 <= sum_of f ts.
Proof. intros Hf. induction ts as [|x ts IH]; cbn; [done|]. fold (sum_of f ts). specialize (Hf x). lia. Qed.

(** There is room for the next form. *)
Lemma room set which v i t :
  zget (texts v) i = Some t ->
  sum_of (size8 set which) (ztake i (texts v)) + zlen (stored8 set which t) <= sum_of (size8 set which) (texts v).
Proof.
  intros Ht. pose proof (zget_Some_range _ _ _ Ht). pose proof Ht as [_ Hl]%zget_Some_lookup.
  rewrite <- (take_drop (Z.to_nat i) (texts v)) at 2. rewrite (drop_S _ _ _ Hl), sum_app. cbn [sum_of foldr].
  fold (sum_of (size8 set which) (drop (S (Z.to_nat i)) (texts v))).
  pose proof (sum_nonneg (size8 set which) (drop (S (Z.to_nat i)) (texts v)) ltac:(intros; apply zlen_nonneg)). unfold ztake. lia.
Qed.

Lemma ends_code_point which t c : good_text t -> ends_of which t c -> code_point c.
Proof.
  intros [Ht _] He. apply (proj1 (Forall_forall _ _) (code_points_valid t Ht)). destruct He as [[_ Hc]|[_ Hc]].
  - by apply head_Some_elem_of.
  - by apply last_Some_elem_of.
Qed.

Lemma filled_step set which n len8 v i t m m' :
  strings_wf v -> filled set which n len8 v i m -> 0 <= i < n -> zlen (texts v) = n -> zget (texts v) i = Some t -> good_text t ->
  step set which n (which =? ALL) t i m m' -> filled set which n len8 v (i + 1) m'.
Proof.
  intros Hv [Hsz Hb H8 Hnot] Hi Hn Ht Hg [(Hz & Hhere & Helse) Hs8 Hsn].
  assert (Htk : ztake (i + 1) (texts v) = ztake i (texts v) ++ [t]) by (apply ztake_succ; [lia|done]). split.
  - congruence.
  - intros w j t' Hw Hj Ht'. destruct (decide (j = i)) as [->|Hne]; [rewrite Ht in Ht'; injection Ht' as <-; by apply Hhere|].
    pose proof (zget_Some_range _ _ _ Ht'). rewrite Helse by lia. apply Hb; [done|lia|done].
  - intros E8. destruct (H8 E8) as (Hl & Hu & Hc & Hcat & Hlens). destruct (Hs8 E8) as (Hl' & Hu' & Hcat' & Hc').
    rewrite Htk, map_app, concat_app, sum_snoc. cbn [map concat]. rewrite app_nil_r. split_and!.
    + rewrite Hl'. unfold zlen. by rewrite length_insert.
    + congruence.
    + lia.
    + by rewrite Hcat', Hcat.
    + intros j t' Hj Ht'. rewrite Hl'. destruct (decide (j = i)) as [->|Hne].
      * rewrite Ht in Ht'. injection Ht' as <-. rewrite zget_insert_eq by lia. done.
      * pose proof (zget_Some_range _ _ _ Ht'). rewrite zget_insert_ne by lia. apply Hlens; [lia|done].
  - intros En. destruct (Hnot En) as (Hfine & Hkeep & Hends). rewrite En in Hsn. cbn [andb] in Hsn. destruct (matter set t) eqn:Hmat.
    + destruct Hsn as [Hf Hk He]. split_and!; auto. intros j t' c Hj Ht' Hm Hec. destruct (decide (j = i)) as [->|Hne].
      * rewrite Ht in Ht'. injection Ht' as <-. by apply He.
      * apply Hk; [|apply (Hends j t'); auto; lia]. pose proof (zget_Some_range _ _ _ Ht').
        apply code_point_high, (ends_code_point which t'); [|done]. apply (good_lookup v); [done|]. by eapply UVector.zget_elem_of.
    + rewrite Hsn. split_and!; auto. intros j t' c Hj Ht' Hm Hec. destruct (decide (j = i)) as [->|Hne].
      * rewrite Ht in Ht'. injection Ht' as <-. congruence.
      * apply (Hends j t'); auto. lia.
Qed.

Lemma fill_spec k set v which len8 i m :
  let n := UVector.count v in
  plain set -> strings_wf v -> Forall small_text (texts v) -> which = ALL \/ one_variant which ->
  0 <= i -> i + Z.of_nat k = n -> sum_of (size8 set which) (texts v) = len8 -> len8 <= INT32_MAX ->
  filled set which n len8 v i m ->
  (exists m', fill k set v which n len8 i (which =? ALL) m = Some m' /\ filled set which n len8 v n m') \/ refused.
Proof.
  intros n Hset Hv Hsmall Hw. revert i m. induction k as [|k IH]; intros i m H0 Hi Hlen Hmax Hfi; cbn [fill].
  { left. exists m. split; [done|]. assert (Ein : i = n) by lia. by rewrite Ein in Hfi. }
  destruct (drop_text v i k Hv H0 Hi) as (t & Et & Ht & _). rewrite (string_at_text v i t Hv Et). cbn [mbind option_bind].
  assert (Hs : small_text t) by (eapply (Forall_lookup_1 _ _ _ _ Hsmall); by apply zget_Some_lookup in Et as [_ ?]).
  destruct (store_string_spec set which n len8 t i m Hset Ht Hs Hw) as [(m' & -> & Hst)|]; [|cbn [mbind option_bind]|by right].
  - split.
    + split; [lia|]. apply Hfi.
    + intros E8. destruct (fi_utf8 _ _ _ _ _ _ _ Hfi E8) as (Hl & Hu & Hc & _). rewrite Hc.
      pose proof (room set which v i t Et). pose proof (sum_nonneg (size8 set which) (ztake i (texts v)) ltac:(intros; apply zlen_nonneg)).
      split_and!; auto; lia.
    + intros En. by destruct (fi_not _ _ _ _ _ _ _ Hfi En).
  - apply IH; auto; [lia..|]. apply (filled_step set which n len8 v i t m m'); auto; [lia|by apply texts_zlen].
Qed.

(** ** The constructor *)

Lemma parent_wf l v : wf_list l -> strings_wf v -> wf (parent l v) /\ values (parent l v) = l.
Proof.
  intros Hl Hv. assert (Hvals : values (parent l v) = l) by (unfold values; cbn; apply ztake_all). split; [|done].
  pose proof (wf_list_zlen l Hl).
  split; cbn; try done; eauto; try lia. by rewrite Hvals.
Qed.

(** [spanSet]: the code points of the parent, without its strings. *)
Lemma spanSet_built l v :
  wf_list l -> strings_wf v ->
  (exists s0 s1, UnicodeSet.new_range 0 0x10ffff = Some s0 /\ UnicodeSet.retainAll s0 (parent l v) = Some s1 /\
     live s1 /\ strs s1 = [] /\ forall c, code_point c -> has s1 c = inv_mem l c) \/ refused.
Proof.
  intros Hl Hv. destruct (UnicodeSetConstruct.new_range_result 0 0x10ffff) as (s0 & -> & [Ho|]); [|by right].
  destruct Ho as [(Hl0 & Hh0 & Hs0)|[_ ?]]; [|by right]. destruct (parent_wf l v Hl Hv) as [Hp Hpv].
  destruct (retainAll_result s0 (parent l v) Hl0 Hp) as (s1 & E & [(Hl1 & Hh1 & Hs1)|[_ ?]]); [|by right].
  left. exists s0, s1. split_and!; auto.
  - destruct (strs s1) as [|e es] eqn:Es; [done|]. exfalso. destruct (Hs1 e) as [Hin _]. destruct Hin as [Hin _]; [by left|].
    rewrite Hs0 in Hin. by apply not_elem_of_nil in Hin.
  - intros c Hc. pose proof (code_point_high c Hc). rewrite Hh1, Hh0 by done. unfold has. rewrite Hpv.
    unfold code_point in Hc. unfold inside. change (pinCodePoint 0) with 0. change (pinCodePoint 0x10ffff) with 0x10ffff.
    destruct (Z.leb_spec 0 c), (Z.leb_spec c 0x10ffff); try lia. done.
Qed.

(** Freezing a set without strings. *)
Lemma freeze_plain (s : set0) :
  live s -> strs s = [] ->
  (exists s', UnicodeSet.freeze s = Some s' /\ plain s' /\ values s' = values s /\ UnicodeSet.isFrozen s' = true) \/ refused.
Proof.
  intros Hl Hs. destruct (UnicodeSetFreeze.freeze_result s Hl) as [(s' & E & [[(Hw & Hf & _ & Hv & Hst) _]|[_ ?]])|[_ ?]]; auto.
  - intros v Ev Hne. exfalso. apply Hne. destruct Hl as [Hwf _]. destruct (wf_strs s Hwf) as (v' & E & Hv & Es). simplify_eq.
    by rewrite <- (UVector.contents_zlen v (sw_wf v Hv)), <- Es, Hs.
  - left. exists s'. split_and!; auto. split; [done|congruence].
Qed.

(** The span-not set of a finished object. *)
Definition not_built set which v (p : not_set) : Prop :=
  exists not, match p with NullSet => None | SpanSet => Some set | OwnSet s => Some s end = Some not /\ plain not /\
    (forall c, code_point c -> has set c = true -> has not c = true) /\
    forall t c, t ∈ texts v -> matter set t = true -> ends_of which t c -> has not c = true.

(** What the constructor promises. *)
Record built_as (sp : t) l v which : Prop := {
  bu_len8 : utf8Length sp = sum_of (size8 (spanSet sp) which) (texts v);
  bu_plain : plain (spanSet sp);
  bu_has : forall c, code_point c -> has (spanSet sp) c = inv_mem l c;
  bu_all : all sp = (which =? ALL);
  bu_max : maxLength16 sp <= INT32_MAX /\ maxLength8 sp <= INT32_MAX;
  bu_none : existsb (matter (spanSet sp)) (texts v) = false -> maxLength16 sp = 0 /\ maxLength8 sp = 0;
  bu_some : existsb (matter (spanSet sp)) (texts v) = true ->
    (exists m, filled (spanSet sp) which (UVector.count v) (utf8Length sp) v (UVector.count v) m /\
       spanLengths sp = m_spans m /\ utf8Lengths sp = m_len8 m /\ utf8 sp = m_utf8 m) /\
    (bit which NOT_CONTAINED = true -> not_built (spanSet sp) which v (pSpanNotSet sp)) /\
    (bit which UTF16 = true -> forall t, t ∈ texts v -> zlen t <= maxLength16 sp) /\
    forall t, t ∈ texts v -> zlen (stored8 (spanSet sp) which t) <= maxLength8 sp
}.

Lemma texts_small v : UnicodeSetFreeze.meta_fits v -> strings_wf v -> Forall small_text (texts v).
Proof.
  intros Hm Hv. unfold UnicodeSetFreeze.meta_fits in Hm. pose proof (zlen_nonneg (texts v)) as Hn. rewrite texts_zlen in Hn by done.
  assert (Hle : 4 * foldr Z.add 0 (map zlen (texts v)) <= INT32_MAX) by lia. clear Hm Hn. revert Hle. generalize (texts v). intros ts.
  assert (Hnn : forall ts : list (list Z), 0 <= foldr Z.add 0 (map zlen ts)).
  { intros ts'. induction ts' as [|x ts' IH]; cbn; [done|]. pose proof (zlen_nonneg x). lia. }
  induction ts as [|t ts IH]; intros Hle; [constructor|]. cbn in Hle. pose proof (zlen_nonneg t). pose proof (Hnn ts).
  constructor; [unfold small_text; lia|apply IH; lia].
Qed.

Lemma meta_size set which v :
  UnicodeSetFreeze.meta_fits v -> strings_wf v ->
  8 * UVector.count v + sum_of (size8 set which) (texts v) <= INT32_MAX.
Proof.
  intros Hm Hv. unfold UnicodeSetFreeze.meta_fits in Hm.
  assert (sum_of (size8 set which) (texts v) <= 4 * foldr Z.add 0 (map zlen (texts v))); [|lia].
  clear Hm. pose proof (texts_good v Hv) as Hg. induction Hg as [|t ts Ht _ IH]; [done|]. rewrite sum_cons. cbn [map foldr].
  pose proof (stored8_size set which t (proj1 Ht)). lia.
Qed.

(** A set seen through another list with the same code points. *)
Lemma matter_same (s s' : set0) t : values s' = values s -> matter s' t = matter s t.
Proof. intros E. unfold matter, has. by rewrite E. Qed.

(** The arrays before the second loop. *)
Lemma filled_start set which len8 v :
  strings_wf v -> 0 <= len8 ->
  filled set which (UVector.count v) len8 v 0
    (Meta (if bit which NOT_CONTAINED then SpanSet else NullSet)
       (if bit which UTF8 then replicate (Z.to_nat (UVector.count v)) junk else [])
       (replicate (Z.to_nat (if which =? ALL then 4 * UVector.count v else UVector.count v)) junk)
       (if bit which UTF8 then replicate (Z.to_nat len8) junk else []) 0).
Proof.
  intros Hv Hl. pose proof (zlen_nonneg (texts v)) as Hn. rewrite texts_zlen in Hn by done. split; cbn.
  - unfold zlen. rewrite length_replicate. destruct (which =? ALL); lia.
  - intros w j t _ Hj Ht. apply zget_Some_range in Ht. lia.
  - intros ->. change (ztake 0 (texts v)) with (@nil (list Z)). unfold zlen. rewrite !length_replicate. split_and!; auto; [lia..|].
    intros j t Hj Ht. apply zget_Some_range in Ht. lia.
  - intros ->. split_and!; auto; [done|]. intros j t c Hj Ht. apply zget_Some_range in Ht. lia.
Qed.

(** The span-not set when the loops are done. *)
Lemma not_finished set which len8 v m :
  strings_wf v -> plain set -> filled set which (UVector.count v) len8 v (UVector.count v) m ->
  bit which NOT_CONTAINED = true -> not_built set which v (m_not m).
Proof.
  intros Hv Hset Hfi En. destruct (fi_not _ _ _ _ _ _ _ Hfi En) as ((Hne & Hown) & Hk & He).
  assert (Hstr : forall t c, t ∈ texts v -> matter set t = true -> ends_of which t c -> nhas set (m_not m) c = true).
  { intros t c [j Hj]%list_elem_of_lookup Hm Hec. apply (He (Z.of_nat j) t c); auto; [|by rewrite zget_nat].
    rewrite <- texts_zlen by done. apply lookup_lt_Some in Hj. unfold zlen. lia. }
  destruct (m_not m) as [| |s]; [done|..]; cbn [nhas] in *.
  - exists set. split_and!; auto.
  - destruct (Hown s eq_refl) as [[Hwf _] Hs]. exists s. split_and!; auto; [by split|]. intros c Hc. by apply Hk, code_point_high.
Qed.

Lemma new_one l v which :
  wf_list l -> strings_wf v -> UnicodeSetFreeze.meta_fits v -> one_variant which ->
  (exists sp, new l v which = Some sp /\ built_as sp l v which) \/ refused.
Proof.
  intros Hl Hv Hm Hw. pose proof Hw as (_ & _ & _ & Hall & _). unfold new.
  destruct (spanSet_built l v Hl Hv) as [(s0 & set & -> & Hret & (Hwf & _) & Hst & Hhas)|]; [|by right]. cbn [mbind option_bind].
  rewrite Hret, Hall. cbn [mbind option_bind]. assert (Hset : plain set) by done. pose proof (zlen_nonneg (texts v)) as Hn. rewrite texts_zlen in Hn by done.
  pose proof (meta_size set which v Hm Hv) as Hsz. pose proof (sum_nonneg (size8 set which) (texts v) ltac:(intros; apply zlen_nonneg)) as Hnn.
  destruct (measure_spec (Z.to_nat (UVector.count v)) set v which 0 false 0 0 0) as (max16 & max8 & -> & H16 & H8 & Hmax);
    auto using texts_small; try (unfold INT32_MAX in *; lia); [change (drop (Z.to_nat 0) (texts v)) with (texts v); lia|].
  change (drop (Z.to_nat 0) (texts v)) with (texts v) in *. rewrite Z.add_0_l. cbn [mbind option_bind orb].
  destruct (existsb (matter set) (texts v)) eqn:Eex; cbn [negb].
  2:{ left. eexists. split; [done|]. split; cbn [spanSet maxLength16 maxLength8 all utf8Length]; auto; [unfold INT32_MAX; lia|]. by rewrite Eex. }
  cbn [when mbind option_bind]. set (len8 := sum_of (size8 set which) (texts v)) in *.
  assert (exists allocSize, (if bit which UTF8 then checked (UVector.count v + (UVector.count v * 4 + len8)) else Some (UVector.count v)) = Some allocSize /\
    0 <= allocSize <= INT32_MAX) as (allocSize & -> & Hal).
  { destruct (bit which UTF8); [rewrite checked_in by (unfold INT32_MIN, INT32_MAX in *; lia)|]; eexists; (split; [done|]); lia. }
  cbn [mbind option_bind]. unfold block_ok. destruct ((allocSize <=? sizeof_staticLengths) || alloc_ok allocSize) eqn:Eok.
  2:{ right. exists allocSize. split; [done|]. by apply orb_false_iff in Eok as [_ ?]. }
  pose proof (filled_start set which len8 v Hv Hnn) as Hstart. rewrite Hall in Hstart. 
  destruct (fill_spec (Z.to_nat (UVector.count v)) set v which len8 0 _ Hset Hv (texts_small v Hm Hv) (or_intror Hw) ltac:(lia) ltac:(lia) eq_refl ltac:(lia) Hstart)
    as [(m & Hfill & Hfi)|]; [|by right].
  rewrite Hall in Hfill. rewrite Hfill. cbn [mbind option_bind]. left. eexists. split; [done|].
  split; cbn [spanSet maxLength16 maxLength8 all utf8Length]; auto; [lia|by rewrite Eex|]. intros _. cbn [spanLengths utf8Lengths utf8 utf8Length pSpanNotSet].
  split_and!; [by exists m|by eapply not_finished|..].
  - intros E16 t Ht. by apply Hmax.
  - intros t Ht. by apply Hmax.
Qed.

(** Facts about a set that carry over to another with the same list. *)
Lemma stored8_same (s s' : set0) which t : values s' = values s -> stored8 s' which t = stored8 s which t.
Proof. intros E. unfold stored8. by rewrite (matter_same s s'). Qed.

Lemma existsb_same (s s' : set0) ts : values s' = values s -> existsb (matter s') ts = existsb (matter s) ts.
Proof. intros E. induction ts as [|t ts IH]; cbn; [done|]. by rewrite IH, (matter_same s s'). Qed.

Lemma sum_same (s s' : set0) which ts : values s' = values s -> sum_of (size8 s' which) ts = sum_of (size8 s which) ts.
Proof. intros E. induction ts as [|t ts IH]; [done|]. by rewrite !sum_cons, IH, (stored8_same s s'). Qed.

(** The end of the constructor for all variants: the span-not set is frozen too. *)
Lemma freeze_not (set : set0) which v p :
  plain set -> UnicodeSet.isFrozen set = true -> not_built set which v p -> not_fine p ->
  (exists p', match p with
     | NullSet => None
     | SpanSet => set ← UnicodeSet.freeze set; Some (set, SpanSet)
     | OwnSet s => s ← UnicodeSet.freeze s; Some (set, OwnSet s)
     end = Some (set, p') /\ not_built set which v p') \/ refused.
Proof.
  intros Hset Hf (not & En & Hpl & Hk & He) [Hne Hown]. destruct p as [| |s]; [done|..].
  - left. exists SpanSet. unfold UnicodeSet.freeze. rewrite Hf. cbn [orb mbind option_bind]. split; [done|]. by exists not.
  - injection En as ->. destruct (Hown not eq_refl) as [Hl Hs].
    destruct (freeze_plain not Hl Hs) as [(s' & -> & Hpl' & Hv' & _)|]; [left|by right]. cbn [mbind option_bind].
    exists (OwnSet s'). split; [done|]. exists s'. split_and!; auto; unfold has in *; by rewrite Hv'.
Qed.

Lemma new_all l v :
  wf_list l -> strings_wf v -> UnicodeSetFreeze.meta_fits v ->
  (exists sp, new l v ALL = Some sp /\ built_as sp l v ALL) \/ refused.
Proof.
  intros Hl Hv Hm. unfold new. change (ALL =? ALL) with true. change (bit ALL NOT_CONTAINED) with true. change (bit ALL UTF8) with true.
  destruct (spanSet_built l v Hl Hv) as [(s0 & set0 & -> & Hret & Hlive & Hst & Hhas)|]; [|by right]. cbn [mbind option_bind].
  rewrite Hret. cbn [mbind option_bind]. pose proof Hlive as (Hwf & _). assert (Hset0 : plain set0) by done.
  pose proof (zlen_nonneg (texts v)) as Hn. rewrite texts_zlen in Hn by done.
  pose proof (meta_size set0 ALL v Hm Hv) as Hsz. pose proof (sum_nonneg (size8 set0 ALL) (texts v) ltac:(intros; apply zlen_nonneg)) as Hnn.
  destruct (measure_spec (Z.to_nat (UVector.count v)) set0 v ALL 0 false 0 0 0) as (max16 & max8 & -> & H16 & H8 & Hmax);
    auto using texts_small; try (unfold INT32_MAX in *; lia); [change (drop (Z.to_nat 0) (texts v)) with (texts v); lia|].
  change (drop (Z.to_nat 0) (texts v)) with (texts v) in *. rewrite Z.add_0_l. cbn [mbind option_bind orb].
  destruct (existsb (matter set0) (texts v)) eqn:Eex; cbn [negb].
  2:{ left. eexists. split; [done|]. split; cbn [spanSet maxLength16 maxLength8 all utf8Length]; auto; [unfold INT32_MAX; lia|]. by rewrite Eex. }
  cbn [when]. destruct (freeze_plain set0 Hlive Hst) as [(set & -> & Hset & Hvals & Hfz)|]; [|by right]. cbn [mbind option_bind].
  rewrite <- (existsb_same set0 set) in Eex by done. rewrite <- (sum_same set0 set) in * by done.
  assert (Hmax' : forall t, t ∈ texts v -> zlen t <= max16 /\ zlen (stored8 set ALL t) <= max8).
  { intros t Ht. rewrite (stored8_same set0 set) by done. destruct (Hmax t Ht) as [Hmax1 Hmax2]. auto. }
  set (len8 := sum_of (size8 set ALL) (texts v)) in *.
  rewrite checked_in by (unfold INT32_MIN, INT32_MAX in *; lia). cbn [mbind option_bind]. unfold block_ok.
  set (allocSize := UVector.count v * (4 + 1 + 1 + 1 + 1) + len8).
  destruct ((allocSize <=? sizeof_staticLengths) || alloc_ok allocSize) eqn:Eok.
  2:{ right. exists allocSize. split; [unfold allocSize; lia|]. by apply orb_false_iff in Eok as [_ ?]. }
  pose proof (filled_start set ALL len8 v Hv Hnn) as Hstart.
  destruct (fill_spec (Z.to_nat (UVector.count v)) set v ALL len8 0 _ Hset Hv (texts_small v Hm Hv) (or_introl eq_refl) ltac:(lia) ltac:(lia) eq_refl ltac:(lia) Hstart)
    as [(m & Hfill & Hfi)|]; [|by right].
  change (ALL =? ALL) with true in Hfill. change (bit ALL NOT_CONTAINED) with true in Hfill. change (bit ALL UTF8) with true in Hfill.
  rewrite Hfill. cbn [mbind option_bind].
  pose proof (not_finished set ALL len8 v m Hv Hset Hfi eq_refl) as Hnb. destruct (fi_not _ _ _ _ _ _ _ Hfi eq_refl) as (Hfine & _).
  destruct (freeze_not set ALL v (m_not m) Hset Hfz Hnb Hfine) as [(p & -> & Hp)|]; [|by right]. cbn [mbind option_bind].
  left. eexists. split; [done|]. split; cbn [spanSet maxLength16 maxLength8 all utf8Length]; auto; [|lia|by rewrite Eex|].
  - intros c Hc. unfold has. rewrite Hvals. by apply Hhas.
  - intros _. cbn [spanLengths utf8Lengths utf8 utf8Length pSpanNotSet]. split_and!; [by exists m|done|..].
    + intros _ t Ht. by apply Hmax'.
    + intros t Ht. by apply Hmax'.
Qed.
End Build.
End StringSpanBuild.
