(* ===== verification/StringSpanSet.v ===== *)
(** * Spans of sets with strings

    UnicodeSet over the string spans of UnicodeSetStringSpan.v: the constructor discharges what
    the set relies on, and [span] and [spanBack] over UTF-16 mean the same for a mutable set,
    which builds its string span for the call, and for a frozen one, which carries it. *)

From S2P Require Import Prelude Vector Utf16 Utf8 UString StringConv StringConvFacts InversionList BMPSet BMPSetUtf8 UnicodeSet UnicodeSetFacts UnicodeSetAlgebra UnicodeSetFreeze UnicodeSetSpan StringSpanLoop UnicodeSetStringSpan StringSpanFacts StringSpanText StringSpanUtf16 StringSpanBuild.
Import InvList.

Module StringSpanSet.
Import Utf16 UnicodeSetFacts UnicodeSetAlgebra StringSpanLoop UnicodeSetStringSpan StringSpanFacts StringSpanText StringSpanUtf16 StringSpanBuild.
Notation uvec := (UVector.t UnicodeString.t).

Section Carried.
Context {HP : Heap} {OS : ObjectSizes}.
#[local] Existing Instance no_span.

(** ** What a constructed object carries *)

Lemma byte_val16 (set : set0) fwd exact t : byte_val set fwd true exact t = byte16 set exact (if fwd then ahead else behind) t.
Proof.
  unfold byte_val, matter, byte16, byte_of, span16, ahead, behind. rewrite negb_involutive.
  assert (forallb (has set) (rev (code_points t)) = forallb (has set) (code_points t)) as Hrev.
  { apply eq_true_iff_eq. by rewrite !forallb_Forall, Forall_rev_iff. }
  destruct fwd; [done|]. by rewrite Hrev.
Qed.

Lemma built_bytes sp l v which w byte :
  strings_wf v -> built_as sp l v which -> existsb (matter (spanSet sp)) (texts v) = true -> bit which UTF16 = true -> 0 <= w < 4 ->
  (forall t, wanted (spanSet sp) which w t = byte t) -> carries16 sp v w byte.
Proof.
  intros Hv Hb Hex H16 Hw Hby. destruct (bu_some _ _ _ _ Hb Hex) as ((m & Hfi & Hsp & _) & _ & Hmax & _). split.
  - apply Hb.
  - intros i t Ht. unfold span_byte. rewrite (bu_all _ _ _ _ Hb), Hsp, <- Hby. apply (fi_bytes _ _ _ _ _ _ _ Hfi w i t Hw); [|done].
    apply zget_Some_range in Ht. rewrite texts_zlen in Ht by done. lia.
  - by apply Hmax.
  - apply Hb.
Qed.

Lemma ends_ahead which t c l : bit which FWD = true -> ahead t = c :: l -> ends_of which t c.
Proof. intros Hf E. left. split; [done|]. unfold ahead in E. by rewrite E. Qed.

Lemma ends_behind which t c l : bit which BACK = true -> behind t = c :: l -> ends_of which t c.
Proof.
  intros Hf E. right. split; [done|]. unfold behind in E. apply (f_equal (@rev Z)) in E. rewrite rev_involutive in E. rewrite E. cbn [rev].
  apply last_snoc.
Qed.

Lemma relevant_behind (set : set0) t : relevant (has set) behind t -> matter set t = true.
Proof. intros Hr. apply matter_relevant. unfold relevant, behind, ahead in *. by rewrite Forall_rev_iff in Hr. Qed.

Lemma built_not sp l v which :
  built_as sp l v which -> existsb (matter (spanSet sp)) (texts v) = true -> bit which NOT_CONTAINED = true ->
  exists not, (bit which FWD = true -> carries_not sp v ahead not) /\ (bit which BACK = true -> carries_not sp v behind not).
Proof.
  intros Hb Hex Hn. destruct (bu_some _ _ _ _ Hb Hex) as (_ & Hnot & _). destruct (Hnot Hn) as (not & E & Hpl & Hk & He).
  exists not. split; intros Hd; (split; [unfold not_span; exact E|done|done|]); intros t c l' Ht Hrel Ec; apply (He t c Ht).
  - by apply matter_relevant.
  - by eapply ends_ahead.
  - by apply relevant_behind.
  - by eapply ends_behind.
Qed.

(** ** The results of the object *)

(** The object is built for this condition and direction. *)
Definition for_call (which : Z) (fwd : bool) (spanCondition : Z) : Prop :=
  which = ALL \/
  which = if spanCondition =? UnicodeSet.USET_SPAN_NOT_CONTAINED
          then if fwd then UnicodeSet.FWD_UTF16_NOT_CONTAINED else UnicodeSet.BACK_UTF16_NOT_CONTAINED
          else if fwd then UnicodeSet.FWD_UTF16_CONTAINED else UnicodeSet.BACK_UTF16_CONTAINED.

Lemma object_span sp l v which s spanCondition :
  strings_wf v -> built_as sp l v which -> existsb (matter (spanSet sp)) (texts v) = true -> for_call which true spanCondition ->
  Forall unit16 s -> s <> [] ->
  (exists rest, span sp v s spanCondition = Some (zlen s - rest) /\
     outcome U16_LENGTH ahead (has (spanSet sp)) (.∈ texts v) (code_points s) spanCondition rest) \/ refused.
Proof.
  intros Hv Hb Hex Hcall Hs Hne. unfold outcome. destruct (Z.eqb_spec spanCondition UnicodeSet.USET_SPAN_NOT_CONTAINED) as [->|Hcond].
  - left. unfold for_call in Hcall. change (UnicodeSet.USET_SPAN_NOT_CONTAINED =? UnicodeSet.USET_SPAN_NOT_CONTAINED) with true in Hcall. cbv iota in Hcall.
    assert (Hbits : bit which UTF16 = true /\ bit which NOT_CONTAINED = true /\ bit which FWD = true) by (by destruct Hcall as [-> | ->]).
    destruct Hbits as (H16 & Hn & Hf). destruct (built_not sp l v which Hb Hex Hn) as (not & Hcn & _). unfold span.
    change (UnicodeSet.USET_SPAN_NOT_CONTAINED =? UnicodeSet.USET_SPAN_NOT_CONTAINED) with true. cbv iota.
    assert (exists exact, forall t, wanted (spanSet sp) which 0 t = byte16 (spanSet sp) exact ahead t) as (exact & Hby).
    { destruct Hcall as [-> | ->]; [exists true|exists false]; intros t; apply (byte_val16 (spanSet sp) true). }
    eapply (spanNot16_spec sp v s not); eauto using ahead_tells. eapply built_bytes; eauto. lia.
  - apply span16_spec; auto. eapply built_bytes; eauto; [|lia|].
    + unfold for_call in Hcall. destruct (Z.eqb_spec spanCondition UnicodeSet.USET_SPAN_NOT_CONTAINED); [done|]. by destruct Hcall as [-> | ->].
    + intros t. unfold for_call in Hcall. destruct (Z.eqb_spec spanCondition UnicodeSet.USET_SPAN_NOT_CONTAINED); [done|].
      destruct Hcall as [-> | ->]; apply (byte_val16 (spanSet sp) true true).
Qed.

Lemma object_spanBack sp l v which s spanCondition :
  strings_wf v -> built_as sp l v which -> existsb (matter (spanSet sp)) (texts v) = true -> for_call which false spanCondition ->
  Forall unit16 s -> s <> [] ->
  (exists rest, spanBack sp v s spanCondition = Some rest /\
     outcome U16_LENGTH behind (has (spanSet sp)) (.∈ texts v) (rev (code_points s)) spanCondition rest) \/ refused.
Proof.
  intros Hv Hb Hex Hcall Hs Hne. unfold outcome. destruct (Z.eqb_spec spanCondition UnicodeSet.USET_SPAN_NOT_CONTAINED) as [->|Hcond].
  - left. unfold for_call in Hcall. change (UnicodeSet.USET_SPAN_NOT_CONTAINED =? UnicodeSet.USET_SPAN_NOT_CONTAINED) with true in Hcall. cbv iota in Hcall.
    assert (Hbits : bit which UTF16 = true /\ bit which NOT_CONTAINED = true /\ bit which BACK = true) by (by destruct Hcall as [-> | ->]).
    destruct Hbits as (H16 & Hn & Hf). destruct (built_not sp l v which Hb Hex Hn) as (not & _ & Hcn). unfold spanBack.
    change (UnicodeSet.USET_SPAN_NOT_CONTAINED =? UnicodeSet.USET_SPAN_NOT_CONTAINED) with true. cbv iota.
    destruct Hcall as [-> | ->].
    + eapply (spanNotBack16_spec sp v s not); eauto using ahead_tells_behind. eapply built_bytes; eauto; [lia|].
      intros t. apply (byte_val16 (spanSet sp) true).
    + eapply (spanNotBack16_spec sp v s not); eauto using behind_tells. eapply built_bytes; eauto; [lia|].
      intros t. apply (byte_val16 (spanSet sp) false).
  - unfold for_call in Hcall. destruct (Z.eqb_spec spanCondition UnicodeSet.USET_SPAN_NOT_CONTAINED); [done|].
    apply spanBack16_spec; auto. eapply built_bytes; eauto; [by destruct Hcall as [-> | ->]|lia|].
    intros t. destruct Hcall as [-> | ->]; apply (byte_val16 (spanSet sp) false true).
Qed.
End Carried.

(** ** Sets over the objects *)

#[local] Existing Instance string_span | 0.

Section Sets.
Context {HP : Heap} {OS : ObjectSizes}.
Implicit Types s : UnicodeSet.t.

(** An object is used only if a string matters. *)
Lemma needs_spec sp l v which :
  strings_wf v -> built_as sp l v which -> bit which UTF16 = true ->
  needsUTF16 sp = existsb (matter (spanSet sp)) (texts v).
Proof.
  intros Hv Hb H16. unfold needsUTF16. destruct (existsb _ _) eqn:Ex.
  - destruct (bu_some _ _ _ _ Hb Ex) as (_ & _ & Hmax & _). pose proof Ex as (t & Ht & _)%existsb_exists.
    rewrite <- list_elem_of_In in Ht. specialize (Hmax H16 t Ht). pose proof (texts_good v Hv) as Hg. rewrite Forall_forall in Hg.
    pose proof (good_nonempty t (Hg t Ht)). destruct t as [|x t]; [done|]. rewrite zlen_cons in Hmax. pose proof (zlen_nonneg t).
    destruct (Z.eqb_spec (maxLength16 sp) 0); [lia|done].
  - by destruct (bu_none _ _ _ _ Hb Ex) as [-> _].
Qed.

(** The constructor keeps what the set relies on. *)
#[global] Instance string_span_laws : UnicodeSetFreeze.StringSpanLaws.
Proof.
  split. intros l v Hl Hv _ Hm. destruct (new_all l v Hl Hv Hm) as [(sp & E & Hb)|]; [left|by right].
  exists sp. split; [exact E|]. intros c Hc. assert (code_point c) by (unfold code_point, UNICODESET_HIGH in *; lia).
  rewrite <- (bu_has _ _ _ _ Hb) by done. destruct (bu_plain _ _ _ _ Hb) as [Hwf _].
  by apply UnicodeSetSpan.code_point_contains.
Qed.

(** The strings of the set as texts. *)
Definition elements s : list (list Z) := map text_of (strs s).

Lemma elements_texts s v : UnicodeSet.strings s = Some v -> elements s = texts v.
Proof. intros E. unfold elements, strs. by rewrite E. Qed.

(** A set whose spans can be asked for: its lookup object, if it has one, is made for its
    contents. *)
Record spannable s (v : uvec) : Prop := {
  sn_wf : wf s;
  sn_strings : UnicodeSet.strings s = Some v;
  sn_strings_wf : strings_wf v;
  sn_fits : UnicodeSetFreeze.meta_fits v;
  sn_object : match UnicodeSet.stringSpan s with
    | Some sp => UnicodeSet.bmpSet s = None /\ built_as sp (values s) v ALL /\ existsb (matter (spanSet sp)) (texts v) = true
    | None => UnicodeSet.bmpSet s = None \/ Forall (fun t => Forall (fun c => has s c = true) (code_points t)) (texts v)
    end
}.

(** The text passed with its length, or with a terminating NUL and a negative length. *)
Definition passed (u text : list Z) (length : Z) : Prop :=
  text = u /\ length = zlen u \/ length < 0 /\ Forall (fun x => x <> 0) u /\ exists st, text = u ++ 0 :: st.

Lemma strlen_nul u st t : Forall (fun x => x <> 0) u -> ustring.strlen_loop (u ++ 0 :: st) t = Some (t + zlen u).
Proof.
  intros Hu. revert t. induction Hu as [|x u Hx Hu IH]; intros t; cbn [app ustring.strlen_loop].
  - cbn. change (zlen (@nil Z)) with 0. f_equal. lia.
  - destruct (Z.eqb_spec x 0); [done|]. cbn [negb]. rewrite IH, zlen_cons. f_equal. lia.
Qed.

Lemma passed_text u text length :
  passed u text length ->
  (if length <? 0 then ustring.u_strlen text else Some length) = Some (zlen u) /\ ztake (zlen u) text = u.
Proof.
  intros [[-> ->]|(Hl & Hu & st & ->)].
  - pose proof (zlen_nonneg u). destruct (Z.ltb_spec (zlen u) 0); [lia|]. split; [done|apply ztake_all].
  - destruct (Z.ltb_spec length 0); [|lia]. split; [apply (strlen_nul u st 0 Hu)|apply ztake_app_exact].
Qed.

(** ** The spans *)

Notation ts s := (.∈ elements s).

(** The code points of the text are read forward or backward. *)
Lemma behind_elem u c : c ∈ rev (code_points u) -> Forall unit16 u -> code_point c.
Proof. rewrite rev_elem. intros Hc Hu%code_points_valid. rewrite Forall_forall in Hu. auto. Qed.

Lemma ahead_elem u c : c ∈ code_points u -> Forall unit16 u -> code_point c.
Proof. rewrite <- rev_elem. apply behind_elem. Qed.

(** No element starts in an empty text. *)
Lemma outcome_empty s v cps spanCondition :
  spannable s v -> cps = ahead \/ cps = behind -> outcome U16_LENGTH cps (has s) (ts s) [] spanCondition 0.
Proof.
  intros Hs Hcps. apply (outcome_nil U16_LENGTH U16_LENGTH_sizes). rewrite (elements_texts s v) by apply Hs. intros t Ht.
  pose proof (texts_good v (sn_strings_wf _ _ Hs)) as Hg. rewrite Forall_forall in Hg. destruct (Hg t Ht) as [_ Hl]. unfold ahead, behind in Hcps. intros E.
  destruct Hcps as [-> | ->]; [|apply (f_equal (@rev Z)) in E; rewrite rev_involutive in E]; by rewrite E in Hl; cbn in Hl; lia.
Qed.

(** Strings whose code points are all in the set add nothing. *)
Lemma outcome_chars s v u cps spanCondition :
  spannable s v -> Forall (fun t => Forall (fun c => has s c = true) (code_points t)) (texts v) -> cps = ahead \/ cps = behind -> Forall unit16 u ->
  outcome U16_LENGTH cps (has s) (ts s) (cps u) spanCondition
    (zlen u - UnicodeSetSpan.run s (negb (spanCondition =? UnicodeSet.USET_SPAN_NOT_CONTAINED)) (cps u)).
Proof.
  intros Hs Hall Hcps Hu. assert (Ht : total U16_LENGTH (cps u) = zlen u).
  { unfold ahead, behind in Hcps. destruct Hcps as [-> | ->]; [|rewrite total_rev]; by apply total16_text. }
  unfold UnicodeSetSpan.run. rewrite <- Ht, <- span_of_units. apply outcome_plain; [apply U16_LENGTH_sizes|].
  rewrite (elements_texts s v) by apply Hs. intros t Hin. rewrite Forall_forall in Hall. specialize (Hall t Hin).
  pose proof (texts_good v (sn_strings_wf _ _ Hs)) as Hg. rewrite Forall_forall in Hg. destruct (Hg t Hin) as [_ Hl].
  unfold ahead, behind in Hcps. destruct Hcps as [-> | ->].
  - split; [by intros E; rewrite E in Hl; cbn in Hl; lia|done].
  - rewrite Forall_rev_iff. split; [|done]. intros E. apply (f_equal (@rev Z)) in E. rewrite rev_involutive in E. rewrite E in Hl. cbn in Hl. lia.
Qed.

(** The span set of an object has the code points of the list it was made from. *)
Lemma built_has sp s v which c : built_as sp (values s) v which -> code_point c -> has (spanSet sp) c = has s c.
Proof. intros Hb Hc. by rewrite (bu_has _ _ _ _ Hb). Qed.

Lemma built_irrelevant sp s v which :
  built_as sp (values s) v which -> strings_wf v -> existsb (matter (spanSet sp)) (texts v) = false ->
  Forall (fun t => Forall (fun c => has s c = true) (code_points t)) (texts v).
Proof.
  intros Hb Hv Ex. pose proof (texts_good v Hv) as Hg. rewrite Forall_forall in Hg |- *. intros t Ht. destruct (Hg t Ht) as [Hu _].
  assert (Hm : matter (spanSet sp) t = false).
  { destruct (matter _ t) eqn:E; [|done]. rewrite <- Ex. symmetry. apply existsb_exists. exists t. by rewrite <- list_elem_of_In. }
  apply negb_false_iff, forallb_Forall in Hm. rewrite Forall_forall in Hm |- *. intros c Hc. rewrite <- (built_has sp s v which c Hb); [auto|].
  by eapply ahead_elem.
Qed.

(** The object that a mutable set builds for one call. *)
Definition variant (fwd : bool) (spanCondition : Z) : Z :=
  if spanCondition =? UnicodeSet.USET_SPAN_NOT_CONTAINED
  then if fwd then UnicodeSet.FWD_UTF16_NOT_CONTAINED else UnicodeSet.BACK_UTF16_NOT_CONTAINED
  else if fwd then UnicodeSet.FWD_UTF16_CONTAINED else UnicodeSet.BACK_UTF16_CONTAINED.

Lemma variant_one fwd spanCondition : one_variant (variant fwd spanCondition) /\ bit (variant fwd spanCondition) UTF16 = true.
Proof. unfold variant. destruct (_ =? _), fwd; split; try done; vm_compute; naive_solver. Qed.

(** What a call with a fresh or a carried object needs. *)
Lemma object_ahead sp s v which u spanCondition :
  spannable s v -> built_as sp (values s) v which -> which = ALL \/ which = variant true spanCondition ->
  existsb (matter (spanSet sp)) (texts v) = true -> Forall unit16 u -> u <> [] ->
  (exists n, span sp v u spanCondition = Some n /\ outcome U16_LENGTH ahead (has s) (ts s) (code_points u) spanCondition (zlen u - n)) \/ refused.
Proof.
  intros Hs Hb Hw Hex Hu Hne. destruct (object_span sp (values s) v which u spanCondition) as [(rest & E & Ho)|]; auto; [apply Hs|].
  left. eexists. split; [exact E|]. rewrite (elements_texts s v) by apply Hs. replace (zlen u - (zlen u - rest)) with rest by lia.
  eapply span_outcome_ext; [|exact Ho]. intros c Hc. eapply built_has; [done|]. by eapply ahead_elem.
Qed.

Lemma object_behind sp s v which u spanCondition :
  spannable s v -> built_as sp (values s) v which -> which = ALL \/ which = variant false spanCondition ->
  existsb (matter (spanSet sp)) (texts v) = true -> Forall unit16 u -> u <> [] ->
  (exists n, spanBack sp v u spanCondition = Some n /\ outcome U16_LENGTH behind (has s) (ts s) (rev (code_points u)) spanCondition n) \/ refused.
Proof.
  intros Hs Hb Hw Hex Hu Hne. destruct (object_spanBack sp (values s) v which u spanCondition) as [(rest & E & Ho)|]; auto; [apply Hs|].
  left. eexists. split; [exact E|]. rewrite (elements_texts s v) by apply Hs.
  eapply span_outcome_ext; [|exact Ho]. intros c Hc. eapply built_has; [done|]. by eapply behind_elem.
Qed.

Lemma span_slow_spec s v u text length spanCondition :
  spannable s v -> passed u text length -> Forall unit16 u ->
  (exists n, UnicodeSet.span_slow s text length spanCondition (negb (spanCondition =? UnicodeSet.USET_SPAN_NOT_CONTAINED)) = Some n /\
     outcome U16_LENGTH ahead (has s) (ts s) (code_points u) spanCondition (zlen u - n)) \/ refused.
Proof.
  intros Hs [Hlen Htake]%passed_text Hu. unfold UnicodeSet.span_slow. rewrite Hlen. cbn [mbind option_bind].
  destruct (Z.eqb_spec (zlen u) 0) as [Hz|Hz].
  { left. exists 0. split; [done|]. apply zlen_0_inv in Hz as ->. apply (outcome_empty s v); auto. }
  assert (Hne : u <> []) by (by intros ->). rewrite Htake. pose proof Hs as [Hwf Ev Hv Hfit Hobj]. rewrite Ev.
  assert (Hchars : Forall (fun t => Forall (fun c => has s c = true) (code_points t)) (texts v) ->
    exists n, UnicodeSet.span_chars (S (Z.to_nat (zlen u))) s u 0 0 (zlen u) (negb (spanCondition =? UnicodeSet.USET_SPAN_NOT_CONTAINED)) = Some n /\
     outcome U16_LENGTH ahead (has s) (ts s) (code_points u) spanCondition (zlen u - n)).
  { intros Hall. eexists. split; [apply (UnicodeSetSpan.span_chars_spec _ s [] u); auto; lia|]. apply (outcome_chars s v u ahead); auto. }
  destruct (UnicodeSet.stringSpan s) as [sp|] eqn:Esp; cbn [mbind option_bind].
  { destruct Hobj as (_ & Hb & Hex). eapply object_ahead; eauto. }
  destruct (wf_cells s Hwf) as (cells & Ec & _). rewrite Ec. cbn [mbind option_bind].
  assert (Hvals : ztake (UnicodeSet.len s) cells = values s) by (unfold values; by rewrite Ec). rewrite Hvals.
  destruct (Z.eqb_spec (UVector.count v) 0) as [H0|H0]; cbn [negb].
  { left. apply Hchars. rewrite <- texts_zlen in H0 by done. by apply zlen_0_inv in H0 as ->. }
  fold (variant true spanCondition). destruct (variant_one true spanCondition) as [Hone H16].
  destruct (new_one (values s) v (variant true spanCondition)) as [(sp & E & Hb)|]; auto; [apply Hwf|].
  cbn [ss_new string_span]. rewrite E. cbn [mbind option_bind]. change (@needsStringSpanUTF16 string_span sp) with (needsUTF16 sp).
  rewrite (needs_spec sp _ v _ Hv Hb H16). destruct (existsb _ _) eqn:Ex; [eapply object_ahead; eauto|].
  left. apply Hchars. by eapply built_irrelevant.
Qed.

Lemma spanBack_slow_spec s v u text length spanCondition :
  spannable s v -> passed u text length -> Forall unit16 u ->
  (exists n, UnicodeSet.spanBack_slow s text length spanCondition (negb (spanCondition =? UnicodeSet.USET_SPAN_NOT_CONTAINED)) = Some n /\
     outcome U16_LENGTH behind (has s) (ts s) (rev (code_points u)) spanCondition n) \/ refused.
Proof.
  intros Hs [Hlen Htake]%passed_text Hu. unfold UnicodeSet.spanBack_slow. rewrite Hlen. cbn [mbind option_bind].
  destruct (Z.eqb_spec (zlen u) 0) as [Hz|Hz].
  { left. exists 0. split; [done|]. apply zlen_0_inv in Hz as ->. apply (outcome_empty s v); auto. }
  assert (Hne : u <> []) by (by intros ->). rewrite Htake. pose proof Hs as [Hwf Ev Hv Hfit Hobj]. rewrite Ev.
  assert (Hchars : Forall (fun t => Forall (fun c => has s c = true) (code_points t)) (texts v) ->
    exists n, UnicodeSet.spanBack_chars (S (Z.to_nat (zlen u))) s u (zlen u) (zlen u) (negb (spanCondition =? UnicodeSet.USET_SPAN_NOT_CONTAINED)) = Some n /\
     outcome U16_LENGTH behind (has s) (ts s) (rev (code_points u)) spanCondition n).
  { intros Hall. pose proof (UnicodeSetSpan.spanBack_chars_spec (S (Z.to_nat (zlen u))) s u []) as Hsp. rewrite app_nil_r in Hsp.
    eexists. split; [apply Hsp; auto; lia|]. apply (outcome_chars s v u behind); auto. }
  destruct (UnicodeSet.stringSpan s) as [sp|] eqn:Esp; cbn [mbind option_bind].
  { destruct Hobj as (_ & Hb & Hex). eapply object_behind; eauto. }
  destruct (wf_cells s Hwf) as (cells & Ec & _). rewrite Ec. cbn [mbind option_bind].
  assert (Hvals : ztake (UnicodeSet.len s) cells = values s) by (unfold values; by rewrite Ec). rewrite Hvals.
  destruct (Z.eqb_spec (UVector.count v) 0) as [H0|H0]; cbn [negb].
  { left. apply Hchars. rewrite <- texts_zlen in H0 by done. by apply zlen_0_inv in H0 as ->. }
  fold (variant false spanCondition). destruct (variant_one false spanCondition) as [Hone H16].
  destruct (new_one (values s) v (variant false spanCondition)) as [(sp & E & Hb)|]; auto; [apply Hwf|].
  cbn [ss_new string_span]. rewrite E. cbn [mbind option_bind]. change (@needsStringSpanUTF16 string_span sp) with (needsUTF16 sp).
  rewrite (needs_spec sp _ v _ Hv Hb H16). destruct (existsb _ _) eqn:Ex; [eapply object_behind; eauto|].
  left. apply Hchars. by eapply built_irrelevant.
Qed.

(** The same for the BMPSet of a frozen set. *)
Lemma spans_spec s v u text length spanCondition :
  spannable s v -> passed u text length -> Forall unit16 u ->
  (exists n m, UnicodeSet.span s text length spanCondition = Some n /\ UnicodeSet.spanBack s text length spanCondition = Some m /\
     outcome U16_LENGTH ahead (has s) (ts s) (code_points u) spanCondition (zlen u - n) /\
     outcome U16_LENGTH behind (has s) (ts s) (rev (code_points u)) spanCondition m) \/ refused.
Proof.
  intros Hs Hp Hu. destruct (span_slow_spec s v u text length spanCondition Hs Hp Hu) as [(n & En & Hn)|]; [|by right].
  destruct (spanBack_slow_spec s v u text length spanCondition Hs Hp Hu) as [(m & Em & Hm)|]; [left|by right].
  destruct (UnicodeSet.bmpSet s) as [b|] eqn:Eb.
  2:{ exists n, m. unfold UnicodeSet.span, UnicodeSet.spanBack. rewrite Eb. done. }
  destruct (Z.ltb_spec 0 length) as [Hl|Hl].
  2:{ exists n, m. unfold UnicodeSet.span, UnicodeSet.spanBack. rewrite Eb. destruct (Z.ltb_spec 0 length); [lia|done]. }
  destruct Hp as [[-> ->]|(? & _)]; [|lia]. assert (Hne : u <> []) by (by intros ->).
  pose proof Hs as [Hwf Ev Hv Hfit Hobj]. destruct (UnicodeSet.stringSpan s) as [sp|] eqn:Esp.
  { destruct Hobj as (Hb & _). congruence. }
  destruct Hobj as [?|Hall]; [congruence|].
  destruct (UnicodeSetSpan.span_runs s u spanCondition Hwf) as [E1 E2]; auto; [split; [done|left; by rewrite Eb]|].
  eexists _, _. split; [exact E1|]. split; [exact E2|]. split; [apply (outcome_chars s v u ahead)|apply (outcome_chars s v u behind)]; auto.
Qed.

(** ** From a mutable set to its spans *)

(** The meta data of the strings fit an [int32_t]. *)
Definition fits s : Prop := forall v, UnicodeSet.strings s = Some v -> UnicodeSetFreeze.meta_fits v.

Lemma live_spannable s : live s -> fits s -> exists v, spannable s v.
Proof.
  intros (Hwf & Hf & _) Hfit. pose proof Hf as [Hb Hsp]%not_frozen. destruct (wf_strings s Hwf) as (v & Ev & Hv).
  exists v. split; auto. rewrite Hsp. by left.
Qed.

Lemma frozen_spannable s s' :
  live s -> fits s -> UnicodeSet.freeze s = Some s' -> UnicodeSet.isBogus s' = false ->
  (exists v, spannable s' v /\ values s' = values s /\ strs s' = strs s) \/ refused.
Proof.
  intros Hl Hfit Ef Hbog. pose proof Hl as (Hwf & _). destruct (wf_strings s Hwf) as (v & Ev & Hv).
  destruct (new_all (values s) v (wf_values s Hwf) Hv (Hfit v Ev)) as [(sp & Enew & Hb)|]; [|by right].
  destruct (UnicodeSetFreeze.freeze_result s Hl) as [(s1 & E1 & Hr)|[_ ?]]; [|..|by right].
  { intros v' Ev' Hne. simplify_eq. apply UnicodeSetFreeze.ss_new_contains; auto. by apply wf_values. }
  rewrite Ef in E1. injection E1 as <-. destruct Hr as [[(Hwf' & _ & _ & Hval & Hstr) [Est Hlk]]|[? ?]]; [|congruence].
  assert (Hone : forall v' sp', UnicodeSet.strings s = Some v' -> @ss_new string_span (values s) v' UnicodeSet.which_ALL = Some sp' -> sp' = sp /\ v' = v).
  { intros v' sp' Ev' E'. rewrite Ev in Ev'. injection Ev' as <-. split; [|done]. change (new (values s) v ALL = Some sp') in E'. congruence. }
  assert (Hneeds := needs_spec sp _ v _ Hv Hb eq_refl).
  destruct (UnicodeSet.stringSpan s') as [sp'|] eqn:Esp.
  - left. exists v. split; [|done]. destruct Hlk as (Hbm & v' & Ev' & Es' & Hn). destruct (Hone v' sp' Ev' Es') as [-> ->].
    split; [done|congruence|done|by apply Hfit|]. rewrite Esp, Hval. split_and!; auto. by rewrite <- Hneeds.
  - destruct Hlk as (Hbm & [Hs|[?|(v' & sp' & Ev' & Es' & Hn)]]); [left|by right|left]; exists v; (split; [|done]).
    all: split; [done|congruence|done|by apply Hfit|]; rewrite Esp; right.
    + unfold strs in Hs. rewrite Ev in Hs. unfold texts. cbn in Hs. rewrite Hs. constructor.
    + destruct (Hone v' sp' Ev' Es') as [-> ->]. unfold has. rewrite Hval. eapply (built_irrelevant sp s); eauto; by rewrite <- Hneeds.
Qed.

(** C26: over any 16-bit text, passed with its length or NUL-terminated, and for a set with any
    strings, mutable or frozen, [span] and [spanBack] return, unless an allocation is refused:
    for CONTAINED the furthest position up to which the text is a concatenation of code points
    and strings of the set, for SIMPLE a position up to which it is such a concatenation and at
    which no element of the set follows, and for NOT_CONTAINED the first position at which an
    element of the set starts.  Eight bytes for each string of the set and four for each of
    their units add up to an [int32_t] ([fits]). *)
Theorem span_with_strings s s' u text length spanCondition :
  live s -> fits s -> s' = s \/ UnicodeSet.freeze s = Some s' /\ UnicodeSet.isBogus s' = false ->
  passed u text length -> Forall unit16 u ->
  (exists n m, UnicodeSet.span s' text length spanCondition = Some n /\ UnicodeSet.spanBack s' text length spanCondition = Some m /\
     outcome U16_LENGTH ahead (has s) (.∈ elements s) (code_points u) spanCondition (zlen u - n) /\
     outcome U16_LENGTH behind (has s) (.∈ elements s) (rev (code_points u)) spanCondition m) \/ refused.
Proof.
  intros Hl Hfit Hor Hp Hu. destruct Hor as [->|[Ef Hb]].
  - destruct (live_spannable s Hl Hfit) as (v & Hs). by apply (spans_spec s v).
  - destruct (frozen_spannable s s' Hl Hfit Ef Hb) as [(v & Hs & Hval & Hstr)|]; [|by right].
    pose proof (spans_spec s' v u text length spanCondition Hs Hp Hu) as Hr. unfold elements, has in *. by rewrite Hval, Hstr in Hr.
Qed.
End Sets.

(** The set of a, b, c, "ab" and "bcx". *)
Definition overlapping : @UnicodeSet.t string_span := sample_set [0x61; 0x64; UNICODESET_HIGH] [[0x61; 0x62]; [0x62; 0x63; 0x78]].

Lemma overlapping_live : live overlapping.
Proof.
  apply sample_live.
  - split_and!; [repeat constructor; unfold UNICODESET_HIGH; lia..|done].
  - apply sample_strings_wf; [done| |by repeat constructor|].
    + repeat constructor; eexists; (split_and!; [done|repeat constructor; unfold unit16; lia|]); [right; by eexists _, _|by left].
    + apply NoDup_cons. split; [|apply NoDup_singleton]. by rewrite list_elem_of_singleton.
Qed.

Lemma overlapping_fits : fits overlapping.
Proof. intros v [= <-]. by vm_compute. Qed.

Lemma span_with_strings_witness :
  let u := [0x61; 0x62; 0x63; 0x78] in
  UnicodeSet.span overlapping u 4 1 = Some 4 /\ UnicodeSet.span overlapping u 4 2 = Some 4 /\
  ((exists n m, UnicodeSet.span overlapping u 4 1 = Some n /\ UnicodeSet.spanBack overlapping u 4 1 = Some m /\
     outcome U16_LENGTH ahead (has overlapping) (.∈ elements overlapping) (code_points u) 1 (4 - n) /\
     outcome U16_LENGTH behind (has overlapping) (.∈ elements overlapping) (rev (code_points u)) 1 m) \/ refused).
Proof.
  split; [by vm_compute|]. split; [by vm_compute|].
  apply (span_with_strings overlapping overlapping [0x61; 0x62; 0x63; 0x78] [0x61; 0x62; 0x63; 0x78] 4 1).
  - apply overlapping_live.
  - apply overlapping_fits.
  - by left.
  - by left.
  - repeat constructor; unfold unit16; lia.
Defined.
End StringSpanSet.
