(* ===== verification/StringSpanUtf8.v ===== *)
(** * Spans of UnicodeSetStringSpan over UTF-8

    [spanUTF8], [spanBackUTF8] and their NOT_CONTAINED variants of an object whose meta data are
    right for its strings, and the UTF-8 spans of UnicodeSet on top of them.  The text is any
    bytes, read as the pieces of Utf8.v: a lead byte with the trail bytes it owns, or a single
    byte; an ill-formed piece stands for U+FFFD. *)

From S2P Require Import Prelude Vector Utf16 Utf8 UString StringConv StringConvFacts InversionList BMPSet BMPSetUtf8 UnicodeSet UnicodeSetFacts UnicodeSetAlgebra UnicodeSetFreeze UnicodeSetSpan StringSpanLoop UnicodeSetStringSpan StringSpanFacts StringSpanText StringSpanUtf16 StringSpanBuild StringSpanSet.
Import InvList.

Module StringSpanUtf8.
Import Utf16 UnicodeSetFacts UnicodeSetAlgebra StringSpanLoop UnicodeSetStringSpan StringSpanFacts StringSpanText StringSpanUtf16 StringSpanBuild StringSpanSet.
Notation uvec := (UVector.t UnicodeString.t).
Notation byte8 := Utf8.byte8.
Notation pieces := Utf8.pieces.

(** ** Pieces as the characters of the text *)

Definition sz8 (w : list Z) : Z := Z.max 1 (Z.min 6 (zlen w)).
Notation total8 := (total sz8).

Lemma sz8_sizes w : 1 <= sz8 w <= 6.
Proof. unfold sz8. lia. Qed.

(** What a piece stands for. *)
Definition value (w : list Z) : Z := Utf8.piece_value (-3) w.

Lemma own_size b u : byte8 b -> 1 <= zlen (b :: Utf8.own_trails b u) <= 6.
Proof.
  intros Hb. rewrite zlen_cons. pose proof (Utf8.count_range b Hb). pose proof (zlen_nonneg (Utf8.own_trails b u)).
  pose proof (Utf8.take_trails_length (Z.to_nat (Utf8.U8_COUNT_TRAIL_BYTES b)) u). unfold Utf8.own_trails, zlen in *. lia.
Qed.

Lemma sz8_own b u : byte8 b -> sz8 (b :: Utf8.own_trails b u) = zlen (b :: Utf8.own_trails b u).
Proof. intros Hb. pose proof (own_size b u Hb). unfold sz8. lia. Qed.

Lemma pieces_sizes u : Forall byte8 u -> Forall (fun w => sz8 w = zlen w /\ Forall byte8 w) (pieces u).
Proof.
  intros Hu. pose proof (BMPSetUtf8.pieces_own u) as Ho. rewrite <- (Utf8.pieces_concat u) in Hu. rewrite Forall_forall in Hu. rewrite Forall_forall in Ho. apply Forall_forall.
  intros w Hw. assert (Hb : Forall byte8 w).
  { apply Forall_forall. intros x Hx. apply Hu. apply list_elem_of_In, in_concat. exists w. by rewrite <- !list_elem_of_In. }
  split; [|done]. destruct (Ho w Hw) as (b & v & ->). apply sz8_own. by apply Forall_cons in Hb as [? _].
Qed.

Lemma total8_concat ws : Forall (fun w => sz8 w = zlen w /\ Forall byte8 w) ws -> total8 ws = zlen (concat ws).
Proof. induction 1 as [|w ws [Hw _] _ IH]; [done|]. rewrite total_cons, Hw, IH. cbn [concat]. by rewrite zlen_app. Qed.

Lemma total8_text u : Forall byte8 u -> total8 (pieces u) = zlen u.
Proof. intros Hu. rewrite total8_concat by (by apply pieces_sizes). by rewrite Utf8.pieces_concat. Qed.

Lemma total8_rev ws : total8 (rev ws) = total8 ws.
Proof. induction ws as [|w ws IH]; [done|]. cbn [rev]. rewrite total_app, !total_cons, IH. change (total8 []) with 0. lia. Qed.

Lemma pieces_back front ws u : pieces u = front ++ ws -> pieces (concat ws) = ws.
Proof.
  revert u. induction front as [|x front IH]; intros u E; [cbn in E; by rewrite <- E, Utf8.pieces_concat|].
  destruct u as [|b u]; [done|]. rewrite Utf8.pieces_cons in E. cbn [app] in E. injection E as _ E. by eapply IH.
Qed.

(** A text split at a piece boundary. *)
Lemma pieces_split s p r :
  Forall byte8 s -> pieces s = p ++ r ->
  s = concat p ++ concat r /\ pieces (concat p) = p /\ pieces (concat r) = r /\ Forall byte8 (concat p) /\ Forall byte8 (concat r) /\
  total8 p = zlen (concat p) /\ total8 r = zlen (concat r).
Proof.
  intros Hs E. assert (Es : s = concat p ++ concat r) by (by rewrite <- concat_app, <- E, Utf8.pieces_concat).
  pose proof Hs as Hb. rewrite Es, Forall_app in Hb. destruct Hb as [Hp Hr]. pose proof (pieces_sizes s Hs) as Hz. rewrite E, Forall_app in Hz. destruct Hz.
  split_and!; auto; [by eapply Utf8.pieces_front|by eapply pieces_back|by apply total8_concat..].
Qed.

(** A byte that is no trail byte starts a piece. *)
Definition fresh (x : list Z) : Prop := match x with [] => True | b :: _ => Utf8.U8_IS_TRAIL b = false end.

Lemma take_trails_fresh n u x : fresh x -> Utf8.take_trails n (u ++ x) = Utf8.take_trails n u.
Proof.
  intros Hx. revert u. induction n as [|n IH]; intros u; [done|]. destruct u as [|b u]; cbn [app Utf8.take_trails].
  - destruct x as [|b x]; [done|]. cbn in Hx. by rewrite Hx.
  - by rewrite IH.
Qed.

Lemma pieces_app u x : fresh x -> pieces (u ++ x) = pieces u ++ pieces x.
Proof.
  intros Hx. remember (length u) as n eqn:En. revert u En. induction n as [n IH] using lt_wf_ind. intros u ->.
  destruct u as [|b u]; [done|]. cbn [app]. rewrite !Utf8.pieces_cons. unfold Utf8.own_trails. rewrite take_trails_fresh by done.
  pose proof (Utf8.take_trails_prefix (Z.to_nat (Utf8.U8_COUNT_TRAIL_BYTES b)) u) as Hpre. set (w := Utf8.take_trails _ u) in *.
  rewrite drop_app_le by (rewrite Hpre, length_app; lia). cbn [app]. f_equal. apply (IH (length (drop (length w) u))); [|done].
  rewrite length_drop. cbn [length]. lia.
Qed.

(** ** Strings in UTF-8 *)

(** The UTF-8 form of some scalar values. *)
Definition good8 (f : list Z) : Prop := exists cs, Forall Utf8.scalar cs /\ cs <> [] /\ f = StringConvFacts.bytes cs.

Lemma lead_fresh c : Utf8.scalar c -> exists b ts, Utf8.encode8 c = b :: ts /\ Utf8.U8_IS_TRAIL b = false.
Proof.
  intros [Hc _]. unfold code_point in Hc. unfold Utf8.encode8. repeat zcase; eexists _, _; (split; [done|]); rewrite Utf8.trail_byte by (unfold byte8; dlia); dlia.
Qed.

Lemma good8_fresh f x : good8 f -> fresh (f ++ x) /\ f <> [].
Proof.
  intros (cs & Hcs & Hne & ->). destruct cs as [|c cs]; [done|]. apply Forall_cons in Hcs as [Hc _].
  destruct (lead_fresh c Hc) as (b & ts & E & Hb). unfold StringConvFacts.bytes. cbn [map concat]. by rewrite E.
Qed.

Lemma good8_bytes f : good8 f -> Forall byte8 f.
Proof. intros (cs & Hcs & _ & ->). by apply Utf8.encoded_bytes. Qed.

Lemma pieces_form cs x : Forall Utf8.scalar cs -> pieces (StringConvFacts.bytes cs ++ x) = map Utf8.encode8 cs ++ pieces x.
Proof.
  unfold StringConvFacts.bytes. induction 1 as [|c cs Hc Hcs IH]; [done|]. cbn [map concat app]. by rewrite <- app_assoc, Utf8.pieces_encode8, IH.
Qed.

Lemma good8_pieces f x : good8 f -> pieces (f ++ x) = pieces f ++ pieces x.
Proof.
  intros (cs & Hcs & _ & ->). rewrite pieces_form by done. rewrite <- (app_nil_r (StringConvFacts.bytes cs)) at 1. by rewrite pieces_form, app_nil_r.
Qed.

Lemma good8_total f : good8 f -> total8 (pieces f) = zlen f.
Proof. intros Hf. by apply total8_text, good8_bytes. Qed.

(** A string occurs at a unit of the text exactly if its pieces do. *)
Lemma occurs_bytes s f d :
  Forall byte8 s -> good8 f ->
  (exists p r, s = p ++ f ++ r /\ zlen p = d) <-> exists p r, pieces s = p ++ pieces f ++ r /\ total8 p = d.
Proof.
  intros Hs Hf. split.
  - intros (p & r & -> & <-). exists (pieces p), (pieces r). apply Forall_app in Hs as [Hp _].
    rewrite pieces_app by (by apply good8_fresh). rewrite good8_pieces, total8_text by done. done.
  - intros (p & r & E & <-). destruct (pieces_split s p _ Hs E) as (Es & _ & _ & _ & _ & -> & _). exists (concat p), (concat r).
    split; [|done]. by rewrite Es, concat_app, Utf8.pieces_concat.
Qed.

Lemma matches8_spec s f start :
  good8 f -> 0 <= start -> start + zlen f <= zlen s ->
  exists b, matches8 s start f (zlen f) = Some b /\ (b = true <-> exists p r, s = p ++ f ++ r /\ zlen p = start).
Proof.
  intros Hf H0 Hl. destruct (good8_fresh f [] Hf) as [_ Hne]. pose proof (zlen_nonneg f).
  set (u := ztake start s). set (w := drop (Z.to_nat start) s). assert (Es : s = u ++ w) by (symmetry; apply take_drop).
  assert (Hu : zlen u = start) by (apply zlen_ztake; lia). rewrite <- Hu. rewrite Es in Hl |- *. rewrite zlen_app in Hl.
  eexists. split; [apply (matches16_prefix u w f); auto; lia|]. rewrite bool_decide_eq_true. split.
  - intros (r & ->). by exists u, r.
  - intros (p & r & E & Hp). apply app_inj_1 in E as [_ ->]; [by exists r|unfold zlen in *; lia].
Qed.

Lemma matches8CPB_spec s f start :
  good8 f -> 0 <= start -> start + zlen f <= zlen s ->
  exists b, matches8CPB s start f = Some b /\ (b = true <-> exists p r, s = p ++ f ++ r /\ zlen p = start).
Proof.
  intros Hf H0 Hl. destruct (good8_fresh f [] Hf) as [Hfr Hne]. unfold matches8CPB. destruct f as [|b0 f]; [done|].
  pose proof (zlen_nonneg f). rewrite zlen_cons in Hl. destruct (zget_is_Some s start ltac:(lia)) as (x & Ex). rewrite Ex. cbn [mbind option_bind].
  destruct (Utf8.U8_IS_TRAIL x) eqn:Et; [|apply matches8_spec; auto; rewrite zlen_cons; lia].
  exists false. split; [done|]. split; [done|]. intros (p & r & -> & <-). cbn [app] in Ex. rewrite zget_middle in Ex. injection Ex as <-.
  cbn in Hfr. congruence.
Qed.

(** ** Spans of a set without strings *)

Section Object.
Context {HP : Heap} {OS : ObjectSizes}.
#[local] Existing Instance no_span | 0.

Definition in8 (set : set0) (w : list Z) : bool := has set (value w).

Lemma run8_span (P : Z -> bool) ws :
  Forall (fun w => sz8 w = zlen w /\ Forall byte8 w) ws -> BMPSetUtf8.run8 P ws = span_of sz8 (fun w => P (value w)) ws.
Proof. induction 1 as [|w ws [Hw _] _ IH]; [done|]. cbn [BMPSetUtf8.run8 span_of]. by rewrite IH, Hw. Qed.

Lemma span_tail8 set s p r spanCondition :
  plain set -> Forall byte8 s -> pieces s = p ++ r -> r <> [] ->
  UnicodeSet.spanUTF8 set (tail s (total8 r)) (total8 r) spanCondition =
    Some (span_of sz8 (fun w => Bool.eqb (in8 set w) (negb (spanCondition =? UnicodeSet.USET_SPAN_NOT_CONTAINED))) r).
Proof.
  intros [Hwf Hn]%plain_span Hs E Hr. pose proof (pieces_sizes s Hs) as Hz. rewrite E, Forall_app in Hz. destruct Hz as [_ Hz].
  destruct (pieces_split s p r Hs E) as (-> & _ & Er & _ & Hb & _ & ->). rewrite tail_app.
  rewrite <- (run8_span (fun c => Bool.eqb (has set c) _)) by done. rewrite <- Er at 3.
  apply UnicodeSetSpan.spanUTF8_runs; auto. intros E0. by rewrite E0 in Er.
Qed.

Lemma spanBack_head8 set s p r spanCondition :
  plain set -> Forall byte8 s -> rev (pieces s) = p ++ r -> r <> [] ->
  UnicodeSet.spanBackUTF8 set s (total8 r) spanCondition =
    Some (total8 r - span_of sz8 (fun w => Bool.eqb (in8 set w) (negb (spanCondition =? UnicodeSet.USET_SPAN_NOT_CONTAINED))) r).
Proof.
  intros [Hwf Hn]%plain_span Hs E Hr. apply (f_equal (@rev _)) in E. rewrite rev_involutive, rev_app_distr in E.
  pose proof (pieces_sizes s Hs) as Hz. rewrite E, Forall_app in Hz. destruct Hz as [Hz _]. rewrite Forall_rev_iff in Hz.
  destruct (pieces_split s _ _ Hs E) as (-> & Er & _ & Hb & _ & Ht & _). rewrite total8_rev in Ht. rewrite Ht.
  rewrite UnicodeSetSpan.spanBackUTF8_within; auto.
  - unfold UnicodeSetSpan.run_bytes. by rewrite Er, rev_involutive, run8_span.
  - intros E0. rewrite E0 in Er. cbn in Er. apply Hr. apply (f_equal (@rev _)) in Er. by rewrite rev_involutive in Er.
Qed.

Lemma value_code_point w : Forall byte8 w -> code_point (value w).
Proof. apply UnicodeSetSpan.piece_code_point. Qed.

(** One character forward. *)
Lemma spanOne_tail8 set s p w r :
  plain set -> Forall byte8 s -> pieces s = p ++ w :: r ->
  spanOneUTF8 set (tail s (total8 (w :: r))) (total8 (w :: r)) = Some (if in8 set w then sz8 w else - sz8 w).
Proof.
  intros Hset Hs E. destruct (pieces_split s p (w :: r) Hs E) as (Es & _ & Er & _ & Hb & _ & Ht). rewrite Ht, Es, tail_app.
  pose proof (BMPSetUtf8.pieces_own (concat (w :: r))) as Ho. rewrite Er in Ho. apply Forall_cons in Ho as [(b & v & Ew) _].
  cbn [concat] in *. rewrite Ew in Er, Hb |- *. cbn [app] in *. rewrite Utf8.pieces_cons in Er. injection Er as Eo _.
  unfold spanOneUTF8. rewrite zget_cons_0. cbn [mbind option_bind]. pose proof Hb as [Hb0 Hbu]%Forall_cons.
  pose proof (Utf8.next_char_spec [] b (Utf8.own_trails b v ++ concat r) (zlen (b :: Utf8.own_trails b v ++ concat r)) (-3) Hb ltac:(lia) ltac:(by left)) as Hnext.
  cbn [app] in Hnext. change (zlen (@nil Z)) with 0 in Hnext. rewrite Eo in Hnext.
  rewrite sz8_own by done. unfold in8. set (wd := Utf8.own_trails b v) in *.
  destruct (Z.ltb_spec b 0x80) as [Hlt|Hge].
  - assert (wd = []) as Ewd.
    { unfold wd, Utf8.own_trails. destruct (Utf8.count_of b Hb0) as [Hc _]. rewrite Hc by lia. by destruct v. }
    rewrite Ewd. rewrite signed_spec by (done || (unfold code_point; unfold byte8 in Hb0; lia)).
    assert (value [b] = b) as ->; [|done]. unfold value. rewrite Utf8.piece_value_lone by done. destruct (Z.ltb_spec b 0x80); [done|lia].
  - unfold Utf8.U8_NEXT_OR_FFFD. rewrite Hnext. cbn [mbind option_bind]. rewrite signed_spec; [|done|].
    + rewrite zlen_cons. replace (0 + 1 + zlen wd) with (zlen wd + 1) by lia. done.
    + apply value_code_point. constructor; [done|]. by apply Forall_app in Hbu as [? _].
Qed.

(** One character backward. *)
Lemma spanOneBack_head8 set s p w r :
  plain set -> Forall byte8 s -> rev (pieces s) = p ++ w :: r ->
  spanOneBackUTF8 set s (total8 (w :: r)) = Some (if in8 set w then sz8 w else - sz8 w).
Proof.
  intros Hset Hs E. apply (f_equal (@rev _)) in E. rewrite rev_involutive, rev_app_distr in E. cbn [rev] in E.
  pose proof (pieces_sizes s Hs) as Hz. rewrite E, !Forall_app, Forall_singleton in Hz. destruct Hz as [[_ [Hszw Hbw]] _].
  destruct (pieces_split s _ _ Hs E) as (-> & Er & _ & Hb & _ & Ht & _). set (u := concat (rev r ++ [w])) in *.
  assert (Htot : total8 (w :: r) = zlen u) by (rewrite <- Ht, total_app, total8_rev, !total_cons; change (total8 []) with 0; lia).
  rewrite Htot. pose proof (Utf8.prev_char_spec (-3) u _ w (concat (rev p)) Hb ltac:(lia) Er) as Hprev.
  unfold spanOneBackUTF8. unfold Utf8.prev_char in Hprev. destruct (zget _ (zlen u - 1)) as [c|]; [|done]. cbn [mbind option_bind] in *.
  pose proof (value_code_point w Hbw) as Hcp. unfold in8.
  destruct (Z.leb_spec 0x80 c), (Z.ltb_spec c 0x80); try lia.
  - rewrite Hprev. cbn [mbind option_bind]. rewrite signed_spec, Hszw by done. by replace (zlen u - (zlen u - zlen w)) with (zlen w) by lia.
  - injection Hprev as Hv Hl. fold (value w) in Hv. rewrite Hv, signed_spec by done. by replace (sz8 w) with 1 by lia.
Qed.

(** ** Either direction *)

(** The characters of a text or a string in reading direction. *)
Definition cps8 (fwd : bool) (u : list Z) : list (list Z) := if fwd then pieces u else rev (pieces u).

Lemma cps8_total fwd u : Forall byte8 u -> total8 (cps8 fwd u) = zlen u.
Proof. intros Hu. unfold cps8. destruct fwd; [|rewrite total8_rev]; by apply total8_text. Qed.

Lemma cps8_Forall fwd u P : Forall P (cps8 fwd u) <-> Forall P (pieces u).
Proof. unfold cps8. destruct fwd; [done|]. apply Forall_rev_iff. Qed.

Lemma cps8_elem fwd u w : w ∈ cps8 fwd u <-> w ∈ pieces u.
Proof. unfold cps8. destruct fwd; [done|]. apply rev_elem. Qed.

Lemma cps8_nonempty fwd u : u <> [] -> cps8 fwd u <> [].
Proof.
  intros Hne E. assert (Ep : pieces u = []).
  { destruct fwd; [done|]. cbn in E. apply (f_equal (@rev _)) in E. by rewrite rev_involutive in E. }
  apply Hne. by rewrite <- (Utf8.pieces_concat u), Ep.
Qed.

Lemma occurs8 fwd s f d :
  Forall byte8 s -> good8 f ->
  occurs sz8 (cps8 fwd) (cps8 fwd s) f d <-> exists p r, s = p ++ f ++ r /\ zlen p = if fwd then d else zlen s - d - zlen f.
Proof.
  intros Hs Hf. rewrite (occurs_bytes s f _ Hs Hf). unfold occurs, cps8. destruct fwd; [done|].
  pose proof (total8_text s Hs) as Hz. pose proof (good8_total f Hf) as Hzf. split.
  - intros (p & r & E & Hp). apply (f_equal (@rev _)) in E. rewrite !rev_app_distr, !rev_involutive, <- app_assoc in E.
    exists (rev r), (rev p). split; [done|]. rewrite E, !total_app, !total8_rev in Hz. rewrite total8_rev. lia.
  - intros (p & r & E & Hp). exists (rev r), (rev p). rewrite E, !rev_app_distr, <- app_assoc. split; [done|].
    rewrite E, !total_app in Hz. rewrite total8_rev. lia.
Qed.

(** The forms of strings. *)
Lemma form8_good t : good_text t -> form8 t = [] \/ good8 (form8 t) /\ Forall Utf8.scalar (code_points t) /\ pieces (form8 t) = map Utf8.encode8 (code_points t).
Proof.
  intros [Ht Hl]. destruct (form8_cases t Ht) as [[Hs ->]|[_ ->]]; [right|by left]. split_and!; auto.
  - exists (code_points t). split_and!; auto. intros E. rewrite E in Hl. cbn in Hl. lia.
  - by apply Utf8.pieces_encoded.
Qed.

Lemma form8_values (P : Z -> Prop) t :
  good_text t -> form8 t <> [] -> Forall (fun w => P (value w)) (pieces (form8 t)) <-> Forall P (code_points t).
Proof.
  intros Ht Hne. destruct (form8_good t Ht) as [|(_ & Hs & ->)]; [done|]. rewrite Forall_map.
  clear -Hs. induction Hs as [|c cs Hc Hs IH]; [by split|]. rewrite !Forall_cons, IH. unfold value. by rewrite Utf8.encode8_piece by (done || lia).
Qed.

Lemma form8_all set t :
  good_text t -> form8 t <> [] -> Forall (fun w => in8 set w = true) (pieces (form8 t)) <-> matter set t = false.
Proof.
  intros Ht Hne. unfold matter. rewrite negb_false_iff, forallb_Forall. by apply (form8_values (fun c => has set c = true)).
Qed.

Lemma relevant8 set fwd t : good_text t -> form8 t <> [] -> relevant (in8 set) (cps8 fwd) (form8 t) <-> matter set t = true.
Proof.
  intros Ht Hne. unfold relevant. rewrite cps8_Forall, form8_all by done. by destruct (matter set t).
Qed.

(** The span length bytes. *)
Lemma span8_cps set fwd t : Forall unit16 t -> span8 set fwd t = span_of sz8 (in8 set) (cps8 fwd (form8 t)).
Proof.
  intros Ht. unfold span8, UnicodeSetSpan.run_bytes. fold (cps8 fwd (form8 t)).
  rewrite run8_span by (apply cps8_Forall, pieces_sizes; by apply form8_bytes).
  induction (cps8 fwd (form8 t)) as [|w ws IH]; [done|]. cbn [span_of]. rewrite IH. unfold in8. by destruct (has set (value w)).
Qed.

Lemma byte8_tells set fwd fwd' exact t :
  good_text t -> form8 t <> [] -> byte_val set fwd false exact t = ALL_CP_CONTAINED <-> ~ relevant (in8 set) (cps8 fwd') (form8 t).
Proof.
  intros Ht Hne. rewrite relevant8 by done. unfold byte_val. destruct (matter set t); cbn [negb]; [|by split].
  destruct (Z.eqb_spec (zlen (form8 t)) 0) as [E%zlen_0_inv|_]; [done|]. split; [|by intros []].
  rewrite span8_cps by apply Ht. pose proof (span_of_le sz8 (in8 set) sz8_sizes (cps8 fwd (form8 t))).
  pose proof (makeSpanLengthByte_range (span_of sz8 (in8 set) (cps8 fwd (form8 t)))). unfold ALL_CP_CONTAINED in *. destruct exact; lia.
Qed.

Lemma byte8_exact set fwd t :
  good_text t -> form8 t <> [] -> relevant (in8 set) (cps8 fwd) (form8 t) ->
  byte_val set fwd false true t = makeSpanLengthByte (span_of sz8 (in8 set) (cps8 fwd (form8 t))).
Proof.
  intros Ht Hne Hr%relevant8; auto. unfold byte_val. rewrite Hr. cbn [negb]. rewrite span8_cps by apply Ht.
  by destruct (Z.eqb_spec (zlen (form8 t)) 0) as [E%zlen_0_inv|_].
Qed.

(** ** The meta data *)

(** The strings as the loops see them: those without a UTF-8 form are skipped. *)
Definition entry_of (byte : list Z -> Z) (form : list Z -> list Z) (t : list Z) : option (Z * list Z) :=
  if zlen (form t) =? 0 then None else Some (byte t, form t).

Definition entries8 byte form (ts : list (list Z)) : list (option (Z * list Z)) := map (entry_of byte form) ts.

Lemma entries8_elem byte form ts b f : Some (b, f) ∈ entries8 byte form ts <-> exists t, t ∈ ts /\ f = form t /\ f <> [] /\ b = byte t.
Proof.
  unfold entries8. rewrite list_elem_of_fmap. unfold entry_of. split.
  - intros (t & E & Ht). destruct (Z.eqb_spec (zlen (form t)) 0) as [|Hn]; [done|]. injection E as -> ->. exists t. split_and!; auto. intros E. by rewrite E in Hn.
  - intros (t & Ht & -> & Hne & ->). exists t. split; [|done]. destruct (Z.eqb_spec (zlen (form t)) 0) as [E%zlen_0_inv|_]; done.
Qed.

Lemma entries8_listed byte form ts f : listed (entries8 byte form ts) f <-> f <> [] /\ exists t, t ∈ ts /\ f = form t.
Proof. unfold listed. setoid_rewrite entries8_elem. naive_solver. Qed.

(** An object with these span lengths and forms for UTF-8. *)
Record carries8 (sp : t) (v : uvec) (variant : Z) (byte : list Z -> Z) (form : list Z -> list Z) : Prop := {
  c8_plain : plain (spanSet sp);
  c8_bytes : forall i t, zget (texts v) i = Some t -> span_byte sp (UVector.count v) variant i = Some (byte t);
  c8_lens : utf8Lengths sp = map (fun t => zlen (form t)) (texts v);
  c8_utf8 : utf8 sp = concat (map form (texts v));
  c8_form : forall t, t ∈ texts v -> form t = [] \/ form t = form8 t;
  c8_max : forall t, t ∈ texts v -> zlen (form t) <= maxLength8 sp;
  c8_max_int : maxLength8 sp <= INT32_MAX
}.

Lemma sum_lengths (form : list Z -> list Z) (ts : list (list Z)) : foldr Z.add 0 (map (fun t => zlen (form t)) ts) = zlen (concat (map form ts)).
Proof. induction ts as [|t ts IH]; [done|]. cbn [map foldr concat]. rewrite zlen_app. lia. Qed.

Lemma entry8_text sp v variant byte form i e :
  strings_wf v -> carries8 sp v variant byte form -> zget (entries8 byte form (texts v)) i = Some e -> entry8 sp v variant i = Some e.
Proof.
  intros Hv Hc Hi. apply zget_Some_lookup in Hi as [H0 Hi]. unfold entries8 in Hi. rewrite list_lookup_fmap in Hi.
  destruct (texts v !! Z.to_nat i) as [t|] eqn:Et; [|done]. injection Hi as <-.
  assert (Ht : zget (texts v) i = Some t) by (by apply zget_Some_lookup). unfold entry8, entry_of.
  assert (Hl : zget (utf8Lengths sp) i = Some (zlen (form t))).
  { rewrite (c8_lens _ _ _ _ _ Hc). apply zget_Some_lookup. split; [done|]. by rewrite list_lookup_fmap, Et. }
  rewrite Hl. cbn [mbind option_bind]. destruct (zlen (form t) =? 0); [done|]. rewrite (c8_bytes _ _ _ _ _ Hc i t Ht). cbn [mbind option_bind].
  repeat f_equal. unfold utf8_offset. rewrite (c8_lens _ _ _ _ _ Hc), (c8_utf8 _ _ _ _ _ Hc). unfold ztake at 2.
  rewrite <- fmap_take. change (fmap (fun t => zlen (form t)) (take (Z.to_nat i) (texts v))) with (map (fun t => zlen (form t)) (take (Z.to_nat i) (texts v))).
  rewrite sum_lengths. rewrite <- (take_drop (Z.to_nat i) (texts v)) at 2. rewrite (drop_S _ _ _ Et), map_app, concat_app.
  replace (Z.to_nat (zlen (concat (map form (take (Z.to_nat i) (texts v)))))) with (length (concat (map form (take (Z.to_nat i) (texts v))))) by (unfold zlen; lia).
  rewrite drop_app_length. cbn [map concat]. apply ztake_app_exact.
Qed.

(** ** What the loops are given *)

Lemma carried_form sp v variant byte form t :
  strings_wf v -> carries8 sp v variant byte form -> t ∈ texts v -> form t <> [] -> good_text t /\ form t = form8 t /\ form8 t <> [] /\ good8 (form8 t).
Proof.
  intros Hv Hc Ht Hne. pose proof (good_lookup v t Hv Ht) as Hg. destruct (c8_form _ _ _ _ _ Hc t Ht) as [?|E]; [done|].
  rewrite E in Hne. destruct (form8_good t Hg) as [?|[? _]]; [done|]. auto.
Qed.

Lemma loop_ok8 sp v variant byte form fwd s one :
  strings_wf v -> carries8 sp v variant byte form ->
  (forall t, good_text t -> form8 t <> [] -> byte t = ALL_CP_CONTAINED <-> ~ relevant (in8 (spanSet sp)) (cps8 fwd) (form8 t)) ->
  (forall p w r, cps8 fwd s = p ++ w :: r -> one (total8 (w :: r)) = Some (if in8 (spanSet sp) w then sz8 w else - sz8 w)) ->
  loop_ok sz8 (in8 (spanSet sp)) (cps8 fwd) (cps8 fwd s) (entries8 byte form (texts v)) zlen (entry8 sp v variant) one (UVector.count v).
Proof.
  intros Hv Hc Htell Hone. split; auto.
  - unfold entries8, zlen. rewrite length_map. by apply texts_zlen.
  - intros i e. by apply entry8_text.
  - intros b f (t & Ht & -> & Hne & _)%entries8_elem. destruct (carried_form _ _ _ _ _ t Hv Hc Ht Hne) as (Hg & E & Hne8 & H8).
    rewrite E, cps8_total by (by apply good8_bytes). split; [done|]. by apply cps8_nonempty.
  - intros b f (t & Ht & -> & Hne & ->)%entries8_elem. destruct (carried_form _ _ _ _ _ t Hv Hc Ht Hne) as (Hg & E & Hne8 & H8).
    rewrite E. by apply Htell.
Qed.

Lemma span_ok8 sp v variant form fwd s long matches run :
  strings_wf v -> carries8 sp v variant (byte_val (spanSet sp) fwd false true) form -> Forall byte8 s ->
  (forall f, good8 f -> exists l w, cps8 fwd f = l ++ [w] /\ long f = Some (total8 l)) ->
  (forall f rest overlap, good8 f -> 0 <= overlap <= zlen f -> zlen f - overlap <= rest <= zlen s - overlap ->
    exists b, matches rest overlap (zlen f - overlap) f = Some b /\ (b = true <-> occurs sz8 (cps8 fwd) (cps8 fwd s) f (zlen s - rest - overlap))) ->
  (forall p r, cps8 fwd s = p ++ r -> r <> [] -> run (total8 r) = Some (span_of sz8 (in8 (spanSet sp)) r)) ->
  span_ok sz8 (in8 (spanSet sp)) (cps8 fwd) (cps8 fwd s) (entries8 (byte_val (spanSet sp) fwd false true) form (texts v)) long matches run.
Proof.
  intros Hv Hc Hs Hlong Hmatch Hrun. split; auto.
  - intros b f (t & Ht & -> & Hne & ->)%entries8_elem Hrel. destruct (carried_form _ _ _ _ _ t Hv Hc Ht Hne) as (Hg & E & Hne8 & H8).
    rewrite E in *. by apply byte8_exact.
  - intros f [(Hne & t & Ht & ->)%entries8_listed Hrel]. destruct (carried_form _ _ _ _ _ t Hv Hc Ht Hne) as (Hg & E & Hne8 & H8).
    rewrite E in *. destruct (Hlong _ H8) as (l & w & El & ->). exists (total8 l). split; [done|].
    unfold relevant in Hrel. rewrite El in *. split; [apply span_of_snoc; auto using sz8_sizes|].
    rewrite total_app, total_cons. change (total8 []) with 0. pose proof (sz8_sizes w). lia.
  - intros f rest overlap (Hne & t & Ht & ->)%entries8_listed. destruct (carried_form _ _ _ _ _ t Hv Hc Ht Hne) as (Hg & E & Hne8 & H8).
    rewrite E, !cps8_total by (done || by apply good8_bytes). by apply Hmatch.
Qed.

Lemma all_but_last8_spec f : good8 f -> exists l w, cps8 true f = l ++ [w] /\ all_but_last8 f = Some (total8 l).
Proof.
  intros Hf. pose proof (good8_bytes f Hf) as Hb. destruct (good8_fresh f [] Hf) as [_ Hne].
  destruct (Utf8.last_piece f Hb Hne) as (l & w & E & _). exists l, w. split; [done|]. unfold all_but_last8.
  pose proof (Utf8.prev_char_spec (-3) f l w [] Hb ltac:(lia) E) as Hprev.
  apply (Utf8.back_1_prev f [] _ _ (-3)) in Hprev; auto; [|lia]. rewrite app_nil_r in Hprev. rewrite Hprev. f_equal.
  destruct (pieces_split f l [w] Hb E) as (Ef & _ & _ & _ & _ & -> & _). cbn [concat] in Ef. rewrite app_nil_r in Ef.
  rewrite Ef at 1. rewrite zlen_app. lia.
Qed.

Lemma all_but_first8_spec f : good8 f -> exists l w, cps8 false f = l ++ [w] /\ all_but_first8 f = Some (total8 l).
Proof.
  intros Hf. pose proof (good8_bytes f Hf) as Hb. destruct (good8_fresh f [] Hf) as [_ Hne]. destruct f as [|b u]; [done|].
  pose proof (Utf8.pieces_cons b u) as E. set (w := b :: Utf8.own_trails b u) in *. set (r := pieces (drop _ u)) in *.
  exists (rev r), w. unfold cps8. rewrite E. split; [done|]. unfold all_but_first8.
  pose proof (Utf8.fwd_1_spec [] b u (zlen (b :: u)) Hb ltac:(by left)) as Hfwd. cbn [app] in Hfwd. change (zlen (@nil Z)) with 0 in Hfwd.
  rewrite Hfwd. cbn [mbind option_bind]. f_equal.
  destruct (pieces_split (b :: u) [w] r Hb E) as (Ef & _ & _ & _ & _ & _ & Er). rewrite total8_rev, Er, Ef. cbn [concat]. rewrite app_nil_r, zlen_app.
  unfold w. rewrite zlen_cons. change (zlen (@nil Z)) with 0. lia.
Qed.

Lemma span_of_in8 set ws : span_of sz8 (fun w => Bool.eqb (in8 set w) true) ws = span_of sz8 (in8 set) ws.
Proof. induction ws as [|w ws IH]; [done|]. cbn [span_of]. rewrite IH. by destruct (in8 set w). Qed.

Lemma forward_span8 sp v variant form s :
  strings_wf v -> carries8 sp v variant (byte_val (spanSet sp) true false true) form -> Forall byte8 s ->
  span_ok sz8 (in8 (spanSet sp)) (cps8 true) (cps8 true s) (entries8 (byte_val (spanSet sp) true false true) form (texts v)) all_but_last8
    (fun rest overlap _ f => matches8CPB s (zlen s - rest - overlap) f)
    (fun rest => UnicodeSet.spanUTF8 (spanSet sp) (tail s rest) rest UnicodeSet.USET_SPAN_CONTAINED).
Proof.
  intros Hv Hc Hs. eapply span_ok8; eauto using all_but_last8_spec.
  - intros f rest overlap Hf Ho Hr. destruct (matches8CPB_spec s f (zlen s - rest - overlap)) as (b & E & Hb); [done|lia..|].
    exists b. by rewrite occurs8.
  - intros p r E Hr. rewrite (span_tail8 _ s p r) by (done || apply Hc). f_equal. apply span_of_in8.
Qed.

Lemma backward_span8 sp v variant form s :
  strings_wf v -> carries8 sp v variant (byte_val (spanSet sp) false false true) form -> Forall byte8 s ->
  span_ok sz8 (in8 (spanSet sp)) (cps8 false) (cps8 false s) (entries8 (byte_val (spanSet sp) false false true) form (texts v)) all_but_first8
    (fun rest _ dec f => matches8CPB s (rest - dec) f)
    (fun rest => pos ← UnicodeSet.spanBackUTF8 (spanSet sp) s rest UnicodeSet.USET_SPAN_CONTAINED; Some (rest - pos)).
Proof.
  intros Hv Hc Hs. eapply span_ok8; eauto using all_but_first8_spec.
  - intros f rest overlap Hf Ho Hr. destruct (matches8CPB_spec s f (rest - (zlen f - overlap))) as (b & E & Hb); [done|lia..|].
    exists b. rewrite occurs8 by done. by replace (zlen s - (zlen s - rest - overlap) - zlen f) with (rest - (zlen f - overlap)) by lia.
  - intros p r E Hr. rewrite (spanBack_head8 _ s p r) by (done || apply Hc). cbn [mbind option_bind]. f_equal.
    change (negb (UnicodeSet.USET_SPAN_CONTAINED =? UnicodeSet.USET_SPAN_NOT_CONTAINED)) with true. rewrite span_of_in8. lia.
Qed.

(** ** NOT_CONTAINED *)

(** [pSpanNotSet] for strings in UTF-8. *)
Record carries_not8 (sp : t) (v : uvec) (fwd : bool) (not : set0) : Prop := {
  n8_set : not_span sp = Some not;
  n8_plain : plain not;
  n8_cps : forall c, code_point c -> has (spanSet sp) c = true -> has not c = true;
  n8_strings : forall t w l, t ∈ texts v -> form8 t <> [] -> relevant (in8 (spanSet sp)) (cps8 fwd) (form8 t) -> cps8 fwd (form8 t) = w :: l ->
    in8 not w = true
}.

Lemma not_run8 (not : set0) cs :
  exists m r, cs = m ++ r /\ span_of sz8 (fun w => Bool.eqb (in8 not w) false) cs = total8 m /\ Forall (fun w => in8 not w = false) m.
Proof.
  destruct (span_of_split sz8 (fun w => Bool.eqb (in8 not w) false) cs) as (m & r & E & Hm & Hf & _).
  exists m, r. split_and!; auto. eapply Forall_impl; [exact Hf|]. by intros c Hc%eqb_prop.
Qed.

Lemma occurs_here8 fwd cs p r f : cs = p ++ r -> occurs sz8 (cps8 fwd) cs f (total8 p) <-> exists r', r = cps8 fwd f ++ r'.
Proof.
  intros E. split.
  - intros (p' & r' & E' & Hp). rewrite E in E'. symmetry in Hp.
    destruct (split_eq sz8 sz8_sizes p r p' _ E' Hp) as [_ ->]. eauto.
  - intros (r' & ->). by exists p, r'.
Qed.

Lemma not_ok8 sp v variant byte form fwd s not notRun found :
  strings_wf v -> carries8 sp v variant byte form -> carries_not8 sp v fwd not -> Forall byte8 s ->
  (forall p r, cps8 fwd s = p ++ r -> r <> [] -> notRun (total8 r) = Some (span_of sz8 (fun w => Bool.eqb (in8 not w) false) r)) ->
  (forall f rest, good8 f -> zlen f <= rest <= zlen s ->
    exists b, found rest f = Some b /\ (b = true <-> occurs sz8 (cps8 fwd) (cps8 fwd s) f (zlen s - rest))) ->
  not_ok sz8 (in8 (spanSet sp)) (cps8 fwd) (cps8 fwd s) (entries8 byte form (texts v)) notRun found (in8 not).
Proof.
  intros Hv Hc Hcn Hs Hrun Hfound. split.
  - intros w Hw. apply (n8_cps _ _ _ _ Hcn). pose proof (pieces_sizes s Hs) as Hz. rewrite Forall_forall in Hz.
    apply value_code_point, Hz. by rewrite cps8_elem in Hw.
  - intros f w l [(Hne & t & Ht & ->)%entries8_listed Hrel] E. destruct (carried_form _ _ _ _ _ t Hv Hc Ht Hne) as (Hg & Ef & Hne8 & H8).
    rewrite Ef in *. by eapply (n8_strings _ _ _ _ Hcn t).
  - intros p r E Hr. rewrite (Hrun p r E Hr). destruct (not_run8 not r) as (m & r' & Er & Hm & Hf). exists m, r'. split_and!; auto. by rewrite <- Hm.
  - intros p r f E (Hne & t & Ht & ->)%entries8_listed Hl. destruct (carried_form _ _ _ _ _ t Hv Hc Ht Hne) as (Hg & Ef & Hne8 & H8).
    rewrite Ef in *. rewrite cps8_total in Hl by (by apply good8_bytes). pose proof (f_equal total8 E) as Et. rewrite total_app, cps8_total in Et by done.
    pose proof (text_total_nonneg sz8 sz8_sizes p). destruct (Hfound (form8 t) (total8 r) H8) as (b & -> & Hb); [lia|]. exists b. split; [done|].
    rewrite Hb, <- (occurs_here8 fwd _ p r _ E). by replace (zlen s - total8 r) with (total8 p) by lia.
Qed.

Lemma forward_not8 sp v variant byte form s not :
  strings_wf v -> carries8 sp v variant byte form -> carries_not8 sp v true not -> Forall byte8 s ->
  not_ok sz8 (in8 (spanSet sp)) (cps8 true) (cps8 true s) (entries8 byte form (texts v))
    (fun rest => UnicodeSet.spanUTF8 not (tail s rest) rest UnicodeSet.USET_SPAN_NOT_CONTAINED)
    (fun rest f => matches8 s (zlen s - rest) f (zlen f)) (in8 not).
Proof.
  intros Hv Hc Hcn Hs. eapply not_ok8; eauto.
  - intros p r E Hr. by rewrite (span_tail8 _ s p r) by (done || apply Hcn).
  - intros f rest Hf Hr. pose proof (zlen_nonneg f). destruct (matches8_spec s f (zlen s - rest)) as (b & E & Hb); [done|lia..|]. exists b. by rewrite occurs8.
Qed.

Lemma backward_not8 sp v variant byte form s not :
  strings_wf v -> carries8 sp v variant byte form -> carries_not8 sp v false not -> Forall byte8 s ->
  not_ok sz8 (in8 (spanSet sp)) (cps8 false) (cps8 false s) (entries8 byte form (texts v))
    (fun rest => pos ← UnicodeSet.spanBackUTF8 not s rest UnicodeSet.USET_SPAN_NOT_CONTAINED; Some (rest - pos))
    (fun rest f => matches8 s (rest - zlen f) f (zlen f)) (in8 not).
Proof.
  intros Hv Hc Hcn Hs. eapply not_ok8; eauto.
  - intros p r E Hr. rewrite (spanBack_head8 _ s p r) by (done || apply Hcn). cbn [mbind option_bind]. f_equal.
    change (negb (UnicodeSet.USET_SPAN_NOT_CONTAINED =? UnicodeSet.USET_SPAN_NOT_CONTAINED)) with false. lia.
  - intros f rest Hf Hr. destruct (matches8_spec s f (rest - zlen f)) as (b & E & Hb); [done|lia..|]. exists b. rewrite occurs8 by done.
    by replace (zlen s - (zlen s - rest) - zlen f) with (rest - zlen f) by lia.
Qed.

(** ** The functions *)

Lemma forward_loop8 sp v variant byte form s :
  strings_wf v -> carries8 sp v variant byte form -> Forall byte8 s ->
  (forall t, good_text t -> form8 t <> [] -> byte t = ALL_CP_CONTAINED <-> ~ relevant (in8 (spanSet sp)) (cps8 true) (form8 t)) ->
  loop_ok sz8 (in8 (spanSet sp)) (cps8 true) (cps8 true s) (entries8 byte form (texts v)) zlen (entry8 sp v variant)
    (fun rest => spanOneUTF8 (spanSet sp) (tail s rest) rest) (UVector.count v).
Proof. intros Hv Hc Hs Htell. apply loop_ok8; auto. intros p w r E. apply (spanOne_tail8 _ s p); auto. apply Hc. Qed.

Lemma backward_loop8 sp v variant byte form s :
  strings_wf v -> carries8 sp v variant byte form -> Forall byte8 s ->
  (forall t, good_text t -> form8 t <> [] -> byte t = ALL_CP_CONTAINED <-> ~ relevant (in8 (spanSet sp)) (cps8 false) (form8 t)) ->
  loop_ok sz8 (in8 (spanSet sp)) (cps8 false) (cps8 false s) (entries8 byte form (texts v)) zlen (entry8 sp v variant)
    (fun rest => spanOneBackUTF8 (spanSet sp) s rest) (UVector.count v).
Proof. intros Hv Hc Hs Htell. apply loop_ok8; auto. intros p w r E. apply (spanOneBack_head8 _ s p); auto. apply Hc. Qed.

Lemma offsets_ready8 sp v variant byte form fwd (contained : bool) :
  strings_wf v -> carries8 sp v variant byte form ->
  (let o := initial_offsets contained (maxLength8 sp) in
   if contained then o_rep o ∅ /\ 6 <= o_capacity o /\ forall f, listed (entries8 byte form (texts v)) f -> total8 (cps8 fwd f) <= o_capacity o
   else isEmpty o = true) \/ refused.
Proof.
  intros Hv Hc. destruct contained; [|by left]. destruct (setMaxLength_rep (maxLength8 sp) (c8_max_int _ _ _ _ _ Hc)) as [(Ho & H16 & Hm)|]; [left|by right].
  split_and!; [done|cbn [initial_offsets]; lia|]. intros f (Hne & t & Ht & ->)%entries8_listed.
  destruct (carried_form _ _ _ _ _ t Hv Hc Ht Hne) as (Hg & E & _ & H8). rewrite cps8_total by (rewrite E; by apply good8_bytes).
  pose proof (c8_max _ _ _ _ _ Hc t Ht). cbn [initial_offsets]. lia.
Qed.

(** The strings that are found: those with a UTF-8 form in the object. *)
Notation found8 byte form v := (listed (entries8 byte form (texts v))).

Definition result8 sp v byte form fwd s (spanCondition rest : Z) : Prop :=
  if spanCondition =? UnicodeSet.USET_SPAN_CONTAINED
  then furthest sz8 (in8 (spanSet sp)) (cps8 fwd) (cps8 fwd s) (found8 byte form v) rest
  else stuck sz8 (in8 (spanSet sp)) (cps8 fwd) (cps8 fwd s) (found8 byte form v) rest.

Lemma spanUTF8_spec8 sp v form s spanCondition :
  let byte := byte_val (spanSet sp) true false true in
  strings_wf v -> carries8 sp v 2 byte form -> Forall byte8 s -> s <> [] -> spanCondition <> UnicodeSet.USET_SPAN_NOT_CONTAINED ->
  (exists rest, spanUTF8 sp v s spanCondition = Some (zlen s - rest) /\ result8 sp v byte form true s spanCondition rest) \/ refused.
Proof.
  intros byte Hv Hc Hs Hne Hcond. pose proof (forward_loop8 sp v 2 byte form s Hv Hc Hs ltac:(by apply byte8_tells)) as Hok.
  pose proof (forward_span8 sp v 2 form s Hv Hc Hs) as Hsok. pose proof (cps8_total true s Hs) as Hz. pose proof (fuel_enough s).
  destruct (offsets_ready8 sp v 2 byte form true (spanCondition =? UnicodeSet.USET_SPAN_CONTAINED) Hv Hc) as [Ho|]; [left|by right].
  destruct (span_parts _ _ _ sz8_sizes _ _ _ _ _ _ _ _ _ Hok Hsok _ (fuel_for s) _ (cps8_nonempty true s Hne) Ho) as [Hrun Hres]; [lia|].
  rewrite Hz in Hrun, Hres. unfold spanUTF8. destruct (Z.eqb_spec spanCondition UnicodeSet.USET_SPAN_NOT_CONTAINED); [done|].
  rewrite Hrun. cbn [mbind option_bind]. destruct (_ =? zlen s); [exists 0; by rewrite Z.sub_0_r|]. destruct Hres as (rest & -> & Hr). by exists rest.
Qed.

Lemma spanBackUTF8_spec8 sp v form s spanCondition :
  let byte := byte_val (spanSet sp) false false true in
  strings_wf v -> carries8 sp v 3 byte form -> Forall byte8 s -> s <> [] -> spanCondition <> UnicodeSet.USET_SPAN_NOT_CONTAINED ->
  (exists rest, spanBackUTF8 sp v s spanCondition = Some rest /\ result8 sp v byte form false s spanCondition rest) \/ refused.
Proof.
  intros byte Hv Hc Hs Hne Hcond. pose proof (backward_loop8 sp v 3 byte form s Hv Hc Hs ltac:(by apply byte8_tells)) as Hok.
  pose proof (backward_span8 sp v 3 form s Hv Hc Hs) as Hsok. pose proof (cps8_total false s Hs) as Hz. pose proof (fuel_enough s).
  destruct (offsets_ready8 sp v 3 byte form false (spanCondition =? UnicodeSet.USET_SPAN_CONTAINED) Hv Hc) as [Ho|]; [left|by right].
  destruct (span_parts _ _ _ sz8_sizes _ _ _ _ _ _ _ _ _ Hok Hsok _ (fuel_for s) _ (cps8_nonempty false s Hne) Ho) as [Hrun Hres]; [lia|].
  rewrite Hz in Hrun, Hres. unfold spanBackUTF8. destruct (Z.eqb_spec spanCondition UnicodeSet.USET_SPAN_NOT_CONTAINED); [done|].
  rewrite Hrun. cbn [mbind option_bind]. destruct (_ =? zlen s); [by exists 0|]. destruct Hres as (rest & -> & Hr). by exists rest.
Qed.

Lemma spanNotUTF8_spec8 sp v byte form s not :
  strings_wf v -> carries8 sp v 2 byte form -> carries_not8 sp v true not -> Forall byte8 s -> s <> [] ->
  (forall t, good_text t -> form8 t <> [] -> byte t = ALL_CP_CONTAINED <-> ~ relevant (in8 (spanSet sp)) (cps8 true) (form8 t)) ->
  exists rest, spanNotUTF8 sp v s = Some (zlen s - rest) /\
    first_start sz8 (in8 (spanSet sp)) (cps8 true) (cps8 true s) (found8 byte form v) rest.
Proof.
  intros Hv Hc Hcn Hs Hne Htell. pose proof (forward_loop8 sp v 2 byte form s Hv Hc Hs Htell) as Hok.
  pose proof (forward_not8 sp v 2 byte form s not Hv Hc Hcn Hs) as Hnok. pose proof (cps8_total true s Hs) as Hz.
  pose proof (fuel_enough s). pose proof (zlen_nonneg s).
  destruct (span_not _ _ _ sz8_sizes _ _ _ _ _ _ Hok _ _ _ Hnok (fuel_for s) (cps8_nonempty true s Hne)) as (rest & Hr & Hf); [lia|].
  rewrite Hz in Hr. unfold spanNotUTF8. rewrite (n8_set _ _ _ _ Hcn). cbn [mbind option_bind]. rewrite Hr. by exists rest.
Qed.

Lemma spanNotBackUTF8_spec8 sp v byte form s not :
  strings_wf v -> carries8 sp v 3 byte form -> carries_not8 sp v false not -> Forall byte8 s -> s <> [] ->
  (forall t, good_text t -> form8 t <> [] -> byte t = ALL_CP_CONTAINED <-> ~ relevant (in8 (spanSet sp)) (cps8 false) (form8 t)) ->
  exists rest, spanNotBackUTF8 sp v s = Some rest /\
    first_start sz8 (in8 (spanSet sp)) (cps8 false) (cps8 false s) (found8 byte form v) rest.
Proof.
  intros Hv Hc Hcn Hs Hne Htell. pose proof (backward_loop8 sp v 3 byte form s Hv Hc Hs Htell) as Hok.
  pose proof (backward_not8 sp v 3 byte form s not Hv Hc Hcn Hs) as Hnok. pose proof (cps8_total false s Hs) as Hz.
  pose proof (fuel_enough s). pose proof (zlen_nonneg s).
  destruct (span_not _ _ _ sz8_sizes _ _ _ _ _ _ Hok _ _ _ Hnok (fuel_for s) (cps8_nonempty false s Hne)) as (rest & Hr & Hf); [lia|].
  rewrite Hz in Hr. unfold spanNotBackUTF8. rewrite (n8_set _ _ _ _ Hcn). cbn [mbind option_bind]. rewrite Hr. by exists rest.
Qed.

(** ** What a constructed object carries *)

Lemma lens_eq (lens : list Z) (f : list Z -> Z) ts :
  zlen lens = zlen ts -> (forall j t, zget ts j = Some t -> zget lens j = Some (f t)) -> lens = map f ts.
Proof.
  intros Hz Hj. apply list_eq. intros i. change (map f ts !! i) with ((f <$> ts) !! i). rewrite list_lookup_fmap.
  destruct (ts !! i) as [t|] eqn:Et; cbn.
  - specialize (Hj (Z.of_nat i) t). rewrite !zget_Some_lookup in Hj. rewrite Nat2Z.id in Hj. apply Hj. split; [lia|done].
  - apply lookup_ge_None in Et. apply lookup_ge_None. unfold zlen in Hz. lia.
Qed.

Lemma built_carries8 sp l v which w byte :
  strings_wf v -> built_as sp l v which -> existsb (matter (spanSet sp)) (texts v) = true -> bit which UTF8 = true -> 0 <= w < 4 ->
  (forall t, wanted (spanSet sp) which w t = byte t) ->
  carries8 sp v w byte (stored8 (spanSet sp) which).
Proof.
  intros Hv Hb Hex H8 Hw Hby. pose proof (bu_len8 _ _ _ _ Hb) as Hlen. destruct (bu_some _ _ _ _ Hb Hex) as ((m & Hfi & Hsp & Hl8 & Hu8) & _ & _ & Hmax).
  destruct (fi_utf8 _ _ _ _ _ _ _ Hfi H8) as (Hzl & Hzu & Hcount & Hcat & Hlens).
  assert (Hall : ztake (UVector.count v) (texts v) = texts v) by (rewrite <- texts_zlen by done; apply ztake_all).
  rewrite Hall in *. split.
  - apply Hb.
  - intros i t Ht. unfold span_byte. rewrite (bu_all _ _ _ _ Hb), Hsp, <- Hby. apply (fi_bytes _ _ _ _ _ _ _ Hfi w i t Hw); [|done].
    apply zget_Some_range in Ht. rewrite texts_zlen in Ht by done. lia.
  - rewrite Hl8. apply lens_eq; [by rewrite texts_zlen|]. intros j t Ht. apply Hlens; [|done].
    apply zget_Some_range in Ht. rewrite texts_zlen in Ht by done. lia.
  - rewrite Hu8, <- Hcat, Hcount, <- Hlen, <- Hzu. by rewrite ztake_all.
  - intros t Ht. unfold stored8. destruct (_ && _); auto.
  - done.
  - apply Hb.
Qed.

(** The first piece of a form stands for the first, or last, code point of the string. *)
Lemma first_piece fwd t w l :
  good_text t -> form8 t <> [] -> cps8 fwd (form8 t) = w :: l ->
  exists c, (if fwd then head (code_points t) else last (code_points t)) = Some c /\ value w = c.
Proof.
  intros Ht Hne E. destruct (form8_good t Ht) as [|(_ & Hs & Hp)]; [done|]. unfold cps8 in E. rewrite Hp in E. destruct fwd.
  - destruct (code_points t) as [|c cs]; [done|]. injection E as <- _. exists c. split; [done|]. apply Forall_cons in Hs as [Hc _].
    unfold value. by rewrite Utf8.encode8_piece by (done || lia).
  - destruct (code_points t) as [|c cs _] using rev_ind; [done|]. rewrite map_app, rev_app_distr in E. injection E as <- _.
    exists c. split; [apply last_snoc|]. apply Forall_app in Hs as [_ Hc]. apply Forall_cons in Hc as [Hc _].
    unfold value. by rewrite Utf8.encode8_piece by (done || lia).
Qed.

Lemma built_not8 sp l v which (fwd : bool) :
  strings_wf v -> built_as sp l v which -> existsb (matter (spanSet sp)) (texts v) = true -> bit which NOT_CONTAINED = true ->
  bit which (if fwd then FWD else BACK) = true -> exists not, carries_not8 sp v fwd not.
Proof.
  intros Hv Hb Hex Hn Hd. destruct (bu_some _ _ _ _ Hb Hex) as (_ & Hnot & _). destruct (Hnot Hn) as (not & E & Hpl & Hk & He).
  exists not. split; [exact E|done|done|]. intros t w l' Ht Hne Hrel Ec. pose proof (good_lookup v t Hv Ht) as Hg.
  apply relevant8 in Hrel; auto. destruct (first_piece fwd t w l' Hg Hne Ec) as (c & Hc & Hval). unfold in8. rewrite Hval.
  apply (He t c Ht Hrel). unfold ends_of. destruct fwd; auto.
Qed.

(** The object that a mutable set builds for one call over UTF-8. *)
Definition variant8 (fwd : bool) (spanCondition : Z) : Z :=
  if spanCondition =? UnicodeSet.USET_SPAN_NOT_CONTAINED
  then if fwd then UnicodeSet.FWD_UTF8_NOT_CONTAINED else UnicodeSet.BACK_UTF8_NOT_CONTAINED
  else if fwd then UnicodeSet.FWD_UTF8_CONTAINED else UnicodeSet.BACK_UTF8_CONTAINED.

Lemma variant8_one fwd spanCondition : one_variant (variant8 fwd spanCondition) /\ bit (variant8 fwd spanCondition) UTF8 = true.
Proof. unfold variant8. destruct (_ =? _), fwd; split; try done; vm_compute; naive_solver. Qed.

Lemma variant8_wanted (set : set0) which fwd spanCondition t :
  which = ALL \/ which = variant8 fwd spanCondition ->
  wanted set which (if fwd then 2 else 3) t = byte_val set fwd false (bit which CONTAINED) t.
Proof. intros [-> | ->]; [by destruct fwd|]. unfold variant8. by destruct (_ =? _), fwd. Qed.

(** The strings of the set that have a UTF-8 form. *)
Definition forms (v : uvec) (f : list Z) : Prop := f <> [] /\ exists t, t ∈ texts v /\ f = form8 t.

Lemma forms_listed sp v which byte f :
  bit which UTF8 = true -> bit which CONTAINED = true ->
  listed (entries8 byte (stored8 (spanSet sp) which) (texts v)) f <-> forms v f.
Proof.
  intros H8 Hc. rewrite entries8_listed. unfold forms, stored8. rewrite H8, Hc. setoid_rewrite orb_true_r. done.
Qed.

Lemma forms_relevant sp v which byte fwd f :
  strings_wf v -> bit which UTF8 = true -> bit which CONTAINED = false ->
  listed (entries8 byte (stored8 (spanSet sp) which) (texts v)) f <-> forms v f /\ relevant (in8 (spanSet sp)) (cps8 fwd) f.
Proof.
  intros Hv H8 Hc. rewrite entries8_listed. unfold forms, stored8. rewrite H8, Hc. setoid_rewrite orb_false_r. cbn [andb]. split.
  - intros (Hne & t & Ht & E). destruct (matter (spanSet sp) t) eqn:Em; [|congruence]. subst f. split_and!; eauto.
    by apply relevant8; [eapply good_lookup|..].
  - intros ((Hne & t & Ht & ->) & Hr). split; [done|]. exists t. split; [done|]. apply relevant8 in Hr; [by rewrite Hr|by eapply good_lookup|done].
Qed.

Lemma forms_nonempty v fwd f : forms v f -> cps8 fwd f <> [].
Proof. intros [Hne _]. by apply cps8_nonempty. Qed.

(** ** The results of the object *)

Lemma object_spanUTF8 sp l v which s spanCondition :
  strings_wf v -> built_as sp l v which -> existsb (matter (spanSet sp)) (texts v) = true -> which = ALL \/ which = variant8 true spanCondition ->
  Forall byte8 s -> s <> [] ->
  (exists rest, spanUTF8 sp v s spanCondition = Some (zlen s - rest) /\
     outcome sz8 (cps8 true) (in8 (spanSet sp)) (forms v) (cps8 true s) spanCondition rest) \/ refused.
Proof.
  intros Hv Hb Hex Hw Hs Hne. assert (H8 : bit which UTF8 = true) by (destruct Hw as [-> | ->]; [done|apply variant8_one]).
  pose proof (built_carries8 sp l v which 2 _ Hv Hb Hex H8 ltac:(lia) (fun t => variant8_wanted _ which true _ t Hw)) as Hc.
  unfold outcome. destruct (Z.eqb_spec spanCondition UnicodeSet.USET_SPAN_NOT_CONTAINED) as [->|Hcond].
  - left. destruct (built_not8 sp l v which true Hv Hb Hex) as (not & Hcn); [by destruct Hw as [-> | ->]..|].
    destruct (spanNotUTF8_spec8 sp v _ _ s not Hv Hc Hcn Hs Hne) as (rest & E & Hf); [intros t Ht Hn; by apply byte8_tells|].
    exists rest. split; [exact E|]. destruct (bit which CONTAINED) eqn:Ec.
    + eapply first_start_same; [|exact Hf]. intros f. by apply forms_listed.
    + apply first_start_relevant; [intros f; apply forms_nonempty|]. eapply first_start_same; [|exact Hf]. intros f. by apply forms_relevant.
  - assert (Ec : bit which CONTAINED = true).
    { unfold variant8 in Hw. destruct (Z.eqb_spec spanCondition UnicodeSet.USET_SPAN_NOT_CONTAINED); [done|]. by destruct Hw as [-> | ->]. }
    rewrite Ec in Hc. destruct (spanUTF8_spec8 sp v _ s spanCondition Hv Hc Hs Hne Hcond) as [(rest & E & Hr)|]; [left|by right].
    exists rest. split; [exact E|]. unfold result8 in Hr.
    destruct (spanCondition =? UnicodeSet.USET_SPAN_CONTAINED); [eapply furthest_same|eapply stuck_same]; try exact Hr; intros f; by apply forms_listed.
Qed.

Lemma object_spanBackUTF8 sp l v which s spanCondition :
  strings_wf v -> built_as sp l v which -> existsb (matter (spanSet sp)) (texts v) = true -> which = ALL \/ which = variant8 false spanCondition ->
  Forall byte8 s -> s <> [] ->
  (exists rest, spanBackUTF8 sp v s spanCondition = Some rest /\
     outcome sz8 (cps8 false) (in8 (spanSet sp)) (forms v) (cps8 false s) spanCondition rest) \/ refused.
Proof.
  intros Hv Hb Hex Hw Hs Hne. assert (H8 : bit which UTF8 = true) by (destruct Hw as [-> | ->]; [done|apply variant8_one]).
  pose proof (built_carries8 sp l v which 3 _ Hv Hb Hex H8 ltac:(lia) (fun t => variant8_wanted _ which false _ t Hw)) as Hc.
  unfold outcome. destruct (Z.eqb_spec spanCondition UnicodeSet.USET_SPAN_NOT_CONTAINED) as [->|Hcond].
  - left. destruct (built_not8 sp l v which false Hv Hb Hex) as (not & Hcn); [by destruct Hw as [-> | ->]..|].
    destruct (spanNotBackUTF8_spec8 sp v _ _ s not Hv Hc Hcn Hs Hne) as (rest & E & Hf); [intros t Ht Hn; by apply byte8_tells|].
    exists rest. split; [exact E|]. destruct (bit which CONTAINED) eqn:Ec.
    + eapply first_start_same; [|exact Hf]. intros f. by apply forms_listed.
    + apply first_start_relevant; [intros f; apply forms_nonempty|]. eapply first_start_same; [|exact Hf]. intros f. by apply forms_relevant.
  - assert (Ec : bit which CONTAINED = true).
    { unfold variant8 in Hw. destruct (Z.eqb_spec spanCondition UnicodeSet.USET_SPAN_NOT_CONTAINED); [done|]. by destruct Hw as [-> | ->]. }
    rewrite Ec in Hc. destruct (spanBackUTF8_spec8 sp v _ s spanCondition Hv Hc Hs Hne Hcond) as [(rest & E & Hr)|]; [left|by right].
    exists rest. split; [exact E|]. unfold result8 in Hr.
    destruct (spanCondition =? UnicodeSet.USET_SPAN_CONTAINED); [eapply furthest_same|eapply stuck_same]; try exact Hr; intros f; by apply forms_listed.
Qed.
End Object.

(** ** Sets over the objects *)

#[local] Existing Instance string_span | 0.

Section Sets8.
Context {HP : Heap} {OS : ObjectSizes}.
Implicit Types s : UnicodeSet.t.

(** Membership of what a piece stands for. *)
Definition has8 s (w : list Z) : bool := has s (value w).

(** The strings of a set in UTF-8. *)
Definition elements8 s (f : list Z) : Prop := f <> [] /\ exists t, t ∈ elements s /\ f = form8 t.

Lemma elements8_forms s v f : UnicodeSet.strings s = Some v -> elements8 s f <-> forms v f.
Proof. intros E. unfold elements8, forms. by rewrite (elements_texts s v E). Qed.

Lemma outcome_same8 s v fwd u spanCondition rest :
  UnicodeSet.strings s = Some v ->
  outcome sz8 (cps8 fwd) (has8 s) (forms v) (cps8 fwd u) spanCondition rest -> outcome sz8 (cps8 fwd) (has8 s) (elements8 s) (cps8 fwd u) spanCondition rest.
Proof.
  intros E. unfold outcome. destruct (_ =? _); [|destruct (_ =? _)]; [apply first_start_same|apply furthest_same|apply stuck_same];
    intros f; symmetry; by apply elements8_forms.
Qed.

(** No string that matters has a UTF-8 form. *)
Definition plain8 s v : Prop := forall f, forms v f -> Forall (fun w => has8 s w = true) (pieces f).

Lemma outcome_chars8 s v u fwd spanCondition :
  UnicodeSet.strings s = Some v -> plain8 s v -> Forall byte8 u ->
  outcome sz8 (cps8 fwd) (has8 s) (elements8 s) (cps8 fwd u) spanCondition
    (zlen u - UnicodeSetSpan.run_bytes s (negb (spanCondition =? UnicodeSet.USET_SPAN_NOT_CONTAINED)) (cps8 fwd u)).
Proof.
  intros Ev Hall Hu. apply (outcome_same8 s v); [done|]. unfold UnicodeSetSpan.run_bytes.
  rewrite run8_span, <- (cps8_total fwd u Hu) by (by apply cps8_Forall, pieces_sizes). apply (outcome_plain sz8 sz8_sizes (cps8 fwd) (has8 s)).
  intros f Hf. split; [by eapply forms_nonempty|]. by apply cps8_Forall, Hall.
Qed.

Lemma irrelevant_plain8 s v :
  strings_wf v -> Forall (fun t => Forall (fun c => has s c = true) (code_points t)) (texts v) -> plain8 s v.
Proof.
  intros Hv Hall f (Hne & t & Ht & ->). apply (form8_values (fun c => has s c = true)); [by eapply good_lookup|done|].
  rewrite Forall_forall in Hall. auto.
Qed.

(** No string has a form in the object. *)
Lemma unneeded_plain8 sp s v which :
  strings_wf v -> built_as sp (values s) v which -> bit which UTF8 = true -> needsUTF8 sp = false -> plain8 s v.
Proof.
  intros Hv Hb H8 Hn. destruct (existsb (matter (spanSet sp)) (texts v)) eqn:Ex.
  2:{ by eapply irrelevant_plain8, built_irrelevant. }
  unfold needsUTF8 in Hn. apply negb_false_iff, Z.eqb_eq in Hn. destruct (bu_some _ _ _ _ Hb Ex) as (_ & _ & _ & Hmax).
  intros f (Hne & t & Ht & ->). pose proof (good_lookup v t Hv Ht) as Hg. specialize (Hmax t Ht). rewrite Hn in Hmax.
  unfold stored8 in Hmax. rewrite H8 in Hmax. cbn [andb] in Hmax. pose proof (zlen_nonneg (form8 t)).
  destruct (matter (spanSet sp) t) eqn:Em; [destruct Hne; apply zlen_0_inv; cbn [orb] in Hmax; lia|].
  apply (form8_values (fun c => has s c = true)); auto. apply (form8_values (fun c => has (spanSet sp) c = true)) in Hne as Hiff; [|done].
  apply (form8_all (spanSet sp) t Hg Hne) in Em. apply Hiff in Em. rewrite Forall_forall in Em |- *. intros c Hc.
  rewrite <- (built_has sp s v which c Hb); [auto|]. eapply ahead_elem; [done|apply Hg].
Qed.

Lemma has8_ext sp s v which fwd u w :
  built_as sp (values s) v which -> Forall byte8 u -> w ∈ cps8 fwd u -> in8 (spanSet sp) w = has8 s w.
Proof.
  intros Hb Hu Hw%cps8_elem. unfold in8, has8. eapply built_has; [done|]. pose proof (pieces_sizes u Hu) as Hz. rewrite Forall_forall in Hz.
  by apply value_code_point, Hz.
Qed.

Lemma object_forward8 sp s v which u spanCondition :
  spannable s v -> built_as sp (values s) v which -> which = ALL \/ which = variant8 true spanCondition ->
  existsb (matter (spanSet sp)) (texts v) = true -> Forall byte8 u -> u <> [] ->
  (exists n, spanUTF8 sp v u spanCondition = Some n /\ outcome sz8 (cps8 true) (has8 s) (elements8 s) (cps8 true u) spanCondition (zlen u - n)) \/ refused.
Proof.
  intros Hs Hb Hw Hex Hu Hne. destruct (object_spanUTF8 sp (values s) v which u spanCondition) as [(rest & E & Ho)|]; auto; [apply Hs|].
  left. eexists. split; [exact E|]. replace (zlen u - (zlen u - rest)) with rest by lia. apply (outcome_same8 s v); [apply Hs|].
  eapply span_outcome_ext; [|exact Ho]. intros w Hin. by eapply has8_ext.
Qed.

Lemma object_backward8 sp s v which u spanCondition :
  spannable s v -> built_as sp (values s) v which -> which = ALL \/ which = variant8 false spanCondition ->
  existsb (matter (spanSet sp)) (texts v) = true -> Forall byte8 u -> u <> [] ->
  (exists n, spanBackUTF8 sp v u spanCondition = Some n /\ outcome sz8 (cps8 false) (has8 s) (elements8 s) (cps8 false u) spanCondition n) \/ refused.
Proof.
  intros Hs Hb Hw Hex Hu Hne. destruct (object_spanBackUTF8 sp (values s) v which u spanCondition) as [(rest & E & Ho)|]; auto; [apply Hs|].
  left. eexists. split; [exact E|]. apply (outcome_same8 s v); [apply Hs|].
  eapply span_outcome_ext; [|exact Ho]. intros w Hin. by eapply has8_ext.
Qed.

Lemma outcome_empty8 s fwd spanCondition : outcome sz8 (cps8 fwd) (has8 s) (elements8 s) [] spanCondition 0.
Proof.
  apply (outcome_nil sz8 sz8_sizes). intros f [Hne _]. by apply cps8_nonempty.
Qed.

Lemma spanUTF8_slow_spec s v u text length spanCondition :
  spannable s v -> passed u text length -> Forall byte8 u ->
  (exists n, UnicodeSet.spanUTF8_slow s text length spanCondition (negb (spanCondition =? UnicodeSet.USET_SPAN_NOT_CONTAINED)) = Some n /\
     outcome sz8 (cps8 true) (has8 s) (elements8 s) (cps8 true u) spanCondition (zlen u - n)) \/ refused.
Proof.
  intros Hs [Hlen Htake]%passed_text Hu. unfold UnicodeSet.spanUTF8_slow. rewrite Hlen. cbn [mbind option_bind].
  destruct (Z.eqb_spec (zlen u) 0) as [Hz|Hz].
  { left. exists 0. split; [done|]. apply zlen_0_inv in Hz as ->. apply outcome_empty8. }
  assert (Hne : u <> []) by (by intros ->). rewrite Htake. pose proof Hs as [Hwf Ev Hv Hfit Hobj]. rewrite Ev.
  assert (Hchars : plain8 s v ->
    exists n, UnicodeSet.span_bytes (S (Z.to_nat (zlen u))) s u 0 0 (zlen u) (negb (spanCondition =? UnicodeSet.USET_SPAN_NOT_CONTAINED)) = Some n /\
     outcome sz8 (cps8 true) (has8 s) (elements8 s) (cps8 true u) spanCondition (zlen u - n)).
  { intros Hall. eexists. split; [apply (UnicodeSetSpan.span_bytes_spec _ s [] u); auto; lia|]. by apply (outcome_chars8 s v u true). }
  destruct (UnicodeSet.stringSpan s) as [sp|] eqn:Esp; cbn [mbind option_bind].
  { destruct Hobj as (_ & Hb & Hex). eapply object_forward8; eauto. }
  destruct (wf_cells s Hwf) as (cells & Ec & _). rewrite Ec. cbn [mbind option_bind].
  assert (Hvals : ztake (UnicodeSet.len s) cells = values s) by (unfold values; by rewrite Ec). rewrite Hvals.
  destruct (Z.eqb_spec (UVector.count v) 0) as [H0|H0]; cbn [negb].
  { left. apply Hchars. rewrite <- texts_zlen in H0 by done. intros f (_ & t & Ht & _). apply zlen_0_inv in H0. rewrite H0 in Ht. by apply not_elem_of_nil in Ht. }
  fold (variant8 true spanCondition). destruct (variant8_one true spanCondition) as [Hone H8].
  destruct (new_one (values s) v (variant8 true spanCondition)) as [(sp & E & Hb)|]; auto; [apply Hwf|].
  cbn [ss_new string_span]. rewrite E. cbn [mbind option_bind]. change (@needsStringSpanUTF8 string_span sp) with (needsUTF8 sp).
  destruct (needsUTF8 sp) eqn:En; [|left; apply Hchars; by eapply unneeded_plain8].
  eapply object_forward8; eauto. destruct (existsb _ _) eqn:Ex; [done|]. destruct (bu_none _ _ _ _ Hb Ex) as [_ E0].
  unfold needsUTF8 in En. by rewrite E0 in En.
Qed.

Lemma spanBackUTF8_slow_spec s v u text length spanCondition :
  spannable s v -> passed u text length -> Forall byte8 u ->
  (exists n, UnicodeSet.spanBackUTF8_slow s text length spanCondition (negb (spanCondition =? UnicodeSet.USET_SPAN_NOT_CONTAINED)) = Some n /\
     outcome sz8 (cps8 false) (has8 s) (elements8 s) (cps8 false u) spanCondition n) \/ refused.
Proof.
  intros Hs [Hlen Htake]%passed_text Hu. unfold UnicodeSet.spanBackUTF8_slow. rewrite Hlen. cbn [mbind option_bind].
  destruct (Z.eqb_spec (zlen u) 0) as [Hz|Hz].
  { left. exists 0. split; [done|]. apply zlen_0_inv in Hz as ->. apply outcome_empty8. }
  assert (Hne : u <> []) by (by intros ->). rewrite Htake. pose proof Hs as [Hwf Ev Hv Hfit Hobj]. rewrite Ev.
  assert (Hchars : plain8 s v ->
    exists n, UnicodeSet.spanBack_bytes (S (Z.to_nat (zlen u))) s u (zlen u) (zlen u) (negb (spanCondition =? UnicodeSet.USET_SPAN_NOT_CONTAINED)) = Some n /\
     outcome sz8 (cps8 false) (has8 s) (elements8 s) (cps8 false u) spanCondition n).
  { intros Hall. pose proof (UnicodeSetSpan.spanBack_bytes_spec (S (Z.to_nat (zlen u))) s u []) as Hsp. rewrite app_nil_r in Hsp.
    eexists. split; [apply Hsp; auto; lia|]. by apply (outcome_chars8 s v u false). }
  destruct (UnicodeSet.stringSpan s) as [sp|] eqn:Esp; cbn [mbind option_bind].
  { destruct Hobj as (_ & Hb & Hex). eapply object_backward8; eauto. }
  destruct (wf_cells s Hwf) as (cells & Ec & _). rewrite Ec. cbn [mbind option_bind].
  assert (Hvals : ztake (UnicodeSet.len s) cells = values s) by (unfold values; by rewrite Ec). rewrite Hvals.
  destruct (Z.eqb_spec (UVector.count v) 0) as [H0|H0]; cbn [negb].
  { left. apply Hchars. rewrite <- texts_zlen in H0 by done. intros f (_ & t & Ht & _). apply zlen_0_inv in H0. rewrite H0 in Ht. by apply not_elem_of_nil in Ht. }
  fold (variant8 false spanCondition). destruct (variant8_one false spanCondition) as [Hone H8].
  destruct (new_one (values s) v (variant8 false spanCondition)) as [(sp & E & Hb)|]; auto; [apply Hwf|].
  cbn [ss_new string_span]. rewrite E. cbn [mbind option_bind]. change (@needsStringSpanUTF8 string_span sp) with (needsUTF8 sp).
  destruct (needsUTF8 sp) eqn:En; [|left; apply Hchars; by eapply unneeded_plain8].
  eapply object_backward8; eauto. destruct (existsb _ _) eqn:Ex; [done|]. destruct (bu_none _ _ _ _ Hb Ex) as [_ E0].
  unfold needsUTF8 in En. by rewrite E0 in En.
Qed.

Lemma spans8_spec s v u text length spanCondition :
  spannable s v -> passed u text length -> Forall byte8 u ->
  (exists n m, UnicodeSet.spanUTF8 s text length spanCondition = Some n /\ UnicodeSet.spanBackUTF8 s text length spanCondition = Some m /\
     outcome sz8 (cps8 true) (has8 s) (elements8 s) (cps8 true u) spanCondition (zlen u - n) /\
     outcome sz8 (cps8 false) (has8 s) (elements8 s) (cps8 false u) spanCondition m) \/ refused.
Proof.
  intros Hs Hp Hu. destruct (spanUTF8_slow_spec s v u text length spanCondition Hs Hp Hu) as [(n & En & Hn)|]; [|by right].
  destruct (spanBackUTF8_slow_spec s v u text length spanCondition Hs Hp Hu) as [(m & Em & Hm)|]; [left|by right].
  destruct (UnicodeSet.bmpSet s) as [b|] eqn:Eb.
  2:{ exists n, m. unfold UnicodeSet.spanUTF8, UnicodeSet.spanBackUTF8. rewrite Eb. done. }
  destruct (Z.ltb_spec 0 length) as [Hl|Hl].
  2:{ exists n, m. unfold UnicodeSet.spanUTF8, UnicodeSet.spanBackUTF8. rewrite Eb. destruct (Z.ltb_spec 0 length); [lia|done]. }
  destruct Hp as [[-> ->]|(? & _)]; [|lia]. assert (Hne : u <> []) by (by intros ->).
  pose proof Hs as [Hwf Ev Hv Hfit Hobj]. destruct (UnicodeSet.stringSpan s) as [sp|] eqn:Esp.
  { destruct Hobj as (Hb & _). congruence. }
  destruct Hobj as [?|Hall]; [congruence|]. apply irrelevant_plain8 in Hall; [|done].
  destruct (UnicodeSetSpan.spanUTF8_runs s u spanCondition Hwf) as [E1 E2]; auto; [split; [done|left; by rewrite Eb]|].
  eexists _, _. split; [exact E1|]. split; [exact E2|].
  split; [by apply (outcome_chars8 s v u true)|by apply (outcome_chars8 s v u false)].
Qed.

(** C27: the same over UTF-8: for any bytes, ill-formed sequences standing for U+FFFD, and for a
    set with any strings, mutable or frozen, [spanUTF8] and [spanBackUTF8] return, unless an
    allocation is refused, the furthest concatenation of elements (CONTAINED), a concatenation
    after which none follows (SIMPLE) or the first start of an element (NOT_CONTAINED), where
    the elements are the code points of the set and the UTF-8 forms of its strings, those with
    unpaired surrogates left out.  The meta data of the strings fit an [int32_t] ([fits]). *)
Theorem spanUTF8_with_strings s s' u text length spanCondition :
  live s -> fits s -> s' = s \/ UnicodeSet.freeze s = Some s' /\ UnicodeSet.isBogus s' = false ->
  passed u text length -> Forall byte8 u ->
  (exists n m, UnicodeSet.spanUTF8 s' text length spanCondition = Some n /\ UnicodeSet.spanBackUTF8 s' text length spanCondition = Some m /\
     outcome sz8 (cps8 true) (has8 s) (elements8 s) (pieces u) spanCondition (zlen u - n) /\
     outcome sz8 (cps8 false) (has8 s) (elements8 s) (rev (pieces u)) spanCondition m) \/ refused.
Proof.
  intros Hl Hfit Hor Hp Hu. destruct Hor as [->|[Ef Hb]].
  - destruct (live_spannable s Hl Hfit) as (v & Hs). by apply (spans8_spec s v).
  - destruct (frozen_spannable s s' Hl Hfit Ef Hb) as [(v & Hs & Hval & Hstr)|]; [|by right].
    pose proof (spans8_spec s' v u text length spanCondition Hs Hp Hu) as Hr. unfold elements8, elements, has8, has in *. by rewrite Hval, Hstr in Hr.
Qed.
End Sets8.

Lemma spanUTF8_with_strings_witness :
  let u := [0x61; 0x62; 0x63; 0x78; 0x80] in
  UnicodeSet.spanUTF8 overlapping u 5 1 = Some 4 /\ UnicodeSet.spanBackUTF8 overlapping u 5 1 = Some 5 /\
  ((exists n m, UnicodeSet.spanUTF8 overlapping u 5 1 = Some n /\ UnicodeSet.spanBackUTF8 overlapping u 5 1 = Some m /\
     outcome sz8 (cps8 true) (has8 overlapping) (elements8 overlapping) (pieces u) 1 (5 - n) /\
     outcome sz8 (cps8 false) (has8 overlapping) (elements8 overlapping) (rev (pieces u)) 1 m) \/ refused).
Proof.
  split; [by vm_compute|]. split; [by vm_compute|].
  apply (spanUTF8_with_strings overlapping overlapping [0x61; 0x62; 0x63; 0x78; 0x80] [0x61; 0x62; 0x63; 0x78; 0x80] 5 1).
  - apply overlapping_live.
  - apply overlapping_fits.
  - by left.
  - by left.
  - repeat constructor; unfold byte8; lia.
Defined.
End StringSpanUtf8.
