(* ===== verification/Punycode.v ===== *)
(** * Punycode (common/punycode.cpp)

    The Bootstring encoder and decoder behind internationalized domain names.  A C array is
    the list of its cells, [None] stands for undefined behaviour: an access outside an array
    or a signed overflow ([checked]).  An early return with an error code is an [inl] with the output so far. *)

From S2P Require Import Prelude Utf16 UString.
Import Utf16.

Module Punycode.

Definition BASE : Z := 36.
Definition TMIN : Z := 1.
Definition TMAX : Z := 26.
Definition SKEW : Z := 38.
Definition DAMP : Z := 700.
Definition INITIAL_BIAS : Z := 72.
Definition INITIAL_N : Z := 0x80.
Definition DELIMITER : Z := 0x2d.
Definition ZERO_ : Z := 0x30.
Definition SMALL_A : Z := 0x61.
Definition SMALL_Z : Z := 0x7a.
Definition CAPITAL_A : Z := 0x41.
Definition CAPITAL_Z : Z := 0x5a.
Definition MAX_CP_COUNT : Z := 200.

Definition IS_BASIC (c : Z) : bool := c <? 0x80.
Definition IS_BASIC_UPPERCASE (c : Z) : bool := (CAPITAL_A <=? c) && (c <=? CAPITAL_Z).

Definition digitToBasic (digit : Z) (uppercase : bool) : Z :=
  if digit <? 26 then (if uppercase then CAPITAL_A + digit else SMALL_A + digit)
  else (ZERO_ - 26) + digit.

(** The table, by the ranges of its rows. *)
Definition basicToDigit : list Z :=
  replicate 48 (-1) ++ [26; 27; 28; 29; 30; 31; 32; 33; 34; 35] ++ replicate 7 (-1) ++
  [0; 1; 2; 3; 4; 5; 6; 7; 8; 9; 10; 11; 12; 13; 14; 15; 16; 17; 18; 19; 20; 21; 22; 23; 24; 25] ++
  replicate 6 (-1) ++
  [0; 1; 2; 3; 4; 5; 6; 7; 8; 9; 10; 11; 12; 13; 14; 15; 16; 17; 18; 19; 20; 21; 22; 23; 24; 25] ++
  replicate 133 (-1).

Definition asciiCaseMap (b : Z) (uppercase : bool) : Z :=
  if uppercase then (if (SMALL_A <=? b) && (b <=? SMALL_Z) then b - (SMALL_A - CAPITAL_A) else b)
  else (if (CAPITAL_A <=? b) && (b <=? CAPITAL_Z) then b + (SMALL_A - CAPITAL_A) else b).

(** [for(count=0; delta>((BASE-TMIN)*TMAX)/2; count+=BASE) delta/=(BASE-TMIN);] *)
Fixpoint adaptBias_loop (fuel : nat) (delta count : Z) : option (Z * Z) :=
  match fuel with
  | O => None
  | S fuel =>
      if Z.quot ((BASE - TMIN) * TMAX) 2 <? delta
      then adaptBias_loop fuel (Z.quot delta (BASE - TMIN)) (count + BASE)
      else Some (delta, count)
  end.

Definition adaptBias (delta length : Z) (firstTime : bool) : option Z :=
  let delta := if firstTime then Z.quot delta DAMP else Z.quot delta 2 in
  delta ← checked (delta + Z.quot delta length);
  '(delta, count) ← adaptBias_loop 33 delta 0;
  Some (count + Z.quot ((BASE - TMIN + 1) * delta) (delta + SKEW)).

(** The threshold at position [k] of a variable-length integer. *)
Definition threshold (k bias : Z) : Z :=
  if k - bias <? TMIN then TMIN else if bias + TMAX <=? k then TMAX else k - bias.

(** [if(destLength<destCapacity) dest[destLength]=x;] with [dest==NULL] as [None] *)
Definition put (dest : option (list Z)) (destCapacity destLength x : Z) : option (option (list Z)) :=
  if destLength <? destCapacity then d ← dest; d ← zset d destLength x; Some (Some d) else Some dest.

Notation u_terminateUChars := ustring.u_terminateUChars.

(** ** u_strToPunycode *)

(** [*pErrorCode=e; return 0;] with what has been written so far. *)
Definition failure : Type := UErrorCode * option (list Z).

(** [caseFlags!=NULL && caseFlags[j]] *)
Definition flag_at (caseFlags : option (list bool)) (j : Z) : option bool :=
  match caseFlags with None => Some false | Some flags => zget flags j end.

(** One turn of the loops that collect the code points: the unit [c] at [j].  [srcLength] is
    [None] for NUL-terminated input.  The result is the new [j] (before [++j]), the code
    points so far, the output and its length. *)
Definition collect_one (src : list Z) (srcLength : option Z) (caseFlags : option (list bool))
    (destCapacity c j : Z) (cpBuffer : list Z) (dest : option (list Z)) (destLength : Z)
  : option (failure + (Z * list Z * option (list Z) * Z)) :=
  if IS_BASIC c then
    dest ← (if destLength <? destCapacity then
              x ← (match caseFlags with
                   | Some flags => f ← zget flags j; Some (asciiCaseMap c f)
                   | None => Some c
                   end);
              put dest destCapacity destLength x
            else Some dest);
    Some (inr (j, cpBuffer ++ [0], dest, destLength + 1))
  else
    f ← flag_at caseFlags j;
    let n := if (f : bool) then INT32_MIN else 0 in
    if U16_IS_SINGLE c then Some (inr (j, cpBuffer ++ [n + c], dest, destLength))
    else
      c2 ← (if U16_IS_LEAD c && match srcLength with Some l => j + 1 <? l | None => true end
            then c2 ← zget src (j + 1); Some (if U16_IS_TRAIL c2 then Some c2 else None)
            else Some None);
      match c2 with
      | Some c2 => Some (inr (j + 1, cpBuffer ++ [n + U16_GET_SUPPLEMENTARY c c2], dest, destLength))
      | None => Some (inl (U_INVALID_CHAR_FOUND, dest))
      end.

Fixpoint collect_nul (fuel : nat) (src : list Z) (caseFlags : option (list bool)) (destCapacity j : Z)
    (cpBuffer : list Z) (dest : option (list Z)) (destLength : Z)
  : option (failure + (list Z * option (list Z) * Z)) :=
  match fuel with
  | O => None
  | S fuel =>
      c ← zget src j;
      if c =? 0 then Some (inr (cpBuffer, dest, destLength))
      else if zlen cpBuffer =? MAX_CP_COUNT then Some (inl (U_INDEX_OUTOFBOUNDS_ERROR, dest))
      else
        r ← collect_one src None caseFlags destCapacity c j cpBuffer dest destLength;
        match r with
        | inl e => Some (inl e)
        | inr (j, cpBuffer, dest, destLength) =>
            collect_nul fuel src caseFlags destCapacity (j + 1) cpBuffer dest destLength
        end
  end.

Fixpoint collect (fuel : nat) (src : list Z) (srcLength : Z) (caseFlags : option (list bool))
    (destCapacity j : Z) (cpBuffer : list Z) (dest : option (list Z)) (destLength : Z)
  : option (failure + (list Z * option (list Z) * Z)) :=
  match fuel with
  | O => None
  | S fuel =>
      if j <? srcLength then
        if zlen cpBuffer =? MAX_CP_COUNT then Some (inl (U_INDEX_OUTOFBOUNDS_ERROR, dest))
        else
          c ← zget src j;
          r ← collect_one src (Some srcLength) caseFlags destCapacity c j cpBuffer dest destLength;
          match r with
          | inl e => Some (inl e)
          | inr (j, cpBuffer, dest, destLength) =>
              collect fuel src srcLength caseFlags destCapacity (j + 1) cpBuffer dest destLength
          end
      else Some (inr (cpBuffer, dest, destLength))
  end.

(** [for(m=0x7fffffff, j=0; j<srcCPCount; ++j) { q=cpBuffer[j]&0x7fffffff; if(n<=q && q<m) m=q; }] *)
Definition cp_of (x : Z) : Z := Z.land x 0x7fffffff.
Fixpoint next_larger (cpBuffer : list Z) (n m : Z) : Z :=
  match cpBuffer with
  | [] => m
  | x :: r => let q := cp_of x in next_larger r n (if (n <=? q) && (q <? m) then q else m)
  end.

(** The digits of the generalized variable-length integer [q]; the last one may be uppercase. *)
Fixpoint encode_integer (fuel : nat) (bias q k : Z) (uppercase : bool) (dest : option (list Z))
    (destCapacity destLength : Z) : option (option (list Z) * Z) :=
  match fuel with
  | O => None
  | S fuel =>
      let t := threshold k bias in
      if q <? t then
        dest ← put dest destCapacity destLength (digitToBasic q uppercase);
        Some (dest, destLength + 1)
      else
        dest ← put dest destCapacity destLength (digitToBasic (t + Z.rem (q - t) (BASE - t)) false);
        encode_integer fuel bias (Z.quot (q - t) (BASE - t)) (k + BASE) uppercase dest destCapacity (destLength + 1)
  end.

(** The state of the main encoding loop. *)
Record enc := Enc { e_delta : Z; e_bias : Z; e_handled : Z; e_dest : option (list Z); e_destLength : Z }.

(** "Encode a sequence of same code points n" over [cpBuffer]. *)
Fixpoint encode_pass (cpBuffer : list Z) (n basicLength destCapacity : Z) (st : enc) : option enc :=
  match cpBuffer with
  | [] => Some st
  | x :: r =>
      let q := cp_of x in
      if q <? n then
        delta ← checked (e_delta st + 1);
        encode_pass r n basicLength destCapacity
          (Enc delta (e_bias st) (e_handled st) (e_dest st) (e_destLength st))
      else if q =? n then
        '(dest, destLength) ← encode_integer 32 (e_bias st) (e_delta st) BASE (x <? 0) (e_dest st)
                                destCapacity (e_destLength st);
        bias ← adaptBias (e_delta st) (e_handled st + 1) (e_handled st =? basicLength);
        encode_pass r n basicLength destCapacity (Enc 0 bias (e_handled st + 1) dest destLength)
      else encode_pass r n basicLength destCapacity st
  end.

(** The main encoding loop: each turn handles at least one code point. *)
Fixpoint encode_loop (fuel : nat) (cpBuffer : list Z) (n basicLength destCapacity : Z) (st : enc)
  : option (failure + enc) :=
  match fuel with
  | O => None
  | S fuel =>
      if e_handled st <? zlen cpBuffer then
        let m := next_larger cpBuffer n 0x7fffffff in
        if Z.quot (0x7fffffff - MAX_CP_COUNT - e_delta st) (e_handled st + 1) <? m - n
        then Some (inl (U_INTERNAL_PROGRAM_ERROR, e_dest st))
        else
          delta ← checked (e_delta st + (m - n) * (e_handled st + 1));
          st ← encode_pass cpBuffer m basicLength destCapacity
                 (Enc delta (e_bias st) (e_handled st) (e_dest st) (e_destLength st));
          delta ← checked (e_delta st + 1);
          n ← checked (m + 1);
          encode_loop fuel cpBuffer n basicLength destCapacity
            (Enc delta (e_bias st) (e_handled st) (e_dest st) (e_destLength st))
      else Some (inr st)
  end.

(** [u_strToPunycode]; [srcLength = -1] is NUL-terminated input.  The result is the output
    array, the length returned and the error code. *)
Definition u_strToPunycode (src : option (list Z)) (srcLength : Z) (dest : option (list Z)) (destCapacity : Z)
    (caseFlags : option (list bool)) (pErrorCode : UErrorCode) : option (option (list Z) * Z * UErrorCode) :=
  if U_FAILURE pErrorCode then Some (dest, 0, pErrorCode)
  else match src with
  | None => Some (dest, 0, U_ILLEGAL_ARGUMENT_ERROR)
  | Some src =>
      if (srcLength <? -1) || (match dest with None => true | _ => false end && negb (destCapacity =? 0))
      then Some (dest, 0, U_ILLEGAL_ARGUMENT_ERROR)
      else
        r ← (if srcLength =? -1
             then collect_nul (S (length src)) src caseFlags destCapacity 0 [] dest 0
             else collect (S (length src)) src srcLength caseFlags destCapacity 0 [] dest 0);
        match r with
        | inl (e, dest) => Some (dest, 0, e)
        | inr (cpBuffer, dest, destLength) =>
            let basicLength := destLength in
            '(dest, destLength) ←
              (if 0 <? basicLength
               then dest ← put dest destCapacity destLength DELIMITER; Some (dest, destLength + 1)
               else Some (dest, destLength));
            r ← encode_loop (S (length cpBuffer)) cpBuffer INITIAL_N basicLength destCapacity
                  (Enc 0 INITIAL_BIAS basicLength dest destLength);
            match r with
            | inl (e, dest) => Some (dest, 0, e)
            | inr st => u_terminateUChars (e_dest st) destCapacity (e_destLength st) pErrorCode
            end
        end
  end.

(** ** u_strFromPunycode *)

(** [for(j=srcLength; j>0;) if(src[--j]==DELIMITER) break;] *)
Fixpoint last_delimiter (n : nat) (src : list Z) (j : Z) : option Z :=
  match n with
  | O => Some j
  | S n => c ← zget src (j - 1);
           if c =? DELIMITER then Some (j - 1) else last_delimiter n src (j - 1)
  end.

(** The output and the case flags. *)
Definition output : Type := option (list Z) * option (list bool).

(** [while(j>0) { b=src[--j]; ... }]: the basic code points, copied from the end. *)
Fixpoint copy_basic (n : nat) (src : list Z) (destCapacity j : Z) (out : output)
  : option ((UErrorCode * output) + output) :=
  match n with
  | O => Some (inr out)
  | S n =>
      b ← zget src (j - 1);
      if negb (IS_BASIC b) then Some (inl (U_INVALID_CHAR_FOUND, out))
      else
        out ← (if j - 1 <? destCapacity then
                 d ← out.1; d ← zset d (j - 1) b;
                 flags ← (match out.2 with
                          | Some f => f ← zset f (j - 1) (IS_BASIC_UPPERCASE b); Some (Some f)
                          | None => Some None
                          end);
                 Some (Some d, flags)
               else Some out);
        copy_basic n src destCapacity (j - 1) out
  end.

(** The digits of one variable-length integer, added to [i]: the new [i] and [in]. *)
Fixpoint decode_integer (fuel : nat) (src : list Z) (srcLength bias i w k in_ : Z)
  : option (UErrorCode + (Z * Z)) :=
  match fuel with
  | O => None
  | S fuel =>
      if srcLength <=? in_ then Some (inl U_ILLEGAL_CHAR_FOUND)
      else
        u ← zget src in_;
        digit ← zget basicToDigit (uint8 u);
        let in_ := in_ + 1 in
        if digit <? 0 then Some (inl U_INVALID_CHAR_FOUND)
        else if Z.quot (0x7fffffff - i) w <? digit then Some (inl U_ILLEGAL_CHAR_FOUND)
        else
          i ← checked (i + digit * w);
          let t := threshold k bias in
          if digit <? t then Some (inr (i, in_))
          else if Z.quot 0x7fffffff (BASE - t) <? w then Some (inl U_ILLEGAL_CHAR_FOUND)
          else
            w ← checked (w * (BASE - t));
            k ← checked (k + BASE);
            decode_integer fuel src srcLength bias i w k in_
  end.

(** "Insert n at position i of the output": where in the output, and the new
    [firstSupplementaryIndex]. *)
Definition unit_index (dest : list Z) (destLength firstSupplementaryIndex i cpLength : Z) : option (Z * Z) :=
  if i <=? firstSupplementaryIndex
  then Some (i, if 1 <? cpLength then i else firstSupplementaryIndex + 1)
  else ci ← U16_FWD_N dest firstSupplementaryIndex destLength (i - firstSupplementaryIndex);
       Some (ci, firstSupplementaryIndex).

Definition insert_cp (dest : list Z) (caseFlags : option (list bool)) (destLength codeUnitIndex n cpLength : Z)
    (upper : bool) : option (list Z * option (list bool)) :=
  d ← (if codeUnitIndex <? destLength
       then memmove dest (codeUnitIndex + cpLength) codeUnitIndex (destLength - codeUnitIndex)
       else Some dest);
  flags ← (match caseFlags with
           | Some f => if codeUnitIndex <? destLength
                       then f ← memmove f (codeUnitIndex + cpLength) codeUnitIndex (destLength - codeUnitIndex); Some (Some f)
                       else Some (Some f)
           | None => Some None
           end);
  d ← (if cpLength =? 1 then zset d codeUnitIndex (uint16 n)
       else d ← zset d codeUnitIndex (U16_LEAD n); zset d (codeUnitIndex + 1) (U16_TRAIL n));
  flags ← (match flags with
           | Some f => f ← zset f codeUnitIndex upper;
                       f ← (if cpLength =? 2 then zset f (codeUnitIndex + 1) false else Some f);
                       Some (Some f)
           | None => Some None
           end);
  Some (d, flags).

(** The state of the main decoding loop. *)
Record dec := Dec { d_n : Z; d_i : Z; d_bias : Z; d_in : Z; d_cpCount : Z; d_first : Z; d_destLength : Z; d_out : output }.

(** One turn: the code point that the next integer stands for, inserted. *)
Definition decode_turn (src : list Z) (srcLength destCapacity : Z) (st : dec) : option ((UErrorCode * output) + dec) :=
  let fail e := Some (inl (e, d_out st)) in
  r ← decode_integer (S (length src)) src srcLength (d_bias st) (d_i st) 1 BASE (d_in st);
  match r with
  | inl e => fail e
  | inr (i, in_) =>
      let destCPCount := d_cpCount st + 1 in
      bias ← adaptBias (i - d_i st) destCPCount (d_i st =? 0);
      if 0x7fffffff - d_n st <? Z.quot i destCPCount then fail U_ILLEGAL_CHAR_FOUND
      else
        n ← checked (d_n st + Z.quot i destCPCount);
        let i := Z.rem i destCPCount in
        if (0x10ffff <? n) || U_IS_SURROGATE n then fail U_ILLEGAL_CHAR_FOUND
        else
          let cpLength := U16_LENGTH n in
          let destLength := d_destLength st in
          '(out, first) ←
            (match (d_out st).1 with
             | Some dest =>
                 if destLength + cpLength <=? destCapacity then
                   '(ci, first) ← unit_index dest destLength (d_first st) i cpLength;
                   u ← zget src (in_ - 1);
                   '(dest, flags) ← insert_cp dest (d_out st).2 destLength ci n cpLength (IS_BASIC_UPPERCASE u);
                   Some ((Some dest, flags), first)
                 else Some (d_out st, d_first st)
             | None => Some (d_out st, d_first st)
             end);
          Some (inr (Dec n (i + 1) bias in_ destCPCount first (destLength + cpLength) out))
  end.

Fixpoint decode_loop (fuel : nat) (src : list Z) (srcLength destCapacity : Z) (st : dec)
  : option ((UErrorCode * output) + dec) :=
  match fuel with
  | O => None
  | S fuel =>
      if d_in st <? srcLength then
        r ← decode_turn src srcLength destCapacity st;
        match r with inl e => Some (inl e) | inr st => decode_loop fuel src srcLength destCapacity st end
      else Some (inr st)
  end.

(** [u_strFromPunycode]; the result is the output array, the case flags, the length returned
    and the error code. *)
Definition u_strFromPunycode (src : option (list Z)) (srcLength : Z) (dest : option (list Z)) (destCapacity : Z)
    (caseFlags : option (list bool)) (pErrorCode : UErrorCode) : option (output * Z * UErrorCode) :=
  let out : output := (dest, caseFlags) in
  if U_FAILURE pErrorCode then Some (out, 0, pErrorCode)
  else match src with
  | None => Some (out, 0, U_ILLEGAL_ARGUMENT_ERROR)
  | Some src =>
      if (srcLength <? -1) || (match dest with None => true | _ => false end && negb (destCapacity =? 0))
      then Some (out, 0, U_ILLEGAL_ARGUMENT_ERROR)
      else
        srcLength ← (if srcLength =? -1 then ustring.u_strlen src else Some srcLength);
        basicLength ← last_delimiter (Z.to_nat srcLength) src srcLength;
        r ← copy_basic (Z.to_nat basicLength) src destCapacity basicLength out;
        match r with
        | inl (e, out) => Some (out, 0, e)
        | inr out =>
            r ← decode_loop (S (length src)) src srcLength destCapacity
                  (Dec INITIAL_N 0 INITIAL_BIAS (if 0 <? basicLength then basicLength + 1 else 0) basicLength
                       1000000000 basicLength out);
            match r with
            | inl (e, out) => Some (out, 0, e)
            | inr st =>
                '(d, n, e) ← u_terminateUChars (d_out st).1 destCapacity (d_destLength st) pErrorCode;
                Some ((d, (d_out st).2), n, e)
            end
        end
  end.
End Punycode.
