(* ===== verification/PunycodeFacts.v ===== *)
(** * Punycode: the decoder undoes the encoder

    The variable-length integers and their thresholds, the bounds that keep the arithmetic in
    32 bits, and the simulation by which each integer that the encoder writes makes the decoder
    insert one code point at its place. *)

From S2P Require Import Prelude Utf16 UString Punycode.
Import Utf16 Punycode.

Module PunycodeFacts.

(** ** Bias adaptation *)

Lemma adaptBias_loop_spec m fuel delta count :
  0 <= delta < 456 * 35 ^ Z.of_nat m -> (m < fuel)%nat ->
  exists d c, adaptBias_loop fuel delta count = Some (d, c) /\ 0 <= d <= 455 /\
    count <= c <= count + 36 * Z.of_nat m.
Proof.
  revert fuel delta count. induction m as [|m IH]; intros fuel delta count Hd Hf;
    (destruct fuel as [|fuel]; [lia|]); cbn [adaptBias_loop]; change (Z.quot ((BASE - TMIN) * TMAX) 2) with 455.
  - destruct (Z.ltb_spec 455 delta); [lia|]. eexists _, _. split; [done|]. lia.
  - destruct (Z.ltb_spec 455 delta).
    + rewrite Z.quot_div_nonneg by (unfold BASE, TMIN; lia). change (BASE - TMIN) with 35.
      rewrite Nat2Z.inj_succ, Z.pow_succ_r in Hd by lia.
      destruct (IH fuel (delta / 35) (count + BASE)) as (d & c & -> & ? & ?); [|lia|].
      * split; [apply Z.div_pos; lia|]. apply Z.div_lt_upper_bound; lia.
      * eexists _, _. split; [done|]. unfold BASE in *. lia.
    + eexists _, _. split; [done|]. lia.
Qed.

Lemma adaptBias_spec m delta length firstTime :
  0 <= delta <= INT32_MAX -> delta < 456 * 35 ^ Z.of_nat m -> (m < 33)%nat -> 1 <= length ->
  exists b, adaptBias delta length firstTime = Some b /\ 0 <= b <= 36 * Z.of_nat m + 35.
Proof.
  intros Hd Hm Hf Hl. unfold adaptBias. rewrite !Z.quot_div_nonneg by (unfold DAMP; lia).
  set (d1 := if firstTime then _ else _).
  assert (0 <= d1 <= delta / 2).
  { unfold d1, DAMP. destruct firstTime; [|split; [apply Z.div_pos; lia|lia]].
    split; [apply Z.div_pos; lia|]. apply Z.div_le_compat_l; lia. }
  rewrite (Z.quot_div_nonneg d1) by lia.
  assert (0 <= d1 / length <= d1).
  { split; [apply Z.div_pos; lia|]. apply Z.div_le_upper_bound; nia. }
  rewrite checked_in by (unfold INT32_MIN, INT32_MAX in *; dlia). cbn [mbind option_bind].
  destruct (adaptBias_loop_spec m 33 (d1 + d1 / length) 0) as (d & c & -> & Hd' & Hc); [dlia|done|].
  cbn [mbind option_bind]. eexists. split; [done|]. unfold BASE, TMIN, SKEW.
  rewrite Z.quot_div_nonneg by lia. assert (0 <= (36 - 1 + 1) * d / (d + 38) <= 35); [|lia].
  split; [apply Z.div_pos; lia|]. apply Z.lt_succ_r, Z.div_lt_upper_bound; lia.
Qed.

(** ** Variable-length integers *)

Lemma threshold_range k bias : 1 <= threshold k bias <= 26.
Proof. unfold threshold, TMIN, TMAX. zcases. Qed.

(** The digits of [q] from position [k] on, lowest first. *)
Fixpoint digits (fuel : nat) (bias q k : Z) : list Z :=
  match fuel with
  | O => []
  | S fuel =>
      let t := threshold k bias in
      if q <? t then [q] else (t + (q - t) mod (36 - t)) :: digits fuel bias ((q - t) / (36 - t)) (k + 36)
  end.

(** What is left of [q] shrinks tenfold at each digit. *)
Lemma digit_step q t : 1 <= t <= 26 -> t <= q -> 0 <= (q - t) / (36 - t) /\ 10 * ((q - t) / (36 - t)) <= q - t.
Proof.
  intros Ht Hq. assert (0 <= (q - t) / (36 - t)) by (apply Z.div_pos; lia). split; [done|].
  pose proof (Z.mul_div_le (q - t) (36 - t) ltac:(lia)). nia.
Qed.

Definition chars (ds : list Z) : list Z := map (fun d => digitToBasic d false) ds.

Lemma digits_range fuel bias q k : 0 <= q -> q < 36 * 10 ^ Z.of_nat fuel ->
  Forall (fun d => 0 <= d < 36) (digits fuel bias q k).
Proof.
  revert q k. induction fuel as [|fuel IH]; intros q k Hq Hlt; cbn [digits]; [constructor|].
  pose proof (threshold_range k bias) as Ht. destruct (Z.ltb_spec q (threshold k bias)).
  - repeat constructor; lia.
  - pose proof (digit_step q _ Ht H) as [H0 H10]. constructor.
    + pose proof (Z.mod_pos_bound (q - threshold k bias) (36 - threshold k bias)). lia.
    + apply IH; auto. rewrite Nat2Z.inj_succ, Z.pow_succ_r in Hlt by lia. lia.
Qed.

(** *** The table inverts the digits *)

Lemma basicToDigit_digit d : 0 <= d < 36 -> zget basicToDigit (uint8 (digitToBasic d false)) = Some d.
Proof.
  intros Hd. assert (In d (map Z.of_nat (seq 0 36))) as Hin.
  { apply in_map_iff. exists (Z.to_nat d). split; [lia|]. apply in_seq. lia. }
  clear Hd. revert d Hin. apply List.Forall_forall. by repeat constructor.
Qed.

Lemma digit_char d : 0 <= d < 36 -> 0x30 <= digitToBasic d false <= 0x7a.
Proof. intros. unfold digitToBasic, SMALL_A, ZERO_. zcases. Qed.

(** ** The encoder's output *)

(** [l] written over the start of [d], cut at the end of [d]. *)
Definition overlay (l d : list Z) : list Z := take (length d) l ++ drop (length l) d.

Lemma overlay_nil d : overlay [] d = d.
Proof. unfold overlay. by rewrite take_nil. Qed.

Lemma overlay_length l d : length (overlay l d) = length d.
Proof. unfold overlay. rewrite length_app, length_take, length_drop. lia. Qed.

Lemma overlay_prefix l d : zlen l <= zlen d -> ztake (zlen l) (overlay l d) = l.
Proof.
  unfold zlen, ztake, overlay. intros. rewrite Nat2Z.id. rewrite (take_ge l) by lia. by rewrite take_app_length.
Qed.

Lemma put_overlay l d x : put (Some (overlay l d)) (zlen d) (zlen l) x = Some (Some (overlay (l ++ [x]) d)).
Proof.
  unfold put. destruct (Z.ltb_spec (zlen l) (zlen d)) as [Hl|Hl]; cbn [mbind option_bind].
  - rewrite zset_in by (unfold zlen in *; rewrite overlay_length; lia). cbn [mbind option_bind]. do 2 f_equal.
    unfold zlen in *. rewrite Nat2Z.id. unfold overlay. rewrite (take_ge l), (take_ge (l ++ [x])) by (rewrite ?length_app; cbn; lia).
    destruct (drop (length l) d) as [|y r] eqn:E.
    { apply (f_equal length) in E. rewrite length_drop in E. cbn in E. lia. }
    rewrite insert_app_r_alt, Nat.sub_diag by lia. rewrite length_app, <- app_assoc, <- drop_drop, E. done.
  - do 2 f_equal. unfold overlay, zlen in *. rewrite take_app_le by lia. rewrite !drop_ge by (rewrite ?length_app; cbn; lia). done.
Qed.

Lemma encode_integer_spec fuel bias q k l d :
  0 <= q < 10 ^ Z.of_nat fuel ->
  let ds := digits (S fuel) bias q k in
  encode_integer (S fuel) bias q k false (Some (overlay l d)) (zlen d) (zlen l) =
    Some (Some (overlay (l ++ chars ds) d), zlen (l ++ chars ds)).
Proof.
  intros Hq ds. unfold ds. clear ds. revert q k l Hq.
  induction fuel as [|fuel IH]; intros q k l Hq; pose proof (threshold_range k bias) as Ht.
  - cbn [encode_integer digits]. destruct (Z.ltb_spec q (threshold k bias)) as [|Hge]; [|cbn in Hq; lia].
    rewrite put_overlay. cbn [mbind option_bind]. do 2 f_equal. by rewrite zlen_app.
  - remember (S fuel) as fuel' eqn:Ef. cbn [encode_integer digits]. destruct (Z.ltb_spec q (threshold k bias)) as [|Hge].
    { rewrite put_overlay. cbn [mbind option_bind]. do 2 f_equal. by rewrite zlen_app. }
    rewrite put_overlay. cbn [mbind option_bind]. pose proof (digit_step q _ Ht Hge) as [H0 H10].
    unfold BASE. rewrite Z.rem_mod_nonneg, Z.quot_div_nonneg by lia.
    replace (zlen l + 1) with (zlen (l ++ [digitToBasic (threshold k bias + (q - threshold k bias) mod (36 - threshold k bias)) false]))
      by (by rewrite zlen_app).
    subst fuel'. rewrite IH by (rewrite Nat2Z.inj_succ, Z.pow_succ_r in Hq by lia; lia).
    unfold chars. cbn [map]. by rewrite <- !app_assoc.
Qed.

(** *** Reading an integer back *)

Definition LIMIT : Z := 230000000.

(** The weight of the next digit stays in 32 bits: the thresholds up to 3 come only in the
    first five positions, and above them the value read bounds the weight. *)
Lemma weight_bound K bias w t :
  1 <= K -> 0 <= bias <= 179 -> 1 <= w <= 35 ^ (K - 1) -> t = threshold (36 * K) bias -> t * w <= LIMIT ->
  w * (36 - t) <= 0x7fffffff /\ w * (36 - t) <= 35 ^ K.
Proof.
  intros HK Hb Hw -> Hl. pose proof (threshold_range (36 * K) bias) as Ht. set (t := threshold (36 * K) bias) in *.
  split.
  - destruct (Z.le_gt_cases 4 t).
    + unfold LIMIT in *. nia.
    + assert (K <= 5). { revert Ht H. unfold t, threshold, TMIN, TMAX. zcases. }
      assert (35 ^ (K - 1) <= 35 ^ 4) by (apply Z.pow_le_mono_r; lia). change (35 ^ 4) with 1500625 in *. nia.
  - replace K with (Z.succ (K - 1)) by lia. rewrite Z.pow_succ_r by lia. nia.
Qed.

Lemma digit_value q t : 1 <= t <= 26 -> t <= q -> q = t + (q - t) mod (36 - t) + (36 - t) * ((q - t) / (36 - t)).
Proof. intros Ht Hq. pose proof (Z.div_mod (q - t) (36 - t) ltac:(lia)). lia. Qed.

(** One digit read: the checks against overflow pass. *)
Lemma decode_digit dfuel bias d i w K p r srcLength :
  0 <= d < 36 -> 0 <= i -> 1 <= K <= 20 -> 0 <= bias <= 179 -> 1 <= w <= 35 ^ (K - 1) -> i + d * w <= LIMIT ->
  zlen p < srcLength ->
  let t := threshold (36 * K) bias in
  decode_integer (S dfuel) (p ++ digitToBasic d false :: r) srcLength bias i w (36 * K) (zlen p) =
    if d <? t then Some (inr (i + d * w, zlen p + 1))
    else decode_integer dfuel (p ++ digitToBasic d false :: r) srcLength bias (i + d * w) (w * (36 - t)) (36 * (K + 1)) (zlen p + 1).
Proof.
  intros Hd Hi HK Hb Hw Hl Hp t. assert (0 <= d * w) by nia. cbn [decode_integer]. destruct (Z.leb_spec srcLength (zlen p)); [lia|].
  rewrite zget_middle. cbn [mbind option_bind]. rewrite basicToDigit_digit by done. cbn [mbind option_bind].
  destruct (Z.ltb_spec d 0); [lia|]. rewrite (Z.quot_div_nonneg (_ - i)) by (unfold LIMIT in *; lia).
  destruct (Z.ltb_spec ((0x7fffffff - i) / w) d) as [Hbad|_].
  { assert (d <= (0x7fffffff - i) / w); [|lia]. apply Z.div_le_lower_bound; unfold LIMIT in *; lia. }
  rewrite (checked_in (i + d * w)) by (unfold INT32_MIN, INT32_MAX, LIMIT in *; lia). cbn [mbind option_bind]. fold t.
  destruct (Z.ltb_spec d t); [done|]. pose proof (threshold_range (36 * K) bias) as Ht. fold t in Ht. unfold BASE.
  destruct (weight_bound K bias w t) as [Hw1 Hw2]; [lia..|done|nia|].
  rewrite Z.quot_div_nonneg by lia. destruct (Z.ltb_spec (0x7fffffff / (36 - t)) w) as [Hbad|_].
  { assert (w <= 0x7fffffff / (36 - t)); [|lia]. apply Z.div_le_lower_bound; lia. }
  rewrite !checked_in by (unfold INT32_MIN, INT32_MAX; nia). cbn [mbind option_bind].
  f_equal. lia.
Qed.

Lemma decode_integer_spec fuel bias q K i w p r srcLength dfuel :
  0 <= q < 10 ^ Z.of_nat fuel -> 0 <= i -> 1 <= w <= 35 ^ (K - 1) -> i + q * w <= LIMIT -> 0 <= bias <= 179 ->
  1 <= K -> K + Z.of_nat fuel <= 20 ->
  let ds := digits (S fuel) bias q (36 * K) in
  zlen (p ++ chars ds) <= srcLength -> (length ds <= dfuel)%nat ->
  decode_integer dfuel (p ++ chars ds ++ r) srcLength bias i w (36 * K) (zlen p) =
    Some (inr (i + q * w, zlen (p ++ chars ds))).
Proof.
  intros Hq Hi Hw Hl Hb HK Hf. cbn zeta. revert q K i w p dfuel Hq Hi Hw Hl HK Hf.
  induction fuel as [|fuel IH]; intros q K i w p dfuel Hq Hi Hw Hl HK Hf Hs Hd; pose proof (threshold_range (36 * K) bias) as Ht.
  - cbn [digits] in *. destruct (Z.ltb_spec q (threshold (36 * K) bias)) as [Hlt|Hge]; [|cbn in Hq; lia].
    destruct dfuel as [|dfuel]; [cbn in Hd; lia|]. unfold chars in *. cbn [map app] in *. rewrite zlen_app in Hs.
    change (zlen [digitToBasic q false]) with 1 in Hs. rewrite decode_digit by (lia || (cbn in Hq; nia)).
    destruct (Z.ltb_spec q (threshold (36 * K) bias)); [|lia]. by rewrite zlen_app.
  - remember (S fuel) as f' eqn:Ef. cbn [digits] in *. destruct (Z.ltb_spec q (threshold (36 * K) bias)) as [Hlt|Hge].
    { destruct dfuel as [|dfuel]; [cbn in Hd; lia|]. unfold chars in *. cbn [map app] in *. rewrite zlen_app in Hs.
      change (zlen [digitToBasic q false]) with 1 in Hs. rewrite decode_digit by (lia || nia).
      destruct (Z.ltb_spec q (threshold (36 * K) bias)); [|lia]. by rewrite zlen_app. }
    subst f'. set (t := threshold (36 * K) bias) in *. pose proof (digit_value q t Ht Hge) as Hv.
    pose proof (digit_step q t Ht Hge) as [H0 H10]. pose proof (Z.mod_pos_bound (q - t) (36 - t) ltac:(lia)) as Hm.
    set (d := t + (q - t) mod (36 - t)) in *. set (q' := (q - t) / (36 - t)) in *. clearbody q'.
    assert (0 <= (36 - t) * q') by (apply Z.mul_nonneg_nonneg; lia).
    assert (d * w <= q * w) by (apply Z.mul_le_mono_nonneg_r; lia).
    destruct dfuel as [|dfuel]; [cbn in Hd; lia|]. unfold chars in *. cbn [map app length] in *.
    rewrite zlen_app, zlen_cons in Hs. pose proof (zlen_nonneg (map (fun d => digitToBasic d false) (digits (S fuel) bias q' (36 * K + 36)))).
    rewrite decode_digit by (lia || nia). fold t. destruct (Z.ltb_spec d t); [unfold d in *; lia|].
    destruct (weight_bound K bias w t) as [Hw1 Hw2]; auto; [nia|].
    replace (36 * K + 36) with (36 * (K + 1)) in * by lia.
    specialize (IH q' (K + 1) (i + d * w) (w * (36 - t)) (p ++ [digitToBasic d false]) dfuel).
    rewrite <- !app_assoc, !zlen_app in IH. change (zlen [digitToBasic d false]) with 1 in IH. cbn [app] in IH.
    rewrite IH.
    + do 2 f_equal. rewrite zlen_app, zlen_cons. f_equal; [nia|lia].
    + rewrite Nat2Z.inj_succ, Z.pow_succ_r in Hq by lia. lia.
    + nia.
    + replace (K + 1 - 1) with K by lia. nia.
    + nia.
    + lia.
    + lia.
    + lia.
    + lia.
Qed.

(** ** Inserting a code point into UTF-16 text *)

Definition scalar (c : Z) : Prop := code_point c /\ ~ (0xd800 <= c <= 0xdfff).
Definition enc_text (cs : list Z) : list Z := concat (map encode cs).

Lemma enc_text_app a b : enc_text (a ++ b) = enc_text a ++ enc_text b.
Proof. unfold enc_text. by rewrite map_app, concat_app. Qed.

Lemma scalar_bmp c : scalar c -> c <= 0xffff -> U16_IS_LEAD c = false.
Proof.
  intros [Hc Hs] Hb. unfold code_point in Hc. apply not_true_iff_false. rewrite lead_range by lia. lia.
Qed.

(** Stepping over one code point. *)
Lemma FWD_1_scalar c p r length :
  scalar c -> zlen (p ++ encode c) <= length ->
  U16_FWD_1 (p ++ encode c ++ r) (zlen p) length = Some (zlen (p ++ encode c)).
Proof.
  intros Hc Hl. unfold U16_FWD_1. unfold encode in *. destruct (Z.leb_spec c 0xffff) as [Hb|Hb].
  - cbn [app]. rewrite zget_middle. cbn [mbind option_bind]. rewrite scalar_bmp by done. cbn [andb]. by rewrite zlen_app.
  - destruct Hc as [Hc _]. unfold code_point in Hc. destruct (encode_pair c) as [Hp _]; [lia|].
    unfold is_pair in Hp. apply andb_true_iff in Hp as [H1 H2]. cbn [app]. rewrite zget_middle. cbn [mbind option_bind].
    rewrite zlen_app in *. change (zlen [U16_LEAD c; U16_TRAIL c]) with 2 in *. rewrite H1.
    destruct (Z.eqb_spec (zlen p + 1) length); [lia|]. cbn [andb negb].
    replace (p ++ U16_LEAD c :: U16_TRAIL c :: r) with ((p ++ [U16_LEAD c]) ++ U16_TRAIL c :: r) by (by rewrite <- app_assoc).
    replace (zlen p + 1) with (zlen (p ++ [U16_LEAD c])) by (by rewrite zlen_app).
    rewrite zget_middle. cbn [mbind option_bind]. rewrite H2, zlen_app. change (zlen [U16_LEAD c]) with 1. f_equal. lia.
Qed.

Lemma FWD_N_text cs p r length :
  Forall scalar cs -> zlen (p ++ enc_text cs) <= length ->
  U16_FWD_N (p ++ enc_text cs ++ r) (zlen p) length (zlen cs) = Some (zlen (p ++ enc_text cs)).
Proof.
  unfold U16_FWD_N. replace (Z.to_nat (zlen cs)) with (List.length cs) by (unfold zlen; lia).
  intros Hs. revert p. induction Hs as [|c cs Hc Hs IH]; intros p Hl.
  { cbn. by rewrite app_nil_r. }
  unfold enc_text in *. cbn [map concat List.length U16_FWD_N_loop] in *. pose proof (encode_nonempty c).
  pose proof (zlen_nonneg (concat (map encode cs))). rewrite app_assoc, zlen_app in Hl. pose proof Hl as Hl'. rewrite zlen_app in Hl'.
  destruct (Z.ltb_spec (zlen p) length); [|lia]. cbn [mbind option_bind].
  rewrite <- app_assoc, FWD_1_scalar by (done || lia). cbn [mbind option_bind].
  rewrite (app_assoc p), IH by (rewrite zlen_app; lia). by rewrite <- app_assoc.
Qed.

(** The index of the first supplementary code point, or a number beyond the text. *)
Definition first_ok (cs : list Z) (first : Z) : Prop :=
  (Forall (fun c => c <= 0xffff) cs /\ 1000000000 <= first) \/
  exists a c b, cs = a ++ c :: b /\ Forall (fun c => c <= 0xffff) a /\ 0xffff < c /\ first = zlen a.

Lemma enc_text_bmp cs : Forall (fun c => c <= 0xffff) cs -> enc_text cs = cs.
Proof.
  induction 1 as [|c cs Hc Hs IH]; [done|]. unfold enc_text in *. cbn. rewrite IH. unfold encode.
  destruct (Z.leb_spec c 0xffff); [done|lia].
Qed.

Lemma U16_LENGTH_scalar c : scalar c -> U16_LENGTH c = zlen (encode c).
Proof. intros [Hc _]. by rewrite encode_zlen. Qed.

Lemma unit_index_spec a n b r first :
  Forall scalar (a ++ b) -> scalar n -> first_ok (a ++ b) first -> zlen a <= 1000000000 ->
  exists first', unit_index (enc_text (a ++ b) ++ r) (zlen (enc_text (a ++ b))) first (zlen a) (U16_LENGTH n) =
    Some (zlen (enc_text a), first') /\ first_ok (a ++ n :: b) first'.
Proof.
  intros Hs Hn Hf Ha. unfold unit_index. rewrite U16_LENGTH_scalar by done. apply Forall_app in Hs as [Hsa Hsb].
  destruct (Z.leb_spec (zlen a) first) as [Hle|Hgt].
  - assert (Hbmp : Forall (fun c => c <= 0xffff) a).
    { destruct Hf as [[Hall _]|(a0 & c & b0 & E & Hb0 & Hc & ->)].
      - by apply Forall_app in Hall as [? _].
      - apply (f_equal (take (length a))) in E. rewrite take_app_length in E. rewrite E.
        rewrite take_app_le by (unfold zlen in Hle; lia). by apply Forall_take. }
    rewrite (enc_text_bmp a) by done. eexists. split; [done|]. unfold encode. destruct (Z.leb_spec n 0xffff) as [Hb|Hb].
    + change (1 <? zlen [n]) with false. cbv iota. destruct Hf as [[Hall Hbig]|(a0 & c & b0 & E & Hb0 & Hc & ->)].
      * left. split; [|lia]. apply Forall_app in Hall as [? ?]. apply Forall_app. split; [done|]. by constructor.
      * right. assert (exists b1, b = b1 ++ c :: b0 /\ a0 = a ++ b1) as (b1 & -> & ->).
        { exists (drop (length a) a0).
          assert (take (length a) a0 = a) as Ht.
          { apply (f_equal (take (length a))) in E. rewrite take_app_length in E.
            rewrite take_app_le in E by (unfold zlen in Hle; lia). done. }
          split; [|by rewrite <- (take_drop (length a) a0) at 1; rewrite Ht].
          apply (f_equal (drop (length a))) in E. rewrite drop_app_length in E.
          rewrite drop_app_le in E by (unfold zlen in Hle; lia). done. }
        exists (a ++ n :: b1), c, b0. apply Forall_app in Hb0 as [? ?]. split_and!; auto.
        -- by rewrite <- app_assoc.
        -- apply Forall_app. split; [done|]. by constructor.
        -- rewrite !zlen_app, zlen_cons. lia.
    + change (1 <? zlen [U16_LEAD n; U16_TRAIL n]) with true. cbv iota. right. exists a, n, b. done.
  - destruct Hf as [[_ Hbig]|(a0 & c & b0 & E & Hb0 & Hc & ->)]; [lia|].
    assert (exists a1, a = a0 ++ c :: a1 /\ b0 = a1 ++ b) as (a1 & -> & ->).
    { exists (drop (S (length a0)) a).
      assert (Hlen : (S (length a0) <= length a)%nat) by (unfold zlen in Hgt; lia).
      assert (take (S (length a0)) a = a0 ++ [c]) as Ht.
      { apply (f_equal (take (S (length a0)))) in E. rewrite take_app_le in E by lia. rewrite E.
        rewrite cons_middle, app_assoc, take_app_le by (rewrite length_app; cbn; lia). rewrite take_ge; [done|]. rewrite length_app. cbn. lia. }
      split.
      - rewrite <- (take_drop (S (length a0)) a) at 1. by rewrite Ht, <- app_assoc.
      - apply (f_equal (drop (S (length a0)))) in E. rewrite drop_app_le in E by lia. rewrite E.
        rewrite cons_middle, app_assoc. by rewrite drop_app_length' by (rewrite length_app; cbn; lia). }
    apply Forall_app in Hsa as [Hs0 Hs1].
    pose proof (FWD_N_text (c :: a1) a0 (enc_text b ++ r) (zlen (enc_text ((a0 ++ c :: a1) ++ b))) Hs1) as Hfwd.
    rewrite !enc_text_app, (enc_text_bmp a0) in * by done. rewrite <- !app_assoc in *.
    replace (zlen (a0 ++ c :: a1) - zlen a0) with (zlen (c :: a1)) by (rewrite zlen_app; lia).
    rewrite Hfwd by (rewrite !zlen_app; pose proof (zlen_nonneg (enc_text b)); lia). cbn [mbind option_bind].
    eexists. split; [done|]. right. exists a0, c, (a1 ++ n :: b). split_and!; auto.
Qed.

Lemma insert_cp_spec x y spare n upper :
  scalar n -> U16_LENGTH n <= zlen spare ->
  insert_cp (x ++ y ++ spare) None (zlen (x ++ y)) (zlen x) n (U16_LENGTH n) upper =
    Some (x ++ encode n ++ y ++ drop (length (encode n)) spare, None).
Proof.
  intros Hn Hl. rewrite U16_LENGTH_scalar in * by done. pose proof (encode_nonempty n).
  destruct (make_room x y spare (zlen (encode n))) as (w & E & Hw); [lia|]. unfold insert_cp. rewrite E. clear E.
  cbn [mbind option_bind]. replace (Z.to_nat (zlen (encode n))) with (length (encode n)) by (unfold zlen; lia).
  destruct Hn as [Hn _]. unfold code_point in Hn. unfold encode in *. destruct (Z.leb_spec n 0xffff).
  - apply zlen_1_inv in Hw as [z ->]. change (zlen [n] =? 1) with true. cbv iota. cbn [app]. rewrite zset_middle.
    cbn [mbind option_bind]. unfold uint16. rewrite Z.mod_small by lia. done.
  - apply zlen_2_inv in Hw as (z1 & z2 & ->). change (zlen [U16_LEAD n; U16_TRAIL n] =? 1) with false. cbv iota. cbn [app].
    rewrite zset_middle. cbn [mbind option_bind length].
    replace (x ++ U16_LEAD n :: z2 :: y ++ drop 2 spare) with ((x ++ [U16_LEAD n]) ++ z2 :: y ++ drop 2 spare)
      by (by rewrite <- app_assoc).
    replace (zlen x + 1) with (zlen (x ++ [U16_LEAD n])) by (by rewrite zlen_app).
    rewrite zset_middle. cbn [mbind option_bind]. by rewrite <- app_assoc.
Qed.

(** ** The decoder's turn *)

Lemma chars_nonempty fuel bias q k : 0 < zlen (chars (digits (S fuel) bias q k)).
Proof.
  cbn [digits]. unfold chars. destruct (_ <? _); cbn [map]; rewrite zlen_cons; [done|].
  match goal with |- 0 < zlen ?l + 1 => pose proof (zlen_nonneg l) end. lia.
Qed.

(** The decoder's state stands for the code points [out] already placed. *)
Record stands (cap : Z) (out : list Z) (st : dec) : Prop := {
  sd_count : d_cpCount st = zlen out;
  sd_length : d_destLength st = zlen (enc_text out);
  sd_out : exists spare, d_out st = (Some (enc_text out ++ spare), None) /\ zlen (enc_text out ++ spare) = cap;
  sd_scalar : Forall scalar out;
  sd_first : first_ok out (d_first st);
  sd_i : 0 <= d_i st <= zlen out;
  sd_n : 0x80 <= d_n st <= 0x10ffff;
  sd_bias : 0 <= d_bias st <= 179
}.

(** The 12 digits that any value below [LIMIT] needs at most, from the first position. *)
Definition int_chars (bias delta : Z) : list Z := chars (digits 12 bias delta 36).

Lemma decode_turn_spec cap a b x delta st l :
  stands cap (a ++ b) st -> d_in st = zlen l -> 0 <= delta -> scalar x -> d_n st <= x ->
  zlen (a ++ b) <= 200 ->
  d_i st + delta = (x - d_n st) * (zlen (a ++ b) + 1) + zlen a ->
  zlen (enc_text (a ++ x :: b)) <= cap ->
  exists st', (forall r, decode_turn (l ++ int_chars (d_bias st) delta ++ r)
        (zlen (l ++ int_chars (d_bias st) delta ++ r)) cap st = Some (inr st')) /\
    stands cap (a ++ x :: b) st' /\ d_in st' = zlen (l ++ int_chars (d_bias st) delta) /\
    d_n st' = x /\ d_i st' = zlen a + 1 /\
    Some (d_bias st') = adaptBias delta (zlen (a ++ b) + 1) (d_i st =? 0).
Proof.
  intros Hst Hin Hd0 Hx Hn Hsmall Heq Hcap. pose proof (sd_i _ _ _ Hst) as Hi. pose proof (sd_n _ _ _ Hst) as Hdn.
  pose proof (zlen_nonneg a). pose proof (zlen_nonneg b). pose proof Hsmall as Hs'. rewrite zlen_app in Hs'.
  destruct Hx as [Hxc Hxs]. unfold code_point in Hxc.
  assert (HL : d_i st + delta * 1 <= LIMIT).
  { unfold LIMIT. rewrite Z.mul_1_r, Heq. nia. }
  assert (Hpow : 0 <= delta < 10 ^ Z.of_nat 11) by (change (10 ^ Z.of_nat 11) with 100000000000; unfold LIMIT in *; lia).
  destruct (adaptBias_spec 4 delta (zlen (a ++ b) + 1) (d_i st =? 0)) as (bias & Eb & Hb);
    [unfold INT32_MAX, LIMIT in *; lia|change (456 * 35 ^ Z.of_nat 4) with 684285000; unfold LIMIT in *; lia|lia|rewrite zlen_app; lia|].
  assert (Hq : (d_i st + delta) / (zlen (a ++ b) + 1) = x - d_n st /\ (d_i st + delta) mod (zlen (a ++ b) + 1) = zlen a).
  { rewrite Heq, zlen_app.
    split; [rewrite Z.div_add_l, Z.div_small by lia; lia|rewrite Z.add_comm, Z.mod_add, Z.mod_small by lia; done]. }
  destruct Hq as [Hq1 Hq2]. destruct (sd_out _ _ _ Hst) as (spare & Eo & Hz).
  assert (Hxl : U16_LENGTH x = zlen (encode x)) by (by rewrite U16_LENGTH_scalar).
  assert (Et : enc_text (a ++ x :: b) = enc_text a ++ encode x ++ enc_text b) by (by rewrite enc_text_app).
  assert (Hroom : zlen (enc_text (a ++ b)) + U16_LENGTH x <= cap).
  { rewrite Hxl. rewrite Et in Hcap. rewrite enc_text_app. rewrite !zlen_app in *. lia. }
  destruct (unit_index_spec a x b spare (d_first st)) as (first & Hui & Hfirst); [apply Hst|done|apply Hst|lia|].
  exists (Dec x (zlen a + 1) bias (zlen (l ++ int_chars (d_bias st) delta)) (zlen (a ++ b) + 1) first
           (zlen (enc_text (a ++ b)) + U16_LENGTH x)
           (Some (enc_text a ++ encode x ++ enc_text b ++ drop (length (encode x)) spare), None)).
  split; [|split; [|done]].
  - intros r. unfold decode_turn. rewrite Hin. unfold int_chars.
    change BASE with (36 * 1). change (digits 12 (d_bias st) delta 36) with (digits 12 (d_bias st) delta (36 * 1)).
    rewrite (decode_integer_spec 11 (d_bias st) delta 1 (d_i st) 1 l r); try lia.
    2:{ apply Hst. }
    2:{ rewrite !zlen_app. pose proof (zlen_nonneg r). lia. }
    2:{ unfold chars. rewrite !length_app, length_map. lia. }
    cbn [mbind option_bind]. rewrite Z.mul_1_r, (sd_count _ _ _ Hst).
    replace (d_i st + delta - d_i st) with delta by lia. rewrite Eb. cbn [mbind option_bind].
    rewrite Z.quot_div_nonneg, Z.rem_mod_nonneg by (rewrite ?zlen_app; lia). rewrite Hq1, Hq2.
    destruct (Z.ltb_spec (0x7fffffff - d_n st) (x - d_n st)); [lia|].
    rewrite checked_in by (unfold INT32_MIN, INT32_MAX; lia). cbn [mbind option_bind].
    replace (d_n st + (x - d_n st)) with x by lia.
    assert (U_IS_SURROGATE x = false) as ->.
    { apply not_true_iff_false. rewrite surrogate_range by lia. done. }
    destruct (Z.ltb_spec 0x10ffff x); [lia|]. cbn [orb]. rewrite Eo. cbn [fst snd]. rewrite (sd_length _ _ _ Hst).
    destruct (Z.leb_spec (zlen (enc_text (a ++ b)) + U16_LENGTH x) cap); [|lia]. rewrite Hui. cbn [mbind option_bind].
    destruct (zget_is_Some (l ++ chars (digits 12 (d_bias st) delta (36 * 1)) ++ r)
      (zlen (l ++ chars (digits 12 (d_bias st) delta (36 * 1))) - 1)) as [u ->].
    { rewrite !zlen_app. pose proof (zlen_nonneg l). pose proof (zlen_nonneg r).
      pose proof (chars_nonempty 11 (d_bias st) delta (36 * 1)). lia. }
    cbn [mbind option_bind]. rewrite enc_text_app in *. rewrite <- app_assoc.
    rewrite insert_cp_spec by (done || rewrite !zlen_app in *; lia). done.
  - split; cbn.
    + rewrite !zlen_app, zlen_cons. lia.
    + rewrite Et, Hxl, enc_text_app, !zlen_app. lia.
    + eexists. rewrite Et, <- !app_assoc. split; [done|]. rewrite enc_text_app, Hxl, !zlen_app in *.
      unfold zlen in *. rewrite length_drop. lia.
    + pose proof (sd_scalar _ _ _ Hst) as [? ?]%Forall_app. apply Forall_app. split; [done|]. by constructor.
    + done.
    + rewrite zlen_app, zlen_cons. lia.
    + lia.
    + lia.
Qed.

(** ** The encoder against the decoder *)

(** [l], the text written so far, takes the decoder from its initial state to [st]; what
    follows in the text does not matter. *)
Definition leads (cap : Z) (st0 : dec) (l : list Z) (st : dec) : Prop :=
  exists k : nat, (k <= length l)%nat /\ forall r fuel,
    decode_loop (k + fuel) (l ++ r) (zlen (l ++ r)) cap st0 = decode_loop fuel (l ++ r) (zlen (l ++ r)) cap st.

Lemma leads_step cap st0 l st ds st' :
  leads cap st0 l st -> d_in st = zlen l -> 0 < zlen ds ->
  (forall r, decode_turn (l ++ ds ++ r) (zlen (l ++ ds ++ r)) cap st = Some (inr st')) ->
  leads cap st0 (l ++ ds) st'.
Proof.
  intros (k & Hk & Hl) Hin Hne Ht. exists (k + 1)%nat. split.
  { rewrite length_app. unfold zlen in Hne. lia. }
  intros r fuel. rewrite <- !app_assoc. rewrite <- Nat.add_assoc, Hl. cbn [Nat.add decode_loop].
  destruct (Z.ltb_spec (d_in st) (zlen (l ++ ds ++ r))).
  - by rewrite Ht.
  - rewrite !zlen_app in *. pose proof (zlen_nonneg r). lia.
Qed.

(** The key that the encoder keeps in its buffer for a code point. *)
Definition key (c : Z) : Z := if c <? 0x80 then 0 else c.

Lemma cp_of_key c : code_point c -> cp_of (key c) = key c.
Proof.
  intros Hc. unfold code_point in Hc. unfold cp_of. change 0x7fffffff with (Z.ones 31). rewrite Z.land_ones by lia.
  apply Z.mod_small. unfold key. change (2 ^ 31) with 2147483648. zcases.
Qed.

(** The code points up to [n] among [done_] and those below [n] among [rest]: what has been
    placed when the encoder, looking for [n], has come past [done_]. *)
Definition below (n : Z) (cs : list Z) : list Z := filter (fun c => c < n) cs.
Definition placed (n : Z) (done_ rest : list Z) : list Z := below (n + 1) done_ ++ below n rest.

(** The encoder's state against the decoder's. *)
Record agrees (cap dcap : Z) (st0 : dec) (d0 : list Z) (basicLength n : Z) (done_ rest : list Z) (e : enc) (l : list Z) (st : dec) : Prop := {
  ag_stands : stands dcap (placed n done_ rest) st;
  ag_leads : leads dcap st0 l st;
  ag_in : d_in st = zlen l;
  ag_dest : e_dest e = Some (overlay l d0) /\ e_destLength e = zlen l;
  ag_handled : e_handled e = zlen (placed n done_ rest);
  ag_bias : e_bias e = d_bias st;
  ag_first : (d_i st =? 0) = (e_handled e =? basicLength);
  ag_n : d_n st <= n;
  ag_delta : 0 <= e_delta e /\
    d_i st + e_delta e = (n - d_n st) * (zlen (placed n done_ rest) + 1) + zlen (below (n + 1) done_)
}.

Lemma digits_more f m bias q k : 0 <= q < 10 ^ Z.of_nat f -> digits (S f + m) bias q k = digits (S f) bias q k.
Proof.
  revert q k. induction f as [|f IH]; intros q k Hq; pose proof (threshold_range k bias) as Ht.
  - cbn [digits Nat.add]. destruct (Z.ltb_spec q (threshold k bias)); [done|]. cbn in Hq. lia.
  - change (S (S f) + m)%nat with (S (S f + m))%nat. remember (S f) as f' eqn:Ef. cbn [digits].
    destruct (Z.ltb_spec q (threshold k bias)) as [|Hge]; [done|]. pose proof (digit_step q _ Ht Hge) as [H0 H10].
    f_equal. subst f'. apply IH. rewrite Nat2Z.inj_succ, Z.pow_succ_r in Hq by lia. lia.
Qed.

Lemma below_app n a b : below n (a ++ b) = below n a ++ below n b.
Proof. apply filter_app. Qed.

Lemma below_lt n c r : c < n -> below n (c :: r) = c :: below n r.
Proof. intros. unfold below. by rewrite filter_cons_True. Qed.

Lemma below_ge n c r : n <= c -> below n (c :: r) = below n r.
Proof. intros. unfold below. rewrite filter_cons_False; [done|lia]. Qed.

Lemma below_zlen n cs : zlen (below n cs) <= zlen cs.
Proof. unfold zlen, below. pose proof (length_filter (fun c => c < n) cs). lia. Qed.

Lemma below_enc n cs : zlen (enc_text (below n cs)) <= zlen (enc_text cs).
Proof.
  induction cs as [|c cs IH]; [done|]. change (enc_text (c :: cs)) with (encode c ++ enc_text cs). rewrite zlen_app.
  pose proof (encode_nonempty c). destruct (Z.lt_ge_cases c n).
  - rewrite below_lt by done. change (enc_text (c :: below n cs)) with (encode c ++ enc_text (below n cs)). rewrite zlen_app. lia.
  - rewrite below_ge by done. lia.
Qed.

Lemma placed_zlen n a b : zlen (placed n a b) <= zlen (a ++ b).
Proof. unfold placed. rewrite !zlen_app. pose proof (below_zlen (n + 1) a). pose proof (below_zlen n b). lia. Qed.

Lemma placed_enc n a b : zlen (enc_text (placed n a b)) <= zlen (enc_text (a ++ b)).
Proof.
  unfold placed. rewrite !enc_text_app, !zlen_app. pose proof (below_enc (n + 1) a). pose proof (below_enc n b). lia.
Qed.

(** The characters after the delimiter are letters and digits. *)
Definition ext_char (x : Z) : Prop := 0x30 <= x <= 0x7a.

Lemma int_chars_ok bias delta : 0 <= delta < 10 ^ 11 -> Forall ext_char (int_chars bias delta).
Proof.
  intros Hd. unfold int_chars, chars. apply Forall_map. eapply Forall_impl.
  - apply (digits_range 12); [lia|]. change (36 * 10 ^ Z.of_nat 12) with 36000000000000. change (10 ^ 11) with 100000000000 in Hd. lia.
  - cbn. intros d Hdr. by apply digit_char.
Qed.

(** The pass that writes every occurrence of [n]. *)
Lemma encode_pass_spec dcap st0 d0 basicLength n done_ rest e l st :
  Forall scalar (done_ ++ rest) -> zlen (done_ ++ rest) <= 200 -> zlen (enc_text (done_ ++ rest)) <= dcap ->
  0x80 <= n <= 0x10ffff -> ~ (0xd800 <= n <= 0xdfff) -> basicLength <= e_handled e ->
  agrees (zlen d0) dcap st0 d0 basicLength n done_ rest e l st ->
  exists e' st' ext, encode_pass (map key rest) n basicLength (zlen d0) e = Some e' /\
    Forall ext_char ext /\ agrees (zlen d0) dcap st0 d0 basicLength n (done_ ++ rest) [] e' (l ++ ext) st' /\
    e_handled e <= e_handled e' /\ (n ∈ rest -> e_handled e < e_handled e').
Proof.
  intros Hsc Hlen Hcap Hn Hns. revert done_ e l st Hsc Hlen Hcap.
  induction rest as [|c rest IH]; intros done_ e l st Hsc Hlen Hcap Hb Hag.
  { exists e, st, []. rewrite !app_nil_r. split_and!; auto; [lia|set_solver]. }
  cbn [map encode_pass]. pose proof Hsc as [_ Hc]%Forall_app. apply Forall_cons in Hc as [Hc _].
  rewrite cp_of_key by apply Hc. rewrite cons_middle, app_assoc in Hsc, Hlen, Hcap |- *.
  pose proof (placed_zlen n done_ (c :: rest)) as Hpz. rewrite cons_middle, app_assoc in Hpz.
  destruct Hag as [Hst Hle Hin [Hd1 Hd2] Hh Hbi Hf Hdn [He0 Hde]].
  assert (e_delta e <= 224000000).
  { pose proof (sd_i _ _ _ Hst). pose proof (sd_n _ _ _ Hst). pose proof (below_zlen (n + 1) done_).
    pose proof (zlen_nonneg (placed n done_ (c :: rest))).
    assert ((n - d_n st) * (zlen (placed n done_ (c :: rest)) + 1) <= 1113983 * 201)
      by (apply Z.mul_le_mono_nonneg; lia).
    rewrite !zlen_app in Hlen. pose proof (zlen_nonneg rest). pose proof (zlen_nonneg [c]). lia. }
  assert (Hkey : (key c <? n) = (c <? n) /\ (key c =? n) = (c =? n)).
  { unfold key. destruct Hc as [Hc _]. unfold code_point in Hc. zcases. }
  destruct Hkey as [-> ->]. destruct (Z.ltb_spec c n) as [Hcn|Hcn]; [|destruct (Z.eqb_spec c n) as [->|Hne]].
  - rewrite checked_in by (unfold INT32_MIN, INT32_MAX; lia). cbn [mbind option_bind].
    assert (Ep : placed n (done_ ++ [c]) rest = placed n done_ (c :: rest)).
    { unfold placed. rewrite below_app, (below_lt (n + 1)), (below_lt n) by lia. by rewrite <- app_assoc. }
    destruct (IH (done_ ++ [c]) (Enc (e_delta e + 1) (e_bias e) (e_handled e) (e_dest e) (e_destLength e)) l st)
      as (e' & st' & ext & E & Hext & Hag' & Hmono & Hin'); auto.
    + split; cbn [e_delta e_bias e_handled e_dest e_destLength]; rewrite ?Ep; auto. split; [lia|]. rewrite below_app, zlen_app.
      rewrite (below_lt (n + 1)) by lia. change (zlen (c :: below (n + 1) [])) with 1. lia.
    + exists e', st', ext. split_and!; auto. intros [->|?]%elem_of_cons; [lia|auto].
  - unfold BASE.
    assert (Ed : digits 32 (e_bias e) (e_delta e) 36 = digits 12 (e_bias e) (e_delta e) 36).
    { apply (digits_more 11 20). change (10 ^ Z.of_nat 11) with 100000000000. lia. }
    pose proof (encode_integer_spec 31 (e_bias e) (e_delta e) 36 l d0) as Henc. cbn zeta in Henc. rewrite Ed in Henc. clear Ed.
    assert (Hneg : (key n <? 0) = false) by (apply Z.ltb_ge; unfold key; zcases).
    rewrite Hneg, Hd1, Hd2, Henc by (change (10 ^ Z.of_nat 31) with 10000000000000000000000000000000; lia).
    clear Henc. cbn [mbind option_bind]. fold (int_chars (e_bias e) (e_delta e)).
    set (a := below (n + 1) done_) in *. set (b := below n rest) in *.
    assert (Ep0 : placed n done_ (n :: rest) = a ++ b) by (unfold placed; by rewrite below_ge by lia).
    assert (Ep1 : placed n (done_ ++ [n]) rest = a ++ n :: b).
    { unfold placed. rewrite below_app, (below_lt (n + 1)) by lia. cbn [below]. rewrite <- app_assoc. done. }
    rewrite Ep0 in *. rewrite Hbi.
    destruct (decode_turn_spec dcap a b n (e_delta e) st l) as (st1 & Hturn & Hst1 & Hin1 & Hn1 & Hi1 & Hb1); auto; [lia| |].
    { pose proof (placed_enc n (done_ ++ [n]) rest). rewrite Ep1 in *. lia. }
    rewrite <- Hf, Hh, <- Hb1. cbn [mbind option_bind].
    destruct (IH (done_ ++ [n]) (Enc 0 (d_bias st1) (e_handled e + 1) (Some (overlay (l ++ int_chars (d_bias st) (e_delta e)) d0))
        (zlen (l ++ int_chars (d_bias st) (e_delta e)))) (l ++ int_chars (d_bias st) (e_delta e)) st1)
      as (e' & st' & ext & E & Hext & Hag' & Hmono & Hin'); auto; cbn [e_delta e_bias e_handled e_dest e_destLength]; [lia| |].
    + rewrite <- Ep1 in Hst1. split; cbn [e_delta e_bias e_handled e_dest e_destLength]; auto.
      * eapply leads_step; [exact Hle|exact Hin|apply (chars_nonempty 11)|exact Hturn].
      * rewrite Ep1, Hh, !zlen_app, zlen_cons. lia.
      * pose proof (zlen_nonneg a). destruct (Z.eqb_spec (d_i st1) 0), (Z.eqb_spec (e_handled e + 1) basicLength); lia || done.
      * lia.
      * split; [lia|]. rewrite below_app, zlen_app, (below_lt (n + 1)) by lia. fold a.
        change (zlen (n :: below (n + 1) [])) with 1. rewrite Hn1, Hi1. lia.
    + rewrite Hh in E. exists e', st', (int_chars (d_bias st) (e_delta e) ++ ext). rewrite app_assoc. split_and!; auto.
      * apply Forall_app. split; [|done]. apply int_chars_ok. change (10 ^ 11) with 100000000000. lia.
      * cbn [e_handled] in Hmono. lia.
      * intros _. cbn [e_handled] in Hmono. lia.
  - assert (Ep : placed n (done_ ++ [c]) rest = placed n done_ (c :: rest)).
    { unfold placed. rewrite below_app, (below_ge (n + 1)), (below_ge n) by lia. by rewrite app_nil_r. }
    destruct (IH (done_ ++ [c]) e l st) as (e' & st' & ext & E & Hext & Hag' & Hmono & Hin'); auto.
    + split; cbn [e_delta e_bias e_handled e_dest e_destLength]; rewrite ?Ep; auto. split; [lia|]. rewrite below_app, (below_ge (n + 1)) by lia.
      cbn [below]. by rewrite app_nil_r.
    + exists e', st', ext. split_and!; auto. intros [->|?]%elem_of_cons; [lia|auto].
Qed.

Lemma next_larger_spec cs n m :
  Forall scalar cs -> 0x80 <= n ->
  let m' := next_larger (map key cs) n m in
  (m' = m \/ (m' ∈ cs /\ n <= m')) /\ m' <= m /\ forall c, c ∈ cs -> n <= c -> m' <= c.
Proof.
  intros Hs Hn. cbn zeta. revert m. induction Hs as [|c cs Hc Hs IH]; intros m; cbn [map next_larger].
  { split_and!; [by left|lia|]. intros c Hc. by apply not_elem_of_nil in Hc. }
  rewrite cp_of_key by apply Hc. set (m1 := if _ && _ then _ else _).
  assert (Hm1 : m1 <= m /\ (n <= c -> m1 <= c) /\ (m1 = m \/ (m1 = c /\ n <= c))).
  { unfold m1, key. destruct Hc as [Hc _]. unfold code_point in Hc. repeat (zcase; cbn [andb]); lia. }
  destruct (IH m1) as (Hor & Hle & Hmin). set (m' := next_larger _ n m1) in *. split_and!.
  - destruct Hor as [->|[? ?]]; [|right; split; [by right|done]].
    destruct Hm1 as (_ & _ & [->|[-> ?]]); [by left|right; split; [by left|done]].
  - lia.
  - intros d [->|Hd]%elem_of_cons Hnd; [|by apply Hmin]. destruct Hm1 as (_ & Hc1 & _). specialize (Hc1 Hnd). lia.
Qed.

Lemma below_all n cs : zlen (below n cs) = zlen cs -> below n cs = cs.
Proof.
  induction cs as [|c cs IH]; [done|]. destruct (Z.lt_ge_cases c n).
  - rewrite below_lt, !zlen_cons by done. intros Hz. rewrite IH by lia. done.
  - rewrite below_ge, zlen_cons by done. pose proof (below_zlen n cs). lia.
Qed.

Lemma below_missing n cs : zlen (below n cs) < zlen cs -> exists c, c ∈ cs /\ n <= c.
Proof.
  induction cs as [|c cs IH]; [done|]. destruct (Z.lt_ge_cases c n).
  - rewrite below_lt, !zlen_cons by done. intros Hz. destruct IH as (d & ? & ?); [lia|]. exists d. split; [by right|done].
  - intros _. exists c. split; [by left|done].
Qed.

Lemma below_gap n m cs : n <= m -> (forall c, c ∈ cs -> n <= c -> m <= c) -> below m cs = below n cs.
Proof.
  intros Hnm Hgap. unfold below. apply list_filter_ext. intros c Hc. specialize (Hgap c Hc). lia.
Qed.

Lemma encode_loop_spec fuel dcap st0 d0 basicLength n cs e l st :
  Forall scalar cs -> zlen cs <= 200 -> zlen (enc_text cs) <= dcap -> 0x80 <= n <= 0x110000 ->
  basicLength <= e_handled e -> zlen cs - e_handled e < Z.of_nat fuel ->
  agrees (zlen d0) dcap st0 d0 basicLength n [] cs e l st ->
  exists e' st' ext, encode_loop fuel (map key cs) n basicLength (zlen d0) e = Some (inr e') /\
    Forall ext_char ext /\ leads dcap st0 (l ++ ext) st' /\ d_in st' = zlen (l ++ ext) /\ stands dcap cs st' /\
    e_dest e' = Some (overlay (l ++ ext) d0) /\ e_destLength e' = zlen (l ++ ext).
Proof.
  intros Hs Hlen Hcap. revert n e l st. induction fuel as [|fuel IH]; intros n e l st Hn Hb Hf Hag.
  { pose proof (ag_handled _ _ _ _ _ _ _ _ _ _ _ Hag) as Hh. pose proof (placed_zlen n [] cs). cbn [app] in *. lia. }
  cbn [encode_loop]. replace (zlen (map key cs)) with (zlen cs) by (unfold zlen; by rewrite length_map).
  pose proof (placed_zlen n [] cs) as Hpz. cbn [app] in Hpz.
  pose proof Hag as [Hst Hle Hin [Hd1 Hd2] Hh Hbi Hfi Hdn [He0 Hde]].
  unfold placed in *. cbn [below filter list_filter app] in *. change (below (n + 1) []) with (@nil Z) in *. cbn [app] in *.
  destruct (Z.ltb_spec (e_handled e) (zlen cs)) as [Hmore|Hdone].
  - destruct (below_missing n cs) as (c0 & Hc0 & Hnc0); [lia|].
    destruct (next_larger_spec cs n 0x7fffffff Hs) as (Hor & Hmle & Hmin); [lia|].
    set (m := next_larger (map key cs) n 0x7fffffff) in *.
    assert (Hall : forall c, c ∈ cs -> scalar c) by (intros c Hc; by apply (proj1 (Forall_forall _ _) Hs)).
    assert (Hm : m ∈ cs /\ n <= m).
    { destruct Hor as [E|?]; [|done]. exfalso. pose proof (Hmin c0 Hc0 Hnc0). destruct (Hall c0 Hc0) as [Hcc _].
      unfold code_point in Hcc. lia. }
    destruct Hm as [Hm Hnm]. destruct (Hall m Hm) as [Hmc Hms]. unfold code_point in Hmc.
    pose proof (sd_i _ _ _ Hst) as Hi. pose proof (sd_n _ _ _ Hst) as Hdn0. pose proof (zlen_nonneg (below n cs)) as Hz0.
    change (zlen (@nil Z)) with 0 in Hde.
    assert (e_delta e <= 224000000).
    { assert ((n - d_n st) * (zlen (below n cs) + 1) <= 1113985 * 201) by (apply Z.mul_le_mono_nonneg; lia). lia. }
    assert (Hjump : (m - n) * (e_handled e + 1) <= 1114111 * 201) by (apply Z.mul_le_mono_nonneg; lia).
    rewrite Z.quot_div_nonneg by (unfold MAX_CP_COUNT; lia).
    destruct (Z.ltb_spec ((0x7fffffff - MAX_CP_COUNT - e_delta e) / (e_handled e + 1)) (m - n)) as [Hbad|_].
    { assert (m - n <= (0x7fffffff - MAX_CP_COUNT - e_delta e) / (e_handled e + 1)); [|lia].
      apply Z.div_le_lower_bound; unfold MAX_CP_COUNT; lia. }
    assert (Hjump0 : 0 <= (m - n) * (e_handled e + 1)) by (apply Z.mul_nonneg_nonneg; lia).
    rewrite (checked_in (e_delta e + (m - n) * (e_handled e + 1))) by (unfold INT32_MIN, INT32_MAX; lia). cbn [mbind option_bind].
    pose proof (below_gap n m cs Hnm Hmin) as Egap.
    destruct (encode_pass_spec dcap st0 d0 basicLength m [] cs
      (Enc (e_delta e + (m - n) * (e_handled e + 1)) (e_bias e) (e_handled e) (e_dest e) (e_destLength e)) l st)
      as (e1 & st1 & ext1 & E1 & Hext1 & Hag1 & Hmono1 & Hprog); auto; [lia| |].
    { split; cbn [e_delta e_bias e_handled e_dest e_destLength]; unfold placed; change (below (m + 1) []) with (@nil Z); cbn [app];
        rewrite ?Egap; auto; [lia|]. split; [lia|]. change (zlen (@nil Z)) with 0. rewrite Hh. lia. }
    rewrite E1. cbn [mbind option_bind]. specialize (Hprog Hm). cbn [app] in Hag1.
    cbn [e_delta e_bias e_handled e_dest e_destLength] in *.
    pose proof Hag1 as [Hst1 Hle1 Hin1 [Hd11 Hd12] Hh1 Hbi1 Hfi1 Hdn1 [He01 Hde1]].
    assert (Ep : placed m cs [] = below (m + 1) cs) by (unfold placed; by rewrite app_nil_r).
    rewrite Ep in *. pose proof (sd_i _ _ _ Hst1). pose proof (sd_n _ _ _ Hst1). pose proof (below_zlen (m + 1) cs).
    assert (e_delta e1 <= 225000000).
    { assert ((m - d_n st1) * (zlen (below (m + 1) cs) + 1) <= 1114111 * 201) by (apply Z.mul_le_mono_nonneg; pose proof (zlen_nonneg (below (m + 1) cs)); lia). lia. }
    rewrite !checked_in by (unfold INT32_MIN, INT32_MAX; lia). cbn [mbind option_bind].
    destruct (IH (m + 1) (Enc (e_delta e1 + 1) (e_bias e1) (e_handled e1) (e_dest e1) (e_destLength e1)) (l ++ ext1) st1)
      as (e' & st' & ext & E & Hext & Hl' & Hin' & Hst' & Hd'); auto; cbn [e_delta e_bias e_handled e_dest e_destLength]; [lia|lia|lia| |].
    { split; cbn [e_delta e_bias e_handled e_dest e_destLength]; unfold placed; change (below (m + 1 + 1) []) with (@nil Z); cbn [app]; auto; [lia|].
      split; [lia|]. change (zlen (@nil Z)) with 0. lia. }
    exists e', st', (ext1 ++ ext). rewrite app_assoc. split_and!; auto; try apply Hd'. by apply Forall_app.
  - exists e, st, []. rewrite app_nil_r. split_and!; auto. rewrite below_all in Hst by lia. done.
Qed.

(** ** Collecting the code points *)

Definition basics (cs : list Z) : list Z := below 0x80 cs.

Lemma collect_basic c a b d0 :
  scalar c -> c < 0x80 ->
  collect_one (enc_text a ++ encode c ++ b) (Some (zlen (enc_text a ++ encode c ++ b))) None (zlen d0) c (zlen (enc_text a))
    (map key a) (Some (overlay (basics a) d0)) (zlen (basics a)) =
  Some (inr (zlen (enc_text a), map key (a ++ [c]), Some (overlay (basics (a ++ [c])) d0), zlen (basics (a ++ [c])))).
Proof.
  intros Hc Hb. unfold collect_one, IS_BASIC. destruct (Z.ltb_spec c 0x80); [|lia]. cbn [mbind option_bind].
  assert (Eb : basics (a ++ [c]) = basics a ++ [c]) by (unfold basics; rewrite below_app, below_lt by lia; done).
  rewrite put_overlay, Eb, map_app. cbn [map]. unfold key at 3. destruct (Z.ltb_spec c 0x80); [|lia].
  destruct (Z.ltb_spec (zlen (basics a)) (zlen d0)) as [|Hge]; cbn [mbind option_bind].
  - by rewrite zlen_app.
  - assert (overlay (basics a ++ [c]) d0 = overlay (basics a) d0) as ->.
    { unfold overlay, zlen in *. rewrite take_app_le by lia. rewrite !drop_ge by (rewrite ?length_app; lia). done. }
    by rewrite zlen_app.
Qed.

Lemma collect_extended c a b d0 :
  scalar c -> 0x80 <= c ->
  exists x, zget (enc_text a ++ encode c ++ b) (zlen (enc_text a)) = Some x /\
  collect_one (enc_text a ++ encode c ++ b) (Some (zlen (enc_text a ++ encode c ++ b))) None (zlen d0) x (zlen (enc_text a))
    (map key a) (Some (overlay (basics a) d0)) (zlen (basics a)) =
  Some (inr (zlen (enc_text a ++ encode c) - 1, map key (a ++ [c]), Some (overlay (basics (a ++ [c])) d0), zlen (basics (a ++ [c])))).
Proof.
  intros Hc Hb. pose proof Hc as [Hcp Hs]. unfold code_point in Hcp.
  assert (basics (a ++ [c]) = basics a) as -> by (unfold basics; rewrite below_app, below_ge by lia; apply app_nil_r).
  rewrite map_app. cbn [map]. unfold key at 3. destruct (Z.ltb_spec c 0x80); [lia|].
  unfold encode. destruct (Z.leb_spec c 0xffff).
  - exists c. cbn [app]. rewrite zget_middle. split; [done|]. unfold collect_one, IS_BASIC. destruct (Z.ltb_spec c 0x80); [lia|].
    cbn [flag_at mbind option_bind]. unfold U16_IS_SINGLE.
    assert (U_IS_SURROGATE c = false) as -> by (apply not_true_iff_false; rewrite surrogate_range by lia; done).
    cbn [negb]. rewrite zlen_app. change (zlen [c]) with 1. do 5 f_equal. lia.
  - destruct (encode_pair c) as [Hp Hg]; [lia|]. pose proof Hp as [H1 H2]%andb_true_iff.
    pose proof (lead_value c) as Hlv. exists (U16_LEAD c). cbn [app]. rewrite zget_middle. split; [done|].
    unfold collect_one, IS_BASIC. destruct (Z.ltb_spec (U16_LEAD c) 0x80); [rewrite Hlv in *; dlia|].
    cbn [flag_at mbind option_bind]. unfold U16_IS_SINGLE.
    assert (U_IS_SURROGATE (U16_LEAD c) = true) as ->.
    { apply surrogate_range; rewrite Hlv by lia; dlia. }
    cbn [negb]. rewrite H1. cbn [andb].
    replace (enc_text a ++ U16_LEAD c :: U16_TRAIL c :: b) with ((enc_text a ++ [U16_LEAD c]) ++ U16_TRAIL c :: b) by (by rewrite <- app_assoc).
    assert (Hz1 : zlen (enc_text a ++ [U16_LEAD c]) = zlen (enc_text a) + 1) by (by rewrite zlen_app).
    destruct (Z.ltb_spec (zlen (enc_text a) + 1) (zlen ((enc_text a ++ [U16_LEAD c]) ++ U16_TRAIL c :: b))).
    2:{ rewrite (zlen_app (enc_text a ++ _)), zlen_cons in *. pose proof (zlen_nonneg b). lia. }
    rewrite <- Hz1, zget_middle. cbn [mbind option_bind]. rewrite H2, Hg, Z.add_0_l.
    rewrite zlen_app. change (zlen [U16_LEAD c]) with 1. rewrite zlen_app. change (zlen [U16_LEAD c; U16_TRAIL c]) with 2.
    do 5 f_equal. lia.
Qed.

Lemma collect_spec fuel a b d0 :
  Forall scalar (a ++ b) -> zlen (a ++ b) <= 200 -> zlen (enc_text b) < Z.of_nat fuel ->
  collect fuel (enc_text (a ++ b)) (zlen (enc_text (a ++ b))) None (zlen d0) (zlen (enc_text a)) (map key a)
    (Some (overlay (basics a) d0)) (zlen (basics a)) =
  Some (inr (map key (a ++ b), Some (overlay (basics (a ++ b)) d0), zlen (basics (a ++ b)))).
Proof.
  revert a b. induction fuel as [|fuel IH]; intros a b Hs Hl Hf; [pose proof (zlen_nonneg (enc_text b)); lia|].
  cbn [collect]. destruct b as [|c b].
  { rewrite !app_nil_r. by rewrite Z.ltb_irrefl. }
  change (enc_text (c :: b)) with (encode c ++ enc_text b) in Hf. rewrite zlen_app in Hf.
  pose proof (encode_nonempty c). pose proof (zlen_nonneg (enc_text b)).
  pose proof Hs as [_ Hc]%Forall_app. apply Forall_cons in Hc as [Hc _].
  replace (zlen (map key a)) with (zlen a) by (unfold zlen; by rewrite length_map).
  assert (zlen a < 200) by (rewrite zlen_app, zlen_cons in Hl; pose proof (zlen_nonneg b); lia).
  rewrite !enc_text_app. change (enc_text (c :: b)) with (encode c ++ enc_text b).
  destruct (Z.ltb_spec (zlen (enc_text a)) (zlen (enc_text a ++ encode c ++ enc_text b))); [|rewrite !zlen_app in *; lia].
  destruct (Z.eqb_spec (zlen a) MAX_CP_COUNT); [unfold MAX_CP_COUNT in *; lia|].
  specialize (IH (a ++ [c]) b). rewrite <- !app_assoc in IH. cbn [app] in IH. specialize (IH Hs Hl).
  rewrite !enc_text_app in IH. change (enc_text [c]) with (encode c ++ []) in IH. rewrite app_nil_r in IH.
  change (enc_text (c :: b)) with (encode c ++ enc_text b) in IH.
  destruct (Z.lt_ge_cases c 0x80).
  - assert (Ee : encode c = [c]) by (unfold encode; destruct (Z.leb_spec c 0xffff); [done|lia]).
    assert (zget (enc_text a ++ encode c ++ enc_text b) (zlen (enc_text a)) = Some c) as -> by (rewrite Ee; apply zget_middle).
    cbn [mbind option_bind]. rewrite collect_basic by done. cbn [mbind option_bind].
    rewrite <- IH by lia. rewrite Ee, (zlen_app _ [c]). done.
  - destruct (collect_extended c a (enc_text b) d0 Hc) as (x & -> & E); [lia|]. cbn [mbind option_bind]. rewrite E.
    cbn [mbind option_bind]. rewrite <- IH by lia. do 2 f_equal. lia.
Qed.

(** ** The decoder's first steps *)

Lemma last_delimiter_spec p l r :
  Forall ext_char l ->
  last_delimiter (length p + length l) (p ++ l ++ r) (zlen (p ++ l)) = last_delimiter (length p) (p ++ l ++ r) (zlen p).
Proof.
  revert r. induction l as [|x l IH] using rev_ind; intros r Hl.
  { cbn. by rewrite app_nil_r, Nat.add_0_r. }
  apply Forall_app in Hl as [Hl Hx]. rewrite Forall_singleton in Hx. unfold ext_char in Hx.
  rewrite length_app. cbn [length]. replace (length p + (length l + 1))%nat with (S (length p + length l)) by lia.
  cbn [last_delimiter]. rewrite <- (app_assoc l), (app_assoc p l [x]), (zlen_app (p ++ l)). change (zlen [x]) with 1.
  replace (zlen (p ++ l) + 1 - 1) with (zlen (p ++ l)) by lia.
  assert (zget (p ++ l ++ [x] ++ r) (zlen (p ++ l)) = Some x) as -> by (rewrite (app_assoc p); apply zget_middle).
  cbn [mbind option_bind]. destruct (Z.eqb_spec x DELIMITER); [unfold DELIMITER in *; lia|]. by apply IH.
Qed.

Lemma copy_basic_spec a b oa spare r :
  Forall (fun c => c < 0x80) a -> zlen oa = zlen a ->
  copy_basic (length a) (a ++ r) (zlen (oa ++ b ++ spare)) (zlen a) (Some (oa ++ b ++ spare), None) =
    Some (inr (Some (a ++ b ++ spare), None)).
Proof.
  revert b oa r. induction a as [|x a IH] using rev_ind; intros b oa r Ha Ho.
  { by rewrite (zlen_0_inv oa). }
  rewrite zlen_app in Ho. change (zlen [x]) with 1 in Ho. pose proof (zlen_nonneg a).
  destruct oa as [|y oa _] using rev_ind; [change (zlen (@nil Z)) with 0 in Ho; lia|].
  rewrite zlen_app in Ho. change (zlen [y]) with 1 in Ho. apply Forall_app in Ha as [Ha Hx]. rewrite Forall_singleton in Hx.
  rewrite length_app. cbn [length]. rewrite Nat.add_1_r. cbn [copy_basic].
  rewrite (zlen_app a [x]). change (zlen [x]) with 1. replace (zlen a + 1 - 1) with (zlen a) by lia.
  rewrite <- !app_assoc. cbn [app]. rewrite zget_middle. cbn [mbind option_bind]. unfold IS_BASIC.
  destruct (Z.ltb_spec x 0x80); [|lia]. cbn [negb].
  assert (zlen a = zlen oa) as -> by lia.
  destruct (Z.ltb_spec (zlen oa) (zlen (oa ++ y :: b ++ spare))).
  2:{ rewrite zlen_app, zlen_cons in *. pose proof (zlen_nonneg (b ++ spare)). lia. }
  cbn [fst snd mbind option_bind]. rewrite zset_middle. cbn [mbind option_bind].
  specialize (IH (x :: b) oa (x :: r) Ha ltac:(lia)). cbn [app] in IH.
  replace (zlen (oa ++ y :: b ++ spare)) with (zlen (oa ++ x :: b ++ spare)) by (rewrite !zlen_app, !zlen_cons; done).
  replace (zlen oa) with (zlen a) by lia. exact IH.
Qed.

(** ** The round trip *)

Lemma basics_enc cs : enc_text (basics cs) = basics cs.
Proof. apply enc_text_bmp. unfold basics, below. apply Forall_forall. intros c [Hc _]%list_elem_of_filter. lia. Qed.

Lemma terminate_success (d : list Z) n :
  0 <= n -> exists d' e, u_terminateUChars (Some d) (zlen d) n U_ZERO_ERROR = Some (Some d', n, e) /\
    (n <= zlen d -> U_FAILURE e = false /\ ztake n d' = ztake n d) /\ (zlen d < n -> e = U_BUFFER_OVERFLOW_ERROR).
Proof.
  intros Hn. unfold u_terminateUChars. cbn [U_SUCCESS U_FAILURE negb]. destruct (Z.ltb_spec n 0); [lia|].
  destruct (Z.ltb_spec n (zlen d)).
  - cbn [mbind option_bind]. rewrite zset_in by lia. cbn [mbind option_bind]. eexists _, _. split; [done|]. split; [|lia].
    intros _. split; [done|]. unfold ztake. apply take_insert_ge. lia.
  - destruct (Z.eqb_spec n (zlen d)); eexists _, _; (split; [done|]); (split; [|lia || done]); [done|lia].
Qed.

(** The state in which the main decoding loop starts. *)
Definition start_state (cs : list Z) (spare : list Z) : dec :=
  let basicLength := zlen (basics cs) in
  Dec INITIAL_N 0 INITIAL_BIAS (if 0 <? basicLength then basicLength + 1 else 0) basicLength 1000000000 basicLength
    (Some (basics cs ++ spare), None).

(** The basic code points with their delimiter. *)
Definition head_text (cs : list Z) : list Z := if 0 <? zlen (basics cs) then basics cs ++ [DELIMITER] else [].

Lemma start_agrees cs spare d0 :
  Forall scalar cs -> zlen cs <= 200 ->
  agrees (zlen d0) (zlen (basics cs ++ spare)) (start_state cs spare) d0 (zlen (basics cs)) INITIAL_N [] cs
    (Enc 0 INITIAL_BIAS (zlen (basics cs)) (Some (overlay (head_text cs) d0)) (zlen (head_text cs)))
    (head_text cs) (start_state cs spare).
Proof.
  intros Hs Hl. pose proof (zlen_nonneg (basics cs)).
  assert (Ep : placed INITIAL_N [] cs = basics cs) by done.
  split; cbn [e_delta e_bias e_handled e_dest e_destLength]; rewrite ?Ep; auto.
  - split; cbn [start_state d_cpCount d_destLength d_out d_first d_i d_n d_bias]; rewrite ?basics_enc; auto; try (unfold INITIAL_BIAS, INITIAL_N; lia).
    + eauto.
    + unfold basics, below. apply Forall_forall. intros c [_ Hc]%list_elem_of_filter. by apply (proj1 (Forall_forall _ _) Hs).
    + left. split; [|lia]. unfold basics, below. apply Forall_forall. intros c [Hc _]%list_elem_of_filter. lia.
  - exists 0%nat. split; [lia|]. done.
  - unfold head_text. cbn. destruct (0 <? zlen (basics cs)); [by rewrite zlen_app|done].
  - cbn. by rewrite Z.eqb_refl.
  - done.
  - split; [lia|]. change (zlen (below (INITIAL_N + 1) [])) with 0. cbn [start_state d_i d_n]. unfold INITIAL_N. lia.
Qed.

Lemma head_delimiter cs r :
  last_delimiter (length (head_text cs)) (head_text cs ++ r) (zlen (head_text cs)) = Some (zlen (basics cs)).
Proof.
  unfold head_text. pose proof (zlen_nonneg (basics cs)). destruct (Z.ltb_spec 0 (zlen (basics cs))).
  - rewrite length_app. cbn [length]. rewrite Nat.add_1_r. cbn [last_delimiter].
    rewrite zlen_app. change (zlen [DELIMITER]) with 1. replace (zlen (basics cs) + 1 - 1) with (zlen (basics cs)) by lia.
    rewrite <- app_assoc. cbn [app]. rewrite zget_middle. cbn [mbind option_bind]. by rewrite Z.eqb_refl.
  - cbn. f_equal. change (zlen (@nil Z)) with 0. lia.
Qed.

(** The encoder up to its main loop. *)
Lemma encode_start cs dest e :
  Forall scalar cs -> zlen cs <= 200 ->
  encode_loop (S (length (map key cs))) (map key cs) INITIAL_N (zlen (basics cs)) (zlen dest)
    (Enc 0 INITIAL_BIAS (zlen (basics cs)) (Some (overlay (head_text cs) dest)) (zlen (head_text cs))) = Some (inr e) ->
  u_strToPunycode (Some (enc_text cs)) (zlen (enc_text cs)) (Some dest) (zlen dest) None U_ZERO_ERROR =
    u_terminateUChars (e_dest e) (zlen dest) (e_destLength e) U_ZERO_ERROR.
Proof.
  intros Hs Hl E. unfold u_strToPunycode. cbn [U_FAILURE]. pose proof (zlen_nonneg (enc_text cs)).
  destruct (Z.ltb_spec (zlen (enc_text cs)) (-1)); [lia|]. cbn [orb andb].
  destruct (Z.eqb_spec (zlen (enc_text cs)) (-1)); [lia|].
  pose proof (collect_spec (S (length (enc_text cs))) [] cs dest Hs Hl) as Hc. cbn [app map] in Hc.
  change (enc_text []) with (@nil Z) in Hc. change (basics []) with (@nil Z) in Hc. rewrite overlay_nil in Hc.
  change (zlen (@nil Z)) with 0 in Hc. rewrite Hc by (unfold zlen; lia). cbn [mbind option_bind].
  pose proof (zlen_nonneg (basics cs)). unfold head_text in *. destruct (Z.ltb_spec 0 (zlen (basics cs))).
  - rewrite put_overlay. cbn [mbind option_bind]. rewrite zlen_app in E. change (zlen [DELIMITER]) with 1 in E.
    rewrite E. done.
  - cbn [mbind option_bind]. assert (Eb : basics cs = []) by (apply zlen_0_inv; lia). rewrite Eb in *. 
    change (zlen (@nil Z)) with 0 in *. rewrite E. done.
Qed.

(** The decoder up to its main loop. *)
Lemma decode_start cs ob spare ext st :
  Forall scalar cs -> Forall ext_char ext -> zlen ob = zlen (basics cs) ->
  let puny := head_text cs ++ ext in
  decode_loop (S (length puny)) puny (zlen puny) (zlen (basics cs ++ spare)) (start_state cs spare) = Some (inr st) ->
  u_strFromPunycode (Some puny) (zlen puny) (Some (ob ++ spare)) (zlen (basics cs ++ spare)) None U_ZERO_ERROR =
    ('(d, n, e) ← u_terminateUChars (d_out st).1 (zlen (basics cs ++ spare)) (d_destLength st) U_ZERO_ERROR;
     Some ((d, (d_out st).2), n, e)).
Proof.
  intros Hs Hext Hob puny E. unfold u_strFromPunycode. cbn [U_FAILURE]. pose proof (zlen_nonneg puny).
  destruct (Z.ltb_spec (zlen puny) (-1)); [lia|]. cbn [orb andb].
  destruct (Z.eqb_spec (zlen puny) (-1)); [lia|]. cbn [mbind option_bind].
  pose proof (last_delimiter_spec (head_text cs) ext [] Hext) as Hd. rewrite app_nil_r, head_delimiter in Hd.
  fold puny in Hd. replace (Z.to_nat (zlen puny)) with (length (head_text cs) + length ext)%nat.
  2:{ unfold puny. rewrite zlen_app. unfold zlen. lia. }
  rewrite Hd. cbn [mbind option_bind]. replace (Z.to_nat (zlen (basics cs))) with (length (basics cs)) by (unfold zlen; lia).
  assert (Hcb : exists r, puny = basics cs ++ r).
  { unfold puny, head_text. pose proof (zlen_nonneg (basics cs)). destruct (Z.ltb_spec 0 (zlen (basics cs))).
    - rewrite <- app_assoc. eauto.
    - rewrite (zlen_0_inv (basics cs)) by lia. eauto. }
  destruct Hcb as [r Er].
  assert (Hcopy : copy_basic (length (basics cs)) puny (zlen (basics cs ++ spare)) (zlen (basics cs)) (Some (ob ++ spare), None) =
    Some (inr (Some (basics cs ++ spare), None))).
  { rewrite Er. pose proof (copy_basic_spec (basics cs) [] ob spare r) as Hc. cbn [app] in Hc.
    replace (zlen (basics cs ++ spare)) with (zlen (ob ++ spare)) by (rewrite !zlen_app; lia). apply Hc; [|done].
    apply Forall_forall. intros c [Hc' _]%list_elem_of_filter. done. }
  rewrite Hcopy. cbn [mbind option_bind]. unfold start_state in E. rewrite E. cbn [mbind option_bind]. done.
Qed.

(** C6: for every sequence of at most 200 Unicode scalar values, [u_strToPunycode] of its UTF-16
    form gives an ASCII text, completely when the output array holds it and with the overflow
    error and the needed length otherwise; and [u_strFromPunycode] of that text gives the
    sequence back in UTF-16.  Neither routine reads or writes outside an array or overflows. *)
Theorem punycode_roundtrip cs dest dest2 :
  Forall scalar cs -> zlen cs <= 200 -> zlen (enc_text cs) <= zlen dest2 ->
  exists puny d e d2 e2, Forall (fun x => 0 <= x < 0x80) puny /\
    u_strToPunycode (Some (enc_text cs)) (zlen (enc_text cs)) (Some dest) (zlen dest) None U_ZERO_ERROR =
      Some (Some d, zlen puny, e) /\
    (zlen puny <= zlen dest -> U_FAILURE e = false /\ ztake (zlen puny) d = puny) /\
    (zlen dest < zlen puny -> e = U_BUFFER_OVERFLOW_ERROR) /\
    u_strFromPunycode (Some puny) (zlen puny) (Some dest2) (zlen dest2) None U_ZERO_ERROR =
      Some ((Some d2, None), zlen (enc_text cs), e2) /\
    U_FAILURE e2 = false /\ ztake (zlen (enc_text cs)) d2 = enc_text cs.
Proof.
  intros Hs Hl Hcap. pose proof (below_enc 0x80 cs) as Hbe. fold (basics cs) in Hbe. rewrite basics_enc in Hbe.
  set (spare := drop (length (basics cs)) dest2).
  assert (Hd2 : exists ob, dest2 = ob ++ [] ++ spare /\ zlen ob = zlen (basics cs)).
  { exists (take (length (basics cs)) dest2). cbn [app]. unfold spare. rewrite take_drop. split; [done|].
    unfold zlen in *. rewrite length_take. lia. }
  destruct Hd2 as (ob & Ed2 & Hob).
  assert (Ez2 : zlen dest2 = zlen (basics cs ++ spare)) by (rewrite Ed2, !zlen_app, zlen_nil; lia).
  destruct (encode_loop_spec (S (length (map key cs))) (zlen (basics cs ++ spare)) (start_state cs spare) dest
    (zlen (basics cs)) INITIAL_N cs
    (Enc 0 INITIAL_BIAS (zlen (basics cs)) (Some (overlay (head_text cs) dest)) (zlen (head_text cs)))
    (head_text cs) (start_state cs spare)) as (e1 & st & ext & Eloop & Hext & Hlead & Hin & Hst & Hde & Hdl); auto.
  { lia. } { unfold INITIAL_N. lia. } { cbn. lia. } { cbn [e_handled]. rewrite length_map. pose proof (zlen_nonneg (basics cs)). unfold zlen. lia. }
  { by apply start_agrees. }
  set (puny := head_text cs ++ ext) in *.
  destruct (terminate_success (overlay puny dest) (zlen puny)) as (d & e & Et & Hok & Hover); [apply zlen_nonneg|].
  assert (Ezo : zlen (overlay puny dest) = zlen dest) by (unfold zlen; by rewrite overlay_length). rewrite Ezo in *.
  destruct Hst as [Hcnt Hlen (sp & Eo & Hz) _ _ _ _ _].
  destruct (terminate_success (enc_text cs ++ sp) (zlen (enc_text cs))) as (d2 & e2 & Et2 & Hok2 & _); [apply zlen_nonneg|].
  assert (Hdec : decode_loop (S (length puny)) puny (zlen puny) (zlen (basics cs ++ spare)) (start_state cs spare) = Some (inr st)).
  { destruct Hlead as (k & Hk & Hl'). specialize (Hl' [] (S (length puny) - k)%nat). rewrite app_nil_r in Hl'.
    replace (k + (S (length puny) - k))%nat with (S (length puny)) in Hl' by lia. rewrite Hl'.
    replace (S (length puny) - k)%nat with (S (length puny - k)) by lia. cbn [decode_loop]. by rewrite Hin, Z.ltb_irrefl. }
  exists puny, d, e, d2, e2. split_and!.
  - unfold puny, head_text. apply Forall_app. split.
    + destruct (0 <? _); [|constructor]. apply Forall_app. split; [|by repeat constructor].
      apply Forall_forall. intros c [Hc Hin']%list_elem_of_filter. pose proof (proj1 (Forall_forall _ _) Hs c Hin') as [Hcp _].
      unfold code_point in Hcp. lia.
    + eapply Forall_impl; [exact Hext|]. unfold ext_char. cbn. lia.
  - rewrite (encode_start cs dest e1 Hs Hl Eloop), Hde, Hdl. exact Et.
  - intros Hle. destruct (Hok Hle) as [? ->]. split; [done|]. by apply overlay_prefix.
  - done.
  - pose proof (decode_start cs ob spare ext st Hs Hext Hob Hdec) as Hfrom. fold puny in Hfrom.
    rewrite Ez2, Ed2. cbn [app]. rewrite Hfrom, Eo, Hlen. cbn [fst snd]. rewrite Hz in Et2. by rewrite Et2.
  - apply Hok2. rewrite zlen_app. pose proof (zlen_nonneg sp). lia.
  - destruct Hok2 as [_ ->]; [rewrite zlen_app; pose proof (zlen_nonneg sp); lia|]. apply ztake_app_exact.
Qed.

Lemma punycode_roundtrip_witness :
  exists puny d e d2 e2, Forall (fun x => 0 <= x < 0x80) puny /\
    u_strToPunycode (Some (enc_text [0x62; 0xfc; 0x1f600; 0x63])) 5 (Some (replicate 20 7)) 20 None U_ZERO_ERROR =
      Some (Some d, zlen puny, e) /\
    (zlen puny <= 20 -> U_FAILURE e = false /\ ztake (zlen puny) d = puny) /\
    (20 < zlen puny -> e = U_BUFFER_OVERFLOW_ERROR) /\
    u_strFromPunycode (Some puny) (zlen puny) (Some (replicate 6 1)) 6 None U_ZERO_ERROR = Some ((Some d2, None), 5, e2) /\
    U_FAILURE e2 = false /\ ztake 5 d2 = [0x62; 0xfc; 0xd83d; 0xde00; 0x63].
Proof.
  apply (punycode_roundtrip [0x62; 0xfc; 0x1f600; 0x63] (replicate 20 7) (replicate 6 1)).
  - repeat (constructor; [unfold scalar, code_point; lia|]). constructor.
  - unfold zlen. simpl. lia.
  - unfold zlen. simpl. lia.
Defined.

(** the header says that the Unicode string is at most as long as the Punycode string; a
    repeated supplementary code point costs one character but two units, so eleven
    characters decode to sixteen units. *)
Theorem decoded_text_longer_than_source :
  exists d, u_strFromPunycode (Some [0x32; 0x6e; 0x37; 0x63; 0x61; 0x61; 0x61; 0x61; 0x61; 0x61; 0x61]) 11
    (Some (replicate 20 1)) 20 None U_ZERO_ERROR = Some ((Some d, None), 16, U_ZERO_ERROR) /\
    ztake 16 d = concat (replicate 8 [0xd800; 0xdc00]).
Proof. eexists. split; vm_compute; reflexivity. Qed.

(** the decoder looks digits up by the low byte of a unit, so the non-ASCII text U+016B
    U+0176 U+0161 is accepted and decodes like [kva]; the header promises
    [U_INVALID_CHAR_FOUND] for a character that is not a letter or digit. *)
Theorem decoder_takes_low_byte :
  u_strFromPunycode (Some [0x16b; 0x176; 0x161]) 3 (Some [1; 1]) 2 None U_ZERO_ERROR =
    u_strFromPunycode (Some [0x6b; 0x76; 0x61]) 3 (Some [1; 1]) 2 None U_ZERO_ERROR /\
  u_strFromPunycode (Some [0x16b; 0x176; 0x161]) 3 (Some [1; 1]) 2 None U_ZERO_ERROR =
    Some ((Some [0x369; 0], None), 1, U_ZERO_ERROR).
Proof. split; vm_compute; reflexivity. Qed.

(** ** Safety of the decoder on any input *)

Lemma basicToDigit_total u : exists d, zget basicToDigit (uint8 u) = Some d /\ -1 <= d < 36.
Proof.
  assert (Hr : 0 <= uint8 u < 256) by (unfold uint8; apply Z.mod_pos_bound; lia).
  destruct (zget_is_Some basicToDigit (uint8 u)) as [d Hd]; [change (zlen basicToDigit) with 256; lia|].
  exists d. split; [done|]. assert (Forall (fun d => -1 <= d < 36) basicToDigit) as Hall.
  { unfold basicToDigit. rewrite !Forall_app. split_and!; try (apply Forall_replicate; lia); repeat constructor; lia. }
  apply zget_Some_lookup in Hd as [_ Hd]. exact (Forall_lookup_1 _ _ _ _ Hall Hd).
Qed.

Lemma decode_integer_total fuel src bias i w k in_ :
  0 <= i <= INT32_MAX -> 1 <= w <= INT32_MAX -> 0 <= in_ -> 0 <= zlen src - in_ < Z.of_nat fuel ->
  0 <= k -> k + 36 * (zlen src - in_) <= INT32_MAX ->
  exists r, decode_integer fuel src (zlen src) bias i w k in_ = Some r /\
    match r with inl _ => True | inr (i', in') => i <= i' <= INT32_MAX /\ in_ < in' <= zlen src end.
Proof.
  unfold INT32_MAX. revert i w k in_. induction fuel as [|fuel IH]; intros i w k in_ Hi Hw Hin Hf Hk Hk36; cbn [decode_integer]; [lia|].
  destruct (Z.leb_spec (zlen src) in_); [by eexists|]. destruct (zget_is_Some src in_) as [u ->]; [lia|]. cbn [mbind option_bind].
  destruct (basicToDigit_total u) as (d & -> & Hd). cbn [mbind option_bind]. destruct (Z.ltb_spec d 0); [by eexists|].
  rewrite Z.quot_div_nonneg by lia. destruct (Z.ltb_spec ((0x7fffffff - i) / w) d) as [|Hle]; [by eexists|].
  assert (d * w <= 0x7fffffff - i).
  { pose proof (Z.mul_div_le (0x7fffffff - i) w ltac:(lia)). assert (d * w <= (0x7fffffff - i) / w * w) by (apply Z.mul_le_mono_nonneg_r; lia). lia. }
  assert (0 <= d * w) by (apply Z.mul_nonneg_nonneg; lia).
  rewrite (checked_in (i + d * w)) by (unfold INT32_MIN, INT32_MAX; lia). cbn [mbind option_bind].
  pose proof (threshold_range k bias) as Ht. set (t := threshold k bias) in *.
  destruct (Z.ltb_spec d t); [eexists; split; [done|]; cbn; lia|]. unfold BASE. rewrite Z.quot_div_nonneg by lia.
  destruct (Z.ltb_spec (0x7fffffff / (36 - t)) w) as [|Hlw]; [by eexists|].
  assert (w * (36 - t) <= 0x7fffffff).
  { pose proof (Z.mul_div_le 0x7fffffff (36 - t) ltac:(lia)).
    assert (w * (36 - t) <= 0x7fffffff / (36 - t) * (36 - t)) by (apply Z.mul_le_mono_nonneg_r; lia). lia. }
  assert (1 <= w * (36 - t)) by nia.
  rewrite (checked_in (w * (36 - t))), (checked_in (k + 36)) by (unfold INT32_MIN, INT32_MAX; lia). cbn [mbind option_bind].
  destruct (IH (i + d * w) (w * (36 - t)) (k + 36) (in_ + 1)) as ([e|[i' in']] & -> & Hr); [lia..| |].
  - by eexists.
  - eexists. split; [done|]. cbn. lia.
Qed.

Lemma FWD_N_total n s i length :
  0 <= i <= length -> length <= zlen s -> exists j, U16_FWD_N_loop n s i length = Some j /\ i <= j <= length.
Proof.
  revert i. induction n as [|n IH]; intros i Hi Hs; cbn [U16_FWD_N_loop]; [eexists; split; [done|lia]|].
  destruct (Z.ltb_spec i length); cbn [mbind option_bind].
  - unfold U16_FWD_1. destruct (zget_is_Some s i) as [c ->]; [lia|]. cbn [mbind option_bind].
    assert (exists i', (if U16_IS_LEAD c && negb (i + 1 =? length) then c2 ← zget s (i + 1); Some (if U16_IS_TRAIL c2 then i + 1 + 1 else i + 1)
      else Some (i + 1)) = Some i' /\ i < i' <= length) as (i' & -> & Hi').
    { destruct (U16_IS_LEAD c); cbn [andb]; [|eexists; split; [done|lia]]. destruct (Z.eqb_spec (i + 1) length); cbn [negb]; [eexists; split; [done|lia]|].
      destruct (zget_is_Some s (i + 1)) as [c2 ->]; [lia|]. cbn [mbind option_bind]. eexists. split; [done|]. destruct (U16_IS_TRAIL c2); lia. }
    cbn [mbind option_bind]. destruct (IH i') as (j & -> & Hj); [lia|done|]. eexists. split; [done|lia].
  - destruct (Z.ltb_spec length 0); [lia|]. cbn [mbind option_bind]. eexists. split; [done|lia].
Qed.

Lemma memmove_total {A} (a : list A) to from n :
  0 <= to -> 0 <= from -> 0 <= n -> to + n <= zlen a -> from + n <= zlen a ->
  exists a', memmove a to from n = Some a' /\ zlen a' = zlen a.
Proof.
  intros. unfold memmove. destruct (_ && _) eqn:E; [|lia]. eexists. split; [done|].
  rewrite !zlen_app. unfold ztake, zlen in *. rewrite !length_take, !length_drop. lia.
Qed.

Lemma zset_total {A} (a : list A) i x : 0 <= i < zlen a -> exists a', zset a i x = Some a' /\ zlen a' = zlen a.
Proof. intros Hi. rewrite zset_in by done. eexists. split; [done|]. unfold zlen. by rewrite length_insert. Qed.

(** The arrays have the size that the caller says. *)
Definition fits (cap : Z) (out : output) : Prop :=
  match out.1 with Some d => zlen d = cap | None => cap = 0 end /\
  match out.2 with Some f => zlen f = cap | None => True end.

Lemma insert_cp_total d flags destLength ci n cpLength upper :
  1 <= cpLength <= 2 -> 0 <= ci <= destLength -> destLength + cpLength <= zlen d -> fits (zlen d) (Some d, flags) ->
  exists d' flags', insert_cp d flags destLength ci n cpLength upper = Some (d', flags') /\ fits (zlen d) (Some d', flags').
Proof.
  intros Hl Hci Hroom [_ Hf]. cbn in Hf. unfold insert_cp.
  assert (exists d1, (if ci <? destLength then memmove d (ci + cpLength) ci (destLength - ci) else Some d) = Some d1 /\ zlen d1 = zlen d)
    as (d1 & -> & Hd1).
  { destruct (Z.ltb_spec ci destLength); [apply memmove_total; lia|eauto]. }
  cbn [mbind option_bind].
  assert (exists f1, (match flags with
     | Some f => if ci <? destLength then f ← memmove f (ci + cpLength) ci (destLength - ci); Some (Some f) else Some (Some f)
     | None => Some None end) = Some f1 /\ match f1 with Some f => zlen f = zlen d | None => True end) as (f1 & -> & Hf1).
  { destruct flags as [f|]; [|by eexists]. destruct (Z.ltb_spec ci destLength); [|by eexists].
    destruct (memmove_total f (ci + cpLength) ci (destLength - ci)) as (f' & -> & Hf'); [lia..|]. eexists. split; [done|]. cbn. lia. }
  cbn [mbind option_bind].
  assert (exists d2, (if cpLength =? 1 then zset d1 ci (uint16 n)
     else d ← zset d1 ci (U16_LEAD n); zset d (ci + 1) (U16_TRAIL n)) = Some d2 /\ zlen d2 = zlen d) as (d2 & -> & Hd2).
  { destruct (Z.eqb_spec cpLength 1).
    - destruct (zset_total d1 ci (uint16 n)) as (d2 & -> & ?); [lia|]. eexists. split; [done|lia].
    - destruct (zset_total d1 ci (U16_LEAD n)) as (d2 & -> & ?); [lia|]. cbn [mbind option_bind].
      destruct (zset_total d2 (ci + 1) (U16_TRAIL n)) as (d3 & -> & ?); [lia|]. eexists. split; [done|lia]. }
  cbn [mbind option_bind]. destruct f1 as [f|]; cbn [mbind option_bind].
  - destruct (zset_total f ci upper) as (f2 & -> & Hf2); [lia|]. cbn [mbind option_bind].
    assert (exists f3, (if cpLength =? 2 then zset f2 (ci + 1) false else Some f2) = Some f3 /\ zlen f3 = zlen d) as (f3 & -> & Hf3).
    { destruct (Z.eqb_spec cpLength 2); [|eexists; split; [done|lia]].
      destruct (zset_total f2 (ci + 1) false) as (f3 & -> & ?); [lia|]. eexists. split; [done|lia]. }
    cbn [mbind option_bind]. eexists _, _. split; [done|]. split; cbn; lia.
  - eexists _, _. split; [done|]. split; [cbn; lia|done].
Qed.

(** The invariant of the main decoding loop on any input. *)
Record sound (cap : Z) (src : list Z) (st : dec) : Prop := {
  so_n : 0x80 <= d_n st <= 0x10ffff;
  so_i : 0 <= d_i st <= d_cpCount st;
  so_in : 0 <= d_in st <= zlen src;
  so_count : d_cpCount st <= d_in st;
  so_length : d_cpCount st <= d_destLength st;
  so_first : 0 <= d_first st;
  so_fits : fits cap (d_out st)
}.

Lemma U16_LENGTH_range n : 1 <= U16_LENGTH n <= 2.
Proof. unfold U16_LENGTH. zcases. Qed.

Lemma decode_turn_sound cap src st :
  sound cap src st -> d_in st < zlen src -> zlen src <= 50000000 ->
  exists r, decode_turn src (zlen src) cap st = Some r /\
    match r with inl (_, out) => fits cap out | inr st' => sound cap src st' /\ d_in st < d_in st' end.
Proof.
  intros [Hn Hi Hin Hc Hl Hf Hfit] Hlt Hsmall. unfold decode_turn, BASE.
  destruct (decode_integer_total (S (length src)) src (d_bias st) (d_i st) 1 36 (d_in st)) as ([e|[i in_]] & -> & Hr);
    [unfold INT32_MAX; lia|unfold INT32_MAX; lia|lia|unfold zlen in *; lia|lia|unfold INT32_MAX; lia| |]; cbn [mbind option_bind].
  { by eexists. }
  destruct Hr as [Hri Hrin]. unfold INT32_MAX in Hri.
  destruct (adaptBias_spec 5 (i - d_i st) (d_cpCount st + 1) (d_i st =? 0)) as (bias & -> & _);
    [unfold INT32_MAX; lia|change (456 * 35 ^ Z.of_nat 5) with 23949975000; lia|lia|lia|]. cbn [mbind option_bind].
  rewrite Z.quot_div_nonneg, Z.rem_mod_nonneg by lia.
  pose proof (Z.mod_pos_bound i (d_cpCount st + 1) ltac:(lia)) as Hmod.
  assert (0 <= i / (d_cpCount st + 1)) by (apply Z.div_pos; lia).
  destruct (Z.ltb_spec (0x7fffffff - d_n st) (i / (d_cpCount st + 1))); [by eexists|].
  rewrite checked_in by (unfold INT32_MIN, INT32_MAX; lia). cbn [mbind option_bind].
  set (n := d_n st + i / (d_cpCount st + 1)) in *. set (k := i mod (d_cpCount st + 1)) in *.
  destruct ((0x10ffff <? n) || U_IS_SURROGATE n) eqn:Hbad; [by eexists|].
  pose proof (U16_LENGTH_range n) as Hln. apply orb_false_iff in Hbad as [Hmax _].
  assert (Hnext : forall out first, fits cap out -> 0 <= first ->
    sound cap src (Dec n (k + 1) bias in_ (d_cpCount st + 1) first (d_destLength st + U16_LENGTH n) out)).
  { intros out first Hout Hfirst. split; cbn; auto; lia. }
  destruct (d_out st).1 as [d|] eqn:Ed; [destruct (Z.leb_spec (d_destLength st + U16_LENGTH n) cap) as [Hroom|]|].
  2,3: cbn [mbind option_bind]; eexists; split; [done|]; split; [by apply Hnext|cbn; lia].
  assert (Hcap : zlen d = cap) by (destruct Hfit as [Hfit _]; by rewrite Ed in Hfit).
  assert (exists ci first, unit_index d (d_destLength st) (d_first st) k (U16_LENGTH n) = Some (ci, first) /\
    0 <= ci <= d_destLength st /\ 0 <= first) as (ci & first & -> & Hci & Hfirst).
  { unfold unit_index. destruct (Z.leb_spec k (d_first st)).
    - eexists _, _. split; [done|]. destruct (1 <? U16_LENGTH n); lia.
    - unfold U16_FWD_N. destruct (FWD_N_total (Z.to_nat (k - d_first st)) d (d_first st) (d_destLength st)) as (j & -> & Hj); [lia|lia|].
      cbn [mbind option_bind]. eexists _, _. split; [done|]. lia. }
  cbn [mbind option_bind]. destruct (zget_is_Some src (in_ - 1)) as [u ->]; [lia|]. cbn [mbind option_bind].
  destruct (insert_cp_total d (d_out st).2 (d_destLength st) ci n (U16_LENGTH n) (IS_BASIC_UPPERCASE u)) as (d' & f' & -> & Hfit');
    [lia|lia|lia|split; [done|]; destruct Hfit as [_ Hfit]; by rewrite Hcap|].
  cbn [mbind option_bind]. eexists. split; [done|]. split; [|cbn; lia]. apply Hnext; [|done]. by rewrite Hcap in Hfit'.
Qed.

Lemma decode_loop_sound fuel cap src st :
  sound cap src st -> zlen src <= 50000000 -> zlen src - d_in st < Z.of_nat fuel ->
  exists r, decode_loop fuel src (zlen src) cap st = Some r /\
    match r with inl (_, out) => fits cap out | inr st' => sound cap src st' end.
Proof.
  intros Hs Hsmall. revert st Hs. induction fuel as [|fuel IH]; intros st Hs Hf; cbn [decode_loop].
  { pose proof (so_in _ _ _ Hs). lia. }
  destruct (Z.ltb_spec (d_in st) (zlen src)).
  - destruct (decode_turn_sound cap src st Hs) as ([[e out]|st'] & -> & Hr); [done..| |]; cbn [mbind option_bind].
    + by eexists.
    + destruct Hr as [Hs' Hin]. apply IH; [done|lia].
  - by eexists.
Qed.

Lemma last_delimiter_total n src j :
  Z.of_nat n = j -> j <= zlen src -> exists k, last_delimiter n src j = Some k /\ 0 <= k <= j /\ (0 < k -> k < j).
Proof.
  revert j. induction n as [|n IH]; intros j Hn Hj; cbn [last_delimiter]; [eexists; split; [done|lia]|].
  destruct (zget_is_Some src (j - 1)) as [c ->]; [lia|]. cbn [mbind option_bind].
  destruct (c =? DELIMITER); [eexists; split; [done|lia]|]. destruct (IH (j - 1)) as (k & -> & Hk); [lia|lia|].
  eexists. split; [done|lia].
Qed.

Lemma copy_basic_total n src cap j out :
  Z.of_nat n = j -> j <= zlen src -> fits cap out ->
  exists r, copy_basic n src cap j out = Some r /\ match r with inl (_, out) => fits cap out | inr out => fits cap out end.
Proof.
  revert j out. induction n as [|n IH]; intros j [dest flags] Hn Hj Hfit; cbn [copy_basic]; [by eexists|].
  destruct (zget_is_Some src (j - 1)) as [c ->]; [lia|]. cbn [mbind option_bind]. destruct (negb (IS_BASIC c)); [by eexists|].
  destruct (Z.ltb_spec (j - 1) cap); cbn [mbind option_bind]; [|apply IH; auto; lia]. destruct Hfit as [Hd Hf]. cbn [fst snd] in *.
  destruct dest as [d|]; [|lia]. cbn [mbind option_bind]. destruct (zset_total d (j - 1) c) as (d' & -> & Hd'); [lia|].
  cbn [mbind option_bind]. destruct flags as [f|]; cbn [mbind option_bind].
  - destruct (zset_total f (j - 1) (IS_BASIC_UPPERCASE c)) as (f' & -> & Hf'); [lia|]. cbn [mbind option_bind].
    apply IH; [lia|lia|]. split; cbn; lia.
  - apply IH; [lia|lia|]. split; [cbn; lia|done].
Qed.

(** C22: on any input of up to fifty million units, well-formed or not, [u_strFromPunycode]
    returns: it reads and writes only inside its arrays, its 32-bit arithmetic never
    overflows, and the arrays keep their sizes. *)
Theorem punycode_decoder_safe src dest caseFlags :
  let cap := match dest with Some d => zlen d | None => 0 end in
  zlen src <= 50000000 -> fits cap (dest, caseFlags) ->
  exists out n e, u_strFromPunycode (Some src) (zlen src) dest cap caseFlags U_ZERO_ERROR = Some (out, n, e) /\
    fits cap out.
Proof.
  intros cap Hsmall Hfit. pose proof (zlen_nonneg src). unfold u_strFromPunycode. cbn [U_FAILURE].
  destruct (Z.ltb_spec (zlen src) (-1)); [lia|]. cbn [orb].
  assert ((match dest with None => true | _ => false end && negb (cap =? 0)) = false) as -> by (unfold cap; by destruct dest).
  destruct (Z.eqb_spec (zlen src) (-1)); [lia|]. cbn [mbind option_bind].
  destruct (last_delimiter_total (Z.to_nat (zlen src)) src (zlen src)) as (k & -> & Hk); [lia|lia|]. cbn [mbind option_bind].
  destruct (copy_basic_total (Z.to_nat k) src cap k (dest, caseFlags)) as ([[e out]|out] & -> & Hout); [lia|lia|done| |]; cbn [mbind option_bind].
  { by eexists _, _, _. }
  destruct (decode_loop_sound (S (length src)) cap src
    (Dec INITIAL_N 0 INITIAL_BIAS (if 0 <? k then k + 1 else 0) k 1000000000 k out)) as ([[e out']|st] & -> & Hr); auto; cbn [mbind option_bind].
  - split; cbn; auto; try (unfold INITIAL_N; lia); destruct (Z.ltb_spec 0 k); lia.
  - cbn [d_in]. destruct (Z.ltb_spec 0 k); unfold zlen; lia.
  - by eexists _, _, _.
  - destruct Hr as [_ Hi _ _ Hlen _ Hfit']. unfold u_terminateUChars. cbn [U_SUCCESS U_FAILURE negb].
    destruct (Z.ltb_spec (d_destLength st) 0); [lia|]. destruct Hfit' as [Hd Hf].
    destruct (Z.ltb_spec (d_destLength st) cap).
    + destruct (d_out st).1 as [d|]; [|lia]. cbn [mbind option_bind]. destruct (zset_total d (d_destLength st) 0) as (d' & -> & Hd'); [lia|].
      cbn [mbind option_bind]. eexists _, _, _. split; [done|]. split; [cbn; lia|done].
    + destruct (d_destLength st =? cap); cbn [mbind option_bind]; eexists _, _, _; (split; [done|]); by split.
Qed.

Lemma punycode_decoder_safe_witness :
  exists out n e, u_strFromPunycode (Some [0x2d; 0x39; 0x39; 0x7a]) 4 (Some [1; 1; 1]) 3 (Some [true; true; true]) U_ZERO_ERROR =
    Some (out, n, e) /\ fits 3 out.
Proof. apply (punycode_decoder_safe [0x2d; 0x39; 0x39; 0x7a] (Some [1; 1; 1]) (Some [true; true; true])); [done|by split]. Defined.
End PunycodeFacts.
